(* ===== verification/_CoqProject ===== *)
-Q . S2P
Prelude.v
Der.v
Cbs.v
CbsLemmas.v
CbsAsn1.v
CbsProps.v
Cbb.v
CbbLemmas.v
CbbOps.v
SetOf.v
Oid.v
CbbSafe.v
CbbProps.v
Unicode.v
Ber.v
Base64.v
Base64Props.v
PbCommon.v
PbEncode.v
PbEncodeLemmas.v
PbIstream.v
PbDecode.v
PbMessage.v
PbRoundTrip.v
PbProps.v
PbSafe.v
Ordered.v
OrderedCode.v
OrderedCodeStrings.v
OrderedCodeNums.v
OrderedCodeSigned.v
OrderedCodeProps.v
Comparator.v
LevelDbKey.v
LevelDbKeyLemmas.v
LevelDbKeyProps.v
Crc32c.v
Coding.v
Status.v
EnvPosix.v
LogWriter.v
LogReader.v
LogReading.v
LogProps.v
DbFormat.v
Bloom.v
WriteBatch.v
VersionEdit.v
Arena.v
Random.v
SkipList.v
SkipListLemmas.v
SkipListProps.v
SkipListConcurrent.v
MemTable.v
MemTableProps.v
DbWrite.v
DbWriteProps.v
DbGet.v
DbLog.v
DbRecover.v
DbRecoverProps.v
EnvRandom.v
Iterator.v
Block.v
BlockProps.v
FilterBlock.v
TwoLevel.v
TableFormat.v
TableBuilder.v
Table.v
TableBuilding.v
TableProps.v
Merger.v
DbIter.v
DbIterProps.v
SortedTree.v
SortedTreeProps.v
SortedMap.v
SortedMapProps.v
