(* ===== verification/Prelude.v ===== *)
(** * Byte formats and the store below them: BoringSSL's byte strings and base64, nanopb, Firestore's keys
    and sorted maps, LevelDB's log, memory table, writes and tables

    The repository is a Flutter application; the C and C++ in it are what its iOS build vendors under
    src/ios/Pods.  This development models the parts of that code that read and write byte formats,
    where a wrong bound or a wrong bit is a vulnerability, and the path of an update into LevelDB
    and back after a crash, where a wrong step is lost data:

    - BoringSSL's byte-string library (BoringSSL-GRPC/src/crypto/bytestring): the reader [CBS]
      (cbs.c), the builder [CBB] (cbb.c), code points in strings (unicode.c) and the conversion of
      BER to DER (ber.c);
    - BoringSSL's base64 (crypto/base64/base64.c) with the constant-time primitives of
      crypto/internal.h it is made of;
    - nanopb (nanopb/pb.h, pb_common.c, pb_encode.c, pb_decode.c), the protobuf runtime of
      Firestore: field descriptors and their iterator, the encoder, the decoder;
    - the keys of Firestore's local store: the ordered code of numbers and strings
      (FirebaseFirestore/Firestore/core/src/util/ordered_code.cc) and the classes of keys made of it
      (local/leveldb_key.cc);
    - Firestore's immutable sorted maps and sets (FirebaseFirestore/Firestore/core/src/immutable): the
      left-leaning red-black tree (llrb_node.h, llrb_node_iterator.h, tree_sorted_map.h), the sorted
      array (array_sorted_map.h), the map that switches between them (sorted_map.h,
      sorted_map_iterator.h), views of keys (keys_view.h) and sets (sorted_set.h);
    - LevelDB (leveldb-library), which keeps that store: comparators (util/comparator.cc), checksums
      (util/crc32c.cc), coding (util/coding.cc), files on POSIX (util/env_posix.cc), the log
      (db/log_writer.cc, log_reader.cc), write batches (db/write_batch.cc), the edits of its manifest
      (db/version_edit.cc), internal keys (db/dbformat.cc), the memory table (db/memtable.cc) with its
      skip list (db/skiplist.h), arena (util/arena.cc) and random numbers (util/random.h), of the
      database (db/db_impl.cc) writing, looking up in memory, and recovery, and the tables on disk: blocks (table/block_builder.cc,
      block.cc), bloom filters (util/bloom.cc, table/filter_block.cc), the file format
      (table/format.cc), building and reading (table/table_builder.cc, table.cc) and the iterators
      over them (table/iterator.cc, iterator_wrapper.h, two_level_iterator.cc, merger.cc), up to the
      iterator of the database (db/db_iter.cc).

    ** How the parts interact

    The builder calls the reader to find the elements of a SET OF and to parse the text of an OID;
    unicode.c reads from a [CBS] and writes to a [CBB]; ber.c reads BER with the reader and writes
    DER with the builder.  In nanopb the encoder and the decoder walk a message with the iterator,
    guided by descriptors, and move bytes through an output or an input stream, which is a memory
    buffer or a callback of the client; the encoder calls itself for a submessage, first on a
    sizing stream; the decoder makes a substream for it.

    Firestore writes a row under a key of ordered code; LevelDB compares keys as bytes, so that a
    scan from a prefix finds rows in the order of their fields.  An update goes to LevelDB as a write
    batch, which uses the coding.  Threads that write queue up; the one at the front merges the
    batches of those behind it, makes a record of the log of them, which the log writer cuts into
    fragments with checksums and appends to a file, and inserts them into the memory table, a skip
    list of internal keys that readers walk without a lock; a full table is set aside with its log
    until the background thread has written it to a file.  When the database is opened the log
    reader gives the records back and each batch is replayed into a memory table.

    In memory Firestore keeps documents and keys in sorted maps whose operations return a new map and
    leave the old one: up to 25 entries are an array, more are a tree that shares its nodes with other
    versions; sets and views of keys are made of maps.

    A table is written by a builder that fills a block with entries until it is large enough, appends
    it to a file with a checksum, and then puts a key between this block and the next into the block
    of the index; the filters are over the keys of the blocks.  It is read through a file that can be
    read at random, and a cache of blocks, by an iterator over the index that leads to iterators over
    blocks; a lookup seeks in the index, asks the filter, and then seeks in one block.  A client who
    walks through the database does so over an iterator that merges those of all tables, and sees of
    each key the newest update at the sequence number of the snapshot.

    The parts know each other by interfaces with laws: files by [WritableFile] and [SequentialFile]
    ([AppendOnly], [Durable], [FiniteFile]), of which the POSIX files are instances; comparators by
    [Comparator] ([ComparatorLaws], [WeakOrder]), of which the bytewise one is an instance and the
    one of internal keys over any other; memory by [Allocator]; a memory table by [MemTable] to the
    write batch and by [Table] to the database; level 0 by [Level0] to recovery; iterators by
    [Iterator] ([Walks]: they move along these entries); files read at random by [RandomAccessFile]
    ([Serves]); filter policies by [FilterPolicy] ([FilterPolicyLaws]); caches of blocks by
    [BlockCache] ([BlockCacheLaws]); sorted maps by [MapOps] ([MapLaws]), of which the array, the tree
    and the map of both are instances.

    ** Conventions

    An unsigned machine integer is a [Z], and every operation of the source that can wrap is
    written with [u8], [u16], [u32] or [u64]; [sint] reads it as signed.  [size_t] has 64 bits and
    the target is little-endian.  A fallible operation on a state [S] is an [M S A], which returns
    [None] for the error return together with the state it leaves behind: what the code has
    written before it fails is in the model.  [let*], [;;;], [check] and [fail] compose them the
    way the early returns do.  A computation that waits for the system is a [D S A]: [None] means
    that it has not returned yet, and that it returns is proved.  Firestore's [HARD_ASSERT] aborts in
    every build, and is modelled as that.  C's [assert], which the project leaves on, guards against
    callers: what it asks is a hypothesis of the theorems (different keys in a skip list, ascending keys
    in a block, internal keys of 8 bytes or more), and a definition says nothing of a call that breaks
    it; where the code itself can get there with what it has read, the abort is modelled
    ([InternalKey_Encode]).  malloc and realloc are parameters ([malloc_ok], [realloc_ok],
    [available]): whether a request is met; what fresh memory holds is [junk].  Functions reached
    through pointers that clients fill in, and system calls, are parameters as well.

    LevelDB's arena gets its blocks from [operator new], here the [Allocator], which may refuse one.
    The code then does not return (it throws, and nothing catches), and neither does the model.  The
    theorems on what is built over an arena say that an operation returns unless the very block that it
    needs, for the size that it asks for, is refused on top of the blocks that the arena has ([denied],
    [starved], [table_starved]); an allocator that never refuses excludes it ([denied_none],
    [table_starved_none], [lost_none]).

    ** The files

    - [Prelude]: machine integers, byte strings, the monads, little- and big-endian values, and the
      lemmas about them that the components share.  [Der]: the reference definitions of DER:
      identifier and length octets, [der_tlv], INTEGER contents, base-128 numbers.
    - [Cbs]: every function of cbs.c.  A [CBS] is the list of bytes it still covers, so that
      advancing drops a prefix; [None] leaves it where the C code does.  [CbsLemmas] has the class
      [Reader] (what remains is a suffix of the input), with an instance for every reader, and
      base-128 numbers, and byte swapping; [CbsAsn1] has elements, INTEGER and BOOLEAN; [CbsProps]
      the properties.
    - [Cbb]: every function of cbb.c, on a [heap]: the shared [cbb_buffer_st] and the builders, by
      address.  A builder holds the address of the child that is still open, so the aliasing of
      the source (a child writes into the parent's buffer, and the parent's next operation closes
      it) is in the model.  So is the life of the buffer: [CBB_cleanup] and [CBB_finish] free it while
      children may still point at it, and following a null pointer or one to freed memory leaves the
      store [Undefined].  [CbbLemmas] has the builder's states ([ready], [opened], [pending]),
      buffers and flushing; [CbbOps] the judgment [fills] (an operation appends these bytes or the
      builder fails), which composes; [CbbSafe] memory safety of every operation that bytestring.h
      permits; [SetOf] and
      [Oid] the functions on sets and on OID text; [CbbProps] the properties.
    - [Unicode]: unicode.c against the reference [utf8].
    - [Ber]: ber.c; what it does on DER and on constructed strings.
    - [Base64], [Base64Props]: base64.c; [encode_all] and [decode_all] drive the streaming functions
      over chunks of the input.
    - [PbCommon]: descriptors ([pb_field_t]), message memory (bytes by address), the accessors of
      C structures in it, and pb_common.c.
    - [PbEncode]: pb_encode.c.  An output stream has what was written so far in [out].
      [PbEncodeLemmas] has the judgment [emitter]: an encoding function writes the same bytes to
      every stream that has room for them, and sizes them exactly; descriptors and a message for
      the witnesses; the size theorem; what the iterator finds.
    - [PbIstream]: the stream functions of pb_decode.c, with what lies ahead in [state], and lemmas
      on varints and reading.  [PbDecode]: allocation, scalar fields, defaults and
      release, on a state of memory, allocator and stream.  [PbMessage]: fields, extensions, the
      main loop and the entry points.  [PbRoundTrip], [PbProps]: integers and scalar fields there
      and back.  [PbSafe]: the decoder reads inside its input, and scalar, string and bytes decoders
      write inside their field.
    - [Ordered]: the class of codes that compare, as bytes, like what they stand for, and are read
      back; it composes.  [OrderedCode]: ordered_code.cc, with the loops over words and bytes of the
      build.  [OrderedCodeStrings], [OrderedCodeNums], [OrderedCodeSigned]: instances for strings,
      numbers, signed numbers and doubles; [OrderedCodeProps]: sequences of items.
    - [Comparator]: slices and the bytewise comparator.  [LevelDbKey]: leveldb_key.cc: the reader and
      the writer of components, and [Key], [KeyPrefix] and [Decode] of every class.
      [LevelDbKeyLemmas] has components and the judgments [writes] and [takes]; [LevelDbKeyProps]
      the properties.
    - [SortedTree]: the nodes of the tree as values (every node that is changed has just been made, so
      that nobody else sees it), the map over them, iterators as stacks of nodes.  [SortedTreeProps]:
      sorted lists of entries, sizes ([sized]), balance ([legal]), and what rotations and the moves of
      an erasure leave; erasure, searches and iterators.  [SortedMap]: the array, the
      map of both, views and sets; [SortedMapProps]: the laws, their instances, and the properties.
    - [Crc32c]: crc32c.cc against the division by the polynomial, bit by bit.  [Coding]: coding.cc.
    - [Status]: LevelDB's [Status], the interfaces of files and their laws.  [EnvPosix]:
      [PosixSequentialFile] and [PosixWritableFile] on a [World] of system calls, as instances of
      the laws; a small system for the witnesses.  [EnvRandom]: files that are read at random.
    - [LogWriter], [LogReader]: log_writer.cc and log_reader.cc on any file with the interface.
      [LogReading]: what a log looks like ([layout], [fragmented], [log_layout]), that the writer
      makes one, and what the reader makes of one, whole or cut off; [LogProps]: the
      properties, on any file and on POSIX files, and examples of what is not as it should be.
    - [WriteBatch]: write_batch.cc on any handler and any memory table.
    - [VersionEdit]: version_edit.cc; readers that accept exactly given bytes ([exact]) compose, and an
      encoded edit is a sequence of fields ([fields_bytes]).
    - [DbFormat]: internal keys and lookup keys (dbformat.cc), and filter policies.
    - [Arena]: arena.cc, with blocks as regions of addresses.  [Random]: random.h.
    - [SkipList]: skiplist.h on a heap of nodes with towers of links.  [SkipListLemmas]: a list and its
      levels as paths ([rep]), searching it, and the stores of an insertion one by one;
      [SkipListProps]: the list as a sorted sequence.
      [SkipListConcurrent]: insertion cut at its stores and a search cut at its loads, interleaved.
    - [MemTable], [MemTableProps]: memtable.cc; tables as sets of entries ([holds]).
    - [DbWrite]: [Write], [BuildBatchGroup], [MakeRoomForWrite] and [Get] of db_impl.cc as steps of
      threads on what the mutex protects ([DB]); a step is what one thread does while it holds the
      mutex, or what the front writer does alone without it; the background thread is a step as
      well.  [Get] has three moments, with any steps of others between them: it takes down under the
      mutex the sequence number and the tables, and then looks into the one and into the other.
      [DbWriteProps]: the batch of a group, and the invariant ([good]) of all runs;
      [DbGet]: lookups, with the memory table of memtable.cc; [DbLog]: the invariant ([durable]) of
      runs in which nothing fails, which ties the logs to the tables.
    - [DbRecover]: [RecoverLogFile] and the loop of [Recover] over the logs; [DbRecoverProps]: recovery
      of any file, and of what a run leaves when it stops; runs on a disk, for the witnesses.
    - [Bloom]: bloom.cc and hash.cc.  [FilterBlock]: filter_block.cc on any policy; a filter block as
      the filters of ranges of offsets ([filters_of]).
    - [Iterator]: iterator.h, iterator.cc and iterator_wrapper.h; [Walks], the contract of iterators.
      [TwoLevel]: two_level_iterator.cc, and that it walks along the blocks one after the other.
      [Merger]: merger.cc, and that it walks along all entries of its children in order ([Merges]): each
      child is where the next entry of the whole is or would be in it ([place]), or one before.
    - [DbIter]: db_iter.cc.  [DbIterProps]: what a client sees of internal entries ([user_view]), and
      that the iterator walks along it, by invariants of the search forward ([searching]) and back
      ([passed]); it over a merging iterator over two blocks, for the witness.
    - [Block]: block_builder.cc and block.cc.  [BlockProps]: a block as entries that share what they
      can with the one before ([placed], [block_of]); building makes one, and its iterator walks
      along it.
    - [TableFormat]: format.cc; blocks in a file ([laid]).  [TableBuilder]: table_builder.cc.
      [TableBuilding]: what a table looks like ([is_table]), and that the builder makes one, by an
      invariant of its state ([building]).  [Table]: table.cc.  [TableProps]: opening, iterating and
      looking up, of anything that is a table; the properties, and a table on a disk for the
      witnesses.

    ** What the theorems show

    - Exact readers: [cbs_element_exact], [cbs_int64_exact], [cbs_uint64_exact], [cbs_bool_exact],
      [cbs_base128_exact], [utf8_reader_exact], [pb_varint_exact], [coding_varint_exact],
      [ordered_code_readers_exact], [leveldb_key_decode_exact], [write_batch_iterate_exact],
      [version_edit_decode_exact]: a reader accepts exactly the encodings, by a reference definition,
      and returns the value and the rest.
    - Exact writers: [cbb_der_tree] (any tree of nested children), [cbb_asn1_values],
      [cbb_fixed_width], [cbb_length_prefixed], [cbb_set_of_sorted], [oid_from_text_exact],
      [base64_streaming_encode].
    - Round trips: [cbb_cbs_round_trip], [oid_text_round_trip], [unicode_round_trip],
      [base64_round_trip], [base64_streaming_round_trip], [pb_integer_round_trip],
      [pb_scalar_round_trip], [coding_round_trip], [log_round_trip], [write_batch_replay],
      [version_edit_round_trip].
    - Order: [ordered_code_order], [leveldb_key_order], [leveldb_document_order]: bytes compare like
      what they encode; [ordered_code_scan] and [leveldb_prefix_scan]: so a range scan finds the rows
      meant; [bytewise_separator]: the index keys of LevelDB's tables lie where they must.
    - Sorted maps: [sorted_map_model] (a map is what a function changed in the same way is),
      [tree_stays_balanced], [keys_in_window], [sorted_set_union].
    - The memory table: [skiplist_sorted], [memtable_get_newest], [internal_key_comparator],
      [internal_key_round_trip], [arena_regions_apart]; readers without a lock: [skiplist_read_unlocked]
      (at every moment they see a sorted list), [skiplist_read_ends] (they do not wait for writers).
    - The database: [db_writes_serial] (order of answers, and what the tables hold, whatever fails),
      [db_get_newest] (a lookup sees what was acknowledged, and nothing else), [crash_recovery] (logs
      give back what was acknowledged, and the group being written whole or not at all),
      [recovery_returns] (on any file).
    - Tables: [block_round_trip], [table_round_trip] (what was put in is what iterators walk along),
      [table_lookup] (a lookup finds the first entry not before its target; filters only skip what is
      not there), [bloom_no_false_negative].
    - Walking through the database: [merging_iterator] (all entries of its children, in order),
      [database_iterator] (each key with what a lookup answers).
    - Crashes and termination: [log_crash_safe] (no acknowledged record is lost, whatever part of
      the next has reached the file), [log_reader_terminates] (on any file), and
      [posix_writable_file_refines] (an append-only file, whatever the system calls do).
    - Safety: [cbb_memory_safe] (nothing is stored outside the buffer, and no freed one is used),
      [pb_decode_reads_inside], [pb_static_writes_inside],
      [cbs_readers_move_forward]; the size promised is the size written: [pb_encoded_size_exact].
    - Errors: [ordered_code_num_abort], [leveldb_decode_other_class]: when reading a key aborts;
      [cbb_error_sticks].
    - Equivalence of optimised code: [crc32c_extend_spec], [base64_constant_time_tables],
      [cbs_mem_equal_decides], [base64_decode_chunking].

    ** Bounds and fuel

    The source's loops over an input end because the input gets shorter: a model of one takes the
    length of the input plus one as fuel ([rounds], [find_ber_loop], [encode_lines],
    [read_segments], [iterate_loop]).  A 64-bit varint loop stops by itself after ten bytes; the
    base-128 writer needs ten rounds, and has them.  [CBB_flush] recurses along a chain of open
    children, each another object, so the number of objects bounds it.  The iterator passes every
    entry of a descriptor array at most once before it is back ([iter_fuel]).  A list of extensions
    has no more cells than the memory has bytes.  A message type may contain itself, so nesting is
    bounded by a parameter [depth] of the encoder and of the decoder.  A fragment of a log record
    is empty only when its record is, or in the first turn, so that [AddRecord] needs two turns more
    than the record has bytes; [ReadPhysicalRecord] needs two turns; [ReadRecord] takes its fuel as
    an argument, and [log_reader_terminates] says how much is enough; so does recovery, with
    [recovery_returns].  A search in a skip list takes a turn for every node or level it passes:
    [size heap + kMaxHeight + 1].  An erasure from a tree goes to a smaller tree with every call
    ([erase_fuel]), and a loop over a map takes as many steps as it has entries ([walk_fuel]).  A
    block has fewer entries and fewer restart points than bytes ([entries_fuel]), and an index no
    more blocks than its block has bytes ([index_patience]).  The loops of the database's iterator
    pass an entry in every turn; a turn of the loop that samples adds to a number of bytes unless the
    random number has 21 zeros at its end, which no two in a row have ([no_two_idle],
    [sampling_fuel]).  A call that is retried when
    a signal interrupts it ends only if signals do: [patience] bounds them.

    ** What is not modelled

    asn1_compat.c (copying a finished builder out for the old interface); the rest of BoringSSL
    (ciphers, curves, bignums, X.509 and TLS, built on what is here); upb, a second protobuf
    runtime; gRPC, Abseil and the Objective-C dependencies; the application, in Dart.  In nanopb the
    configurations that are not built ([PB_BUFFER_ONLY], [PB_NO_ERRMSG], [PB_FIELD_16BIT],
    [PB_WITHOUT_64BIT], [PB_OLD_CALLBACK_STYLE]).  Of leveldb_key.cc [DescribeKey], text for
    debugging.  Of LevelDB the versions, compactions, opening and deleting a database, and
    which tables its iterator goes over; of tables [ChangeOptions] and when the memory of blocks is
    freed (cleanups of iterators, references into the cache); of env_posix.cc directories, locks and
    threads.  Weak memory: the loads and stores of the skip list happen in one order.  A loss of power:
    a crash here is that of the process.  Of Firestore all but its keys and its sorted maps, the values
    in which are compared by equality, and whose reference counts are not modelled.

    ** Plan

    Next: the cache of tables and the iterator of a memory table; that the queue of writers cannot get
    stuck.  Then what the BER converter writes on BER; whole messages of nanopb
    there and back, strings, bytes and arrays included; depth enough for a descriptor table without
    cycles; what [pb_release] frees. *)
From Stdlib Require Export ZArith Lia.
From Stdlib Require Ascii String.
From stdpp Require Export base tactics numbers list.

#[global] Open Scope Z_scope.

(** ** Machine integers

    An unsigned [w]-bit C integer is a [Z] in [0, 2^w); every operation that can wrap is written
    with the matching conversion.  [s8]..[s64] are the two's complement readings. *)

Definition u8 (x : Z) : Z := x mod 2 ^ 8.
Definition u16 (x : Z) : Z := x mod 2 ^ 16.
Definition u32 (x : Z) : Z := x mod 2 ^ 32.
Definition u64 (x : Z) : Z := x mod 2 ^ 64.

(** Reading the unsigned [w]-bit value [x] as a signed one. *)
Definition sint (w x : Z) : Z := if x <? 2 ^ (w - 1) then x else x - 2 ^ w.

Definition SIZE_MAX : Z := 2 ^ 64 - 1.
Definition UINT64_MAX : Z := 2 ^ 64 - 1.
Definition INT_MAX : Z := 2 ^ 31 - 1.

(** The length of a byte string as the [size_t] the code computes with. *)
Definition len {A} (l : list A) : Z := Z.of_nat (length l).

(** [byte b]: [b] is a value of type [uint8_t]. *)
Definition byte (b : Z) : Prop := 0 <= b < 256.

(** The bytes of a string literal of the source. *)
Definition bytes_of (s : String.string) : list Z := map (fun a => Z.of_N (Ascii.N_of_ascii a)) (String.list_ascii_of_string s).

(** ** Failing computations that keep their state

    The C functions return a success flag and mutate the object behind their first pointer even
    when they fail, so a computation of type [M S A] returns [None] for failure together with the
    state it leaves behind. *)

Definition M (S A : Type) : Type := S -> option A * S.

Definition ret {S A} (a : A) : M S A := fun s => (Some a, s).
Definition fail {S A} : M S A := fun s => (None, s).
Definition bind {S A B} (m : M S A) (k : A -> M S B) : M S B :=
  fun s => match m s with
           | (Some a, s') => k a s'
           | (None, s') => (None, s')
           end.
(** [check b]: the early return [if (!b) return 0;]. *)
Definition check {S} (b : bool) : M S unit := if b then ret tt else fail.
Definition get_state {S} : M S S := fun s => (Some s, s).
Definition put_state {S} (s : S) : M S unit := fun _ => (Some tt, s).
(** Lift a result computed on another object. *)
Definition lift {S A} (o : option A) : M S A := fun s => (o, s).

Declare Scope c_scope.
Delimit Scope c_scope with c.
Notation "'let*' x ':=' m 'in' k" := (bind m (fun x => k))
  (at level 10, x binder, m at level 100, k at level 200) : c_scope.
Notation "m ;;; k" := (bind m (fun _ => k)) (at level 199, right associativity) : c_scope.
Notation "a '&.' b" := (Z.land a b) (at level 34, left associativity) : c_scope.
Notation "a '|.' b" := (Z.lor a b) (at level 37, left associativity) : c_scope.
Notation "a '^.' b" := (Z.lxor a b) (at level 36, left associativity) : c_scope.
Notation "a '<<' n" := (Z.shiftl a n) (at level 33, left associativity) : c_scope.
Notation "a '>>' n" := (Z.shiftr a n) (at level 33, left associativity) : c_scope.
#[global] Open Scope c_scope.

(** ** Computations that may not return

    A loop that waits for something outside the program has no bound of its own.  A computation of
    type [D S A] returns [None] while the loop has not ended within the fuel it was given; that it
    returns is then a theorem. *)

Definition D (S A : Type) : Type := S -> option (A * S).
Definition dret {S A} (a : A) : D S A := fun s => Some (a, s).
Definition dbind {S A B} (m : D S A) (k : A -> D S B) : D S B :=
  fun s => match m s with Some (a, s') => k a s' | None => None end.
Definition running {S A} : D S A := fun _ => None.
Definition dget {S} : D S S := fun s => Some (s, s).
Definition dmodify {S} (f : S -> S) : D S unit := fun s => Some (tt, f s).
(** [n] bytes from an offset on; [None] when they are not all there. *)
Definition bytes_at (data : list Z) (offset n : Z) : option (list Z) :=
  if (0 <=? offset) && (0 <=? n) && (offset + n <=? len data) then Some (take (Z.to_nat n) (drop (Z.to_nat offset) data)) else None.
Definition dfrom {S A} (o : option A) : D S A := fun s => match o with Some a => Some (a, s) | None => None end.
Notation "'let!' x ':=' m 'in' k" := (dbind m (fun x => k))
  (at level 10, x binder, m at level 100, k at level 200) : c_scope.
Notation "'let!' ' x ':=' m 'in' k" := (dbind m (fun x => k))
  (at level 10, x strict pattern, m at level 100, k at level 200) : c_scope.

(** ** Proof automation *)

(** Case analysis on the matches of the hypotheses and of the goal, keeping the equations. *)
Ltac break1 :=
  match goal with
  | H : context [match ?x with _ => _ end] |- _ => destruct x eqn:?
  | |- context [match ?x with _ => _ end] => destruct x eqn:?
  end.
Ltac break := repeat (break1; simplify_eq/=).

(** Turn the boolean tests of the code into propositions. *)
Ltac bool_to_prop :=
  repeat match goal with
  | H : (_ && _)%bool = true |- _ => apply andb_true_iff in H as [? ?]
  | H : (_ || _)%bool = false |- _ => apply orb_false_iff in H as [? ?]
  | H : negb _ = true |- _ => apply negb_true_iff in H
  | H : negb _ = false |- _ => apply negb_false_iff in H
  | H : (_ <? _) = true |- _ => apply Z.ltb_lt in H
  | H : (_ <? _) = false |- _ => apply Z.ltb_ge in H
  | H : (_ <=? _) = true |- _ => apply Z.leb_le in H
  | H : (_ <=? _) = false |- _ => apply Z.leb_gt in H
  | H : (_ =? _) = true |- _ => apply Z.eqb_eq in H
  | H : (_ =? _) = false |- _ => apply Z.eqb_neq in H
  end.

(** Case analysis on the integer comparisons of the goal. *)
Ltac zcases :=
  repeat match goal with
  | |- context [?a <? ?b] => destruct (Z.ltb_spec a b)
  | |- context [?a <=? ?b] => destruct (Z.leb_spec a b)
  | |- context [?a =? ?b] => destruct (Z.eqb_spec a b)
  end; try lia.

(** Linear arithmetic after unfolding the width conversions. *)
Ltac ulia := unfold u8, u16, u32, u64, byte, SIZE_MAX, UINT64_MAX, INT_MAX in *;
  Z.div_mod_to_equations; lia.

(** A literal list of bytes. *)
Ltac bytes_lit :=
  repeat (apply List.Forall_cons; [first [assumption | unfold byte; lia]|]); apply List.Forall_nil.

Create HintDb bytes.
Create Rewrite HintDb clen.

Ltac simp_len := autorewrite with clen in *.

(** ** Lengths *)

Section lengths.
Context {A : Type}.
Implicit Types l k : list A.

Lemma len_nonneg l : 0 <= len l.
Proof. unfold len; lia. Qed.

Lemma len_nil : len (@nil A) = 0.
Proof. reflexivity. Qed.

Lemma len_cons x l : len (x :: l) = 1 + len l.
Proof. unfold len; cbn [length]; lia. Qed.

Lemma len_app l k : len (l ++ k) = len l + len k.
Proof. unfold len; rewrite length_app; lia. Qed.

Lemma len_replicate n (x : A) : len (replicate n x) = Z.of_nat n.
Proof. unfold len; by rewrite length_replicate. Qed.

Lemma len_take n l : len (take n l) = Z.min (Z.of_nat n) (len l).
Proof. unfold len; rewrite length_take; lia. Qed.

Lemma len_drop n l : len (drop n l) = Z.max 0 (len l - Z.of_nat n).
Proof. unfold len; rewrite length_drop; lia. Qed.

Lemma len_to_nat l : Z.to_nat (len l) = length l.
Proof. unfold len; lia. Qed.

Lemma len_zero_nil l : len l = 0 -> l = [].
Proof. destruct l; [done | rewrite len_cons; pose proof (len_nonneg l); lia]. Qed.

Lemma len_pos_cons l : 0 < len l -> exists x k, l = x :: k.
Proof. destruct l; [rewrite len_nil; lia | eauto]. Qed.
End lengths.

#[export] Hint Rewrite @len_nil @len_cons @len_app @len_replicate @len_take @len_drop : clen.
#[export] Hint Resolve len_nonneg : bytes.

Lemma len_map {A B} (f : A -> B) (l : list A) : len (map f l) = len l.
Proof. unfold len; by rewrite length_map. Qed.

Lemma len_rev {A} (l : list A) : len (rev l) = len l.
Proof. unfold len; by rewrite length_rev. Qed.
#[export] Hint Rewrite @len_map @len_rev : clen.

Lemma bytes_at_spec data offset n : 0 <= offset -> 0 <= n -> offset + n <= len data ->
  bytes_at data offset n = Some (take (Z.to_nat n) (drop (Z.to_nat offset) data)).
Proof. intros. unfold bytes_at. by rewrite !(proj2 (Z.leb_le _ _)) by lia. Qed.

Lemma bytes_at_middle a b c : bytes_at (a ++ b ++ c) (len a) (len b) = Some b.
Proof.
  pose proof (len_nonneg a). pose proof (len_nonneg b). pose proof (len_nonneg c). rewrite bytes_at_spec by (rewrite ?len_app; lia).
  by rewrite !len_to_nat, drop_app_length, take_app_length.
Qed.

(** ** Bytes *)

Lemma byte_iff b : byte b <-> 0 <= b < 256.
Proof. reflexivity. Qed.

#[export] Instance byte_dec b : Decision (byte b).
Proof. unfold byte; apply _. Defined.

Lemma u8_byte x : byte (u8 x).
Proof. apply Z.mod_pos_bound; lia. Qed.
#[export] Hint Resolve u8_byte : bytes.

Lemma u8_id b : byte b -> u8 b = b.
Proof. apply Z.mod_small. Qed.

Lemma u64_id x : 0 <= x < 2 ^ 64 -> u64 x = x.
Proof. apply Z.mod_small. Qed.

Lemma u64_range x : 0 <= u64 x < 2 ^ 64.
Proof. apply Z.mod_pos_bound; lia. Qed.

Lemma u32_id x : 0 <= x < 2 ^ 32 -> u32 x = x.
Proof. apply Z.mod_small. Qed.

(** A decidable fact about bytes holds when it holds of the 256 values. *)
Lemma byte_forall (f : Z -> bool) :
  forallb (fun n => f (Z.of_nat n)) (seq 0 256) = true -> forall b, byte b -> f b = true.
Proof.
  rewrite forallb_forall; intros H b Hb.
  rewrite <- (Z2Nat.id b) by (destruct Hb; lia).
  apply H, in_seq; destruct Hb; lia.
Qed.

(** The same for two bytes. *)
Lemma byte_forall2 (f : Z -> Z -> bool) :
  forallb (fun n => forallb (fun m => f (Z.of_nat n) (Z.of_nat m)) (seq 0 256)) (seq 0 256)
    = true ->
  forall a b, byte a -> byte b -> f a b = true.
Proof.
  intros H a b Ha Hb. revert a Ha.
  apply (byte_forall (fun a => f a b)).
  apply forallb_forall; intros n Hn. rewrite forallb_forall in H.
  pose proof (byte_forall (f (Z.of_nat n)) (H n Hn)) as Hf. by apply Hf.
Qed.

Lemma byte_eq (f g : Z -> Z) :
  forallb (fun n => f (Z.of_nat n) =? g (Z.of_nat n)) (seq 0 256) = true ->
  forall b, byte b -> f b = g b.
Proof. intros H b Hb. apply Z.eqb_eq. by apply (byte_forall (fun b => f b =? g b)). Qed.

(** The same for any initial range. *)
Lemma range_eq n (f g : Z -> Z) :
  forallb (fun i => f (Z.of_nat i) =? g (Z.of_nat i)) (seq 0 n) = true ->
  forall v, 0 <= v < Z.of_nat n -> f v = g v.
Proof.
  intros H v Hv. rewrite forallb_forall in H. specialize (H (Z.to_nat v)).
  rewrite Z2Nat.id in H by lia. apply Z.eqb_eq, H, in_seq. lia.
Qed.

Lemma bytes_of_byte s : Forall byte (bytes_of s).
Proof.
  unfold bytes_of. apply List.Forall_map, List.Forall_forall. intros a _. unfold byte.
  destruct a as [[] [] [] [] [] [] [] []]; vm_compute; split; congruence.
Qed.
#[export] Hint Resolve bytes_of_byte : bytes.

Lemma bytes_app l k : Forall byte (l ++ k) <-> Forall byte l /\ Forall byte k.
Proof. apply Forall_app. Qed.

Lemma bytes_take n l : Forall byte l -> Forall byte (take n l).
Proof. apply Forall_take. Qed.

Lemma bytes_drop n l : Forall byte l -> Forall byte (drop n l).
Proof. apply Forall_drop. Qed.

Lemma bytes_replicate n b : byte b -> Forall byte (replicate n b).
Proof. intros; by apply Forall_replicate. Qed.

#[export] Hint Resolve bytes_take bytes_drop bytes_replicate : bytes.

(** ** Bit operations as arithmetic *)

Lemma land_ones_mod x n k : 0 <= n -> k = 2 ^ n - 1 -> Z.land x k = x mod 2 ^ n.
Proof. intros ? ->. rewrite <- Z.land_ones by done. by rewrite Z.ones_equiv, Z.sub_1_r. Qed.

Lemma land_127 x : Z.land x 127 = x mod 128.
Proof. by apply (land_ones_mod x 7). Qed.

Lemma land_255 x : Z.land x 255 = x mod 256.
Proof. by apply (land_ones_mod x 8). Qed.

Lemma land_63 x : Z.land x 63 = x mod 64.
Proof. by apply (land_ones_mod x 6). Qed.

Lemma land_31 x : Z.land x 31 = x mod 32.
Proof. by apply (land_ones_mod x 5). Qed.

Lemma shiftr_div x n : 0 <= n -> Z.shiftr x n = x / 2 ^ n.
Proof. apply Z.shiftr_div_pow2. Qed.

Lemma shiftl_mul x n : 0 <= n -> Z.shiftl x n = x * 2 ^ n.
Proof. apply Z.shiftl_mul_pow2. Qed.

(** Or-ing into the zero bits below a shift is addition. *)
Lemma lor_shiftl_add a b n : 0 <= n -> 0 <= b < 2 ^ n -> Z.lor (Z.shiftl a n) b = a * 2 ^ n + b.
Proof.
  intros Hn Hb. rewrite <- Z.shiftl_mul_pow2 by done.
  assert (Hd : Z.land (Z.shiftl a n) b = 0).
  { apply Z.bits_inj'; intros i Hi. rewrite Z.land_spec, Z.bits_0.
    destruct (Z.ltb_spec i n).
    - by rewrite Z.shiftl_spec_low.
    - replace b with (b mod 2 ^ n) by (by apply Z.mod_small).
      rewrite Z.mod_pow2_bits_high by lia. apply andb_false_r. }
  rewrite <- Z.lxor_lor by done. rewrite <- Z.add_nocarry_lxor by done. done.
Qed.

Lemma lor_mul_add a b n : 0 <= n -> 0 <= b < 2 ^ n -> Z.lor (a * 2 ^ n) b = a * 2 ^ n + b.
Proof. intros. rewrite <- Z.shiftl_mul_pow2 by done. by rewrite lor_shiftl_add, shiftl_mul. Qed.

Lemma lor_range a b n : 0 <= n -> 0 <= a < 2 ^ n -> 0 <= b < 2 ^ n -> 0 <= a |. b < 2 ^ n.
Proof.
  intros Hn Ha Hb. rewrite <- (Z.mod_small a (2 ^ n)), <- (Z.mod_small b (2 ^ n)) by done.
  rewrite <- !Z.land_ones, <- Z.land_lor_distr_l, Z.land_ones by done. apply Z.mod_pos_bound. lia.
Qed.

Lemma byte_high_bit b : byte b -> (Z.land b 128 =? 0) = (b <? 128).
Proof.
  intros Hb. apply eqb_prop. revert b Hb.
  apply (byte_forall (fun b => eqb (Z.land b 128 =? 0) (b <? 128))). by vm_compute.
Qed.

(** ** Byte order *)

Fixpoint le_value (l : list Z) : Z :=
  match l with
  | [] => 0
  | b :: l => b + 256 * le_value l
  end.

Fixpoint le_bytes (n : nat) (v : Z) : list Z :=
  match n with
  | O => []
  | S n => v mod 256 :: le_bytes n (v / 256)
  end.

Definition be_value (l : list Z) : Z := le_value (rev l).
Definition be_bytes (n : nat) (v : Z) : list Z := rev (le_bytes n v).

Lemma le_bytes_length n v : length (le_bytes n v) = n.
Proof. revert v; induction n; intros; cbn; auto. Qed.

Lemma be_bytes_length n v : length (be_bytes n v) = n.
Proof. unfold be_bytes. by rewrite length_rev, le_bytes_length. Qed.

Lemma le_bytes_byte n v : Forall byte (le_bytes n v).
Proof.
  revert v; induction n; intros; cbn; constructor; auto.
  apply Z.mod_pos_bound; lia.
Qed.

Lemma Forall_rev {A} (P : A -> Prop) l : Forall P (rev l) <-> Forall P l.
Proof. rewrite !List.Forall_forall. by setoid_rewrite <- in_rev. Qed.

Lemma be_bytes_byte n v : Forall byte (be_bytes n v).
Proof. apply Forall_rev, le_bytes_byte. Qed.

Lemma pow256_pos {A} (l : list A) : 0 < 256 ^ len l.
Proof. apply Z.pow_pos_nonneg; [lia | apply len_nonneg]. Qed.

Lemma pow256_cons {A} (x : A) l : 256 ^ len (x :: l) = 256 * 256 ^ len l.
Proof. rewrite len_cons, Z.pow_add_r, Z.pow_1_r by (pose proof (len_nonneg l); lia). lia. Qed.

Lemma le_value_range l : Forall byte l -> 0 <= le_value l < 256 ^ len l.
Proof.
  induction 1 as [|b l Hb Hl IH]; cbn [le_value]; [by cbn|].
  rewrite pow256_cons. destruct Hb; nia.
Qed.

Lemma be_value_range l : Forall byte l -> 0 <= be_value l < 256 ^ len l.
Proof.
  intros Hl. unfold be_value. rewrite <- len_rev. by apply le_value_range, Forall_rev.
Qed.

Lemma le_value_bytes n v : 0 <= v < 256 ^ Z.of_nat n -> le_value (le_bytes n v) = v.
Proof.
  revert v; induction n as [|n IH]; intros v Hv; cbn [le_bytes le_value].
  - cbn in Hv; lia.
  - rewrite Nat2Z.inj_succ, Z.pow_succ_r in Hv by lia.
    rewrite IH.
    + pose proof (Z.div_mod v 256); lia.
    + split; [apply Z.div_pos; lia | apply Z.div_lt_upper_bound; lia].
Qed.

Lemma be_value_bytes n v : 0 <= v < 256 ^ Z.of_nat n -> be_value (be_bytes n v) = v.
Proof. intros. unfold be_value, be_bytes. rewrite rev_involutive. by apply le_value_bytes. Qed.

Lemma le_bytes_value l : Forall byte l -> le_bytes (length l) (le_value l) = l.
Proof.
  induction 1 as [|b l Hb Hl IH]; cbn [length le_bytes le_value]; [done|].
  destruct Hb. f_equal.
  - rewrite Z.mul_comm, Z.mod_add by lia. by apply Z.mod_small.
  - rewrite Z.mul_comm, Z.div_add, Z.div_small by lia. by rewrite Z.add_0_l.
Qed.

Lemma be_bytes_value l : Forall byte l -> be_bytes (length l) (be_value l) = l.
Proof.
  intros. unfold be_bytes, be_value. rewrite <- length_rev.
  rewrite le_bytes_value by (by apply Forall_rev). apply rev_involutive.
Qed.

Lemma le_value_app l k : le_value (l ++ k) = le_value l + 256 ^ len l * le_value k.
Proof.
  induction l as [|b l IH]; cbn [app le_value]; [change (len (@nil Z)) with 0; lia|].
  rewrite IH, pow256_cons. lia.
Qed.

Lemma be_value_cons b l : be_value (b :: l) = b * 256 ^ len l + be_value l.
Proof.
  unfold be_value. cbn [rev]. rewrite le_value_app, len_rev. cbn [le_value]. lia.
Qed.

Lemma be_value_app_single l b : be_value (l ++ [b]) = be_value l * 256 + b.
Proof. unfold be_value. rewrite rev_app_distr. cbn [rev app le_value]. lia. Qed.

#[export] Hint Resolve le_bytes_byte be_bytes_byte : bytes.

(** ** List helpers *)

Lemma take_app_exact {A} (l k : list A) n : n = length l -> take n (l ++ k) = l.
Proof. intros ->. by rewrite take_app_length. Qed.

Lemma drop_app_exact {A} (l k : list A) n : n = length l -> drop n (l ++ k) = k.
Proof. intros ->. by rewrite drop_app_length. Qed.

(** [suffix_of]: what a reader leaves is a suffix of what it was given. *)
Lemma suffix_drop {A} n (l : list A) : drop n l `suffix_of` l.
Proof. exists (take n l). by rewrite take_drop. Qed.

Lemma suffix_len {A} (l k : list A) : l `suffix_of` k -> len l <= len k.
Proof. intros [p ->]. rewrite len_app. pose proof (len_nonneg p); lia. Qed.

Lemma suffix_bytes l k : l `suffix_of` k -> Forall byte k -> Forall byte l.
Proof. intros [p ->] H. by apply bytes_app in H as [_ H]. Qed.

(** Two splits of one list: the longer front extends the shorter one. *)
Lemma app_split {A} (l1 l2 k1 k2 : list A) :
  l1 ++ l2 = k1 ++ k2 -> len l1 <= len k1 ->
  exists m, k1 = l1 ++ m /\ l2 = m ++ k2.
Proof.
  unfold len. revert k1; induction l1 as [|x l1 IH]; intros [|y k1] H Hle; cbn in *; eauto.
  - lia.
  - injection H as -> H. destruct (IH k1 H) as (m & -> & ->); [lia|]. eauto.
Qed.
