(* ===== verification/Der.v ===== *)
(** Reference encodings the byte-string component is specified against: base-128 integers, DER
    identifiers, lengths and elements (ITU-T X.690), independent of the code.  Every tag the code
    handles is a 32-bit value: the class and the constructed bit in the top three bits, the tag
    number in the other 29. *)
From S2P Require Import Prelude.

(** ** Base-128 integers *)

(** [n] base-128 digits of [v], most significant first, all but the last with the continuation
    bit. *)
Fixpoint base128_digits (n : nat) (v : Z) : list Z :=
  match n with
  | O => []
  | S m => ((v / 128 ^ Z.of_nat m) mod 128 + (if (m =? 0)%nat then 0 else 128))
             :: base128_digits m v
  end.

(** How many base-128 digits [v] has, one at least. *)
Definition base128_len (v : Z) : nat := S (Z.to_nat (Z.log2 v / 7)).

Definition base128 (v : Z) : list Z := base128_digits (base128_len v) v.
#[global] Arguments base128 : simpl never.

(** ** DER identifiers, lengths and elements *)

Definition valid_tag (tag : Z) : Prop := 0 <= tag < 2 ^ 32.
Definition tag_bits (tag : Z) : Z := tag / 2 ^ 29.
Definition tag_number (tag : Z) : Z := tag mod 2 ^ 29.

Definition der_identifier (tag : Z) : list Z :=
  if tag_number tag <? 31 then [tag_bits tag * 32 + tag_number tag]
  else (tag_bits tag * 32 + 31) :: base128 (tag_number tag).

(** How many bytes [n] takes. *)
Definition byte_count (n : Z) : nat := S (Z.to_nat (Z.log2 n / 8)).

Definition der_length (n : Z) : list Z :=
  if n <? 128 then [n] else (128 + Z.of_nat (byte_count n)) :: be_bytes (byte_count n) n.

Definition der_header (tag n : Z) : list Z := der_identifier tag ++ der_length n.
Definition der_tlv (tag : Z) (contents : list Z) : list Z :=
  der_header tag (len contents) ++ contents.

(** ** Lemmas *)

Lemma pow128_pos n : 0 < 128 ^ Z.of_nat n.
Proof. apply Z.pow_pos_nonneg; lia. Qed.

Lemma pow128_S n : 128 ^ Z.of_nat (S n) = 128 * 128 ^ Z.of_nat n.
Proof. rewrite Nat2Z.inj_succ, Z.pow_succ_r by lia. done. Qed.

Lemma pow_pow2 k (n : nat) : 0 <= k -> (2 ^ k) ^ Z.of_nat n = 2 ^ (k * Z.of_nat n).
Proof. intros. rewrite <- Z.pow_mul_r by lia. done. Qed.

(** The number of [k]-bit digits of [v] is determined by the power of [2^k] it lies under. *)
Lemma digit_count_unique k v n :
  0 < k ->
  (n = 1%nat \/ (1 <= n)%nat /\ (2 ^ k) ^ Z.of_nat (n - 1) <= v) ->
  0 <= v < (2 ^ k) ^ Z.of_nat n ->
  S (Z.to_nat (Z.log2 v / k)) = n.
Proof.
  intros Hk Hlo Hhi. rewrite pow_pow2 in Hhi by lia.
  destruct (decide (v = 0)) as [->|Hv0].
  { destruct Hlo as [->|[? Hlo]]; [cbn; rewrite Z.div_0_l by lia; done|].
    pose proof (Z.pow_pos_nonneg (2 ^ k) (Z.of_nat (n - 1))).
    pose proof (Z.pow_pos_nonneg 2 k). lia. }
  assert (Hlt : Z.log2 v < k * Z.of_nat n) by (apply Z.log2_lt_pow2; lia).
  assert (Hn : (1 <= n)%nat) by (destruct n; [cbn in Hhi; lia | lia]).
  assert (Hge : k * Z.of_nat (n - 1) <= Z.log2 v).
  { destruct Hlo as [->|[_ Hlo]]; [pose proof (Z.log2_nonneg v); lia|].
    rewrite pow_pow2 in Hlo by lia. apply Z.log2_le_pow2; lia. }
  assert (Z.log2 v / k = Z.of_nat (n - 1)) as ->; [|lia].
  symmetry. apply (Z.div_unique _ _ _ (Z.log2 v - k * Z.of_nat (n - 1))); [|lia].
  left. split; [lia|]. rewrite Nat2Z.inj_sub in * by done. nia.
Qed.

Lemma digit_count_bounds k v :
  0 < k -> 0 <= v ->
  let n := S (Z.to_nat (Z.log2 v / k)) in
  (n = 1%nat \/ (1 <= n)%nat /\ (2 ^ k) ^ Z.of_nat (n - 1) <= v) /\
  v < (2 ^ k) ^ Z.of_nat n.
Proof.
  intros Hk Hv n. pose proof (Z.log2_nonneg v) as Hlog.
  assert (Hq : 0 <= Z.log2 v / k) by (apply Z.div_pos; lia).
  assert (Hn : Z.of_nat n = Z.log2 v / k + 1) by (unfold n; lia).
  destruct (decide (v = 0)) as [->|Hv0].
  { split; [left; unfold n; cbn; rewrite Z.div_0_l by lia; done|].
    apply Z.pow_pos_nonneg; [apply Z.pow_pos_nonneg|]; lia. }
  pose proof (Z.log2_spec v) as [Hlo Hhi]; [lia|].
  pose proof (Z.mul_div_le (Z.log2 v) k Hk).
  pose proof (Z.mul_succ_div_gt (Z.log2 v) k Hk).
  split.
  - right. split; [lia|]. rewrite pow_pow2 by lia.
    etrans; [|exact Hlo]. apply Z.pow_le_mono_r; lia.
  - rewrite pow_pow2 by lia. eapply Z.lt_le_trans; [exact Hhi|].
    apply Z.pow_le_mono_r; lia.
Qed.

Lemma base128_len_unique v n :
  (n = 1%nat \/ (1 <= n)%nat /\ 128 ^ Z.of_nat (n - 1) <= v) ->
  0 <= v < 128 ^ Z.of_nat n -> base128_len v = n.
Proof. intros. by apply (digit_count_unique 7). Qed.

Lemma base128_len_bounds v :
  0 <= v ->
  (base128_len v = 1%nat \/
   (1 <= base128_len v)%nat /\ 128 ^ Z.of_nat (base128_len v - 1) <= v) /\
  v < 128 ^ Z.of_nat (base128_len v).
Proof. intros. by apply (digit_count_bounds 7). Qed.

Lemma byte_count_unique v n :
  (n = 1%nat \/ (1 <= n)%nat /\ 256 ^ Z.of_nat (n - 1) <= v) ->
  0 <= v < 256 ^ Z.of_nat n -> byte_count v = n.
Proof. intros. by apply (digit_count_unique 8). Qed.

Lemma byte_count_bounds v :
  0 <= v ->
  (byte_count v = 1%nat \/
   (1 <= byte_count v)%nat /\ 256 ^ Z.of_nat (byte_count v - 1) <= v) /\
  v < 256 ^ Z.of_nat (byte_count v).
Proof. intros. by apply (digit_count_bounds 8). Qed.

(** [byte_count] for the lengths the code accepts. *)
Lemma byte_count_u32 n : 0 <= n < 2 ^ 32 -> (1 <= byte_count n <= 4)%nat.
Proof.
  intros Hn. destruct (byte_count_bounds n) as [Hlo _]; [lia|].
  split; [unfold byte_count; lia|].
  destruct Hlo as [->|[_ Hlo]]; [lia|].
  destruct (decide (byte_count n <= 4)%nat); [done|].
  pose proof (Z.pow_le_mono_r 256 4 (Z.of_nat (byte_count n - 1))). lia.
Qed.

Lemma base128_digits_length n v : length (base128_digits n v) = n.
Proof. induction n; cbn [base128_digits length]; auto. Qed.

Lemma base128_digits_byte n v : Forall byte (base128_digits n v).
Proof.
  induction n as [|n IH]; cbn [base128_digits]; constructor; [|done].
  pose proof (Z.mod_pos_bound (v / 128 ^ Z.of_nat n) 128).
  unfold byte; destruct (n =? 0)%nat; lia.
Qed.

Lemma base128_byte v : Forall byte (base128 v).
Proof. apply base128_digits_byte. Qed.

Lemma tag_split tag : valid_tag tag ->
  0 <= tag_bits tag < 8 /\ 0 <= tag_number tag < 2 ^ 29 /\
  tag = tag_bits tag * 2 ^ 29 + tag_number tag.
Proof. unfold valid_tag, tag_bits, tag_number. intros. Z.div_mod_to_equations. lia. Qed.

Lemma tag_combine b n : 0 <= b < 8 -> 0 <= n < 2 ^ 29 ->
  let tag := b * 2 ^ 29 + n in valid_tag tag /\ tag_bits tag = b /\ tag_number tag = n.
Proof.
  intros Hb Hn tag. unfold tag, valid_tag, tag_bits, tag_number. split; [lia|].
  rewrite Z.add_comm. rewrite Z.div_add, Z.mod_add, Z.div_small, Z.mod_small by lia. lia.
Qed.

Lemma der_identifier_byte tag : valid_tag tag -> Forall byte (der_identifier tag).
Proof.
  intros Ht. destruct (tag_split tag Ht) as (Hb & Hn & _). unfold der_identifier.
  destruct (Z.ltb_spec (tag_number tag) 31); constructor;
    auto using base128_byte; unfold byte; lia.
Qed.

Lemma der_length_byte n : 0 <= n < 2 ^ 32 -> Forall byte (der_length n).
Proof.
  intros Hn. pose proof (byte_count_u32 n Hn). unfold der_length.
  destruct (Z.ltb_spec n 128); constructor; auto with bytes; unfold byte; lia.
Qed.

Lemma der_length_len n : 0 <= n < 2 ^ 32 -> 1 <= len (der_length n) <= 5.
Proof.
  intros Hn. pose proof (byte_count_u32 n Hn). unfold der_length.
  destruct (Z.ltb_spec n 128); rewrite len_cons; [rewrite len_nil; lia|].
  unfold len. rewrite be_bytes_length. lia.
Qed.

Lemma base128_len_u32 v : 0 <= v < 2 ^ 32 -> (1 <= base128_len v <= 5)%nat.
Proof.
  intros Hn. destruct (base128_len_bounds v) as [Hlo _]; [lia|].
  split; [unfold base128_len; lia|].
  destruct Hlo as [->|[_ Hlo]]; [lia|].
  destruct (decide (base128_len v <= 5)%nat); [done|].
  pose proof (Z.pow_le_mono_r 128 5 (Z.of_nat (base128_len v - 1))). lia.
Qed.

Lemma der_identifier_len tag : valid_tag tag -> 1 <= len (der_identifier tag) <= 6.
Proof.
  intros Ht. destruct (tag_split tag Ht) as (Hb & Hn & _). unfold der_identifier.
  destruct (Z.ltb_spec (tag_number tag) 31); rewrite len_cons; [rewrite len_nil; lia|].
  unfold len, base128. rewrite base128_digits_length.
  pose proof (base128_len_u32 (tag_number tag)). lia.
Qed.

Lemma der_header_len tag n : valid_tag tag -> 0 <= n < 2 ^ 32 -> 2 <= len (der_header tag n) <= 11.
Proof.
  intros Ht Hn. unfold der_header. rewrite len_app.
  pose proof (der_identifier_len tag Ht). pose proof (der_length_len n Hn). lia.
Qed.

Lemma der_tlv_byte tag c :
  valid_tag tag -> len c < 2 ^ 32 -> Forall byte c -> Forall byte (der_tlv tag c).
Proof.
  intros. unfold der_tlv, der_header. pose proof (len_nonneg c).
  rewrite !bytes_app. auto using der_identifier_byte, der_length_byte with lia.
Qed.

(** ** INTEGER contents *)

(** The two's complement value of big-endian bytes. *)
Definition be_signed (c : list Z) : Z :=
  match c with
  | [] => 0
  | b :: _ => if b <? 128 then be_value c else be_value c - 256 ^ len c
  end.

(** [v] without its sign: the bits that are not copies of the sign bit. *)
Definition int_magnitude (v : Z) : Z := if v <? 0 then - v - 1 else v.

(** The least number of bytes whose two's complement range holds [v], and [v] in them. *)
Definition int_len (v : Z) : nat := byte_count (2 * int_magnitude v + 1).
Definition int_contents (v : Z) : list Z := be_bytes (int_len v) (v mod 256 ^ Z.of_nat (int_len v)).

Lemma int_magnitude_nonneg v : 0 <= int_magnitude v.
Proof. unfold int_magnitude. destruct (Z.ltb_spec v 0); lia. Qed.

Lemma int_len_pos v : (1 <= int_len v)%nat.
Proof. unfold int_len, byte_count. lia. Qed.

Lemma int_contents_length v : length (int_contents v) = int_len v.
Proof. apply be_bytes_length. Qed.

Lemma int_contents_byte v : Forall byte (int_contents v).
Proof. apply be_bytes_byte. Qed.

(** The code's test: fewer than two bytes, or the first nine bits are not all equal. *)
Definition minimal_int (c : list Z) : bool :=
  match c with
  | [] => false
  | [_] => true
  | b :: b' :: _ => negb ((b =? 0) && (b' <? 128) || (b =? 255) && (128 <=? b'))
  end.

(** The bounds the minimality test gives on the value. *)
Lemma minimal_int_bounds c :
  Forall byte c -> c <> [] ->
  let m := int_magnitude (be_signed c) in
  2 * m + 1 < 256 ^ len c /\
  (minimal_int c = true <-> (length c = 1%nat \/ 256 ^ (len c - 1) <= 2 * m + 1)).
Proof.
  intros Hc Hne m. destruct c as [|b c]; [done|]. apply Forall_cons in Hc as [Hb Hc].
  pose proof (be_value_range c Hc) as Hv. pose proof (pow256_pos c) as Hp.
  unfold m, be_signed, int_magnitude. rewrite be_value_cons, pow256_cons.
  set (P := 256 ^ len c) in *. unfold byte in Hb.
  replace (len (b :: c) - 1) with (len c) by (rewrite len_cons; lia). fold P.
  destruct c as [|b' c].
  - change (be_value []) with 0. change P with 1. cbn [minimal_int length].
    destruct (Z.ltb_spec b 128).
    + destruct (Z.ltb_spec (b * 1 + 0) 0); [lia|]. split; [lia|]. tauto.
    + destruct (Z.ltb_spec (b * 1 + 0 - 256 * 1) 0); [|lia]. split; [lia|]. tauto.
  - apply Forall_cons in Hc as [Hb' Hc]. unfold byte in Hb'.
    rewrite be_value_cons in *. pose proof (be_value_range c Hc) as Hv'.
    unfold P in *. rewrite pow256_cons in *. pose proof (pow256_pos c) as Hp'.
    set (Q := 256 ^ len c) in *. set (r := be_value c) in *.
    assert (Hcases : (minimal_int (b :: b' :: c) = true <->
      ~ (b = 0 /\ b' < 128) /\ ~ (b = 255 /\ 128 <= b'))).
    { cbn [minimal_int]. rewrite negb_true_iff, orb_false_iff.
      destruct (Z.eqb_spec b 0), (Z.ltb_spec b' 128), (Z.eqb_spec b 255), (Z.leb_spec 128 b');
        cbn; intuition (try lia; try discriminate). }
    rewrite Hcases. clear Hcases. cbn [length].
    destruct (Z.ltb_spec b 128).
    + destruct (Z.ltb_spec (b * (256 * Q) + (b' * Q + r)) 0); [nia|]. split; [nia|].
      split.
      * intros [H1 _]. right. destruct (decide (b = 0)) as [->|]; [|nia].
        assert (128 <= b') by lia. nia.
      * intros [|H1]; [lia|]. split; [|lia]. intros [-> ?]. nia.
    + destruct (Z.ltb_spec (b * (256 * Q) + (b' * Q + r) - 256 * (256 * Q)) 0); [|nia].
      split; [nia|]. split.
      * intros [_ H2]. right. destruct (decide (b = 255)) as [->|]; [|nia].
        assert (b' < 128) by lia. nia.
      * intros [|H1]; [lia|]. split; [lia|]. intros [-> ?]. nia.
Qed.

Lemma be_signed_mod c : Forall byte c -> be_signed c mod 256 ^ len c = be_value c.
Proof.
  intros Hc. pose proof (be_value_range c Hc) as Hv. unfold be_signed.
  destruct c as [|b c]; [done|]. destruct (b <? 128).
  - by apply Z.mod_small.
  - rewrite <- (Z.mod_add _ 1) by lia. rewrite Z.mul_1_l, Z.sub_add. by apply Z.mod_small.
Qed.

(** Minimal contents are exactly the encodings of their values. *)
Lemma minimal_int_contents c :
  Forall byte c -> minimal_int c = true <-> c = int_contents (be_signed c) /\ c <> [].
Proof.
  intros Hc. destruct (decide (c = [])) as [->|Hne]; [split; [done | by intros [_ []]]|].
  destruct (minimal_int_bounds c Hc Hne) as [Hhi Hiff]. rewrite Hiff.
  pose proof (int_magnitude_nonneg (be_signed c)) as Hm.
  assert (Hlen1 : (1 <= length c)%nat) by (destruct c; [done|cbn; lia]).
  split.
  - intros Hlo. split; [|done].
    assert (Hk : int_len (be_signed c) = length c).
    { apply byte_count_unique; [|unfold len in *; lia].
      destruct Hlo as [|Hlo]; [by left|right; split; [done|]].
      replace (Z.of_nat (length c - 1)) with (len c - 1) by (unfold len; lia). done. }
    unfold int_contents. rewrite Hk. fold (len c). rewrite be_signed_mod by done.
    by rewrite be_bytes_value.
  - intros [Heq _].
    assert (Hk : int_len (be_signed c) = length c) by (by rewrite Heq at 2; rewrite int_contents_length).
    destruct (byte_count_bounds (2 * int_magnitude (be_signed c) + 1)) as [Hlo _]; [lia|].
    fold (int_len (be_signed c)) in Hlo. rewrite Hk in Hlo.
    destruct Hlo as [|[_ Hlo]]; [by left|right].
    replace (len c - 1) with (Z.of_nat (length c - 1)) by (unfold len; lia). done.
Qed.

(** The encoding decodes to its value. *)
Lemma be_signed_contents v : be_signed (int_contents v) = v.
Proof.
  set (n := int_len v). pose proof (int_len_pos v) as Hn. fold n in Hn.
  destruct (byte_count_bounds (2 * int_magnitude v + 1)) as [_ Hhi];
    [pose proof (int_magnitude_nonneg v); lia|].
  fold (int_len v) in Hhi. fold n in Hhi.
  assert (Hp : 0 < 256 ^ Z.of_nat n) by (apply Z.pow_pos_nonneg; lia).
  pose proof (Z.mod_pos_bound v (256 ^ Z.of_nat n) Hp) as Hmod.
  assert (Hval : be_value (int_contents v) = v mod 256 ^ Z.of_nat n)
    by (apply be_value_bytes; exact Hmod).
  assert (Hlen : len (int_contents v) = Z.of_nat n)
    by (unfold len; by rewrite int_contents_length).
  destruct (int_contents v) as [|b c] eqn:E.
  { change (len (@nil Z)) with 0 in Hlen. lia. }
  pose proof (int_contents_byte v) as Hb. rewrite E in Hb. apply Forall_cons in Hb as [Hb Hc].
  unfold be_signed. rewrite Hval, Hlen.
  rewrite be_value_cons in Hval. pose proof (be_value_range c Hc).
  assert (HP : 256 ^ Z.of_nat n = 256 * 256 ^ len c) by (rewrite <- Hlen; apply pow256_cons).
  rewrite HP in *. set (P := 256 ^ len c) in *. unfold byte in Hb.
  unfold int_magnitude in Hhi. destruct (Z.ltb_spec v 0).
  - assert (Hvm : v mod (256 * P) = v + 256 * P).
    { symmetry. apply (Z.mod_unique _ _ (-1)); lia. }
    rewrite Hvm in *. destruct (Z.ltb_spec b 128); [nia|lia].
  - rewrite (Z.mod_small v) in * by lia. destruct (Z.ltb_spec b 128); [done|nia].
Qed.
