(* ===== verification/Cbs.v ===== *)
(** The byte-string reader of BoringSSL (crypto/bytestring/cbs.c): a [CBS] is a pointer and a
    length into memory the reader never writes, so it is the list of the bytes still to read.
    Every function below is the C function of the same name; it returns [None] where the code
    returns 0, and the [CBS] it leaves, also on failure. *)
From S2P Require Import Prelude.

Definition CBS : Type := list Z.

Definition CBS_init (data : list Z) : CBS := data.
Definition CBS_data (cbs : CBS) : list Z := cbs.
Definition CBS_len (cbs : CBS) : Z := len cbs.

Definition cbs_get (n : Z) : M CBS (list Z) := fun cbs =>
  if CBS_len cbs <? n then (None, cbs)
  else (Some (take (Z.to_nat n) cbs), drop (Z.to_nat n) cbs).

Definition CBS_skip (n : Z) : M CBS unit :=
  let* _ := cbs_get n in ret tt.

(** [OPENSSL_memdup] and [OPENSSL_strndup] allocate; [malloc_ok n] says whether the allocator
    grants [n] bytes. *)
Definition OPENSSL_memdup (malloc_ok : Z -> bool) (data : list Z) : option (list Z) :=
  if len data =? 0 then None
  else if malloc_ok (len data) then Some data else None.

(** The returned pair is the return value and [*out_ptr] ([None] for NULL); [*out_len] is its
    length. *)
Definition CBS_stow (malloc_ok : Z -> bool) (cbs : CBS) : bool * option (list Z) :=
  if CBS_len cbs =? 0 then (true, None)
  else match OPENSSL_memdup malloc_ok cbs with
       | None => (false, None)
       | Some p => (true, Some p)
       end.

(** The prefix before the first NUL, of at most the bytes given. *)
Fixpoint OPENSSL_strnlen (s : list Z) : nat :=
  match s with
  | [] => 0
  | b :: s => if b =? 0 then 0 else S (OPENSSL_strnlen s)
  end.

Definition OPENSSL_strndup (malloc_ok : Z -> bool) (str : list Z) : option (list Z) :=
  let size := Z.of_nat (OPENSSL_strnlen str) in
  let alloc_size := u64 (size + 1) in
  if alloc_size <? size then None
  else if malloc_ok alloc_size then Some (take (OPENSSL_strnlen str) str ++ [0]) else None.

Definition CBS_strdup (malloc_ok : Z -> bool) (cbs : CBS) : option (list Z) :=
  OPENSSL_strndup malloc_ok cbs.

(** [OPENSSL_memchr]: the index of the first [c], if any. *)
Fixpoint OPENSSL_memchr (s : list Z) (c : Z) : option nat :=
  match s with
  | [] => None
  | b :: s => if b =? c then Some 0%nat else S <$> OPENSSL_memchr s c
  end.

Definition CBS_contains_zero_byte (cbs : CBS) : bool :=
  match OPENSSL_memchr cbs 0 with Some _ => true | None => false end.

(** The constant-time comparison: the or of the differences of the bytes. *)
Fixpoint CRYPTO_memcmp_loop (x : Z) (a b : list Z) : Z :=
  match a, b with
  | p :: a, q :: b => CRYPTO_memcmp_loop (x |. (p ^. q)) a b
  | _, _ => x
  end.
Definition CRYPTO_memcmp (a b : list Z) : Z := CRYPTO_memcmp_loop 0 a b.

Definition CBS_mem_equal (cbs : CBS) (data : list Z) : bool :=
  if negb (len data =? CBS_len cbs) then false
  else CRYPTO_memcmp cbs data =? 0.

Fixpoint cbs_get_u_loop (result : Z) (data : list Z) : Z :=
  match data with
  | [] => result
  | d :: data => cbs_get_u_loop (u64 (result << 8) |. d) data
  end.

Definition cbs_get_u (n : Z) : M CBS Z :=
  let* data := cbs_get n in ret (cbs_get_u_loop 0 data).

Definition CBS_get_u8 : M CBS Z :=
  let* v := cbs_get 1 in ret (hd 0 v).

Definition CBS_get_u16 : M CBS Z := let* v := cbs_get_u 2 in ret (u16 v).
Definition CBS_get_u24 : M CBS Z := let* v := cbs_get_u 3 in ret (u32 v).
Definition CBS_get_u32 : M CBS Z := let* v := cbs_get_u 4 in ret (u32 v).
Definition CBS_get_u64 : M CBS Z := cbs_get_u 8.

(** Byte swaps (crypto/internal.h). *)
Definition CRYPTO_bswap2 (x : Z) : Z := u16 ((x >> 8) |. (x << 8)).
Definition CRYPTO_bswap4 (x : Z) : Z :=
  let x := u32 ((x >> 16) |. (x << 16)) in
  u32 (((x &. 0xff00ff00) >> 8) |. ((x &. 0x00ff00ff) << 8)).
Definition CRYPTO_bswap8 (x : Z) : Z :=
  u64 (CRYPTO_bswap4 (u32 (x >> 32)) |. (CRYPTO_bswap4 (u32 x) << 32)).

Definition CBS_get_u16le : M CBS Z := let* v := CBS_get_u16 in ret (CRYPTO_bswap2 v).
Definition CBS_get_u32le : M CBS Z := let* v := CBS_get_u32 in ret (CRYPTO_bswap4 v).
Definition CBS_get_u64le : M CBS Z := let* v := cbs_get_u 8 in ret (CRYPTO_bswap8 v).

Definition CBS_get_last_u8 : M CBS Z := fun cbs =>
  if CBS_len cbs =? 0 then (None, cbs)
  else (Some (List.last cbs 0), take (length cbs - 1) cbs).

Definition CBS_get_bytes (n : Z) : M CBS CBS :=
  let* v := cbs_get n in ret (CBS_init v).

Definition CBS_copy_bytes (n : Z) : M CBS (list Z) :=
  let* v := cbs_get n in ret v.

Definition cbs_get_length_prefixed (len_len : Z) : M CBS CBS :=
  let* n := cbs_get_u len_len in CBS_get_bytes n.

Definition CBS_get_u8_length_prefixed : M CBS CBS := cbs_get_length_prefixed 1.
Definition CBS_get_u16_length_prefixed : M CBS CBS := cbs_get_length_prefixed 2.
Definition CBS_get_u24_length_prefixed : M CBS CBS := cbs_get_length_prefixed 3.

Definition CBS_get_until_first (c : Z) : M CBS CBS := fun cbs =>
  match OPENSSL_memchr (CBS_data cbs) c with
  | None => (None, cbs)
  | Some split => CBS_get_bytes (Z.of_nat split) cbs
  end.

(** ** ASN.1 *)

Definition CBS_ASN1_TAG_SHIFT : Z := 24.
Definition CBS_ASN1_CONSTRUCTED : Z := 0x20 << CBS_ASN1_TAG_SHIFT.
Definition CBS_ASN1_CLASS_MASK : Z := 0xc0 << CBS_ASN1_TAG_SHIFT.
Definition CBS_ASN1_TAG_NUMBER_MASK : Z := (1 << (5 + CBS_ASN1_TAG_SHIFT)) - 1.
Definition CBS_ASN1_BOOLEAN : Z := 0x1.
Definition CBS_ASN1_INTEGER : Z := 0x2.
Definition CBS_ASN1_BITSTRING : Z := 0x3.
Definition CBS_ASN1_OCTETSTRING : Z := 0x4.
Definition CBS_ASN1_OBJECT : Z := 0x6.
Definition CBS_ASN1_UTF8STRING : Z := 0xc.
Definition CBS_ASN1_SEQUENCE : Z := 0x10 |. CBS_ASN1_CONSTRUCTED.
Definition CBS_ASN1_SET : Z := 0x11 |. CBS_ASN1_CONSTRUCTED.
Definition CBS_ASN1_NUMERICSTRING : Z := 0x12.
Definition CBS_ASN1_PRINTABLESTRING : Z := 0x13.
Definition CBS_ASN1_T61STRING : Z := 0x14.
Definition CBS_ASN1_VIDEOTEXSTRING : Z := 0x15.
Definition CBS_ASN1_IA5STRING : Z := 0x16.
Definition CBS_ASN1_GRAPHICSTRING : Z := 0x19.
Definition CBS_ASN1_VISIBLESTRING : Z := 0x1a.
Definition CBS_ASN1_GENERALSTRING : Z := 0x1b.
Definition CBS_ASN1_UNIVERSALSTRING : Z := 0x1c.
Definition CBS_ASN1_BMPSTRING : Z := 0x1e.

(** The do-while loop of [parse_base128_integer], from the value [v] read so far. *)
Fixpoint parse_base128_loop (v : Z) (cbs : CBS) : option Z * CBS :=
  match cbs with
  | [] => (None, [])
  | b :: cbs =>
      if negb ((v >> (64 - 7)) =? 0) then (None, cbs)
      else if (v =? 0) && (b =? 0x80) then (None, cbs)
      else
        let v := u64 (v << 7) |. (b &. 0x7f) in
        if (b &. 0x80) =? 0 then (Some v, cbs)
        else parse_base128_loop v cbs
  end.

Definition parse_base128_integer : M CBS Z := parse_base128_loop 0.

Definition parse_asn1_tag : M CBS Z :=
  let* tag_byte := CBS_get_u8 in
  let tag := u32 ((tag_byte &. 0xe0) << CBS_ASN1_TAG_SHIFT) in
  let tag_number := tag_byte &. 0x1f in
  if tag_number =? 0x1f then
    let* v := parse_base128_integer in
    check (negb ((CBS_ASN1_TAG_NUMBER_MASK <? v) || (v <? 0x1f))) ;;;
    ret (tag |. u32 v)
  else ret (tag |. tag_number).

(** What [cbs_get_any_asn1_element] stores through its out parameters. *)
Record element := Element {
  el_out : CBS;
  el_tag : Z;
  el_header_len : Z;
  el_ber_found : bool;
}.

(** The long-form branch: [header] is the reader after the length byte. *)
Definition cbs_get_long_form (ber_ok : bool) (tag length_byte header_len : Z)
    (header : CBS) : M CBS element := fun cbs =>
  let num_bytes := length_byte &. 0x7f in
  if ber_ok && negb ((tag &. CBS_ASN1_CONSTRUCTED) =? 0) && (num_bytes =? 0) then
    (let* out := CBS_get_bytes header_len in ret (Element out tag header_len true)) cbs
  else if (num_bytes =? 0) || (4 <? num_bytes) then (None, cbs)
  else match cbs_get_u num_bytes header with
       | (None, _) => (None, cbs)
       | (Some len64, _) =>
           let long_for_short := len64 <? 128 in
           let one_too_long := (len64 >> ((num_bytes - 1) * 8)) =? 0 in
           if negb ber_ok && (long_for_short || one_too_long) then (None, cbs)
           else
             let n := len64 in
             if u64 (n + header_len + num_bytes) <? n then (None, cbs)
             else
               (let* out := CBS_get_bytes (u64 (n + header_len + num_bytes)) in
                ret (Element out tag (header_len + num_bytes)
                       (ber_ok && (long_for_short || one_too_long)))) cbs
       end.

Definition cbs_get_any_asn1_element (ber_ok : bool) : M CBS element := fun cbs =>
  match parse_asn1_tag cbs with
  | (None, _) => (None, cbs)
  | (Some tag, header) =>
      match CBS_get_u8 header with
      | (None, _) => (None, cbs)
      | (Some length_byte, header) =>
          let header_len := CBS_len cbs - CBS_len header in
          if (length_byte &. 0x80) =? 0 then
            (let* out := CBS_get_bytes (length_byte + header_len) in
             ret (Element out tag header_len false)) cbs
          else cbs_get_long_form ber_ok tag length_byte header_len header cbs
      end
  end.

Definition CBS_get_any_asn1_element : M CBS element := cbs_get_any_asn1_element false.
Definition CBS_get_any_ber_asn1_element : M CBS element := cbs_get_any_asn1_element true.

(** Contents and tag. *)
Definition CBS_get_any_asn1 : M CBS (CBS * Z) :=
  let* el := CBS_get_any_asn1_element in
  match CBS_skip (el_header_len el) (el_out el) with
  | (Some _, out) => ret (out, el_tag el)
  | (None, _) => fail
  end.

Definition cbs_get_asn1 (tag_value : Z) (skip_header : bool) : M CBS CBS :=
  let* el := CBS_get_any_asn1_element in
  check (el_tag el =? tag_value) ;;;
  if skip_header then
    match CBS_skip (el_header_len el) (el_out el) with
    | (Some _, out) => ret out
    | (None, _) => fail
    end
  else ret (el_out el).

Definition CBS_get_asn1 (tag_value : Z) : M CBS CBS := cbs_get_asn1 tag_value true.
Definition CBS_get_asn1_element (tag_value : Z) : M CBS CBS := cbs_get_asn1 tag_value false.

Definition CBS_peek_asn1_tag (cbs : CBS) (tag_value : Z) : bool :=
  if CBS_len cbs <? 1 then false
  else match parse_asn1_tag cbs with
       | (Some actual_tag, _) => tag_value =? actual_tag
       | (None, _) => false
       end.

Definition CBS_is_valid_asn1_integer (cbs : CBS) : option bool :=
  match CBS_get_u8 cbs with
  | (None, _) => None
  | (Some first_byte, copy) =>
      let is_negative := negb ((first_byte &. 0x80) =? 0) in
      match CBS_get_u8 copy with
      | (None, _) => Some is_negative
      | (Some second_byte, _) =>
          if ((first_byte =? 0) && ((second_byte &. 0x80) =? 0))
             || ((first_byte =? 0xff) && negb ((second_byte &. 0x80) =? 0))
          then None else Some is_negative
      end
  end.

Definition CBS_is_unsigned_asn1_integer (cbs : CBS) : bool :=
  match CBS_is_valid_asn1_integer cbs with
  | Some is_negative => negb is_negative
  | None => false
  end.

Fixpoint get_asn1_uint64_loop (out : Z) (data : list Z) : option Z :=
  match data with
  | [] => Some out
  | d :: data =>
      if negb ((out >> 56) =? 0) then None
      else get_asn1_uint64_loop (u64 (out << 8) |. d) data
  end.

Definition CBS_get_asn1_uint64 : M CBS Z :=
  let* bytes := CBS_get_asn1 CBS_ASN1_INTEGER in
  check (CBS_is_unsigned_asn1_integer bytes) ;;;
  lift (get_asn1_uint64_loop 0 (CBS_data bytes)).

(** The union of an [int64_t] and its eight bytes, least significant first. *)
Definition int64_of_bytes (l : list Z) : Z := sint 64 (le_value l).

Definition CBS_get_asn1_int64 : M CBS Z :=
  let* bytes := CBS_get_asn1 CBS_ASN1_INTEGER in
  let* is_negative := lift (CBS_is_valid_asn1_integer bytes) in
  check (negb (8 <? CBS_len bytes)) ;;;
  let fill := if is_negative : bool then 0xff else 0 in
  ret (int64_of_bytes (rev (CBS_data bytes) ++ replicate (8 - length bytes) fill)).

Definition CBS_get_asn1_bool : M CBS bool :=
  let* bytes := CBS_get_asn1 CBS_ASN1_BOOLEAN in
  check (CBS_len bytes =? 1) ;;;
  let value := hd 0 (CBS_data bytes) in
  check (negb (negb (value =? 0) && negb (value =? 0xff))) ;;;
  ret (negb (value =? 0)).

(** [Some out] when present. *)
Definition CBS_get_optional_asn1 (tag : Z) : M CBS (option CBS) := fun cbs =>
  if CBS_peek_asn1_tag cbs tag then
    (let* out := CBS_get_asn1 tag in ret (Some out)) cbs
  else (Some None, cbs).

(** Reading from a local child reader that must be used up. *)
Definition on_child {A} (m : M CBS A) (child : CBS) : option A :=
  match m child with
  | (Some a, rest) => if CBS_len rest =? 0 then Some a else None
  | (None, _) => None
  end.

(** The pair is [out] and [present]. *)
Definition CBS_get_optional_asn1_octet_string (tag : Z) : M CBS (CBS * bool) :=
  let* child := CBS_get_optional_asn1 tag in
  match child with
  | Some child =>
      let* out := lift (on_child (CBS_get_asn1 CBS_ASN1_OCTETSTRING) child) in ret (out, true)
  | None => ret (CBS_init [], false)
  end.

Definition CBS_get_optional_asn1_uint64 (tag default_value : Z) : M CBS Z :=
  let* child := CBS_get_optional_asn1 tag in
  match child with
  | Some child => lift (on_child CBS_get_asn1_uint64 child)
  | None => ret default_value
  end.

Definition CBS_get_optional_asn1_bool (tag : Z) (default_value : bool) : M CBS bool :=
  let* child := CBS_get_optional_asn1 tag in
  match child with
  | Some child =>
      match CBS_get_asn1 CBS_ASN1_BOOLEAN child with
      | (Some child2, child) =>
          check ((CBS_len child2 =? 1) && (CBS_len child =? 0)) ;;;
          let boolean := hd 0 (CBS_data child2) in
          if boolean =? 0 then ret false
          else if boolean =? 0xff then ret true
          else fail
      | (None, _) => fail
      end
  | None => ret default_value
  end.

Definition CBS_is_valid_asn1_bitstring (cbs : CBS) : bool :=
  match CBS_get_u8 cbs with
  | (None, _) => false
  | (Some num_unused_bits, inp) =>
      if 7 <? num_unused_bits then false
      else if num_unused_bits =? 0 then true
      else match CBS_get_last_u8 inp with
           | (None, _) => false
           | (Some last, _) => (last &. ((1 << num_unused_bits) - 1)) =? 0
           end
  end.

Definition CBS_asn1_bitstring_has_bit (cbs : CBS) (bit : Z) : bool :=
  if negb (CBS_is_valid_asn1_bitstring cbs) then false
  else
    let byte_num := u32 ((bit >> 3) + 1) in
    let bit_num := 7 - (bit &. 7) in
    (byte_num <? CBS_len cbs)
    && negb ((nth (Z.to_nat byte_num) (CBS_data cbs) 0 &. (1 << bit_num)) =? 0).
