(* ===== verification/CbsLemmas.v ===== *)
(** The byte swaps of crypto/internal.h exchange the big-endian and little-endian readings. *)
From S2P Require Import Prelude Der Cbs.

Lemma land_shiftl_l b n m : 0 <= n ->
  Z.land (Z.shiftl b n) m = Z.shiftl (Z.land b (Z.shiftr m n)) n.
Proof.
  intros Hn. apply Z.bits_inj'; intros i Hi.
  rewrite Z.land_spec. destruct (Z.ltb_spec i n).
  - rewrite !Z.shiftl_spec_low by done. done.
  - rewrite !Z.shiftl_spec_high, Z.land_spec, Z.shiftr_spec by lia.
    by rewrite Z.sub_add.
Qed.

(** A 32-bit value as the or of its shifted bytes. *)
Lemma lor_bytes4 a b c d :
  byte a -> byte b -> byte c -> byte d ->
  Z.lor (Z.lor (Z.lor (Z.shiftl a 24) (Z.shiftl b 16)) (Z.shiftl c 8)) d
  = a * 2 ^ 24 + b * 2 ^ 16 + c * 2 ^ 8 + d.
Proof.
  unfold byte. intros. rewrite (shiftl_mul b), (shiftl_mul c) by lia.
  rewrite (lor_shiftl_add a (b * 2 ^ 16) 24) by lia.
  replace (a * 2 ^ 24 + b * 2 ^ 16) with ((a * 2 ^ 8 + b) * 2 ^ 16) by lia.
  rewrite (lor_mul_add (a * 2 ^ 8 + b) (c * 2 ^ 8) 16) by lia.
  replace ((a * 2 ^ 8 + b) * 2 ^ 16 + c * 2 ^ 8) with ((a * 2 ^ 16 + b * 2 ^ 8 + c) * 2 ^ 8) by lia.
  rewrite lor_mul_add by lia. lia.
Qed.

Lemma bswap2_spec a b : byte a -> byte b -> CRYPTO_bswap2 (a * 256 + b) = b * 256 + a.
Proof.
  unfold byte, CRYPTO_bswap2, u16. intros. rewrite Z.lor_comm.
  rewrite shiftr_div, (lor_shiftl_add (a * 256 + b) ((a * 256 + b) / 2 ^ 8) 8)
    by (Z.div_mod_to_equations; lia).
  Z.div_mod_to_equations; lia.
Qed.

Lemma bswap4_spec a b c d :
  byte a -> byte b -> byte c -> byte d ->
  CRYPTO_bswap4 (a * 2 ^ 24 + b * 2 ^ 16 + c * 2 ^ 8 + d)
  = d * 2 ^ 24 + c * 2 ^ 16 + b * 2 ^ 8 + a.
Proof.
  intros Ha Hb Hc Hd. unfold CRYPTO_bswap4.
  set (x := a * 2 ^ 24 + b * 2 ^ 16 + c * 2 ^ 8 + d).
  assert (Hswap : u32 (Z.lor (Z.shiftr x 16) (Z.shiftl x 16))
                  = c * 2 ^ 24 + d * 2 ^ 16 + a * 2 ^ 8 + b).
  { unfold byte in *. rewrite Z.lor_comm, shiftr_div by lia.
    assert (x / 2 ^ 16 = a * 2 ^ 8 + b) as -> by (unfold x; Z.div_mod_to_equations; lia).
    rewrite lor_shiftl_add by lia. unfold u32, x. Z.div_mod_to_equations; lia. }
  rewrite Hswap. clear Hswap x.
  rewrite <- (lor_bytes4 c d a b) by done.
  rewrite !Z.land_lor_distr_l, !land_shiftl_l by lia.
  change (Z.shiftr 4278255360 24) with 255. change (Z.shiftr 4278255360 16) with 65280.
  change (Z.shiftr 4278255360 8) with 16711935. change (Z.shiftr 16711935 24) with 0.
  change (Z.shiftr 16711935 16) with 255. change (Z.shiftr 16711935 8) with 65280.
  assert (Hid : forall y, byte y -> Z.land y 255 = y)
    by (intros y Hy; rewrite land_255; by apply Z.mod_small).
  assert (Hz : forall y, byte y -> Z.land y 65280 = 0)
    by (apply (byte_eq (fun y => Z.land y 65280) (fun _ => 0)); by vm_compute).
  assert (Hz2 : forall y, byte y -> Z.land y 4278255360 = 0)
    by (apply (byte_eq (fun y => Z.land y 4278255360) (fun _ => 0)); by vm_compute).
  assert (Hid2 : forall y, byte y -> Z.land y 16711935 = y)
    by (apply (byte_eq (fun y => Z.land y 16711935) (fun y => y)); by vm_compute).
  rewrite !Hz, !Hz2, !Hid, !Hid2, !Z.land_0_r, !Z.shiftl_0_l, !Z.lor_0_l, !Z.lor_0_r by done.
  rewrite Z.shiftr_lor, Z.shiftl_lor, !Z.shiftr_shiftl_l, !Z.shiftl_shiftl by lia.
  change (24 - 8) with 16. change (8 - 8) with 0. change (16 + 8) with 24.
  rewrite Z.shiftl_0_r. unfold byte in *.
  assert (Z.lor (Z.lor (Z.shiftl c 16) a) (Z.lor (Z.shiftl d 24) (Z.shiftl b 8))
    = Z.lor (Z.lor (Z.lor (Z.shiftl d 24) (Z.shiftl c 16)) (Z.shiftl b 8)) a) as ->.
  { rewrite !Z.lor_assoc. apply Z.bits_inj'; intros i _. rewrite !Z.lor_spec.
    destruct (Z.testbit _ _), (Z.testbit _ _), (Z.testbit _ _), (Z.testbit _ _); done. }
  rewrite lor_bytes4 by done. rewrite u32_id by lia. done.
Qed.

Lemma bswap8_spec hi lo :
  0 <= hi < 2 ^ 32 -> 0 <= lo < 2 ^ 32 ->
  0 <= CRYPTO_bswap4 hi < 2 ^ 32 ->
  CRYPTO_bswap8 (hi * 2 ^ 32 + lo) = CRYPTO_bswap4 lo * 2 ^ 32 + CRYPTO_bswap4 hi.
Proof.
  intros Hhi Hlo Hb. unfold CRYPTO_bswap8.
  assert (Hlo' : 0 <= CRYPTO_bswap4 lo < 2 ^ 32) by (apply Z.mod_pos_bound; lia).
  rewrite shiftr_div by lia. rewrite Z.add_comm, Z.div_add, Z.div_small by lia.
  rewrite Z.add_0_l, (u32_id hi) by lia. unfold u32 at 1. rewrite Z.mod_add, Z.mod_small by lia.
  rewrite Z.lor_comm, lor_shiftl_add by lia. rewrite u64_id by lia. done.
Qed.

Lemma be_value_4 a b c d :
  be_value [a; b; c; d] = a * 2 ^ 24 + b * 2 ^ 16 + c * 2 ^ 8 + d.
Proof. unfold be_value. cbn [rev app le_value]. lia. Qed.

Lemma bswap4_bytes p :
  Forall byte p -> length p = 4%nat -> CRYPTO_bswap4 (be_value p) = le_value p.
Proof.
  intros Hp Hl. destruct p as [|a [|b [|c [|d [|]]]]]; try done.
  rewrite !Forall_cons in Hp. destruct Hp as (? & ? & ? & ? & _).
  rewrite be_value_4, bswap4_spec by done. cbn [le_value]. lia.
Qed.

Lemma bswap8_bytes p :
  Forall byte p -> length p = 8%nat -> CRYPTO_bswap8 (be_value p) = le_value p.
Proof.
  intros Hp Hl. rewrite <- (take_drop 4 p) in *. apply bytes_app in Hp as [H1 H2].
  assert (L1 : length (take 4 p) = 4%nat) by (rewrite length_take, take_drop in *; lia).
  assert (L2 : length (drop 4 p) = 4%nat) by (rewrite length_drop, take_drop in *; lia).
  set (p1 := take 4 p) in *. set (p2 := drop 4 p) in *. clearbody p1 p2. clear Hl.
  pose proof (be_value_range _ H1) as R1. pose proof (be_value_range _ H2) as R2.
  pose proof (le_value_range _ H1) as S1.
  unfold len in *. rewrite L1, L2 in *.
  assert (be_value (p1 ++ p2) = be_value p1 * 2 ^ 32 + be_value p2) as ->.
  { unfold be_value. rewrite rev_app_distr, le_value_app, len_rev. unfold len. rewrite L2.
    change (256 ^ Z.of_nat 4) with (2 ^ 32). lia. }
  rewrite bswap8_spec; [|lia|lia|].
  - rewrite !bswap4_bytes by done. rewrite le_value_app. unfold len. rewrite L1.
    change (256 ^ Z.of_nat 4) with (2 ^ 32). lia.
  - rewrite bswap4_bytes by done. lia.
Qed.

Lemma bswap2_bytes p :
  Forall byte p -> length p = 2%nat -> CRYPTO_bswap2 (be_value p) = le_value p.
Proof.
  intros Hp Hl. destruct p as [|a [|b [|]]]; try done.
  rewrite !Forall_cons in Hp. destruct Hp as (? & ? & _).
  unfold be_value. cbn [rev app le_value].
  replace (b + 256 * (a + 256 * 0)) with (a * 256 + b) by lia. rewrite bswap2_spec by done. lia.
Qed.

(** Writing a swapped value big-endian writes the value little-endian. *)
Lemma be_bytes_swap n (f : Z -> Z) v :
  0 <= v < 256 ^ Z.of_nat n ->
  (forall p, Forall byte p -> length p = n -> f (be_value p) = le_value p) ->
  0 <= f v < 256 ^ Z.of_nat n /\ be_bytes n (f v) = le_bytes n v.
Proof.
  intros Hv Hf. rewrite <- (be_value_bytes n v Hv) at 1 2 3.
  rewrite Hf by (apply be_bytes_byte || apply be_bytes_length).
  pose proof (le_value_range _ (be_bytes_byte n v)) as Hr.
  split; [unfold len in Hr; by rewrite be_bytes_length in Hr|].
  unfold be_bytes at 1. rewrite <- (be_bytes_length n v) at 1.
  rewrite le_bytes_value by apply be_bytes_byte. unfold be_bytes. apply rev_involutive.
Qed.

(** Lemmas about the reader [Cbs] and the typeclass [Reader]: what every reader promises to the
    code that calls it. *)

(** ** Basic reads *)

Lemma bind_some {S A B} (m : M S A) (k : A -> M S B) s a s' :
  m s = (Some a, s') -> bind m k s = k a s'.
Proof. unfold bind. by intros ->. Qed.

Lemma bind_none {S A B} (m : M S A) (k : A -> M S B) s s' :
  m s = (None, s') -> bind m k s = (None, s').
Proof. unfold bind. by intros ->. Qed.

(** Inverting a successful sequence. *)
Lemma bind_inv {S A B} (m : M S A) (k : A -> M S B) s b s'' :
  bind m k s = (Some b, s'') ->
  exists a s', m s = (Some a, s') /\ k a s' = (Some b, s'').
Proof. unfold bind. destruct (m s) as [[a|] s'] eqn:E; [eauto|done]. Qed.

Lemma check_inv {S} b (s : S) x s' : check b s = (Some x, s') -> b = true /\ s' = s.
Proof. unfold check; destruct b; intros [= <-]; auto. Qed.

Lemma cbs_get_app n p s : n = len p -> cbs_get n (p ++ s) = (Some p, s).
Proof.
  intros ->. unfold cbs_get, CBS_len. rewrite len_app.
  destruct (Z.ltb_spec (len p + len s) (len p)) as [H|_]; [pose proof (len_nonneg s); lia|].
  rewrite len_to_nat. by rewrite take_app_exact, drop_app_exact.
Qed.

Lemma cbs_get_short n s : len s < n -> cbs_get n s = (None, s).
Proof. intros. unfold cbs_get, CBS_len. by destruct (Z.ltb_spec (len s) n); [|lia]. Qed.

Lemma cbs_get_inv n s p s' :
  0 <= n -> cbs_get n s = (Some p, s') -> s = p ++ s' /\ len p = n.
Proof.
  unfold cbs_get, CBS_len. intros Hn H.
  destruct (Z.ltb_spec (len s) n); [done|]. injection H as <- <-.
  rewrite take_drop, len_take. split; [done|lia].
Qed.

Lemma CBS_get_u8_cons b s : CBS_get_u8 (b :: s) = (Some b, s).
Proof. unfold CBS_get_u8. by rewrite (bind_some _ _ _ _ _ (cbs_get_app 1 [b] s eq_refl)). Qed.

Lemma CBS_get_u8_nil : CBS_get_u8 [] = (None, []).
Proof. done. Qed.

Lemma CBS_get_bytes_app n p s : n = len p -> CBS_get_bytes n (p ++ s) = (Some p, s).
Proof. intros. unfold CBS_get_bytes. by rewrite (bind_some _ _ _ _ _ (cbs_get_app n p s H)). Qed.

Lemma CBS_get_bytes_inv n s p s' :
  0 <= n -> CBS_get_bytes n s = (Some p, s') -> s = p ++ s' /\ len p = n.
Proof.
  intros Hn H. apply bind_inv in H as (v & s1 & H & [= <- <-]). by apply cbs_get_inv in H.
Qed.

Lemma CBS_skip_app n p s : n = len p -> CBS_skip n (p ++ s) = (Some tt, s).
Proof. intros. unfold CBS_skip. by rewrite (bind_some _ _ _ _ _ (cbs_get_app n p s H)). Qed.

(** ** Readers *)

(** A reader leaves a suffix of what it was given, on success and on failure. *)
Class Reader {A} (m : M CBS A) : Prop := reader_suffix s : (m s).2 `suffix_of` s.

#[export] Instance ret_reader {A} (a : A) : Reader (ret a).
Proof. intros s. done. Qed.
#[export] Instance fail_reader {A} : Reader (@fail CBS A).
Proof. intros s. done. Qed.
#[export] Instance check_reader b : Reader (check b).
Proof. destruct b; apply _. Qed.
#[export] Instance lift_reader {A} (o : option A) : Reader (lift o).
Proof. intros s. done. Qed.
#[export] Instance bind_reader {A B} (m : M CBS A) (k : A -> M CBS B) :
  Reader m -> (forall a, Reader (k a)) -> Reader (bind m k).
Proof.
  intros Hm Hk s. unfold bind. specialize (Hm s).
  destruct (m s) as [[a|] s']; [|done]. cbn in *.
  etrans; [apply Hk | done].
Qed.
#[export] Instance match_option_reader {A B} (o : option A) (f : A -> M CBS B) (g : M CBS B) :
  (forall a, Reader (f a)) -> Reader g ->
  Reader (match o with Some a => f a | None => g end).
Proof. destruct o; auto. Qed.
#[export] Instance if_reader {A} (b : bool) (f g : M CBS A) :
  Reader f -> Reader g -> Reader (if b then f else g).
Proof. destruct b; auto. Qed.
#[export] Instance match_result_reader {A B} (r : option A * CBS) (f : A -> CBS -> M CBS B) (g : CBS -> M CBS B) :
  (forall a s, Reader (f a s)) -> (forall s, Reader (g s)) ->
  Reader (match r with (Some a, s) => f a s | (None, s) => g s end).
Proof. destruct r as [[a|] s]; auto. Qed.

#[export] Instance cbs_get_reader n : Reader (cbs_get n).
Proof.
  intros s. unfold cbs_get. destruct (CBS_len s <? n); [done|]. apply suffix_drop.
Qed.
#[export] Instance CBS_get_u8_reader : Reader CBS_get_u8.
Proof. apply _. Qed.
#[export] Instance cbs_get_u_reader n : Reader (cbs_get_u n).
Proof. apply _. Qed.
#[export] Instance CBS_get_bytes_reader n : Reader (CBS_get_bytes n).
Proof. apply _. Qed.
#[export] Instance CBS_skip_reader n : Reader (CBS_skip n).
Proof. apply _. Qed.
#[export] Instance length_prefixed_reader n : Reader (cbs_get_length_prefixed n).
Proof. apply _. Qed.
#[export] Instance until_first_reader c : Reader (CBS_get_until_first c).
Proof.
  intros s. unfold CBS_get_until_first. destruct (OPENSSL_memchr _ _); [|done].
  apply CBS_get_bytes_reader.
Qed.

#[export] Instance parse_base128_reader : Reader parse_base128_integer.
Proof.
  unfold parse_base128_integer. generalize 0. intros v s. revert v.
  induction s as [|b s IH]; intros v; cbn [parse_base128_loop]; [done|].
  repeat case_match; cbn; try apply suffix_cons_r; try done.
Qed.
#[export] Instance parse_asn1_tag_reader : Reader parse_asn1_tag.
Proof. unfold parse_asn1_tag. cbv zeta. apply _. Qed.

#[export] Instance long_form_reader ber_ok tag lb hl h : Reader (cbs_get_long_form ber_ok tag lb hl h).
Proof.
  intros s. unfold cbs_get_long_form.
  repeat case_match; try done; apply bind_reader; apply _.
Qed.
#[export] Instance any_element_reader ber_ok : Reader (cbs_get_any_asn1_element ber_ok).
Proof.
  intros s. unfold cbs_get_any_asn1_element.
  repeat case_match; try done; [apply bind_reader; apply _ | apply long_form_reader].
Qed.
#[export] Instance any_asn1_reader : Reader CBS_get_any_asn1.
Proof. unfold CBS_get_any_asn1, CBS_get_any_asn1_element. apply _. Qed.
#[export] Instance get_asn1_reader tag sk : Reader (cbs_get_asn1 tag sk).
Proof. unfold cbs_get_asn1, CBS_get_any_asn1_element. apply _. Qed.
#[export] Instance CBS_get_asn1_reader tag : Reader (CBS_get_asn1 tag).
Proof. apply get_asn1_reader. Qed.
#[export] Instance optional_reader tag : Reader (CBS_get_optional_asn1 tag).
Proof.
  intros s. unfold CBS_get_optional_asn1. case_match; [|done]. apply bind_reader; apply _.
Qed.

(** Readers give back bytes when they are given bytes. *)
Lemma reader_bytes {A} (m : M CBS A) `{!Reader m} s a s' :
  m s = (a, s') -> Forall byte s -> Forall byte s'.
Proof.
  intros E H. pose proof (reader_suffix (m := m) s) as Hs. rewrite E in Hs.
  by eapply suffix_bytes.
Qed.

Lemma reader_len {A} (m : M CBS A) `{!Reader m} s a s' : m s = (a, s') -> len s' <= len s.
Proof.
  intros E. pose proof (reader_suffix (m := m) s) as Hs. rewrite E in Hs. by apply suffix_len.
Qed.

(** ** Big-endian integers *)

Lemma cbs_get_u_loop_value data r :
  Forall byte data -> 0 <= r -> (r + 1) * 256 ^ len data <= 2 ^ 64 ->
  cbs_get_u_loop r data = r * 256 ^ len data + be_value data.
Proof.
  intros Hd. revert r. induction Hd as [|b l Hb Hl IH]; intros r Hr Hle; cbn [cbs_get_u_loop].
  { cbn [be_value rev le_value]. rewrite len_nil in *. unfold be_value; cbn. lia. }
  rewrite pow256_cons in Hle. pose proof (pow256_pos l).
  assert (Hr' : r * 256 + 256 <= 2 ^ 64) by nia.
  rewrite shiftl_mul, u64_id by (destruct Hb; cbn; lia).
  rewrite (lor_mul_add r b 8) by (destruct Hb; lia).
  destruct Hb as [Hb0 Hb1]. change (2 ^ 8) with 256 in *.
  rewrite IH, be_value_cons, pow256_cons by nia. lia.
Qed.

Lemma cbs_get_u_value data :
  Forall byte data -> len data <= 8 -> cbs_get_u_loop 0 data = be_value data.
Proof.
  intros Hd Hl. rewrite cbs_get_u_loop_value; [lia|done|lia|].
  pose proof (Z.pow_le_mono_r 256 (len data) 8). lia.
Qed.

Lemma cbs_get_u_app n p s :
  Forall byte p -> n = len p -> n <= 8 -> cbs_get_u n (p ++ s) = (Some (be_value p), s).
Proof.
  intros Hp Hn Hle. unfold cbs_get_u. rewrite (bind_some _ _ _ _ _ (cbs_get_app n p s Hn)).
  unfold ret. by rewrite cbs_get_u_value by (done || lia).
Qed.

Lemma cbs_get_u_inv n s v s' :
  Forall byte s -> 0 <= n <= 8 -> cbs_get_u n s = (Some v, s') ->
  exists p, s = p ++ s' /\ len p = n /\ Forall byte p /\ v = be_value p.
Proof.
  intros Hs Hn H. apply bind_inv in H as (p & s1 & H & [= <- <-]).
  apply cbs_get_inv in H as [-> Hp]; [|lia]. apply bytes_app in Hs as [Hp' _].
  exists p. by rewrite cbs_get_u_value by (done || lia).
Qed.

(** ** Base-128 integers *)

Lemma base128_cont v b : 0 <= v -> byte b -> v * 128 + b mod 128 < 2 ^ 64 ->
  Z.lor (u64 (Z.shiftl v 7)) (Z.land b 127) = v * 128 + b mod 128.
Proof.
  intros Hv Hb Hlt. pose proof (Z.mod_pos_bound b 128).
  rewrite land_127, shiftl_mul, u64_id by lia. by rewrite lor_mul_add by lia.
Qed.

Lemma shiftr57 v : 0 <= v < 2 ^ 64 -> (Z.shiftr v (64 - 7) =? 0) = (v <? 2 ^ 57).
Proof.
  intros Hv. rewrite shiftr_div by lia. apply eqb_prop.
  destruct (Z.eqb_spec (v / 2 ^ (64 - 7)) 0), (Z.ltb_spec v (2 ^ 57)); try done; exfalso;
    change (64 - 7) with 57 in *; Z.div_mod_to_equations; lia.
Qed.

Lemma parse_base128_complete n w rest :
  0 <= w < 2 ^ 64 -> (1 <= n)%nat -> (n = 1%nat \/ 128 ^ Z.of_nat (n - 1) <= w) ->
  parse_base128_loop (w / 128 ^ Z.of_nat n) (base128_digits n w ++ rest) = (Some w, rest).
Proof.
  intros Hw. induction n as [|m IH]; intros Hn Hlo; [lia|].
  cbn [base128_digits app parse_base128_loop].
  set (d := (w / 128 ^ Z.of_nat m) mod 128).
  set (v := w / 128 ^ Z.of_nat (S m)).
  pose proof (pow128_pos m) as Hp. pose proof (pow128_pos (S m)) as Hp'.
  pose proof (Z.mod_pos_bound (w / 128 ^ Z.of_nat m) 128 eq_refl) as Hd.
  assert (Hv : w / 128 ^ Z.of_nat m = v * 128 + d).
  { unfold v, d. rewrite pow128_S, (Z.mul_comm 128 (128 ^ _)), <- Z.div_div by lia.
    rewrite Z.mul_comm. apply Z.div_mod; lia. }
  assert (Hv0 : 0 <= v) by (apply Z.div_pos; lia).
  assert (Hvub : v * 128 + d <= w).
  { rewrite <- Hv. apply Z.div_le_upper_bound; [lia|]. nia. }
  rewrite shiftr57 by lia. destruct (Z.ltb_spec v (2 ^ 57)); [|lia]. cbn [negb].
  assert (Hb : byte (d + (if (m =? 0)%nat then 0 else 128)))
    by (unfold byte, d; destruct (m =? 0)%nat; lia).
  assert (Hbm : (d + (if (m =? 0)%nat then 0 else 128)) mod 128 = d).
  { destruct (m =? 0)%nat; [rewrite Z.add_0_r; apply Z.mod_small; unfold d; lia|].
    rewrite <- (Z.mul_1_l 128) at 1. rewrite Z.mod_add by lia. apply Z.mod_small; unfold d; lia. }
  rewrite byte_high_bit, base128_cont, Hbm by (try done; lia).
  destruct m as [|m].
  - cbn [Nat.eqb] in *. rewrite Z.add_0_r in *.
    rewrite andb_comm. destruct (Z.eqb_spec d 128); [unfold d in *; lia|]. cbn [andb].
    destruct (Z.ltb_spec d 128); [|unfold d in *; lia]. cbn [app].
    rewrite <- Hv. cbn. by rewrite Z.div_1_r.
  - change (S m =? 0)%nat with false in *. cbn iota in *.
    assert (Hpos : 1 <= w / 128 ^ Z.of_nat (S m)).
    { apply Z.div_le_lower_bound; [lia|]. destruct Hlo as [|Hlo]; [lia|].
      rewrite Nat.sub_succ, Nat.sub_0_r in Hlo. lia. }
    destruct (Z.ltb_spec (d + 128) 128); [lia|].
    assert (((v =? 0) && (d + 128 =? 128))%bool = false) as ->.
    { destruct (Z.eqb_spec v 0), (Z.eqb_spec (d + 128) 128); try done. lia. }
    rewrite <- Hv. apply IH; [lia|]. right.
    destruct Hlo as [|Hlo]; [lia|]. rewrite !Nat.sub_succ, Nat.sub_0_r in *.
    etrans; [|exact Hlo]. apply Z.pow_le_mono_r; lia.
Qed.

Lemma parse_base128_sound s v w rest :
  Forall byte s -> 0 <= v < 2 ^ 64 -> parse_base128_loop v s = (Some w, rest) ->
  exists n, (1 <= n)%nat /\ s = base128_digits n w ++ rest /\ v = w / 128 ^ Z.of_nat n /\
            0 <= w < 2 ^ 64 /\ (n = 1%nat \/ 128 ^ Z.of_nat (n - 1) <= w).
Proof.
  intros Hs. revert v. induction Hs as [|b s Hb Hs IH]; intros v Hv; cbn [parse_base128_loop];
    [done|].
  rewrite shiftr57 by done. destruct (Z.ltb_spec v (2 ^ 57)); cbn [negb]; [|done].
  destruct ((v =? 0) && (b =? 128))%bool eqn:Hmin; [done|].
  pose proof (Z.mod_pos_bound b 128 eq_refl) as Hd.
  rewrite byte_high_bit, base128_cont by (try done; lia).
  destruct (Z.ltb_spec b 128).
  - intros [= <- <-]. exists 1%nat. destruct Hb. rewrite Z.mod_small by lia.
    cbn [base128_digits app]. change (128 ^ Z.of_nat 0) with 1. change (128 ^ Z.of_nat 1) with 128.
    rewrite Z.div_1_r, Z.add_0_r, Z.add_comm, Z.mod_add, Z.div_add, Z.mod_small, Z.div_small by lia.
    auto with lia.
  - intros Hrun. apply IH in Hrun as (n & Hn & -> & Hvn & Hw & Hlo); [|lia].
    exists (S n). pose proof (pow128_pos n).
    assert (Hbeq : b = (v * 128 + b mod 128) mod 128 + 128).
    { unfold byte in Hb.
      Z.div_mod_to_equations; lia. }
    split; [lia|]. split.
    { cbn [base128_digits app]. rewrite <- Hvn. f_equal.
      destruct n; [lia|]. done. }
    split.
    { rewrite pow128_S, (Z.mul_comm 128 (128 ^ _)), <- Z.div_div, <- Hvn by lia.
      rewrite Z.add_comm, Z.div_add, Z.div_small by lia. lia. }
    split; [done|]. right. rewrite Nat.sub_succ, Nat.sub_0_r.
    destruct (Z.eqb_spec v 0), (Z.eqb_spec b 128); try done; bool_to_prop;
      (assert (1 <= w / 128 ^ Z.of_nat n) by (rewrite <- Hvn; subst; Z.div_mod_to_equations; lia));
      pose proof (Z.mul_div_le w (128 ^ Z.of_nat n)); nia.
Qed.

Lemma base128_exact_lemma s v rest :
  Forall byte s ->
  parse_base128_integer s = (Some v, rest) <-> 0 <= v < 2 ^ 64 /\ s = base128 v ++ rest.
Proof.
  intros Hs. unfold parse_base128_integer, base128. split.
  - intros H. apply (parse_base128_sound _ 0) in H as (n & Hn & -> & H0 & Hv & Hlo); [|done|lia].
    split; [done|]. pose proof (pow128_pos n).
    symmetry in H0. apply Z.div_small_iff in H0; [|lia].
    by rewrite (base128_len_unique v n) by (tauto || lia).
  - intros [Hv ->]. destruct (base128_len_bounds v) as [Hlo Hhi]; [lia|].
    rewrite <- (Z.div_small v (128 ^ Z.of_nat (base128_len v))) at 1 by lia.
    apply parse_base128_complete; [done|unfold base128_len; lia|tauto].
Qed.
