(* ===== verification/CbsAsn1.v ===== *)
(** The ASN.1 part of the reader against the reference encoding of [Der]. *)
From S2P Require Import Prelude Der Cbs CbsLemmas.

(** ** Identifiers *)

Lemma tag_assemble b n :
  byte b -> 0 <= n < 2 ^ 29 ->
  Z.lor (u32 (Z.shiftl (Z.land b 224) CBS_ASN1_TAG_SHIFT)) n = b / 32 * 2 ^ 29 + n.
Proof.
  intros Hb Hn.
  rewrite (byte_eq (fun b => Z.land b 224) (fun b => b / 32 * 32)) by (by vm_compute || done).
  unfold CBS_ASN1_TAG_SHIFT. rewrite shiftl_mul by lia.
  replace (b / 32 * 32 * 2 ^ 24) with (b / 32 * 2 ^ 29) by lia.
  assert (0 <= b / 32 < 8) by (unfold byte in Hb; Z.div_mod_to_equations; lia).
  rewrite u32_id by lia. by rewrite lor_mul_add by lia.
Qed.

Lemma tag_number_mask : CBS_ASN1_TAG_NUMBER_MASK = 2 ^ 29 - 1.
Proof. reflexivity. Qed.

Lemma parse_asn1_tag_complete tag rest :
  valid_tag tag -> parse_asn1_tag (der_identifier tag ++ rest) = (Some tag, rest).
Proof.
  intros Ht. destruct (tag_split tag Ht) as (Hb & Hn & Heq).
  unfold parse_asn1_tag, der_identifier.
  destruct (Z.ltb_spec (tag_number tag) 31) as [Hlt|Hge]; cbn [app].
  - rewrite (bind_some _ _ _ _ _ (CBS_get_u8_cons _ _)). cbv zeta.
    rewrite land_31, (Z.add_comm (_ * 32)), Z.mod_add, Z.mod_small by lia.
    rewrite tag_assemble by (unfold byte; lia).
    destruct (Z.eqb_spec (tag_number tag) 31); [lia|].
    rewrite Z.div_add, Z.div_small by lia. unfold ret.
    rewrite Z.add_0_l. by rewrite <- Heq.
  - rewrite (bind_some _ _ _ _ _ (CBS_get_u8_cons _ _)). cbv zeta.
    rewrite land_31, (Z.add_comm (_ * 32)), Z.mod_add, Z.mod_small by lia.
    rewrite Z.eqb_refl. unfold parse_base128_integer, base128.
    destruct (base128_len_bounds (tag_number tag)) as [Hlo Hhi]; [lia|].
    erewrite bind_some; cycle 1.
    { rewrite <- (Z.div_small (tag_number tag) (128 ^ Z.of_nat (base128_len (tag_number tag))))
        at 1 by lia.
      apply parse_base128_complete; [lia|unfold base128_len; lia|tauto]. }
    rewrite tag_number_mask.
    destruct (Z.ltb_spec (2 ^ 29 - 1) (tag_number tag)); [lia|].
    destruct (Z.ltb_spec (tag_number tag) 31); [lia|]. cbn [orb negb check].
    unfold check, bind, ret. rewrite (u32_id (tag_number tag)) by lia.
    rewrite tag_assemble by (unfold byte; lia).
    rewrite Z.div_add, Z.div_small by lia. rewrite Z.add_0_l.
    by rewrite <- Heq.
Qed.

Lemma parse_asn1_tag_sound s tag rest :
  Forall byte s -> parse_asn1_tag s = (Some tag, rest) ->
  valid_tag tag /\ s = der_identifier tag ++ rest.
Proof.
  intros Hs H. unfold parse_asn1_tag in H.
  destruct s as [|b s]; [done|].
  rewrite (bind_some _ _ _ _ _ (CBS_get_u8_cons _ _)) in H. cbv zeta in H.
  apply Forall_cons in Hs as [Hb Hs]. rewrite land_31 in H.
  assert (Hb32 : 0 <= b / 32 < 8) by (unfold byte in Hb; Z.div_mod_to_equations; lia).
  assert (Hbsplit : b = b / 32 * 32 + b mod 32) by (Z.div_mod_to_equations; lia).
  pose proof (Z.mod_pos_bound b 32 eq_refl) as Hm.
  destruct (Z.eqb_spec (b mod 32) 31) as [Hlong|Hshort].
  - apply bind_inv in H as (v & s1 & Hv & H). apply bind_inv in H as ([] & s2 & Hc & H).
    apply check_inv in Hc as [Hc ->]. injection H as <- <-.
    apply negb_true_iff, orb_false_iff in Hc as [H1 H2]. bool_to_prop.
    rewrite tag_number_mask in H1.
    apply (parse_base128_sound _ 0) in Hv as (n & Hn & -> & Hvn & Hv & Hlo); [|done|lia].
    rewrite (u32_id v), tag_assemble by (done || lia).
    destruct (tag_combine (b / 32) v) as (Ht & Hbits & Hnum); [lia..|].
    split; [done|]. unfold der_identifier. rewrite Hbits, Hnum.
    destruct (Z.ltb_spec v 31); [lia|].
    assert (Hvub : v < 128 ^ Z.of_nat n).
    { symmetry in Hvn. apply Z.div_small_iff in Hvn; [|pose proof (pow128_pos n); lia].
      pose proof (pow128_pos n); lia. }
    unfold base128. rewrite (base128_len_unique v n); [|tauto|lia].
    cbn [app]. f_equal. lia.
  - injection H as <- <-. rewrite tag_assemble by (done || lia).
    destruct (tag_combine (b / 32) (b mod 32)) as (Ht & Hbits & Hnum); [lia..|].
    split; [done|]. unfold der_identifier. rewrite Hbits, Hnum.
    destruct (Z.ltb_spec (b mod 32) 31); [|lia]. cbn [app]. by f_equal.
Qed.

(** ** Elements *)

Lemma der_length_split n rest :
  0 <= n < 2 ^ 32 ->
  exists lb p, der_length n = lb :: p /\ byte lb /\
    ((lb < 128 /\ p = [] /\ n = lb) \/
     (128 <= n /\ lb = 128 + len p /\ 1 <= len p <= 4 /\ Forall byte p /\ be_value p = n /\
      256 ^ (len p - 1) <= n /\ cbs_get_u (len p) (p ++ rest) = (Some n, rest))).
Proof.
  intros Hn. pose proof (byte_count_u32 n Hn) as Hk.
  destruct (byte_count_bounds n) as [Hlo Hhi]; [lia|].
  unfold der_length. destruct (Z.ltb_spec n 128).
  - exists n, []. unfold byte. repeat split; try lia. auto.
  - assert (Hlen : len (be_bytes (byte_count n) n) = Z.of_nat (byte_count n))
      by (unfold len; by rewrite be_bytes_length).
    assert (Hv : be_value (be_bytes (byte_count n) n) = n) by (apply be_value_bytes; lia).
    exists (128 + Z.of_nat (byte_count n)), (be_bytes (byte_count n) n).
    split; [done|]. split; [unfold byte; lia|]. right. rewrite Hlen.
    split; [done|]. split; [done|]. split; [lia|]. split; [auto with bytes|]. split; [done|].
    split.
    { destruct Hlo as [Hk1|[_ Hlo]]; [rewrite Hk1; cbn; lia|].
      replace (Z.of_nat (byte_count n) - 1) with (Z.of_nat (byte_count n - 1)) by lia. done. }
    rewrite cbs_get_u_app by (auto with bytes; lia). by rewrite Hv.
Qed.

Lemma shiftr_bytes_zero n k :
  0 <= n -> 1 <= k -> (Z.shiftr n ((k - 1) * 8) =? 0) = (n <? 256 ^ (k - 1)).
Proof.
  intros Hn Hk. rewrite shiftr_div by lia.
  replace (2 ^ ((k - 1) * 8)) with (256 ^ (k - 1))
    by (change 256 with (2 ^ 8); rewrite <- Z.pow_mul_r by lia; f_equal; lia).
  assert (0 < 256 ^ (k - 1)) by (apply Z.pow_pos_nonneg; lia).
  apply eqb_prop. destruct (Z.eqb_spec (n / 256 ^ (k - 1)) 0), (Z.ltb_spec n (256 ^ (k - 1)));
    try done; exfalso.
  - apply Z.div_small_iff in e; lia.
  - rewrite Z.div_small in n0; lia.
Qed.

Lemma long_count lb k : lb = 128 + k -> 0 <= k < 128 -> Z.land lb 127 = k.
Proof.
  intros -> Hk. rewrite land_127. rewrite Z.add_comm. change 128 with (1 * 128) at 1.
  rewrite Z.mod_add by lia. by apply Z.mod_small.
Qed.

(** Every DER element is read back, whatever follows it, in DER and in BER mode. *)
Lemma any_element_complete ber_ok tag c rest :
  valid_tag tag -> Forall byte c -> len c < 2 ^ 32 ->
  cbs_get_any_asn1_element ber_ok (der_tlv tag c ++ rest)
  = (Some (Element (der_tlv tag c) tag (len (der_header tag (len c))) false), rest).
Proof.
  intros Ht Hc Hlen. pose proof (len_nonneg c).
  assert (Hs : der_tlv tag c ++ rest = der_header tag (len c) ++ c ++ rest)
    by (unfold der_tlv; by rewrite app_assoc).
  rewrite Hs. unfold cbs_get_any_asn1_element.
  unfold der_header at 1. rewrite <- !app_assoc.
  rewrite parse_asn1_tag_complete by done.
  destruct (der_length_split (len c) (c ++ rest)) as (lb & p & Hlb & Hbyte & Hcase); [lia|].
  rewrite Hlb. cbn [app]. rewrite CBS_get_u8_cons.
  assert (Hhl : CBS_len (der_header tag (len c) ++ c ++ rest) - CBS_len (p ++ c ++ rest)
                = len (der_identifier tag) + 1).
  { unfold CBS_len, der_header. rewrite Hlb. rewrite !len_app, len_cons. lia. }
  rewrite Hhl, byte_high_bit by done.
  assert (Hhead : der_header tag (len c) = der_identifier tag ++ lb :: p)
    by (unfold der_header; by rewrite Hlb).
  pose proof (der_identifier_len tag Ht).
  assert (Hget : forall n, n = len (der_header tag (len c) ++ c) ->
     CBS_get_bytes n (der_header tag (len c) ++ c ++ rest) = (Some (der_tlv tag c), rest)).
  { intros n Hn'. rewrite app_assoc. by apply CBS_get_bytes_app. }
  destruct Hcase as [(Hlt & -> & Hn)|(Hge & Heq & Hk & Hp & Hv & Hlo & Hget_u)].
  - destruct (Z.ltb_spec lb 128); [|lia].
    erewrite bind_some by (apply Hget; rewrite len_app, Hhead, len_app, len_cons, len_nil; lia).
    unfold ret. rewrite Hhead, len_app, len_cons, len_nil. do 3 f_equal.
  - destruct (Z.ltb_spec lb 128); [lia|]. unfold cbs_get_long_form.
    rewrite (long_count lb (len p)) by lia.
    destruct (Z.eqb_spec (len p) 0); [lia|]. rewrite andb_false_r.
    destruct (Z.ltb_spec 4 (len p)); [lia|]. cbn [orb]. rewrite Hget_u.
    destruct (Z.ltb_spec (len c) 128); [lia|].
    rewrite shiftr_bytes_zero by lia.
    destruct (Z.ltb_spec (len c) (256 ^ (len p - 1))); [lia|]. cbn [orb]. rewrite !andb_false_r.
    rewrite u64_id by lia.
    destruct (Z.ltb_spec (len c + (len (der_identifier tag) + 1) + len p) (len c)); [lia|].
    erewrite bind_some by (apply Hget; rewrite len_app, Hhead, len_app, len_cons; lia).
    unfold ret. rewrite Hhead, len_app, len_cons. do 3 f_equal. lia.
Qed.

(** An element read without any BER feature is the DER element of its tag and contents. *)
Lemma any_element_sound ber_ok s out tag h rest :
  Forall byte s -> len s < 2 ^ 64 ->
  cbs_get_any_asn1_element ber_ok s = (Some (Element out tag h false), rest) ->
  exists c, valid_tag tag /\ len c < 2 ^ 32 /\ out = der_tlv tag c /\
            h = len (der_header tag (len c)) /\ s = out ++ rest.
Proof.
  intros Hs Hlen H. unfold cbs_get_any_asn1_element in H.
  destruct (parse_asn1_tag s) as [[t|] hd1] eqn:Htag; [|done].
  apply parse_asn1_tag_sound in Htag as [Ht ->]; [|done].
  destruct hd1 as [|lb hd2]; [done|]. rewrite CBS_get_u8_cons in H.
  apply bytes_app in Hs as [_ Hs]. apply Forall_cons in Hs as [Hlb Hs].
  assert (Hhl : CBS_len (der_identifier t ++ lb :: hd2) - CBS_len hd2
                = len (der_identifier t) + 1)
    by (unfold CBS_len; rewrite len_app, len_cons; lia).
  rewrite Hhl, byte_high_bit in H by done. pose proof (len_nonneg hd2).
  pose proof (der_identifier_len t Ht). rewrite len_app, len_cons in Hlen.
  destruct (Z.ltb_spec lb 128).
  - apply bind_inv in H as (o & s1 & H & [= <- <- <- <-]).
    apply CBS_get_bytes_inv in H as [Heq Ho]; [|unfold byte in *; lia].
    destruct (app_split (der_identifier t ++ [lb]) hd2 o s1) as (c & -> & ->).
    { by rewrite <- app_assoc. }
    { rewrite len_app, len_cons, len_nil, Ho. unfold byte in *; lia. }
    exists c. rewrite !len_app, len_cons, len_nil in Ho. pose proof (len_nonneg c).
    assert (lb = len c) as -> by lia.
    unfold der_tlv, der_header, der_length. destruct (Z.ltb_spec (len c) 128); [|lia].
    rewrite len_app, len_cons, len_nil. rewrite <- !app_assoc.
    repeat split; try done; unfold valid_tag in *; lia.
  - unfold cbs_get_long_form in H.
    assert (Hk : Z.land lb 127 = lb - 128) by (apply long_count; unfold byte in *; lia).
    rewrite Hk in H.
    destruct (ber_ok && _ && _)%bool; [by apply bind_inv in H as (? & ? & ? & [=])|].
    destruct (Z.eqb_spec (lb - 128) 0), (Z.ltb_spec 4 (lb - 128)); try done. cbn [orb] in H.
    destruct (cbs_get_u (lb - 128) hd2) as [[n64|] hd3] eqn:Hu; [|done].
    apply cbs_get_u_inv in Hu as (p & -> & Hp & Hpb & Hv); [|done|lia].
    assert (Hn : 0 <= n64 < 256 ^ len p) by (rewrite Hv; by apply be_value_range).
    assert (Hn32 : 0 <= n64 < 2 ^ 32) by (pose proof (Z.pow_le_mono_r 256 (len p) 4); lia).
    rewrite shiftr_bytes_zero in H by lia.
    rewrite len_app in *. pose proof (len_nonneg hd3).
    assert (Hcanon : (128 <= n64 /\ 256 ^ (lb - 128 - 1) <= n64) /\
      ((let* o := CBS_get_bytes (n64 + (len (der_identifier t) + 1) + (lb - 128)) in
         ret (Element o t (len (der_identifier t) + 1 + (lb - 128)) false))
         (der_identifier t ++ lb :: p ++ hd3) = (Some (Element out tag h false), rest))).
    { destruct (negb ber_ok && _)%bool eqn:Hrej; [done|].
      rewrite u64_id in H by lia.
      destruct (Z.ltb_spec (n64 + (len (der_identifier t) + 1) + (lb - 128)) n64); [lia|].
      destruct ber_ok; cbn [negb andb] in *.
      - apply bind_inv in H as (o & s1 & H & [= <- <- <- Hf <-]).
        apply orb_false_iff in Hf as [Hf1 Hf2]. bool_to_prop. split; [lia|].
        erewrite bind_some by exact H. unfold ret. done.
      - apply orb_false_iff in Hrej as [Hf1 Hf2]. bool_to_prop. split; [lia|]. exact H. }
    clear H. destruct Hcanon as [[Hge Hlo] H].
    apply bind_inv in H as (o & s1 & H & [= <- <- <- <-]).
    apply CBS_get_bytes_inv in H as [Heq Ho]; [|lia].
    destruct (app_split (der_identifier t ++ lb :: p) hd3 o s1) as (c & -> & ->).
    { by rewrite <- app_assoc. }
    { rewrite len_app, len_cons, Ho. lia. }
    exists c. rewrite !len_app, len_cons in Ho. pose proof (len_nonneg c).
    assert (Hc : n64 = len c) by lia.
    assert (Hbc : byte_count (len c) = length p).
    { apply byte_count_unique; [|unfold len in *; lia]. right. split; [unfold len in *; lia|].
      rewrite <- Hc. replace (Z.of_nat (length p - 1)) with (lb - 128 - 1); [done|].
      unfold len in *; lia. }
    unfold der_tlv, der_header, der_length. destruct (Z.ltb_spec (len c) 128); [lia|].
    assert (Hpc : be_bytes (length p) (len c) = p) by (rewrite <- Hc, Hv; by apply be_bytes_value).
    rewrite Hbc, Hpc.
    assert (lb = 128 + Z.of_nat (length p)) as <- by (unfold len in *; lia).
    rewrite len_app, len_cons. rewrite <- !app_assoc. cbn [app].
    repeat split; try done; unfold valid_tag in *; lia.
Qed.

(** ** Contents of elements *)

Lemma CBS_skip_header tag c :
  CBS_skip (len (der_header tag (len c))) (der_tlv tag c) = (Some tt, c).
Proof. by apply CBS_skip_app. Qed.

(** Strict parsing never flags a BER feature. *)
Lemma element_not_ber s out tag h bf rest :
  CBS_get_any_asn1_element s = (Some (Element out tag h bf), rest) -> bf = false.
Proof.
  unfold CBS_get_any_asn1_element, cbs_get_any_asn1_element, cbs_get_long_form. intros H.
  repeat case_match; try done; try (apply bind_inv in H as (? & ? & ? & [= <- <- <- <- <-]); done).
Qed.

Lemma get_any_asn1_inv s c tag rest :
  Forall byte s -> len s < 2 ^ 64 ->
  CBS_get_any_asn1 s = (Some (c, tag), rest) ->
  valid_tag tag /\ len c < 2 ^ 32 /\ s = der_tlv tag c ++ rest.
Proof.
  intros Hs Hlen H. apply bind_inv in H as ([o t h bf] & s1 & H & Hk).
  assert (bf = false) as -> by (by eapply element_not_ber).
  apply any_element_sound in H as (c' & Ht & Hc & -> & -> & ->); [|done..].
  cbn [el_out el_tag el_header_len] in Hk. rewrite CBS_skip_header in Hk.
  injection Hk as <- <- <-. done.
Qed.

Lemma get_any_asn1_app tag c rest :
  valid_tag tag -> Forall byte c -> len c < 2 ^ 32 ->
  CBS_get_any_asn1 (der_tlv tag c ++ rest) = (Some (c, tag), rest).
Proof.
  intros. unfold CBS_get_any_asn1, CBS_get_any_asn1_element.
  rewrite (bind_some _ _ _ _ _ (any_element_complete false tag c rest H H0 H1)).
  cbn [el_out el_tag el_header_len]. by rewrite CBS_skip_header.
Qed.

Lemma get_asn1_inv tag s c rest :
  Forall byte s -> len s < 2 ^ 64 ->
  CBS_get_asn1 tag s = (Some c, rest) ->
  valid_tag tag /\ len c < 2 ^ 32 /\ s = der_tlv tag c ++ rest.
Proof.
  intros Hs Hlen H. apply bind_inv in H as (el & s1 & H & Hk).
  apply bind_inv in Hk as ([] & s2 & Hc & Hk). apply check_inv in Hc as [Htag ->].
  apply Z.eqb_eq in Htag as <-.
  apply (get_any_asn1_inv s c (el_tag el) rest Hs Hlen).
  unfold CBS_get_any_asn1. rewrite (bind_some _ _ _ _ _ H).
  destruct (CBS_skip _ _) as [[[]|] o]; [|done]. injection Hk as -> ->. done.
Qed.

Lemma get_asn1_app tag c rest :
  valid_tag tag -> Forall byte c -> len c < 2 ^ 32 ->
  CBS_get_asn1 tag (der_tlv tag c ++ rest) = (Some c, rest).
Proof.
  intros. unfold CBS_get_asn1, cbs_get_asn1, CBS_get_any_asn1_element.
  rewrite (bind_some _ _ _ _ _ (any_element_complete false tag c rest H H0 H1)).
  cbn [el_out el_tag el_header_len]. unfold check. rewrite Z.eqb_refl.
  unfold bind, ret. cbn. by rewrite CBS_skip_header.
Qed.

Lemma valid_tag_small t : 0 <= t < 2 ^ 32 -> valid_tag t.
Proof. done. Qed.

(** ** INTEGERs *)

Lemma is_valid_asn1_integer_spec c :
  Forall byte c ->
  CBS_is_valid_asn1_integer c = if minimal_int c then Some (be_signed c <? 0) else None.
Proof.
  intros Hc. unfold CBS_is_valid_asn1_integer.
  destruct c as [|b c]; [done|]. rewrite CBS_get_u8_cons.
  pose proof Hc as Hall. apply Forall_cons in Hc as [Hb Hc].
  assert (Hneg : negb (Z.land b 128 =? 0) = (be_signed (b :: c) <? 0)).
  { rewrite byte_high_bit by done. unfold be_signed.
    pose proof (be_value_range _ Hall) as Hr. rewrite be_value_cons, pow256_cons in *.
    pose proof (be_value_range _ Hc). pose proof (pow256_pos c). unfold byte in Hb.
    destruct (Z.ltb_spec b 128); cbn [negb]; symmetry; [apply Z.ltb_ge|apply Z.ltb_lt]; nia. }
  rewrite Hneg. destruct c as [|b' c]; [done|]. rewrite CBS_get_u8_cons.
  apply Forall_cons in Hc as [Hb' _]. rewrite byte_high_bit by done. cbn [minimal_int].
  rewrite <- Z.leb_antisym.
  by destruct ((b =? 0) && (b' <? 128) || (b =? 255) && (128 <=? b'))%bool.
Qed.

Lemma get_asn1_uint64_loop_spec data r :
  Forall byte data -> 0 <= r < 2 ^ 64 ->
  get_asn1_uint64_loop r data =
  if r * 256 ^ len data + be_value data <? 2 ^ 64
  then Some (r * 256 ^ len data + be_value data) else None.
Proof.
  intros Hd. revert r. induction Hd as [|b l Hb Hl IH]; intros r Hr; cbn [get_asn1_uint64_loop].
  - change (256 ^ len (@nil Z)) with 1. change (be_value []) with 0.
    destruct (Z.ltb_spec (r * 1 + 0) (2 ^ 64)); [f_equal; lia|lia].
  - pose proof (pow256_pos l) as Hp. pose proof (be_value_range l Hl) as Hv.
    rewrite be_value_cons, pow256_cons. set (P := 256 ^ len l) in *.
    unfold byte in Hb. rewrite shiftr_div by lia.
    destruct (Z.eqb_spec (r / 2 ^ 56) 0) as [Hz|Hnz]; cbn [negb].
    + apply Z.div_small_iff in Hz; [|lia]. rewrite shiftl_mul, u64_id by lia.
      rewrite (lor_mul_add r b 8) by lia. change (2 ^ 8) with 256. rewrite IH by lia.
      assert (r * (256 * P) + (b * P + be_value l) = (r * 256 + b) * P + be_value l) as -> by lia.
      done.
    + assert (2 ^ 56 <= r) by (Z.div_mod_to_equations; lia).
      destruct (Z.ltb_spec (r * (256 * P) + (b * P + be_value l)) (2 ^ 64)); [nia|done].
Qed.

Lemma le_value_replicate_0 n : le_value (replicate n 0) = 0.
Proof. induction n as [|n IH]; cbn [replicate le_value]; lia. Qed.

Lemma le_value_replicate_255 n : le_value (replicate n 255) = 256 ^ Z.of_nat n - 1.
Proof.
  induction n as [|n IH]; cbn [replicate le_value]; [done|].
  rewrite IH, Nat2Z.inj_succ, Z.pow_succ_r by lia. lia.
Qed.

Lemma int_len_int64 v : - 2 ^ 63 <= v < 2 ^ 63 -> (int_len v <= 8)%nat.
Proof.
  intros Hv. destruct (byte_count_bounds (2 * int_magnitude v + 1)) as [Hlo _];
    [pose proof (int_magnitude_nonneg v); lia|]. fold (int_len v) in Hlo.
  destruct Hlo as [->|[_ Hlo]]; [lia|]. destruct (decide (int_len v <= 8)%nat); [done|].
  pose proof (Z.pow_le_mono_r 256 8 (Z.of_nat (int_len v - 1))).
  unfold int_magnitude in Hlo. destruct (Z.ltb_spec v 0); lia.
Qed.

(** The sign extension of [CBS_get_asn1_int64] recovers the value. *)
Lemma int_contents_sign_extend v :
  - 2 ^ 63 <= v < 2 ^ 63 ->
  int64_of_bytes (rev (int_contents v) ++
    replicate (8 - length (int_contents v)) (if v <? 0 then 0xff else 0)) = v.
Proof.
  intros Hv. pose proof (int_len_int64 v Hv) as Hk.
  destruct (byte_count_bounds (2 * int_magnitude v + 1)) as [_ Hhi];
    [pose proof (int_magnitude_nonneg v); lia|]. fold (int_len v) in Hhi.
  unfold int64_of_bytes. rewrite le_value_app, len_rev. fold (be_value (int_contents v)).
  rewrite int_contents_length.
  assert (Hlen : len (int_contents v) = Z.of_nat (int_len v))
    by (unfold len; by rewrite int_contents_length).
  rewrite <- be_signed_mod, be_signed_contents, Hlen by apply int_contents_byte.
  set (k := int_len v) in *. set (P := 256 ^ Z.of_nat k) in *.
  assert (HP : 0 < P) by (apply Z.pow_pos_nonneg; lia).
  unfold int_magnitude in Hhi. destruct (Z.ltb_spec v 0) as [Hneg|Hpos].
  - assert (Hvm : v mod P = v + P) by (symmetry; apply (Z.mod_unique _ _ (-1)); lia).
    rewrite Hvm, le_value_replicate_255, Z.mul_sub_distr_l.
    assert (P * 256 ^ Z.of_nat (8 - k) = 2 ^ 64) as ->.
    { unfold P. rewrite <- Z.pow_add_r by lia.
      replace (Z.of_nat k + Z.of_nat (8 - k)) with 8 by lia. done. }
    unfold sint. destruct (Z.ltb_spec (v + P + (2 ^ 64 - P * 1)) (2 ^ (64 - 1))); lia.
  - rewrite Z.mod_small, le_value_replicate_0 by lia.
    unfold sint. destruct (Z.ltb_spec (v + P * 0) (2 ^ (64 - 1))); lia.
Qed.

Lemma be_signed_bounds c :
  Forall byte c -> len c <= 8 -> - 2 ^ 63 <= be_signed c < 2 ^ 63.
Proof.
  intros Hc Hl. destruct (decide (c = [])) as [->|Hne]; [cbn; lia|].
  destruct (minimal_int_bounds c Hc Hne) as [Hhi _].
  pose proof (Z.pow_le_mono_r 256 (len c) 8). unfold int_magnitude in Hhi.
  destruct (Z.ltb_spec (be_signed c) 0); lia.
Qed.

Lemma be_signed_value c : Forall byte c -> 0 <= be_signed c -> be_value c = be_signed c.
Proof.
  intros Hc Hs. destruct c as [|b c]; [done|].
  pose proof (be_value_range _ Hc). unfold be_signed in *. destruct (b <? 128); lia.
Qed.

Lemma int_contents_ne v : int_contents v <> [].
Proof.
  intros E. pose proof (int_contents_length v) as H. rewrite E in H.
  pose proof (int_len_pos v). cbn in H. lia.
Qed.

Lemma minimal_int_of_contents v : minimal_int (int_contents v) = true.
Proof.
  apply minimal_int_contents; [apply int_contents_byte|].
  rewrite be_signed_contents. split; [done|apply int_contents_ne].
Qed.

Lemma int_contents_len_u32 v : - 2 ^ 64 <= v < 2 ^ 64 -> len (int_contents v) <= 9.
Proof.
  intros Hv. unfold len. rewrite int_contents_length.
  destruct (byte_count_bounds (2 * int_magnitude v + 1)) as [Hlo _];
    [pose proof (int_magnitude_nonneg v); lia|]. fold (int_len v) in Hlo.
  destruct Hlo as [->|[_ Hlo]]; [lia|]. destruct (decide (int_len v <= 9)%nat); [lia|].
  pose proof (Z.pow_le_mono_r 256 9 (Z.of_nat (int_len v - 1))).
  unfold int_magnitude in Hlo. destruct (Z.ltb_spec v 0); lia.
Qed.

Lemma get_asn1_int64_app v rest :
  - 2 ^ 63 <= v < 2 ^ 63 ->
  CBS_get_asn1_int64 (der_tlv CBS_ASN1_INTEGER (int_contents v) ++ rest) = (Some v, rest).
Proof.
  intros Hv. pose proof (int_contents_len_u32 v).
  unfold CBS_get_asn1_int64.
  erewrite bind_some by (apply get_asn1_app; [done|apply int_contents_byte|lia]).
  unfold bind at 1, lift. rewrite is_valid_asn1_integer_spec by apply int_contents_byte.
  rewrite minimal_int_of_contents, be_signed_contents. unfold bind, check.
  pose proof (int_len_int64 v Hv). unfold CBS_len.
  destruct (Z.ltb_spec 8 (len (int_contents v))) as [Hbig|_].
  { unfold len in Hbig. rewrite int_contents_length in Hbig. lia. }
  cbn [negb]. unfold ret. cbv beta. unfold CBS_data. by rewrite int_contents_sign_extend.
Qed.

Lemma get_asn1_uint64_app v rest :
  0 <= v < 2 ^ 64 ->
  CBS_get_asn1_uint64 (der_tlv CBS_ASN1_INTEGER (int_contents v) ++ rest) = (Some v, rest).
Proof.
  intros Hv. pose proof (int_contents_len_u32 v).
  unfold CBS_get_asn1_uint64.
  erewrite bind_some by (apply get_asn1_app; [done|apply int_contents_byte|lia]).
  unfold CBS_is_unsigned_asn1_integer.
  rewrite is_valid_asn1_integer_spec by apply int_contents_byte.
  rewrite minimal_int_of_contents, be_signed_contents.
  destruct (Z.ltb_spec v 0); [lia|]. unfold bind, check, lift, CBS_data. cbn [negb].
  unfold ret. cbv beta iota. rewrite get_asn1_uint64_loop_spec by (apply int_contents_byte || lia).
  rewrite Z.mul_0_l, Z.add_0_l.
  rewrite be_signed_value by (apply int_contents_byte || rewrite be_signed_contents; lia).
  rewrite be_signed_contents. destruct (Z.ltb_spec v (2 ^ 64)); [done|lia].
Qed.

Lemma get_asn1_bool_app (b : bool) rest :
  CBS_get_asn1_bool (der_tlv CBS_ASN1_BOOLEAN [if b then 0xff else 0] ++ rest) = (Some b, rest).
Proof.
  unfold CBS_get_asn1_bool.
  erewrite bind_some by (apply get_asn1_app;
    [done | constructor; [destruct b; by vm_compute|done] | done]).
  by destruct b.
Qed.
