(* ===== verification/CbsProps.v ===== *)
(** Properties of the byte-string reader (cbs.c). *)
From S2P Require Import Prelude Der Cbs CbsLemmas CbsAsn1.

(** ** Helper lemmas *)

Lemma cbs_get_u_spec n s :
  Forall byte s -> (n <= 8)%nat ->
  cbs_get_u (Z.of_nat n) s =
  if len s <? Z.of_nat n then (None, s) else (Some (be_value (take n s)), drop n s).
Proof.
  intros Hs Hn. unfold cbs_get_u, bind, cbs_get, CBS_len.
  destruct (len s <? Z.of_nat n) eqn:E; [done|]. bool_to_prop. unfold ret.
  rewrite Nat2Z.id, cbs_get_u_value; [done|auto with bytes|rewrite len_take; lia].
Qed.

(** What reading [n] bytes as a big-endian or little-endian number means. *)
Definition read_be (n : nat) (s : list Z) : option Z * list Z :=
  if len s <? Z.of_nat n then (None, s) else (Some (be_value (take n s)), drop n s).
Definition read_le (n : nat) (s : list Z) : option Z * list Z :=
  if len s <? Z.of_nat n then (None, s) else (Some (le_value (take n s)), drop n s).

Lemma take_range n s :
  Forall byte s -> 0 <= be_value (take n s) < 256 ^ Z.of_nat n.
Proof.
  intros Hs. pose proof (be_value_range (take n s) (bytes_take n s Hs)) as H.
  pose proof (Z.pow_le_mono_r 256 (len (take n s)) (Z.of_nat n)). rewrite len_take in *. lia.
Qed.

(** Truncating the value of [n] bytes to at least [8 * n] bits changes nothing. *)
Lemma read_trunc n (f : Z -> Z) s :
  Forall byte s -> (n <= 8)%nat -> (forall v, 0 <= v < 256 ^ Z.of_nat n -> f v = v) ->
  (let* v := cbs_get_u (Z.of_nat n) in ret (f v)) s = read_be n s.
Proof.
  intros Hs Hn Hf. unfold bind, read_be. rewrite cbs_get_u_spec by done.
  destruct (len s <? Z.of_nat n); [done|]. unfold ret. by rewrite Hf by (by apply take_range).
Qed.

(** Swapping the bytes of a big-endian read gives the little-endian one. *)
Lemma read_swap n (f : Z -> Z) s :
  Forall byte s ->
  (forall p, Forall byte p -> length p = n -> f (be_value p) = le_value p) ->
  (match read_be n s with (Some v, s) => (Some (f v), s) | (None, s) => (None, s) end)
  = read_le n s.
Proof.
  intros Hs Hf. unfold read_be, read_le. destruct (len s <? Z.of_nat n) eqn:E; [done|].
  bool_to_prop. rewrite Hf; [done|auto with bytes|].
  rewrite length_take. unfold len in E. lia.
Qed.

Lemma memcmp_loop_spec x a b :
  0 <= x -> Forall byte a -> Forall byte b -> length a = length b ->
  (CRYPTO_memcmp_loop x a b = 0 <-> x = 0 /\ a = b).
Proof.
  intros Hx Ha. revert x b Hx. induction Ha as [|p a Hp Ha IH]; intros x [|q b] Hx Hb Hl;
    cbn [CRYPTO_memcmp_loop]; try done; [tauto|].
  apply Forall_cons in Hb as [Hq Hb]. injection Hl as Hl. unfold byte in *.
  rewrite IH; [|apply Z.lor_nonneg; split; [lia|apply Z.lxor_nonneg; lia]|done|done].
  rewrite Z.lor_eq_0_iff, Z.lxor_eq_0_iff.
  split; [by intros [[-> ->] ->] | by intros [-> [= -> ->]]].
Qed.

Lemma memchr_spec s c :
  match OPENSSL_memchr s c with
  | Some n => exists p r, s = p ++ c :: r /\ length p = n /\ Forall (fun b => b <> c) p
  | None => Forall (fun b => b <> c) s
  end.
Proof.
  induction s as [|b s IH]; cbn [OPENSSL_memchr]; [done|].
  destruct (Z.eqb_spec b c) as [->|Hne].
  - exists [], s. done.
  - destruct (OPENSSL_memchr s c); cbn [fmap option_fmap option_map].
    + destruct IH as (p & r & -> & <- & Hp). exists (b :: p), r. auto.
    + by constructor.
Qed.

(** ** The properties *)

(** C12: the element parser accepts exactly the DER encodings (or, in BER mode without a BER
    feature being flagged, exactly them too): it returns the whole element, its tag and header
    length, and leaves exactly what follows. *)
Theorem cbs_element_exact ber_ok s out tag h rest :
  Forall byte s -> len s < 2 ^ 64 ->
  cbs_get_any_asn1_element ber_ok s = (Some (Element out tag h false), rest) <->
  exists c, valid_tag tag /\ len c < 2 ^ 32 /\ out = der_tlv tag c /\
            h = len (der_header tag (len c)) /\ s = out ++ rest.
Proof.
  intros Hs Hl. split; [by apply any_element_sound|].
  intros (c & Ht & Hc & -> & -> & ->). apply any_element_complete; try done.
  apply bytes_app in Hs as [Hs _]. unfold der_tlv in Hs. by apply bytes_app in Hs as [_ Hs].
Qed.

(** An INTEGER 5 followed by one byte. *)
Example cbs_element_exact_witness :
  cbs_get_any_asn1_element false [2; 1; 5; 9] = (Some (Element [2; 1; 5] 2 2 false), [9]).
Proof.
  apply (cbs_element_exact false [2; 1; 5; 9] [2; 1; 5] 2 2 [9]).
  - repeat constructor; by vm_compute.
  - by vm_compute.
  - exists [5]. repeat split; by vm_compute.
Defined.

(** [CBS_get_asn1_int64] returns [v] exactly on the minimal two's complement INTEGER of a
    64-bit [v]; in particular it never returns a value for padded or overlong contents. *)
Theorem cbs_int64_exact s v rest :
  Forall byte s -> len s < 2 ^ 64 ->
  CBS_get_asn1_int64 s = (Some v, rest) <->
  - 2 ^ 63 <= v < 2 ^ 63 /\ s = der_tlv CBS_ASN1_INTEGER (int_contents v) ++ rest.
Proof.
  intros Hs Hl. split.
  - intros H. apply bind_inv in H as (c & s1 & H & Hk).
    pose proof H as Hget. apply get_asn1_inv in H as (_ & Hc & ->); [|done..].
    apply bytes_app in Hs as [Hs _]. unfold der_tlv in Hs. apply bytes_app in Hs as [_ Hcb].
    unfold bind at 1, lift in Hk. rewrite is_valid_asn1_integer_spec in Hk by done.
    destruct (minimal_int c) eqn:Hm; [|done].
    apply bind_inv in Hk as ([] & s2 & Hck & Hk). apply check_inv in Hck as [Hck ->].
    apply negb_true_iff in Hck. bool_to_prop. unfold CBS_len in Hck.
    injection Hk as Hv <-. apply minimal_int_contents in Hm as [Hm _]; [|done].
    rewrite Hm in Hv at 1 2. unfold CBS_data in Hv.
    rewrite int_contents_sign_extend in Hv by (by apply be_signed_bounds). subst v.
    rewrite <- Hm. split; [by apply be_signed_bounds|done].
  - intros [Hv ->]. by apply get_asn1_int64_app.
Qed.

Example cbs_int64_exact_witness :
  CBS_get_asn1_int64 [2; 2; 255; 127; 1] = (Some (-129), [1]).
Proof.
  apply (cbs_int64_exact [2; 2; 255; 127; 1] (-129) [1]).
  - repeat constructor; by vm_compute.
  - by vm_compute.
  - split; [lia|by vm_compute].
Defined.

(** [CBS_get_asn1_uint64] returns [v] exactly on the minimal INTEGER of an unsigned 64-bit
    [v]. *)
Theorem cbs_uint64_exact s v rest :
  Forall byte s -> len s < 2 ^ 64 ->
  CBS_get_asn1_uint64 s = (Some v, rest) <->
  0 <= v < 2 ^ 64 /\ s = der_tlv CBS_ASN1_INTEGER (int_contents v) ++ rest.
Proof.
  intros Hs Hl. split.
  - intros H. apply bind_inv in H as (c & s1 & H & Hk).
    apply get_asn1_inv in H as (_ & Hc & ->); [|done..].
    apply bytes_app in Hs as [Hs _]. unfold der_tlv in Hs. apply bytes_app in Hs as [_ Hcb].
    apply bind_inv in Hk as ([] & s2 & Hck & Hk). apply check_inv in Hck as [Hck ->].
    unfold CBS_is_unsigned_asn1_integer in Hck. rewrite is_valid_asn1_integer_spec in Hck by done.
    destruct (minimal_int c) eqn:Hm; [|done]. apply negb_true_iff in Hck. bool_to_prop.
    unfold lift, CBS_data in Hk. rewrite get_asn1_uint64_loop_spec in Hk by (done || lia).
    rewrite Z.mul_0_l, Z.add_0_l, be_signed_value in Hk by done.
    destruct (Z.ltb_spec (be_signed c) (2 ^ 64)); [|done]. injection Hk as <- <-.
    apply minimal_int_contents in Hm as [Hm _]; [|done]. rewrite <- Hm. done.
  - intros [Hv ->]. by apply get_asn1_uint64_app.
Qed.

Example cbs_uint64_exact_witness :
  CBS_get_asn1_uint64 [2; 2; 0; 200; 1] = (Some 200, [1]).
Proof.
  apply (cbs_uint64_exact [2; 2; 0; 200; 1] 200 [1]).
  - repeat constructor; by vm_compute.
  - by vm_compute.
  - split; [lia|by vm_compute].
Defined.

(** [CBS_get_asn1_bool] accepts exactly the two DER booleans. *)
Theorem cbs_bool_exact s b rest :
  Forall byte s -> len s < 2 ^ 64 ->
  CBS_get_asn1_bool s = (Some b, rest) <->
  s = der_tlv CBS_ASN1_BOOLEAN [if b : bool then 0xff else 0] ++ rest.
Proof.
  intros Hs Hl. split.
  - intros H. apply bind_inv in H as (c & s1 & H & Hk).
    apply get_asn1_inv in H as (_ & Hc & ->); [|done..].
    apply bind_inv in Hk as ([] & s2 & Hck & Hk). apply check_inv in Hck as [Hck ->].
    bool_to_prop. apply bind_inv in Hk as ([] & s2 & Hck2 & Hk).
    apply check_inv in Hck2 as [Hck2 ->]. injection Hk as <- <-.
    destruct c as [|x [|y c]]; cbn in Hck; try done.
    2: { unfold CBS_len, len in Hck. cbn in Hck. lia. }
    cbn [CBS_data hd] in *.
    destruct (Z.eqb_spec x 0) as [->|]; [done|]. cbn [negb andb] in *.
    destruct (Z.eqb_spec x 255) as [->|]; [done|]. done.
  - intros ->. apply get_asn1_bool_app.
Qed.

Example cbs_bool_exact_witness : CBS_get_asn1_bool [1; 1; 255; 7] = (Some true, [7]).
Proof.
  apply (cbs_bool_exact [1; 1; 255; 7] true [7]).
  - repeat constructor; by vm_compute.
  - by vm_compute.
  - by vm_compute.
Defined.

(** the base-128 integers of high tag numbers and OID components are read exactly in their
    minimal form, up to 64 bits. *)
Theorem cbs_base128_exact s v rest :
  Forall byte s ->
  parse_base128_integer s = (Some v, rest) <-> 0 <= v < 2 ^ 64 /\ s = base128 v ++ rest.
Proof. apply base128_exact_lemma. Qed.

Example cbs_base128_exact_witness :
  parse_base128_integer [0x86; 0xf7; 0x0d; 1] = (Some 113549, [1]).
Proof.
  apply (cbs_base128_exact [0x86; 0xf7; 0x0d; 1] 113549 [1]).
  - repeat constructor; by vm_compute.
  - split; [lia|by vm_compute].
Defined.

(** every fixed-width reader returns the big-endian (or, for the [le] ones, little-endian)
    value of the next bytes and skips them, or fails on a short input and leaves it alone. *)
Theorem cbs_fixed_width s :
  Forall byte s ->
  CBS_get_u8 s = read_be 1 s /\
  CBS_get_u16 s = read_be 2 s /\ CBS_get_u16le s = read_le 2 s /\
  CBS_get_u24 s = read_be 3 s /\
  CBS_get_u32 s = read_be 4 s /\ CBS_get_u32le s = read_le 4 s /\
  CBS_get_u64 s = read_be 8 s /\ CBS_get_u64le s = read_le 8 s.
Proof.
  intros Hs.
  assert (H16 : CBS_get_u16 s = read_be 2 s)
    by (apply (read_trunc 2 u16); [done|lia|intros; by apply Z.mod_small]).
  assert (H32 : CBS_get_u32 s = read_be 4 s)
    by (apply (read_trunc 4 u32); [done|lia|intros; by apply Z.mod_small]).
  assert (H64 : CBS_get_u64 s = read_be 8 s)
    by (apply (cbs_get_u_spec 8); [done|lia]).
  assert (Hle : forall (m : M CBS Z) n f, m s = read_be n s ->
    (forall p, Forall byte p -> length p = n -> f (be_value p) = le_value p) ->
    (let* v := m in ret (f v)) s = read_le n s).
  { intros m n f Hm Hf. unfold bind. rewrite Hm. by apply read_swap. }
  split_and!; try done.
  - destruct s as [|b s]; [done|]. rewrite CBS_get_u8_cons. unfold read_be.
    rewrite len_cons. pose proof (len_nonneg s).
    destruct (Z.ltb_spec (1 + len s) (Z.of_nat 1)); [lia|].
    cbn [take drop]. unfold be_value. cbn [rev app le_value]. rewrite take_0, drop_0. cbn [rev app le_value]. by rewrite Z.add_0_r.
  - apply Hle; [done|]. intros p Hp Hl. destruct p as [|a [|b [|]]]; try done.
    rewrite !Forall_cons in Hp. destruct Hp as (? & ? & _).
    unfold be_value. cbn [rev app le_value].
    replace (b + 256 * (a + 256 * 0)) with (a * 256 + b) by lia. rewrite bswap2_spec by done. lia.
  - apply (read_trunc 3 u32); [done|lia|]. intros. apply Z.mod_small.
    change (256 ^ Z.of_nat 3) with (2 ^ 24) in *. lia.
  - apply Hle; [done|]. apply bswap4_bytes.
  - apply Hle; [done|]. apply bswap8_bytes.
Qed.

Example cbs_fixed_width_witness :
  CBS_get_u32le [1; 2; 3; 4; 5] = (Some 0x04030201, [5]) /\ CBS_get_u64 [1; 2] = (None, [1; 2]).
Proof.
  split.
  - apply (cbs_fixed_width [1; 2; 3; 4; 5]). repeat constructor; by vm_compute.
  - apply (cbs_fixed_width [1; 2]). repeat constructor; by vm_compute.
Defined.

(** No reader ever leaves anything but a suffix of its input, whether it succeeds or
    fails: reads are bounded by the input and move forward only. *)
Theorem cbs_readers_move_forward s n tag b d (db : bool) :
  (CBS_skip n s).2 `suffix_of` s /\ (CBS_get_bytes n s).2 `suffix_of` s /\
  (CBS_copy_bytes n s).2 `suffix_of` s /\ (cbs_get_u n s).2 `suffix_of` s /\
  (cbs_get_length_prefixed n s).2 `suffix_of` s /\ (CBS_get_until_first n s).2 `suffix_of` s /\
  (parse_base128_integer s).2 `suffix_of` s /\ (parse_asn1_tag s).2 `suffix_of` s /\
  (cbs_get_any_asn1_element b s).2 `suffix_of` s /\ (CBS_get_any_asn1 s).2 `suffix_of` s /\
  (cbs_get_asn1 tag b s).2 `suffix_of` s /\ (CBS_get_asn1_uint64 s).2 `suffix_of` s /\
  (CBS_get_asn1_int64 s).2 `suffix_of` s /\ (CBS_get_asn1_bool s).2 `suffix_of` s /\
  (CBS_get_optional_asn1 tag s).2 `suffix_of` s /\
  (CBS_get_optional_asn1_octet_string tag s).2 `suffix_of` s /\
  (CBS_get_optional_asn1_uint64 tag d s).2 `suffix_of` s /\
  (CBS_get_optional_asn1_bool tag db s).2 `suffix_of` s.
Proof.
  split_and!; match goal with |- (?m s).2 `suffix_of` s => cut (Reader m); [done|] end;
    unfold CBS_copy_bytes, CBS_get_asn1_uint64, CBS_get_asn1_int64, CBS_get_asn1_bool,
      CBS_get_optional_asn1_octet_string, CBS_get_optional_asn1_uint64,
      CBS_get_optional_asn1_bool; cbv zeta; apply _.
Qed.

(** the constant-time [CBS_mem_equal] decides equality of the bytes. *)
Theorem cbs_mem_equal_decides cbs data :
  Forall byte cbs -> Forall byte data -> CBS_mem_equal cbs data = bool_decide (cbs = data).
Proof.
  intros Hc Hd. unfold CBS_mem_equal, CBS_len.
  destruct (Z.eqb_spec (len data) (len cbs)) as [Hl|Hl]; cbn [negb].
  - apply eq_bool_prop_intro. rewrite bool_decide_spec.
    pose proof (memcmp_loop_spec 0 cbs data ltac:(lia) Hc Hd) as H. unfold CRYPTO_memcmp.
    unfold Is_true. destruct (Z.eqb_spec (CRYPTO_memcmp_loop 0 cbs data) 0) as [E|E].
    + split; [intros _; apply H; [unfold len in Hl; lia|done]|done].
    + split; [done|]. intros ->. apply E, H; done.
  - symmetry. apply bool_decide_eq_false. by intros ->.
Qed.

Example cbs_mem_equal_decides_witness :
  CBS_mem_equal [1; 2] [1; 2] = bool_decide ([1; 2] = [1; 2]).
Proof. apply (cbs_mem_equal_decides [1; 2] [1; 2]); repeat constructor; by vm_compute. Defined.

(** [CBS_get_until_first] splits at the first [c], which it does not consume, and fails
    without moving when there is none. *)
Theorem cbs_until_first_spec c s :
  match CBS_get_until_first c s with
  | (Some out, rest) => s = out ++ rest /\ hd_error rest = Some c /\ c ∉ out
  | (None, rest) => rest = s /\ c ∉ s
  end.
Proof.
  unfold CBS_get_until_first, CBS_data. pose proof (memchr_spec s c) as H.
  assert (Hni : forall l, Forall (fun b => b <> c) l -> c ∉ l).
  { intros l Hl Hin. rewrite Forall_forall in Hl. by apply (Hl c). }
  destruct (OPENSSL_memchr s c) as [n|]; [|auto].
  destruct H as (p & r & -> & <- & Hp). fold (len p).
  rewrite CBS_get_bytes_app by done. auto.
Qed.

(** an [OPTIONAL] element is absent, with nothing read, unless its tag comes next; when it
    does come next, the result is that of [CBS_get_asn1] (a malformed element is an error, not
    an absence). *)
Theorem cbs_optional_spec tag s :
  Forall byte s -> len s < 2 ^ 64 ->
  match CBS_get_optional_asn1 tag s with
  | (Some (Some c), rest) => len c < 2 ^ 32 /\ s = der_tlv tag c ++ rest
  | (Some None, rest) => rest = s /\ forall k, valid_tag tag -> s <> der_identifier tag ++ k
  | (None, _) => exists k, s = der_identifier tag ++ k /\
                 forall c r, Forall byte c -> len c < 2 ^ 32 -> s <> der_tlv tag c ++ r
  end.
Proof.
  intros Hs Hl. unfold CBS_get_optional_asn1.
  destruct (CBS_peek_asn1_tag s tag) eqn:Hp; unfold CBS_peek_asn1_tag, CBS_len in Hp.
  - destruct (len s <? 1); [done|].
    destruct (parse_asn1_tag s) as [[t|] r] eqn:Ht; [|done]. apply Z.eqb_eq in Hp as <-.
    apply parse_asn1_tag_sound in Ht as [Htag Heq]; [|done].
    unfold bind. destruct (CBS_get_asn1 tag s) as [[c|] rest] eqn:Hg; unfold ret.
    + by apply get_asn1_inv in Hg as (_ & Hc & Hsplit).
    + exists r. split; [done|]. intros c r' Hc Hcl ->.
      rewrite get_asn1_app in Hg by done. done.
  - split; [done|]. intros k Htag ->. pose proof (der_identifier_len tag Htag).
    rewrite len_app in Hp. pose proof (len_nonneg k).
    destruct (Z.ltb_spec (len (der_identifier tag) + len k) 1); [lia|].
    rewrite parse_asn1_tag_complete in Hp by done. by rewrite Z.eqb_refl in Hp.
Qed.

Example cbs_optional_spec_witness :
  exists c, CBS_get_optional_asn1 0xa0000001 [0xa1; 1; 5] = (Some (Some c), []) /\
            [0xa1; 1; 5] = der_tlv 0xa0000001 c ++ [].
Proof.
  assert (Hb : Forall byte [0xa1; 1; 5]) by bytes_lit.
  assert (E : CBS_get_optional_asn1 0xa0000001 [0xa1; 1; 5] = (Some (Some [5]), [])) by (vm_compute; reflexivity).
  pose proof (cbs_optional_spec 0xa0000001 [0xa1; 1; 5] Hb eq_refl) as H. rewrite E in H.
  exists [5]. split; [exact E|exact (proj2 H)].
Defined.
