(* ===== verification/Cbb.v ===== *)
(** The byte-string builder of BoringSSL (crypto/bytestring/cbb.c).

    A [CBB] is an object that points to a buffer shared by a whole family of builders and,
    while a length prefix is pending, to a child [CBB].  The model keeps that store: [heap] holds
    the family's [cbb_buffer_st] and its [CBB] objects by address, and an operation on a [CBB]
    takes its address.  Functions return [None] where the code returns 0, with the store they
    leave.  A base pointer that is null, or whose memory was freed, may not be followed: what follows
    one has undefined behaviour, and the store says so ever after ([Undefined]).  [malloc_ok] and
    [realloc_ok] answer for the allocator (the sizes one family asks [realloc] for strictly increase,
    so a function of the size loses no behaviour) and [junk] is what uninitialised memory holds. *)
From stdpp Require Import gmap.
From S2P Require Import Prelude Cbs.

(** What has become of the family's [cbb_buffer_st]: it may be used, it was freed, or memory was used that
    may not be, and nothing is known of what follows. *)
Inductive lifetime := Live | Freed | Undefined.

Record cbb_buffer_st := CbbBuffer {
  buf : list Z;          (* the whole allocation: [cap] bytes *)
  blen : Z;
  cap : Z;
  can_resize : bool;
  error : bool;
  life : lifetime;
}.

Record CBB := Cbb {
  has_base : bool;       (* base != NULL *)
  child : option nat;
  offset : Z;
  pending_len_len : Z;
  pending_is_asn1 : bool;
  is_child : bool;
}.

Record heap := Heap {
  base : cbb_buffer_st;
  objs : gmap nat CBB;
}.

(** [CBB_zero]: all fields zero. *)
Definition CBB_zero : CBB := Cbb false None 0 0 false false.

Section cbb.
Context (malloc_ok realloc_ok : Z -> bool) (junk : nat -> Z).

(** [n] uninitialised bytes from index [i] on. *)
Definition fresh_bytes (i n : nat) : list Z := map junk (seq i n).

(** *** Stores *)

Definition set_buf (h : heap) (b : cbb_buffer_st) : heap := Heap b (objs h).
Definition set_obj (h : heap) (id : nat) (c : CBB) : heap := Heap (base h) (<[id := c]> (objs h)).

Definition with_error (b : cbb_buffer_st) : cbb_buffer_st :=
  CbbBuffer (buf b) (blen b) (cap b) (can_resize b) true (life b).
Definition with_len (b : cbb_buffer_st) (n : Z) : cbb_buffer_st :=
  CbbBuffer (buf b) n (cap b) (can_resize b) (error b) (life b).
Definition with_buf (b : cbb_buffer_st) (l : list Z) : cbb_buffer_st :=
  CbbBuffer l (blen b) (cap b) (can_resize b) (error b) (life b).
Definition with_life (b : cbb_buffer_st) (l : lifetime) : cbb_buffer_st :=
  CbbBuffer (buf b) (blen b) (cap b) (can_resize b) (error b) l.

(** [base->error = 1; return 0;] *)
Definition goto_err {A} : M heap A := fun h => (None, set_buf h (with_error (base h))).
(** [if (!b) goto err;] *)
Definition check_err (b : bool) : M heap unit := if b then ret tt else goto_err.
(** [if (!m) goto err;] *)
Definition or_err {A} (m : M heap A) : M heap A := fun h =>
  match m h with
  | (Some a, h) => (Some a, h)
  | (None, h) => goto_err h
  end.

(** The object at an address; a dangling address is not followed by the code that type checks
  its clients' use, and fails here. *)
Definition get_obj (id : nat) : M heap CBB := fun h => (objs h !! id, h).
Definition put_obj (id : nat) (c : CBB) : M heap unit := fun h => (Some tt, set_obj h id c).
(** Follows a base pointer that is not null. *)
Definition get_base : M heap cbb_buffer_st := fun h =>
  match life (base h) with
  | Live => (Some (base h), h)
  | _ => (None, set_buf h (with_life (base h) Undefined))
  end.
(** Follows the base pointer of an object without a test for null. *)
Definition base_of (p : CBB) : M heap cbb_buffer_st :=
  if has_base p then get_base else fun h => (None, set_buf h (with_life (base h) Undefined)).
Definition put_base (b : cbb_buffer_st) : M heap unit := fun h => (Some tt, set_buf h b).

(** [memcpy(buf + off, data, len data)] *)
Definition store_bytes (off : Z) (data l : list Z) : list Z :=
  take (Z.to_nat off) l ++ data ++ drop (Z.to_nat off + length data) l.
Definition write_bytes (off : Z) (data : list Z) : M heap unit :=
  let* b := get_base in put_base (with_buf b (store_bytes off data (buf b))).

(** *** Creation *)

(** sizeof(struct cbb_buffer_st) on the 64-bit targets. *)
Definition sizeof_cbb_buffer_st : Z := 32.

(** The root [CBB] of a new family lives at address 0. *)
Definition root : nat := 0.

Definition cbb_init (b : list Z) (n : Z) : option heap :=
  if malloc_ok sizeof_cbb_buffer_st then
    Some (Heap (CbbBuffer b 0 n true false Live) {[ root := Cbb true None 0 0 false false ]})
  else None.

Definition CBB_init (initial_capacity : Z) : option heap :=
  if (0 <? initial_capacity) && negb (malloc_ok initial_capacity) then None
  else cbb_init (fresh_bytes 0 (Z.to_nat initial_capacity)) initial_capacity.

Definition CBB_init_fixed (b : list Z) : option heap :=
  match cbb_init b (len b) with
  | Some h => Some (set_buf h (CbbBuffer b 0 (len b) false false Live))
  | None => None
  end.

(** The assertion that [cbb] is not a child guards a return that does the same as [NDEBUG] builds; the model
  takes that return. *)
Definition CBB_cleanup (cbb : nat) : M heap unit :=
  let* c := get_obj cbb in
  if is_child c then ret tt
  else
    (if has_base c then let* b := get_base in put_base (with_life b Freed) else ret tt) ;;;
    put_obj cbb (Cbb false (child c) (offset c) (pending_len_len c) (pending_is_asn1 c) false).

(** *** The shared buffer *)

(** Returns the index [*out] points to. *)
Definition cbb_buffer_reserve (base_set : bool) (n : Z) : M heap Z :=
  check base_set ;;;
  let* b := get_base in
  let newlen := u64 (blen b + n) in
  check_err (negb (newlen <? blen b)) ;;;
  if cap b <? newlen then
    let newcap := u64 (cap b * 2) in
    check_err (can_resize b) ;;;
    let newcap := if (newcap <? cap b) || (newcap <? newlen) then newlen else newcap in
    check_err (realloc_ok newcap) ;;;
    put_base (CbbBuffer (buf b ++ fresh_bytes (Z.to_nat (cap b)) (Z.to_nat (newcap - cap b)))
                (blen b) newcap (can_resize b) (error b) (life b)) ;;;
    ret (blen b)
  else ret (blen b).

Definition cbb_buffer_add (base_set : bool) (n : Z) : M heap Z :=
  let* out := cbb_buffer_reserve base_set n in
  let* b := get_base in
  put_base (with_len b (blen b + n)) ;;;
  ret out.

(** [for (i = n - 1; i < n; i--) { buf[off + i] = v; v >>= 8; }]: returns the final [v]. *)
Fixpoint store_be_loop (n : nat) (off v : Z) (l : list Z) : Z * list Z :=
  match n with
  | O => (v, l)
  | S i => store_be_loop i off (v >> 8) (store_bytes (off + Z.of_nat i) [u8 v] l)
  end.

Definition store_be (n : nat) (off v : Z) : M heap Z :=
  let* b := get_base in
  let r := store_be_loop n off v (buf b) in
  put_base (with_buf b (snd r)) ;;;
  ret (fst r).

Definition cbb_buffer_add_u (base_set : bool) (v len_len : Z) : M heap unit :=
  if len_len =? 0 then ret tt
  else
    let* out := cbb_buffer_add base_set len_len in
    let* v := store_be (Z.to_nat len_len) out v in
    check_err (v =? 0).

(** *** Flushing *)

(** The ASN.1 length: how many bytes it takes, the first of them, and the value of the rest. *)
Definition asn1_length_form (n : Z) : option (Z * Z * Z) :=
  if 0xfffffffe <? n then None
  else if 0xffffff <? n then Some (5, 0x80 |. 4, n)
  else if 0xffff <? n then Some (4, 0x80 |. 3, n)
  else if 0xff <? n then Some (3, 0x80 |. 2, n)
  else if 0x7f <? n then Some (2, 0x80 |. 1, n)
  else Some (1, u8 n, 0).

(** [OPENSSL_memmove(buf + child_start + extra, buf + child_start, n)] *)
Definition move_up (child_start extra n : Z) : M heap unit :=
  let* b := get_base in
  write_bytes (child_start + extra)
    (take (Z.to_nat n) (drop (Z.to_nat child_start) (buf b))).

(** Writes the prefix of the pending child [c] at address [ci] whose contents are [n] bytes from
  [child_start] on, and detaches it from [cbb]. *)
Definition flush_prefix (cbb ci : nat) (c : CBB) (child_start n : Z) : M heap unit :=
  let* p := get_obj cbb in
  let* st := (if pending_is_asn1 c then
    match asn1_length_form n with
    | None => goto_err
    | Some (len_len, initial_length_byte, n') =>
        (if len_len =? 1 then ret tt
         else
           or_err (cbb_buffer_add (has_base p) (len_len - 1)) ;;;
           move_up child_start (len_len - 1) n') ;;;
        write_bytes (offset c) [initial_length_byte] ;;;
        ret (offset c + 1, len_len - 1, n')
    end
  else ret (offset c, pending_len_len c, n)) in
  let '(off, pll, n) := st in
  let* n := store_be (Z.to_nat pll) off n in
  check_err (n =? 0) ;;;
  put_obj ci (Cbb false (child c) off pll (pending_is_asn1 c) (is_child c)) ;;;
  let* p := get_obj cbb in
  put_obj cbb (Cbb (has_base p) None (offset p) (pending_len_len p) (pending_is_asn1 p) (is_child p)).

(** The recursion goes down the chain of pending children, one object each: [fuel] bounds it. *)
Fixpoint flush_fuel (fuel : nat) (cbb : nat) : M heap unit :=
  match fuel with
  | O => fail
  | S fuel =>
      let* p := get_obj cbb in
      check (has_base p) ;;;
      let* b := get_base in
      check (negb (error b)) ;;;
      match child p with
      | None => ret tt
      | Some ci =>
          let* c := get_obj ci in
          if pending_len_len c =? 0 then ret tt
          else
            let child_start := u64 (offset c + pending_len_len c) in
            or_err (flush_fuel fuel ci) ;;;
            let* b := get_base in
            let* c := get_obj ci in
            check_err (negb ((child_start <? offset c) || (blen b <? child_start))) ;;;
            flush_prefix cbb ci c child_start (blen b - child_start)
      end
  end.

Definition CBB_flush (cbb : nat) : M heap unit := fun h => flush_fuel (S (size (objs h))) cbb h.

(** [CBB_finish] on a resizable or fixed [CBB]; the result is the finished bytes. *)
Definition CBB_finish (cbb : nat) (want_out : bool) : M heap (list Z) :=
  let* c := get_obj cbb in
  check (negb (is_child c)) ;;;
  CBB_flush cbb ;;;
  let* b := get_base in
  check (negb (can_resize b && negb want_out)) ;;;
  put_base (with_buf b []) ;;;
  CBB_cleanup cbb ;;;
  ret (take (Z.to_nat (blen b)) (buf b)).

Definition CBB_data (cbb : nat) : M heap (list Z) :=
  let* c := get_obj cbb in
  let* b := base_of c in
  ret (take (Z.to_nat (blen b - offset c - pending_len_len c))
         (drop (Z.to_nat (offset c + pending_len_len c)) (buf b))).

Definition CBB_len (cbb : nat) : M heap Z :=
  let* c := get_obj cbb in
  let* b := base_of c in
  ret (blen b - offset c - pending_len_len c).

(** *** Adding data *)

(** Clears [out_contents], points it at the buffer and makes it the pending child of [cbb]; should they be the
    same, the buffer is lost. *)
Definition attach_child (cbb out_contents : nat) (off pll : Z) (asn1 : bool) : M heap unit :=
  put_obj out_contents CBB_zero ;;;
  let* p := get_obj cbb in
  put_obj out_contents (Cbb (has_base p) None 0 0 false true) ;;;
  let* p := get_obj cbb in
  put_obj cbb (Cbb (has_base p) (Some out_contents) (offset p) (pending_len_len p)
                 (pending_is_asn1 p) (is_child p)) ;;;
  let* c := get_obj out_contents in
  put_obj out_contents (Cbb (has_base c) (child c) off pll asn1 (is_child c)).

Definition cbb_add_length_prefixed (cbb out_contents : nat) (len_len : Z) : M heap unit :=
  CBB_flush cbb ;;;
  let* p := get_obj cbb in
  let* b := get_base in
  let off := blen b in
  let* prefix_bytes := cbb_buffer_add (has_base p) len_len in
  write_bytes prefix_bytes (replicate (Z.to_nat len_len) 0) ;;;
  attach_child cbb out_contents off len_len false.

Definition CBB_add_u8_length_prefixed (cbb out_contents : nat) : M heap unit :=
  cbb_add_length_prefixed cbb out_contents 1.
Definition CBB_add_u16_length_prefixed (cbb out_contents : nat) : M heap unit :=
  cbb_add_length_prefixed cbb out_contents 2.
Definition CBB_add_u24_length_prefixed (cbb out_contents : nat) : M heap unit :=
  cbb_add_length_prefixed cbb out_contents 3.

(** [CBB_flush(cbb)] then [cbb_buffer_add_u(cbb->base, value, n)]. *)
Definition cbb_add_u (cbb : nat) (value n : Z) : M heap unit :=
  CBB_flush cbb ;;;
  let* p := get_obj cbb in
  cbb_buffer_add_u (has_base p) value n.

Definition CBB_add_u8 (cbb : nat) (value : Z) : M heap unit := cbb_add_u cbb value 1.
Definition CBB_add_u16 (cbb : nat) (value : Z) : M heap unit := cbb_add_u cbb value 2.
Definition CBB_add_u24 (cbb : nat) (value : Z) : M heap unit := cbb_add_u cbb value 3.
Definition CBB_add_u32 (cbb : nat) (value : Z) : M heap unit := cbb_add_u cbb value 4.
Definition CBB_add_u64 (cbb : nat) (value : Z) : M heap unit := cbb_add_u cbb value 8.
Definition CBB_add_u16le (cbb : nat) (value : Z) : M heap unit := CBB_add_u16 cbb (CRYPTO_bswap2 value).
Definition CBB_add_u32le (cbb : nat) (value : Z) : M heap unit := CBB_add_u32 cbb (CRYPTO_bswap4 value).
Definition CBB_add_u64le (cbb : nat) (value : Z) : M heap unit := CBB_add_u64 cbb (CRYPTO_bswap8 value).

Definition CBB_add_bytes (cbb : nat) (data : list Z) : M heap unit :=
  CBB_flush cbb ;;;
  let* p := get_obj cbb in
  let* dest := cbb_buffer_add (has_base p) (len data) in
  write_bytes dest data.

(** The index of the space; the caller fills it. *)
Definition CBB_add_space (cbb : nat) (n : Z) : M heap Z :=
  CBB_flush cbb ;;;
  let* p := get_obj cbb in
  cbb_buffer_add (has_base p) n.

Definition CBB_add_zeros (cbb : nat) (n : Z) : M heap unit :=
  let* out := CBB_add_space cbb n in
  write_bytes out (replicate (Z.to_nat n) 0).

Definition CBB_reserve (cbb : nat) (n : Z) : M heap Z :=
  CBB_flush cbb ;;;
  let* p := get_obj cbb in
  cbb_buffer_reserve (has_base p) n.

Definition CBB_did_write (cbb : nat) (n : Z) : M heap unit :=
  let* p := get_obj cbb in
  let* b := base_of p in
  let newlen := u64 (blen b + n) in
  check (negb (match child p with Some _ => true | None => false end)
         && negb (newlen <? blen b) && negb (cap b <? newlen)) ;;;
  put_base (with_len b newlen).

Definition CBB_discard_child (cbb : nat) : M heap unit :=
  let* p := get_obj cbb in
  match child p with
  | None => ret tt
  | Some ci =>
      let* c := get_obj ci in
      let* b := base_of p in
      put_base (with_len b (offset c)) ;;;
      put_obj ci (Cbb false (child c) (offset c) (pending_len_len c) (pending_is_asn1 c) (is_child c)) ;;;
      put_obj cbb (Cbb (has_base p) None (offset p) (pending_len_len p) (pending_is_asn1 p) (is_child p))
  end.

(** *** ASN.1 *)

(** [while (copy > 0) { len_len++; copy >>= 7; }]: a 64-bit value takes ten steps at most. *)
Fixpoint base128_len_loop (fuel : nat) (len_len copy : Z) : Z :=
  match fuel with
  | O => len_len
  | S fuel => if 0 <? copy then base128_len_loop fuel (len_len + 1) (copy >> 7) else len_len
  end.

(** The loop of [add_base128_integer] from index [i - 1] down. *)
Fixpoint add_base128_loop (cbb : nat) (v : Z) (i : nat) : M heap unit :=
  match i with
  | O => ret tt
  | S i =>
      let byte := u8 (v >> (7 * Z.of_nat i)) &. 0x7f in
      let byte := if (i =? 0)%nat then byte else byte |. 0x80 in
      CBB_add_u8 cbb byte ;;; add_base128_loop cbb v i
  end.

Definition add_base128_integer (cbb : nat) (v : Z) : M heap unit :=
  let len_len := base128_len_loop 10 0 v in
  let len_len := if len_len =? 0 then 1 else len_len in
  add_base128_loop cbb v (Z.to_nat len_len).

Definition CBB_add_asn1 (cbb out_contents : nat) (tag : Z) : M heap unit :=
  CBB_flush cbb ;;;
  let tag_bits := u8 (tag >> CBS_ASN1_TAG_SHIFT) &. 0xe0 in
  let tag_number := tag &. CBS_ASN1_TAG_NUMBER_MASK in
  (if 0x1f <=? tag_number then
     CBB_add_u8 cbb (tag_bits |. 0x1f) ;;; add_base128_integer cbb tag_number
   else CBB_add_u8 cbb (u8 (tag_bits |. tag_number))) ;;;
  let* b := get_base in
  let off := blen b in
  CBB_add_u8 cbb 0 ;;;
  attach_child cbb out_contents off 1 true.

(** A local [CBB child;] gets an address no object has. *)
Definition new_addr (h : heap) : nat := S (map_fold (fun k _ m => Nat.max k m) 0%nat (objs h)).
Definition local_child : M heap nat := fun h => (Some (new_addr h), h).

(** The loop of [CBB_add_asn1_uint64] over the bytes, most significant first. *)
Fixpoint add_uint64_loop (ch : nat) (started : bool) (bytes : list Z) : M heap bool :=
  match bytes with
  | [] => ret started
  | b :: bytes =>
      if negb started && (b =? 0) then add_uint64_loop ch started bytes
      else
        (if negb started && negb ((b &. 0x80) =? 0) then CBB_add_u8 ch 0 else ret tt) ;;;
        CBB_add_u8 ch b ;;;
        add_uint64_loop ch true bytes
  end.

(** [(value >> 8*(7-i)) & 0xff] for i = 0 .. 7 *)
Definition uint64_bytes (value : Z) : list Z :=
  map (fun i => (value >> (8 * (7 - Z.of_nat i))) &. 0xff) (seq 0 8).

Definition CBB_add_asn1_uint64 (cbb : nat) (value : Z) : M heap unit :=
  let* ch := local_child in
  CBB_add_asn1 cbb ch CBS_ASN1_INTEGER ;;;
  let* started := add_uint64_loop ch false (uint64_bytes value) in
  (if started : bool then ret tt else CBB_add_u8 ch 0) ;;;
  CBB_flush cbb.

(** [while (start > 0 && (bytes[start] == 0xff && (bytes[start - 1] & 0x80))) start--;] *)
Fixpoint int64_start (start : nat) (bytes : list Z) : nat :=
  match start with
  | O => O
  | S p =>
      if (nth start bytes 0 =? 0xff) && negb ((nth p bytes 0 &. 0x80) =? 0)
      then int64_start p bytes else start
  end.

(** [for (int i = start; i >= 0; i--) CBB_add_u8(&child, bytes[i])] *)
Fixpoint add_bytes_down (ch : nat) (i : nat) (bytes : list Z) : M heap unit :=
  CBB_add_u8 ch (nth i bytes 0) ;;;
  match i with
  | O => ret tt
  | S i => add_bytes_down ch i bytes
  end.

Definition CBB_add_asn1_int64 (cbb : nat) (value : Z) : M heap unit :=
  if 0 <=? value then CBB_add_asn1_uint64 cbb value
  else
    let bytes := le_bytes 8 (u64 value) in
    let start := int64_start 7 bytes in
    let* ch := local_child in
    CBB_add_asn1 cbb ch CBS_ASN1_INTEGER ;;;
    add_bytes_down ch start bytes ;;;
    CBB_flush cbb.

Definition CBB_add_asn1_octet_string (cbb : nat) (data : list Z) : M heap unit :=
  let* ch := local_child in
  CBB_add_asn1 cbb ch CBS_ASN1_OCTETSTRING ;;;
  CBB_add_bytes ch data ;;;
  CBB_flush cbb.

Definition CBB_add_asn1_bool (cbb : nat) (value : bool) : M heap unit :=
  let* ch := local_child in
  CBB_add_asn1 cbb ch CBS_ASN1_BOOLEAN ;;;
  CBB_add_u8 ch (if value then 0xff else 0) ;;;
  CBB_flush cbb.

End cbb.
