(* ===== verification/CbbLemmas.v ===== *)
(** Lemmas about the builder [Cbb]: what each operation does to the shared buffer and to the
    objects, for a builder that is ready to be written to. *)
From stdpp Require Import gmap.
From S2P Require Import Prelude Der Cbs CbsLemmas Cbb.

Section cbb.
Context (realloc_ok : Z -> bool) (junk : nat -> Z).

(** The bytes written so far. *)
Definition content (h : heap) : list Z := take (Z.to_nat (blen (base h))) (buf (base h)).

(** The buffer's shape: it may be used, [buf] is the whole allocation and [len] stays within it. *)
Record wf_buffer (b : cbb_buffer_st) : Prop := {
  wf_blen : 0 <= blen b <= cap b;
  wf_cap : cap b < 2 ^ 64;
  wf_buf : len (buf b) = cap b;
  wf_live : life b = Live;
}.

(** [n] more bytes fit, in place or by growing. *)
Definition room (b : cbb_buffer_st) (n : Z) : Prop :=
  blen b + n < 2 ^ 64 /\
  (blen b + n <= cap b \/ (can_resize b = true /\ forall m, realloc_ok m = true)).

(** A live [CBB] with no pending child and no error. *)
Record ready (h : heap) (id : nat) (c : CBB) : Prop := {
  ready_obj : objs h !! id = Some c;
  ready_base : has_base c = true;
  ready_child : child c = None;
  ready_error : error (base h) = false;
  ready_live : life (base h) = Live;
}.

(** What adding [data] does: the objects that existed are as before, the contents are extended,
    and the room that was left is. *)
Record appended (h h' : heap) (data : list Z) : Prop := {
  app_objs : objs h ⊆ objs h';
  app_content : content h' = content h ++ data;
  app_wf : wf_buffer (base h');
  app_blen : blen (base h') = blen (base h) + len data;
  app_error : error (base h') = error (base h);
  app_room n : 0 <= n -> room (base h) (len data + n) -> room (base h') n;
}.

Lemma room_weaken b n m : 0 <= n <= m -> room b m -> room b n.
Proof. unfold room. intros ? [? [?|?]]; split; auto; lia. Qed.

Lemma appended_refl h : wf_buffer (base h) -> appended h h [].
Proof.
  intros. split; try done.
  - by rewrite app_nil_r.
  - rewrite len_nil; lia.
Qed.

Lemma appended_trans h1 h2 h3 d1 d2 :
  appended h1 h2 d1 -> appended h2 h3 d2 -> appended h1 h3 (d1 ++ d2).
Proof.
  intros [] []. split; try done.
  - by etrans.
  - rewrite app_content1, app_content0. by rewrite app_assoc.
  - rewrite len_app. lia.
  - congruence.
  - intros n Hn Hr. apply app_room1; [done|]. pose proof (len_nonneg d2).
    apply app_room0; [lia|]. by rewrite len_app, <- Z.add_assoc in Hr.
Qed.

Lemma ready_appended h h' id c d : ready h id c -> appended h h' d -> ready h' id c.
Proof.
  intros [] []. split; try done; [|congruence|by destruct app_wf0].
  by eapply lookup_weaken.
Qed.

(** *** Stores into the buffer *)

Lemma store_bytes_length off data l :
  0 <= off -> off + len data <= len l -> len (store_bytes off data l) = len l.
Proof.
  intros. unfold store_bytes. rewrite !len_app, len_take, len_drop.
  unfold len in *. lia.
Qed.

Lemma store_bytes_take off data l :
  0 <= off -> off + len data <= len l ->
  take (Z.to_nat (off + len data)) (store_bytes off data l) = take (Z.to_nat off) l ++ data.
Proof.
  intros. unfold store_bytes. rewrite app_assoc. apply take_app_exact.
  rewrite length_app, length_take. unfold len in *. lia.
Qed.

Lemma store_bytes_app off a x l :
  0 <= off -> off + len a + 1 <= len l ->
  store_bytes off a (store_bytes (off + len a) [x] l) = store_bytes off (a ++ [x]) l.
Proof.
  intros Ho Hl. unfold store_bytes.
  rewrite length_app. cbn [length]. pose proof (len_nonneg a).
  assert (Hk : Z.to_nat (off + len a) = (Z.to_nat off + length a)%nat) by (unfold len; lia).
  rewrite Hk. rewrite take_app_le by (rewrite length_take; unfold len in *; lia).
  rewrite take_take. replace (Nat.min _ _) with (Z.to_nat off) by lia.
  rewrite <- app_assoc. do 2 f_equal.
  rewrite drop_app_ge by (rewrite length_take; unfold len in *; lia).
  rewrite length_take. replace (Z.to_nat off + length a - _)%nat with 0%nat
    by (unfold len in *; lia).
  rewrite drop_0. cbn [app]. do 2 f_equal. lia.
Qed.

Lemma be_bytes_S n v : be_bytes (S n) v = be_bytes n (v / 256) ++ [v mod 256].
Proof. done. Qed.

Lemma store_bytes_nil off l : store_bytes off [] l = l.
Proof. unfold store_bytes. cbn [app length]. rewrite Nat.add_0_r. apply take_drop. Qed.

Lemma store_be_loop_spec n off v l :
  0 <= off -> off + Z.of_nat n <= len l ->
  store_be_loop n off v l = (v / 256 ^ Z.of_nat n, store_bytes off (be_bytes n v) l).
Proof.
  revert v l. induction n as [|n IH]; intros v l Ho Hl; cbn [store_be_loop].
  { change (256 ^ Z.of_nat 0) with 1. unfold be_bytes. cbn [le_bytes rev].
    by rewrite store_bytes_nil, Z.div_1_r. }
  assert (Hlen : len (store_bytes (off + Z.of_nat n) [u8 v] l) = len l)
    by (apply store_bytes_length; rewrite ?len_cons, ?len_nil; lia).
  rewrite IH by lia. rewrite shiftr_div by lia. change (2 ^ 8) with 256. f_equal.
  - rewrite Nat2Z.inj_succ, Z.pow_succ_r by lia. rewrite Z.div_div by lia. done.
  - rewrite be_bytes_S. change (u8 v) with (v mod 256).
    assert (Hb : len (be_bytes n (v / 256)) = Z.of_nat n)
      by (unfold len; by rewrite be_bytes_length).
    rewrite <- Hb at 1. apply store_bytes_app; lia.
Qed.

(** *** The buffer operations *)

Lemma reserve_ok h n :
  wf_buffer (base h) -> 0 <= n -> room (base h) n ->
  exists b', cbb_buffer_reserve realloc_ok junk true n h = (Some (blen (base h)), set_buf h b') /\
    wf_buffer b' /\ blen b' = blen (base h) /\ blen b' + n <= cap b' /\
    take (Z.to_nat (blen b')) (buf b') = content h /\ error b' = error (base h) /\
    can_resize b' = can_resize (base h) /\ (forall m, 0 <= m -> room (base h) m -> room b' m).
Proof.
  intros [Hb Hc Hl Hlv] Hn [Hlt Hfit]. unfold cbb_buffer_reserve.
  unfold check, bind, ret, get_base, check_err. rewrite Hlv. cbv beta iota. rewrite (u64_id (blen (base h) + n)) by lia.
  destruct (Z.ltb_spec (blen (base h) + n) (blen (base h))); [lia|]. cbn [negb].
  destruct (Z.ltb_spec (cap (base h)) (blen (base h) + n)) as [Hgrow|Hin].
  - destruct Hfit as [|[Hr Hall]]; [lia|]. rewrite Hr, Hall.
    set (nc := if (u64 (cap (base h) * 2) <? cap (base h)) || _ then _ else _).
    assert (Hnc : cap (base h) <= nc /\ blen (base h) + n <= nc < 2 ^ 64).
    { unfold nc. destruct (Z.ltb_spec (u64 (cap (base h) * 2)) (cap (base h)));
        cbn [orb]; [lia|].
      pose proof (u64_range (cap (base h) * 2)).
      destruct (Z.ltb_spec (u64 (cap (base h) * 2)) (blen (base h) + n)); lia. }
    eexists. split; [reflexivity|]. cbn [blen cap buf error can_resize].
    assert (Hf : len (fresh_bytes junk (Z.to_nat (cap (base h))) (Z.to_nat (nc - cap (base h))))
                 = nc - cap (base h)).
    { unfold fresh_bytes. rewrite len_map. unfold len. rewrite length_seq. lia. }
    split_and!; try done; try lia.
    + split; cbn; rewrite ?len_app; lia || done.
    + unfold content. apply take_app_le. unfold len in Hl. lia.
    + intros m Hm [? _]. split; cbn; auto.
  - exists (base h). split; [by destruct h|]. split_and!; try done; lia.
Qed.

Lemma add_ok h n :
  wf_buffer (base h) -> 0 <= n -> room (base h) n ->
  exists b', cbb_buffer_add realloc_ok junk true n h = (Some (blen (base h)), set_buf h b') /\
    wf_buffer b' /\ blen b' = blen (base h) + n /\
    take (Z.to_nat (blen (base h))) (buf b') = content h /\ error b' = error (base h) /\
    (forall m, 0 <= m -> room (base h) (n + m) -> room b' m).
Proof.
  intros Hwf Hn Hr. destruct (reserve_ok h n Hwf Hn Hr) as (b' & E & W & Hbl & Hcap & Hc & He & Hz & Hm).
  unfold cbb_buffer_add. rewrite (bind_some _ _ _ _ _ E).
  unfold bind, get_base, put_base, ret. cbn. rewrite (wf_live _ W).
  eexists. split; [reflexivity|]. destruct W as [W1 W2 W3 W4]. rewrite Hbl in *.
  split_and!; try done.
  - split; cbn; lia || done.
  - intros m Hm0 Hroom. apply Hm in Hroom; [|lia].
    unfold room in *. cbn. rewrite Hbl in Hroom. intuition lia.
Qed.

(** Adding space and filling it. *)
Lemma add_write_ok h data :
  wf_buffer (base h) -> room (base h) (len data) ->
  exists h', (let* dest := cbb_buffer_add realloc_ok junk true (len data) in write_bytes dest data) h
             = (Some tt, h') /\ appended h h' data /\ objs h' = objs h.
Proof.
  intros Hwf Hr. destruct (add_ok h (len data) Hwf (len_nonneg _) Hr)
    as (b' & E & [W1 W2 W3 W4] & Hbl & Hc & He & Hm).
  rewrite (bind_some _ _ _ _ _ E). unfold write_bytes, bind, get_base, put_base. cbn. rewrite W4.
  destruct Hwf as [V1 V2 V3 V4].
  eexists. split; [reflexivity|]. split; [|done]. split; cbn; try done.
  - unfold content at 1. cbn. rewrite Hbl. rewrite store_bytes_take by lia. by rewrite Hc.
  - split; cbn; [lia..| |done]. rewrite store_bytes_length by lia. done.
Qed.

Lemma store_be_ok h n off v :
  wf_buffer (base h) -> 0 <= off -> off + Z.of_nat n <= blen (base h) ->
  store_be n off v h =
  (Some (v / 256 ^ Z.of_nat n),
   set_buf h (with_buf (base h) (store_bytes off (be_bytes n v) (buf (base h))))).
Proof.
  intros [W1 W2 W3 W4] Ho Hn. unfold store_be, bind, get_base, put_base, ret. rewrite W4.
  by rewrite store_be_loop_spec by lia.
Qed.

Lemma buffer_add_u_ok h v n :
  wf_buffer (base h) -> (1 <= n)%nat -> room (base h) (Z.of_nat n) ->
  0 <= v < 256 ^ Z.of_nat n ->
  exists h', cbb_buffer_add_u realloc_ok junk true v (Z.of_nat n) h = (Some tt, h') /\
             appended h h' (be_bytes n v) /\ objs h' = objs h.
Proof.
  intros Hwf Hn Hr Hv. unfold cbb_buffer_add_u.
  destruct (Z.eqb_spec (Z.of_nat n) 0); [lia|].
  destruct (add_ok h (Z.of_nat n) Hwf ltac:(lia) Hr) as (b' & E & W & Hbl & Hc & He & Hm).
  rewrite (bind_some _ _ _ _ _ E). rewrite Nat2Z.id.
  destruct Hwf as [V1 V2 V3 V4].
  pose proof (store_be_ok (set_buf h b') n (blen (base h)) v W ltac:(lia) ltac:(cbn; lia)) as Hs.
  destruct W as [W1 W2 W3 W4].
  rewrite (bind_some _ _ _ _ _ Hs). unfold check_err, ret.
  rewrite Z.div_small by lia. cbn.
  assert (Hlen : len (be_bytes n v) = Z.of_nat n) by (unfold len; by rewrite be_bytes_length).
  eexists. split; [reflexivity|]. split; [|done]. split; cbn; try done.
  - unfold content at 1. cbn. rewrite Hbl, <- Hlen, store_bytes_take by lia. by rewrite Hc.
  - split; cbn; [lia..| |done]. rewrite store_bytes_length by lia. done.
  - lia.
  - intros m Hm0. rewrite Hlen. by apply Hm.
Qed.

(** *** Operations on a ready builder *)

Lemma flush_fuel_ready f h id c : ready h id c -> flush_fuel realloc_ok junk (S f) id h = (Some tt, h).
Proof.
  intros []. cbn [flush_fuel]. unfold bind, get_obj, get_base, check.
  rewrite ready_obj0, ready_base0. unfold ret. cbv beta iota. rewrite ready_live0, ready_error0, ready_child0. done.
Qed.

Lemma flush_ready h id c : ready h id c -> CBB_flush realloc_ok junk id h = (Some tt, h).
Proof. apply flush_fuel_ready. Qed.

Lemma add_u_ok h id c v n :
  ready h id c -> wf_buffer (base h) -> (1 <= n)%nat -> room (base h) (Z.of_nat n) ->
  0 <= v < 256 ^ Z.of_nat n ->
  exists h', cbb_add_u realloc_ok junk id v (Z.of_nat n) h = (Some tt, h') /\
             appended h h' (be_bytes n v) /\ objs h' = objs h.
Proof.
  intros Hrd Hwf Hn Hr Hv. unfold cbb_add_u.
  rewrite (bind_some _ _ _ _ _ (flush_ready h id c Hrd)).
  destruct Hrd. unfold bind, get_obj. rewrite ready_obj0, ready_base0.
  by apply buffer_add_u_ok.
Qed.

Lemma be_bytes_1 v : byte v -> be_bytes 1 v = [v].
Proof. intros. unfold be_bytes. cbn [le_bytes rev app]. by rewrite Z.mod_small. Qed.

Lemma add_u8_ok h id c v :
  ready h id c -> wf_buffer (base h) -> room (base h) 1 -> byte v ->
  exists h', CBB_add_u8 realloc_ok junk id v h = (Some tt, h') /\
             appended h h' [v] /\ objs h' = objs h.
Proof.
  intros. rewrite <- be_bytes_1 by done. by apply (add_u_ok h id c v 1).
Qed.

Lemma add_bytes_ok h id c data :
  ready h id c -> wf_buffer (base h) -> room (base h) (len data) ->
  exists h', CBB_add_bytes realloc_ok junk id data h = (Some tt, h') /\
             appended h h' data /\ objs h' = objs h.
Proof.
  intros Hrd Hwf Hr. unfold CBB_add_bytes.
  rewrite (bind_some _ _ _ _ _ (flush_ready h id c Hrd)).
  destruct Hrd. unfold bind at 1, get_obj. rewrite ready_obj0, ready_base0.
  by apply add_write_ok.
Qed.

(** *** Base-128 integers *)

Lemma base128_len_loop_spec fuel n v :
  0 < v -> v < 128 ^ Z.of_nat fuel ->
  base128_len_loop fuel n v = n + Z.of_nat (base128_len v).
Proof.
  revert n v. induction fuel as [|f IH]; intros n v Hv Hlt; [cbn in Hlt; lia|].
  cbn [base128_len_loop]. destruct (Z.ltb_spec 0 v); [|lia].
  rewrite shiftr_div by lia. change (2 ^ 7) with 128.
  destruct (Z.ltb_spec v 128) as [Hs|Hs].
  - rewrite Z.div_small by lia.
    rewrite (base128_len_unique v 1) by (cbn; lia). by destruct f.
  - rewrite pow128_S in Hlt.
    assert (0 < v / 128) by (apply Z.div_str_pos; lia).
    rewrite IH by (try apply Z.div_lt_upper_bound; lia).
    destruct (base128_len_bounds (v / 128)) as [Hlo Hhi]; [lia|].
    rewrite (base128_len_unique v (S (base128_len (v / 128)))); [lia| |].
    + right. split; [lia|]. replace (S _ - 1)%nat with (base128_len (v / 128)) by lia.
      destruct Hlo as [->|[Hge Hlo]]; [cbn; lia|].
      replace (base128_len (v / 128)) with (S (base128_len (v / 128) - 1)) by lia.
      rewrite pow128_S. pose proof (Z.mul_div_le v 128). lia.
    + rewrite pow128_S. pose proof (Z.mul_succ_div_gt v 128). lia.
Qed.

Lemma base128_digit v i :
  0 <= v ->
  (if (i =? 0)%nat then u8 (v >> (7 * Z.of_nat i)) &. 0x7f
   else (u8 (v >> (7 * Z.of_nat i)) &. 0x7f) |. 0x80) =
  (v / 128 ^ Z.of_nat i) mod 128 + (if (i =? 0)%nat then 0 else 128).
Proof.
  intros Hv. rewrite shiftr_div by lia.
  assert (2 ^ (7 * Z.of_nat i) = 128 ^ Z.of_nat i) as -> by (by rewrite <- (pow_pow2 7) by lia).
  rewrite land_127. unfold u8.
  assert (forall x, (x mod 2 ^ 8) mod 128 = x mod 128) as ->.
  { intros x. change (2 ^ 8) with (2 * 128). rewrite Z.rem_mul_r by lia. ulia. }
  destruct (i =? 0)%nat; [lia|].
  rewrite Z.lor_comm. pose proof (lor_mul_add 1 ((v / 128 ^ Z.of_nat i) mod 128) 7) as Hl.
  change (1 * 2 ^ 7) with 128 in Hl. rewrite Hl; ulia.
Qed.

Lemma add_base128_loop_ok i h id c v :
  ready h id c -> wf_buffer (base h) -> room (base h) (Z.of_nat i) -> 0 <= v ->
  exists h', add_base128_loop realloc_ok junk id v i h = (Some tt, h') /\ appended h h' (base128_digits i v) /\ objs h' = objs h.
Proof.
  revert h. induction i as [|i IH]; intros h Hrd Hwf Hr Hv; cbn [add_base128_loop].
  { exists h. cbn. auto using appended_refl. }
  cbv zeta. rewrite (base128_digit v i Hv).
  pose proof (base128_digits_byte (S i) v) as Hb. cbn [base128_digits] in *.
  apply Forall_cons in Hb as [Hb _].
  destruct (add_u8_ok h id c _ Hrd Hwf ltac:(eapply room_weaken; [|exact Hr]; lia) Hb)
    as (h1 & E1 & A1 & O1).
  rewrite (bind_some _ _ _ _ _ E1).
  destruct (IH h1) as (h2 & E2 & A2 & O2); try done.
  - by eapply ready_appended.
  - apply A1.
  - apply (app_room _ _ _ A1); [lia|]. rewrite len_cons, len_nil.
    by replace (1 + 0 + Z.of_nat i) with (Z.of_nat (S i)) by lia.
  - exists h2. split; [done|]. split; [exact (appended_trans _ _ _ _ _ A1 A2)|congruence].
Qed.

Lemma add_base128_ok h id c v :
  ready h id c -> wf_buffer (base h) -> room (base h) (len (base128 v)) -> 0 <= v < 2 ^ 64 ->
  exists h', add_base128_integer realloc_ok junk id v h = (Some tt, h') /\ appended h h' (base128 v) /\ objs h' = objs h.
Proof.
  intros Hrd Hwf Hr Hv. unfold add_base128_integer, base128 in *.
  assert (Hlen : (let l := base128_len_loop 10 0 v in if l =? 0 then 1 else l)
                 = Z.of_nat (base128_len v)).
  { destruct (decide (v = 0)) as [->|]; [reflexivity|]. cbv zeta.
    rewrite base128_len_loop_spec by (cbn; lia).
    destruct (Z.eqb_spec (0 + Z.of_nat (base128_len v)) 0); unfold base128_len in *; lia. }
  cbv zeta in *. rewrite Hlen, Nat2Z.id.
  unfold len in Hr. rewrite base128_digits_length in Hr.
  by eapply add_base128_loop_ok; [..|lia].
Qed.

(** *** Flushing a child *)

Lemma store_bytes_mid off (p q r d : list Z) :
  off = len p -> len q = len d -> store_bytes off d (p ++ q ++ r) = p ++ d ++ r.
Proof.
  unfold len. intros -> Hq. unfold store_bytes. rewrite Nat2Z.id.
  rewrite take_app_exact by done. do 2 f_equal.
  rewrite app_assoc. apply drop_app_exact. rewrite length_app. lia.
Qed.

Lemma asn1_length_form_spec n :
  0 <= n <= 0xfffffffe ->
  asn1_length_form n =
    if n <? 128 then Some (1, n, 0)
    else Some (1 + Z.of_nat (byte_count n), 128 + Z.of_nat (byte_count n), n).
Proof.
  intros Hn. unfold asn1_length_form.
  assert (Hk : forall k, (k = 1 \/ 1 <= k /\ 256 ^ (k - 1) <= n) -> n < 256 ^ k ->
            Z.of_nat (byte_count n) = k).
  { intros k Hlo Hhi. rewrite (byte_count_unique n (Z.to_nat k)).
    - lia.
    - destruct Hlo as [->|[? ?]]; [by left|right].
      rewrite Nat2Z.inj_sub, Z2Nat.id by lia. split; [lia|done].
    - rewrite Z2Nat.id by lia. lia. }
  destruct (Z.ltb_spec 0xfffffffe n); [lia|].
  destruct (Z.ltb_spec 0xffffff n).
  { destruct (Z.ltb_spec n 128); [lia|]. rewrite (Hk 4) by (cbn; lia). done. }
  destruct (Z.ltb_spec 0xffff n).
  { destruct (Z.ltb_spec n 128); [lia|]. rewrite (Hk 3) by (cbn; lia). done. }
  destruct (Z.ltb_spec 0xff n).
  { destruct (Z.ltb_spec n 128); [lia|]. rewrite (Hk 2) by (cbn; lia). done. }
  destruct (Z.ltb_spec 0x7f n).
  { destruct (Z.ltb_spec n 128); [lia|]. rewrite (Hk 1) by (cbn; lia). done. }
  destruct (Z.ltb_spec n 128); [|lia]. by rewrite u8_id by (unfold byte; lia).
Qed.

(** A builder [id] with the pending child [ch]: the bytes before the prefix, the space reserved
    for it, and the child's contents. *)
Record pending (h : heap) (id : nat) (c : CBB) (ch : nat) (asn1 : bool) (pre z body : list Z)
  : Prop := {
  pd_obj : objs h !! id = Some c;
  pd_base : has_base c = true;
  pd_child : child c = Some ch;
  pd_ne : ch <> id;
  pd_ch : objs h !! ch = Some (Cbb true None (len pre) (len z) asn1 true);
  pd_z : 0 < len z;
  pd_error : error (base h) = false;
  pd_wf : wf_buffer (base h);
  pd_content : content h = pre ++ z ++ body;
}.

Definition unchild (c : CBB) : CBB :=
  Cbb (has_base c) None (offset c) (pending_len_len c) (pending_is_asn1 c) (is_child c).

(** The state after a successful flush of [ch] into [id]. *)
Record flushed (h h' : heap) (id : nat) (c : CBB) (ch : nat) (out : list Z) : Prop := {
  fl_objs : exists cc, objs h' = <[id := unchild c]> (<[ch := cc]> (objs h));
  fl_content : content h' = out;
  fl_wf : wf_buffer (base h');
  fl_error : error (base h') = false;
  fl_room n : 0 <= n -> room (base h) (len out - blen (base h) + n) -> room (base h') n;
}.

Lemma content_len h : wf_buffer (base h) -> len (content h) = blen (base h).
Proof. intros []. unfold content. rewrite len_take. lia. Qed.

Lemma content_split h : exists r, buf (base h) = content h ++ r.
Proof. eexists. symmetry. apply take_drop. Qed.

Lemma content_intro h l r :
  buf (base h) = l ++ r -> blen (base h) = len l -> content h = l.
Proof. intros Hb Hl. unfold content. rewrite Hb, Hl, len_to_nat. by apply take_app_exact. Qed.

Lemma flush_pending h id c ch asn1 pre z body :
  pending h id c ch asn1 pre z body ->
  CBB_flush realloc_ok junk id h =
  flush_prefix realloc_ok junk id ch (Cbb true None (len pre) (len z) asn1 true)
    (len pre + len z) (len body) h.
Proof.
  intros []. unfold CBB_flush.
  destruct (size (objs h)) as [|f] eqn:Hs.
  { apply map_size_empty_inv in Hs. rewrite Hs in pd_obj0. done. }
  pose proof (content_len h pd_wf0) as Hl. rewrite pd_content0, !len_app in Hl.
  pose proof (len_nonneg pre). pose proof (len_nonneg z). pose proof (len_nonneg body).
  destruct pd_wf0 as [W1 W2 W3 W4].
  cbn [flush_fuel]. unfold bind at 1, get_obj at 1. rewrite pd_obj0.
  unfold bind at 1, check at 1. rewrite pd_base0. unfold ret at 1. unfold bind at 1, get_base at 1. rewrite W4.
  unfold bind at 1, check at 1. rewrite pd_error0, pd_child0.
  cbn [negb]. unfold ret at 1. unfold bind at 1, get_obj at 1. rewrite pd_ch0.
  cbn [pending_len_len offset]. destruct (Z.eqb_spec (len z) 0); [lia|].
  rewrite u64_id by lia.
  assert (Hf : or_err (flush_fuel realloc_ok junk (S f) ch) h = (Some tt, h)).
  { unfold or_err. erewrite flush_fuel_ready; [done|]. by split. }
  rewrite (bind_some _ _ _ _ _ Hf). unfold bind at 1, get_base at 1. rewrite W4.
  unfold bind at 1, get_obj at 1. rewrite pd_ch0. cbn [offset].
  destruct (Z.ltb_spec (len pre + len z) (len pre)); [lia|].
  destruct (Z.ltb_spec (blen (base h)) (len pre + len z)); [lia|].
  cbn [orb negb check_err]. rewrite (bind_some _ _ h tt h) by done.
  do 2 f_equal. lia.
Qed.

(** The last step of [flush_prefix]: store the length big-endian and detach the child. *)
Lemma flush_finish h id c ch n off cc pre q r :
  objs h !! id = Some c -> id <> ch -> wf_buffer (base h) -> error (base h) = false ->
  content h = pre ++ q ++ r -> off = len pre -> 0 <= n < 256 ^ len q ->
  exists h', (let* n := store_be (length q) off n in
    check_err (n =? 0) ;;;
    put_obj ch cc ;;;
    let* p := get_obj id in
    put_obj id (unchild p)) h = (Some tt, h') /\
    flushed h h' id c ch (pre ++ be_bytes (length q) n ++ r).
Proof.
  intros Ho Hne Hwf Herr Hc -> Hn.
  pose proof (content_len h Hwf) as Hl. rewrite Hc, !len_app in Hl.
  pose proof (len_nonneg pre). pose proof (len_nonneg r).
  rewrite (bind_some _ _ _ _ _ (store_be_ok h (length q) (len pre) n Hwf ltac:(lia)
    ltac:(unfold len in *; lia))).
  rewrite Z.div_small by done. change (0 =? 0) with true.
  unfold check_err, bind, ret, put_obj, get_obj, set_obj. cbn [objs set_buf].
  rewrite lookup_insert_ne by done. rewrite Ho.
  eexists. split; [reflexivity|].
  destruct (content_split h) as [rest Hbuf]. rewrite Hc, <- !app_assoc in Hbuf.
  assert (Hq : len q = len (be_bytes (length q) n)) by (unfold len; by rewrite be_bytes_length).
  destruct Hwf as [W1 W2 W3 W4]. split; cbn; try done.
  - by eexists.
  - eapply (content_intro _ _ rest); cbn; [|rewrite !len_app; lia].
    rewrite Hbuf, <- !app_assoc. by apply store_bytes_mid.
  - split; cbn; try done. rewrite store_bytes_length; lia.
  - intros k Hk. rewrite !len_app, <- Hq. unfold room. cbn.
    intros [? [?|?]]; (split; [lia|]); [left; lia|by right].
Qed.

Lemma flush_plain_ok h id c ch pre z body :
  pending h id c ch false pre z body -> len body < 256 ^ len z ->
  exists h', CBB_flush realloc_ok junk id h = (Some tt, h') /\
    flushed h h' id c ch (pre ++ be_bytes (length z) (len body) ++ body).
Proof.
  intros Hp Hb. rewrite (flush_pending _ _ _ _ _ _ _ _ Hp). destruct Hp.
  unfold flush_prefix. unfold bind at 1, get_obj at 1. rewrite pd_obj0.
  cbn [pending_is_asn1 offset pending_len_len child is_child].
  rewrite (bind_some _ _ h _ h) by done. cbv beta iota. rewrite len_to_nat.
  apply flush_finish; try done. pose proof (len_nonneg body); lia.
Qed.

Lemma write_mid h off d p q r :
  wf_buffer (base h) -> buf (base h) = p ++ q ++ r -> off = len p -> len q = len d ->
  write_bytes off d h = (Some tt, set_buf h (with_buf (base h) (p ++ d ++ r))).
Proof.
  intros Hwf Hb Ho Hq. unfold write_bytes, bind, get_base, put_base. rewrite (wf_live _ Hwf), Hb.
  by rewrite store_bytes_mid.
Qed.

Lemma wf_with_buf b p q d r :
  wf_buffer b -> buf b = p ++ q ++ r -> len q = len d -> wf_buffer (with_buf b (p ++ d ++ r)).
Proof. intros [] Hb Hq. split; cbn; try done. rewrite Hb, !len_app in *. lia. Qed.

Lemma split_at {A} (l : list A) n : 0 <= n <= len l -> exists a b, l = a ++ b /\ len a = n.
Proof.
  intros. exists (take (Z.to_nat n) l), (drop (Z.to_nat n) l).
  rewrite take_drop, len_take. split; [done|lia].
Qed.

(** The long form: make room for the length bytes and move the contents up. *)
Lemma make_room_ok h k p body :
  wf_buffer (base h) -> 0 <= k -> room (base h) k -> content h = p ++ body ->
  exists b y rest,
    (or_err (cbb_buffer_add realloc_ok junk true k) ;;; move_up (len p) k (len body)) h
      = (Some tt, set_buf h b) /\
    wf_buffer b /\ error b = error (base h) /\ blen b = blen (base h) + k /\
    len y = k /\ buf b = p ++ y ++ body ++ rest /\
    (forall m, 0 <= m -> room (base h) (k + m) -> room b m).
Proof.
  intros Hwf Hk Hr Hc.
  destruct (add_ok h k Hwf Hk Hr) as (b' & E & W & Hbl & Hct & He & Hm).
  assert (E' : or_err (cbb_buffer_add realloc_ok junk true k) h
               = (Some (blen (base h)), set_buf h b')) by (unfold or_err; by rewrite E).
  rewrite (bind_some _ _ _ _ _ E'). clear E E'.
  pose proof (content_len h Hwf) as Hl. rewrite Hc, !len_app in Hl.
  pose proof (len_nonneg p). pose proof (len_nonneg body).
  assert (exists tl, buf b' = (p ++ body) ++ tl) as [tl Htl].
  { eexists. rewrite <- Hc, <- Hct. symmetry. apply take_drop. }
  pose proof W as [W1 W2 W3 W4]. rewrite Htl, !len_app in W3.
  destruct (split_at tl k) as (x & rest & -> & Hx); [lia|].
  destruct (split_at (body ++ x) k) as (y & y2 & Hyy & Hy); [rewrite len_app; lia|].
  assert (Hy2 : len y2 = len body).
  { apply (f_equal len) in Hyy. rewrite !len_app in Hyy. lia. }
  assert (Hbuf : buf b' = (p ++ y) ++ y2 ++ rest).
  { rewrite Htl, <- !app_assoc. f_equal. rewrite !app_assoc, Hyy. by rewrite <- !app_assoc. }
  exists (with_buf b' ((p ++ y) ++ body ++ rest)), y, rest. split_and!; try done.
  - unfold move_up. unfold bind at 1, get_base at 1. cbn [base set_buf]. rewrite W4.
    assert (take (Z.to_nat (len body)) (drop (Z.to_nat (len p)) (buf b')) = body) as ->.
    { rewrite !len_to_nat, Htl, <- !app_assoc, drop_app_exact by done. by apply take_app_exact. }
    erewrite (write_mid _ _ _ (p ++ y) y2 rest); [done|done|done|rewrite len_app; lia|done].
  - eapply wf_with_buf; [done|exact Hbuf|done].
  - cbn. by rewrite <- app_assoc.
Qed.

Lemma flush_asn1_ok h id c ch pre z body :
  pending h id c ch true pre z body -> len z = 1 -> len body <= 0xfffffffe ->
  room (base h) (len (der_length (len body)) - 1) ->
  exists h', CBB_flush realloc_ok junk id h = (Some tt, h') /\
    flushed h h' id c ch (pre ++ der_length (len body) ++ body).
Proof.
  intros Hp Hz Hb Hroom. rewrite (flush_pending _ _ _ _ _ _ _ _ Hp). destruct Hp.
  unfold flush_prefix. unfold bind at 1, get_obj at 1. rewrite pd_obj0, pd_base0.
  pose proof (len_nonneg body). pose proof (len_nonneg pre).
  cbn [pending_is_asn1 offset pending_len_len child is_child].
  rewrite asn1_length_form_spec by lia. unfold der_length in *.
  destruct (content_split h) as [tl Hbuf]. rewrite pd_content0, <- !app_assoc in Hbuf.
  pose proof (content_len h pd_wf0) as Hl. rewrite pd_content0, !len_app in Hl.
  destruct (Z.ltb_spec (len body) 128) as [Hs|Hs].
  - change (1 =? 1) with true. cbv iota beta.
    unfold bind at 1, bind at 1, ret at 1. unfold bind at 1.
    rewrite (write_mid _ _ _ _ _ _ pd_wf0 Hbuf) by done. unfold ret at 1. cbv iota beta.
    change (1 - 1) with 0. change (Z.to_nat 0) with (length (@nil Z)).
    edestruct (flush_finish (set_buf h (with_buf (base h) (pre ++ [len body] ++ body ++ tl)))
      id c ch 0 (len pre + 1) (Cbb false None (len pre + 1) 0 true true)
      (pre ++ [len body]) [] body) as (h' & E & F); try done.
    + eapply wf_with_buf; [done|exact Hbuf|done].
    + eapply (content_intro _ _ tl); cbn; [|rewrite !len_app, len_cons, len_nil; lia].
      by rewrite <- !app_assoc.
    + rewrite len_app, len_cons, len_nil. lia.
    + exists h'. split; [exact E|]. destruct F. split; try done.
      * by rewrite fl_content0, <- app_assoc.
      * intros n Hn Hr. apply fl_room0; [done|]. cbn.
        rewrite !len_app, !len_cons, len_nil in *. unfold room in *. cbn in *. intuition lia.
  - set (k := Z.of_nat (byte_count (len body))) in *.
    destruct (byte_count_bounds (len body)) as [_ Hlt]; [lia|]. fold k in Hlt.
    assert (Hk : 1 <= k <= 4) by (pose proof (byte_count_u32 (len body)); lia).
    assert (Hbe : len ((128 + k) :: be_bytes (byte_count (len body)) (len body)) = 1 + k)
      by (rewrite len_cons; unfold len; by rewrite be_bytes_length).
    rewrite Hbe in Hroom. replace (1 + k - 1) with k in * by lia.
    destruct (Z.eqb_spec (1 + k) 1); [lia|].
    destruct (make_room_ok h k (pre ++ z) body pd_wf0 ltac:(lia) Hroom) as
      (b & y & rest & E & W & He & Hbl & Hy & Hb' & Hm); [by rewrite <- app_assoc|].
    rewrite len_app in E. replace (1 + k - 1) with k by lia.
    unfold bind at 1. unfold bind at 1. rewrite E.
    rewrite <- !app_assoc in Hb'.
    unfold bind at 1. erewrite write_mid; [|exact W|exact Hb'|done|by rewrite Hz].
    unfold ret at 1. cbv iota beta. cbn [set_buf base objs].
    assert (Z.to_nat k = length y) as -> by (unfold len in Hy; lia).
    edestruct (flush_finish (set_buf h (with_buf b (pre ++ [128 + k] ++ y ++ body ++ rest)))
      id c ch (len body) (len pre + 1) (Cbb false None (len pre + 1) k true true)
      (pre ++ [128 + k]) y body) as (h' & E' & F); try done.
    + eapply wf_with_buf; [done|exact Hb'|by rewrite Hz].
    + cbn. by rewrite He.
    + eapply (content_intro _ _ rest); cbn; [|rewrite !len_app, len_cons, len_nil; lia].
      by rewrite <- !app_assoc.
    + rewrite len_app, len_cons, len_nil. lia.
    + rewrite Hy. lia.
    + exists h'. split; [exact E'|].
      assert (Hout : (pre ++ [128 + k]) ++ be_bytes (length y) (len body) ++ body =
                     pre ++ ((128 + k) :: be_bytes (byte_count (len body)) (len body)) ++ body).
      { assert (length y = byte_count (len body)) as -> by (unfold len in Hy; lia).
        by rewrite <- app_assoc. }
      rewrite Hout in F. destruct F. split; try done.
      intros m Hm0 Hr. apply fl_room0; [done|]. cbn [base set_buf with_buf blen]. rewrite Hbl.
      rewrite !len_app, Hbe in *. apply Hm; [lia|].
      eapply room_weaken; [|exact Hr]. lia.
Qed.
End cbb.
