(* ===== verification/CbbOps.v ===== *)
(** The composite operations of the builder [Cbb]: children opened, filled and flushed, with the
    bytes they leave in the buffer. *)
From stdpp Require Import gmap.
From S2P Require Import Prelude Der Cbs CbsLemmas CbsAsn1 Cbb CbbLemmas.

Section cbb.
Context (realloc_ok : Z -> bool) (junk : nat -> Z).
#[local] Abbreviation flush := (CBB_flush realloc_ok junk).
#[local] Abbreviation room := (room realloc_ok).
#[local] Abbreviation appended := (appended realloc_ok).
#[local] Abbreviation flushed := (flushed realloc_ok).

Definition with_child (c : CBB) (ch : nat) : CBB :=
  Cbb (has_base c) (Some ch) (offset c) (pending_len_len c) (pending_is_asn1 c) (is_child c).

(** [h1] is [h] with [pre ++ z] as contents and the fresh child [ch] of [id] open after it. *)
Record opened (h h1 : heap) (id : nat) (c : CBB) (ch : nat) (asn1 : bool) (pre z : list Z)
  : Prop := {
  op_objs : objs h1 = <[id := with_child c ch]>
              (<[ch := Cbb true None (len pre) (len z) asn1 true]> (objs h));
  op_content : content h1 = pre ++ z;
  op_wf : wf_buffer (base h1);
  op_error : error (base h1) = false;
  op_room n : 0 <= n -> room (base h) (len (pre ++ z) - blen (base h) + n) -> room (base h1) n;
}.

Lemma opened_ready h h1 id c ch asn1 pre z :
  opened h h1 id c ch asn1 pre z -> ch <> id ->
  ready h1 ch (Cbb true None (len pre) (len z) asn1 true).
Proof.
  intros [] Hne. split; try done; [|by destruct op_wf0]. rewrite op_objs0.
  rewrite lookup_insert_ne by done. apply lookup_insert_eq.
Qed.

(** Attaching another object. *)
Lemma attach_child_ok h id p ch off pll asn1 : objs h !! id = Some p -> ch <> id ->
  attach_child id ch off pll asn1 h =
  (Some tt, Heap (base h) (<[id := with_child p ch]> (<[ch := Cbb (has_base p) None off pll asn1 true]> (objs h)))).
Proof.
  intros Hp Hne. unfold attach_child, bind, put_obj, get_obj, set_obj. cbn [objs base].
  rewrite lookup_insert_ne by done. rewrite Hp. cbn [objs base]. rewrite insert_insert_eq, lookup_insert_ne by done. rewrite Hp. cbn [objs base].
  rewrite lookup_insert_ne by done. rewrite lookup_insert_eq. cbn [objs base has_base child is_child]. do 2 f_equal.
  rewrite (insert_insert_ne (objs h) id ch) by done. by rewrite insert_insert_eq, insert_insert_ne by done.
Qed.

Lemma opened_pending h h1 h2 id c ch asn1 pre z body :
  ready h id c -> opened h h1 id c ch asn1 pre z -> ch <> id -> 0 < len z ->
  appended h1 h2 body -> pending h2 id (with_child c ch) ch asn1 pre z body.
Proof.
  intros [] Ho Hne Hz Ha. pose proof (opened_ready _ _ _ _ _ _ _ _ Ho Hne) as Hr.
  destruct Ho, Ha. split; try done.
  - eapply lookup_weaken; [|done]. rewrite op_objs0. apply lookup_insert_eq.
  - eapply lookup_weaken; [|done]. apply Hr.
  - congruence.
  - by rewrite app_content, op_content0, <- app_assoc.
Qed.

(** Opening a fresh child, filling it and flushing it back adds bytes after the old contents. *)
Lemma flushed_appended h h1 h2 h3 id c ch asn1 pre z body out :
  wf_buffer (base h) -> ready h id c -> objs h !! ch = None ->
  opened h h1 id c ch asn1 pre z -> appended h1 h2 body ->
  flushed h2 h3 id (with_child c ch) ch (content h ++ out) -> len (pre ++ z ++ body) <= len (content h ++ out) ->
  appended h h3 out.
Proof.
  intros Hwf0 [] Hfr [] [] [[cc Hobj] ? ? ?] Hle.
  pose proof (content_len h Hwf0) as Hl0. pose proof (content_len h3 fl_wf) as Hl3.
  pose proof (content_len h1 op_wf0) as Hl1. rewrite op_content0 in Hl1.
  rewrite fl_content, len_app in Hl3.
  assert (Hne : ch <> id) by (intros ->; congruence).
  split; try done.
  - rewrite Hobj. assert (unchild (with_child c ch) = c) as ->.
    { destruct c. cbn in *. by subst. }
    apply map_subseteq_spec. intros i x Hi.
    destruct (decide (i = id)) as [->|]; [rewrite lookup_insert_eq; congruence|].
    rewrite lookup_insert_ne by done.
    destruct (decide (i = ch)) as [->|]; [congruence|].
    rewrite lookup_insert_ne by done. eapply lookup_weaken; [|done].
    rewrite op_objs0, !lookup_insert_ne by done. done.
  - lia.
  - congruence.
  - intros n Hn Hr. apply fl_room; [done|].
    pose proof (len_nonneg body). pose proof (len_nonneg out). rewrite !len_app in *.
    apply app_room; [lia|]. apply op_room0; [rewrite ?len_app; lia|].
    eapply room_weaken; [|exact Hr]. rewrite ?len_app. lia.
Qed.

(** *** Identifiers *)

Lemma u8_tag_bits tag : valid_tag tag ->
  u8 (tag >> CBS_ASN1_TAG_SHIFT) &. 0xe0 = tag_bits tag * 32.
Proof.
  intros Ht. unfold CBS_ASN1_TAG_SHIFT. rewrite shiftr_div by lia.
  rewrite u8_id by (unfold byte, valid_tag in *; Z.div_mod_to_equations; lia).
  rewrite (byte_eq (fun b => Z.land b 224) (fun b => b / 32 * 32));
    [|by vm_compute|unfold byte, valid_tag in *; Z.div_mod_to_equations; lia].
  unfold tag_bits. by rewrite Z.div_div by lia.
Qed.

Lemma add_identifier_ok h id c tag :
  ready h id c -> wf_buffer (base h) -> valid_tag tag ->
  room (base h) (len (der_identifier tag)) ->
  exists h', (if 0x1f <=? tag &. CBS_ASN1_TAG_NUMBER_MASK then
     CBB_add_u8 realloc_ok junk id ((u8 (tag >> CBS_ASN1_TAG_SHIFT) &. 0xe0) |. 0x1f) ;;;
     add_base128_integer realloc_ok junk id (tag &. CBS_ASN1_TAG_NUMBER_MASK)
   else CBB_add_u8 realloc_ok junk id
          (u8 ((u8 (tag >> CBS_ASN1_TAG_SHIFT) &. 0xe0) |. (tag &. CBS_ASN1_TAG_NUMBER_MASK)))) h
    = (Some tt, h') /\ appended h h' (der_identifier tag) /\ objs h' = objs h.
Proof.
  intros Hrd Hwf Ht Hr. destruct (tag_split tag Ht) as (Hb & Hn & _).
  rewrite u8_tag_bits by done. rewrite (land_ones_mod _ 29) by (by vm_compute || lia).
  fold (tag_number tag). unfold der_identifier in *.
  destruct (Z.leb_spec 31 (tag_number tag)); destruct (Z.ltb_spec (tag_number tag) 31); try lia.
  - rewrite (lor_mul_add _ 31 5) by lia. change (2 ^ 5) with 32.
    destruct (add_u8_ok realloc_ok junk h id c (tag_bits tag * 32 + 31) Hrd Hwf) as (h1 & E1 & A1 & O1).
    { eapply room_weaken; [|exact Hr]. rewrite len_cons.
      pose proof (len_nonneg (base128 (tag_number tag))). lia. }
    { unfold byte. lia. }
    rewrite (bind_some _ _ _ _ _ E1).
    destruct (add_base128_ok realloc_ok junk h1 id c (tag_number tag)) as (h2 & E2 & A2 & O2).
    + by eapply ready_appended.
    + apply A1.
    + apply (app_room _ _ _ _ A1); [apply len_nonneg|].
      rewrite len_cons in Hr. by rewrite len_cons, len_nil, Z.add_0_r.
    + lia.
    + exists h2. split; [done|]. split; [exact (appended_trans _ _ _ _ _ _ A1 A2)|congruence].
  - rewrite (lor_mul_add _ (tag_number tag) 5) by lia. change (2 ^ 5) with 32.
    rewrite u8_id by (unfold byte; lia).
    apply (add_u8_ok _ _ h id c); try done. unfold byte; lia.
Qed.

Lemma add_asn1_ok h id c ch tag :
  ready h id c -> wf_buffer (base h) -> ch <> id -> valid_tag tag ->
  room (base h) (len (der_identifier tag) + 1) ->
  exists h1, CBB_add_asn1 realloc_ok junk id ch tag h = (Some tt, h1) /\
    opened h h1 id c ch true (content h ++ der_identifier tag) [0].
Proof.
  intros Hrd Hwf Hne Ht Hr. unfold CBB_add_asn1.
  rewrite (bind_some _ _ _ _ _ (flush_ready _ _ h id c Hrd)). cbv zeta.
  destruct (add_identifier_ok h id c tag Hrd Hwf Ht) as (h1 & E1 & A1 & O1).
  { eapply room_weaken; [|exact Hr]. pose proof (len_nonneg (der_identifier tag)). lia. }
  rewrite (bind_some _ _ _ _ _ E1). unfold bind at 1, get_base at 1. rewrite (wf_live _ (app_wf _ _ _ _ A1)).
  pose proof (ready_appended _ _ _ _ _ _ Hrd A1) as Hrd1.
  assert (Hr1 : room (base h1) 1) by (by apply (app_room _ _ _ _ A1)).
  destruct (add_u8_ok realloc_ok junk h1 id c 0 Hrd1 (app_wf _ _ _ _ A1) Hr1) as (h2 & E2 & A2 & O2).
  { unfold byte; lia. }
  rewrite (bind_some _ _ _ _ _ E2).
  pose proof (appended_trans _ _ _ _ _ _ A1 A2) as A.
  rewrite (attach_child_ok h2 id c) by (done || apply (ready_appended _ _ _ _ _ _ Hrd1 A2)). rewrite (ready_base _ _ _ Hrd).
  eexists. split; [reflexivity|].
  assert (Hbl : blen (base h1) = len (content h ++ der_identifier tag)).
  { rewrite <- (content_len h1 (app_wf _ _ _ _ A1)). f_equal. apply A1. }
  rewrite Hbl, O2, O1. destruct A. split; cbn; try done.
  - by rewrite <- app_assoc.
  - rewrite app_error. apply Hrd.
  - intros n Hn Hr'. apply app_room; [done|].
    eapply room_weaken; [|exact Hr']. rewrite !len_app, !(content_len h Hwf).
    pose proof (len_nonneg (der_identifier tag)). change (len [0]) with 1. lia.
Qed.

(** [m] appends [body] to the child it is given and returns [a]. *)
Definition fills {A} (ch : nat) (m : M heap A) (body : list Z) (a : A) : Prop := forall h c,
  ready h ch c -> wf_buffer (base h) -> room (base h) (len body) ->
  exists h', m h = (Some a, h') /\ appended h h' body.

Lemma fills_bind {A B} ch (m : M heap A) (k : A -> M heap B) b1 b2 a b :
  fills ch m b1 a -> fills ch (k a) b2 b -> fills ch (bind m k) (b1 ++ b2) b.
Proof.
  intros F1 F2 h c Hrd Hwf Hr. rewrite len_app in Hr.
  pose proof (len_nonneg b1). pose proof (len_nonneg b2).
  destruct (F1 h c Hrd Hwf) as (h1 & E1 & A1); [by eapply room_weaken; [|exact Hr]; lia|].
  rewrite (bind_some _ _ _ _ _ E1).
  destruct (F2 h1 c) as (h2 & E2 & A2).
  - by eapply ready_appended.
  - apply A1.
  - by apply (app_room _ _ _ _ A1).
  - exists h2. split; [done|]. exact (appended_trans _ _ _ _ _ _ A1 A2).
Qed.

Lemma fills_ret {A} ch (a : A) : fills ch (ret a) [] a.
Proof. intros h c Hrd Hwf Hr. exists h. split; [done|]. by apply appended_refl. Qed.

Lemma fills_u8 ch v : byte v -> fills ch (CBB_add_u8 realloc_ok junk ch v) [v] tt.
Proof.
  intros Hv h c Hrd Hwf Hr. destruct (add_u8_ok realloc_ok junk h ch c v) as (h' & ? & ? & ?); eauto.
Qed.

Lemma fills_u ch v n : (1 <= n)%nat -> 0 <= v < 256 ^ Z.of_nat n ->
  fills ch (cbb_add_u realloc_ok junk ch v (Z.of_nat n)) (be_bytes n v) tt.
Proof.
  intros Hn Hv h c Hrd Hwf Hr. unfold len in Hr. rewrite be_bytes_length in Hr.
  destruct (add_u_ok realloc_ok junk h ch c v n) as (h' & ? & ? & ?); eauto.
Qed.

Lemma fills_bytes ch data : fills ch (CBB_add_bytes realloc_ok junk ch data) data tt.
Proof.
  intros h c Hrd Hwf Hr. destruct (add_bytes_ok realloc_ok junk h ch c data) as (h' & ? & ? & ?); eauto.
Qed.

(** A whole element: open, fill, flush. *)
Lemma asn1_wrap h id c ch tag body m :
  ready h id c -> wf_buffer (base h) -> objs h !! ch = None -> valid_tag tag ->
  len body <= 0xfffffffe -> room (base h) (len (der_tlv tag body)) -> fills ch m body tt ->
  exists h', (CBB_add_asn1 realloc_ok junk id ch tag ;;; m ;;; flush id) h = (Some tt, h') /\
             appended h h' (der_tlv tag body).
Proof.
  intros Hrd Hwf Hfr Ht Hb Hr Hm.
  assert (Hne : ch <> id) by (intros ->; destruct Hrd; congruence).
  assert (Hdl : 1 <= len (der_length (len body)))
    by (pose proof (der_length_len (len body)); pose proof (len_nonneg body); lia).
  unfold der_tlv, der_header in *. rewrite !len_app in Hr.
  pose proof (len_nonneg body). pose proof (len_nonneg (der_identifier tag)).
  destruct (add_asn1_ok h id c ch tag Hrd Hwf Hne Ht) as (h1 & E1 & O).
  { eapply room_weaken; [|exact Hr]. lia. }
  rewrite (bind_some _ _ _ _ _ E1).
  pose proof (opened_ready _ _ _ _ _ _ _ _ O Hne) as Hrd1.
  pose proof (content_len h Hwf) as Hcl.
  assert (Hr1 : room (base h1) (len (der_length (len body)) - 1 + len body)).
  { apply O; [lia|]. rewrite !len_app, len_cons, len_nil. eapply room_weaken; [|exact Hr]. lia. }
  destruct (Hm h1 _ Hrd1 (op_wf _ _ _ _ _ _ _ _ O)) as (h2 & E2 & A2).
  { eapply room_weaken; [|exact Hr1]. lia. }
  rewrite (bind_some _ _ _ _ _ E2).
  pose proof (opened_pending _ _ _ _ _ _ _ _ _ _ Hrd O Hne ltac:(done) A2) as Hp.
  destruct (flush_asn1_ok realloc_ok junk _ _ _ _ _ _ _ Hp eq_refl Hb) as (h3 & E3 & F).
  { apply (app_room _ _ _ _ A2); [lia|]. by replace (len body + _) with
      (len (der_length (len body)) - 1 + len body) by lia. }
  exists h3. split; [done|]. rewrite <- !app_assoc in *.
  eapply flushed_appended; try done. rewrite !len_app, len_cons, len_nil. lia.
Qed.

(** *** Fresh addresses *)

Lemma new_addr_fresh h : objs h !! new_addr h = None.
Proof.
  assert (Hmax : forall i c, objs h !! i = Some c ->
    (i <= map_fold (fun k (_ : CBB) m => Nat.max k m) 0 (objs h))%nat).
  { apply (map_fold_weak_ind (fun r m => forall i c, m !! i = Some c -> (i <= r)%nat)).
    - done.
    - intros i x m r _ IH j c Hj. destruct (decide (i = j)) as [->|]; [lia|].
      rewrite lookup_insert_ne in Hj by done. apply IH in Hj. lia. }
  unfold new_addr. destruct (objs h !! S _) as [c|] eqn:E; [|done].
  apply Hmax in E. lia.
Qed.

(** An element in a local child fills the builder above it. *)
Lemma fills_asn1 id tag body m :
  valid_tag tag -> len body <= 0xfffffffe -> (forall ch, fills ch (m ch) body tt) ->
  fills id (let* ch := local_child in CBB_add_asn1 realloc_ok junk id ch tag ;;; m ch ;;; flush id)
    (der_tlv tag body) tt.
Proof.
  intros Ht Hb Hm h c Hrd Hwf Hr. unfold bind at 1, local_child.
  eapply asn1_wrap; eauto using new_addr_fresh.
Qed.

(** *** Length prefixes *)

Lemma add_length_prefixed_ok h id c ch n :
  ready h id c -> wf_buffer (base h) -> ch <> id -> room (base h) (Z.of_nat n) ->
  exists h1, cbb_add_length_prefixed realloc_ok junk id ch (Z.of_nat n) h = (Some tt, h1) /\
    opened h h1 id c ch false (content h) (replicate n 0).
Proof.
  intros Hrd Hwf Hne Hr. unfold cbb_add_length_prefixed.
  rewrite (bind_some _ _ _ _ _ (flush_ready _ _ h id c Hrd)).
  unfold bind at 1, get_obj at 1. rewrite (ready_obj _ _ _ Hrd), (ready_base _ _ _ Hrd).
  unfold bind at 1, get_base at 1. rewrite (wf_live _ Hwf), Nat2Z.id.
  assert (Hn : Z.of_nat n = len (replicate n 0)) by (by rewrite len_replicate).
  rewrite Hn in Hr |- *.
  destruct (add_write_ok realloc_ok junk h (replicate n 0) Hwf Hr) as (h1 & E1 & A1 & O1).
  assert (E2 : forall B (k : unit -> M heap B),
    (let* d := cbb_buffer_add realloc_ok junk true (len (replicate n 0)) in
     write_bytes d (replicate n 0) ;;; k tt) h = k tt h1).
  { intros B k. revert E1. unfold bind.
    destruct (cbb_buffer_add _ _ _ _ h) as [[?|] ?]; [|done]. by intros ->. }
  rewrite (E2 _ (fun _ => attach_child id ch (blen (base h)) (len (replicate n 0)) false)).
  rewrite (attach_child_ok h1 id c) by (done || (rewrite O1; apply Hrd)). rewrite (ready_base _ _ _ Hrd), O1.
  eexists. split; [reflexivity|]. destruct A1. split; cbn [objs base]; try done.
  - rewrite (content_len h Hwf). done.
  - rewrite app_error. apply Hrd.
  - intros m Hm Hr'. apply app_room; [done|]. eapply room_weaken; [|exact Hr'].
    rewrite len_app, (content_len h Hwf), !len_replicate. lia.
Qed.

Lemma prefixed_wrap h id c ch n body m :
  ready h id c -> wf_buffer (base h) -> objs h !! ch = None -> (1 <= n)%nat ->
  len body < 256 ^ Z.of_nat n -> room (base h) (Z.of_nat n + len body) -> fills ch m body tt ->
  exists h', (cbb_add_length_prefixed realloc_ok junk id ch (Z.of_nat n) ;;; m ;;; flush id) h
               = (Some tt, h') /\ appended h h' (be_bytes n (len body) ++ body).
Proof.
  intros Hrd Hwf Hfr Hn Hb Hr Hm.
  assert (Hne : ch <> id) by (intros ->; destruct Hrd; congruence).
  pose proof (len_nonneg body). pose proof (content_len h Hwf) as Hcl.
  destruct (add_length_prefixed_ok h id c ch n Hrd Hwf Hne) as (h1 & E1 & O).
  { eapply room_weaken; [|exact Hr]. lia. }
  rewrite (bind_some _ _ _ _ _ E1).
  pose proof (opened_ready _ _ _ _ _ _ _ _ O Hne) as Hrd1.
  destruct (Hm h1 _ Hrd1 (op_wf _ _ _ _ _ _ _ _ O)) as (h2 & E2 & A2).
  { apply O; [done|]. rewrite len_app, len_replicate. eapply room_weaken; [|exact Hr]. lia. }
  rewrite (bind_some _ _ _ _ _ E2).
  assert (Hz : 0 < len (replicate n 0)) by (rewrite len_replicate; lia).
  pose proof (opened_pending _ _ _ _ _ _ _ _ _ _ Hrd O Hne Hz A2) as Hp.
  destruct (flush_plain_ok realloc_ok junk _ _ _ _ _ _ _ Hp) as (h3 & E3 & F).
  { by rewrite len_replicate. }
  rewrite length_replicate in F.
  exists h3. split; [done|]. eapply flushed_appended; try done.
  rewrite !len_app, len_replicate. unfold len. rewrite be_bytes_length. lia.
Qed.

(** *** INTEGERs *)

(** What the loop of [CBB_add_asn1_uint64] writes. *)
Fixpoint uint_emit (started : bool) (bytes : list Z) : list Z * bool :=
  match bytes with
  | [] => ([], started)
  | b :: bytes =>
      if negb started && (b =? 0) then uint_emit started bytes
      else ((if negb started && (128 <=? b) then [0] else []) ++ b :: (uint_emit true bytes).1, true)
  end.

Lemma uint_emit_started bytes : uint_emit true bytes = (bytes, true).
Proof. induction bytes as [|b l IH]; cbn; [done|]. by rewrite IH. Qed.

Lemma add_uint64_loop_fills ch bytes started :
  Forall byte bytes ->
  fills ch (add_uint64_loop realloc_ok junk ch started bytes)
    (uint_emit started bytes).1 (uint_emit started bytes).2.
Proof.
  revert started. induction bytes as [|b l IH]; intros started Hb; [apply fills_ret|].
  apply Forall_cons in Hb as [Hb Hl]. cbn [add_uint64_loop uint_emit].
  destruct (negb started && (b =? 0)); [by apply IH|]. cbn [fst snd].
  change (b &. 0x80) with (Z.land b 128). rewrite byte_high_bit, <- Z.leb_antisym by done.
  eapply fills_bind.
  - destruct (negb started && (128 <=? b)); [apply fills_u8; by vm_compute|apply fills_ret].
  - change (b :: ?x) with ([b] ++ x). eapply fills_bind; [by apply fills_u8|].
    specialize (IH true Hl). by rewrite uint_emit_started in *.
Qed.

Lemma uint_emit_value bytes :
  Forall byte bytes ->
  let c := (uint_emit false bytes).1 ++ (if (uint_emit false bytes).2 then [] else [0]) in
  minimal_int c = true /\ be_signed c = be_value bytes /\ Forall byte c.
Proof.
  induction bytes as [|b l IH]; intros Hb; cbn [uint_emit negb andb].
  { cbn. split_and!; try done. repeat constructor; by vm_compute. }
  apply Forall_cons in Hb as [Hb Hl]. destruct (Z.eqb_spec b 0) as [->|Hz].
  { destruct (IH Hl) as (? & Hv & ?). split_and!; try done.
    rewrite be_value_cons. by rewrite Hv. }
  rewrite uint_emit_started. cbn [fst snd]. rewrite app_nil_r.
  unfold byte in Hb. destruct (Z.leb_spec 128 b); cbn [app].
  - split_and!.
    + cbn. destruct (Z.ltb_spec b 128); [lia|]. by destruct (b =? 0).
    + unfold be_signed. cbn [Z.ltb]. rewrite be_value_cons. done.
    + repeat constructor; try done; unfold byte; lia.
  - split_and!.
    + destruct l; [done|]. cbn. destruct (Z.eqb_spec b 0); [lia|].
      destruct (Z.eqb_spec b 255); [lia|done].
    + unfold be_signed. destruct (Z.ltb_spec b 128); [done|lia].
    + by constructor.
Qed.

Lemma uint64_bytes_be v : uint64_bytes v = be_bytes 8 v.
Proof.
  assert (E : forall n, le_bytes n v = map (fun i => (v >> (8 * Z.of_nat i)) &. 0xff) (seq 0 n)).
  { intros n. assert (G : forall k, le_bytes n (v / 256 ^ Z.of_nat k) =
      map (fun i => (v >> (8 * Z.of_nat i)) &. 0xff) (seq k n)).
    { induction n as [|n IH]; intros k; cbn [le_bytes seq map]; [done|].
      rewrite land_255, shiftr_div, <- (pow_pow2 8) by lia. f_equal.
      rewrite <- IH, Nat2Z.inj_succ, Z.pow_succ_r, Z.mul_comm, Z.div_div by lia. done. }
    rewrite <- (G 0%nat). cbn. by rewrite Z.div_1_r. }
  unfold be_bytes. rewrite E. reflexivity.
Qed.

(** The contents written for an unsigned value. *)
Lemma uint64_fills ch v :
  0 <= v < 2 ^ 64 ->
  fills ch (let* started := add_uint64_loop realloc_ok junk ch false (uint64_bytes v) in
            if started : bool then ret tt else CBB_add_u8 realloc_ok junk ch 0)
    (int_contents v) tt.
Proof.
  intros Hv. rewrite uint64_bytes_be.
  destruct (uint_emit_value (be_bytes 8 v) (be_bytes_byte _ _)) as (Hmin & Hval & Hb).
  apply minimal_int_contents in Hmin as [Hmin _]; [|done].
  rewrite be_value_bytes in Hval by (cbn; lia). rewrite Hval in Hmin. rewrite <- Hmin.
  eapply fills_bind; [apply add_uint64_loop_fills, be_bytes_byte|].
  destruct (uint_emit false (be_bytes 8 v)).2; [apply fills_ret|].
  apply fills_u8. by vm_compute.
Qed.

Lemma add_asn1_uint64_fills id v :
  0 <= v < 2 ^ 64 ->
  fills id (CBB_add_asn1_uint64 realloc_ok junk id v) (der_tlv CBS_ASN1_INTEGER (int_contents v)) tt.
Proof.
  intros Hv. pose proof (int_contents_len_u32 v).
  pose proof (fills_asn1 id CBS_ASN1_INTEGER (int_contents v)
    (fun ch => let* started := add_uint64_loop realloc_ok junk ch false (uint64_bytes v) in
            if started : bool then ret tt else CBB_add_u8 realloc_ok junk ch 0)) as F.
  intros h c Hrd Hwf Hr. edestruct F as (h' & E & A); [done|lia| |done..|].
  { intros. by apply uint64_fills. }
  exists h'. split; [|done]. rewrite <- E. unfold CBB_add_asn1_uint64.
  unfold bind at 1 3, local_child. unfold bind. destruct (CBB_add_asn1 _ _ _ _ _ _) as [[?|] ?]; [|done].
  by destruct (add_uint64_loop _ _ _ _ _ _) as [[[]|] ?].
Qed.

(** What [CBB_add_asn1_int64] keeps of the big-endian bytes of a negative value. *)
Fixpoint strip_ff (c : list Z) : list Z :=
  match c with
  | b :: l => match l with
              | b' :: _ => if (b =? 255) && (128 <=? b') then strip_ff l else c
              | [] => c
              end
  | [] => []
  end.

Lemma rev_take_S (l : list Z) i :
  (i < length l)%nat -> rev (take (S i) l) = nth i l 0 :: rev (take i l).
Proof.
  intros Hi. destruct (lookup_lt_is_Some_2 l i Hi) as [x Hx].
  rewrite (take_S_r _ _ x Hx), rev_app_distr. cbn. f_equal.
  symmetry. by apply nth_lookup_Some.
Qed.

Lemma int64_start_le i l : (int64_start i l <= i)%nat.
Proof. induction i as [|i IH]; cbn [int64_start]; [done|]. destruct (_ && _); lia. Qed.

Lemma int64_start_spec i l :
  Forall byte l -> (i < length l)%nat ->
  rev (take (S (int64_start i l)) l) = strip_ff (rev (take (S i) l)).
Proof.
  intros Hb. induction i as [|i IH]; intros Hi.
  { cbn [int64_start]. by rewrite (rev_take_S l 0). }
  rewrite (rev_take_S l (S i)), (rev_take_S l i) by lia. cbn [int64_start strip_ff].
  assert (Hbi : byte (nth i l 0)) by (apply Forall_nth; [done|lia]).
  change (nth i l 0 &. 0x80) with (Z.land (nth i l 0) 128).
  rewrite byte_high_bit, <- Z.leb_antisym by done.
  destruct (_ && _).
  - rewrite IH by lia. by rewrite (rev_take_S l i) by lia.
  - by rewrite !rev_take_S by lia.
Qed.

Lemma strip_ff_spec c :
  Forall byte c -> c <> [] -> be_signed c < 0 ->
  minimal_int (strip_ff c) = true /\ be_signed (strip_ff c) = be_signed c /\ Forall byte (strip_ff c).
Proof.
  induction c as [|b l IH]; [done|]. intros Hb _ Hs. cbn [strip_ff].
  destruct l as [|b' l']; [by rewrite Hs || done|].
  apply Forall_cons in Hb as [Hb Hl]. pose proof Hl as Hl2. apply Forall_cons in Hl as [Hb' Hl'].
  destruct ((b =? 255) && (128 <=? b')) eqn:E.
  - apply andb_true_iff in E as [Eb E]. apply Z.eqb_eq in Eb as ->. apply Z.leb_le in E.
    assert (Heq : be_signed (255 :: b' :: l') = be_signed (b' :: l')).
    { unfold be_signed. destruct (Z.ltb_spec 255 128); [lia|]. destruct (Z.ltb_spec b' 128); [lia|].
      rewrite (be_value_cons 255), (pow256_cons 255). lia. }
    rewrite Heq in *. by apply IH.
  - split_and!; [|done|by constructor]. cbn [minimal_int]. rewrite E, orb_false_r.
    destruct (Z.eqb_spec b 0) as [->|]; [|done].
    unfold be_signed in Hs. cbn [Z.ltb] in Hs.
    pose proof (be_value_range (0 :: b' :: l') ltac:(by constructor)).
    change (0 <? 128) with true in Hs. lia.
Qed.

Lemma add_bytes_down_fills ch i l :
  Forall byte l -> (i < length l)%nat ->
  fills ch (add_bytes_down realloc_ok junk ch i l) (rev (take (S i) l)) tt.
Proof.
  intros Hb. induction i as [|i IH]; intros Hi; rewrite rev_take_S by done;
    change (?x :: ?k) with ([x] ++ k); (eapply fills_bind;
      [apply fills_u8, Forall_nth; [done|lia]|]).
  - apply fills_ret.
  - apply IH. lia.
Qed.

Lemma be_signed_bytes8 v : - 2 ^ 63 <= v < 0 -> be_signed (be_bytes 8 (u64 v)) = v.
Proof.
  intros Hv. pose proof (be_bytes_byte 8 (u64 v)) as Hb.
  pose proof (be_value_bytes 8 (u64 v) (u64_range v)) as Hval.
  assert (Hu : u64 v = v + 2 ^ 64) by (unfold u64; symmetry; apply (Z.mod_unique _ _ (-1)); lia).
  pose proof (be_bytes_length 8 (u64 v)) as Hlen.
  destruct (be_bytes 8 (u64 v)) as [|b l]; [done|].
  unfold be_signed. assert (len (b :: l) = 8) as -> by (unfold len; by rewrite Hlen).
  apply Forall_cons in Hb as [Hb Hl]. pose proof (be_value_range l Hl) as Hr.
  assert (len l = 7) as Hl7 by (unfold len; injection Hlen; lia).
  rewrite be_value_cons, Hl7 in Hval. rewrite Hl7 in Hr.
  destruct (Z.ltb_spec b 128); [lia|]. rewrite be_value_cons, Hl7. lia.
Qed.

Lemma add_asn1_int64_fills id v :
  - 2 ^ 63 <= v < 2 ^ 63 ->
  fills id (CBB_add_asn1_int64 realloc_ok junk id v) (der_tlv CBS_ASN1_INTEGER (int_contents v)) tt.
Proof.
  intros Hv. unfold CBB_add_asn1_int64. destruct (Z.leb_spec 0 v).
  { apply add_asn1_uint64_fills. lia. }
  pose proof (int_contents_len_u32 v). cbv zeta. apply fills_asn1; [done|lia|]. intros ch.
  assert (Hlen : length (le_bytes 8 (u64 v)) = 8%nat) by apply le_bytes_length.
  pose proof (le_bytes_byte 8 (u64 v)) as Hb.
  pose proof (int64_start_spec 7 (le_bytes 8 (u64 v)) Hb ltac:(lia)) as Hst.
  pose proof (int64_start_le 7 (le_bytes 8 (u64 v))).
  rewrite (take_ge _ 8) in Hst by lia. fold (be_bytes 8 (u64 v)) in Hst.
  pose proof (be_signed_bytes8 v ltac:(lia)) as Hs.
  destruct (strip_ff_spec (be_bytes 8 (u64 v))) as (Hmin & Hsv & Hsb);
    [apply be_bytes_byte|by intros ?%(f_equal length)|lia|].
  apply minimal_int_contents in Hmin as [Hmin _]; [|done].
  rewrite Hsv, Hs in Hmin. rewrite <- Hmin, <- Hst.
  apply add_bytes_down_fills; [done|lia].
Qed.

(** *** Initialisation and completion *)

Definition root_cbb : CBB := Cbb true None 0 0 false false.

Lemma cbb_init_ready (malloc_ok : Z -> bool) n h :
  0 <= n < 2 ^ 64 -> CBB_init malloc_ok junk n = Some h ->
  ready h root root_cbb /\ wf_buffer (base h) /\ content h = [] /\ blen (base h) = 0 /\
  can_resize (base h) = true.
Proof.
  intros Hn. unfold CBB_init, cbb_init. destruct (_ && _); [done|].
  destruct (malloc_ok _); [|done]. intros [= <-]. split_and!; try done.
  split; cbn; try lia; [|done]. unfold fresh_bytes, len. rewrite length_map, length_seq. lia.
Qed.

Lemma cbb_init_fixed_ready (malloc_ok : Z -> bool) b h :
  len b < 2 ^ 64 -> CBB_init_fixed malloc_ok b = Some h ->
  ready h root root_cbb /\ wf_buffer (base h) /\ content h = [] /\ blen (base h) = 0 /\
  cap (base h) = len b /\ can_resize (base h) = false.
Proof.
  intros Hn. unfold CBB_init_fixed, cbb_init.
  destruct (malloc_ok _); [|done]. intros [= <-]. pose proof (len_nonneg b).
  split_and!; try done; (split; cbn; try done; lia).
Qed.

Lemma finish_ready h id c :
  ready h id c -> is_child c = false ->
  exists h', CBB_finish realloc_ok junk id true h = (Some (content h), h').
Proof.
  intros Hrd Hc. unfold CBB_finish. unfold bind at 1, get_obj at 1.
  rewrite (ready_obj _ _ _ Hrd), Hc. cbn [negb]. unfold bind at 1, check at 1, ret at 1.
  rewrite (bind_some _ _ _ _ _ (flush_ready realloc_ok junk h id c Hrd)).
  unfold bind at 1, get_base at 1. rewrite (ready_live _ _ _ Hrd), andb_false_r. unfold CBB_cleanup.
  unfold bind, check, ret, get_obj, put_obj, put_base. cbn [negb set_buf objs base with_buf life].
  rewrite (ready_obj _ _ _ Hrd), Hc, (ready_base _ _ _ Hrd). unfold get_base. cbn [base with_buf life]. rewrite ?(ready_live _ _ _ Hrd). cbn. rewrite ?(ready_live _ _ _ Hrd). by eexists.
Qed.

(** A computation that fills the root, from creation to the finished bytes. *)
Lemma run_root (malloc_ok : Z -> bool) n h m body :
  0 <= n < 2 ^ 64 -> CBB_init malloc_ok junk n = Some h -> (forall k, realloc_ok k = true) ->
  len body < 2 ^ 64 -> fills root m body tt ->
  fst ((m ;;; CBB_finish realloc_ok junk root true) h) = Some body.
Proof.
  intros Hn Hi Hall Hb Hm.
  destruct (cbb_init_ready malloc_ok n h Hn Hi) as (Hrd & Hwf & Hc & Hbl & Hres).
  destruct (Hm h _ Hrd Hwf) as (h1 & E1 & A1); [by split; [lia|right]|].
  rewrite (bind_some _ _ _ _ _ E1).
  destruct (finish_ready h1 root root_cbb) as (h2 & ->); [by eapply ready_appended|done|].
  cbn. by rewrite (app_content _ _ _ _ A1), Hc.
Qed.
End cbb.
