(* ===== verification/SetOf.v ===== *)
(** SET OF: [CBB_flush_asn1_set_of] of crypto/bytestring/cbb.c, which rewrites the elements of a
    builder in the DER order (ascending encodings).  [qsort] is modelled by a merge sort: the
    order it sorts by is total and antisymmetric ([compare_total], [compare_antisymm]), so every
    sort returns the same list. *)
From stdpp Require Import gmap sorting.
From S2P Require Import Prelude Der Cbs CbsLemmas CbsAsn1 Cbb CbbLemmas.

(** [OPENSSL_memcmp] on the first [n] bytes: only the sign of the result is specified. *)
Fixpoint memcmp (n : nat) (a b : list Z) : Z :=
  match n, a, b with
  | S n, x :: a, y :: b => if x <? y then -1 else if y <? x then 1 else memcmp n a b
  | _, _, _ => 0
  end.

Definition compare_set_of_element (a b : CBS) : Z :=
  let a_len := CBS_len a in
  let b_len := CBS_len b in
  let min_len := if a_len <? b_len then a_len else b_len in
  let r := memcmp (Z.to_nat min_len) (CBS_data a) (CBS_data b) in
  if negb (r =? 0) then r
  else if a_len =? b_len then 0
  else if a_len <? b_len then -1 else 1.

Definition set_of_le (a b : CBS) : Prop := compare_set_of_element a b <= 0.
#[export] Instance set_of_le_dec a b : Decision (set_of_le a b) := Z_le_dec _ _.

Definition sizeof_CBS : Z := 16.

(** The counting loop; each element is at least one byte long. *)
Fixpoint count_elements (fuel : nat) (cbs : CBS) (num_children : Z) : option Z :=
  if CBS_len cbs =? 0 then Some num_children
  else match fuel with
       | O => None
       | S fuel =>
           match CBS_get_any_asn1_element cbs with
           | (Some _, cbs) => count_elements fuel cbs (num_children + 1)
           | (None, _) => None
           end
       end.

Fixpoint get_children (n : nat) (cbs : CBS) : option (list CBS) :=
  match n with
  | O => Some []
  | S n =>
      match CBS_get_any_asn1_element cbs with
      | (Some el, cbs) => option_map (cons (el_out el)) (get_children n cbs)
      | (None, _) => None
      end
  end.

Section set_of.
Context (malloc_ok realloc_ok : Z -> bool) (junk : nat -> Z).

Fixpoint add_children (cbb : nat) (children : list CBS) : M heap unit :=
  match children with
  | [] => ret tt
  | el :: children => CBB_add_bytes realloc_ok junk cbb (CBS_data el) ;;; add_children cbb children
  end.

Definition CBB_flush_asn1_set_of (cbb : nat) : M heap unit :=
  CBB_flush realloc_ok junk cbb ;;;
  let* data := CBB_data cbb in
  let* num_children := lift (count_elements (S (length data)) data 0) in
  if num_children <? 2 then ret tt
  else
    check (negb (SIZE_MAX / sizeof_CBS <? num_children)) ;;;
    check (malloc_ok (len data) && malloc_ok (num_children * sizeof_CBS)) ;;;
    let* children := lift (get_children (Z.to_nat num_children) data) in
    let* c := get_obj cbb in
    let* b := get_base in
    put_base (with_len b (offset c + pending_len_len c)) ;;;
    add_children cbb (merge_sort set_of_le children).
End set_of.

(** ** The order *)

Fixpoint lex_le (a b : list Z) : Prop :=
  match a, b with
  | [], _ => True
  | _ :: _, [] => False
  | x :: a, y :: b => x < y \/ x = y /\ lex_le a b
  end.

Lemma set_of_le_lex a b : set_of_le a b <-> lex_le a b.
Proof.
  unfold set_of_le, compare_set_of_element, CBS_len, CBS_data.
  assert ((if len a <? len b then len a else len b) = Z.of_nat (Nat.min (length a) (length b))) as ->.
  { unfold len. destruct (Z.ltb_spec (Z.of_nat (length a)) (Z.of_nat (length b))); lia. }
  rewrite Nat2Z.id. revert b. induction a as [|x a IH]; intros [|y b]; try done.
  specialize (IH b). cbn [length Nat.min memcmp lex_le].
  destruct (Z.ltb_spec x y); [cbn; split; [by left|done]|].
  destruct (Z.ltb_spec y x); [cbn; split; [done|intros [?|[? ?]]; lia]|].
  assert (x = y) as -> by lia. rewrite !len_cons.
  replace (1 + len a =? 1 + len b) with (len a =? len b) by zcases.
  replace (1 + len a <? 1 + len b) with (len a <? len b) by zcases.
  rewrite IH. split; [by right|intros [?|[_ ?]]; [lia|done]].
Qed.

Lemma lex_le_refl a : lex_le a a.
Proof. induction a; cbn; auto. Qed.

#[export] Instance set_of_le_total : Total set_of_le.
Proof.
  intros a b. rewrite !set_of_le_lex. revert b.
  induction a as [|x a IH]; intros [|y b]; cbn; auto.
  destruct (Z.lt_total x y) as [?|[->|?]]; auto. destruct (IH b); auto.
Qed.

#[export] Instance set_of_le_trans : Transitive set_of_le.
Proof.
  intros a b c. rewrite !set_of_le_lex. revert b c.
  induction a as [|x a IH]; intros [|y b] [|z c]; cbn; try done.
  intros [?|[-> ?]] [?|[-> ?]]; try (left; lia). right. split; [done|by eapply IH].
Qed.

#[export] Instance set_of_le_antisymm : AntiSymm (=) set_of_le.
Proof.
  intros a b. rewrite !set_of_le_lex. revert b.
  induction a as [|x a IH]; intros [|y b]; cbn; try done.
  intros [?|[-> ?]] [?|[? ?]]; try lia. f_equal. by apply IH.
Qed.

(** ** Elements *)

(** A DER element of some tag and contents. *)
Definition element_bytes (el : list Z) : Prop :=
  exists tag c, valid_tag tag /\ Forall byte c /\ len c < 2 ^ 32 /\ el = der_tlv tag c.

Lemma element_head el rest :
  element_bytes el ->
  exists r, CBS_get_any_asn1_element (el ++ rest) = (Some r, rest) /\ el_out r = el.
Proof.
  intros (tag & c & Ht & Hb & Hc & ->). eexists. split; [by apply any_element_complete|done].
Qed.

Lemma element_nonempty el : element_bytes el -> 0 < len el.
Proof.
  intros (tag & c & Ht & Hb & Hc & ->). unfold der_tlv. rewrite len_app.
  pose proof (len_nonneg c). destruct (der_header_len tag (len c)); [done|lia|lia].
Qed.

Lemma count_elements_concat els fuel k :
  Forall element_bytes els -> (length (concat els) <= fuel)%nat ->
  count_elements fuel (concat els) k = Some (k + len els).
Proof.
  revert fuel k. induction els as [|el els IH]; intros fuel k Hels Hf.
  { rewrite len_nil, Z.add_0_r. by destruct fuel. }
  apply Forall_cons in Hels as [Hel Hels]. cbn [concat] in *.
  pose proof (element_nonempty el Hel) as Hne. rewrite length_app in Hf.
  assert (Hp : (0 < length el)%nat) by (unfold len in Hne; lia).
  destruct (element_head el (concat els) Hel) as (r & Hr & _).
  destruct fuel as [|fuel]; [lia|].
  cbn [count_elements]. unfold CBS_len. rewrite len_app.
  pose proof (len_nonneg (concat els)).
  destruct (Z.eqb_spec (len el + len (concat els)) 0); [lia|].
  rewrite Hr, IH by (done || lia). f_equal. rewrite len_cons. lia.
Qed.

Lemma get_children_concat els :
  Forall element_bytes els -> get_children (length els) (concat els) = Some els.
Proof.
  induction els as [|el els IH]; intros Hels; [done|].
  apply Forall_cons in Hels as [Hel Hels]. cbn [concat length get_children].
  destruct (element_head el (concat els) Hel) as (r & -> & ->). by rewrite IH.
Qed.

(** What the counting loop accepts. *)
Lemma count_elements_inv fuel s k n :
  Forall byte s -> len s < 2 ^ 64 -> count_elements fuel s k = Some n ->
  exists els, Forall element_bytes els /\ s = concat els /\ n = k + len els.
Proof.
  revert s k. induction fuel as [|fuel IH]; intros s k Hs Hl; cbn [count_elements]; unfold CBS_len;
    destruct (Z.eqb_spec (len s) 0) as [Hz|]; intros H; simplify_eq/=;
    try (exists []; rewrite len_nil, (len_zero_nil s Hz); cbn; rewrite Z.add_0_r; done).
  destruct (CBS_get_any_asn1_element s) as [[[out tag hl bf]|] s'] eqn:E; [|done].
  assert (bf = false) as -> by (by eapply element_not_ber).
  apply any_element_sound in E as (c & Ht & Hc & -> & _ & ->); [|done..].
  apply bytes_app in Hs as [Hs1 Hs2]. rewrite len_app in Hl.
  pose proof (len_nonneg (der_tlv tag c)).
  apply IH in H as (els & Hels & -> & ->); [|done|lia].
  exists (der_tlv tag c :: els). split_and!; [|done|rewrite len_cons; lia].
  constructor; [|done]. exists tag, c. split_and!; try done.
  unfold der_tlv in Hs1. by apply bytes_app in Hs1 as [_ ?].
Qed.

(** ** The rewrite *)

Section set_of.
Context (malloc_ok realloc_ok : Z -> bool) (junk : nat -> Z).

Lemma add_children_ok h id c els :
  ready h id c -> wf_buffer (base h) -> room realloc_ok (base h) (len (concat els)) ->
  exists h', add_children realloc_ok junk id els h = (Some tt, h') /\
             appended realloc_ok h h' (concat els) /\ objs h' = objs h.
Proof.
  revert h. induction els as [|el els IH]; intros h Hrd Hwf Hr; cbn [add_children concat].
  { exists h. split; [done|]. by split; [apply appended_refl|]. }
  cbn [concat] in Hr. rewrite len_app in Hr.
  pose proof (len_nonneg el). pose proof (len_nonneg (concat els)).
  destruct (add_bytes_ok realloc_ok junk h id c el Hrd Hwf) as (h1 & E1 & A1 & O1).
  { eapply room_weaken; [|exact Hr]. lia. }
  rewrite (bind_some _ _ _ _ _ E1).
  destruct (IH h1) as (h2 & E2 & A2 & O2).
  - by eapply ready_appended.
  - apply A1.
  - by apply (app_room _ _ _ _ A1).
  - exists h2. split; [done|]. split; [exact (appended_trans _ _ _ _ _ _ A1 A2)|congruence].
Qed.

Lemma concat_perm_len {A} (l k : list (list A)) : l ≡ₚ k -> len (concat l) = len (concat k).
Proof.
  induction 1 as [|x l k _ IH|x y l|l k m _ IH1 _ IH2]; cbn [concat]; rewrite ?len_app; lia.
Qed.

Lemma CBB_data_content h id c :
  ready h id c -> wf_buffer (base h) -> 0 <= offset c -> 0 <= pending_len_len c ->
  offset c + pending_len_len c <= blen (base h) ->
  CBB_data id h = (Some (drop (Z.to_nat (offset c + pending_len_len c)) (content h)), h).
Proof.
  intros Hrd Hwf H1 H2 H3. unfold CBB_data, bind, get_obj, base_of, get_base, ret.
  rewrite (ready_obj _ _ _ Hrd), (ready_base _ _ _ Hrd), (ready_live _ _ _ Hrd). do 2 f_equal. unfold content.
  rewrite take_drop_commute. f_equal; f_equal; lia.
Qed.

(** The elements that follow the builder's prefix end up in the order of their encodings. *)
Lemma flush_set_of_ok h id c els :
  ready h id c -> wf_buffer (base h) -> 0 <= offset c -> 0 <= pending_len_len c ->
  offset c + pending_len_len c <= blen (base h) ->
  drop (Z.to_nat (offset c + pending_len_len c)) (content h) = concat els ->
  Forall element_bytes els -> len els <= SIZE_MAX / sizeof_CBS ->
  (forall n, malloc_ok n = true) ->
  exists h', CBB_flush_asn1_set_of malloc_ok realloc_ok junk id h = (Some tt, h') /\
    content h' = take (Z.to_nat (offset c + pending_len_len c)) (content h)
                 ++ concat (merge_sort set_of_le els) /\
    objs h' = objs h /\ wf_buffer (base h') /\ error (base h') = false.
Proof.
  intros Hrd Hwf H1 H2 H3 Hd Hels Hn Hm. set (p := offset c + pending_len_len c) in *.
  pose proof (content_len h Hwf) as Hl. destruct Hrd as [Ho Hb Hc He Hlv] eqn:Erd. clear Erd.
  pose proof Hwf as [W1 W2 W3 _].
  assert (Hsz : len els <= len (concat els)).
  { clear -Hels. induction Hels as [|el l Hel _ IH]; cbn [concat]; [done|].
    apply element_nonempty in Hel. rewrite len_cons, len_app. lia. }
  assert (Hcl : len (concat els) = blen (base h) - p) by (rewrite <- Hd, len_drop; lia).
  unfold CBB_flush_asn1_set_of.
  rewrite (bind_some _ _ _ _ _ (flush_ready realloc_ok junk h id c Hrd)).
  rewrite (bind_some _ _ _ _ _ (CBB_data_content h id c Hrd Hwf H1 H2 H3)).
  fold p. rewrite Hd. unfold bind at 1, lift at 1.
  rewrite (count_elements_concat els _ 0 Hels) by lia. rewrite Z.add_0_l.
  destruct (Z.ltb_spec (len els) 2) as [Hsmall|Hbig].
  { exists h. split; [done|]. split_and!; try done.
    destruct els as [|e1 [|e2 els]]; [..|rewrite !len_cons in Hsmall; pose proof (len_nonneg els); lia];
      rewrite <- (take_drop (Z.to_nat p) (content h)) at 1; by rewrite Hd. }
  unfold bind at 1, check at 1.
  destruct (Z.ltb_spec (SIZE_MAX / sizeof_CBS) (len els)); [lia|].
  cbn [negb]. unfold ret at 1. unfold bind at 1, check at 1. rewrite !Hm. cbn [andb]. unfold ret at 1.
  unfold bind at 1, lift at 1. rewrite len_to_nat, get_children_concat by done.
  unfold bind at 1, get_obj at 1. rewrite Ho. unfold bind at 1, get_base at 1. rewrite Hlv.
  unfold bind at 1, put_base at 1. fold p.
  pose proof (merge_sort_Permutation set_of_le els) as Hperm.
  pose proof (concat_perm_len _ _ Hperm) as Hpl.
  set (h1 := set_buf h (with_len (base h) p)).
  assert (Hc1 : content h1 = take (Z.to_nat p) (content h)).
  { unfold content, h1. cbn. rewrite take_take. f_equal. lia. }
  destruct (add_children_ok h1 id c (merge_sort set_of_le els)) as (h2 & E2 & A2 & O2).
  - by split.
  - split; cbn; lia || done.
  - rewrite Hpl, Hcl. unfold room, h1. cbn. lia.
  - exists h2. split; [done|]. destruct A2. split_and!; try done.
    + by rewrite app_content, Hc1.
    + by rewrite app_error.
Qed.
End set_of.
