(* ===== verification/Oid.v ===== *)
(** Object identifiers: [CBB_add_asn1_oid_from_text] of crypto/bytestring/cbb.c and
    [CBS_asn1_oid_to_text] of crypto/bytestring/cbs.c, with the reference dotted-decimal and
    base-128 forms they convert between.  Characters are their byte values. *)
From stdpp Require Import gmap.
From S2P Require Import Prelude Der Cbs CbsLemmas CbsAsn1 Cbb CbbLemmas CbbOps.

Definition chr_dot : Z := 46.
Definition chr_0 : Z := 48.
Definition chr_9 : Z := 57.

(** The loop of [parse_dotted_decimal], then [return seen_digit]. *)
Fixpoint parse_dotted_loop (out : Z) (seen_digit : bool) (cbs : CBS) : option Z * CBS :=
  match cbs with
  | [] => (if seen_digit then Some out else None, [])
  | u :: cbs =>
      if (u =? chr_dot) && (0 <? CBS_len cbs) then (if seen_digit then Some out else None, cbs)
      else if (u <? chr_0) || (chr_9 <? u) || (seen_digit && (out =? 0))
              || (UINT64_MAX / 10 <? out) || (UINT64_MAX - (u - chr_0) <? u64 (out * 10))
      then (None, cbs)
      else parse_dotted_loop (u64 (out * 10 + (u - chr_0))) true cbs
  end.

Definition parse_dotted_decimal : M CBS Z := parse_dotted_loop 0 false.

(** [%PRIu64]: a 64-bit value has at most twenty digits. *)
Fixpoint decimal_digits (fuel : nat) (v : Z) : list Z :=
  match fuel with
  | O => []
  | S fuel => if v <? 10 then [chr_0 + v] else decimal_digits fuel (v / 10) ++ [chr_0 + v mod 10]
  end.
Definition decimal (v : Z) : list Z := decimal_digits 20 v.
#[global] Arguments decimal : simpl never.

Section oid.
Context (malloc_ok realloc_ok : Z -> bool) (junk : nat -> Z).

(** [while (CBS_len(&cbs) > 0)]: each round reads a byte at least. *)
Fixpoint oid_components_loop (fuel : nat) (cbb : nat) (cbs : CBS) : M heap unit :=
  if 0 <? CBS_len cbs then
    match fuel with
    | O => fail
    | S fuel =>
        match parse_dotted_decimal cbs with
        | (Some a, cbs) =>
            add_base128_integer realloc_ok junk cbb a ;;; oid_components_loop fuel cbb cbs
        | (None, _) => fail
        end
    end
  else ret tt.

Definition CBB_add_asn1_oid_from_text (cbb : nat) (text : list Z) : M heap unit :=
  CBB_flush realloc_ok junk cbb ;;;
  match parse_dotted_decimal (CBS_init text) with
  | (None, _) => fail
  | (Some a, cbs) =>
      match parse_dotted_decimal cbs with
      | (None, _) => fail
      | (Some b, cbs) =>
          check (negb ((2 <? a) || ((a <? 2) && (39 <? b)) || (UINT64_MAX - 80 <? b))) ;;;
          add_base128_integer realloc_ok junk cbb (u64 (40 * a + b)) ;;;
          oid_components_loop (length cbs) cbb cbs
      end
  end.

Definition add_decimal (out : nat) (v : Z) : M heap unit :=
  CBB_add_bytes realloc_ok junk out (decimal v).

(** [while (CBS_len(&copy) != 0)] *)
Fixpoint oid_text_loop (fuel : nat) (cbb : nat) (copy : CBS) : M heap unit :=
  if CBS_len copy =? 0 then ret tt
  else
    match fuel with
    | O => fail
    | S fuel =>
        match parse_base128_integer copy with
        | (Some v, copy) =>
            CBB_add_u8 realloc_ok junk cbb chr_dot ;;;
            add_decimal cbb v ;;;
            oid_text_loop fuel cbb copy
        | (None, _) => fail
        end
    end.

(** The steps up to [goto err] on the local builder. *)
Definition oid_to_text (cbb : nat) (cbs : CBS) : M heap (list Z) :=
  match parse_base128_integer cbs with
  | (None, _) => fail
  | (Some v, copy) =>
      (if 80 <=? v then
         CBB_add_bytes realloc_ok junk cbb [50; chr_dot] ;;; add_decimal cbb (v - 80)
       else
         add_decimal cbb (v / 40) ;;;
         CBB_add_u8 realloc_ok junk cbb chr_dot ;;;
         add_decimal cbb (v mod 40)) ;;;
      oid_text_loop (length copy) cbb copy ;;;
      CBB_add_u8 realloc_ok junk cbb 0 ;;;
      CBB_finish realloc_ok junk cbb true
  end.

(** The NUL-terminated text. *)
Definition CBS_asn1_oid_to_text (cbs : CBS) : option (list Z) :=
  match CBB_init malloc_ok junk 32 with
  | None => None
  | Some h => fst (oid_to_text root cbs h)
  end.
End oid.

(** ** Reference forms *)

(** The components of an object identifier the 64-bit code can hold. *)
Record oid := Oid { arc1 : Z; arc2 : Z; arcs : list Z }.

Definition valid_oid (o : oid) : Prop :=
  0 <= arc1 o <= 2 /\ 0 <= arc2 o <= UINT64_MAX - 80 /\ (arc1 o < 2 -> arc2 o <= 39) /\
  Forall (fun a => 0 <= a < 2 ^ 64) (arcs o).

Definition oid_contents (o : oid) : list Z :=
  base128 (40 * arc1 o + arc2 o) ++ concat (map base128 (arcs o)).

Definition dotted (o : oid) : list Z :=
  decimal (arc1 o) ++ chr_dot :: decimal (arc2 o)
  ++ concat (map (fun a => chr_dot :: decimal a) (arcs o)).

(** ** Decimal numbers *)

Definition digit (d : Z) : Prop := chr_0 <= d <= chr_9.
Definition dec_value (out : Z) (ds : list Z) : Z :=
  fold_left (fun o d => o * 10 + (d - chr_0)) ds out.

(** No leading zero. *)
Definition canonical (ds : list Z) : Prop :=
  Forall digit ds /\ ds <> [] /\ (head ds = Some chr_0 -> ds = [chr_0]).

Lemma dec_value_mono out ds : 0 <= out -> Forall digit ds -> out <= dec_value out ds.
Proof.
  revert out. induction ds as [|d ds IH]; intros out Ho Hd; [done|].
  apply Forall_cons in Hd as [Hd Hds]. unfold digit, chr_0, chr_9 in Hd. cbn.
  change (out <= dec_value (out * 10 + (d - chr_0)) ds).
  etrans; [|apply IH; [unfold chr_0; lia|done]]. unfold chr_0; lia.
Qed.

Lemma decimal_digits_canonical fuel v :
  0 <= v -> v < 10 ^ Z.of_nat fuel -> (1 <= fuel)%nat ->
  canonical (decimal_digits fuel v) /\ dec_value 0 (decimal_digits fuel v) = v /\
  (0 < v -> head (decimal_digits fuel v) <> Some chr_0).
Proof.
  revert v. induction fuel as [|f IH]; intros v Hv Hlt Hf; [lia|]. cbn [decimal_digits].
  destruct (Z.ltb_spec v 10) as [Hs|Hb].
  - unfold canonical, digit, chr_0, chr_9. split_and!; try done.
    + repeat constructor; lia.
    + intros [= H]. do 2 f_equal. lia.
    + unfold dec_value. cbn. unfold chr_0. lia.
    + intros ? [= ?]. lia.
  - rewrite Nat2Z.inj_succ, Z.pow_succ_r in Hlt by lia.
    assert (Hf1 : (1 <= f)%nat) by (destruct f; [cbn in Hlt; lia|lia]).
    destruct (IH (v / 10)) as ((Hd & Hne & Hz) & Hval & Hh);
      [apply Z.div_pos; lia|apply Z.div_lt_upper_bound; lia|done|].
    assert (0 < v / 10) as Hpos by (apply Z.div_str_pos; lia). specialize (Hh Hpos).
    pose proof (Z.mod_pos_bound v 10 eq_refl).
    destruct (decimal_digits f (v / 10)) as [|d ds]; [done|].
    split_and!.
    + split_and!; [|done|by intros].
      apply Forall_app. split; [done|]. repeat constructor; unfold chr_0, chr_9; lia.
    + unfold dec_value in *. rewrite fold_left_app, Hval. cbn. unfold chr_0.
      pose proof (Z.div_mod v 10). lia.
    + done.
Qed.

Lemma decimal_canonical v : 0 <= v < 2 ^ 64 -> canonical (decimal v) /\ dec_value 0 (decimal v) = v.
Proof.
  intros. destruct (decimal_digits_canonical 20 v) as (? & ? & _); [lia|cbn; lia|lia|done].
Qed.

Lemma canonical_decimal fuel ds :
  canonical ds -> (length ds <= fuel)%nat -> decimal_digits fuel (dec_value 0 ds) = ds.
Proof.
  revert fuel. induction ds as [|d ds IH] using rev_ind; intros fuel (Hd & Hne & Hz) Hf; [done|].
  apply Forall_app in Hd as [Hd Hdd]. apply Forall_cons in Hdd as [Hdd _].
  rewrite length_app in Hf. cbn in Hf. destruct fuel as [|f]; [lia|].
  unfold dec_value. rewrite fold_left_app. fold (dec_value 0 ds). cbn [fold_left decimal_digits].
  unfold digit, chr_0, chr_9 in *.
  destruct ds as [|e ds].
  { change (dec_value 0 []) with 0. destruct (Z.ltb_spec (0 * 10 + (d - 48)) 10); [|lia].
    cbn [app]. f_equal. lia. }
  assert (Hc : canonical (e :: ds)).
  { split_and!; [done..|]. cbn in *. intros [= ->]. specialize (Hz eq_refl).
    by destruct ds. }
  assert (Hpos : 0 < dec_value 0 (e :: ds)).
  { apply Forall_cons in Hd as [He Hds]. unfold digit, chr_0, chr_9 in He.
    cbn. pose proof (dec_value_mono (e - 48) ds ltac:(lia) Hds).
    assert (e <> 48). { intros ->. specialize (Hz eq_refl). by destruct ds. }
    change (0 < dec_value (e - 48) ds). lia. }
  destruct (Z.ltb_spec (dec_value 0 (e :: ds) * 10 + (d - 48)) 10); [lia|].
  rewrite Z.div_add_l, Z.div_small, Z.add_0_r by lia.
  rewrite IH by (done || cbn in *; lia). f_equal.
  rewrite <- (Z.mod_unique _ 10 (dec_value 0 (e :: ds)) (d - 48)) by lia. f_equal. lia.
Qed.

Lemma dec_value_lower ds out : 0 <= out -> Forall digit ds -> out * 10 ^ len ds <= dec_value out ds.
Proof.
  revert out. induction ds as [|d ds IH]; intros out Ho Hd; [rewrite len_nil; cbn; lia|].
  apply Forall_cons in Hd as [Hd Hds]. unfold digit, chr_0, chr_9 in Hd.
  change (dec_value out (d :: ds)) with (dec_value (out * 10 + (d - 48)) ds).
  etrans; [|apply IH; [lia|done]]. rewrite len_cons, Z.pow_add_r by (try apply len_nonneg; lia).
  pose proof (Z.pow_nonneg 10 (len ds)). nia.
Qed.

Lemma canonical_long ds : canonical ds -> (20 < length ds)%nat -> 2 ^ 64 <= dec_value 0 ds.
Proof.
  intros (Hd & _ & Hz) Hl. destruct ds as [|d ds]; [cbn in Hl; lia|].
  apply Forall_cons in Hd as [Hd Hds]. unfold digit, chr_0, chr_9 in Hd.
  assert (d <> 48). { intros ->. specialize (Hz eq_refl). destruct ds; [cbn in Hl; lia|done]. }
  change (dec_value 0 (d :: ds)) with (dec_value (d - 48) ds).
  pose proof (dec_value_lower ds (d - 48) ltac:(lia) Hds).
  pose proof (Z.pow_le_mono_r 10 20 (len ds) ltac:(lia)) as Hp.
  unfold len in *. cbn in Hl. nia.
Qed.

(** ** Parsing *)

(** The loop reads digits, unless a leading zero is followed by another digit. *)
Lemma parse_digits ds tail out seen :
  Forall digit ds -> 0 <= out -> (seen = true -> ds <> [] -> out <> 0) ->
  (seen = false -> out = 0 /\ (head ds = Some chr_0 -> ds = [chr_0])) ->
  dec_value out ds < 2 ^ 64 ->
  parse_dotted_loop out seen (ds ++ tail) =
  parse_dotted_loop (dec_value out ds) (seen || negb (bool_decide (ds = []))) tail.
Proof.
  revert out seen. induction ds as [|d ds IH]; intros out seen Hd Ho Hs Hn Hv; cbn [app].
  { by rewrite orb_false_r. }
  apply Forall_cons in Hd as [Hd Hds]. unfold digit, chr_0, chr_9 in Hd.
  assert (Hstep : out * 10 + (d - chr_0) < 2 ^ 64).
  { eapply Z.le_lt_trans; [|exact Hv]. apply (dec_value_mono (out * 10 + (d - chr_0)));
      [unfold chr_0; lia|done]. }
  cbn [parse_dotted_loop]. unfold chr_dot, chr_0, chr_9, UINT64_MAX in *.
  destruct (Z.eqb_spec d 46); [lia|]. cbn [andb].
  destruct (Z.ltb_spec d 48); [lia|]. destruct (Z.ltb_spec 57 d); [lia|]. cbn [orb].
  rewrite (u64_id (out * 10)), (u64_id (out * 10 + _)) by lia.
  destruct (Z.ltb_spec ((2 ^ 64 - 1) / 10) out); [Z.div_mod_to_equations; lia|].
  destruct (Z.ltb_spec (2 ^ 64 - 1 - (d - 48)) (out * 10)); [lia|].
  assert (seen && (out =? 0) = false) as ->.
  { destruct seen; [|done]. cbn. apply Z.eqb_neq. by apply Hs. }
  cbn [orb]. rewrite IH; [by rewrite orb_true_r| |lia| | |]; try done.
  intros _ Hne Hz. assert (out = 0 /\ d = 48) as [-> ->] by lia.
  destruct seen; [by apply Hs|]. destruct (Hn eq_refl) as [_ Hc].
  cbn in Hc. specialize (Hc eq_refl). by destruct ds.
Qed.

(** What ends a component, and what is left of the text. *)
Inductive component_end : list Z -> list Z -> Prop :=
  | end_of_text : component_end [] []
  | end_dot c rest : component_end (chr_dot :: c :: rest) (c :: rest).

Lemma parse_component v tail rest :
  0 <= v < 2 ^ 64 -> component_end tail rest ->
  parse_dotted_decimal (decimal v ++ tail) = (Some v, rest).
Proof.
  intros Hv Ht. destruct (decimal_canonical v Hv) as [(Hd & Hne & Hz) Hval].
  unfold parse_dotted_decimal. rewrite parse_digits by (done || lia).
 
  rewrite Hval, bool_decide_eq_false_2 by done. cbn [negb orb].
  destruct Ht as [|c rest]; [done|]. cbn [parse_dotted_loop].
  unfold CBS_len. rewrite len_cons. pose proof (len_nonneg rest).
  destruct (Z.ltb_spec 0 (1 + len rest)); [|lia]. done.
Qed.

Lemma parse_loop_inv s out seen v rest :
  0 <= out < 2 ^ 64 -> parse_dotted_loop out seen s = (Some v, rest) ->
  exists ds tail, s = ds ++ tail /\ component_end tail rest /\ Forall digit ds /\
    v = dec_value out ds /\ v < 2 ^ 64 /\ (seen = true \/ ds <> []) /\
    (seen = true -> out = 0 -> ds = []) /\ (head ds = Some chr_0 -> out = 0 -> ds = [chr_0]).
Proof.
  revert out seen. induction s as [|u s IH]; intros out seen Ho; cbn [parse_dotted_loop].
  { destruct seen; [|done]. intros [= <- <-]. exists [], []. split_and!; try done; try lia; auto.
    - constructor. }
  unfold chr_dot, chr_0, chr_9, UINT64_MAX, CBS_len.
  destruct (_ && _) eqn:Edot.
  { destruct seen; [|done]. intros [= <- <-]. bool_to_prop. subst u.
    destruct (len_pos_cons s) as (c & k & ->); [done|].
    exists [], (46 :: c :: k). split_and!; try done; try lia; auto. constructor. }
  destruct (_ || _) eqn:Ebad; [done|]. bool_to_prop.
  intros Hp. assert (0 <= u - 48 <= 9) by lia. clear Edot.
  rewrite (u64_id (out * 10)) in * by (Z.div_mod_to_equations; lia).
  rewrite u64_id in Hp by lia.
  apply IH in Hp as (ds & tail & -> & Ht & Hds & -> & Hv & _ & Hz & Hz0); [|lia].
  assert (Hnz : seen = true -> out <> 0).
  { intros ->. match goal with H : (_ && _)%bool = false |- _ => cbn in H; lia end. }
  exists (u :: ds), tail. split_and!; try done; auto.
  - constructor; [unfold digit, chr_0, chr_9; lia|done].
  - intros -> Hz'. by destruct (Hnz eq_refl).
  - intros [= ->] ->. by rewrite (Hz eq_refl eq_refl).
Qed.

Lemma parse_component_inv s v rest :
  parse_dotted_decimal s = (Some v, rest) ->
  exists tail, s = decimal v ++ tail /\ component_end tail rest /\ 0 <= v < 2 ^ 64.
Proof.
  intros H. apply parse_loop_inv in H as (ds & tail & -> & Ht & Hd & -> & Hv & Hne & _ & Hz); [|lia].
  destruct Hne as [|Hne]; [done|]. pose proof (dec_value_mono 0 ds ltac:(lia) Hd).
  assert (Hc : canonical ds) by (split_and!; auto).
  exists tail. split_and!; try done. f_equal.
  destruct (decide (length ds <= 20)%nat); [symmetry; by apply canonical_decimal|].
  exfalso. apply (canonical_long ds) in Hc; lia.
Qed.

(** ** From text *)

Definition dot_components (l : list Z) : list Z := concat (map (fun a => chr_dot :: decimal a) l).
Definition u64_list (l : list Z) : Prop := Forall (fun a => 0 <= a < 2 ^ 64) l.

(** The text of the components once the dot before them is consumed. *)
Definition component_text (l : list Z) : list Z :=
  match l with [] => [] | a :: l => decimal a ++ dot_components l end.

Lemma decimal_cons v : 0 <= v < 2 ^ 64 -> exists c r, decimal v = c :: r.
Proof. intros Hv. destruct (decimal_canonical v Hv) as [(_ & Hne & _) _]. destruct (decimal v); eauto; done. Qed.

Lemma dot_components_end l : u64_list l -> component_end (dot_components l) (component_text l).
Proof.
  destruct l as [|a l]; [constructor|]. intros [Ha _]%Forall_cons. cbn.
  destruct (decimal_cons a Ha) as (c & r & ->). constructor.
Qed.

Lemma component_text_len l : u64_list l -> l <> [] -> 0 < len (component_text l).
Proof.
  destruct l as [|a l]; [done|]. intros [Ha _]%Forall_cons _. cbn.
  destruct (decimal_cons a Ha) as (c & r & ->). cbn [app]. rewrite len_cons.
  pose proof (len_nonneg (r ++ dot_components l)). lia.
Qed.

Lemma component_end_text tail rest l : component_end tail rest -> u64_list l ->
  rest = component_text l -> tail = dot_components l.
Proof.
  intros [|c r] Hl Heq.
  - destruct l as [|a l]; [done|]. pose proof (component_text_len (a :: l) Hl ltac:(done)) as H.
    by rewrite <- Heq in H.
  - destruct l as [|a l]; [done|]. cbn in *. by rewrite Heq.
Qed.

Lemma component_end_len tail rest : component_end tail rest -> (length rest <= length tail)%nat.
Proof. intros []; cbn; lia. Qed.

Section oid.
Context (malloc_ok realloc_ok : Z -> bool) (junk : nat -> Z).

Lemma base128_fills id v :
  0 <= v < 2 ^ 64 -> fills realloc_ok id (add_base128_integer realloc_ok junk id v) (base128 v) tt.
Proof.
  intros Hv h c Hrd Hwf Hr.
  destruct (add_base128_ok realloc_ok junk h id c v) as (h' & ? & ? & ?); eauto.
Qed.

Lemma oid_components_fills id fuel l :
  u64_list l -> (length (component_text l) <= fuel)%nat ->
  fills realloc_ok id (oid_components_loop realloc_ok junk fuel id (component_text l))
    (concat (map base128 l)) tt.
Proof.
  revert l. induction fuel as [|f IH]; intros l Hl Hf.
  - destruct l as [|a l]; [apply fills_ret|].
    pose proof (component_text_len (a :: l) Hl ltac:(done)). unfold len in *. lia.
  - destruct l as [|a l]; [apply fills_ret|].
    pose proof (component_text_len (a :: l) Hl ltac:(done)) as Hp.
    cbn [oid_components_loop]. unfold CBS_len. destruct (Z.ltb_spec 0 (len (component_text (a :: l)))); [|lia].
    apply Forall_cons in Hl as [Ha Hl]. cbn [component_text] in *.
    rewrite (parse_component a _ (component_text l)) by (done || by apply dot_components_end).
    cbn [map concat]. eapply fills_bind; [by apply base128_fills|]. apply IH; [done|].
    pose proof (component_end_len _ _ (dot_components_end l Hl)).
    destruct (decimal_cons a Ha) as (ch & r & Ed). rewrite Ed in Hf.
    cbn in Hf. rewrite length_app in Hf. lia.
Qed.

Lemma oid_from_text_fills id o :
  valid_oid o ->
  fills realloc_ok id (CBB_add_asn1_oid_from_text realloc_ok junk id (dotted o)) (oid_contents o) tt.
Proof.
  intros (Ha & Hb & Hab & Hl) h c Hrd Hwf Hr. unfold CBB_add_asn1_oid_from_text, CBS_init.
  rewrite (bind_some _ _ _ _ _ (flush_ready realloc_ok junk h id c Hrd)).
  unfold UINT64_MAX in *. unfold dotted.
  destruct (decimal_cons (arc2 o)) as (ch & r & Ed); [lia|].
  rewrite (parse_component (arc1 o) _ (decimal (arc2 o) ++ dot_components (arcs o)));
    [|lia|rewrite Ed; constructor].
  rewrite (parse_component (arc2 o) _ (component_text (arcs o)));
    [|lia|by apply dot_components_end].
  assert ((2 <? arc1 o) || ((arc1 o <? 2) && (39 <? arc2 o)) || (2 ^ 64 - 1 - 80 <? arc2 o) = false) as ->.
  { destruct (Z.ltb_spec 2 (arc1 o)), (Z.ltb_spec (arc1 o) 2), (Z.ltb_spec 39 (arc2 o)),
      (Z.ltb_spec (2 ^ 64 - 1 - 80) (arc2 o)); try done; lia. }
  rewrite (bind_some _ _ _ _ h) by done. rewrite u64_id by lia.
  eapply fills_bind; try done.
  - apply base128_fills. lia.
  - by apply oid_components_fills.
Qed.

Lemma oid_components_inv id fuel s h h' :
  oid_components_loop realloc_ok junk fuel id s h = (Some tt, h') ->
  exists l, u64_list l /\ s = component_text l.
Proof.
  revert s h. induction fuel as [|f IH]; intros s h; cbn [oid_components_loop]; unfold CBS_len;
    (destruct (Z.ltb_spec 0 (len s)) as [Hp|Hz];
      [|intros _; exists []; split; [constructor|]; apply len_zero_nil; pose proof (len_nonneg s); lia]).
  { done. }
  destruct (parse_dotted_decimal s) as [[a|] rest] eqn:E; [|done].
  apply parse_component_inv in E as (tail & -> & Ht & Ha).
  intros H. apply bind_inv in H as ([] & h1 & _ & H). apply IH in H as (l & Hl & ->).
  exists (a :: l). split; [by constructor|]. cbn. f_equal.
  by eapply component_end_text.
Qed.

Lemma oid_from_text_inv id text h h' :
  CBB_add_asn1_oid_from_text realloc_ok junk id text h = (Some tt, h') ->
  exists o, valid_oid o /\ text = dotted o.
Proof.
  intros H. apply bind_inv in H as ([] & h1 & _ & H). unfold CBS_init in H.
  destruct (parse_dotted_decimal text) as [[a|] r1] eqn:E1; [|done].
  destruct (parse_dotted_decimal r1) as [[b|] r2] eqn:E2; [|done].
  apply parse_component_inv in E1 as (t1 & -> & Ht1 & Ha).
  apply parse_component_inv in E2 as (t2 & -> & Ht2 & Hb).
  apply bind_inv in H as ([] & h2 & Hc & H). apply check_inv in Hc as [Hc ->].
  apply bind_inv in H as ([] & h3 & _ & H). apply oid_components_inv in H as (l & Hl & ->).
  bool_to_prop. unfold UINT64_MAX in *.
  assert (a < 2 -> b <= 39).
  { intros. destruct (Z.ltb_spec a 2); [|lia]. destruct (Z.ltb_spec 39 b); [done|lia]. }
  exists (Oid a b l). split; [unfold valid_oid, UINT64_MAX; cbn; split_and!; try lia; done|].
  unfold dotted. cbn [arc1 arc2 arcs]. f_equal.
  pose proof (component_end_text t2 _ l Ht2 Hl eq_refl) as ->.
  destruct (decimal_cons b Hb) as (ch & r & Ed). rewrite Ed in *. by inversion Ht1.
Qed.

(** ** To text *)

Lemma oid_contents_arcs_len l : u64_list l -> (length l <= length (concat (map base128 l)))%nat.
Proof.
  induction l as [|a l IH]; [done|]. intros [Ha Hl]%Forall_cons. cbn.
  rewrite length_app. specialize (IH Hl).
  assert (Hd : length (base128 a) = base128_len a) by apply base128_digits_length.
  unfold base128_len in Hd. lia.
Qed.

Lemma base128_concat_bytes l : Forall byte (concat (map base128 l)).
Proof. induction l; cbn; [constructor|]. apply bytes_app. auto using base128_byte. Qed.

Lemma oid_text_loop_fills id fuel l :
  u64_list l -> (length l <= fuel)%nat ->
  fills realloc_ok id (oid_text_loop realloc_ok junk fuel id (concat (map base128 l)))
    (dot_components l) tt.
Proof.
  revert l. induction fuel as [|f IH]; intros l Hl Hf; (destruct l as [|a l]; [apply fills_ret|]).
  { cbn in Hf. lia. }
  pose proof (oid_contents_arcs_len (a :: l) Hl) as Hlen.
  apply Forall_cons in Hl as [Ha Hl]. cbn in Hf.
  cbn [oid_text_loop]. unfold CBS_len. cbn [length] in Hlen.
  destruct (Z.eqb_spec (len (concat (map base128 (a :: l)))) 0); [unfold len in *; lia|].
  cbn [map concat] in *.
  assert (Hp : parse_base128_integer (base128 a ++ concat (map base128 l))
               = (Some a, concat (map base128 l))).
  { apply base128_exact_lemma; [|done].
    apply bytes_app. auto using base128_byte, base128_concat_bytes. }
  rewrite Hp. unfold dot_components. cbn [map concat app].
  change (chr_dot :: ?x) with ([chr_dot] ++ x).
  eapply fills_bind; [apply fills_u8; by vm_compute|].
  eapply fills_bind; [apply fills_bytes|]. apply IH; [done|lia].
Qed.

(** The steps of [oid_to_text] before [CBB_finish]. *)
Lemma oid_to_text_steps cbb cbs h :
  oid_to_text realloc_ok junk cbb cbs h =
  ((match parse_base128_integer cbs with
    | (None, _) => fail
    | (Some v, copy) =>
        (if 80 <=? v then
           CBB_add_bytes realloc_ok junk cbb [50; chr_dot] ;;; add_decimal realloc_ok junk cbb (v - 80)
         else
           add_decimal realloc_ok junk cbb (v / 40) ;;;
           CBB_add_u8 realloc_ok junk cbb chr_dot ;;;
           add_decimal realloc_ok junk cbb (v mod 40)) ;;;
        oid_text_loop realloc_ok junk (length copy) cbb copy ;;;
        CBB_add_u8 realloc_ok junk cbb 0
    end) ;;; CBB_finish realloc_ok junk cbb true) h.
Proof.
  unfold oid_to_text. destruct (parse_base128_integer cbs) as [[v|] copy]; [|done].
  unfold bind. repeat (case_match; try done); congruence.
Qed.

Lemma oid_first_arcs o :
  valid_oid o ->
  fills realloc_ok root
    (let v := 40 * arc1 o + arc2 o in
     if 80 <=? v then
       CBB_add_bytes realloc_ok junk root [50; chr_dot] ;;; add_decimal realloc_ok junk root (v - 80)
     else
       add_decimal realloc_ok junk root (v / 40) ;;;
       CBB_add_u8 realloc_ok junk root chr_dot ;;;
       add_decimal realloc_ok junk root (v mod 40))
    (decimal (arc1 o) ++ [chr_dot] ++ decimal (arc2 o)) tt.
Proof.
  intros (Ha & Hb & Hab & _). cbv zeta. unfold UINT64_MAX in Hb.
  destruct (Z.leb_spec 80 (40 * arc1 o + arc2 o)).
  - assert (Ha2 : arc1 o = 2) by lia. rewrite Ha2, app_assoc.
    replace (40 * 2 + arc2 o - 80) with (arc2 o) by lia.
    eapply fills_bind; apply fills_bytes.
  - assert (arc1 o < 2) by lia. specialize (Hab ltac:(lia)).
    rewrite <- (Z.div_unique _ 40 (arc1 o) (arc2 o)) by lia.
    rewrite <- (Z.mod_unique _ 40 (arc1 o) (arc2 o)) by lia.
    eapply fills_bind; [apply fills_bytes|].
    eapply fills_bind; [apply fills_u8; by vm_compute|apply fills_bytes].
Qed.

Lemma oid_to_text_complete o :
  valid_oid o -> len (dotted o) < 2 ^ 64 - 1 ->
  malloc_ok sizeof_cbb_buffer_st = true -> malloc_ok 32 = true -> (forall n, realloc_ok n = true) ->
  CBS_asn1_oid_to_text malloc_ok realloc_ok junk (oid_contents o) = Some (dotted o ++ [0]).
Proof.
  intros Ho Hlen Hm1 Hm2 Hall. unfold CBS_asn1_oid_to_text.
  destruct (CBB_init malloc_ok junk 32) as [h|] eqn:Hi.
  2: { unfold CBB_init, cbb_init in Hi. rewrite Hm1, Hm2 in Hi. done. }
  rewrite oid_to_text_steps.
  assert (Hp : parse_base128_integer (oid_contents o)
               = (Some (40 * arc1 o + arc2 o), concat (map base128 (arcs o)))).
  { destruct Ho as (? & ? & ? & ?). unfold UINT64_MAX in *. apply base128_exact_lemma; [|split; [lia|done]].
    apply bytes_app. auto using base128_byte, base128_concat_bytes. }
  rewrite Hp. eapply (run_root _ _ malloc_ok 32); [lia|done|done|rewrite len_app; cbn; unfold len in *; cbn; lia|].
  assert (Hd : dotted o ++ [0] =
    (decimal (arc1 o) ++ [chr_dot] ++ decimal (arc2 o)) ++ dot_components (arcs o) ++ [0]).
  { unfold dotted, dot_components. by repeat (rewrite <- !app_assoc; cbn [app]). }
  rewrite Hd. eapply fills_bind; [by apply oid_first_arcs|].
  destruct Ho as (_ & _ & _ & Hl).
  eapply fills_bind; [apply oid_text_loop_fills; [done|by apply oid_contents_arcs_len]|].
  apply fills_u8. by vm_compute.
Qed.

Lemma oid_text_loop_inv cbb fuel s h h' :
  Forall byte s -> oid_text_loop realloc_ok junk fuel cbb s h = (Some tt, h') ->
  exists l, u64_list l /\ s = concat (map base128 l).
Proof.
  revert s h. induction fuel as [|f IH]; intros s h Hs; cbn [oid_text_loop]; unfold CBS_len;
    (destruct (Z.eqb_spec (len s) 0) as [Hz|];
      [intros _; exists []; split; [constructor|by apply len_zero_nil]|]).
  { done. }
  destruct (parse_base128_integer s) as [[v|] copy] eqn:E; [|done].
  apply base128_exact_lemma in E as [Hv ->]; [|done]. apply bytes_app in Hs as [_ Hs].
  intros H. apply bind_inv in H as ([] & h1 & _ & H). apply bind_inv in H as ([] & h2 & _ & H).
  apply IH in H as (l & Hl & ->); [|done]. exists (v :: l). split; [by constructor|done].
Qed.

(** Only the contents of valid object identifiers have a text. *)
Lemma oid_to_text_valid cbs t :
  Forall byte cbs -> CBS_asn1_oid_to_text malloc_ok realloc_ok junk cbs = Some t ->
  exists o, valid_oid o /\ cbs = oid_contents o.
Proof.
  intros Hs. unfold CBS_asn1_oid_to_text. destruct (CBB_init _ _ _) as [h|]; [|done].
  unfold oid_to_text. destruct (parse_base128_integer cbs) as [[v|] copy] eqn:E; [|done].
  apply base128_exact_lemma in E as [Hv ->]; [|done]. apply bytes_app in Hs as [_ Hs].
  match goal with |- fst ?r = _ -> _ => destruct r as [[t'|] h'] eqn:H; [|done] end.
  intros _. apply bind_inv in H as ([] & h1 & _ & H). apply bind_inv in H as ([] & h2 & H & _).
  apply oid_text_loop_inv in H as (l & Hl & ->); [|done].
  destruct (Z.leb_spec 80 v).
  - exists (Oid 2 (v - 80) l). unfold valid_oid, oid_contents, UINT64_MAX. cbn.
    split; [split_and!; try lia; done|]. do 2 f_equal. lia.
  - pose proof (Z.div_mod v 40). pose proof (Z.mod_pos_bound v 40).
    exists (Oid (v / 40) (v mod 40) l). unfold valid_oid, oid_contents, UINT64_MAX. cbn [arc1 arc2 arcs].
    split; [split_and!; try (Z.div_mod_to_equations; lia); done|]. do 2 f_equal. lia.
Qed.
End oid.

(** ** Sizes *)

Lemma base128_len_u64 v : 0 <= v < 2 ^ 64 -> 1 <= len (base128 v) <= 10.
Proof.
  intros Hv. unfold base128, len. rewrite base128_digits_length.
  destruct (base128_len_bounds v) as [Hlo _]; [lia|].
  destruct Hlo as [->|[? Hlo]]; [lia|]. split; [lia|].
  destruct (decide (base128_len v <= 10)%nat); [lia|].
  pose proof (Z.pow_le_mono_r 128 10 (Z.of_nat (base128_len v - 1))). lia.
Qed.

Lemma decimal_len v : 0 <= v < 2 ^ 64 -> 1 <= len (decimal v) <= 20.
Proof.
  intros Hv. assert (H : forall n v, len (decimal_digits n v) <= Z.of_nat n).
  { clear. induction n as [|n IH]; intros v; cbn [decimal_digits]; [done|].
    destruct (v <? 10); rewrite ?len_app, len_cons, len_nil; [lia|]. specialize (IH (v / 10)). lia. }
  split; [|apply (H 20%nat)]. destruct (decimal_cons v Hv) as (c & r & ->).
  rewrite len_cons. pose proof (len_nonneg r). lia.
Qed.

Lemma arcs_len l : u64_list l ->
  len l <= len (concat (map base128 l)) <= 10 * len l /\
  len l <= len (dot_components l) <= 21 * len l.
Proof.
  induction l as [|a l IH]; [done|]. intros [Ha Hl]%Forall_cons. unfold dot_components in *.
  cbn [map concat]. rewrite !len_app, !len_cons.
  pose proof (base128_len_u64 a Ha). pose proof (decimal_len a Ha). destruct (IH Hl). lia.
Qed.

(** The text and the contents bound each other. *)
Lemma oid_len o : valid_oid o ->
  len (oid_contents o) <= 10 * len (dotted o) /\ len (dotted o) <= 21 * len (oid_contents o) + 41.
Proof.
  intros (Ha & Hb & _ & Hl). unfold UINT64_MAX in Hb. unfold oid_contents, dotted.
  fold (dot_components (arcs o)). rewrite !len_app, len_cons, len_app.
  pose proof (base128_len_u64 (40 * arc1 o + arc2 o)). pose proof (decimal_len (arc1 o)).
  pose proof (decimal_len (arc2 o)). destruct (arcs_len (arcs o) Hl). lia.
Qed.
