(* ===== verification/CbbSafe.v ===== *)
(** Memory safety of the builder: whatever operations are applied in whatever order, and whether
    they succeed or fail, the buffer keeps its shape and every store stays inside it; and memory that
    was freed is not used, by a client that keeps to what bytestring.h allows. *)
From stdpp Require Import gmap.
From S2P Require Import Prelude Cbs CbsLemmas Cbb CbbLemmas SetOf Oid.

(** An object's prefix lies inside an allocation of [n] bytes. *)
Definition wf_obj (n : Z) (c : CBB) : Prop :=
  0 <= offset c /\ 0 <= pending_len_len c /\ offset c + pending_len_len c <= n.

Record wf_heap (h : heap) : Prop := {
  wfh_base : wf_buffer (base h);
  wfh_objs : map_Forall (fun _ c => wf_obj (cap (base h)) c) (objs h);
}.

(** How the shared buffer may change: it never shrinks, a fixed one never grows, and an error is
    never cleared. *)
Record evolves (b b' : cbb_buffer_st) : Prop := {
  ev_cap : cap b <= cap b';
  ev_resize : can_resize b' = can_resize b;
  ev_fixed : can_resize b = false -> cap b' = cap b;
  ev_error : error b = true -> error b' = true;
}.

#[export] Instance evolves_preorder : PreOrder evolves.
Proof.
  split; [by split|]. intros b1 b2 b3 [] []. split.
  - lia.
  - congruence.
  - intros E. rewrite ev_fixed1, ev_fixed0; congruence.
  - auto.
Qed.

(** Running [m] from [h] is safe, and its result satisfies [Q]. *)
Definition safe {A} (h : heap) (m : M heap A) (Q : A -> heap -> Prop) : Prop :=
  wf_heap (snd (m h)) /\ evolves (base h) (base (snd (m h))) /\
  forall a, fst (m h) = Some a -> Q a (snd (m h)).

Definition any {A} (_ : A) (_ : heap) : Prop := True.

Section rules.
Context {A B : Type}.

Lemma safe_bind h (m : M heap A) (k : A -> M heap B) Q R :
  safe h m Q ->
  (forall a h', wf_heap h' -> evolves (base h) (base h') -> Q a h' -> safe h' (k a) R) ->
  safe h (bind m k) R.
Proof.
  unfold safe, bind. destruct (m h) as [[a|] h1]; cbn; intros (W & E & HQ) Hk.
  - destruct (Hk a h1 W E (HQ a eq_refl)) as (W2 & E2 & HR).
    split_and!; try done; by etrans.
  - by split_and!.
Qed.

Lemma safe_ret h (a : A) (Q : A -> heap -> Prop) : wf_heap h -> Q a h -> safe h (ret a) Q.
Proof. intros W HQ. split_and!; cbn; [done..|]. by intros ? [= <-]. Qed.

Lemma safe_fail h (Q : A -> heap -> Prop) : wf_heap h -> safe h fail Q.
Proof. intros W. by split_and!. Qed.

Lemma safe_lift h (o : option A) : wf_heap h -> safe h (lift o) any.
Proof. intros W. by split_and!. Qed.

Lemma safe_weaken h (m : M heap A) (Q R : A -> heap -> Prop) :
  safe h m Q -> (forall a h', Q a h' -> R a h') -> safe h m R.
Proof. intros (W & E & HQ) Hi. split_and!; auto. Qed.

Lemma wf_with_error h : wf_heap h -> wf_heap (set_buf h (with_error (base h))).
Proof. intros [[]]. by split. Qed.

Lemma safe_goto_err h (Q : A -> heap -> Prop) : wf_heap h -> safe h goto_err Q.
Proof. intros W. split_and!; cbn; [by apply wf_with_error|by split|done]. Qed.

Lemma safe_or_err h (m : M heap A) Q : safe h m Q -> safe h (or_err m) Q.
Proof.
  unfold safe, or_err. destruct (m h) as [[a|] h1]; cbn; intros (W & E & HQ); [done|].
  split_and!; [by apply wf_with_error| |done]. etrans; [exact E|by split].
Qed.
End rules.

Lemma safe_check h b : wf_heap h -> safe h (check b) (fun _ h' => b = true /\ h' = h).
Proof. intros W. destruct b; [by apply safe_ret|by apply safe_fail]. Qed.

Lemma safe_check_err h b : wf_heap h -> safe h (check_err b) (fun _ h' => b = true /\ h' = h).
Proof. intros W. destruct b; [by apply safe_ret|by apply safe_goto_err]. Qed.

Lemma safe_get_obj h id : wf_heap h ->
  safe h (get_obj id) (fun c h' => h' = h /\ objs h !! id = Some c /\ wf_obj (cap (base h)) c).
Proof.
  intros [W Wo]. split_and!; [done..|]. cbn. intros c Hc. split_and!; try done. by apply (Wo id).
Qed.

Lemma get_base_live h : life (base h) = Live -> get_base h = (Some (base h), h).
Proof. unfold get_base. by intros ->. Qed.

Lemma get_base_inv h b h' : get_base h = (Some b, h') -> b = base h /\ h' = h.
Proof. unfold get_base. destruct (life (base h)); by intros [=]. Qed.

Lemma safe_get_base h : wf_heap h -> safe h get_base (fun b h' => h' = h /\ b = base h).
Proof.
  intros W. assert (K := get_base_live h (wf_live _ (wfh_base _ W))). unfold safe. rewrite K.
  split_and!; [done..|]. cbn. by intros ? [= <-].
Qed.

Lemma safe_put_obj h id c : wf_heap h -> wf_obj (cap (base h)) c -> safe h (put_obj id c) any.
Proof.
  intros [W Wo] Hc. split_and!; cbn; [|done|done]. split; [done|]. by apply map_Forall_insert_2.
Qed.

Lemma safe_put_base h b :
  wf_heap h -> wf_buffer b -> evolves (base h) b -> safe h (put_base b) (fun _ h' => base h' = b).
Proof.
  intros [W Wo] Hb E. split_and!; cbn; [|done|done]. split; [done|]. cbn.
  intros i c Hc. specialize (Wo i c Hc). unfold wf_obj in *. destruct E. lia.
Qed.

Lemma safe_write_bytes h off data :
  wf_heap h -> 0 <= off -> off + len data <= cap (base h) ->
  safe h (write_bytes off data) (fun _ h' => cap (base h') = cap (base h) /\ blen (base h') = blen (base h)).
Proof.
  intros W Ho Hl. eapply safe_bind; [by apply safe_get_base|]. intros ? ? _ _ [-> ->].
  eapply safe_weaken; [apply safe_put_base; [done| |by split]|by intros ? ? ->].
  destruct W as [[W1 W2 W3 W4] _]. split; cbn; try done. rewrite store_bytes_length; lia.
Qed.

Lemma safe_store_be h n off v :
  wf_heap h -> 0 <= off -> off + Z.of_nat n <= cap (base h) -> safe h (store_be n off v) any.
Proof.
  intros W Ho Hl. eapply safe_bind; [by apply safe_get_base|]. intros ? ? _ _ [-> ->].
  destruct W as [[W1 W2 W3 W4] Wo]. rewrite store_be_loop_spec by lia.
  eapply safe_bind; [apply safe_put_base; [by split| |by split]|intros; by apply safe_ret].
  split; cbn; try done. rewrite store_bytes_length; [done|lia|].
  unfold len. rewrite be_bytes_length. unfold len in W3. lia.
Qed.

Section ops.
Context (malloc_ok realloc_ok : Z -> bool) (junk : nat -> Z).

Lemma safe_reserve h bs n :
  wf_heap h -> 0 <= n < 2 ^ 64 ->
  safe h (cbb_buffer_reserve realloc_ok junk bs n)
    (fun out h' => out = blen (base h) /\ blen (base h') = blen (base h) /\
                   blen (base h) + n <= cap (base h')).
Proof.
  intros W Hn. eapply safe_bind; [by apply safe_check|]. intros ? ? _ _ [_ ->].
  eapply safe_bind; [by apply safe_get_base|]. intros ? ? _ _ [-> ->]. cbv zeta.
  eapply safe_bind; [by apply safe_check_err|]. intros ? ? _ _ [Hov ->]. bool_to_prop.
  pose proof W as [[W1 W2 W3 W4] _].
  assert (Hnl : u64 (blen (base h) + n) = blen (base h) + n).
  { unfold u64 in *. Z.div_mod_to_equations. lia. }
  rewrite Hnl in *. destruct (Z.ltb_spec (cap (base h)) (blen (base h) + n)); [|by apply safe_ret].
  eapply safe_bind; [by apply safe_check_err|]. intros ? ? _ _ [Hres ->].
  set (nc := if (u64 (cap (base h) * 2) <? cap (base h)) || _ then _ else _).
  assert (Hlt : blen (base h) + n < 2 ^ 64) by (rewrite <- Hnl; apply u64_range).
  assert (Hnc : cap (base h) <= nc /\ blen (base h) + n <= nc < 2 ^ 64).
  { unfold nc. pose proof (u64_range (cap (base h) * 2)).
    destruct (Z.ltb_spec (u64 (cap (base h) * 2)) (cap (base h))); cbn [orb]; [lia|].
    destruct (Z.ltb_spec (u64 (cap (base h) * 2)) (blen (base h) + n)); lia. }
  eapply safe_bind; [by apply safe_check_err|]. intros ? ? _ _ [_ ->].
  eapply safe_bind.
  - apply safe_put_base; [done| |].
    + split; cbn; [lia..| |done]. unfold fresh_bytes. rewrite len_app, len_map.
      unfold len in *. rewrite length_seq. lia.
    + split; cbn; try done; [lia|congruence].
  - cbn. intros ? h' W' _ Hb. apply safe_ret; [done|]. rewrite Hb. cbn. lia.
Qed.

Lemma safe_add h bs n :
  wf_heap h -> 0 <= n < 2 ^ 64 ->
  safe h (cbb_buffer_add realloc_ok junk bs n)
    (fun out h' => out = blen (base h) /\ out + n = blen (base h') /\ out + n <= cap (base h')).
Proof.
  intros W Hn. eapply safe_bind; [by apply safe_reserve|]. intros out h1 W1 E1 (-> & Hbl & Hc).
  eapply safe_bind; [by apply safe_get_base|]. intros ? ? _ _ [-> ->].
  pose proof W as [[V1 V2 V3 V4] _]. pose proof W1 as [[U1 U2 U3 U4] _].
  eapply safe_bind; [apply safe_put_base; [done| |by split]|].
  - split; cbn; lia || done.
  - intros ? h2 W2 _ Hb. apply safe_ret; [done|]. rewrite Hb. cbn. lia.
Qed.

Lemma safe_buffer_add_u h bs v n :
  wf_heap h -> 0 <= n < 2 ^ 64 -> safe h (cbb_buffer_add_u realloc_ok junk bs v n) any.
Proof.
  intros W Hn. unfold cbb_buffer_add_u. destruct (n =? 0); [by apply safe_ret|].
  eapply safe_bind; [by apply safe_add|]. intros out h1 W1 _ (-> & Hb & Hc).
  destruct W as [[V1 V2 V3 V4] _].
  eapply safe_bind; [apply safe_store_be; [done|lia|lia]|]. intros r h2 W2 _ _.
  eapply safe_weaken; [by apply safe_check_err|done].
Qed.

Lemma asn1_length_form_range n ll ib n' :
  0 <= n -> asn1_length_form n = Some (ll, ib, n') -> 1 <= ll <= 5 /\ (ll <> 1 -> n' = n).
Proof.
  unfold asn1_length_form. intros Hn H.
  repeat case_match; try done; injection H as <- <- <-; (split; [lia|done]).
Qed.

Lemma safe_flush_prefix h id ci c cs n :
  wf_heap h -> wf_obj (cap (base h)) c -> cs = offset c + pending_len_len c ->
  0 <= n -> cs + n = blen (base h) -> 1 <= pending_len_len c ->
  safe h (flush_prefix realloc_ok junk id ci c cs n) any.
Proof.
  intros W (Ho & Hp & Hop) Hcs Hn Hb Hpll. unfold flush_prefix.
  pose proof W as [[W1 W2 W3 W4] _].
  eapply safe_bind; [by apply safe_get_obj|]. intros p ? _ _ (-> & _ & _).
  eapply (safe_bind _ _ _ (fun r h' => 0 <= r.1.1 /\ 0 <= r.1.2 /\ r.1.1 + r.1.2 <= cap (base h'))).
  { destruct (pending_is_asn1 c).
    2: { apply safe_ret; [done|]. cbn. lia. }
    destruct (asn1_length_form n) as [[[ll ib] n']|] eqn:Ef; [|by apply safe_goto_err].
    apply asn1_length_form_range in Ef as [Hll Hn']; [|done].
    eapply (safe_bind _ _ _ (fun _ h' => offset c + ll <= cap (base h'))).
    - destruct (Z.eqb_spec ll 1) as [->|Hne]; [apply safe_ret; [done|lia]|].
      rewrite (Hn' Hne). eapply safe_bind; [apply safe_or_err, safe_add; [done|lia]|].
      intros out h1 V E (-> & Hb1 & Hc1). unfold move_up.
      eapply safe_bind; [by apply safe_get_base|]. intros ? ? _ _ [-> ->].
      pose proof V as [[V1 V2 V3 V4] _]. destruct E.
      eapply safe_weaken; [apply safe_write_bytes; [done|lia|]|].
      + rewrite len_take, len_drop. lia.
      + intros ? h' [-> _]. lia.
    - intros ? h1 V E Hc1. eapply safe_bind; [apply safe_write_bytes; [done|lia|]|].
      + rewrite len_cons, len_nil. lia.
      + intros ? h2 V2 _ [Hc2 _]. apply safe_ret; [done|]. cbn. rewrite Hc2. lia. }
  intros [[off pll] n'] h1 V E (H1 & H2 & H3). cbn in H1, H2, H3.
  eapply safe_bind; [apply safe_store_be; [done|lia|lia]|]. intros r h2 V2 E2 _.
  eapply safe_bind; [by apply safe_check_err|]. intros ? ? _ _ [_ ->].
  eapply safe_bind; [apply safe_put_obj; [done|]|]. { destruct E2. unfold wf_obj; cbn; lia. }
  intros ? h3 V3 E3 _. eapply safe_bind; [by apply safe_get_obj|]. intros p' ? _ _ (-> & _ & Hp').
  by apply safe_put_obj.
Qed.

(** *** Flushing only writes the prefixes below the flushed object *)

Definition keeps_objs {A} (m : M heap A) : Prop := forall h, objs (snd (m h)) = objs h.

Lemma keeps_bind {A B} (m : M heap A) (k : A -> M heap B) :
  keeps_objs m -> (forall a, keeps_objs (k a)) -> keeps_objs (bind m k).
Proof.
  intros Hm Hk h. unfold bind. specialize (Hm h). destruct (m h) as [[a|] h1]; cbn in *; [|done].
  rewrite <- Hm. apply Hk.
Qed.

Lemma keeps_or_err {A} (m : M heap A) : keeps_objs m -> keeps_objs (or_err m).
Proof. intros Hm h. unfold or_err. specialize (Hm h). by destruct (m h) as [[a|] h1]. Qed.

Lemma keeps_check_err b : keeps_objs (check_err b).
Proof. by destruct b. Qed.

Lemma check_err_inv b h u h' : check_err b h = (Some u, h') -> b = true /\ h' = h.
Proof. destruct b; [by intros [=]|done]. Qed.

Lemma keeps_get_base : keeps_objs get_base.
Proof. intros h. unfold get_base. by destruct (life (base h)). Qed.

Lemma keeps_write off data : keeps_objs (write_bytes off data).
Proof. apply keeps_bind; [apply keeps_get_base|done]. Qed.

Lemma keeps_add bs n : keeps_objs (cbb_buffer_add realloc_ok junk bs n).
Proof.
  unfold cbb_buffer_add, cbb_buffer_reserve.
  repeat first [apply keeps_bind; [|intros ?] | apply keeps_check_err | apply keeps_get_base | case_match | done].
  by destruct bs.
Qed.

(** The fields a parent's flush relies on. *)
Definition same_prefix (c c' : CBB) : Prop :=
  has_base c' = has_base c /\ offset c' = offset c /\ pending_len_len c' = pending_len_len c /\
  is_child c' = is_child c.

Definition frame (h h' : heap) (y : nat) : Prop :=
  forall c, objs h !! y = Some c -> exists c', objs h' !! y = Some c' /\ same_prefix c c'.

Lemma frame_flush_prefix h h' id ci c cs n :
  flush_prefix realloc_ok junk id ci c cs n h = (Some tt, h') -> forall y, y <> ci -> frame h h' y.
Proof.
  unfold flush_prefix. intros H y Hy d Hd.
  apply bind_inv in H as (p & h1 & Hp & H). injection Hp as Hp <-.
  apply bind_inv in H as ([[off pll] n'] & h2 & Hst & H).
  assert (Ho : objs h2 = objs h).
  { match type of Hst with ?m h = _ => enough (keeps_objs m) as K by (by rewrite <- (K h), Hst) end.
    destruct (pending_is_asn1 c); [|done].
    destruct (asn1_length_form n) as [[[ll ib] nn]|]; [|done].
    apply keeps_bind; [|intros ?; apply keeps_bind; [apply keeps_write|done]]. destruct (ll =? 1); [done|].
    apply keeps_bind; [apply keeps_or_err, keeps_add|].
    intros ?. apply keeps_bind; [apply keeps_get_base|]. intros ?. apply keeps_write. }
  apply bind_inv in H as (r & h3 & Hr & H).
  assert (Ho3 : objs h3 = objs h2).
  { apply bind_inv in Hr as (b & h2' & Hb & Hr). apply get_base_inv in Hb as [-> ->].
    by injection Hr as _ <-. }
  apply bind_inv in H as ([] & h4 & Hc & H).
  apply check_err_inv in Hc as [_ ->].
  unfold bind, put_obj, get_obj, set_obj in H. cbn in H. rewrite Ho3, Ho in H.
  destruct (decide (y = id)) as [->|].
  - rewrite lookup_insert_ne, Hd in H by done. injection H as <-. cbn.
    eexists. split; [by rewrite lookup_insert_eq|done].
  - destruct (<[ci:=_]> (objs h) !! id); [|done]. injection H as <-. cbn.
    exists d. split; [|done]. by rewrite !lookup_insert_ne.
Qed.

(** [descends h x n]: the chain of pending children below [x] has [n] objects. *)
Inductive descends (h : heap) : nat -> nat -> Prop :=
  | descends_last x p : objs h !! x = Some p ->
      (child p = None \/ exists ci c, child p = Some ci /\ objs h !! ci = Some c /\ pending_len_len c = 0) ->
      descends h x 0
  | descends_step x p ci c n : objs h !! x = Some p -> child p = Some ci -> objs h !! ci = Some c ->
      pending_len_len c <> 0 -> descends h ci n -> descends h x (S n).

Lemma descends_functional h x n m : descends h x n -> descends h x m -> n = m.
Proof.
  intros Hn. revert m. induction Hn as [x p Hp Hl|x p ci c n Hp Hci Hc Hz Hn IH]; intros m Hm;
    inversion Hm as [? p' Hp' Hl'|? p' ci' c' m' Hp' Hci' Hc' Hz' Hm']; simplify_eq; try done.
  - destruct Hl as [|(? & ? & ? & ? & ?)]; simplify_eq.
  - destruct Hl' as [|(? & ? & ? & ? & ?)]; simplify_eq.
  - f_equal. by apply IH.
Qed.

Lemma flush_fuel_frame f h h' x :
  flush_fuel realloc_ok junk f x h = (Some tt, h') ->
  exists n, descends h x n /\ forall y, (forall m, descends h y m -> (n <= m)%nat) -> frame h h' y.
Proof.
  revert h h' x. induction f as [|f IH]; intros h h' x H; cbn [flush_fuel] in H; [done|].
  apply bind_inv in H as (p & h1 & Hp & H). injection Hp as Hp <-.
  apply bind_inv in H as ([] & h1 & Hc & H). apply check_inv in Hc as [Hbase ->].
  apply bind_inv in H as (b & h1 & Hb & H). apply get_base_inv in Hb as [-> ->].
  apply bind_inv in H as ([] & h1 & Hc & H). apply check_inv in Hc as [_ ->].
  destruct (child p) as [ci|] eqn:Hch.
  2: { injection H as <-. exists 0%nat. split; [eapply descends_last; eauto|].
       intros y _ c Hy. by exists c. }
  apply bind_inv in H as (c & h1 & Hc & H). injection Hc as Hc <-.
  destruct (Z.eqb_spec (pending_len_len c) 0) as [Hpz|Hpz].
  { injection H as <-. exists 0%nat. split; [eapply descends_last; eauto 8|].
    intros y _ d Hy. by exists d. }
  apply bind_inv in H as ([] & h1 & Hf & H).
  assert (Hf' : flush_fuel realloc_ok junk f ci h = (Some tt, h1)).
  { unfold or_err in Hf. destruct (flush_fuel _ _ f ci h) as [[[]|] ?]; [done|]. done. }
  apply IH in Hf' as (n & Hn & Hfr).
  apply bind_inv in H as (b & h2 & Hb & H). apply get_base_inv in Hb as [-> ->].
  apply bind_inv in H as (c1 & h2 & Hc1 & H). injection Hc1 as Hc1 <-.
  apply bind_inv in H as ([] & h2 & Hck & H).
  apply check_err_inv in Hck as [_ ->].
  exists (S n). split; [by eapply descends_step|].
  intros y Hy d Hd. destruct (Hfr y) with (c := d) as (d1 & Hd1 & Hs1).
  { intros m Hm. apply Hy in Hm. lia. }
  { done. }
  assert (Hyc : y <> ci). { intros ->. apply Hy in Hn. lia. }
  destruct (frame_flush_prefix _ _ _ _ _ _ _ H y Hyc d1 Hd1) as (d2 & Hd2 & Hs2).
  exists d2. split; [done|]. unfold same_prefix in *. intuition congruence.
Qed.

Lemma safe_flush_fuel f h id : wf_heap h -> safe h (flush_fuel realloc_ok junk f id) any.
Proof.
  revert h id. induction f as [|f IH]; intros h id W; cbn [flush_fuel]; [by apply safe_fail|].
  eapply safe_bind; [by apply safe_get_obj|]. intros p ? _ _ (-> & _ & Hp).
  eapply safe_bind; [by apply safe_check|]. intros ? ? _ _ [_ ->].
  eapply safe_bind; [by apply safe_get_base|]. intros ? ? _ _ [-> ->].
  eapply safe_bind; [by apply safe_check|]. intros ? ? _ _ [_ ->].
  destruct (child p) as [ci|]; [|by apply safe_ret].
  eapply safe_bind; [by apply safe_get_obj|]. intros c ? _ _ (-> & Hci & Hc).
  destruct (Z.eqb_spec (pending_len_len c) 0) as [|Hpl]; [by apply safe_ret|].
  eapply (safe_bind _ _ _ (fun _ h1 => frame h h1 ci)).
  { apply safe_or_err. destruct (IH h ci W) as (V & E & _). split_and!; [done..|].
    intros [] Hok. destruct (flush_fuel realloc_ok junk f ci h) as [r h1] eqn:Ef. cbn in *. subst r.
    apply flush_fuel_frame in Ef as (n & Hn & Hfr). apply Hfr.
    intros m Hm. by rewrite (descends_functional _ _ _ _ Hn Hm). }
  intros ? h1 W1 E1 Hfr. destruct (Hfr c Hci) as (c' & Hc' & _ & Hof & Hpll & _).
  eapply safe_bind; [by apply safe_get_base|]. intros ? ? _ _ [-> ->].
  eapply safe_bind; [by apply safe_get_obj|]. intros c1 ? _ _ (-> & Hc1 & Hw1). simplify_eq.
  eapply safe_bind; [by apply safe_check_err|]. intros ? ? _ _ [Hck ->]. bool_to_prop.
  destruct W as [[W1' W2 W3 W4] _]. destruct Hc as (? & ? & ?). rewrite u64_id in * by lia.
  apply safe_flush_prefix; try done; lia.
Qed.

(** *** Every operation is safe *)

Definition size_t (n : Z) : Prop := 0 <= n < 2 ^ 64.

(** [safe] from every well-formed store. *)
Definition always {A} (m : M heap A) : Prop := forall h, wf_heap h -> safe h m any.

Lemma always_bind {A B} (m : M heap A) (k : A -> M heap B) :
  always m -> (forall a, always (k a)) -> always (bind m k).
Proof. intros Hm Hk h W. eapply safe_bind; [by apply Hm|]. intros a h' W' _ _. by apply Hk. Qed.

Lemma always_ret {A} (a : A) : always (ret a).
Proof. intros h W. by apply safe_ret. Qed.
Lemma always_fail {A} : always (@fail heap A).
Proof. intros h W. by apply safe_fail. Qed.
Lemma always_lift {A} (o : option A) : always (lift o).
Proof. intros h W. by apply safe_lift. Qed.
Lemma always_check b : always (check b).
Proof. intros h W. by eapply safe_weaken; [apply safe_check|]. Qed.
Lemma always_get_obj id : always (get_obj id).
Proof. intros h W. by eapply safe_weaken; [apply safe_get_obj|]. Qed.
Lemma always_get_base : always get_base.
Proof. intros h W. by eapply safe_weaken; [apply safe_get_base|]. Qed.
Lemma always_flush id : always (CBB_flush realloc_ok junk id).
Proof. intros h W. by apply safe_flush_fuel. Qed.
Lemma always_local_child : always local_child.
Proof. intros h W. split_and!; [done..|]. by intros. Qed.
Lemma always_add_space id n : size_t n -> always (CBB_add_space realloc_ok junk id n).
Proof.
  intros Hn. apply always_bind; [apply always_flush|]. intros _. apply always_bind; [apply always_get_obj|].
  intros p h W. by eapply safe_weaken; [apply safe_add|].
Qed.
Lemma always_add_u id v n : size_t n -> always (cbb_add_u realloc_ok junk id v n).
Proof.
  intros Hn. apply always_bind; [apply always_flush|]. intros _. apply always_bind; [apply always_get_obj|].
  intros p h W. by apply safe_buffer_add_u.
Qed.
Lemma always_add_u8 id v : always (CBB_add_u8 realloc_ok junk id v).
Proof. by apply always_add_u. Qed.

(** Adding space and filling it, as [CBB_add_bytes] and [CBB_add_zeros] do. *)
Lemma always_fill {B} bs data (k : Z -> M heap B) :
  size_t (len data) -> (forall out, always (k out)) ->
  always (let* out := cbb_buffer_add realloc_ok junk bs (len data) in write_bytes out data ;;; k out).
Proof.
  intros Hn Hk h W. eapply safe_bind; [by apply safe_add|]. intros out h1 W1 _ (-> & Hb & Hc).
  destruct W as [[W' _ _ _] _].
  eapply safe_bind; [apply safe_write_bytes; [done|lia|done]|]. intros ? h2 W2 _ _. by apply Hk.
Qed.

Lemma always_write bs data :
  size_t (len data) ->
  always (let* out := cbb_buffer_add realloc_ok junk bs (len data) in write_bytes out data).
Proof.
  intros Hn h W. destruct (always_fill bs data ret Hn always_ret h W) as (V & E & _).
  revert V E. unfold safe, bind, ret. destruct (cbb_buffer_add _ _ _ _ h) as [[out|] h1]; [|done].
  by destruct (write_bytes out data h1) as [[[]|] h2].
Qed.

Lemma always_add_bytes id data : size_t (len data) -> always (CBB_add_bytes realloc_ok junk id data).
Proof.
  intros Hn. apply always_bind; [apply always_flush|]. intros _.
  apply always_bind; [apply always_get_obj|]. intros p. by apply always_write.
Qed.

Lemma always_add_zeros id n : size_t n -> always (CBB_add_zeros realloc_ok junk id n).
Proof.
  intros Hn h W. unfold CBB_add_zeros, CBB_add_space.
  assert (Hz : n = len (replicate (Z.to_nat n) 0)) by (rewrite len_replicate; unfold size_t in Hn; lia).
  assert (K : always (CBB_flush realloc_ok junk id ;;; let* p := get_obj id in
    let* out := cbb_buffer_add realloc_ok junk (has_base p) (len (replicate (Z.to_nat n) 0)) in
    write_bytes out (replicate (Z.to_nat n) 0))).
  { apply always_bind; [apply always_flush|]. intros _. apply always_bind; [apply always_get_obj|].
    intros p. apply always_write. by rewrite <- Hz. }
  rewrite <- Hz in K. destruct (K h W) as (V & E & _). revert V E. unfold safe, bind.
  destruct (CBB_flush _ _ _ h) as [[[]|] h1]; [|done].
  destruct (get_obj id h1) as [[p|] h2]; done.
Qed.

Lemma safe_attach h id ch off pll asn1 :
  wf_heap h -> 0 <= off -> 0 <= pll -> off + pll <= cap (base h) ->
  safe h (attach_child id ch off pll asn1) any.
Proof.
  intros W H1 H2 H3. pose proof W as [[W1 W2 W3 W4] _].
  eapply safe_bind; [apply safe_put_obj; [done|unfold wf_obj; cbn; lia]|]. intros ? h1 V1 [E1 _ _ _] _.
  eapply safe_bind; [by apply safe_get_obj|]. intros p ? _ _ (-> & _ & Hp).
  eapply safe_bind; [apply safe_put_obj; [done|unfold wf_obj; cbn; lia]|]. intros ? h2 V2 [E2 _ _ _] _.
  eapply safe_bind; [by apply safe_get_obj|]. intros p' ? _ _ (-> & _ & Hp').
  eapply safe_bind; [by apply safe_put_obj|]. intros ? h3 V3 [E3 _ _ _] _.
  eapply safe_bind; [by apply safe_get_obj|]. intros c ? _ _ (-> & _ & Hc).
  apply safe_put_obj; [done|]. unfold wf_obj; cbn. lia.
Qed.

Lemma always_add_length_prefixed id ch n :
  size_t n -> always (cbb_add_length_prefixed realloc_ok junk id ch n).
Proof.
  intros Hn. apply always_bind; [apply always_flush|]. intros _.
  apply always_bind; [apply always_get_obj|]. intros p h W.
  eapply safe_bind; [by apply safe_get_base|]. intros ? ? _ _ [-> ->].
  pose proof W as [[W' _ _ _] _]. unfold size_t in Hn.
  eapply safe_bind; [by apply safe_add|]. intros out h1 W1 _ (-> & Hb & Hc).
  eapply safe_bind.
  - apply safe_write_bytes; [done|lia|]. rewrite len_replicate. lia.
  - intros ? h2 W2 E2 [Hc2 _]. apply safe_attach; [done|lia..].
Qed.

Lemma always_base128 id v : always (add_base128_integer realloc_ok junk id v).
Proof.
  unfold add_base128_integer. generalize (Z.to_nat (if base128_len_loop 10 0 v =? 0 then 1
    else base128_len_loop 10 0 v)). cbv zeta.
  intros n. induction n as [|n IH]; [apply always_ret|]. cbn [add_base128_loop].
  apply always_bind; [apply always_add_u8|]. by intros.
Qed.

(** *** Flushing and adding never shorten the contents *)

Definition mono {A} (m : M heap A) : Prop := forall h, blen (base h) <= blen (base (snd (m h))).

Lemma mono_bind {A B} (m : M heap A) (k : A -> M heap B) :
  mono m -> (forall a, mono (k a)) -> mono (bind m k).
Proof.
  intros Hm Hk h. unfold bind. specialize (Hm h). destruct (m h) as [[a|] h1]; cbn in *; [|done].
  etrans; [exact Hm|apply Hk].
Qed.

Lemma mono_or_err {A} (m : M heap A) : mono m -> mono (or_err m).
Proof. intros Hm h. unfold or_err. specialize (Hm h). by destruct (m h) as [[a|] h1]. Qed.

Lemma mono_check_err b : mono (check_err b).
Proof. intros h. by destruct b. Qed.

Lemma mono_check b : mono (@check heap b).
Proof. intros h. by destruct b. Qed.

Lemma mono_get_base : mono get_base.
Proof. intros h. unfold get_base. by destruct (life (base h)). Qed.

Lemma mono_write off data : mono (write_bytes off data).
Proof.
  intros h. unfold write_bytes, bind. destruct (get_base h) as [[b|] h1] eqn:E.
  - apply get_base_inv in E as [-> ->]. cbn. lia.
  - pose proof (mono_get_base h) as K. by rewrite E in K.
Qed.

Lemma mono_store_be n off v : mono (store_be n off v).
Proof.
  intros h. unfold store_be, bind at 1. destruct (get_base h) as [[b|] h1] eqn:E.
  - apply get_base_inv in E as [-> ->]. cbn. lia.
  - pose proof (mono_get_base h) as K. by rewrite E in K.
Qed.

Lemma mono_add bs n : 0 <= n -> mono (cbb_buffer_add realloc_ok junk bs n).
Proof.
  intros Hn h. destruct (life (base h)) eqn:Hl;
    unfold cbb_buffer_add, cbb_buffer_reserve, bind, check, check_err, goto_err, get_base, put_base, ret, fail;
    repeat case_match; simplify_eq/=; try lia.
Qed.

Lemma mono_flush_prefix id ci c cs n : 0 <= n -> mono (flush_prefix realloc_ok junk id ci c cs n).
Proof.
  intros Hn. unfold flush_prefix, move_up.
  apply mono_bind; [by intros h|]. intros p. apply mono_bind.
  - destruct (pending_is_asn1 c); [|by intros h].
    destruct (asn1_length_form n) as [[[ll ib] nn]|] eqn:E; [|by intros h].
    apply asn1_length_form_range in E as [Hll _]; [|done].
    apply mono_bind; [|intros; apply mono_bind; [apply mono_write|by intros ? h]]. destruct (ll =? 1); [by intros h|].
    apply mono_bind; [apply mono_or_err, mono_add; lia|]. intros ?.
    apply mono_bind; [apply mono_get_base|intros; apply mono_write].
  - intros [[off pll] n']. apply mono_bind; [apply mono_store_be|]. intros r.
    apply mono_bind; [apply mono_check_err|]. intros _.
    apply mono_bind; [by intros h|]. intros _. apply mono_bind; [by intros h|by intros p' h].
Qed.

Lemma mono_flush_fuel f id : mono (flush_fuel realloc_ok junk f id).
Proof.
  revert id. induction f as [|f IH]; intros id; cbn [flush_fuel]; [by intros h|].
  apply mono_bind; [by intros h|]. intros p. apply mono_bind; [apply mono_check|]. intros _.
  apply mono_bind; [apply mono_get_base|]. intros b.
  apply mono_bind; [apply mono_check|]. intros _. destruct (child p) as [ci|]; [|by intros h].
  apply mono_bind; [by intros h|]. intros c. destruct (_ =? _); [by intros h|].
  apply mono_bind; [apply mono_or_err, IH|]. intros _ h.
  unfold bind at 1. destruct (get_base h) as [[b1|] h1] eqn:Eb.
  2: { pose proof (mono_get_base h) as K. by rewrite Eb in K. }
  apply get_base_inv in Eb as [-> ->]. unfold bind at 1, get_obj at 1.
  destruct (objs h !! ci) as [c1|]; [|done]. unfold bind, check_err.
  destruct (_ || _) eqn:E; [done|]. cbn [negb ret]. bool_to_prop.
  apply mono_flush_prefix. lia.
Qed.

(** A byte that is added ends inside the buffer. *)
Lemma safe_add_u8_end h id v :
  wf_heap h -> safe h (CBB_add_u8 realloc_ok junk id v) (fun _ h' => blen (base h) + 1 <= cap (base h')).
Proof.
  intros W. eapply (safe_bind _ _ _ (fun _ h' => blen (base h) <= blen (base h'))).
  { destruct (always_flush id h W) as (V & E & _). split_and!; [done..|]. intros. apply mono_flush_fuel. }
  intros ? h1 W1 _ Hmono. eapply safe_bind; [by apply safe_get_obj|]. intros p ? _ _ (-> & _ & _).
  unfold cbb_buffer_add_u. cbn [Z.eqb]. eapply safe_bind; [by apply safe_add|].
  intros out h2 W2 _ (-> & Hb & Hc). destruct W1 as [[V1 V2 V3 V4] _].
  eapply safe_bind; [apply safe_store_be; [done|lia|lia]|]. intros r h3 W3 E3 _.
  destruct E3. eapply safe_weaken; [by apply safe_check_err|]. cbn. intros _ ? [_ ->]. lia.
Qed.

Lemma always_add_asn1 id ch tag : always (CBB_add_asn1 realloc_ok junk id ch tag).
Proof.
  apply always_bind; [apply always_flush|]. intros _. cbv zeta. apply always_bind.
  { destruct (_ <=? _); [|apply always_add_u8].
    apply always_bind; [apply always_add_u8|]. intros _. apply always_base128. }
  intros _ h W. eapply safe_bind; [by apply safe_get_base|]. intros ? ? _ _ [-> ->].
  eapply safe_bind; [by apply safe_add_u8_end|]. intros ? h1 W1 _ Hc.
  cbn in Hc. destruct W as [[W' _ _ _] _]. apply safe_attach; [done|lia..].
Qed.

Lemma always_child id tag (m : nat -> M heap unit) :
  (forall ch, always (m ch)) ->
  always (let* ch := local_child in CBB_add_asn1 realloc_ok junk id ch tag ;;; m ch ;;;
          CBB_flush realloc_ok junk id).
Proof.
  intros Hm. apply always_bind; [apply always_local_child|]. intros ch.
  apply always_bind; [apply always_add_asn1|]. intros _.
  apply always_bind; [done|]. intros _. apply always_flush.
Qed.

Lemma always_add_uint64 id v : always (CBB_add_asn1_uint64 realloc_ok junk id v).
Proof.
  apply always_bind; [apply always_local_child|]. intros ch.
  apply always_bind; [apply always_add_asn1|]. intros _.
  apply always_bind.
  - generalize false. induction (uint64_bytes v) as [|b l IH]; intros st; [apply always_ret|].
    cbn [add_uint64_loop]. destruct (_ && _); [apply IH|].
    apply always_bind; [destruct (_ && _); [apply always_add_u8|apply always_ret]|]. intros _.
    apply always_bind; [apply always_add_u8|]. intros _. apply IH.
  - intros st. apply always_bind; [destruct st; [apply always_ret|apply always_add_u8]|].
    intros _. apply always_flush.
Qed.

Lemma always_add_int64 id v : always (CBB_add_asn1_int64 realloc_ok junk id v).
Proof.
  unfold CBB_add_asn1_int64. destruct (0 <=? v); [apply always_add_uint64|].
  apply (always_child _ _ (fun ch => add_bytes_down realloc_ok junk ch _ _)). intros ch.
  generalize (int64_start 7 (le_bytes 8 (u64 v))). intros n.
  induction n as [|n IH]; cbn [add_bytes_down]; (apply always_bind; [apply always_add_u8|]; intros _);
    [apply always_ret|apply IH].
Qed.

Lemma safe_with_len h n :
  wf_heap h -> 0 <= n <= cap (base h) -> safe h (put_base (with_len (base h) n)) any.
Proof.
  intros W Hn. eapply safe_weaken; [apply safe_put_base; [done| |by split]|done].
  destruct W as [[W1 W2 W3 W4] _]. by split.
Qed.

(** The object at [id], if there is one, points at the buffer. *)
Definition based (h : heap) (id : nat) : bool :=
  match objs h !! id with Some c => has_base c | None => true end.

Lemma safe_base_of h p :
  wf_heap h -> has_base p = true -> safe h (base_of p) (fun b h' => h' = h /\ b = base h).
Proof. intros W Hp. unfold base_of. rewrite Hp. by apply safe_get_base. Qed.

Lemma safe_did_write h id n : wf_heap h -> based h id = true -> safe h (CBB_did_write id n) any.
Proof.
  unfold based. intros W Hb. eapply safe_bind; [by apply safe_get_obj|]. intros p ? _ _ (-> & Hp & _).
  rewrite Hp in Hb. eapply safe_bind; [by apply safe_base_of|]. intros ? ? _ _ [-> ->]. cbv zeta.
  eapply safe_bind; [by apply safe_check|]. intros ? ? _ _ [Hc ->]. bool_to_prop.
  apply safe_with_len; [done|]. pose proof (u64_range (blen (base h) + n)). lia.
Qed.

(** The object at [id] points at the buffer if a child is pending at it. *)
Definition child_based (h : heap) (id : nat) : bool :=
  match objs h !! id with Some c => has_base c || negb (bool_decide (is_Some (child c))) | None => true end.

Lemma safe_discard h id : wf_heap h -> child_based h id = true -> safe h (CBB_discard_child id) any.
Proof.
  unfold child_based. intros W Hb.
  eapply safe_bind; [by apply safe_get_obj|]. intros p ? _ _ (-> & Hp & H4 & H5 & H6). rewrite Hp in Hb.
  destruct (child p) as [ci|]; [|by apply safe_ret]. cbn in Hb. rewrite orb_false_r in Hb.
  eapply safe_bind; [by apply safe_get_obj|]. intros c ? _ _ (-> & _ & H1 & H2 & H3).
  eapply safe_bind; [by apply safe_base_of|]. intros ? ? _ _ [-> ->].
  eapply safe_bind; [apply safe_with_len; [done|lia]|]. intros ? h1 W1 E1 _. destruct E1.
  eapply safe_bind; [apply safe_put_obj; [done|unfold wf_obj; cbn; lia]|]. intros ? h2 W2 E2 _.
  destruct E2. apply safe_put_obj; [done|unfold wf_obj; cbn; lia].
Qed.

(** A flush that succeeds started from an object that points at the buffer, and leaves it so. *)
Lemma flush_obj h h' id :
  CBB_flush realloc_ok junk id h = (Some tt, h') ->
  exists c c', objs h !! id = Some c /\ objs h' !! id = Some c' /\ same_prefix c c' /\ has_base c = true.
Proof.
  intros H. pose proof H as Hf. apply flush_fuel_frame in Hf as (n & Hn & Hfr).
  unfold CBB_flush in H. cbn [flush_fuel] in H.
  apply bind_inv in H as (c & h1 & Hc & H). injection Hc as Hc <-.
  apply bind_inv in H as ([] & h1 & Hb & _). apply check_inv in Hb as [Hb _].
  destruct (Hfr id) with (c := c) as (c' & Hc' & Hs); [|done|by exists c, c'].
  intros m Hm. by rewrite (descends_functional _ _ _ _ Hn Hm).
Qed.

Lemma safe_flush h id :
  wf_heap h -> safe h (CBB_flush realloc_ok junk id) (fun _ h' => exists c, objs h' !! id = Some c /\ has_base c = true).
Proof.
  intros W. destruct (always_flush id h W) as (V & E & _). split_and!; [done..|].
  intros [] Hf. destruct (CBB_flush _ _ _ h) as [r h'] eqn:Ef. cbn in *. subst r.
  apply flush_obj in Ef as (c & c' & _ & Hc' & Hs & Hb). exists c'. split; [done|]. destruct Hs. congruence.
Qed.

(** A strict element is the front of the input. *)
Lemma element_front s el rest :
  CBS_get_any_asn1_element s = (Some el, rest) -> s = el_out el ++ rest.
Proof.
  assert (Hb : forall n s out s', CBS_get_bytes n s = (Some out, s') -> s = out ++ s').
  { intros n s0 out s' H. unfold CBS_get_bytes, cbs_get, bind in H. case_match; simplify_eq/=.
    destruct (CBS_len s0 <? n); simplify_eq/=.
    injection H as <- <-. unfold CBS_init. by rewrite take_drop. }
  unfold CBS_get_any_asn1_element, cbs_get_any_asn1_element, cbs_get_long_form. intros H.
  repeat case_match; try done; apply bind_inv in H as (out & s1 & Hg & [= <- <-]); by eapply Hb.
Qed.

Lemma get_children_len n s els :
  get_children n s = Some els -> Forall (fun e => len e <= len s) els.
Proof.
  revert s els. induction n as [|n IH]; intros s els; cbn [get_children]; [by intros [= <-]|].
  destruct (CBS_get_any_asn1_element s) as [[el|] s'] eqn:E; [|done].
  destruct (get_children n s') as [l|] eqn:El; [|done]. intros [= <-].
  apply element_front in E as ->. rewrite len_app.
  pose proof (len_nonneg s'). pose proof (len_nonneg (el_out el)).
  constructor; [lia|]. eapply Forall_impl; [by eapply IH|]. cbn. lia.
Qed.

Lemma always_add_children id els :
  Forall (fun e => size_t (len e)) els -> always (add_children realloc_ok junk id els).
Proof.
  induction 1 as [|e els He _ IH]; cbn [add_children]; [apply always_ret|].
  apply always_bind; [by apply always_add_bytes|]. by intros.
Qed.

Lemma always_set_of id : always (CBB_flush_asn1_set_of malloc_ok realloc_ok junk id).
Proof.
  intros h0 W0. eapply safe_bind; [by apply safe_flush|]. intros _ h W _ (c & Hc & Hb). clear h0 W0.
  eapply (safe_bind _ _ _ (fun d h' => len d <= cap (base h) /\ h' = h)).
  { unfold CBB_data. eapply safe_bind; [by apply safe_get_obj|]. intros c' ? _ _ (-> & Hc' & _). simplify_eq.
    eapply safe_bind; [by apply safe_base_of|]. intros ? ? _ _ [-> ->]. apply safe_ret; [done|].
    destruct W as [[W1 W2 W3 W4] _]. split; [|done]. rewrite len_take, len_drop. lia. }
  intros data ? _ _ [Hd ->]. clear c Hc Hb. revert h W Hd.
  enough (K : forall h, wf_heap h -> len data <= cap (base h) -> safe h _ any) by exact K.
  intros h W Hd. assert (Hdl : len data < 2 ^ 64) by (destruct W as [[] _]; lia).
  revert h W Hd. enough (K : always _) by (intros h W _; exact (K h W)).
  apply always_bind; [apply always_lift|]. intros n. destruct (n <? 2); [apply always_ret|].
  apply always_bind; [apply always_check|]. intros _.
  apply always_bind; [apply always_check|]. intros _.
  intros h W. eapply (safe_bind _ _ _ (fun l _ => get_children (Z.to_nat n) data = Some l)).
  { split_and!; [done..|]. by intros l Hl. }
  intros els h1 W1 _ Hels. apply get_children_len in Hels.
  eapply safe_bind; [by apply safe_get_obj|]. intros c ? _ _ (-> & _ & H1 & H2 & H3).
  eapply safe_bind; [by apply safe_get_base|]. intros ? ? _ _ [-> ->].
  eapply safe_bind; [apply safe_with_len; [done|lia]|]. intros ? h2 W2 _ _.
  apply always_add_children; [|done]. rewrite sorting.merge_sort_Permutation.
  eapply Forall_impl; [done|]. intros e He. cbn in He. split; [apply len_nonneg|lia].
Qed.

Lemma always_oid_from_text id text : always (CBB_add_asn1_oid_from_text realloc_ok junk id text).
Proof.
  apply always_bind; [apply always_flush|]. intros _.
  destruct (parse_dotted_decimal _) as [[a|] r1]; [|apply always_fail].
  destruct (parse_dotted_decimal r1) as [[b|] r2]; [|apply always_fail].
  apply always_bind; [apply always_check|]. intros _.
  apply always_bind; [apply always_base128|]. intros _.
  generalize (length r2). intros n. revert r2. induction n as [|n IH]; intros r2; cbn [oid_components_loop].
  - destruct (_ <? _); [apply always_fail|apply always_ret].
  - destruct (_ <? _); [|apply always_ret].
    destruct (parse_dotted_decimal r2) as [[c|] r3]; [|apply always_fail].
    apply always_bind; [apply always_base128|]. intros _. apply IH.
Qed.

(** *** Sequences of operations *)

(** A client's calls: the addresses are arbitrary, and so is what is added. *)
Inductive op : Type :=
  | OpFlush (cbb : nat)
  | OpCleanup (cbb : nat)
  | OpFinish (cbb : nat) (want_out : bool)
  | OpAddLengthPrefixed (cbb out_contents : nat) (len_len : Z)
  | OpAddAsn1 (cbb out_contents : nat) (tag : Z)
  | OpAddU (cbb : nat) (value n : Z)
  | OpAddBytes (cbb : nat) (data : list Z)
  | OpAddSpace (cbb : nat) (n : Z)
  | OpAddZeros (cbb : nat) (n : Z)
  | OpReserve (cbb : nat) (n : Z)
  | OpDidWrite (cbb : nat) (n : Z)
  | OpDiscardChild (cbb : nat)
  | OpAddUint64 (cbb : nat) (value : Z)
  | OpAddInt64 (cbb : nat) (value : Z)
  | OpAddOctetString (cbb : nat) (data : list Z)
  | OpAddBool (cbb : nat) (value : bool)
  | OpOidFromText (cbb : nat) (text : list Z)
  | OpFlushSetOf (cbb : nat).

(** Sizes are values of type [size_t]. *)
Definition op_args (o : op) : Prop :=
  match o with
  | OpAddLengthPrefixed _ _ n | OpAddU _ _ n | OpAddSpace _ n | OpAddZeros _ n | OpReserve _ n => size_t n
  | OpAddBytes _ d | OpAddOctetString _ d => size_t (len d)
  | _ => True
  end.

Definition forget {A} (m : M heap A) : heap -> heap := fun h => snd (m h).

Definition run_op (o : op) : heap -> heap :=
  match o with
  | OpFlush cbb => forget (CBB_flush realloc_ok junk cbb)
  | OpCleanup cbb => forget (CBB_cleanup cbb)
  | OpFinish cbb want_out => forget (CBB_finish realloc_ok junk cbb want_out)
  | OpAddLengthPrefixed cbb ch n => forget (cbb_add_length_prefixed realloc_ok junk cbb ch n)
  | OpAddAsn1 cbb ch tag => forget (CBB_add_asn1 realloc_ok junk cbb ch tag)
  | OpAddU cbb v n => forget (cbb_add_u realloc_ok junk cbb v n)
  | OpAddBytes cbb d => forget (CBB_add_bytes realloc_ok junk cbb d)
  | OpAddSpace cbb n => forget (CBB_add_space realloc_ok junk cbb n)
  | OpAddZeros cbb n => forget (CBB_add_zeros realloc_ok junk cbb n)
  | OpReserve cbb n => forget (CBB_reserve realloc_ok junk cbb n)
  | OpDidWrite cbb n => forget (CBB_did_write cbb n)
  | OpDiscardChild cbb => forget (CBB_discard_child cbb)
  | OpAddUint64 cbb v => forget (CBB_add_asn1_uint64 realloc_ok junk cbb v)
  | OpAddInt64 cbb v => forget (CBB_add_asn1_int64 realloc_ok junk cbb v)
  | OpAddOctetString cbb d => forget (CBB_add_asn1_octet_string realloc_ok junk cbb d)
  | OpAddBool cbb v => forget (CBB_add_asn1_bool realloc_ok junk cbb v)
  | OpOidFromText cbb t => forget (CBB_add_asn1_oid_from_text realloc_ok junk cbb t)
  | OpFlushSetOf cbb => forget (CBB_flush_asn1_set_of malloc_ok realloc_ok junk cbb)
  end.

Definition run_ops (ops : list op) (h : heap) : heap := fold_left (fun h o => run_op o h) ops h.

(** *** What a client may do *)

(** The builder an operation is applied to. *)
Definition op_on (o : op) : nat :=
  match o with
  | OpFlush cbb | OpCleanup cbb | OpFinish cbb _ | OpAddLengthPrefixed cbb _ _ | OpAddAsn1 cbb _ _
  | OpAddU cbb _ _ | OpAddBytes cbb _ | OpAddSpace cbb _ | OpAddZeros cbb _ | OpReserve cbb _
  | OpDidWrite cbb _ | OpDiscardChild cbb | OpAddUint64 cbb _ | OpAddInt64 cbb _ | OpAddOctetString cbb _
  | OpAddBool cbb _ | OpOidFromText cbb _ | OpFlushSetOf cbb => cbb
  end.

(** The object at [id] points at memory that was freed. *)
Definition dangling (h : heap) (id : nat) : bool :=
  match life (base h), objs h !! id with
  | Freed, Some c => has_base c
  | _, _ => false
  end.

(** bytestring.h lets [CBB_cleanup] and [CBB_finish] free what all builders of the family write to, so that
    none of the others may be used after them; and the two functions that do not test for a null base
    want one. *)
Definition permitted (o : op) (h : heap) : bool :=
  negb (dangling h (op_on o)) &&
  match o with
  | OpDidWrite cbb _ => based h cbb
  | OpDiscardChild cbb => child_based h cbb
  | _ => true
  end.

Fixpoint all_permitted (ops : list op) (h : heap) : bool :=
  match ops with
  | [] => true
  | o :: ops => permitted o h && all_permitted ops (run_op o h)
  end.

(** Operations that may free the buffer. *)
Definition releases (o : op) : bool :=
  match o with OpCleanup _ | OpFinish _ _ => true | _ => false end.

Lemma run_op_safe o h :
  wf_heap h -> op_args o -> permitted o h = true -> releases o = false ->
  wf_heap (run_op o h) /\ evolves (base h) (base (run_op o h)).
Proof.
  intros W Ha Hp Hr.
  assert (S : forall A (m : M heap A), safe h m any -> wf_heap (forget m h) /\ evolves (base h) (base (forget m h))).
  { intros A m (V & E & _). done. }
  assert (K : forall A (m : M heap A), always m -> wf_heap (forget m h) /\ evolves (base h) (base (forget m h))).
  { intros A m Hm. by apply S, Hm. }
  unfold permitted in Hp. apply andb_prop in Hp as [_ Hp].
  destruct o; cbn [op_args run_op releases] in *; try done;
    try (apply K; auto using always_flush, always_add_length_prefixed, always_add_asn1,
      always_add_u, always_add_bytes, always_add_space, always_add_zeros,
      always_add_uint64, always_add_int64, always_oid_from_text, always_set_of; fail).
  - apply K, always_bind; [apply always_flush|]. intros _. apply always_bind; [apply always_get_obj|].
    intros p h1 W1. by eapply safe_weaken; [apply safe_reserve|].
  - by apply S, safe_did_write.
  - by apply S, safe_discard.
  - apply K, (always_child _ _ (fun ch => CBB_add_bytes realloc_ok junk ch data)). intros ch. by apply always_add_bytes.
  - apply K, (always_child _ _ (fun ch => CBB_add_u8 realloc_ok junk ch _)). intros ch. apply always_add_u8.
Qed.

(** The buffer is in use and well formed, or it was freed. *)
Definition settled (h : heap) : Prop := wf_heap h \/ life (base h) = Freed.

Definition settles (h h' : heap) : Prop := settled h' /\ evolves (base h) (base h').

Lemma settles_refl h : wf_heap h -> settles h h.
Proof. split; [by left|reflexivity]. Qed.

Lemma cleanup_safe h id : wf_heap h -> settles h (forget (CBB_cleanup id) h).
Proof.
  intros W. unfold forget, CBB_cleanup, bind at 1, get_obj. pose proof W as [W0 Wo].
  destruct (objs h !! id) as [c|] eqn:Hc; [|by apply settles_refl].
  destruct (is_child c); [by apply settles_refl|]. unfold bind.
  destruct (has_base c).
  - rewrite (get_base_live _ (wf_live _ W0)). cbn. split; [by right|by split].
  - cbn. split; [|done]. left. split; [done|]. cbn. apply map_Forall_insert_2; [|done]. exact (Wo _ _ Hc).
Qed.

Lemma finish_safe h id want : wf_heap h -> settles h (forget (CBB_finish realloc_ok junk id want) h).
Proof.
  intros W. unfold forget, CBB_finish, bind at 1, get_obj.
  destruct (objs h !! id) as [c|] eqn:Hc; [|by apply settles_refl].
  unfold bind at 1, check at 1. destruct (is_child c) eqn:Hic; [by apply settles_refl|]. cbn [negb ret].
  unfold bind at 1. pose proof (always_flush id h W) as (V & E & _).
  destruct (CBB_flush realloc_ok junk id h) as [[[]|] h1] eqn:Ef; cbn [snd] in V, E; [|by split; [left|]].
  apply flush_obj in Ef as (c0 & c1 & Hc0 & Hc1 & (Hb & _ & _ & Hi) & Hb0). simplify_eq.
  unfold bind at 1. rewrite (get_base_live _ (wf_live _ (wfh_base _ V))).
  unfold bind at 1. destruct (can_resize (base h1) && negb want); [by split; [left|]|]. cbn [check negb ret].
  unfold bind, put_base, CBB_cleanup, get_obj, bind. cbn [set_buf objs]. rewrite Hc1, Hi, Hic, Hb, Hb0.
  rewrite get_base_live by apply (wf_live _ (wfh_base _ V)). cbn. split; [by right|].
  etrans; [exact E|]. by split.
Qed.

Lemma flush_unbased h id :
  life (base h) = Freed -> dangling h id = false -> CBB_flush realloc_ok junk id h = (None, h).
Proof.
  unfold dangling. intros -> Hd. unfold CBB_flush. cbn [flush_fuel]. unfold bind, get_obj.
  destruct (objs h !! id) as [c|]; [|done]. by rewrite Hd.
Qed.

Lemma flush_first {A} h id (k : unit -> M heap A) :
  CBB_flush realloc_ok junk id h = (None, h) ->
  forget (bind (CBB_flush realloc_ok junk id) k) h = h.
Proof. intros Hf. unfold forget, bind. by rewrite Hf. Qed.

Lemma child_flush_first {A} h id tag (k : nat -> unit -> M heap A) :
  CBB_flush realloc_ok junk id h = (None, h) ->
  forget (let* ch := local_child in bind (CBB_add_asn1 realloc_ok junk id ch tag) (k ch)) h = h.
Proof. intros Hf. unfold forget, bind, local_child, CBB_add_asn1, bind. by rewrite Hf. Qed.

(** Once the buffer is freed, the operations that may still be used find no base and leave it alone. *)
Lemma freed_inert o h :
  life (base h) = Freed -> permitted o h = true -> base (run_op o h) = base h.
Proof.
  intros Hl Hp. unfold permitted in Hp. apply andb_prop in Hp as [Hd Hp]. apply negb_true_iff in Hd.
  pose proof (flush_unbased _ _ Hl Hd) as Hf. unfold dangling in Hd. rewrite Hl in Hd.
  destruct o; cbn [op_on run_op] in *;
    try exact (f_equal base (flush_first _ _ _ Hf)); try exact (f_equal base (child_flush_first _ _ _ _ Hf)).
  - unfold forget. by rewrite Hf.
  - unfold forget, CBB_cleanup, bind, get_obj. destruct (objs h !! cbb) as [c|]; [|done].
    rewrite Hd. by destruct (is_child c).
  - unfold forget, CBB_finish, bind, get_obj, check. destruct (objs h !! cbb) as [c|]; [|done].
    destruct (negb (is_child c)); [|done]. unfold ret. by rewrite Hf.
  - unfold forget, CBB_add_zeros, CBB_add_space, bind. by rewrite Hf.
  - unfold based in Hp. unfold forget, CBB_did_write, bind, get_obj.
    destruct (objs h !! cbb) as [c|]; [congruence|done].
  - unfold child_based in Hp. unfold forget, CBB_discard_child, bind, get_obj.
    destruct (objs h !! cbb) as [c|]; [|done]. rewrite Hd in Hp. by destruct (child c).
  - unfold CBB_add_asn1_int64. destruct (0 <=? value); exact (f_equal base (child_flush_first _ _ _ _ Hf)).
Qed.

Lemma run_op_settled o h :
  settled h -> op_args o -> permitted o h = true ->
  settles h (run_op o h).
Proof.
  intros [W|Hl] Ha Hp.
  - destruct (releases o) eqn:Hr.
    + destruct o; try done; [by apply cleanup_safe|by apply finish_safe].
    + destruct (run_op_safe o h W Ha Hp Hr). split; [by left|done].
  - pose proof (freed_inert o h Hl Hp) as Hb. unfold settles, settled. rewrite Hb. split; [by right|done].
Qed.

Lemma run_ops_settled ops h :
  settled h -> Forall op_args ops -> all_permitted ops h = true ->
  settles h (run_ops ops h).
Proof.
  intros W Ha. revert h W. induction Ha as [|o ops Ho _ IH]; intros h W Hp; [done|].
  cbn in *. apply andb_prop in Hp as [Hp Hps]. destruct (run_op_settled o h W Ho Hp) as [V E].
  destruct (IH _ V Hps) as [V' E']. split; [done|by etrans].
Qed.

Lemma run_ops_safe ops h :
  wf_heap h -> Forall op_args ops -> all_permitted ops h = true -> forallb (fun o => negb (releases o)) ops = true ->
  wf_heap (run_ops ops h).
Proof.
  intros W Ha. revert h W. induction Ha as [|o ops Ho _ IH]; intros h W Hp Hr; [done|].
  cbn in *. apply andb_prop in Hp as [Hp Hps]. apply andb_prop in Hr as [Hr Hrs].
  apply IH; [|done..]. apply run_op_safe; try done. by apply negb_true_iff.
Qed.
End ops.
