(* ===== verification/CbbProps.v ===== *)
(** Properties of the builder: what its operations write, that they stay inside the buffer, that
    errors stick, and that the reader takes back what the builder wrote. *)
From stdpp Require Import gmap sorting.
From S2P Require Import Prelude Der Cbs CbsLemmas CbsAsn1 Cbb CbbLemmas CbbOps SetOf Oid CbbSafe.

(** An allocator that never fails, and zeroed memory. *)
Definition all_ok : Z -> bool := fun _ => true.
Definition zeroed : nat -> Z := fun _ => 0.

(** ** DER trees *)

Inductive der : Type :=
  | Prim (tag : Z) (contents : list Z)
  | Constr (tag : Z) (children : list der).

Fixpoint der_encode (t : der) : list Z :=
  match t with
  | Prim tag c => der_tlv tag c
  | Constr tag ts => der_tlv tag (concat (map der_encode ts))
  end.

(** Every tag is a tag and no contents are too long for a four-byte length. *)
Fixpoint der_fits (t : der) : Prop :=
  match t with
  | Prim tag c => valid_tag tag /\ len c <= 0xfffffffe
  | Constr tag ts =>
      valid_tag tag /\ len (concat (map der_encode ts)) <= 0xfffffffe /\
      (fix go ts := match ts with [] => True | t :: ts => der_fits t /\ go ts end) ts
  end.

Section der_tree.
Context (realloc_ok : Z -> bool) (junk : nat -> Z).

(** A client that writes a tree with nested local children. *)
Fixpoint write_der (t : der) (cbb : nat) : M heap unit :=
  match t with
  | Prim tag c =>
      let* ch := local_child in
      CBB_add_asn1 realloc_ok junk cbb ch tag ;;;
      CBB_add_bytes realloc_ok junk ch c ;;;
      CBB_flush realloc_ok junk cbb
  | Constr tag ts =>
      let* ch := local_child in
      CBB_add_asn1 realloc_ok junk cbb ch tag ;;;
      (fix go ts := match ts with [] => ret tt | t :: ts => write_der t ch ;;; go ts end) ts ;;;
      CBB_flush realloc_ok junk cbb
  end.

Lemma write_der_fills t id : der_fits t -> fills realloc_ok id (write_der t id) (der_encode t) tt.
Proof.
  revert t id. fix IH 1. intros [tag c|tag ts] id; cbn [der_fits write_der der_encode].
  - intros [Ht Hc]. apply fills_asn1; [done|done|]. intros ch. apply fills_bytes.
  - intros (Ht & Hc & Hts).
    apply (fills_asn1 realloc_ok junk id tag _ (fun ch =>
      (fix go ts := match ts with [] => ret tt | t :: ts => write_der t ch ;;; go ts end) ts));
      [done|done|]. intros ch. clear Hc. revert Hts.
    induction ts as [|t ts IHts]; [intros _; apply fills_ret|]. intros [Ht' Hts].
    cbn [map concat]. eapply fills_bind; [by apply IH|by apply IHts].
Qed.
End der_tree.

(** C17: a builder used with nested children, over a growing buffer, produces exactly the DER
    encoding of the tree it was asked to write, whatever its initial capacity: every pending
    length is patched in, and contents are moved up for the long form. *)
Theorem cbb_der_tree malloc_ok realloc_ok junk n h t :
  0 <= n < 2 ^ 64 -> CBB_init malloc_ok junk n = Some h -> (forall k, realloc_ok k = true) ->
  der_fits t -> len (der_encode t) < 2 ^ 64 ->
  fst ((write_der realloc_ok junk t root ;;; CBB_finish realloc_ok junk root true) h)
  = Some (der_encode t).
Proof. intros Hn Hi Hr Ht Hl. eapply run_root; eauto. by apply write_der_fills. Qed.

Example cbb_der_tree_witness :
  fst ((write_der all_ok zeroed (Constr 0x20000010 [Prim 2 [5]; Prim 4 []]) root ;;;
        CBB_finish all_ok zeroed root true)
       (Heap (CbbBuffer [0] 0 1 true false Live) {[ root := root_cbb ]}))
  = Some [0x30; 5; 2; 1; 5; 4; 0].
Proof.
  apply (cbb_der_tree all_ok all_ok zeroed 1 _ (Constr 0x20000010 [Prim 2 [5]; Prim 4 []])).
  - lia.
  - reflexivity.
  - done.
  - repeat split; by vm_compute.
  - by vm_compute.
Defined.

(** ** Length prefixes *)

(** The error branch: a length the prefix cannot hold. *)
Lemma flush_plain_overflow realloc_ok junk h id c ch pre z body :
  pending h id c ch false pre z body -> 256 ^ len z <= len body ->
  exists h', CBB_flush realloc_ok junk id h = (None, h') /\ error (base h') = true.
Proof.
  intros Hp Hb. rewrite (flush_pending _ _ _ _ _ _ _ _ _ _ Hp). destruct Hp.
  unfold flush_prefix. unfold bind at 1, get_obj at 1. rewrite pd_obj.
  cbn [pending_is_asn1 offset pending_len_len child is_child].
  rewrite (bind_some _ _ h _ h) by done. cbv beta iota. rewrite len_to_nat.
  pose proof (content_len h pd_wf) as Hl. rewrite pd_content, !len_app in Hl.
  pose proof (len_nonneg pre). pose proof (len_nonneg body).
  rewrite (bind_some _ _ _ _ _ (store_be_ok h (length z) (len pre) (len body) pd_wf ltac:(lia)
      ltac:(unfold len in *; lia))).
  assert (Hq : len body / 256 ^ Z.of_nat (length z) <> 0).
  { fold (len z). pose proof (Z.div_str_pos (len body) (256 ^ len z)).
    pose proof (pow256_pos z). lia. }
  unfold bind at 1, check_err. destruct (Z.eqb_spec (len body / 256 ^ Z.of_nat (length z)) 0); [done|].
  eexists. split; [reflexivity|done].
Qed.

(** A length-prefixed child of one, two or three bytes writes the big-endian length of what
    the child got and then the child's bytes; when the length does not fit the prefix the flush
    fails and marks the builder. *)
Theorem cbb_length_prefixed realloc_ok junk h id c ch n data :
  ready h id c -> wf_buffer (base h) -> objs h !! ch = None -> (1 <= n <= 3)%nat ->
  room realloc_ok (base h) (Z.of_nat n + len data) ->
  let r := (cbb_add_length_prefixed realloc_ok junk id ch (Z.of_nat n) ;;;
            CBB_add_bytes realloc_ok junk ch data ;;; CBB_flush realloc_ok junk id) h in
  if len data <? 256 ^ Z.of_nat n
  then fst r = Some tt /\ appended realloc_ok h (snd r) (be_bytes n (len data) ++ data)
  else fst r = None /\ error (base (snd r)) = true.
Proof.
  intros Hrd Hwf Hfr Hn Hr r. destruct (Z.ltb_spec (len data) (256 ^ Z.of_nat n)).
  - destruct (prefixed_wrap realloc_ok junk h id c ch n data (CBB_add_bytes realloc_ok junk ch data))
      as (h' & E & A); try done; [lia|apply fills_bytes|]. subst r. by rewrite E.
  - assert (Hne : ch <> id) by (intros ->; destruct Hrd; congruence).
    pose proof (len_nonneg data). pose proof (content_len h Hwf) as Hcl.
    destruct (add_length_prefixed_ok realloc_ok junk h id c ch n Hrd Hwf Hne) as (h1 & E1 & O).
    { eapply room_weaken; [|exact Hr]. lia. }
    subst r. rewrite (bind_some _ _ _ _ _ E1).
    pose proof (opened_ready _ _ _ _ _ _ _ _ _ O Hne) as Hrd1.
    destruct (fills_bytes realloc_ok junk ch data h1 _ Hrd1 (op_wf _ _ _ _ _ _ _ _ _ O)) as (h2 & E2 & A2).
    { apply O; [done|]. rewrite len_app, len_replicate. eapply room_weaken; [|exact Hr]. lia. }
    rewrite (bind_some _ _ _ _ _ E2).
    assert (Hz : 0 < len (replicate n 0)) by (rewrite len_replicate; lia).
    pose proof (opened_pending _ _ _ _ _ _ _ _ _ _ _ Hrd O Hne Hz A2) as Hp.
    destruct (flush_plain_overflow realloc_ok junk _ _ _ _ _ _ _ Hp) as (h3 & E3 & He).
    { by rewrite len_replicate. }
    by rewrite E3.
Qed.

Definition small_heap : heap := Heap (CbbBuffer [7; 7; 7; 7] 1 4 false false Live) {[ root := root_cbb ]}.

Lemma small_heap_ready : ready small_heap root root_cbb.
Proof. by split. Defined.
Lemma small_heap_wf : wf_buffer (base small_heap).
Proof. split; cbn; [lia|lia|reflexivity|reflexivity]. Defined.
Lemma small_heap_room n : 0 <= n <= 3 -> room all_ok (base small_heap) n.
Proof. intros Hn. unfold small_heap, room. cbn. split; [lia|left; lia]. Defined.

(** A fixed buffer of four bytes, one of them used. *)
Example cbb_length_prefixed_witness :
  let r := (cbb_add_length_prefixed all_ok zeroed root 5 1 ;;;
            CBB_add_bytes all_ok zeroed 5 [8; 9] ;;; CBB_flush all_ok zeroed root) small_heap in
  fst r = Some tt /\ appended all_ok small_heap (snd r) [2; 8; 9].
Proof.
  apply (cbb_length_prefixed all_ok zeroed small_heap root root_cbb 5 1 [8; 9]
    small_heap_ready small_heap_wf).
  - reflexivity.
  - lia.
  - apply (small_heap_room 3). lia.
Defined.

(** ** Values *)

(** the four typed writers append exactly the DER encoding of their value: the minimal
    INTEGER of any 64-bit number, signed or unsigned, the OCTET STRING and the BOOLEAN. *)
Theorem cbb_asn1_values realloc_ok junk h id c u i data b :
  ready h id c -> wf_buffer (base h) -> can_resize (base h) = true -> (forall k, realloc_ok k = true) ->
  blen (base h) + len data + 32 < 2 ^ 64 ->
  0 <= u < 2 ^ 64 -> - 2 ^ 63 <= i < 2 ^ 63 -> len data <= 0xfffffffe ->
  let adds (m : M heap unit) d := exists h', m h = (Some tt, h') /\ appended realloc_ok h h' d in
  adds (CBB_add_asn1_uint64 realloc_ok junk id u) (der_tlv CBS_ASN1_INTEGER (int_contents u)) /\
  adds (CBB_add_asn1_int64 realloc_ok junk id i) (der_tlv CBS_ASN1_INTEGER (int_contents i)) /\
  adds (CBB_add_asn1_octet_string realloc_ok junk id data) (der_tlv CBS_ASN1_OCTETSTRING data) /\
  adds (CBB_add_asn1_bool realloc_ok junk id b) (der_tlv CBS_ASN1_BOOLEAN [if b : bool then 0xff else 0]).
Proof.
  intros Hrd Hwf Hres Hall Hroom Hu Hi Hd adds.
  assert (Hr : forall tag c, valid_tag tag -> len c < 2 ^ 32 -> len c <= len data + 9 ->
    room realloc_ok (base h) (len (der_tlv tag c))).
  { intros tag d Ht Hc Hc'. pose proof (der_header_len tag (len d) Ht). pose proof (len_nonneg d).
    unfold der_tlv. rewrite len_app. split; [lia|by right]. }
  pose proof (len_nonneg data). pose proof (int_contents_len_u32 u). pose proof (int_contents_len_u32 i).
  split_and!.
  - eapply add_asn1_uint64_fills; try done. apply Hr; [done|lia..].
  - eapply add_asn1_int64_fills; try done. apply Hr; [done|lia..].
  - apply (fills_asn1 realloc_ok junk id CBS_ASN1_OCTETSTRING data (fun ch => CBB_add_bytes realloc_ok junk ch data))
      with (c := c); try done; [intros; apply fills_bytes|apply Hr; [done|lia..]].
  - apply (fills_asn1 realloc_ok junk id CBS_ASN1_BOOLEAN [if b then 0xff else 0]
      (fun ch => CBB_add_u8 realloc_ok junk ch (if b then 0xff else 0)))
      with (c := c); try done; [intros; apply fills_u8; by destruct b|].
    apply Hr; [done|rewrite len_cons, len_nil; lia..].
Qed.

Definition growing_heap : heap := Heap (CbbBuffer [] 0 0 true false Live) {[ root := root_cbb ]}.

Lemma growing_heap_ready : ready growing_heap root root_cbb.
Proof. by split. Defined.
Lemma growing_heap_wf : wf_buffer (base growing_heap).
Proof. split; cbn; [lia|lia|reflexivity|reflexivity]. Defined.

Example cbb_asn1_values_witness :
  exists h', CBB_add_asn1_int64 all_ok zeroed root (-129) growing_heap = (Some tt, h') /\
    appended all_ok growing_heap h' [2; 2; 0xff; 0x7f].
Proof.
  apply (cbb_asn1_values all_ok zeroed growing_heap root root_cbb 0 (-129) [] true
    growing_heap_ready growing_heap_wf).
  - reflexivity.
  - reflexivity.
  - by vm_compute.
  - lia.
  - lia.
  - by vm_compute.
Defined.

(** The reader takes back every 64-bit integer and boolean the builder writes, and nothing is
    left over. *)
Theorem cbb_cbs_round_trip malloc_ok realloc_ok junk n h u i b :
  0 <= n < 2 ^ 64 -> CBB_init malloc_ok junk n = Some h -> (forall k, realloc_ok k = true) ->
  0 <= u < 2 ^ 64 -> - 2 ^ 63 <= i < 2 ^ 63 ->
  let built (m : M heap unit) := fst ((m ;;; CBB_finish realloc_ok junk root true) h) in
  option_map CBS_get_asn1_uint64 (built (CBB_add_asn1_uint64 realloc_ok junk root u)) = Some (Some u, []) /\
  option_map CBS_get_asn1_int64 (built (CBB_add_asn1_int64 realloc_ok junk root i)) = Some (Some i, []) /\
  option_map CBS_get_asn1_bool (built (CBB_add_asn1_bool realloc_ok junk root b)) = Some (Some b, []).
Proof.
  intros Hn Hi Hall Hu Hiv built.
  assert (Hl : forall tag c, valid_tag tag -> len c <= 9 -> len (der_tlv tag c) < 2 ^ 64).
  { intros tag d Ht Hd. pose proof (der_header_len tag (len d) Ht). pose proof (len_nonneg d).
    unfold der_tlv. rewrite len_app. lia. }
  pose proof (int_contents_len_u32 u). pose proof (int_contents_len_u32 i).
  assert (Hrun : forall m d, len d < 2 ^ 64 -> fills realloc_ok root m d tt -> built m = Some d).
  { intros m d Hd Hm. by apply (run_root realloc_ok junk malloc_ok n). }
  split_and!.
  - rewrite (Hrun _ (der_tlv CBS_ASN1_INTEGER (int_contents u)));
      [|apply Hl; [done|lia]|by apply add_asn1_uint64_fills].
    cbn [option_map]. by rewrite <- (app_nil_r (der_tlv _ _)), get_asn1_uint64_app.
  - rewrite (Hrun _ (der_tlv CBS_ASN1_INTEGER (int_contents i)));
      [|apply Hl; [done|lia]|by apply add_asn1_int64_fills].
    cbn [option_map]. by rewrite <- (app_nil_r (der_tlv _ _)), get_asn1_int64_app.
  - rewrite (Hrun _ (der_tlv CBS_ASN1_BOOLEAN [if b then 0xff else 0]));
      [|apply Hl; [done|rewrite len_cons, len_nil; lia]|].
    + cbn [option_map]. by rewrite <- (app_nil_r (der_tlv _ _)), get_asn1_bool_app.
    + apply (fills_asn1 realloc_ok junk root CBS_ASN1_BOOLEAN _
        (fun ch => CBB_add_u8 realloc_ok junk ch (if b then 0xff else 0)));
        [done|rewrite len_cons, len_nil; lia|].
      intros. apply fills_u8. by destruct b.
Qed.

Example cbb_cbs_round_trip_witness :
  option_map CBS_get_asn1_int64
    (fst ((CBB_add_asn1_int64 all_ok zeroed root (- 2 ^ 63) ;;; CBB_finish all_ok zeroed root true)
          growing_heap)) = Some (Some (- 2 ^ 63), []).
Proof.
  apply (cbb_cbs_round_trip all_ok all_ok zeroed 0 growing_heap 0 (- 2 ^ 63) true).
  - lia.
  - reflexivity.
  - reflexivity.
  - lia.
  - lia.
Defined.

Lemma add_u_overflow realloc_ok junk h id c v n :
  ready h id c -> wf_buffer (base h) -> (1 <= n)%nat -> room realloc_ok (base h) (Z.of_nat n) ->
  256 ^ Z.of_nat n <= v ->
  exists h', cbb_add_u realloc_ok junk id v (Z.of_nat n) h = (None, h') /\ error (base h') = true.
Proof.
  intros Hrd Hwf Hn Hr Hv. unfold cbb_add_u.
  rewrite (bind_some _ _ _ _ _ (flush_ready realloc_ok junk h id c Hrd)).
  unfold bind at 1, get_obj. rewrite (ready_obj _ _ _ Hrd), (ready_base _ _ _ Hrd).
  unfold cbb_buffer_add_u. destruct (Z.eqb_spec (Z.of_nat n) 0); [lia|].
  destruct (add_ok realloc_ok junk h (Z.of_nat n) Hwf ltac:(lia) Hr) as (b' & E & W & Hbl & Hc & He & Hm).
  rewrite (bind_some _ _ _ _ _ E), Nat2Z.id. destruct Hwf as [V1 V2 V3 V4].
  rewrite (bind_some _ _ _ _ _ (store_be_ok (set_buf h b') n (blen (base h)) v W ltac:(lia) ltac:(cbn; lia))).
  assert (v / 256 ^ Z.of_nat n <> 0).
  { pose proof (Z.div_str_pos v (256 ^ Z.of_nat n)). pose proof (Z.pow_pos_nonneg 256 (Z.of_nat n)). lia. }
  unfold check_err. destruct (Z.eqb_spec (v / 256 ^ Z.of_nat n) 0); [done|].
  eexists. split; [reflexivity|done].
Qed.

(** A fixed-width writer appends the big-endian bytes of a value that fits (the [le] ones the
    little-endian bytes), and fails and marks the builder when a three-byte value does not fit. *)
Theorem cbb_fixed_width realloc_ok junk h id c v :
  ready h id c -> wf_buffer (base h) -> room realloc_ok (base h) 8 -> 0 <= v ->
  let adds (m : M heap unit) d := exists h', m h = (Some tt, h') /\ appended realloc_ok h h' d in
  (v < 2 ^ 8 -> adds (CBB_add_u8 realloc_ok junk id v) [v]) /\
  (v < 2 ^ 16 -> adds (CBB_add_u16 realloc_ok junk id v) (be_bytes 2 v)) /\
  (v < 2 ^ 32 -> adds (CBB_add_u32 realloc_ok junk id v) (be_bytes 4 v)) /\
  (v < 2 ^ 64 -> adds (CBB_add_u64 realloc_ok junk id v) (be_bytes 8 v)) /\
  (v < 2 ^ 16 -> adds (CBB_add_u16le realloc_ok junk id v) (le_bytes 2 v)) /\
  (v < 2 ^ 32 -> adds (CBB_add_u32le realloc_ok junk id v) (le_bytes 4 v)) /\
  (v < 2 ^ 64 -> adds (CBB_add_u64le realloc_ok junk id v) (le_bytes 8 v)) /\
  if v <? 2 ^ 24 then adds (CBB_add_u24 realloc_ok junk id v) (be_bytes 3 v)
  else exists h', CBB_add_u24 realloc_ok junk id v h = (None, h') /\ error (base h') = true.
Proof.
  intros Hrd Hwf Hr Hv adds.
  assert (Hbe : forall n, (1 <= n <= 8)%nat -> v < 256 ^ Z.of_nat n ->
    adds (cbb_add_u realloc_ok junk id v (Z.of_nat n)) (be_bytes n v)).
  { intros n Hn Hlt. eapply fills_u; try done; [lia|].
    eapply room_weaken; [|exact Hr]. unfold len. rewrite be_bytes_length. lia. }
  assert (Hle : forall n f, (1 <= n <= 8)%nat -> v < 256 ^ Z.of_nat n ->
    (forall p, Forall byte p -> length p = n -> f (be_value p) = le_value p) ->
    adds (cbb_add_u realloc_ok junk id (f v) (Z.of_nat n)) (le_bytes n v)).
  { intros n f Hn Hlt Hf. destruct (be_bytes_swap n f v) as [Hfv <-]; [lia|done|].
    eapply fills_u; try done; [lia|].
    eapply room_weaken; [|exact Hr]. unfold len. rewrite be_bytes_length. lia. }
  split_and!; intros.
  - rewrite <- be_bytes_1 by (unfold byte; lia). by apply (Hbe 1%nat); [lia|].
  - by apply (Hbe 2%nat); [lia|].
  - by apply (Hbe 4%nat); [lia|].
  - by apply (Hbe 8%nat); [lia|].
  - apply (Hle 2%nat); [lia|done|apply bswap2_bytes].
  - apply (Hle 4%nat); [lia|done|apply bswap4_bytes].
  - apply (Hle 8%nat); [lia|done|apply bswap8_bytes].
  - destruct (Z.ltb_spec v (2 ^ 24)); [by apply (Hbe 3%nat); [lia|]|].
    apply (add_u_overflow realloc_ok junk h id c v 3 Hrd Hwf); [lia| |done].
    eapply room_weaken; [|exact Hr]. lia.
Qed.

Example cbb_fixed_width_witness :
  exists h', CBB_add_u24 all_ok zeroed root (2 ^ 24) growing_heap = (None, h') /\ error (base h') = true.
Proof.
  apply (cbb_fixed_width all_ok zeroed growing_heap root root_cbb (2 ^ 24)
    growing_heap_ready growing_heap_wf).
  - split; cbn; [lia|by right].
  - lia.
Defined.

(** ** Safety and errors *)






(** The contract is needed: a child that is used after its family's buffer was freed is a use after free. *)
Example child_after_cleanup :
  life (base (run_ops all_ok all_ok zeroed [OpAddAsn1 0 1 2; OpCleanup 0; OpAddU 1 5 1] growing_heap)) = Undefined.
Proof. by vm_compute. Qed.

Lemma flush_error realloc_ok junk h id : error (base h) = true -> fst (CBB_flush realloc_ok junk id h) = None.
Proof.
  intros He. unfold CBB_flush. cbn [flush_fuel]. unfold bind at 1, get_obj at 1.
  destruct (objs h !! id) as [p|]; [|done]. unfold bind at 1, check at 1. destruct (has_base p); [|done].
  cbn [ret]. unfold bind at 1. destruct (get_base h) as [[b|] h1] eqn:E; [|done].
  apply get_base_inv in E as [-> ->]. unfold bind at 1, check at 1. by rewrite He.
Qed.

Lemma bind_flush_error {A} realloc_ok junk h id (k : M heap A) :
  error (base h) = true -> fst ((CBB_flush realloc_ok junk id ;;; k) h) = None.
Proof.
  intros He. apply (flush_error realloc_ok junk h id) in He. unfold bind.
  by destruct (CBB_flush realloc_ok junk id h) as [[u|] h'].
Qed.

(** an error sticks.  Once an operation has marked the builder, every further operation that
    adds to it, flushes it or finishes it fails, and the mark is never cleared, so a client may
    check only the last result. *)
Theorem cbb_error_sticks malloc_ok realloc_ok junk h id ch n v tag data text :
  error (base h) = true ->
  fst (CBB_flush realloc_ok junk id h) = None /\
  fst (CBB_finish realloc_ok junk id true h) = None /\
  fst (cbb_add_length_prefixed realloc_ok junk id ch n h) = None /\
  fst (CBB_add_asn1 realloc_ok junk id ch tag h) = None /\
  fst (cbb_add_u realloc_ok junk id v n h) = None /\
  fst (CBB_add_bytes realloc_ok junk id data h) = None /\
  fst (CBB_add_space realloc_ok junk id n h) = None /\
  fst (CBB_reserve realloc_ok junk id n h) = None /\
  fst (CBB_add_asn1_int64 realloc_ok junk id v h) = None /\
  fst (CBB_add_asn1_octet_string realloc_ok junk id data h) = None /\
  fst (CBB_add_asn1_oid_from_text realloc_ok junk id text h) = None /\
  fst (CBB_flush_asn1_set_of malloc_ok realloc_ok junk id h) = None /\
  forall ops, wf_heap h -> Forall op_args ops -> all_permitted malloc_ok realloc_ok junk ops h = true ->
    error (base (run_ops malloc_ok realloc_ok junk ops h)) = true.
Proof.
  intros He.
  assert (Hasn : forall A c t (k : M heap A), fst ((CBB_add_asn1 realloc_ok junk id c t ;;; k) h) = None).
  { intros A c t k. unfold bind at 1. unfold CBB_add_asn1, bind at 1.
    pose proof (flush_error realloc_ok junk h id He) as Hf.
    by destruct (CBB_flush realloc_ok junk id h) as [[u'|] h'']. }
  split_and!; try by apply bind_flush_error.
  - by apply flush_error.
  - unfold CBB_finish. unfold bind at 1, get_obj at 1. destruct (objs h !! id) as [p|]; [|done].
    unfold bind at 1, check. destruct (negb (is_child p)); [|done]. by apply bind_flush_error.
  - unfold CBB_add_asn1_int64, CBB_add_asn1_uint64. destruct (0 <=? v); apply Hasn.
  - apply Hasn.
  - intros ops W Ho Hp.
    destruct (run_ops_settled malloc_ok realloc_ok junk ops h (or_introl W) Ho Hp) as [_ []]. auto.
Qed.

Example cbb_error_sticks_witness :
  fst (CBB_finish all_ok zeroed root true
        (Heap (CbbBuffer [] 0 0 true true Live) {[ root := root_cbb ]})) = None.
Proof.
  apply (cbb_error_sticks all_ok all_ok zeroed
    (Heap (CbbBuffer [] 0 0 true true Live) {[ root := root_cbb ]}) root 1 0 0 0 [] []).
  reflexivity.
Defined.

(** ** Discarding a child *)

(** discarding the pending child takes back the contents and the length prefix and makes the
    parent ready again; the tag of an ASN.1 child was written before the prefix and stays. *)
Theorem cbb_discard_child realloc_ok junk h id c ch tag n data :
  ready h id c -> wf_buffer (base h) -> ch <> id -> valid_tag tag -> (1 <= n)%nat ->
  room realloc_ok (base h) (len (der_identifier tag) + Z.of_nat n + 1 + len data) ->
  let fill := CBB_add_bytes realloc_ok junk ch data ;;; CBB_discard_child id in
  (exists h', (CBB_add_asn1 realloc_ok junk id ch tag ;;; fill) h = (Some tt, h') /\
     content h' = content h ++ der_identifier tag /\ ready h' id c /\ wf_buffer (base h')) /\
  (exists h', (cbb_add_length_prefixed realloc_ok junk id ch (Z.of_nat n) ;;; fill) h = (Some tt, h') /\
     content h' = content h /\ ready h' id c /\ wf_buffer (base h')).
Proof.
  intros Hrd Hwf Hne Ht Hn Hr fill. pose proof (content_len h Hwf) as Hcl.
  pose proof (len_nonneg data). pose proof (len_nonneg (der_identifier tag)).
  assert (Hfill : forall h1 asn1 pre z, opened realloc_ok h h1 id c ch asn1 pre z ->
    room realloc_ok (base h) (len (pre ++ z) - blen (base h) + len data) ->
    exists h', fill h1 = (Some tt, h') /\ content h' = pre /\ ready h' id c /\ wf_buffer (base h')).
  { intros h1 asn1 pre z O Hro. pose proof (opened_ready _ _ _ _ _ _ _ _ _ O Hne) as Hrd1.
    destruct (fills_bytes realloc_ok junk ch data h1 _ Hrd1 (op_wf _ _ _ _ _ _ _ _ _ O)) as (h2 & E2 & A2).
    { by apply O. }
    unfold fill. rewrite (bind_some _ _ _ _ _ E2). destruct O, A2.
    assert (Hid : objs h2 !! id = Some (with_child c ch)).
    { eapply lookup_weaken; [|done]. rewrite op_objs. apply lookup_insert_eq. }
    assert (Hch : objs h2 !! ch = Some (Cbb true None (len pre) (len z) asn1 true)).
    { eapply lookup_weaken; [|done]. apply Hrd1. }
    unfold CBB_discard_child, bind, get_obj, base_of, put_base, put_obj. rewrite Hid. cbn [child has_base with_child].
    rewrite Hch, (ready_base _ _ _ Hrd), get_base_live by apply (wf_live _ app_wf). eexists. split; [reflexivity|].
    pose proof (content_len h2 app_wf) as Hl2. rewrite app_content, op_content, !len_app in Hl2.
    pose proof (len_nonneg pre). pose proof (len_nonneg z).
    split_and!.
    - unfold content at 1. cbn.
      assert (take (Z.to_nat (len pre)) (buf (base h2)) = take (Z.to_nat (len pre)) (content h2)) as ->.
      { unfold content. rewrite take_take. f_equal. lia. }
      rewrite app_content, op_content, <- app_assoc, len_to_nat. by apply take_app_exact.
    - destruct Hrd. split; cbn; try congruence; [|by destruct app_wf]. rewrite lookup_insert_eq. destruct c; cbn in *. by subst.
    - destruct app_wf. split; cbn; try done. lia. }
  split.
  - destruct (add_asn1_ok realloc_ok junk h id c ch tag Hrd Hwf Hne Ht) as (h1 & E1 & O).
    { eapply room_weaken; [|exact Hr]. lia. }
    rewrite (bind_some _ _ _ _ _ E1). eapply Hfill; [exact O|].
    eapply room_weaken; [|exact Hr]. rewrite !len_app. change (len [0]) with 1. lia.
  - destruct (add_length_prefixed_ok realloc_ok junk h id c ch n Hrd Hwf Hne) as (h1 & E1 & O).
    { eapply room_weaken; [|exact Hr]. lia. }
    rewrite (bind_some _ _ _ _ _ E1). eapply Hfill; [exact O|].
    eapply room_weaken; [|exact Hr]. rewrite len_app, len_replicate. lia.
Qed.

Example cbb_discard_child_witness :
  exists h', (CBB_add_asn1 all_ok zeroed root 1 2 ;;; (CBB_add_bytes all_ok zeroed 1 [3; 4] ;;; CBB_discard_child root))
    growing_heap = (Some tt, h') /\ content h' = [2] /\ ready h' root root_cbb /\ wf_buffer (base h').
Proof.
  apply (cbb_discard_child all_ok zeroed growing_heap root root_cbb 1 2 1 [3; 4]
    growing_heap_ready growing_heap_wf).
  - done.
  - by vm_compute.
  - lia.
  - split; [by vm_compute|right; done].
Defined.

(** ** SET OF *)

(** [CBB_flush_asn1_set_of] leaves the same elements in ascending order of their encodings,
    which is the DER order, when the builder holds whole elements. *)
Theorem cbb_set_of_sorted malloc_ok realloc_ok junk h id c els :
  ready h id c -> wf_buffer (base h) -> 0 <= offset c -> 0 <= pending_len_len c ->
  offset c + pending_len_len c <= blen (base h) ->
  let prefix := Z.to_nat (offset c + pending_len_len c) in
  drop prefix (content h) = concat els -> Forall element_bytes els ->
  len els <= SIZE_MAX / sizeof_CBS -> (forall n, malloc_ok n = true) ->
  exists h' els', CBB_flush_asn1_set_of malloc_ok realloc_ok junk id h = (Some tt, h') /\
    content h' = take prefix (content h) ++ concat els' /\
    els' ≡ₚ els /\ StronglySorted lex_le els' /\ ready h' id c.
Proof.
  intros Hrd Hwf H1 H2 H3 prefix Hd Hels Hn Hm.
  destruct (flush_set_of_ok malloc_ok realloc_ok junk h id c els) as (h' & E & Hc & Ho & Hw & He); try done.
  exists h', (merge_sort set_of_le els). split_and!; try done.
  - apply merge_sort_Permutation.
  - pose proof (StronglySorted_merge_sort set_of_le els) as Hs.
    clear Hc. induction Hs as [|a l Hs IH Ha]; [constructor|]. constructor; [done|].
    eapply Forall_impl; [exact Ha|]. intros b. by apply set_of_le_lex.
  - destruct Hrd. split; try congruence. by destruct Hw.
Qed.

Definition unsorted_heap : heap :=
  Heap (CbbBuffer [2; 1; 9; 2; 1; 3] 6 6 false false Live) {[ root := root_cbb ]}.

Example cbb_set_of_sorted_witness :
  exists h' els', CBB_flush_asn1_set_of all_ok all_ok zeroed root unsorted_heap = (Some tt, h') /\
    content h' = concat els' /\ els' ≡ₚ [[2; 1; 9]; [2; 1; 3]] /\ StronglySorted lex_le els' /\
    ready h' root root_cbb.
Proof.
  apply (cbb_set_of_sorted all_ok all_ok zeroed unsorted_heap root root_cbb [[2; 1; 9]; [2; 1; 3]]).
  - by split.
  - split; cbn; [lia|lia|reflexivity|reflexivity].
  - done.
  - done.
  - done.
  - reflexivity.
  - apply Forall_cons. split; [exists 2, [9]|apply Forall_singleton; exists 2, [3]];
      (split_and!; first [by vm_compute | reflexivity | repeat constructor; by vm_compute]).
  - by vm_compute.
  - done.
Defined.

(** ** Object identifiers *)

(** [CBB_add_asn1_oid_from_text] accepts exactly the canonical dotted texts of object
    identifiers with 64-bit components (no empty component, no leading zero, the first two arcs
    in range) and appends their base-128 contents. *)
Theorem oid_from_text_exact realloc_ok junk h id c text :
  ready h id c -> wf_buffer (base h) ->
  can_resize (base h) = true -> (forall n, realloc_ok n = true) ->
  blen (base h) + 10 * len text < 2 ^ 64 ->
  match CBB_add_asn1_oid_from_text realloc_ok junk id text h with
  | (Some _, h') => exists o, valid_oid o /\ text = dotted o /\ appended realloc_ok h h' (oid_contents o)
  | (None, _) => ~ exists o, valid_oid o /\ text = dotted o
  end.
Proof.
  intros Hrd Hwf Hres Hall Hlen.
  assert (Hr : forall o, valid_oid o -> text = dotted o -> room realloc_ok (base h) (len (oid_contents o))).
  { intros o Ho ->. destruct (oid_len o Ho). split; [lia|by right]. }
  destruct (CBB_add_asn1_oid_from_text realloc_ok junk id text h) as [[[]|] h'] eqn:E.
  - destruct (oid_from_text_inv _ _ _ _ _ _ E) as (o & Ho & ->). exists o. split_and!; [done..|].
    destruct (oid_from_text_fills realloc_ok junk id o Ho h c Hrd Hwf (Hr o Ho eq_refl)) as (h1 & E1 & A1).
    congruence.
  - intros (o & Ho & ->).
    destruct (oid_from_text_fills realloc_ok junk id o Ho h c Hrd Hwf (Hr o Ho eq_refl)) as (h1 & E1 & A1).
    congruence.
Qed.

(** "1.2" gives one byte. *)
Example oid_from_text_exact_witness :
  match CBB_add_asn1_oid_from_text all_ok zeroed root [49; 46; 50] growing_heap with
  | (Some _, h') => exists o, valid_oid o /\ [49; 46; 50] = dotted o /\
                              appended all_ok growing_heap h' (oid_contents o)
  | (None, _) => ~ exists o, valid_oid o /\ [49; 46; 50] = dotted o
  end.
Proof.
  apply (oid_from_text_exact all_ok zeroed growing_heap root root_cbb [49; 46; 50]
    growing_heap_ready growing_heap_wf); by vm_compute || done.
Defined.

(** [CBS_asn1_oid_to_text] gives a text for exactly the base-128 contents of such object
    identifiers, it is the dotted text with a final NUL, and adding that text to a builder gives
    the contents back. *)
Theorem oid_text_round_trip malloc_ok realloc_ok junk cbs :
  Forall byte cbs -> 210 * len cbs + 1000 < 2 ^ 64 ->
  malloc_ok sizeof_cbb_buffer_st = true -> malloc_ok 32 = true -> (forall n, realloc_ok n = true) ->
  match CBS_asn1_oid_to_text malloc_ok realloc_ok junk cbs with
  | Some t => exists o, valid_oid o /\ cbs = oid_contents o /\ t = dotted o ++ [0] /\
      forall h, CBB_init malloc_ok junk 0 = Some h ->
        exists h', CBB_add_asn1_oid_from_text realloc_ok junk root (dotted o) h = (Some tt, h') /\
                   content h' = cbs
  | None => ~ exists o, valid_oid o /\ cbs = oid_contents o
  end.
Proof.
  intros Hb Hl Hm1 Hm2 Hall.
  assert (Hc : forall o, valid_oid o -> cbs = oid_contents o ->
    CBS_asn1_oid_to_text malloc_ok realloc_ok junk cbs = Some (dotted o ++ [0])).
  { intros o Ho ->. apply oid_to_text_complete; try done. destruct (oid_len o Ho).
    pose proof (len_nonneg (oid_contents o)). lia. }
  destruct (CBS_asn1_oid_to_text malloc_ok realloc_ok junk cbs) as [t|] eqn:E.
  - destruct (oid_to_text_valid malloc_ok realloc_ok junk cbs t Hb E) as (o & Ho & ->).
    exists o. specialize (Hc o Ho eq_refl). split_and!; [done|done|congruence|].
    intros h Hi. destruct (cbb_init_ready junk malloc_ok 0 h ltac:(lia) Hi) as (Hrd & Hwf & Hc0 & Hbl & Hres).
    destruct (oid_from_text_fills realloc_ok junk root o Ho h root_cbb Hrd Hwf) as (h' & E' & A').
    { split; [pose proof (len_nonneg (oid_contents o)); lia|by right]. }
    exists h'. split; [done|]. by rewrite (app_content _ _ _ _ A'), Hc0.
  - intros (o & Ho & Heq). by specialize (Hc o Ho Heq).
Qed.

(** 1.2.840.113549 *)
Example oid_text_round_trip_witness :
  match CBS_asn1_oid_to_text all_ok all_ok zeroed [0x2a; 0x86; 0x48; 0x86; 0xf7; 0x0d] with
  | Some t => exists o, valid_oid o /\ [0x2a; 0x86; 0x48; 0x86; 0xf7; 0x0d] = oid_contents o /\
      t = dotted o ++ [0] /\
      forall h, CBB_init all_ok zeroed 0 = Some h ->
        exists h', CBB_add_asn1_oid_from_text all_ok zeroed root (dotted o) h = (Some tt, h') /\
                   content h' = [0x2a; 0x86; 0x48; 0x86; 0xf7; 0x0d]
  | None => ~ exists o, valid_oid o /\ [0x2a; 0x86; 0x48; 0x86; 0xf7; 0x0d] = oid_contents o
  end.
Proof.
  apply (oid_text_round_trip all_ok all_ok zeroed [0x2a; 0x86; 0x48; 0x86; 0xf7; 0x0d]);
    try done. repeat constructor; by vm_compute.
Defined.
