(* ===== verification/Unicode.v ===== *)
(** Code points in strings (unicode.c): readers on a [CBS], writers on a [CBB]. *)
From S2P Require Import Prelude Der Cbs CbsLemmas CbsProps Cbb CbbLemmas CbbOps CbbProps.

#[global] Open Scope Z_scope.

Definition is_valid_code_point (v : Z) : bool :=
  negb ((0x10ffff <? v) || (v &. 0xfffe =? 0xfffe) || ((0xfdd0 <=? v) && (v <=? 0xfdef))
        || ((0xd800 <=? v) && (v <=? 0xdfff))).

Definition BOTTOM_BITS (n : Z) : Z := u8 ((1 << n) - 1).
Definition TOP_BITS (n : Z) : Z := u8 (Z.lnot (BOTTOM_BITS (8 - n))).

(** The loop over the continuation bytes. *)
Fixpoint utf8_loop (n : nat) (v : Z) : M CBS Z :=
  match n with
  | O => ret v
  | S n =>
      let* c := CBS_get_u8 in
      check (c &. TOP_BITS 2 =? TOP_BITS 1) ;;;
      utf8_loop n (u32 (v << 6) |. (c &. BOTTOM_BITS 6))
  end.

Definition cbs_get_utf8 : M CBS Z :=
  let* c := CBS_get_u8 in
  if c <=? 0x7f then ret c
  else
    let tail (v : Z) (len : nat) (lower_bound : Z) :=
      let* v := utf8_loop len v in
      check (negb (negb (is_valid_code_point v) || (v <? lower_bound))) ;;;
      ret v in
    if c &. TOP_BITS 3 =? TOP_BITS 2 then tail (c &. BOTTOM_BITS 5) 1%nat 0x80
    else if c &. TOP_BITS 4 =? TOP_BITS 3 then tail (c &. BOTTOM_BITS 4) 2%nat 0x800
    else if c &. TOP_BITS 5 =? TOP_BITS 4 then tail (c &. BOTTOM_BITS 3) 3%nat 0x10000
    else fail.

Definition cbs_get_latin1 : M CBS Z := CBS_get_u8.

Definition cbs_get_ucs2_be : M CBS Z :=
  let* c := CBS_get_u16 in
  check (is_valid_code_point c) ;;;
  ret c.

Definition cbs_get_utf32_be : M CBS Z :=
  let* c := CBS_get_u32 in
  check (is_valid_code_point c) ;;;
  ret c.

Definition cbb_get_utf8_len (u : Z) : Z :=
  if u <=? 0x7f then 1 else if u <=? 0x7ff then 2 else if u <=? 0xffff then 3 else 4.

Section writers.
Context (realloc_ok : Z -> bool) (junk : nat -> Z).
#[local] Abbreviation CBB_add_u8 := (CBB_add_u8 realloc_ok junk).

Definition cbb_add_utf8 (cbb : nat) (u : Z) : M heap unit :=
  check (is_valid_code_point u) ;;;
  if u <=? 0x7f then CBB_add_u8 cbb (u8 u)
  else if u <=? 0x7ff then
    CBB_add_u8 cbb (u8 (TOP_BITS 2 |. (u >> 6))) ;;;
    CBB_add_u8 cbb (u8 (TOP_BITS 1 |. (u &. BOTTOM_BITS 6)))
  else if u <=? 0xffff then
    CBB_add_u8 cbb (u8 (TOP_BITS 3 |. (u >> 12))) ;;;
    CBB_add_u8 cbb (u8 (TOP_BITS 1 |. ((u >> 6) &. BOTTOM_BITS 6))) ;;;
    CBB_add_u8 cbb (u8 (TOP_BITS 1 |. (u &. BOTTOM_BITS 6)))
  else if u <=? 0x10ffff then
    CBB_add_u8 cbb (u8 (TOP_BITS 4 |. (u >> 18))) ;;;
    CBB_add_u8 cbb (u8 (TOP_BITS 1 |. ((u >> 12) &. BOTTOM_BITS 6))) ;;;
    CBB_add_u8 cbb (u8 (TOP_BITS 1 |. ((u >> 6) &. BOTTOM_BITS 6))) ;;;
    CBB_add_u8 cbb (u8 (TOP_BITS 1 |. (u &. BOTTOM_BITS 6)))
  else fail.

Definition cbb_add_latin1 (cbb : nat) (u : Z) : M heap unit :=
  check (u <=? 0xff) ;;; CBB_add_u8 cbb (u8 u).

Definition cbb_add_ucs2_be (cbb : nat) (u : Z) : M heap unit :=
  check ((u <=? 0xffff) && is_valid_code_point u) ;;;
  CBB_add_u16 realloc_ok junk cbb (u16 u).

Definition cbb_add_utf32_be (cbb : nat) (u : Z) : M heap unit :=
  check (is_valid_code_point u) ;;; CBB_add_u32 realloc_ok junk cbb u.
End writers.

(** ** UTF-8, as RFC 3629 writes it *)

Definition utf8 (u : Z) : list Z :=
  if u <? 0x80 then [u]
  else if u <? 0x800 then [0xc0 + u / 64; 0x80 + u mod 64]
  else if u <? 0x10000 then [0xe0 + u / 4096; 0x80 + u / 64 mod 64; 0x80 + u mod 64]
  else [0xf0 + u / 262144; 0x80 + u / 4096 mod 64; 0x80 + u / 64 mod 64; 0x80 + u mod 64].

(** A code point that may be exchanged: no surrogate and no noncharacter. *)
Definition code_point (u : Z) : Prop :=
  0 <= u <= 0x10ffff /\ ~ 0xd800 <= u <= 0xdfff /\ ~ 0xfdd0 <= u <= 0xfdef /\ u mod 65536 < 65534.

(** Code points: the UTF-8 reader accepts exactly RFC 3629 encodings of code points, and the
    writers and readers of the four encodings agree. *)
#[global] Open Scope Z_scope.

Lemma land_fffe v : v &. 0xfffe = 2 * ((v / 2) mod 32768).
Proof.
  change 0xfffe with (0x7fff << 1). rewrite Z.land_comm, land_shiftl_l by done.
  rewrite Z.land_comm, (land_ones_mod _ 15) by done. rewrite Z.shiftr_div_pow2, Z.shiftl_mul_pow2 by done.
  change (2 ^ 15) with 32768. change (2 ^ 1) with 2. lia.
Qed.

Lemma is_valid_code_point_spec v : 0 <= v -> is_valid_code_point v = true <-> code_point v.
Proof.
  intros Hv. unfold is_valid_code_point, code_point. rewrite land_fffe, negb_true_iff, !orb_false_iff, !andb_false_iff.
  rewrite Z.ltb_ge, Z.eqb_neq, !Z.leb_gt. split.
  - intros [[[H1 H2] H3] H4]. split; [lia|]. split; [lia|]. split; [lia|]. Z.div_mod_to_equations; lia.
  - intros (H1 & H2 & H3 & H4). split; [|lia]. split; [|lia]. split; [lia|]. Z.div_mod_to_equations; lia.
Qed.

(** The masks, on bytes. *)
Lemma bool_bytes (f g : Z -> bool) : forallb (fun i => eqb (f (Z.of_nat i)) (g (Z.of_nat i))) (seq 0 256) = true ->
  forall b, byte b -> f b = g b.
Proof.
  intros H b Hb. unfold byte in Hb. rewrite forallb_forall in H. specialize (H (Z.to_nat b)).
  rewrite Z2Nat.id in H by lia. apply eqb_prop, H, in_seq. lia.
Qed.

Lemma lead2 b : byte b -> (b &. TOP_BITS 3 =? TOP_BITS 2) = (0xc0 <=? b) && (b <? 0xe0).
Proof. revert b. apply bool_bytes. by vm_compute. Qed.
Lemma lead3 b : byte b -> (b &. TOP_BITS 4 =? TOP_BITS 3) = (0xe0 <=? b) && (b <? 0xf0).
Proof. revert b. apply bool_bytes. by vm_compute. Qed.
Lemma lead4 b : byte b -> (b &. TOP_BITS 5 =? TOP_BITS 4) = (0xf0 <=? b) && (b <? 0xf8).
Proof. revert b. apply bool_bytes. by vm_compute. Qed.
Lemma continuation b : byte b -> (b &. TOP_BITS 2 =? TOP_BITS 1) = (0x80 <=? b) && (b <? 0xc0).
Proof. revert b. apply bool_bytes. by vm_compute. Qed.

Lemma bottom6 b : b &. BOTTOM_BITS 6 = b mod 64.
Proof. apply (land_ones_mod b 6); done. Qed.
Lemma bottom5 b : b &. BOTTOM_BITS 5 = b mod 32.
Proof. apply (land_ones_mod b 5); done. Qed.
Lemma bottom4 b : b &. BOTTOM_BITS 4 = b mod 16.
Proof. apply (land_ones_mod b 4); done. Qed.
Lemma bottom3 b : b &. BOTTOM_BITS 3 = b mod 8.
Proof. apply (land_ones_mod b 3); done. Qed.

(** One continuation byte. *)
Lemma utf8_loop_cons n v c s : byte c -> 0 <= v < 2 ^ 26 ->
  utf8_loop (S n) v (c :: s) =
    if (0x80 <=? c) && (c <? 0xc0) then utf8_loop n (v * 64 + c mod 64) s else (None, s).
Proof.
  intros Hc Hv. cbn [utf8_loop]. unfold bind. rewrite CBS_get_u8_cons, continuation by done.
  destruct (_ && _); [|done]. cbn [check ret]. unfold ret. rewrite bottom6.
  rewrite Z.shiftl_mul_pow2 by done. change (2 ^ 6) with 64. unfold u32. rewrite Z.mod_small by lia.
  change (v * 64) with (v * 2 ^ 6) at 1. rewrite (lor_mul_add v (c mod 64) 6); [done|done|].
  apply Z.mod_pos_bound. lia.
Qed.

Lemma utf8_loop_nil n v : utf8_loop (S n) v [] = (None, []).
Proof. cbn [utf8_loop]. unfold bind. by rewrite CBS_get_u8_nil. Qed.

Lemma utf8_bytes u : code_point u -> Forall byte (utf8 u).
Proof.
  intros [Hu _]. unfold utf8, byte.
  destruct (Z.ltb_spec u 0x80); [|destruct (Z.ltb_spec u 0x800); [|destruct (Z.ltb_spec u 0x10000)]];
    repeat (apply List.Forall_cons; [Z.div_mod_to_equations; lia|]); apply List.Forall_nil.
Qed.

(** The end of [cbs_get_utf8]: [v] is checked against the shortest form. *)
Definition utf8_check (v lower_bound : Z) : M CBS Z :=
  check (negb (negb (is_valid_code_point v) || (v <? lower_bound))) ;;; ret v.

Lemma utf8_check_spec v lb s : 0 <= v ->
  utf8_check v lb s = if decide (code_point v /\ lb <= v) then (Some v, s) else (None, s).
Proof.
  intros Hv. unfold utf8_check, bind. pose proof (is_valid_code_point_spec v Hv) as Hc.
  destruct (is_valid_code_point v) eqn:E; cbn [negb orb].
  - destruct (Z.ltb_spec v lb); cbn.
    + rewrite decide_False; [done|]. lia.
    + rewrite decide_True; [done|]. split; [by apply Hc|lia].
  - rewrite decide_False; [done|]. intros [H _]. apply Hc in H. done.
Qed.

(** The reader, with the masks as ranges. *)
Definition utf8_tail (v : Z) (n : nat) (lower_bound : Z) : M CBS Z :=
  let* v := utf8_loop n v in utf8_check v lower_bound.

Lemma cbs_get_utf8_cons b s : byte b ->
  cbs_get_utf8 (b :: s) =
    if b <? 0x80 then (Some b, s)
    else if (0xc0 <=? b) && (b <? 0xe0) then utf8_tail (b mod 32) 1 0x80 s
    else if (0xe0 <=? b) && (b <? 0xf0) then utf8_tail (b mod 16) 2 0x800 s
    else if (0xf0 <=? b) && (b <? 0xf8) then utf8_tail (b mod 8) 3 0x10000 s
    else (None, s).
Proof.
  intros Hb. unfold cbs_get_utf8, bind at 1. rewrite CBS_get_u8_cons, lead2, lead3, lead4, bottom5, bottom4, bottom3 by done.
  replace (b <? 0x80) with (b <=? 0x7f) by (destruct (Z.leb_spec b 0x7f), (Z.ltb_spec b 0x80); lia).
  destruct (b <=? 0x7f); [done|]. destruct (_ && _); [done|]. destruct (_ && _); [done|]. by destruct (_ && _).
Qed.

(** What a continuation loop that succeeds has read. *)
Lemma utf8_loop_inv n v s u r : Forall byte s -> (n <= 3)%nat -> 0 <= v < 2 ^ (26 - 6 * Z.of_nat n) ->
  utf8_loop n v s = (Some u, r) ->
  exists cs, s = cs ++ r /\ length cs = n /\ Forall (fun c => 0x80 <= c < 0xc0) cs /\
    u = fold_left (fun v c => v * 64 + c mod 64) cs v.
Proof.
  intros Hs. revert v s Hs. induction n as [|n IH]; intros v s Hs Hn Hv.
  - cbn. intros [= <- <-]. by exists [].
  - destruct s as [|c s]; [by rewrite utf8_loop_nil|]. apply Forall_cons in Hs as [Hc Hs].
    assert (2 ^ (26 - 6 * Z.of_nat (S n)) <= 2 ^ 26) by (apply Z.pow_le_mono_r; lia).
    rewrite utf8_loop_cons by (done || lia). destruct (Z.leb_spec 0x80 c); [|done].
    destruct (Z.ltb_spec c 0xc0); [|done]. cbn [andb]. pose proof (Z.mod_pos_bound c 64 ltac:(lia)). intros E.
    destruct (IH (v * 64 + c mod 64) s Hs ltac:(lia)) as (cs & -> & <- & Hcs & ->); [|done|].
    + replace (26 - 6 * Z.of_nat n) with (6 + (26 - 6 * Z.of_nat (S n))) by lia. rewrite Z.pow_add_r by lia.
      change (2 ^ 6) with 64. lia.
    + exists (c :: cs). split; [done|]. split; [done|]. split; [by constructor|done].
Qed.

(** The encoding is what the leading byte and the continuation bytes say. *)
Lemma utf8_tail_sound n v lb s u r : Forall byte s -> (n <= 3)%nat -> 0 <= v < 2 ^ (26 - 6 * Z.of_nat n) ->
  utf8_tail v n lb s = (Some u, r) ->
  exists cs, s = cs ++ r /\ length cs = n /\ Forall (fun c => 0x80 <= c < 0xc0) cs /\
    u = fold_left (fun v c => v * 64 + c mod 64) cs v /\ code_point u /\ lb <= u.
Proof.
  intros Hs Hn Hv E. unfold utf8_tail, bind in E. destruct (utf8_loop n v s) as [[u'|] r'] eqn:El; [|done].
  destruct (utf8_loop_inv n v s u' r' Hs Hn Hv El) as (cs & -> & Hl & Hcs & Hu).
  assert (Hu' : 0 <= u').
  { rewrite Hu. clear - Hv. destruct Hv as [Hv _]. revert v Hv. induction cs as [|c cs IH]; intros v Hv; cbn; [done|].
    apply IH. pose proof (Z.mod_pos_bound c 64). lia. }
  rewrite utf8_check_spec in E by done. destruct (decide _) as [[Hc Hlb]|]; [|done]. injection E as <- <-.
  exists cs. done.
Qed.

Lemma lead_bound b k n : 0 < k <= 32 -> (n <= 3)%nat -> 0 <= b mod k < 2 ^ (26 - 6 * Z.of_nat n).
Proof.
  intros Hk Hn. pose proof (Z.mod_pos_bound b k ltac:(lia)).
  assert (2 ^ 8 <= 2 ^ (26 - 6 * Z.of_nat n)) by (apply Z.pow_le_mono_r; lia). lia.
Qed.

Lemma utf8_sound s u r : Forall byte s -> cbs_get_utf8 s = (Some u, r) -> code_point u /\ s = utf8 u ++ r.
Proof.
  destruct s as [|b s]; intros Hs; [done|]. apply Forall_cons in Hs as [Hb Hs].
  rewrite cbs_get_utf8_cons by done. destruct (Z.ltb_spec b 0x80) as [Hlt|Hge].
  { intros [= <- <-]. unfold byte in Hb. unfold utf8. destruct (Z.ltb_spec b 0x80); [|lia]. split; [|done].
    unfold code_point. rewrite Z.mod_small; lia. }
  destruct ((0xc0 <=? b) && (b <? 0xe0)) eqn:E2; [|destruct ((0xe0 <=? b) && (b <? 0xf0)) eqn:E3;
    [|destruct ((0xf0 <=? b) && (b <? 0xf8)) eqn:E4; [|done]]]; bool_to_prop.
  - intros E. destruct (utf8_tail_sound 1 _ _ _ _ _ Hs ltac:(lia) (lead_bound b 32 1 ltac:(lia) ltac:(lia)) E)
      as ([|c1 [|]] & -> & Hl & Hcs & -> & Hc & Hlb); try done. split; [done|]. cbn [fold_left] in *.
    repeat (apply Forall_cons in Hcs as [? Hcs]). unfold utf8.
    destruct (Z.ltb_spec (b mod 32 * 64 + c1 mod 64) 0x80); [lia|].
    destruct (Z.ltb_spec (b mod 32 * 64 + c1 mod 64) 0x800); [|Z.div_mod_to_equations; lia].
    cbn [app]. f_equal; [|f_equal]; Z.div_mod_to_equations; lia.
  - intros E. destruct (utf8_tail_sound 2 _ _ _ _ _ Hs ltac:(lia) (lead_bound b 16 2 ltac:(lia) ltac:(lia)) E)
        as ([|c1 [|c2 [|]]] & -> & Hl & Hcs & -> & Hc & Hlb); try done. split; [done|]. cbn [fold_left] in *.
      repeat (apply Forall_cons in Hcs as [? Hcs]).
      set (u := (b mod 16 * 64 + c1 mod 64) * 64 + c2 mod 64) in *.
      assert (Hu : u = (b - 0xe0) * 4096 + (c1 - 0x80) * 64 + (c2 - 0x80)).
      { unfold u. clearbody u. Z.div_mod_to_equations; lia. }
      unfold utf8. destruct (Z.ltb_spec u 0x80); [lia|]. destruct (Z.ltb_spec u 0x800); [lia|].
      destruct (Z.ltb_spec u 0x10000); [|lia]. clearbody u. cbn [app].
      f_equal; [|f_equal; [|f_equal]]; subst u; Z.div_mod_to_equations; lia.
  - intros E. destruct (utf8_tail_sound 3 _ _ _ _ _ Hs ltac:(lia) (lead_bound b 8 3 ltac:(lia) ltac:(lia)) E)
        as ([|c1 [|c2 [|c3 [|]]]] & -> & Hl & Hcs & -> & Hc & Hlb); try done. split; [done|]. cbn [fold_left] in *.
      repeat (apply Forall_cons in Hcs as [? Hcs]).
      set (u := ((b mod 8 * 64 + c1 mod 64) * 64 + c2 mod 64) * 64 + c3 mod 64) in *.
      assert (Hu : u = (b - 0xf0) * 262144 + (c1 - 0x80) * 4096 + (c2 - 0x80) * 64 + (c3 - 0x80)).
      { unfold u. clearbody u. Z.div_mod_to_equations; lia. }
      unfold utf8. destruct (Z.ltb_spec u 0x80); [lia|]. destruct (Z.ltb_spec u 0x800); [lia|].
      destruct (Z.ltb_spec u 0x10000); [lia|]. clearbody u. cbn [app].
      f_equal; [|f_equal; [|f_equal; [|f_equal]]]; subst u; Z.div_mod_to_equations; lia.
Qed.

Lemma utf8_loop_digit n v x s : 0 <= x < 64 -> 0 <= v < 2 ^ 26 ->
  utf8_loop (S n) v (0x80 + x :: s) = utf8_loop n (v * 64 + x) s.
Proof.
  intros Hx Hv. rewrite utf8_loop_cons by (done || (unfold byte; lia)).
  rewrite (proj2 (Z.leb_le _ _)), (proj2 (Z.ltb_lt _ _)) by lia. cbn [andb].
  replace ((0x80 + x) mod 64) with x by (Z.div_mod_to_equations; lia). done.
Qed.

Lemma utf8_complete u r : code_point u -> cbs_get_utf8 (utf8 u ++ r) = (Some u, r).
Proof.
  intros Hc. pose proof Hc as [Hu _].
  assert (Hd : forall v lb, v = u -> lb <= u -> utf8_check v lb r = (Some u, r)).
  { intros v lb -> Hlb. rewrite utf8_check_spec, decide_True by (done || lia). done. }
  assert (Hmod : forall a, 0 <= a mod 64 < 64) by (intros; apply Z.mod_pos_bound; lia).
  assert (Hle : forall a b, a <= b -> (a <=? b) = true) by (intros; by apply Z.leb_le).
  assert (Hgt : forall a b, b < a -> (a <=? b) = false) by (intros; by apply Z.leb_gt).
  assert (Hlt : forall a b, a < b -> (a <? b) = true) by (intros; by apply Z.ltb_lt).
  assert (Hge : forall a b, b <= a -> (a <? b) = false) by (intros; by apply Z.ltb_ge).
  assert (H26 : 2 ^ 26 = 67108864) by done.
  unfold utf8. destruct (Z.ltb_spec u 0x80); [|destruct (Z.ltb_spec u 0x800); [|destruct (Z.ltb_spec u 0x10000)]]; cbn [app].
  - rewrite cbs_get_utf8_cons by (unfold byte; lia). by rewrite Hlt.
  - assert (0 <= u / 64 < 32) by (Z.div_mod_to_equations; lia).
    rewrite cbs_get_utf8_cons by (unfold byte; lia). rewrite Hge, Hle, Hlt by lia. cbn [andb].
    replace ((0xc0 + u / 64) mod 32) with (u / 64) by (apply (Z.mod_unique _ _ 6); lia).
    unfold utf8_tail, bind. rewrite utf8_loop_digit by (done || lia). apply Hd; [|lia]. Z.div_mod_to_equations; lia.
  - assert (0 <= u / 4096 < 16) by (Z.div_mod_to_equations; lia).
    rewrite cbs_get_utf8_cons by (unfold byte; lia). rewrite Hge, Hle, (Hge _ 0xe0), Hle, Hlt by lia. cbn [andb].
    replace ((0xe0 + u / 4096) mod 16) with (u / 4096) by (apply (Z.mod_unique _ _ 14); lia).
    pose proof (Hmod (u / 64)). unfold utf8_tail, bind. rewrite !utf8_loop_digit by (done || lia).
    apply Hd; [|lia]. Z.div_mod_to_equations; lia.
  - assert (0 <= u / 262144 < 5) by (Z.div_mod_to_equations; lia).
    rewrite cbs_get_utf8_cons by (unfold byte; lia).
    rewrite Hge, Hle, (Hge _ 0xe0), Hle, (Hge _ 0xf0), Hle, Hlt by lia. cbn [andb].
    replace ((0xf0 + u / 262144) mod 8) with (u / 262144) by (apply (Z.mod_unique _ _ 30); lia).
    pose proof (Hmod (u / 64)). pose proof (Hmod (u / 4096)). unfold utf8_tail, bind.
    rewrite !utf8_loop_digit by (done || lia). apply Hd; [|lia]. Z.div_mod_to_equations; lia.
Qed.

(** ** The writers *)

Lemma put2 v : 0 <= v < 32 -> u8 (TOP_BITS 2 |. v) = 0xc0 + v.
Proof. apply (range_eq 32 (fun v => u8 (TOP_BITS 2 |. v)) (fun v => 0xc0 + v)). by vm_compute. Qed.
Lemma put3 v : 0 <= v < 16 -> u8 (TOP_BITS 3 |. v) = 0xe0 + v.
Proof. apply (range_eq 16 (fun v => u8 (TOP_BITS 3 |. v)) (fun v => 0xe0 + v)). by vm_compute. Qed.
Lemma put4 v : 0 <= v < 8 -> u8 (TOP_BITS 4 |. v) = 0xf0 + v.
Proof. apply (range_eq 8 (fun v => u8 (TOP_BITS 4 |. v)) (fun v => 0xf0 + v)). by vm_compute. Qed.
Lemma put1 v : 0 <= v < 64 -> u8 (TOP_BITS 1 |. v) = 0x80 + v.
Proof. apply (range_eq 64 (fun v => u8 (TOP_BITS 1 |. v)) (fun v => 0x80 + v)). by vm_compute. Qed.

Section writers.
Context (realloc_ok : Z -> bool) (junk : nat -> Z).

Lemma fills_check (b : bool) ch (m : M heap unit) l : b = true -> fills realloc_ok ch m l tt ->
  fills realloc_ok ch (check b ;;; m) l tt.
Proof. intros -> H h c. apply H. Qed.

Lemma fills_u8_seq ch v l (m : M heap unit) : byte v -> fills realloc_ok ch m l tt ->
  fills realloc_ok ch (CBB_add_u8 realloc_ok junk ch v ;;; m) (v :: l) tt.
Proof. intros Hv Hm. apply (fills_bind realloc_ok ch _ (fun _ => m) [v] l tt); [by apply fills_u8|done]. Qed.

Lemma add_utf8_fills ch u : code_point u -> fills realloc_ok ch (cbb_add_utf8 realloc_ok junk ch u) (utf8 u) tt.
Proof.
  intros Hc. pose proof Hc as [Hu _]. apply fills_check; [apply is_valid_code_point_spec; [lia|done]|].
  pose proof (utf8_bytes u Hc) as Hb. unfold utf8 in *. rewrite !bottom6, !Z.shiftr_div_pow2 by done.
  change (2 ^ 6) with 64. change (2 ^ 12) with 4096. change (2 ^ 18) with 262144.
  assert (Hmod : forall a, 0 <= a mod 64 < 64) by (intros; apply Z.mod_pos_bound; lia).
  destruct (Z.leb_spec u 0x7f), (Z.ltb_spec u 0x80); try lia.
  { rewrite u8_id by (unfold byte; lia). apply fills_u8. unfold byte; lia. }
  destruct (Z.leb_spec u 0x7ff), (Z.ltb_spec u 0x800); try lia;
    [|destruct (Z.leb_spec u 0xffff), (Z.ltb_spec u 0x10000); try lia; [|destruct (Z.leb_spec u 0x10ffff); [|lia]]].
  all: repeat (apply Forall_cons in Hb as [? Hb]).
  - rewrite put2, put1 by (apply Hmod || (Z.div_mod_to_equations; lia)). apply fills_u8_seq; [done|by apply fills_u8].
  - rewrite put3, !put1 by (apply Hmod || (Z.div_mod_to_equations; lia)).
    do 2 (apply fills_u8_seq; [done|]). by apply fills_u8.
  - rewrite put4, !put1 by (apply Hmod || (Z.div_mod_to_equations; lia)).
    do 3 (apply fills_u8_seq; [done|]). by apply fills_u8.
Qed.
End writers.

(** ** Properties *)

(** The UTF-8 reader accepts exactly the shortest encodings of code points.  On every byte
    string [cbs_get_utf8] returns [u] and the rest if the string begins with the RFC 3629
    encoding of a code point [u] that is neither a surrogate nor a noncharacter, and fails
    otherwise: overlong forms, stray continuation bytes and truncated sequences included. *)
Theorem utf8_reader_exact s : Forall byte s ->
  match cbs_get_utf8 s with
  | (Some u, rest) => code_point u /\ s = utf8 u ++ rest
  | (None, _) => forall u rest, code_point u -> s <> utf8 u ++ rest
  end.
Proof.
  intros Hs. destruct (cbs_get_utf8 s) as [[u|] r] eqn:E; [by apply utf8_sound|].
  intros u rest Hc ->. by rewrite utf8_complete in E.
Qed.

Lemma utf8_reader_exact_witness :
  Forall byte [0xe2; 0x82; 0xac; 0x21] /\ code_point 0x20ac /\
  [0xe2; 0x82; 0xac; 0x21] = utf8 0x20ac ++ [0x21].
Proof.
  assert (H : Forall byte [0xe2; 0x82; 0xac; 0x21]) by (repeat (apply List.Forall_cons; [unfold byte; lia|]); apply List.Forall_nil).
  split; [exact H|]. exact (utf8_reader_exact _ H).
Defined.

(** Every code point survives the four encodings.  What [cbb_add_utf8] and [cbb_add_utf32_be]
    put into a new builder, and [cbb_add_ucs2_be] and [cbb_add_latin1] when the encoding has the
    code point, is read back by the matching reader, which leaves what follows;
    [cbb_get_utf8_len] is the number of bytes written, and the writers refuse what is no code
    point. *)
Theorem unicode_round_trip malloc_ok realloc_ok junk n h u rest :
  0 <= n < 2 ^ 64 -> CBB_init malloc_ok junk n = Some h -> (forall k, realloc_ok k = true) -> 0 <= u < 2 ^ 32 ->
  let built (m : M heap unit) := fst ((m ;;; CBB_finish realloc_ok junk root true) h) in
  let reads (read : M CBS Z) (m : M heap unit) :=
    option_map (fun bytes => read (bytes ++ rest)) (built m) = Some (Some u, rest) in
  if is_valid_code_point u then
    reads cbs_get_utf8 (cbb_add_utf8 realloc_ok junk root u) /\
    option_map len (built (cbb_add_utf8 realloc_ok junk root u)) = Some (cbb_get_utf8_len u) /\
    reads cbs_get_utf32_be (cbb_add_utf32_be realloc_ok junk root u) /\
    (u <= 0xffff -> reads cbs_get_ucs2_be (cbb_add_ucs2_be realloc_ok junk root u)) /\
    (u <= 0xff -> reads cbs_get_latin1 (cbb_add_latin1 realloc_ok junk root u))
  else
    cbb_add_utf8 realloc_ok junk root u h = (None, h) /\
    cbb_add_utf32_be realloc_ok junk root u h = (None, h) /\
    cbb_add_ucs2_be realloc_ok junk root u h = (None, h).
Proof.
  intros Hn Hi Hall Hu built reads. destruct (is_valid_code_point u) eqn:Hv.
  2:{ unfold cbb_add_utf8, cbb_add_utf32_be, cbb_add_ucs2_be. by rewrite Hv, andb_false_r. }
  pose proof (proj1 (is_valid_code_point_spec u ltac:(lia)) Hv) as Hc.
  assert (Hrun : forall m d, len d < 2 ^ 64 -> fills realloc_ok root m d tt -> built m = Some d).
  { intros m d Hd Hm. by apply (run_root realloc_ok junk malloc_ok n). }
  assert (Hbe : forall k, (1 <= k <= 4)%nat -> u < 256 ^ Z.of_nat k ->
    cbs_get_u (Z.of_nat k) (be_bytes k u ++ rest) = (Some u, rest)).
  { intros k Hk Hlt. rewrite cbs_get_u_app; [|auto with bytes|unfold len; by rewrite be_bytes_length|lia].
    by rewrite be_value_bytes by (by split; [lia|]). }
  assert (Hfill : forall k, (1 <= k <= 4)%nat -> u < 256 ^ Z.of_nat k ->
    fills realloc_ok root (cbb_add_u realloc_ok junk root u (Z.of_nat k)) (be_bytes k u) tt).
  { intros k Hk Hlt. apply fills_u; [lia|lia]. }
  assert (Hlen : forall k, (1 <= k <= 4)%nat -> len (be_bytes k u) < 2 ^ 64).
  { intros k Hk. unfold len. rewrite be_bytes_length. lia. }
  assert (Hbuilt : built (cbb_add_utf8 realloc_ok junk root u) = Some (utf8 u)).
  { apply Hrun; [|by apply add_utf8_fills]. unfold utf8, len. repeat (destruct (_ <? _)); cbn [length]; lia. }
  unfold reads. rewrite Hbuilt. cbn [option_map].
  split; [by rewrite utf8_complete|]. split; [|split; [|split]].
  - f_equal. unfold utf8, cbb_get_utf8_len. zcases; done.
  - rewrite (Hrun _ (be_bytes 4 u)); [|apply Hlen; lia|].
    + cbn [option_map]. unfold cbs_get_utf32_be, CBS_get_u32, bind.
      pose proof (Hbe 4%nat ltac:(lia) ltac:(cbn; lia)) as H4. change (Z.of_nat 4) with 4 in H4. rewrite H4. unfold ret at 1.
      unfold u32. rewrite Z.mod_small by lia. by rewrite Hv.
    + apply fills_check; [done|]. apply (Hfill 4%nat); [lia|cbn; lia].
  - intros Hle. rewrite (Hrun _ (be_bytes 2 u)); [|apply Hlen; lia|].
    + cbn [option_map]. unfold cbs_get_ucs2_be, CBS_get_u16, bind.
      pose proof (Hbe 2%nat ltac:(lia) ltac:(cbn; lia)) as H2. change (Z.of_nat 2) with 2 in H2. rewrite H2. unfold ret at 1.
      unfold u16. rewrite Z.mod_small by lia. by rewrite Hv.
    + apply fills_check; [by rewrite Hv, (proj2 (Z.leb_le _ _) Hle)|]. unfold u16. rewrite Z.mod_small by lia.
      apply (Hfill 2%nat); [lia|cbn; lia].
  - intros Hle. rewrite (Hrun _ [u]); [|rewrite len_cons, len_nil; lia|].
    + cbn [option_map app]. unfold cbs_get_latin1. by rewrite CBS_get_u8_cons.
    + apply fills_check; [by apply Z.leb_le|]. rewrite u8_id by (unfold byte; lia). apply fills_u8. unfold byte; lia.
Qed.

Lemma unicode_round_trip_witness :
  option_map (fun bytes => cbs_get_utf8 (bytes ++ [0x41]))
    (fst ((cbb_add_utf8 all_ok zeroed root 0x1f600 ;;; CBB_finish all_ok zeroed root true) growing_heap))
  = Some (Some 0x1f600, [0x41]).
Proof.
  exact (proj1 (unicode_round_trip all_ok all_ok zeroed 0 growing_heap 0x1f600 [0x41] ltac:(lia) eq_refl
    (fun _ => eq_refl) ltac:(lia))).
Defined.
