(* ===== verification/Ber.v ===== *)
(** BER to DER (ber.c): finding BER in an input, converting it, and constructed strings.

    The parsers consume a byte string that gets shorter with every element and every level of
    nesting, so its length bounds the recursion: [fuel] counts both. *)
From stdpp Require Import gmap.
From S2P Require Import Prelude Der Cbs CbsLemmas CbsAsn1 Cbb CbbLemmas CbbOps CbbProps.

#[global] Open Scope Z_scope.

Definition kMaxDepth : Z := 2048.

(** [tag & CBS_ASN1_CONSTRUCTED], and [tag & ~CBS_ASN1_CONSTRUCTED]. *)
Definition constructed (tag : Z) : bool := negb (tag &. CBS_ASN1_CONSTRUCTED =? 0).
Definition primitive_tag (tag : Z) : Z := Z.ldiff tag CBS_ASN1_CONSTRUCTED.

Definition is_string_type (tag : Z) : bool :=
  existsb (Z.eqb (primitive_tag tag))
    [CBS_ASN1_OCTETSTRING; CBS_ASN1_UTF8STRING; CBS_ASN1_NUMERICSTRING; CBS_ASN1_PRINTABLESTRING;
     CBS_ASN1_T61STRING; CBS_ASN1_VIDEOTEXSTRING; CBS_ASN1_IA5STRING; CBS_ASN1_GRAPHICSTRING;
     CBS_ASN1_VISIBLESTRING; CBS_ASN1_GENERALSTRING; CBS_ASN1_UNIVERSALSTRING; CBS_ASN1_BMPSTRING].

(** [cbs_find_ber] is the depth check, then the loop; [ber_found] is [*ber_found], which every
    parsed element and every recursive call overwrites. *)
Fixpoint find_ber_loop (fuel : nat) (ber_found : bool) (inp : CBS) (depth : Z) : option bool :=
  match fuel with
  | O => None
  | S fuel =>
      if CBS_len inp <=? 0 then Some ber_found
      else
        match CBS_get_any_ber_asn1_element inp with
        | (None, _) => None
        | (Some el, inp) =>
            if el_ber_found el then Some true
            else if constructed (el_tag el) then
              if is_string_type (el_tag el) then Some true
              else
                match CBS_skip (el_header_len el) (el_out el) with
                | (None, _) => None
                | (Some _, contents) =>
                    if kMaxDepth <? depth + 1 then None
                    else match find_ber_loop fuel false contents (depth + 1) with
                         | None => None
                         | Some ber_found => find_ber_loop fuel ber_found inp depth
                         end
                end
            else find_ber_loop fuel (el_ber_found el) inp depth
        end
  end.

Definition cbs_find_ber (orig_in : CBS) (depth : Z) : option bool :=
  if kMaxDepth <? depth then None
  else find_ber_loop (S (length orig_in)) false (CBS_init (CBS_data orig_in)) depth.

Definition is_eoc (header_len : Z) (contents : CBS) : bool :=
  (header_len =? 2) && (CBS_len contents =? 2) && bool_decide (take 2 (CBS_data contents) = [0; 0]).

(** [in] and the family of builders that [out] belongs to. *)
Definition convert_state : Type := CBS * heap.
Definition on_in {A} (m : M CBS A) : M convert_state A := fun s =>
  let '(r, c) := m s.1 in (r, (c, s.2)).
Definition on_out {A} (m : M heap A) : M convert_state A := fun s =>
  let '(r, h) := m s.2 in (r, (s.1, h)).
(** Run on another [CBS] and leave [in] alone. *)
Definition on_contents {A} (contents : CBS) (m : M convert_state A) : M convert_state A := fun s =>
  let '(r, s') := m (contents, s.2) in (r, (s.1, s'.2)).

Section convert.
Context (malloc_ok realloc_ok : Z -> bool) (junk : nat -> Z).

Fixpoint cbs_convert_ber (fuel : nat) (out : nat) (string_tag : Z) (looking_for_eoc : bool) (depth : Z)
    : M convert_state unit :=
  match fuel with
  | O => fail
  | S fuel =>
      if kMaxDepth <? depth then fail
      else fun s =>
        if CBS_len s.1 <=? 0 then check (negb looking_for_eoc) s
        else
          (let* el := on_in CBS_get_any_ber_asn1_element in
           let tag := el_tag el in
           let header_len := el_header_len el in
           let contents := el_out el in
           if is_eoc header_len contents then check looking_for_eoc
           else
             let* '(out_contents, child_string_tag) :=
               (if negb (string_tag =? 0) then
                  check (primitive_tag tag =? string_tag) ;;; ret (out, string_tag)
                else
                  let '(out_tag, child_string_tag) :=
                    if constructed tag && is_string_type tag
                    then (primitive_tag tag, primitive_tag tag) else (tag, string_tag) in
                  let* out_contents_storage := on_out local_child in
                  on_out (CBB_add_asn1 realloc_ok junk out out_contents_storage out_tag) ;;;
                  ret (out_contents_storage, child_string_tag)) in
             (if (CBS_len contents =? header_len) && (0 <? header_len)
                 && (nth (Z.to_nat (header_len - 1)) contents 0 =? 0x80)
              then cbs_convert_ber fuel out_contents child_string_tag true (depth + 1)
              else
                match CBS_skip header_len contents with
                | (None, _) => fail
                | (Some _, contents) =>
                    if constructed tag
                    then on_contents contents (cbs_convert_ber fuel out_contents child_string_tag false (depth + 1))
                    else on_out (CBB_add_bytes realloc_ok junk out_contents (CBS_data contents))
                end) ;;;
             on_out (CBB_flush realloc_ok junk out) ;;;
             cbs_convert_ber fuel out string_tag looking_for_eoc depth) s
  end.

(** The element, and [*out_storage] if it had to be made. *)
Definition CBS_asn1_ber_to_der : M CBS (CBS * option (list Z)) := fun inp =>
  match cbs_find_ber inp 0 with
  | None => (None, inp)
  | Some false =>
      (let* el := CBS_get_any_asn1_element in ret (el_out el, None)) inp
  | Some true =>
      match CBB_init malloc_ok junk (CBS_len inp) with
      | None => (None, inp)
      | Some h =>
          let '(r, (inp, h)) := cbs_convert_ber (S (length inp)) root 0 false 0 (inp, h) in
          match r with
          | None => (None, inp)
          | Some _ =>
              match CBB_finish realloc_ok junk root true h with
              | (None, _) => (None, inp)
              | (Some out_storage, _) => (Some (CBS_init out_storage, Some out_storage), inp)
              end
          end
      end
  end.

(** The loop over the chunks of a constructed string. *)
Fixpoint implicit_string_loop (fuel : nat) (inner_tag : Z) (child : CBS) : M heap unit :=
  match fuel with
  | O => fail
  | S fuel =>
      if CBS_len child <=? 0 then ret tt
      else match CBS_get_asn1 inner_tag child with
           | (None, _) => fail
           | (Some chunk, child) =>
               CBB_add_bytes realloc_ok junk root (CBS_data chunk) ;;;
               implicit_string_loop fuel inner_tag child
           end
  end.

Definition CBS_get_asn1_implicit_string (outer_tag inner_tag : Z) : M CBS (CBS * option (list Z)) := fun inp =>
  if CBS_peek_asn1_tag inp outer_tag
  then (let* out := CBS_get_asn1 outer_tag in ret (out, None)) inp
  else
    match CBB_init malloc_ok junk (CBS_len inp) with
    | None => (None, inp)
    | Some result =>
        match CBS_get_asn1 (outer_tag |. CBS_ASN1_CONSTRUCTED) inp with
        | (None, inp) => (None, inp)
        | (Some child, inp) =>
            match (implicit_string_loop (S (length child)) inner_tag child ;;;
                   CBB_finish realloc_ok junk root true) result with
            | (None, _) => (None, inp)
            | (Some data, _) => (Some (CBS_init data, Some data), inp)
            end
        end
    end.
End convert.

(** BER: DER inputs pass unchanged, constructed strings are joined, and an input whose BER is
    missed. *)
#[global] Open Scope Z_scope.

(** Elements in DER, constructed ones nested [d] deep at most, none of them a constructed string. *)
Inductive der_forest : nat -> list Z -> Prop :=
| der_nil d : der_forest d []
| der_prim d tag c rest :
    valid_tag tag -> constructed tag = false -> Forall byte c -> len c < 2 ^ 32 ->
    der_forest d rest -> der_forest d (der_tlv tag c ++ rest)
| der_constr d tag c rest :
    valid_tag tag -> constructed tag = true -> is_string_type tag = false -> Forall byte c -> len c < 2 ^ 32 ->
    der_forest d c -> der_forest (S d) rest -> der_forest (S d) (der_tlv tag c ++ rest).

Lemma der_tlv_length tag c : valid_tag tag -> len c < 2 ^ 32 -> (2 + length c <= length (der_tlv tag c))%nat.
Proof.
  intros Ht Hc. pose proof (der_header_len tag (len c) Ht ltac:(pose proof (len_nonneg c); lia)) as Hh.
  unfold der_tlv. rewrite length_app. unfold len in *. lia.
Qed.

Lemma ber_element tag c rest : valid_tag tag -> Forall byte c -> len c < 2 ^ 32 ->
  CBS_get_any_ber_asn1_element (der_tlv tag c ++ rest)
  = (Some (Element (der_tlv tag c) tag (len (der_header tag (len c))) false), rest).
Proof. apply any_element_complete. Qed.

Lemma nonempty_tlv tag c rest : valid_tag tag -> len c < 2 ^ 32 -> (CBS_len (der_tlv tag c ++ rest) <=? 0) = false.
Proof.
  intros Ht Hc. pose proof (der_tlv_length tag c Ht Hc). apply Z.leb_gt. unfold CBS_len, len. rewrite length_app. lia.
Qed.

Lemma find_ber_der fuel d s depth : (length s < fuel)%nat -> der_forest d s -> depth + Z.of_nat d <= kMaxDepth ->
  find_ber_loop fuel false s depth = Some false.
Proof.
  revert d s depth. induction fuel as [|fuel IH]; intros d s depth Hf Hs Hd; [lia|]. cbn [find_ber_loop].
  destruct Hs as [d|d tag c rest Ht Hp Hb Hc Hr|d tag c rest Ht Hp Hst Hb Hc Hn Hr]; [done| ..];
    pose proof (der_tlv_length tag c Ht Hc) as Hl; rewrite length_app in Hf;
    rewrite nonempty_tlv, ber_element by done; cbn [el_ber_found el_tag el_out el_header_len].
  - rewrite Hp. apply (IH d); [lia|done|done].
  - rewrite Hp, Hst, CBS_skip_header. destruct (Z.ltb_spec kMaxDepth (depth + 1)); [lia|].
    rewrite (IH d) by (done || lia). apply (IH (S d)); [lia|done|done].
Qed.

(** DER input is recognised and handed through.  If the input is a sequence of DER elements,
    nested no deeper than [kMaxDepth] and with no constructed strings in it, then
    [CBS_asn1_ber_to_der] returns the bytes of its first element as they are, allocates nothing
    and leaves the rest; on input that ends it fails and moves nothing. *)
Theorem ber_der_unchanged malloc_ok realloc_ok junk d s :
  der_forest d s -> Z.of_nat d <= kMaxDepth ->
  cbs_find_ber s 0 = Some false /\
  CBS_asn1_ber_to_der malloc_ok realloc_ok junk s =
    match CBS_get_any_asn1_element s with
    | (Some el, rest) => (Some (el_out el, None), rest)
    | (None, rest) => (None, rest)
    end /\
  (forall tag c rest, s = der_tlv tag c ++ rest -> valid_tag tag -> Forall byte c -> len c < 2 ^ 32 ->
     CBS_asn1_ber_to_der malloc_ok realloc_ok junk s = (Some (der_tlv tag c, None), rest)).
Proof.
  intros Hs Hd. assert (Hfind : cbs_find_ber s 0 = Some false).
  { unfold cbs_find_ber. destruct (Z.ltb_spec kMaxDepth 0); [done|]. apply (find_ber_der _ d); [unfold CBS_data, CBS_init; lia|done|lia]. }
  split; [done|]. unfold CBS_asn1_ber_to_der. rewrite Hfind. split.
  - unfold bind. by destruct (CBS_get_any_asn1_element s) as [[el|] rest].
  - intros tag c rest -> Ht Hb Hc. unfold bind, CBS_get_any_asn1_element. by rewrite any_element_complete.
Qed.

Lemma ber_der_unchanged_witness :
  der_forest 1 [0x30; 3; 2; 1; 5; 9; 0] /\
  CBS_asn1_ber_to_der all_ok all_ok zeroed [0x30; 3; 2; 1; 5; 9; 0] = (Some ([0x30; 3; 2; 1; 5], None), [9; 0]).
Proof.
  assert (Hb : Forall byte [2; 1; 5]) by bytes_lit.
  assert (H5 : Forall byte [5]) by bytes_lit.
  assert (H : der_forest 1 [0x30; 3; 2; 1; 5; 9; 0]).
  { apply (der_constr 0 CBS_ASN1_SEQUENCE [2; 1; 5] [9; 0]); try done.
    - apply (der_prim 0 CBS_ASN1_INTEGER [5] []); [done|done|done|done|constructor].
    - apply (der_prim 1 9 [] []); [done|done|constructor|done|constructor]. }
  split; [exact H|].
  apply (proj2 (proj2 (ber_der_unchanged all_ok all_ok zeroed 1 _ H ltac:(done))) CBS_ASN1_SEQUENCE [2; 1; 5] [9; 0]);
    first [reflexivity|exact Hb|done].
Defined.

(** An indefinite-length SEQUENCE inside a SEQUENCE, followed by an INTEGER: the flag that the
    recursive call sets is overwritten by the next element, and the BER is returned as DER. *)
Example ber_before_der_sibling_missed :
  cbs_find_ber [0x30; 4; 0x30; 0x80; 0; 0] 0 = Some true /\
  let s := [0x30; 9; 0x30; 4; 0x30; 0x80; 0; 0; 2; 1; 5] in
  cbs_find_ber s 0 = Some false /\
  CBS_asn1_ber_to_der all_ok all_ok zeroed s = (Some (s, None), []).
Proof. vm_compute. auto. Qed.

(** The same elements in the other order are converted. *)
Example ber_after_der_sibling_converted :
  CBS_asn1_ber_to_der all_ok all_ok zeroed [0x30; 9; 2; 1; 5; 0x30; 4; 0x30; 0x80; 0; 0] =
    (Some ([0x30; 7; 2; 1; 5; 0x30; 2; 0x30; 0], Some [0x30; 7; 2; 1; 5; 0x30; 2; 0x30; 0]), []).
Proof. vm_compute. reflexivity. Qed.

(** ** Constructed strings *)

Definition chunk_ok (c : list Z) : Prop := Forall byte c /\ len c < 2 ^ 32.

Lemma implicit_loop_fills realloc_ok junk fuel tag chunks : valid_tag tag -> Forall chunk_ok chunks ->
  (length (concat (map (der_tlv tag) chunks)) < fuel)%nat ->
  fills realloc_ok root (implicit_string_loop realloc_ok junk fuel tag (concat (map (der_tlv tag) chunks)))
    (concat chunks) tt.
Proof.
  intros Ht Hc. revert fuel. induction Hc as [|c chunks [Hb Hl] Hcs IH]; intros fuel Hf.
  - destruct fuel; [lia|]. apply fills_ret.
  - cbn [map concat] in *. destruct fuel as [|fuel]; [lia|]. cbn [implicit_string_loop].
    pose proof (der_tlv_length tag c Ht Hl). rewrite length_app in Hf.
    rewrite nonempty_tlv, get_asn1_app by done.
    eapply fills_bind; [apply fills_bytes|]. apply IH. lia.
Qed.

Lemma concat_chunks_len tag chunks : valid_tag tag -> Forall chunk_ok chunks ->
  len (concat chunks) <= len (concat (map (der_tlv tag) chunks)).
Proof.
  intros Ht. induction 1 as [|c chunks [Hb Hl] Hc IH]; cbn [map concat]; [done|]. rewrite !len_app.
  pose proof (der_tlv_length tag c Ht Hl). unfold len in *. lia.
Qed.

Lemma constructed_lor t : constructed (t |. CBS_ASN1_CONSTRUCTED) = true.
Proof.
  unfold constructed. assert (H : (t |. CBS_ASN1_CONSTRUCTED) &. CBS_ASN1_CONSTRUCTED = CBS_ASN1_CONSTRUCTED).
  { apply Z.bits_inj'. intros i Hi. rewrite Z.land_spec, Z.lor_spec. by destruct (Z.testbit t i), (Z.testbit _ i). }
  by rewrite H.
Qed.

(** An implicitly tagged string is its contents, or the chunks of its constructed form in
    order.  [CBS_get_asn1_implicit_string] returns the contents of an element with the outer tag
    without allocating, and for the constructed outer tag a new string that joins the contents of
    elements with the inner tag; either way it leaves what follows the element. *)
Theorem implicit_string_joined malloc_ok realloc_ok junk outer inner rest :
  (forall n, malloc_ok n = true) -> (forall n, realloc_ok n = true) ->
  valid_tag outer -> constructed outer = false -> valid_tag inner ->
  (forall c, chunk_ok c ->
     CBS_get_asn1_implicit_string malloc_ok realloc_ok junk outer inner (der_tlv outer c ++ rest) = (Some (c, None), rest)) /\
  (forall chunks, Forall chunk_ok chunks ->
     let contents := concat (map (der_tlv inner) chunks) in
     len contents < 2 ^ 32 -> len rest < 2 ^ 63 ->
     CBS_get_asn1_implicit_string malloc_ok realloc_ok junk outer inner
       (der_tlv (outer |. CBS_ASN1_CONSTRUCTED) contents ++ rest) = (Some (concat chunks, Some (concat chunks)), rest)).
Proof.
  intros Hm Hr Ho Hp Hi.
  assert (Htag : forall tag c, valid_tag tag -> chunk_ok c ->
    CBS_peek_asn1_tag (der_tlv tag c ++ rest) outer = (outer =? tag)).
  { intros tag c Ht [Hb Hl]. unfold CBS_peek_asn1_tag. pose proof (nonempty_tlv tag c rest Ht Hl) as Hne.
    destruct (Z.ltb_spec (CBS_len (der_tlv tag c ++ rest)) 1); [apply Z.leb_gt in Hne; lia|].
    unfold der_tlv, der_header. rewrite <- !app_assoc. by rewrite parse_asn1_tag_complete. }
  split.
  - intros c [Hb Hl]. unfold CBS_get_asn1_implicit_string. rewrite Htag, Z.eqb_refl by done.
    unfold bind. by rewrite get_asn1_app.
  - intros chunks Hc contents Hl Hrest. set (ctag := outer |. CBS_ASN1_CONSTRUCTED).
    assert (Hct : valid_tag ctag) by (apply (lor_range _ _ 32); [lia|done|done]).
    assert (Hb : Forall byte contents).
    { apply Forall_concat, Forall_fmap. eapply Forall_impl; [exact Hc|]. intros c [Hb Hlc]. by apply der_tlv_byte. }
    unfold CBS_get_asn1_implicit_string. rewrite Htag by done.
    destruct (Z.eqb_spec outer ctag) as [E|_].
    { rewrite E in Hp. unfold ctag in Hp. by rewrite constructed_lor in Hp. }
    assert (Hlen : 0 <= CBS_len (der_tlv ctag contents ++ rest) < 2 ^ 64).
    { unfold CBS_len. pose proof (len_nonneg contents). pose proof (len_nonneg rest).
      pose proof (der_header_len ctag (len contents) Hct ltac:(lia)). unfold der_tlv. rewrite !len_app. lia. }
    destruct (CBB_init malloc_ok junk _) as [h|] eqn:Ei.
    2:{ exfalso. unfold CBB_init, cbb_init in Ei. by rewrite !Hm, andb_false_r in Ei. }
    rewrite get_asn1_app by done.
    pose proof (run_root realloc_ok junk malloc_ok _ h (implicit_string_loop realloc_ok junk (S (length contents)) inner contents)
      (concat chunks) Hlen Ei Hr) as Hrun.
    assert (Hfill : fst ((implicit_string_loop realloc_ok junk (S (length contents)) inner contents ;;;
      CBB_finish realloc_ok junk root true) h) = Some (concat chunks)).
    { apply Hrun; [pose proof (concat_chunks_len inner chunks Hi Hc); unfold contents in *; lia|].
      apply implicit_loop_fills; [done|done|unfold contents; lia]. }
    destruct (bind _ _ h) as [[out|] h']; cbn [fst] in Hfill; [|done]. by injection Hfill as ->.
Qed.

Lemma implicit_string_joined_witness :
  valid_tag 0x80000000 /\ constructed 0x80000000 = false /\ Forall chunk_ok [[65; 66]; [67]] /\
  CBS_get_asn1_implicit_string all_ok all_ok zeroed 0x80000000 CBS_ASN1_OCTETSTRING
    (der_tlv (0x80000000 |. CBS_ASN1_CONSTRUCTED) [4; 2; 65; 66; 4; 1; 67] ++ [9])
  = (Some ([65; 66; 67], Some [65; 66; 67]), [9]).
Proof.
  assert (H : Forall chunk_ok [[65; 66]; [67]]).
  { do 2 (apply List.Forall_cons; [split; [bytes_lit|done]|]). apply List.Forall_nil. }
  split; [done|]. split; [done|]. split; [exact H|].
  apply (proj2 (implicit_string_joined all_ok all_ok zeroed 0x80000000 CBS_ASN1_OCTETSTRING [9]
    (fun _ => eq_refl) (fun _ => eq_refl) ltac:(done) eq_refl ltac:(done)) [[65; 66]; [67]] H); done.
Defined.
