(* ===== verification/Base64.v ===== *)
(** Base64 (crypto/base64/base64.c) with the constant-time helpers of crypto/internal.h it uses.

    What a function stores through its output pointer is returned as a list of bytes.  The
    encoders end what they write with a NUL that their length does not count: the lists here
    leave it out, and [EVP_EncodedLength] counts it.  A crypto word has 64 bits. *)
From S2P Require Import Prelude.

(** ** Constant-time words *)

Definition constant_time_msb_w (a : Z) : Z := u64 (0 - (a >> (64 - 1))).
Definition constant_time_is_zero_w (a : Z) : Z :=
  constant_time_msb_w (u64 (Z.lnot a) &. u64 (a - 1)).
Definition constant_time_eq_w (a b : Z) : Z := constant_time_is_zero_w (a ^. b).
Definition constant_time_eq_8 (a b : Z) : Z := u8 (constant_time_eq_w a b).
Definition constant_time_lt_w (a b : Z) : Z :=
  constant_time_msb_w (a ^. ((a ^. b) |. (u64 (a - b) ^. a))).
Definition constant_time_ge_w (a b : Z) : Z := u64 (Z.lnot (constant_time_lt_w a b)).
Definition constant_time_select_w (mask a b : Z) : Z := (mask &. a) |. (u64 (Z.lnot mask) &. b).
Definition constant_time_select_8 (mask a b : Z) : Z := u8 (constant_time_select_w mask (u8 a) (u8 b)).

Definition constant_time_lt_args_8 (a b : Z) : Z := u8 (constant_time_msb_w (u64 (a - b))).
Definition constant_time_in_range_8 (a min max : Z) : Z :=
  constant_time_lt_args_8 (u8 (a - min)) (u8 (max - min + 1)).

(** ** Characters *)

Definition chr_plus : Z := 43.
Definition chr_slash : Z := 47.
Definition chr_0 : Z := 48.
Definition chr_9 : Z := 57.
Definition chr_eq : Z := 61.
Definition chr_A : Z := 65.
Definition chr_Z : Z := 90.
Definition chr_a : Z := 97.
Definition chr_z : Z := 122.
Definition chr_nl : Z := 10.

(** ** Encoding *)

Definition conv_bin2ascii (a : Z) : Z :=
  let a := u8 a &. 0x3f in
  let ret := constant_time_select_8 (constant_time_eq_8 a 62) chr_plus chr_slash in
  let ret := constant_time_select_8 (constant_time_lt_args_8 a 62) (a - 52 + chr_0) ret in
  let ret := constant_time_select_8 (constant_time_lt_args_8 a 52) (a - 26 + chr_a) ret in
  constant_time_select_8 (constant_time_lt_args_8 a 26) (a + chr_A) ret.

(** [None]: the length does not fit [size_t]. *)
Definition EVP_EncodedLength (n : Z) : option Z :=
  if u64 (n + 2) <? n then None
  else
    let n := u64 (n + 2) / 3 in
    if negb ((u64 (n << 2) >> 2) =? n) then None
    else
      let n := u64 (n << 2) in
      if u64 (n + 1) <? n then None else Some (u64 (n + 1)).

(** One round of the loop per constructor; the result's length is the [size_t] it returns. *)
Fixpoint EVP_EncodeBlock (src : list Z) : list Z :=
  match src with
  | [] => []
  | s0 :: rest =>
      match rest with
      | [] =>
          let l := s0 << 16 in
          [conv_bin2ascii (l >> 18); conv_bin2ascii (l >> 12); chr_eq; chr_eq]
      | s1 :: rest =>
          match rest with
          | [] =>
              let l := (s0 << 16) |. (s1 << 8) in
              [conv_bin2ascii (l >> 18); conv_bin2ascii (l >> 12); conv_bin2ascii (l >> 6); chr_eq]
          | s2 :: rest =>
              let l := (s0 << 16) |. (s1 << 8) |. s2 in
              conv_bin2ascii (l >> 18) :: conv_bin2ascii (l >> 12) :: conv_bin2ascii (l >> 6)
                :: conv_bin2ascii l :: EVP_EncodeBlock rest
          end
      end
  end.

(** [struct evp_encode_ctx_st] *)
Record EVP_ENCODE_CTX := EncodeCtx {
  data_used : Z;
  data : list Z;         (* uint8_t data[48] *)
  eof_seen : bool;
  error_encountered : bool;
}.

Definition sizeof_data : Z := 48.

(** All fields zero: [EVP_EncodeInit], [EVP_DecodeInit] and [EVP_ENCODE_CTX_new]. *)
Definition EVP_EncodeInit : EVP_ENCODE_CTX := EncodeCtx 0 (replicate 48 0) false false.
Definition EVP_DecodeInit : EVP_ENCODE_CTX := EncodeCtx 0 (replicate 48 0) false false.
Definition EVP_ENCODE_CTX_new (malloc_ok : bool) : option EVP_ENCODE_CTX :=
  if malloc_ok then Some EVP_EncodeInit else None.

(** [memcpy(&data[off], in, len in)] *)
Definition data_write (off : Z) (l data : list Z) : list Z :=
  take (Z.to_nat off) data ++ l ++ drop (Z.to_nat off + length l) data.

(** [while (in_len >= sizeof(ctx->data))]: the output, its counted total and the input left;
    [None] is the early return on a wrapped total.  Each round takes 48 bytes. *)
Fixpoint encode_lines (fuel : nat) (out : list Z) (total : Z) (inp : list Z)
    : list Z * option (Z * list Z) :=
  match fuel with
  | O => (out, None)
  | S fuel =>
      if sizeof_data <=? len inp then
        let line := EVP_EncodeBlock (take 48 inp) in
        let out := out ++ line ++ [chr_nl] in
        if u64 (total + len line + 1) <? total then (out, None)
        else encode_lines fuel out (u64 (total + len line + 1)) (drop 48 inp)
      else (out, Some (total, inp))
  end.

(** The context, what is written and [*out_len]. *)
Definition EVP_EncodeUpdate (ctx : EVP_ENCODE_CTX) (inp : list Z) : EVP_ENCODE_CTX * list Z * Z :=
  if len inp =? 0 then (ctx, [], 0)
  else if len inp <? sizeof_data - data_used ctx then
    (EncodeCtx (data_used ctx + len inp) (data_write (data_used ctx) inp (data ctx))
       (eof_seen ctx) (error_encountered ctx), [], 0)
  else
    let '(ctx, out, total, inp) :=
      if negb (data_used ctx =? 0) then
        let todo := sizeof_data - data_used ctx in
        let data := data_write (data_used ctx) (take (Z.to_nat todo) inp) (data ctx) in
        let line := EVP_EncodeBlock data in
        (EncodeCtx 0 data (eof_seen ctx) (error_encountered ctx), line ++ [chr_nl], len line + 1,
         drop (Z.to_nat todo) inp)
      else (ctx, [], 0, inp) in
    match encode_lines (S (length inp)) out total inp with
    | (out, None) => (ctx, out, 0)
    | (out, Some (total, inp)) =>
        let total := if INT_MAX <? total then 0 else total in
        (EncodeCtx (len inp) (data_write 0 inp (data ctx)) (eof_seen ctx) (error_encountered ctx),
         out, total)
    end.

Definition EVP_EncodeFinal (ctx : EVP_ENCODE_CTX) : EVP_ENCODE_CTX * list Z * Z :=
  if data_used ctx =? 0 then (ctx, [], 0)
  else
    let encoded := EVP_EncodeBlock (take (Z.to_nat (data_used ctx)) (data ctx)) ++ [chr_nl] in
    (EncodeCtx 0 (data ctx) (eof_seen ctx) (error_encountered ctx), encoded, len encoded).

(** ** Decoding *)

Definition EVP_DecodedLength (n : Z) : option Z :=
  if negb (n mod 4 =? 0) then None else Some (n / 4 * 3).

Definition base64_ascii_to_bin (a : Z) : Z :=
  let is_upper := constant_time_in_range_8 a chr_A chr_Z in
  let is_lower := constant_time_in_range_8 a chr_a chr_z in
  let is_digit := constant_time_in_range_8 a chr_0 chr_9 in
  let is_plus := constant_time_eq_8 a chr_plus in
  let is_slash := constant_time_eq_8 a chr_slash in
  let is_equals := constant_time_eq_8 a chr_eq in
  let ret := 0 in
  let ret := u8 (ret |. (is_upper &. (a - chr_A))) in
  let ret := u8 (ret |. (is_lower &. (a - chr_a + 26))) in
  let ret := u8 (ret |. (is_digit &. (a - chr_0 + 52))) in
  let ret := u8 (ret |. (is_plus &. 62)) in
  let ret := u8 (ret |. (is_slash &. 63)) in
  let is_valid := is_upper |. is_lower |. is_digit |. is_plus |. is_slash |. is_equals in
  u8 (ret |. Z.lnot is_valid).

(** The bytes of one quad. *)
Definition base64_decode_quad (in0 in1 in2 in3 : Z) : option (list Z) :=
  let a := base64_ascii_to_bin in0 in
  let b := base64_ascii_to_bin in1 in
  let c := base64_ascii_to_bin in2 in
  let d := base64_ascii_to_bin in3 in
  if (a =? 0xff) || (b =? 0xff) || (c =? 0xff) || (d =? 0xff) then None
  else
    let v := (a << 18) |. (b << 12) |. (c << 6) |. d in
    let bit (x : Z) := if x =? chr_eq then 1 else 0 in
    let padding_pattern := (bit in0 << 3) |. (bit in1 << 2) |. (bit in2 << 1) |. bit in3 in
    if padding_pattern =? 0 then Some [u8 (v >> 16); u8 (v >> 8); u8 v]
    else if padding_pattern =? 1 then Some [u8 (v >> 16); u8 (v >> 8)]
    else if padding_pattern =? 3 then Some [u8 (v >> 16)]
    else None.

#[global] Arguments base64_decode_quad : simpl never.

Definition is_space (c : Z) : bool := (c =? 32) || (c =? 9) || (c =? 13) || (c =? 10).

(** The loop of [EVP_DecodeUpdate]: the context, what is written, and whether it ran to the
    end. *)
Fixpoint decode_loop (ctx : EVP_ENCODE_CTX) (out : list Z) (inp : list Z)
    : EVP_ENCODE_CTX * list Z * bool :=
  match inp with
  | [] => (ctx, out, true)
  | c :: inp =>
      if is_space c then decode_loop ctx out inp
      else if eof_seen ctx then
        (EncodeCtx (data_used ctx) (data ctx) (eof_seen ctx) true, out, false)
      else
        let data := data_write (data_used ctx) [c] (data ctx) in
        let data_used := data_used ctx + 1 in
        if data_used =? 4 then
          match base64_decode_quad (nth 0 data 0) (nth 1 data 0) (nth 2 data 0) (nth 3 data 0) with
          | None => (EncodeCtx data_used data (eof_seen ctx) true, out, false)
          | Some bytes =>
              decode_loop
                (EncodeCtx 0 data (eof_seen ctx || (len bytes <? 3)) (error_encountered ctx))
                (out ++ bytes) inp
          end
        else decode_loop (EncodeCtx data_used data (eof_seen ctx) (error_encountered ctx)) out inp
  end.

(** The context, what is written, [*out_len] and the result: -1 error, 0 end seen, 1 more. *)
Definition EVP_DecodeUpdate (ctx : EVP_ENCODE_CTX) (inp : list Z)
    : EVP_ENCODE_CTX * list Z * Z * Z :=
  if error_encountered ctx then (ctx, [], 0, -1)
  else
    match decode_loop ctx [] inp with
    | (ctx, out, false) => (ctx, out, 0, -1)
    | (ctx, out, true) =>
        if INT_MAX <? len out then
          (EncodeCtx (data_used ctx) (data ctx) (eof_seen ctx) true, out, 0, -1)
        else (ctx, out, len out, if eof_seen ctx then 0 else 1)
    end.

Definition EVP_DecodeFinal (ctx : EVP_ENCODE_CTX) : Z :=
  if error_encountered ctx || negb (data_used ctx =? 0) then -1 else 1.

(** The loop of [EVP_DecodeBase64]: only the last quad may be padded. *)
Fixpoint decode_quads (out : list Z) (inp : list Z) : option (list Z) :=
  match inp with
  | in0 :: in1 :: in2 :: in3 :: inp =>
      match base64_decode_quad in0 in1 in2 in3 with
      | None => None
      | Some bytes =>
          let out := out ++ bytes in
          if negb (len bytes =? 3) && negb (match inp with [] => true | _ => false end) then None
          else decode_quads out inp
      end
  | _ => Some out
  end.

(** [Some bytes] when it succeeds with [*out_len] bytes written. *)
Definition EVP_DecodeBase64 (max_out : Z) (inp : list Z) : option (list Z) :=
  if negb (len inp mod 4 =? 0) then None
  else match EVP_DecodedLength (len inp) with
       | None => None
       | Some max_len => if max_out <? max_len then None else decode_quads [] inp
       end.

Fixpoint trim_start (src : list Z) : list Z :=
  match src with
  | c :: rest => if negb (c =? 32) && negb (c =? 9) then src else trim_start rest
  | [] => []
  end.

(** Drops white space from the end: [trim_end (rev src)] is [src] reversed and trimmed. *)
Fixpoint trim_end (rsrc : list Z) : list Z :=
  match rsrc with
  | c :: rest => if is_space c then trim_end rest else rsrc
  | [] => []
  end.

(** [Some bytes] with the NULs that stand for padding; [None] is -1. *)
Definition EVP_DecodeBlock (src : list Z) : option (list Z) :=
  let src := rev (trim_end (rev (trim_start src))) in
  match EVP_DecodedLength (len src) with
  | None => None
  | Some dst_len =>
      if INT_MAX <? dst_len then None
      else match EVP_DecodeBase64 dst_len src with
           | None => None
           | Some dst => Some (dst ++ replicate (Z.to_nat ((- len dst) mod 3)) 0)
           end
  end.
