(* ===== verification/Base64Props.v ===== *)
(** Properties of base64: the constant-time conversions are the table look-ups, decoding inverts
    encoding (in one block and through the streaming interface, however the data is cut), and the
    lengths written are the ones announced. *)
From S2P Require Import Prelude Base64.

(** ** The alphabet *)

Definition alphabet : list Z :=
  map Z.of_nat (seq 65 26 ++ seq 97 26 ++ seq 48 10) ++ [chr_plus; chr_slash].

(** The table look-up [conv_bin2ascii] avoids. *)
Definition b64_char (v : Z) : Z := nth (Z.to_nat v) alphabet 0.

(** The inverse table: padding reads as zero and everything else as 0xff. *)
Fixpoint position (c : Z) (l : list Z) : option Z :=
  match l with
  | [] => None
  | x :: l => if x =? c then Some 0 else option_map (Z.add 1) (position c l)
  end.
Definition b64_value (c : Z) : Z :=
  match position c alphabet with
  | Some v => v
  | None => if c =? chr_eq then 0 else 0xff
  end.

Lemma conv_mod a : conv_bin2ascii a = conv_bin2ascii (a mod 64).
Proof.
  assert (Z.land (u8 a) 63 = Z.land (u8 (a mod 64)) 63) as E.
  { rewrite !land_63. ulia. }
  unfold conv_bin2ascii. change 0x3f with 63. by rewrite E.
Qed.

(** A fact about the 64 characters, checked on each. *)
Lemma conv_all (f g : Z -> Z) :
  forallb (fun i => f (conv_bin2ascii (Z.of_nat i)) =? g (Z.of_nat i)) (seq 0 64) = true ->
  forall a, f (conv_bin2ascii a) = g (a mod 64).
Proof.
  intros H a. rewrite conv_mod. pose proof (Z.mod_pos_bound a 64 eq_refl).
  apply (range_eq 64 (fun v => f (conv_bin2ascii v)) g H). lia.
Qed.

Lemma conv_table_lemma a : conv_bin2ascii a = b64_char (a mod 64).
Proof. by apply (conv_all (fun c => c)). Qed.

Lemma value_conv a : base64_ascii_to_bin (conv_bin2ascii a) = a mod 64.
Proof. by apply (conv_all _ (fun v => v)). Qed.

(** No character of the alphabet is padding or white space. *)
Lemma conv_plain a : (conv_bin2ascii a =? chr_eq) = false /\ is_space (conv_bin2ascii a) = false.
Proof.
  pose proof (conv_all (fun c => if (c =? chr_eq) || is_space c then 1 else 0) (fun _ => 0)
    ltac:(by vm_compute) a) as H.
  cbn in H. destruct (conv_bin2ascii a =? chr_eq), (is_space (conv_bin2ascii a)); done.
Qed.

(** ** Quads *)

Lemma quad_value a b c d :
  0 <= a < 64 -> 0 <= b < 64 -> 0 <= c < 64 -> 0 <= d < 64 ->
  (a << 18) |. (b << 12) |. (c << 6) |. d = a * 2 ^ 18 + b * 2 ^ 12 + c * 2 ^ 6 + d.
Proof.
  intros. rewrite (shiftl_mul b), (shiftl_mul c) by lia.
  rewrite (lor_shiftl_add a (b * 2 ^ 12) 18) by lia.
  replace (a * 2 ^ 18 + b * 2 ^ 12) with ((a * 2 ^ 6 + b) * 2 ^ 12) by lia.
  rewrite (lor_mul_add (a * 2 ^ 6 + b) (c * 2 ^ 6) 12) by lia.
  replace ((a * 2 ^ 6 + b) * 2 ^ 12 + c * 2 ^ 6) with ((a * 2 ^ 12 + b * 2 ^ 6 + c) * 2 ^ 6) by lia.
  rewrite lor_mul_add by lia. lia.
Qed.

Lemma ascii_eq : base64_ascii_to_bin chr_eq = 0.
Proof. by vm_compute. Qed.

Lemma decode_quad_full l :
  0 <= l < 2 ^ 24 ->
  base64_decode_quad (conv_bin2ascii (l >> 18)) (conv_bin2ascii (l >> 12)) (conv_bin2ascii (l >> 6))
    (conv_bin2ascii l) = Some [l / 2 ^ 16; l / 2 ^ 8 mod 256; l mod 256].
Proof.
  intros Hl. unfold base64_decode_quad. rewrite !value_conv, !shiftr_div by lia.
  rewrite !(proj1 (conv_plain _)). pose proof (Z.mod_pos_bound l 64 eq_refl).
  pose proof (Z.mod_pos_bound (l / 2 ^ 6) 64 eq_refl).
  pose proof (Z.mod_pos_bound (l / 2 ^ 12) 64 eq_refl).
  pose proof (Z.mod_pos_bound (l / 2 ^ 18) 64 eq_refl).
  rewrite quad_value by done. repeat match goal with |- context [?a =? 255] => destruct (Z.eqb_spec a 255); [lia|] end.
  cbn [orb]. change ((0 << 3) |. (0 << 2) |. (0 << 1) |. 0) with 0. change (0 =? 0) with true. cbv iota.
  assert (l / 2 ^ 18 mod 64 * 2 ^ 18 + l / 2 ^ 12 mod 64 * 2 ^ 12 + l / 2 ^ 6 mod 64 * 2 ^ 6 + l mod 64 = l) as ->.
  { Z.div_mod_to_equations; lia. }
  unfold u8. do 2 f_equal; Z.div_mod_to_equations; lia.
Qed.

(** The two padded forms: only whole bytes come back. *)
Lemma decode_quad_pad1 l :
  0 <= l < 2 ^ 24 -> l mod 256 = 0 ->
  base64_decode_quad (conv_bin2ascii (l >> 18)) (conv_bin2ascii (l >> 12)) (conv_bin2ascii (l >> 6))
    chr_eq = Some [l / 2 ^ 16; l / 2 ^ 8 mod 256].
Proof.
  intros Hl Hz. unfold base64_decode_quad. rewrite !value_conv, !shiftr_div, ascii_eq by lia.
  rewrite !(proj1 (conv_plain _)), Z.eqb_refl.
  pose proof (Z.mod_pos_bound (l / 2 ^ 6) 64 eq_refl).
  pose proof (Z.mod_pos_bound (l / 2 ^ 12) 64 eq_refl).
  pose proof (Z.mod_pos_bound (l / 2 ^ 18) 64 eq_refl).
  rewrite quad_value by (done || lia).
  repeat match goal with |- context [?a =? 255] => destruct (Z.eqb_spec a 255); [lia|] end.
  cbn [orb]. change ((0 << 3) |. (0 << 2) |. (0 << 1) |. 1) with 1. cbv iota.
  change (1 =? 0) with false. change (1 =? 1) with true. cbv iota.
  assert (l / 2 ^ 18 mod 64 * 2 ^ 18 + l / 2 ^ 12 mod 64 * 2 ^ 12 + l / 2 ^ 6 mod 64 * 2 ^ 6 + 0 = l) as ->.
  { Z.div_mod_to_equations; lia. }
  unfold u8. do 2 f_equal; Z.div_mod_to_equations; lia.
Qed.

Lemma decode_quad_pad2 l :
  0 <= l < 2 ^ 24 -> l mod 65536 = 0 ->
  base64_decode_quad (conv_bin2ascii (l >> 18)) (conv_bin2ascii (l >> 12)) chr_eq chr_eq
  = Some [l / 2 ^ 16].
Proof.
  intros Hl Hz. unfold base64_decode_quad. rewrite !value_conv, !shiftr_div, !ascii_eq by lia.
  rewrite !(proj1 (conv_plain _)), Z.eqb_refl.
  pose proof (Z.mod_pos_bound (l / 2 ^ 12) 64 eq_refl).
  pose proof (Z.mod_pos_bound (l / 2 ^ 18) 64 eq_refl).
  rewrite quad_value by (done || lia).
  repeat match goal with |- context [?a =? 255] => destruct (Z.eqb_spec a 255); [lia|] end.
  cbn [orb]. change ((0 << 3) |. (0 << 2) |. (1 << 1) |. 1) with 3. cbv iota.
  change (3 =? 0) with false. change (3 =? 1) with false. change (3 =? 3) with true. cbv iota.
  assert (l / 2 ^ 18 mod 64 * 2 ^ 18 + l / 2 ^ 12 mod 64 * 2 ^ 12 + 0 * 2 ^ 6 + 0 = l) as ->.
  { Z.div_mod_to_equations; lia. }
  unfold u8. do 2 f_equal; Z.div_mod_to_equations; lia.
Qed.

(** ** Blocks *)

(** Three bytes at a time. *)
Lemma triples_ind (P : list Z -> Prop) :
  P [] -> (forall a, P [a]) -> (forall a b, P [a; b]) ->
  (forall a b c l, P l -> P (a :: b :: c :: l)) -> forall l, P l.
Proof.
  intros H0 H1 H2 H3. fix IH 1. intros [|a [|b [|c l]]]; [done|done|done|]. apply H3, IH.
Qed.

Lemma pack3 a b c : byte a -> byte b -> byte c ->
  (a << 16) |. (b << 8) |. c = a * 2 ^ 16 + b * 2 ^ 8 + c.
Proof.
  unfold byte. intros. rewrite (shiftl_mul b) by lia. rewrite (lor_shiftl_add a (b * 2 ^ 8) 16) by lia.
  replace (a * 2 ^ 16 + b * 2 ^ 8) with ((a * 2 ^ 8 + b) * 2 ^ 8) by lia.
  rewrite lor_mul_add by lia. lia.
Qed.

Lemma pack2 a b : byte a -> byte b -> (a << 16) |. (b << 8) = a * 2 ^ 16 + b * 2 ^ 8.
Proof. unfold byte. intros. rewrite (shiftl_mul b) by lia. by rewrite (lor_shiftl_add a) by lia. Qed.

Lemma pack1 a : byte a -> a << 16 = a * 2 ^ 16.
Proof. intros. by rewrite shiftl_mul by lia. Qed.

Lemma decode_encode_quads src out :
  Forall byte src -> decode_quads out (EVP_EncodeBlock src) = Some (out ++ src).
Proof.
  revert out. induction src as [|a|a b|a b c src IH] using triples_ind; intros out Hb;
    cbn [EVP_EncodeBlock decode_quads]; rewrite ?Forall_cons in Hb.
  - by rewrite app_nil_r.
  - destruct Hb as (Ha & _). unfold byte in Ha. rewrite pack1 by done.
    rewrite decode_quad_pad2 by (Z.div_mod_to_equations; lia). cbn [negb andb].
    rewrite andb_false_r. rewrite Z.div_mul by lia. done.
  - destruct Hb as (Ha & Hb & _). rewrite pack2 by done. unfold byte in Ha, Hb.
    rewrite decode_quad_pad1 by (Z.div_mod_to_equations; lia). rewrite andb_false_r.
    do 2 f_equal. repeat f_equal; Z.div_mod_to_equations; lia.
  - destruct Hb as (Ha & Hb & Hc & Hs). rewrite pack3 by done. unfold byte in Ha, Hb, Hc.
    rewrite decode_quad_full by lia.
    assert ((a * 2 ^ 16 + b * 2 ^ 8 + c) / 2 ^ 16 = a) as -> by (Z.div_mod_to_equations; lia).
    assert ((a * 2 ^ 16 + b * 2 ^ 8 + c) / 2 ^ 8 mod 256 = b) as -> by (Z.div_mod_to_equations; lia).
    assert ((a * 2 ^ 16 + b * 2 ^ 8 + c) mod 256 = c) as -> by (Z.div_mod_to_equations; lia).
    change (len [a; b; c] =? 3) with true. cbn [negb andb]. rewrite IH by done.
    by rewrite <- app_assoc.
Qed.

Lemma encode_block_len src : len (EVP_EncodeBlock src) = 4 * ((len src + 2) / 3).
Proof.
  induction src as [|a|a b|a b c src IH] using triples_ind; [done..|].
  cbn [EVP_EncodeBlock]. rewrite !len_cons, IH. Z.div_mod_to_equations; lia.
Qed.

(** Decoding an encoded block gives the bytes back, in a buffer of the announced size. *)
Theorem base64_round_trip src max_out :
  Forall byte src -> 3 * ((len src + 2) / 3) <= max_out ->
  EVP_DecodeBase64 max_out (EVP_EncodeBlock src) = Some src.
Proof.
  intros Hb Hm. unfold EVP_DecodeBase64, EVP_DecodedLength. rewrite encode_block_len.
  rewrite (Z.mul_comm 4), Z.mod_mul, Z.div_mul by lia. cbn [Z.eqb negb].
  destruct (Z.ltb_spec max_out ((len src + 2) / 3 * 3)); [lia|]. by apply decode_encode_quads.
Qed.

Example base64_round_trip_witness : EVP_DecodeBase64 6 (EVP_EncodeBlock [0; 255; 16; 131]) = Some [0; 255; 16; 131].
Proof.
  apply (base64_round_trip [0; 255; 16; 131] 6).
  - repeat constructor; by vm_compute.
  - by vm_compute.
Defined.

(** the branch-free conversions compute the table look-ups: the encoder maps the low six bits
    to the alphabet, and the decoder maps each of the 256 byte values to its position in the
    alphabet, '=' to zero and every other byte to 0xff. *)
Theorem base64_constant_time_tables a c :
  byte c -> conv_bin2ascii a = b64_char (a mod 64) /\ base64_ascii_to_bin c = b64_value c.
Proof.
  intros Hc. split; [apply conv_table_lemma|]. revert c Hc. apply byte_eq. by vm_compute.
Qed.

Example base64_constant_time_tables_witness :
  conv_bin2ascii 190 = 43 /\ base64_ascii_to_bin 45 = 0xff.
Proof. apply (base64_constant_time_tables 190 45). by vm_compute. Defined.

(** [EVP_EncodedLength] is the space an encoded block takes with its NUL, and fails exactly
    when that does not fit a [size_t]. *)
Theorem base64_encoded_length src n :
  0 <= n < 2 ^ 64 ->
  EVP_EncodedLength n = (if 4 * ((n + 2) / 3) + 1 <? 2 ^ 64 then Some (4 * ((n + 2) / 3) + 1) else None) /\
  (len src = n -> forall m, EVP_EncodedLength n = Some m -> len (EVP_EncodeBlock src) + 1 = m).
Proof.
  intros Hn.
  assert (E : EVP_EncodedLength n = if 4 * ((n + 2) / 3) + 1 <? 2 ^ 64 then Some (4 * ((n + 2) / 3) + 1) else None).
  { unfold EVP_EncodedLength.
    destruct (Z.ltb_spec (u64 (n + 2)) n) as [Hw|Hw].
    { destruct (Z.ltb_spec (4 * ((n + 2) / 3) + 1) (2 ^ 64)); [exfalso; ulia|done]. }
    assert (Hu : u64 (n + 2) = n + 2) by (unfold u64 in *; Z.div_mod_to_equations; lia).
    rewrite Hu. set (q := (n + 2) / 3). assert (Hq : 0 <= q < 2 ^ 63) by (unfold q; Z.div_mod_to_equations; lia).
    rewrite shiftl_mul, shiftr_div by lia. change (2 ^ 2) with 4.
    destruct (Z.eqb_spec (u64 (q * 4) / 4) q) as [He|He]; cbn [negb].
    - assert (Hq4 : q * 4 < 2 ^ 64) by (unfold u64 in *; Z.div_mod_to_equations; lia).
      rewrite (u64_id (q * 4)) by lia. rewrite (Z.mul_comm 4 q).
      assert (q * 4 + 1 < 2 ^ 64) by (Z.div_mod_to_equations; lia).
      rewrite u64_id by lia. destruct (Z.ltb_spec (q * 4 + 1) (q * 4)); [lia|].
      by destruct (Z.ltb_spec (q * 4 + 1) (2 ^ 64)); [|lia].
    - destruct (Z.ltb_spec (4 * q + 1) (2 ^ 64)); [|done].
      exfalso. apply He. rewrite u64_id by lia. apply Z.div_mul. lia. }
  split; [done|]. intros <- m. rewrite E, encode_block_len.
  destruct (_ <? _); [by intros [= <-]|done].
Qed.

Example base64_encoded_length_witness : EVP_EncodedLength (2 ^ 64 - 4) = None.
Proof. apply (base64_encoded_length [] (2 ^ 64 - 4)). lia. Defined.

(** ** Streaming *)

(** [n] complete lines of 48 bytes, each encoded and ended by a newline. *)
Fixpoint full_lines (n : nat) (l : list Z) : list Z :=
  match n with
  | O => []
  | S n => EVP_EncodeBlock (take 48 l) ++ [chr_nl] ++ full_lines n (drop 48 l)
  end.

Definition line_count {A} (l : list A) : nat := length l / 48.
Definition last_line {A} (l : list A) : list A := drop (48 * line_count l) l.

#[global] Arguments line_count : simpl never.
#[global] Arguments last_line : simpl never.

(** The whole encoding: complete lines and then, if anything is left, a shorter one. *)
Definition encode_stream (l : list Z) : list Z :=
  full_lines (line_count l) l ++
  (if len (last_line l) =? 0 then [] else EVP_EncodeBlock (last_line l) ++ [chr_nl]).

Lemma line_count_drop {A} (l : list A) :
  (48 <= length l)%nat -> line_count l = S (line_count (drop 48 l)).
Proof.
  intros. unfold line_count. rewrite length_drop.
  replace (length l) with (length l - 48 + 1 * 48)%nat at 1 by lia.
  rewrite Nat.div_add by lia. lia.
Qed.

Lemma line_count_small {A} (l : list A) : (length l < 48)%nat -> line_count l = 0%nat.
Proof. intros. by apply Nat.div_small. Qed.

Lemma last_line_drop {A} (l : list A) : (48 <= length l)%nat -> last_line l = last_line (drop 48 l).
Proof.
  intros. unfold last_line. rewrite (line_count_drop l) by done. rewrite drop_drop. f_equal. lia.
Qed.

Lemma last_line_small {A} (l : list A) : (length l < 48)%nat -> last_line l = l.
Proof. intros. unfold last_line. by rewrite line_count_small. Qed.

(** Lists cut into lines of 48 from the front. *)
Lemma lines_ind {A} (P : list A -> Prop) :
  (forall l, (length l < 48)%nat -> P l) ->
  (forall l, (48 <= length l)%nat -> P (drop 48 l) -> P l) -> forall l, P l.
Proof.
  intros H1 H2 l. remember (length l) as n eqn:Hn. revert l Hn.
  induction n as [n IH] using (well_founded_induction Nat.lt_wf_0). intros l ->.
  destruct (decide (length l < 48)%nat); [by apply H1|].
  apply H2; [lia|]. eapply IH; [|done]. rewrite length_drop. lia.
Qed.

Lemma last_line_len {A} (l : list A) : (length (last_line l) < 48)%nat.
Proof.
  induction l as [l Hl|l Hl IH] using lines_ind; [by rewrite last_line_small|].
  by rewrite last_line_drop.
Qed.

(** Encoding the left-over of a prefix together with what follows continues the lines. *)
Lemma full_lines_app l k :
  full_lines (line_count (l ++ k)) (l ++ k) =
  full_lines (line_count l) l ++ full_lines (line_count (last_line l ++ k)) (last_line l ++ k) /\
  last_line (l ++ k) = last_line (last_line l ++ k).
Proof.
  induction l as [l Hl|l Hl IH] using lines_ind.
  - by rewrite (last_line_small l), (line_count_small l).
  - assert (Hd : drop 48 (l ++ k) = drop 48 l ++ k) by (by rewrite drop_app_le).
    assert (Ht : take 48 (l ++ k) = take 48 l) by (by rewrite take_app_le).
    assert (Hlk : (48 <= length (l ++ k))%nat) by (rewrite length_app; lia).
    rewrite (line_count_drop (l ++ k)), (line_count_drop l) by done. cbn [full_lines].
    rewrite (last_line_drop (l ++ k)), (last_line_drop l), Hd, Ht by done.
    destruct IH as [-> ->]. by rewrite <- !app_assoc.
Qed.

(** The counted total cannot wrap on inputs a machine can hold. *)
Lemma encode_lines_spec fuel out total inp :
  (line_count inp < fuel)%nat -> 0 <= total -> total + 2 * len inp < 2 ^ 63 ->
  encode_lines fuel out total inp =
  (out ++ full_lines (line_count inp) inp,
   Some (total + len (full_lines (line_count inp) inp), last_line inp)).
Proof.
  revert fuel out total. induction inp as [l Hl|l Hl IH] using lines_ind; intros fuel out total Hf Ht Hb;
    (destruct fuel as [|fuel]; [lia|]); cbn [encode_lines]; unfold sizeof_data.
  - destruct (Z.leb_spec 48 (len l)); [unfold len in *; lia|].
    rewrite line_count_small, last_line_small by done. cbn [full_lines].
    by rewrite app_nil_r, len_nil, Z.add_0_r.
  - destruct (Z.leb_spec 48 (len l)); [|unfold len in *; lia].
    rewrite (line_count_drop l) in * by done. rewrite (last_line_drop l) by done.
    assert (Hlen : len (EVP_EncodeBlock (take 48 l)) = 64).
    { rewrite encode_block_len, len_take. unfold len.
      replace (Z.min (Z.of_nat 48) (Z.of_nat (length l))) with 48 by lia. done. }
    rewrite Hlen, u64_id by lia. destruct (Z.ltb_spec (total + 64 + 1) total); [lia|].
    rewrite IH; [|lia|lia|rewrite len_drop; unfold len in *; lia].
    cbn [full_lines]. rewrite !len_app, Hlen, len_cons, len_nil, <- !app_assoc.
    do 3 f_equal. lia.
Qed.

(** *** The encoder's state *)

(** What the context holds after the bytes [p]. *)
Record enc_state (ctx : EVP_ENCODE_CTX) (p : list Z) : Prop := {
  es_data : length (data ctx) = 48%nat;
  es_used : data_used ctx = len (last_line p);
  es_last : take (length (last_line p)) (data ctx) = last_line p;
}.

Lemma data_write_length off l d :
  0 <= off -> off + len l <= 48 -> length d = 48%nat -> length (data_write off l d) = 48%nat.
Proof.
  intros H1 H2 Hd. unfold data_write. rewrite !length_app, length_take, length_drop.
  unfold len in *. lia.
Qed.

Lemma data_write_take l k d :
  length d = 48%nat -> (length l + length k <= 48)%nat -> take (length l) d = l ->
  take (length l + length k) (data_write (len l) k d) = l ++ k.
Proof.
  intros Hd Hk Hl. unfold data_write. rewrite len_to_nat, Hl, app_assoc.
  apply take_app_exact. rewrite length_app. done.
Qed.

(** One update: the lines that became complete are written, the rest is kept. *)
Lemma encode_update_spec ctx p inp :
  enc_state ctx p -> len inp < 2 ^ 60 ->
  let all := last_line p ++ inp in
  exists ctx' n, EVP_EncodeUpdate ctx inp = (ctx', full_lines (line_count all) all, n) /\
    enc_state ctx' (p ++ inp) /\
    (len (full_lines (line_count all) all) <= INT_MAX -> n = len (full_lines (line_count all) all)).
Proof.
  intros [Hd Hu Hl] Hb all. pose proof (last_line_len p) as Hlt.
  destruct (full_lines_app p inp) as [_ Hlast]. fold all in Hlast.
  unfold EVP_EncodeUpdate. destruct (Z.eqb_spec (len inp) 0) as [Hz|Hz].
  { apply len_zero_nil in Hz as ->. unfold all. rewrite !app_nil_r, (line_count_small (last_line p)) by done.
    exists ctx, 0. split_and!; [done|by split|done]. }
  unfold sizeof_data. rewrite Hu.
  destruct (Z.ltb_spec (len inp) (48 - len (last_line p))) as [Hsmall|Hbig].
  - assert (Hall : (length all < 48)%nat) by (unfold all; rewrite length_app; unfold len in *; lia).
    rewrite (line_count_small all) by done. eexists _, 0. split_and!; [done| |done].
    rewrite (last_line_small all) in Hlast by done. split; cbn.
    + apply data_write_length; [apply len_nonneg|lia|done].
    + rewrite Hlast. unfold all. rewrite len_app. lia.
    + rewrite Hlast. unfold all. rewrite length_app. apply data_write_take; [done| |done].
      unfold len in *. lia.
  - assert (Hall : (48 <= length all)%nat) by (unfold all; rewrite length_app; unfold len in *; lia).
    assert (Hfin : forall d l, length d = 48%nat -> l = last_line all ->
      enc_state (EncodeCtx (len l) (data_write 0 l d) (eof_seen ctx) (error_encountered ctx)) (p ++ inp)).
    { intros d l Hd' ->. pose proof (last_line_len all). split; cbn.
      - apply data_write_length; [lia|unfold len; lia|done].
      - by rewrite Hlast.
      - rewrite Hlast. apply (data_write_take [] (last_line all) d); [done|cbn; lia|done]. }
    destruct (Z.eqb_spec (len (last_line p)) 0) as [He|He]; cbn [negb].
    + apply len_zero_nil in He. unfold all in *. rewrite He in *. cbn [app] in *.
      rewrite encode_lines_spec; [|unfold line_count; pose proof (Nat.Div0.div_le_upper_bound (length inp) 48 (length inp)); lia|lia|lia].
      cbn [app]. rewrite Z.add_0_l. eexists _, _. split; [reflexivity|]. split; [by apply Hfin|].
      intros Hi. destruct (Z.ltb_spec INT_MAX (len (full_lines (line_count inp) inp))); [lia|done].
    + set (todo := Z.to_nat (48 - len (last_line p))).
      assert (Htodo : (todo + length (last_line p) = 48)%nat) by (unfold todo, len; lia).
      assert (Hti : (todo <= length inp)%nat) by (unfold todo, len in *; lia).
      assert (Hline : data_write (len (last_line p)) (take todo inp) (data ctx) = take 48 all).
      { unfold data_write. rewrite len_to_nat, Hl, length_take.
        rewrite (drop_ge (data ctx)) by lia. rewrite app_nil_r.
        unfold all. rewrite take_app_ge by lia. do 2 f_equal. lia. }
      assert (Hrest : drop todo inp = drop 48 all).
      { unfold all. rewrite drop_app_ge by lia. f_equal. lia. }
      assert (Hlen : len (EVP_EncodeBlock (take 48 all)) = 64).
      { rewrite encode_block_len, len_take. unfold len.
        replace (Z.min (Z.of_nat 48) (Z.of_nat (length all))) with 48 by lia. done. }
      rewrite Hline, Hrest, Hlen.
      pose proof (len_drop 48 all). assert (len all < 2 ^ 60 + 48) by (unfold all; rewrite len_app; unfold len in *; lia).
      rewrite encode_lines_spec; [| |lia|lia].
      2: { unfold line_count. pose proof (Nat.Div0.div_le_upper_bound (length (drop 48 all)) 48 (length (drop 48 all))).
           rewrite <- Hrest in *. rewrite length_drop in *. lia. }
      rewrite (line_count_drop all) by done. cbn [full_lines].
      eexists _, _. split; [by rewrite <- app_assoc|]. cbn [data eof_seen error_encountered]. split.
      * apply Hfin; [|by rewrite (last_line_drop all)]. rewrite length_take. lia.
      * rewrite !len_app, Hlen, len_cons, len_nil. intros Hi.
        match goal with |- context [INT_MAX <? ?x] => destruct (Z.ltb_spec INT_MAX x); lia end.
Qed.

(** A client that encodes its data in chunks. *)
Fixpoint encode_all (ctx : EVP_ENCODE_CTX) (out : list Z) (chunks : list (list Z)) : list Z :=
  match chunks with
  | [] => let '(_, final, _) := EVP_EncodeFinal ctx in out ++ final
  | c :: chunks => let '(ctx, o, _) := EVP_EncodeUpdate ctx c in encode_all ctx (out ++ o) chunks
  end.

Lemma encode_all_spec ctx p chunks :
  enc_state ctx p -> Forall (fun c => len c < 2 ^ 60) chunks ->
  encode_all ctx (full_lines (line_count p) p) chunks = encode_stream (p ++ concat chunks).
Proof.
  revert ctx p. induction chunks as [|c chunks IH]; intros ctx p Hs Hc; cbn [encode_all concat].
  - rewrite app_nil_r. unfold encode_stream, EVP_EncodeFinal. destruct Hs as [Hd Hu Hl].
    rewrite Hu. destruct (len (last_line p) =? 0); [done|]. by rewrite len_to_nat, Hl.
  - apply Forall_cons in Hc as [Hc Hcs].
    destruct (encode_update_spec ctx p c Hs Hc) as (ctx' & n & -> & Hs' & _).
    destruct (full_lines_app p c) as [<- _]. rewrite app_assoc. by apply IH.
Qed.

(** however the data is cut into updates, the streaming encoder writes the same text: lines
    of 64 characters for each 48 bytes, and a last shorter line from [EVP_EncodeFinal]. *)
Theorem base64_streaming_encode chunks :
  Forall (fun c => len c < 2 ^ 60) chunks ->
  encode_all EVP_EncodeInit [] chunks = encode_stream (concat chunks).
Proof. intros Hc. by apply (encode_all_spec EVP_EncodeInit [] chunks). Qed.

Example base64_streaming_encode_witness :
  encode_all EVP_EncodeInit [] [replicate 20 7; []; replicate 40 8; [9; 10]]
  = encode_stream (replicate 20 7 ++ replicate 40 8 ++ [9; 10]).
Proof.
  apply (base64_streaming_encode [replicate 20 7; []; replicate 40 8; [9; 10]]).
  repeat constructor; by vm_compute.
Defined.

(** ** Streaming decoder *)

Lemma decode_loop_app ctx out a b :
  decode_loop ctx out (a ++ b) =
  match decode_loop ctx out a with
  | (ctx, out, true) => decode_loop ctx out b
  | r => r
  end.
Proof.
  revert ctx out. induction a as [|c a IH]; intros ctx out; cbn [app decode_loop]; [done|].
  destruct (is_space c); [apply IH|]. destruct (eof_seen ctx); [done|]. cbv zeta.
  destruct (data_used ctx + 1 =? 4); [|apply IH].
  destruct (base64_decode_quad _ _ _ _); [apply IH|done].
Qed.

Lemma decode_loop_out ctx out a :
  decode_loop ctx out a = let '(c, o, ok) := decode_loop ctx [] a in (c, out ++ o, ok).
Proof.
  revert ctx out. induction a as [|c a IH]; intros ctx out; cbn [app decode_loop]; [by rewrite app_nil_r|].
  destruct (is_space c); [apply IH|]. destruct (eof_seen ctx); [by rewrite app_nil_r|]. cbv zeta.
  destruct (data_used ctx + 1 =? 4); [|apply IH].
  destruct (base64_decode_quad _ _ _ _) as [bytes|]; [|by rewrite app_nil_r].
  rewrite IH, (IH _ bytes). destruct (decode_loop _ [] a) as [[c' o'] ok]. by rewrite app_assoc.
Qed.

Lemma decode_quad_len a b c d l : base64_decode_quad a b c d = Some l -> 1 <= len l <= 3.
Proof. unfold base64_decode_quad. intros H. repeat case_match; simplify_eq; by vm_compute. Qed.

(** The error flag is only raised when the loop stops early, and three bytes come from four. *)
Lemma decode_loop_bounds ctx a ctx' o ok :
  0 <= data_used ctx < 4 -> error_encountered ctx = false -> decode_loop ctx [] a = (ctx', o, ok) ->
  error_encountered ctx' = negb ok /\ 4 * len o <= 3 * (data_used ctx + len a) /\
  (ok = true -> 0 <= data_used ctx' < 4).
Proof.
  revert ctx ctx' o. induction a as [|c a IH]; intros ctx ctx' o Hu He; cbn [decode_loop].
  { intros [= <- <- <-]. rewrite He, !(@len_nil Z). split_and!; [done|lia|done]. }
  rewrite len_cons. pose proof (len_nonneg a).
  destruct (is_space c).
  { intros Hd. destruct (IH _ _ _ Hu He Hd) as (? & ? & ?). split_and!; [done|lia|done]. }
  destruct (eof_seen ctx).
  { intros [= <- <- <-]. cbn. split_and!; [done|unfold len; cbn; lia|done]. }
  cbv zeta. destruct (Z.eqb_spec (data_used ctx + 1) 4) as [H4|H4].
  - destruct (base64_decode_quad _ _ _ _) as [bytes|] eqn:Eq.
    + apply decode_quad_len in Eq. rewrite decode_loop_out. cbn [app].
      match goal with |- context [decode_loop ?c [] a] => destruct (decode_loop c [] a) as [[c1 o1] ok1] eqn:E end.
      intros [= <- <- <-]. apply IH in E as (? & E2 & ?); [|cbn; lia|done]. cbn in E2.
      rewrite len_app. split_and!; [done|lia|done].
    + intros [= <- <- <-]. cbn. split_and!; [done|unfold len; cbn; lia|done].
  - intros E. apply IH in E as (? & E2 & ?); [|cbn; lia|done]. cbn in E2. split_and!; [done|lia|done].
Qed.

(** A client that decodes a text in chunks. *)
Fixpoint decode_all (ctx : EVP_ENCODE_CTX) (out : list Z) (chunks : list (list Z)) : option (list Z) :=
  match chunks with
  | [] => if EVP_DecodeFinal ctx =? -1 then None else Some out
  | c :: chunks =>
      let '(ctx, o, _, r) := EVP_DecodeUpdate ctx c in
      if r =? -1 then None else decode_all ctx (out ++ o) chunks
  end.

Lemma decode_all_spec ctx out chunks :
  0 <= data_used ctx < 4 -> error_encountered ctx = false -> 3 + len (concat chunks) <= INT_MAX ->
  decode_all ctx out chunks =
  match decode_loop ctx out (concat chunks) with
  | (ctx, out, true) => if data_used ctx =? 0 then Some out else None
  | _ => None
  end.
Proof.
  revert ctx out. induction chunks as [|c chunks IH]; intros ctx out Hu He Hl; cbn [decode_all concat].
  - cbn. unfold EVP_DecodeFinal. rewrite He. by destruct (data_used ctx =? 0).
  - cbn [concat] in Hl. rewrite len_app in Hl. pose proof (len_nonneg c).
    pose proof (len_nonneg (concat chunks)).
    rewrite decode_loop_app, decode_loop_out. unfold EVP_DecodeUpdate. rewrite He.
    destruct (decode_loop ctx [] c) as [[c' o] ok] eqn:E.
    apply decode_loop_bounds in E as (He' & Hlen & Hu'); [|done..].
    destruct ok; [|done]. destruct (Z.ltb_spec INT_MAX (len o)); [lia|].
    destruct (eof_seen c') eqn:Ef; cbn [Z.eqb]; (apply IH; [by apply Hu'|done|lia]).
Qed.

(** *** Decoding what the encoder wrote *)

(** Between quads, before the end. *)
Record dec_ready (ctx : EVP_ENCODE_CTX) (eof : bool) : Prop := {
  dr_used : data_used ctx = 0;
  dr_data : length (data ctx) = 48%nat;
  dr_eof : eof_seen ctx = eof;
}.

Lemma decode_loop_char u d err out c rest :
  is_space c = false -> (u + 1 =? 4) = false ->
  decode_loop (EncodeCtx u d false err) out (c :: rest) =
  decode_loop (EncodeCtx (u + 1) (data_write u [c] d) false err) out rest.
Proof. intros Hc Hu. cbn [decode_loop eof_seen data_used data error_encountered]. by rewrite Hc, Hu. Qed.

Lemma decode_quad_step ctx out c0 c1 c2 c3 rest bytes :
  dec_ready ctx false -> is_space c0 = false -> is_space c1 = false -> is_space c2 = false ->
  is_space c3 = false -> base64_decode_quad c0 c1 c2 c3 = Some bytes ->
  exists ctx', decode_loop ctx out (c0 :: c1 :: c2 :: c3 :: rest) = decode_loop ctx' (out ++ bytes) rest /\
    dec_ready ctx' (len bytes <? 3).
Proof.
  destruct ctx as [u d e err]. intros [Hu Hd He] H0 H1 H2 H3 Hq. cbn in Hu, Hd, He. subst u e.
  destruct d as [|d0 [|d1 [|d2 [|d3 d]]]]; try done. cbn in Hd.
  rewrite (decode_loop_char 0) by done. rewrite (decode_loop_char 1) by done.
  rewrite (decode_loop_char 2) by done. cbn [decode_loop]. rewrite H3. cbn [eof_seen data_used data].
  change (2 + 1 =? 4) with true. cbv iota zeta.
  change (nth 0 (data_write _ _ _) 0) with c0. change (nth 1 (data_write _ _ _) 0) with c1.
  change (nth 2 (data_write _ _ _) 0) with c2. change (nth 3 (data_write _ _ _) 0) with c3.
  rewrite Hq. eexists. split; [reflexivity|]. split; [done|exact Hd|done].
Qed.

Lemma chr_eq_plain : is_space chr_eq = false.
Proof. done. Qed.

Lemma decode_loop_block ctx out l rest :
  dec_ready ctx false -> Forall byte l ->
  exists ctx', decode_loop ctx out (EVP_EncodeBlock l ++ rest) = decode_loop ctx' (out ++ l) rest /\
    dec_ready ctx' (negb (len l mod 3 =? 0)).
Proof.
  revert ctx out. induction l as [|a|a b|a b c l IH] using triples_ind; intros ctx out Hr Hb;
    cbn [EVP_EncodeBlock app]; rewrite ?Forall_cons in Hb.
  - exists ctx. by rewrite app_nil_r.
  - destruct Hb as (Ha & _). unfold byte in Ha. rewrite pack1 by done.
    edestruct (decode_quad_step ctx out) as (ctx' & -> & Hr');
      [done|apply conv_plain|apply conv_plain|apply chr_eq_plain..|
       apply decode_quad_pad2; Z.div_mod_to_equations; lia|].
    exists ctx'. split; [|done]. by rewrite Z.div_mul by lia.
  - destruct Hb as (Ha & Hb & _). rewrite pack2 by done. unfold byte in Ha, Hb.
    edestruct (decode_quad_step ctx out) as (ctx' & -> & Hr');
      [done|apply conv_plain|apply conv_plain|apply conv_plain|apply chr_eq_plain|
       apply decode_quad_pad1; Z.div_mod_to_equations; lia|].
    exists ctx'. split; [|done]. repeat f_equal; Z.div_mod_to_equations; lia.
  - destruct Hb as (Ha & Hb & Hc & Hs). rewrite pack3 by done. unfold byte in Ha, Hb, Hc.
    edestruct (decode_quad_step ctx out) as (ctx' & -> & Hr');
      [done|apply conv_plain|apply conv_plain|apply conv_plain|apply conv_plain|
       apply decode_quad_full; lia|].
    destruct (IH ctx' (out ++ [a; b; c]) Hr' Hs) as (ctx2 & E2 & Hr2).
    exists ctx2. rewrite !len_cons. replace (1 + (1 + (1 + len l))) with (len l + 1 * 3) by lia.
    rewrite Z.mod_add by lia. split; [|done].
    assert ((a * 2 ^ 16 + b * 2 ^ 8 + c) / 2 ^ 16 = a) as -> by (Z.div_mod_to_equations; lia).
    assert ((a * 2 ^ 16 + b * 2 ^ 8 + c) / 2 ^ 8 mod 256 = b) as -> by (Z.div_mod_to_equations; lia).
    assert ((a * 2 ^ 16 + b * 2 ^ 8 + c) mod 256 = c) as -> by (Z.div_mod_to_equations; lia).
    rewrite E2. by rewrite <- app_assoc.
Qed.

Lemma decode_stream ctx out l :
  dec_ready ctx false -> Forall byte l ->
  exists ctx', decode_loop ctx out (encode_stream l) = (ctx', out ++ l, true) /\ data_used ctx' = 0.
Proof.
  unfold encode_stream. revert ctx out.
  induction l as [l Hl|l Hl IH] using lines_ind; intros ctx out Hr Hb.
  - rewrite line_count_small, last_line_small by done. cbn [full_lines app].
    destruct (Z.eqb_spec (len l) 0) as [Hz|].
    + apply len_zero_nil in Hz as ->. exists ctx. rewrite app_nil_r. split; [done|apply Hr].
    + destruct (decode_loop_block ctx out l [chr_nl] Hr Hb) as (ctx' & -> & Hr').
      exists ctx'. cbn. split; [done|apply Hr'].
  - rewrite line_count_drop, last_line_drop by done. cbn [full_lines]. rewrite <- !app_assoc.
    edestruct (decode_loop_block ctx out (take 48 l)) as (ctx' & -> & Hr'); [done|by apply bytes_take|].
    assert (len (take 48 l) mod 3 = 0) as Hm.
    { rewrite len_take. unfold len. by replace (Z.min _ _) with 48 by lia. }
    rewrite Hm in Hr'. cbn [app decode_loop]. change (is_space chr_nl) with true. cbv iota.
    destruct (IH ctx' (out ++ take 48 l) Hr') as (ctx2 & -> & Hu2); [by apply bytes_drop|].
    exists ctx2. split; [|done]. by rewrite <- app_assoc, take_drop.
Qed.

(** The streaming decoder takes back what the streaming encoder wrote, however the text is
    cut into updates, and reports a complete end. *)
Theorem base64_streaming_round_trip src chunks :
  Forall byte src -> concat chunks = encode_stream src -> 3 + len (encode_stream src) <= INT_MAX ->
  decode_all EVP_DecodeInit [] chunks = Some src.
Proof.
  intros Hb Hc Hl. rewrite decode_all_spec by (done || (rewrite Hc; done) || (cbn; lia)).
  rewrite Hc. destruct (decode_stream EVP_DecodeInit [] src) as (ctx' & -> & Hu); [by split|done|].
  by rewrite Hu.
Qed.

(** The text "AAEC\n" in three pieces. *)
Example base64_streaming_round_trip_witness :
  decode_all EVP_DecodeInit [] [[65]; [65; 69]; [67; 10]] = Some [0; 1; 2].
Proof.
  apply (base64_streaming_round_trip [0; 1; 2] [[65]; [65; 69]; [67; 10]]).
  - repeat constructor; by vm_compute.
  - by vm_compute.
  - by vm_compute.
Defined.

(** cutting a text differently never changes what is decoded or whether it is accepted, an
    accepted text decodes to at most three bytes for four characters, and after an error every
    update fails. *)
Theorem base64_decode_chunking ctx chunks chunks' :
  concat chunks = concat chunks' -> 3 + len (concat chunks) <= INT_MAX ->
  decode_all EVP_DecodeInit [] chunks = decode_all EVP_DecodeInit [] chunks' /\
  (forall out, decode_all EVP_DecodeInit [] chunks = Some out -> 4 * len out <= 3 * len (concat chunks)) /\
  (error_encountered ctx = true -> forall inp, snd (EVP_DecodeUpdate ctx inp) = -1).
Proof.
  intros Hc Hl. pose proof (decode_all_spec EVP_DecodeInit [] chunks) as E1.
  pose proof (decode_all_spec EVP_DecodeInit [] chunks') as E2. rewrite <- Hc in E2.
  rewrite E1, E2 by (done || (cbn; lia)). split_and!; [done| |].
  - intros out. destruct (decode_loop EVP_DecodeInit [] (concat chunks)) as [[c o] ok] eqn:E.
    apply decode_loop_bounds in E as (_ & Hlen & _); [|cbn; lia|done]. cbn in Hlen.
    destruct ok; [|done]. destruct (data_used c =? 0); [|done]. by intros [= <-].
  - intros He inp. unfold EVP_DecodeUpdate. by rewrite He.
Qed.

Example base64_decode_chunking_witness :
  decode_all EVP_DecodeInit [] [[65; 61; 61; 61]] = decode_all EVP_DecodeInit [] [[65; 61]; [61; 61]].
Proof.
  apply (base64_decode_chunking EVP_DecodeInit [[65; 61; 61; 61]] [[65; 61]; [61; 61]]).
  - reflexivity.
  - by vm_compute.
Defined.
