(* ===== verification/PbCommon.v ===== *)
(** The common part of nanopb (pb.h, pb_common.c): field descriptors, the byte memory messages
    live in, and the field iterator.  The build is the one the pod configures: 32-bit [pb_size_t],
    error messages and malloc enabled, 64-bit little-endian targets.

    A pointer is an address in [Z], 0 being NULL.  Descriptor arrays are constants outside the
    message memory: [descriptors p] is the array at address [p], and an entry past its end reads
    as the terminator. *)
From Stdlib Require Import String.
From stdpp Require Import gmap.
From S2P Require Import Prelude.
#[global] Open Scope Z_scope.

(** ** Memory *)

(** Bytes by address: a cell is eight bits wide, and one nobody wrote reads as zero. *)
Definition mem : Type := gmap Z Z.

Definition load_byte (m : mem) (a : Z) : Z := u8 (default 0 (m !! a)).
Fixpoint load_bytes (m : mem) (a : Z) (n : nat) : list Z :=
  match n with
  | O => []
  | S n => load_byte m a :: load_bytes m (a + 1) n
  end.
Fixpoint store_bytes (m : mem) (a : Z) (l : list Z) : mem :=
  match l with
  | [] => m
  | b :: l => store_bytes (<[a := b]> m) (a + 1) l
  end.

(** A little-endian object of [n] bytes. *)
Definition load (n : nat) (m : mem) (a : Z) : Z := le_value (load_bytes m a n).
Definition store (n : nat) (m : mem) (a v : Z) : mem := store_bytes m a (le_bytes n v).

Definition NULL : Z := 0.
Definition sizeof_ptr : Z := 8.
Definition load_ptr : mem -> Z -> Z := load 8.
Definition load_size : mem -> Z -> Z := load 4.  (* pb_size_t *)
Definition store_ptr : mem -> Z -> Z -> mem := store 8.
Definition store_size : mem -> Z -> Z -> mem := store 4.
Definition store_bool (m : mem) (a : Z) (b : bool) : mem := store 1 m a (if b then 1 else 0).

(** ** Types *)

Definition PB_LTYPE_BOOL : Z := 0x00.
Definition PB_LTYPE_VARINT : Z := 0x01.
Definition PB_LTYPE_UVARINT : Z := 0x02.
Definition PB_LTYPE_SVARINT : Z := 0x03.
Definition PB_LTYPE_FIXED32 : Z := 0x04.
Definition PB_LTYPE_FIXED64 : Z := 0x05.
Definition PB_LTYPE_LAST_PACKABLE : Z := 0x05.
Definition PB_LTYPE_BYTES : Z := 0x06.
Definition PB_LTYPE_STRING : Z := 0x07.
Definition PB_LTYPE_SUBMESSAGE : Z := 0x08.
Definition PB_LTYPE_EXTENSION : Z := 0x09.
Definition PB_LTYPE_FIXED_LENGTH_BYTES : Z := 0x0A.
Definition PB_LTYPE_MASK : Z := 0x0F.

Definition PB_HTYPE_REQUIRED : Z := 0x00.
Definition PB_HTYPE_OPTIONAL : Z := 0x10.
Definition PB_HTYPE_REPEATED : Z := 0x20.
Definition PB_HTYPE_ONEOF : Z := 0x30.
Definition PB_HTYPE_MASK : Z := 0x30.

Definition PB_ATYPE_STATIC : Z := 0x00.
Definition PB_ATYPE_POINTER : Z := 0x80.
Definition PB_ATYPE_CALLBACK : Z := 0x40.
Definition PB_ATYPE_MASK : Z := 0xC0.

Definition PB_ATYPE (x : Z) : Z := x &. PB_ATYPE_MASK.
Definition PB_HTYPE (x : Z) : Z := x &. PB_HTYPE_MASK.
Definition PB_LTYPE (x : Z) : Z := x &. PB_LTYPE_MASK.

Definition PB_SIZE_MAX : Z := 2 ^ 32 - 1.

(** [pb_wire_type_t] *)
Definition PB_WT_VARINT : Z := 0.
Definition PB_WT_64BIT : Z := 1.
Definition PB_WT_STRING : Z := 2.
Definition PB_WT_32BIT : Z := 5.

(** [struct pb_field_s] *)
Record pb_field_t := PbField {
  tag : Z;
  type : Z;
  data_offset : Z;
  size_offset : Z;
  data_size : Z;
  array_size : Z;
  ptr : Z;
}.

Definition PB_LAST_FIELD : pb_field_t := PbField 0 0 0 0 0 0 0.

(** offsetof(pb_bytes_array_t, bytes) *)
Definition offsetof_bytes : Z := 4.

(** The layouts of [pb_extension_t], [pb_extension_type_t] and [pb_callback_t]. *)
Definition ext_type (m : mem) (e : Z) : Z := load_ptr m e.
Definition ext_dest_addr (e : Z) : Z := e + 8.
Definition ext_next (m : mem) (e : Z) : Z := load_ptr m (e + 16).
Definition ext_found_addr (e : Z) : Z := e + 24.
Definition type_decode (m : mem) (t : Z) : Z := load_ptr m t.
Definition type_encode (m : mem) (t : Z) : Z := load_ptr m (t + 8).
Definition type_arg (m : mem) (t : Z) : Z := load_ptr m (t + 16).
Definition cb_funcs (m : mem) (c : Z) : Z := load_ptr m c.
Definition cb_arg_addr (c : Z) : Z := c + 8.

(** ** Errors *)

(** [PB_SET_ERROR]: the first message stays. *)
Definition PB_SET_ERROR (errmsg : option string) (msg : string) : option string :=
  match errmsg with Some m => Some m | None => Some msg end.

(** ** The field iterator *)

(** [pos] is an index into the array at [start]. *)
Record pb_field_iter_t := PbFieldIter {
  start : Z;
  pos : nat;
  required_field_index : Z;
  dest_struct : Z;
  pData : Z;
  pSize : Z;
}.

Section iter.
Context (descriptors : Z -> list pb_field_t).

Definition field_at (start : Z) (pos : nat) : pb_field_t := nth pos (descriptors start) PB_LAST_FIELD.
(** [*iter->pos] *)
Definition cur (it : pb_field_iter_t) : pb_field_t := field_at (start it) (pos it).

Definition pb_field_iter_begin (fields dest_struct : Z) : bool * pb_field_iter_t :=
  let f := field_at fields 0 in
  let it :=
    if dest_struct =? NULL then PbFieldIter fields 0 0 dest_struct NULL NULL
    else
      let pData := dest_struct + data_offset f in
      PbFieldIter fields 0 0 dest_struct pData (pData + size_offset f) in
  (negb (tag f =? 0), it).

Definition pb_field_iter_next (it : pb_field_iter_t) : bool * pb_field_iter_t :=
  let prev_field := cur it in
  if tag prev_field =? 0 then (false, it)
  else
    let pos' := S (pos it) in
    let f := field_at (start it) pos' in
    if tag f =? 0 then (false, snd (pb_field_iter_begin (start it) (dest_struct it)))
    else if (PB_HTYPE (type prev_field) =? PB_HTYPE_ONEOF)
            && (PB_HTYPE (type f) =? PB_HTYPE_ONEOF)
            && (data_offset f =? PB_SIZE_MAX) then
      (true, PbFieldIter (start it) pos' (required_field_index it) (dest_struct it) (pData it) (pSize it))
    else
      let prev_size :=
        if (PB_ATYPE (type prev_field) =? PB_ATYPE_STATIC)
           && (PB_HTYPE (type prev_field) =? PB_HTYPE_REPEATED)
        then u64 (data_size prev_field * array_size prev_field)
        else if PB_ATYPE (type prev_field) =? PB_ATYPE_POINTER then sizeof_ptr
        else data_size prev_field in
      let required_field_index :=
        if PB_HTYPE (type prev_field) =? PB_HTYPE_REQUIRED then u32 (required_field_index it + 1)
        else required_field_index it in
      let pData := pData it + prev_size + data_offset f in
      (true, PbFieldIter (start it) pos' required_field_index (dest_struct it) pData (pData + size_offset f)).

(** The loops that step until [iter->pos == start]: [fuel] bounds the steps. *)
Fixpoint iter_search (fuel : nat) (found : pb_field_t -> bool) (stop : nat) (it : pb_field_iter_t)
    : bool * pb_field_iter_t :=
  match fuel with
  | O => (false, it)
  | S fuel =>
      if found (cur it) then (true, it)
      else
        let it := snd (pb_field_iter_next it) in
        if (pos it =? stop)%nat then (false, it) else iter_search fuel found stop it
  end.

(** A round visits each entry of the array once. *)
Definition iter_fuel (it : pb_field_iter_t) : nat := S (length (descriptors (start it))).

Definition pb_field_iter_find (it : pb_field_iter_t) (wanted : Z) : bool * pb_field_iter_t :=
  iter_search (iter_fuel it)
    (fun f => (tag f =? wanted) && negb (PB_LTYPE (type f) =? PB_LTYPE_EXTENSION)) (pos it) it.

(** [find_extension_field] of pb_decode.c *)
Definition find_extension_field (it : pb_field_iter_t) : bool * pb_field_iter_t :=
  iter_search (iter_fuel it) (fun f => PB_LTYPE (type f) =? PB_LTYPE_EXTENSION) (pos it) it.
End iter.
