(* ===== verification/PbEncode.v ===== *)
(** The protobuf encoder (pb_encode.c).

    An output stream is sizing (no callback), a memory buffer, or a client's callback.  [out] is
    what the callback has been given so far, in order; for a buffer that is its contents up to
    [state].  [user_write out buf] says whether the client's callback accepts [buf].  Callbacks of
    fields and extensions are client code reached through function pointers: [encode_callback]
    and [extension_encode] interpret a pointer that is not NULL.  The messages are read from the
    memory [m] and never written. *)
From Stdlib Require Import String.
From stdpp Require Import gmap.
From S2P Require Import Prelude PbCommon.
#[global] Open Scope Z_scope.

Inductive ocallback := OSizing | OBuffer | OUser.

(** [struct pb_ostream_s] *)
Record pb_ostream_t := PbOstream {
  callback : ocallback;
  out : list Z;
  max_size : Z;
  bytes_written : Z;
  errmsg : option string;
}.

Definition PB_OSTREAM_SIZING : pb_ostream_t := PbOstream OSizing [] 0 0 None.
Definition pb_ostream_from_buffer (bufsize : Z) : pb_ostream_t := PbOstream OBuffer [] bufsize 0 None.

(** [PB_RETURN_ERROR(stream, msg)] *)
Definition oerror {A} (msg : string) : M pb_ostream_t A := fun s =>
  (None, PbOstream (callback s) (out s) (max_size s) (bytes_written s) (PB_SET_ERROR (errmsg s) msg)).
Definition is_sizing (s : pb_ostream_t) : bool := match callback s with OSizing => true | _ => false end.

Section encode.
Context (descriptors : Z -> list pb_field_t).
Context (user_write : list Z -> list Z -> bool).
Context (encode_callback : Z -> pb_field_t -> Z -> M pb_ostream_t unit).
Context (extension_encode : Z -> Z -> M pb_ostream_t unit).
Context (m : mem).

(** [buf_write] copies [count] bytes and moves [state]. *)
Definition buf_write (s : pb_ostream_t) (buf : list Z) : pb_ostream_t :=
  PbOstream (callback s) (out s ++ buf) (max_size s) (bytes_written s) (errmsg s).

(** [stream->callback(stream, buf, count)] *)
Definition call_write (buf : list Z) : M pb_ostream_t unit := fun s =>
  match callback s with
  | OUser => if user_write (out s) buf then (Some tt, buf_write s buf) else (None, s)
  | _ => (Some tt, buf_write s buf)
  end.

(** [buf] is only looked at when there is a callback. *)
Definition pb_write (buf : list Z) (count : Z) : M pb_ostream_t unit := fun s =>
  let written (s : pb_ostream_t) :=
    PbOstream (callback s) (out s) (max_size s) (u64 (bytes_written s + count)) (errmsg s) in
  if (0 <? count) && negb (is_sizing s) then
    if (u64 (bytes_written s + count) <? bytes_written s)
       || (max_size s <? u64 (bytes_written s + count))
    then oerror "stream full" s
    else match call_write buf s with
         | (Some _, s) => (Some tt, written s)
         | (None, s) => oerror "io error" s
         end
  else (Some tt, written s).

(** [pb_write] of a whole byte string. *)
Definition pb_write_all (buf : list Z) : M pb_ostream_t unit := pb_write buf (len buf).

(** *** Integers *)

(** The loop of [pb_encode_varint]: at most ten bytes for 64 bits. *)
Fixpoint varint_loop (fuel : nat) (value : Z) : list Z :=
  match fuel with
  | O => []
  | S fuel =>
      if value =? 0 then []
      else ((value &. 0x7F) |. 0x80) :: varint_loop fuel (value >> 7)
  end.

(** [buffer[i-1] &= 0x7F] *)
Fixpoint clear_last (l : list Z) : list Z :=
  match l with
  | [] => []
  | [b] => [b &. 0x7F]
  | b :: l => b :: clear_last l
  end.

Definition pb_encode_varint (value : Z) : M pb_ostream_t unit :=
  if value <=? 0x7F then pb_write_all [u8 value]
  else pb_write_all (clear_last (varint_loop 10 value)).

(** [value] is an [int64_t]. *)
Definition pb_encode_svarint (value : Z) : M pb_ostream_t unit :=
  let zigzagged :=
    if value <? 0 then u64 (Z.lnot (u64 (u64 value << 1))) else u64 (u64 value << 1) in
  pb_encode_varint zigzagged.

Definition pb_encode_fixed32 (value : Z) : M pb_ostream_t unit :=
  let val := load 4 m value in
  pb_write_all [val &. 0xFF; (val >> 8) &. 0xFF; (val >> 16) &. 0xFF; (val >> 24) &. 0xFF].

Definition pb_encode_fixed64 (value : Z) : M pb_ostream_t unit :=
  let val := load 8 m value in
  pb_write_all [val &. 0xFF; (val >> 8) &. 0xFF; (val >> 16) &. 0xFF; (val >> 24) &. 0xFF;
                (val >> 32) &. 0xFF; (val >> 40) &. 0xFF; (val >> 48) &. 0xFF; (val >> 56) &. 0xFF].

Definition pb_encode_tag (wiretype field_number : Z) : M pb_ostream_t unit :=
  pb_encode_varint (u64 (field_number << 3) |. wiretype).

Definition pb_encode_tag_for_field (field : pb_field_t) : M pb_ostream_t unit :=
  let l := PB_LTYPE (type field) in
  if (l =? PB_LTYPE_BOOL) || (l =? PB_LTYPE_VARINT) || (l =? PB_LTYPE_UVARINT) || (l =? PB_LTYPE_SVARINT)
  then pb_encode_tag PB_WT_VARINT (tag field)
  else if l =? PB_LTYPE_FIXED32 then pb_encode_tag PB_WT_32BIT (tag field)
  else if l =? PB_LTYPE_FIXED64 then pb_encode_tag PB_WT_64BIT (tag field)
  else if (l =? PB_LTYPE_BYTES) || (l =? PB_LTYPE_STRING) || (l =? PB_LTYPE_SUBMESSAGE)
          || (l =? PB_LTYPE_FIXED_LENGTH_BYTES)
  then pb_encode_tag PB_WT_STRING (tag field)
  else oerror "invalid field type".

Definition pb_encode_string (buffer size : Z) : M pb_ostream_t unit :=
  pb_encode_varint size ;;;
  pb_write (load_bytes m buffer (Z.to_nat size)) size.

(** *** Scalar fields *)

(** [sizeof(bool)] is one byte. *)
Definition safe_read_bool (pSize : Z) : bool := negb (load_byte m pSize =? 0).

Definition pb_enc_bool (field : pb_field_t) (src : Z) : M pb_ostream_t unit :=
  pb_encode_varint (if safe_read_bool src then 1 else 0).

Definition pb_enc_varint (field : pb_field_t) (src : Z) : M pb_ostream_t unit :=
  if data_size field =? 1 then pb_encode_varint (u64 (sint 8 (load 1 m src)))
  else if data_size field =? 2 then pb_encode_varint (u64 (sint 16 (load 2 m src)))
  else if data_size field =? 4 then pb_encode_varint (u64 (sint 32 (load 4 m src)))
  else if data_size field =? 8 then pb_encode_varint (u64 (sint 64 (load 8 m src)))
  else oerror "invalid data_size".

Definition pb_enc_uvarint (field : pb_field_t) (src : Z) : M pb_ostream_t unit :=
  if data_size field =? 1 then pb_encode_varint (load 1 m src)
  else if data_size field =? 2 then pb_encode_varint (load 2 m src)
  else if data_size field =? 4 then pb_encode_varint (load 4 m src)
  else if data_size field =? 8 then pb_encode_varint (load 8 m src)
  else oerror "invalid data_size".

Definition pb_enc_svarint (field : pb_field_t) (src : Z) : M pb_ostream_t unit :=
  if data_size field =? 1 then pb_encode_svarint (sint 8 (load 1 m src))
  else if data_size field =? 2 then pb_encode_svarint (sint 16 (load 2 m src))
  else if data_size field =? 4 then pb_encode_svarint (sint 32 (load 4 m src))
  else if data_size field =? 8 then pb_encode_svarint (sint 64 (load 8 m src))
  else oerror "invalid data_size".

Definition pb_enc_fixed32 (field : pb_field_t) (src : Z) : M pb_ostream_t unit := pb_encode_fixed32 src.
Definition pb_enc_fixed64 (field : pb_field_t) (src : Z) : M pb_ostream_t unit := pb_encode_fixed64 src.

Definition pb_enc_bytes (field : pb_field_t) (src : Z) : M pb_ostream_t unit :=
  if src =? NULL then pb_encode_string NULL 0
  else
    let size := load_size m src in
    if (PB_ATYPE (type field) =? PB_ATYPE_STATIC) && (u64 (data_size field - offsetof_bytes) <? size)
    then oerror "bytes size exceeded"
    else pb_encode_string (src + offsetof_bytes) size.

(** The loop of [pb_enc_string]: memory nobody wrote reads as zero, so the bytes written bound
    it. *)
Fixpoint string_size (fuel : nat) (size max_size p : Z) : Z :=
  match fuel with
  | O => size
  | S fuel =>
      if (size <? max_size) && negb (load_byte m p =? 0) then string_size fuel (size + 1) max_size (p + 1)
      else size
  end.

Definition pb_enc_string (field : pb_field_t) (src : Z) : M pb_ostream_t unit :=
  let max_size :=
    if PB_ATYPE (type field) =? PB_ATYPE_POINTER then SIZE_MAX else data_size field in
  let size := if src =? NULL then 0 else string_size (S (size m)) 0 max_size src in
  pb_encode_string src size.

Definition pb_enc_fixed_length_bytes (field : pb_field_t) (src : Z) : M pb_ostream_t unit :=
  pb_encode_string src (data_size field).

(** *** Messages *)

(** The functions below call each other through submessages.  [pb_encode'] stands for
    [pb_encode] and [check'] for [pb_check_proto3_default_value] one level down. *)
Section open.
Context (pb_encode' : Z -> Z -> M pb_ostream_t unit).
Context (check' : pb_field_t -> Z -> bool).

Definition pb_encode_submessage (fields src_struct : Z) : M pb_ostream_t unit := fun stream =>
  match pb_encode' fields src_struct PB_OSTREAM_SIZING with
  | (None, substream) =>
      (None, PbOstream (callback stream) (out stream) (max_size stream) (bytes_written stream)
               (errmsg substream))
  | (Some _, substream) =>
      let size := bytes_written substream in
      (pb_encode_varint size ;;;
       fun stream =>
         if is_sizing stream then pb_write [] size stream
         else if max_size stream <? u64 (bytes_written stream + size)
         then oerror "stream full" stream
         else
           let '(status, substream) :=
             pb_encode' fields src_struct (PbOstream (callback stream) (out stream) size 0 None) in
           let stream :=
             PbOstream (callback stream) (out substream) (max_size stream)
               (u64 (bytes_written stream + bytes_written substream)) (errmsg substream) in
           if negb (bytes_written substream =? size) then oerror "submsg size changed" stream
           else (status, stream)) stream
  end.

Definition pb_enc_submessage (field : pb_field_t) (src : Z) : M pb_ostream_t unit :=
  if ptr field =? NULL then oerror "invalid field descriptor"
  else pb_encode_submessage (ptr field) src.

(** The table; calling its NULL entry is a crash. *)
Definition PB_ENCODERS (ltype : Z) : pb_field_t -> Z -> M pb_ostream_t unit :=
  if ltype =? PB_LTYPE_BOOL then pb_enc_bool
  else if ltype =? PB_LTYPE_VARINT then pb_enc_varint
  else if ltype =? PB_LTYPE_UVARINT then pb_enc_uvarint
  else if ltype =? PB_LTYPE_SVARINT then pb_enc_svarint
  else if ltype =? PB_LTYPE_FIXED32 then pb_enc_fixed32
  else if ltype =? PB_LTYPE_FIXED64 then pb_enc_fixed64
  else if ltype =? PB_LTYPE_BYTES then pb_enc_bytes
  else if ltype =? PB_LTYPE_STRING then pb_enc_string
  else if ltype =? PB_LTYPE_SUBMESSAGE then pb_enc_submessage
  else if ltype =? PB_LTYPE_FIXED_LENGTH_BYTES then pb_enc_fixed_length_bytes
  else fun _ _ => fail.

(** [for (i = 0; i < count; i++) { body(p); p += data_size; }] *)
Fixpoint for_items (count : nat) (data_size p : Z) (body : Z -> M pb_ostream_t unit) : M pb_ostream_t unit :=
  match count with
  | O => ret tt
  | S count => body p ;;; for_items count data_size (p + data_size) body
  end.

Definition encode_array (field : pb_field_t) (pData count : Z)
    (func : pb_field_t -> Z -> M pb_ostream_t unit) : M pb_ostream_t unit :=
  if count =? 0 then ret tt
  else if negb (PB_ATYPE (type field) =? PB_ATYPE_POINTER) && (array_size field <? count)
  then oerror "array max size exceeded"
  else if PB_LTYPE (type field) <=? PB_LTYPE_LAST_PACKABLE then
    pb_encode_tag PB_WT_STRING (tag field) ;;;
    let* size := (fun stream =>
      if PB_LTYPE (type field) =? PB_LTYPE_FIXED32 then (Some (u64 (4 * count)), stream)
      else if PB_LTYPE (type field) =? PB_LTYPE_FIXED64 then (Some (u64 (8 * count)), stream)
      else match for_items (Z.to_nat count) (data_size field) pData (func field) PB_OSTREAM_SIZING with
           | (Some _, sizestream) => (Some (bytes_written sizestream), stream)
           | (None, _) => (None, stream)
           end) in
    pb_encode_varint size ;;;
    fun stream =>
      if is_sizing stream then pb_write [] size stream
      else for_items (Z.to_nat count) (data_size field) pData (func field) stream
  else
    for_items (Z.to_nat count) (data_size field) pData (fun p =>
      pb_encode_tag_for_field field ;;;
      if (PB_ATYPE (type field) =? PB_ATYPE_POINTER)
         && ((PB_LTYPE (type field) =? PB_LTYPE_STRING) || (PB_LTYPE (type field) =? PB_LTYPE_BYTES))
      then func field (load_ptr m p)
      else func field p).

(** The loop over a submessage's fields. *)
Fixpoint check_fields (fuel : nat) (it : pb_field_iter_t) : bool :=
  match fuel with
  | O => true
  | S fuel =>
      if negb (check' (cur descriptors it) (pData it)) then false
      else match pb_field_iter_next descriptors it with
           | (true, it) => check_fields fuel it
           | (false, _) => true
           end
  end.

Definition pb_check_proto3_default_value (field : pb_field_t) (pData : Z) : bool :=
  let type := type field in
  let pSize := pData + size_offset field in
  (* proto3 singular fields *)
  let rest :=
    if (PB_ATYPE type =? PB_ATYPE_STATIC) && (PB_LTYPE type =? PB_LTYPE_BYTES)
    then load_size m pData =? 0
    else if (PB_ATYPE type =? PB_ATYPE_STATIC) && (PB_LTYPE type =? PB_LTYPE_STRING)
    then load_byte m pData =? 0
    else if (PB_ATYPE type =? PB_ATYPE_STATIC) && (PB_LTYPE type =? PB_LTYPE_FIXED_LENGTH_BYTES)
    then data_size field =? 0
    else if (PB_ATYPE type =? PB_ATYPE_STATIC) && (PB_LTYPE type =? PB_LTYPE_SUBMESSAGE)
    then match pb_field_iter_begin descriptors (ptr field) pData with
         | (true, it) => check_fields (length (descriptors (ptr field))) it
         | (false, _) => true
         end
    else if (PB_ATYPE type =? PB_ATYPE_POINTER) && (PB_LTYPE_LAST_PACKABLE <? PB_LTYPE type)
    then load_ptr m pData =? NULL
    else forallb (fun b => b =? 0) (load_bytes m pData (Z.to_nat (data_size field))) in
  if PB_HTYPE type =? PB_HTYPE_REQUIRED then false
  else if PB_HTYPE type =? PB_HTYPE_REPEATED then
    if negb (size_offset field =? 0) then load_size m pSize =? 0
    else if PB_ATYPE type =? PB_ATYPE_STATIC then false
    else rest
  else if PB_HTYPE type =? PB_HTYPE_ONEOF then load_size m pSize =? 0
  else if (PB_HTYPE type =? PB_HTYPE_OPTIONAL) && negb (size_offset field =? 0)
  then negb (safe_read_bool pSize)
  else rest.

Definition encode_basic_field (field : pb_field_t) (pData : Z) : M pb_ostream_t unit :=
  let func := PB_ENCODERS (PB_LTYPE (type field)) in
  let pSize := pData + size_offset field in
  let explicit := negb (size_offset field =? 0) in
  let implicit_has :=
    if explicit then true (* not read *)
    else if PB_HTYPE (type field) =? PB_HTYPE_OPTIONAL
    then negb (pb_check_proto3_default_value field pData)
    else true in
  let pointer := PB_ATYPE (type field) =? PB_ATYPE_POINTER in
  let data := if pointer then load_ptr m pData else pData in
  let implicit_has := if pointer then negb (data =? NULL) else implicit_has in
  if PB_HTYPE (type field) =? PB_HTYPE_REQUIRED then
    if data =? NULL then oerror "missing required field"
    else pb_encode_tag_for_field field ;;; func field data
  else if PB_HTYPE (type field) =? PB_HTYPE_OPTIONAL then
    if (if explicit then safe_read_bool pSize else implicit_has)
    then pb_encode_tag_for_field field ;;; func field data
    else ret tt
  else if PB_HTYPE (type field) =? PB_HTYPE_REPEATED then
    encode_array field data (if explicit then load_size m pSize else array_size field) func
  else (* PB_HTYPE_ONEOF: [*pSize] is the local [implicit_has] when there is no size field *)
    if (if explicit then load_size m pSize else if implicit_has then 1 else 0) =? tag field
    then pb_encode_tag_for_field field ;;; func field data
    else ret tt.

Definition encode_callback_field (field : pb_field_t) (pData : Z) : M pb_ostream_t unit :=
  if negb (cb_funcs m pData =? NULL) then
    fun stream =>
      match encode_callback (cb_funcs m pData) field (cb_arg_addr pData) stream with
      | (Some _, stream) => (Some tt, stream)
      | (None, stream) => oerror "callback error" stream
      end
  else ret tt.

Definition encode_field (field : pb_field_t) (pData : Z) : M pb_ostream_t unit :=
  if (PB_ATYPE (type field) =? PB_ATYPE_STATIC) || (PB_ATYPE (type field) =? PB_ATYPE_POINTER)
  then encode_basic_field field pData
  else if PB_ATYPE (type field) =? PB_ATYPE_CALLBACK then encode_callback_field field pData
  else oerror "invalid field type".

Definition default_extension_encoder (extension : Z) : M pb_ostream_t unit :=
  let field := field_at descriptors (type_arg m (ext_type m extension)) 0 in
  if PB_ATYPE (type field) =? PB_ATYPE_POINTER
  then encode_field field (ext_dest_addr extension)
  else encode_field field (load_ptr m (ext_dest_addr extension)).

(** The list of extensions: a list in memory is no longer than the memory. *)
Fixpoint encode_extensions (fuel : nat) (extension : Z) : M pb_ostream_t unit :=
  if extension =? NULL then ret tt
  else
    match fuel with
    | O => fail
    | S fuel =>
        (let t := ext_type m extension in
         if negb (type_encode m t =? NULL) then extension_encode (type_encode m t) extension
         else default_extension_encoder extension) ;;;
        encode_extensions fuel (ext_next m extension)
    end.

Definition encode_extension_field (field : pb_field_t) (pData : Z) : M pb_ostream_t unit :=
  encode_extensions (S (size m)) (load_ptr m pData).

(** [do { ... } while (pb_field_iter_next(&iter))] *)
Fixpoint encode_fields (fuel : nat) (it : pb_field_iter_t) : M pb_ostream_t unit :=
  match fuel with
  | O => fail
  | S fuel =>
      let field := cur descriptors it in
      (if PB_LTYPE (type field) =? PB_LTYPE_EXTENSION
       then encode_extension_field field (pData it)
       else encode_field field (pData it)) ;;;
      match pb_field_iter_next descriptors it with
      | (true, it) => encode_fields fuel it
      | (false, _) => ret tt
      end
  end.

Definition pb_encode_body (fields src_struct : Z) : M pb_ostream_t unit :=
  match pb_field_iter_begin descriptors fields src_struct with
  | (false, _) => ret tt
  | (true, it) => encode_fields (length (descriptors fields)) it
  end.
End open.

(** Submessages nested [depth] deep at most. *)
Fixpoint check_depth (depth : nat) : pb_field_t -> Z -> bool :=
  match depth with
  | O => fun _ _ => false
  | S depth => pb_check_proto3_default_value (check_depth depth)
  end.

Fixpoint pb_encode (depth : nat) (fields src_struct : Z) : M pb_ostream_t unit :=
  match depth with
  | O => fail
  | S depth => pb_encode_body (pb_encode depth) (check_depth depth) fields src_struct
  end.

Definition pb_encode_delimited (depth : nat) (fields src_struct : Z) : M pb_ostream_t unit :=
  pb_encode_submessage (pb_encode depth) fields src_struct.

Definition pb_encode_nullterminated (depth : nat) (fields src_struct : Z) : M pb_ostream_t unit :=
  pb_encode depth fields src_struct ;;; pb_write_all [0].

Definition pb_get_encoded_size (depth : nat) (fields src_struct : Z) : option Z :=
  match pb_encode depth fields src_struct PB_OSTREAM_SIZING with
  | (Some _, stream) => Some (bytes_written stream)
  | (None, _) => None
  end.
End encode.
