(* ===== verification/PbEncodeLemmas.v ===== *)
(** What the encoder's operations emit, the same on a sizing stream and on a buffer.  [emits m l ok]
    says that [m] stands for the bytes [l] followed by success or failure: a sizing stream counts
    them, a buffer receives them if they fit, and whatever happens no byte goes past the limit.
    The counts are those of a machine whose sizes do not wrap. *)
From Stdlib Require Import String.
From stdpp Require Import gmap.
From S2P Require Import Prelude CbsLemmas PbCommon PbEncode.

#[global] Open Scope Z_scope.

Definition add_size (s : pb_ostream_t) (n : Z) : pb_ostream_t :=
  PbOstream (callback s) (out s) (max_size s) (u64 (bytes_written s + n)) (errmsg s).
Definition add_bytes (s : pb_ostream_t) (l : list Z) : pb_ostream_t :=
  PbOstream (callback s) (out s ++ l) (max_size s) (bytes_written s + len l) (errmsg s).

(** A stream as a client or the encoder itself sets it up. *)
Record fresh (s : pb_ostream_t) : Prop := {
  fresh_err : errmsg s = None;
  fresh_written : 0 <= bytes_written s < 2 ^ 64;
  fresh_max : max_size s < 2 ^ 64;
}.

Definition emits (m : M pb_ostream_t unit) (l : list Z) (ok : bool) : Prop := forall s, fresh s ->
  match callback s with
  | OSizing => if ok then m s = (Some tt, add_size s (len l)) else fst (m s) = None
  | OBuffer =>
      bytes_written s <= max_size s -> bytes_written s + len l < 2 ^ 64 ->
      (if ok && (bytes_written s + len l <=? max_size s)
       then m s = (Some tt, add_bytes s l) else fst (m s) = None) /\
      len (out s) <= len (out (snd (m s))) <= len (out s) + (max_size s - bytes_written s)
  | OUser => True
  end.

(** Something is emitted. *)
Definition emitter (m : M pb_ostream_t unit) : Prop := exists l ok, emits m l ok.

Lemma fresh_add_size s n : fresh s -> fresh (add_size s n).
Proof. intros []. split; cbn; try done. apply u64_range. Qed.

Lemma fresh_add_bytes s l : fresh s -> bytes_written s + len l < 2 ^ 64 -> fresh (add_bytes s l).
Proof. intros [] H. pose proof (len_nonneg l). split; cbn; try done. lia. Qed.

Lemma add_size_app s a b : add_size (add_size s a) b = add_size s (a + b).
Proof. unfold add_size. cbn. f_equal. unfold u64. rewrite Zplus_mod_idemp_l. f_equal. lia. Qed.

Lemma add_bytes_app s a b : add_bytes (add_bytes s a) b = add_bytes s (a ++ b).
Proof. unfold add_bytes. cbn. rewrite app_assoc, len_app. f_equal. lia. Qed.

Lemma emits_ret : emits (ret tt) [] true.
Proof.
  intros s []. destruct (callback s); [| |done].
  - unfold add_size, ret. rewrite len_nil, Z.add_0_r, u64_id by done. by destruct s.
  - intros Hm _. rewrite len_nil, Z.add_0_r. destruct (Z.leb_spec (bytes_written s) (max_size s)); [|lia].
    cbn. split; [|lia]. unfold add_bytes, ret. rewrite app_nil_r, len_nil, Z.add_0_r. by destruct s.
Qed.

Lemma emits_fail : emits fail [] false.
Proof. intros s []. destruct (callback s); [done| |done]. intros Hm _. cbn. split; [done|lia]. Qed.

Lemma emits_oerror msg : emits (oerror msg) [] false.
Proof. intros s []. destruct (callback s); [done| |done]. intros Hm _. cbn. split; [done|lia]. Qed.

Lemma emits_seq m1 m2 l1 l2 ok :
  emits m1 l1 true -> emits m2 l2 ok -> emits (m1 ;;; m2) (l1 ++ l2) ok.
Proof.
  intros H1 H2 s Hf. specialize (H1 s Hf). rewrite len_app. pose proof (len_nonneg l1). pose proof (len_nonneg l2).
  destruct (callback s) eqn:Hc; [| |done].
  - unfold bind. rewrite H1. specialize (H2 _ (fresh_add_size s (len l1) Hf)). cbn in H2. rewrite Hc in H2.
    by rewrite add_size_app in H2.
  - intros Hm Hlt. destruct H1 as [H1 B1]; [done|lia|]. cbn [andb] in H1. unfold bind.
    destruct (Z.leb_spec (bytes_written s + len l1) (max_size s)) as [Hfit|Hfull].
    + rewrite H1 in *. specialize (H2 _ (fresh_add_bytes s l1 Hf ltac:(lia))). cbn in H2. rewrite Hc in H2.
      destruct H2 as [H2 B2]; [lia|lia|]. rewrite <- Z.add_assoc in H2.
      rewrite add_bytes_app in H2. rewrite len_app in B2. split; [done|lia].
    + destruct (m1 s) as [[[]|] s1]; [done|]. cbn in *.
      destruct (Z.leb_spec (bytes_written s + (len l1 + len l2)) (max_size s)); [lia|].
      rewrite andb_false_r. done.
Qed.

Lemma emits_seq_fail m1 m2 l1 : emits m1 l1 false -> emits (m1 ;;; m2) l1 false.
Proof.
  intros H1 s Hf. specialize (H1 s Hf). unfold bind.
  destruct (callback s); [| |done].
  - by destruct (m1 s) as [[[]|] s1].
  - intros Hm Hlt. destruct (H1 Hm Hlt) as [H B]. destruct (m1 s) as [[[]|] s1]; done.
Qed.

Lemma emitter_seq m1 m2 : emitter m1 -> emitter m2 -> emitter (m1 ;;; m2).
Proof.
  intros (l1 & [] & H1) (l2 & ok & H2).
  - exists (l1 ++ l2), ok. by apply emits_seq.
  - exists l1, false. by apply emits_seq_fail.
Qed.

Lemma emitter_ret : emitter (ret tt).
Proof. exists [], true. apply emits_ret. Qed.
Lemma emitter_fail : emitter fail.
Proof. exists [], false. apply emits_fail. Qed.
Lemma emitter_oerror msg : emitter (oerror msg).
Proof. exists [], false. apply emits_oerror. Qed.

Create HintDb emit.
#[export] Hint Resolve emitter_ret emitter_fail emitter_oerror emitter_seq : emit.

Section encode.
Context (descriptors : Z -> list pb_field_t).
Context (user_write : list Z -> list Z -> bool).
Context (encode_callback : Z -> pb_field_t -> Z -> M pb_ostream_t unit).
Context (extension_encode : Z -> Z -> M pb_ostream_t unit).
Context (m : mem).

Lemma emits_write buf : emits (pb_write_all user_write buf) buf true.
Proof.
  intros s [He Hw Hmx]. unfold pb_write_all, pb_write, is_sizing.
  pose proof (len_nonneg buf). destruct (callback s) eqn:Hc; [| |done].
  - cbn [negb]. rewrite andb_false_r. unfold add_size. by rewrite Hc.
  - intros Hm Hlt. cbn [negb]. rewrite andb_true_r. destruct (Z.ltb_spec 0 (len buf)) as [Hp|Hz].
    + rewrite u64_id by lia. destruct (Z.ltb_spec (bytes_written s + len buf) (bytes_written s)); [lia|].
      cbn [orb]. destruct (Z.ltb_spec (max_size s) (bytes_written s + len buf));
        destruct (Z.leb_spec (bytes_written s + len buf) (max_size s)); try lia.
      * cbn. split; [done|lia].
      * unfold call_write. rewrite Hc. cbn [andb]. unfold buf_write. cbn.
        rewrite u64_id, len_app by lia. split; [by destruct s|lia].
    + assert (Hz' : len buf = 0) by lia. apply len_zero_nil in Hz' as ->. rewrite len_nil in *.
      destruct (Z.leb_spec (bytes_written s + 0) (max_size s)); [|lia]. cbn [andb snd out].
      rewrite u64_id by lia. split; [|lia]. unfold add_bytes. rewrite app_nil_r, Hc. done.
Qed.

(** Counting bytes without having them. *)
Lemma sizing_write s n : callback s = OSizing -> pb_write user_write [] n s = (Some tt, add_size s n).
Proof. intros Hc. unfold pb_write, is_sizing. rewrite Hc. cbn [negb]. rewrite andb_false_r. unfold add_size. by rewrite Hc. Qed.

Lemma load_bytes_length a n : length (load_bytes m a n) = n.
Proof. revert a. induction n as [|n IH]; intros a; cbn; [done|]. by rewrite IH. Qed.

Definition varint (v : Z) : list Z := if v <=? 0x7F then [u8 v] else clear_last (varint_loop 10 v).

Lemma emits_varint v : emits (pb_encode_varint user_write v) (varint v) true.
Proof. unfold pb_encode_varint, varint. destruct (v <=? 0x7F); apply emits_write. Qed.

Lemma emits_string a n : 0 <= n ->
  emits (pb_encode_string user_write m a n) (varint n ++ load_bytes m a (Z.to_nat n)) true.
Proof.
  intros Hn. apply emits_seq; [apply emits_varint|].
  replace n with (len (load_bytes m a (Z.to_nat n))) at 2 by (unfold len; rewrite load_bytes_length; lia).
  apply emits_write.
Qed.

Lemma emitter_write buf : emitter (pb_write_all user_write buf).
Proof. exists buf, true. apply emits_write. Qed.
Lemma emitter_varint v : emitter (pb_encode_varint user_write v).
Proof. exists (varint v), true. apply emits_varint. Qed.
Lemma emitter_svarint v : emitter (pb_encode_svarint user_write v).
Proof. apply emitter_varint. Qed.
Lemma emitter_string a n : 0 <= n -> emitter (pb_encode_string user_write m a n).
Proof. intros Hn. eexists _, true. by apply emits_string. Qed.

#[local] Hint Resolve emitter_write emitter_varint emitter_svarint emitter_string : emit.

Lemma load_bytes_byte n a : Forall byte (load_bytes m a n).
Proof. revert a. induction n as [|n IH]; intros a; cbn; [done|]. constructor; [apply u8_byte|done]. Qed.
Lemma load_nonneg n a : 0 <= load n m a.
Proof. apply (le_value_range _ (load_bytes_byte n a)). Qed.
#[local] Hint Resolve load_nonneg : emit.

Lemma emitter_if (b : bool) m1 m2 : emitter m1 -> emitter m2 -> emitter (if b then m1 else m2).
Proof. by destruct b. Qed.
#[local] Hint Resolve emitter_if : emit.
Ltac emit_if := match goal with |- emitter (if _ then _ else _) => apply emitter_if end.

Lemma emitter_tag w n : emitter (pb_encode_tag user_write w n).
Proof. apply emitter_varint. Qed.
#[local] Hint Resolve emitter_tag : emit.

Lemma emitter_tag_for_field f : emitter (pb_encode_tag_for_field user_write f).
Proof. unfold pb_encode_tag_for_field. auto 10 with emit. Qed.
#[local] Hint Resolve emitter_tag_for_field : emit.

Definition field_ok (f : pb_field_t) : Prop :=
  0 <= data_size f < 2 ^ 32 /\ 0 <= array_size f < 2 ^ 32.

Lemma emitter_bytes f a : emitter (pb_enc_bytes user_write m f a).
Proof. unfold pb_enc_bytes, load_size. auto 10 using Z.le_refl with emit. Qed.

Lemma string_size_nonneg fuel n mx a : 0 <= n -> 0 <= string_size m fuel n mx a.
Proof. revert n a. induction fuel as [|fuel IH]; intros n a Hn; cbn; [done|]. break; [apply IH; lia|done]. Qed.

Lemma emitter_enc_string f a : emitter (pb_enc_string user_write m f a).
Proof. apply emitter_string. destruct (a =? NULL); [done|]. by apply string_size_nonneg. Qed.

Lemma for_items_emits n sz p body : (forall a, emitter (body a)) -> emitter (for_items n sz p body).
Proof. intros H. revert p. induction n as [|n IH]; intros p; cbn; auto with emit. Qed.

Lemma for_items_exact n sz p body k : (forall a, exists l, len l = k /\ emits (body a) l true) ->
  exists l, len l = k * Z.of_nat n /\ emits (for_items n sz p body) l true.
Proof.
  intros H. revert p. induction n as [|n IH]; intros p; cbn [for_items].
  - exists []. split; [rewrite len_nil; lia|apply emits_ret].
  - destruct (H p) as (a & Ha & Ea), (IH (p + sz)) as (b & Hb & Eb). exists (a ++ b).
    split; [rewrite len_app; lia|by apply emits_seq].
Qed.

Lemma fresh_sizing : fresh PB_OSTREAM_SIZING.
Proof. by split; cbn. Qed.

Lemma emits_sizing inner l ok : emits inner l ok ->
  if ok then inner PB_OSTREAM_SIZING = (Some tt, add_size PB_OSTREAM_SIZING (len l))
  else fst (inner PB_OSTREAM_SIZING) = None.
Proof. intros Hi. exact (Hi _ fresh_sizing). Qed.

Lemma add_size_u64 s n : add_size s (u64 n) = add_size s n.
Proof. unfold add_size, u64. by rewrite Zplus_mod_idemp_r. Qed.

(** A step that only looks. *)
Lemma emits_pure {A} (m1 : M pb_ostream_t A) a (k : A -> M pb_ostream_t unit) l ok :
  (forall s, m1 s = (Some a, s)) -> emits (k a) l ok -> emits (let* x := m1 in k x) l ok.
Proof. intros H1 Hk s Hs. unfold bind. rewrite H1. exact (Hk s Hs). Qed.

Lemma emits_none (k : M pb_ostream_t unit) : (forall s, fst (k s) = None /\ out (snd (k s)) = out s) -> emits k [] false.
Proof.
  intros H s _. destruct (H s) as [Hf Ho]. destruct (callback s); [done| |done].
  intros Hm _. rewrite andb_false_l, Ho. split; [done|lia].
Qed.

Section open.
Context (enc' : Z -> Z -> M pb_ostream_t unit).

(** The inner message with its length in front. *)
Lemma emits_submessage fields src l : emits (enc' fields src) l true ->
  emits (pb_encode_submessage user_write enc' fields src) (varint (u64 (len l)) ++ l) true.
Proof.
  intros Hi. pose proof (emits_sizing _ _ _ Hi) as Hz. pose proof (len_nonneg l).
  intros s Hs. unfold pb_encode_submessage. rewrite Hz. cbn [bytes_written add_size PB_OSTREAM_SIZING].
  rewrite Z.add_0_l.
  refine (emits_seq _ _ _ _ true (emits_varint _) _ s Hs). clear s Hs. intros s Hs.
  unfold is_sizing. destruct (callback s) eqn:Hc; [| |done].
  - rewrite sizing_write by done. by rewrite add_size_u64.
  - intros Hm Hlt. destruct Hs as [He Hw Hmx]. rewrite !(u64_id (len l)), u64_id by lia.
    destruct (Z.ltb_spec (max_size s) (bytes_written s + len l)) as [Hfull|Hfit];
      destruct (Z.leb_spec (bytes_written s + len l) (max_size s)); try lia; cbn [andb].
    { cbn. split; [done|lia]. }
    specialize (Hi (PbOstream OBuffer (out s) (len l) 0 None) ltac:(split; cbn; lia || done)).
    cbn in Hi. destruct Hi as [Hi _]; [lia|lia|]. rewrite Z.leb_refl in Hi. rewrite Hi. cbn.
    rewrite Z.eqb_refl. cbn. rewrite len_app, u64_id by lia. split; [|lia].
    unfold add_bytes. by rewrite Hc, He.
Qed.

Lemma emitter_submessage fields src :
  emitter (enc' fields src) -> emitter (pb_encode_submessage user_write enc' fields src).
Proof.
  intros (l & [] & Hi).
  - eexists _, _. by apply emits_submessage.
  - exists [], false. apply emits_none. intros s. apply emits_sizing in Hi. unfold pb_encode_submessage.
    destruct (enc' fields src PB_OSTREAM_SIZING) as [[[]|] sub]; done.
Qed.

Context (Henc : forall fields src, emitter (enc' fields src)).

Lemma emitter_encoders f lt a : field_ok f -> emitter (PB_ENCODERS user_write m enc' lt f a).
Proof.
  intros [Hd _]. unfold PB_ENCODERS.
  repeat (match goal with |- context [if ?b then _ else _] => destruct b end).
  all: try apply emitter_bytes; try apply emitter_enc_string.
  - apply emitter_varint.
  - unfold pb_enc_varint. auto 10 with emit.
  - unfold pb_enc_uvarint. auto 10 with emit.
  - unfold pb_enc_svarint. auto 10 with emit.
  - apply emitter_write.
  - apply emitter_write.
  - unfold pb_enc_submessage. auto using emitter_submessage with emit.
  - apply emitter_string. lia.
  - apply emitter_fail.
Qed.
#[local] Hint Resolve emitter_encoders : emit.

Lemma emitter_packed f a count lt : field_ok f -> lt = PB_LTYPE (type f) -> 0 <= count < 2 ^ 32 ->
  emitter (pb_encode_tag user_write PB_WT_STRING (tag f) ;;;
    let* size := (fun stream =>
      if PB_LTYPE (type f) =? PB_LTYPE_FIXED32 then (Some (u64 (4 * count)), stream)
      else if PB_LTYPE (type f) =? PB_LTYPE_FIXED64 then (Some (u64 (8 * count)), stream)
      else match for_items (Z.to_nat count) (data_size f) a (PB_ENCODERS user_write m enc' lt f) PB_OSTREAM_SIZING with
           | (Some _, sizestream) => (Some (bytes_written sizestream), stream)
           | (None, _) => (None, stream)
           end) in
    pb_encode_varint user_write size ;;;
    fun stream =>
      if is_sizing stream then pb_write user_write [] size stream
      else for_items (Z.to_nat count) (data_size f) a (PB_ENCODERS user_write m enc' lt f) stream).
Proof.
  intros Hf -> Hn. apply emitter_seq; [apply emitter_tag|].
  set (items := for_items _ _ _ _).
  assert (Hi : exists l ok, emits items l ok /\
    ((PB_LTYPE (type f) =? PB_LTYPE_FIXED32) = true -> ok = true /\ len l = 4 * count) /\
    ((PB_LTYPE (type f) =? PB_LTYPE_FIXED64) = true -> ok = true /\ len l = 8 * count)).
  { destruct (PB_LTYPE (type f) =? PB_LTYPE_FIXED32) eqn:E4; [|destruct (PB_LTYPE (type f) =? PB_LTYPE_FIXED64) eqn:E8].
    - apply Z.eqb_eq in E4. unfold items. rewrite E4.
      destruct (for_items_exact (Z.to_nat count) (data_size f) a (pb_enc_fixed32 user_write m f) 4) as (l & Hl & He).
      { intros a'. eexists. split; [|apply emits_write]. done. }
      exists l, true. split; [exact He|]. split; [|done]. split; [done|lia].
    - apply Z.eqb_eq in E8. unfold items. rewrite E8.
      destruct (for_items_exact (Z.to_nat count) (data_size f) a (pb_enc_fixed64 user_write m f) 8) as (l & Hl & He).
      { intros a'. eexists. split; [|apply emits_write]. done. }
      exists l, true. split; [exact He|]. split; [done|]. split; [done|lia].
    - destruct (for_items_emits (Z.to_nat count) (data_size f) a (PB_ENCODERS user_write m enc' (PB_LTYPE (type f)) f))
        as (l & ok & He); [auto with emit|]. by exists l, ok. }
  destruct Hi as (l & ok & He & H4 & H8). pose proof (emits_sizing _ _ _ He) as Hz.
  destruct ok.
  - exists (varint (u64 (len l)) ++ l), true. apply (emits_pure _ (u64 (len l))).
    { intros s. rewrite Hz. cbn [bytes_written add_size PB_OSTREAM_SIZING]. rewrite Z.add_0_l.
      destruct (_ =? PB_LTYPE_FIXED32); [by rewrite (proj2 (H4 eq_refl))|].
      destruct (_ =? PB_LTYPE_FIXED64); [by rewrite (proj2 (H8 eq_refl))|done]. }
    apply emits_seq; [apply emits_varint|]. intros s Hs. unfold is_sizing.
    destruct (callback s) eqn:Hc; [| |done].
    + rewrite sizing_write by done. by rewrite add_size_u64.
    + specialize (He s Hs). by rewrite Hc in He.
  - exists [], false. apply emits_none. intros s. unfold bind at 1 3.
    destruct (_ =? PB_LTYPE_FIXED32); [by destruct (H4 eq_refl)|].
    destruct (_ =? PB_LTYPE_FIXED64); [by destruct (H8 eq_refl)|].
    destruct (items PB_OSTREAM_SIZING) as [[[]|] sub]; done.
Qed.

Lemma emitter_array f a count lt : field_ok f -> lt = PB_LTYPE (type f) -> 0 <= count < 2 ^ 32 ->
  emitter (encode_array user_write m f a count (PB_ENCODERS user_write m enc' lt)).
Proof.
  intros Hf Hlt Hn. unfold encode_array. apply emitter_if; [auto with emit|].
  apply emitter_if; [auto with emit|]. apply emitter_if; [by apply emitter_packed|].
  apply for_items_emits. auto 6 with emit.
Qed.

Context (check' : pb_field_t -> Z -> bool).

Lemma load_size_range a : 0 <= load_size m a < 2 ^ 32.
Proof. unfold load_size, load. pose proof (le_value_range _ (load_bytes_byte 4 a)) as H. exact H. Qed.

Lemma emitter_basic_field f a : field_ok f ->
  emitter (encode_basic_field descriptors user_write m enc' check' f a).
Proof.
  intros Hf. pose proof (load_size_range (a + size_offset f)). unfold encode_basic_field.
  cbv zeta. repeat emit_if; auto 6 with emit.
  apply emitter_array; [done|done|]. destruct (negb _); [done|apply Hf].
Qed.

Context (Hcb : forall p f a, emitter (encode_callback p f a)).
Context (Hext : forall p e, emitter (extension_encode p e)).

Lemma emits_or_error m1 l ok msg : emits m1 l ok ->
  emits (fun s => match m1 s with (Some _, s) => (Some tt, s) | (None, s) => oerror msg s end) l ok.
Proof.
  intros H s Hs. specialize (H s Hs). destruct (callback s); [| |done].
  - destruct ok; [by rewrite H|]. by destruct (m1 s) as [[[]|] s1].
  - intros Hm Hlt. destruct (H Hm Hlt) as [H1 H2]. clear H.
    destruct (ok && _); [by rewrite H1 in *|]. by destruct (m1 s) as [[[]|] s1].
Qed.

Lemma emitter_field f a : field_ok f ->
  emitter (encode_field descriptors user_write encode_callback m enc' check' f a).
Proof.
  intros Hf. unfold encode_field, encode_callback_field.
  repeat emit_if; auto using emitter_basic_field with emit.
  destruct (Hcb (cb_funcs m a) f (cb_arg_addr a)) as (l & ok & H). exists l, ok. by apply emits_or_error.
Qed.

Context (Hdesc : forall p, Forall field_ok (descriptors p)).

Lemma field_at_ok p n : field_ok (field_at descriptors p n).
Proof.
  unfold field_at. destruct (nth_in_or_default n (descriptors p) PB_LAST_FIELD) as [Hin| ->].
  - exact (proj1 (List.Forall_forall _ _) (Hdesc p) _ Hin).
  - by split.
Qed.

Lemma emitter_extensions fuel e :
  emitter (encode_extensions descriptors user_write encode_callback extension_encode m enc' check' fuel e).
Proof.
  revert e. induction fuel as [|fuel IH]; intros e; cbn [encode_extensions]; [auto with emit|].
  apply emitter_if; [auto with emit|]. apply emitter_seq; [|done].
  unfold default_extension_encoder. repeat emit_if; try apply Hext; apply emitter_field, field_at_ok.
Qed.

Lemma emitter_fields fuel it :
  emitter (encode_fields descriptors user_write encode_callback extension_encode m enc' check' fuel it).
Proof.
  revert it. induction fuel as [|fuel IH]; intros it; cbn [encode_fields]; [auto with emit|].
  apply emitter_seq.
  - apply emitter_if; [apply emitter_extensions|apply emitter_field, field_at_ok].
  - destruct (pb_field_iter_next descriptors it) as [[] it']; auto with emit.
Qed.

Lemma emitter_body fields src :
  emitter (pb_encode_body descriptors user_write encode_callback extension_encode m enc' check' fields src).
Proof.
  unfold pb_encode_body. destruct (pb_field_iter_begin _ _ _) as [[] it]; [apply emitter_fields|auto with emit].
Qed.
End open.

Context (Hdesc : forall p, Forall field_ok (descriptors p)).
Context (Hcb : forall p f a, emitter (encode_callback p f a)).
Context (Hext : forall p e, emitter (extension_encode p e)).

Lemma emitter_encode depth fields src :
  emitter (pb_encode descriptors user_write encode_callback extension_encode m depth fields src).
Proof.
  revert fields src. induction depth as [|depth IH]; intros fields src; cbn [pb_encode]; [auto with emit|].
  by apply emitter_body.
Qed.
End encode.

Lemma clear_last_length l : length (clear_last l) = length l.
Proof. induction l as [|b [|c l] IH]; cbn in *; [done..|]. by rewrite IH. Qed.

Lemma varint_loop_length fuel v : (length (varint_loop fuel v) <= fuel)%nat.
Proof. revert v. induction fuel as [|fuel IH]; intros v; cbn; [lia|]. destruct (v =? 0); cbn; [lia|]. specialize (IH (v >> 7)). lia. Qed.

Lemma varint_len v : len (varint v) <= 10.
Proof.
  unfold varint, len. destruct (v <=? 0x7F); [cbn; lia|]. rewrite clear_last_length.
  pose proof (varint_loop_length 10 v). lia.
Qed.

(** A message type with a nested message, a packed array and a callback, laid out as the
    generator lays out C structures, and a message of it in memory.

    [struct Inner { int32_t x; bool has_y; uint32_t y; }] has its fields at 0, 4 and 8;
    [struct Outer { int32_t a; Inner in; pb_size_t n; uint32_t rep[3]; pb_callback_t cb; }] at 0, 4,
    16, 20 and 32. *)
#[global] Open Scope Z_scope.

Definition inner_at : Z := 2000.
Definition outer_at : Z := 1000.

Definition inner_fields : list pb_field_t := [
  PbField 1 (PB_HTYPE_REQUIRED |. PB_LTYPE_VARINT) 0 0 4 0 0;
  PbField 2 (PB_HTYPE_OPTIONAL |. PB_LTYPE_UVARINT) 4 (-4) 4 0 0;
  PB_LAST_FIELD].

Definition outer_fields : list pb_field_t := [
  PbField 1 (PB_HTYPE_REQUIRED |. PB_LTYPE_VARINT) 0 0 4 0 0;
  PbField 2 (PB_HTYPE_REQUIRED |. PB_LTYPE_SUBMESSAGE) 0 0 12 0 inner_at;
  PbField 3 (PB_HTYPE_REPEATED |. PB_LTYPE_UVARINT) 4 (-4) 4 3 0;
  PbField 4 (PB_ATYPE_CALLBACK |. PB_LTYPE_STRING) 0 0 16 0 0;
  PB_LAST_FIELD].

Definition descs (p : Z) : list pb_field_t :=
  if p =? outer_at then outer_fields else if p =? inner_at then inner_fields else [].

(** a = -5, in = { 7, true, 300 }, rep = { 9, 1000 }, and a callback. *)
Definition message : mem :=
  store 8 (store 4 (store 4 (store 4 (store 4 (store 1 (store 4 (store 4 ∅ 100 (u32 (-5)))
    104 7) 108 1) 112 300) 116 2) 120 9) 124 1000) 132 77.

(** A client's stream that takes everything, and a callback that writes two bytes. *)
Definition accept (out buf : list Z) : bool := true.
Definition put_two (funcs : Z) (field : pb_field_t) (arg : Z) : M pb_ostream_t unit :=
  pb_write_all accept [0x20; 5].

Lemma descs_ok p : Forall field_ok (descs p).
Proof.
  unfold descs. destruct (p =? outer_at); [|destruct (p =? inner_at)]; [..|done];
    repeat constructor; cbn; lia || done.
Qed.

(** The bytes of the message. *)
Example message_bytes :
  out (pb_encode descs accept put_two (fun _ _ => fail) message 3 outer_at 100 (pb_ostream_from_buffer 64)).2
  = [8; 251; 255; 255; 255; 255; 255; 255; 255; 255; 1; 18; 5; 8; 7; 16; 172; 2; 26; 3; 9; 232; 7; 0x20; 5].
Proof. vm_compute. reflexivity. Qed.

(** What the encoder promises: the size computed beforehand is the size written, and a buffer is
    never overrun. *)
#[global] Open Scope Z_scope.

(** What a buffer of [cap] bytes receives from an operation that stands for [l]. *)
Definition buffer_outcome (f : M pb_ostream_t unit) (l : list Z) (ok : bool) (cap : Z) : Prop :=
  let '(r, s) := f (pb_ostream_from_buffer cap) in
  (ok = true -> len l <= cap -> r = Some tt /\ out s = l /\ bytes_written s = len l) /\
  (ok = false \/ cap < len l -> r = None) /\
  len (out s) <= cap.

Lemma emits_buffer f l ok cap : emits f l ok -> 0 <= cap < 2 ^ 64 -> len l < 2 ^ 64 -> buffer_outcome f l ok cap.
Proof.
  intros He Hc Hl. pose proof (len_nonneg l). assert (Hf : fresh (pb_ostream_from_buffer cap)) by (split; cbn; [done|lia..]).
  specialize (He _ Hf). cbn in He. unfold buffer_outcome. destruct He as [He Hb]; [lia|lia|].
  destruct (f (pb_ostream_from_buffer cap)) as [r s]. cbn in *. rewrite len_nil, Z.add_0_l in *. destruct ok; cbn in He.
  - destruct (Z.leb_spec (len l) cap); simplify_eq/=.
    + split; [done|]. split; [intros [|]; [done|lia]|lia].
    + split; [intros; lia|]. split; [done|lia].
  - split; [done|]. split; [done|lia].
Qed.

(** What the encoder relies on: the sizes in the descriptors are sizes, and client code emits the
    same bytes whenever it is called. *)
Definition client_contract (descriptors : Z -> list pb_field_t)
    (encode_callback : Z -> pb_field_t -> Z -> M pb_ostream_t unit)
    (extension_encode : Z -> Z -> M pb_ostream_t unit) : Prop :=
  (forall p, Forall field_ok (descriptors p)) /\
  (forall p f a, emitter (encode_callback p f a)) /\
  (forall p e, emitter (extension_encode p e)).

(** C19: [pb_get_encoded_size] is exact.  For every message, as long as the sizes of descriptors
    fit and client callbacks write the same bytes whenever they are called, there is one byte
    string [l]: the computed size is its length (a failing encoding has none), encoding into a
    buffer writes exactly [l] if it fits and fails otherwise, encoding with a delimiter writes
    the varint of the length before it, and in no case are more bytes written than the buffer
    holds. *)
Theorem pb_encoded_size_exact descriptors user_write encode_callback extension_encode m depth fields src :
  client_contract descriptors encode_callback extension_encode ->
  let encode := pb_encode descriptors user_write encode_callback extension_encode m depth fields src in
  let delimited := pb_encode_delimited descriptors user_write encode_callback extension_encode m depth fields src in
  exists (l : list Z) (ok : bool),
    pb_get_encoded_size descriptors user_write encode_callback extension_encode m depth fields src
      = (if ok then Some (u64 (len l)) else None) /\
    (len l < 2 ^ 63 -> forall cap, 0 <= cap < 2 ^ 64 ->
      buffer_outcome encode l ok cap /\
      buffer_outcome delimited (if ok then varint (len l) ++ l else []) ok cap).
Proof.
  intros (Hd & Hcb & Hext). cbv zeta.
  destruct (emitter_encode descriptors user_write encode_callback extension_encode m Hd Hcb Hext depth fields src)
    as (l & ok & He). exists l, ok. split.
  - pose proof (emits_sizing _ _ _ He) as Hz. unfold pb_get_encoded_size. destruct ok; [by rewrite Hz|].
    by destruct (pb_encode _ _ _ _ _ _ _ _ _) as [[]].
  - intros Hl cap Hc. split; [by apply emits_buffer; [..|lia]|]. destruct ok.
    + pose proof (emits_submessage user_write _ _ _ _ He) as Hs. pose proof (len_nonneg l).
      rewrite u64_id in Hs by lia. apply emits_buffer; [done..|]. rewrite len_app. pose proof (varint_len (len l)). lia.
    + apply emits_buffer; [|done|done]. apply emits_none. intros s. apply emits_sizing in He.
      unfold pb_encode_delimited, pb_encode_submessage.
      destruct (pb_encode _ _ _ _ _ _ _ _ PB_OSTREAM_SIZING) as [[[]|] sub]; done.
Qed.

Lemma pb_encoded_size_exact_witness :
  client_contract descs put_two (fun _ _ => fail) /\
  exists (l : list Z) (ok : bool),
    pb_get_encoded_size descs accept put_two (fun _ _ => fail) message 3 outer_at 100
      = (if ok then Some (u64 (len l)) else None) /\
    (len l < 2 ^ 63 -> forall cap, 0 <= cap < 2 ^ 64 ->
      buffer_outcome (pb_encode descs accept put_two (fun _ _ => fail) message 3 outer_at 100) l ok cap /\
      buffer_outcome (pb_encode_delimited descs accept put_two (fun _ _ => fail) message 3 outer_at 100)
        (if ok then varint (len l) ++ l else []) ok cap).
Proof.
  assert (H : client_contract descs put_two (fun _ _ => fail)).
  { split; [exact descs_ok|]. split; intros; [apply emitter_write|apply emitter_fail]. }
  split; [exact H|]. exact (pb_encoded_size_exact descs accept put_two (fun _ _ => fail) message 3 outer_at 100 H).
Defined.

(** The field iterator (pb_common.c) as a walk around the array of descriptors: its state is a
    function of the position, and a search visits every entry once. *)
#[global] Open Scope Z_scope.

Section iter.
Context (descriptors : Z -> list pb_field_t) (fields dest : Z).
Context (fs : list pb_field_t) (last : pb_field_t).

(** An array as the generator writes it: entries with tags, then the terminator. *)
Definition terminated : Prop :=
  descriptors fields = fs ++ [last] /\ tag last = 0 /\ fs <> [] /\ Forall (fun f => tag f <> 0) fs.

(** The iterator after [k] steps from the beginning. *)
Definition iter_at (k : nat) : pb_field_iter_t :=
  Nat.iter k (fun it => (pb_field_iter_next descriptors it).2) (pb_field_iter_begin descriptors fields dest).2.

Context (Hwf : terminated).

Lemma field_at_inside k : (k < length fs)%nat ->
  exists f, field_at descriptors fields k = f /\ fs !! k = Some f /\ tag f <> 0.
Proof.
  destruct Hwf as (Hd & Ht & Hne & Hall). intros Hk. destruct (lookup_lt_is_Some_2 fs k Hk) as [f Hf].
  exists f. split; [|split; [done|exact (Forall_lookup_1 _ _ _ _ Hall Hf)]].
  unfold field_at. rewrite Hd, app_nth1 by done. by apply nth_lookup_Some.
Qed.

Lemma field_at_end : tag (field_at descriptors fields (length fs)) = 0.
Proof.
  destruct Hwf as (Hd & Ht & Hne & Hall). unfold field_at. rewrite Hd, app_nth2, Nat.sub_diag by lia. exact Ht.
Qed.

(** Stepping from an entry: to the next one, or around to the first. *)
Lemma next_step it k : pos it = k -> start it = fields -> dest_struct it = dest -> (k < length fs)%nat ->
  if decide (S k < length fs)%nat
  then exists it', pb_field_iter_next descriptors it = (true, it') /\ pos it' = S k /\ start it' = fields /\ dest_struct it' = dest
  else pb_field_iter_next descriptors it = (false, (pb_field_iter_begin descriptors fields dest).2).
Proof.
  intros Hp Hs Hde Hk. destruct (field_at_inside k Hk) as (f & Hf & _ & Ht). unfold pb_field_iter_next, cur.
  rewrite Hp, Hs, Hde, Hf. destruct (Z.eqb_spec (tag f) 0) as [|_]; [done|]. destruct (decide _) as [Hn|Hn].
  - destruct (field_at_inside (S k) Hn) as (g & -> & _ & Hg). destruct (Z.eqb_spec (tag g) 0); [done|].
    destruct (_ && _); eexists; split; done.
  - assert (S k = length fs) as -> by lia. rewrite field_at_end. done.
Qed.

Lemma iter_at_pos k : (k < length fs)%nat ->
  pos (iter_at k) = k /\ start (iter_at k) = fields /\ dest_struct (iter_at k) = dest.
Proof.
  induction k as [|k IH]; intros Hk.
  - unfold iter_at, pb_field_iter_begin. cbn [Nat.iter nat_rect snd]. destruct (dest =? NULL); done.
  - destruct IH as (Hp & Hs & Hd); [lia|]. pose proof (next_step (iter_at k) k Hp Hs Hd ltac:(lia)) as Hn.
    rewrite decide_True in Hn by done. destruct Hn as (it' & E & H).
    change (iter_at (S k)) with ((pb_field_iter_next descriptors (iter_at k)).2). by rewrite E.
Qed.

Lemma iter_at_next k : (k < length fs)%nat ->
  pb_field_iter_next descriptors (iter_at k) =
    if decide (S k < length fs)%nat then (true, iter_at (S k)) else (false, iter_at 0).
Proof.
  intros Hk. destruct (iter_at_pos k Hk) as (Hp & Hs & Hd). pose proof (next_step _ _ Hp Hs Hd Hk) as Hn.
  destruct (decide _); [|done]. destruct Hn as (it' & E & _).
  change (iter_at (S k)) with ((pb_field_iter_next descriptors (iter_at k)).2). by rewrite E.
Qed.

(** The entry [d] steps further, around the end. *)
Definition ahead (k d : nat) : nat := (k + d) mod length fs.

Lemma next_ahead k d : (k < length fs)%nat ->
  (pb_field_iter_next descriptors (iter_at (ahead k d))).2 = iter_at (ahead k (S d)).
Proof.
  intros Hk. unfold ahead. assert (Hm : ((k + d) mod length fs < length fs)%nat) by (apply Nat.mod_upper_bound; lia).
  rewrite iter_at_next by done. rewrite Nat.add_succ_r.
  pose proof (Nat.div_mod_eq (k + d) (length fs)) as E. destruct (decide _) as [Hn|Hn]; cbn [snd]; f_equal.
  - apply (Nat.mod_unique _ _ ((k + d) / length fs)); lia.
  - apply (Nat.mod_unique _ _ (S ((k + d) / length fs))); nia.
Qed.

Lemma ahead_0 k : (k < length fs)%nat -> ahead k 0 = k.
Proof. intros. unfold ahead. rewrite Nat.add_0_r. by apply Nat.mod_small. Qed.

Lemma ahead_back k d : (k < length fs)%nat -> (0 < d <= length fs)%nat -> ahead k d = k -> d = length fs.
Proof.
  unfold ahead. intros Hk Hd E. pose proof (Nat.div_mod_eq (k + d) (length fs)) as H. rewrite E in H.
  assert ((k + d) / length fs = 1)%nat as Hq; [|rewrite Hq in H; lia].
  assert (length fs * ((k + d) / length fs) = d)%nat by lia. nia.
Qed.

Definition entry (k : nat) : pb_field_t := field_at descriptors fields k.

(** What a search that accepts [found] returns from entry [k]. *)
Definition search_result (found : pb_field_t -> bool) (k : nat) (r : bool * pb_field_iter_t) : Prop :=
  match r with
  | (true, it) => exists d, (d < length fs)%nat /\ it = iter_at (ahead k d) /\ found (entry (ahead k d)) = true /\
                            forall d', (d' < d)%nat -> found (entry (ahead k d')) = false
  | (false, it) => it = iter_at k /\ forall j, (j < length fs)%nat -> found (entry j) = false
  end.

Lemma search_from found k d fuel : (k < length fs)%nat -> (d < length fs)%nat -> (length fs <= fuel + d)%nat ->
  (forall d', (d' < d)%nat -> found (entry (ahead k d')) = false) ->
  search_result found k (iter_search descriptors fuel found k (iter_at (ahead k d))).
Proof.
  revert d. induction fuel as [|fuel IH]; intros d Hk Hd Hf Hno; [lia|]. cbn [iter_search].
  assert (Ha : (ahead k d < length fs)%nat) by (apply Nat.mod_upper_bound; lia).
  destruct (iter_at_pos _ Ha) as (Hp & Hs & _). unfold cur. rewrite Hp, Hs. fold (entry (ahead k d)).
  destruct (found (entry (ahead k d))) eqn:E; [by exists d|]. rewrite next_ahead by done.
  assert (Hno' : forall d', (d' < S d)%nat -> found (entry (ahead k d')) = false).
  { intros d' Hd'. destruct (decide (d' = d)) as [->|]; [done|]. apply Hno. lia. }
  assert (Ha' : (ahead k (S d) < length fs)%nat) by (apply Nat.mod_upper_bound; lia).
  destruct (iter_at_pos _ Ha') as (-> & _). destruct (Nat.eqb_spec (ahead k (S d)) k) as [Eb|Eb].
  - split; [by rewrite Eb|]. apply ahead_back in Eb; [|done|lia]. intros j Hj.
    assert (exists d', (d' < S d)%nat /\ ahead k d' = j) as (d' & Hd' & <-); [|by apply Hno'].
    destruct (decide (k <= j)%nat).
    + exists (j - k)%nat. split; [lia|]. unfold ahead. replace (k + (j - k))%nat with j by lia. by apply Nat.mod_small.
    + exists (length fs - k + j)%nat. split; [lia|]. unfold ahead.
      symmetry. apply (Nat.mod_unique _ _ 1); lia.
  - apply IH; [done| |lia|done]. destruct (decide (S d = length fs)) as [E'|]; [|lia]. exfalso. apply Eb.
    unfold ahead. rewrite E'. symmetry. apply (Nat.mod_unique _ _ 1); lia.
Qed.

Lemma search_fuel k : (k < length fs)%nat -> (length fs <= iter_fuel descriptors (iter_at k))%nat.
Proof.
  intros Hk. unfold iter_fuel. destruct (iter_at_pos k Hk) as (_ & -> & _). destruct Hwf as (-> & _).
  rewrite length_app. lia.
Qed.

Lemma search_whole found k : (k < length fs)%nat ->
  search_result found k (iter_search descriptors (iter_fuel descriptors (iter_at k)) found k (iter_at k)).
Proof.
  intros Hk. pose proof (search_fuel k Hk).
  pose proof (search_from found k 0 (iter_fuel descriptors (iter_at k)) Hk ltac:(lia) ltac:(lia)) as Hs.
  rewrite ahead_0 in Hs by done. apply Hs. lia.
Qed.
End iter.

(** The field iterator searches the whole message, whatever entry it stands at.
    [pb_field_iter_find] stops at the first entry from there on, around the end of the array,
    that has the tag and is no extension range, [find_extension_field] at the first extension
    range; the data and size pointers it then has are those of a walk from the beginning of the
    message.  If there is no such entry the search ends where it began. *)
Theorem pb_field_iter_find_spec descriptors fields dest fs last k wanted :
  terminated descriptors fields fs last -> (k < length fs)%nat ->
  let it := iter_at descriptors fields dest k in
  search_result descriptors fields dest fs
    (fun f => (tag f =? wanted) && negb (PB_LTYPE (type f) =? PB_LTYPE_EXTENSION)) k
    (pb_field_iter_find descriptors it wanted) /\
  search_result descriptors fields dest fs (fun f => PB_LTYPE (type f) =? PB_LTYPE_EXTENSION) k
    (find_extension_field descriptors it).
Proof.
  intros Hwf Hk it. destruct (iter_at_pos descriptors fields dest fs last Hwf k Hk) as (Hp & _).
  unfold pb_field_iter_find, find_extension_field, it. rewrite Hp.
  split; by apply (search_whole descriptors fields dest fs last Hwf).
Qed.

Lemma pb_field_iter_find_spec_witness :
  terminated descs outer_at (removelast outer_fields) PB_LAST_FIELD /\
  (3 < length (removelast outer_fields))%nat /\
  search_result descs outer_at 100 (removelast outer_fields)
    (fun f => (tag f =? 2) && negb (PB_LTYPE (type f) =? PB_LTYPE_EXTENSION)) 3
    (pb_field_iter_find descs (iter_at descs outer_at 100 3) 2).
Proof.
  assert (H : terminated descs outer_at (removelast outer_fields) PB_LAST_FIELD).
  { split; [done|]. split; [done|]. split; [done|]. repeat constructor; done. }
  assert (Hk : (3 < length (removelast outer_fields))%nat) by (vm_compute; lia).
  split; [exact H|]. split; [exact Hk|].
  exact (proj1 (pb_field_iter_find_spec descs outer_at 100 _ _ 3 2 H Hk)).
Defined.
