(* ===== verification/PbIstream.v ===== *)
(** The input stream of pb_decode.c: reading, varints, skipping, substreams.

    An input stream reads a memory buffer or a client's callback.  [state] is what lies ahead of
    the read position; for a client's stream it is the client's own state.  [user_read count]
    is the client's callback: it returns the bytes it has read and may change the stream, as the
    end-of-file protocol of the header allows ([bytes_left] set to zero on failure). *)
From Stdlib Require Import String.
From S2P Require Import Prelude CbsLemmas PbCommon.

#[global] Open Scope Z_scope.

Inductive icallback := buf_read_cb | user_cb.

(** [struct pb_istream_s] *)
Record pb_istream_t := PbIstream {
  callback : icallback;
  state : list Z;
  bytes_left : Z;
  errmsg : option string;
}.

Definition is_buffer (s : pb_istream_t) : bool := match callback s with buf_read_cb => true | user_cb => false end.
Definition set_bytes_left (s : pb_istream_t) (n : Z) : pb_istream_t :=
  PbIstream (callback s) (state s) n (errmsg s).

(** [PB_RETURN_ERROR(stream, msg)] *)
Definition ierror {A} (msg : string) : M pb_istream_t A := fun s =>
  (None, PbIstream (callback s) (state s) (bytes_left s) (PB_SET_ERROR (errmsg s) msg)).

Definition pb_istream_from_buffer (buf : list Z) (bufsize : Z) : pb_istream_t :=
  PbIstream buf_read_cb buf bufsize None.

Section istream.
Context (user_read : Z -> M pb_istream_t (list Z)).

(** Moves [state] and copies, unless the destination is NULL. *)
Definition buf_read (count : Z) : M pb_istream_t (list Z) := fun s =>
  (Some (take (Z.to_nat count) (state s)),
   PbIstream (callback s) (drop (Z.to_nat count) (state s)) (bytes_left s) (errmsg s)).

(** [stream->callback(stream, buf, count)] *)
Definition call_read (count : Z) : M pb_istream_t (list Z) := fun s =>
  if is_buffer s then buf_read count s else user_read count s.

(** The end of [pb_read], with a destination or from a memory buffer. *)
Definition read_checked (count : Z) : M pb_istream_t (list Z) := fun s =>
  if bytes_left s <? count then ierror "end-of-stream" s
  else match call_read count s with
       | (Some bytes, s) => (Some bytes, set_bytes_left s (u64 (bytes_left s - count)))
       | (None, s) => ierror "io error" s
       end.

(** [pb_read] into a buffer: the bytes read. *)
Definition pb_read (count : Z) : M pb_istream_t (list Z) :=
  if count =? 0 then ret [] else read_checked count.

(** The loop that throws input away in pieces of 16 bytes. *)
Fixpoint skip_loop (fuel : nat) (count : Z) : M pb_istream_t unit :=
  match fuel with
  | O => fail
  | S fuel =>
      if 16 <? count then pb_read 16 ;;; skip_loop fuel (count - 16)
      else pb_read count ;;; ret tt
  end.

(** [pb_read] with a NULL buffer. *)
Definition pb_read_null (count : Z) : M pb_istream_t unit := fun s =>
  if count =? 0 then (Some tt, s)
  else if negb (is_buffer s) then skip_loop (S (Z.to_nat (count / 16))) count s
  else (read_checked count ;;; ret tt) s.

Definition pb_readbyte : M pb_istream_t Z := fun s =>
  if bytes_left s =? 0 then ierror "end-of-stream" s
  else match call_read 1 s with
       | (Some bytes, s) => (Some (u8 (hd 0 bytes)), set_bytes_left s (u64 (bytes_left s - 1)))
       | (None, s) => ierror "io error" s
       end.

(** *** Varints *)

(** The multibyte loop of [pb_decode_varint32_eof]; [bitpos] is a [uint_fast8_t] of 8 bits.  It
    has no limit of its own and every round reads a byte. *)
Fixpoint varint32_loop (fuel : nat) (bitpos result : Z) : M pb_istream_t Z :=
  match fuel with
  | O => fail
  | S fuel =>
      let* byte := pb_readbyte in
      let sign_extension := if bitpos <? 63 then 0xFF else 0x01 in
      if (32 <=? bitpos) && negb (byte &. 0x7F =? 0x00)
         && ((result >> 31 =? 0) || negb (byte =? sign_extension))
      then ierror "varint overflow"
      else
        let result := if 32 <=? bitpos then result else result |. u32 ((byte &. 0x7F) << bitpos) in
        let bitpos := u8 (bitpos + 7) in
        if negb (byte &. 0x80 =? 0) then varint32_loop fuel bitpos result
        else if (bitpos =? 35) && negb (byte &. 0x70 =? 0) then ierror "varint overflow"
        else ret result
  end.

(** Enough rounds to use up what the stream says it has left. *)
Definition rounds (s : pb_istream_t) : nat := S (Z.to_nat (bytes_left s)).

(** The result, whether [*eof] is set, and the stream. *)
Definition pb_decode_varint32_eof (s : pb_istream_t) : option Z * bool * pb_istream_t :=
  match pb_readbyte s with
  | (None, s) => (None, bytes_left s =? 0, s)
  | (Some byte, s) =>
      if byte &. 0x80 =? 0 then (Some byte, false, s)
      else let '(r, s) := varint32_loop (rounds s) 7 (byte &. 0x7F) s in (r, false, s)
  end.

Definition pb_decode_varint32 : M pb_istream_t Z := fun s =>
  let '(r, _, s) := pb_decode_varint32_eof s in (r, s).

(** [bitpos] stops the loop before its eleventh byte. *)
Fixpoint varint64_loop (fuel : nat) (bitpos result : Z) : M pb_istream_t Z :=
  match fuel with
  | O => fail
  | S fuel =>
      if 64 <=? bitpos then ierror "varint overflow"
      else
        let* byte := pb_readbyte in
        let result := result |. u64 ((byte &. 0x7F) << bitpos) in
        let bitpos := u8 (bitpos + 7) in
        if negb (byte &. 0x80 =? 0) then varint64_loop fuel bitpos result else ret result
  end.

Definition pb_decode_varint : M pb_istream_t Z := varint64_loop 11 0 0.

(** The [int64_t] with two's complement. *)
Definition pb_decode_svarint : M pb_istream_t Z :=
  let* value := pb_decode_varint in
  if negb (value &. 1 =? 0) then ret (sint 64 (u64 (Z.lnot (value >> 1))))
  else ret (sint 64 (value >> 1)).

(** *** Skipping *)

Fixpoint skip_varint_loop (fuel : nat) : M pb_istream_t unit :=
  match fuel with
  | O => fail
  | S fuel =>
      let* buf := pb_read 1 in
      if negb (u8 (hd 0 buf) &. 0x80 =? 0) then skip_varint_loop fuel else ret tt
  end.
Definition pb_skip_varint : M pb_istream_t unit := fun s => skip_varint_loop (rounds s) s.

Definition pb_skip_string : M pb_istream_t unit :=
  let* length := pb_decode_varint32 in
  pb_read_null length.

(** Tag and wire type, whether [*eof] is set, and the stream. *)
Definition pb_decode_tag (s : pb_istream_t) : option (Z * Z) * bool * pb_istream_t :=
  match pb_decode_varint32_eof s with
  | (None, eof, s) => (None, eof, s)
  | (Some temp, eof, s) =>
      if temp =? 0 then (None, true, s) else (Some (temp >> 3, temp &. 7), eof, s)
  end.

Definition pb_skip_field (wire_type : Z) : M pb_istream_t unit :=
  if wire_type =? PB_WT_VARINT then pb_skip_varint
  else if wire_type =? PB_WT_64BIT then pb_read_null 8
  else if wire_type =? PB_WT_STRING then pb_skip_string
  else if wire_type =? PB_WT_32BIT then pb_read_null 4
  else ierror "invalid wire_type".

(** The varint case of [read_raw_value]; [max] is what is left of the buffer. *)
Fixpoint raw_varint_loop (max : nat) : M pb_istream_t (list Z) :=
  match max with
  | O => fail
  | S max =>
      let* buf := pb_read 1 in
      let byte := u8 (hd 0 buf) in
      if negb (byte &. 0x80 =? 0) then let* rest := raw_varint_loop max in ret (byte :: rest)
      else ret [byte]
  end.

(** The bytes written to [buf]; [*size] becomes their number. *)
Definition read_raw_value (wire_type : Z) (max_size : nat) : M pb_istream_t (list Z) :=
  if wire_type =? PB_WT_VARINT then raw_varint_loop max_size
  else if wire_type =? PB_WT_64BIT then pb_read 8
  else if wire_type =? PB_WT_32BIT then pb_read 4
  else ierror "invalid wire_type".

(** *** Substreams *)

Definition pb_make_string_substream : M pb_istream_t pb_istream_t :=
  let* size := pb_decode_varint32 in
  fun stream =>
    if bytes_left stream <? size then ierror "parent stream too short" stream
    else (Some (set_bytes_left stream size), set_bytes_left stream (u64 (bytes_left stream - size))).

Definition pb_close_string_substream (substream : pb_istream_t) : M pb_istream_t unit := fun stream =>
  match pb_read_null (bytes_left substream) substream with
  | (None, _) => (None, stream)
  | (Some _, substream) =>
      (Some tt, PbIstream (callback stream) (state substream) (bytes_left stream) (errmsg substream))
  end.
End istream.

(** Reading from a memory buffer: what each primitive returns on every input, and the varints. *)
#[global] Open Scope Z_scope.

(** A buffer stream that may still read [l]; [tail] lies behind its limit. *)
Definition input (l tail : list Z) (e : option string) : pb_istream_t :=
  PbIstream buf_read_cb (l ++ tail) (len l) e.

Lemma input_buffer buf : pb_istream_from_buffer buf (len buf) = input buf [] None.
Proof. unfold input. by rewrite app_nil_r. Qed.

Lemma lor_add r x n : 0 <= n -> 0 <= r < 2 ^ n -> (2 ^ n | x) -> r |. x = r + x.
Proof.
  intros Hn Hr [k ->]. rewrite Z.lor_comm, lor_mul_add by done. lia.
Qed.

(** ** Varints as lists of groups of seven bits *)

Definition more (b : Z) : Prop := 128 <= b < 256.
Definition last_byte (b : Z) : Prop := 0 <= b < 128.

(** [varint_bytes l]: one varint, continuation bytes and a last byte. *)
Definition varint_bytes (l : list Z) : Prop := exists p b, l = p ++ [b] /\ Forall more p /\ last_byte b.

Fixpoint varint_value (l : list Z) : Z :=
  match l with
  | [] => 0
  | b :: l => b mod 128 + 128 * varint_value l
  end.

Lemma varint_value_nonneg l : 0 <= varint_value l.
Proof. induction l as [|b l IH]; cbn; [done|]. pose proof (Z.mod_pos_bound b 128). lia. Qed.

Section read.
Context (user_read : Z -> M pb_istream_t (list Z)).

Lemma readbyte_cons b l tail e : byte b -> len (b :: l) < 2 ^ 64 ->
  pb_readbyte user_read (input (b :: l) tail e) = (Some b, input l tail e).
Proof.
  intros Hb Hl. pose proof (len_nonneg l). rewrite len_cons in Hl. unfold pb_readbyte, input. cbn [bytes_left].
  rewrite len_cons. destruct (Z.eqb_spec (1 + len l) 0); [lia|]. unfold call_read, buf_read, set_bytes_left. cbn.
  rewrite u8_id, u64_id by done || lia. do 3 f_equal. lia.
Qed.

Lemma readbyte_nil tail e :
  pb_readbyte user_read (input [] tail e) = (None, input [] tail (PB_SET_ERROR e "end-of-stream")).
Proof. reflexivity. Qed.

(** [pb_read] on every buffer. *)
Lemma read_spec n l tail e : 0 <= n -> len l < 2 ^ 64 ->
  pb_read user_read n (input l tail e) =
    if n <=? len l then (Some (take (Z.to_nat n) l), input (drop (Z.to_nat n) l) tail e)
    else (None, input l tail (PB_SET_ERROR e "end-of-stream")).
Proof.
  intros Hn Hl. pose proof (len_nonneg l). unfold pb_read. destruct (Z.eqb_spec n 0) as [->|Hn0].
  - destruct (Z.leb_spec 0 (len l)); [|lia]. change (Z.to_nat 0) with 0%nat. by rewrite take_0, drop_0.
  - unfold read_checked. cbn [input bytes_left]. destruct (Z.ltb_spec (len l) n);
      destruct (Z.leb_spec n (len l)); try lia; [done|].
    unfold call_read, buf_read, set_bytes_left. cbn. unfold len in *.
    rewrite u64_id, take_app_le, drop_app_le by lia. unfold input, len. rewrite length_drop. do 3 f_equal. lia.
Qed.

Lemma read_null_spec n l tail e : 0 <= n -> len l < 2 ^ 64 ->
  pb_read_null user_read n (input l tail e) =
    if n <=? len l then (Some tt, input (drop (Z.to_nat n) l) tail e)
    else (None, input l tail (PB_SET_ERROR e "end-of-stream")).
Proof.
  intros Hn Hl. pose proof (read_spec n l tail e Hn Hl) as Hr. unfold pb_read_null. unfold pb_read in Hr.
  destruct (Z.eqb_spec n 0) as [->|Hn0].
  - destruct (Z.leb_spec 0 (len l)); [|by pose proof (len_nonneg l); lia]. cbn in Hr. unfold ret in Hr. by simplify_eq.
  - cbn [is_buffer input callback negb]. unfold bind. rewrite Hr. by destruct (n <=? len l).
Qed.

Lemma read_app l r tail e : len (l ++ r) < 2 ^ 64 ->
  pb_read user_read (len l) (input (l ++ r) tail e) = (Some l, input r tail e).
Proof.
  intros Hl. pose proof (len_nonneg l). pose proof (len_nonneg r). rewrite read_spec by done. rewrite len_app.
  destruct (Z.leb_spec (len l) (len l + len r)); [|lia]. unfold len. rewrite Nat2Z.id.
  by rewrite take_app_length, drop_app_length.
Qed.

Lemma read_null_app l r tail e : len (l ++ r) < 2 ^ 64 ->
  pb_read_null user_read (len l) (input (l ++ r) tail e) = (Some tt, input r tail e).
Proof.
  intros Hl. pose proof (len_nonneg l). pose proof (len_nonneg r). rewrite read_null_spec by done. rewrite len_app.
  destruct (Z.leb_spec (len l) (len l + len r)); [|lia]. unfold len. rewrite Nat2Z.id.
  by rewrite drop_app_length.
Qed.

Lemma more_byte b : more b -> byte b.
Proof. unfold more, byte. lia. Qed.
Lemma last_byte_byte b : last_byte b -> byte b.
Proof. unfold last_byte, byte. lia. Qed.
Lemma byte_more_or_last b : byte b -> more b \/ last_byte b.
Proof. unfold more, last_byte, byte. lia. Qed.

Lemma pow7_succ k : 0 <= k -> 2 ^ (7 * (k + 1)) = 2 ^ (7 * k) * 128.
Proof. intros. replace (7 * (k + 1)) with (7 * k + 7) by lia. by rewrite Z.pow_add_r by lia. Qed.

(** One round of [pb_decode_varint]. *)
Lemma varint64_step fuel k r b l tail e :
  0 <= k <= 9 -> byte b -> 0 <= r < 2 ^ (7 * k) -> len (b :: l) < 2 ^ 64 ->
  let r' := (r + 2 ^ (7 * k) * (b mod 128)) mod 2 ^ 64 in
  0 <= r' < 2 ^ (7 * (k + 1)) /\
  varint64_loop user_read (S fuel) (7 * k) r (input (b :: l) tail e) =
    if b <? 128 then (Some r', input l tail e)
    else varint64_loop user_read fuel (7 * (k + 1)) r' (input l tail e).
Proof.
  intros Hk Hb Hr Hl r'. pose proof (Z.mod_pos_bound b 128 ltac:(lia)) as Hm.
  pose proof (pow7_succ k ltac:(lia)) as Hp.
  split.
  { split; [apply Z.mod_pos_bound; lia|]. eapply Z.le_lt_trans; [apply Z.mod_le; nia|]. nia. }
  cbn [varint64_loop]. destruct (Z.leb_spec 64 (7 * k)); [lia|]. unfold bind. rewrite readbyte_cons by done.
  rewrite land_127, byte_high_bit by done.
  replace (r |. u64 ((b mod 128) << (7 * k))) with r'.
  2:{ unfold r', u64. rewrite Z.shiftl_mul_pow2 by lia. rewrite (Z.mul_comm (b mod 128)).
      replace (2 ^ 64) with (2 ^ (7 * k) * 2 ^ (64 - 7 * k)) by (rewrite <- Z.pow_add_r by lia; f_equal; lia).
      rewrite Zmult_mod_distr_l. rewrite (lor_add _ _ (7 * k)) by (lia || apply Z.divide_factor_l).
      set (q := 2 ^ (7 * k)) in *. set (t := 2 ^ (64 - 7 * k)).
      assert (0 < t) by (apply Z.pow_pos_nonneg; lia). pose proof (Z.mod_pos_bound (b mod 128) t ltac:(lia)).
      pose proof (Z.div_mod (b mod 128) t ltac:(lia)) as Hd.
      symmetry. apply (Z.mod_unique _ _ (b mod 128 / t)); nia. }
  rewrite (Z.mod_small (7 * k + 7) (2 ^ 8)) || (unfold u8; rewrite (Z.mod_small (7 * k + 7)) by lia).
  replace (7 * k + 7) with (7 * (k + 1)) by lia. by destruct (b <? 128).
Qed.

Lemma varint64_exact fuel p b l tail e k r :
  Forall more p -> last_byte b -> 0 <= k -> k + len p <= 9 -> (length p < fuel)%nat ->
  0 <= r < 2 ^ (7 * k) -> len (p ++ b :: l) < 2 ^ 64 ->
  varint64_loop user_read fuel (7 * k) r (input (p ++ b :: l) tail e) =
    (Some ((r + 2 ^ (7 * k) * varint_value (p ++ [b])) mod 2 ^ 64), input l tail e).
Proof.
  intros Hp Hb. revert fuel k r. induction Hp as [|c p Hc Hp IH]; intros [|fuel] k r Hk Hn Hfuel Hr Hl;
    try (cbn in Hfuel; lia); cbn [app] in *.
  - rewrite len_nil in Hn. destruct (varint64_step fuel k r b l tail e) as [_ ->];
      [lia|by apply last_byte_byte|done|done|].
    unfold last_byte in Hb. destruct (Z.ltb_spec b 128); [|lia]. cbn [varint_value]. do 3 f_equal. lia.
  - rewrite len_cons in Hn. pose proof (len_nonneg p).
    destruct (varint64_step fuel k r c (p ++ b :: l) tail e) as [Hr' ->];
      [lia|by apply more_byte|done|done|].
    unfold more in Hc. destruct (Z.ltb_spec c 128); [lia|]. rewrite len_cons in Hl.
    rewrite IH by (lia || done || (cbn in Hfuel; lia)). cbn [varint_value]. do 2 f_equal.
    rewrite Z.add_mod_idemp_l by lia. f_equal.
    rewrite pow7_succ by done. lia.
Qed.

Lemma varint64_overflow fuel p l tail e k r :
  Forall more p -> 0 <= k -> k + len p = 10 -> (length p < fuel)%nat ->
  0 <= r < 2 ^ (7 * k) -> len (p ++ l) < 2 ^ 64 ->
  varint64_loop user_read fuel (7 * k) r (input (p ++ l) tail e) =
    (None, input l tail (PB_SET_ERROR e "varint overflow")).
Proof.
  intros Hp. revert fuel k r. induction Hp as [|c p Hc Hp IH]; intros [|fuel] k r Hk Hn Hfuel Hr Hl;
    try (cbn in Hfuel; lia); cbn [app] in *.
  - rewrite len_nil in Hn. assert (k = 10) as -> by lia. reflexivity.
  - rewrite len_cons in Hn. pose proof (len_nonneg p).
    destruct (varint64_step fuel k r c (p ++ l) tail e) as [Hr' ->]; [lia|by apply more_byte|done|done|].
    unfold more in Hc. destruct (Z.ltb_spec c 128); [lia|]. rewrite len_cons in Hl.
    by rewrite IH by (lia || done || (cbn in Hfuel; lia)).
Qed.

Lemma varint64_short fuel p tail e k r :
  Forall more p -> 0 <= k -> k + len p <= 9 -> (length p < fuel)%nat -> 0 <= r < 2 ^ (7 * k) -> len p < 2 ^ 64 ->
  varint64_loop user_read fuel (7 * k) r (input p tail e) =
    (None, input [] tail (PB_SET_ERROR e "end-of-stream")).
Proof.
  intros Hp. revert fuel k r. induction Hp as [|c p Hc Hp IH]; intros [|fuel] k r Hk Hn Hfuel Hr Hl;
    try (cbn in Hfuel; lia).
  - rewrite len_nil in Hn. cbn [varint64_loop]. destruct (Z.leb_spec 64 (7 * k)); [lia|]. reflexivity.
  - rewrite len_cons in Hn. pose proof (len_nonneg p).
    destruct (varint64_step fuel k r c p tail e) as [Hr' ->]; [lia|by apply more_byte|done|done|].
    unfold more in Hc. destruct (Z.ltb_spec c 128); [lia|]. rewrite len_cons in Hl.
    by rewrite IH by (lia || done || (cbn in Hfuel; lia)).
Qed.

Lemma land_0x70 b : 0 <= b < 128 -> (b &. 0x70 =? 0) = (b <? 16).
Proof.
  intros Hb.
  assert (H : forall n, (n < 128)%nat -> (Z.of_nat n &. 0x70 =? 0) = (Z.of_nat n <? 16)).
  { intros n Hn. do 128 (destruct n as [|n]; [reflexivity|]). lia. }
  specialize (H (Z.to_nat b) ltac:(lia)). by rewrite Z2Nat.id in H by lia.
Qed.

(** One round of the multibyte loop below the 32nd bit. *)
Lemma varint32_step fuel k r b l tail e :
  1 <= k <= 4 -> byte b -> 0 <= r < 2 ^ (7 * k) -> len (b :: l) < 2 ^ 64 ->
  varint32_loop user_read (S fuel) (7 * k) r (input (b :: l) tail e) =
    if b <? 128 then
      if r + 2 ^ (7 * k) * b <? 2 ^ 32 then (Some (r + 2 ^ (7 * k) * b), input l tail e)
      else (None, input l tail (PB_SET_ERROR e "varint overflow"))
    else varint32_loop user_read fuel (7 * (k + 1)) ((r + 2 ^ (7 * k) * (b mod 128)) mod 2 ^ 32) (input l tail e).
Proof.
  intros Hk Hb Hr Hl. pose proof (Z.mod_pos_bound b 128 ltac:(lia)) as Hm.
  cbn [varint32_loop]. unfold bind. rewrite readbyte_cons by done.
  destruct (Z.leb_spec 32 (7 * k)); [lia|]. cbn [andb]. rewrite land_127, byte_high_bit by done.
  replace (r |. u32 ((b mod 128) << (7 * k))) with ((r + 2 ^ (7 * k) * (b mod 128)) mod 2 ^ 32).
  2:{ unfold u32. rewrite Z.shiftl_mul_pow2 by lia. rewrite (Z.mul_comm (b mod 128)).
      replace (2 ^ 32) with (2 ^ (7 * k) * 2 ^ (32 - 7 * k)) by (rewrite <- Z.pow_add_r by lia; f_equal; lia).
      rewrite Zmult_mod_distr_l. rewrite (lor_add _ _ (7 * k)) by (lia || apply Z.divide_factor_l).
      set (q := 2 ^ (7 * k)) in *. set (t := 2 ^ (32 - 7 * k)).
      assert (0 < t) by (apply Z.pow_pos_nonneg; lia). pose proof (Z.mod_pos_bound (b mod 128) t ltac:(lia)).
      pose proof (Z.div_mod (b mod 128) t ltac:(lia)) as Hd.
      symmetry. apply (Z.mod_unique _ _ (b mod 128 / t)); nia. }
  unfold u8. rewrite (Z.mod_small (7 * k + 7)) by lia. replace (7 * k + 7) with (7 * (k + 1)) by lia.
  destruct (Z.ltb_spec b 128); [|done]. cbn [negb]. unfold byte in Hb. rewrite land_0x70 by lia.
  rewrite (Z.mod_small b 128) by lia.
  assert (Hc : k = 1 \/ k = 2 \/ k = 3 \/ k = 4) by lia.
  destruct Hc as [->|[->|[->| ->]]]; change (2 ^ (7 * 1)) with 128 in *; change (2 ^ (7 * 2)) with 16384 in *;
    change (2 ^ (7 * 3)) with 2097152 in *; change (2 ^ (7 * 4)) with 268435456 in *; cbn [andb negb].
  4: change (7 * (4 + 1) =? 35) with true; cbn [andb]; destruct (Z.ltb_spec b 16); cbn [negb].
  all: match goal with |- context [if ?a <? 2 ^ 32 then _ else _] => destruct (Z.ltb_spec a (2 ^ 32)) end;
    try lia; try done; by rewrite Z.mod_small by lia.
Qed.

Lemma varint32_loop_exact fuel p b l tail e k r :
  Forall more p -> last_byte b -> 1 <= k -> k + len p <= 4 -> (length p < fuel)%nat ->
  0 <= r < 2 ^ (7 * k) -> len (p ++ b :: l) < 2 ^ 64 ->
  varint32_loop user_read fuel (7 * k) r (input (p ++ b :: l) tail e) =
    let v := r + 2 ^ (7 * k) * varint_value (p ++ [b]) in
    if v <? 2 ^ 32 then (Some v, input l tail e)
    else (None, input l tail (PB_SET_ERROR e "varint overflow")).
Proof.
  intros Hp Hb. revert fuel k r. induction Hp as [|c p Hc Hp IH]; intros [|fuel] k r Hk Hn Hfuel Hr Hl;
    try (cbn in Hfuel; lia); cbn [app varint_value] in *.
  - rewrite len_nil in Hn. rewrite varint32_step by (lia || done || by apply last_byte_byte).
    unfold last_byte in Hb. destruct (Z.ltb_spec b 128); [|lia].
    rewrite (Z.mod_small b) by done. by rewrite Z.mul_0_r, Z.add_0_r.
  - rewrite len_cons in Hn. pose proof (len_nonneg p). pose proof (pow7_succ k ltac:(lia)).
    rewrite varint32_step by (lia || done || by apply more_byte).
    unfold more in Hc. destruct (Z.ltb_spec c 128); [lia|]. rewrite len_cons in Hl.
    pose proof (Z.mod_pos_bound c 128 ltac:(lia)).
    assert (2 ^ (7 * (k + 1)) <= 2 ^ 28) by (apply Z.pow_le_mono_r; lia).
    rewrite Z.mod_small by nia. rewrite IH by (lia || nia || done || (cbn in Hfuel; lia)). cbv zeta.
    replace (r + 2 ^ (7 * k) * (c mod 128) + 2 ^ (7 * (k + 1)) * varint_value (p ++ [b]))
      with (r + 2 ^ (7 * k) * (c mod 128 + 128 * varint_value (p ++ [b]))) by nia. done.
Qed.

(** [pb_decode_varint32] on an encoding of at most five bytes. *)
Lemma varint32_exact p b l tail e :
  Forall more p -> last_byte b -> len p <= 4 -> len (p ++ b :: l) < 2 ^ 64 ->
  pb_decode_varint32_eof user_read (input (p ++ b :: l) tail e) =
    let v := varint_value (p ++ [b]) in
    if v <? 2 ^ 32 then (Some v, false, input l tail e)
    else (None, false, input l tail (PB_SET_ERROR e "varint overflow")).
Proof.
  intros Hp Hb Hn Hl. unfold pb_decode_varint32_eof. destruct Hp as [|c p Hc Hp]; cbn [app varint_value] in *.
  - rewrite readbyte_cons by (done || by apply last_byte_byte). rewrite byte_high_bit by by apply last_byte_byte.
    unfold last_byte in Hb. destruct (Z.ltb_spec b 128); [|lia]. cbv zeta.
    rewrite Z.mod_small, Z.mul_0_r, Z.add_0_r by done. destruct (Z.ltb_spec b (2 ^ 32)); [done|lia].
  - rewrite readbyte_cons by (done || by apply more_byte). rewrite byte_high_bit by by apply more_byte.
    unfold more in Hc. destruct (Z.ltb_spec c 128); [lia|]. rewrite len_cons in Hn, Hl. rewrite land_127.
    pose proof (Z.mod_pos_bound c 128 ltac:(lia)).
    rewrite (varint32_loop_exact _ p b l tail e 1) by
      (done || lia || (unfold rounds, input; cbn; unfold len; rewrite length_app; lia)).
    cbv zeta. change (2 ^ (7 * 1)) with 128. by destruct (_ <? 2 ^ 32).
Qed.

(** An input that ends inside a varint of at most five bytes. *)
Lemma varint32_loop_short fuel p tail e k r :
  Forall more p -> 1 <= k -> k + len p <= 4 -> (length p < fuel)%nat -> 0 <= r < 2 ^ (7 * k) -> len p < 2 ^ 64 ->
  varint32_loop user_read fuel (7 * k) r (input p tail e) =
    (None, input [] tail (PB_SET_ERROR e "end-of-stream")).
Proof.
  intros Hp. revert fuel k r. induction Hp as [|c p Hc Hp IH]; intros [|fuel] k r Hk Hn Hfuel Hr Hl;
    try (cbn in Hfuel; lia); [done|].
  rewrite len_cons in Hn. pose proof (len_nonneg p). pose proof (pow7_succ k ltac:(lia)).
  rewrite varint32_step by (lia || done || by apply more_byte).
  unfold more in Hc. destruct (Z.ltb_spec c 128); [lia|]. rewrite len_cons in Hl.
  pose proof (Z.mod_pos_bound c 128 ltac:(lia)).
  assert (2 ^ (7 * (k + 1)) <= 2 ^ 28) by (apply Z.pow_le_mono_r; lia).
  rewrite Z.mod_small by nia. by rewrite IH by (lia || nia || done || (cbn in Hfuel; lia)).
Qed.

Lemma varint32_short p tail e : Forall more p -> len p <= 4 ->
  (pb_decode_varint32 user_read (input p tail e)).1 = None.
Proof.
  intros Hp Hn. unfold pb_decode_varint32, pb_decode_varint32_eof. destruct Hp as [|c p Hc Hp]; [done|].
  rewrite readbyte_cons by (lia || by apply more_byte). rewrite byte_high_bit by by apply more_byte.
  unfold more in Hc. destruct (Z.ltb_spec c 128); [lia|]. rewrite len_cons in Hn. rewrite land_127.
  pose proof (Z.mod_pos_bound c 128 ltac:(lia)).
  rewrite (varint32_loop_short _ p tail e 1) by
    (done || lia || (unfold rounds, input; cbn; unfold len; lia)). done.
Qed.

(** *** Skipping a varint *)

Lemma skip_varint_step fuel b l tail e : byte b -> len (b :: l) < 2 ^ 64 ->
  skip_varint_loop user_read (S fuel) (input (b :: l) tail e) =
    if b <? 128 then (Some tt, input l tail e) else skip_varint_loop user_read fuel (input l tail e).
Proof.
  intros Hb Hl. cbn [skip_varint_loop]. unfold bind. change 1 with (len [b]). change (b :: l) with ([b] ++ l).
  rewrite read_app by done. cbn [hd]. rewrite u8_id, byte_high_bit by done. by destruct (b <? 128).
Qed.

Lemma skip_varint_exact fuel p b l tail e : Forall more p -> last_byte b -> (length p < fuel)%nat ->
  len (p ++ b :: l) < 2 ^ 64 ->
  skip_varint_loop user_read fuel (input (p ++ b :: l) tail e) = (Some tt, input l tail e).
Proof.
  intros Hp Hb. revert fuel. induction Hp as [|c p Hc Hp IH]; intros [|fuel] Hf Hl; try (cbn in Hf; lia); cbn [app] in *.
  - rewrite skip_varint_step by (done || by apply last_byte_byte). unfold last_byte in Hb.
    destruct (Z.ltb_spec b 128); [done|lia].
  - rewrite skip_varint_step by (done || by apply more_byte). unfold more in Hc.
    destruct (Z.ltb_spec c 128); [lia|]. rewrite len_cons in Hl. apply IH; [cbn in Hf; lia|lia].
Qed.

Lemma skip_varint_short fuel p tail e : Forall more p -> len p < 2 ^ 64 ->
  (skip_varint_loop user_read fuel (input p tail e)).1 = None.
Proof.
  intros Hp. revert fuel. induction Hp as [|c p Hc Hp IH]; intros [|fuel] Hl; try done.
  rewrite skip_varint_step by (done || by apply more_byte). unfold more in Hc.
  destruct (Z.ltb_spec c 128); [lia|]. rewrite len_cons in Hl. apply IH. lia.
Qed.
End read.
