(* ===== verification/PbDecode.v ===== *)
(** The protobuf decoder (pb_decode.c).

    The decoder writes the message structure in the byte memory of [PbCommon], allocates with the
    C library, and reads a stream of [PbIstream].  A decoding function acts on all three; the
    first argument of the C functions is the stream of the state.  Callbacks of fields and
    extensions are client code: [decode_callback p field arg] and
    [extension_decode p extension tag wire_type] interpret the function pointer [p].

    The recursion through submessages, extensions and defaults is bounded by [depth]; loops over
    the input are bounded by the bytes left in it. *)
From Stdlib Require Import String.
From stdpp Require Import gmap.
From S2P Require Import Prelude PbCommon PbIstream.
#[global] Open Scope Z_scope.

(** ** Memory and the allocator *)

(** [blocks] are the live allocations with their sizes, [brk] the next fresh address, and
    [bad_free] records a [free] or [realloc] of a pointer that is no live allocation. *)
Record world := World {
  memory : mem;
  blocks : gmap Z Z;
  brk : Z;
  bad_free : bool;
}.

Definition set_memory (m : mem) (w : world) : world := World m (blocks w) (brk w) (bad_free w).

(** [memset(p, 0, n)] *)
Definition memzero (p n : Z) (m : mem) : mem := store_bytes m p (repeat 0 (Z.to_nat n)).

(** [free(p)] *)
Definition pb_free (p : Z) (w : world) : world :=
  if p =? NULL then w
  else match blocks w !! p with
       | Some _ => World (memory w) (delete p (blocks w)) (brk w) (bad_free w)
       | None => World (memory w) (blocks w) (brk w) true
       end.

(** [realloc(p, n)] of a positive [n]: the block moves to fresh memory when [available] says
    there is room. *)
Definition pb_realloc (available : world -> Z -> bool) (p n : Z) (w : world) : Z * world :=
  if negb (available w n) then (NULL, w)
  else
    let q := brk w in
    let old := if p =? NULL then 0 else default 0 (blocks w !! p) in
    let w' := pb_free p w in
    (q, World (store_bytes (memory w') q (load_bytes (memory w') p (Z.to_nat (Z.min old n))))
              (<[q := n]> (blocks w')) (q + n) (bad_free w')).

(** ** The state of a decoding function *)

Record dstate := DState {
  strm : pb_istream_t;
  wld : world;
}.

Definition D (A : Type) : Type := M dstate A.

Definition on_stream {A} (f : M pb_istream_t A) : D A := fun d =>
  let '(r, s) := f (strm d) in (r, DState s (wld d)).
Definition on_world (f : world -> world) : D unit := fun d => (Some tt, DState (strm d) (f (wld d))).
Definition on_memory (f : mem -> mem) : D unit := on_world (fun w => set_memory (f (memory w)) w).
Definition from_memory {A} (f : mem -> A) : D A := fun d => (Some (f (memory (wld d))), d).
Definition derror {A} (msg : string) : D A := on_stream (ierror msg).

(** Run [f] on another stream and come back to the stream of the state: the result of [f] and
    where it left the substream. *)
Definition on_substream {A} (substream : pb_istream_t) (f : D A) : D (option A * pb_istream_t) := fun d =>
  let '(r, d') := f (DState substream (wld d)) in
  (Some (r, strm d'), DState (strm d) (wld d')).

Definition as_status (r : option unit) : D unit := match r with Some _ => ret tt | None => fail end.

Definition PB_MAX_REQUIRED_FIELDS : Z := 64.
Definition PB_BYTES_ARRAY_T_ALLOCSIZE (n : Z) : Z := u64 (n + offsetof_bytes).

Section decode.
Context (descriptors : Z -> list pb_field_t).
Context (user_read : Z -> M pb_istream_t (list Z)).
Context (decode_callback : Z -> pb_field_t -> Z -> D unit).
Context (extension_decode : Z -> Z -> Z -> Z -> D unit).
Context (available : world -> Z -> bool).

(** *** Scalars *)

Definition pb_dec_bool (dest : Z) : D unit :=
  let* value := on_stream (pb_decode_varint32 user_read) in
  on_memory (fun m => store_bool m dest (negb (value =? 0))).
Definition pb_decode_bool (dest : Z) : D unit := pb_dec_bool dest.

Definition pb_decode_fixed32 (dest : Z) : D unit :=
  let* bytes := on_stream (pb_read user_read 4) in
  let b i := nth i bytes 0 in
  on_memory (fun m => store 4 m dest
    ((b 0%nat << 0) |. (b 1%nat << 8) |. (b 2%nat << 16) |. (b 3%nat << 24))).

Definition pb_decode_fixed64 (dest : Z) : D unit :=
  let* bytes := on_stream (pb_read user_read 8) in
  let b i := nth i bytes 0 in
  on_memory (fun m => store 8 m dest
    ((b 0%nat << 0) |. (b 1%nat << 8) |. (b 2%nat << 16) |. (b 3%nat << 24) |.
     (b 4%nat << 32) |. (b 5%nat << 40) |. (b 6%nat << 48) |. (b 7%nat << 56))).

(** The end of the three varint decoders: store the value cut to the field's size, then compare. *)
Definition store_checked (signed : bool) (field : pb_field_t) (dest value : Z) : D unit :=
  let cast n := if signed then sint (8 * n) (value mod 2 ^ (8 * n)) else value mod 2 ^ (8 * n) in
  let put n :=
    on_memory (fun m => store (Z.to_nat n) m dest (value mod 2 ^ (8 * n))) ;;;
    if negb (cast n =? value) then derror "integer too large" else ret tt in
  if data_size field =? 8 then put 8
  else if data_size field =? 4 then put 4
  else if data_size field =? 2 then put 2
  else if data_size field =? 1 then put 1
  else derror "invalid data_size".

Definition pb_dec_varint (field : pb_field_t) (dest : Z) : D unit :=
  let* value := on_stream (pb_decode_varint user_read) in
  let svalue := if data_size field =? 8 then sint 64 value else sint 32 (u32 value) in
  store_checked true field dest svalue.

Definition pb_dec_uvarint (field : pb_field_t) (dest : Z) : D unit :=
  let* value := on_stream (pb_decode_varint user_read) in
  store_checked false field dest value.

Definition pb_dec_svarint (field : pb_field_t) (dest : Z) : D unit :=
  let* value := on_stream (pb_decode_svarint user_read) in
  store_checked true field dest value.

Definition pb_dec_fixed32 (field : pb_field_t) (dest : Z) : D unit := pb_decode_fixed32 dest.
Definition pb_dec_fixed64 (field : pb_field_t) (dest : Z) : D unit := pb_decode_fixed64 dest.

(** *** Allocation *)

Definition allocate_field (pData data_size array_size : Z) : D unit :=
  let* ptr := from_memory (fun m => load_ptr m pData) in
  if (data_size =? 0) || (array_size =? 0) then derror "invalid size"
  else
    let check_limit := 1 << 32 in
    if ((check_limit <=? data_size) || (check_limit <=? array_size))
       && (SIZE_MAX / array_size <? data_size)
    then derror "size too large"
    else fun d =>
      let '(ptr, w) := pb_realloc available ptr (u64 (array_size * data_size)) (wld d) in
      let d := DState (strm d) w in
      if ptr =? NULL then derror "realloc failed" d
      else on_memory (fun m => store_ptr m pData ptr) d.

(** *** Strings *)

Definition pb_dec_bytes (field : pb_field_t) (dest : Z) : D unit :=
  let* size := on_stream (pb_decode_varint32 user_read) in
  let alloc_size := PB_BYTES_ARRAY_T_ALLOCSIZE size in
  if PB_SIZE_MAX <? size then derror "bytes overflow"
  else if alloc_size <? size then derror "size too large"
  else
    let* bdest :=
      (if PB_ATYPE (type field) =? PB_ATYPE_POINTER then fun d =>
         if bytes_left (strm d) <? size then derror "end-of-stream" d
         else (allocate_field dest alloc_size 1 ;;; from_memory (fun m => load_ptr m dest)) d
       else if data_size field <? alloc_size then derror "bytes overflow"
       else ret dest) in
    on_memory (fun m => store_size m bdest size) ;;;
    let* bytes := on_stream (pb_read user_read size) in
    on_memory (fun m => store_bytes m (bdest + offsetof_bytes) bytes).

Definition pb_dec_string (field : pb_field_t) (dest : Z) : D unit :=
  let* size := on_stream (pb_decode_varint32 user_read) in
  let alloc_size := u32 (size + 1) in
  if alloc_size <? size then derror "size too large"
  else
    let* dest :=
      (if PB_ATYPE (type field) =? PB_ATYPE_POINTER then fun d =>
         if bytes_left (strm d) <? size then derror "end-of-stream" d
         else (allocate_field dest alloc_size 1 ;;; from_memory (fun m => load_ptr m dest)) d
       else if data_size field <? alloc_size then derror "string overflow"
       else ret dest) in
    fun d =>
      let '(status, d) :=
        (let* bytes := on_stream (pb_read user_read size) in
         on_memory (fun m => store_bytes m dest bytes)) d in
      (on_memory (fun m => store_bytes m (dest + size) [0]) ;;; as_status status) d.

Definition pb_dec_fixed_length_bytes (field : pb_field_t) (dest : Z) : D unit :=
  let* size := on_stream (pb_decode_varint32 user_read) in
  if PB_SIZE_MAX <? size then derror "bytes overflow"
  else if size =? 0 then on_memory (memzero dest (data_size field))
  else if negb (size =? data_size field) then derror "incorrect fixed length bytes size"
  else
    let* bytes := on_stream (pb_read user_read (data_size field)) in
    on_memory (fun m => store_bytes m dest bytes).

(** *** Defaults *)

(** [do { f(&iter); } while (pb_field_iter_next(&iter))] *)
Fixpoint for_fields (fuel : nat) (f : pb_field_iter_t -> world -> world) (it : pb_field_iter_t)
    (w : world) : world :=
  match fuel with
  | O => w
  | S fuel =>
      let w := f it w in
      match pb_field_iter_next descriptors it with
      | (true, it) => for_fields fuel f it w
      | (false, _) => w
      end
  end.

Definition for_message (f : pb_field_iter_t -> world -> world) (fields dest_struct : Z) (w : world) : world :=
  match pb_field_iter_begin descriptors fields dest_struct with
  | (false, _) => w
  | (true, it) => for_fields (length (descriptors fields)) f it w
  end.

(** The iterator is the first entry's with the extension's pointers. *)
Definition iter_from_extension (m : mem) (extension : Z) : pb_field_iter_t :=
  let field := type_arg m (ext_type m extension) in
  let it := snd (pb_field_iter_begin descriptors field (load_ptr m (ext_dest_addr extension))) in
  let pData :=
    if PB_ATYPE (type (field_at descriptors field 0)) =? PB_ATYPE_POINTER then ext_dest_addr extension
    else load_ptr m (ext_dest_addr extension) in
  PbFieldIter (start it) (pos it) (required_field_index it) (dest_struct it) pData (ext_found_addr extension).

(** [while (ext != NULL) { f(ext); ext = ext->next; }]: a list in memory is no longer than the
    memory. *)
Fixpoint for_extensions (fuel : nat) (f : Z -> world -> world) (ext : Z) (w : world) : world :=
  match fuel with
  | O => w
  | S fuel =>
      if ext =? NULL then w
      else let w := f ext w in for_extensions fuel f (ext_next (memory w) ext) w
  end.

Definition on_mem (f : mem -> mem) (w : world) : world := set_memory (f (memory w)) w.

Fixpoint pb_field_set_to_default (depth : nat) (it : pb_field_iter_t) (w : world) : world :=
  match depth with
  | O => w
  | S depth =>
      let field := cur descriptors it in
      let type := type field in
      if PB_LTYPE type =? PB_LTYPE_EXTENSION then
        for_extensions (S (size (memory w))) (fun ext w =>
          let w := on_mem (fun m => store_bool m (ext_found_addr ext) false) w in
          pb_field_set_to_default depth (iter_from_extension (memory w) ext) w)
          (load_ptr (memory w) (pData it)) w
      else if PB_ATYPE type =? PB_ATYPE_STATIC then
        let '(init_data, w) :=
          if (PB_HTYPE type =? PB_HTYPE_OPTIONAL) && negb (pSize it =? pData it)
          then (true, on_mem (fun m => store_bool m (pSize it) false) w)
          else if (PB_HTYPE type =? PB_HTYPE_REPEATED) || (PB_HTYPE type =? PB_HTYPE_ONEOF)
          then (false, on_mem (fun m => store_size m (pSize it) 0) w)
          else (true, w) in
        if init_data then
          if PB_LTYPE type =? PB_LTYPE_SUBMESSAGE
          then for_message (pb_field_set_to_default depth) (ptr field) (pData it) w
          else if negb (ptr field =? NULL)
          then on_mem (fun m => store_bytes m (pData it)
                 (load_bytes m (ptr field) (Z.to_nat (data_size field)))) w
          else on_mem (memzero (pData it) (data_size field)) w
        else w
      else if PB_ATYPE type =? PB_ATYPE_POINTER then
        let w := on_mem (fun m => store_ptr m (pData it) NULL) w in
        if (PB_HTYPE type =? PB_HTYPE_REPEATED) || (PB_HTYPE type =? PB_HTYPE_ONEOF)
        then on_mem (fun m => store_size m (pSize it) 0) w
        else w
      else w
  end.

Definition pb_message_set_to_defaults (depth : nat) (fields dest_struct : Z) : world -> world :=
  for_message (pb_field_set_to_default depth) fields dest_struct.

(** *** Release *)

(** [for (; count > 0; count--) { f(pItem); pItem += size; }] *)
Fixpoint for_count (count : nat) (size pItem : Z) (f : Z -> world -> world) (w : world) : world :=
  match count with
  | O => w
  | S count => for_count count size (pItem + size) f (f pItem w)
  end.

Fixpoint pb_release_single_field (depth : nat) (it : pb_field_iter_t) (w : world) : world :=
  match depth with
  | O => w
  | S depth =>
      let field := cur descriptors it in
      let type := type field in
      let pb_release (fields dest_struct : Z) (w : world) : world :=
        if dest_struct =? NULL then w
        else for_message (pb_release_single_field depth) fields dest_struct w in
      if (PB_HTYPE type =? PB_HTYPE_ONEOF) && negb (load_size (memory w) (pSize it) =? tag field) then w
      else
        let w :=
          if PB_LTYPE type =? PB_LTYPE_EXTENSION then
            for_extensions (S (size (memory w))) (fun ext w =>
              pb_release_single_field depth (iter_from_extension (memory w) ext) w)
              (load_ptr (memory w) (pData it)) w
          else if (PB_LTYPE type =? PB_LTYPE_SUBMESSAGE) && negb (PB_ATYPE type =? PB_ATYPE_CALLBACK) then
            let pItem := if PB_ATYPE type =? PB_ATYPE_POINTER then load_ptr (memory w) (pData it) else pData it in
            let count :=
              if PB_HTYPE type =? PB_HTYPE_REPEATED then
                let count :=
                  if (PB_ATYPE type =? PB_ATYPE_STATIC) && (pSize it =? pData it)
                  then array_size field
                  else load_size (memory w) (pSize it) in
                if (PB_ATYPE type =? PB_ATYPE_STATIC) && (array_size field <? count)
                then array_size field else count
              else 1 in
            if negb (pItem =? NULL)
            then for_count (Z.to_nat count) (data_size field) pItem (pb_release (ptr field)) w
            else w
          else w in
        if PB_ATYPE type =? PB_ATYPE_POINTER then
          let w :=
            if (PB_HTYPE type =? PB_HTYPE_REPEATED)
               && ((PB_LTYPE type =? PB_LTYPE_STRING) || (PB_LTYPE type =? PB_LTYPE_BYTES))
            then for_count (Z.to_nat (load_size (memory w) (pSize it))) sizeof_ptr
                   (load_ptr (memory w) (pData it)) (fun p w =>
                     on_mem (fun m => store_ptr m p NULL) (pb_free (load_ptr (memory w) p) w)) w
            else w in
          let w :=
            if PB_HTYPE type =? PB_HTYPE_REPEATED then on_mem (fun m => store_size m (pSize it) 0) w else w in
          on_mem (fun m => store_ptr m (pData it) NULL) (pb_free (load_ptr (memory w) (pData it)) w)
        else w
  end.

Definition pb_release (depth : nat) (fields dest_struct : Z) (w : world) : world :=
  if dest_struct =? NULL then w
  else for_message (pb_release_single_field depth) fields dest_struct w.

(** [iter] is moved to the old field and back. *)
Definition pb_release_union_field (depth : nat) (it : pb_field_iter_t) : D pb_field_iter_t :=
  let* old_tag := from_memory (fun m => load_size m (pSize it)) in
  let new_tag := tag (cur descriptors it) in
  if old_tag =? 0 then ret it
  else if old_tag =? new_tag then ret it
  else
    match pb_field_iter_find descriptors it old_tag with
    | (false, _) => derror "invalid union tag"
    | (true, it) =>
        on_world (pb_release_single_field depth it) ;;;
        match pb_field_iter_find descriptors it new_tag with
        | (false, _) => derror "iterator error"
        | (true, it) =>
            (if PB_ATYPE (type (cur descriptors it)) =? PB_ATYPE_POINTER
             then on_memory (fun m => store_ptr m (pData it) NULL) else ret tt) ;;;
            ret it
        end
    end.
End decode.
