(* ===== verification/PbMessage.v ===== *)
(** The protobuf decoder's messages (pb_decode.c): submessages, static, pointer, callback and
    extension fields, the loop over a message's fields, and the entry points. *)
From Stdlib Require Import String.
From stdpp Require Import gmap.
From S2P Require Import Prelude PbCommon PbIstream PbDecode.
#[global] Open Scope Z_scope.

(** The locals of [pb_decode_noinit] that live through its loop. *)
Record loop_state := LoopState {
  iter : pb_field_iter_t;
  extension_range_start : Z;
  fixed_count_field : option nat;  (* an index like [pos]; [None] is NULL *)
  fields_seen : list Z;            (* uint32_t[(PB_MAX_REQUIRED_FIELDS + 31) / 32] *)
}.

(** The local [fixed_count_size] has an address: each level of the recursion has its own below
    the message memory. *)
Definition fixed_count_addr (depth : nat) : Z := - 4 * (Z.of_nat depth + 1).

Definition allbits : Z := 2 ^ 32 - 1.

Section decode.
Context (descriptors : Z -> list pb_field_t).
Context (user_read : Z -> M pb_istream_t (list Z)).
Context (decode_callback : Z -> pb_field_t -> Z -> D unit).
Context (extension_decode : Z -> Z -> Z -> Z -> D unit).
Context (available : world -> Z -> bool).

(** [pb_decode'] and [pb_decode_noinit'] stand for the entry points one level down. *)
Section open.
Context (pb_decode' pb_decode_noinit' : Z -> Z -> D unit).
Context (depth : nat).

Definition pb_dec_submessage (field : pb_field_t) (dest : Z) : D unit :=
  let* substream := on_stream (pb_make_string_substream user_read) in
  if ptr field =? NULL then derror "invalid field descriptor"
  else
    let* '(status, substream) :=
      on_substream substream
        (if PB_HTYPE (type field) =? PB_HTYPE_REPEATED then pb_decode' (ptr field) dest
         else pb_decode_noinit' (ptr field) dest) in
    on_stream (pb_close_string_substream user_read substream) ;;;
    as_status status.

(** The table; calling its NULL entry is a crash. *)
Definition PB_DECODERS (ltype : Z) : pb_field_t -> Z -> D unit :=
  if ltype =? PB_LTYPE_BOOL then fun _ => pb_dec_bool user_read
  else if ltype =? PB_LTYPE_VARINT then pb_dec_varint user_read
  else if ltype =? PB_LTYPE_UVARINT then pb_dec_uvarint user_read
  else if ltype =? PB_LTYPE_SVARINT then pb_dec_svarint user_read
  else if ltype =? PB_LTYPE_FIXED32 then pb_dec_fixed32 user_read
  else if ltype =? PB_LTYPE_FIXED64 then pb_dec_fixed64 user_read
  else if ltype =? PB_LTYPE_BYTES then pb_dec_bytes user_read available
  else if ltype =? PB_LTYPE_STRING then pb_dec_string user_read available
  else if ltype =? PB_LTYPE_SUBMESSAGE then pb_dec_submessage
  else if ltype =? PB_LTYPE_FIXED_LENGTH_BYTES then pb_dec_fixed_length_bytes user_read
  else fun _ _ => fail.

(** *** Static fields *)

(** The loop over a packed array, on the substream: the status. *)
Fixpoint static_packed_loop (fuel : nat) (field : pb_field_t) (func : pb_field_t -> Z -> D unit)
    (pData pSize : Z) : D bool :=
  match fuel with
  | O => ret true
  | S fuel => fun d =>
      let size := load_size (memory (wld d)) pSize in
      if (0 <? bytes_left (strm d)) && (size <? array_size field) then
        match func field (pData + data_size field * size) d with
        | (None, d) => (Some false, d)
        | (Some _, d) =>
            (on_memory (fun m => store_size m pSize (u32 (load_size m pSize + 1))) ;;;
             static_packed_loop fuel field func pData pSize) d
        end
      else (Some true, d)
  end.

Definition decode_static_field (wire_type : Z) (it : pb_field_iter_t) : D unit :=
  let field := cur descriptors it in
  let type := type field in
  let func := PB_DECODERS (PB_LTYPE type) in
  if PB_HTYPE type =? PB_HTYPE_REQUIRED then func field (pData it)
  else if PB_HTYPE type =? PB_HTYPE_OPTIONAL then
    (if negb (pSize it =? pData it) then on_memory (fun m => store_bool m (pSize it) true) else ret tt) ;;;
    func field (pData it)
  else if PB_HTYPE type =? PB_HTYPE_REPEATED then
    if (wire_type =? PB_WT_STRING) && (PB_LTYPE type <=? PB_LTYPE_LAST_PACKABLE) then
      let* substream := on_stream (pb_make_string_substream user_read) in
      let* '(status, substream) :=
        on_substream substream (static_packed_loop (rounds substream) field func (pData it) (pSize it)) in
      if negb (bytes_left substream =? 0) then derror "array overflow"
      else
        on_stream (pb_close_string_substream user_read substream) ;;;
        check (default false status)
    else
      let* size := from_memory (fun m => load_size m (pSize it)) in
      let pItem := pData it + data_size field * size in
      on_memory (fun m => store_size m (pSize it) (u32 (size + 1))) ;;;
      if array_size field <=? size then derror "array overflow"
      else func field pItem
  else (* PB_HTYPE_ONEOF *)
    (fun d =>
       if (PB_LTYPE type =? PB_LTYPE_SUBMESSAGE)
          && negb (load_size (memory (wld d)) (pSize it) =? tag field)
       then
         (on_memory (memzero (pData it) (data_size field)) ;;;
          on_world (pb_message_set_to_defaults descriptors depth (ptr field) (pData it))) d
       else (Some tt, d)) ;;;
    on_memory (fun m => store_size m (pSize it) (tag field)) ;;;
    func field (pData it).

(** *** Pointer fields *)

Definition initialize_pointer_field (pItem : Z) (it : pb_field_iter_t) : D unit :=
  let field := cur descriptors it in
  let type := type field in
  if (PB_LTYPE type =? PB_LTYPE_STRING) || (PB_LTYPE type =? PB_LTYPE_BYTES)
  then on_memory (fun m => store_ptr m pItem NULL)
  else if PB_LTYPE type =? PB_LTYPE_SUBMESSAGE then
    on_memory (memzero pItem (data_size field)) ;;;
    on_world (pb_message_set_to_defaults descriptors depth (ptr field) pItem)
  else ret tt.

(** The loop over a packed array, on the substream: the status, and whether it stopped with
    [too many array entries], a message for the parent stream. *)
Fixpoint pointer_packed_loop (fuel : nat) (it : pb_field_iter_t) (func : pb_field_t -> Z -> D unit)
    (allocated_size : Z) : D (bool * bool) :=
  match fuel with
  | O => ret (true, false)
  | S fuel => fun d =>
      let field := cur descriptors it in
      let size := load_size (memory (wld d)) (pSize it) in
      if bytes_left (strm d) =? 0 then (Some (true, false), d)
      else if size =? PB_SIZE_MAX then (Some (false, true), d)
      else
        let grow := allocated_size <? size + 1 in
        let remain := (bytes_left (strm d) - 1) / data_size field + 1 in
        let allocated_size :=
          if negb grow then allocated_size
          else if remain <? u64 (PB_SIZE_MAX - allocated_size) then u64 (allocated_size + remain)
          else u64 (allocated_size + 1) in
        let item : D unit :=
          (if grow then allocate_field available (pData it) (data_size field) allocated_size else ret tt) ;;;
          let* p := from_memory (fun m => load_ptr m (pData it)) in
          let pItem := p + data_size field * size in
          check (negb (pItem =? NULL)) ;;;
          initialize_pointer_field pItem it ;;;
          func field pItem in
        match item d with
        | (None, d) => (Some (false, false), d)
        | (Some _, d) =>
            (on_memory (fun m => store_size m (pSize it) (u32 (load_size m (pSize it) + 1))) ;;;
             pointer_packed_loop fuel it func allocated_size) d
        end
  end.

Definition decode_pointer_field (wire_type : Z) (it : pb_field_iter_t) : D unit :=
  let field := cur descriptors it in
  let type := type field in
  let func := PB_DECODERS (PB_LTYPE type) in
  if (PB_HTYPE type =? PB_HTYPE_REQUIRED) || (PB_HTYPE type =? PB_HTYPE_OPTIONAL)
     || (PB_HTYPE type =? PB_HTYPE_ONEOF) then
    (fun d =>
       if (PB_LTYPE type =? PB_LTYPE_SUBMESSAGE) && negb (load_ptr (memory (wld d)) (pData it) =? NULL)
       then on_world (pb_release_single_field descriptors depth it) d
       else (Some tt, d)) ;;;
    (if PB_HTYPE type =? PB_HTYPE_ONEOF
     then on_memory (fun m => store_size m (pSize it) (tag field)) else ret tt) ;;;
    if (PB_LTYPE type =? PB_LTYPE_STRING) || (PB_LTYPE type =? PB_LTYPE_BYTES)
    then func field (pData it)
    else
      allocate_field available (pData it) (data_size field) 1 ;;;
      let* p := from_memory (fun m => load_ptr m (pData it)) in
      initialize_pointer_field p it ;;;
      let* p := from_memory (fun m => load_ptr m (pData it)) in
      func field p
  else (* PB_HTYPE_REPEATED *)
    if (wire_type =? PB_WT_STRING) && (PB_LTYPE type <=? PB_LTYPE_LAST_PACKABLE) then
      let* allocated_size := from_memory (fun m => load_size m (pSize it)) in
      let* substream := on_stream (pb_make_string_substream user_read) in
      let* '(r, substream) :=
        on_substream substream (pointer_packed_loop (rounds substream) it func allocated_size) in
      let '(status, too_many) := default (false, false) r in
      (if too_many
       then on_stream (fun s =>
              (Some tt, PbIstream (callback s) (state s) (bytes_left s)
                          (Some "too many array entries"%string)))
       else ret tt) ;;;
      on_stream (pb_close_string_substream user_read substream) ;;;
      check status
    else
      let* size := from_memory (fun m => load_size m (pSize it)) in
      if size =? PB_SIZE_MAX then derror "too many array entries"
      else
        allocate_field available (pData it) (data_size field) (u32 (size + 1)) ;;;
        let* p := from_memory (fun m => load_ptr m (pData it)) in
        let* size := from_memory (fun m => load_size m (pSize it)) in
        let pItem := p + data_size field * size in
        on_memory (fun m => store_size m (pSize it) (u32 (size + 1))) ;;;
        initialize_pointer_field pItem it ;;;
        func field pItem.

(** *** Callback fields *)

(** [do { ... } while (substream.bytes_left)]: a callback has to consume input. *)
Fixpoint callback_loop (fuel : nat) (funcs : Z) (field : pb_field_t) (arg : Z) : D unit :=
  match fuel with
  | O => fail
  | S fuel =>
      decode_callback funcs field arg ;;;
      fun d => if bytes_left (strm d) =? 0 then (Some tt, d) else callback_loop fuel funcs field arg d
  end.

Definition decode_callback_field (wire_type : Z) (it : pb_field_iter_t) : D unit :=
  let field := cur descriptors it in
  let* funcs := from_memory (fun m => cb_funcs m (pData it)) in
  if (pData it =? NULL) || (funcs =? NULL) then on_stream (pb_skip_field user_read wire_type)
  else
    let arg := cb_arg_addr (pData it) in
    if wire_type =? PB_WT_STRING then
      let* substream := on_stream (pb_make_string_substream user_read) in
      let* '(r, substream) := on_substream substream (callback_loop (rounds substream) funcs field arg) in
      match r with
      | None => derror "callback failed"
      | Some _ => on_stream (pb_close_string_substream user_read substream)
      end
    else
      let* buffer := on_stream (read_raw_value user_read wire_type 10) in
      let* '(r, _) :=
        on_substream (pb_istream_from_buffer buffer (len buffer)) (decode_callback funcs field arg) in
      as_status r.

Definition decode_field (wire_type : Z) (it : pb_field_iter_t) : D pb_field_iter_t :=
  let* it :=
    (if PB_HTYPE (type (cur descriptors it)) =? PB_HTYPE_ONEOF
     then pb_release_union_field descriptors depth it else ret it) in
  let atype := PB_ATYPE (type (cur descriptors it)) in
  (if atype =? PB_ATYPE_STATIC then decode_static_field wire_type it
   else if atype =? PB_ATYPE_POINTER then decode_pointer_field wire_type it
   else if atype =? PB_ATYPE_CALLBACK then decode_callback_field wire_type it
   else derror "invalid field type") ;;;
  ret it.

(** *** Extensions *)

Definition default_extension_decoder (extension field_tag wire_type : Z) : D unit :=
  let* field := from_memory (fun m => field_at descriptors (type_arg m (ext_type m extension)) 0) in
  if negb (tag field =? field_tag) then ret tt
  else
    let* it := from_memory (fun m => iter_from_extension descriptors m extension) in
    on_memory (fun m => store_bool m (ext_found_addr extension) true) ;;;
    decode_field wire_type it ;;;
    ret tt.

(** [pos] is what was left when the loop began. *)
Fixpoint decode_extensions (fuel : nat) (pos field_tag wire_type extension : Z) : D unit :=
  match fuel with
  | O => fail
  | S fuel => fun d =>
      if negb (extension =? NULL) && (pos =? bytes_left (strm d)) then
        let decode := type_decode (memory (wld d)) (ext_type (memory (wld d)) extension) in
        ((if negb (decode =? NULL) then extension_decode decode extension field_tag wire_type
          else default_extension_decoder extension field_tag wire_type) ;;;
         let* next := from_memory (fun m => ext_next m extension) in
         decode_extensions fuel pos field_tag wire_type next) d
      else (Some tt, d)
  end.

Definition decode_extension (field_tag wire_type : Z) (it : pb_field_iter_t) : D unit := fun d =>
  decode_extensions (S (size (memory (wld d)))) (bytes_left (strm d)) field_tag wire_type
    (load_ptr (memory (wld d)) (pData it)) d.

(** *** Messages *)

Definition fixed_count_size (m : mem) : Z := load_size m (fixed_count_addr depth).

(** The test of the fixed count field seen last. *)
Definition wrong_fixed_count (m : mem) (start : Z) (fixed_count_field : option nat) : bool :=
  match fixed_count_field with
  | None => false
  | Some p => negb (fixed_count_size m =? array_size (field_at descriptors start p))
  end.

Definition bitmap_set (seen : list Z) (i : Z) : list Z :=
  alter (fun w => w |. (1 << (i &. 31))) (Z.to_nat (i >> 5)) seen.

(** A known field: the fixed count bookkeeping, the bitmap of required fields, the field. *)
Definition decode_known (wire_type : Z) (it : pb_field_iter_t) (st : loop_state) : D loop_state :=
  let field := cur descriptors it in
  let htype := PB_HTYPE (type field) in
  let* '(it, fixed) :=
    (if (htype =? PB_HTYPE_REPEATED) && (pSize it =? pData it) then
       (if negb (bool_decide (fixed_count_field st = Some (pos it))) then
          let* wrong := from_memory (fun m => wrong_fixed_count m (start it) (fixed_count_field st)) in
          if wrong then derror "wrong size for fixed count field"
          else on_memory (fun m => store_size m (fixed_count_addr depth) 0)
        else ret tt) ;;;
       ret (PbFieldIter (start it) (pos it) (required_field_index it) (dest_struct it) (pData it)
              (fixed_count_addr depth), Some (pos it))
     else ret (it, fixed_count_field st)) in
  let seen :=
    if (htype =? PB_HTYPE_REQUIRED) && (required_field_index it <? PB_MAX_REQUIRED_FIELDS)
    then bitmap_set (fields_seen st) (required_field_index it) else fields_seen st in
  let* it := decode_field wire_type it in
  ret (LoopState it (extension_range_start st) fixed seen).

(** An unknown field: the extensions, then skipping. *)
Definition decode_unknown (field_tag wire_type : Z) (it : pb_field_iter_t) (st : loop_state) : D loop_state :=
  let skip (st : loop_state) : D loop_state :=
    on_stream (pb_skip_field user_read wire_type) ;;; ret st in
  let state it range := LoopState it range (fixed_count_field st) (fields_seen st) in
  if extension_range_start st <=? field_tag then
    let '(found, it) := find_extension_field descriptors it in
    let range := if found then tag (cur descriptors it) else allbits in
    if range <=? field_tag then fun d =>
      let pos := bytes_left (strm d) in
      match decode_extension field_tag wire_type it d with
      | (None, d) => (None, d)
      | (Some _, d) =>
          if negb (pos =? bytes_left (strm d)) then (Some (state it range), d)
          else skip (state it range) d
      end
    else skip (state it range)
  else skip (state it (extension_range_start st)).

(** [while (stream->bytes_left)] *)
Fixpoint decode_loop (fuel : nat) (st : loop_state) : D loop_state :=
  match fuel with
  | O => fail
  | S fuel => fun d =>
      if bytes_left (strm d) =? 0 then (Some st, d)
      else
        match pb_decode_tag user_read (strm d) with
        | (None, eof, s) => (if eof then Some st else None, DState s (wld d))
        | (Some (field_tag, wire_type), _, s) =>
            (let* st :=
               match pb_field_iter_find descriptors (iter st) field_tag with
               | (false, it) => decode_unknown field_tag wire_type it st
               | (true, it) => decode_known wire_type it st
               end in
             decode_loop fuel st) (DState s (wld d))
        end
  end.

(** [do { req_field_count = ...; last_type = ...; } while (pb_field_iter_next(&iter))] *)
Fixpoint last_field (fuel : nat) (it : pb_field_iter_t) : Z * Z * pb_field_iter_t :=
  let here := (required_field_index it, type (cur descriptors it)) in
  match fuel with
  | O => (here, it)
  | S fuel =>
      match pb_field_iter_next descriptors it with
      | (true, it) => last_field fuel it
      | (false, it) => (here, it)
      end
  end.

Definition required_ok (st : loop_state) : bool :=
  let '(req_field_count, last_type, it) := last_field (length (descriptors (start (iter st)))) (iter st) in
  let req_field_count :=
    if (PB_HTYPE last_type =? PB_HTYPE_REQUIRED) && negb (tag (cur descriptors it) =? 0)
    then u32 (req_field_count + 1) else req_field_count in
  let req_field_count :=
    if PB_MAX_REQUIRED_FIELDS <? req_field_count then PB_MAX_REQUIRED_FIELDS else req_field_count in
  let word i := nth i (fields_seen st) 0 in
  let words := Z.to_nat (req_field_count >> 5) in
  forallb (fun i => word i =? allbits) (seq 0 words)
  && ((req_field_count &. 31 =? 0)
      || (word words =? allbits >> (32 - (req_field_count &. 31)))).

Definition pb_decode_noinit_body (fields dest_struct : Z) : D unit :=
  on_memory (fun m => store_size m (fixed_count_addr depth) 0) ;;;
  let it := snd (pb_field_iter_begin descriptors fields dest_struct) in
  let* st := (fun d => decode_loop (rounds (strm d)) (LoopState it 0 None [0; 0]) d) in
  let* wrong := from_memory (fun m => wrong_fixed_count m (start (iter st)) (fixed_count_field st)) in
  if wrong then derror "wrong size for fixed count field"
  else if required_ok st then ret tt
  else derror "missing required field".

Definition pb_decode_body (noinit : D unit) (fields dest_struct : Z) : D unit :=
  on_world (pb_message_set_to_defaults descriptors depth fields dest_struct) ;;;
  fun d =>
    match noinit d with
    | (Some _, d) => (Some tt, d)
    | (None, d) => (None, DState (strm d) (pb_release descriptors depth fields dest_struct (wld d)))
    end.
End open.

(** Both entry points, for messages nested [depth] deep at most. *)
Fixpoint decoders (depth : nat) : (Z -> Z -> D unit) * (Z -> Z -> D unit) :=
  match depth with
  | O => (fun _ _ => fail, fun _ _ => fail)
  | S depth =>
      let '(dec, noinit) := decoders depth in
      let noinit := pb_decode_noinit_body dec noinit depth in
      (fun fields dest => pb_decode_body depth (noinit fields dest) fields dest, noinit)
  end.

Definition pb_decode (depth : nat) : Z -> Z -> D unit := fst (decoders depth).
Definition pb_decode_noinit (depth : nat) : Z -> Z -> D unit := snd (decoders depth).

Definition delimited (f : D unit) : D unit :=
  let* substream := on_stream (pb_make_string_substream user_read) in
  let* '(status, substream) := on_substream substream f in
  on_stream (pb_close_string_substream user_read substream) ;;;
  as_status status.

Definition pb_decode_delimited_noinit (depth : nat) (fields dest_struct : Z) : D unit :=
  delimited (pb_decode_noinit depth fields dest_struct).
Definition pb_decode_delimited (depth : nat) (fields dest_struct : Z) : D unit :=
  delimited (pb_decode depth fields dest_struct).
Definition pb_decode_nullterminated (depth : nat) (fields dest_struct : Z) : D unit :=
  pb_decode depth fields dest_struct.
End decode.
