(* ===== verification/PbRoundTrip.v ===== *)
(** What the encoder writes the decoder reads: varints, tags and scalar fields. *)
From Stdlib Require Import String.
From stdpp Require Import gmap.
From S2P Require Import Prelude CbsLemmas PbCommon PbEncode PbEncodeLemmas PbIstream PbDecode PbMessage.
#[global] Open Scope Z_scope.

(** ** Varints *)

Lemma lor_128 x : 0 <= x < 128 -> x |. 128 = x + 128.
Proof. intros. rewrite (lor_add x 128 7); [done|lia|lia|]. exists 1. lia. Qed.

Lemma varint_loop_spec fuel v : 0 < v < 2 ^ (7 * Z.of_nat fuel) ->
  exists p b, clear_last (varint_loop fuel v) = p ++ [b] /\ Forall more p /\ last_byte b /\
    len p < Z.of_nat fuel /\ varint_value (p ++ [b]) = v.
Proof.
  revert v. induction fuel as [|fuel IH]; intros v Hv; [cbn in Hv; lia|].
  cbn [varint_loop]. destruct (Z.eqb_spec v 0); [lia|]. rewrite land_127, lor_128, Z.shiftr_div_pow2 by (lia || apply Z.mod_pos_bound; lia).
  change (2 ^ 7) with 128. pose proof (Z.div_mod v 128 ltac:(lia)). pose proof (Z.mod_pos_bound v 128 ltac:(lia)).
  pose proof (Z.div_pos v 128 ltac:(lia) ltac:(lia)).
  destruct (Z.eq_dec (v / 128) 0) as [Hz|Hz].
  - exists [], (v mod 128). rewrite Hz. replace (varint_loop fuel 0) with (@nil Z) by by destruct fuel. cbn [clear_last].
    rewrite land_127. replace ((v mod 128 + 128) mod 128) with (v mod 128) by (Z.div_mod_to_equations; lia).
    split; [done|]. split; [done|]. split; [done|]. split; [rewrite len_nil; lia|]. cbn [app varint_value].
    rewrite Z.mod_mod by lia. lia.
  - destruct (IH (v / 128)) as (p & b & He & Hp & Hb & Hn & Hval).
    { split; [lia|]. apply Z.div_lt_upper_bound; [lia|]. rewrite Nat2Z.inj_succ in Hv.
      change (128 * 2 ^ (7 * Z.of_nat fuel)) with (2 ^ 7 * 2 ^ (7 * Z.of_nat fuel)).
      rewrite <- Z.pow_add_r by lia. replace (7 + 7 * Z.of_nat fuel) with (7 * Z.succ (Z.of_nat fuel)) by lia. lia. }
    exists (v mod 128 + 128 :: p), b. split.
    { destruct (varint_loop fuel (v / 128)) as [|c l] eqn:El; [by destruct p|]. cbn [clear_last] in *. by rewrite He. }
    split; [constructor; [unfold more; lia|done]|]. split; [done|]. rewrite len_cons. split; [lia|].
    cbn [app varint_value]. rewrite Hval. replace ((v mod 128 + 128) mod 128) with (v mod 128) by (Z.div_mod_to_equations; lia).
    lia.
Qed.

Lemma varint_loop_fuel f g w : (f <= g)%nat -> 0 <= w < 2 ^ (7 * Z.of_nat f) -> varint_loop g w = varint_loop f w.
Proof.
  revert g w. induction f as [|f IHf]; intros g w Hle Hw.
  - assert (w = 0) as -> by (cbn in Hw; lia). by destruct g.
  - destruct g as [|g]; [lia|]. cbn [varint_loop]. destruct (w =? 0); [done|]. f_equal. apply IHf; [lia|].
    rewrite Z.shiftr_div_pow2 by lia. split; [apply Z.div_pos; lia|]. apply Z.div_lt_upper_bound; [lia|].
    rewrite <- Z.pow_add_r by lia. rewrite Nat2Z.inj_succ in Hw.
    replace (7 + 7 * Z.of_nat f) with (7 * Z.succ (Z.of_nat f)) by lia. lia.
Qed.

(** The encoder's varints: as short as the value allows. *)
Lemma varint_spec v n : 0 <= v < 2 ^ (7 * Z.of_nat n) -> (1 <= n <= 10)%nat ->
  exists p b, varint v = p ++ [b] /\ Forall more p /\ last_byte b /\ len p < Z.of_nat n /\ varint_value (p ++ [b]) = v.
Proof.
  intros Hv Hn. unfold varint. destruct (Z.leb_spec v 0x7F).
  - exists [], (u8 v). rewrite u8_id by (unfold byte; lia). cbn [app varint_value]. rewrite len_nil.
    split; [done|]. split; [done|]. split; [unfold last_byte; lia|]. split; [lia|].
    rewrite Z.mod_small; lia.
  - assert (H10 : varint_loop 10 v = varint_loop n v).
    { apply varint_loop_fuel; [lia|done]. }
    rewrite H10. apply varint_loop_spec. lia.
Qed.

Lemma varint64_spec v : 0 <= v < 2 ^ 64 ->
  exists p b, varint v = p ++ [b] /\ Forall more p /\ last_byte b /\ len p <= 9 /\ varint_value (p ++ [b]) = v.
Proof.
  intros Hv. destruct (varint_spec v 10) as (p & b & H); [|lia|].
  - cbn -[Z.pow]. lia.
  - exists p, b. destruct H as (H1 & H2 & H3 & H4 & H5). repeat (split; [done || lia|]). done.
Qed.

Lemma app_cons_assoc {A} (p : list A) b l : (p ++ [b]) ++ l = p ++ b :: l.
Proof. by rewrite <- app_assoc. Qed.

Section read.
Context (user_read : Z -> M pb_istream_t (list Z)).

Lemma decode_varint v l tail e : 0 <= v < 2 ^ 64 -> len (varint v ++ l) < 2 ^ 64 ->
  pb_decode_varint user_read (input (varint v ++ l) tail e) = (Some v, input l tail e).
Proof.
  intros Hv Hl. destruct (varint64_spec v Hv) as (p & b & He & Hp & Hb & Hn & Hval). rewrite He, app_cons_assoc in *.
  unfold pb_decode_varint. change 0 with (7 * 0) at 1. rewrite varint64_exact; try done.
  - rewrite Hval. change (2 ^ (7 * 0)) with 1. rewrite Z.add_0_l, Z.mul_1_l. by rewrite Z.mod_small.
  - unfold len in Hn. lia.
Qed.

Lemma decode_varint32_eof v l tail e : 0 <= v < 2 ^ 32 -> len (varint v ++ l) < 2 ^ 64 ->
  pb_decode_varint32_eof user_read (input (varint v ++ l) tail e) = (Some v, false, input l tail e).
Proof.
  intros Hv Hl. destruct (varint_spec v 5) as (p & b & He & Hp & Hb & Hn & Hval); [cbn -[Z.pow]; lia|lia|].
  rewrite He, app_cons_assoc in *. rewrite varint32_exact by (done || lia). rewrite Hval. cbv zeta.
  destruct (Z.ltb_spec v (2 ^ 32)); [done|lia].
Qed.

Lemma decode_varint32 v l tail e : 0 <= v < 2 ^ 32 -> len (varint v ++ l) < 2 ^ 64 ->
  pb_decode_varint32 user_read (input (varint v ++ l) tail e) = (Some v, input l tail e).
Proof. intros. unfold pb_decode_varint32. by rewrite decode_varint32_eof. Qed.

(** [pb_encode_svarint]'s number, and back. *)
Definition zigzag (v : Z) : Z :=
  if v <? 0 then u64 (Z.lnot (u64 (u64 v << 1))) else u64 (u64 v << 1).

Lemma zigzag_value v : - 2 ^ 63 <= v < 2 ^ 63 -> zigzag v = if v <? 0 then - 2 * v - 1 else 2 * v.
Proof.
  intros Hv. unfold zigzag, Z.lnot. rewrite Z.shiftl_mul_pow2 by lia. change (2 ^ 1) with 2.
  destruct (Z.ltb_spec v 0); ulia.
Qed.

Lemma decode_svarint v l tail e : - 2 ^ 63 <= v < 2 ^ 63 -> len (varint (zigzag v) ++ l) < 2 ^ 64 ->
  pb_decode_svarint user_read (input (varint (zigzag v) ++ l) tail e) = (Some v, input l tail e).
Proof.
  intros Hv Hl. unfold pb_decode_svarint, bind. rewrite decode_varint by (done || (rewrite zigzag_value by done; destruct (Z.ltb_spec v 0); lia)).
  rewrite zigzag_value by done. rewrite (land_ones_mod _ 1 1), Z.shiftr_div_pow2 by done. change (2 ^ 1) with 2.
  unfold ret, sint, Z.lnot, u64. destruct (Z.ltb_spec v 0).
  - replace ((- 2 * v - 1) mod 2) with 1 by (Z.div_mod_to_equations; lia). cbn [Z.eqb negb].
    replace ((- 2 * v - 1) / 2) with (- v - 1) by (Z.div_mod_to_equations; lia).
    replace (Z.pred (- (- v - 1)) mod 2 ^ 64) with (v + 2 ^ 64) by (apply (Z.mod_unique _ _ (-1)); lia).
    destruct (Z.ltb_spec (v + 2 ^ 64) (2 ^ (64 - 1))); [lia|]. do 2 f_equal. lia.
  - replace ((2 * v) mod 2) with 0 by (Z.div_mod_to_equations; lia). cbn [Z.eqb negb].
    replace (2 * v / 2) with v by (Z.div_mod_to_equations; lia).
    destruct (Z.ltb_spec v (2 ^ (64 - 1))); [done|lia].
Qed.
End read.

(** ** Little-endian integers *)

Lemma lor_shift a b n : 0 <= n -> 0 <= a < 2 ^ n -> a |. (b << n) = a + b * 2 ^ n.
Proof. intros. rewrite Z.shiftl_mul_pow2 by done. apply (lor_add _ _ n); [done..|apply Z.divide_factor_r]. Qed.

Lemma join4 a b c d : byte a -> byte b -> byte c -> byte d ->
  (a << 0) |. (b << 8) |. (c << 16) |. (d << 24) = le_value [a; b; c; d].
Proof.
  unfold byte. intros. rewrite Z.shiftl_0_r, (lor_shift a b), (lor_shift _ c), (lor_shift _ d) by lia.
  cbn [le_value]. lia.
Qed.

Lemma join8 a b c d e f g h :
  byte a -> byte b -> byte c -> byte d -> byte e -> byte f -> byte g -> byte h ->
  (a << 0) |. (b << 8) |. (c << 16) |. (d << 24) |. (e << 32) |. (f << 40) |. (g << 48) |. (h << 56)
  = le_value [a; b; c; d; e; f; g; h].
Proof.
  unfold byte. intros. rewrite Z.shiftl_0_r, (lor_shift a b), (lor_shift _ c), (lor_shift _ d), (lor_shift _ e),
    (lor_shift _ f), (lor_shift _ g), (lor_shift _ h) by lia.
  cbn [le_value]. lia.
Qed.

Lemma split4 v : [v &. 0xFF; (v >> 8) &. 0xFF; (v >> 16) &. 0xFF; (v >> 24) &. 0xFF] = le_bytes 4 v.
Proof.
  cbn [le_bytes]. rewrite !Z.div_div by lia. rewrite !land_255, !Z.shiftr_div_pow2 by lia. done.
Qed.
Lemma split8 v :
  [v &. 0xFF; (v >> 8) &. 0xFF; (v >> 16) &. 0xFF; (v >> 24) &. 0xFF;
   (v >> 32) &. 0xFF; (v >> 40) &. 0xFF; (v >> 48) &. 0xFF; (v >> 56) &. 0xFF] = le_bytes 8 v.
Proof.
  cbn [le_bytes]. rewrite !Z.div_div by lia. rewrite !land_255, !Z.shiftr_div_pow2 by lia. done.
Qed.

Lemma load_range n m a : 0 <= load n m a < 2 ^ (8 * Z.of_nat n).
Proof.
  pose proof (le_value_range _ (load_bytes_byte m n a)) as H. unfold len in H. rewrite load_bytes_length in H.
  by rewrite Z.pow_mul_r by lia.
Qed.

Lemma sint_range w x : 0 < w -> 0 <= x < 2 ^ w -> - 2 ^ (w - 1) <= sint w x < 2 ^ (w - 1).
Proof.
  intros Hw Hx. unfold sint. replace (2 ^ w) with (2 * 2 ^ (w - 1)) in *
    by (rewrite <- Z.pow_succ_r by lia; f_equal; lia).
  destruct (Z.ltb_spec x (2 ^ (w - 1))); lia.
Qed.

Lemma sint_mod w x : 0 < w -> 0 <= x < 2 ^ w -> sint w x mod 2 ^ w = x.
Proof.
  intros Hw Hx. unfold sint. destruct (x <? 2 ^ (w - 1)); [by apply Z.mod_small|].
  symmetry. apply (Z.mod_unique _ _ (-1)); lia.
Qed.

(** Two's complement of [w] bits, read back from a wider register. *)
Lemma sint_wrap w v : 0 < w -> - 2 ^ (w - 1) <= v < 2 ^ (w - 1) -> sint w (v mod 2 ^ w) = v.
Proof.
  intros Hw Hv. assert (Hp : 2 ^ w = 2 * 2 ^ (w - 1)) by (rewrite <- Z.pow_succ_r by lia; f_equal; lia).
  unfold sint. destruct (Z.ltb_spec v 0).
  - replace (v mod 2 ^ w) with (v + 2 ^ w) by (apply (Z.mod_unique _ _ (-1)); lia).
    destruct (Z.ltb_spec (v + 2 ^ w) (2 ^ (w - 1))); lia.
  - rewrite Z.mod_small by lia. destruct (Z.ltb_spec v (2 ^ (w - 1))); lia.
Qed.

(** ** Scalar fields *)

Section scalar.
Context (user_write : list Z -> list Z -> bool) (m : mem) (enc' : Z -> Z -> M pb_ostream_t unit).
Context (user_read : Z -> M pb_istream_t (list Z)) (available : world -> Z -> bool).
Context (pb_decode' pb_decode_noinit' : Z -> Z -> D unit).

(** The scalar field types with the sizes the generator gives them. *)
Definition scalar_field (f : pb_field_t) : Prop :=
  let l := PB_LTYPE (type f) in
  (l = PB_LTYPE_BOOL /\ data_size f = 1) \/
  ((l = PB_LTYPE_VARINT \/ l = PB_LTYPE_UVARINT \/ l = PB_LTYPE_SVARINT) /\
   (data_size f = 1 \/ data_size f = 2 \/ data_size f = 4 \/ data_size f = 8)) \/
  (l = PB_LTYPE_FIXED32 /\ data_size f = 4) \/ (l = PB_LTYPE_FIXED64 /\ data_size f = 8).

(** The bytes of the field in memory; any byte but 0 counts as true. *)
Definition scalar_bytes (f : pb_field_t) (src : Z) : list Z :=
  if PB_LTYPE (type f) =? PB_LTYPE_BOOL then [if safe_read_bool m src then 1 else 0]
  else load_bytes m src (Z.to_nat (data_size f)).

(** The decoder reads [l] and writes [v] at its destination. *)
Definition decodes_to (dec : Z -> D unit) (l v : list Z) : Prop := forall dest rest tail e w,
  len (l ++ rest) < 2 ^ 64 ->
  dec dest (DState (input (l ++ rest) tail e) w) =
    (Some tt, DState (input rest tail e) (set_memory (store_bytes (memory w) dest v) w)).

Lemma load_store_bytes n src : le_bytes n (load n m src) = load_bytes m src n.
Proof.
  unfold load. replace n with (length (load_bytes m src n)) at 1 by apply load_bytes_length.
  apply le_bytes_value, load_bytes_byte.
Qed.

Lemma bool_decodes b : decodes_to (pb_dec_bool user_read) (varint (if b : bool then 1 else 0)) [if b then 1 else 0].
Proof.
  intros dest rest tail e w Hl. unfold pb_dec_bool, bind, on_stream. cbn [strm wld].
  rewrite decode_varint32 by (done || by destruct b). by destruct b.
Qed.

(** The stores of the varint decoders, for a value that fits. *)
Lemma store_checked_fits signed f dest v n d :
  (n = 1 \/ n = 2 \/ n = 4 \/ n = 8)%nat -> data_size f = Z.of_nat n ->
  (if signed : bool then - 2 ^ (8 * Z.of_nat n - 1) <= v < 2 ^ (8 * Z.of_nat n - 1) else 0 <= v < 2 ^ (8 * Z.of_nat n)) ->
  store_checked signed f dest v d =
    (Some tt, DState (strm d) (set_memory (store n (memory (wld d)) dest (v mod 2 ^ (8 * Z.of_nat n))) (wld d))).
Proof.
  intros Hn Hs Hv. unfold store_checked. rewrite Hs.
  assert (Hc : (if signed then sint (8 * Z.of_nat n) (v mod 2 ^ (8 * Z.of_nat n)) else v mod 2 ^ (8 * Z.of_nat n)) = v).
  { destruct signed; [apply sint_wrap; lia|by apply Z.mod_small]. }
  destruct Hn as [-> |[-> |[-> | ->]]];
    [change (Z.of_nat 1) with 1 in *|change (Z.of_nat 2) with 2 in *|change (Z.of_nat 4) with 4 in *|
     change (Z.of_nat 8) with 8 in *]; cbn [Z.eqb Pos.eqb]; unfold bind, on_memory, on_world;
    rewrite Hc, Z.eqb_refl; done.
Qed.

Lemma size_cases f : (data_size f = 1 \/ data_size f = 2 \/ data_size f = 4 \/ data_size f = 8) ->
  exists n, (n = 1 \/ n = 2 \/ n = 4 \/ n = 8)%nat /\ data_size f = Z.of_nat n.
Proof.
  intros [H|[H|[H|H]]]; [exists 1%nat|exists 2%nat|exists 4%nat|exists 8%nat]; (split; [lia|done]).
Qed.

Lemma sint_fits_64 n x : (n = 1 \/ n = 2 \/ n = 4 \/ n = 8)%nat -> 0 <= x < 2 ^ (8 * Z.of_nat n) ->
  - 2 ^ (8 * Z.of_nat n - 1) <= sint (8 * Z.of_nat n) x < 2 ^ (8 * Z.of_nat n - 1) /\
  - 2 ^ 63 <= sint (8 * Z.of_nat n) x < 2 ^ 63.
Proof.
  intros Hn Hx. pose proof (sint_range (8 * Z.of_nat n) x ltac:(lia) Hx) as Hr. split; [done|].
  assert (2 ^ (8 * Z.of_nat n - 1) <= 2 ^ 63) by (apply Z.pow_le_mono_r; lia). lia.
Qed.

Lemma uvarint_decodes f n src : (n = 1 \/ n = 2 \/ n = 4 \/ n = 8)%nat -> data_size f = Z.of_nat n ->
  decodes_to (pb_dec_uvarint user_read f) (varint (load n m src)) (load_bytes m src n).
Proof.
  intros Hn Hs dest rest tail e w Hl. pose proof (load_range n m src) as Hr.
  assert (2 ^ (8 * Z.of_nat n) <= 2 ^ 64) by (apply Z.pow_le_mono_r; lia).
  unfold pb_dec_uvarint, bind, on_stream. cbn [strm wld]. rewrite decode_varint by (done || lia).
  rewrite (store_checked_fits false f dest _ n) by done. cbn [strm wld]. unfold store.
  by rewrite Z.mod_small, load_store_bytes.
Qed.

Lemma varint_decodes f n src : (n = 1 \/ n = 2 \/ n = 4 \/ n = 8)%nat -> data_size f = Z.of_nat n ->
  decodes_to (pb_dec_varint user_read f) (varint (u64 (sint (8 * Z.of_nat n) (load n m src)))) (load_bytes m src n).
Proof.
  intros Hn Hs dest rest tail e w Hl. pose proof (load_range n m src) as Hr.
  destruct (sint_fits_64 n _ Hn Hr) as [Hr1 Hr2]. unfold pb_dec_varint, bind, on_stream. cbn [strm wld].
  rewrite decode_varint by (done || apply u64_range). rewrite Hs.
  set (v := sint (8 * Z.of_nat n) (load n m src)) in *.
  assert ((if Z.of_nat n =? 8 then sint 64 (u64 v) else sint 32 (u32 (u64 v))) = v) as ->.
  { destruct (Z.eqb_spec (Z.of_nat n) 8) as [E|E]; [by apply (sint_wrap 64)|].
    unfold u32, u64. rewrite Z.mod_mod_divide by by exists (2 ^ 32).
    apply (sint_wrap 32); [lia|].
    assert (2 ^ (8 * Z.of_nat n - 1) <= 2 ^ 31) by (apply Z.pow_le_mono_r; lia). lia. }
  rewrite (store_checked_fits true f dest _ n) by done. cbn [strm wld]. unfold store, v.
  by rewrite sint_mod, load_store_bytes by lia.
Qed.

Lemma svarint_decodes f n src : (n = 1 \/ n = 2 \/ n = 4 \/ n = 8)%nat -> data_size f = Z.of_nat n ->
  decodes_to (pb_dec_svarint user_read f) (varint (zigzag (sint (8 * Z.of_nat n) (load n m src)))) (load_bytes m src n).
Proof.
  intros Hn Hs dest rest tail e w Hl. pose proof (load_range n m src) as Hr.
  destruct (sint_fits_64 n _ Hn Hr) as [Hr1 Hr2]. unfold pb_dec_svarint, bind, on_stream. cbn [strm wld].
  rewrite decode_svarint by done.
  rewrite (store_checked_fits true f dest _ n) by done. cbn [strm wld]. unfold store.
  by rewrite sint_mod, load_store_bytes by lia.
Qed.

Lemma fixed32_decodes src : decodes_to (pb_decode_fixed32 user_read) (load_bytes m src 4) (load_bytes m src 4).
Proof.
  intros dest rest tail e w Hl. unfold pb_decode_fixed32, bind, on_stream. cbn [strm wld].
  pose proof (load_bytes_byte m 4 src) as Hb. pose proof (load_bytes_length m src 4) as Hn.
  destruct (load_bytes m src 4) as [|b1 [|b2 [|b3 [|b4 []]]]]; try done. clear Hn.
  change 4 with (len [b1; b2; b3; b4]) at 1. rewrite read_app by done. cbn [nth].
  pose proof Hb as Hb'. repeat (apply Forall_cons in Hb as [? Hb]). rewrite join4 by done. unfold on_memory, on_world, store.
  change 4%nat with (length [b1; b2; b3; b4]). by rewrite le_bytes_value.
Qed.

Lemma fixed64_decodes src : decodes_to (pb_decode_fixed64 user_read) (load_bytes m src 8) (load_bytes m src 8).
Proof.
  intros dest rest tail e w Hl. unfold pb_decode_fixed64, bind, on_stream. cbn [strm wld].
  pose proof (load_bytes_byte m 8 src) as Hb. pose proof (load_bytes_length m src 8) as Hn.
  destruct (load_bytes m src 8) as [|b1 [|b2 [|b3 [|b4 [|b5 [|b6 [|b7 [|b8 []]]]]]]]]; try done. clear Hn.
  change 8 with (len [b1; b2; b3; b4; b5; b6; b7; b8]) at 1. rewrite read_app by done. cbn [nth].
  pose proof Hb as Hb'. repeat (apply Forall_cons in Hb as [? Hb]). rewrite join8 by done. unfold on_memory, on_world, store.
  change 8%nat with (length [b1; b2; b3; b4; b5; b6; b7; b8]).
  by rewrite le_bytes_value.
Qed.

Lemma varint_emits f n src : (n = 1 \/ n = 2 \/ n = 4 \/ n = 8)%nat -> data_size f = Z.of_nat n ->
  emits (pb_enc_varint user_write m f src) (varint (u64 (sint (8 * Z.of_nat n) (load n m src)))) true.
Proof. intros [-> |[-> |[-> | ->]]] E; unfold pb_enc_varint; rewrite E; apply emits_varint. Qed.

Lemma uvarint_emits f n src : (n = 1 \/ n = 2 \/ n = 4 \/ n = 8)%nat -> data_size f = Z.of_nat n ->
  emits (pb_enc_uvarint user_write m f src) (varint (load n m src)) true.
Proof. intros [-> |[-> |[-> | ->]]] E; unfold pb_enc_uvarint; rewrite E; apply emits_varint. Qed.

Lemma svarint_emits f n src : (n = 1 \/ n = 2 \/ n = 4 \/ n = 8)%nat -> data_size f = Z.of_nat n ->
  emits (pb_enc_svarint user_write m f src) (varint (zigzag (sint (8 * Z.of_nat n) (load n m src)))) true.
Proof. intros [-> |[-> |[-> | ->]]] E; unfold pb_enc_svarint; rewrite E; apply emits_varint. Qed.

(** What the encoder of each scalar type emits is read back as the field's bytes. *)
Lemma scalar_codec f src : scalar_field f -> exists l,
  len l <= 10 /\
  emits (PB_ENCODERS user_write m enc' (PB_LTYPE (type f)) f src) l true /\
  decodes_to (PB_DECODERS user_read available pb_decode' pb_decode_noinit' (PB_LTYPE (type f)) f) l (scalar_bytes f src).
Proof.
  unfold scalar_field, scalar_bytes. intros [[Hl Hs]|[[Hl Hs]|[[Hl Hs]|[Hl Hs]]]].
  - rewrite Hl. eexists. split; [apply varint_len|]. split; [apply emits_varint|]. apply bool_decodes.
  - destruct (size_cases f Hs) as (n & Hn & E). rewrite E, Nat2Z.id.
    destruct Hl as [-> |[-> | ->]]; eexists; (split; [apply varint_len|split]).
    + exact (varint_emits f n src Hn E).
    + exact (varint_decodes f n src Hn E).
    + exact (uvarint_emits f n src Hn E).
    + exact (uvarint_decodes f n src Hn E).
    + exact (svarint_emits f n src Hn E).
    + exact (svarint_decodes f n src Hn E).
  - rewrite Hl, Hs. exists (load_bytes m src 4). split; [unfold len; rewrite load_bytes_length; lia|].
    split; [|apply fixed32_decodes].
    change (emits (pb_encode_fixed32 user_write m src) (load_bytes m src 4) true). unfold pb_encode_fixed32.
    cbv zeta. rewrite split4, load_store_bytes. apply emits_write.
  - rewrite Hl, Hs. exists (load_bytes m src 8). split; [unfold len; rewrite load_bytes_length; lia|].
    split; [|apply fixed64_decodes].
    change (emits (pb_encode_fixed64 user_write m src) (load_bytes m src 8) true). unfold pb_encode_fixed64.
    cbv zeta. rewrite split8, load_store_bytes. apply emits_write.
Qed.
End scalar.
