(* ===== verification/PbProps.v ===== *)
(** What the decoder promises: varints on every input, round trips with the encoder, skipping,
    the field iterator, and where scalar and string fields are written. *)
From Stdlib Require Import String.
From stdpp Require Import gmap.
From S2P Require Import Prelude CbsLemmas PbCommon PbEncode PbEncodeLemmas.
From S2P Require Import PbIstream PbDecode PbMessage PbRoundTrip PbEncodeLemmas.
#[global] Open Scope Z_scope.

(** A client that reads nothing. *)
Definition no_read (count : Z) : M pb_istream_t (list Z) := fail.

(** *** Varints that do not fit and are accepted

    Encodings no encoder produces, which the two readers take for other numbers. *)

(** The tenth byte has room for one bit; the others are dropped. *)
Example varint64_tenth_byte_truncated :
  (pb_decode_varint no_read (pb_istream_from_buffer (repeat 0x80 9 ++ [0x7E]) 10)).1 = Some 0.
Proof. vm_compute. reflexivity. Qed.

(** Bits 32 to 34 are only checked in the last byte. *)
Example varint32_overlong_truncated :
  (pb_decode_varint32 no_read (pb_istream_from_buffer [0x80; 0x80; 0x80; 0x80; 0xF0; 0x00] 6)).1 = Some 0.
Proof. vm_compute. reflexivity. Qed.

(** Zero groups are read without a limit, until the eight bits of the bit position wrap around. *)
Example varint32_position_wraps :
  (pb_decode_varint32 no_read (pb_istream_from_buffer (repeat 0x80 37 ++ [1]) 38)).1 = Some 8.
Proof. vm_compute. reflexivity. Qed.

(** The longest run of continuation bytes. *)
Lemma split_more n l : Forall byte l -> exists p rest, l = p ++ rest /\ Forall more p /\ (length p <= n)%nat /\
  ((length p = n)%nat \/ rest = [] \/ exists b r, rest = b :: r /\ last_byte b).
Proof.
  revert l. induction n as [|n IH]; intros l Hl; [exists [], l; cbn; auto|].
  destruct Hl as [|b l Hb Hl]; [exists [], []; cbn; split; [done|]; split; [done|]; split; [lia|auto]|].
  destruct (byte_more_or_last b Hb) as [Hm|Hm].
  - destruct (IH l Hl) as (p & rest & -> & Hp & Hn & Hr). exists (b :: p), rest. cbn [length].
    split; [done|]. split; [by constructor|]. split; [lia|]. destruct Hr as [<-|[->|Hr]]; auto.
  - exists [], (b :: l). cbn. split; [done|]. split; [done|]. split; [lia|]. right; right. by exists b, l.
Qed.

(** [pb_decode_varint] on every input.  It reads a varint of at most ten bytes and returns
    its value modulo 2^64 with the stream behind it; ten continuation bytes are
    [varint overflow], and an input that ends inside a varint is [end-of-stream]. *)
Theorem pb_varint_exact user_read l tail e : Forall byte l -> len l < 2 ^ 64 ->
  exists p rest, l = p ++ rest /\
    ((varint_bytes p /\ len p <= 10 /\
      pb_decode_varint user_read (input l tail e) = (Some (varint_value p mod 2 ^ 64), input rest tail e)) \/
     (Forall more p /\ len p = 10 /\
      pb_decode_varint user_read (input l tail e) =
        (None, input rest tail (PB_SET_ERROR e "varint overflow"))) \/
     (Forall more p /\ len p < 10 /\ rest = [] /\
      pb_decode_varint user_read (input l tail e) = (None, input [] tail (PB_SET_ERROR e "end-of-stream")))).
Proof.
  intros Hb Hl. destruct (split_more 10 l Hb) as (p & rest & -> & Hp & Hn & Hr).
  change (pb_decode_varint user_read) with (varint64_loop user_read 11 (7 * 0) 0). unfold len in *.
  destruct (decide (length p = 10%nat)) as [E|E].
  - exists p, rest. split; [done|]. right; left. rewrite varint64_overflow by (done || lia || (unfold len; lia)).
    split; [done|]. split; [lia|done].
  - destruct Hr as [?|[->|(b & r & -> & Hlast)]]; [done| |].
    + exists p, []. split; [done|]. right; right. rewrite app_nil_r in *.
      rewrite varint64_short by (done || lia || (unfold len; lia)). split; [done|]. split; [lia|done].
    + exists (p ++ [b]), r. split; [by rewrite <- app_assoc|]. left. split; [by exists p, b|].
      rewrite length_app. cbn [length]. split; [lia|].
      rewrite varint64_exact by (done || lia || (unfold len; lia)).
      change (2 ^ (7 * 0)) with 1. by rewrite Z.add_0_l, Z.mul_1_l.
Qed.

Lemma pb_varint_exact_witness :
  Forall byte [0xAC; 0x02; 7] /\
  exists p rest, [0xAC; 0x02; 7] = p ++ rest /\
    ((varint_bytes p /\ len p <= 10 /\
      pb_decode_varint no_read (input [0xAC; 0x02; 7] [] None) =
        (Some (varint_value p mod 2 ^ 64), input rest [] None)) \/
     (Forall more p /\ len p = 10 /\
      pb_decode_varint no_read (input [0xAC; 0x02; 7] [] None) =
        (None, input rest [] (PB_SET_ERROR None "varint overflow"))) \/
     (Forall more p /\ len p < 10 /\ rest = [] /\
      pb_decode_varint no_read (input [0xAC; 0x02; 7] [] None) =
        (None, input [] [] (PB_SET_ERROR None "end-of-stream")))).
Proof.
  assert (H : Forall byte [0xAC; 0x02; 7]) by (repeat constructor; cbn; lia || done).
  split; [exact H|]. exact (pb_varint_exact no_read [0xAC; 0x02; 7] [] None H eq_refl).
Defined.

(** Encoding into a buffer that is large enough. *)
Lemma emits_into f l cap : emits f l true -> len l <= cap -> cap < 2 ^ 64 ->
  exists s, f (pb_ostream_from_buffer cap) = (Some tt, s) /\ out s = l.
Proof.
  intros He Hn Hc. pose proof (len_nonneg l). assert (Hf : fresh (pb_ostream_from_buffer cap)) by (split; cbn; [done|lia..]).
  destruct (He _ Hf) as [Hs _]; cbn; [lia|lia|]. cbn [andb bytes_written max_size pb_ostream_from_buffer] in Hs.
  destruct (Z.leb_spec (0 + len l) cap); [|lia]. rewrite Hs. by eexists.
Qed.

Lemma decode_tag_encoded user_read n wt l tail e : 0 < n < 2 ^ 29 -> 0 <= wt < 8 ->
  let t := varint (u64 (n << 3) |. wt) in
  len (t ++ l) < 2 ^ 64 -> pb_decode_tag user_read (input (t ++ l) tail e) = (Some (n, wt), false, input l tail e).
Proof.
  intros Hn Hw t Hl. assert (Ht : u64 (n << 3) |. wt = n * 2 ^ 3 + wt).
  { rewrite Z.shiftl_mul_pow2, u64_id by lia. by apply lor_mul_add. }
  unfold t in *. rewrite Ht in *. unfold pb_decode_tag. rewrite decode_varint32_eof by (done || lia).
  destruct (Z.eqb_spec (n * 2 ^ 3 + wt) 0); [lia|]. rewrite (land_ones_mod _ 3 7), Z.shiftr_div_pow2 by done.
  change (2 ^ 3) with 8. replace ((n * 8 + wt) / 8) with n by (Z.div_mod_to_equations; lia).
  by replace ((n * 8 + wt) mod 8) with wt by (Z.div_mod_to_equations; lia).
Qed.

(** Integers and tags survive the wire.  What [pb_encode_varint], [pb_encode_svarint] and
    [pb_encode_tag] write into a buffer of ten bytes is read back by the decoder's functions,
    which stop right behind it: every [uint64_t], every [int64_t], every [uint32_t] by the 32-bit
    reader, and every field number with every wire type. *)
Theorem pb_integer_round_trip user_write user_read rest : len rest < 2 ^ 63 ->
  let sent (f : M pb_ostream_t unit) := out (f (pb_ostream_from_buffer 10)).2 in
  let ok (f : M pb_ostream_t unit) := (f (pb_ostream_from_buffer 10)).1 = Some tt in
  let received bytes := pb_istream_from_buffer (bytes ++ rest) (len (bytes ++ rest)) in
  let behind := pb_istream_from_buffer rest (len rest) in
  (forall v, 0 <= v < 2 ^ 64 -> let f := pb_encode_varint user_write v in
    ok f /\ pb_decode_varint user_read (received (sent f)) = (Some v, behind)) /\
  (forall v, - 2 ^ 63 <= v < 2 ^ 63 -> let f := pb_encode_svarint user_write v in
    ok f /\ pb_decode_svarint user_read (received (sent f)) = (Some v, behind)) /\
  (forall v, 0 <= v < 2 ^ 32 -> let f := pb_encode_varint user_write v in
    ok f /\ pb_decode_varint32 user_read (received (sent f)) = (Some v, behind)) /\
  (forall n wt, 0 < n < 2 ^ 29 -> 0 <= wt < 8 -> let f := pb_encode_tag user_write wt n in
    ok f /\ pb_decode_tag user_read (received (sent f)) = (Some (n, wt), false, behind)).
Proof.
  intros Hrest. cbv zeta.
  assert (Hsend : forall f v, emits f (varint v) true ->
    exists s, f (pb_ostream_from_buffer 10) = (Some tt, s) /\ out s = varint v).
  { intros f v H. apply emits_into; [done|apply varint_len|done]. }
  assert (Hlen : forall v, len (varint v ++ rest) < 2 ^ 64).
  { intros v. rewrite len_app. pose proof (varint_len v). lia. }
  split; [|split; [|split]].
  - intros v Hv. destruct (Hsend _ _ (emits_varint user_write v)) as (s & E & Eo). rewrite E. cbn [snd fst]. rewrite Eo.
    split; [done|].
    rewrite !input_buffer. by apply decode_varint.
  - intros v Hv. destruct (Hsend _ (zigzag v) (emits_varint user_write (zigzag v))) as (s & E & Eo).
    change (pb_encode_svarint user_write v) with (pb_encode_varint user_write (zigzag v)). rewrite E. cbn [snd fst].
    rewrite Eo. split; [done|]. rewrite !input_buffer. by apply decode_svarint.
  - intros v Hv. destruct (Hsend _ _ (emits_varint user_write v)) as (s & E & Eo). rewrite E. cbn [snd fst]. rewrite Eo.
    split; [done|].
    rewrite !input_buffer. by apply decode_varint32.
  - intros n wt Hn Hw. destruct (Hsend _ _ (emits_varint user_write (u64 (n << 3) |. wt))) as (s & E & Eo).
    unfold pb_encode_tag. rewrite E. cbn [snd fst]. rewrite Eo. split; [done|].
    rewrite !input_buffer. by apply decode_tag_encoded.
Qed.

Lemma pb_integer_round_trip_witness :
  len [1; 2; 3] < 2 ^ 63 /\
  pb_decode_svarint no_read (pb_istream_from_buffer
    (out (pb_encode_svarint accept (-300) (pb_ostream_from_buffer 10)).2 ++ [1; 2; 3])
    (len (out (pb_encode_svarint accept (-300) (pb_ostream_from_buffer 10)).2 ++ [1; 2; 3])))
  = (Some (-300), pb_istream_from_buffer [1; 2; 3] (len [1; 2; 3])).
Proof.
  split; [done|].
  destruct (pb_integer_round_trip accept no_read [1; 2; 3] eq_refl) as (_ & H & _).
  apply (H (-300)). lia.
Defined.

(** The value of a field on the wire: a varint, four or eight bytes, or a length of at most five
    bytes and as many bytes. *)
Definition wire_payload (wire_type : Z) (l : list Z) : Prop :=
  (wire_type = PB_WT_VARINT /\ varint_bytes l) \/
  (wire_type = PB_WT_64BIT /\ len l = 8) \/
  (wire_type = PB_WT_32BIT /\ len l = 4) \/
  (wire_type = PB_WT_STRING /\ exists p b c, l = (p ++ [b]) ++ c /\
     Forall more p /\ last_byte b /\ len p <= 4 /\ varint_value (p ++ [b]) = len c /\ len c < 2 ^ 32).

Lemma decode_varint32_at user_read p b l tail e :
  Forall more p -> last_byte b -> len p <= 4 -> varint_value (p ++ [b]) < 2 ^ 32 -> len (p ++ b :: l) < 2 ^ 64 ->
  pb_decode_varint32 user_read (input (p ++ b :: l) tail e) = (Some (varint_value (p ++ [b])), input l tail e).
Proof.
  intros Hp Hb Hn Hv Hl. unfold pb_decode_varint32. rewrite varint32_exact by done. cbv zeta.
  destruct (Z.ltb_spec (varint_value (p ++ [b])) (2 ^ 32)); [done|lia].
Qed.

Lemma skip_whole user_read wt payload rest tail e : wire_payload wt payload -> len (payload ++ rest) < 2 ^ 64 ->
  pb_skip_field user_read wt (input (payload ++ rest) tail e) = (Some tt, input rest tail e).
Proof.
  intros [[-> H]|[[-> H]|[[-> H]|[-> H]]]] Hl; cbn [pb_skip_field]; unfold pb_skip_field; cbn [Z.eqb Pos.eqb].
  - destruct H as (p & b & -> & Hp & Hb). change (PB_WT_VARINT =? PB_WT_VARINT) with true. cbv iota.
    rewrite <- app_assoc in *. cbn [app] in *. apply skip_varint_exact; [done..| |done].
    unfold rounds, input. cbn. unfold len. rewrite length_app. lia.
  - change (PB_WT_64BIT =? PB_WT_VARINT) with false. cbv iota. rewrite <- H. by apply read_null_app.
  - change (PB_WT_32BIT =? PB_WT_VARINT) with false. cbv iota. rewrite <- H. by apply read_null_app.
  - destruct H as (p & b & c & -> & Hp & Hb & Hn & Hv & Hc). change (PB_WT_STRING =? PB_WT_VARINT) with false. cbv iota.
    change (PB_WT_STRING =? PB_WT_64BIT) with false. cbv iota. change (PB_WT_STRING =? PB_WT_STRING) with true. cbv iota.
    rewrite <- !app_assoc in *. cbn [app] in *. unfold pb_skip_string, bind.
    rewrite decode_varint32_at by (done || lia). rewrite Hv. apply read_null_app.
    rewrite !len_app, len_cons, len_app in Hl. rewrite len_app. pose proof (len_nonneg p). lia.
Qed.

Lemma varint_prefix (q r p : list Z) b : q ++ r = p ++ [b] -> r <> [] -> exists k, p = q ++ k.
Proof.
  intros H Hr. destruct (exists_last Hr) as (k & x & ->). rewrite app_assoc in H.
  apply app_inj_tail in H as [<- _]. by exists k.
Qed.

Lemma skip_truncated user_read wt q r tail e : wire_payload wt (q ++ r) -> r <> [] -> len q < 2 ^ 64 ->
  (pb_skip_field user_read wt (input q tail e)).1 = None.
Proof.
  intros H Hr Hl. assert (0 < len r) by (destruct r; [done|rewrite len_cons; pose proof (len_nonneg r); lia]).
  unfold pb_skip_field. destruct H as [[-> H]|[[-> H]|[[-> H]|[-> H]]]].
  - destruct H as (p & b & E & Hp & Hb). destruct (varint_prefix _ _ _ _ E Hr) as (k & ->).
    apply Forall_app in Hp as [Hp _]. by apply skip_varint_short.
  - change (PB_WT_64BIT =? PB_WT_VARINT) with false. cbv iota. change (PB_WT_64BIT =? PB_WT_64BIT) with true. cbv iota.
    rewrite len_app in H. rewrite read_null_spec by done. destruct (Z.leb_spec 8 (len q)); [lia|done].
  - change (PB_WT_32BIT =? PB_WT_VARINT) with false. cbv iota. change (PB_WT_32BIT =? PB_WT_64BIT) with false. cbv iota.
    change (PB_WT_32BIT =? PB_WT_STRING) with false. cbv iota. change (PB_WT_32BIT =? PB_WT_32BIT) with true. cbv iota.
    rewrite len_app in H. rewrite read_null_spec by done. destruct (Z.leb_spec 4 (len q)); [lia|done].
  - destruct H as (p & b & c & E & Hp & Hb & Hn & Hv & Hc). change (PB_WT_STRING =? PB_WT_VARINT) with false. cbv iota.
    change (PB_WT_STRING =? PB_WT_64BIT) with false. cbv iota. change (PB_WT_STRING =? PB_WT_STRING) with true. cbv iota.
    unfold pb_skip_string, bind. apply app_eq_app in E as (k & [[-> ->]|[E ->]]).
    + rewrite <- app_assoc in *. cbn [app] in *. rewrite decode_varint32_at by (done || lia). rewrite Hv.
        rewrite read_null_spec; [|apply len_nonneg|rewrite !len_app, len_cons in Hl; pose proof (len_nonneg p); lia].
        rewrite len_app. destruct (Z.leb_spec (len k + len r) (len k)); [lia|done].
    + destruct (decide (k = [])) as [->|Hk].
      * rewrite app_nil_r in E. subst q. rewrite <- (app_nil_r (p ++ [b])), <- app_assoc in *. cbn [app] in *.
        rewrite decode_varint32_at by (done || lia). rewrite Hv. rewrite read_null_spec by (apply len_nonneg || done).
        rewrite len_nil. destruct (Z.leb_spec (len c) 0); [lia|done].
      * symmetry in E. destruct (varint_prefix _ _ _ _ E Hk) as (k' & ->). apply Forall_app in Hp as [Hp _].
        rewrite len_app in Hn. pose proof (len_nonneg k'). pose proof (varint32_short user_read q tail e Hp ltac:(lia)) as Hs.
        by destruct (pb_decode_varint32 user_read (input q tail e)) as [[]].
Qed.

(** [pb_skip_field] steps over exactly one field.  For each wire type it consumes the value
    and nothing behind it, it fails when the input ends inside the value, and an unknown wire
    type is [invalid wire_type]. *)
Theorem pb_skip_field_exact user_read tail e :
  (forall wt payload rest, wire_payload wt payload -> len (payload ++ rest) < 2 ^ 64 ->
     pb_skip_field user_read wt (input (payload ++ rest) tail e) = (Some tt, input rest tail e)) /\
  (forall wt q r, wire_payload wt (q ++ r) -> r <> [] -> len q < 2 ^ 64 ->
     (pb_skip_field user_read wt (input q tail e)).1 = None) /\
  (forall wt l, ~ wt ∈ [PB_WT_VARINT; PB_WT_64BIT; PB_WT_STRING; PB_WT_32BIT] ->
     pb_skip_field user_read wt (input l tail e) = (None, input l tail (PB_SET_ERROR e "invalid wire_type"))).
Proof.
  split; [|split].
  - intros. by apply skip_whole.
  - intros. by eapply skip_truncated.
  - intros wt l H. rewrite !elem_of_cons in H. unfold pb_skip_field.
    repeat match goal with |- context [wt =? ?x] => destruct (Z.eqb_spec wt x); [subst; exfalso; tauto|] end. done.
Qed.

Lemma pb_skip_field_exact_witness :
  wire_payload PB_WT_STRING [3; 65; 66; 67] /\
  pb_skip_field no_read PB_WT_STRING (input ([3; 65; 66; 67] ++ [8; 1]) [] None) = (Some tt, input [8; 1] [] None).
Proof.
  assert (H : wire_payload PB_WT_STRING [3; 65; 66; 67]).
  { right; right; right. split; [done|]. exists [], 3, [65; 66; 67].
    split; [done|]. split; [constructor|]. split; [unfold last_byte; lia|]. vm_compute. done. }
  split; [exact H|]. destruct (pb_skip_field_exact no_read [] None) as [Hs _]. exact (Hs _ _ [8; 1] H eq_refl).
Defined.

(** C25: Scalar fields survive the wire.  For every scalar type and size, the encoder of the type
    writes at most ten bytes, and the decoder of the type reads exactly those and leaves the
    bytes of the field at its destination, changing nothing else; a bool arrives as 0 or 1. *)
Theorem pb_scalar_round_trip user_write m enc' user_read available dec dec_noinit field src :
  scalar_field field ->
  let encoder := PB_ENCODERS user_write m enc' (PB_LTYPE (type field)) field in
  let decoder := PB_DECODERS user_read available dec dec_noinit (PB_LTYPE (type field)) field in
  exists s, encoder src (pb_ostream_from_buffer 10) = (Some tt, s) /\
    forall rest dest w, len rest < 2 ^ 63 ->
      decoder dest (DState (pb_istream_from_buffer (out s ++ rest) (len (out s ++ rest))) w) =
        (Some tt, DState (pb_istream_from_buffer rest (len rest))
           (World (store_bytes (memory w) dest (scalar_bytes m field src)) (blocks w) (brk w) (bad_free w))).
Proof.
  intros Hf. cbv zeta. destruct (scalar_codec user_write m enc' user_read available dec dec_noinit field src Hf)
    as (l & Hn & He & Hd).
  destruct (emits_into _ _ 10 He Hn) as (s & Es & Eo); [done|]. exists s. split; [exact Es|].
  intros rest dest w Hr. rewrite Eo, !input_buffer. apply Hd. rewrite len_app. lia.
Qed.

Lemma pb_scalar_round_trip_witness :
  scalar_field (PbField 1 PB_LTYPE_SVARINT 0 0 4 0 0) /\
  exists s, PB_ENCODERS accept message (fun _ _ => fail) PB_LTYPE_SVARINT (PbField 1 PB_LTYPE_SVARINT 0 0 4 0 0) 100
    (pb_ostream_from_buffer 10) = (Some tt, s) /\ out s = [9].
Proof.
  assert (H : scalar_field (PbField 1 PB_LTYPE_SVARINT 0 0 4 0 0)).
  { right; left. split; [right; right; reflexivity|]. right; right; left. reflexivity. }
  split; [exact H|].
  destruct (pb_scalar_round_trip accept message (fun _ _ => fail) no_read (fun _ _ => true) (fun _ _ => fail)
    (fun _ _ => fail) _ 100 H) as (s & Hs & _).
  exists s. split; [exact Hs|]. vm_compute in Hs. injection Hs as <-. reflexivity.
Defined.
