(* ===== verification/PbSafe.v ===== *)
(** Decoding from a buffer reads inside it.  [reads s s' ok] relates the stream before and after
    an operation: it has moved over some of the bytes it may read, and after a success the count
    of bytes left agrees with the position.

    The decoder of a static scalar or string field writes inside the field, whatever the input:
    [only_writes]. *)
From Stdlib Require Import String.
From stdpp Require Import gmap.
From S2P Require Import Prelude CbsLemmas PbCommon PbEncode PbEncodeLemmas PbIstream PbDecode PbMessage PbRoundTrip.
#[global] Open Scope Z_scope.

Definition good (s : pb_istream_t) : Prop := callback s = buf_read_cb /\ 0 <= bytes_left s < 2 ^ 64.

Definition reads (s s' : pb_istream_t) (ok : bool) : Prop :=
  callback s' = callback s /\
  exists n, 0 <= n /\ state s' = drop (Z.to_nat n) (state s) /\
    0 <= bytes_left s' <= bytes_left s - n /\ (ok = true -> bytes_left s' = bytes_left s - n).

Definition is_ok {A} (r : option A) : bool := match r with Some _ => true | None => false end.

Lemma reads_refl s ok : good s -> reads s s ok.
Proof. intros [_ Hb]. split; [done|]. exists 0. change (Z.to_nat 0) with 0%nat. rewrite drop_0. split; [lia|]. split; [done|]. lia. Qed.

Lemma reads_good s s' ok : good s -> reads s s' ok -> good s'.
Proof. intros [Hc Hb] (Hc' & n & H). split; [congruence|lia]. Qed.

Lemma reads_trans s s1 s2 ok : reads s s1 true -> reads s1 s2 ok -> reads s s2 ok.
Proof.
  intros (Hc & n & Hn & Hs & Hb & He) (Hc1 & k & Hk & Hs1 & Hb1 & He1). specialize (He eq_refl).
  split; [congruence|]. exists (n + k). rewrite Hs1, Hs, drop_drop, Z2Nat.inj_add by done.
  split; [lia|]. split; [done|]. split; [lia|]. intros ->. specialize (He1 eq_refl). lia.
Qed.

Lemma reads_weaken s s' ok : reads s s' true -> reads s s' ok.
Proof. intros (Hc & n & Hn & Hs & Hb & He). split; [done|]. exists n. specialize (He eq_refl). auto. Qed.

Lemma reads_false s s' ok : reads s s' ok -> reads s s' false.
Proof. intros (Hc & n & Hn & Hs & Hb & He). split; [done|]. exists n. done. Qed.

(** ** Stream functions *)

Definition safe_s {A} (f : M pb_istream_t A) : Prop := forall s, good s -> reads s (f s).2 (is_ok (f s).1).

Lemma reads_ret {A} (a : A) : safe_s (ret a).
Proof. intros s H. by apply reads_refl. Qed.
Lemma reads_fail {A} : safe_s (@fail _ A).
Proof. intros s H. by apply reads_refl. Qed.
Lemma safe_ierror {A} msg : safe_s (@ierror A msg).
Proof.
  intros s [Hc Hb]. split; [done|]. exists 0. change (Z.to_nat 0) with 0%nat. cbn. rewrite drop_0. split; [lia|]. split; [done|]. lia.
Qed.
Lemma reads_bind {A B} (f : M pb_istream_t A) (g : A -> M pb_istream_t B) :
  safe_s f -> (forall a, safe_s (g a)) -> safe_s (bind f g).
Proof.
  intros Hf Hg s H. specialize (Hf s H). unfold bind. destruct (f s) as [[a|] s1]; cbn in *; [|done].
  eapply reads_trans; [done|]. apply Hg. by eapply reads_good.
Qed.
Lemma safe_if {A} (b : bool) (f g : M pb_istream_t A) : safe_s f -> safe_s g -> safe_s (if b then f else g).
Proof. by destruct b. Qed.
Lemma safe_ext {A} (f : pb_istream_t -> M pb_istream_t A) : (forall s, safe_s (f s)) -> safe_s (fun s => f s s).
Proof. intros H s. apply H. Qed.

Create HintDb reads.
#[export] Hint Resolve reads_ret reads_fail safe_ierror reads_bind safe_if reads_refl reads_good : reads.

Section safe.
Context (user_read : Z -> M pb_istream_t (list Z)).

(** Moving over [n] bytes that are there. *)
Lemma reads_advance s n : good s -> 0 <= n <= bytes_left s ->
  reads s (PbIstream (callback s) (drop (Z.to_nat n) (state s)) (u64 (bytes_left s - n)) (errmsg s)) true.
Proof. intros [Hc Hb] Hn. split; [done|]. exists n. cbn. rewrite u64_id by lia. split; [lia|]. split; [done|]. lia. Qed.

Lemma safe_read_checked n : 0 <= n -> safe_s (read_checked user_read n).
Proof.
  intros Hn s H. unfold read_checked. destruct (Z.ltb_spec (bytes_left s) n); [by apply safe_ierror|].
  unfold call_read, is_buffer. destruct H as [Hc Hb]. rewrite Hc. cbn.
  exact (reads_advance s n (conj Hc Hb) ltac:(lia)).
Qed.

Lemma safe_read n : 0 <= n -> safe_s (pb_read user_read n).
Proof. intros Hn. unfold pb_read. apply safe_if; [apply reads_ret|by apply safe_read_checked]. Qed.

Lemma safe_read_null n : 0 <= n -> safe_s (pb_read_null user_read n).
Proof.
  intros Hn s H. unfold pb_read_null. destruct (n =? 0); [by apply reads_refl|].
  unfold is_buffer. destruct H as [Hc Hb]. rewrite Hc. cbn [negb].
  apply reads_bind; [by apply safe_read_checked|auto with reads|done].
Qed.

Lemma safe_readbyte : safe_s (pb_readbyte user_read).
Proof.
  intros s H. unfold pb_readbyte. destruct (Z.eqb_spec (bytes_left s) 0); [by apply safe_ierror|].
  unfold call_read, is_buffer. pose proof H as [Hc Hb]. rewrite Hc. cbn.
  exact (reads_advance s 1 H ltac:(lia)).
Qed.
Hint Resolve safe_read safe_read_null safe_readbyte : reads.

Lemma safe_varint32_loop fuel bp r : safe_s (varint32_loop user_read fuel bp r).
Proof. revert bp r. induction fuel as [|fuel IH]; intros bp r; cbn [varint32_loop]; auto 8 with reads. Qed.

Lemma varint32_loop_range fuel bp r s : 0 <= r < 2 ^ 32 ->
  match (varint32_loop user_read fuel bp r s).1 with Some v => 0 <= v < 2 ^ 32 | None => True end.
Proof.
  revert bp r s. induction fuel as [|fuel IH]; intros bp r s Hr; cbn [varint32_loop]; [done|].
  unfold bind. destruct (pb_readbyte user_read s) as [[b|] s1]; [|done].
  destruct (_ && _); [done|]. cbv zeta.
  assert (Hr' : 0 <= (if 32 <=? bp then r else r |. u32 ((b &. 0x7F) << bp)) < 2 ^ 32).
  { destruct (32 <=? bp); [done|]. apply (lor_range _ _ 32); [lia|lia|]. unfold u32. apply Z.mod_pos_bound. lia. }
  destruct (negb _); [by apply IH|]. by destruct (_ && _).
Qed.

Lemma varint32_eof_spec s : good s ->
  match pb_decode_varint32_eof user_read s with
  | (r, eof, s') => reads s s' (is_ok r || eof) /\ match r with Some v => 0 <= v < 2 ^ 32 | None => True end
  end.
Proof.
  intros H. unfold pb_decode_varint32_eof. pose proof (safe_readbyte s H) as Hr.
  assert (Hbyte : match (pb_readbyte user_read s).1 with Some b => 0 <= b < 256 | None => True end).
  { unfold pb_readbyte. destruct (_ =? 0); [done|]. destruct (call_read _ _ _) as [[l|] s1]; [apply u8_byte|done]. }
  destruct (pb_readbyte user_read s) as [[b|] s1] eqn:E; cbn [fst snd is_ok] in *.
  - destruct (_ =? 0); [split; [exact Hr|lia]|].
    pose proof (safe_varint32_loop (rounds s1) 7 (b &. 0x7F) s1 ltac:(eauto with reads)) as Hl.
    pose proof (varint32_loop_range (rounds s1) 7 (b &. 0x7F) s1) as Hv.
    destruct (varint32_loop _ _ _ _ s1) as [r s2]. rewrite orb_false_r. split; [by eapply reads_trans|].
    apply Hv. rewrite land_127. pose proof (Z.mod_pos_bound b 128). lia.
  - split; [|done]. cbn [orb]. unfold pb_readbyte in E. destruct (Z.eqb_spec (bytes_left s) 0) as [Hz|Hz].
    + unfold ierror in E. injection E as <-. destruct H as [Hc Hb]. split; [done|]. exists 0.
      change (Z.to_nat 0) with 0%nat. rewrite drop_0. cbn. split; [lia|]. split; [done|]. lia.
    + unfold call_read, is_buffer in E. destruct H as [Hc Hb]. rewrite Hc in E. cbn in E. done.
Qed.

Lemma safe_varint32 : safe_s (pb_decode_varint32 user_read).
Proof.
  intros s H. pose proof (varint32_eof_spec s H) as Hv. unfold pb_decode_varint32.
  destruct (pb_decode_varint32_eof user_read s) as [[[v|] eof] s']; cbn in *; destruct Hv as [Hv _]; [done|].
  by eapply reads_false.
Qed.

Lemma varint32_range s v s' : good s -> pb_decode_varint32 user_read s = (Some v, s') -> 0 <= v < 2 ^ 32.
Proof.
  intros H E. pose proof (varint32_eof_spec s H) as Hv. unfold pb_decode_varint32 in E.
  destruct (pb_decode_varint32_eof user_read s) as [[[v'|] eof] s1]; simplify_eq/=. apply Hv.
Qed.
Hint Resolve safe_varint32 : reads.

(** A bind after the 32-bit varint may use its range. *)
Lemma safe_bind_varint32 {A} (g : Z -> M pb_istream_t A) :
  (forall v, 0 <= v < 2 ^ 32 -> safe_s (g v)) -> safe_s (bind (pb_decode_varint32 user_read) g).
Proof.
  intros Hg s H. pose proof (safe_varint32 s H) as Hv. unfold bind.
  destruct (pb_decode_varint32 user_read s) as [[v|] s1] eqn:E; [|done]. eapply reads_trans; [done|].
  apply Hg; [by eapply varint32_range|by eapply reads_good].
Qed.

Lemma safe_varint64_loop fuel bp r : safe_s (varint64_loop user_read fuel bp r).
Proof. revert bp r. induction fuel as [|fuel IH]; intros bp r; cbn [varint64_loop]; auto 8 with reads. Qed.
Lemma safe_varint : safe_s (pb_decode_varint user_read).
Proof. apply safe_varint64_loop. Qed.
Hint Resolve safe_varint : reads.
Lemma safe_svarint : safe_s (pb_decode_svarint user_read).
Proof. unfold pb_decode_svarint. auto 6 with reads. Qed.

Lemma safe_skip_varint : safe_s (pb_skip_varint user_read).
Proof.
  intros s. unfold pb_skip_varint. generalize (rounds s). intros fuel. revert s.
  change (safe_s (skip_varint_loop user_read fuel)). induction fuel as [|fuel IH]; cbn [skip_varint_loop]; [auto with reads|].
  apply reads_bind; [apply safe_read; lia|]. auto with reads.
Qed.

Lemma safe_skip_string : safe_s (pb_skip_string user_read).
Proof. apply safe_bind_varint32. intros v Hv. apply safe_read_null. lia. Qed.

Lemma safe_skip_field wt : safe_s (pb_skip_field user_read wt).
Proof.
  unfold pb_skip_field. repeat apply safe_if; auto using safe_skip_varint, safe_skip_string with reads;
    apply safe_read_null; lia.
Qed.

Lemma safe_raw_value wt n : safe_s (read_raw_value user_read wt n).
Proof.
  unfold read_raw_value. apply safe_if; [|apply safe_if; [by apply safe_read|apply safe_if; [by apply safe_read|auto with reads]]].
  induction n as [|n IH]; cbn [raw_varint_loop]; [auto with reads|].
  apply reads_bind; [apply safe_read; lia|]. intros buf. cbv zeta. apply safe_if; auto with reads.
Qed.
End safe.

(** ** Decoding functions *)

(** [ok] tells which results count as success. *)
Definition safe_with {A} (ok : option A -> bool) (f : D A) : Prop :=
  forall d, good (strm d) -> reads (strm d) (strm (f d).2) (ok (f d).1).
Definition safe_d {A} : D A -> Prop := safe_with (A:=A) is_ok.

Lemma safe_d_ret {A} (a : A) : safe_d (ret a).
Proof. intros s H. by apply reads_refl. Qed.
Lemma safe_d_fail {A} : safe_d (@fail _ A).
Proof. intros s H. by apply reads_refl. Qed.
Lemma safe_d_on_stream {A} (f : M pb_istream_t A) : safe_s f -> safe_d (on_stream f).
Proof. intros Hf d H. specialize (Hf _ H). unfold on_stream. by destruct (f (strm d)). Qed.
Lemma safe_d_derror {A} msg : safe_d (@derror A msg).
Proof. apply safe_d_on_stream, safe_ierror. Qed.
Lemma safe_d_bind {A B} (f : D A) (g : A -> D B) : safe_d f -> (forall a, safe_d (g a)) -> safe_d (bind f g).
Proof.
  intros Hf Hg d H. specialize (Hf d H). unfold bind. destruct (f d) as [[a|] d1]; cbn in *; [|done].
  eapply reads_trans; [done|]. apply Hg. by eapply reads_good.
Qed.
Lemma safe_d_if {A} (b : bool) (f g : D A) : safe_d f -> safe_d g -> safe_d (if b then f else g).
Proof. by destruct b. Qed.
Lemma safe_d_on_world f : safe_d (on_world f).
Proof. intros d H. by apply reads_refl. Qed.
Lemma safe_d_on_memory f : safe_d (on_memory f).
Proof. intros d H. by apply reads_refl. Qed.
Lemma safe_d_from_memory {A} (f : mem -> A) : safe_d (from_memory f).
Proof. intros d H. by apply reads_refl. Qed.
Lemma safe_d_check b : safe_d (@check dstate b).
Proof. destruct b; [apply safe_d_ret|apply safe_d_fail]. Qed.
Lemma safe_d_status r : safe_d (as_status r).
Proof. destruct r; [apply safe_d_ret|apply safe_d_fail]. Qed.
#[export] Hint Resolve safe_d_ret safe_d_fail safe_d_on_stream safe_d_derror safe_d_bind safe_d_if safe_d_on_world
  safe_d_on_memory safe_d_from_memory safe_d_check safe_d_status : reads.

(** A test of the state first. *)
Lemma safe_d_ext {A} (f : dstate -> D A) : (forall d, safe_d (f d)) -> safe_d (fun d => f d d).
Proof. intros H d. apply H. Qed.

(** *** Substreams *)

(** An open substream: [s0] was the stream before, [s] is the stream now, [sub] the substream. *)
Definition pend (s0 s sub : pb_istream_t) (ok : bool) : Prop :=
  callback s = buf_read_cb /\ good sub /\ callback s0 = buf_read_cb /\ bytes_left s0 < 2 ^ 64 /\
  exists n k, 0 <= n /\ 0 <= k /\ state s = drop (Z.to_nat n) (state s0) /\
    state sub = drop (Z.to_nat (n + k)) (state s0) /\ 0 <= bytes_left s /\
    bytes_left s + bytes_left sub + k + n <= bytes_left s0 /\
    (ok = true -> bytes_left s + bytes_left sub + k + n = bytes_left s0).

Lemma pend_reads s0 s sub ok : pend s0 s sub ok -> reads s0 s false.
Proof.
  intros (Hc & [Hg Hb] & Hc0 & Hl & n & k & Hn & Hk & Hs & Hsub & Hp & Hle & _). split; [congruence|].
  exists n. split; [done|]. split; [done|]. split; [lia|done].
Qed.

Lemma pend_good s0 s sub ok : pend s0 s sub ok -> good s.
Proof. intros (Hc & [Hg Hb] & Hc0 & Hl & n & k & H). split; [done|lia]. Qed.

Lemma pend_step s0 s sub sub' ok : pend s0 s sub true -> reads sub sub' ok -> pend s0 s sub' ok.
Proof.
  intros (Hc & Hg & Hc0 & Hl & n & k & Hn & Hk & Hs & Hsub & Hp & Hle & He) Hr. pose proof (reads_good _ _ _ Hg Hr) as Hg'.
  destruct Hr as (_ & j & Hj & Hsj & Hbj & Hej). specialize (He eq_refl).
  split; [done|]. split; [done|]. split; [done|]. split; [done|]. exists n, (k + j).
  rewrite Hsj, Hsub, drop_drop, <- Z2Nat.inj_add, Z.add_assoc by lia.
  split; [done|]. split; [lia|]. split; [done|]. split; [done|]. split; [done|]. split; [lia|].
  intros ->. specialize (Hej eq_refl). lia.
Qed.

Lemma pend_errmsg s0 s sub ok e : pend s0 s sub ok -> pend s0 (PbIstream (callback s) (state s) (bytes_left s) e) sub ok.
Proof. done. Qed.

Section decode.
Context (descriptors : Z -> list pb_field_t).
Context (user_read : Z -> M pb_istream_t (list Z)).
Context (decode_callback : Z -> pb_field_t -> Z -> D unit).
Context (extension_decode : Z -> Z -> Z -> Z -> D unit).
Context (available : world -> Z -> bool).

Lemma make_pend s0 : good s0 ->
  match pb_make_string_substream user_read s0 with
  | (Some sub, s) => pend s0 s sub true
  | (None, s) => reads s0 s false
  end.
Proof.
  intros H. unfold pb_make_string_substream, bind. pose proof (safe_varint32 user_read s0 H) as Hr.
  destruct (pb_decode_varint32 user_read s0) as [[size|] s] eqn:E; cbn in Hr; [|done].
  pose proof (varint32_range user_read s0 size s H E) as Hv. pose proof (reads_good _ _ _ H Hr) as [Hc Hb].
  destruct (Z.ltb_spec (bytes_left s) size).
  - eapply reads_trans; [done|]. apply (safe_ierror (A:=pb_istream_t)). by split.
  - destruct H as [Hc0 Hb0]. destruct Hr as (_ & n & Hn & Hs & Hle & He). specialize (He eq_refl).
    split; [done|]. split; [by split; cbn; [|lia]|]. split; [done|]. split; [lia|]. exists n, 0. cbn.
    rewrite u64_id, Z.add_0_r by lia. split; [done|]. split; [done|]. split; [done|]. split; [done|]. lia.
Qed.

Lemma close_pend s0 s sub ok : pend s0 s sub ok ->
  reads s0 (pb_close_string_substream user_read sub s).2
    (is_ok (pb_close_string_substream user_read sub s).1 && ok).
Proof.
  intros (Hc & [Hg Hb] & Hc0 & Hl & n & k & Hn & Hk & Hs & Hsub & Hp & Hle & He).
  unfold pb_close_string_substream, pb_read_null. destruct (Z.eqb_spec (bytes_left sub) 0) as [Hz|Hz].
  - cbn. split; [cbn; congruence|]. exists (n + k). split; [lia|]. split; [exact Hsub|]. split; [cbn; lia|]. cbn. intros ->. lia.
  - unfold is_buffer. rewrite Hg. cbn [negb]. unfold bind, read_checked.
    destruct (Z.ltb_spec (bytes_left sub) (bytes_left sub)); [lia|]. unfold call_read, is_buffer. rewrite Hg.
    cbn. split; [cbn; congruence|]. exists (n + k + bytes_left sub). cbn.
    rewrite Hsub, drop_drop, <- Z2Nat.inj_add by lia. split; [lia|]. split; [done|]. split; [lia|]. intros ->. lia.
Qed.

Lemma safe_make {A} (g : pb_istream_t -> D A) :
  (forall s0 sub d, pend s0 (strm d) sub true -> reads s0 (strm (g sub d).2) (is_ok (g sub d).1)) ->
  safe_d (bind (on_stream (pb_make_string_substream user_read)) g).
Proof.
  intros Hg d H. pose proof (make_pend _ H) as Hm. unfold bind, on_stream.
  destruct (pb_make_string_substream user_read (strm d)) as [[sub|] s]; [|done]. by apply Hg.
Qed.

Lemma pend_run {A B} (ok : option A -> bool) s0 sub d (f : D A) (g : option A * pb_istream_t -> D B) :
  pend s0 (strm d) sub true -> safe_with ok f ->
  (forall r sub' d', pend s0 (strm d') sub' (ok r) -> reads s0 (strm (g (r, sub') d').2) (is_ok (g (r, sub') d').1)) ->
  reads s0 (strm (bind (on_substream sub f) g d).2) (is_ok (bind (on_substream sub f) g d).1).
Proof.
  intros Hp Hf Hg. unfold bind, on_substream. specialize (Hf (DState sub (wld d)) (proj1 (proj2 Hp))).
  destruct (f (DState sub (wld d))) as [r d']. cbn in *. apply Hg. cbn. by eapply pend_step.
Qed.

(** Closing and then reporting the status. *)
Lemma pend_close {B} s0 sub d ok (k : D B) : pend s0 (strm d) sub ok ->
  (ok = true -> safe_d k) -> (ok = false -> forall d, strm (k d).2 = strm d /\ (k d).1 = None) ->
  reads s0 (strm (bind (on_stream (pb_close_string_substream user_read sub)) (fun _ => k) d).2)
    (is_ok (bind (on_stream (pb_close_string_substream user_read sub)) (fun _ => k) d).1).
Proof.
  intros Hp Ht Hf. pose proof (close_pend _ _ _ _ Hp) as Hc. destruct Hp as (_ & [_ Hb] & Hc0 & Hl & n & k0 & Hn).
  assert (Hg0 : good s0) by (split; [done|lia]). unfold bind, on_stream.
  destruct (pb_close_string_substream user_read sub (strm d)) as [[[]|] s]; cbn in *; [|done]. destruct ok.
  - eapply reads_trans; [done|]. apply (Ht eq_refl (DState s (wld d))). by eapply reads_good.
  - destruct (Hf eq_refl (DState s (wld d))) as [-> ->]. done.
Qed.

Lemma pend_derror {A} s0 sub d ok msg : pend s0 (strm d) sub ok ->
  reads s0 (strm (derror (A:=A) msg d).2) (is_ok (derror (A:=A) msg d).1).
Proof. intros Hp. by apply (pend_reads _ _ sub ok). Qed.

(** *** Scalars and strings *)

Ltac sd := repeat first
  [ progress cbv zeta
  | match goal with
    | |- safe_d (if _ then _ else _) => apply safe_d_if
    | |- safe_d (bind _ _) => apply safe_d_bind; [|intros ?]
    | |- safe_d (let '(_, _) := ?p in _) => destruct p
    | |- safe_d (match ?x with _ => _ end) => destruct x
    end
  | solve [auto with reads] ].

Lemma safe_bool dest : safe_d (pb_dec_bool user_read dest).
Proof. unfold pb_dec_bool. sd. apply safe_d_on_stream, safe_varint32. Qed.
Lemma safe_fixed32 dest : safe_d (pb_decode_fixed32 user_read dest).
Proof. unfold pb_decode_fixed32. sd. by apply safe_d_on_stream, safe_read. Qed.
Lemma safe_fixed64 dest : safe_d (pb_decode_fixed64 user_read dest).
Proof. unfold pb_decode_fixed64. sd. by apply safe_d_on_stream, safe_read. Qed.
Lemma safe_store_checked sg f dest v : safe_d (store_checked sg f dest v).
Proof. unfold store_checked. sd. Qed.
Hint Resolve safe_store_checked : reads.
Lemma safe_dec_varint f dest : safe_d (pb_dec_varint user_read f dest).
Proof. unfold pb_dec_varint. sd. apply safe_d_on_stream, safe_varint. Qed.
Lemma safe_dec_uvarint f dest : safe_d (pb_dec_uvarint user_read f dest).
Proof. unfold pb_dec_uvarint. sd. apply safe_d_on_stream, safe_varint. Qed.
Lemma safe_dec_svarint f dest : safe_d (pb_dec_svarint user_read f dest).
Proof. unfold pb_dec_svarint. sd. apply safe_d_on_stream, safe_svarint. Qed.

Lemma safe_allocate p n k : safe_d (allocate_field available p n k).
Proof.
  unfold allocate_field. sd. intros d H. destruct (pb_realloc _ _ _ _) as [q w].
  destruct (q =? NULL); [by apply (safe_d_derror (A:=unit) _ (DState (strm d) w))|by apply reads_refl].
Qed.
Hint Resolve safe_allocate : reads.

(** Reading a length and going on. *)
Lemma safe_d_bind_varint32 {A} (g : Z -> D A) : (forall v, 0 <= v < 2 ^ 32 -> safe_d (g v)) ->
  safe_d (bind (on_stream (pb_decode_varint32 user_read)) g).
Proof.
  intros Hg d H. pose proof (safe_varint32 user_read _ H) as Hv. unfold bind, on_stream.
  destruct (pb_decode_varint32 user_read (strm d)) as [[v|] s1] eqn:E; [|done]. eapply reads_trans; [done|].
  apply (Hg v); [by eapply varint32_range|by eapply reads_good].
Qed.

(** Allocating the destination of a pointer field. *)
Lemma reads_reserve dest size alloc : safe_d (fun d =>
  if bytes_left (strm d) <? size then derror "end-of-stream" d
  else (allocate_field available dest alloc 1 ;;; from_memory (fun m => load_ptr m dest)) d).
Proof. intros d H. destruct (_ <? _); [by apply (safe_d_derror (A:=Z))|]. apply safe_d_bind; auto with reads. Qed.

Lemma safe_bytes f dest : safe_d (pb_dec_bytes user_read available f dest).
Proof.
  apply safe_d_bind_varint32. intros v Hv. sd; [apply reads_reserve|].
  apply safe_d_on_stream, safe_read. lia.
Qed.

Lemma safe_string f dest : safe_d (pb_dec_string user_read available f dest).
Proof.
  apply safe_d_bind_varint32. intros v Hv. cbv zeta. apply safe_d_if; [auto with reads|].
  apply safe_d_bind; [apply safe_d_if; [apply reads_reserve|auto with reads]|].
  intros a d H. assert (Hs : safe_d (let* bytes := on_stream (pb_read user_read v) in on_memory (fun m => store_bytes m a bytes))).
  { apply safe_d_bind; [apply safe_d_on_stream, safe_read; lia|auto with reads]. }
  specialize (Hs d H). destruct (bind _ _ d) as [r d']. unfold bind. destruct r as [[]|]; exact Hs.
Qed.

Lemma safe_fixed_length f dest : 0 <= data_size f -> safe_d (pb_dec_fixed_length_bytes user_read f dest).
Proof.
  intros Hf. apply safe_d_bind_varint32. intros v Hv. sd. by apply safe_d_on_stream, safe_read.
Qed.

(** *** Fields *)

Context (Hdesc : forall p, Forall (fun f => 0 <= data_size f) (descriptors p)).
Context (Hcb : forall p f a, safe_d (decode_callback p f a)).
Context (Hext : forall p e t w, safe_d (extension_decode p e t w)).

Lemma desc_at p n : 0 <= data_size (field_at descriptors p n).
Proof.
  unfold field_at. destruct (nth_in_or_default n (descriptors p) PB_LAST_FIELD) as [Hin| ->]; [|done].
  exact (proj1 (List.Forall_forall _ _) (Hdesc p) _ Hin).
Qed.

Section open.
Context (dec noinit : Z -> Z -> D unit) (depth : nat).
Context (Hdec : forall p q, safe_d (dec p q)) (Hnoinit : forall p q, safe_d (noinit p q)).

Lemma safe_submessage f dest : safe_d (pb_dec_submessage user_read dec noinit f dest).
Proof.
  apply safe_make. intros s0 sub d Hp. destruct (ptr f =? NULL); [by eapply pend_derror|].
  apply (pend_run is_ok); [done|by apply safe_d_if|]. intros r sub' d' Hp'.
  eapply pend_close; [done|auto with reads|]. by destruct r.
Qed.

Lemma safe_decoders lt f dest : 0 <= data_size f ->
  safe_d (PB_DECODERS user_read available dec noinit lt f dest).
Proof.
  intros Hf. unfold PB_DECODERS.
  repeat (match goal with |- context [if ?b then _ else _] => destruct b end); cbv beta;
    match goal with
    | |- safe_d (pb_dec_bool _ _) => apply safe_bool
    | |- safe_d (pb_dec_varint _ _ _) => apply safe_dec_varint
    | |- safe_d (pb_dec_uvarint _ _ _) => apply safe_dec_uvarint
    | |- safe_d (pb_dec_svarint _ _ _) => apply safe_dec_svarint
    | |- safe_d (pb_dec_fixed32 _ _ _) => apply safe_fixed32
    | |- safe_d (pb_dec_fixed64 _ _ _) => apply safe_fixed64
    | |- safe_d (pb_dec_bytes _ _ _ _) => apply safe_bytes
    | |- safe_d (pb_dec_string _ _ _ _) => apply safe_string
    | |- safe_d (pb_dec_submessage _ _ _ _ _) => apply safe_submessage
    | |- safe_d (pb_dec_fixed_length_bytes _ _ _) => by apply safe_fixed_length
    | |- safe_d fail => apply safe_d_fail
    end.
Qed.

Lemma safe_static_packed fuel f func pData pSize : (forall a, safe_d (func f a)) ->
  safe_with (default false) (static_packed_loop fuel f func pData pSize).
Proof.
  intros Hf. induction fuel as [|fuel IH]; intros d H; cbn [static_packed_loop]; [by apply reads_refl|].
  destruct (_ && _); [|by apply reads_refl].
  match goal with |- context [func f ?a] => pose proof (Hf a d H) as Hr; destruct (func f a d) as [[[]|] d1] end; [|exact Hr].
  eapply reads_trans; [exact Hr|]. apply (IH (DState (strm d1) _)). by eapply reads_good.
Qed.

Lemma safe_static wt it : safe_d (decode_static_field descriptors user_read available dec noinit depth wt it).
Proof.
  pose proof (desc_at (start it) (pos it)) as Hf. fold (cur descriptors it) in Hf.
  pose proof (fun a lt => safe_decoders lt _ a Hf) as Hdecs. unfold decode_static_field. cbv zeta.
  apply safe_d_if; [done|]. apply safe_d_if; [sd; done|]. apply safe_d_if.
  - apply safe_d_if; [|sd; done]. apply safe_make. intros s0 sub d Hp.
    apply (pend_run (default false)); [done|by apply safe_static_packed|]. intros r sub' d' Hp'.
    destruct (negb _); [by eapply pend_derror|]. eapply pend_close; [done|auto with reads|]. by intros ->.
  - apply safe_d_bind; [|intros; apply safe_d_bind; [auto with reads|done]].
    intros d H. destruct (_ && _); [|by apply reads_refl]. apply safe_d_bind; auto with reads.
Qed.

Lemma safe_initialize p it : safe_d (initialize_pointer_field descriptors depth p it).
Proof. unfold initialize_pointer_field. sd. Qed.
Hint Resolve safe_initialize : reads.

Lemma safe_pointer_packed fuel it func n : (forall f a, 0 <= data_size f -> safe_d (func f a)) ->
  safe_with (fun r => fst (default (false, false) r))
    (pointer_packed_loop descriptors available depth fuel it func n).
Proof.
  intros Hf. revert n. induction fuel as [|fuel IH]; intros n d H; cbn [pointer_packed_loop]; [by apply reads_refl|].
  cbv zeta. destruct (_ =? 0); [by apply reads_refl|]. destruct (_ =? PB_SIZE_MAX); [by apply reads_refl|].
  match goal with |- context [match ?f d with _ => _ end] => assert (Hs : safe_d f) end.
  { sd. apply Hf, desc_at. }
  specialize (Hs d H). match goal with |- context [match ?f d with _ => _ end] => destruct (f d) as [[[]|] d1] end;
    [|exact Hs].
  eapply reads_trans; [exact Hs|]. apply (IH _ (DState (strm d1) _)). by eapply reads_good.
Qed.

Lemma safe_pointer wt it : safe_d (decode_pointer_field descriptors user_read available dec noinit depth wt it).
Proof.
  pose proof (desc_at (start it) (pos it)) as Hf. fold (cur descriptors it) in Hf.
  pose proof (fun a lt => safe_decoders lt _ a Hf) as Hdecs. unfold decode_pointer_field. cbv zeta.
  apply safe_d_if.
  - apply safe_d_bind; [|intros []; sd; done].
    intros d H. destruct (_ && _); [by apply safe_d_on_world|by apply reads_refl].
  - apply safe_d_if; [|sd; done]. apply safe_d_bind; [auto with reads|]. intros n.
    apply safe_make. intros s0 sub d Hp.
    apply (pend_run (fun r => fst (default (false, false) r))); [done| |].
    { apply safe_pointer_packed. intros. by apply safe_decoders. }
    intros r sub' d' Hp'. destruct (default (false, false) r) as [status too_many]. cbn [fst] in Hp'.
    unfold bind at 1 3. destruct too_many; cbn.
    + eapply (pend_close _ _ (DState _ _)); [by apply pend_errmsg|auto with reads|]. by intros ->.
    + eapply pend_close; [done|auto with reads|]. by intros ->.
Qed.

Lemma safe_callback_loop fuel p f a : safe_d (callback_loop decode_callback fuel p f a).
Proof.
  induction fuel as [|fuel IH]; cbn [callback_loop]; [auto with reads|]. apply safe_d_bind; [done|].
  intros [] d H. destruct (_ =? 0); [by apply reads_refl|by apply IH].
Qed.

Lemma safe_callback wt it : safe_d (decode_callback_field descriptors user_read decode_callback wt it).
Proof.
  unfold decode_callback_field. cbv zeta. apply safe_d_bind; [auto with reads|]. intros funcs.
  apply safe_d_if; [apply safe_d_on_stream, safe_skip_field|]. apply safe_d_if.
  - apply safe_make. intros s0 sub d Hp. apply (pend_run is_ok); [done|apply safe_callback_loop|].
    intros r sub' d' Hp'. destruct r as [[]|]; [|by eapply pend_derror].
    pose proof (close_pend _ _ _ _ Hp') as Hc. unfold on_stream. rewrite andb_true_r in Hc.
    destruct (pb_close_string_substream user_read sub' (strm d')) as [[[]|] s]; exact Hc.
  - apply safe_d_bind; [apply safe_d_on_stream, safe_raw_value|]. intros buf.
    intros d H. unfold bind, on_substream.
    destruct (decode_callback _ _ _ _) as [[[]|] d']; by apply reads_refl.
Qed.

Lemma safe_union it : safe_d (pb_release_union_field descriptors depth it).
Proof. unfold pb_release_union_field. sd. Qed.

Lemma safe_field wt it :
  safe_d (decode_field descriptors user_read decode_callback available dec noinit depth wt it).
Proof.
  unfold decode_field. apply safe_d_bind; [apply safe_d_if; [apply safe_union|auto with reads]|]. intros it'.
  cbv zeta. apply safe_d_bind; [|auto with reads].
  apply safe_d_if; [apply safe_static|]. apply safe_d_if; [apply safe_pointer|].
  apply safe_d_if; [apply safe_callback|auto with reads].
Qed.

Lemma safe_extensions fuel pos t wt e :
  safe_d (decode_extensions descriptors user_read decode_callback extension_decode available dec noinit depth
            fuel pos t wt e).
Proof.
  revert e. induction fuel as [|fuel IH]; intros e; cbn [decode_extensions]; [auto with reads|].
  intros d H. destruct (_ && _); [|by apply reads_refl]. revert H. apply safe_d_bind; [|auto with reads].
  apply safe_d_if; [apply Hext|]. unfold default_extension_decoder. sd. apply safe_field.
Qed.

Lemma safe_extension t wt it :
  safe_d (decode_extension descriptors user_read decode_callback extension_decode available dec noinit depth t wt it).
Proof. intros d. apply safe_extensions. Qed.

Lemma safe_known wt it st :
  safe_d (decode_known descriptors user_read decode_callback available dec noinit depth wt it st).
Proof.
  unfold decode_known. cbv zeta. apply safe_d_bind; [sd|]. intros [it' fixed].
  apply safe_d_bind; [apply safe_field|auto with reads].
Qed.

Lemma safe_unknown t wt it st :
  safe_d (decode_unknown descriptors user_read decode_callback extension_decode available dec noinit depth t wt it st).
Proof.
  assert (Hskip : forall st', safe_d (on_stream (pb_skip_field user_read wt) ;;; ret (A:=loop_state) st')).
  { intros st'. apply safe_d_bind; [apply safe_d_on_stream, safe_skip_field|auto with reads]. }
  unfold decode_unknown. cbv zeta. apply safe_d_if; [|done].
  destruct (find_extension_field descriptors it) as [found it']. apply safe_d_if; [|done].
  intros d H. pose proof (safe_extension t wt it' d H) as Hr.
  destruct (decode_extension _ _ _ _ _ _ _ _ _ _ _ d) as [[[]|] d1]; [|exact Hr].
  destruct (negb _); [exact Hr|]. eapply reads_trans; [exact Hr|]. apply Hskip. by eapply reads_good.
Qed.

Lemma tag_spec s : good s ->
  match pb_decode_tag user_read s with (r, eof, s') => reads s s' (is_ok r || eof) end.
Proof.
  intros H. unfold pb_decode_tag. pose proof (varint32_eof_spec user_read s H) as Hv.
  destruct (pb_decode_varint32_eof user_read s) as [[[v|] eof] s']; destruct Hv as [Hv _]; [|exact Hv].
  destruct (v =? 0); exact Hv.
Qed.

Lemma safe_loop fuel st :
  safe_d (decode_loop descriptors user_read decode_callback extension_decode available dec noinit depth fuel st).
Proof.
  revert st. induction fuel as [|fuel IH]; intros st; cbn [decode_loop]; [auto with reads|].
  intros d H. destruct (_ =? 0); [by apply reads_refl|]. pose proof (tag_spec _ H) as Ht.
  destruct (pb_decode_tag user_read (strm d)) as [[[[t wt]|] eof] s]; [|by destruct eof].
  eapply reads_trans; [exact Ht|]. refine (safe_d_bind _ _ _ IH (DState s (wld d)) _).
  - destruct (pb_field_iter_find _ _ _) as [[] it]; [apply safe_known|apply safe_unknown].
  - by eapply reads_good.
Qed.

Lemma safe_noinit_body fields dest :
  safe_d (pb_decode_noinit_body descriptors user_read decode_callback extension_decode available dec noinit depth
            fields dest).
Proof.
  unfold pb_decode_noinit_body. apply safe_d_bind; [auto with reads|]. intros []. cbv zeta.
  apply safe_d_bind; [intros d; apply safe_loop|]. intros st. sd.
Qed.

Lemma safe_body f fields dest : safe_d f -> safe_d (pb_decode_body descriptors depth f fields dest).
Proof.
  intros Hf. apply safe_d_bind; [auto with reads|]. intros [] d H. specialize (Hf d H).
  by destruct (f d) as [[[]|] d'].
Qed.
End open.

Lemma safe_all depth fields dest :
  safe_d (pb_decode descriptors user_read decode_callback extension_decode available depth fields dest) /\
  safe_d (pb_decode_noinit descriptors user_read decode_callback extension_decode available depth fields dest).
Proof.
  unfold pb_decode, pb_decode_noinit. revert fields dest. induction depth as [|depth IH]; intros fields dest.
  - split; apply safe_d_fail.
  - cbn [decoders]. destruct (decoders _ _ _ _ _ depth) as [dec noinit]. cbn [fst snd] in *.
    assert (Hn : safe_d (pb_decode_noinit_body descriptors user_read decode_callback extension_decode available dec noinit
              depth fields dest)) by (apply safe_noinit_body; intros; apply IH).
    split; [by apply safe_body|done].
Qed.

Lemma safe_delimited f : safe_d f -> safe_d (delimited user_read f).
Proof.
  intros Hf. apply safe_make. intros s0 sub d Hp. apply (pend_run is_ok); [done|done|]. intros r sub' d' Hp'.
  eapply pend_close; [done|auto with reads|]. by destruct r.
Qed.
End decode.

(** The obligations of client code, for callbacks that decode from the stream they are given. *)
Definition decoder_contract (descriptors : Z -> list pb_field_t)
    (decode_callback : Z -> pb_field_t -> Z -> D unit)
    (extension_decode : Z -> Z -> Z -> Z -> D unit) : Prop :=
  (forall p, Forall (fun f => 0 <= data_size f) (descriptors p)) /\
  (forall p f a, safe_d (decode_callback p f a)) /\
  (forall p e t w, safe_d (extension_decode p e t w)).

(** [f] on a buffer takes [n] of its first [bufsize] bytes, in order, and nothing behind them; if
    it succeeds, [n] is what the stream reports as consumed. *)
Definition reads_inside (f : D unit) (buf : list Z) (bufsize : Z) (w : world) : Prop :=
  let '(r, d) := f (DState (pb_istream_from_buffer buf bufsize) w) in
  exists n, 0 <= n <= bufsize /\ state (strm d) = drop (Z.to_nat n) buf /\
    0 <= bytes_left (strm d) <= bufsize - n /\ (r = Some tt -> bytes_left (strm d) = bufsize - n).

(** C21: Decoding a message never reads behind the input it was given.  For every input, message
    type, destination and heap, [pb_decode], [pb_decode_noinit] and [pb_decode_delimited] on a
    buffer, with all nested submessages, packed arrays, strings, skipped fields, callbacks and
    extensions, consume a prefix of the first [bufsize] bytes, and after a success the count of
    bytes left agrees with the position.  Client callbacks are trusted to do the same with the
    substreams they are handed. *)
Theorem pb_decode_reads_inside descriptors user_read decode_callback extension_decode available depth fields dest
    buf bufsize w :
  decoder_contract descriptors decode_callback extension_decode -> 0 <= bufsize < 2 ^ 64 ->
  reads_inside (pb_decode descriptors user_read decode_callback extension_decode available depth fields dest) buf bufsize w /\
  reads_inside (pb_decode_noinit descriptors user_read decode_callback extension_decode available depth fields dest)
    buf bufsize w /\
  reads_inside (pb_decode_delimited descriptors user_read decode_callback extension_decode available depth fields dest)
    buf bufsize w.
Proof.
  intros (Hd & Hcb & Hext) Hb.
  assert (Hin : forall f : D unit, safe_d f -> reads_inside f buf bufsize w).
  { intros f Hf. specialize (Hf (DState (pb_istream_from_buffer buf bufsize) w) (conj eq_refl Hb)).
    unfold reads_inside. destruct (f _) as [r d]. destruct Hf as (_ & n & Hn & Hs & Hl & He). exists n. cbn in *.
    split; [lia|]. split; [done|]. split; [done|]. intros ->. by apply He. }
  destruct (safe_all descriptors user_read decode_callback extension_decode available Hd Hcb Hext depth fields dest)
    as [H1 H2].
  split; [by apply Hin|]. split; [by apply Hin|]. apply Hin. by apply safe_delimited.
Qed.

Lemma pb_decode_reads_inside_witness :
  decoder_contract descs (fun _ _ _ => fail) (fun _ _ _ _ => fail) /\
  reads_inside (pb_decode descs (fun _ => fail) (fun _ _ _ => fail) (fun _ _ _ _ => fail) (fun _ _ => true) 3 outer_at 100)
    [8; 5; 18; 2; 8; 7; 99] 6 (World ∅ ∅ 5000 false).
Proof.
  assert (H : decoder_contract descs (fun _ _ _ => fail) (fun _ _ _ _ => fail)).
  { split; [|split; intros; apply safe_d_fail].
    intros p. eapply Forall_impl; [apply descs_ok|]. intros f [Hf _]. lia. }
  split; [exact H|].
  exact (proj1 (pb_decode_reads_inside descs (fun _ => fail) (fun _ _ _ => fail) (fun _ _ _ _ => fail) (fun _ _ => true)
    3 outer_at 100 [8; 5; 18; 2; 8; 7; 99] 6 (World ∅ ∅ 5000 false) H ltac:(lia))).
Defined.

(** ** What is written *)

(** Memory outside [lo, hi) and the allocations stay as they are. *)
Definition only_writes (lo hi : Z) (w w' : world) : Prop :=
  (forall a, a < lo \/ hi <= a -> memory w' !! a = memory w !! a) /\
  blocks w' = blocks w /\ brk w' = brk w /\ bad_free w' = bad_free w.

Lemma only_writes_refl lo hi w : only_writes lo hi w w.
Proof. done. Qed.

Lemma only_writes_trans lo hi w w1 w2 : only_writes lo hi w w1 -> only_writes lo hi w1 w2 -> only_writes lo hi w w2.
Proof.
  intros [H1 E1] [H2 E2]. split; [|intuition congruence]. intros a Ha. by rewrite H2, H1.
Qed.

Lemma store_bytes_outside m p l a : a < p \/ p + len l <= a -> store_bytes m p l !! a = m !! a.
Proof.
  revert m p. induction l as [|b l IH]; intros m p Ha; cbn [store_bytes]; [done|]. rewrite len_cons in Ha.
  pose proof (len_nonneg l). rewrite IH by lia. apply lookup_insert_ne. lia.
Qed.

Lemma only_writes_store lo hi p l w : lo <= p -> p + len l <= hi ->
  only_writes lo hi w (set_memory (store_bytes (memory w) p l) w).
Proof. intros Hp Hl. split; [|done]. intros a Ha. apply store_bytes_outside. lia. Qed.

Definition writes {A} (lo hi : Z) (f : D A) : Prop := forall d, only_writes lo hi (wld d) (wld (f d).2).

Lemma writes_on_stream {A} lo hi (f : M pb_istream_t A) : writes lo hi (on_stream f).
Proof. intros d. unfold on_stream. by destruct (f (strm d)). Qed.
Lemma writes_derror {A} lo hi msg : writes lo hi (@derror A msg).
Proof. apply writes_on_stream. Qed.
Lemma writes_ret {A} lo hi (a : A) : writes lo hi (ret a).
Proof. done. Qed.
Lemma writes_bind {A B} lo hi (f : D A) (g : A -> D B) :
  writes lo hi f -> (forall a, writes lo hi (g a)) -> writes lo hi (bind f g).
Proof.
  intros Hf Hg d. specialize (Hf d). unfold bind. destruct (f d) as [[a|] d1]; [|done].
  eapply only_writes_trans; [done|apply Hg].
Qed.
Lemma writes_if {A} lo hi (b : bool) (f g : D A) : writes lo hi f -> writes lo hi g -> writes lo hi (if b then f else g).
Proof. by destruct b. Qed.
Lemma writes_store lo hi p (v : mem -> list Z) : lo <= p -> (forall m, p + len (v m) <= hi) ->
  writes lo hi (on_memory (fun m => store_bytes m p (v m))).
Proof. intros Hp Hv d. by apply only_writes_store. Qed.

Create HintDb writes.
#[export] Hint Resolve writes_on_stream writes_derror writes_ret writes_if : writes.

(** A read value with what is known of it. *)
Lemma writes_read {A B} lo hi (f : M pb_istream_t A) (P : A -> Prop) (g : A -> D B) :
  (forall s a s', f s = (Some a, s') -> P a) -> (forall a, P a -> writes lo hi (g a)) ->
  writes lo hi (bind (on_stream f) g).
Proof.
  intros HP Hg d. unfold bind, on_stream. destruct (f (strm d)) as [[a|] s] eqn:E; [|done].
  apply (Hg a (HP _ _ _ E) (DState s (wld d))).
Qed.

Section writes.
Context (user_read : Z -> M pb_istream_t (list Z)) (available : world -> Z -> bool).
Context (dec noinit : Z -> Z -> D unit).
(** A client's stream returns no more than it is asked for. *)
Context (Huser : forall n s l s', user_read n s = (Some l, s') -> len l <= n).

Lemma read_len n s l s' : 0 <= n -> pb_read user_read n s = (Some l, s') -> len l <= n.
Proof.
  intros Hn. unfold pb_read, ret, read_checked, call_read, buf_read, ierror.
  destruct (n =? 0); [intros; simplify_eq; rewrite len_nil; lia|]. destruct (_ <? _); [done|]. destruct (is_buffer s).
  - intros ?. simplify_eq. unfold len. rewrite length_take. lia.
  - destruct (user_read n s) as [[l'|] s1] eqn:E; [|done]. intros. simplify_eq. by eapply Huser.
Qed.

Lemma varint32_bound s v s' : pb_decode_varint32 user_read s = (Some v, s') -> 0 <= v < 2 ^ 32.
Proof.
  unfold pb_decode_varint32, pb_decode_varint32_eof.
  destruct (pb_readbyte user_read s) as [[b|] s1] eqn:E; [|done].
  assert (Hb : 0 <= b < 256).
  { unfold pb_readbyte in E. destruct (_ =? 0); [done|]. destruct (call_read _ _ _) as [[l|] s2]; [|done].
    simplify_eq. apply u8_byte. }
  destruct (_ =? 0); [intros; simplify_eq; lia|].
  pose proof (varint32_loop_range user_read (rounds s1) 7 (b &. 0x7F) s1) as Hv.
  destruct (varint32_loop _ _ _ _ s1) as [[r|] s2]; [|done]. intros. simplify_eq. apply Hv. rewrite land_127.
  pose proof (Z.mod_pos_bound b 128). lia.
Qed.

Lemma store_checked_writes sg f dest v : writes dest (dest + data_size f) (store_checked sg f dest v).
Proof.
  assert (Hput : forall n (k : D unit), data_size f = Z.of_nat n -> writes dest (dest + data_size f) k ->
    writes dest (dest + data_size f) (on_memory (fun m => store n m dest (v mod 2 ^ (8 * Z.of_nat n))) ;;; k)).
  { intros n k Hn Hk. apply writes_bind; [|done]. apply writes_store; [lia|]. intros _. unfold len.
    rewrite le_bytes_length. lia. }
  unfold store_checked. cbv zeta.
  destruct (Z.eqb_spec (data_size f) 8) as [E|_]; [apply (Hput 8%nat); auto with writes|].
  destruct (Z.eqb_spec (data_size f) 4) as [E|_]; [apply (Hput 4%nat); auto with writes|].
  destruct (Z.eqb_spec (data_size f) 2) as [E|_]; [apply (Hput 2%nat); auto with writes|].
  destruct (Z.eqb_spec (data_size f) 1) as [E|_]; [apply (Hput 1%nat); auto with writes|].
  apply writes_derror.
Qed.

Lemma fixed_writes n dest (f : M pb_istream_t (list Z)) (v : list Z -> Z) :
  writes dest (dest + Z.of_nat n) (let* bytes := on_stream f in on_memory (fun m => store n m dest (v bytes))).
Proof.
  apply writes_bind; [apply writes_on_stream|]. intros l. apply writes_store; [lia|]. intros _. unfold len.
  by rewrite le_bytes_length.
Qed.

Lemma bool_writes dest : writes dest (dest + 1) (pb_dec_bool user_read dest).
Proof.
  apply writes_bind; [apply writes_on_stream|]. intros v. apply writes_store; [lia|]. intros _. unfold len.
  by rewrite le_bytes_length.
Qed.

Lemma bytes_writes f dest : PB_ATYPE (type f) = PB_ATYPE_STATIC ->
  writes dest (dest + data_size f) (pb_dec_bytes user_read available f dest).
Proof.
  intros Hs. unfold pb_dec_bytes. eapply writes_read; [apply varint32_bound|]. intros v Hv. cbn beta in Hv. cbv zeta. rewrite Hs.
  change (PB_ATYPE_STATIC =? PB_ATYPE_POINTER) with false. cbv iota. unfold PB_BYTES_ARRAY_T_ALLOCSIZE, offsetof_bytes.
  rewrite u64_id by lia. apply writes_if; [apply writes_derror|]. apply writes_if; [apply writes_derror|].
  destruct (Z.ltb_spec (data_size f) (v + 4)); [intros d; by apply (writes_derror (A:=unit))|].
  change (writes dest (dest + data_size f) (on_memory (fun m => store_size m dest v) ;;;
    let* bytes := on_stream (pb_read user_read v) in on_memory (fun m => store_bytes m (dest + 4) bytes))).
  apply writes_bind.
  - apply writes_store; [lia|]. intros _. unfold len. rewrite le_bytes_length. lia.
  - intros []. eapply writes_read; [intros *; apply read_len; lia|]. intros l Hl. cbn beta in Hl. apply writes_store; [lia|]. intros _. lia.
Qed.

Lemma string_writes f dest : PB_ATYPE (type f) = PB_ATYPE_STATIC -> data_size f < 2 ^ 32 ->
  writes dest (dest + data_size f) (pb_dec_string user_read available f dest).
Proof.
  intros Hs Hsz. unfold pb_dec_string. eapply writes_read; [apply varint32_bound|]. intros v Hv. cbn beta in Hv. cbv zeta. rewrite Hs.
  change (PB_ATYPE_STATIC =? PB_ATYPE_POINTER) with false. cbv iota.
  destruct (Z.ltb_spec (u32 (v + 1)) v) as [_|Hv1]; [apply writes_derror|].
  assert (E : u32 (v + 1) = v + 1) by ulia. rewrite E.
  destruct (Z.ltb_spec (data_size f) (v + 1)); [intros d; by apply (writes_derror (A:=unit))|].
  intros d. unfold bind at 1. cbn [ret].
  assert (Hr : writes dest (dest + data_size f)
    (let* bytes := on_stream (pb_read user_read v) in on_memory (fun m => store_bytes m dest bytes))).
  { eapply writes_read; [intros *; apply read_len; lia|]. intros l Hl. cbn beta in Hl. apply writes_store; [lia|]. intros _. lia. }
  specialize (Hr d). unfold ret. destruct (bind _ _ d) as [r d'].
  eapply only_writes_trans; [exact Hr|]. unfold bind. cbn.
  destruct r; cbn; apply (only_writes_store _ _ (dest + v) [0]); rewrite ?len_cons, ?len_nil; lia.
Qed.

Lemma fixed_length_writes f dest : 0 <= data_size f ->
  writes dest (dest + data_size f) (pb_dec_fixed_length_bytes user_read f dest).
Proof.
  intros Hsz. unfold pb_dec_fixed_length_bytes. apply writes_bind; [apply writes_on_stream|]. intros v.
  apply writes_if; [apply writes_derror|]. apply writes_if.
  - apply writes_store; [lia|]. intros _. unfold len. rewrite repeat_length. lia.
  - apply writes_if; [apply writes_derror|]. eapply writes_read; [intros *; by apply read_len|].
    intros l Hl. cbn beta in Hl. apply writes_store; [lia|]. intros _. lia.
Qed.
End writes.

(** A static field that is no submessage, with the size the generator gives it. *)
Definition flat_field (f : pb_field_t) : Prop :=
  PB_ATYPE (type f) = PB_ATYPE_STATIC /\ 0 <= data_size f < 2 ^ 32 /\
  (scalar_field f \/ PB_LTYPE (type f) = PB_LTYPE_BYTES \/ PB_LTYPE (type f) = PB_LTYPE_STRING \/
   PB_LTYPE (type f) = PB_LTYPE_FIXED_LENGTH_BYTES).

(** C23: A static field is decoded into its own storage.  Whatever the input, well-formed or not,
    from a buffer or from a client's stream that returns no more than it is asked for, the
    decoder of a scalar, bytes, string or fixed-length bytes field writes between its destination
    and the destination plus the field's size and nowhere else, and it allocates nothing. *)
Theorem pb_static_writes_inside user_read available dec noinit f dest d :
  (forall n s l s', user_read n s = (Some l, s') -> len l <= n) -> flat_field f ->
  only_writes dest (dest + data_size f) (wld d)
    (wld (PB_DECODERS user_read available dec noinit (PB_LTYPE (type f)) f dest d).2).
Proof.
  intros Hu (Hs & Hsz & Ht). unfold scalar_field in Ht.
  destruct Ht as [[[-> E]|[[[->|[-> | ->]] _]|[[-> E]|[-> E]]]]|[->|[-> | ->]]].
  - rewrite E. apply bool_writes.
  - apply (writes_bind _ _ _ _ (writes_on_stream _ _ _)). intros v. cbv zeta. apply store_checked_writes.
  - apply (writes_bind _ _ _ _ (writes_on_stream _ _ _)). intros v. apply store_checked_writes.
  - apply (writes_bind _ _ _ _ (writes_on_stream _ _ _)). intros v. apply store_checked_writes.
  - rewrite E. apply (fixed_writes 4).
  - rewrite E. apply (fixed_writes 8).
  - by apply bytes_writes.
  - by apply string_writes; [..|lia].
  - by apply fixed_length_writes; [..|lia].
Qed.

Lemma pb_static_writes_inside_witness :
  let f := PbField 1 PB_LTYPE_STRING 0 0 4 0 0 in
  let d := DState (pb_istream_from_buffer [5; 65; 66; 67; 68; 69] 6) (World ∅ ∅ 5000 false) in
  flat_field f /\
  only_writes 100 104 (wld d) (wld (PB_DECODERS (fun _ => fail) (fun _ _ => true) (fun _ _ => fail) (fun _ _ => fail)
    PB_LTYPE_STRING f 100 d).2).
Proof.
  cbv zeta. assert (H : flat_field (PbField 1 PB_LTYPE_STRING 0 0 4 0 0)).
  { split; [done|]. split; [cbn; lia|]. right; right; left. reflexivity. }
  split; [exact H|].
  exact (pb_static_writes_inside (fun _ => fail) (fun _ _ => true) (fun _ _ => fail) (fun _ _ => fail) _ 100 _
    (fun n s l s' E => ltac:(discriminate E)) H).
Defined.
