(* ===== verification/Ordered.v ===== *)
(** Lexicographic order and codes that preserve it.

    [diverge lt l k]: the lists agree up to a place where [l] has the smaller element.  Byte
    strings that diverge compare the same way whatever is appended to them, which is what a key
    of several items needs of each item's encoding: the class [OrderedCode]. *)
From stdpp Require Import sets.
From S2P Require Import Prelude.

Definition diverge {A} (lt : A -> A -> Prop) (l k : list A) : Prop :=
  exists p a b l' k', l = p ++ a :: l' /\ k = p ++ b :: k' /\ lt a b.

(** The order of strings: the first difference decides, and a proper prefix is smaller. *)
Definition lex {A} (lt : A -> A -> Prop) (l k : list A) : Prop :=
  diverge lt l k \/ exists x m, k = l ++ x :: m.

Definition below : list Z -> list Z -> Prop := diverge Z.lt.
Definition lex_lt : list Z -> list Z -> Prop := lex Z.lt.

(** The comparison, as [memcmp] on the common length and then the lengths compute it. *)
Fixpoint lex_compare (s t : list Z) : comparison :=
  match s, t with
  | [], [] => Eq
  | [], _ :: _ => Lt
  | _ :: _, [] => Gt
  | a :: s, b :: t => match a ?= b with Eq => lex_compare s t | c => c end
  end.

Section diverge.
Context {A : Type} (lt : A -> A -> Prop).

Lemma diverge_here a b l k : lt a b -> diverge lt (a :: l) (b :: k).
Proof. intros. by exists [], a, b, l, k. Qed.

Lemma diverge_app_l p l k : diverge lt l k -> diverge lt (p ++ l) (p ++ k).
Proof.
  intros (q & a & b & l' & k' & -> & -> & H). exists (p ++ q), a, b, l', k'. by rewrite <- !app_assoc.
Qed.

Lemma diverge_cons a l k : diverge lt l k -> diverge lt (a :: l) (a :: k).
Proof. apply (diverge_app_l [a]). Qed.

Lemma diverge_app l k s t : diverge lt l k -> diverge lt (l ++ s) (k ++ t).
Proof.
  intros (q & a & b & l' & k' & -> & -> & H). exists q, a, b, (l' ++ s), (k' ++ t).
  by rewrite <- !app_assoc.
Qed.

Lemma diverge_cons_inv a b l k :
  diverge lt (a :: l) (b :: k) -> lt a b \/ a = b /\ diverge lt l k.
Proof.
  intros ([|c q] & x & y & l' & k' & Hl & Hk & H); simplify_eq/=; [by left|].
  right. split; [done|]. by exists q, x, y, l', k'.
Qed.

Lemma diverge_nil_l k : ~ diverge lt [] k.
Proof. by intros ([|] & ? & ? & ? & ? & ? & ? & ?). Qed.
Lemma diverge_nil_r l : ~ diverge lt l [].
Proof. by intros ([|] & ? & ? & ? & ? & ? & ? & ?). Qed.

(** Two lists diverge, or one continues the other. *)
Lemma diverge_total l k : (forall a b, a ∈ l -> b ∈ k -> lt a b \/ a = b \/ lt b a) ->
  diverge lt l k \/ diverge lt k l \/ l `prefix_of` k \/ k `prefix_of` l.
Proof.
  revert k. induction l as [|a l IH]; intros k Ht; [right; right; left; apply prefix_nil|].
  destruct k as [|b k]; [right; right; right; apply prefix_nil|].
  destruct (Ht a b) as [H|[->|H]]; [set_solver|set_solver|left; by apply diverge_here| |right; left; by apply diverge_here].
  destruct (IH k) as [H|[H|[H|H]]]; [set_solver|left|right; left|right; right; left|right; right; right];
    auto using diverge_cons, prefix_cons.
Qed.

Context (irrefl : forall a, ~ lt a a) (trans : forall a b c, lt a b -> lt b c -> lt a c).

Lemma diverge_asym l k : diverge lt l k -> ~ diverge lt k l.
Proof.
  revert k. induction l as [|a l IH]; intros k H H'; [by apply diverge_nil_l in H|].
  destruct k as [|b k]; [by apply diverge_nil_r in H|].
  apply diverge_cons_inv in H as [H|[-> H]], H' as [H'|[? H']]; subst.
  - by eapply irrefl, trans.
  - by eapply irrefl.
  - by eapply irrefl.
  - by eapply IH.
Qed.

Lemma diverge_no_prefix l k : diverge lt l k -> ~ l `prefix_of` k /\ ~ k `prefix_of` l.
Proof.
  intros (p & a & b & l' & k' & -> & -> & H).
  split; intros [m Hm]; rewrite <- app_assoc in Hm; apply (inj (app p)) in Hm; simplify_eq/=;
    by eapply irrefl.
Qed.
End diverge.

Lemma Zlt_irrefl a : ~ a < a.
Proof. lia. Qed.

Lemma below_no_prefix s t : below s t -> ~ s `prefix_of` t /\ ~ t `prefix_of` s.
Proof. apply diverge_no_prefix, Zlt_irrefl. Qed.

Lemma below_neq s t : below s t -> s <> t.
Proof. intros H ->. by apply below_no_prefix in H as [[] _]. Qed.

Lemma below_asym s t : below s t -> ~ below t s.
Proof. apply diverge_asym; lia. Qed.

Lemma below_lex s t : below s t -> lex_lt s t.
Proof. by left. Qed.

Lemma lex_not_below s t : lex_lt s t -> ~ below t s.
Proof.
  intros [H|(x & m & ->)] H'; [by apply below_asym in H|]. apply below_no_prefix in H' as [_ []]. by exists (x :: m).
Qed.

Lemma lex_app p s t : lex_lt (p ++ s) (p ++ t) <-> lex_lt s t.
Proof.
  split.
  - intros [H|(x & m & E)]; [left|right].
    + induction p as [|c p IH]; [done|]. apply IH. apply diverge_cons_inv in H as [H|[_ H]]; [lia|done].
    + exists x, m. rewrite <- app_assoc in E. by apply (inj (app p)) in E.
  - intros [H|(x & m & ->)]; [left; by apply diverge_app_l|right]. exists x, m. by rewrite app_assoc.
Qed.

(** ** Codes *)

(** [enc] maps smaller items to strings that stay smaller whatever follows. *)
Class OrderedCode {A} (ok : A -> Prop) (lt : A -> A -> Prop) (enc : A -> list Z) : Prop := {
  code_below x y : ok x -> ok y -> lt x y -> below (enc x) (enc y);
  code_total x y : ok x -> ok y -> lt x y \/ x = y \/ lt y x;
}.

Section code.
Context {A : Type} {ok : A -> Prop} {lt : A -> A -> Prop} {enc : A -> list Z} `{!OrderedCode ok lt enc}.

Lemma code_lt_iff x y : ok x -> ok y -> lt x y <-> below (enc x) (enc y).
Proof.
  intros Hx Hy. split; [by apply code_below|]. intros H.
  destruct (code_total x y Hx Hy) as [|[->|Hl]]; [done|by apply below_neq in H|].
  by apply (code_below y x Hy Hx), below_asym in Hl.
Qed.

(** No code word begins another. *)
Lemma code_prefix x y s t : ok x -> ok y -> enc x ++ s = enc y ++ t -> x = y /\ s = t.
Proof.
  intros Hx Hy E. destruct (code_total x y Hx Hy) as [Hl|[->|Hl]].
  - apply (code_below x y Hx Hy) in Hl. by apply (diverge_app _ _ _ s t), below_neq in Hl.
  - by apply (inj (app (enc y))) in E.
  - apply (code_below y x Hy Hx) in Hl. by apply (diverge_app _ _ _ t s), below_neq in Hl.
Qed.

Definition encs (l : list A) : list Z := concat (map enc l).

Lemma encs_cons x l : encs (x :: l) = enc x ++ encs l.
Proof. done. Qed.

Lemma encs_app l k : encs (l ++ k) = encs l ++ encs k.
Proof. unfold encs. by rewrite map_app, concat_app. Qed.

Lemma encs_below l k : Forall ok l -> Forall ok k -> diverge lt l k -> below (encs l) (encs k).
Proof.
  intros Hl Hk (p & a & b & l' & k' & -> & -> & H). rewrite !encs_app, !encs_cons.
  apply Forall_app in Hl as [_ Hl], Hk as [_ Hk]. apply Forall_cons in Hl as [Ha _], Hk as [Hb _].
  apply diverge_app_l, diverge_app. by apply code_below.
Qed.

Hypothesis nonempty : forall x, ok x -> enc x <> [].

Lemma encs_nil_inv l : Forall ok l -> encs l = [] -> l = [].
Proof.
  destruct l as [|x l]; [done|]. intros Hl E. apply Forall_cons in Hl as [Hx _].
  rewrite encs_cons in E. apply app_eq_nil in E as [E _]. by apply nonempty in E.
Qed.

(** The encodings of sequences are prefixes as the sequences are. *)
Lemma encs_prefix l k : Forall ok l -> Forall ok k -> encs l `prefix_of` encs k <-> l `prefix_of` k.
Proof.
  intros Hl Hk. split.
  - revert k Hk. induction Hl as [|x l Hx Hl IH]; intros k Hk [s Hs]; [apply prefix_nil|].
    destruct Hk as [|y k Hy Hk].
    + rewrite encs_cons, <- app_assoc in Hs. symmetry in Hs. apply app_eq_nil in Hs as [E _].
      by apply nonempty in E.
    + rewrite !encs_cons, <- app_assoc in Hs. apply code_prefix in Hs as [-> Hs]; [|done..].
      apply prefix_cons. apply IH; [done|]. by exists s.
  - intros [m ->]. exists (encs m). apply encs_app.
Qed.

Lemma encs_inj l k : Forall ok l -> Forall ok k -> encs l = encs k -> l = k.
Proof.
  intros Hl Hk E. assert (H : l `prefix_of` k) by (apply encs_prefix; [done..|by rewrite E]).
  assert (H' : k `prefix_of` l) by (apply encs_prefix; [done..|by rewrite E]).
  destruct H as [m ->], H' as [m' H']. rewrite <- app_assoc in H'.
  rewrite <- (app_nil_r l) in H' at 1. apply (inj (app l)) in H'. symmetry in H'.
  apply app_eq_nil in H' as [-> _]. by rewrite app_nil_r.
Qed.
End code.
Arguments encs {A} enc l.

(** ** Big-endian numbers *)

Lemma be_bytes_app n m v : be_bytes (n + m) v = be_bytes n (v / 256 ^ Z.of_nat m) ++ be_bytes m v.
Proof.
  unfold be_bytes. rewrite <- rev_app_distr. f_equal. revert v. induction m as [|m IH]; intros v.
  - rewrite Nat.add_0_r. cbn [le_bytes app]. by rewrite Z.pow_0_r, Z.div_1_r.
  - rewrite Nat.add_succ_r. cbn [le_bytes app]. rewrite IH. f_equal. f_equal. f_equal.
    rewrite Z.div_div by (try apply Z.pow_pos_nonneg; lia). f_equal.
    rewrite Nat2Z.inj_succ, Z.pow_succ_r by lia. done.
Qed.

Lemma be_bytes_mod n v : be_bytes n (v mod 256 ^ Z.of_nat n) = be_bytes n v.
Proof.
  unfold be_bytes. f_equal. revert v. induction n as [|n IH]; intros v; [done|]. cbn [le_bytes].
  assert (Hp : 256 ^ Z.of_nat (S n) = 256 * 256 ^ Z.of_nat n) by (rewrite Nat2Z.inj_succ, Z.pow_succ_r by lia; done).
  assert (0 < 256 ^ Z.of_nat n) by (apply Z.pow_pos_nonneg; lia). rewrite Hp.
  rewrite Z.rem_mul_r by lia. f_equal.
  - rewrite Z.mul_comm, Z_mod_plus_full. by rewrite Zmod_mod.
  - rewrite Z.mul_comm, Z.div_add, Z.div_small by (try apply Z.mod_pos_bound; lia). apply IH.
Qed.

Lemma be_bytes_below n u v : 0 <= u < v -> v < 256 ^ Z.of_nat n -> below (be_bytes n u) (be_bytes n v).
Proof.
  revert u v. induction n as [|n IH]; intros u v Hu Hv; [cbn in Hv; lia|].
  replace (S n) with (1 + n)%nat by lia. rewrite !be_bytes_app.
  assert (Hp : 0 < 256 ^ Z.of_nat n) by (apply Z.pow_pos_nonneg; lia).
  rewrite Nat2Z.inj_succ, Z.pow_succ_r in Hv by lia.
  pose proof (Z.div_mod u (256 ^ Z.of_nat n) ltac:(lia)). pose proof (Z.div_mod v (256 ^ Z.of_nat n) ltac:(lia)).
  pose proof (Z.mod_pos_bound u (256 ^ Z.of_nat n) Hp). pose proof (Z.mod_pos_bound v (256 ^ Z.of_nat n) Hp).
  assert (Hb : forall w, 0 <= w < 256 * 256 ^ Z.of_nat n -> 0 <= w / 256 ^ Z.of_nat n < 256).
  { intros w Hw. split; [apply Z.div_pos; lia|apply Z.div_lt_upper_bound; lia]. }
  pose proof (Hb u ltac:(lia)). pose proof (Hb v ltac:(lia)).
  set (qu := u / 256 ^ Z.of_nat n) in *. set (qv := v / 256 ^ Z.of_nat n) in *.
  assert (Hone : forall q, 0 <= q < 256 -> be_bytes 1 q = [q]) by (intros q Hq; cbn; by rewrite Z.mod_small).
  rewrite !Hone by done. destruct (decide (qu < qv)) as [Hlt|]; [by apply diverge_here|].
  assert (qu = qv) as -> by nia. apply diverge_cons.
  rewrite <- (be_bytes_mod n u), <- (be_bytes_mod n v). apply IH; nia.
Qed.
