(* ===== verification/OrderedCode.v ===== *)
(** Firestore's ordered code (Firestore/core/src/util/ordered_code.cc and .h, with bits.h): items
    written to a string so that the bytes compare the way the items do.

    A [std::string] or [string_view] is the list of its characters, each the [unsigned char] it
    converts to; [char] is signed on the target, and where the code converts one to a wider type
    [sint 8] reads it.  [HARD_ASSERT] is never compiled out: a computation whose assertion fails
    aborts, which is [fail] here, so that a reader has three outcomes: it aborts, it returns
    [false] (an inner [None]), or it returns a value.  What a reader that returns [false] has
    appended to [*result] is undefined by the header and not modelled. *)
From S2P Require Import Prelude.

Definition kEscape1 : Z := 0x00.
Definition kNullCharacter : Z := 0xff.
Definition kSeparator : Z := 0x01.
Definition kEscape2 : Z := 0xff.
Definition kInfinity : Z := 0xff.
Definition kFFCharacter : Z := 0x00.
Definition kEscape1_Separator : list Z := [kEscape1; kSeparator].

(** [Convert<INVERT>] on [w] bits. *)
Definition Convert (w : Z) (INVERT : bool) (x : Z) : Z :=
  if INVERT then Z.lnot x mod 2 ^ w else x.
Definition Convert_pair (INVERT : bool) (a b : Z) : Z := Convert 16 INVERT (a |. (b << 8)).

(** Unaligned accesses of [n] bytes. *)
Definition UNALIGNED_LOAD (n : nat) (p : list Z) : Z := le_value (take n p).
Definition UNALIGNED_STORE (n off : nat) (v : Z) (dst : list Z) : list Z :=
  take off dst ++ le_bytes n v ++ drop (off + n) dst.

(** ** Copying *)

Section copy.
Context (INVERT : bool).

(** [UNALIGNED_STORE(dst + off, Convert<INVERT>(UNALIGNED_LOAD(src + off)))] *)
Definition copy_word (n off : nat) (src dst : list Z) : list Z :=
  UNALIGNED_STORE n off (Convert (8 * Z.of_nat n) INVERT (UNALIGNED_LOAD n (drop off src))) dst.

(** [for (done = 0; done < len - 8; done += 8)] *)
Fixpoint copy_words (fuel done len : nat) (src dst : list Z) : list Z :=
  match fuel with
  | O => dst
  | S fuel =>
      if (done <? len - 8)%nat then copy_words fuel (done + 8) len src (copy_word 8 done src dst) else dst
  end.

Definition CopyInvertedBytes (dst src : list Z) (len : nat) : list Z :=
  match len with
  | 0 => dst
  | 1 => copy_word 1 0 src dst
  | 3 => copy_word 2 0 src (copy_word 1 2 src dst)
  | 2 => copy_word 2 0 src dst
  | 5 | 6 | 7 => copy_word 4 0 src (copy_word 4 (len - 4) src dst)
  | 4 => copy_word 4 0 src dst
  | _ => copy_word 8 (len - 8) src (copy_words len 0 len src dst)
  end%nat.

(** The string is resized without initialising the new part, all of which is overwritten. *)
Definition AppendBytes (src : list Z) : M (list Z) unit := fun dest =>
  (Some tt, dest ++ CopyInvertedBytes (replicate (length src) 0) src (length src)).
End copy.

(** [dest->append(s)] *)
Definition append (s : list Z) : M (list Z) unit := fun dest => (Some tt, dest ++ s).

(** ** Finding special bytes *)

Definition IsSpecialByte (c : Z) : bool := u8 (c + 1) <? 2.

(** [(v - 0x01..) & ~(v + 0x01..) & 0x80..] on a word of [n] bytes. *)
Definition repeat_byte (n : nat) (b : Z) : Z := le_value (replicate n b).
Definition special_bits (n : nat) (v : Z) : Z :=
  let w := 8 * Z.of_nat n in
  ((v - repeat_byte n 0x01) mod 2 ^ w)
  &. (Z.lnot ((v + repeat_byte n 0x01) mod 2 ^ w) mod 2 ^ w)
  &. repeat_byte n 0x80.

Definition AdvanceIfNoSpecialBytes (v_32 : Z) (p : list Z) : option nat :=
  let special i := IsSpecialByte (nth i p 0) in
  if negb (UNALIGNED_LOAD 4 p =? v_32) then None
  else if negb (special_bits 4 v_32 =? 0) then
    if special 0%nat || special 1%nat || special 2%nat || special 3%nat then Some 0%nat else None
  else if negb (special 0%nat) && negb (special 1%nat) && negb (special 2%nat) && negb (special 3%nat)
  then Some 4%nat else None.

(** [while (p < limit && !IsSpecialByte( *p)) p++] *)
Fixpoint skip_bytes (p : list Z) : nat :=
  match p with
  | [] => 0
  | c :: p => if IsSpecialByte c then 0 else S (skip_bytes p)
  end.

(** [p] is what lies between the pointer and [limit]; the result is how far the pointer moves. *)
Fixpoint skip_words (fuel : nat) (p : list Z) : option nat :=
  match fuel with
  | O => None
  | S fuel =>
      if (8 <=? length p)%nat then
        let v := UNALIGNED_LOAD 8 p in
        if special_bits 8 v =? 0 then Nat.add 8 <$> skip_words fuel (drop 8 p)
        else
          match AdvanceIfNoSpecialBytes (u32 v) p with
          | None => None
          | Some n =>
              let special i := IsSpecialByte (nth i (drop n p) 0) in
              if special 0%nat then Some n
              else if special 1%nat then Some (n + 1)%nat
              else if special 2%nat then Some (n + 2)%nat
              else if special 3%nat then Some (n + 3)%nat else None
          end
      else
        let four := if (4 <=? length p)%nat then AdvanceIfNoSpecialBytes (UNALIGNED_LOAD 4 p) p else Some 0%nat in
        match four with
        | None => None
        | Some n => Some (n + skip_bytes (drop n p))%nat
        end
  end.

Definition SkipToNextSpecialByte (p : list Z) : option nat := skip_words (S (length p)) p.

(** ** Strings *)

(** The loop; [copy_start] and [p] are the same at its top. *)
Fixpoint encode_fragment_loop (fuel : nat) (INVERT : bool) (p : list Z) : M (list Z) unit :=
  match fuel with
  | O => fail
  | S fuel =>
      let* n := lift (SkipToNextSpecialByte p) in
      if (length p <=? n)%nat then
        if (0 <? n)%nat then AppendBytes INVERT (take n p) else ret tt
      else
        let c := nth n p 0 in
        check (IsSpecialByte c) ;;;
        AppendBytes INVERT (take n p) ;;;
        append [Convert 8 INVERT c; Convert 8 (negb INVERT) c] ;;;
        encode_fragment_loop fuel INVERT (drop (S n) p)
  end.

Definition EncodeStringFragment (INVERT : bool) (s : list Z) : M (list Z) unit :=
  if (length s =? 0)%nat then ret tt else encode_fragment_loop (S (length s)) INVERT s.

Definition WriteString (s : list Z) : M (list Z) unit :=
  EncodeStringFragment false s ;;; AppendBytes false kEscape1_Separator.
Definition WriteStringDecreasing (s : list Z) : M (list Z) unit :=
  EncodeStringFragment true s ;;; AppendBytes true kEscape1_Separator.

(** The loop at the pointer [p] (an index into [src]); [result] is what was decoded so far. *)
Fixpoint read_string_loop (fuel : nat) (INVERT : bool) (p : nat) (result : list Z)
    : M (list Z) (option (list Z)) :=
  match fuel with
  | O => fail
  | S fuel => fun src =>
      let limit := (length src - 1)%nat in
      (let* n := lift (SkipToNextSpecialByte (drop p (take limit src))) in
       let copy_start := p in
       let p := (p + n)%nat in
       if (limit <=? p)%nat then ret None
       else
         check (IsSpecialByte (nth p src 0)) ;;;
         let result := (AppendBytes INVERT (take n (drop copy_start src)) result).2 in
         let seq := UNALIGNED_LOAD 2 (drop p src) in
         if seq =? Convert_pair INVERT kEscape1 kSeparator then
           put_state (drop (p + 2) src) ;;; ret (Some result)
         else if seq =? Convert_pair INVERT kEscape1 kNullCharacter then
           read_string_loop fuel INVERT (p + 2) (result ++ [0x00])
         else if seq =? Convert_pair INVERT kEscape2 kFFCharacter then
           read_string_loop fuel INVERT (p + 2) (result ++ [0xff])
         else ret None) src
  end.

Definition ReadStringInternal (INVERT : bool) : M (list Z) (option (list Z)) := fun src =>
  read_string_loop (S (length src)) INVERT 0 [] src.

Definition ReadString : M (list Z) (option (list Z)) := ReadStringInternal false.
Definition ReadStringDecreasing : M (list Z) (option (list Z)) := ReadStringInternal true.

Definition WriteInfinityInternal (INVERT : bool) : M (list Z) unit :=
  append [Convert 8 INVERT kEscape2; Convert 8 INVERT kInfinity].
Definition WriteInfinity : M (list Z) unit := WriteInfinityInternal false.
Definition WriteInfinityDecreasing : M (list Z) unit := WriteInfinityInternal true.
Definition WriteTrailingString (str : list Z) : M (list Z) unit := append str.

Definition ReadInfinityInternal (INVERT : bool) : M (list Z) bool := fun src =>
  if (2 <=? length src)%nat && (nth 0 src 0 =? Convert 8 INVERT kEscape2)
     && (nth 1 src 0 =? Convert 8 INVERT kInfinity)
  then (Some true, drop 2 src) else (Some false, src).
Definition ReadInfinity : M (list Z) bool := ReadInfinityInternal false.
Definition ReadInfinityDecreasing : M (list Z) bool := ReadInfinityInternal true.

(** The string and [*inf]. *)
Definition ReadStringOrInfinityInternal (INVERT : bool) : M (list Z) (option (list Z * bool)) :=
  let* infinite := ReadInfinityInternal INVERT in
  if infinite then ret (Some ([], true))
  else
    let* r := (if INVERT then ReadStringDecreasing else ReadString) in
    ret (match r with Some s => Some (s, false) | None => None end).
Definition ReadStringOrInfinity : M (list Z) (option (list Z * bool)) := ReadStringOrInfinityInternal false.
Definition ReadStringOrInfinityDecreasing : M (list Z) (option (list Z * bool)) := ReadStringOrInfinityInternal true.

Definition ReadTrailingString : M (list Z) (option (list Z)) := fun src => (Some (Some src), []).

(** ** Unsigned numbers *)

(** bits.h, by the compiler's builtins: the number of leading zeros of [n], not defined for 0. *)
Definition builtin_clz (w n : Z) : Z := w - 1 - Z.log2 n.
Definition Log2Floor64 (n : Z) : Z := if n =? 0 then -1 else 63 ^. builtin_clz 64 n.
Definition Log2FloorNonZero64 (n : Z) : Z := 63 ^. builtin_clz 64 n.
Definition Log2FloorNonZero (n : Z) : Z := 31 ^. builtin_clz 32 n.

Definition OrderedNumLength (val : Z) : Z :=
  let lg := Log2Floor64 val in
  u32 (lg + 1 + 7) / 8.

(** [src] is the memory from the pointer on. *)
Definition AppendUpto9 (src : list Z) (n : Z) : M (list Z) unit := fun dst =>
  (Some tt, take (length dst + Z.to_nat n) (dst ++ take 9 src)).

(** [char buf[17]], of which the number in network order takes bytes 1 to 8. *)
Definition num_buf (num : Z) : list Z := replicate 1 0 ++ be_bytes 8 num ++ replicate 8 0.

Definition write_num (num : Z) (length : Z) (first : Z) : M (list Z) unit :=
  let start := Z.to_nat (9 - length - 1) in
  let buf := <[start := first]> (num_buf num) in
  AppendUpto9 (drop start buf) (length + 1).

Definition WriteNumIncreasing (num : Z) : M (list Z) unit :=
  let length := OrderedNumLength num in
  write_num num length (u8 length).

Definition WriteNumDecreasing (num : Z) : M (list Z) unit :=
  let length := OrderedNumLength num in
  write_num (u64 (Z.lnot num)) length (u8 (Z.lnot length)).

(** The loops over the payload. *)
Definition read_be (tmp : Z) (bytes : list Z) : Z :=
  fold_left (fun tmp b => u64 (tmp << 8) |. b) bytes tmp.

Definition ReadNumIncreasing : M (list Z) (option Z) := fun src =>
  if len src =? 0 then (Some None, src)
  else
    let n := u64 (sint 8 (nth 0 src 0)) in
    if negb ((0 =? n) || (len src =? 1) || negb (nth 1 src 0 =? 0x00)) then (None, src)
    else if (len src <? u64 (n + 1)) || (8 <? n) then (Some None, src)
    else (Some (Some (read_be 0 (take (Z.to_nat n) (drop 1 src)))), drop (Z.to_nat (n + 1)) src).

Definition ReadNumDecreasing : M (list Z) (option Z) := fun src =>
  if len src =? 0 then (Some None, src)
  else
    let n := u64 (Z.lnot (sint 8 (nth 0 src 0))) in
    if negb ((0 =? n) || (len src =? 1) || negb (nth 1 src 0 =? 0xff)) then (None, src)
    else if (len src <? u64 (n + 1)) || (8 <? n) then (Some None, src)
    else
      let tmp :=
        if negb (n =? 0)
        then u64 (Z.lnot (read_be UINT64_MAX (take (Z.to_nat n) (drop 1 src)))) else 0 in
      (Some (Some tmp), drop (Z.to_nat (n + 1)) src).

(** ** Signed numbers *)

Definition kMaxSigned64Length : Z := 10.

Definition kLengthToHeaderBits : list (Z * Z) :=
  [(0, 0); (0x80, 0); (0xc0, 0); (0xe0, 0); (0xf0, 0); (0xf8, 0); (0xfc, 0); (0xfe, 0);
   (0xff, 0); (0xff, 0x80); (0xff, 0xc0)].

Definition kLengthToMask : list Z :=
  [0; 0x80; 0xc000; 0xe00000; 0xf0000000; 0xf800000000; 0xfc0000000000; 0xfe000000000000;
   0xff00000000000000; 0x8000000000000000; 0].

Definition kBitsToLength : list Z :=
  [1; 1; 1; 1; 1; 1; 1; 2; 2; 2; 2; 2; 2; 2; 3; 3; 3; 3; 3; 3; 3; 4;
   4; 4; 4; 4; 4; 4; 5; 5; 5; 5; 5; 5; 5; 6; 6; 6; 6; 6; 6; 6; 7; 7;
   7; 7; 7; 7; 7; 8; 8; 8; 8; 8; 8; 8; 9; 9; 9; 9; 9; 9; 9; 10].

Definition SignedEncodingLength (n : Z) : Z :=
  nth (Z.to_nat (Log2Floor64 (if n <? 0 then Z.lnot n else n) + 1)) kBitsToLength 0.
Definition SignedEncodingLengthPositive (n : Z) : Z :=
  nth (Z.to_nat (Log2FloorNonZero64 n + 1)) kBitsToLength 0.

(** [begin[i] ^= b] *)
Definition xor_at (i : nat) (b : Z) (l : list Z) : list Z := alter (fun c => c ^. b) i l.

Definition WriteSignedNumIncreasing (num : Z) : M (list Z) unit :=
  let x := if num <? 0 then Z.lnot num else num in
  if x <? 64 then append [u8 (fst (nth 1 kLengthToHeaderBits (0, 0)) ^. num)]
  else
    let sign_byte := if num <? 0 then 0xff else 0x00 in
    let buf := [sign_byte; sign_byte] ++ be_bytes 8 (u64 num) in
    let n := SignedEncodingLengthPositive x in
    check (2 <=? n) ;;;
    let header := nth (Z.to_nat n) kLengthToHeaderBits (0, 0) in
    let begin := drop (Z.to_nat (kMaxSigned64Length - n)) buf in
    append (xor_at 1 header.2 (xor_at 0 header.1 begin)).

(** The length that the first bytes announce; [None] for a header no number has, which returns
    [false], like a string that ends before the header does. *)
Definition signed_length (xor_mask : Z) (src : list Z) : option Z :=
  let masked i := nth i src 0 ^. (xor_mask &. 0xff) in
  let first_byte := masked 0%nat in
  if negb (first_byte =? 0xff) then
    let n := 7 - Log2FloorNonZero (first_byte ^. 0xff) in
    if len src <? n then None else Some n
  else if len src <? 8 then None
  else
    let second_byte := masked 1%nat in
    if 0x80 <=? second_byte then
      if second_byte <? 0xc0 then (if len src <? 9 then None else Some 9)
      else
        let third_byte := masked 2%nat in
        if (second_byte =? 0xc0) && (third_byte <? 0x80) then (if len src <? 10 then None else Some 10)
        else None
    else Some 8.

Definition ReadSignedNumIncreasing : M (list Z) (option Z) := fun src =>
  if len src =? 0 then (Some None, src)
  else
    let xor_mask := if nth 0 src 0 &. 0x80 =? 0 then UINT64_MAX else 0 in
    match signed_length xor_mask src with
    | None => (Some None, src)
    | Some n =>
        let x :=
          if n <? 8 then read_be xor_mask (take (Z.to_nat n) src)
          else be_value (take 8 (drop (Z.to_nat (n - 8)) src)) in
        let x := x ^. nth (Z.to_nat n) kLengthToMask 0 in
        let result := sint 64 x in
        if negb (n =? SignedEncodingLength result) then (None, src)
        else (Some (Some result), drop (Z.to_nat n) src)
    end.

Definition WriteSignedNumDecreasing (num : Z) : M (list Z) unit := WriteSignedNumIncreasing (Z.lnot num).
Definition ReadSignedNumDecreasing : M (list Z) (option Z) :=
  let* r := ReadSignedNumIncreasing in ret (Z.lnot <$> r).

(** ** Doubles, by their bits *)

Definition EncodeDoubleAsInt64 (bits : Z) : Z :=
  let enc := sint 64 bits in
  if enc <? 0 then - 2 ^ 63 - enc else enc.

Definition DecodeDoubleFromInt64 (enc : Z) : Z :=
  u64 (if enc <? 0 then - 2 ^ 63 - enc else enc).

Definition WriteDoubleIncreasing (bits : Z) : M (list Z) unit :=
  WriteSignedNumIncreasing (EncodeDoubleAsInt64 bits).
Definition WriteDoubleDecreasing (bits : Z) : M (list Z) unit :=
  WriteSignedNumDecreasing (EncodeDoubleAsInt64 bits).
Definition ReadDoubleIncreasing : M (list Z) (option Z) :=
  let* r := ReadSignedNumIncreasing in ret (DecodeDoubleFromInt64 <$> r).
Definition ReadDoubleDecreasing : M (list Z) (option Z) :=
  let* r := ReadSignedNumDecreasing in ret (DecodeDoubleFromInt64 <$> r).
