(* ===== verification/OrderedCodeStrings.v ===== *)
(** The strings of [OrderedCode]: copying words is copying bytes, the word-at-a-time search finds
    the first special byte, and the writer and the reader are [escape] and its inverse. *)
From S2P Require Import Prelude Ordered OrderedCode.

(** ** Bytes and their inverses *)

Abbreviation conv := (Convert 8).

Lemma conv_true c : byte c -> conv true c = 255 - c.
Proof. intros Hc. unfold Convert, Z.lnot. unfold byte in Hc. Z.div_mod_to_equations; lia. Qed.

Lemma conv_byte i c : byte c -> byte (conv i c).
Proof. destruct i; intros Hc; [rewrite conv_true by done; unfold byte in *; lia|done]. Qed.

Lemma conv_involutive i c : byte c -> conv i (conv i c) = c.
Proof.
  destruct i; intros Hc; [|done]. rewrite conv_true by (by apply conv_byte). rewrite conv_true by done. lia.
Qed.

Lemma map_conv_byte i l : Forall byte l -> Forall byte (map (conv i) l).
Proof. intros H. apply Forall_fmap. eapply Forall_impl; [exact H|]. intros. by apply conv_byte. Qed.

Lemma map_conv_involutive i l : Forall byte l -> map (conv i) (map (conv i) l) = l.
Proof. induction 1 as [|c l Hc Hl IH]; [done|]. cbn [map]. by rewrite conv_involutive, IH. Qed.

Lemma special_byte c : byte c -> IsSpecialByte c = (c =? 0) || (c =? 255).
Proof.
  intros Hc. unfold IsSpecialByte. apply eqb_prop. revert c Hc.
  apply (byte_forall (fun c => eqb (u8 (c + 1) <? 2) ((c =? 0) || (c =? 255)))). by vm_compute.
Qed.

Lemma special_conv i c : byte c -> IsSpecialByte (conv i c) = IsSpecialByte c.
Proof.
  intros Hc. rewrite !special_byte by (done || by apply conv_byte).
  destruct i; [|done]. rewrite conv_true by done. zcases; done.
Qed.

(** ** Words *)

Lemma word_mod c x : byte c -> (c + 256 * x) mod 256 = c.
Proof. unfold byte. intros. Z.div_mod_to_equations. lia. Qed.

Lemma word_div c x : byte c -> (c + 256 * x) / 256 = x.
Proof. unfold byte. intros. Z.div_mod_to_equations. lia. Qed.

Lemma inverse_byte b : byte b -> byte (255 - b).
Proof. unfold byte. lia. Qed.

Lemma lnot_word b v w : 8 <= w -> byte b ->
  Z.lnot (b + 256 * v) mod 2 ^ w = (255 - b) + 256 * (Z.lnot v mod 2 ^ (w - 8)).
Proof.
  intros Hw Hb. assert (E : Z.lnot (b + 256 * v) = (255 - b) + 256 * Z.lnot v) by (unfold Z.lnot; lia).
  rewrite E. assert (Hp : 0 < 2 ^ (w - 8)) by (apply Z.pow_pos_nonneg; lia).
  replace (2 ^ w) with (256 * 2 ^ (w - 8)) by (change 256 with (2 ^ 8); rewrite <- Z.pow_add_r by lia; f_equal; lia).
  rewrite Z.rem_mul_r by lia. by rewrite word_mod, word_div by (by apply inverse_byte).
Qed.

Lemma le_bytes_convert i l : Forall byte l ->
  le_bytes (length l) (Convert (8 * Z.of_nat (length l)) i (le_value l)) = map (conv i) l.
Proof.
  destruct i; [|intros; by rewrite le_bytes_value, List.map_id].
  induction 1 as [|b l Hb Hl IH]; [done|]. cbn [length le_value map]. rewrite conv_true by done.
  unfold Convert in *. rewrite lnot_word by (done || lia).
  replace (8 * Z.of_nat (S (length l)) - 8) with (8 * Z.of_nat (length l)) by lia.
  cbn [le_bytes]. by rewrite word_mod, word_div, IH by (by apply inverse_byte).
Qed.

(** ** Copying *)

Lemma copy_word_spec i n off src dst : Forall byte src -> (off + n <= length src)%nat ->
  copy_word i n off src dst = take off dst ++ map (conv i) (take n (drop off src)) ++ drop (off + n) dst.
Proof.
  intros Hs Hn. unfold copy_word, UNALIGNED_STORE, UNALIGNED_LOAD.
  assert (E : length (take n (drop off src)) = n) by (rewrite length_take, length_drop; lia).
  rewrite <- (le_bytes_convert i (take n (drop off src))) by auto with bytes. by rewrite E.
Qed.

Lemma copy_word_length i n off src dst : Forall byte src -> (off + n <= length src)%nat ->
  length dst = length src -> length (copy_word i n off src dst) = length src.
Proof.
  intros. rewrite copy_word_spec by done.
  rewrite !length_app, length_map, !length_take, !length_drop. lia.
Qed.

Lemma copy_words_spec i fuel done src dst : Forall byte src -> length dst = length src ->
  (8 <= length src)%nat -> (done <= length src)%nat -> (length src <= fuel + done)%nat ->
  take done dst = map (conv i) (take done src) ->
  let r := copy_words i fuel done (length src) src dst in
  length r = length src /\ take (length src - 8) r = map (conv i) (take (length src - 8) src).
Proof.
  intros Hs. revert done dst. induction fuel as [|fuel IH]; intros done dst Hl H8 Hd Hf Ht; cbn [copy_words].
  - split; [done|]. replace done with (length src) in Ht by lia.
    rewrite !firstn_all2 in Ht by lia. by rewrite Ht, firstn_map.
  - destruct (Nat.ltb_spec done (length src - 8)) as [Hlt|Hge].
    + apply IH; [by rewrite copy_word_length by (done || lia)|lia|lia|lia|].
      rewrite copy_word_spec by (done || lia). rewrite app_assoc, take_app_le, firstn_all2.
      * rewrite Ht, <- map_app. f_equal. apply take_take_drop.
      * rewrite length_app, length_map, !length_take, length_drop. lia.
      * rewrite length_app, length_map, !length_take, length_drop. lia.
    + split; [done|]. apply (f_equal (take (length src - 8))) in Ht.
      rewrite <- firstn_map, !take_take in Ht. by rewrite Nat.min_l, firstn_map in Ht by lia.
Qed.

(** Overlapping words and all: the copy is the source, byte by byte, whatever was there before. *)
Lemma CopyInvertedBytes_spec i dst src : Forall byte src -> length dst = length src ->
  CopyInvertedBytes i dst src (length src) = map (conv i) src.
Proof.
  intros Hs Hl. destruct (decide (8 <= length src)%nat) as [H8|H8].
  - assert (E : CopyInvertedBytes i dst src (length src) =
      copy_word i 8 (length src - 8) src (copy_words i (length src) 0 (length src) src dst)).
    { destruct (length src) as [|[|[|[|[|[|[|[|n]]]]]]]]; try lia. reflexivity. }
    rewrite E. destruct (copy_words_spec i (length src) 0 src dst) as [Hr Ht]; [done|done|lia|lia|lia|done|].
    rewrite copy_word_spec by (done || lia).
    rewrite Ht, (firstn_all2 (n := 8)), (drop_ge _ (_ + 8)), app_nil_r, <- map_app, take_drop by (rewrite ?length_drop; lia). done.
  - repeat (destruct src as [|? src]; cbn [length] in *; try lia);
      repeat (destruct dst as [|? dst]; cbn [length] in *; try lia); try done;
      cbn [length CopyInvertedBytes]; repeat (rewrite copy_word_spec by (done || (cbn [length]; lia)));
      reflexivity.
Qed.

Lemma AppendBytes_spec i src dest : Forall byte src -> AppendBytes i src dest = (Some tt, dest ++ map (conv i) src).
Proof. intros Hs. unfold AppendBytes. by rewrite CopyInvertedBytes_spec by (done || by rewrite length_replicate). Qed.

(** ** The search for special bytes *)

Definition no_special (l : list Z) : bool := forallb (fun c => negb (IsSpecialByte c)) l.

Lemma repeat_byte_S n b : repeat_byte (S n) b = b + 256 * repeat_byte n b.
Proof. done. Qed.

Lemma repeat_byte_range n b : byte b -> 0 <= repeat_byte n b < 2 ^ (8 * Z.of_nat n).
Proof.
  intros Hb. pose proof (le_value_range (replicate n b) (bytes_replicate n b Hb)) as H.
  rewrite len_replicate in H. unfold repeat_byte. by rewrite Z.pow_mul_r by lia.
Qed.

(** The test without the widths, which the mask of high bits makes immaterial. *)
Definition special_bits_Z (n : nat) (v : Z) : Z :=
  (v - repeat_byte n 0x01) &. Z.lnot (v + repeat_byte n 0x01) &. repeat_byte n 0x80.

Lemma special_bits_unbounded n v : special_bits n v = special_bits_Z n v.
Proof.
  unfold special_bits, special_bits_Z. set (w := 8 * Z.of_nat n).
  assert (Hr : 0 <= repeat_byte n 0x80 < 2 ^ w) by (by apply repeat_byte_range).
  apply Z.bits_inj'. intros k Hk. rewrite !Z.land_spec. destruct (Z.ltb_spec k w) as [Hlt|Hge].
  - rewrite !Z.mod_pow2_bits_low, !Z.lnot_spec by lia. by rewrite Z.mod_pow2_bits_low by lia.
  - replace (Z.testbit (repeat_byte n 128) k) with false; [by rewrite !andb_false_r|].
    rewrite <- (Z.mod_small (repeat_byte n 128) (2 ^ w)) by done. symmetry. apply Z.mod_pow2_bits_high. lia.
Qed.

Lemma byte_land a b : byte b -> byte (a &. b).
Proof.
  intros Hb. assert (E : a &. b = (a &. b) mod 2 ^ 8).
  { rewrite <- Z.land_ones by lia. rewrite <- Z.land_assoc, Z.land_ones by lia. by rewrite (Z.mod_small b). }
  rewrite E. apply Z.mod_pos_bound. lia.
Qed.

Lemma land_byte_split a b x y : byte a -> byte b -> (a + 256 * x) &. (b + 256 * y) = (a &. b) + 256 * (x &. y).
Proof.
  intros Ha Hb. assert (Hs : forall c z, byte c -> c + 256 * z = Z.lor (Z.shiftl z 8) c).
  { intros c z Hc. rewrite lor_shiftl_add by (done || lia). lia. }
  rewrite !Hs by done.
  pose proof (byte_land a b Hb) as Hab.
  rewrite Hs by done. apply Z.bits_inj'. intros k Hk.
  rewrite !Z.land_spec, !Z.lor_spec, !Z.shiftl_spec, !Z.land_spec by lia.
  destruct (Z.ltb_spec k 8) as [Hlt|Hge].
  - rewrite !(Z.testbit_neg_r _ (k - 8)) by lia. done.
  - assert (Hh : forall c, byte c -> Z.testbit c k = false).
    { intros c Hc. rewrite <- (Z.mod_small c (2 ^ 8)) by done. apply Z.mod_pow2_bits_high. lia. }
    rewrite !Hh by done. by rewrite !orb_false_r.
Qed.

Lemma lnot_split b v : Z.lnot (b + 256 * v) = (255 - b) + 256 * Z.lnot v.
Proof. unfold Z.lnot. lia. Qed.

Lemma special_bits_step n b v : byte b ->
  special_bits_Z (S n) (b + 256 * v) =
    if IsSpecialByte b
    then 128 + 256 * ((v - repeat_byte n 1 - (if b =? 0 then 1 else 0)) &.
                      Z.lnot (v + repeat_byte n 1 + (if b =? 0 then 0 else 1)) &. repeat_byte n 0x80)
    else 256 * special_bits_Z n v.
Proof.
  intros Hb. unfold special_bits_Z. rewrite !repeat_byte_S, (special_byte b) by done.
  destruct (Z.eqb_spec b 0) as [->|Hb0]; cbn [orb].
  - replace (0 + 256 * v - (1 + 256 * repeat_byte n 1)) with (255 + 256 * (v - repeat_byte n 1 - 1)) by lia.
    replace (0 + 256 * v + (1 + 256 * repeat_byte n 1)) with (1 + 256 * (v + repeat_byte n 1 + 0)) by lia.
    rewrite lnot_split, !land_byte_split by (by vm_compute). done.
  - destruct (Z.eqb_spec b 255) as [->|Hb1].
    + replace (255 + 256 * v - (1 + 256 * repeat_byte n 1)) with (254 + 256 * (v - repeat_byte n 1 - 0)) by lia.
      replace (255 + 256 * v + (1 + 256 * repeat_byte n 1)) with (0 + 256 * (v + repeat_byte n 1 + 1)) by lia.
      rewrite lnot_split, !land_byte_split by (by vm_compute). done.
    + replace (b + 256 * v - (1 + 256 * repeat_byte n 1)) with ((b - 1) + 256 * (v - repeat_byte n 1)) by lia.
      replace (b + 256 * v + (1 + 256 * repeat_byte n 1)) with ((b + 1) + 256 * (v + repeat_byte n 1)) by lia.
      unfold byte in Hb. rewrite lnot_split, !land_byte_split.
      2: by apply byte_land; unfold byte; lia.
      2-4: unfold byte; lia.
      replace ((b - 1) &. (255 - (b + 1)) &. 128) with 0; [done|].
      assert (H : eqb ((b =? 0) || (b =? 255) || ((b - 1) &. (255 - (b + 1)) &. 128 =? 0)) true = true).
      { revert b Hb Hb0 Hb1. intros b Hb _ _. revert b Hb.
        apply (byte_forall (fun b => eqb ((b =? 0) || (b =? 255) || ((b - 1) &. (255 - (b + 1)) &. 128 =? 0)) true)).
        by vm_compute. }
      apply eqb_prop in H. apply Z.eqb_neq in Hb0, Hb1. rewrite Hb0, Hb1 in H. cbn [orb] in H. by apply Z.eqb_eq in H.
Qed.

Lemma special_bits_spec l : Forall byte l -> (special_bits (length l) (le_value l) =? 0) = no_special l.
Proof.
  intros Hl. rewrite special_bits_unbounded. induction Hl as [|b l Hb Hl IH]; [done|].
  cbn [length le_value no_special forallb]. rewrite special_bits_step by done.
  destruct (IsSpecialByte b); cbn [negb andb].
  - apply Z.eqb_neq. lia.
  - fold (no_special l). rewrite <- IH. zcases.
Qed.

Lemma no_special_cons c l : no_special (c :: l) = negb (IsSpecialByte c) && no_special l.
Proof. done. Qed.

Ltac length_cases l :=
  repeat (destruct l as [|? l]; cbn [length] in *; try lia).

Lemma advance_spec p : Forall byte p -> (4 <= length p)%nat ->
  AdvanceIfNoSpecialBytes (UNALIGNED_LOAD 4 p) p = Some (if no_special (take 4 p) then 4 else 0)%nat.
Proof.
  intros Hp Hl. unfold AdvanceIfNoSpecialBytes. rewrite Z.eqb_refl. cbn [negb].
  unfold UNALIGNED_LOAD. pose proof (special_bits_spec (take 4 p) ltac:(auto with bytes)) as H.
  rewrite length_take, Nat.min_l in H by lia. rewrite H. do 4 (destruct p as [|? p]; [cbn [length] in Hl; lia|]).
  cbn [take no_special forallb nth]. by repeat destruct (IsSpecialByte _).
Qed.

Lemma load_low p : Forall byte p -> (8 <= length p)%nat -> u32 (UNALIGNED_LOAD 8 p) = UNALIGNED_LOAD 4 p.
Proof.
  intros Hp Hl. do 8 (destruct p as [|? p]; [cbn [length] in Hl; lia|]).
  repeat (apply Forall_cons in Hp as [? Hp]). unfold UNALIGNED_LOAD. cbn [take le_value]. ulia.
Qed.

Lemma skip_bytes_app l p : no_special l = true -> skip_bytes (l ++ p) = (length l + skip_bytes p)%nat.
Proof.
  induction l as [|c l IH]; [done|]. rewrite no_special_cons. cbn [app skip_bytes length].
  destruct (IsSpecialByte c); [done|]. cbn [negb andb]. intros. by rewrite IH.
Qed.

Lemma skip_four a b c d t : skip_bytes (a :: b :: c :: d :: t) =
  if IsSpecialByte a then 0%nat else if IsSpecialByte b then 1%nat else if IsSpecialByte c then 2%nat
  else if IsSpecialByte d then 3%nat else (4 + skip_bytes t)%nat.
Proof. cbn [skip_bytes]. by repeat destruct (IsSpecialByte _). Qed.

Lemma skip_words_spec fuel p : Forall byte p -> (length p < fuel)%nat -> skip_words fuel p = Some (skip_bytes p).
Proof.
  revert p. induction fuel as [|fuel IH]; intros p Hp Hf; [lia|]. cbn [skip_words].
  destruct (Nat.leb_spec 8 (length p)) as [H8|H8].
  - rewrite load_low by done. unfold UNALIGNED_LOAD at 1.
    pose proof (special_bits_spec (take 8 p) ltac:(auto with bytes)) as Hs.
    rewrite length_take, Nat.min_l in Hs by lia. rewrite Hs.
    rewrite advance_spec by (done || lia). destruct (no_special (take 8 p)) eqn:E.
    + rewrite IH by (auto with bytes; rewrite length_drop; lia). cbn [fmap option_fmap option_map]. f_equal.
      rewrite <- (take_drop 8 p) at 2. by rewrite skip_bytes_app, length_take, Nat.min_l by (done || lia).
    + do 8 (destruct p as [|? p]; [cbn [length] in H8; lia|]). rewrite !skip_four.
      cbn [take no_special forallb] in *.
      destruct (IsSpecialByte z) eqn:E0, (IsSpecialByte z0) eqn:E1, (IsSpecialByte z1) eqn:E2, (IsSpecialByte z2) eqn:E3;
        cbn [negb andb drop nth] in *; rewrite ?E0, ?E1, ?E2, ?E3; try done.
      destruct (IsSpecialByte z3), (IsSpecialByte z4), (IsSpecialByte z5), (IsSpecialByte z6); done.
  - destruct (Nat.leb_spec 4 (length p)) as [H4|H4].
    + rewrite advance_spec by (done || lia). f_equal. destruct (no_special (take 4 p)) eqn:E; [|done].
      pose proof (skip_bytes_app (take 4 p) (drop 4 p) E) as H. by rewrite take_drop, length_take, Nat.min_l in H by lia.
    + done.
Qed.

Lemma skip_spec p : Forall byte p -> SkipToNextSpecialByte p = Some (skip_bytes p).
Proof. intros. apply skip_words_spec; [done|lia]. Qed.

(** What the search finds: a front without special bytes, then the end or a special byte. *)
Lemma skip_bytes_split p :
  no_special (take (skip_bytes p) p) = true /\ (skip_bytes p <= length p)%nat /\
  (skip_bytes p = length p \/
   exists c t, drop (skip_bytes p) p = c :: t /\ IsSpecialByte c = true).
Proof.
  induction p as [|c p (H1 & H2 & H3)]; [auto|]. cbn [skip_bytes]. destruct (IsSpecialByte c) eqn:E.
  - split; [done|]. split; [lia|]. right. eauto.
  - cbn [take drop length]. rewrite no_special_cons, E. split; [done|]. split; [lia|]. destruct H3; [left; lia|by right].
Qed.

(** ** The reference: escaping *)

Definition esc (c : Z) : list Z :=
  if c =? 0 then [kEscape1; kNullCharacter] else if c =? 255 then [kEscape2; kFFCharacter] else [c].
Definition escape (s : list Z) : list Z := concat (map esc s).

Definition string_code (INVERT : bool) (s : list Z) : list Z :=
  map (conv INVERT) (escape s ++ kEscape1_Separator).

Lemma escape_cons c s : escape (c :: s) = esc c ++ escape s.
Proof. done. Qed.

Lemma escape_app s t : escape (s ++ t) = escape s ++ escape t.
Proof. unfold escape. by rewrite map_app, concat_app. Qed.

Lemma escape_plain s : Forall byte s -> no_special s = true -> escape s = s.
Proof.
  induction 1 as [|c s Hc Hs IH]; [done|]. rewrite no_special_cons, special_byte by done.
  rewrite escape_cons. unfold esc. destruct (c =? 0), (c =? 255); try done. cbn. intros. by rewrite IH.
Qed.

Lemma escape_byte s : Forall byte s -> Forall byte (escape s).
Proof.
  induction 1 as [|c s Hc Hs IH]; [constructor|]. rewrite escape_cons. apply Forall_app. split; [|done].
  unfold esc, kEscape1, kEscape2, kNullCharacter, kFFCharacter. destruct (c =? 0), (c =? 255); bytes_lit.
Qed.

Lemma encode_fragment_spec fuel i p dest : Forall byte p -> (length p < fuel)%nat ->
  encode_fragment_loop fuel i p dest = (Some tt, dest ++ map (conv i) (escape p)).
Proof.
  revert p dest. induction fuel as [|fuel IH]; intros p dest Hp Hf; [lia|]. cbn [encode_fragment_loop].
  rewrite skip_spec by done. destruct (skip_bytes_split p) as (Hn & Hl & Hc). unfold bind at 1, lift.
  destruct (Nat.leb_spec (length p) (skip_bytes p)) as [Hge|Hlt].
  - rewrite firstn_all2 in * by lia. rewrite escape_plain by done.
    destruct (Nat.ltb_spec 0 (skip_bytes p)); [by apply AppendBytes_spec|].
    destruct p; [by rewrite app_nil_r|cbn [length] in *; lia].
  - destruct Hc as [|(c & t & Hd & Hc)]; [lia|]. set (n := skip_bytes p) in *.
    assert (Hn' : nth n p 0 = c) by (rewrite <- (Nat.add_0_r n), <- List.nth_skipn, Hd; done). rewrite Hn', Hc.
    assert (Ep : p = take n p ++ c :: t) by (by rewrite <- Hd, take_drop).
    assert (Hbc : byte c) by (rewrite Ep in Hp; apply Forall_app in Hp as [_ Hp]; by apply Forall_cons in Hp as [? _]).
    assert (Ht : drop (S n) p = t) by (change (S n) with (1 + n)%nat; rewrite Nat.add_comm, <- drop_drop, Hd; done).
    unfold bind, check, ret, append. rewrite AppendBytes_spec, Ht by auto with bytes.
    rewrite IH.
    2:{ rewrite Ep in Hp. apply Forall_app in Hp as [_ Hp]. by apply Forall_cons in Hp as [_ ?]. }
    2:{ apply (f_equal length) in Hd. rewrite length_drop in Hd. cbn [length] in Hd. lia. }
    rewrite Ep at 2. rewrite escape_app, escape_cons, (escape_plain (take n p)) by auto with bytes.
    rewrite !map_app, <- !app_assoc. do 3 f_equal. unfold esc.
    rewrite special_byte in Hc by done. apply orb_true_iff in Hc as [Hc|Hc]; apply Z.eqb_eq in Hc as ->;
      by destruct i.
Qed.

Lemma write_string_spec i s dest : Forall byte s ->
  (EncodeStringFragment i s ;;; AppendBytes i kEscape1_Separator) dest = (Some tt, dest ++ string_code i s).
Proof.
  intros Hs. assert (E : EncodeStringFragment i s dest = (Some tt, dest ++ map (conv i) (escape s))).
  { unfold EncodeStringFragment. destruct (Nat.eqb_spec (length s) 0) as [H|H].
    - destruct s; [by rewrite app_nil_r|done].
    - apply encode_fragment_spec; [done|lia]. }
  unfold bind. rewrite E, AppendBytes_spec by (unfold kEscape1_Separator, kEscape1, kSeparator; bytes_lit).
  unfold string_code. by rewrite map_app, app_assoc.
Qed.

(** ** Reading *)

(** What the reader accepts, one escape at a time. *)
Fixpoint parse (INVERT : bool) (t : list Z) : option (list Z * list Z) :=
  match t with
  | [] => None
  | c :: t =>
      if IsSpecialByte c then
        match t with
        | [] => None
        | d :: t =>
            if (conv INVERT c =? 0) && (conv INVERT d =? 1) then Some ([], t)
            else if (conv INVERT c =? 0) && (conv INVERT d =? 255) then prod_map (cons 0) id <$> parse INVERT t
            else if (conv INVERT c =? 255) && (conv INVERT d =? 0) then prod_map (cons 255) id <$> parse INVERT t
            else None
        end
      else prod_map (cons (conv INVERT c)) id <$> parse INVERT t
  end.

Lemma parse_plain i l t : no_special l = true ->
  parse i (l ++ t) = prod_map (app (map (conv i) l)) id <$> parse i t.
Proof.
  induction l as [|c l IH]; [cbn [app]; by destruct (parse i t) as [[]|]|]. rewrite no_special_cons. cbn [app parse].
  destruct (IsSpecialByte c); [done|]. cbn [negb andb]. intros H. rewrite IH by done.
  by destruct (parse i t) as [[]|].
Qed.

Lemma parse_all_plain i l : no_special l = true -> parse i l = None.
Proof. intros H. rewrite <- (app_nil_r l), parse_plain by done. done. Qed.

Lemma parse_cut i l c : no_special l = true -> parse i (l ++ [c]) = None.
Proof. intros H. rewrite parse_plain by done. cbn [parse]. by destruct (IsSpecialByte c). Qed.

Lemma convert_pair_eq i c d a b : byte c -> byte d -> byte a -> byte b ->
  (UNALIGNED_LOAD 2 (c :: d :: []) =? Convert_pair i a b) = (conv i c =? a) && (conv i d =? b).
Proof.
  intros Hc Hd Ha Hb. unfold UNALIGNED_LOAD, Convert_pair. cbn [take le_value].
  rewrite Z.lor_comm, lor_shiftl_add by (done || lia).
  assert (E : Convert 16 i (b * 2 ^ 8 + a) = conv i a + 256 * conv i b).
  { destruct i; [|unfold Convert; lia]. rewrite !conv_true by done. unfold Convert, Z.lnot, byte in *. Z.div_mod_to_equations; lia. }
  rewrite E. pose proof (conv_byte i a Ha). pose proof (conv_byte i b Hb).
  assert (Hinv : forall x y, byte x -> byte y -> (conv i x =? y) = (x =? conv i y)).
  { intros x y Hx Hy. destruct i; [|done]. rewrite !conv_true by done. zcases. }
  rewrite !Hinv by done. unfold byte in *. zcases; done.
Qed.

Lemma load_two t c d : UNALIGNED_LOAD 2 (c :: d :: t) = UNALIGNED_LOAD 2 [c; d].
Proof. done. Qed.

Lemma take_drop_comm_length {A} (p : nat) (l : list A) :
  drop p (take (length l - 1) l) = take (length (drop p l) - 1) (drop p l).
Proof. rewrite length_drop, skipn_firstn_comm. f_equal. lia. Qed.

Lemma read_loop_spec fuel i p result src : Forall byte src -> (p <= length src)%nat -> (length src - p < fuel)%nat ->
  read_string_loop fuel i p result src =
    match parse i (drop p src) with
    | Some (s, rest) => (Some (Some (result ++ s)), rest)
    | None => (Some None, src)
    end.
Proof.
  revert p result. induction fuel as [|fuel IH]; intros p result Hs Hp Hf; [lia|]. cbn [read_string_loop].
  assert (Ht : Forall byte (drop p src)) by auto with bytes. rewrite take_drop_comm_length.
  assert (Hl : length (drop p src) = (length src - p)%nat) by apply length_drop.
  set (t := drop p src) in *. rewrite skip_spec by auto with bytes. unfold bind at 1, lift.
  destruct (skip_bytes_split (take (length t - 1) t)) as (Hn & Hle & Hc).
  set (n := skip_bytes (take (length t - 1) t)) in *. rewrite length_take in Hle, Hc.
  destruct (Nat.leb_spec (length src - 1) (p + n)) as [Hge|Hlt].
  - assert (Hnone : parse i t = None); [|by rewrite Hnone].
    destruct t as [|c t'] eqn:Et using rev_ind; [done|]. clear IHt'.
    rewrite take_take, Nat.min_r in Hn by lia. rewrite length_app in Hn. cbn [length] in Hn.
    rewrite Nat.add_sub, take_app_exact in Hn by done. by apply parse_cut.
  - destruct Hc as [|(c & t1 & Hd & Hc)]; [lia|].
    assert (Htn : (n < length t - 1)%nat) by lia.
    rewrite skipn_firstn_comm in Hd. destruct (drop n t) as [|c' t2] eqn:Edr; [by rewrite take_nil in Hd|].
    assert (Hlen : length (c' :: t2) = (length t - n)%nat) by (rewrite <- Edr; apply length_drop).
    cbn [length] in Hlen. destruct t2 as [|d t2]; [cbn [length] in Hlen; lia|].
    replace (length t - 1 - n)%nat with (S (length t - 2 - n)) in Hd by lia. cbn [take] in Hd.
    injection Hd as -> _.
    rewrite take_take, Nat.min_l in Hn by lia.
    assert (Etn : t = take n t ++ c :: d :: t2) by (by rewrite <- Edr, take_drop).
    assert (Hsrc : drop (p + n) src = c :: d :: t2) by (by rewrite <- drop_drop).
    assert (Hsrc2 : drop (p + n + 2) src = t2) by (by rewrite <- drop_drop, Hsrc).
    assert (Hnth : nth (p + n) src 0 = c) by (rewrite <- (Nat.add_0_r (p + n)), <- List.nth_skipn, Hsrc; done).
    assert (Hbytes : byte c /\ byte d).
    { assert (H : Forall byte (c :: d :: t2)) by (rewrite <- Hsrc; auto with bytes).
      apply Forall_cons in H as [? H]. by apply Forall_cons in H as [? H]. }
    destruct Hbytes as [Hbc Hbd]. rewrite Hnth, Hc. unfold bind, check, ret.
    rewrite AppendBytes_spec by auto with bytes. cbn [snd]. rewrite Hsrc, load_two.
    rewrite !convert_pair_eq by (done || (unfold kEscape1, kEscape2, kSeparator, kNullCharacter, kFFCharacter, byte; lia)).
    replace (parse i t) with (parse i (take n t ++ c :: d :: t2)) by (by rewrite <- Etn). rewrite parse_plain by done. cbn [parse]. rewrite Hc.
    unfold kEscape1, kEscape2, kSeparator, kNullCharacter, kFFCharacter.
    destruct ((conv i c =? 0) && (conv i d =? 1)).
    { cbn. by rewrite app_nil_r, Hsrc2. }
    destruct ((conv i c =? 0) && (conv i d =? 255)).
    { rewrite IH by (done || lia). rewrite Hsrc2. destruct (parse i t2) as [[s rest]|]; cbn; [|done]. by rewrite <- !app_assoc. }
    destruct ((conv i c =? 255) && (conv i d =? 0)).
    { rewrite IH by (done || lia). rewrite Hsrc2. destruct (parse i t2) as [[s rest]|]; cbn; [|done]. by rewrite <- !app_assoc. }
    done.
Qed.

Lemma read_string_spec i src : Forall byte src ->
  ReadStringInternal i src = match parse i src with
                             | Some (s, rest) => (Some (Some s), rest)
                             | None => (Some None, src)
                             end.
Proof.
  intros Hs. unfold ReadStringInternal. rewrite read_loop_spec by (done || lia).
  rewrite drop_0. by destruct (parse i src) as [[]|].
Qed.

(** ** Exactness *)

Lemma conv_eq i c k : byte c -> byte k -> (conv i c =? k) = (c =? conv i k).
Proof. intros Hc Hk. destruct i; [|done]. rewrite !conv_true by done. zcases. Qed.

Lemma parse_esc i c t : byte c -> parse i (map (conv i) (esc c) ++ t) = prod_map (cons c) id <$> parse i t.
Proof.
  intros Hc. unfold esc, kEscape1, kEscape2, kNullCharacter, kFFCharacter.
  destruct (Z.eqb_spec c 0) as [->|H0]; [by destruct i|]. destruct (Z.eqb_spec c 255) as [->|H1]; [by destruct i|].
  cbn [map app parse]. rewrite special_conv, special_byte, conv_involutive by done.
  by rewrite (proj2 (Z.eqb_neq c 0) H0), (proj2 (Z.eqb_neq c 255) H1).
Qed.

Lemma parse_complete i s rest : Forall byte s -> parse i (string_code i s ++ rest) = Some (s, rest).
Proof.
  intros Hs. unfold string_code. rewrite map_app, <- app_assoc. induction Hs as [|c s Hc Hs IH].
  - by destruct i.
  - rewrite escape_cons, map_app, <- app_assoc, parse_esc, IH by done. done.
Qed.

Lemma parse_sound i t s rest : Forall byte t -> parse i t = Some (s, rest) ->
  Forall byte s /\ Forall byte rest /\ t = string_code i s ++ rest.
Proof.
  assert (Hcons : forall c u s rest, byte c -> (Forall byte s /\ Forall byte rest /\ u = string_code i s ++ rest) ->
    Forall byte (c :: s) /\ Forall byte rest /\ map (conv i) (esc c) ++ u = string_code i (c :: s) ++ rest).
  { intros c u s' r Hc (? & ? & ->). split; [by apply Forall_cons|]. split; [done|].
    unfold string_code. by rewrite escape_cons, !map_app, <- !app_assoc. }
  remember (length t) as n eqn:Hn. revert t s Hn.
  induction (lt_wf n) as [n _ IH]. intros [|c t] s -> Ht H; [done|]. cbn [parse length] in *.
  apply Forall_cons in Ht as [Hc Ht]. rewrite special_byte in H by done.
  assert (Hi : conv i (conv i c) = c) by (by apply conv_involutive). pose proof (conv_byte i c Hc) as Hcc.
  destruct ((c =? 0) || (c =? 255)) eqn:Es.
  - destruct t as [|d t]; [done|]. apply Forall_cons in Ht as [Hd Ht].
    assert (Hi' : conv i (conv i d) = d) by (by apply conv_involutive).
    assert (Hone : forall a b, (conv i c =? a) && (conv i d =? b) = true -> c = conv i a /\ d = conv i b).
    { intros a b Hab. apply andb_true_iff in Hab as [Ha Hb]. apply Z.eqb_eq in Ha as <-, Hb as <-. by rewrite Hi, Hi'. }
    destruct ((conv i c =? 0) && (conv i d =? 1)) eqn:E1.
    { apply Hone in E1 as [-> ->]. injection H as <- <-. done. }
    destruct ((conv i c =? 0) && (conv i d =? 255)) eqn:E2.
    { apply Hone in E2 as [-> ->]. destruct (parse i t) as [[s' r]|] eqn:Ep; [|done]. injection H as <- <-.
      apply (Hcons 0 t s' r); [done|]. eapply IH; [|done|done|exact Ep]. cbn; lia. }
    destruct ((conv i c =? 255) && (conv i d =? 0)) eqn:E3; [|done].
    apply Hone in E3 as [-> ->]. destruct (parse i t) as [[s' r]|] eqn:Ep; [|done]. injection H as <- <-.
    apply (Hcons 255 t s' r); [done|]. eapply IH; [|done|done|exact Ep]. cbn; lia.
  - destruct (parse i t) as [[s' r]|] eqn:Ep; [|done]. injection H as <- <-. cbn [id].
    assert (Hesc : map (conv i) (esc (conv i c)) = [c]).
    { unfold esc. apply orb_false_iff in Es as [E0 E1]. rewrite !conv_eq by done.
      destruct i; cbn [map].
      - change (conv true 0) with 255. change (conv true 255) with 0. rewrite E0, E1. cbn [map]. by rewrite Hi.
      - change (conv false 0) with 0. change (conv false 255) with 255. rewrite E0, E1. done. }
    specialize (Hcons (conv i c) t s' r Hcc). rewrite Hesc in Hcons. apply Hcons. eapply IH; [|done|done|exact Ep]. lia.
Qed.

(** ** Order *)

Lemma below_conv s t : Forall byte s -> Forall byte t -> below s t ->
  below (map (conv true) t) (map (conv true) s).
Proof.
  intros Hs Ht (p & a & b & s' & t' & -> & -> & H). rewrite !map_app.
  apply diverge_app_l. apply Forall_app in Hs as [_ Hs], Ht as [_ Ht].
  apply Forall_cons in Hs as [Ha _], Ht as [Hb _]. apply diverge_here. rewrite !conv_true by done. lia.
Qed.

Lemma esc_below a b s t : byte a -> byte b -> a < b -> below (esc a ++ s) (esc b ++ t).
Proof.
  unfold byte. intros Ha Hb H. unfold esc, kEscape1, kEscape2, kNullCharacter, kFFCharacter.
  destruct (Z.eqb_spec a 0), (Z.eqb_spec b 0), (Z.eqb_spec a 255), (Z.eqb_spec b 255); try lia;
    apply diverge_here; lia.
Qed.

(** The separator is smaller than every escaped character. *)
Lemma separator_below c s t : byte c -> below (kEscape1_Separator ++ s) (esc c ++ t).
Proof.
  unfold byte. intros Hc. unfold esc, kEscape1_Separator, kEscape1, kEscape2, kNullCharacter, kFFCharacter, kSeparator.
  destruct (Z.eqb_spec c 0); [apply diverge_cons, diverge_here; lia|].
  destruct (Z.eqb_spec c 255); apply diverge_here; lia.
Qed.

Lemma escape_below s t : Forall byte s -> Forall byte t -> lex_lt s t ->
  below (escape s ++ kEscape1_Separator) (escape t ++ kEscape1_Separator).
Proof.
  intros Hs Ht [(p & a & b & s' & t' & -> & -> & H)|(c & m & ->)]; rewrite !escape_app, !escape_cons, <- !app_assoc.
  - apply Forall_app in Hs as [_ Hs], Ht as [_ Ht]. apply Forall_cons in Hs as [Ha _], Ht as [Hb _].
    apply diverge_app_l. by apply esc_below.
  - apply Forall_app in Ht as [_ Ht]. apply Forall_cons in Ht as [Hc _].
    apply diverge_app_l. rewrite <- (app_nil_r kEscape1_Separator). by apply separator_below.
Qed.

Lemma lex_total s t : lex_lt s t \/ s = t \/ lex_lt t s.
Proof.
  destruct (diverge_total Z.lt s t) as [H|[H|[[m ->]|[m ->]]]]; [intros; lia|by left; left|by right; right; left| ..];
    destruct m as [|x m]; rewrite ?app_nil_r; [by right; left|left; right; eauto|by right; left|right; right; right; eauto].
Qed.

#[export] Instance string_ordered : OrderedCode (Forall byte) lex_lt (string_code false).
Proof.
  split; [|intros; apply lex_total]. intros s t Hs Ht H. unfold string_code. rewrite !List.map_id.
  by apply escape_below.
Qed.

#[export] Instance string_decreasing_ordered : OrderedCode (Forall byte) (flip lex_lt) (string_code true).
Proof.
  split; [|intros x y _ _; unfold flip; destruct (lex_total x y) as [ |[ | ]]; auto].
  intros s t Hs Ht H. unfold string_code. apply below_conv; [..|by apply escape_below];
    (apply Forall_app; split; [by apply escape_byte|unfold kEscape1_Separator, kEscape1, kSeparator; bytes_lit]).
Qed.

(** Infinity comes after every string. *)
Lemma infinity_above s : Forall byte s -> below (string_code false s) [kEscape2; kInfinity].
Proof.
  intros Hs. unfold string_code. rewrite List.map_id. destruct Hs as [|c s Hc Hs]; [by apply diverge_here|].
  rewrite escape_cons. unfold esc, kEscape1, kEscape2, kNullCharacter, kFFCharacter, kInfinity. unfold byte in Hc.
  destruct (Z.eqb_spec c 0); [apply diverge_here; lia|].
  destruct (Z.eqb_spec c 255); [apply diverge_cons, diverge_here; lia|apply diverge_here; lia].
Qed.
