(* ===== verification/OrderedCodeNums.v ===== *)
(** The numbers of [OrderedCode]: what the writers produce in closed form, which inputs the readers
    accept, and that the codes keep the order. *)
From stdpp Require Import sets.
From S2P Require Import Prelude Ordered OrderedCode OrderedCodeStrings.

(** ** Logarithms *)

Lemma log2_range n : 0 < n < 2 ^ 64 -> 0 <= Z.log2 n < 64.
Proof. intros. split; [apply Z.log2_nonneg|]. apply Z.log2_lt_pow2; lia. Qed.

Lemma xor_63 k : 0 <= k < 64 -> 63 ^. (63 - k) = k.
Proof. by apply (range_eq 64 (fun k => 63 ^. (63 - k)) (fun k => k)). Qed.

Lemma xor_31 k : 0 <= k < 32 -> 31 ^. (31 - k) = k.
Proof. by apply (range_eq 32 (fun k => 31 ^. (31 - k)) (fun k => k)). Qed.

Lemma Log2FloorNonZero64_spec n : 0 < n < 2 ^ 64 -> Log2FloorNonZero64 n = Z.log2 n.
Proof.
  intros H. unfold Log2FloorNonZero64, builtin_clz. change (64 - 1 - Z.log2 n) with (63 - Z.log2 n).
  apply xor_63. by apply log2_range.
Qed.

Lemma Log2Floor64_spec n : 0 <= n < 2 ^ 64 -> Log2Floor64 n = if n =? 0 then -1 else Z.log2 n.
Proof. intros H. unfold Log2Floor64. destruct (Z.eqb_spec n 0); [done|apply Log2FloorNonZero64_spec; lia]. Qed.

Lemma Log2FloorNonZero_spec n : 0 < n < 2 ^ 8 -> Log2FloorNonZero n = Z.log2 n.
Proof.
  intros H. unfold Log2FloorNonZero, builtin_clz. change (32 - 1 - Z.log2 n) with (31 - Z.log2 n).
  apply xor_31. pose proof (Z.log2_nonneg n). pose proof (Z.log2_lt_pow2 n 8). lia.
Qed.

(** ** Big-endian bytes *)

Lemma be_bytes_head n v : be_bytes (S n) v = (v / 256 ^ Z.of_nat n) mod 256 :: be_bytes n v.
Proof. change (S n) with (1 + n)%nat. by rewrite be_bytes_app. Qed.

Lemma be_bytes_lnot n v : be_bytes n (Z.lnot v) = map (conv true) (be_bytes n v).
Proof.
  unfold be_bytes. rewrite map_rev. f_equal. revert v. induction n as [|n IH]; intros v; [done|].
  cbn [le_bytes map]. rewrite <- IH, conv_true by (apply Z.mod_pos_bound; lia).
  unfold Z.lnot. f_equal; [|f_equal]; Z.div_mod_to_equations; lia.
Qed.

Lemma lxor_mod a b w : 0 <= w -> (a ^. b) mod 2 ^ w = (a mod 2 ^ w) ^. (b mod 2 ^ w).
Proof.
  intros Hw. apply Z.bits_inj'. intros i Hi. rewrite Z.lxor_spec. destruct (Z.ltb_spec i w).
  - rewrite !Z.mod_pow2_bits_low by lia. apply Z.lxor_spec.
  - by rewrite !Z.mod_pow2_bits_high by lia.
Qed.

Lemma le_bytes_lxor n a b : le_bytes n (a ^. b) = zip_with Z.lxor (le_bytes n a) (le_bytes n b).
Proof.
  revert a b. induction n as [|n IH]; intros a b; [done|]. cbn [le_bytes zip_with]. rewrite <- IH.
  f_equal; [by apply (lxor_mod a b 8)|]. f_equal.
  change 256 with (2 ^ 8). rewrite <- !Z.shiftr_div_pow2 by lia. apply Z.shiftr_lxor.
Qed.

Lemma zip_with_rev {A B C} (f : A -> B -> C) l k : length l = length k ->
  rev (zip_with f l k) = zip_with f (rev l) (rev k).
Proof.
  revert k. induction l as [|a l IH]; intros [|b k] H; try done. cbn [rev zip_with] in *.
  rewrite zip_with_app by (rewrite !length_rev; by injection H). rewrite IH by (by injection H). done.
Qed.

Lemma be_bytes_lxor n a b : be_bytes n (a ^. b) = zip_with Z.lxor (be_bytes n a) (be_bytes n b).
Proof. unfold be_bytes. rewrite le_bytes_lxor. apply zip_with_rev. by rewrite !le_bytes_length. Qed.

Lemma be_value_be_bytes n v : be_value (be_bytes n v) = v mod 256 ^ Z.of_nat n.
Proof. rewrite <- be_bytes_mod. apply be_value_bytes. apply Z.mod_pos_bound, Z.pow_pos_nonneg; lia. Qed.

Lemma read_be_spec tmp l : Forall byte l -> 0 <= tmp < 2 ^ 64 ->
  read_be tmp l = u64 (tmp * 256 ^ len l + be_value l).
Proof.
  intros Hl. revert tmp. induction Hl as [|b l Hb Hl IH]; intros tmp Ht.
  - cbn. rewrite Z.mul_1_r, Z.add_0_r. by rewrite u64_id.
  - cbn [read_be fold_left].
    assert (E : u64 (tmp << 8) |. b = u64 (tmp * 256 + b)).
    { unfold u64. rewrite shiftl_mul by lia. unfold byte in Hb.
      assert (E : (tmp * 2 ^ 8) mod 2 ^ 64 = (tmp mod 2 ^ 56) * 2 ^ 8).
      { change (2 ^ 64) with (2 ^ 56 * 2 ^ 8). apply Z.mul_mod_distr_r; lia. }
      rewrite E, lor_mul_add by lia. Z.div_mod_to_equations. lia. }
    rewrite E. fold (read_be (u64 (tmp * 256 + b)) l). rewrite IH by apply u64_range.
    rewrite be_value_cons, pow256_cons. unfold u64. rewrite <- Z.add_mod_idemp_l, Z.mul_mod_idemp_l, Z.add_mod_idemp_l by lia.
    f_equal. lia.
Qed.

(** ** Unsigned numbers *)

Definition uint64 (n : Z) : Prop := 0 <= n < 2 ^ 64.

(** How many bytes a number takes without leading zeros; the code is that, then the bytes. *)
Definition num_len (n : Z) : nat := Z.to_nat (OrderedNumLength n).
Definition num_code (n : Z) : list Z := Z.of_nat (num_len n) :: be_bytes (num_len n) n.

Lemma OrderedNumLength_spec n : uint64 n ->
  0 <= OrderedNumLength n <= 8 /\ n < 256 ^ OrderedNumLength n /\
  (0 < OrderedNumLength n -> 256 ^ (OrderedNumLength n - 1) <= n).
Proof.
  intros Hn. unfold OrderedNumLength. rewrite Log2Floor64_spec by done. destruct (Z.eqb_spec n 0) as [->|H0]; [done|].
  unfold uint64 in Hn. pose proof (log2_range n ltac:(lia)) as Hl. pose proof (Z.log2_spec n ltac:(lia)) as [Hlo Hhi].
  rewrite u32_id by lia. set (k := Z.log2 n) in *. set (q := (k + 1 + 7) / 8).
  assert (Hq : 8 * q <= k + 8 < 8 * q + 8) by (unfold q; Z.div_mod_to_equations; lia).
  split; [lia|]. rewrite <- !(Z.pow_mul_r 2 8) by lia. split.
  - eapply Z.lt_le_trans; [exact Hhi|]. apply Z.pow_le_mono_r; lia.
  - intros _. eapply Z.le_trans; [|exact Hlo]. apply Z.pow_le_mono_r; lia.
Qed.

Lemma num_len_spec n : uint64 n ->
  (num_len n <= 8)%nat /\ n < 256 ^ Z.of_nat (num_len n) /\
  ((0 < num_len n)%nat -> 256 ^ (Z.of_nat (num_len n) - 1) <= n).
Proof.
  intros Hn. destruct (OrderedNumLength_spec n Hn) as (H1 & H2 & H3). unfold num_len.
  rewrite Z2Nat.id by lia. split; [lia|]. split; [done|]. intros. apply H3. lia.
Qed.

Lemma num_len_unique n k : uint64 n -> n < 256 ^ Z.of_nat k -> ((0 < k)%nat -> 256 ^ (Z.of_nat k - 1) <= n) ->
  (k <= 8)%nat -> num_len n = k.
Proof.
  intros Hn Hk Hk' H8. destruct (num_len_spec n Hn) as (H1 & H2 & H3).
  destruct (lt_eq_lt_dec (num_len n) k) as [[H|H]|H]; [|done|]; exfalso.
  - specialize (Hk' ltac:(lia)). pose proof (Z.pow_le_mono_r 256 (Z.of_nat (num_len n)) (Z.of_nat k - 1)). lia.
  - specialize (H3 ltac:(lia)). pose proof (Z.pow_le_mono_r 256 (Z.of_nat k) (Z.of_nat (num_len n) - 1)). lia.
Qed.

Lemma be_bytes_leading n m v : 0 <= v < 256 ^ Z.of_nat m -> be_bytes (n + m) v = replicate n 0 ++ be_bytes m v.
Proof.
  intros Hv. rewrite be_bytes_app, Z.div_small by done. f_equal. clear. induction n as [|n IH]; [done|].
  rewrite be_bytes_head, IH, Z.div_0_l by (apply Z.pow_nonzero; lia). done.
Qed.

Lemma write_num_spec v l first dest : (l <= 8)%nat ->
  write_num v (Z.of_nat l) first dest = (Some tt, dest ++ first :: be_bytes l v).
Proof.
  intros Hl. unfold write_num, AppendUpto9, num_buf. f_equal.
  replace (Z.to_nat (9 - Z.of_nat l - 1)) with (8 - l)%nat by lia.
  replace (Z.to_nat (Z.of_nat l + 1)) with (S l) by lia.
  assert (E8 : be_bytes 8 v = be_bytes (8 - l) (v / 256 ^ Z.of_nat l) ++ be_bytes l v).
  { rewrite <- be_bytes_app. f_equal. lia. }
  rewrite E8. set (hi := be_bytes (8 - l) _). assert (Hhi : length hi = (8 - l)%nat) by apply be_bytes_length.
  set (lo := be_bytes l v). assert (Hlo : length lo = l) by apply be_bytes_length.
  set (zs := replicate 8 0).
  replace (replicate 1 0 ++ (hi ++ lo) ++ zs) with ((0 :: hi) ++ lo ++ zs) by (cbn [replicate app]; by rewrite <- app_assoc).
  assert (E : (0 :: hi) ++ lo ++ zs = take (8 - l) (0 :: hi) ++ (nth (8 - l) (0 :: hi) 0) :: lo ++ zs).
  { rewrite <- (take_drop (8 - l) (0 :: hi)) at 1. rewrite <- app_assoc. f_equal.
    assert (Hd : length (drop (8 - l) (0 :: hi)) = 1%nat) by (rewrite length_drop; cbn [length]; lia).
    destruct (drop (8 - l) (0 :: hi)) as [|c [|]] eqn:Ed; try done. cbn [app]. f_equal.
    rewrite <- (Nat.add_0_r (8 - l)), <- List.nth_skipn, Ed. done. }
  rewrite E. set (front := take (8 - l) (0 :: hi)).
  assert (Hf : length front = (8 - l)%nat) by (unfold front; rewrite length_take; cbn [length]; lia).
  rewrite insert_app_r_alt, Hf, Nat.sub_diag by lia. cbn [insert list_insert].
  rewrite drop_app_exact by done.
  rewrite take_app_add. f_equal. cbn [take]. f_equal.
  rewrite take_take, Nat.min_l by lia. by rewrite take_app_exact.
Qed.

Lemma write_increasing_spec n dest : uint64 n -> WriteNumIncreasing n dest = (Some tt, dest ++ num_code n).
Proof.
  intros Hn. unfold WriteNumIncreasing. destruct (OrderedNumLength_spec n Hn) as (H & _).
  unfold num_code, num_len. rewrite <- (Z2Nat.id (OrderedNumLength n)) at 1 2 by lia.
  rewrite write_num_spec by lia. by rewrite u8_id by (unfold byte; lia).
Qed.

Lemma write_decreasing_spec n dest : uint64 n ->
  WriteNumDecreasing n dest = (Some tt, dest ++ map (conv true) (num_code n)).
Proof.
  intros Hn. unfold WriteNumDecreasing. destruct (OrderedNumLength_spec n Hn) as (H & _).
  unfold num_code, num_len. rewrite <- (Z2Nat.id (OrderedNumLength n)) at 1 2 by lia.
  rewrite write_num_spec by lia. cbn [map]. rewrite <- be_bytes_lnot. do 3 f_equal.
  set (l := Z.to_nat (OrderedNumLength n)). rewrite <- (be_bytes_mod l (u64 _)), <- (be_bytes_mod l (Z.lnot n)).
  f_equal. unfold u64. replace (2 ^ 64) with (256 ^ Z.of_nat l * 256 ^ Z.of_nat (8 - l)).
  - rewrite Z.rem_mul_r by (apply Z.pow_nonzero || apply Z.pow_pos_nonneg; lia).
    rewrite Z.add_mod, (Z.mul_comm _ ((_ / _) mod _)), Z.mod_mul, Z.add_0_r, !Zmod_mod by (apply Z.pow_nonzero; lia). done.
  - rewrite <- Z.pow_add_r by lia. change (2 ^ 64) with (256 ^ 8). f_equal. lia.
Qed.

Lemma nth_head c s : nth 0 (c :: s) 0 = c.
Proof. done. Qed.

Lemma sint8_u64 c : byte c -> u64 (sint 8 c) = if c <? 128 then c else c + (2 ^ 64 - 256).
Proof. intros Hc. unfold sint, byte in *. change (2 ^ (8 - 1)) with 128. destruct (Z.ltb_spec c 128); ulia. Qed.

(** The first byte of a number with no leading zeros. *)
Lemma be_bytes_head_nonzero l n : 256 ^ Z.of_nat l <= n < 256 ^ Z.of_nat (S l) ->
  exists b bs, be_bytes (S l) n = b :: bs /\ b <> 0.
Proof.
  intros [Hlo Hhi]. rewrite be_bytes_head. eexists _, _. split; [done|].
  assert (Hp : 0 < 256 ^ Z.of_nat l) by (apply Z.pow_pos_nonneg; lia).
  rewrite Nat2Z.inj_succ, Z.pow_succ_r in Hhi by lia.
  assert (1 <= n / 256 ^ Z.of_nat l < 256).
  { split; [apply Z.div_le_lower_bound; lia|apply Z.div_lt_upper_bound; lia]. }
  rewrite Z.mod_small; lia.
Qed.

Lemma read_increasing_complete n rest : uint64 n ->
  ReadNumIncreasing (num_code n ++ rest) = (Some (Some n), rest).
Proof.
  intros Hn. destruct (num_len_spec n Hn) as (H8 & Hhi & Hlo). unfold ReadNumIncreasing, num_code.
  set (l := num_len n) in *. set (bs := be_bytes l n). assert (Hl : length bs = l) by apply be_bytes_length.
  cbn [app]. rewrite nth_head. assert (Hlen : len (Z.of_nat l :: bs ++ rest) = 1 + Z.of_nat l + len rest).
  { rewrite len_cons, len_app. unfold len at 1. lia. }
  pose proof (len_nonneg rest). rewrite Hlen, sint8_u64 by (unfold byte; lia).
  destruct (Z.eqb_spec (1 + Z.of_nat l + len rest) 0); [lia|].
  destruct (Z.ltb_spec (Z.of_nat l) 128); [|lia]. rewrite u64_id by lia.
  assert (Ha : (0 =? Z.of_nat l) || (1 + Z.of_nat l + len rest =? 1) || negb (nth 1 (Z.of_nat l :: bs ++ rest) 0 =? 0) = true).
  { destruct l as [|l]; [done|]. cbn [nth]. unfold bs.
    destruct (be_bytes_head_nonzero l n) as (b & bs' & -> & Hb).
    - split; [|lia]. specialize (Hlo ltac:(lia)). by replace (Z.of_nat (S l) - 1) with (Z.of_nat l) in Hlo by lia.
    - cbn [app nth]. apply Z.eqb_neq in Hb. rewrite Hb. cbn [negb]. by rewrite orb_true_r. }
  rewrite Ha. cbn [negb]. destruct (Z.ltb_spec (1 + Z.of_nat l + len rest) (Z.of_nat l + 1)); [lia|].
  destruct (Z.ltb_spec 8 (Z.of_nat l)); [lia|]. cbn [orb]. rewrite Nat2Z.id. cbn [skipn]; rewrite ?drop_0.
  replace (Z.to_nat (Z.of_nat l + 1)) with (S l) by lia. cbn [skipn]; rewrite ?drop_0.
  rewrite take_app_exact, drop_app_exact by done. rewrite read_be_spec by (apply be_bytes_byte || lia).
  rewrite Z.mul_0_l, Z.add_0_l. unfold bs. rewrite be_value_be_bytes, Z.mod_small by (unfold uint64 in Hn; lia). by rewrite u64_id.
Qed.

Lemma be_value_lower b bs : Forall byte bs -> 0 < b -> 256 ^ len bs <= be_value (b :: bs).
Proof. intros Hbs Hb. rewrite be_value_cons. pose proof (be_value_range bs Hbs). pose proof (pow256_pos bs). nia. Qed.

Lemma read_increasing_sound src n rest : Forall byte src -> ReadNumIncreasing src = (Some (Some n), rest) ->
  uint64 n /\ Forall byte rest /\ src = num_code n ++ rest.
Proof.
  intros Hs. unfold ReadNumIncreasing. destruct Hs as [|c s Hc Hs]; [done|]. rewrite nth_head, sint8_u64 by done.
  pose proof (len_nonneg s). rewrite len_cons. destruct (Z.eqb_spec (1 + len s) 0); [lia|].
  destruct (negb _) eqn:Ha; [done|]. destruct ((_ <? _) || _) eqn:Hb; [done|]. apply orb_false_iff in Hb as [Hb1 Hb2].
  apply Z.ltb_ge in Hb1, Hb2. destruct (Z.ltb_spec c 128); [|unfold byte in Hc; lia].
  unfold byte in Hc. rewrite u64_id in Hb1 by lia. cbn [skipn]; rewrite ?drop_0. intros [= <- <-].
  replace (Z.to_nat (c + 1)) with (S (Z.to_nat c)) by lia. cbn [skipn]; rewrite ?drop_0.
  set (bs := take (Z.to_nat c) s). assert (Hbs : Forall byte bs) by (unfold bs; auto with bytes).
  assert (Hl : length bs = Z.to_nat c) by (unfold bs; rewrite length_take; unfold len in *; lia).
  pose proof (be_value_range bs Hbs) as Hv. assert (Hlen : len bs = c) by (unfold len; lia). rewrite Hlen in Hv.
  assert (Hmax : 256 ^ c <= 2 ^ 64) by (change (2 ^ 64) with (256 ^ 8); apply Z.pow_le_mono_r; lia).
  rewrite read_be_spec, Z.mul_0_l, Z.add_0_l, u64_id by (done || lia).
  assert (Hu : uint64 (be_value bs)) by (unfold uint64; lia).
  split; [done|]. split; [auto with bytes|].
  assert (Hnum : num_len (be_value bs) = Z.to_nat c).
  { apply num_len_unique; [done|rewrite Z2Nat.id by lia; lia| |lia]. intros Hpos.
    apply negb_false_iff, orb_true_iff in Ha as [Ha|Ha]; [apply orb_true_iff in Ha as [Ha|Ha]; apply Z.eqb_eq in Ha; lia|].
    apply negb_true_iff, Z.eqb_neq in Ha. cbn [nth] in Ha. rewrite Z2Nat.id by lia.
    unfold bs in *. destruct (Z.to_nat c) as [|k]; [lia|]. destruct s as [|b s]; [done|]. cbn [nth take firstn] in *.
    apply Forall_cons in Hbs as [Hb Hbs]. rewrite len_cons in Hlen. unfold byte in Hb.
    replace (c - 1) with (len (firstn k s)) by lia. apply be_value_lower; [done|lia]. }
  unfold num_code. rewrite Hnum, Z2Nat.id by lia. rewrite <- Hl at 1. rewrite be_bytes_value by done.
  cbn [app]. unfold bs. by rewrite take_drop.
Qed.

Lemma be_value_conv l : Forall byte l -> be_value (map (conv true) l) = 256 ^ len l - 1 - be_value l.
Proof.
  induction 1 as [|b l Hb Hl IH]; [done|]. cbn [map]. rewrite !be_value_cons, IH, len_map, pow256_cons, conv_true by done. lia.
Qed.

Lemma read_decreasing_inverts src : Forall byte src ->
  ReadNumDecreasing src = (fst (ReadNumIncreasing (map (conv true) src)),
                           map (conv true) (snd (ReadNumIncreasing (map (conv true) src)))).
Proof.
  intros Hs. unfold ReadNumDecreasing, ReadNumIncreasing. rewrite len_map.
  set (src' := map (conv true) src). assert (Hinv : map (conv true) src' = src) by (by apply map_conv_involutive).
  destruct (Z.eqb_spec (len src) 0) as [|Hne]; [cbn [fst snd]; by rewrite Hinv|].
  assert (Hhd : byte (nth 0 src 0) /\ nth 0 src' 0 = 255 - nth 0 src 0 /\
    (len src =? 1) || negb (nth 1 src 0 =? 255) = (len src =? 1) || negb (nth 1 src' 0 =? 0)).
  { unfold src'. destruct Hs as [|c s Hc [|d s' Hd Hs]]; [done| |]; cbn [map nth]; rewrite !conv_true by done; [done|].
    split; [done|]. split; [done|]. f_equal. f_equal. zcases. }
  destruct Hhd as (Hc & Hc' & Ha). rewrite Hc', <- !orb_assoc, Ha. set (c := nth 0 src 0) in *.
  assert (En : Z.lnot (sint 8 c) = sint 8 (255 - c)).
  { unfold sint, Z.lnot, byte in *. change (2 ^ (8 - 1)) with 128. zcases. }
  rewrite En. pose proof (sint8_u64 (255 - c) (inverse_byte c Hc)) as Hn. set (n := u64 (sint 8 (255 - c))) in *.
  destruct (negb ((0 =? n) || _)); [cbn [fst snd]; by rewrite Hinv|].
  destruct ((len src <? _) || (8 <? n)) eqn:Hb; [cbn [fst snd]; by rewrite Hinv|].
  apply orb_false_iff in Hb as [_ Hb]. apply Z.ltb_ge in Hb. cbn [fst snd]. rewrite <- skipn_map, Hinv. f_equal. f_equal. f_equal.
  unfold src'. rewrite skipn_map, firstn_map. set (bs := take (Z.to_nat n) (drop 1 src)).
  assert (Hbs : Forall byte bs) by (unfold bs; auto with bytes).
  rewrite !read_be_spec by (done || (by apply map_conv_byte) || (unfold UINT64_MAX; lia)).
  rewrite len_map, be_value_conv by done.
  destruct (Z.eqb_spec n 0) as [E|_]; cbn [negb].
  - unfold bs. by rewrite E.
  - unfold u64, UINT64_MAX, Z.lnot. pose proof (pow256_pos bs). set (p := 256 ^ len bs) in *. set (v := be_value bs).
    replace (0 * p + (p - 1 - v)) with (p - 1 - v) by lia.
    replace ((2 ^ 64 - 1) * p + v) with (v - p + p * 2 ^ 64) by lia. rewrite Z_mod_plus_full.
    Z.div_mod_to_equations. lia.
Qed.

Lemma num_code_byte n : uint64 n -> Forall byte (num_code n).
Proof.
  intros Hn. destruct (num_len_spec n Hn) as (H & _). apply Forall_cons. split; [unfold byte; lia|auto with bytes].
Qed.

#[export] Instance num_ordered : OrderedCode uint64 Z.lt num_code.
Proof.
  split; [|intros; lia]. intros x y Hx Hy H. destruct (num_len_spec x Hx) as (Hx8 & Hxhi & Hxlo), (num_len_spec y Hy) as (Hy8 & Hyhi & Hylo).
  unfold num_code. destruct (lt_eq_lt_dec (num_len x) (num_len y)) as [[Hl|Hl]|Hl].
  - apply diverge_here. lia.
  - rewrite Hl. apply diverge_cons. apply be_bytes_below; [unfold uint64 in *; lia|done].
  - exfalso. specialize (Hxlo ltac:(lia)).
    pose proof (Z.pow_le_mono_r 256 (Z.of_nat (num_len y)) (Z.of_nat (num_len x) - 1)). lia.
Qed.

#[export] Instance num_decreasing_ordered : OrderedCode uint64 (flip Z.lt) (fun n => map (conv true) (num_code n)).
Proof.
  split; [|intros; unfold flip; lia]. intros x y Hx Hy H.
  apply below_conv; [by apply num_code_byte..|]. by apply code_below.
Qed.
