(* ===== verification/OrderedCodeSigned.v ===== *)
(** The signed numbers and the doubles of [OrderedCode].

    The code of [n] has [signed_len n] bytes: as many ones as it is long, a zero, and the number;
    a negative number is written as the complement of the code of [-1 - n]. *)
From Stdlib Require Import SpecFloat.
From stdpp Require Import sets.
From S2P Require Import Prelude Ordered OrderedCode OrderedCodeStrings OrderedCodeNums.

Definition int64 (n : Z) : Prop := - 2 ^ 63 <= n < 2 ^ 63.

(** The number a negative one is the complement of. *)
Definition magnitude (n : Z) : Z := if n <? 0 then Z.lnot n else n.
Definition signed_len (n : Z) : nat := Z.to_nat (SignedEncodingLength n).
Definition header (k : nat) : Z := 256 ^ Z.of_nat k - 2 ^ (7 * Z.of_nat k).

(** The bytes of [k] ones, a zero and [x]. *)
Definition magnitude_code (k : nat) (x : Z) : list Z := be_bytes k (header k + x).
Definition signed_code (n : Z) : list Z :=
  map (conv (n <? 0)) (magnitude_code (signed_len n) (magnitude n)).

Lemma magnitude_range n : int64 n -> 0 <= magnitude n < 2 ^ 63.
Proof. unfold int64, magnitude, Z.lnot. zcases. Qed.

Lemma magnitude_signed (neg : bool) x : 0 <= x ->
  let n := if neg then Z.lnot x else x in (n <? 0) = neg /\ magnitude n = x.
Proof. intros Hx. unfold magnitude. destruct neg; [|by zcases]. rewrite Z.lnot_involutive. unfold Z.lnot. by zcases. Qed.

Lemma kBitsToLength_spec k : 0 <= k < 64 -> nth (Z.to_nat k) kBitsToLength 0 = k / 7 + 1.
Proof. by apply (range_eq 64 (fun k => nth (Z.to_nat k) kBitsToLength 0) (fun k => k / 7 + 1)). Qed.

(** The length is the least that leaves room for the number below the zero. *)
Lemma signed_len_spec n : int64 n ->
  (1 <= signed_len n <= 10)%nat /\ magnitude n < 2 ^ (7 * Z.of_nat (signed_len n) - 1) /\
  ((1 < signed_len n)%nat -> 2 ^ (7 * Z.of_nat (signed_len n) - 8) <= magnitude n).
Proof.
  intros Hn. pose proof (magnitude_range n Hn) as Hx. unfold signed_len, SignedEncodingLength.
  fold (magnitude n). set (x := magnitude n) in *. rewrite Log2Floor64_spec by lia.
  destruct (Z.eqb_spec x 0) as [E|H0]; [rewrite E; split_and!; vm_compute; (done || lia || (intros; lia))|].
  assert (Hl : 0 <= Z.log2 x < 63) by (split; [apply Z.log2_nonneg|apply Z.log2_lt_pow2; lia]).
  rewrite kBitsToLength_spec by lia. pose proof (Z.log2_spec x ltac:(lia)) as [Hlo Hhi].
  set (q := (Z.log2 x + 1) / 7). assert (Hq : 7 * q <= Z.log2 x + 1 < 7 * q + 7) by (unfold q; Z.div_mod_to_equations; lia).
  rewrite Z2Nat.id by lia. split; [lia|]. split.
  - eapply Z.lt_le_trans; [exact Hhi|]. apply Z.pow_le_mono_r; lia.
  - intros Hgt. eapply Z.le_trans; [|exact Hlo]. apply Z.pow_le_mono_r; lia.
Qed.

Lemma signed_len_mono n m : int64 n -> int64 m -> magnitude n <= magnitude m -> (signed_len n <= signed_len m)%nat.
Proof.
  intros Hn Hm H. destruct (signed_len_spec n Hn) as (Hn1 & _ & Hn3), (signed_len_spec m Hm) as (Hm1 & Hm2 & _).
  destruct (le_lt_dec (signed_len n) (signed_len m)) as [|Hlt]; [done|exfalso].
  specialize (Hn3 ltac:(lia)). pose proof (Z.pow_le_mono_r 2 (7 * Z.of_nat (signed_len m) - 1) (7 * Z.of_nat (signed_len n) - 8)). lia.
Qed.

(** ** The header *)

Lemma header_bytes k : (2 <= k <= 10)%nat ->
  be_bytes k (header k) =
    (nth k kLengthToHeaderBits (0, 0)).1 :: (nth k kLengthToHeaderBits (0, 0)).2 :: replicate (k - 2) 0.
Proof. intros H. repeat (destruct k as [|k]; try lia); vm_compute; reflexivity. Qed.

Lemma header_mask k : (1 <= k <= 10)%nat -> nth k kLengthToMask 0 = u64 (header k).
Proof. intros H. repeat (destruct k as [|k]; try lia); vm_compute; reflexivity. Qed.

(** Exclusive or with the header: it sets the ones of a number and clears those of a negative. *)
Lemma lxor_header k n : (1 <= k)%nat -> 0 <= magnitude n < 2 ^ (7 * Z.of_nat k) ->
  n ^. header k = if n <? 0 then Z.lnot (header k + magnitude n) else header k + magnitude n.
Proof.
  intros Hk Hx. set (w := 7 * Z.of_nat k) in *.
  assert (Hh : header k = (2 ^ Z.of_nat k - 1) * 2 ^ w).
  { unfold header, w. change 256 with (2 ^ 8). rewrite <- Z.pow_mul_r by lia.
    rewrite Z.mul_sub_distr_r, <- Z.pow_add_r by lia. f_equal; [f_equal; lia|lia]. }
  assert (Hx' : header k ^. magnitude n = header k + magnitude n).
  { rewrite Hh, Z.lxor_lor, lor_mul_add by (done || lia ||
      (apply Z.bits_inj'; intros i Hi; rewrite Z.land_spec, Z.bits_0; destruct (Z.ltb_spec i w);
       [by rewrite Z.mul_pow2_bits_low by lia
       |rewrite <- (Z.mod_small (magnitude n) (2 ^ w)) by done; rewrite Z.mod_pow2_bits_high by lia; apply andb_false_r])).
    done. }
  rewrite <- Hx'. unfold magnitude in *. destruct (n <? 0).
  - rewrite Z.lnot_lxor_r, Z.lnot_involutive. apply Z.lxor_comm.
  - apply Z.lxor_comm.
Qed.

Lemma signed_code_lxor n : int64 n -> signed_code n = be_bytes (signed_len n) (n ^. header (signed_len n)).
Proof.
  intros Hn. destruct (signed_len_spec n Hn) as (H1 & H2 & _). pose proof (magnitude_range n Hn).
  rewrite lxor_header.
  - unfold signed_code, magnitude_code. destruct (n <? 0); [by rewrite be_bytes_lnot|by rewrite List.map_id].
  - lia.
  - split; [lia|]. eapply Z.lt_le_trans; [exact H2|]. apply Z.pow_le_mono_r; lia.
Qed.

(** ** Writing *)

Lemma be_bytes_sign n : int64 n ->
  [if n <? 0 then 0xff else 0x00; if n <? 0 then 0xff else 0x00] ++ be_bytes 8 (u64 n) = be_bytes 10 n.
Proof.
  unfold int64. intros Hn. change 10%nat with (2 + 8)%nat. rewrite be_bytes_app. f_equal; [|apply (be_bytes_mod 8)].
  change (256 ^ Z.of_nat 8) with (2 ^ 64). destruct (Z.ltb_spec n 0).
  - replace (n / 2 ^ 64) with (-1) by (Z.div_mod_to_equations; lia). done.
  - by rewrite Z.div_small by lia.
Qed.

Lemma drop_be_bytes n k v : (k <= n)%nat -> drop (n - k) (be_bytes n v) = be_bytes k v.
Proof.
  intros H. replace n with ((n - k) + k)%nat at 2 by lia. rewrite be_bytes_app.
  apply drop_app_exact. by rewrite be_bytes_length.
Qed.

Lemma xor_at_header a b l : (2 <= length l)%nat ->
  xor_at 1 b (xor_at 0 a l) = zip_with Z.lxor l (a :: b :: replicate (length l - 2) 0).
Proof.
  intros H. destruct l as [|x [|y l]]; [cbn in H; lia..|]. cbn [length Nat.sub]. rewrite Nat.sub_0_r.
  unfold xor_at. cbn [alter list_alter zip_with]. f_equal. f_equal.
  clear H. induction l as [|z l IH]; [done|]. cbn [length replicate zip_with]. by rewrite <- IH, Z.lxor_0_r.
Qed.

Lemma write_signed_spec n dest : int64 n -> WriteSignedNumIncreasing n dest = (Some tt, dest ++ signed_code n).
Proof.
  intros Hn. pose proof (magnitude_range n Hn) as Hx. destruct (signed_len_spec n Hn) as (H1 & H2 & H3).
  unfold WriteSignedNumIncreasing. fold (magnitude n). rewrite signed_code_lxor by done.
  destruct (Z.ltb_spec (magnitude n) 64) as [Hlt|Hge].
  - assert (E : signed_len n = 1%nat).
    { destruct (le_lt_dec (signed_len n) 1) as [|Hgt]; [lia|]. specialize (H3 Hgt).
      pose proof (Z.pow_le_mono_r 2 6 (7 * Z.of_nat (signed_len n) - 8)). lia. }
    rewrite E. unfold append. cbn [be_bytes le_bytes rev app]. by rewrite Z.lxor_comm.
  - assert (Hgt : (2 <= signed_len n)%nat).
    { destruct (le_lt_dec 2 (signed_len n)) as [|Hlt]; [done|]. assert (E : signed_len n = 1%nat) by lia. rewrite E in H2.
      change (2 ^ (7 * Z.of_nat 1 - 1)) with 64 in H2. lia. }
    assert (E : SignedEncodingLengthPositive (magnitude n) = Z.of_nat (signed_len n)).
    { unfold signed_len, SignedEncodingLength in *. fold (magnitude n) in *. unfold Log2Floor64 in *.
      destruct (Z.eqb_spec (magnitude n) 0); [lia|]. unfold SignedEncodingLengthPositive, Log2FloorNonZero64. lia. }
    rewrite E. destruct (Z.leb_spec 2 (Z.of_nat (signed_len n))); [|lia]. unfold bind, check, ret, append.
    rewrite be_bytes_sign, Nat2Z.id by done. unfold kMaxSigned64Length.
    replace (Z.to_nat (10 - Z.of_nat (signed_len n))) with (10 - signed_len n)%nat by lia.
    rewrite drop_be_bytes, be_bytes_lxor, header_bytes by lia. rewrite xor_at_header by (rewrite be_bytes_length; lia).
    by rewrite be_bytes_length.
Qed.

(** ** Reading *)

(** The bytes after a sign that is not negative: [x] with its header. *)
Definition has_header (k : nat) (x : Z) (s : list Z) : Prop :=
  (1 <= k <= 10)%nat /\ (k <= length s)%nat /\ 0 <= x < 2 ^ (7 * Z.of_nat k - 1) /\ x < 2 ^ 63 /\
  take k s = magnitude_code k x.

Lemma signed_code_header n rest : int64 n ->
  has_header (signed_len n) (magnitude n) (map (conv (n <? 0)) (signed_code n ++ rest)).
Proof.
  intros Hn. pose proof (magnitude_range n Hn). destruct (signed_len_spec n Hn) as (H1 & H2 & _).
  assert (Hb : Forall byte (magnitude_code (signed_len n) (magnitude n))) by apply be_bytes_byte.
  unfold has_header. rewrite map_app. unfold signed_code. rewrite map_conv_involutive by done.
  assert (Hl : length (magnitude_code (signed_len n) (magnitude n)) = signed_len n) by apply be_bytes_length.
  rewrite length_app, Hl, take_app_exact by done. split_and!; try done; lia.
Qed.

Lemma log2_byte h j : 0 <= j < 8 -> 2 ^ j <= h < 2 ^ (j + 1) -> Log2FloorNonZero h = j.
Proof.
  intros Hj Hh. assert (2 ^ (j + 1) <= 2 ^ 8) by (apply Z.pow_le_mono_r; lia).
  assert (0 < 2 ^ j) by (apply Z.pow_pos_nonneg; lia). rewrite Log2FloorNonZero_spec by lia.
  apply Z.log2_unique; [lia|]. by rewrite <- Z.add_1_r.
Qed.

Lemma lxor_ff b : byte b -> b ^. 0xff = 255 - b.
Proof. revert b. apply (byte_eq (fun b => b ^. 0xff) (fun b => 255 - b)). by vm_compute. Qed.

(** The bytes of a short string from its value. *)
Lemma take_be_value k s : Forall byte s -> (k <= length s)%nat ->
  take k s = be_bytes k (be_value (take k s)).
Proof.
  intros Hs Hk. rewrite <- be_bytes_value at 1 by auto with bytes. f_equal. rewrite length_take. lia.
Qed.

Lemma signed_length_conv (neg : bool) src : Forall byte src -> src <> [] ->
  signed_length (if neg then UINT64_MAX else 0) src = signed_length 0 (map (conv neg) src).
Proof.
  destruct neg; [|by rewrite List.map_id]. intros Hs Hne. unfold signed_length. rewrite len_map. cbv zeta beta.
  change (UINT64_MAX &. 0xff) with 0xff. change (0 &. 0xff) with 0.
  assert (Hn : forall i, Z.of_nat i < len src -> nth i src 0 ^. 0xff = nth i (map (conv true) src) 0 ^. 0).
  { clear Hne. intros i Hi. rewrite Z.lxor_0_r. revert i Hi. induction Hs as [|b s Hb Hs IH]; [intros; rewrite len_nil in *; lia|].
    intros [|i] Hi; cbn [nth map]; [by rewrite lxor_ff, conv_true|]. apply IH. rewrite len_cons in Hi. lia. }
  destruct (Z.ltb_spec 0 (len src)) as [Hpos|Hneg].
  - rewrite Hn by lia. destruct (negb _); [done|]. destruct (Z.ltb_spec (len src) 8); [done|]. by rewrite !Hn by lia.
  - destruct src as [|? l]; [done|rewrite len_cons in Hneg; pose proof (len_nonneg l); lia]. 
Qed.

(** The first bytes that a number of each length begins with. *)
Lemma magnitude_code_short k x : (1 <= k <= 7)%nat -> 0 <= x < 2 ^ (7 * Z.of_nat k - 1) ->
  exists h t, magnitude_code k x = h :: t /\ 2 ^ (7 - Z.of_nat k) <= 255 - h < 2 ^ (7 - Z.of_nat k + 1) /\ 0 <= h.
Proof.
  intros Hk Hx. unfold magnitude_code. destruct k as [|k]; [lia|]. rewrite be_bytes_head. eexists _, _. split; [done|].
  repeat (destruct k as [|k]; try lia); unfold header; cbn in Hx |- *; Z.div_mod_to_equations; lia.
Qed.

Lemma magnitude_code_long k x : (8 <= k <= 10)%nat -> 0 <= x < 2 ^ (7 * Z.of_nat k - 1) -> x < 2 ^ 63 ->
  exists b c t, magnitude_code k x = 255 :: b :: c :: t /\
    match k with
    | 8%nat => 0 <= b < 0x80
    | 9%nat => 0x80 <= b < 0xc0
    | _ => b = 0xc0 /\ 0 <= c < 0x80
    end.
Proof.
  intros Hk Hx Hx63. unfold magnitude_code. destruct k as [|[|[|k]]]; try lia. rewrite !be_bytes_head.
  repeat (destruct k as [|k]; try lia); eexists _, _, _; (split; [f_equal|]); unfold header; cbn in Hx |- *;
    Z.div_mod_to_equations; lia.
Qed.

Lemma signed_length_complete k x s : has_header k x s -> signed_length 0 s = Some (Z.of_nat k).
Proof.
  intros (Hk & Hl & Hx & Hx63 & Ht). unfold signed_length. cbv zeta beta. change (0 &. 0xff) with 0. rewrite !Z.lxor_0_r.
  assert (Hlen : len s = Z.of_nat (length s)) by done. destruct (decide (k <= 7)%nat) as [H7|H7].
  - destruct (magnitude_code_short k x ltac:(lia) Hx) as (h & t & E & Hh & Hh0). rewrite E in Ht.
    destruct k as [|k]; [lia|]. destruct s as [|c s]; [done|]. cbn [take firstn] in Ht. injection Ht as -> _. cbn [nth].
    assert (0 < 2 ^ (7 - Z.of_nat (S k))) by (apply Z.pow_pos_nonneg; lia).
    destruct (Z.eqb_spec h 255); [lia|]. cbn [negb]. rewrite lxor_ff by (unfold byte; lia).
    rewrite (log2_byte _ (7 - Z.of_nat (S k))) by lia.
    destruct (Z.ltb_spec (len (h :: s)) (7 - (7 - Z.of_nat (S k)))); [lia|]. f_equal. lia.
  - destruct (magnitude_code_long k x ltac:(lia) Hx Hx63) as (b & c & t & E & Hb). rewrite E in Ht.
    do 3 (destruct k as [|k]; [lia|]). do 3 (destruct s as [|? s]; [cbn [length] in Hl; lia|]).
    cbn [take firstn] in Ht. injection Ht as -> -> -> _. cbn [nth]. rewrite Z.eqb_refl. cbn [negb].
    destruct (Z.ltb_spec (len (255 :: b :: c :: s)) 8); [lia|].
    destruct k as [|[|[|[|[|[|[|[|k]]]]]]]]; try lia.
    + destruct (Z.leb_spec 0x80 b); [lia|done].
    + destruct (Z.leb_spec 0x80 b), (Z.ltb_spec b 0xc0); try lia.
      by destruct (Z.ltb_spec (len (255 :: b :: c :: s)) 9); [lia|].
    + destruct Hb as [-> Hc]. cbn. destruct (Z.ltb_spec c 128); [|lia].
      by destruct (Z.ltb_spec (len (255 :: 192 :: c :: s)) 10); [lia|].
Qed.

(** A header read off the first [k] bytes, by their value. *)
Lemma has_header_intro k s : Forall byte s -> (1 <= k <= 10)%nat -> (k <= length s)%nat ->
  0 <= be_value (take k s) - header k < 2 ^ (7 * Z.of_nat k - 1) -> be_value (take k s) - header k < 2 ^ 63 ->
  exists x, has_header k x s.
Proof.
  intros Hs Hk Hl H1 H2. exists (be_value (take k s) - header k). unfold has_header, magnitude_code.
  split_and!; try done; try lia. rewrite (take_be_value k s) at 1 by done. f_equal. lia.
Qed.

Lemma be_value_take_cons k b s : Forall byte (b :: s) -> (k <= length s)%nat ->
  exists r, be_value (take (S k) (b :: s)) = b * 256 ^ Z.of_nat k + r /\ 0 <= r < 256 ^ Z.of_nat k /\ r = be_value (take k s).
Proof.
  intros Hs Hk. apply Forall_cons in Hs as [Hb Hs]. exists (be_value (take k s)). cbn [take firstn].
  assert (E : len (take k s) = Z.of_nat k) by (unfold len; rewrite length_take; lia).
  rewrite be_value_cons, E. split; [done|]. rewrite <- E. split; [|done]. apply be_value_range. auto with bytes.
Qed.

Lemma signed_length_sound s n : Forall byte s -> 128 <= nth 0 s 0 -> signed_length 0 s = Some n ->
  exists k x, n = Z.of_nat k /\ has_header k x s.
Proof.
  intros Hs H128. unfold signed_length. cbv zeta beta. change (0 &. 0xff) with 0. rewrite !Z.lxor_0_r.
  destruct s as [|h s]; [cbn in H128; lia|]. cbn [nth] in *. pose proof Hs as Hs'. apply Forall_cons in Hs' as [Hh Hs'].
  assert (Hlen : len (h :: s) = 1 + Z.of_nat (length s)) by (unfold len; cbn [length]; lia).
  unfold byte in Hh. destruct (Z.eqb_spec h 255) as [->|Hne]; cbn [negb].
  - destruct (Z.ltb_spec (len (255 :: s)) 8) as [|H8]; [done|]. rewrite Hlen in *.
    destruct s as [|b [|c s]]; [cbn [length] in H8; lia..|]. cbn [nth].
    apply Forall_cons in Hs' as [Hb Hs']. pose proof Hs' as Hcs. apply Forall_cons in Hcs as [Hc _]. unfold byte in Hb, Hc.
    assert (Hval : forall k, (k <= length s)%nat -> exists r, be_value (take (S (S (S k))) (255 :: b :: c :: s)) =
        255 * 256 ^ Z.of_nat (S (S k)) + b * 256 ^ Z.of_nat (S k) + c * 256 ^ Z.of_nat k + r /\ 0 <= r < 256 ^ Z.of_nat k).
    { intros k Hk. destruct (be_value_take_cons (S (S k)) 255 (b :: c :: s) Hs ltac:(cbn [length]; lia)) as (r1 & E1 & _ & ->).
      apply Forall_cons in Hs as [_ Hs2].
      destruct (be_value_take_cons (S k) b (c :: s) Hs2 ltac:(cbn [length]; lia)) as (r2 & E2 & _ & ->).
      destruct (be_value_take_cons k c s Hs' ltac:(lia)) as (r3 & E3 & Hr3 & _). exists r3. lia. }
    cbn [length] in *.
    assert (Hgo : forall k, (S (S (S k)) <= 10)%nat -> (k <= length s)%nat ->
      (forall r, 0 <= r < 256 ^ Z.of_nat k ->
        let v := 255 * 256 ^ Z.of_nat (S (S k)) + b * 256 ^ Z.of_nat (S k) + c * 256 ^ Z.of_nat k + r - header (S (S (S k))) in
        0 <= v < 2 ^ (7 * Z.of_nat (S (S (S k))) - 1) /\ v < 2 ^ 63) ->
      exists x, has_header (S (S (S k))) x (255 :: b :: c :: s)).
    { intros k Hk Hks Hv. destruct (Hval k Hks) as (r & E & Hr). specialize (Hv r Hr).
      cbv zeta in Hv. rewrite <- E in Hv. destruct Hv as [Hv1 Hv2].
      apply has_header_intro; [done|split; [apply le_n_S, Nat.le_0_l|done]|cbn [length]; lia|done|done]. }
    destruct (Z.leb_spec 0x80 b) as [Hb80|Hb80].
    + destruct (Z.ltb_spec b 0xc0) as [Hbc|Hbc].
      * destruct (Z.ltb_spec (1 + Z.of_nat (S (S (length s)))) 9); [done|]. intros [= <-]. exists 9%nat.
        destruct (Hgo 6%nat) as [x Hx]; [lia|lia| |by exists x]. intros r Hr. unfold header. cbn in Hr |- *. lia.
      * destruct (_ && _) eqn:E; [|done]. apply andb_true_iff in E as [E1 E2]. apply Z.eqb_eq in E1 as ->. apply Z.ltb_lt in E2.
        destruct (Z.ltb_spec (1 + Z.of_nat (S (S (length s)))) 10); [done|]. intros [= <-]. exists 10%nat.
        destruct (Hgo 7%nat) as [x Hx]; [lia|lia| |by exists x]. intros r Hr. unfold header. cbn in Hr |- *. lia.
    + intros [= <-]. exists 8%nat. destruct (Hgo 5%nat) as [x Hx]; [lia|lia| |by exists x]. intros r Hr. unfold header. cbn in Hr |- *. lia.
  - rewrite lxor_ff, Log2FloorNonZero_spec by (unfold byte; lia).
    pose proof (Z.log2_spec (255 - h) ltac:(lia)) as [Hlo Hhi]. pose proof (Z.log2_nonneg (255 - h)).
    pose proof (Z.log2_lt_pow2 (255 - h) 7 ltac:(lia)) as [Hl7 _]. specialize (Hl7 ltac:(lia)).
    set (j := Z.log2 (255 - h)) in *. rewrite Hlen. destruct (Z.ltb_spec (1 + Z.of_nat (length s)) (7 - j)); [done|].
    intros [= <-]. exists (Z.to_nat (7 - j)). assert (Hj : exists i, Z.to_nat (7 - j) = S i /\ j = 6 - Z.of_nat i /\ (i <= 6)%nat).
    { exists (Z.to_nat (6 - j)). lia. }
    destruct Hj as (i & -> & -> & Hi). destruct (be_value_take_cons i h s Hs ltac:(lia)) as (r & E & Hr & _).
    destruct (has_header_intro (S i) (h :: s)) as [x Hx]; [done|lia|cbn [length]; lia| | |exists x; split; [lia|done]];
      rewrite E; unfold header; repeat (destruct i as [|i]; try lia); cbn in *; lia.
Qed.

Lemma magnitude_code_range k x : (1 <= k)%nat -> 0 <= x < 2 ^ (7 * Z.of_nat k - 1) -> 0 <= header k + x < 256 ^ Z.of_nat k.
Proof.
  intros Hk Hx. unfold header. change 256 with (2 ^ 8). rewrite <- Z.pow_mul_r by lia.
  pose proof (Z.pow_le_mono_r 2 (7 * Z.of_nat k) (8 * Z.of_nat k)). pose proof (Z.pow_le_mono_r 2 (7 * Z.of_nat k - 1) (7 * Z.of_nat k)).
  lia.
Qed.

Definition sign_mask (neg : bool) : Z := if neg then UINT64_MAX else 0.

Lemma sint64_u64 n : int64 n -> sint 64 (u64 n) = n.
Proof. unfold int64, sint, u64. change (2 ^ (64 - 1)) with (2 ^ 63). intros. zcases; Z.div_mod_to_equations; lia. Qed.

(** What the bytes of a number with a header say, complemented or not. *)
Lemma signed_value neg k x src : Forall byte src -> has_header k x (map (conv neg) src) ->
  sint 64 ((if Z.of_nat k <? 8 then read_be (sign_mask neg) (take k src)
            else be_value (take 8 (drop (k - 8) src))) ^. nth k kLengthToMask 0) = if neg then Z.lnot x else x.
Proof.
  intros Hs (Hk & Hl & Hx & Hx63 & Ht). set (n := if neg then Z.lnot x else x).
  destruct (magnitude_signed neg x ltac:(lia)) as [Hneg Hmag]. fold n in Hneg, Hmag.
  assert (Hn : int64 n) by (unfold n, int64, Z.lnot; destruct neg; lia).
  set (m := n ^. header k).
  assert (Hm : m = if neg then Z.lnot (header k + x) else header k + x).
  { unfold m. rewrite <- Hneg, lxor_header, Hmag; [done|lia|rewrite Hmag].
    pose proof (Z.pow_le_mono_r 2 (7 * Z.of_nat k - 1) (7 * Z.of_nat k)). lia. }
  assert (E : take k src = be_bytes k m).
  { rewrite <- (map_conv_involutive neg src), firstn_map, Ht by done. unfold magnitude_code. rewrite Hm.
    destruct neg; [by rewrite be_bytes_lnot|apply List.map_id]. }
  rewrite length_map in Hl. pose proof (magnitude_code_range k x ltac:(lia) Hx) as Hr.
  assert (Hv : (if Z.of_nat k <? 8 then read_be (sign_mask neg) (take k src) else be_value (take 8 (drop (k - 8) src))) = u64 m).
  { destruct (Z.ltb_spec (Z.of_nat k) 8).
    - rewrite E, read_be_spec by (auto with bytes || (destruct neg; unfold sign_mask, UINT64_MAX; lia)).
      replace (len (be_bytes k m)) with (Z.of_nat k) by (unfold len; by rewrite be_bytes_length).
      rewrite be_value_be_bytes. set (p := 256 ^ Z.of_nat k) in *. unfold u64.
      destruct neg; unfold sign_mask, UINT64_MAX.
      + replace (m mod p) with (m + p) by (unfold Z.lnot in Hm; apply (Z.mod_unique _ _ (-1)); lia).
        replace ((2 ^ 64 - 1) * p + (m + p)) with (m + p * 2 ^ 64) by lia. apply Z_mod_plus_full.
      + by rewrite (Z.mod_small m) by lia.
    - replace (take 8 (drop (k - 8) src)) with (drop (k - 8) (take k src)).
      + rewrite E, drop_be_bytes by lia. apply be_value_be_bytes.
      + rewrite skipn_firstn_comm. f_equal. lia. }
  rewrite Hv, header_mask by lia. unfold u64. rewrite <- lxor_mod by lia.
  unfold m. rewrite Z.lxor_assoc, Z.lxor_nilpotent, Z.lxor_0_r. by apply sint64_u64.
Qed.

(** What the reader does with a string that has a header. *)
Lemma read_signed_header neg k x src : Forall byte src -> neg = (nth 0 src 0 <? 128) ->
  has_header k x (map (conv neg) src) ->
  let n := if neg then Z.lnot x else x in
  ReadSignedNumIncreasing src =
    if (k =? signed_len n)%nat then (Some (Some n), drop k src) else (None, src).
Proof.
  intros Hs Hneg Hh. pose proof Hh as (Hk & Hl & Hx & Hx63 & _). rewrite length_map in Hl. cbv zeta.
  set (n := if neg then Z.lnot x else x). assert (Hn : int64 n) by (unfold n, int64, Z.lnot; destruct neg; lia).
  assert (Hne : src <> []) by (intros ->; cbn in Hl; lia). unfold ReadSignedNumIncreasing.
  destruct (Z.eqb_spec (len src) 0) as [E|_]; [unfold len in E; lia|].
  rewrite byte_high_bit, <- Hneg by (destruct Hs; done). rewrite signed_length_conv by done.
  rewrite (signed_length_complete k x) by done. rewrite Nat2Z.id. replace (Z.to_nat (Z.of_nat k - 8)) with (k - 8)%nat by lia.
  cbv zeta. pose proof (signed_value neg k x src Hs Hh) as E. unfold sign_mask in E. rewrite E. fold n.
  destruct (signed_len_spec n Hn) as (H1 & _). unfold signed_len in *.
  destruct (Nat.eqb_spec k (Z.to_nat (SignedEncodingLength n))) as [E'|E'], (Z.eqb_spec (Z.of_nat k) (SignedEncodingLength n)); try done; lia.
Qed.

Lemma signed_code_head n : int64 n -> exists b t, signed_code n = b :: t /\ byte b /\ (n <? 0) = (b <? 128).
Proof.
  intros Hn. destruct (signed_len_spec n Hn) as (H1 & H2 & _). pose proof (magnitude_range n Hn).
  unfold signed_code. assert (H128 : exists b t, magnitude_code (signed_len n) (magnitude n) = b :: t /\ 128 <= b < 256).
  { destruct (decide (signed_len n <= 7)%nat).
    - destruct (magnitude_code_short (signed_len n) (magnitude n)) as (b & t & E & Hb & Hb0); [lia..|].
      exists b, t. split; [done|]. assert (2 ^ (7 - Z.of_nat (signed_len n) + 1) <= 2 ^ 7) by (apply Z.pow_le_mono_r; lia).
      assert (0 < 2 ^ (7 - Z.of_nat (signed_len n))) by (apply Z.pow_pos_nonneg; lia). lia.
    - destruct (magnitude_code_long (signed_len n) (magnitude n)) as (b & c & t & E & _); [lia..|].
      exists 255, (b :: c :: t). split; [done|lia]. }
  destruct H128 as (b & t & -> & Hb). cbn [map]. eexists _, _. split; [done|].
  destruct (n <? 0); [rewrite conv_true by (unfold byte; lia)|unfold conv]; split; unfold byte; zcases.
Qed.

Lemma signed_code_byte n : Forall byte (signed_code n).
Proof. apply map_conv_byte, be_bytes_byte. Qed.

Lemma signed_code_length n : length (signed_code n) = signed_len n.
Proof. unfold signed_code. rewrite length_map. apply be_bytes_length. Qed.

Lemma read_signed_complete n rest : int64 n -> Forall byte rest ->
  ReadSignedNumIncreasing (signed_code n ++ rest) = (Some (Some n), rest).
Proof.
  intros Hn Hr. destruct (signed_code_head n Hn) as (b & t & E & Hb & Hs).
  assert (E' : n = if n <? 0 then Z.lnot (magnitude n) else magnitude n).
  { unfold magnitude. destruct (n <? 0); [by rewrite Z.lnot_involutive|done]. }
  rewrite (read_signed_header (n <? 0) (signed_len n) (magnitude n)).
  - rewrite <- E', Nat.eqb_refl. by rewrite drop_app_exact by (by rewrite signed_code_length).
  - apply Forall_app. split; [apply signed_code_byte|done].
  - by rewrite E.
  - by apply signed_code_header.
Qed.

Lemma read_signed_sound src n rest : Forall byte src -> ReadSignedNumIncreasing src = (Some (Some n), rest) ->
  int64 n /\ Forall byte rest /\ src = signed_code n ++ rest.
Proof.
  intros Hs. unfold ReadSignedNumIncreasing at 1. destruct Hs as [|b s Hb Hs]; [done|].
  set (src := b :: s). assert (Hs' : Forall byte src) by (by constructor).
  destruct (Z.eqb_spec (len src) 0) as [E|_]; [done|]. rewrite byte_high_bit by done.
  change (nth 0 src 0) with b. set (neg := b <? 128). fold (sign_mask neg).
  destruct (signed_length (sign_mask neg) src) as [l|] eqn:El; [|done]. intros Hread.
  unfold sign_mask in El. rewrite signed_length_conv in El by done.
  assert (Hhd : 128 <= nth 0 (map (conv neg) src) 0).
  { unfold src, byte in *. cbn [map nth]. unfold neg. destruct (Z.ltb_spec b 128); [rewrite conv_true by (unfold byte; lia); lia|done]. }
  destruct (signed_length_sound _ l (map_conv_byte neg _ Hs') Hhd El) as (k & x & -> & Hh).
  pose proof (read_signed_header neg k x src Hs' eq_refl Hh) as Hr. cbv zeta in Hr.
  unfold ReadSignedNumIncreasing in Hr. change (len src =? 0) with false in Hr.
  rewrite byte_high_bit in Hr by done. change (nth 0 src 0) with b in Hr. fold neg in Hr. 
  change (if neg then UINT64_MAX else 0) with (sign_mask neg) in Hr. rewrite <- signed_length_conv in El by done.
  fold (sign_mask neg) in El. rewrite El in Hr. rewrite Hr in Hread. clear Hr.
  pose proof Hh as (Hk & Hl & Hx & Hx63 & Ht).
  set (m := if neg then Z.lnot x else x) in *. destruct (Nat.eqb_spec k (signed_len m)) as [E|]; [|done].
  injection Hread as <- <-. destruct (magnitude_signed neg x ltac:(lia)) as [Hneg Hmag]. fold m in Hneg, Hmag.
  split; [unfold m, int64, Z.lnot; destruct neg; lia|]. split; [by apply bytes_drop|].
  rewrite <- (take_drop k src) at 1. f_equal. unfold signed_code. rewrite Hneg, Hmag, <- E, <- Ht, <- firstn_map.
  by rewrite map_conv_involutive.
Qed.

(** ** Order *)

Lemma magnitude_code_below k1 k2 x y : (1 <= k1 <= k2)%nat -> 0 <= x < 2 ^ (7 * Z.of_nat k1 - 1) ->
  0 <= y < 2 ^ (7 * Z.of_nat k2 - 1) -> x < y -> below (magnitude_code k1 x) (magnitude_code k2 y).
Proof.
  intros Hk Hx Hy Hlt. unfold magnitude_code.
  pose proof (magnitude_code_range k1 x ltac:(lia) Hx). pose proof (magnitude_code_range k2 y ltac:(lia) Hy).
  destruct (decide (k1 = k2)) as [<-|Hne]; [apply be_bytes_below; lia|].
  rewrite <- (app_nil_r (be_bytes k1 _)). replace k2 with (k1 + (k2 - k1))%nat at 1 by lia.
  rewrite be_bytes_app. apply diverge_app.
  set (q := 256 ^ Z.of_nat (k2 - k1)). assert (Hq : 0 < q) by (apply Z.pow_pos_nonneg; lia).
  assert (E : 256 ^ Z.of_nat k2 = 256 ^ Z.of_nat k1 * q).
  { unfold q. rewrite <- Z.pow_add_r by lia. f_equal. lia. }
  assert (Hgap : 2 ^ (7 * Z.of_nat k2) <= 2 ^ (7 * Z.of_nat k1 - 1) * q).
  { unfold q. change 256 with (2 ^ 8). rewrite <- Z.pow_mul_r, <- Z.pow_add_r by lia. apply Z.pow_le_mono_r; lia. }
  assert (Hhalf : 2 * 2 ^ (7 * Z.of_nat k1 - 1) = 2 ^ (7 * Z.of_nat k1)).
  { rewrite <- Z.pow_succ_r by lia. f_equal. lia. }
  apply be_bytes_below; unfold header in *.
  - split; [lia|]. apply Z.lt_le_trans with (256 ^ Z.of_nat k1 - 2 ^ (7 * Z.of_nat k1 - 1)); [lia|].
    apply Z.div_le_lower_bound; [done|]. rewrite E. nia.
  - apply Z.div_lt_upper_bound; [done|]. nia.
Qed.

Lemma signed_below_nonneg n m : int64 n -> int64 m -> magnitude n < magnitude m ->
  below (magnitude_code (signed_len n) (magnitude n)) (magnitude_code (signed_len m) (magnitude m)).
Proof.
  intros Hn Hm H. pose proof (magnitude_range n Hn). pose proof (magnitude_range m Hm).
  destruct (signed_len_spec n Hn) as (Hl1 & Hl2 & _), (signed_len_spec m Hm) as (_ & Hl3 & _).
  pose proof (signed_len_mono n m Hn Hm ltac:(lia)). apply magnitude_code_below; lia.
Qed.

#[export] Instance signed_ordered : OrderedCode int64 Z.lt signed_code.
Proof.
  split; [|intros; lia]. intros n m Hn Hm H.
  destruct (signed_code_head n Hn) as (b & t & En & Hb & Hbn), (signed_code_head m Hm) as (c & u & Em & Hc & Hcm).
  destruct (Z.ltb_spec n 0) as [Hn0|Hn0], (Z.ltb_spec m 0) as [Hm0|Hm0]; [| |lia|].
  - unfold signed_code. apply Z.ltb_lt in Hn0, Hm0. rewrite Hn0, Hm0. apply below_conv; [apply be_bytes_byte..|].
    apply signed_below_nonneg; [done..|]. unfold magnitude. rewrite Hn0, Hm0. unfold Z.lnot. lia.
  - rewrite En, Em. apply diverge_here. symmetry in Hbn, Hcm. apply Z.ltb_lt in Hbn. apply Z.ltb_ge in Hcm. lia.
  - unfold signed_code. apply Z.ltb_ge in Hn0, Hm0. rewrite Hn0, Hm0. cbn [conv]. rewrite !List.map_id.
    apply signed_below_nonneg; [done..|]. unfold magnitude. by rewrite Hn0, Hm0.
Qed.

Lemma lnot_int64 n : int64 n -> int64 (Z.lnot n).
Proof. unfold int64, Z.lnot. lia. Qed.

#[export] Instance signed_decreasing_ordered : OrderedCode int64 (flip Z.lt) (fun n => signed_code (Z.lnot n)).
Proof.
  split; [|intros; unfold flip; lia]. intros n m Hn Hm H. apply (code_below (lt := Z.lt) (enc := signed_code)); [by apply lnot_int64..|].
  unfold flip, Z.lnot in *. lia.
Qed.

(** ** Doubles *)

(** The number that the bits of an IEEE double stand for. *)
Definition double (bits : Z) : spec_float :=
  let sign := 2 ^ 63 <=? bits in
  let expo := (bits / 2 ^ 52) mod 2 ^ 11 in
  let frac := bits mod 2 ^ 52 in
  if expo =? 2 ^ 11 - 1 then (if frac =? 0 then S754_infinity sign else S754_nan)
  else if expo =? 0 then
    match frac with Zpos m => S754_finite sign m (-1074) | _ => S754_zero sign end
  else
    match frac + 2 ^ 52 with Zpos m => S754_finite sign m (expo - 1075) | _ => S754_nan end.

Definition is_nan (x : spec_float) : bool := match x with S754_nan => true | _ => false end.

(** Below the sign, the order of the numbers is that of their bits. *)
Definition double_magnitude (bits : Z) : Z := bits mod 2 ^ 63.

Lemma EncodeDouble_magnitude bits : uint64 bits ->
  EncodeDoubleAsInt64 bits = if 2 ^ 63 <=? bits then - double_magnitude bits else double_magnitude bits.
Proof.
  unfold uint64, EncodeDoubleAsInt64, double_magnitude, sint. change (2 ^ (64 - 1)) with (2 ^ 63). intros H.
  zcases; Z.div_mod_to_equations; lia.
Qed.

Lemma EncodeDouble_int64 bits : uint64 bits -> int64 (EncodeDoubleAsInt64 bits).
Proof.
  intros H. rewrite EncodeDouble_magnitude by done. unfold int64, double_magnitude.
  pose proof (Z.mod_pos_bound bits (2 ^ 63)). zcases.
Qed.

(** Only the sign of zero is lost. *)
Lemma DecodeDouble_Encode bits : uint64 bits ->
  DecodeDoubleFromInt64 (EncodeDoubleAsInt64 bits) = if bits =? 2 ^ 63 then 0 else bits.
Proof.
  unfold uint64, EncodeDoubleAsInt64, DecodeDoubleFromInt64, sint, u64. change (2 ^ (64 - 1)) with (2 ^ 63). intros H.
  zcases; Z.div_mod_to_equations; lia.
Qed.

(** What is known of the bits of each kind of number. *)
Inductive double_bits (s : bool) (M : Z) : spec_float -> Prop :=
  | bits_zero : M = 0 -> double_bits s M (S754_zero s)
  | bits_infinity : M = 2047 * 2 ^ 52 -> double_bits s M (S754_infinity s)
  | bits_finite m e : M = (e + 1074) * 2 ^ 52 + Zpos m -> -1074 <= e <= 971 -> Zpos m < 2 ^ 53 ->
      (-1074 < e -> 2 ^ 52 <= Zpos m) -> double_bits s M (S754_finite s m e).

Lemma double_spec bits : uint64 bits -> is_nan (double bits) = false ->
  double_bits (2 ^ 63 <=? bits) (double_magnitude bits) (double bits).
Proof.
  unfold uint64, double, double_magnitude. intros Hb. set (s := 2 ^ 63 <=? bits).
  set (e := (bits / 2 ^ 52) mod 2 ^ 11). set (f := bits mod 2 ^ 52).
  assert (HM : bits mod 2 ^ 63 = e * 2 ^ 52 + f /\ 0 <= e < 2 ^ 11 /\ 0 <= f < 2 ^ 52).
  { unfold e, f. Z.div_mod_to_equations. lia. }
  destruct HM as (-> & He & Hf). clearbody s e f. clear Hb. destruct (Z.eqb_spec e (2 ^ 11 - 1)).
  - destruct (Z.eqb_spec f 0); [|done]. intros _. apply bits_infinity. lia.
  - destruct (Z.eqb_spec e 0) as [->|].
    + destruct f as [|m|]; intros _; [by apply bits_zero|apply bits_finite; lia|lia].
    + destruct (f + 2 ^ 52) as [|m|] eqn:Em; intros _; [lia|apply bits_finite; lia|lia].
Qed.

Lemma compare_lt_intro x y : x < y -> (x ?= y) = Lt.
Proof. by intros ?%Z.compare_lt_iff. Qed.
Lemma compare_gt_intro x y : y < x -> (x ?= y) = Gt.
Proof. by intros ?%Z.compare_gt_iff. Qed.

(** Comparing numbers of one sign compares what the bits below it say. *)
Lemma finite_compare M1 M2 m1 m2 e1 e2 s t : double_bits s M1 (S754_finite s m1 e1) -> double_bits t M2 (S754_finite t m2 e2) ->
  match e1 ?= e2 with Lt => Lt | Gt => Gt | Eq => Pos.compare_cont Eq m1 m2 end = (M1 ?= M2).
Proof.
  intros H1 H2. inversion H1; subst. inversion H2; subst. destruct (Z.compare_spec e1 e2) as [->|Hlt|Hgt].
  - change (Pos.compare_cont Eq m1 m2) with (Zpos m1 ?= Zpos m2).
    destruct (Z.compare_spec (Zpos m1) (Zpos m2)) as [->| |]; symmetry; [apply Z.compare_refl|apply compare_lt_intro|apply compare_gt_intro]; lia.
  - symmetry. apply compare_lt_intro. nia.
  - symmetry. apply compare_gt_intro. nia.
Qed.

Lemma double_compare a b : uint64 a -> uint64 b -> is_nan (double a) = false -> is_nan (double b) = false ->
  SFcompare (double a) (double b) = Some (EncodeDoubleAsInt64 a ?= EncodeDoubleAsInt64 b).
Proof.
  intros Ha Hb Na Nb. rewrite !EncodeDouble_magnitude by done. pose proof (double_spec a Ha Na) as Da. pose proof (double_spec b Hb Nb) as Db.
  set (s := 2 ^ 63 <=? a) in *. set (t := 2 ^ 63 <=? b) in *. set (M1 := double_magnitude a) in *. set (M2 := double_magnitude b) in *.
  clearbody s t M1 M2. pose proof Da as Da'. pose proof Db as Db'.
  destruct Da as [E1|E1|m1 e1 E1 B1 C1 D1], Db as [E2|E2|m2 e2 E2 B2 C2 D2]; cbn [SFcompare]; f_equal;
    try (by destruct s, t; subst; symmetry; first [apply Z.compare_refl|apply compare_lt_intro; lia|apply compare_gt_intro; lia]).
  pose proof (finite_compare _ _ _ _ _ _ _ _ Da' Db') as Hc.
  destruct s, t; [|symmetry; apply compare_lt_intro; lia|symmetry; apply compare_gt_intro; lia|done].
  rewrite Z.compare_opp, (Z.compare_antisym M1 M2), <- Hc. by destruct (e1 ?= e2).
Qed.

(** ** Reading what was written, in each direction *)

Lemma write_signed_decreasing_spec n dest : int64 n ->
  WriteSignedNumDecreasing n dest = (Some tt, dest ++ signed_code (Z.lnot n)).
Proof. intros Hn. by apply write_signed_spec, lnot_int64. Qed.

Lemma read_signed_decreasing_complete n rest : int64 n -> Forall byte rest ->
  ReadSignedNumDecreasing (signed_code (Z.lnot n) ++ rest) = (Some (Some n), rest).
Proof.
  intros Hn Hr. unfold ReadSignedNumDecreasing, bind, ret. rewrite read_signed_complete by (done || by apply lnot_int64).
  cbn [fmap option_fmap option_map]. by rewrite Z.lnot_involutive.
Qed.

Lemma read_signed_decreasing_sound src n rest : Forall byte src -> ReadSignedNumDecreasing src = (Some (Some n), rest) ->
  int64 n /\ Forall byte rest /\ src = signed_code (Z.lnot n) ++ rest.
Proof.
  intros Hs. unfold ReadSignedNumDecreasing, bind, ret. destruct (ReadSignedNumIncreasing src) as [[[m|]|] s'] eqn:E; try done.
  cbn [fmap option_fmap option_map]. intros [= <- <-]. destruct (read_signed_sound src m s' Hs E) as (Hm & Hr & ->).
  rewrite Z.lnot_involutive. split_and!; [by apply lnot_int64|done|done].
Qed.
