(* ===== verification/OrderedCodeProps.v ===== *)
(** [OrderedCode] as its header describes it: the items of a key, written one after another, compare
    as bytes the way the items compare one after another, and are read back one by one.

    An item is a string, a string or infinity, a number, a signed number or a double, written in
    increasing or decreasing order; what a key consists of is a list of kinds with directions. *)
From Stdlib Require Import SpecFloat.
From stdpp Require Import sets.
From S2P Require Import Prelude Ordered OrderedCode OrderedCodeStrings OrderedCodeNums OrderedCodeSigned.

Inductive kind := KString | KStringOrInfinity | KNum | KSigned | KDouble.
Inductive value := VString (s : list Z) | VInfinity | VNum (n : Z) | VSigned (n : Z) | VDouble (bits : Z).

Definition write_item (decreasing : bool) (v : value) : M (list Z) unit :=
  match v with
  | VString s => if decreasing then WriteStringDecreasing s else WriteString s
  | VInfinity => if decreasing then WriteInfinityDecreasing else WriteInfinity
  | VNum n => if decreasing then WriteNumDecreasing n else WriteNumIncreasing n
  | VSigned n => if decreasing then WriteSignedNumDecreasing n else WriteSignedNumIncreasing n
  | VDouble b => if decreasing then WriteDoubleDecreasing b else WriteDoubleIncreasing b
  end.

Definition read_map {A} (f : A -> value) (m : M (list Z) (option A)) : M (list Z) (option value) :=
  let* r := m in ret (f <$> r).

Definition read_item (decreasing : bool) (k : kind) : M (list Z) (option value) :=
  match k with
  | KString => read_map VString (if decreasing then ReadStringDecreasing else ReadString)
  | KStringOrInfinity =>
      read_map (fun '(s, inf) => if (inf : bool) then VInfinity else VString s)
               (if decreasing then ReadStringOrInfinityDecreasing else ReadStringOrInfinity)
  | KNum => read_map VNum (if decreasing then ReadNumDecreasing else ReadNumIncreasing)
  | KSigned => read_map VSigned (if decreasing then ReadSignedNumDecreasing else ReadSignedNumIncreasing)
  | KDouble => read_map VDouble (if decreasing then ReadDoubleDecreasing else ReadDoubleIncreasing)
  end.

(** The values of a kind.  A double is given by its bits; the code has one zero. *)
Definition fits (k : kind) (v : value) : Prop :=
  match k, v with
  | (KString | KStringOrInfinity), VString s => Forall byte s
  | KStringOrInfinity, VInfinity => True
  | KNum, VNum n => uint64 n
  | KSigned, VSigned n => int64 n
  | KDouble, VDouble b => uint64 b /\ b <> 2 ^ 63
  | _, _ => False
  end.
Definition comparable (v : value) : Prop :=
  match v with VDouble b => is_nan (double b) = false | _ => True end.

(** Infinity is above every string. *)
Definition value_lt (v w : value) : Prop :=
  match v, w with
  | VString s, VString t => lex_lt s t
  | VString _, VInfinity => True
  | VNum n, VNum m | VSigned n, VSigned m => n < m
  | VDouble a, VDouble b => SFltb (double a) (double b) = true
  | _, _ => False
  end.
Definition item_lt (decreasing : bool) (v w : value) : Prop := if decreasing then value_lt w v else value_lt v w.

Definition value_code (v : value) : list Z :=
  match v with
  | VString s => string_code false s
  | VInfinity => [kEscape2; kInfinity]
  | VNum n => num_code n
  | VSigned n => signed_code n
  | VDouble b => signed_code (EncodeDoubleAsInt64 b)
  end.
Definition item_code (decreasing : bool) (v : value) : list Z := map (conv decreasing) (value_code v).

(** ** Items *)

Lemma conv_conv_true n : map (conv true) (signed_code n) = signed_code (Z.lnot n).
Proof.
  unfold signed_code, magnitude, signed_len, SignedEncodingLength. rewrite !Z.lnot_involutive.
  assert (Hb : forall l, Forall byte l -> map (conv true) (map (conv true) l) = l) by (intros; by apply map_conv_involutive).
  destruct (Z.ltb_spec n 0), (Z.ltb_spec (Z.lnot n) 0); unfold Z.lnot in *; try lia.
  - rewrite Hb by apply be_bytes_byte. cbn [conv]. by rewrite List.map_id.
  - cbn [conv]. by rewrite List.map_id.
Qed.

Lemma item_signed_code dec n : map (conv dec) (signed_code n) = signed_code (if dec then Z.lnot n else n).
Proof. destruct dec; [apply conv_conv_true|apply List.map_id]. Qed.

Lemma item_string_code dec s : map (conv dec) (string_code false s) = string_code dec s.
Proof. unfold string_code. by rewrite !List.map_id. Qed.

Lemma value_code_byte k v : fits k v -> Forall byte (value_code v).
Proof.
  destruct v; cbn [value_code]; intros H.
  - unfold string_code. apply map_conv_byte, Forall_app. split; [apply escape_byte; by destruct k|].
    unfold kEscape1_Separator, kEscape1, kSeparator. bytes_lit.
  - unfold kEscape2, kInfinity. bytes_lit.
  - apply num_code_byte. by destruct k.
  - apply signed_code_byte.
  - apply signed_code_byte.
Qed.

Lemma item_code_byte dec k v : fits k v -> Forall byte (item_code dec v).
Proof. intros H. by apply map_conv_byte, (value_code_byte k). Qed.

Lemma write_item_spec dec k v dest : fits k v -> write_item dec v dest = (Some tt, dest ++ item_code dec v).
Proof.
  unfold item_code, fits. destruct v; cbn [write_item value_code].
  - intros H. assert (Hs : Forall byte s) by (by destruct k). rewrite item_string_code.
    destruct dec; by apply write_string_spec.
  - intros _. by destruct dec.
  - intros H. assert (Hn : uint64 n) by (by destruct k). destruct dec; [by apply write_decreasing_spec|].
    rewrite List.map_id. by apply write_increasing_spec.
  - intros H. assert (Hn : int64 n) by (by destruct k). rewrite item_signed_code.
    destruct dec; [by apply write_signed_decreasing_spec|by apply write_signed_spec].
  - intros H. assert (Hn : uint64 bits) by (by destruct k, H). rewrite item_signed_code. apply EncodeDouble_int64 in Hn.
    destruct dec; [by apply write_signed_decreasing_spec|by apply write_signed_spec].
Qed.

(** Reading a number that was written decreasing, by its complement. *)
Lemma read_decreasing_complete n rest : uint64 n -> Forall byte rest ->
  ReadNumDecreasing (map (conv true) (num_code n) ++ rest) = (Some (Some n), rest).
Proof.
  intros Hn Hr. rewrite read_decreasing_inverts by (apply Forall_app; split; [by apply map_conv_byte, num_code_byte|done]).
  rewrite map_app, map_conv_involutive, read_increasing_complete by (done || by apply num_code_byte). cbn [fst snd].
  by rewrite map_conv_involutive.
Qed.

Lemma read_decreasing_sound src n rest : Forall byte src -> ReadNumDecreasing src = (Some (Some n), rest) ->
  uint64 n /\ Forall byte rest /\ src = map (conv true) (num_code n) ++ rest.
Proof.
  intros Hs. rewrite read_decreasing_inverts by done.
  destruct (ReadNumIncreasing (map (conv true) src)) as [r rest'] eqn:E. cbn [fst snd]. intros [= -> <-].
  apply read_increasing_sound in E as (Hn & Hr & E); [|by apply map_conv_byte].
  split; [done|]. split; [by apply map_conv_byte|].
  by rewrite <- (map_conv_involutive true src), E, map_app by done.
Qed.

Lemma read_infinity_string dec s rest : Forall byte s ->
  ReadInfinityInternal dec (string_code dec s ++ rest) = (Some false, string_code dec s ++ rest).
Proof.
  intros Hs. unfold ReadInfinityInternal. destruct ((_ <=? _)%nat && _ && _) eqn:E; [|done]. exfalso.
  apply andb_true_iff in E as [E E2]. apply andb_true_iff in E as [E E1]. apply Z.eqb_eq in E1, E2. clear E.
  revert E1 E2. unfold string_code. destruct Hs as [|c s Hc Hs].
  - by destruct dec.
  - rewrite escape_cons. unfold esc, kEscape1, kEscape2, kNullCharacter, kFFCharacter, kInfinity, byte in *.
    destruct (Z.eqb_spec c 0); [by destruct dec|]. destruct (Z.eqb_spec c 255); [by destruct dec|].
    cbn [app map nth]. intros E1 _. destruct dec; [|done]. rewrite conv_true in E1 by done. change (Convert 8 true 255) with 0 in E1. lia.
Qed.

Lemma read_map_some {A} (f : A -> value) m src a rest :
  m src = (Some (Some a), rest) -> read_map f m src = (Some (Some (f a)), rest).
Proof. unfold read_map, bind, ret. by intros ->. Qed.

Lemma read_string_complete dec s rest : Forall byte s -> Forall byte rest ->
  ReadStringInternal dec (string_code dec s ++ rest) = (Some (Some s), rest).
Proof.
  intros Hs Hr. assert (Hc : Forall byte (string_code dec s)).
  { unfold string_code. apply map_conv_byte, Forall_app. split; [by apply escape_byte|].
    unfold kEscape1_Separator, kEscape1, kSeparator. bytes_lit. }
  rewrite read_string_spec by (by apply Forall_app). by rewrite parse_complete.
Qed.

Lemma read_item_complete dec k v rest : fits k v -> Forall byte rest ->
  read_item dec k (item_code dec v ++ rest) = (Some (Some v), rest).
Proof.
  intros Hv Hr. unfold item_code. destruct k, v; cbn [fits read_item value_code] in *; try done; rewrite ?item_string_code, ?item_signed_code.
  - destruct dec; by apply read_map_some, read_string_complete.
  - unfold read_map, bind, ret.
    assert (E : (if dec then ReadStringOrInfinityDecreasing else ReadStringOrInfinity) (string_code dec s ++ rest) = (Some (Some (s, false)), rest)).
    { transitivity (ReadStringOrInfinityInternal dec (string_code dec s ++ rest)); [by destruct dec|].
      unfold ReadStringOrInfinityInternal, bind. rewrite read_infinity_string by done.
      replace (if dec then ReadStringDecreasing else ReadString) with (ReadStringInternal dec) by (by destruct dec).
      by rewrite read_string_complete. }
    by rewrite E.
  - by destruct dec.
  - destruct dec; [by apply read_map_some, read_decreasing_complete|]. rewrite List.map_id.
    by apply read_map_some, read_increasing_complete.
  - destruct dec; [by apply read_map_some, read_signed_decreasing_complete|by apply read_map_some, read_signed_complete].
  - destruct Hv as [Hb Hz]. pose proof (DecodeDouble_Encode bits Hb) as E. apply Z.eqb_neq in Hz. rewrite Hz in E.
    apply EncodeDouble_int64 in Hb. unfold read_map, ReadDoubleIncreasing, ReadDoubleDecreasing, bind, ret.
    destruct dec; rewrite ?read_signed_decreasing_complete, ?read_signed_complete by done;
      cbn [fmap option_fmap option_map]; by rewrite E.
Qed.

(** The doubles apart: every number has a double, but minus zero and the least number have none
    that is written as they are. *)
Lemma read_item_sound dec k src v rest : k <> KDouble -> Forall byte src ->
  read_item dec k src = (Some (Some v), rest) -> fits k v /\ Forall byte rest /\ src = item_code dec v ++ rest.
Proof.
  intros Hk Hs. unfold item_code.
  assert (Hstr : forall src s rest, Forall byte src -> ReadStringInternal dec src = (Some (Some s), rest) ->
    Forall byte s /\ Forall byte rest /\ src = map (conv dec) (string_code false s) ++ rest).
  { clear. intros src s rest Hs. rewrite read_string_spec, item_string_code by done.
    destruct (parse dec src) as [[s' rest']|] eqn:E; intros [= <- <-]. by apply parse_sound. }
  assert (Hdec : (if dec then ReadStringDecreasing else ReadString) = ReadStringInternal dec) by (by destruct dec).
  destruct k; cbn [read_item]; rewrite ?Hdec; unfold read_map, bind, ret; try done.
  - destruct (ReadStringInternal dec src) as [[[s|]|] r] eqn:E; intros [= <- <-]. by apply Hstr.
  - replace (if dec then ReadStringOrInfinityDecreasing else ReadStringOrInfinity) with (ReadStringOrInfinityInternal dec) by (by destruct dec).
    unfold ReadStringOrInfinityInternal, bind, ret. rewrite Hdec. destruct (ReadInfinityInternal dec src) as [[[|]|] r] eqn:E; try done.
    + intros [= <- <-]. unfold ReadInfinityInternal in E. destruct ((_ <=? _)%nat && _ && _) eqn:Ec; [|done]. injection E as <-.
      apply andb_true_iff in Ec as [Ec E2]. apply andb_true_iff in Ec as [El E1]. apply Z.eqb_eq in E1, E2.
      destruct Hs as [|a s Ha [|b s' Hb Hs]]; [done|done|]. cbn [nth] in E1, E2. subst.
      split; [done|]. split; [done|]. by destruct dec.
    + assert (r = src) as ->. { unfold ReadInfinityInternal in E. by destruct (_ && _ && _); injection E. }
      destruct (ReadStringInternal dec src) as [[[s|]|] r] eqn:E'; intros [= <- <-]. by apply Hstr.
  - destruct dec.
    + destruct (ReadNumDecreasing src) as [[[n|]|] r] eqn:E; intros [= <- <-]. by apply read_decreasing_sound.
    + destruct (ReadNumIncreasing src) as [[[n|]|] r] eqn:E; intros [= <- <-]. rewrite List.map_id. by apply read_increasing_sound.
  - destruct dec.
    + destruct (ReadSignedNumDecreasing src) as [[[n|]|] r] eqn:E; intros [= <- <-]. cbn [fits value_code]. rewrite item_signed_code. by apply read_signed_decreasing_sound.
    + destruct (ReadSignedNumIncreasing src) as [[[n|]|] r] eqn:E; intros [= <- <-]. cbn [fits value_code]. rewrite item_signed_code. by apply read_signed_sound.
Qed.

(** A reader that returns [false] has consumed nothing. *)
Lemma read_item_false dec k src src' : Forall byte src -> read_item dec k src = (Some None, src') -> src' = src.
Proof.
  intros Hs. assert (Hstr : forall src', ReadStringInternal dec src = (Some None, src') -> src' = src).
  { intros s'. rewrite read_string_spec by done. destruct (parse dec src) as [[]|]; [done|]. by intros [= <-]. }
  assert (Hsig : forall src', ReadSignedNumIncreasing src = (Some None, src') -> src' = src).
  { intros s'. unfold ReadSignedNumIncreasing. break; congruence. }
  destruct k; cbn [read_item]; unfold read_map, ReadDoubleIncreasing, ReadDoubleDecreasing, ReadSignedNumDecreasing, bind, ret.
  - replace (if dec then ReadStringDecreasing else ReadString) with (ReadStringInternal dec) by (by destruct dec).
    destruct (ReadStringInternal dec src) as [[[s|]|] r] eqn:E; intros [= <-]. by apply Hstr.
  - replace (if dec then ReadStringOrInfinityDecreasing else ReadStringOrInfinity) with (ReadStringOrInfinityInternal dec) by (by destruct dec).
    unfold ReadStringOrInfinityInternal, bind, ret.
    replace (if dec then ReadStringDecreasing else ReadString) with (ReadStringInternal dec) by (by destruct dec).
    destruct (ReadInfinityInternal dec src) as [[[|]|] r] eqn:E; try done.
    assert (r = src) as ->. { unfold ReadInfinityInternal in E. by destruct (_ && _ && _); injection E. }
    destruct (ReadStringInternal dec src) as [[[s|]|] r] eqn:E'; intros [= <-]. by apply Hstr.
  - destruct dec; [destruct (ReadNumDecreasing src) as [[[n|]|] r] eqn:E|destruct (ReadNumIncreasing src) as [[[n|]|] r] eqn:E]; intros [= <-];
      revert E; unfold ReadNumDecreasing, ReadNumIncreasing; break; congruence.
  - destruct dec; destruct (ReadSignedNumIncreasing src) as [[[n|]|] r] eqn:E; intros [= <-]; by apply Hsig.
  - destruct dec; destruct (ReadSignedNumIncreasing src) as [[[n|]|] r] eqn:E; intros [= <-]; by apply Hsig.
Qed.

(** ** Order *)

Definition ordered (k : kind) (v : value) : Prop := fits k v /\ comparable v.

Lemma double_lt_iff a b : uint64 a -> uint64 b -> is_nan (double a) = false -> is_nan (double b) = false ->
  SFltb (double a) (double b) = true <-> EncodeDoubleAsInt64 a < EncodeDoubleAsInt64 b.
Proof.
  intros. unfold SFltb. rewrite double_compare by done. rewrite <- Z.compare_lt_iff. by destruct (_ ?= _).
Qed.

Lemma EncodeDouble_inj a b : uint64 a -> uint64 b -> a <> 2 ^ 63 -> b <> 2 ^ 63 ->
  EncodeDoubleAsInt64 a = EncodeDoubleAsInt64 b -> a = b.
Proof.
  intros Ha Hb Za Zb E. apply Z.eqb_neq in Za, Zb.
  pose proof (DecodeDouble_Encode a Ha) as Ea. pose proof (DecodeDouble_Encode b Hb) as Eb. rewrite Za in Ea. rewrite Zb in Eb. congruence.
Qed.

#[export] Instance value_ordered k : OrderedCode (ordered k) value_lt value_code.
Proof.
  split; intros v w [Hv Cv] [Hw Cw].
  - destruct k, v, w; cbn [fits value_lt value_code comparable] in *; intros H; try done.
    + by apply (code_below (lt := lex_lt)).
    + by apply (code_below (lt := lex_lt)).
    + by apply infinity_above.
    + by apply (code_below (lt := Z.lt)).
    + by apply (code_below (lt := Z.lt)).
    + destruct Hv, Hw. apply double_lt_iff in H; [|done..]. apply (code_below (lt := Z.lt)); [by apply EncodeDouble_int64..|done].
  - destruct k, v, w; cbn [fits value_lt comparable] in *; try done.
    + destruct (lex_total s s0) as [|[->|]]; auto.
    + destruct (lex_total s s0) as [|[->|]]; auto.
    + by left.
    + by right; right.
    + by right; left.
    + destruct (Z.lt_trichotomy n n0) as [|[->|]]; auto.
    + destruct (Z.lt_trichotomy n n0) as [|[->|]]; auto.
    + destruct Hv, Hw. rewrite !double_lt_iff by done.
      destruct (Z.lt_trichotomy (EncodeDoubleAsInt64 bits) (EncodeDoubleAsInt64 bits0)) as [|[E|]]; auto.
      right; left. f_equal. by apply EncodeDouble_inj.
Qed.

#[export] Instance item_ordered dec k : OrderedCode (ordered k) (item_lt dec) (item_code dec).
Proof.
  destruct dec; unfold item_lt, item_code.
  - split; intros v w Hv Hw.
    + intros H. apply below_conv; [by eapply value_code_byte; destruct Hw|by eapply value_code_byte; destruct Hv|by apply (code_below (ok := ordered k))].
    + destruct (code_total (enc := value_code) v w Hv Hw) as [|[|]]; auto.
  - split; intros v w Hv Hw.
    + intros H. rewrite !List.map_id. by apply (code_below (ok := ordered k)).
    + by apply (code_total (enc := value_code)).
Qed.

(** ** Keys of several items *)

(** What a key consists of: the kinds of its items and whether each is written decreasing. *)
Definition schema := list (kind * bool).

Fixpoint write_items (sch : schema) (vs : list value) : M (list Z) unit :=
  match sch, vs with
  | (_, dec) :: sch, v :: vs => write_item dec v ;;; write_items sch vs
  | _, _ => ret tt
  end.

Fixpoint read_items (sch : schema) : M (list Z) (option (list value)) :=
  match sch with
  | [] => ret (Some [])
  | (k, dec) :: sch =>
      let* v := read_item dec k in
      match v with
      | None => ret None
      | Some v => let* vs := read_items sch in ret (cons v <$> vs)
      end
  end.

Fixpoint items_code (sch : schema) (vs : list value) : list Z :=
  match sch, vs with
  | (_, dec) :: sch, v :: vs => item_code dec v ++ items_code sch vs
  | _, _ => []
  end.

(** The first item that differs decides. *)
Inductive items_lt : schema -> list value -> list value -> Prop :=
  | items_lt_here k dec sch v w vs ws : item_lt dec v w -> items_lt ((k, dec) :: sch) (v :: vs) (w :: ws)
  | items_lt_later k dec sch v vs ws : items_lt sch vs ws -> items_lt ((k, dec) :: sch) (v :: vs) (v :: ws).

Definition fit : schema -> list value -> Prop := Forall2 (fun kd v => fits kd.1 v).
Definition in_order : schema -> list value -> Prop := Forall2 (fun kd v => ordered kd.1 v).

Lemma in_order_fit sch vs : in_order sch vs -> fit sch vs.
Proof. intros H. eapply Forall2_impl; [exact H|]. by intros ? ? []. Qed.

Lemma write_items_spec sch vs dest : fit sch vs -> write_items sch vs dest = (Some tt, dest ++ items_code sch vs).
Proof.
  intros H. revert dest. induction H as [|[k dec] v sch vs Hv H IH]; intros dest; cbn [write_items items_code].
  - by rewrite app_nil_r.
  - unfold bind. rewrite (write_item_spec dec k) by done. by rewrite IH, app_assoc.
Qed.

Lemma items_code_byte sch vs : fit sch vs -> Forall byte (items_code sch vs).
Proof.
  induction 1 as [|[k dec] v sch vs Hv H IH]; cbn [items_code]; [done|]. apply Forall_app. split; [by apply (item_code_byte dec k)|done].
Qed.

Lemma items_total sch l k : in_order sch l -> in_order sch k -> items_lt sch l k \/ l = k \/ items_lt sch k l.
Proof.
  intros H. revert k. induction H as [|[kd dec] v sch vs Hv H IH]; intros ws Hw; inversion Hw; subst; [auto|].
  destruct (code_total (enc := item_code dec) v y Hv) as [|[->|]]; [done|left; by constructor| |right; right; by constructor].
  destruct (IH l') as [|[->|]]; [done|left; by constructor|by right; left|right; right; by constructor].
Qed.

Lemma items_below sch l k : in_order sch l -> in_order sch k -> items_lt sch l k -> below (items_code sch l) (items_code sch k).
Proof.
  intros Hl Hk H. revert Hl Hk. induction H as [kd dec sch v w vs ws H|kd dec sch v vs ws H IH]; intros Hl Hk;
    inversion Hl; inversion Hk; subst; cbn [items_code].
  - apply diverge_app. by apply (code_below (ok := ordered kd) (lt := item_lt dec)).
  - apply diverge_app_l. by apply IH.
Qed.

(** ** The properties *)

(** C18: keys written with [OrderedCode] compare as byte strings exactly as their items compare one
    after another, in the direction each item was written, and then as their trailing strings: for
    strings, infinity, numbers, signed numbers and doubles, with every number of items. *)
Theorem ordered_code_order sch l k u v dest :
  in_order sch l -> in_order sch k ->
  exists s t,
    (write_items sch l ;;; WriteTrailingString u) dest = (Some tt, dest ++ s) /\
    (write_items sch k ;;; WriteTrailingString v) dest = (Some tt, dest ++ t) /\
    (lex_lt s t <-> items_lt sch l k \/ l = k /\ lex_lt u v).
Proof.
  intros Hl Hk. pose proof (in_order_fit _ _ Hl) as Fl. pose proof (in_order_fit _ _ Hk) as Fk.
  exists (items_code sch l ++ u), (items_code sch k ++ v). unfold bind, WriteTrailingString, append.
  rewrite !write_items_spec by done. rewrite <- !app_assoc. split; [done|]. split; [done|].
  split.
  - intros H. destruct (items_total sch l k Hl Hk) as [|[->|H']]; [by left| |].
    + right. split; [done|]. by apply lex_app in H.
    + exfalso. apply items_below in H'; [|done..]. apply (diverge_app _ _ _ v u) in H'. revert H'. by apply lex_not_below.
  - intros [H|[-> H]]; [|by apply lex_app]. left. by apply diverge_app, items_below.
Qed.

Definition sample_schema : schema := [(KStringOrInfinity, false); (KNum, true); (KSigned, false); (KDouble, true)].
Definition sample_items (s : value) (n : Z) : list value := [s; VNum n; VSigned (-300); VDouble (0x3ff * 2 ^ 52)].

Lemma ordered_code_order_witness :
  in_order sample_schema (sample_items VInfinity 5) /\ in_order sample_schema (sample_items VInfinity 400) /\
  exists s t,
    (write_items sample_schema (sample_items VInfinity 5) ;;; WriteTrailingString [1]) [] = (Some tt, [] ++ s) /\
    (write_items sample_schema (sample_items VInfinity 400) ;;; WriteTrailingString [1]) [] = (Some tt, [] ++ t) /\
    (lex_lt s t <-> items_lt sample_schema (sample_items VInfinity 5) (sample_items VInfinity 400) \/
                    sample_items VInfinity 5 = sample_items VInfinity 400 /\ lex_lt [1] [1]).
Proof.
  assert (H : forall n, uint64 n -> in_order sample_schema (sample_items VInfinity n)).
  { intros n Hn. repeat constructor; cbn; try apply Hn; done. }
  assert (H5 := H 5 ltac:(done)). assert (H400 := H 400 ltac:(done)).
  split; [exact H5|]. split; [exact H400|]. exact (ordered_code_order _ _ _ [1] [1] [] H5 H400).
Defined.

(** C39: every item that is written is read back, in either direction, with whatever follows it left
    to be read; apart from doubles, whose code does not tell the zeros apart, a reader that returns
    a value was given exactly that value's bytes; and one that returns [false] has consumed nothing. *)
Theorem ordered_code_readers_exact dec k src : Forall byte src ->
  (forall v rest, fits k v -> src = item_code dec v ++ rest -> read_item dec k src = (Some (Some v), rest)) /\
  (forall v rest, k <> KDouble -> read_item dec k src = (Some (Some v), rest) -> fits k v /\ src = item_code dec v ++ rest) /\
  (forall src', read_item dec k src = (Some None, src') -> src' = src) /\
  (forall v dest, fits k v -> write_item dec v dest = (Some tt, dest ++ item_code dec v)).
Proof.
  intros Hs. split_and!.
  - intros v rest Hv ->. apply read_item_complete; [done|]. by apply Forall_app in Hs as [_ Hs].
  - intros v rest Hk H. by apply read_item_sound in H as (Hv & _ & E).
  - intros src'. by apply read_item_false.
  - intros v dest. apply write_item_spec.
Qed.

Lemma ordered_code_readers_exact_witness :
  Forall byte [0x01; 0x05; 0x61] /\ read_item false KNum [0x01; 0x05; 0x61] = (Some (Some (VNum 5)), [0x61]).
Proof.
  assert (Hs : Forall byte [0x01; 0x05; 0x61]) by bytes_lit. split; [exact Hs|].
  apply (proj1 (ordered_code_readers_exact false KNum [0x01; 0x05; 0x61] Hs)); done.
Defined.

(** the scan for special bytes, eight and then four bytes at a time by word arithmetic, finds
    what a search byte by byte finds, and none of its assertions can fail; so reading a string
    never aborts, whatever the bytes are. *)
Theorem ordered_code_scan p : Forall byte p ->
  SkipToNextSpecialByte p = Some (skip_bytes p) /\
  (forall i, (ReadStringInternal i p).1 <> None) /\
  (forall i, (ReadStringOrInfinityInternal i p).1 <> None).
Proof.
  intros Hp. assert (Hs : forall i, (ReadStringInternal i p).1 <> None).
  { intros i. rewrite read_string_spec by done. by destruct (parse i p) as [[]|]. }
  split; [by apply skip_spec|]. split; [done|]. intros i.
  unfold ReadStringOrInfinityInternal, bind, ret, ReadInfinityInternal. destruct (_ && _ && _); [done|].
  specialize (Hs i). unfold ReadStringDecreasing, ReadString. destruct i; destruct (ReadStringInternal _ p) as [[[|]|] ?]; done.
Qed.

Lemma ordered_code_scan_witness :
  Forall byte [1; 2; 3; 4; 5; 6; 7; 8; 9; 0xff; 3] /\ SkipToNextSpecialByte [1; 2; 3; 4; 5; 6; 7; 8; 9; 0xff; 3] = Some 9%nat.
Proof.
  assert (Hp : Forall byte [1; 2; 3; 4; 5; 6; 7; 8; 9; 0xff; 3]) by bytes_lit. split; [exact Hp|].
  exact (proj1 (ordered_code_scan _ Hp)).
Defined.

(** The readers of unsigned numbers abort on exactly the numbers that are announced as longer
    than they are: a length that is not zero and a leading zero byte, in either direction. *)
Theorem ordered_code_num_abort src : Forall byte src ->
  ((ReadNumIncreasing src).1 = None <-> exists c s, src = c :: 0x00 :: s /\ c <> 0) /\
  ((ReadNumDecreasing src).1 = None <-> exists c s, src = c :: 0xff :: s /\ c <> 0xff).
Proof.
  assert (H : forall src, Forall byte src -> (ReadNumIncreasing src).1 = None <-> exists c s, src = c :: 0x00 :: s /\ c <> 0).
  { clear. intros src Hs. unfold ReadNumIncreasing. destruct Hs as [|c s Hc Hs]; [split; [done|by intros (? & ? & ? & ?)]|].
    rewrite nth_head, sint8_u64 by done. unfold byte in Hc. pose proof (len_nonneg s). rewrite len_cons.
    destruct (Z.eqb_spec (1 + len s) 0); [lia|]. destruct Hs as [|d s Hd Hs].
    - change (1 + len (@nil Z) =? 1) with true. rewrite orb_true_r. cbn [orb negb].
      split; [by destruct (_ || _)|by intros (? & ? & ? & ?)].
    - pose proof (len_nonneg s). rewrite len_cons. cbn [nth]. destruct (Z.eqb_spec (1 + (1 + len s)) 1); [lia|].
      rewrite orb_false_r. destruct (Z.eqb_spec d 0) as [->|Hd0]; cbn [negb].
      + rewrite orb_false_r. destruct (Z.eqb_spec 0 (if c <? 128 then c else c + (2 ^ 64 - 256))) as [E|E]; cbn [negb].
        * split; [by destruct (_ || _)|]. intros (? & ? & [= <- <-] & ?). destruct (Z.ltb_spec c 128); lia.
        * split; [|done]. intros _. exists c, s. split; [done|]. intros ->. done.
      + rewrite orb_true_r. cbn [negb]. split; [by destruct (_ || _)|]. intros (? & ? & [=] & ?); lia. }
  intros Hs. split; [by apply H|]. rewrite read_decreasing_inverts by done. cbn [fst].
  rewrite H by (by apply map_conv_byte). split.
  - intros (c & s & E & Hc). exists (255 - c), (map (conv true) s).
    rewrite <- (map_conv_involutive true src), E by done. cbn [map].
    assert (Hb : byte c) by (apply (map_conv_byte true) in Hs; rewrite E in Hs; by apply Forall_cons in Hs as [? _]).
    rewrite conv_true by done. split; [done|lia].
  - intros (c & s & -> & Hc). apply Forall_cons in Hs as [Hb Hs]. exists (255 - c), (map (conv true) s). cbn [map].
    rewrite conv_true by done. split; [done|lia].
Qed.

Lemma ordered_code_num_abort_witness :
  Forall byte [0x01; 0x00] /\ ((ReadNumIncreasing [0x01; 0x00]).1 = None <-> exists c s, [0x01; 0x00] = c :: 0x00 :: s /\ c <> 0).
Proof.
  assert (Hs : Forall byte [0x01; 0x00]) by bytes_lit. split; [exact Hs|]. exact (proj1 (ordered_code_num_abort _ Hs)).
Defined.
