(* ===== verification/Comparator.v ===== *)
(** How LevelDB and Firestore compare: [Slice::compare] (leveldb-library/include/leveldb/slice.h),
    the bytewise comparator (util/comparator.cc), and [CompareContainer] with the comparison of
    strings (Firestore/core/src/util/comparison.h and .cc).

    A result's sign is a [comparison]: [Lt] is negative or [Ascending], [Eq] zero or [Same]. *)
From stdpp Require Import sets.
From S2P Require Import Prelude Ordered.

(** [memcmp] on [n] bytes of each. *)
Fixpoint memcmp (n : nat) (a b : list Z) : comparison :=
  match n, a, b with
  | S n, x :: a, y :: b => match x ?= y with Eq => memcmp n a b | c => c end
  | _, _, _ => Eq
  end.

Definition Slice_compare (a b : list Z) : comparison :=
  let min_len := if len a <? len b then length a else length b in
  match memcmp min_len a b with
  | Eq => if len a <? len b then Lt else if len b <? len a then Gt else Eq
  | r => r
  end.

(** [diff_index]: where the first [n] bytes of the strings stop being equal. *)
Fixpoint common_prefix (n : nat) (start limit : list Z) : nat :=
  match n, start, limit with
  | S n, x :: start, y :: limit => if x =? y then S (common_prefix n start limit) else 0%nat
  | _, _, _ => 0%nat
  end.

(** [start[i]++; start->resize(i + 1)] *)
Definition increment_at (i : nat) (s : list Z) : list Z := take i s ++ [u8 (nth i s 0 + 1)].

Definition FindShortestSeparator (start limit : list Z) : list Z :=
  let min_length := Nat.min (length start) (length limit) in
  let diff_index := common_prefix min_length start limit in
  if (min_length <=? diff_index)%nat then start
  else
    let diff_byte := nth diff_index start 0 in
    if (diff_byte <? 0xff) && (diff_byte + 1 <? nth diff_index limit 0) then increment_at diff_index start
    else start.

(** The loop at index [i]; [n - i] rounds are left. *)
Fixpoint short_successor_loop (rounds i : nat) (key : list Z) : list Z :=
  match rounds with
  | O => key
  | S rounds =>
      if negb (nth i key 0 =? 0xff) then increment_at i key else short_successor_loop rounds (S i) key
  end.
Definition FindShortSuccessor (key : list Z) : list Z := short_successor_loop (length key) 0 key.

(** The loop of [CompareContainer]. *)
Fixpoint CompareContainer {A} (Compare : A -> A -> comparison) (lhs rhs : list A) : comparison :=
  match lhs, rhs with
  | x :: lhs, y :: rhs => match Compare x y with Eq => CompareContainer Compare lhs rhs | cmp => cmp end
  | [], _ :: _ => Lt
  | _ :: _, [] => Gt
  | [], [] => Eq
  end.

(** [left.compare(right)] is specified by the C++ standard the way [Slice::compare] is written. *)
Definition string_compare : list Z -> list Z -> comparison := Slice_compare.

(** ** The order is lexicographic *)

Lemma lex_compare_spec s t : match lex_compare s t with Lt => lex_lt s t | Eq => s = t | Gt => lex_lt t s end.
Proof.
  revert t. induction s as [|a s IH]; intros [|b t]; cbn [lex_compare]; [done|right; by exists b, t|right; by exists a, s|].
  destruct (Z.compare_spec a b) as [<-|H|H]; [|left; by apply diverge_here..].
  specialize (IH t). destruct (lex_compare s t); [by f_equal| |]; by apply (lex_app [a]).
Qed.

Lemma lex_irrefl s : ~ lex_lt s s.
Proof.
  intros [H|(x & m & E)]; [by apply below_neq in H|]. apply (f_equal length) in E. rewrite length_app in E. cbn in E. lia.
Qed.

Lemma lex_asym s t : lex_lt s t -> ~ lex_lt t s.
Proof.
  intros H H'. destruct H as [H|(x & m & ->)]; [by apply lex_not_below in H'|].
  destruct H' as [H'|(y & k & E)]; [apply below_no_prefix in H' as [_ []]; by exists (x :: m)|].
  apply (f_equal length) in E. rewrite !length_app in E. cbn in E. lia.
Qed.

Lemma lex_compare_lt s t : lex_compare s t = Lt <-> lex_lt s t.
Proof.
  pose proof (lex_compare_spec s t) as H. destruct (lex_compare s t); split; try done; intros H'.
  - subst. by apply lex_irrefl in H'.
  - by apply lex_asym in H'.
Qed.

Lemma lex_compare_eq s t : lex_compare s t = Eq <-> s = t.
Proof.
  split; [|intros ->].
  - intros E. pose proof (lex_compare_spec s t) as H. by rewrite E in H.
  - pose proof (lex_compare_spec t t) as H. destruct (lex_compare t t); [done|by apply lex_irrefl in H..].
Qed.

Lemma lex_compare_gt s t : lex_compare s t = Gt <-> lex_lt t s.
Proof.
  pose proof (lex_compare_spec s t) as H. destruct (lex_compare s t); split; try done; intros H'.
  - subst. by apply lex_irrefl in H'.
  - by apply lex_asym in H'.
Qed.

Lemma memcmp_lex s t : memcmp (Nat.min (length s) (length t)) s t =
  match lex_compare s t with
  | Eq => Eq
  | c => if bool_decide (s `prefix_of` t \/ t `prefix_of` s) then Eq else c
  end.
Proof.
  revert t. induction s as [|a s IH]; intros [|b t]; cbn [length Nat.min memcmp lex_compare]; try done.
  destruct (Z.compare_spec a b) as [<-|H|H].
  - rewrite IH. destruct (lex_compare s t); [done| |]; erewrite bool_decide_ext; [reflexivity| |reflexivity|];
      (split; (intros [H|H]; [left|right]); first [by apply prefix_cons|by apply prefix_cons_inv_2 in H]).
  - rewrite bool_decide_false; [done|]. intros [H'|H']; apply prefix_cons_inv_1 in H'; lia.
  - rewrite bool_decide_false; [done|]. intros [H'|H']; apply prefix_cons_inv_1 in H'; lia.
Qed.

Lemma Slice_compare_lex s t : Slice_compare s t = lex_compare s t.
Proof.
  unfold Slice_compare. replace (if len s <? len t then length s else length t) with (Nat.min (length s) (length t)) by (unfold len; zcases).
  rewrite memcmp_lex. pose proof (lex_compare_spec s t) as H. unfold len. destruct (lex_compare s t).
  - subst. by rewrite Z.ltb_irrefl.
  - case_bool_decide as Hp; [|done]. destruct H as [H|(x & m & ->)]; [apply below_no_prefix in H; tauto|].
    rewrite length_app. cbn [length]. destruct (Z.ltb_spec (Z.of_nat (length s)) (Z.of_nat (length s + S (length m)))); [done|lia].
  - case_bool_decide as Hp; [|done]. destruct H as [H|(x & m & ->)]; [apply below_no_prefix in H; tauto|].
    rewrite length_app. cbn [length].
    destruct (Z.ltb_spec (Z.of_nat (length t + S (length m))) (Z.of_nat (length t))); [lia|].
    destruct (Z.ltb_spec (Z.of_nat (length t)) (Z.of_nat (length t + S (length m)))); [done|lia].
Qed.

(** ** Short keys between keys *)

Definition lex_le (s t : list Z) : Prop := s = t \/ lex_lt s t.

Lemma common_prefix_split n s t : (common_prefix n s t <= n)%nat -> (n <= length s)%nat -> (n <= length t)%nat ->
  (common_prefix n s t < n)%nat ->
  exists p x y s' t', s = p ++ x :: s' /\ t = p ++ y :: t' /\ length p = common_prefix n s t /\ x <> y.
Proof.
  revert s t. induction n as [|n IH]; intros s t _ Hs Ht Hn; [lia|].
  destruct s as [|x s], t as [|y t]; cbn [length] in *; try lia. cbn [common_prefix] in *.
  destruct (Z.eqb_spec x y) as [<-|Hne]; [|by exists [], x, y, s, t].
  destruct (IH s t) as (p & a & b & s' & t' & -> & -> & Hp & Hab); [lia..|]. exists (x :: p), a, b, s', t'.
  split; [done|]. split; [done|]. split; [cbn [length]; by rewrite Hp|done].
Qed.

Lemma increment_above p x s : byte x -> x <> 0xff -> below (p ++ x :: s) (increment_at (length p) (p ++ x :: s)).
Proof.
  intros Hx Hne. unfold increment_at. rewrite take_app_exact, app_nth2, Nat.sub_diag by lia. cbn [nth].
  apply diverge_app_l, diverge_here. rewrite u8_id; unfold byte in *; lia.
Qed.

Lemma increment_at_byte i s : Forall byte s -> Forall byte (increment_at i s).
Proof. intros H. apply Forall_app. split; [by apply bytes_take|]. repeat constructor; apply u8_byte. Qed.

Lemma separator_spec start limit : Forall byte start -> lex_lt start limit ->
  lex_le start (FindShortestSeparator start limit) /\ lex_lt (FindShortestSeparator start limit) limit /\
  len (FindShortestSeparator start limit) <= len start.
Proof.
  intros Hs H. unfold FindShortestSeparator. set (n := Nat.min _ _). destruct (Nat.leb_spec n (common_prefix n start limit)) as [|Hlt].
  - split; [by left|]. split; [done|lia].
  - destruct (common_prefix_split n start limit) as (p & x & y & s' & t' & E1 & E2 & Hp & Hxy); [lia..|].
    rewrite <- Hp. assert (Ex : nth (length p) start 0 = x) by (rewrite E1, app_nth2, Nat.sub_diag by lia; done).
    assert (Ey : nth (length p) limit 0 = y) by (rewrite E2, app_nth2, Nat.sub_diag by lia; done). rewrite Ex, Ey.
    destruct ((x <? 255) && (x + 1 <? y)) eqn:Ec; [|split; [by left|split; [done|lia]]].
    apply andb_true_iff in Ec as [Hx%Z.ltb_lt Hy%Z.ltb_lt]. rewrite E1, Forall_app, Forall_cons in Hs. destruct Hs as (_ & Hbx & _).
    split; [right; left; rewrite E1; apply increment_above; [done|lia]|]. unfold increment_at.
    rewrite E1, take_app_exact, app_nth2, Nat.sub_diag by lia. cbn [nth]. rewrite u8_id by (unfold byte in *; lia).
    split; [rewrite E2; left; apply diverge_app_l, diverge_here; lia|]. rewrite !len_app, !len_cons, len_nil.
    pose proof (len_nonneg s'). lia.
Qed.

Lemma separator_byte start limit : Forall byte start -> Forall byte (FindShortestSeparator start limit).
Proof. intros H. unfold FindShortestSeparator. repeat case_match; auto using increment_at_byte. Qed.

Lemma common_prefix_same n s : (n <= length s)%nat -> common_prefix n s s = n.
Proof. revert s. induction n as [|n IH]; intros [|x s] Hn; cbn in *; [done|done|lia|]. rewrite Z.eqb_refl. f_equal. apply IH. lia. Qed.

Lemma successor_loop_spec key n i : Forall byte key -> (n + i <= length key)%nat ->
  let k := short_successor_loop n i key in lex_le key k /\ len k <= len key /\ Forall byte k.
Proof.
  intros Hs. revert i. induction n as [|n IH]; intros i Hi; cbn [short_successor_loop]; [split; [by left|split; [lia|done]]|].
  destruct (Z.eqb_spec (nth i key 0) 0xff) as [|Hne]; cbn [negb]; [apply IH; lia|].
  assert (E : key = take i key ++ nth i key 0 :: drop (S i) key).
  { rewrite <- (take_drop i key) at 1. f_equal. destruct (drop i key) as [|x l] eqn:Ed.
    - apply (f_equal length) in Ed. rewrite length_drop in Ed. cbn in Ed. lia.
    - pose proof (List.nth_skipn i key 0 0) as Hx. rewrite Nat.add_0_r, Ed in Hx. cbn [nth] in Hx. rewrite <- Hx.
      replace (S i) with (i + 1)%nat by lia. rewrite <- drop_drop, Ed. done. }
  assert (Hl : length (take i key) = i) by (rewrite length_take; lia).
  assert (Hb : byte (nth i key 0)) by (rewrite E, Forall_app, Forall_cons in Hs; by destruct Hs as (_ & ? & _)).
  split_and!; [| |by apply increment_at_byte].
  - right. left. pose proof (increment_above (take i key) _ (drop (S i) key) Hb Hne) as H. by rewrite Hl, <- E in H.
  - unfold increment_at. unfold len. rewrite length_app, Hl. cbn [length]. lia.
Qed.

(** Between two keys in order LevelDB finds a separator that is no longer than the first, not
    before it and still before the second; and after any key a short successor that is not before
    it.  The comparison is the lexicographic order of bytes. *)
Theorem bytewise_separator start limit : Forall byte start -> Forall byte limit ->
  (Slice_compare start limit = Lt <-> lex_lt start limit) /\
  (lex_lt start limit ->
   lex_le start (FindShortestSeparator start limit) /\ lex_lt (FindShortestSeparator start limit) limit /\
   len (FindShortestSeparator start limit) <= len start) /\
  lex_le start (FindShortSuccessor start) /\ len (FindShortSuccessor start) <= len start.
Proof.
  intros Hs _. split; [by rewrite Slice_compare_lex, lex_compare_lt|]. split; [by apply separator_spec|].
  destruct (successor_loop_spec start (length start) 0) as (? & ? & _); [done|lia|done].
Qed.

Lemma bytewise_separator_witness :
  Forall byte [0x61; 0x62; 0x63] /\ Forall byte [0x61; 0x66] /\
  lex_lt (FindShortestSeparator [0x61; 0x62; 0x63] [0x61; 0x66]) [0x61; 0x66].
Proof.
  assert (Hs : Forall byte [0x61; 0x62; 0x63]) by bytes_lit. assert (Ht : Forall byte [0x61; 0x66]) by bytes_lit.
  split; [exact Hs|]. split; [exact Ht|].
  apply (bytewise_separator _ _ Hs Ht). apply lex_compare_lt. reflexivity.
Defined.

(** ** Containers *)

Section container.
Context {A : Type} (Compare : A -> A -> comparison) (lt : A -> A -> Prop).
Hypothesis Compare_spec : forall x y, match Compare x y with Lt => lt x y | Eq => x = y | Gt => lt y x end.

Lemma CompareContainer_spec l k :
  match CompareContainer Compare l k with Lt => lex lt l k | Eq => l = k | Gt => lex lt k l end.
Proof.
  assert (Hcons : forall x l k, lex lt l k -> lex lt (x :: l) (x :: k)).
  { intros x l' k' [H|(y & m & ->)]; [left; by apply diverge_cons|right; by exists y, m]. }
  revert k. induction l as [|x l IH]; intros [|y k]; cbn [CompareContainer]; [done|right; by exists y, k|right; by exists x, l|].
  pose proof (Compare_spec x y) as H. destruct (Compare x y); [subst|left; by apply diverge_here..].
  specialize (IH k). destruct (CompareContainer Compare l k); [by f_equal|by apply Hcons..].
Qed.
End container.

(** ** The interface *)

(** A comparison by which some values, the [ok] ones, are ordered; values that compare equal may be
    different. *)
Class WeakOrder {K : Type} (cmp : K -> K -> comparison) (ok : K -> Prop) : Prop := {
  cmp_antisym a b : ok a -> ok b -> cmp b a = CompOpp (cmp a b);
  cmp_lt_trans a b c : ok a -> ok b -> ok c -> cmp a b = Lt -> cmp b c = Lt -> cmp a c = Lt;
  cmp_eq_l a b c : ok a -> ok b -> ok c -> cmp a b = Eq -> cmp a c = cmp b c
}.

Arguments cmp_antisym {K} cmp ok {_}.
Arguments cmp_lt_trans {K} cmp ok {_}.
Arguments cmp_eq_l {K} cmp ok {_}.

Section weak_order.
Context {K : Type} (cmp : K -> K -> comparison) (ok : K -> Prop) `{!WeakOrder cmp ok}.

Lemma cmp_refl a : ok a -> cmp a a = Eq.
Proof. intros Ha. pose proof (cmp_antisym cmp ok a a Ha Ha) as H. by destruct (cmp a a). Qed.

Lemma cmp_gt a b : ok a -> ok b -> cmp a b = Gt <-> cmp b a = Lt.
Proof. intros Ha Hb. rewrite (cmp_antisym cmp ok a b) by done. by destruct (cmp a b). Qed.

Lemma cmp_eq_sym a b : ok a -> ok b -> cmp a b = Eq -> cmp b a = Eq.
Proof. intros Ha Hb E. by rewrite (cmp_antisym cmp ok a b), E. Qed.

Lemma cmp_eq_r a b c : ok a -> ok b -> ok c -> cmp b c = Eq -> cmp a b = cmp a c.
Proof.
  intros Ha Hb Hc E. rewrite (cmp_antisym cmp ok b a), (cmp_antisym cmp ok c a) by done. by rewrite (cmp_eq_l cmp ok b c a).
Qed.

Lemma cmp_le_lt_trans a b c : ok a -> ok b -> ok c -> cmp a b <> Gt -> cmp b c = Lt -> cmp a c = Lt.
Proof.
  intros Ha Hb Hc H1 H2. destruct (cmp a b) eqn:E; [|by apply (cmp_lt_trans cmp ok a b c)|done].
  by rewrite (cmp_eq_l cmp ok a b c).
Qed.

Lemma cmp_lt_le_trans a b c : ok a -> ok b -> ok c -> cmp a b = Lt -> cmp b c <> Gt -> cmp a c = Lt.
Proof.
  intros Ha Hb Hc H1 H2. destruct (cmp b c) eqn:E; [|by apply (cmp_lt_trans cmp ok a b c)|done].
  by rewrite <- (cmp_eq_r a b c).
Qed.
End weak_order.

(** Numbers in the order of numbers. *)
#[export] Instance Z_order (ok : Z -> Prop) : WeakOrder Z.compare ok.
Proof.
  split.
  - intros a b _ _. apply Z.compare_antisym.
  - intros a b c _ _ _. rewrite !Z.compare_lt_iff. lia.
  - intros a b c _ _ _. by intros ->%Z.compare_eq.
Qed.

(** What a comparator is asked for (include/leveldb/comparator.h). *)
Class Comparator := {
  Compare : list Z -> list Z -> comparison;
  Separator : list Z -> list Z -> list Z;
  Successor : list Z -> list Z
}.

(** What that header documents, for the keys in use: a total order in which only equal keys compare
    equal; the separator of a key and a greater limit lies between them, and the successor is not
    before the key.  The comparator of internal keys also asks for the separator of a key and
    itself, of which the header says nothing: that it is the key is a law of its own. *)
Class ComparatorLaws (C : Comparator) := {
  key_ok : list Z -> Prop;
  key_bytes k : key_ok k -> Forall byte k;
  compare_order : WeakOrder Compare key_ok;
  compare_eq a b : key_ok a -> key_ok b -> Compare a b = Eq -> a = b;
  separator_between start limit : key_ok start -> key_ok limit -> Compare start limit = Lt ->
    key_ok (Separator start limit) /\ Compare start (Separator start limit) <> Gt /\ Compare (Separator start limit) limit = Lt;
  separator_same k : key_ok k -> Separator k k = k;
  successor_after k : key_ok k -> key_ok (Successor k) /\ Compare k (Successor k) <> Gt
}.
#[export] Existing Instance compare_order.

#[export] Instance BytewiseComparator : Comparator :=
  { Compare := Slice_compare; Separator := FindShortestSeparator; Successor := FindShortSuccessor }.

Lemma lex_compare_antisym s t : lex_compare t s = CompOpp (lex_compare s t).
Proof.
  pose proof (lex_compare_spec s t) as H. destruct (lex_compare s t); cbn [CompOpp].
  - by apply lex_compare_eq.
  - by apply lex_compare_gt.
  - by apply lex_compare_lt.
Qed.

Lemma lex_compare_trans a b c : lex_compare a b = Lt -> lex_compare b c = Lt -> lex_compare a c = Lt.
Proof.
  revert b c. induction a as [|x a IH]; intros [|y b] [|z c]; cbn [lex_compare]; try done.
  destruct (Z.compare_spec x y), (Z.compare_spec y z), (Z.compare_spec x z); try done; try lia. apply IH.
Qed.

#[export] Instance bytewise_order ok : WeakOrder Slice_compare ok.
Proof.
  split.
  - intros a b _ _. rewrite !Slice_compare_lex. apply lex_compare_antisym.
  - intros a b c _ _ _. rewrite !Slice_compare_lex. apply lex_compare_trans.
  - intros a b c _ _ _. rewrite !Slice_compare_lex. by intros ->%lex_compare_eq.
Qed.

Lemma lex_le_compare s t : lex_le s t -> Slice_compare s t <> Gt.
Proof.
  rewrite Slice_compare_lex, lex_compare_gt. intros [->|H]; [apply lex_irrefl|by apply lex_asym].
Qed.

#[export] Program Instance bytewise_laws : ComparatorLaws BytewiseComparator := { key_ok := Forall byte }.
Next Obligation. done. Qed.
Next Obligation. intros a b _ _. cbn [Compare BytewiseComparator]. by rewrite Slice_compare_lex, lex_compare_eq. Qed.
Next Obligation.
  intros start limit Hs Hl. cbn [Compare Separator BytewiseComparator]. rewrite !Slice_compare_lex, !lex_compare_lt. intros H.
  destruct (separator_spec start limit Hs H) as (H1 & H2 & _). split; [by apply separator_byte|].
  split; [|done]. apply lex_le_compare in H1. by rewrite Slice_compare_lex in H1.
Qed.
Next Obligation.
  intros k _. cbn [Separator BytewiseComparator]. unfold FindShortestSeparator. rewrite Nat.min_id, common_prefix_same by done.
  by rewrite (proj2 (Nat.leb_le _ _)).
Qed.
Next Obligation.
  intros k Hk. cbn [Compare Successor BytewiseComparator]. destruct (successor_loop_spec k (length k) 0) as (H1 & _ & H2); [done|lia|].
  split; [done|]. by apply lex_le_compare.
Qed.

(** Things compared by what is compared of them. *)
Lemma order_map {K K'} (f : K' -> K) (cmp : K -> K -> comparison) (ok : K -> Prop) :
  WeakOrder cmp ok -> WeakOrder (fun a b => cmp (f a) (f b)) (fun a => ok (f a)).
Proof.
  intros W. split.
  - intros a b. apply (cmp_antisym cmp ok).
  - intros a b c. apply (cmp_lt_trans cmp ok).
  - intros a b c. apply (cmp_eq_l cmp ok).
Qed.
