(* ===== verification/LevelDbKey.v ===== *)
(** The keys of Firestore's local store (Firestore/core/src/local/leveldb_key.cc and .h).

    A key is a sequence of labelled components written with [OrderedCode], so that LevelDB, which
    knows only bytes, keeps rows in the order of their fields; here are the [Reader] and [Writer]
    of components, and the functions [Key], [KeyPrefix] and [Decode] of every class of keys.

    A [std::string] is the list of its bytes, a [ResourcePath] the list of its segments, a
    [DocumentKey] its path, and a [SnapshotVersion] its seconds and nanoseconds.  A failed
    [HARD_ASSERT] aborts: [fail].  When [Decode] returns [false] the header leaves the object
    undefined: the result is then [None]. *)
From Stdlib Require Import String Ascii.
From S2P Require Import Prelude OrderedCode.

Definition kVersionGlobalTable := bytes_of "version".
Definition kMutationsTable := bytes_of "mutation".
Definition kDocumentMutationsTable := bytes_of "document_mutation".
Definition kMutationQueuesTable := bytes_of "mutation_queue".
Definition kTargetGlobalTable := bytes_of "target_global".
Definition kTargetsTable := bytes_of "target".
Definition kQueryTargetsTable := bytes_of "query_target".
Definition kTargetDocumentsTable := bytes_of "target_document".
Definition kDocumentTargetsTable := bytes_of "document_target".
Definition kRemoteDocumentsTable := bytes_of "remote_document".
Definition kCollectionParentsTable := bytes_of "collection_parent".
Definition kRemoteDocumentReadTimeTable := bytes_of "remote_document_read_time".
Definition kBundlesTable := bytes_of "bundles".
Definition kNamedQueriesTable := bytes_of "named_queries".
Definition kIndexConfigurationTable := bytes_of "index_configuration".
Definition kIndexStateTable := bytes_of "index_state".
Definition kIndexEntriesTable := bytes_of "index_entries".
Definition kIndexEntriesDocumentKeyIndexTable := bytes_of "index_entries_document_key_index".
Definition kDocumentOverlaysTable := bytes_of "document_overlays".
Definition kDocumentOverlaysLargestBatchIdIndexTable := bytes_of "document_overlays_largest_batch_id_index".
Definition kDocumentOverlaysCollectionIndexTable := bytes_of "document_overlays_collection_index".
Definition kDocumentOverlaysCollectionGroupIndexTable := bytes_of "document_overlays_collection_group_index".
Definition kDataMigrationTable := bytes_of "data_migration".

Inductive ComponentLabel :=
  | Terminator | TableName | BatchId | CanonicalId | TargetId | UserId | CollectionId | DocumentId
  | SnapshotVersion | BundleId | QueryName | IndexId | IndexArrayValue | IndexDirectionalValue
  | CollectionGroup | SequenceNumber | OrderedDocumentKey | DataMigrationName | PathSegment | Unknown.

Definition label_value (l : ComponentLabel) : Z :=
  match l with
  | Terminator => 0 | TableName => 5 | BatchId => 10 | CanonicalId => 11 | TargetId => 12 | UserId => 13
  | CollectionId => 14 | DocumentId => 15 | SnapshotVersion => 16 | BundleId => 17 | QueryName => 18
  | IndexId => 19 | IndexArrayValue => 20 | IndexDirectionalValue => 21 | CollectionGroup => 22
  | SequenceNumber => 23 | OrderedDocumentKey => 24 | DataMigrationName => 25 | PathSegment => 62
  | Unknown => 63
  end.

Definition path : Type := list (list Z).

(** [DocumentKey::IsDocumentKey] *)
Definition IsDocumentKey (p : path) : bool := len p mod 2 =? 0.
(** [DocumentKey(path)]: [AssertValidPath]. *)
Definition DocumentKey {S} (p : path) : M S path := check (IsDocumentKey p) ;;; ret p.
(** [DocumentKey::GetCollectionGroup] *)
Definition GetCollectionGroup (p : path) : option (list Z) :=
  if len p <? 2 then None else p !! (length p - 2)%nat.

(** [BasePath]: [Append], [PopLast], [last_segment]. *)
Definition Append (p : path) (segment : list Z) : path := p ++ [segment].
Definition PopLast {S} (p : path) : M S path := check (negb (len p =? 0)) ;;; ret (take (length p - 1) p).
Definition last_segment {S} (p : path) : M S (list Z) :=
  check (negb (len p =? 0)) ;;; lift (p !! (length p - 1)%nat).

(** [Timestamp::ValidateBounds] *)
Definition kNanosPerSecond : Z := 1000 * 1000 * 1000.
Definition timestamp : Type := Z * Z.
Definition ValidateBounds (t : timestamp) : bool :=
  (0 <=? t.2) && (t.2 <? kNanosPerSecond) && (-62135596800 <=? t.1) && (t.1 <? 253402300800).
Definition Timestamp {S} (seconds nanoseconds : Z) : M S timestamp :=
  check (ValidateBounds (seconds, nanoseconds)) ;;; ret (seconds, nanoseconds).

(** ** Reading components *)

Record Reader := { src_ : list Z; ok_ : bool }.

Definition ok : M Reader bool := fun r => (Some (ok_ r), r).
Definition empty : M Reader bool := fun r => (Some (negb (ok_ r) || (len (src_ r) =? 0)), r).
Definition Fail_ : M Reader unit := fun r => (Some tt, {| src_ := src_ r; ok_ := false |}).
Definition set_src (s : list Z) : M Reader unit := fun r => (Some tt, {| src_ := s; ok_ := ok_ r |}).

(** A function of [OrderedCode] on a copy of [src_], which is advanced when it returns [true];
    otherwise the [Reader] fails and the result is [default]. *)
Definition on_src {A} (read : M (list Z) (option A)) (default : A) : M Reader A := fun r =>
  if ok_ r then
    match read (src_ r) with
    | (None, _) => (None, r)
    | (Some (Some a), tmp) => (Some a, {| src_ := tmp; ok_ := ok_ r |})
    | (Some None, _) => (Some default, {| src_ := src_ r; ok_ := false |})
    end
  else (Some default, {| src_ := src_ r; ok_ := false |}).

Definition Reader_ReadSignedNumIncreasing : M Reader Z := on_src ReadSignedNumIncreasing 0.
Definition Reader_ReadString : M Reader (list Z) := on_src ReadString [].

Definition ReadComponentLabelMatching (expected_label : ComponentLabel) : M Reader bool :=
  let* o := ok in
  if o then
    let* raw_result := Reader_ReadSignedNumIncreasing in
    let* o := ok in
    if o then ret (raw_result =? label_value expected_label) else Fail_ ;;; ret false
  else Fail_ ;;; ret false.

Definition INT32_MIN : Z := - 2 ^ 31.
Definition INT32_MAX : Z := 2 ^ 31 - 1.

Definition ReadInt32 : M Reader Z :=
  let* o := ok in
  if o then
    let* raw_result := Reader_ReadSignedNumIncreasing in
    let* o := ok in
    if o && (INT32_MIN <=? raw_result) && (raw_result <=? INT32_MAX) then ret raw_result
    else Fail_ ;;; ret 0
  else Fail_ ;;; ret 0.

Definition ReadInt64 : M Reader Z := Reader_ReadSignedNumIncreasing.

(** [if (!ReadComponentLabelMatching(expected_label)) Fail();] *)
Definition expect_label (expected_label : ComponentLabel) : M Reader unit :=
  let* b := ReadComponentLabelMatching expected_label in
  if b then ret tt else Fail_.

Definition ReadLabeledInt32 (l : ComponentLabel) : M Reader Z := expect_label l ;;; ReadInt32.
Definition ReadLabeledInt64 (l : ComponentLabel) : M Reader Z := expect_label l ;;; ReadInt64.
Definition ReadLabeledString (l : ComponentLabel) : M Reader (list Z) := expect_label l ;;; Reader_ReadString.

Definition bytes_eqb (s t : list Z) : bool := bool_decide (s = t).

Definition ReadLabeledStringMatching (l : ComponentLabel) (expected_value : list Z) : M Reader bool :=
  let* value := ReadLabeledString l in
  let* o := ok in
  if o then ret (bytes_eqb value expected_value) else Fail_ ;;; ret false.

Definition ReadTableNameMatching (expected_table_name : list Z) : M Reader unit :=
  let* b := ReadLabeledStringMatching TableName expected_table_name in
  if b then ret tt else Fail_.

Definition ReadBatchId : M Reader Z := ReadLabeledInt32 BatchId.
Definition ReadCanonicalId : M Reader (list Z) := ReadLabeledString CanonicalId.
Definition ReadTargetId : M Reader Z := ReadLabeledInt32 TargetId.
Definition ReadUserId : M Reader (list Z) := ReadLabeledString UserId.
Definition ReadCollectionId : M Reader (list Z) := ReadLabeledString CollectionId.
Definition ReadDocumentId : M Reader (list Z) := ReadLabeledString DocumentId.
Definition ReadOrderedDocumentKey : M Reader (list Z) := ReadLabeledString OrderedDocumentKey.
Definition ReadBundleId : M Reader (list Z) := ReadLabeledString BundleId.
Definition ReadQueryName : M Reader (list Z) := ReadLabeledString QueryName.
Definition ReadIndexId : M Reader Z := ReadLabeledInt32 IndexId.
Definition ReadCollectionGroup : M Reader (list Z) := ReadLabeledString CollectionGroup.
Definition ReadIndexArrayValue : M Reader (list Z) := ReadLabeledString IndexArrayValue.
Definition ReadIndexDirectionalValue : M Reader (list Z) := ReadLabeledString IndexDirectionalValue.
Definition ReadSequenceNumber : M Reader Z := ReadLabeledInt64 SequenceNumber.
Definition ReadDataMigrationName : M Reader (list Z) := ReadLabeledString DataMigrationName.
Definition ReadTerminator : M Reader unit := expect_label Terminator.

(** The loop: each segment shortens what is left to read, so that its length bounds the rounds. *)
Fixpoint read_segments (fuel : nat) (path_segments : path) : M Reader path :=
  match fuel with
  | O => fail
  | S fuel =>
      let* e := empty in
      if e then ret path_segments
      else
        let* r := get_state in
        let saved_position := src_ r in
        let* b := ReadComponentLabelMatching PathSegment in
        if negb b then set_src saved_position ;;; ret path_segments
        else
          let* segment := Reader_ReadString in
          let* o := ok in
          if negb o then ret path_segments else read_segments fuel (path_segments ++ [segment])
  end.

Definition ReadResourcePath : M Reader path := fun r => read_segments (S (length (src_ r))) [] r.

Definition ReadDocumentKey : M Reader path :=
  let* path := ReadResourcePath in
  let* o := ok in
  if o && negb (len path =? 0) && IsDocumentKey path then DocumentKey path
  else Fail_ ;;; ret [].

Definition ReadSnapshotVersion : M Reader timestamp :=
  expect_label SnapshotVersion ;;;
  let* seconds := ReadInt64 in
  let* nanos := ReadInt32 in
  Timestamp seconds nanos.

(** ** Writing components *)

(** [Writer::dest_] is the state; [result] runs the calls on a new [Writer]. *)
Definition Writer := list Z.
Definition result (calls : M Writer unit) : option (list Z) :=
  match calls [] with (Some _, dest_) => Some dest_ | (None, _) => None end.

Definition WriteComponentLabel (l : ComponentLabel) : M Writer unit := WriteSignedNumIncreasing (label_value l).
Definition WriteLabeledInt32 (l : ComponentLabel) (value : Z) : M Writer unit :=
  WriteComponentLabel l ;;; WriteSignedNumIncreasing value.
Definition WriteLabeledInt64 (l : ComponentLabel) (value : Z) : M Writer unit :=
  WriteComponentLabel l ;;; WriteSignedNumIncreasing value.
Definition WriteLabeledString (l : ComponentLabel) (value : list Z) : M Writer unit :=
  WriteComponentLabel l ;;; WriteString value.

Definition WriteTerminator : M Writer unit := WriteSignedNumIncreasing (label_value Terminator).
Definition WriteTableName (table_name : list Z) : M Writer unit := WriteLabeledString TableName table_name.
Definition WriteBatchId (batch_id : Z) : M Writer unit := WriteLabeledInt32 BatchId batch_id.
Definition WriteCanonicalId (s : list Z) : M Writer unit := WriteLabeledString CanonicalId s.
Definition WriteTargetId (target_id : Z) : M Writer unit := WriteLabeledInt32 TargetId target_id.
Definition WriteUserId (s : list Z) : M Writer unit := WriteLabeledString UserId s.
Definition WriteCollectionId (s : list Z) : M Writer unit := WriteLabeledString CollectionId s.
Definition WriteDocumentId (s : list Z) : M Writer unit := WriteLabeledString DocumentId s.
Definition WriteOrderedDocumentKey (s : list Z) : M Writer unit := WriteLabeledString OrderedDocumentKey s.
Definition WriteSnapshotVersion (v : timestamp) : M Writer unit :=
  WriteComponentLabel SnapshotVersion ;;; WriteSignedNumIncreasing v.1 ;;; WriteSignedNumIncreasing v.2.
Definition WriteBundleId (s : list Z) : M Writer unit := WriteLabeledString BundleId s.
Definition WriteQueryName (s : list Z) : M Writer unit := WriteLabeledString QueryName s.
Fixpoint WriteResourcePath (p : path) : M Writer unit :=
  match p with
  | [] => ret tt
  | segment :: p => WriteComponentLabel PathSegment ;;; WriteString segment ;;; WriteResourcePath p
  end.
Definition WriteIndexId (id : Z) : M Writer unit := WriteLabeledInt32 IndexId id.
Definition WriteCollectionGroup (s : list Z) : M Writer unit := WriteLabeledString CollectionGroup s.
Definition WriteIndexArrayValue (s : list Z) : M Writer unit := WriteLabeledString IndexArrayValue s.
Definition WriteIndexDirectionalValue (s : list Z) : M Writer unit := WriteLabeledString IndexDirectionalValue s.
Definition WriteSequenceNumber (seq : Z) : M Writer unit := WriteLabeledInt64 SequenceNumber seq.
Definition WriteDataMigrationName (s : list Z) : M Writer unit := WriteLabeledString DataMigrationName s.

(** ** The classes of keys *)

(** The fields that the class of each key has. *)
Inductive leveldb_key :=
  | LevelDbVersionKey
  | LevelDbMutationKey (user_id : list Z) (batch_id : Z)
  | LevelDbDocumentMutationKey (user_id : list Z) (document_key : path) (batch_id : Z)
  | LevelDbMutationQueueKey (user_id : list Z)
  | LevelDbTargetGlobalKey
  | LevelDbTargetKey (target_id : Z)
  | LevelDbQueryTargetKey (canonical_id : list Z) (target_id : Z)
  | LevelDbTargetDocumentKey (target_id : Z) (document_key : path)
  | LevelDbDocumentTargetKey (document_key : path) (target_id : Z)
  | LevelDbRemoteDocumentKey (document_key : path)
  | LevelDbCollectionParentKey (collection_id : list Z) (parent : path)
  | LevelDbRemoteDocumentReadTimeKey (collection_path : path) (read_time : timestamp) (document_id : list Z)
  | LevelDbBundleKey (bundle_id : list Z)
  | LevelDbNamedQueryKey (name : list Z)
  | LevelDbIndexConfigurationKey (index_id : Z) (collection_group : list Z)
  | LevelDbIndexStateKey (user_id : list Z) (index_id : Z)
  | LevelDbIndexEntryKey (index_id : Z) (user_id array_value directional_value ordered_document_key document_key : list Z)
  | LevelDbIndexEntryDocumentKeyIndexKey (index_id : Z) (user_id document_key : list Z) (seq_number : Z)
  | LevelDbDocumentOverlayKey (user_id : list Z) (document_key : path) (largest_batch_id : Z)
  | LevelDbDocumentOverlayLargestBatchIdIndexKey (user_id : list Z) (largest_batch_id : Z) (document_key : path)
  | LevelDbDocumentOverlayCollectionIndexKey (user_id : list Z) (largest_batch_id : Z) (document_key : path)
  | LevelDbDocumentOverlayCollectionGroupIndexKey (user_id collection_group : list Z) (largest_batch_id : Z) (document_key : path)
  | LevelDbDataMigrationKey (migration_name : list Z).

(** [Key], one function for each class. *)
Definition VersionKey_Key : M Writer unit := WriteTableName kVersionGlobalTable ;;; WriteTerminator.
Definition MutationKey_Key (user_id : list Z) (batch_id : Z) : M Writer unit :=
  WriteTableName kMutationsTable ;;; WriteUserId user_id ;;; WriteBatchId batch_id ;;; WriteTerminator.
Definition DocumentMutationKey_Key (user_id : list Z) (document_key : path) (batch_id : Z) : M Writer unit :=
  WriteTableName kDocumentMutationsTable ;;; WriteUserId user_id ;;; WriteResourcePath document_key ;;;
  WriteBatchId batch_id ;;; WriteTerminator.
Definition MutationQueueKey_Key (user_id : list Z) : M Writer unit :=
  WriteTableName kMutationQueuesTable ;;; WriteUserId user_id ;;; WriteTerminator.
Definition TargetGlobalKey_Key : M Writer unit := WriteTableName kTargetGlobalTable ;;; WriteTerminator.
Definition TargetKey_Key (target_id : Z) : M Writer unit :=
  WriteTableName kTargetsTable ;;; WriteTargetId target_id ;;; WriteTerminator.
Definition QueryTargetKey_Key (canonical_id : list Z) (target_id : Z) : M Writer unit :=
  WriteTableName kQueryTargetsTable ;;; WriteCanonicalId canonical_id ;;; WriteTargetId target_id ;;; WriteTerminator.
Definition TargetDocumentKey_Key (target_id : Z) (document_key : path) : M Writer unit :=
  WriteTableName kTargetDocumentsTable ;;; WriteTargetId target_id ;;; WriteResourcePath document_key ;;; WriteTerminator.
Definition DocumentTargetKey_Key (document_key : path) (target_id : Z) : M Writer unit :=
  WriteTableName kDocumentTargetsTable ;;; WriteResourcePath document_key ;;; WriteTargetId target_id ;;; WriteTerminator.
Definition RemoteDocumentKey_Key (key : path) : M Writer unit :=
  WriteTableName kRemoteDocumentsTable ;;; WriteResourcePath key ;;; WriteTerminator.
Definition CollectionParentKey_Key (collection_id : list Z) (parent : path) : M Writer unit :=
  WriteTableName kCollectionParentsTable ;;; WriteCollectionId collection_id ;;; WriteResourcePath parent ;;; WriteTerminator.
Definition RemoteDocumentReadTimeKey_Key (collection_path : path) (read_time : timestamp) (document_id : list Z) : M Writer unit :=
  WriteTableName kRemoteDocumentReadTimeTable ;;; WriteResourcePath collection_path ;;;
  WriteSnapshotVersion read_time ;;; WriteDocumentId document_id ;;; WriteTerminator.
Definition BundleKey_Key (bundle_id : list Z) : M Writer unit :=
  WriteTableName kBundlesTable ;;; WriteBundleId bundle_id ;;; WriteTerminator.
Definition NamedQueryKey_Key (query_name : list Z) : M Writer unit :=
  WriteTableName kNamedQueriesTable ;;; WriteQueryName query_name ;;; WriteTerminator.
Definition IndexConfigurationKey_Key (id : Z) (collection_group : list Z) : M Writer unit :=
  WriteTableName kIndexConfigurationTable ;;; WriteIndexId id ;;; WriteCollectionGroup collection_group ;;; WriteTerminator.
Definition IndexStateKey_Key (user_id : list Z) (index_id : Z) : M Writer unit :=
  WriteTableName kIndexStateTable ;;; WriteUserId user_id ;;; WriteIndexId index_id ;;; WriteTerminator.
Definition IndexEntryKey_Key (index_id : Z) (user_id array_value directional_value ordered_document_key document_key : list Z) : M Writer unit :=
  WriteTableName kIndexEntriesTable ;;; WriteIndexId index_id ;;; WriteUserId user_id ;;;
  WriteIndexArrayValue array_value ;;; WriteIndexDirectionalValue directional_value ;;;
  WriteOrderedDocumentKey ordered_document_key ;;; WriteDocumentId document_key ;;; WriteTerminator.
Definition IndexEntryDocumentKeyIndexKey_Key (index_id : Z) (user_id document_key : list Z) (seq_number : Z) : M Writer unit :=
  WriteTableName kIndexEntriesDocumentKeyIndexTable ;;; WriteIndexId index_id ;;; WriteUserId user_id ;;;
  WriteDocumentId document_key ;;; WriteSequenceNumber seq_number ;;; WriteTerminator.
Definition DocumentOverlayKey_Key (user_id : list Z) (document_key : path) (largest_batch_id : Z) : M Writer unit :=
  WriteTableName kDocumentOverlaysTable ;;; WriteUserId user_id ;;; WriteResourcePath document_key ;;;
  WriteBatchId largest_batch_id ;;; WriteTerminator.
Definition LargestBatchIdIndexKey_Key (user_id : list Z) (largest_batch_id : Z) (document_key : path) : M Writer unit :=
  WriteTableName kDocumentOverlaysLargestBatchIdIndexTable ;;; WriteUserId user_id ;;; WriteBatchId largest_batch_id ;;;
  WriteResourcePath document_key ;;; WriteTerminator.
Definition CollectionIndexKey_Key (user_id : list Z) (collection : path) (largest_batch_id : Z) (document_id : list Z) : M Writer unit :=
  WriteTableName kDocumentOverlaysCollectionIndexTable ;;; WriteUserId user_id ;;; WriteResourcePath collection ;;;
  WriteBatchId largest_batch_id ;;; WriteDocumentId document_id ;;; WriteTerminator.
Definition CollectionGroupIndexKey_Key (user_id collection_group : list Z) (largest_batch_id : Z) (document_key : path) : M Writer unit :=
  WriteTableName kDocumentOverlaysCollectionGroupIndexTable ;;; WriteUserId user_id ;;; WriteCollectionGroup collection_group ;;;
  WriteBatchId largest_batch_id ;;; WriteResourcePath document_key ;;; WriteTerminator.
Definition DataMigrationKey_Key (migration_name : list Z) : M Writer unit :=
  WriteTableName kDataMigrationTable ;;; WriteDataMigrationName migration_name ;;; WriteTerminator.

(** [Key(const LevelDbDocumentOverlayKey&)] of the index keys. *)
Definition LargestBatchIdIndexKey_of_overlay (user_id : list Z) (document_key : path) (largest_batch_id : Z) : M Writer unit :=
  LargestBatchIdIndexKey_Key user_id largest_batch_id document_key.
Definition CollectionIndexKey_of_overlay (user_id : list Z) (document_key : path) (largest_batch_id : Z) : M Writer unit :=
  let* collection := PopLast document_key in
  let* document_id := last_segment document_key in
  CollectionIndexKey_Key user_id collection largest_batch_id document_id.
Definition CollectionGroupIndexKey_of_overlay (user_id : list Z) (document_key : path) (largest_batch_id : Z) : M Writer unit :=
  let* collection_group := lift (GetCollectionGroup document_key) in
  CollectionGroupIndexKey_Key user_id collection_group largest_batch_id document_key.

Definition OverlayMigrationKey : M Writer unit := DataMigrationKey_Key (bytes_of "overlay_migration").

(** The key of an object of each class. *)
Definition Key (k : leveldb_key) : M Writer unit :=
  match k with
  | LevelDbVersionKey => VersionKey_Key
  | LevelDbMutationKey u b => MutationKey_Key u b
  | LevelDbDocumentMutationKey u d b => DocumentMutationKey_Key u d b
  | LevelDbMutationQueueKey u => MutationQueueKey_Key u
  | LevelDbTargetGlobalKey => TargetGlobalKey_Key
  | LevelDbTargetKey t => TargetKey_Key t
  | LevelDbQueryTargetKey c t => QueryTargetKey_Key c t
  | LevelDbTargetDocumentKey t d => TargetDocumentKey_Key t d
  | LevelDbDocumentTargetKey d t => DocumentTargetKey_Key d t
  | LevelDbRemoteDocumentKey d => RemoteDocumentKey_Key d
  | LevelDbCollectionParentKey c p => CollectionParentKey_Key c p
  | LevelDbRemoteDocumentReadTimeKey c t d => RemoteDocumentReadTimeKey_Key c t d
  | LevelDbBundleKey b => BundleKey_Key b
  | LevelDbNamedQueryKey q => NamedQueryKey_Key q
  | LevelDbIndexConfigurationKey i g => IndexConfigurationKey_Key i g
  | LevelDbIndexStateKey u i => IndexStateKey_Key u i
  | LevelDbIndexEntryKey i u a d o k => IndexEntryKey_Key i u a d o k
  | LevelDbIndexEntryDocumentKeyIndexKey i u d s => IndexEntryDocumentKeyIndexKey_Key i u d s
  | LevelDbDocumentOverlayKey u d b => DocumentOverlayKey_Key u d b
  | LevelDbDocumentOverlayLargestBatchIdIndexKey u b d => LargestBatchIdIndexKey_of_overlay u d b
  | LevelDbDocumentOverlayCollectionIndexKey u b d => CollectionIndexKey_of_overlay u d b
  | LevelDbDocumentOverlayCollectionGroupIndexKey u g b d => CollectionGroupIndexKey_Key u g b d
  | LevelDbDataMigrationKey m => DataMigrationKey_Key m
  end.

Definition kInvalidTargetId : Z := 0.
Definition SentinelKey (document_key : path) : M Writer unit := DocumentTargetKey_Key document_key kInvalidTargetId.
Definition IsSentinel (target_id : Z) : bool := target_id =? kInvalidTargetId.
Definition EncodeSentinelValue (sequence_number : Z) : option (list Z) := result (WriteSignedNumIncreasing sequence_number).
Definition DecodeSentinelValue (slice : list Z) : option Z :=
  match ReadSignedNumIncreasing slice with (Some (Some decoded), _) => Some decoded | _ => None end.

(** [KeyPrefix], in every overload. *)
Definition MutationKey_KeyPrefix : M Writer unit :=
  WriteTableName kMutationsTable.
Definition MutationKey_KeyPrefix_user (user_id : list Z) : M Writer unit :=
  WriteTableName kMutationsTable ;;; WriteUserId user_id.
Definition DocumentMutationKey_KeyPrefix : M Writer unit :=
  WriteTableName kDocumentMutationsTable.
Definition DocumentMutationKey_KeyPrefix_user (user_id : list Z) : M Writer unit :=
  WriteTableName kDocumentMutationsTable ;;; WriteUserId user_id.
Definition DocumentMutationKey_KeyPrefix_path (user_id : list Z) (resource_path : path) : M Writer unit :=
  WriteTableName kDocumentMutationsTable ;;; WriteUserId user_id ;;; WriteResourcePath resource_path.
Definition MutationQueueKey_KeyPrefix : M Writer unit :=
  WriteTableName kMutationQueuesTable.
Definition TargetKey_KeyPrefix : M Writer unit :=
  WriteTableName kTargetsTable.
Definition QueryTargetKey_KeyPrefix : M Writer unit :=
  WriteTableName kQueryTargetsTable.
Definition QueryTargetKey_KeyPrefix_canonical (canonical_id : list Z) : M Writer unit :=
  WriteTableName kQueryTargetsTable ;;; WriteCanonicalId canonical_id.
Definition TargetDocumentKey_KeyPrefix : M Writer unit :=
  WriteTableName kTargetDocumentsTable.
Definition TargetDocumentKey_KeyPrefix_target (target_id : Z) : M Writer unit :=
  WriteTableName kTargetDocumentsTable ;;; WriteTargetId target_id.
Definition DocumentTargetKey_KeyPrefix : M Writer unit :=
  WriteTableName kDocumentTargetsTable.
Definition DocumentTargetKey_KeyPrefix_path (resource_path : path) : M Writer unit :=
  WriteTableName kDocumentTargetsTable ;;; WriteResourcePath resource_path.
Definition RemoteDocumentKey_KeyPrefix : M Writer unit :=
  WriteTableName kRemoteDocumentsTable.
Definition RemoteDocumentKey_KeyPrefix_path (resource_path : path) : M Writer unit :=
  WriteTableName kRemoteDocumentsTable ;;; WriteResourcePath resource_path.
Definition CollectionParentKey_KeyPrefix : M Writer unit :=
  WriteTableName kCollectionParentsTable.
Definition CollectionParentKey_KeyPrefix_collection (collection_id : list Z) : M Writer unit :=
  WriteTableName kCollectionParentsTable ;;; WriteCollectionId collection_id.
Definition RemoteDocumentReadTimeKey_KeyPrefix (collection_path : path) (read_time : timestamp) : M Writer unit :=
  WriteTableName kRemoteDocumentReadTimeTable ;;; WriteResourcePath collection_path ;;; WriteSnapshotVersion read_time.
Definition BundleKey_KeyPrefix : M Writer unit :=
  WriteTableName kBundlesTable.
Definition NamedQueryKey_KeyPrefix : M Writer unit :=
  WriteTableName kNamedQueriesTable.
Definition IndexConfigurationKey_KeyPrefix : M Writer unit :=
  WriteTableName kIndexConfigurationTable.
Definition IndexStateKey_KeyPrefix : M Writer unit :=
  WriteTableName kIndexStateTable.
Definition IndexStateKey_KeyPrefix_user (user_id : list Z) : M Writer unit :=
  WriteTableName kIndexStateTable ;;; WriteUserId user_id.
Definition IndexEntryKey_KeyPrefix : M Writer unit :=
  WriteTableName kIndexEntriesTable.
Definition IndexEntryKey_KeyPrefix_index (index_id : Z) : M Writer unit :=
  WriteTableName kIndexEntriesTable ;;; WriteIndexId index_id.
Definition IndexEntryKey_KeyPrefix_values (index_id : Z) (user_id array_value directional_value : list Z) : M Writer unit :=
  WriteTableName kIndexEntriesTable ;;; WriteIndexId index_id ;;; WriteUserId user_id ;;;
  WriteIndexArrayValue array_value ;;; WriteIndexDirectionalValue directional_value.
Definition IndexEntryDocumentKeyIndexKey_KeyPrefix (index_id : Z) (user_id document_name : list Z) : M Writer unit :=
  WriteTableName kIndexEntriesDocumentKeyIndexTable ;;; WriteIndexId index_id ;;; WriteUserId user_id ;;;
  WriteDocumentId document_name.
Definition DocumentOverlayKey_KeyPrefix_user (user_id : list Z) : M Writer unit :=
  WriteTableName kDocumentOverlaysTable ;;; WriteUserId user_id.
Definition DocumentOverlayKey_KeyPrefix_document (user_id : list Z) (document_key : path) : M Writer unit :=
  WriteTableName kDocumentOverlaysTable ;;; WriteUserId user_id ;;; WriteResourcePath document_key.
Definition LargestBatchIdIndexKey_KeyPrefix_user (user_id : list Z) : M Writer unit :=
  WriteTableName kDocumentOverlaysLargestBatchIdIndexTable ;;; WriteUserId user_id.
Definition LargestBatchIdIndexKey_KeyPrefix_batch (user_id : list Z) (largest_batch_id : Z) : M Writer unit :=
  WriteTableName kDocumentOverlaysLargestBatchIdIndexTable ;;; WriteUserId user_id ;;; WriteBatchId largest_batch_id.
Definition CollectionIndexKey_KeyPrefix_user (user_id : list Z) : M Writer unit :=
  WriteTableName kDocumentOverlaysCollectionIndexTable ;;; WriteUserId user_id.
Definition CollectionIndexKey_KeyPrefix_collection (user_id : list Z) (collection : path) : M Writer unit :=
  WriteTableName kDocumentOverlaysCollectionIndexTable ;;; WriteUserId user_id ;;; WriteResourcePath collection.
Definition CollectionIndexKey_KeyPrefix_batch (user_id : list Z) (collection : path) (largest_batch_id : Z) : M Writer unit :=
  WriteTableName kDocumentOverlaysCollectionIndexTable ;;; WriteUserId user_id ;;; WriteResourcePath collection ;;;
  WriteBatchId largest_batch_id.
Definition CollectionGroupIndexKey_KeyPrefix_user (user_id : list Z) : M Writer unit :=
  WriteTableName kDocumentOverlaysCollectionGroupIndexTable ;;; WriteUserId user_id.
Definition CollectionGroupIndexKey_KeyPrefix_group (user_id collection_group : list Z) : M Writer unit :=
  WriteTableName kDocumentOverlaysCollectionGroupIndexTable ;;; WriteUserId user_id ;;;
  WriteCollectionGroup collection_group.
Definition CollectionGroupIndexKey_KeyPrefix_batch (user_id collection_group : list Z) (largest_batch_id : Z) : M Writer unit :=
  WriteTableName kDocumentOverlaysCollectionGroupIndexTable ;;; WriteUserId user_id ;;;
  WriteCollectionGroup collection_group ;;; WriteBatchId largest_batch_id.

(** The overloads with their arguments. *)
Inductive key_prefix :=
  | MutationKey_prefix
  | MutationKey_prefix_user (user_id : list Z)
  | DocumentMutationKey_prefix
  | DocumentMutationKey_prefix_user (user_id : list Z)
  | DocumentMutationKey_prefix_path (user_id : list Z) (resource_path : path)
  | MutationQueueKey_prefix
  | TargetKey_prefix
  | QueryTargetKey_prefix
  | QueryTargetKey_prefix_canonical (canonical_id : list Z)
  | TargetDocumentKey_prefix
  | TargetDocumentKey_prefix_target (target_id : Z)
  | DocumentTargetKey_prefix
  | DocumentTargetKey_prefix_path (resource_path : path)
  | RemoteDocumentKey_prefix
  | RemoteDocumentKey_prefix_path (resource_path : path)
  | CollectionParentKey_prefix
  | CollectionParentKey_prefix_collection (collection_id : list Z)
  | RemoteDocumentReadTimeKey_prefix (collection_path : path) (read_time : timestamp)
  | BundleKey_prefix
  | NamedQueryKey_prefix
  | IndexConfigurationKey_prefix
  | IndexStateKey_prefix
  | IndexStateKey_prefix_user (user_id : list Z)
  | IndexEntryKey_prefix
  | IndexEntryKey_prefix_index (index_id : Z)
  | IndexEntryKey_prefix_values (index_id : Z) (user_id array_value directional_value : list Z)
  | IndexEntryDocumentKeyIndexKey_prefix (index_id : Z) (user_id document_name : list Z)
  | DocumentOverlayKey_prefix_user (user_id : list Z)
  | DocumentOverlayKey_prefix_document (user_id : list Z) (document_key : path)
  | LargestBatchIdIndexKey_prefix_user (user_id : list Z)
  | LargestBatchIdIndexKey_prefix_batch (user_id : list Z) (largest_batch_id : Z)
  | CollectionIndexKey_prefix_user (user_id : list Z)
  | CollectionIndexKey_prefix_collection (user_id : list Z) (collection : path)
  | CollectionIndexKey_prefix_batch (user_id : list Z) (collection : path) (largest_batch_id : Z)
  | CollectionGroupIndexKey_prefix_user (user_id : list Z)
  | CollectionGroupIndexKey_prefix_group (user_id collection_group : list Z)
  | CollectionGroupIndexKey_prefix_batch (user_id collection_group : list Z) (largest_batch_id : Z).

Definition KeyPrefix (p : key_prefix) : M Writer unit :=
  match p with
  | MutationKey_prefix => MutationKey_KeyPrefix
  | MutationKey_prefix_user u => MutationKey_KeyPrefix_user u
  | DocumentMutationKey_prefix => DocumentMutationKey_KeyPrefix
  | DocumentMutationKey_prefix_user u => DocumentMutationKey_KeyPrefix_user u
  | DocumentMutationKey_prefix_path u d => DocumentMutationKey_KeyPrefix_path u d
  | MutationQueueKey_prefix => MutationQueueKey_KeyPrefix
  | TargetKey_prefix => TargetKey_KeyPrefix
  | QueryTargetKey_prefix => QueryTargetKey_KeyPrefix
  | QueryTargetKey_prefix_canonical c => QueryTargetKey_KeyPrefix_canonical c
  | TargetDocumentKey_prefix => TargetDocumentKey_KeyPrefix
  | TargetDocumentKey_prefix_target t => TargetDocumentKey_KeyPrefix_target t
  | DocumentTargetKey_prefix => DocumentTargetKey_KeyPrefix
  | DocumentTargetKey_prefix_path d => DocumentTargetKey_KeyPrefix_path d
  | RemoteDocumentKey_prefix => RemoteDocumentKey_KeyPrefix
  | RemoteDocumentKey_prefix_path d => RemoteDocumentKey_KeyPrefix_path d
  | CollectionParentKey_prefix => CollectionParentKey_KeyPrefix
  | CollectionParentKey_prefix_collection c => CollectionParentKey_KeyPrefix_collection c
  | RemoteDocumentReadTimeKey_prefix c t => RemoteDocumentReadTimeKey_KeyPrefix c t
  | BundleKey_prefix => BundleKey_KeyPrefix
  | NamedQueryKey_prefix => NamedQueryKey_KeyPrefix
  | IndexConfigurationKey_prefix => IndexConfigurationKey_KeyPrefix
  | IndexStateKey_prefix => IndexStateKey_KeyPrefix
  | IndexStateKey_prefix_user u => IndexStateKey_KeyPrefix_user u
  | IndexEntryKey_prefix => IndexEntryKey_KeyPrefix
  | IndexEntryKey_prefix_index i => IndexEntryKey_KeyPrefix_index i
  | IndexEntryKey_prefix_values i u a d => IndexEntryKey_KeyPrefix_values i u a d
  | IndexEntryDocumentKeyIndexKey_prefix i u d => IndexEntryDocumentKeyIndexKey_KeyPrefix i u d
  | DocumentOverlayKey_prefix_user u => DocumentOverlayKey_KeyPrefix_user u
  | DocumentOverlayKey_prefix_document u d => DocumentOverlayKey_KeyPrefix_document u d
  | LargestBatchIdIndexKey_prefix_user u => LargestBatchIdIndexKey_KeyPrefix_user u
  | LargestBatchIdIndexKey_prefix_batch u b => LargestBatchIdIndexKey_KeyPrefix_batch u b
  | CollectionIndexKey_prefix_user u => CollectionIndexKey_KeyPrefix_user u
  | CollectionIndexKey_prefix_collection u c => CollectionIndexKey_KeyPrefix_collection u c
  | CollectionIndexKey_prefix_batch u c b => CollectionIndexKey_KeyPrefix_batch u c b
  | CollectionGroupIndexKey_prefix_user u => CollectionGroupIndexKey_KeyPrefix_user u
  | CollectionGroupIndexKey_prefix_group u g => CollectionGroupIndexKey_KeyPrefix_group u g
  | CollectionGroupIndexKey_prefix_batch u g b => CollectionGroupIndexKey_KeyPrefix_batch u g b
  end.

(** [Decode], one function for each class that has it: what it stores in the object. *)
Definition MutationKey_Decode : M Reader leveldb_key :=
  ReadTableNameMatching kMutationsTable ;;;
  let* user_id := ReadUserId in let* batch_id := ReadBatchId in
  ReadTerminator ;;; ret (LevelDbMutationKey user_id batch_id).
Definition DocumentMutationKey_Decode : M Reader leveldb_key :=
  ReadTableNameMatching kDocumentMutationsTable ;;;
  let* user_id := ReadUserId in let* document_key := ReadDocumentKey in let* batch_id := ReadBatchId in
  ReadTerminator ;;; ret (LevelDbDocumentMutationKey user_id document_key batch_id).
Definition MutationQueueKey_Decode : M Reader leveldb_key :=
  ReadTableNameMatching kMutationQueuesTable ;;;
  let* user_id := ReadUserId in
  ReadTerminator ;;; ret (LevelDbMutationQueueKey user_id).
Definition TargetGlobalKey_Decode : M Reader leveldb_key :=
  ReadTableNameMatching kTargetGlobalTable ;;; ReadTerminator ;;; ret LevelDbTargetGlobalKey.
Definition TargetKey_Decode : M Reader leveldb_key :=
  ReadTableNameMatching kTargetsTable ;;;
  let* target_id := ReadTargetId in
  ReadTerminator ;;; ret (LevelDbTargetKey target_id).
Definition QueryTargetKey_Decode : M Reader leveldb_key :=
  ReadTableNameMatching kQueryTargetsTable ;;;
  let* canonical_id := ReadCanonicalId in let* target_id := ReadTargetId in
  ReadTerminator ;;; ret (LevelDbQueryTargetKey canonical_id target_id).
Definition TargetDocumentKey_Decode : M Reader leveldb_key :=
  ReadTableNameMatching kTargetDocumentsTable ;;;
  let* target_id := ReadTargetId in let* document_key := ReadDocumentKey in
  ReadTerminator ;;; ret (LevelDbTargetDocumentKey target_id document_key).
Definition DocumentTargetKey_Decode : M Reader leveldb_key :=
  ReadTableNameMatching kDocumentTargetsTable ;;;
  let* document_key := ReadDocumentKey in let* target_id := ReadTargetId in
  ReadTerminator ;;; ret (LevelDbDocumentTargetKey document_key target_id).
Definition RemoteDocumentKey_Decode : M Reader leveldb_key :=
  ReadTableNameMatching kRemoteDocumentsTable ;;;
  let* document_key := ReadDocumentKey in
  ReadTerminator ;;; ret (LevelDbRemoteDocumentKey document_key).
Definition CollectionParentKey_Decode : M Reader leveldb_key :=
  ReadTableNameMatching kCollectionParentsTable ;;;
  let* collection_id := ReadCollectionId in let* parent := ReadResourcePath in
  ReadTerminator ;;; ret (LevelDbCollectionParentKey collection_id parent).
Definition RemoteDocumentReadTimeKey_Decode : M Reader leveldb_key :=
  ReadTableNameMatching kRemoteDocumentReadTimeTable ;;;
  let* collection_path := ReadResourcePath in let* read_time := ReadSnapshotVersion in
  let* document_id := ReadDocumentId in
  ReadTerminator ;;; ret (LevelDbRemoteDocumentReadTimeKey collection_path read_time document_id).
Definition BundleKey_Decode : M Reader leveldb_key :=
  ReadTableNameMatching kBundlesTable ;;;
  let* bundle_id := ReadBundleId in
  ReadTerminator ;;; ret (LevelDbBundleKey bundle_id).
Definition NamedQueryKey_Decode : M Reader leveldb_key :=
  ReadTableNameMatching kNamedQueriesTable ;;;
  let* name := ReadQueryName in
  ReadTerminator ;;; ret (LevelDbNamedQueryKey name).
Definition IndexConfigurationKey_Decode : M Reader leveldb_key :=
  ReadTableNameMatching kIndexConfigurationTable ;;;
  let* index_id := ReadIndexId in let* collection_group := ReadCollectionGroup in
  ReadTerminator ;;; ret (LevelDbIndexConfigurationKey index_id collection_group).
Definition IndexStateKey_Decode : M Reader leveldb_key :=
  ReadTableNameMatching kIndexStateTable ;;;
  let* user_id := ReadUserId in let* index_id := ReadIndexId in
  ReadTerminator ;;; ret (LevelDbIndexStateKey user_id index_id).
Definition IndexEntryKey_Decode : M Reader leveldb_key :=
  ReadTableNameMatching kIndexEntriesTable ;;;
  let* index_id := ReadIndexId in let* user_id := ReadUserId in let* array_value := ReadIndexArrayValue in
  let* directional_value := ReadIndexDirectionalValue in let* ordered_document_key := ReadOrderedDocumentKey in
  let* document_key := ReadDocumentId in
  ReadTerminator ;;;
  ret (LevelDbIndexEntryKey index_id user_id array_value directional_value ordered_document_key document_key).
Definition IndexEntryDocumentKeyIndexKey_Decode : M Reader leveldb_key :=
  ReadTableNameMatching kIndexEntriesDocumentKeyIndexTable ;;;
  let* index_id := ReadIndexId in let* user_id := ReadUserId in let* document_key := ReadDocumentId in
  let* seq_number := ReadSequenceNumber in
  ReadTerminator ;;; ret (LevelDbIndexEntryDocumentKeyIndexKey index_id user_id document_key seq_number).
Definition DocumentOverlayKey_Decode : M Reader leveldb_key :=
  ReadTableNameMatching kDocumentOverlaysTable ;;;
  let* user_id := ReadUserId in let* document_key := ReadDocumentKey in let* largest_batch_id := ReadBatchId in
  ReadTerminator ;;; ret (LevelDbDocumentOverlayKey user_id document_key largest_batch_id).
Definition LargestBatchIdIndexKey_Decode : M Reader leveldb_key :=
  ReadTableNameMatching kDocumentOverlaysLargestBatchIdIndexTable ;;;
  let* user_id := ReadUserId in let* largest_batch_id := ReadBatchId in let* document_key := ReadDocumentKey in
  ReadTerminator ;;; ret (LevelDbDocumentOverlayLargestBatchIdIndexKey user_id largest_batch_id document_key).
Definition CollectionIndexKey_Decode : M Reader leveldb_key :=
  ReadTableNameMatching kDocumentOverlaysCollectionIndexTable ;;;
  let* user_id := ReadUserId in let* collection := ReadResourcePath in let* largest_batch_id := ReadBatchId in
  let* document_id := ReadDocumentId in
  ReadTerminator ;;;
  let* document_key := DocumentKey (Append collection document_id) in
  ret (LevelDbDocumentOverlayCollectionIndexKey user_id largest_batch_id document_key).
Definition CollectionGroupIndexKey_Decode : M Reader leveldb_key :=
  ReadTableNameMatching kDocumentOverlaysCollectionGroupIndexTable ;;;
  let* user_id := ReadUserId in let* collection_group := ReadCollectionGroup in
  let* largest_batch_id := ReadBatchId in let* document_key := ReadDocumentKey in
  ReadTerminator ;;; ret (LevelDbDocumentOverlayCollectionGroupIndexKey user_id collection_group largest_batch_id document_key).
Definition DataMigrationKey_Decode : M Reader leveldb_key :=
  ReadTableNameMatching kDataMigrationTable ;;;
  let* migration_name := ReadDataMigrationName in
  ReadTerminator ;;; ret (LevelDbDataMigrationKey migration_name).

(** The classes that have [Decode]; [Decode c key] is [None] when it aborts, [Some None] when it
    returns [false] ([reader.ok()]), and the fields of the object when it returns [true]. *)
Inductive key_class :=
  | Mutation | DocumentMutation | MutationQueue | TargetGlobal | Target | QueryTarget | TargetDocument
  | DocumentTarget | RemoteDocument | CollectionParent | RemoteDocumentReadTime | Bundle | NamedQuery
  | IndexConfiguration | IndexState | IndexEntry | IndexEntryDocumentKeyIndex | DocumentOverlay
  | LargestBatchIdIndex | CollectionIndex | CollectionGroupIndex | DataMigration.

Definition decode_calls (c : key_class) : M Reader leveldb_key :=
  match c with
  | Mutation => MutationKey_Decode | DocumentMutation => DocumentMutationKey_Decode
  | MutationQueue => MutationQueueKey_Decode | TargetGlobal => TargetGlobalKey_Decode
  | Target => TargetKey_Decode | QueryTarget => QueryTargetKey_Decode
  | TargetDocument => TargetDocumentKey_Decode | DocumentTarget => DocumentTargetKey_Decode
  | RemoteDocument => RemoteDocumentKey_Decode | CollectionParent => CollectionParentKey_Decode
  | RemoteDocumentReadTime => RemoteDocumentReadTimeKey_Decode | Bundle => BundleKey_Decode
  | NamedQuery => NamedQueryKey_Decode | IndexConfiguration => IndexConfigurationKey_Decode
  | IndexState => IndexStateKey_Decode | IndexEntry => IndexEntryKey_Decode
  | IndexEntryDocumentKeyIndex => IndexEntryDocumentKeyIndexKey_Decode
  | DocumentOverlay => DocumentOverlayKey_Decode | LargestBatchIdIndex => LargestBatchIdIndexKey_Decode
  | CollectionIndex => CollectionIndexKey_Decode | CollectionGroupIndex => CollectionGroupIndexKey_Decode
  | DataMigration => DataMigrationKey_Decode
  end.

Definition Decode (c : key_class) (key : list Z) : option (option leveldb_key) :=
  match decode_calls c {| src_ := key; ok_ := true |} with
  | (Some k, reader) => Some (if ok_ reader then Some k else None)
  | (None, _) => None
  end.
