(* ===== verification/LevelDbKeyLemmas.v ===== *)
(** Keys as sequences of components: what each component is on disk, that components keep their
    order there, what the calls of [Writer] append and what the calls of [Reader] take. *)
From stdpp Require Import sets.
From S2P Require Import Prelude Ordered OrderedCode OrderedCodeStrings OrderedCodeNums OrderedCodeSigned LevelDbKey.

(** ** Components *)

Inductive payload := PNone | PString (s : list Z) | PInt (n : Z) | PVersion (v : timestamp).
Definition component : Type := ComponentLabel * payload.

Definition int32 (n : Z) : Prop := INT32_MIN <= n <= INT32_MAX.

(** What the label of a component says of the rest of it. *)
Definition component_ok (c : component) : Prop :=
  match c with
  | (Terminator, p) => p = PNone
  | ((BatchId | TargetId | IndexId), PInt n) => int32 n
  | (SequenceNumber, PInt n) => int64 n
  | (SnapshotVersion, PVersion v) => ValidateBounds v = true
  | ((Unknown | BatchId | TargetId | IndexId | SequenceNumber | SnapshotVersion), _) => False
  | (_, PString s) => Forall byte s
  | _ => False
  end.

Definition payload_code (p : payload) : list Z :=
  match p with
  | PNone => []
  | PString s => string_code false s
  | PInt n => signed_code n
  | PVersion v => signed_code v.1 ++ signed_code v.2
  end.
Definition component_code (c : component) : list Z := signed_code (label_value c.1) ++ payload_code c.2.

Definition timestamp_lt (v w : timestamp) : Prop := v.1 < w.1 \/ v.1 = w.1 /\ v.2 < w.2.
Definition payload_lt (p q : payload) : Prop :=
  match p, q with
  | PString s, PString t => lex_lt s t
  | PInt n, PInt m => n < m
  | PVersion v, PVersion w => timestamp_lt v w
  | _, _ => False
  end.
(** Labels first. *)
Definition component_lt (c d : component) : Prop :=
  label_value c.1 < label_value d.1 \/ c.1 = d.1 /\ payload_lt c.2 d.2.

Definition label_of (n : Z) : ComponentLabel :=
  match n with
  | 0 => Terminator | 5 => TableName | 10 => BatchId | 11 => CanonicalId | 12 => TargetId | 13 => UserId
  | 14 => CollectionId | 15 => DocumentId | 16 => SnapshotVersion | 17 => BundleId | 18 => QueryName
  | 19 => IndexId | 20 => IndexArrayValue | 21 => IndexDirectionalValue | 22 => CollectionGroup
  | 23 => SequenceNumber | 24 => OrderedDocumentKey | 25 => DataMigrationName | 62 => PathSegment
  | _ => Unknown
  end.

Lemma label_of_value l : label_of (label_value l) = l.
Proof. by destruct l. Qed.
Lemma label_value_inj l k : label_value l = label_value k -> l = k.
Proof. intros H. by rewrite <- (label_of_value l), H, label_of_value. Qed.
Lemma label_range l : 0 <= label_value l <= 63.
Proof. by destruct l. Qed.
Lemma label_int64 l : int64 (label_value l).
Proof. pose proof (label_range l). unfold int64. lia. Qed.
#[export] Instance label_eq_dec : EqDecision ComponentLabel.
Proof. solve_decision. Defined.

Lemma bounds_spec v : ValidateBounds v = true -> int64 v.1 /\ 0 <= v.2 < 10 ^ 9.
Proof.
  unfold ValidateBounds, kNanosPerSecond, int64. intros H. repeat apply andb_true_iff in H as [H ?].
  rewrite ?Z.leb_le, ?Z.ltb_lt in *. lia.
Qed.
Lemma int32_int64 n : int32 n -> int64 n.
Proof. unfold int32, int64, INT32_MIN, INT32_MAX. lia. Qed.
Create HintDb keys.
#[export] Hint Resolve label_int64 int32_int64 signed_code_byte : keys.

Lemma timestamp_below v w : ValidateBounds v = true -> ValidateBounds w = true -> timestamp_lt v w ->
  below (payload_code (PVersion v)) (payload_code (PVersion w)).
Proof.
  intros [Hv Hv']%bounds_spec [Hw Hw']%bounds_spec [H|[E H]]; cbn [payload_code].
  - by apply diverge_app, (code_below (lt := Z.lt)).
  - rewrite E. apply diverge_app_l, (code_below (lt := Z.lt)); [unfold int64; lia..|done].
Qed.

Lemma payload_below c d : component_ok c -> component_ok d -> c.1 = d.1 -> payload_lt c.2 d.2 ->
  below (payload_code c.2) (payload_code d.2).
Proof.
  destruct c as [l p], d as [k q]. cbn [fst snd]. intros Hc Hd <- H.
  destruct p, q; try done; cbn [payload_lt] in H.
  - cbn [payload_code]. apply (code_below (lt := lex_lt) (ok := Forall byte)); [by destruct l|by destruct l|done].
  - cbn [payload_code]. apply (code_below (lt := Z.lt)); [destruct l; cbn in Hc, Hd; done || by auto with keys..|done].
  - apply timestamp_below; [by destruct l|by destruct l|done].
Qed.

Lemma payload_total c d : component_ok c -> component_ok d -> c.1 = d.1 ->
  payload_lt c.2 d.2 \/ c.2 = d.2 \/ payload_lt d.2 c.2.
Proof.
  destruct c as [l p], d as [k q]. cbn [fst snd]. intros Hc Hd <-.
  destruct p as [|s|n|v], q as [|t|m|w]; try (by destruct l); cbn [payload_lt].
  - auto.
  - destruct (lex_total s t) as [|[->|]]; auto.
  - destruct (Z.lt_trichotomy n m) as [|[->|]]; auto.
  - destruct v as [a b], w as [a' b']. unfold timestamp_lt. cbn [fst snd].
    destruct (Z.lt_trichotomy a a') as [|[->|]]; auto. destruct (Z.lt_trichotomy b b') as [|[->|]]; auto.
Qed.

#[export] Instance component_ordered : OrderedCode component_ok component_lt component_code.
Proof.
  split; intros c d Hc Hd.
  - intros [H|[E H]]; unfold component_code.
    + apply diverge_app, (code_below (lt := Z.lt)); auto with keys.
    + rewrite E. by apply diverge_app_l, payload_below.
  - unfold component_lt. destruct (Z.lt_trichotomy (label_value c.1) (label_value d.1)) as [|[E|]]; auto.
    apply label_value_inj in E. destruct (payload_total c d Hc Hd E) as [|[E'|]]; auto.
    right; left. destruct c, d; cbn [fst snd] in *; congruence.
Qed.

Lemma component_nonempty c : component_ok c -> component_code c <> [].
Proof.
  intros _. unfold component_code. destruct (signed_code_head (label_value c.1) (label_int64 _)) as (b & t & -> & _). done.
Qed.

Lemma payload_byte c : component_ok c -> Forall byte (payload_code c.2).
Proof.
  destruct c as [l p]. cbn [snd]. intros Hc. destruct p; cbn [payload_code]; [done| |apply signed_code_byte|].
  - unfold string_code. apply map_conv_byte, Forall_app. split; [apply escape_byte; by destruct l|].
    unfold kEscape1_Separator, kEscape1, kSeparator. bytes_lit.
  - apply Forall_app. split; apply signed_code_byte.
Qed.

Lemma component_byte c : component_ok c -> Forall byte (component_code c).
Proof. intros H. apply Forall_app. split; [apply signed_code_byte|by apply payload_byte]. Qed.

Lemma components_byte cs : Forall component_ok cs -> Forall byte (encs component_code cs).
Proof.
  induction 1 as [|c cs Hc Hcs IH]; [constructor|]. rewrite encs_cons. apply Forall_app. split; [by apply component_byte|done].
Qed.

(** ** Writing *)

(** The calls append these components. *)
Definition writes (calls : M Writer unit) (cs : list component) : Prop :=
  Forall component_ok cs /\ forall dest, calls dest = (Some tt, dest ++ encs component_code cs).

Lemma writes_seq m1 m2 c1 c2 : writes m1 c1 -> writes m2 c2 -> writes (m1 ;;; m2) (c1 ++ c2).
Proof.
  intros [O1 H1] [O2 H2]. split; [by apply Forall_app|]. intros dest. unfold bind. by rewrite H1, H2, encs_app, app_assoc.
Qed.

Lemma writes_nil : writes (ret tt) [].
Proof. split; [done|]. intros dest. by rewrite app_nil_r. Qed.

Lemma write_label_spec l dest : WriteComponentLabel l dest = (Some tt, dest ++ signed_code (label_value l)).
Proof. apply write_signed_spec, label_int64. Qed.

Lemma writes_string l s : component_ok (l, PString s) -> Forall byte s -> writes (WriteLabeledString l s) [(l, PString s)].
Proof.
  intros Hc Hs. split; [by constructor|]. intros dest. unfold WriteLabeledString, bind.
  rewrite write_label_spec. unfold WriteString. rewrite (write_string_spec false) by done.
  unfold encs, component_code. cbn [map concat payload_code fst snd]. by rewrite app_nil_r, app_assoc.
Qed.

Lemma writes_int l n : component_ok (l, PInt n) -> int64 n -> writes (WriteLabeledInt64 l n) [(l, PInt n)].
Proof.
  intros Hc Hn. split; [by constructor|]. intros dest. unfold WriteLabeledInt64, bind.
  rewrite write_label_spec, write_signed_spec by done.
  unfold encs, component_code. cbn [map concat payload_code fst snd]. by rewrite app_nil_r, app_assoc.
Qed.

Lemma writes_int32 l n : component_ok (l, PInt n) -> int32 n -> writes (WriteLabeledInt32 l n) [(l, PInt n)].
Proof. intros Hc Hn. apply writes_int; [done|by apply int32_int64]. Qed.

Lemma writes_version v : ValidateBounds v = true -> writes (WriteSnapshotVersion v) [(SnapshotVersion, PVersion v)].
Proof.
  intros Hv. split; [by constructor|]. intros dest. apply bounds_spec in Hv as [H1 H2]. unfold WriteSnapshotVersion, bind.
  rewrite write_label_spec, !write_signed_spec by (done || unfold int64; lia).
  unfold encs, component_code. cbn [map concat payload_code fst snd]. by rewrite app_nil_r, <- !app_assoc.
Qed.

Lemma writes_terminator : writes WriteTerminator [(Terminator, PNone)].
Proof.
  split; [by constructor|]. intros dest. unfold WriteTerminator. rewrite write_signed_spec by done. done.
Qed.

Definition path_components (p : path) : list component := map (fun s => (PathSegment, PString s)) p.
Definition path_ok (p : path) : Prop := Forall (Forall byte) p.

Lemma path_components_ok p : path_ok p -> Forall component_ok (path_components p).
Proof. induction 1; constructor; done. Qed.

Lemma writes_path p : path_ok p -> writes (WriteResourcePath p) (path_components p).
Proof.
  induction 1 as [|s p Hs Hp IH]; [apply writes_nil|]. split; [by apply path_components_ok; constructor|]. intros dest.
  cbn [WriteResourcePath path_components map]. unfold bind. rewrite write_label_spec. unfold WriteString.
  rewrite (write_string_spec false) by done. destruct IH as [_ ->]. rewrite encs_cons.
  unfold component_code. cbn [fst snd payload_code]. by rewrite <- !app_assoc.
Qed.

(** ** Reading what was written *)

Definition at_ (s : list Z) : Reader := {| src_ := s; ok_ := true |}.

Lemma bind_ok {A B} (m : M Reader A) (k : A -> M Reader B) r a r' : m r = (Some a, r') -> bind m k r = k a r'.
Proof. unfold bind. by intros ->. Qed.

Lemma reader_num n rest : int64 n -> Forall byte rest ->
  Reader_ReadSignedNumIncreasing (at_ (signed_code n ++ rest)) = (Some n, at_ rest).
Proof. intros Hn Hr. unfold Reader_ReadSignedNumIncreasing, on_src. cbn [at_ src_ ok_]. by rewrite read_signed_complete. Qed.

Lemma reader_string s rest : Forall byte s -> Forall byte rest ->
  Reader_ReadString (at_ (string_code false s ++ rest)) = (Some s, at_ rest).
Proof.
  intros Hs Hr. unfold Reader_ReadString, on_src, ReadString. cbn [at_ src_ ok_].
  assert (Hb : Forall byte (string_code false s ++ rest)).
  { apply Forall_app. split; [by apply (payload_byte (UserId, PString s))|done]. }
  rewrite read_string_spec, parse_complete by done. done.
Qed.

Lemma reader_label l k rest : Forall byte rest ->
  ReadComponentLabelMatching l (at_ (signed_code (label_value k) ++ rest)) = (Some (label_value k =? label_value l), at_ rest).
Proof.
  intros Hr. unfold ReadComponentLabelMatching. erewrite bind_ok by done. cbn [ok_ at_].
  erewrite bind_ok by (apply (reader_num (label_value k) rest); auto with keys). by erewrite bind_ok by done.
Qed.

Lemma reader_expect l rest : Forall byte rest ->
  expect_label l (at_ (signed_code (label_value l) ++ rest)) = (Some tt, at_ rest).
Proof. intros Hr. unfold expect_label. erewrite bind_ok by (by apply reader_label). by rewrite Z.eqb_refl. Qed.

Lemma payload_byte_app c rest : component_ok c -> Forall byte rest -> Forall byte (payload_code c.2 ++ rest).
Proof. intros Hc Hr. apply Forall_app. split; [by apply payload_byte|done]. Qed.

Lemma reader_component_label l c rest : component_ok c -> Forall byte rest ->
  ReadComponentLabelMatching l (at_ (component_code c ++ rest)) =
    (Some (label_value c.1 =? label_value l), at_ (payload_code c.2 ++ rest)).
Proof. intros Hc Hr. unfold component_code. rewrite <- app_assoc. by apply reader_label, payload_byte_app. Qed.

Lemma reads_string l s rest : component_ok (l, PString s) -> Forall byte s -> Forall byte rest ->
  ReadLabeledString l (at_ (component_code (l, PString s) ++ rest)) = (Some s, at_ rest).
Proof.
  intros Hc Hs Hr. unfold ReadLabeledString, component_code. rewrite <- app_assoc. cbn [fst].
  erewrite bind_ok by (by apply reader_expect, (payload_byte_app (l, PString s))). by apply reader_string.
Qed.

Lemma reads_int l n rest : component_ok (l, PInt n) -> int64 n -> Forall byte rest ->
  ReadLabeledInt64 l (at_ (component_code (l, PInt n) ++ rest)) = (Some n, at_ rest).
Proof.
  intros Hc Hn Hr. unfold ReadLabeledInt64, component_code. rewrite <- app_assoc. cbn [fst].
  erewrite bind_ok by (by apply reader_expect, (payload_byte_app (l, PInt n))). by apply reader_num.
Qed.

Lemma reader_int32 n rest : int32 n -> Forall byte rest -> ReadInt32 (at_ (signed_code n ++ rest)) = (Some n, at_ rest).
Proof.
  intros Hn Hr. unfold ReadInt32. erewrite bind_ok by done. cbn [ok_ at_].
  erewrite bind_ok by (apply (reader_num n rest); auto with keys). erewrite bind_ok by done. cbn [ok_ at_ andb].
  unfold int32 in Hn. destruct Hn as [H1 H2]. apply Z.leb_le in H1, H2. by rewrite H1, H2.
Qed.

Lemma reads_int32 l n rest : component_ok (l, PInt n) -> int32 n -> Forall byte rest ->
  ReadLabeledInt32 l (at_ (component_code (l, PInt n) ++ rest)) = (Some n, at_ rest).
Proof.
  intros Hc Hn Hr. unfold ReadLabeledInt32, component_code. rewrite <- app_assoc. cbn [fst].
  erewrite bind_ok by (by apply reader_expect, (payload_byte_app (l, PInt n))). by apply reader_int32.
Qed.

Lemma reads_version v rest : ValidateBounds v = true -> Forall byte rest ->
  ReadSnapshotVersion (at_ (component_code (SnapshotVersion, PVersion v) ++ rest)) = (Some v, at_ rest).
Proof.
  intros Hv Hr. pose proof (bounds_spec v Hv) as [H1 H2]. unfold ReadSnapshotVersion, component_code. rewrite <- app_assoc. cbn [fst snd payload_code].
  erewrite bind_ok by (by apply reader_expect, (payload_byte_app (SnapshotVersion, PVersion v))). rewrite <- app_assoc.
  erewrite bind_ok by (apply reader_num; [done|apply Forall_app; auto with keys]).
  erewrite bind_ok by (apply reader_int32; [unfold int32, INT32_MIN, INT32_MAX; lia|done]).
  unfold Timestamp. destruct v as [a b]. cbn [fst snd]. by rewrite Hv.
Qed.

Lemma reads_table t rest : Forall byte t -> Forall byte rest ->
  ReadTableNameMatching t (at_ (component_code (TableName, PString t) ++ rest)) = (Some tt, at_ rest).
Proof.
  intros Ht Hr. unfold ReadTableNameMatching, ReadLabeledStringMatching.
  assert (E : bytes_eqb t t = true) by (by apply bool_decide_true).
  unfold bind at 1. erewrite bind_ok by (by apply reads_string). erewrite bind_ok by done. cbn [ok_ at_]. by rewrite E.
Qed.

Lemma reads_terminator rest : Forall byte rest ->
  ReadTerminator (at_ (component_code (Terminator, PNone) ++ rest)) = (Some tt, at_ rest).
Proof. intros Hr. by apply (reader_expect Terminator). Qed.

(** A path ends before a component with another label. *)
Lemma read_segments_spec fuel acc p c rest : path_ok p -> component_ok c -> c.1 <> PathSegment -> Forall byte rest ->
  (length p < fuel)%nat ->
  read_segments fuel acc (at_ (encs component_code (path_components p) ++ component_code c ++ rest)) =
    (Some (acc ++ p), at_ (component_code c ++ rest)).
Proof.
  intros Hp Hc Hl Hr. revert fuel acc. induction Hp as [|s p Hs Hp IH]; intros [|fuel] acc Hf; [cbn in Hf; lia| |cbn in Hf; lia|];
    cbn [read_segments].
  - unfold encs. cbn [map path_components concat app].
    destruct (signed_code_head (label_value c.1) (label_int64 _)) as (b & t & E & _).
    assert (He : empty (at_ (component_code c ++ rest)) = (Some false, at_ (component_code c ++ rest))).
    { unfold empty, component_code. cbn [ok_ src_ at_]. rewrite E. done. }
    erewrite bind_ok by exact He. cbv beta iota. erewrite bind_ok by done. cbn [src_ at_].
    erewrite bind_ok by (by apply reader_component_label). destruct (Z.eqb_spec (label_value c.1) (label_value PathSegment)) as [E'|_].
    { by apply label_value_inj in E'. }
    cbn [negb]. cbv beta iota. erewrite bind_ok by done. cbn [ok_ at_ ret]. by rewrite app_nil_r.
  - change (path_components (s :: p)) with ((PathSegment, PString s) :: path_components p). rewrite encs_cons, <- app_assoc.
    set (more := encs component_code (path_components p) ++ component_code c ++ rest).
    assert (Hm : Forall byte more).
    { unfold more. rewrite !Forall_app. split; [by apply components_byte, path_components_ok|]. split; [by apply component_byte|done]. }
    destruct (signed_code_head (label_value PathSegment) (label_int64 _)) as (b & t & E & _).
    assert (He : empty (at_ (component_code (PathSegment, PString s) ++ more)) = (Some false, at_ (component_code (PathSegment, PString s) ++ more))).
    { unfold empty, component_code. cbn [ok_ src_ at_ fst]. rewrite E. done. }
    erewrite bind_ok by exact He. cbv beta iota. erewrite bind_ok by done.
    erewrite bind_ok by (by apply reader_component_label). cbn [fst snd payload_code]. rewrite Z.eqb_refl. cbv beta iota delta [negb].
    erewrite bind_ok by (by apply reader_string). erewrite bind_ok by done. cbn [ok_ at_ negb].
    unfold more. rewrite IH by (cbn in Hf; lia). by rewrite <- app_assoc.
Qed.

Lemma path_components_length p : (length p <= length (encs component_code (path_components p)))%nat.
Proof.
  induction p as [|s p IH]; [done|]. change (path_components (s :: p)) with ((PathSegment, PString s) :: path_components p).
  rewrite encs_cons, length_app. cbn [length].
  assert (1 <= length (component_code (PathSegment, PString s)))%nat; [|lia].
  unfold component_code. rewrite length_app, signed_code_length. cbn [fst].
  pose proof (signed_len_spec (label_value PathSegment) (label_int64 _)) as [? _]. lia.
Qed.

Lemma reads_path p c rest : path_ok p -> component_ok c -> c.1 <> PathSegment -> Forall byte rest ->
  ReadResourcePath (at_ (encs component_code (path_components p) ++ component_code c ++ rest)) =
    (Some p, at_ (component_code c ++ rest)).
Proof.
  intros Hp Hc Hl Hr. unfold ReadResourcePath. rewrite read_segments_spec; [done..|].
  cbn [src_ at_]. rewrite length_app. pose proof (path_components_length p). lia.
Qed.

(** A document key that was read is not empty. *)
Definition document_ok (p : path) : Prop := path_ok p /\ p <> [] /\ IsDocumentKey p = true.

Lemma reads_document p c rest : document_ok p -> component_ok c -> c.1 <> PathSegment -> Forall byte rest ->
  ReadDocumentKey (at_ (encs component_code (path_components p) ++ component_code c ++ rest)) =
    (Some p, at_ (component_code c ++ rest)).
Proof.
  intros (Hp & Hne & Hd) Hc Hl Hr. unfold ReadDocumentKey. erewrite bind_ok by (by apply reads_path). erewrite bind_ok by done.
  cbn [ok_ at_]. rewrite Hd. destruct p as [|s p]; [done|]. pose proof (len_nonneg p).
  rewrite len_cons. destruct (Z.eqb_spec (1 + len p) 0); [lia|]. cbn [negb andb]. unfold DocumentKey. by rewrite Hd.
Qed.

(** ** What reading without failure has read *)

(** A computation that leaves the [Reader] good has taken components [cs] that, with its result,
    satisfy [Q]. *)
Definition takes {A} (m : M Reader A) (Q : A -> list component -> Prop) : Prop :=
  forall r a r', Forall byte (src_ r) -> m r = (Some a, r') ->
  Forall byte (src_ r') /\
  (ok_ r' = true -> ok_ r = true /\
   exists cs, Forall component_ok cs /\ src_ r = encs component_code cs ++ src_ r' /\ Q a cs).

Lemma takes_ret {A} (a : A) : takes (ret a) (fun b cs => b = a /\ cs = []).
Proof. intros r b r' Hr [= <- <-]. split; [done|]. intros Ho. split; [done|]. by exists []. Qed.

Lemma takes_bind {A B} (m : M Reader A) (k : A -> M Reader B) Q R : takes m Q -> (forall a, takes (k a) (R a)) ->
  takes (bind m k) (fun b cs => exists a c1 c2, cs = c1 ++ c2 /\ Q a c1 /\ R a b c2).
Proof.
  intros Hm Hk r b r'' Hr E. unfold bind in E. destruct (m r) as [[a|] r'] eqn:Em; [|done].
  destruct (Hm r a r' Hr Em) as (H1 & HQ), (Hk a r' b r'' (proj1 (Hm r a r' Hr Em)) E) as (H2 & HR).
  split; [done|]. intros Ho. destruct (HR Ho) as (Ho' & c2 & Hc2 & E2 & HR'), (HQ (proj1 (HR Ho))) as (Ho'' & c1 & Hc1 & E1 & HQ').
  split; [done|]. exists (c1 ++ c2). split; [by apply Forall_app|].
  split; [by rewrite encs_app, E1, E2, app_assoc|]. by exists a, c1, c2.
Qed.

Lemma takes_weaken {A} (m : M Reader A) (Q R : A -> list component -> Prop) :
  takes m Q -> (forall a cs, Forall component_ok cs -> Q a cs -> R a cs) -> takes m R.
Proof.
  intros Hm H r a r' Hr E. destruct (Hm r a r' Hr E) as (H1 & H2). split; [done|]. intros Ho.
  destruct (H2 Ho) as (Ho' & cs & Hc & E' & HQ). eauto 10.
Qed.

(** The same of the bytes of part of a component. *)
Definition takes_bytes {A} (m : M Reader A) (Q : A -> list Z -> Prop) : Prop :=
  forall r a r', Forall byte (src_ r) -> m r = (Some a, r') ->
  Forall byte (src_ r') /\ (ok_ r' = true -> ok_ r = true /\ exists bs, src_ r = bs ++ src_ r' /\ Q a bs).

Lemma takes_bytes_bind {A B} (m : M Reader A) (k : A -> M Reader B) Q R : takes_bytes m Q -> (forall a, takes_bytes (k a) (R a)) ->
  takes_bytes (bind m k) (fun b bs => exists a c1 c2, bs = c1 ++ c2 /\ Q a c1 /\ R a b c2).
Proof.
  intros Hm Hk r b r'' Hr E. unfold bind in E. destruct (m r) as [[a|] r'] eqn:Em; [|done].
  destruct (Hm r a r' Hr Em) as (H1 & HQ), (Hk a r' b r'' (proj1 (Hm r a r' Hr Em)) E) as (H2 & HR).
  split; [done|]. intros Ho. destruct (HR Ho) as (Ho' & c2 & E2 & HR'), (HQ (proj1 (HR Ho))) as (Ho'' & c1 & E1 & HQ').
  split; [done|]. exists (c1 ++ c2). split; [by rewrite E1, E2, app_assoc|]. by exists a, c1, c2.
Qed.

Lemma takes_of_bytes {A} (m : M Reader A) Q R : takes_bytes m Q ->
  (forall a bs, Q a bs -> exists c, component_ok c /\ bs = component_code c /\ R a [c]) -> takes m R.
Proof.
  intros Hm H r a r' Hr E. destruct (Hm r a r' Hr E) as (H1 & H2). split; [done|]. intros Ho.
  destruct (H2 Ho) as (Ho' & bs & E' & HQ). split; [done|]. destruct (H a bs HQ) as (c & Hc & -> & HR).
  exists [c]. split; [by constructor|]. split; [|done]. unfold encs. cbn [map concat]. by rewrite app_nil_r.
Qed.

Lemma takes_fail {A} (m : M Reader A) Q : (forall r a r', m r = (Some a, r') -> ok_ r' = false /\ src_ r' = src_ r) -> takes_bytes m Q.
Proof. intros H r a r' Hr E. destruct (H r a r' E) as [E1 ->]. split; [done|congruence]. Qed.

(** A read through [OrderedCode]. *)
Lemma takes_on_src {A} (read : M (list Z) (option A)) d (Q : A -> list Z -> Prop) :
  (forall src a rest, Forall byte src -> read src = (Some (Some a), rest) -> Forall byte rest /\ exists bs, src = bs ++ rest /\ Q a bs) ->
  takes_bytes (on_src read d) Q.
Proof.
  intros H r a r' Hr. unfold on_src. destruct (ok_ r) eqn:Eo.
  - destruct (read (src_ r)) as [[[b|]|] tmp] eqn:E; [|intros [= <- <-]; done|done]. intros [= <- <-]. cbn [src_ ok_].
    destruct (H _ _ _ Hr E) as [H1 H2]. done.
  - by intros [= <- <-].
Qed.

Lemma takes_num : takes_bytes Reader_ReadSignedNumIncreasing (fun n bs => int64 n /\ bs = signed_code n).
Proof.
  apply takes_on_src. intros src n rest Hs E. apply read_signed_sound in E as (Hn & Hr & ->); [|done]. split; [done|]. by eexists.
Qed.

Lemma takes_str : takes_bytes Reader_ReadString (fun s bs => Forall byte s /\ bs = string_code false s).
Proof.
  apply takes_on_src. intros src s rest Hs. unfold ReadString. rewrite read_string_spec by done.
  destruct (parse false src) as [[s' rest']|] eqn:E; [|done]. intros [= <- <-].
  apply parse_sound in E as (H1 & H2 & ->); [|done]. split; [done|]. by eexists.
Qed.

Lemma takes_label_matching l : takes_bytes (ReadComponentLabelMatching l)
  (fun b bs => exists n, int64 n /\ b = (n =? label_value l) /\ bs = signed_code n).
Proof.
  intros r b r' Hr. unfold ReadComponentLabelMatching, bind, ok, ret, Fail_. destruct (ok_ r) eqn:Eo; [|by intros [= <- <-]].
  destruct (Reader_ReadSignedNumIncreasing r) as [[n|] r1] eqn:E; [|done]. destruct (takes_num r n r1 Hr E) as [H1 H2].
  destruct (ok_ r1) eqn:E1.
  - intros [= <- <-]. split; [done|]. intros _. destruct (H2 eq_refl) as (H3 & bs & H4 & H5 & H6). split; [done|]. eauto 10.
  - by intros [= <- <-].
Qed.

Lemma takes_expect l : takes_bytes (expect_label l) (fun _ bs => bs = signed_code (label_value l)).
Proof.
  intros r u r' Hr. unfold expect_label, bind, ret, Fail_. destruct (ReadComponentLabelMatching l r) as [[b|] r1] eqn:E; [|done].
  destruct (takes_label_matching l r b r1 Hr E) as [H1 H2]. destruct b; [|by intros [= <- <-]]. intros [= <- <-].
  split; [done|]. intros Ho. destruct (H2 Ho) as (H3 & bs & H4 & n & Hn & En & ->). symmetry in En. apply Z.eqb_eq in En as ->.
  split; [done|]. eauto.
Qed.

Lemma takes_int32 : takes_bytes ReadInt32 (fun n bs => int32 n /\ bs = signed_code n).
Proof.
  intros r n r' Hr. unfold ReadInt32, bind, ok, ret, Fail_. destruct (ok_ r) eqn:Eo; [|by intros [= <- <-]].
  destruct (Reader_ReadSignedNumIncreasing r) as [[m|] r1] eqn:E; [|done]. destruct (takes_num r m r1 Hr E) as [H1 H2].
  destruct (ok_ r1 && _ && _) eqn:Ec; [|by intros [= <- <-]]. intros [= <- <-]. split; [done|]. intros Ho.
  destruct (H2 Ho) as (H3 & bs & H4 & _ & H6). split; [done|]. exists bs. split; [done|]. split; [|done].
  apply andb_true_iff in Ec as [Ec ?%Z.leb_le]. apply andb_true_iff in Ec as [_ ?%Z.leb_le]. done.
Qed.

(** A label that announces a string, and so on. *)
Definition string_label (l : ComponentLabel) : bool :=
  match l with
  | Terminator | Unknown | BatchId | TargetId | IndexId | SequenceNumber | SnapshotVersion => false
  | _ => true
  end.
Definition int32_label (l : ComponentLabel) : bool := match l with BatchId | TargetId | IndexId => true | _ => false end.

Lemma string_label_ok l s : string_label l = true -> Forall byte s -> component_ok (l, PString s).
Proof. by destruct l. Qed.
Lemma int32_label_ok l n : int32_label l = true -> int32 n -> component_ok (l, PInt n).
Proof. by destruct l. Qed.

Lemma takes_string l : string_label l = true -> takes (ReadLabeledString l) (fun s cs => Forall byte s /\ cs = [(l, PString s)]).
Proof.
  intros Hl. unfold ReadLabeledString. eapply takes_of_bytes; [apply takes_bytes_bind; [apply takes_expect|intros ?; apply takes_str]|].
  intros s bs (_ & c1 & c2 & -> & -> & Hs & ->). exists (l, PString s). split; [by apply string_label_ok|done].
Qed.

Lemma takes_labeled_int32 l : int32_label l = true -> takes (ReadLabeledInt32 l) (fun n cs => int32 n /\ cs = [(l, PInt n)]).
Proof.
  intros Hl. unfold ReadLabeledInt32. eapply takes_of_bytes; [apply takes_bytes_bind; [apply takes_expect|intros ?; apply takes_int32]|].
  intros s bs (_ & c1 & c2 & -> & -> & Hs & ->). exists (l, PInt s). split; [by apply int32_label_ok|done].
Qed.

Lemma takes_sequence : takes ReadSequenceNumber (fun n cs => int64 n /\ cs = [(SequenceNumber, PInt n)]).
Proof.
  unfold ReadSequenceNumber, ReadLabeledInt64, ReadInt64.
  eapply takes_of_bytes; [apply takes_bytes_bind; [apply takes_expect|intros ?; apply takes_num]|].
  intros n bs (_ & c1 & c2 & -> & -> & Hs & ->). by exists (SequenceNumber, PInt n).
Qed.

Lemma takes_terminator : takes ReadTerminator (fun _ cs => cs = [(Terminator, PNone)]).
Proof.
  eapply takes_of_bytes; [apply takes_expect|]. intros _ bs ->. by exists (Terminator, PNone).
Qed.

Lemma takes_timestamp a b : takes_bytes (Timestamp a b) (fun v bs => bs = [] /\ v = (a, b) /\ ValidateBounds v = true).
Proof.
  intros r v r' Hr. unfold Timestamp, bind, check, ret. destruct (ValidateBounds (a, b)) eqn:E; [|done]. intros [= <- <-].
  split; [done|]. intros Ho. split; [done|]. by exists [].
Qed.

Lemma takes_version : takes ReadSnapshotVersion (fun v cs => ValidateBounds v = true /\ cs = [(SnapshotVersion, PVersion v)]).
Proof.
  unfold ReadSnapshotVersion, ReadInt64. eapply takes_of_bytes.
  - apply takes_bytes_bind; [apply takes_expect|intros u]. apply takes_bytes_bind; [apply takes_num|intros a].
    apply takes_bytes_bind; [apply takes_int32|intros b]. apply takes_timestamp.
  - intros v bs (_ & c1 & c2 & -> & -> & a & c3 & c4 & -> & [_ ->] & b & c5 & c6 & -> & [_ ->] & -> & -> & Hv).
    exists (SnapshotVersion, PVersion (a, b)). split; [done|]. split; [|done]. unfold component_code. cbn [fst snd payload_code].
    by rewrite app_nil_r.
Qed.

Lemma takes_table t : takes (ReadTableNameMatching t) (fun _ cs => Forall byte t /\ cs = [(TableName, PString t)]).
Proof.
  intros r u r' Hr. unfold ReadTableNameMatching, ReadLabeledStringMatching, bind, ok, ret, Fail_.
  destruct (ReadLabeledString TableName r) as [[s|] r1] eqn:E; [|done].
  destruct (takes_string TableName eq_refl r s r1 Hr E) as [H1 H2]. destruct (ok_ r1) eqn:Eo; [|by intros [= <- <-]].
  destruct (bytes_eqb s t) eqn:Et; [|by intros [= <- <-]]. apply bool_decide_eq_true in Et as <-. intros [= <- <-].
  split; [done|]. intros _. by apply H2.
Qed.

Lemma takes_segments fuel acc :
  takes (read_segments fuel acc) (fun p cs => exists q, p = acc ++ q /\ path_ok q /\ cs = path_components q).
Proof.
  revert acc. induction fuel as [|fuel IH]; intros acc r p r' Hr; [done|]. cbn [read_segments].
  assert (Hnil : forall r'', r'' = r' -> Some acc = Some p -> Forall byte (src_ r'') -> Forall byte (src_ r') /\ (ok_ r' = true -> ok_ r'' = true /\
    exists cs, Forall component_ok cs /\ src_ r'' = encs component_code cs ++ src_ r' /\ exists q, p = acc ++ q /\ path_ok q /\ cs = path_components q)).
  { intros r'' -> [= <-] Hb. split; [done|]. intros Ho. split; [done|]. exists []. split; [done|]. split; [done|].
    exists []. rewrite app_nil_r. split_and!; [done|constructor|done]. }
  unfold bind, empty, ok, set_src, get_state, ret. destruct (negb (ok_ r) || (len (src_ r) =? 0)); [intros [= <- <-]; by apply Hnil|].
  destruct (ReadComponentLabelMatching PathSegment r) as [[b|] r1] eqn:E1; [|done].
  destruct (takes_label_matching PathSegment r b r1 Hr E1) as [H1 H2]. destruct b; cbn [negb].
  - destruct (Reader_ReadString r1) as [[s|] r2] eqn:E2; [|done]. destruct (takes_str r1 s r2 H1 E2) as [H3 H4].
    destruct (ok_ r2) eqn:Eo; cbn [negb]; [|intros [= <- <-]; split; [done|congruence]]. intros E3.
    destruct (IH (acc ++ [s]) r2 p r' H3 E3) as [H5 H6]. split; [done|]. intros Ho.
    destruct (H6 Ho) as (_ & cs & Hcs & E & q & -> & Hq & ->). destruct (H4 eq_refl) as (Hr1 & bs & Eb & Hs & ->).
    destruct (H2 Hr1) as (Hr0 & bs0 & Eb0 & n & _ & En & ->).
    symmetry in En. apply Z.eqb_eq in En as ->. split; [done|]. exists (path_components (s :: q)).
    split; [by apply path_components_ok; constructor|]. split; [|exists (s :: q); split; [by rewrite <- app_assoc|split; [by constructor|done]]].
    change (path_components (s :: q)) with ((PathSegment, PString s) :: path_components q). rewrite encs_cons.
    rewrite Eb0, Eb, E. unfold component_code at 2. cbn [fst snd payload_code]. by rewrite <- !app_assoc.
  - intros [= <- <-]. cbn [src_ ok_]. split; [done|]. intros Ho. destruct (H2 Ho) as (Hr0 & _). split; [done|].
    exists []. split; [done|]. split; [done|]. exists []. rewrite app_nil_r. split_and!; [done|constructor|done].
Qed.

Lemma takes_path : takes ReadResourcePath (fun p cs => path_ok p /\ cs = path_components p).
Proof.
  intros r p r' Hr E. destruct (takes_segments _ _ r p r' Hr E) as [H1 H2]. split; [done|]. intros Ho.
  destruct (H2 Ho) as (H3 & cs & H4 & H5 & q & -> & H6 & ->). eauto 10.
Qed.

Lemma takes_document : takes ReadDocumentKey (fun p cs => document_ok p /\ cs = path_components p).
Proof.
  intros r p r' Hr. unfold ReadDocumentKey, bind, ok, ret, Fail_. destruct (ReadResourcePath r) as [[q|] r1] eqn:E; [|done].
  destruct (takes_path r q r1 Hr E) as [H1 H2]. destruct (ok_ r1 && _ && _) eqn:Ec; [|by intros [= <- <-]].
  apply andb_true_iff in Ec as [Ec Ed]. apply andb_true_iff in Ec as [Eo En]. unfold DocumentKey, bind, check, ret. rewrite Ed.
  intros [= <- <-]. split; [done|]. intros _. destruct (H2 Eo) as (H3 & cs & H4 & H5 & H6 & H7). split; [done|].
  exists cs. split; [done|]. split; [done|]. split; [|done]. split; [done|]. split; [|done]. by intros ->.
Qed.

(** The constructor of a document key from parts. *)
Lemma takes_DocumentKey p : takes (DocumentKey p) (fun q cs => q = p /\ cs = [] /\ IsDocumentKey p = true).
Proof.
  intros r q r' Hr. unfold DocumentKey, bind, check, ret. destruct (IsDocumentKey p) eqn:E; [|done]. intros [= <- <-].
  split; [done|]. intros Ho. split; [done|]. by exists [].
Qed.
