(* ===== verification/LevelDbKeyProps.v ===== *)
(** What the keys of the local store promise: decoding is exact, the bytes are in the order of the
    fields, and a prefix selects exactly the keys that share its fields. *)
From Stdlib Require Import String.
From stdpp Require Import sets.
From S2P Require Import Prelude Ordered Comparator OrderedCode OrderedCodeStrings OrderedCodeNums OrderedCodeSigned LevelDbKey LevelDbKeyLemmas.

(** ** The schema *)

Definition table (name : list Z) : component := (TableName, PString name).
Definition terminator : component := (Terminator, PNone).
Definition field (l : ComponentLabel) (s : list Z) : component := (l, PString s).
Definition number (l : ComponentLabel) (n : Z) : component := (l, PInt n).

(** The rows as [Key] is to write them, a component for each.  leveldb_key.h describes them but for four:
    it has the index number of an index state in front of the user, leaves out the collection group
    of an index configuration and the sequence number of an index entry's document key, and has no row
    for the version. *)
Definition key_components (k : leveldb_key) : list component :=
  match k with
  | LevelDbVersionKey => [table kVersionGlobalTable; terminator]
  | LevelDbMutationKey u b => [table kMutationsTable; field UserId u; number BatchId b; terminator]
  | LevelDbDocumentMutationKey u d b =>
      [table kDocumentMutationsTable; field UserId u] ++ path_components d ++ [number BatchId b; terminator]
  | LevelDbMutationQueueKey u => [table kMutationQueuesTable; field UserId u; terminator]
  | LevelDbTargetGlobalKey => [table kTargetGlobalTable; terminator]
  | LevelDbTargetKey t => [table kTargetsTable; number TargetId t; terminator]
  | LevelDbQueryTargetKey c t => [table kQueryTargetsTable; field CanonicalId c; number TargetId t; terminator]
  | LevelDbTargetDocumentKey t d =>
      [table kTargetDocumentsTable; number TargetId t] ++ path_components d ++ [terminator]
  | LevelDbDocumentTargetKey d t =>
      [table kDocumentTargetsTable] ++ path_components d ++ [number TargetId t; terminator]
  | LevelDbRemoteDocumentKey d => [table kRemoteDocumentsTable] ++ path_components d ++ [terminator]
  | LevelDbCollectionParentKey c p =>
      [table kCollectionParentsTable; field CollectionId c] ++ path_components p ++ [terminator]
  | LevelDbRemoteDocumentReadTimeKey c t d =>
      [table kRemoteDocumentReadTimeTable] ++ path_components c ++ [(SnapshotVersion, PVersion t); field DocumentId d; terminator]
  | LevelDbBundleKey b => [table kBundlesTable; field BundleId b; terminator]
  | LevelDbNamedQueryKey q => [table kNamedQueriesTable; field QueryName q; terminator]
  | LevelDbIndexConfigurationKey i g =>
      [table kIndexConfigurationTable; number IndexId i; field CollectionGroup g; terminator]
  | LevelDbIndexStateKey u i => [table kIndexStateTable; field UserId u; number IndexId i; terminator]
  | LevelDbIndexEntryKey i u a d o n =>
      [table kIndexEntriesTable; number IndexId i; field UserId u; field IndexArrayValue a;
       field IndexDirectionalValue d; field OrderedDocumentKey o; field DocumentId n; terminator]
  | LevelDbIndexEntryDocumentKeyIndexKey i u d s =>
      [table kIndexEntriesDocumentKeyIndexTable; number IndexId i; field UserId u; field DocumentId d;
       number SequenceNumber s; terminator]
  | LevelDbDocumentOverlayKey u d b =>
      [table kDocumentOverlaysTable; field UserId u] ++ path_components d ++ [number BatchId b; terminator]
  | LevelDbDocumentOverlayLargestBatchIdIndexKey u b d =>
      [table kDocumentOverlaysLargestBatchIdIndexTable; field UserId u; number BatchId b] ++ path_components d ++ [terminator]
  | LevelDbDocumentOverlayCollectionIndexKey u b d =>
      [table kDocumentOverlaysCollectionIndexTable; field UserId u] ++ path_components (take (length d - 1) d) ++
      [number BatchId b; field DocumentId (List.last d []); terminator]
  | LevelDbDocumentOverlayCollectionGroupIndexKey u g b d =>
      [table kDocumentOverlaysCollectionGroupIndexTable; field UserId u; field CollectionGroup g; number BatchId b] ++
      path_components d ++ [terminator]
  | LevelDbDataMigrationKey m => [table kDataMigrationTable; field DataMigrationName m; terminator]
  end.

(** Fields in their types; strings are bytes; a document key names a document. *)
Definition valid (k : leveldb_key) : Prop :=
  match k with
  | LevelDbVersionKey | LevelDbTargetGlobalKey => True
  | LevelDbMutationKey u b => Forall byte u /\ int32 b
  | LevelDbDocumentMutationKey u d b | LevelDbDocumentOverlayKey u d b
  | LevelDbDocumentOverlayLargestBatchIdIndexKey u b d | LevelDbDocumentOverlayCollectionIndexKey u b d =>
      Forall byte u /\ document_ok d /\ int32 b
  | LevelDbMutationQueueKey s | LevelDbBundleKey s | LevelDbNamedQueryKey s | LevelDbDataMigrationKey s => Forall byte s
  | LevelDbTargetKey t => int32 t
  | LevelDbQueryTargetKey c t => Forall byte c /\ int32 t
  | LevelDbTargetDocumentKey t d | LevelDbDocumentTargetKey d t => int32 t /\ document_ok d
  | LevelDbRemoteDocumentKey d => document_ok d
  | LevelDbCollectionParentKey c p => Forall byte c /\ path_ok p
  | LevelDbRemoteDocumentReadTimeKey c t d => path_ok c /\ ValidateBounds t = true /\ Forall byte d
  | LevelDbIndexConfigurationKey i g => int32 i /\ Forall byte g
  | LevelDbIndexStateKey u i => Forall byte u /\ int32 i
  | LevelDbIndexEntryKey i u a d o n => int32 i /\ Forall byte u /\ Forall byte a /\ Forall byte d /\ Forall byte o /\ Forall byte n
  | LevelDbIndexEntryDocumentKeyIndexKey i u d s => int32 i /\ Forall byte u /\ Forall byte d /\ int64 s
  | LevelDbDocumentOverlayCollectionGroupIndexKey u g b d => Forall byte u /\ Forall byte g /\ int32 b /\ document_ok d
  end.

Definition class_of (k : leveldb_key) : option key_class :=
  match k with
  | LevelDbVersionKey => None
  | LevelDbMutationKey _ _ => Some Mutation
  | LevelDbDocumentMutationKey _ _ _ => Some DocumentMutation
  | LevelDbMutationQueueKey _ => Some MutationQueue
  | LevelDbTargetGlobalKey => Some TargetGlobal
  | LevelDbTargetKey _ => Some Target
  | LevelDbQueryTargetKey _ _ => Some QueryTarget
  | LevelDbTargetDocumentKey _ _ => Some TargetDocument
  | LevelDbDocumentTargetKey _ _ => Some DocumentTarget
  | LevelDbRemoteDocumentKey _ => Some RemoteDocument
  | LevelDbCollectionParentKey _ _ => Some CollectionParent
  | LevelDbRemoteDocumentReadTimeKey _ _ _ => Some RemoteDocumentReadTime
  | LevelDbBundleKey _ => Some Bundle
  | LevelDbNamedQueryKey _ => Some NamedQuery
  | LevelDbIndexConfigurationKey _ _ => Some IndexConfiguration
  | LevelDbIndexStateKey _ _ => Some IndexState
  | LevelDbIndexEntryKey _ _ _ _ _ _ => Some IndexEntry
  | LevelDbIndexEntryDocumentKeyIndexKey _ _ _ _ => Some IndexEntryDocumentKeyIndex
  | LevelDbDocumentOverlayKey _ _ _ => Some DocumentOverlay
  | LevelDbDocumentOverlayLargestBatchIdIndexKey _ _ _ => Some LargestBatchIdIndex
  | LevelDbDocumentOverlayCollectionIndexKey _ _ _ => Some CollectionIndex
  | LevelDbDocumentOverlayCollectionGroupIndexKey _ _ _ _ => Some CollectionGroupIndex
  | LevelDbDataMigrationKey _ => Some DataMigration
  end.

Definition key_bytes (k : leveldb_key) : list Z := encs component_code (key_components k).

(** ** Writing *)

#[export] Hint Resolve bytes_of_byte : keys.

Lemma writes_conv m c c' : writes m c -> c = c' -> writes m c'.
Proof. by intros H <-. Qed.

Lemma document_path d : document_ok d -> path_ok d.
Proof. by intros []. Qed.
#[export] Hint Resolve document_path writes_terminator writes_version writes_path : keys.

Lemma writes_field l s : string_label l = true -> Forall byte s -> writes (WriteLabeledString l s) [field l s].
Proof. intros. apply writes_string; [by apply string_label_ok|done]. Qed.
Lemma writes_number l n : int32_label l = true -> int32 n -> writes (WriteLabeledInt32 l n) [number l n].
Proof. intros. apply writes_int32; [by apply int32_label_ok|done]. Qed.

Create HintDb key_calls.
#[export] Hint Unfold
  VersionKey_Key MutationKey_Key DocumentMutationKey_Key MutationQueueKey_Key TargetGlobalKey_Key
  TargetKey_Key QueryTargetKey_Key TargetDocumentKey_Key DocumentTargetKey_Key RemoteDocumentKey_Key
  CollectionParentKey_Key RemoteDocumentReadTimeKey_Key BundleKey_Key NamedQueryKey_Key
  IndexConfigurationKey_Key IndexStateKey_Key IndexEntryKey_Key IndexEntryDocumentKeyIndexKey_Key
  DocumentOverlayKey_Key LargestBatchIdIndexKey_Key CollectionIndexKey_Key CollectionGroupIndexKey_Key
  DataMigrationKey_Key LargestBatchIdIndexKey_of_overlay CollectionIndexKey_of_overlay
  CollectionGroupIndexKey_of_overlay : key_calls.
#[export] Hint Unfold
  MutationKey_Decode DocumentMutationKey_Decode MutationQueueKey_Decode TargetGlobalKey_Decode
  TargetKey_Decode QueryTargetKey_Decode TargetDocumentKey_Decode DocumentTargetKey_Decode
  RemoteDocumentKey_Decode CollectionParentKey_Decode RemoteDocumentReadTimeKey_Decode BundleKey_Decode
  NamedQueryKey_Decode IndexConfigurationKey_Decode IndexStateKey_Decode IndexEntryKey_Decode
  IndexEntryDocumentKeyIndexKey_Decode DocumentOverlayKey_Decode LargestBatchIdIndexKey_Decode
  CollectionIndexKey_Decode CollectionGroupIndexKey_Decode DataMigrationKey_Decode : key_calls.

(** Every call of a [Writer] in its turn. *)
Ltac write_calls :=
  lazymatch goal with
  | |- writes (bind _ _) _ => eapply writes_seq; [write_calls|write_calls]
  | |- _ =>
    first [ by eauto with keys
          | by (apply writes_field; eauto with keys)
          | by (apply writes_number; eauto with keys)
          | by (apply writes_int; eauto with keys) ]
  end.

Lemma path_ok_take p n : path_ok p -> path_ok (take n p).
Proof. apply Forall_take. Qed.

Lemma document_split d : document_ok d ->
  (forall S, PopLast (S := S) d = ret (take (length d - 1) d)) /\ (forall S, last_segment (S := S) d = ret (List.last d [])) /\
  d = take (length d - 1) d ++ [List.last d []] /\ path_ok (take (length d - 1) d) /\ Forall byte (List.last d []).
Proof.
  intros (Hp & Hne & _). destruct d as [|s d] using rev_ind; [done|]. clear IHd. apply Forall_app in Hp as [Hd Hs].
  apply Forall_cons in Hs as [Hs _]. rewrite List.last_last, length_app, Nat.add_sub, take_app_exact by done.
  assert (E : (len (d ++ [s]) =? 0) = false) by (apply Z.eqb_neq; unfold len; rewrite length_app; cbn [length]; lia).
  split_and!; try done; intros S; unfold PopLast, last_segment; rewrite E; cbn [negb].
  - change (check true ;;; ret (take (length (d ++ [s]) - 1) (d ++ [s]))) with (ret (S := S) (take (length (d ++ [s]) - 1) (d ++ [s]))).
    by rewrite length_app, Nat.add_sub, take_app_exact by done.
  - change (check true ;;; lift ((d ++ [s]) !! (length (d ++ [s]) - 1)%nat)) with (lift (S := S) ((d ++ [s]) !! (length (d ++ [s]) - 1)%nat)).
    by rewrite length_app, Nat.add_sub, list_lookup_middle by done.
Qed.

(** What the calls of every [Key] append. *)
Lemma writes_key k : valid k -> writes (Key k) (key_components k).
Proof.
  intros Hv. destruct k; cbn [valid] in Hv; destruct_and?; cbn [Key]; autounfold with key_calls;
    try (eapply writes_conv; [write_calls|reflexivity]).
  destruct (document_split document_key) as (E1 & E2 & _ & Hp & Hs); [done|]. rewrite E1.
  change (bind (ret ?a) ?f) with (f a). cbv beta. rewrite E2. change (bind (ret ?a) ?f) with (f a). cbv beta.
  eapply writes_conv; [write_calls|reflexivity].
Qed.

Lemma key_components_ok k : valid k -> Forall component_ok (key_components k).
Proof. intros Hv. by apply writes_key. Qed.

Lemma key_result k : valid k -> result (Key k) = Some (key_bytes k).
Proof. intros Hv. unfold result. destruct (writes_key k Hv) as [_ ->]. done. Qed.

(** ** Decoding *)

Lemma reads_field l s rest : string_label l = true -> Forall byte s -> Forall byte rest ->
  ReadLabeledString l (at_ (component_code (field l s) ++ rest)) = (Some s, at_ rest).
Proof. intros. apply reads_string; [by apply string_label_ok|done..]. Qed.
Lemma reads_number l n rest : int32_label l = true -> int32 n -> Forall byte rest ->
  ReadLabeledInt32 l (at_ (component_code (number l n) ++ rest)) = (Some n, at_ rest).
Proof. intros. apply reads_int32; [by apply int32_label_ok|done..]. Qed.

Ltac bytes_rest :=
  rewrite ?Forall_app; repeat split; try done;
  first [ apply component_byte; first [ by apply string_label_ok | by apply int32_label_ok | done ]
        | apply components_byte, path_components_ok; by eauto with keys ].

(** Every call of a [Reader] in its turn. *)
Ltac read_calls :=
  repeat (erewrite bind_ok by
    first [ apply reads_table; [by eauto with keys|bytes_rest]
          | apply reads_terminator; done
          | apply reads_field; [done|done|bytes_rest]
          | apply reads_number; [done|done|bytes_rest]
          | apply reads_int; [done|done|bytes_rest]
          | apply reads_version; [done|bytes_rest]
          | apply reads_document; [done|done|done|bytes_rest]
          | apply reads_path; [done|done|done|bytes_rest] ]).

Lemma decode_complete k c rest : valid k -> class_of k = Some c -> Forall byte rest ->
  decode_calls c (at_ (key_bytes k ++ rest)) = (Some k, at_ rest).
Proof.
  intros Hv Hc Hr. unfold key_bytes. destruct k; cbn [class_of] in Hc; simplify_eq; cbn [valid] in Hv; destruct_and?;
    cbn [decode_calls key_components app]; autounfold with key_calls;
    rewrite ?encs_cons, ?encs_app, ?encs_cons; unfold encs at 1; cbn [map concat]; rewrite ?app_nil_r, <- ?app_assoc.
  all: try (read_calls; reflexivity).
  destruct (document_split document_key) as (_ & _ & E & Hp & Hs); [done|].
  read_calls. unfold Append. rewrite <- E. unfold DocumentKey.
  match goal with H : document_ok _ |- _ => destruct H as (_ & _ & Hd) end. by rewrite Hd.
Qed.

Lemma decode_sound c : takes (decode_calls c) (fun k cs => class_of k = Some c /\ valid k /\ cs = key_components k).
Proof.
  destruct c; cbn [decode_calls]; autounfold with key_calls;
    (eapply takes_weaken; [repeat first
      [ apply takes_ret
      | eapply takes_bind;
          [first [ apply takes_table | apply takes_terminator | apply takes_sequence | apply takes_version
                 | apply takes_document | apply takes_path | apply takes_DocumentKey
                 | by apply takes_string | by apply takes_labeled_int32 ]|intros ?]]|]).
  all: cbv beta; intros k cs _ H; repeat match goal with
    | H : exists _, _ |- _ => destruct H
    | H : _ /\ _ |- _ => destruct H
    end; subst; try (split; [done|split; [cbn [valid]; tauto|done]]).
  match goal with H : IsDocumentKey (Append ?p ?s) = true |- _ => revert H; set (d := Append p s); intros Hd;
    assert (Hok : document_ok d) by (split; [apply Forall_app; split; [done|by constructor]|split; [unfold d, Append; by destruct p|done]]);
    assert (E : d = p ++ [s]) by done end.
  split; [done|]. split; [done|]. cbn [key_components].
  rewrite E, List.last_last, length_app, Nat.add_sub, take_app_exact by done. done.
Qed.

(** ** The properties *)

(** C20: [Decode] is exact, for every class of keys: it returns [true] with the fields of a key on
    what [Key] writes for them (and anything after it), and on nothing else; so every key is
    decoded to its fields, and no key of another class is decoded. *)
Theorem leveldb_key_decode_exact c key k : Forall byte key ->
  Decode c key = Some (Some k) <->
  class_of k = Some c /\ valid k /\ exists s rest, result (Key k) = Some s /\ key = s ++ rest.
Proof.
  intros Hkey. unfold Decode. split.
  - destruct (decode_calls c _) as [[k'|] r] eqn:E; [|done]. destruct (ok_ r) eqn:Eo; [|done]. intros [= ->].
    destruct (decode_sound c (at_ key) k r Hkey E) as [_ H]. destruct (H Eo) as (_ & cs & _ & E' & Hc & Hv & ->).
    split; [done|]. split; [done|]. exists (key_bytes k), (src_ r). split; [by apply key_result|done].
  - intros (Hc & Hv & s & rest & Hk & ->). rewrite key_result in Hk by done. injection Hk as <-.
    apply Forall_app in Hkey as [_ Hr]. change {| src_ := _; ok_ := true |} with (at_ (key_bytes k ++ rest)).
    by rewrite (decode_complete k c rest Hv Hc Hr).
Qed.

Lemma leveldb_key_decode_exact_witness :
  Forall byte [0x85; 0x74; 0x61; 0x72; 0x67; 0x65; 0x74; 0x00; 0x01; 0x8c; 0x87; 0x80] /\
  Decode Target [0x85; 0x74; 0x61; 0x72; 0x67; 0x65; 0x74; 0x00; 0x01; 0x8c; 0x87; 0x80] = Some (Some (LevelDbTargetKey 7)).
Proof.
  assert (H : Forall byte [0x85; 0x74; 0x61; 0x72; 0x67; 0x65; 0x74; 0x00; 0x01; 0x8c; 0x87; 0x80]) by bytes_lit.
  split; [exact H|]. apply (leveldb_key_decode_exact Target _ (LevelDbTargetKey 7) H).
  split; [reflexivity|]. split; [split; discriminate|].
  exists [0x85; 0x74; 0x61; 0x72; 0x67; 0x65; 0x74; 0x00; 0x01; 0x8c; 0x87; 0x80], []. split; [vm_compute; reflexivity|reflexivity].
Defined.

(** ** Order *)

(** Complete keys: a terminator, and only at the end. *)
Inductive complete : list component -> Prop :=
  | complete_end : complete [terminator]
  | complete_cons c cs : c.1 <> Terminator -> complete cs -> complete (c :: cs).

Lemma complete_path p cs : complete cs -> complete (path_components p ++ cs).
Proof. intros H. induction p; [done|]. by constructor. Qed.

Lemma key_complete k : complete (key_components k).
Proof. destruct k; cbn [key_components app]; repeat first [apply complete_end|apply complete_path|apply complete_cons; [done|]]. Qed.

Lemma complete_prefix l k : complete l -> complete k -> l `prefix_of` k -> l = k.
Proof.
  intros Hl. revert k. induction Hl as [|c l Hc Hl IH]; intros k Hk Hp; destruct Hk as [|d k Hd Hk].
  - done.
  - by apply prefix_cons_inv_1 in Hp as <-.
  - by apply prefix_cons_inv_1 in Hp as ->.
  - pose proof (prefix_cons_inv_1 _ _ _ _ Hp) as ->. f_equal. apply IH; [done|]. by apply prefix_cons_inv_2 in Hp.
Qed.

Lemma key_bytes_total k1 k2 : valid k1 -> valid k2 ->
  diverge component_lt (key_components k1) (key_components k2) \/ key_components k1 = key_components k2 \/
  diverge component_lt (key_components k2) (key_components k1).
Proof.
  intros H1%key_components_ok H2%key_components_ok.
  destruct (diverge_total component_lt (key_components k1) (key_components k2)) as [|[|[H|H]]]; auto.
  - intros c d Hc Hd. rewrite Forall_forall in H1, H2. apply (code_total (enc := component_code)); [by apply H1|by apply H2].
  - right; left. by apply complete_prefix in H; [|apply key_complete..].
  - right; left. symmetry. by apply complete_prefix in H; [|apply key_complete..].
Qed.

Lemma key_bytes_compare k1 k2 : valid k1 -> valid k2 ->
  Slice_compare (key_bytes k1) (key_bytes k2) = Lt <-> diverge component_lt (key_components k1) (key_components k2).
Proof.
  intros H1 H2. rewrite Slice_compare_lex, lex_compare_lt.
  assert (Hb : forall k k', valid k -> valid k' -> diverge component_lt (key_components k) (key_components k') -> below (key_bytes k) (key_bytes k')).
  { intros k k' Hk Hk'. by apply encs_below; apply key_components_ok. }
  split; [|intros H; left; by apply Hb].
  intros H. destruct (key_bytes_total k1 k2 H1 H2) as [|[E|H']]; [done| |].
  - exfalso. unfold key_bytes in H. rewrite E in H. by apply lex_irrefl in H.
  - exfalso. apply Hb in H'; [|done..]. by apply lex_not_below in H.
Qed.

(** The table that the keys of each class are in; the version key is the one without [Decode]. *)
Definition class_table (c : option key_class) : list Z :=
  match c with
  | None => kVersionGlobalTable
  | Some Mutation => kMutationsTable | Some DocumentMutation => kDocumentMutationsTable
  | Some MutationQueue => kMutationQueuesTable | Some TargetGlobal => kTargetGlobalTable
  | Some Target => kTargetsTable | Some QueryTarget => kQueryTargetsTable
  | Some TargetDocument => kTargetDocumentsTable | Some DocumentTarget => kDocumentTargetsTable
  | Some RemoteDocument => kRemoteDocumentsTable | Some CollectionParent => kCollectionParentsTable
  | Some RemoteDocumentReadTime => kRemoteDocumentReadTimeTable | Some Bundle => kBundlesTable
  | Some NamedQuery => kNamedQueriesTable | Some IndexConfiguration => kIndexConfigurationTable
  | Some IndexState => kIndexStateTable | Some IndexEntry => kIndexEntriesTable
  | Some IndexEntryDocumentKeyIndex => kIndexEntriesDocumentKeyIndexTable
  | Some DocumentOverlay => kDocumentOverlaysTable
  | Some LargestBatchIdIndex => kDocumentOverlaysLargestBatchIdIndexTable
  | Some CollectionIndex => kDocumentOverlaysCollectionIndexTable
  | Some CollectionGroupIndex => kDocumentOverlaysCollectionGroupIndexTable
  | Some DataMigration => kDataMigrationTable
  end.

Lemma class_table_inj c d : class_table c = class_table d -> c = d.
Proof. destruct c as [[]|], d as [[]|]; first [reflexivity|intros H; discriminate H]. Qed.

Lemma key_table k : exists cs, key_components k = table (class_table (class_of k)) :: cs.
Proof. destruct k; by eexists. Qed.

Lemma key_bytes_inj k1 k2 : valid k1 -> valid k2 -> key_bytes k1 = key_bytes k2 -> k1 = k2.
Proof.
  intros H1 H2 E. pose proof E as Ec. apply encs_inj in Ec; [|exact component_nonempty|by apply key_components_ok..].
  destruct (key_table k1) as [cs1 E1], (key_table k2) as [cs2 E2]. rewrite E1, E2 in Ec. injection Ec as Et _.
  apply class_table_inj in Et. destruct (class_of k1) as [c|] eqn:Hc; [|by destruct k1, k2]. symmetry in Et.
  pose proof (decode_complete k1 c [] H1 Hc ltac:(constructor)) as D1.
  pose proof (decode_complete k2 c [] H2 Et ltac:(constructor)) as D2. rewrite <- E, D1 in D2. by injection D2.
Qed.

(** C14: LevelDB's comparison of the bytes of two complete keys is the order of their fields one after
    another, in the order in which the code writes them: of labels, of strings, of numbers and of
    timestamps; and different keys have different bytes.  Where leveldb_key.h describes a row otherwise
    (see [key_components]), the theorem is about what the code does. *)
Theorem leveldb_key_order k1 k2 : valid k1 -> valid k2 ->
  exists s1 s2, result (Key k1) = Some s1 /\ result (Key k2) = Some s2 /\
    (Slice_compare s1 s2 = Lt <-> diverge component_lt (key_components k1) (key_components k2)) /\
    (s1 = s2 <-> k1 = k2).
Proof.
  intros H1 H2. exists (key_bytes k1), (key_bytes k2). split_and!; [by apply key_result..|by apply key_bytes_compare|].
  split; [by apply key_bytes_inj|by intros ->].
Qed.

Lemma leveldb_key_order_witness :
  valid (LevelDbTargetKey 7) /\ valid (LevelDbTargetKey 300) /\
  exists s1 s2, result (Key (LevelDbTargetKey 7)) = Some s1 /\ result (Key (LevelDbTargetKey 300)) = Some s2 /\
    (Slice_compare s1 s2 = Lt <-> diverge component_lt (key_components (LevelDbTargetKey 7)) (key_components (LevelDbTargetKey 300))) /\
    (s1 = s2 <-> LevelDbTargetKey 7 = LevelDbTargetKey 300).
Proof.
  assert (H1 : valid (LevelDbTargetKey 7)) by (split; discriminate).
  assert (H2 : valid (LevelDbTargetKey 300)) by (split; discriminate).
  split; [exact H1|]. split; [exact H2|]. exact (leveldb_key_order _ _ H1 H2).
Defined.

(** ** Paths *)

(** [DocumentKey::CompareTo]: [path().CompareTo(other.path())]. *)
Definition DocumentKey_CompareTo (d e : path) : comparison := CompareContainer string_compare d e.

Lemma path_diverge p q c cs : c.1 = Terminator -> lex lex_lt p q ->
  diverge component_lt (path_components p ++ c :: cs) (path_components q ++ c :: cs).
Proof.
  intros Hc [(r & s & t & p' & q' & -> & -> & H)|(s & m & ->)]; unfold path_components; rewrite !map_app, <- !app_assoc;
    apply diverge_app_l; cbn [map app]; apply diverge_here; [right; split; [done|exact H]|left; cbn [fst]; by rewrite Hc].
Qed.

Lemma string_compare_spec s t : match string_compare s t with Lt => lex_lt s t | Eq => s = t | Gt => lex_lt t s end.
Proof. unfold string_compare. rewrite Slice_compare_lex. apply lex_compare_spec. Qed.

Lemma Slice_compare_antisym s t : Slice_compare s t = Gt <-> Slice_compare t s = Lt.
Proof. by rewrite !Slice_compare_lex, lex_compare_gt, lex_compare_lt. Qed.

(** LevelDB compares the keys of documents as Firestore compares the documents: segment by
    segment, with a collection's documents after the documents they are below. *)
Theorem leveldb_document_order d e : document_ok d -> document_ok e ->
  exists s t, result (RemoteDocumentKey_Key d) = Some s /\ result (RemoteDocumentKey_Key e) = Some t /\
    Slice_compare s t = DocumentKey_CompareTo d e.
Proof.
  intros Hd He. exists (key_bytes (LevelDbRemoteDocumentKey d)), (key_bytes (LevelDbRemoteDocumentKey e)).
  split; [by apply (key_result (LevelDbRemoteDocumentKey d))|]. split; [by apply (key_result (LevelDbRemoteDocumentKey e))|].
  assert (Hlt : forall d e, document_ok d -> document_ok e -> lex lex_lt d e ->
    Slice_compare (key_bytes (LevelDbRemoteDocumentKey d)) (key_bytes (LevelDbRemoteDocumentKey e)) = Lt).
  { clear. intros d e Hd He H. apply key_bytes_compare; [done..|]. cbn [key_components app]. by apply diverge_cons, path_diverge. }
  unfold DocumentKey_CompareTo. pose proof (CompareContainer_spec string_compare lex_lt string_compare_spec d e) as H.
  destruct (CompareContainer string_compare d e).
  - subst. rewrite Slice_compare_lex. by apply lex_compare_eq.
  - by apply Hlt.
  - apply Slice_compare_antisym. by apply Hlt.
Qed.

Lemma leveldb_document_order_witness :
  document_ok [bytes_of "users"; bytes_of "ada"] /\ document_ok [bytes_of "users"; bytes_of "ada"; bytes_of "notes"; bytes_of "1"] /\
  exists s t, result (RemoteDocumentKey_Key [bytes_of "users"; bytes_of "ada"]) = Some s /\
    result (RemoteDocumentKey_Key [bytes_of "users"; bytes_of "ada"; bytes_of "notes"; bytes_of "1"]) = Some t /\
    Slice_compare s t = DocumentKey_CompareTo [bytes_of "users"; bytes_of "ada"] [bytes_of "users"; bytes_of "ada"; bytes_of "notes"; bytes_of "1"].
Proof.
  assert (Hd : document_ok [bytes_of "users"; bytes_of "ada"]) by (split; [repeat (constructor; [apply bytes_of_byte|]); constructor|split; [discriminate|reflexivity]]).
  assert (He : document_ok [bytes_of "users"; bytes_of "ada"; bytes_of "notes"; bytes_of "1"])
    by (split; [repeat (constructor; [apply bytes_of_byte|]); constructor|split; [discriminate|reflexivity]]).
  split; [exact Hd|]. split; [exact He|]. exact (leveldb_document_order _ _ Hd He).
Defined.

(** ** Keys of another class *)

Lemma table_mismatch t u rest : t <> u -> Forall byte u -> Forall byte rest ->
  ReadTableNameMatching t (at_ (component_code (table u) ++ rest)) = (Some tt, {| src_ := rest; ok_ := false |}).
Proof.
  intros Hne Hu Hr. unfold ReadTableNameMatching, ReadLabeledStringMatching. unfold bind at 1.
  erewrite bind_ok by (by apply (reads_field TableName)). erewrite bind_ok by done. cbn [ok_ at_].
  unfold bytes_eqb. rewrite bool_decide_false by congruence. done.
Qed.

(** Given a key of another class [Decode] returns [false], with one exception: for
    [LevelDbDocumentOverlayCollectionIndexKey] it builds a document key from what it could not read,
    and the assertion that the key's path is even aborts the program. *)
Theorem leveldb_decode_other_class c k key : valid k -> class_of k <> Some c -> result (Key k) = Some key ->
  Decode c key = match c with CollectionIndex => None | _ => Some None end.
Proof.
  intros Hv Hc Hk. rewrite key_result in Hk by done. injection Hk as <-. unfold Decode.
  destruct (key_table k) as [cs E]. pose proof (key_components_ok k Hv) as Hok. rewrite E in Hok.
  apply Forall_cons in Hok as [Ht Hok]. apply components_byte in Hok. unfold key_bytes. rewrite E, encs_cons.
  set (u := class_table (class_of k)) in *. assert (Hu : class_table (Some c) <> u) by (intros Hu; by apply class_table_inj in Hu).
  clearbody u. pose proof (table_mismatch (class_table (Some c)) u _ Hu Ht Hok) as Hm.
  change {| src_ := ?s; ok_ := true |} with (at_ s). destruct c; cbn [class_table] in Hm; cbn [decode_calls];
    autounfold with key_calls; rewrite (bind_ok _ _ _ _ _ Hm); reflexivity.
Qed.

Lemma leveldb_decode_other_class_witness :
  valid (LevelDbTargetKey 7) /\ class_of (LevelDbTargetKey 7) <> Some CollectionIndex /\
  result (Key (LevelDbTargetKey 7)) = Some [0x85; 0x74; 0x61; 0x72; 0x67; 0x65; 0x74; 0x00; 0x01; 0x8c; 0x87; 0x80] /\
  Decode CollectionIndex [0x85; 0x74; 0x61; 0x72; 0x67; 0x65; 0x74; 0x00; 0x01; 0x8c; 0x87; 0x80] = None.
Proof.
  assert (Hv : valid (LevelDbTargetKey 7)) by (split; discriminate).
  assert (Hc : class_of (LevelDbTargetKey 7) <> Some CollectionIndex) by discriminate.
  assert (Hk : result (Key (LevelDbTargetKey 7)) = Some [0x85; 0x74; 0x61; 0x72; 0x67; 0x65; 0x74; 0x00; 0x01; 0x8c; 0x87; 0x80])
    by (vm_compute; reflexivity).
  split; [exact Hv|]. split; [exact Hc|]. split; [exact Hk|]. exact (leveldb_decode_other_class _ _ _ Hv Hc Hk).
Defined.

(** ** The rows that a prefix selects *)

(** The bytes of [KeyPrefix] begin exactly the keys that share its fields, so that a scan from the
    prefix to the first key without it visits those rows. *)

(** The class whose table a prefix is of, and the components after the table's name. *)
Definition prefix_class (p : key_prefix) : key_class :=
  match p with
  | MutationKey_prefix | MutationKey_prefix_user _ => Mutation
  | DocumentMutationKey_prefix | DocumentMutationKey_prefix_user _ | DocumentMutationKey_prefix_path _ _ => DocumentMutation
  | MutationQueueKey_prefix => MutationQueue
  | TargetKey_prefix => Target
  | QueryTargetKey_prefix | QueryTargetKey_prefix_canonical _ => QueryTarget
  | TargetDocumentKey_prefix | TargetDocumentKey_prefix_target _ => TargetDocument
  | DocumentTargetKey_prefix | DocumentTargetKey_prefix_path _ => DocumentTarget
  | RemoteDocumentKey_prefix | RemoteDocumentKey_prefix_path _ => RemoteDocument
  | CollectionParentKey_prefix | CollectionParentKey_prefix_collection _ => CollectionParent
  | RemoteDocumentReadTimeKey_prefix _ _ => RemoteDocumentReadTime
  | BundleKey_prefix => Bundle
  | NamedQueryKey_prefix => NamedQuery
  | IndexConfigurationKey_prefix => IndexConfiguration
  | IndexStateKey_prefix | IndexStateKey_prefix_user _ => IndexState
  | IndexEntryKey_prefix | IndexEntryKey_prefix_index _ | IndexEntryKey_prefix_values _ _ _ _ => IndexEntry
  | IndexEntryDocumentKeyIndexKey_prefix _ _ _ => IndexEntryDocumentKeyIndex
  | DocumentOverlayKey_prefix_user _ | DocumentOverlayKey_prefix_document _ _ => DocumentOverlay
  | LargestBatchIdIndexKey_prefix_user _ | LargestBatchIdIndexKey_prefix_batch _ _ => LargestBatchIdIndex
  | CollectionIndexKey_prefix_user _ | CollectionIndexKey_prefix_collection _ _ | CollectionIndexKey_prefix_batch _ _ _ => CollectionIndex
  | CollectionGroupIndexKey_prefix_user _ | CollectionGroupIndexKey_prefix_group _ _ | CollectionGroupIndexKey_prefix_batch _ _ _ => CollectionGroupIndex
  end.

Definition prefix_fields (p : key_prefix) : list component :=
  match p with
  | MutationKey_prefix | DocumentMutationKey_prefix | MutationQueueKey_prefix | TargetKey_prefix | QueryTargetKey_prefix
  | TargetDocumentKey_prefix | DocumentTargetKey_prefix | RemoteDocumentKey_prefix | CollectionParentKey_prefix
  | BundleKey_prefix | NamedQueryKey_prefix | IndexConfigurationKey_prefix | IndexStateKey_prefix | IndexEntryKey_prefix => []
  | MutationKey_prefix_user u | DocumentMutationKey_prefix_user u | IndexStateKey_prefix_user u
  | DocumentOverlayKey_prefix_user u | LargestBatchIdIndexKey_prefix_user u | CollectionIndexKey_prefix_user u
  | CollectionGroupIndexKey_prefix_user u => [field UserId u]
  | DocumentMutationKey_prefix_path u d | DocumentOverlayKey_prefix_document u d | CollectionIndexKey_prefix_collection u d =>
      [field UserId u] ++ path_components d
  | QueryTargetKey_prefix_canonical c => [field CanonicalId c]
  | TargetDocumentKey_prefix_target t => [number TargetId t]
  | DocumentTargetKey_prefix_path d | RemoteDocumentKey_prefix_path d => path_components d
  | CollectionParentKey_prefix_collection c => [field CollectionId c]
  | RemoteDocumentReadTimeKey_prefix c t => path_components c ++ [(SnapshotVersion, PVersion t)]
  | IndexEntryKey_prefix_index i => [number IndexId i]
  | IndexEntryKey_prefix_values i u a d =>
      [number IndexId i; field UserId u; field IndexArrayValue a; field IndexDirectionalValue d]
  | IndexEntryDocumentKeyIndexKey_prefix i u d => [number IndexId i; field UserId u; field DocumentId d]
  | LargestBatchIdIndexKey_prefix_batch u b => [field UserId u; number BatchId b]
  | CollectionIndexKey_prefix_batch u c b => [field UserId u] ++ path_components c ++ [number BatchId b]
  | CollectionGroupIndexKey_prefix_group u g => [field UserId u; field CollectionGroup g]
  | CollectionGroupIndexKey_prefix_batch u g b => [field UserId u; field CollectionGroup g; number BatchId b]
  end.
Definition prefix_components (p : key_prefix) : list component :=
  table (class_table (Some (prefix_class p))) :: prefix_fields p.

(** Which rows a prefix is meant to select: the fields it gives are the key's, and a path it ends in
    begins the key's path. *)
Definition matches (p : key_prefix) (k : leveldb_key) : Prop :=
  match p, k with
  | MutationKey_prefix, LevelDbMutationKey _ _ => True
  | MutationKey_prefix_user u, LevelDbMutationKey u' _ => u = u'
  | DocumentMutationKey_prefix, LevelDbDocumentMutationKey _ _ _ => True
  | DocumentMutationKey_prefix_user u, LevelDbDocumentMutationKey u' _ _ => u = u'
  | DocumentMutationKey_prefix_path u p, LevelDbDocumentMutationKey u' d _ => u = u' /\ p `prefix_of` d
  | MutationQueueKey_prefix, LevelDbMutationQueueKey _ => True
  | TargetKey_prefix, LevelDbTargetKey _ => True
  | QueryTargetKey_prefix, LevelDbQueryTargetKey _ _ => True
  | QueryTargetKey_prefix_canonical c, LevelDbQueryTargetKey c' _ => c = c'
  | TargetDocumentKey_prefix, LevelDbTargetDocumentKey _ _ => True
  | TargetDocumentKey_prefix_target t, LevelDbTargetDocumentKey t' _ => t = t'
  | DocumentTargetKey_prefix, LevelDbDocumentTargetKey _ _ => True
  | DocumentTargetKey_prefix_path p, LevelDbDocumentTargetKey d _ => p `prefix_of` d
  | RemoteDocumentKey_prefix, LevelDbRemoteDocumentKey _ => True
  | RemoteDocumentKey_prefix_path p, LevelDbRemoteDocumentKey d => p `prefix_of` d
  | CollectionParentKey_prefix, LevelDbCollectionParentKey _ _ => True
  | CollectionParentKey_prefix_collection c, LevelDbCollectionParentKey c' _ => c = c'
  | RemoteDocumentReadTimeKey_prefix c t, LevelDbRemoteDocumentReadTimeKey c' t' _ => c = c' /\ t = t'
  | BundleKey_prefix, LevelDbBundleKey _ => True
  | NamedQueryKey_prefix, LevelDbNamedQueryKey _ => True
  | IndexConfigurationKey_prefix, LevelDbIndexConfigurationKey _ _ => True
  | IndexStateKey_prefix, LevelDbIndexStateKey _ _ => True
  | IndexStateKey_prefix_user u, LevelDbIndexStateKey u' _ => u = u'
  | IndexEntryKey_prefix, LevelDbIndexEntryKey _ _ _ _ _ _ => True
  | IndexEntryKey_prefix_index i, LevelDbIndexEntryKey i' _ _ _ _ _ => i = i'
  | IndexEntryKey_prefix_values i u a d, LevelDbIndexEntryKey i' u' a' d' _ _ => i = i' /\ u = u' /\ a = a' /\ d = d'
  | IndexEntryDocumentKeyIndexKey_prefix i u d, LevelDbIndexEntryDocumentKeyIndexKey i' u' d' _ => i = i' /\ u = u' /\ d = d'
  | DocumentOverlayKey_prefix_user u, LevelDbDocumentOverlayKey u' _ _ => u = u'
  | DocumentOverlayKey_prefix_document u p, LevelDbDocumentOverlayKey u' d _ => u = u' /\ p `prefix_of` d
  | LargestBatchIdIndexKey_prefix_user u, LevelDbDocumentOverlayLargestBatchIdIndexKey u' _ _ => u = u'
  | LargestBatchIdIndexKey_prefix_batch u b, LevelDbDocumentOverlayLargestBatchIdIndexKey u' b' _ => u = u' /\ b = b'
  | CollectionIndexKey_prefix_user u, LevelDbDocumentOverlayCollectionIndexKey u' _ _ => u = u'
  | CollectionIndexKey_prefix_collection u c, LevelDbDocumentOverlayCollectionIndexKey u' _ d =>
      u = u' /\ c `prefix_of` take (length d - 1) d
  | CollectionIndexKey_prefix_batch u c b, LevelDbDocumentOverlayCollectionIndexKey u' b' d =>
      u = u' /\ c = take (length d - 1) d /\ b = b'
  | CollectionGroupIndexKey_prefix_user u, LevelDbDocumentOverlayCollectionGroupIndexKey u' _ _ _ => u = u'
  | CollectionGroupIndexKey_prefix_group u g, LevelDbDocumentOverlayCollectionGroupIndexKey u' g' _ _ => u = u' /\ g = g'
  | CollectionGroupIndexKey_prefix_batch u g b, LevelDbDocumentOverlayCollectionGroupIndexKey u' g' b' _ =>
      u = u' /\ g = g' /\ b = b'
  | _, _ => False
  end.

Definition valid_prefix (p : key_prefix) : Prop := Forall component_ok (prefix_components p).

Lemma path_components_ok_inv p : Forall component_ok (path_components p) -> path_ok p.
Proof. induction p as [|s p IH]; intros H; [constructor|]. apply Forall_cons in H as [Hs H]. constructor; [exact Hs|by apply IH]. Qed.
#[export] Hint Resolve path_components_ok_inv : keys.

#[export] Hint Unfold
  MutationKey_KeyPrefix MutationKey_KeyPrefix_user DocumentMutationKey_KeyPrefix
  DocumentMutationKey_KeyPrefix_user DocumentMutationKey_KeyPrefix_path MutationQueueKey_KeyPrefix
  TargetKey_KeyPrefix QueryTargetKey_KeyPrefix QueryTargetKey_KeyPrefix_canonical TargetDocumentKey_KeyPrefix
  TargetDocumentKey_KeyPrefix_target DocumentTargetKey_KeyPrefix DocumentTargetKey_KeyPrefix_path
  RemoteDocumentKey_KeyPrefix RemoteDocumentKey_KeyPrefix_path CollectionParentKey_KeyPrefix
  CollectionParentKey_KeyPrefix_collection RemoteDocumentReadTimeKey_KeyPrefix BundleKey_KeyPrefix
  NamedQueryKey_KeyPrefix IndexConfigurationKey_KeyPrefix IndexStateKey_KeyPrefix IndexStateKey_KeyPrefix_user
  IndexEntryKey_KeyPrefix IndexEntryKey_KeyPrefix_index IndexEntryKey_KeyPrefix_values
  IndexEntryDocumentKeyIndexKey_KeyPrefix DocumentOverlayKey_KeyPrefix_user
  DocumentOverlayKey_KeyPrefix_document LargestBatchIdIndexKey_KeyPrefix_user
  LargestBatchIdIndexKey_KeyPrefix_batch CollectionIndexKey_KeyPrefix_user
  CollectionIndexKey_KeyPrefix_collection CollectionIndexKey_KeyPrefix_batch
  CollectionGroupIndexKey_KeyPrefix_user CollectionGroupIndexKey_KeyPrefix_group
  CollectionGroupIndexKey_KeyPrefix_batch : key_calls.

Lemma writes_prefix p : valid_prefix p -> writes (KeyPrefix p) (prefix_components p).
Proof.
  unfold valid_prefix, prefix_components. intros H.
  destruct p; cbn [prefix_class prefix_fields class_table app] in H; cbn [KeyPrefix]; autounfold with key_calls;
    rewrite ?Forall_cons, ?Forall_app, ?Forall_cons in H; destruct_and?; (eapply writes_conv; [write_calls|reflexivity]).
Qed.

(** ** Prefixes of components *)

Lemma prefix_cons_iff {A} (x y : A) l k : x :: l `prefix_of` y :: k <-> x = y /\ l `prefix_of` k.
Proof.
  split; [|intros [-> H]; by apply prefix_cons].
  intros H. split; [by apply prefix_cons_inv_1 in H|by apply prefix_cons_inv_2 in H].
Qed.

Lemma prefix_nil_iff {A} (k : list A) : [] `prefix_of` k <-> True.
Proof. split; [done|intros _; apply prefix_nil]. Qed.

Lemma path_prefix p q c cs : c.1 <> PathSegment ->
  path_components p `prefix_of` path_components q ++ c :: cs <-> p `prefix_of` q.
Proof.
  intros Hc. revert q. induction p as [|s p IH]; intros q; [by split; intros _; apply prefix_nil|].
  destruct q as [|t q]; cbn [path_components map app].
  - rewrite prefix_cons_iff. split; [intros [E _]; by subst c|intros [? [=]]].
  - rewrite !prefix_cons_iff, IH. split; intros [E H]; (split; [congruence|done]).
Qed.

Lemma path_prefix_cons p q r rs c cs : r.1 <> PathSegment -> c.1 <> PathSegment ->
  path_components p ++ r :: rs `prefix_of` path_components q ++ c :: cs <-> p = q /\ r :: rs `prefix_of` c :: cs.
Proof.
  intros Hr Hc. revert q. induction p as [|s p IH]; intros [|t q]; cbn [path_components map app].
  - split; [done|by intros [_ H]].
  - split; [intros E%prefix_cons_inv_1; by subst r|by intros [? _]].
  - split; [intros E%prefix_cons_inv_1; by subst c|by intros [? _]].
  - split.
    + intros [E H]%prefix_cons_iff. apply IH in H as [-> H]. split; [congruence|done].
    + intros [[= -> ->] H]. apply prefix_cons, IH. done.
Qed.

Lemma field_eq l s t : field l s = field l t <-> s = t.
Proof. unfold field. split; congruence. Qed.
Lemma number_eq l n m : number l n = number l m <-> n = m.
Proof. unfold number. split; congruence. Qed.
Lemma version_eq v w : (SnapshotVersion, PVersion v) = (SnapshotVersion, PVersion w) <-> v = w.
Proof. split; congruence. Qed.

#[export] Instance key_class_eq_dec : EqDecision key_class.
Proof. solve_decision. Defined.

Lemma matches_class p k : matches p k -> class_of k = Some (prefix_class p).
Proof. destruct p, k; first [reflexivity|intros []]. Qed.

Lemma components_prefix p k : prefix_components p `prefix_of` key_components k <-> matches p k.
Proof.
  assert (Hc : prefix_components p `prefix_of` key_components k -> class_of k = Some (prefix_class p)).
  { destruct (key_table k) as [cs ->]. unfold prefix_components. rewrite prefix_cons_iff. intros [E _].
    symmetry. apply class_table_inj. by injection E. }
  destruct (decide (class_of k = Some (prefix_class p))) as [E|Hne].
  - clear Hc. unfold prefix_components. destruct p; cbn [prefix_class] in E; destruct k; try discriminate E;
      cbn [prefix_class prefix_fields class_table key_components app matches];
      rewrite ?prefix_cons_iff, ?path_prefix, ?path_prefix_cons, ?prefix_cons_iff, ?prefix_nil_iff, ?field_eq, ?number_eq, ?version_eq by done;
      tauto.
  - split; [intros H; by apply Hc in H|intros H; by apply matches_class in H].
Qed.

(** C40: what [KeyPrefix] writes begins the bytes of exactly the keys of its class with its fields,
    so that a scan of the rows that begin with it sees those and no others, in every overload. *)
Theorem leveldb_prefix_scan p k : valid_prefix p -> valid k ->
  exists s t, result (KeyPrefix p) = Some s /\ result (Key k) = Some t /\ (s `prefix_of` t <-> matches p k).
Proof.
  intros Hp Hk. exists (encs component_code (prefix_components p)), (key_bytes k).
  split; [|split; [by apply key_result|]].
  - unfold result. by destruct (writes_prefix p Hp) as [_ ->].
  - rewrite <- components_prefix. apply encs_prefix; [exact component_nonempty|done|by apply key_components_ok].
Qed.

Lemma leveldb_prefix_scan_witness :
  valid_prefix (MutationKey_prefix_user (bytes_of "ada")) /\ valid (LevelDbMutationKey (bytes_of "ada") 3) /\
  exists s t, result (KeyPrefix (MutationKey_prefix_user (bytes_of "ada"))) = Some s /\
    result (Key (LevelDbMutationKey (bytes_of "ada") 3)) = Some t /\
    (s `prefix_of` t <-> matches (MutationKey_prefix_user (bytes_of "ada")) (LevelDbMutationKey (bytes_of "ada") 3)).
Proof.
  assert (Hp : valid_prefix (MutationKey_prefix_user (bytes_of "ada"))) by (repeat (apply Forall_cons; split; [apply bytes_of_byte|]); apply Forall_nil; exact I).
  assert (Hk : valid (LevelDbMutationKey (bytes_of "ada") 3)) by (split; [apply bytes_of_byte|split; discriminate]).
  split; [exact Hp|]. split; [exact Hk|]. exact (leveldb_prefix_scan _ _ Hp Hk).
Defined.
