(* ===== verification/Coding.v ===== *)
(** LevelDB's endian-neutral encoding (leveldb-library/util/coding.cc and .h): fixed-width numbers,
    varints and length-prefixed strings.

    [port::kLittleEndian] is true on the target.  A [Slice] is the list of its bytes; a pointer into
    one with its limit is the list of what lies between, so that a function that returns a pointer
    returns what lies behind it, and [None] for [nullptr] or [false]. *)
From S2P Require Import Prelude PbIstream.

Definition EncodeFixed32 (value : Z) : list Z := le_bytes 4 value.
Definition EncodeFixed64 (value : Z) : list Z := le_bytes 8 value.
Definition PutFixed32 (dst : list Z) (value : Z) : list Z := dst ++ EncodeFixed32 value.
Definition PutFixed64 (dst : list Z) (value : Z) : list Z := dst ++ EncodeFixed64 value.
Definition DecodeFixed32 (ptr : list Z) : Z := le_value (take 4 ptr).
Definition DecodeFixed64 (ptr : list Z) : Z := le_value (take 8 ptr).

(** What is stored from [dst] on. *)
Definition EncodeVarint32 (v : Z) : list Z :=
  let B := 128 in
  if v <? 1 << 7 then [u8 v]
  else if v <? 1 << 14 then [u8 (v |. B); u8 (v >> 7)]
  else if v <? 1 << 21 then [u8 (v |. B); u8 ((v >> 7) |. B); u8 (v >> 14)]
  else if v <? 1 << 28 then [u8 (v |. B); u8 ((v >> 7) |. B); u8 ((v >> 14) |. B); u8 (v >> 21)]
  else [u8 (v |. B); u8 ((v >> 7) |. B); u8 ((v >> 14) |. B); u8 ((v >> 21) |. B); u8 (v >> 28)].
Definition PutVarint32 (dst : list Z) (v : Z) : list Z := dst ++ EncodeVarint32 v.

(** [while (v >= B)]: 64 bits are at most ten groups. *)
Fixpoint encode_varint64_loop (fuel : nat) (v : Z) : list Z :=
  match fuel with
  | O => []
  | S fuel => if 128 <=? v then u8 (v |. 128) :: encode_varint64_loop fuel (v >> 7) else [u8 v]
  end.
Definition EncodeVarint64 (v : Z) : list Z := encode_varint64_loop 10 v.
Definition PutVarint64 (dst : list Z) (v : Z) : list Z := dst ++ EncodeVarint64 v.

Definition PutLengthPrefixedSlice (dst value : list Z) : list Z := PutVarint32 dst (u32 (len value)) ++ value.

Fixpoint varint_length_loop (fuel : nat) (v n : Z) : Z :=
  match fuel with
  | O => n
  | S fuel => if 128 <=? v then varint_length_loop fuel (v >> 7) (n + 1) else n
  end.
Definition VarintLength (v : Z) : Z := varint_length_loop 10 v 1.

(** [for (shift = 0; shift <= last && p < limit; shift += 7)] on a result of [w] bits. *)
Fixpoint get_varint_loop (fuel : nat) (w last shift result : Z) (p : list Z) : option (Z * list Z) :=
  match fuel with
  | O => None
  | S fuel =>
      if negb (shift <=? last) then None
      else
        match p with
        | [] => None
        | byte :: p =>
            if negb (byte &. 128 =? 0)
            then get_varint_loop fuel w last (shift + 7) (result |. (((byte &. 127) << shift) mod 2 ^ w)) p
            else Some (result |. ((byte << shift) mod 2 ^ w), p)
        end
  end.

Definition GetVarint32PtrFallback (p : list Z) : option (Z * list Z) := get_varint_loop 6 32 28 0 0 p.
Definition GetVarint32Ptr (p : list Z) : option (Z * list Z) :=
  match p with
  | result :: p' => if result &. 128 =? 0 then Some (result, p') else GetVarint32PtrFallback p
  | [] => GetVarint32PtrFallback p
  end.
Definition GetVarint64Ptr (p : list Z) : option (Z * list Z) := get_varint_loop 11 64 63 0 0 p.

(** The functions on a [Slice*] input; an input is left as it was when they return [false]. *)
Definition GetVarint32 : M (list Z) Z := fun input =>
  match GetVarint32Ptr input with Some (value, q) => (Some value, q) | None => (None, input) end.
Definition GetVarint64 : M (list Z) Z := fun input =>
  match GetVarint64Ptr input with Some (value, q) => (Some value, q) | None => (None, input) end.

(** The string and what lies behind it. *)
Definition GetLengthPrefixedSlicePtr (p : list Z) : option (list Z * list Z) :=
  match GetVarint32Ptr p with
  | None => None
  | Some (n, p) => if len p <? n then None else Some (take (Z.to_nat n) p, drop (Z.to_nat n) p)
  end.

(** The length is taken off the input even when the rest is too short. *)
Definition GetLengthPrefixedSlice : M (list Z) (list Z) :=
  let* n := GetVarint32 in
  let* input := get_state in
  if n <=? len input then put_state (drop (Z.to_nat n) input) ;;; ret (take (Z.to_nat n) input) else fail.

(** The coding of LevelDB: the readers on every input, and that they undo the writers. *)

(** ** Writing varints *)

Lemma group_more v : 0 <= v -> more (u8 (v |. 128)) /\ u8 (v |. 128) mod 128 = v mod 128.
Proof.
  intros Hv. assert (E : u8 (v |. 128) = v mod 128 + 128).
  { unfold u8. transitivity ((v mod 2 ^ 7) |. 128).
    - apply Z.bits_inj'. intros i Hi. destruct (Z.ltb_spec i 8).
      + rewrite Z.mod_pow2_bits_low, !Z.lor_spec by lia. destruct (Z.ltb_spec i 7).
        * by rewrite Z.mod_pow2_bits_low by lia.
        * assert (i = 7) as -> by lia. by rewrite !orb_true_r.
      + rewrite Z.mod_pow2_bits_high, Z.lor_spec, Z.mod_pow2_bits_high by lia. cbn [orb].
        symmetry. apply Z.bits_above_log2; cbn; lia.
    - pose proof (lor_mul_add 1 (v mod 2 ^ 7) 7 ltac:(lia) ltac:(by apply Z.mod_pos_bound)) as Hl.
      rewrite Z.lor_comm. rewrite Z.mul_1_l in Hl. change (2 ^ 7) with 128 in *. lia. }
  rewrite E. unfold more. pose proof (Z.mod_pos_bound v 128). split; [lia|].
  replace (v mod 128 + 128) with (v mod 128 + 1 * 128) by lia. rewrite Z_mod_plus_full. by rewrite Zmod_mod.
Qed.

(** The canonical code of a number: what [EncodeVarint64] writes when it has enough rounds. *)
Lemma encode_varint64_spec fuel v : 0 <= v < 2 ^ (7 * Z.of_nat fuel) -> (0 < fuel)%nat ->
  varint_bytes (encode_varint64_loop fuel v) /\ varint_value (encode_varint64_loop fuel v) = v /\
  (length (encode_varint64_loop fuel v) <= fuel)%nat.
Proof.
  revert v. induction fuel as [|fuel IH]; intros v Hv Hf; [lia|]. cbn [encode_varint64_loop]. destruct (Z.leb_spec 128 v) as [Hge|Hlt].
  - destruct (group_more v ltac:(lia)) as [Hm Hmod]. rewrite shiftr_div by lia. change (2 ^ 7) with 128.
    assert (Hf' : (0 < fuel)%nat) by (destruct fuel; [cbn in Hv; lia|lia]).
    assert (Hq : 0 <= v / 128 < 2 ^ (7 * Z.of_nat fuel)).
    { split; [apply Z.div_pos; lia|]. apply Z.div_lt_upper_bound; [lia|].
      replace (7 * Z.of_nat (S fuel)) with (7 * Z.of_nat fuel + 7) in Hv by lia. rewrite Z.pow_add_r in Hv by lia. lia. }
    destruct (IH (v / 128) Hq Hf') as ((p & b & E & Hp & Hb) & Hval & Hl). split_and!.
    + exists (u8 (v |. 128) :: p), b. rewrite E. split; [done|]. split; [by constructor|done].
    + cbn [varint_value]. rewrite Hval, Hmod. Z.div_mod_to_equations. lia.
    + cbn [length]. lia.
  - rewrite u8_id by (unfold byte; lia). split_and!.
    + exists [], v. split; [done|]. split; [constructor|]. unfold last_byte. lia.
    + cbn [varint_value]. rewrite Z.mod_small by lia. lia.
    + cbn [length]. lia.
Qed.

Lemma group_left v k : 0 <= k -> (128 <=? v >> k) = negb (v <? 1 << (k + 7)).
Proof.
  intros Hk. rewrite shiftr_div, shiftl_mul, Z.mul_1_l by lia. rewrite Z.pow_add_r by lia.
  assert (0 < 2 ^ k) by (apply Z.pow_pos_nonneg; lia).
  destruct (Z.ltb_spec v (2 ^ k * 2 ^ 7)) as [Hv|Hv]; cbn [negb].
  - apply Z.leb_gt. apply Z.div_lt_upper_bound; lia.
  - apply Z.leb_le. apply Z.div_le_lower_bound; lia.
Qed.

(** The unrolled writer of 32 bits is the loop. *)
Lemma EncodeVarint32_64 v : 0 <= v < 2 ^ 32 -> EncodeVarint32 v = EncodeVarint64 v.
Proof.
  intros Hv. unfold EncodeVarint32, EncodeVarint64.
  pose proof (group_left v 0 ltac:(lia)) as E0. rewrite Z.shiftr_0_r in E0.
  cbn [encode_varint64_loop]. rewrite !Z.shiftr_shiftr by lia. cbn [Z.add Pos.add Pos.succ Pos.add_carry].
  rewrite E0, !group_left by lia. change (0 + 7) with 7. change (7 + 7) with 14. change (14 + 7) with 21.
  change (21 + 7) with 28. change (28 + 7) with 35.
  destruct (v <? 1 << 7); [done|]. destruct (v <? 1 << 14); [done|]. destruct (v <? 1 << 21); [done|].
  destruct (v <? 1 << 28); [done|]. assert ((v <? 1 << 35) = true) as ->; [|done].
  apply Z.ltb_lt. change (1 << 35) with (2 ^ 35). lia.
Qed.

(** [VarintLength] is the length of the code. *)
Lemma varint_length_loop_spec fuel v n : 0 <= v < 2 ^ (7 * Z.of_nat fuel) ->
  varint_length_loop fuel v n = n + Z.max 0 (len (encode_varint64_loop fuel v) - 1).
Proof.
  revert v n. induction fuel as [|fuel IH]; intros v n Hv; [cbn [varint_length_loop encode_varint64_loop]; rewrite (@len_nil Z); lia|]. cbn [varint_length_loop encode_varint64_loop].
  destruct (Z.leb_spec 128 v) as [Hge|Hlt]; [|rewrite len_cons, (@len_nil Z); lia]. rewrite shiftr_div by lia. change (2 ^ 7) with 128.
  assert (0 <= v / 128 < 2 ^ (7 * Z.of_nat fuel)).
  { split; [apply Z.div_pos; lia|]. apply Z.div_lt_upper_bound; [lia|].
    replace (7 * Z.of_nat (S fuel)) with (7 * Z.of_nat fuel + 7) in Hv by lia. rewrite Z.pow_add_r in Hv by lia. lia. }
  rewrite IH by done. rewrite len_cons. destruct fuel as [|fuel]; [cbn in *; lia|].
  assert (0 < len (encode_varint64_loop (S fuel) (v / 128))); [|lia].
  cbn [encode_varint64_loop]. destruct (128 <=? v / 128); rewrite len_cons;
    [pose proof (len_nonneg (encode_varint64_loop fuel ((v / 128) >> 7)))|rewrite (@len_nil Z)]; lia.
Qed.

(** ** Reading varints *)

Section get.
Context (w last : Z) (Hw : 0 <= last < w).

(** One more group goes above what was read. *)
Lemma varint_join k r g : 0 <= k -> 7 * k <= last -> 0 <= r < 2 ^ (7 * k) -> 0 <= g < 128 ->
  r |. ((g << (7 * k)) mod 2 ^ w) = (r + 2 ^ (7 * k) * g) mod 2 ^ w /\ 0 <= (r + 2 ^ (7 * k) * g) mod 2 ^ w < 2 ^ (7 * (k + 1)).
Proof.
  intros Hk Hlast Hr Hg. rewrite shiftl_mul by lia. set (q := 2 ^ (7 * k)) in *.
  assert (Hq : 0 < q) by (apply Z.pow_pos_nonneg; lia).
  assert (Ew : 2 ^ w = q * 2 ^ (w - 7 * k)) by (unfold q; rewrite <- Z.pow_add_r by lia; f_equal; lia).
  set (t := 2 ^ (w - 7 * k)) in *. assert (Ht : 0 < t) by (apply Z.pow_pos_nonneg; lia).
  rewrite Ew, (Z.mul_comm g q).
  rewrite Z.mul_mod_distr_l by lia.
  pose proof (Z.mod_pos_bound g t Ht) as Hm. pose proof (Z.div_mod g t ltac:(lia)) as Hd.
  assert (E : (r + q * g) mod (q * t) = r + q * (g mod t)).
  { symmetry. apply (Z.mod_unique _ _ (g / t)); nia. }
  rewrite E. split.
  - apply (lor_add _ _ (7 * k)); [lia|done|]. exists (g mod t). unfold q. lia.
  - rewrite pow7_succ by done. fold q. assert (g mod t <= g) by (apply Z.mod_le; lia). nia.
Qed.

Lemma get_varint_exact fuel k r p b l : Forall more p -> last_byte b -> 0 <= k -> 7 * (k + len p) <= last ->
  (length p < fuel)%nat -> 0 <= r < 2 ^ (7 * k) ->
  get_varint_loop fuel w last (7 * k) r (p ++ b :: l) =
    Some ((r + 2 ^ (7 * k) * varint_value (p ++ [b])) mod 2 ^ w, l).
Proof.
  intros Hp Hb. revert fuel k r. induction Hp as [|c p Hc Hp IH]; intros [|fuel] k r Hk Hn Hf Hr; try (cbn in Hf; lia);
    cbn [app get_varint_loop].
  - rewrite len_nil in Hn. rewrite (proj2 (Z.leb_le _ _)) by lia. cbn [negb].
    rewrite byte_high_bit by (by apply last_byte_byte). unfold last_byte in Hb.
    rewrite (proj2 (Z.ltb_lt _ _)) by lia. cbn [negb].
    destruct (varint_join k r b) as [-> _]; [lia..|]. cbn [varint_value]. rewrite (Z.mod_small b) by lia. do 4 f_equal. lia.
  - rewrite len_cons in Hn. pose proof (len_nonneg p). rewrite (proj2 (Z.leb_le _ _)) by lia. cbn [negb].
    rewrite byte_high_bit by (by apply more_byte). unfold more in Hc.
    rewrite (proj2 (Z.ltb_ge _ _)) by lia. cbn [negb]. rewrite land_127.
    destruct (varint_join k r (c mod 128)) as [-> Hr']; [lia..|lia|by apply Z.mod_pos_bound|].
    replace (7 * k + 7) with (7 * (k + 1)) by lia. rewrite IH; [|lia|lia|cbn in Hf; lia|done].
    do 2 f_equal. rewrite Z.add_mod_idemp_l by lia. f_equal. cbn [varint_value]. rewrite pow7_succ by done. lia.
Qed.

Lemma get_varint_long fuel k r p l : Forall more p -> 0 <= k -> last < 7 * (k + len p) -> get_varint_loop fuel w last (7 * k) r (p ++ l) = None.
Proof.
  intros Hp. revert fuel k r. induction Hp as [|c p Hc Hp IH]; intros [|fuel] k r Hk Hn; try done; cbn [app get_varint_loop].
  - rewrite len_nil in Hn. by rewrite (proj2 (Z.leb_gt _ _)) by lia.
  - destruct (7 * k <=? last); [|done]. cbn [negb]. rewrite byte_high_bit by (by apply more_byte). unfold more in Hc.
    rewrite (proj2 (Z.ltb_ge _ _)) by lia. cbn [negb]. replace (7 * k + 7) with (7 * (k + 1)) by lia.
    apply IH; [lia|]. rewrite len_cons in Hn. lia.
Qed.

Lemma get_varint_short fuel shift r p : Forall more p -> get_varint_loop fuel w last shift r p = None.
Proof.
  intros Hp. revert fuel shift r. induction Hp as [|c p Hc Hp IH]; intros [|fuel] shift r; try done; cbn [get_varint_loop].
  - by destruct (negb _).
  - destruct (shift <=? last); [|done]. cbn [negb]. rewrite byte_high_bit by (by apply more_byte). unfold more in Hc.
    rewrite (proj2 (Z.ltb_ge _ _)) by lia. cbn [negb]. apply IH.
Qed.
End get.

(** Bytes begin with a varint or consist of continuation bytes. *)
Lemma varint_split l : Forall byte l ->
  (exists p b rest, l = p ++ b :: rest /\ Forall more p /\ last_byte b) \/ Forall more l.
Proof.
  induction 1 as [|c l Hc Hl IH]; [by right; constructor|]. destruct (byte_more_or_last c Hc) as [Hm|Hb].
  - destruct IH as [(p & b & rest & -> & Hp & Hb)|Hl']; [left|right; by constructor].
    exists (c :: p), b, rest. split; [done|]. split; [by constructor|done].
  - left. exists [], c, l. split; [done|]. split; [constructor|done].
Qed.

Lemma varint_unique p b l p' b' l' : p ++ b :: l = p' ++ b' :: l' -> Forall more p -> last_byte b -> Forall more p' -> last_byte b' ->
  p = p' /\ b = b' /\ l = l'.
Proof.
  intros E Hp Hb Hp' Hb'. revert p' E Hp'.
  induction Hp as [|c p Hc Hp IH]; intros [|c' p'] E Hp'; injection E as E1 E2; subst; try done.
  - apply Forall_cons in Hp' as [Hc _]. unfold more, last_byte in *. lia.
  - unfold more, last_byte in *. lia.
  - apply Forall_cons in Hp' as [_ Hp']. destruct (IH p' E2 Hp') as (-> & -> & ->). done.
Qed.

(** The loop on every input. *)
Lemma get_varint_spec fuel w last input v rest : 0 <= last < w -> last < 7 * Z.of_nat fuel -> Forall byte input ->
  get_varint_loop fuel w last 0 0 input = Some (v, rest) <->
  exists code, input = code ++ rest /\ varint_bytes code /\ 7 * (len code - 1) <= last /\ v = varint_value code mod 2 ^ w.
Proof.
  intros Hw Hf Hin. change 0 with (7 * 0) at 1. destruct (varint_split input Hin) as [(p & b & l & -> & Hp & Hb)|Hm].
  - destruct (Z.leb_spec (7 * len p) last) as [Hle|Hgt].
    + rewrite get_varint_exact; [|done|done|done|done|lia|unfold len in Hle; lia|lia].
      change (2 ^ (7 * 0)) with 1. rewrite Z.add_0_l, Z.mul_1_l. split.
      * intros [= <- <-]. exists (p ++ [b]). rewrite <- app_assoc. split; [done|]. split; [by exists p, b|].
        rewrite len_app, len_cons, len_nil. split; [lia|done].
      * intros (code & E & (p' & b' & -> & Hp' & Hb') & _ & ->). rewrite <- app_assoc in E. cbn [app] in E.
        destruct (varint_unique p b l p' b' rest) as (-> & -> & ->); done.
    + rewrite get_varint_long by (done || lia). split; [done|].
      intros (code & E & (p' & b' & -> & Hp' & Hb') & Hl & ->). rewrite <- app_assoc in E. cbn [app] in E.
      destruct (varint_unique p b l p' b' rest) as (-> & -> & ->); [done..|]. rewrite len_app, len_cons, len_nil in Hl. lia.
  - rewrite get_varint_short by done. split; [done|]. intros (code & -> & (p' & b' & -> & _ & Hb') & _).
    apply Forall_app in Hm as [Hm _]. apply Forall_app in Hm as [_ Hm]. apply Forall_cons in Hm as [Hm _].
    unfold more, last_byte in *. lia.
Qed.

Lemma GetVarint32Ptr_fallback p : Forall byte p -> GetVarint32Ptr p = GetVarint32PtrFallback p.
Proof.
  intros Hp. destruct Hp as [|b p Hb Hp]; [done|]. unfold GetVarint32Ptr, GetVarint32PtrFallback. cbn [get_varint_loop].
  destruct (Z.eqb_spec (b &. 128) 0) as [E|E]; [|done]. cbn [Z.leb Z.compare negb].
  rewrite Z.shiftl_0_r, Z.lor_0_l, Z.mod_small; [done|]. unfold byte in Hb. lia.
Qed.

Lemma GetVarint32_spec input v rest : Forall byte input ->
  GetVarint32 input = (Some v, rest) <->
  exists code, input = code ++ rest /\ varint_bytes code /\ len code <= 5 /\ v = varint_value code mod 2 ^ 32.
Proof.
  intros Hin. pose proof (get_varint_spec 6 32 28 input v rest ltac:(lia) ltac:(lia) Hin) as H.
  unfold GetVarint32. rewrite GetVarint32Ptr_fallback by done. unfold GetVarint32PtrFallback.
  transitivity (get_varint_loop 6 32 28 0 0 input = Some (v, rest)).
  - destruct (get_varint_loop 6 32 28 0 0 input) as [[v' q]|]; split; congruence.
  - rewrite H. split; intros (code & ? & ? & ? & ?); exists code; split_and!; done || lia.
Qed.

Lemma GetVarint64_spec input v rest : Forall byte input ->
  GetVarint64 input = (Some v, rest) <->
  exists code, input = code ++ rest /\ varint_bytes code /\ len code <= 10 /\ v = varint_value code mod 2 ^ 64.
Proof.
  intros Hin. pose proof (get_varint_spec 11 64 63 input v rest ltac:(lia) ltac:(lia) Hin) as H.
  unfold GetVarint64, GetVarint64Ptr. transitivity (get_varint_loop 11 64 63 0 0 input = Some (v, rest)).
  - destruct (get_varint_loop 11 64 63 0 0 input) as [[v' q]|]; split; congruence.
  - rewrite H. split; intros (code & ? & ? & ? & ?); exists code; split_and!; done || lia.
Qed.

(** What is written is read back, and has the length promised. *)
Lemma varint_bytes_byte l : varint_bytes l -> Forall byte l.
Proof.
  intros (p & b & -> & Hp & Hb). apply Forall_app. split; [|constructor; [by apply last_byte_byte|constructor]].
  eapply Forall_impl; [exact Hp|apply more_byte].
Qed.

Lemma varint_bytes_pos l : varint_bytes l -> 1 <= len l.
Proof. intros (p & b & -> & _). rewrite len_app, len_cons, len_nil. pose proof (len_nonneg p). lia. Qed.

Lemma EncodeVarint64_spec v : 0 <= v < 2 ^ 64 ->
  varint_bytes (EncodeVarint64 v) /\ varint_value (EncodeVarint64 v) = v /\ len (EncodeVarint64 v) = VarintLength v /\ len (EncodeVarint64 v) <= 10.
Proof.
  intros Hv. destruct (encode_varint64_spec 10 v) as (Hb & Hval & Hl); [cbn [Z.of_nat Z.mul]; lia|lia|].
  unfold VarintLength. rewrite varint_length_loop_spec by (cbn [Z.of_nat Z.mul]; lia).
  fold (EncodeVarint64 v) in *. apply varint_bytes_pos in Hb as Hp. unfold len in *. split_and!; done || lia.
Qed.

Lemma get_put_varint64 v rest : 0 <= v < 2 ^ 64 -> Forall byte rest -> GetVarint64 (EncodeVarint64 v ++ rest) = (Some v, rest).
Proof.
  intros Hv Hr. destruct (EncodeVarint64_spec v Hv) as (Hb & Hval & _ & Hl).
  apply GetVarint64_spec; [apply Forall_app; split; [by apply varint_bytes_byte|done]|].
  exists (EncodeVarint64 v). split_and!; try done. by rewrite Hval, Z.mod_small.
Qed.

Lemma EncodeVarint32_length v : 0 <= v -> len (EncodeVarint32 v) <= 5.
Proof. intros Hv. unfold EncodeVarint32. do 4 (destruct (v <? _); [by simp_len|]). by simp_len. Qed.

Lemma get_put_varint32 v rest : 0 <= v < 2 ^ 32 -> Forall byte rest -> GetVarint32 (EncodeVarint32 v ++ rest) = (Some v, rest).
Proof.
  intros Hv Hr. pose proof (EncodeVarint32_length v ltac:(lia)) as Hl. rewrite EncodeVarint32_64 in * by done.
  destruct (EncodeVarint64_spec v ltac:(lia)) as (Hb & Hval & _).
  apply GetVarint32_spec; [apply Forall_app; split; [by apply varint_bytes_byte|done]|].
  exists (EncodeVarint64 v). split_and!; try done. by rewrite Hval, Z.mod_small.
Qed.

Lemma get_put_slice value rest : len value < 2 ^ 32 -> Forall byte value -> Forall byte rest ->
  GetLengthPrefixedSlice (PutLengthPrefixedSlice [] value ++ rest) = (Some value, rest).
Proof.
  intros Hl Hv Hr. pose proof (len_nonneg value). unfold PutLengthPrefixedSlice, PutVarint32. cbn [app]. rewrite u32_id, <- app_assoc by lia.
  unfold GetLengthPrefixedSlice, bind. rewrite get_put_varint32 by (lia || (by apply Forall_app)).
  unfold get_state, put_state, ret. rewrite len_app. pose proof (len_nonneg rest).
  rewrite (proj2 (Z.leb_le _ _)) by lia. cbv beta iota. rewrite len_to_nat, take_app_length, drop_app_length. done.
Qed.

(** ** Arrays of fixed-width numbers *)

Definition fixed_array (l : list Z) : list Z := concat (map EncodeFixed32 l).

Lemma EncodeFixed32_length v : length (EncodeFixed32 v) = 4%nat.
Proof. apply le_bytes_length. Qed.

Lemma DecodeFixed32_encode v : 0 <= v < 2 ^ 32 -> DecodeFixed32 (EncodeFixed32 v) = v.
Proof.
  intros Hv. unfold DecodeFixed32. rewrite take_ge by (by rewrite EncodeFixed32_length). unfold EncodeFixed32. by rewrite le_value_bytes.
Qed.

Lemma len_fixed_array l : len (fixed_array l) = 4 * len l.
Proof. induction l as [|v l IH]; [done|]. cbn [fixed_array map concat] in *. rewrite len_app, len_cons. unfold fixed_array in IH. rewrite IH. unfold len at 1. rewrite EncodeFixed32_length. lia. Qed.

Lemma fixed_array_byte l : Forall byte (fixed_array l).
Proof. induction l as [|v l IH]; [constructor|]. unfold fixed_array. cbn [map concat]. apply Forall_app. split; [apply le_bytes_byte|exact IH]. Qed.

Lemma EncodeVarint32_byte v : Forall byte (EncodeVarint32 v).
Proof. unfold EncodeVarint32. repeat (destruct (v <? _); [repeat constructor; apply u8_byte|]). repeat constructor; apply u8_byte. Qed.

Lemma put_fixed_array buffer l : foldl PutFixed32 buffer l = buffer ++ fixed_array l.
Proof.
  revert buffer. induction l as [|x l IH]; intros buffer; cbn; [by rewrite app_nil_r|]. rewrite IH. unfold PutFixed32, fixed_array. by rewrite <- app_assoc.
Qed.

Lemma fixed_array_split l i v : l !! i = Some v -> fixed_array l = fixed_array (take i l) ++ EncodeFixed32 v ++ fixed_array (drop (S i) l).
Proof.
  intros H. transitivity (fixed_array (take i l ++ v :: drop (S i) l)); [by rewrite (take_drop_middle _ _ _ H)|].
  unfold fixed_array. by rewrite map_app, concat_app.
Qed.

(** The number at an index of an array that lies between [a] and [c]. *)
Lemma fixed_array_at a l c i v : l !! i = Some v -> bytes_at (a ++ fixed_array l ++ c) (len a + Z.of_nat i * 4) 4 = Some (EncodeFixed32 v).
Proof.
  intros H. rewrite (fixed_array_split l i v H). pose proof (lookup_lt_Some _ _ _ H).
  replace (a ++ (fixed_array (take i l) ++ EncodeFixed32 v ++ fixed_array (drop (S i) l)) ++ c)
    with ((a ++ fixed_array (take i l)) ++ EncodeFixed32 v ++ (fixed_array (drop (S i) l) ++ c)) by (by rewrite <- !app_assoc).
  replace (len a + Z.of_nat i * 4) with (len (a ++ fixed_array (take i l))) by (rewrite len_app, len_fixed_array, len_take; unfold len; lia).
  replace 4 with (len (EncodeFixed32 v)) by (unfold len; by rewrite EncodeFixed32_length). apply bytes_at_middle.
Qed.

(** [GetVarint32] and [GetVarint64] accept exactly the inputs that begin with a varint of at
    most five, ten bytes; they return its value modulo 2^32, 2^64, and the input behind it, and
    leave every other input as it was. *)
Theorem coding_varint_exact input : Forall byte input ->
  (forall v rest, GetVarint32 input = (Some v, rest) <->
     exists code, input = code ++ rest /\ varint_bytes code /\ len code <= 5 /\ v = varint_value code mod 2 ^ 32) /\
  (forall v rest, GetVarint64 input = (Some v, rest) <->
     exists code, input = code ++ rest /\ varint_bytes code /\ len code <= 10 /\ v = varint_value code mod 2 ^ 64) /\
  (fst (GetVarint32 input) = None -> snd (GetVarint32 input) = input) /\
  (fst (GetVarint64 input) = None -> snd (GetVarint64 input) = input).
Proof.
  intros Hin. split_and!.
  - intros v rest. by apply GetVarint32_spec.
  - intros v rest. by apply GetVarint64_spec.
  - unfold GetVarint32. by destruct (GetVarint32Ptr input) as [[]|].
  - unfold GetVarint64. by destruct (GetVarint64Ptr input) as [[]|].
Qed.

Lemma coding_varint_exact_witness :
  Forall byte [0x96; 0x01; 7] /\ (GetVarint32 [0x96; 0x01; 7] = (Some 150, [7]) <->
     exists code, [0x96; 0x01; 7] = code ++ [7] /\ varint_bytes code /\ len code <= 5 /\ 150 = varint_value code mod 2 ^ 32).
Proof.
  assert (H : Forall byte [0x96; 0x01; 7]) by bytes_lit.
  split; [exact H|]. exact (proj1 (coding_varint_exact [0x96; 0x01; 7] H) 150 [7]).
Defined.

(** What [PutVarint32], [PutVarint64], [PutLengthPrefixedSlice] and the fixed-width writers
    append is read back, whatever follows; a varint has the length [VarintLength] promises, at most
    the five, ten bytes of the buffer it is first written to. *)
Theorem coding_round_trip dst v w value rest :
  0 <= v < 2 ^ 32 -> 0 <= w < 2 ^ 64 -> len value < 2 ^ 32 -> Forall byte value -> Forall byte rest ->
  (exists code, PutVarint32 dst v = dst ++ code /\ len code = VarintLength v /\ len code <= 5 /\
     GetVarint32 (code ++ rest) = (Some v, rest)) /\
  (exists code, PutVarint64 dst w = dst ++ code /\ len code = VarintLength w /\ len code <= 10 /\
     GetVarint64 (code ++ rest) = (Some w, rest)) /\
  (exists code, PutLengthPrefixedSlice dst value = dst ++ code /\ len code = VarintLength (len value) + len value /\
     GetLengthPrefixedSlice (code ++ rest) = (Some value, rest)) /\
  DecodeFixed32 (EncodeFixed32 v ++ rest) = v /\ DecodeFixed64 (EncodeFixed64 w ++ rest) = w.
Proof.
  intros Hv Hw Hl Hb Hr. assert (H32 : forall x, 0 <= x < 2 ^ 32 -> len (EncodeVarint32 x) = VarintLength x).
  { intros x Hx. rewrite EncodeVarint32_64 by done. apply EncodeVarint64_spec. lia. }
  pose proof (len_nonneg value). split_and!.
  - exists (EncodeVarint32 v). split_and!; [done|by apply H32|apply EncodeVarint32_length; lia|by apply get_put_varint32].
  - destruct (EncodeVarint64_spec w Hw) as (_ & _ & ? & ?). exists (EncodeVarint64 w). split_and!; [done..|by apply get_put_varint64].
  - exists (PutLengthPrefixedSlice [] value). split_and!; [|unfold PutLengthPrefixedSlice, PutVarint32..|by apply get_put_slice].
    + unfold PutLengthPrefixedSlice, PutVarint32. by rewrite <- app_assoc.
    + cbn [app]. rewrite len_app, u32_id, H32 by lia. done.
  - unfold DecodeFixed32, EncodeFixed32. rewrite take_app_exact by (by rewrite le_bytes_length). by apply le_value_bytes.
  - unfold DecodeFixed64, EncodeFixed64. rewrite take_app_exact by (by rewrite le_bytes_length). by apply le_value_bytes.
Qed.

Lemma coding_round_trip_witness :
  exists code, PutVarint32 [1] 300 = [1] ++ code /\ len code = VarintLength 300 /\ len code <= 5 /\
     GetVarint32 (code ++ [9]) = (Some 300, [9]).
Proof. refine (proj1 (coding_round_trip [1] 300 (2 ^ 40) [5; 6] [9] _ _ _ _ _)); first [lia | reflexivity | bytes_lit]. Defined.
