(* ===== verification/Status.v ===== *)
(** LevelDB's [Status] (leveldb-library/include/leveldb/status.h and util/status.cc) and the
    interfaces of files (include/leveldb/env.h) with what they promise.

    An operation of a file may wait for the system: it is a computation that may not return ([D]).
    [AppendOnly] and [FiniteFile] state what the clients of the interfaces rely on; what they say is
    proved of the files of env_posix.cc in [EnvPosix]. *)
From Stdlib Require Import String.
From S2P Require Import Prelude.

Inductive Code := kOk | kNotFound | kCorruption | kNotSupported | kInvalidArgument | kIOError.

(** [state_]: the null pointer of success, or a code and a message. *)
Definition Status : Type := option (Code * list Z).

(** The private constructor. *)
Definition make_status (code : Code) (msg msg2 : list Z) : Status :=
  Some (code, msg ++ if 0 <? len msg2 then bytes_of ": " ++ msg2 else []).
Definition Status_OK : Status := None.
Definition Status_NotFound (msg msg2 : list Z) : Status := make_status kNotFound msg msg2.
Definition Status_Corruption (msg msg2 : list Z) : Status := make_status kCorruption msg msg2.
Definition Status_NotSupported (msg msg2 : list Z) : Status := make_status kNotSupported msg msg2.
Definition Status_InvalidArgument (msg msg2 : list Z) : Status := make_status kInvalidArgument msg msg2.
Definition Status_IOError (msg msg2 : list Z) : Status := make_status kIOError msg msg2.

Definition ok (s : Status) : bool := match s with None => true | Some _ => false end.
Definition code (s : Status) : Code := match s with None => kOk | Some (c, _) => c end.

Definition Status_ToString (s : Status) : list Z :=
  match s with
  | None => bytes_of "OK"
  | Some (c, message) =>
      match c with
      | kOk => bytes_of "OK"
      | kNotFound => bytes_of "NotFound: "
      | kCorruption => bytes_of "Corruption: "
      | kNotSupported => bytes_of "Not implemented: "
      | kInvalidArgument => bytes_of "Invalid argument: "
      | kIOError => bytes_of "IO error: "
      end ++ message
  end.

(** ** The interfaces *)

Class WritableFile (F : Type) := {
  Append : list Z -> D F Status;
  Close : D F Status;
  Flush : D F Status;
  Sync : D F Status
}.

(** [Read n result]: the status and the new [*result], given the old one. *)
Class SequentialFile (F : Type) := {
  Read : Z -> list Z -> D F (Status * list Z);
  Skip : Z -> D F Status
}.

(** ** What they promise *)

(** Every call returns.  [contents]: what was accepted; [written]: what has left the process, so
    that it is found after a crash.  An operation that fails may lose what was not yet written.
    [room]: how much the buffer takes, which cannot fail; an empty one takes [capacity]. *)
Class AppendOnly (F : Type) {W : WritableFile F} := {
  valid_file : F -> Prop;
  contents : F -> list Z;
  written : F -> list Z;
  room : F -> Z;
  capacity : Z;
  capacity_pos : 6 <= capacity;
  written_contents f : valid_file f -> written f `prefix_of` contents f;
  append_spec d f : valid_file f -> exists s f', Append d f = Some (s, f') /\ valid_file f' /\
    written f `prefix_of` written f' /\ contents f' `prefix_of` contents f ++ d /\
    (ok s = true -> contents f' = contents f ++ d) /\ (len d <= room f -> ok s = true);
  flush_spec f : valid_file f -> exists s f', Flush f = Some (s, f') /\ valid_file f' /\
    written f `prefix_of` written f' /\ contents f' `prefix_of` contents f /\
    (ok s = true -> contents f' = contents f /\ written f' = contents f /\ capacity <= room f')
}.

(** [Sync] writes like [Flush]; that what it has written also survives a loss of power is not
    expressed. *)
Class Durable (F : Type) {W : WritableFile F} {A : AppendOnly F} := {
  sync_spec f : valid_file f -> exists s f', Sync f = Some (s, f') /\ valid_file f' /\
    written f `prefix_of` written f' /\ contents f' `prefix_of` contents f /\
    (ok s = true -> contents f' = contents f /\ written f' = contents f /\ capacity <= room f')
}.

(** Every call returns; [ahead]: what there is still to read.  Nothing is promised about a file
    after an error.  [reliable]: no error will happen. *)
Class FiniteFile (F : Type) {R : SequentialFile F} := {
  ahead : F -> list Z;
  reliable : F -> Prop;
  read_spec n r f : 0 <= n -> exists s d f', Read n r f = Some (s, d, f') /\
    (ok s = true -> d = take (Z.to_nat n) (ahead f) /\ ahead f' = drop (Z.to_nat n) (ahead f)) /\
    (reliable f -> ok s = true /\ reliable f');
  skip_spec n f : 0 <= n -> exists s f', Skip n f = Some (s, f') /\
    (ok s = true -> ahead f' = drop (Z.to_nat n) (ahead f)) /\
    (reliable f -> ok s = true /\ reliable f')
}.
