(* ===== verification/EnvPosix.v ===== *)
(** The sequential files of LevelDB on POSIX (leveldb-library/util/env_posix.cc).

    The system calls are parameters that act on a [World]; each returns its result, and [errno] for
    when the result is negative.  [patience w] bounds the calls a retry loop makes: a model of it
    takes that as fuel.  The build defines [HAVE_FULLFSYNC], and not [HAVE_FDATASYNC]. *)
From Stdlib Require Import String.
From S2P Require Import Prelude Status.

Definition EINTR : Z := 4.
Definition ENOENT : Z := 2.
Definition kWritableFileBufferSize : Z := 65536.

(** [rfind('/')] *)
Fixpoint rfind_slash (s : list Z) : option nat :=
  match s with
  | [] => None
  | c :: s => match rfind_slash s with Some i => Some (S i) | None => if c =? 47 then Some 0%nat else None end
  end.
Definition Dirname (filename : list Z) : list Z :=
  match rfind_slash filename with None => bytes_of "." | Some separator_pos => take separator_pos filename end.
Definition Basename (filename : list Z) : list Z :=
  match rfind_slash filename with None => filename | Some separator_pos => drop (S separator_pos) filename end.
Definition starts_with (s x : list Z) : bool := bool_decide (take (length x) s = x).
Definition IsManifest (filename : list Z) : bool := starts_with (Basename filename) (bytes_of "MANIFEST").

Section posix.
Context {World : Type}.
Context (strerror : Z -> list Z).
(** [write(fd, data, size)], [read(fd, _, n)] with the bytes read, [lseek(fd, n, SEEK_CUR)],
    [close], [open(path, O_RDONLY)], [fcntl(fd, F_FULLFSYNC)] and [fsync]. *)
Context (sys_write : Z -> list Z -> World -> Z * Z * World).
Context (sys_read : Z -> Z -> World -> Z * list Z * Z * World).
Context (sys_lseek : Z -> Z -> World -> Z * Z * World).
Context (sys_close sys_full_fsync sys_fsync : Z -> World -> Z * Z * World).
Context (sys_open_read : list Z -> World -> Z * Z * World).
Context (patience : World -> nat).

Definition PosixError (context : list Z) (error_number : Z) : Status :=
  if error_number =? ENOENT then Status_NotFound context (strerror error_number)
  else Status_IOError context (strerror error_number).

(** ** Reading *)

Record PosixSequentialFile := { seq_fd : Z; seq_filename : list Z; seq_world : World }.

Fixpoint read_loop (fuel : nat) (f : PosixSequentialFile) (n : Z) (result : list Z) : D World (Status * list Z) :=
  match fuel with
  | O => running
  | S fuel => fun w =>
      let '(read_size, data, errno, w) := sys_read (seq_fd f) n w in
      if read_size <? 0 then
        if errno =? EINTR then read_loop fuel f n result w
        else Some (PosixError (seq_filename f) errno, result, w)
      else Some (Status_OK, take (Z.to_nat read_size) data, w)
  end.

Definition set_seq_world (w : World) (f : PosixSequentialFile) : PosixSequentialFile :=
  {| seq_fd := seq_fd f; seq_filename := seq_filename f; seq_world := w |}.

Definition PosixSequentialFile_Read (n : Z) (result : list Z) : D PosixSequentialFile (Status * list Z) := fun f =>
  match read_loop (S (patience (seq_world f))) f n result (seq_world f) with
  | None => None
  | Some (r, w) => Some (r, set_seq_world w f)
  end.

Definition PosixSequentialFile_Skip (n : Z) : D PosixSequentialFile Status := fun f =>
  let '(r, errno, w) := sys_lseek (seq_fd f) n (seq_world f) in
  Some (if r =? -1 then PosixError (seq_filename f) errno else Status_OK, set_seq_world w f).

#[export] Instance posix_sequential : SequentialFile PosixSequentialFile := {
  Read := PosixSequentialFile_Read;
  Skip := PosixSequentialFile_Skip
}.

(** ** Writing *)

(** [buf]: the first [pos_] bytes of [buf_]. *)
Record PosixWritableFile := {
  buf : list Z;
  fd : Z;
  is_manifest : bool;
  filename : list Z;
  dirname : list Z;
  world : World
}.
Definition pos (f : PosixWritableFile) : Z := len (buf f).

Definition NewPosixWritableFile (filename : list Z) (fd : Z) (w : World) : PosixWritableFile :=
  {| buf := []; fd := fd; is_manifest := IsManifest filename; filename := filename; dirname := Dirname filename; world := w |}.
Definition set_buf (b : list Z) (f : PosixWritableFile) : PosixWritableFile :=
  {| buf := b; fd := fd f; is_manifest := is_manifest f; filename := filename f; dirname := dirname f; world := world f |}.
Definition set_fd (n : Z) (f : PosixWritableFile) : PosixWritableFile :=
  {| buf := buf f; fd := n; is_manifest := is_manifest f; filename := filename f; dirname := dirname f; world := world f |}.
Definition set_world (w : World) (f : PosixWritableFile) : PosixWritableFile :=
  {| buf := buf f; fd := fd f; is_manifest := is_manifest f; filename := filename f; dirname := dirname f; world := w |}.

Fixpoint write_loop (fuel : nat) (fd : Z) (filename data : list Z) : D World Status :=
  if negb (0 <? len data) then dret Status_OK
  else
    match fuel with
    | O => running
    | S fuel => fun w =>
        let '(write_result, errno, w) := sys_write fd data w in
        if write_result <? 0 then
          if errno =? EINTR then write_loop fuel fd filename data w
          else Some (PosixError filename errno, w)
        else write_loop fuel fd filename (drop (Z.to_nat write_result) data) w
    end.

Definition WriteUnbuffered (data : list Z) : D PosixWritableFile Status := fun f =>
  match write_loop (patience (world f) + length data) (fd f) (filename f) data (world f) with
  | None => None
  | Some (s, w) => Some (s, set_world w f)
  end.

Definition FlushBuffer : D PosixWritableFile Status :=
  let! f := dget in
  let! status := WriteUnbuffered (buf f) in
  let! _ := dmodify (set_buf []) in
  dret status.

Definition PosixWritableFile_Append (data : list Z) : D PosixWritableFile Status :=
  let! f := dget in
  let copy_size := Z.min (len data) (u64 (kWritableFileBufferSize - pos f)) in
  let! _ := dmodify (set_buf (buf f ++ take (Z.to_nat copy_size) data)) in
  let write_data := drop (Z.to_nat copy_size) data in
  if len write_data =? 0 then dret Status_OK
  else
    let! status := FlushBuffer in
    if negb (ok status) then dret status
    else if len write_data <? kWritableFileBufferSize then
      let! _ := dmodify (set_buf write_data) in
      dret Status_OK
    else WriteUnbuffered write_data.

Definition PosixWritableFile_Close : D PosixWritableFile Status :=
  let! status := FlushBuffer in
  let! f := dget in
  let '(close_result, errno, w) := sys_close (fd f) (world f) in
  let status := if (close_result <? 0) && ok status then PosixError (filename f) errno else status in
  let! _ := dmodify (fun f => set_fd (-1) (set_world w f)) in
  dret status.

Definition PosixWritableFile_Flush : D PosixWritableFile Status := FlushBuffer.

Definition SyncFd (fd : Z) (fd_path : list Z) : World -> Status * World := fun w =>
  let '(r, _, w) := sys_full_fsync fd w in
  if r =? 0 then (Status_OK, w)
  else
    let '(r, errno, w) := sys_fsync fd w in
    let sync_success := r =? 0 in
    if sync_success then (Status_OK, w) else (PosixError fd_path errno, w).

Definition SyncDirIfManifest : D PosixWritableFile Status :=
  let! f := dget in
  if negb (is_manifest f) then dret Status_OK
  else
    let '(dir_fd, errno, w) := sys_open_read (dirname f) (world f) in
    if dir_fd <? 0 then
      let! _ := dmodify (set_world w) in
      dret (PosixError (dirname f) errno)
    else
      let '(status, w) := SyncFd dir_fd (dirname f) w in
      let '(_, _, w) := sys_close dir_fd w in
      let! _ := dmodify (set_world w) in
      dret status.

Definition PosixWritableFile_Sync : D PosixWritableFile Status :=
  let! status := SyncDirIfManifest in
  if negb (ok status) then dret status
  else
    let! status := FlushBuffer in
    if negb (ok status) then dret status
    else
      let! f := dget in
      let '(status, w) := SyncFd (fd f) (filename f) (world f) in
      let! _ := dmodify (set_world w) in
      dret status.

#[export] Instance posix_writable : WritableFile PosixWritableFile := {
  Append := PosixWritableFile_Append;
  Close := PosixWritableFile_Close;
  Flush := PosixWritableFile_Flush;
  Sync := PosixWritableFile_Sync
}.
End posix.

(** The files of [EnvPosix] keep the promises of the interfaces, whatever the system calls do within
    what POSIX documents: short writes, interrupted calls and errors. *)

Lemma prefix_app_cut {A} (l k : list A) n : l ++ take n k `prefix_of` l ++ k.
Proof. apply prefix_app. exists (drop n k). by rewrite take_drop. Qed.

Lemma prefix_app_l {A} (l k m : list A) : l ++ k `prefix_of` m -> l `prefix_of` m.
Proof. intros H. etransitivity; [|exact H]. by apply prefix_app_r. Qed.

Section posix.
Context {World : Type} (strerror : Z -> list Z) (patience : World -> nat).

Lemma PosixError_not_ok path e : ok (PosixError strerror path e) = false.
Proof. unfold PosixError. by destruct (e =? ENOENT). Qed.

Section writing.
Context (sys_write : Z -> list Z -> World -> Z * Z * World).
Context (sys_close sys_full_fsync sys_fsync : Z -> World -> Z * Z * World).
Context (sys_open_read : list Z -> World -> Z * Z * World).
(** The contents of the file a descriptor is open on. *)
Context (file_of : Z -> World -> list Z).

(** [write] appends the bytes it says it has written; calls that get nowhere do not go on for ever. *)
Definition write_documented : Prop := forall fd data w n errno w', data <> [] -> sys_write fd data w = (n, errno, w') ->
  n <= len data /\ file_of fd w' = file_of fd w ++ take (Z.to_nat n) data /\ (patience w' <= patience w)%nat /\
  (n = 0 \/ n < 0 /\ errno = EINTR -> (patience w' < patience w)%nat).
(** The other calls do not change what a file holds. *)
Definition keeps_files {A} (call : A -> World -> Z * Z * World) : Prop := forall a w r errno w' fd,
  call a w = (r, errno, w') -> file_of fd w' = file_of fd w.

Context (Hwrite : write_documented).

Lemma write_loop_spec fd name fuel data w : (patience w + length data <= fuel)%nat ->
  exists s w' k, write_loop strerror sys_write fuel fd name data w = Some (s, w') /\
    file_of fd w' = file_of fd w ++ take k data /\ (ok s = true -> file_of fd w' = file_of fd w ++ data).
Proof.
  revert data w. induction fuel as [|fuel IH]; intros data w Hf; cbn [write_loop].
  - destruct data; [|cbn in Hf; lia]. exists Status_OK, w, 0%nat. cbn. by rewrite app_nil_r.
  - destruct (Z.ltb_spec 0 (len data)) as [Hd|Hd]; cbn [negb].
    2: { assert (data = []) as -> by (apply len_zero_nil; pose proof (len_nonneg data); lia).
         exists Status_OK, w, 0%nat. cbn. by rewrite app_nil_r. }
    destruct (sys_write fd data w) as [[n e] w1] eqn:E.
    assert (data <> []) as Hne by (by intros ->). destruct (Hwrite fd data w n e w1 Hne E) as (Hn & Hfile & Hp & Hp').
    destruct (Z.ltb_spec n 0) as [Hneg|Hpos].
    + replace (Z.to_nat n) with 0%nat in Hfile by lia. rewrite take_0, app_nil_r in Hfile. destruct (Z.eqb_spec e EINTR) as [->|He].
      * destruct (IH data w1) as (s & w' & k & ? & ? & ?); [specialize (Hp' ltac:(right; lia)); lia|].
        exists s, w', k. rewrite <- Hfile. done.
      * exists (PosixError strerror name e), w1, 0%nat. by rewrite take_0, app_nil_r, PosixError_not_ok.
    + destruct (IH (drop (Z.to_nat n) data) w1) as (s & w' & k & Eq & Hk & Hok).
      { rewrite length_drop. unfold len in Hn. destruct (decide (n = 0)) as [->|]; [specialize (Hp' ltac:(by left)); cbn; lia|lia]. }
      exists s, w', (Z.to_nat n + k)%nat. split; [done|]. split.
      * rewrite Hk, Hfile, <- !app_assoc. f_equal. by rewrite <- take_take_drop.
      * intros Hs. rewrite Hok, Hfile, <- app_assoc, take_drop by done. done.
Qed.

(** The state of a file that is used. *)
Definition posix_valid (f : PosixWritableFile (World:=World)) : Prop := pos f <= kWritableFileBufferSize.
Definition posix_written (f : PosixWritableFile (World:=World)) : list Z := file_of (fd f) (world f).
Definition posix_contents (f : PosixWritableFile (World:=World)) : list Z := posix_written f ++ buf f.

Lemma WriteUnbuffered_spec data f : exists s w k,
  WriteUnbuffered strerror sys_write patience data f = Some (s, set_world w f) /\
  file_of (fd f) w = posix_written f ++ take k data /\ (ok s = true -> file_of (fd f) w = posix_written f ++ data).
Proof.
  unfold WriteUnbuffered. destruct (write_loop_spec (fd f) (filename f) (patience (world f) + length data) data (world f)) as (s & w & k & -> & Hk & Hs); [done|].
  by exists s, w, k.
Qed.

(** What an operation does to a file on which [d] is appended. *)
Definition appends (d : list Z) (m : D (PosixWritableFile (World:=World)) Status) (f : PosixWritableFile) : Prop :=
  exists s f', m f = Some (s, f') /\ posix_valid f' /\ fd f' = fd f /\ posix_written f `prefix_of` posix_written f' /\
    posix_contents f' `prefix_of` posix_contents f ++ d /\ (ok s = true -> posix_contents f' = posix_contents f ++ d) /\
    (len d <= kWritableFileBufferSize - pos f -> ok s = true).

Lemma FlushBuffer_spec f : exists s f', FlushBuffer strerror sys_write patience f = Some (s, f') /\ buf f' = [] /\ fd f' = fd f /\
  posix_written f `prefix_of` posix_written f' /\ posix_contents f' `prefix_of` posix_contents f /\
  (ok s = true -> posix_written f' = posix_contents f).
Proof.
  unfold FlushBuffer, dbind, dget, dmodify, dret. destruct (WriteUnbuffered_spec (buf f) f) as (s & w & k & -> & Hk & Hs).
  exists s, (set_buf [] (set_world w f)). unfold posix_contents, posix_written in *. cbn. rewrite app_nil_r, Hk.
  split_and!; [done..|by apply prefix_app_r|apply prefix_app_cut|]. intros Hok. by rewrite <- Hk, Hs.
Qed.

Lemma Append_spec d f : posix_valid f -> appends d (PosixWritableFile_Append strerror sys_write patience d) f.
Proof.
  intros Hv. unfold posix_valid in *. unfold appends, PosixWritableFile_Append, dbind at 1, dget. unfold dbind at 1, dmodify at 1.
  assert (0 <= pos f) by apply len_nonneg. unfold kWritableFileBufferSize in *. rewrite u64_id by lia. pose proof (len_nonneg d).
  set (n := Z.to_nat (Z.min (len d) (65536 - pos f))). set (g := set_buf (buf f ++ take n d) f).
  assert (Hg : posix_contents g = posix_contents f ++ take n d) by (unfold posix_contents, posix_written; cbn; by rewrite app_assoc).
  destruct (Z.eqb_spec (len (drop n d)) 0) as [E|E].
  - apply len_zero_nil in E as E0. assert (take n d = d) as Ed by (rewrite <- (take_drop n d) at 2; by rewrite E0, app_nil_r).
    exists Status_OK, g. split; [done|]. rewrite Hg, Ed. split_and!; try done.
    unfold posix_valid, pos. cbn. rewrite len_app, len_take. unfold pos, kWritableFileBufferSize in *. lia.
  - assert (Hroom : ~ len d <= 65536 - pos f) by (rewrite len_drop in E; unfold n in E; lia).
    unfold dbind at 1. destruct (FlushBuffer_spec g) as (s & f1 & -> & Hb & Hfd & Hw & Hc & Hs). cbv iota beta.
    assert (Hbuf : forall x, pos (set_buf x f1) = len x) by done. assert (Hc1 : posix_contents f1 = posix_written f1) by (unfold posix_contents; by rewrite Hb, app_nil_r).
    destruct (ok s) eqn:Ok; cbn [negb].
    + specialize (Hs eq_refl). destruct (Z.ltb_spec (len (drop n d)) 65536) as [Hl|Hl].
      * unfold dbind, dmodify, dret. exists Status_OK, (set_buf (drop n d) f1).
        assert (Hcd : posix_contents (set_buf (drop n d) f1) = posix_contents f ++ d).
        { unfold posix_contents at 1. change (posix_written (set_buf _ f1)) with (posix_written f1). cbn [buf set_buf].
          by rewrite Hs, Hg, <- app_assoc, take_drop. }
        rewrite Hcd. split_and!; try done. unfold posix_valid. rewrite Hbuf. unfold kWritableFileBufferSize. lia.
      * destruct (WriteUnbuffered_spec (drop n d) f1) as (s2 & w & k & -> & Hk & Hs2). exists s2, (set_world w f1).
        assert (Hcw : posix_contents (set_world w f1) = file_of (fd f1) w) by (unfold posix_contents, posix_written; cbn; by rewrite Hb, app_nil_r).
        rewrite Hcw. split_and!; try done.
        -- unfold posix_valid, pos. cbn. by rewrite Hb.
        -- change (posix_written (set_world w f1)) with (file_of (fd f1) w). rewrite Hk.
           etransitivity; [exact Hw|]. by apply prefix_app_r.
        -- rewrite Hk, Hs, Hg, <- app_assoc. etransitivity; [|apply prefix_app_cut with (n := (n + k)%nat)].
           by rewrite <- take_take_drop.
        -- intros Ok2. by rewrite Hs2, Hs, Hg, <- app_assoc, take_drop by done.
    + exists s, f1. split_and!; try done.
      * unfold posix_valid, pos. by rewrite Hb.
      * etransitivity; [exact Hc|]. rewrite Hg. apply prefix_app_cut.
      * by rewrite Ok.
Qed.

#[export] Instance posix_append_only :
  AppendOnly PosixWritableFile (W := posix_writable strerror sys_write sys_close sys_full_fsync sys_fsync sys_open_read patience).
Proof using Hwrite.
  refine {| valid_file := posix_valid; contents := posix_contents; written := posix_written;
    room := fun f => kWritableFileBufferSize - pos f; capacity := kWritableFileBufferSize |}.
  - discriminate.
  - intros f _. by apply prefix_app_r.
  - intros d f Hv. destruct (Append_spec d f Hv) as (s & f' & ? & ? & _ & ? & ? & ? & ?). by exists s, f'.
  - intros f Hv. destruct (FlushBuffer_spec f) as (s & f' & E & Hb & Hfd & Hw & Hc & Hs). exists s, f'.
    assert (Hc1 : posix_contents f' = posix_written f') by (unfold posix_contents; by rewrite Hb, app_nil_r).
    split; [done|]. split; [unfold posix_valid, pos; by rewrite Hb|]. rewrite Hc1 in *. split_and!; try done. intros Hok.
    unfold pos. rewrite Hb, (@len_nil Z). by rewrite Hs.
Defined.

(** An operation that writes what is in the buffer. *)
Definition flushes (m : D (PosixWritableFile (World:=World)) Status) (f : PosixWritableFile) : Prop :=
  exists s f', m f = Some (s, f') /\ posix_written f `prefix_of` file_of (fd f) (world f') /\
    file_of (fd f) (world f') `prefix_of` posix_contents f /\
    (ok s = true -> file_of (fd f) (world f') = posix_contents f /\ buf f' = []).

Lemma Flush_spec f : flushes (PosixWritableFile_Flush strerror sys_write patience) f.
Proof.
  destruct (FlushBuffer_spec f) as (s & f' & E & Hb & Hfd & Hw & Hc & Hs). exists s, f'. unfold posix_written in Hw, Hs at 1.
  rewrite Hfd in *. split_and!; try done.
  - etransitivity; [|exact Hc]. unfold posix_contents, posix_written. rewrite Hfd. by apply prefix_app_r.
  - intros Hok. by rewrite <- Hs.
Qed.

Section syncing.
Context (Hclose : keeps_files sys_close) (Hfull : keeps_files sys_full_fsync).
Context (Hfsync : keeps_files sys_fsync) (Hopen : keeps_files sys_open_read).

Lemma SyncFd_spec n path w fd : file_of fd (snd (SyncFd strerror sys_full_fsync sys_fsync n path w)) = file_of fd w.
Proof.
  unfold SyncFd. destruct (sys_full_fsync n w) as [[r e] w1] eqn:E1. apply (Hfull _ _ _ _ _ fd) in E1. destruct (r =? 0); [done|].
  destruct (sys_fsync n w1) as [[r2 e2] w2] eqn:E2. apply (Hfsync _ _ _ _ _ fd) in E2. destruct (r2 =? 0); cbn; congruence.
Qed.

Lemma SyncDirIfManifest_spec f : exists s w, file_of (fd f) w = file_of (fd f) (world f) /\
  SyncDirIfManifest strerror sys_close sys_full_fsync sys_fsync sys_open_read f = Some (s, set_world w f).
Proof.
  unfold SyncDirIfManifest, dbind, dget, dmodify, dret. destruct (is_manifest f); cbn [negb].
  2: { exists Status_OK, (world f). by destruct f. }
  destruct (sys_open_read (dirname f) (world f)) as [[n e] w1] eqn:E1. apply (Hopen _ _ _ _ _ (fd f)) in E1. destruct (n <? 0).
  - eexists _, w1. done.
  - pose proof (SyncFd_spec n (dirname f) w1 (fd f)) as E2. destruct (SyncFd _ _ _ n (dirname f) w1) as [s w2]. cbn [snd] in E2.
    destruct (sys_close n w2) as [[r3 e3] w3] eqn:E3. apply (Hclose _ _ _ _ _ (fd f)) in E3. exists s, w3. split; [congruence|done].
Qed.

Lemma Sync_spec f : flushes (PosixWritableFile_Sync strerror sys_write sys_close sys_full_fsync sys_fsync sys_open_read patience) f.
Proof.
  unfold flushes, PosixWritableFile_Sync, dbind. destruct (SyncDirIfManifest_spec f) as (s1 & w1 & Hw1 & ->).
  destruct (ok s1) eqn:Ok1; cbn [negb].
  2: { exists s1, (set_world w1 f). cbn. rewrite Hw1. split; [done|]. split; [done|]. split; [by apply prefix_app_r|by rewrite Ok1]. }
  destruct (FlushBuffer_spec (set_world w1 f)) as (s2 & f2 & -> & Hb & Hfd & Hw & Hc & Hs).
  unfold posix_contents, posix_written in *. cbn [fd buf world set_world] in *. rewrite Hw1 in *. rewrite Hfd, Hb, app_nil_r in *.
  destruct (ok s2) eqn:Ok2; cbn [negb].
  2: { exists s2, f2. rewrite Ok2. done. }
  unfold dget, dmodify, dret. pose proof (SyncFd_spec (fd f2) (filename f2) (world f2) (fd f)) as E.
  destruct (SyncFd _ _ _ (fd f2) (filename f2) (world f2)) as [s3 w3]. cbn [snd] in E. exists s3, (set_world w3 f2). cbn. rewrite E.
  split_and!; try done. intros _. split; [by apply Hs|done].
Qed.

#[export] Instance posix_durable : Durable PosixWritableFile (A := posix_append_only).
Proof using Hwrite Hclose Hfull Hfsync Hopen.
  constructor. intros f Hv. cbn [Sync posix_writable]. unfold PosixWritableFile_Sync, dbind. destruct (SyncDirIfManifest_spec f) as (s1 & w1 & Hw1 & ->).
  assert (Hsame : forall w g, file_of (fd g) w = posix_written g -> posix_written (set_world w g) = posix_written g /\ posix_contents (set_world w g) = posix_contents g).
  { intros w g E. unfold posix_contents, posix_written in *. cbn. by rewrite E. }
  apply Hsame in Hw1 as [Ew1 Ec1]. destruct (ok s1) eqn:Ok1; cbn [negb].
  2: { exists s1, (set_world w1 f). cbn [written contents valid_file posix_append_only]. rewrite Ew1, Ec1, Ok1. by split_and!. }
  destruct (FlushBuffer_spec (set_world w1 f)) as (s2 & f2 & -> & Hb & Hfd & Hw & Hc & Hs). rewrite Ew1, Ec1 in *.
  assert (Hv2 : posix_valid f2) by (unfold posix_valid, pos; by rewrite Hb).
  assert (Hc2 : posix_contents f2 = posix_written f2) by (unfold posix_contents; by rewrite Hb, app_nil_r).
  cbn [written contents valid_file posix_append_only room capacity]. destruct (ok s2) eqn:Ok2; cbn [negb].
  2: { exists s2, f2. rewrite Ok2. by split_and!. }
  unfold dget, dmodify, dret. pose proof (SyncFd_spec (fd f2) (filename f2) (world f2) (fd f2)) as E.
  destruct (SyncFd _ _ _ (fd f2) (filename f2) (world f2)) as [s3 w3]. cbn [snd] in E. apply Hsame in E as [Ew3 Ec3].
  exists s3, (set_world w3 f2). rewrite Ew3, Ec3. split_and!; try done. intros _. rewrite Hc2, Hs by done. split_and!; [done..|].
  unfold pos. cbn [buf set_world]. rewrite Hb, (@len_nil Z). done.
Qed.

Lemma Close_spec f : flushes (PosixWritableFile_Close strerror sys_write sys_close patience) f.
Proof.
  unfold flushes, PosixWritableFile_Close, dbind, dget, dmodify, dret.
  destruct (FlushBuffer_spec f) as (s2 & f2 & -> & Hb & Hfd & Hw & Hc & Hs).
  unfold posix_contents, posix_written in *. rewrite Hfd, Hb, app_nil_r in *.
  destruct (sys_close (fd f) (world f2)) as [[r e] w] eqn:E. apply (Hclose _ _ _ _ _ (fd f)) in E.
  eexists _, (set_fd (-1) (set_world w f2)). split; [reflexivity|]. cbn. rewrite E. split_and!; [done..|].
  destruct (ok s2) eqn:Ok2; [|rewrite andb_false_r; congruence].
  destruct (r <? 0); cbn [andb]; [by rewrite PosixError_not_ok|]. intros _. split; [by apply Hs|done].
Qed.

(** C22: A [PosixWritableFile] implements an append-only file, however the system calls are cut short,
    interrupted or refused: every operation returns, nothing is written but what was appended, in
    order, and what is written stays.  [Append] that succeeds appends its data; [Flush], [Sync] and
    [Close] that succeed have written everything appended so far. *)
Theorem posix_writable_file_refines d f : posix_valid f ->
  appends d (PosixWritableFile_Append strerror sys_write patience d) f /\
  flushes (PosixWritableFile_Flush strerror sys_write patience) f /\
  flushes (PosixWritableFile_Sync strerror sys_write sys_close sys_full_fsync sys_fsync sys_open_read patience) f /\
  flushes (PosixWritableFile_Close strerror sys_write sys_close patience) f.
Proof using Hwrite Hclose Hfull Hfsync Hopen.
  intros Hv. split_and!; [by apply Append_spec|apply Flush_spec|apply Sync_spec|apply Close_spec].
Qed.
End syncing.
End writing.

Section reading.
Context (sys_read : Z -> Z -> World -> Z * list Z * Z * World).
Context (sys_lseek : Z -> Z -> World -> Z * Z * World).
(** What lies ahead of a descriptor, and when no error will happen. *)
Context (ahead_of : Z -> World -> list Z) (no_errors : World -> Prop).

(** [read] on a regular file reads all that was asked for and is there. *)
Definition read_documented : Prop := forall fd n w r data errno w', 0 <= n -> sys_read fd n w = (r, data, errno, w') ->
  (0 <= r -> take (Z.to_nat r) data = take (Z.to_nat n) (ahead_of fd w) /\ ahead_of fd w' = drop (Z.to_nat n) (ahead_of fd w)) /\
  (r < 0 -> ahead_of fd w' = ahead_of fd w) /\
  (r < 0 /\ errno = EINTR -> (patience w' < patience w)%nat) /\
  (no_errors w -> no_errors w' /\ (r < 0 -> errno = EINTR)).
Definition lseek_documented : Prop := forall fd n w r errno w', 0 <= n -> sys_lseek fd n w = (r, errno, w') ->
  (r <> -1 -> ahead_of fd w' = drop (Z.to_nat n) (ahead_of fd w)) /\ (no_errors w -> no_errors w' /\ r <> -1).

Context (Hread : read_documented) (Hseek : lseek_documented).

Lemma retry_read_spec f n result fuel w : 0 <= n -> (patience w < fuel)%nat ->
  exists s d w', read_loop strerror sys_read fuel f n result w = Some (s, d, w') /\
    (ok s = true -> d = take (Z.to_nat n) (ahead_of (seq_fd f) w) /\ ahead_of (seq_fd f) w' = drop (Z.to_nat n) (ahead_of (seq_fd f) w)) /\
    (no_errors w -> ok s = true /\ no_errors w').
Proof.
  intros Hn. revert w. induction fuel as [|fuel IH]; intros w Hf; [lia|]. cbn [read_loop].
  destruct (sys_read (seq_fd f) n w) as [[[r data] e] w1] eqn:E. destruct (Hread _ _ _ _ _ _ _ Hn E) as (Hok & Herr & Hp & Hrel).
  destruct (Z.ltb_spec r 0) as [Hr|Hr].
  - rewrite <- Herr by done. destruct (Z.eqb_spec e EINTR) as [He|He].
    + destruct (IH w1) as (s & d & w' & ? & ? & Hrel'); [specialize (Hp (conj Hr He)); lia|]. exists s, d, w'.
      split_and!; try done. intros Hw. by apply Hrel', Hrel.
    + eexists _, _, _. split; [reflexivity|]. rewrite PosixError_not_ok. split; [done|]. intros Hw. exfalso. by apply He, Hrel.
  - eexists _, _, _. split; [reflexivity|]. split; [intros _; by apply Hok|]. intros Hw. split; [done|by apply Hrel].
Qed.

#[export] Instance posix_finite : FiniteFile PosixSequentialFile (R := posix_sequential strerror sys_read sys_lseek patience).
Proof using Hread Hseek.
  refine {| ahead := fun f => ahead_of (seq_fd f) (seq_world f); reliable := fun f => no_errors (seq_world f) |}.
  - intros n r f Hn. cbn. unfold PosixSequentialFile_Read.
    destruct (retry_read_spec f n r (S (patience (seq_world f))) (seq_world f) Hn ltac:(lia)) as (s & d & w & -> & H1 & H2).
    exists s, d, (set_seq_world w f). by split_and!.
  - intros n f Hn. cbn. unfold PosixSequentialFile_Skip. destruct (sys_lseek (seq_fd f) n (seq_world f)) as [[r e] w] eqn:E.
    destruct (Hseek _ _ _ _ _ _ Hn E) as [Hok Hrel]. eexists _, _. split; [reflexivity|]. cbn.
    destruct (Z.eqb_spec r (-1)) as [->|Hr]; [rewrite PosixError_not_ok|]; split; try done.
    + intros Hw. by apply Hrel in Hw as [_ []].
    + intros _. by apply Hok.
    + intros Hw. by apply Hrel in Hw as [? _].
Defined.
End reading.
End posix.

(** ** A system, for the witnesses: one file, a list of how the next writes go *)

(** [script]: how many bytes the next calls of [write] take, 0 for one that is interrupted, [None] for
    one that fails because the disk is full; when it is used up every call takes all. *)
Record disk := { stored : list Z; position : nat; script : list (option nat) }.
Definition ENOSPC : Z := 28.

Definition disk_write (fd : Z) (data : list Z) (w : disk) : Z * Z * disk :=
  match script w with
  | [] => (len data, 0, {| stored := stored w ++ data; position := position w; script := [] |})
  | None :: rest => (-1, ENOSPC, {| stored := stored w; position := position w; script := rest |})
  | Some O :: rest => (-1, EINTR, {| stored := stored w; position := position w; script := rest |})
  | Some n :: rest => (len (take n data), 0, {| stored := stored w ++ take n data; position := position w; script := rest |})
  end.
Definition disk_read (fd n : Z) (w : disk) : Z * list Z * Z * disk :=
  let data := take (Z.to_nat n) (drop (position w) (stored w)) in
  (len data, data, 0, {| stored := stored w; position := position w + length data; script := script w |}).
Definition disk_lseek (fd n : Z) (w : disk) : Z * Z * disk :=
  (Z.of_nat (position w) + n, 0, {| stored := stored w; position := position w + Z.to_nat n; script := script w |}).
Definition disk_call {A} (a : A) (w : disk) : Z * Z * disk := (0, 0, w).
Definition disk_patience (w : disk) : nat := length (script w).
Definition disk_error (errno : Z) : list Z := bytes_of "error".

Definition disk_stored (fd : Z) (w : disk) : list Z := stored w.
Definition disk_ahead (fd : Z) (w : disk) : list Z := drop (position w) (stored w).

Lemma take_length_take {A} n (l : list A) : take (length (take n l)) l = take n l.
Proof.
  rewrite length_take. destruct (Nat.le_ge_cases n (length l)); [by rewrite Nat.min_l|]. rewrite Nat.min_r by done. by rewrite !take_ge by done.
Qed.

Lemma disk_write_documented : write_documented disk_patience disk_write disk_stored.
Proof.
  intros fd data w n e w' Hne. unfold disk_write, disk_stored, disk_patience. destruct (script w) as [|[[|k]|] rest]; intros [= <- <- <-]; cbn [stored script length].
  - rewrite len_to_nat, take_ge by done. split_and!; try done. intros [H|[H _]]; [|pose proof (len_nonneg data); lia]. by apply len_zero_nil in H.
  - change (Z.to_nat (-1)) with 0%nat. rewrite take_0, app_nil_r. pose proof (len_nonneg data). split_and!; try done; lia.
  - pose proof (len_take (S k) data). pose proof (len_nonneg data). assert (len data <> 0) by (intros H1; by apply len_zero_nil in H1).
    rewrite len_to_nat, take_length_take. split_and!; try done; lia.
  - change (Z.to_nat (-1)) with 0%nat. rewrite take_0, app_nil_r. pose proof (len_nonneg data). split_and!; try done; lia.
Qed.

Lemma disk_read_documented : read_documented disk_patience disk_read disk_ahead (fun _ => True).
Proof.
  intros fd n w r data e w' Hn [= <- <- <- <-]. unfold disk_ahead, disk_patience. cbn [position stored script].
  set (d := take _ _). pose proof (len_nonneg d). split_and!; try lia.
  - intros _. rewrite len_to_nat, take_ge by done. split; [done|]. unfold d. rewrite length_take, drop_drop.
    destruct (Nat.le_ge_cases (Z.to_nat n) (length (drop (position w) (stored w)))) as [H1|H1].
    + by rewrite Nat.min_l.
    + rewrite Nat.min_r by done. rewrite !drop_ge; [done|rewrite ?length_drop in *; lia..].
Qed.

Lemma disk_lseek_documented : lseek_documented disk_lseek disk_ahead (fun _ => True).
Proof.
  intros fd n w r e w' Hn [= <- <- <-]. unfold disk_ahead. cbn [position stored]. split; [intros _; by rewrite drop_drop|].
  intros _. split; [done|lia].
Qed.

Lemma disk_keeps {A} : keeps_files disk_stored (@disk_call A).
Proof. intros a w r e w' fd [= <- <- <-]. done. Qed.

Lemma posix_writable_file_refines_witness :
  let f := NewPosixWritableFile (bytes_of "db/MANIFEST-000001") 3 {| stored := []; position := 0; script := [Some 2; Some 0; Some 1]%nat |} in
  posix_valid f /\ appends disk_stored [1; 2; 3; 4] (PosixWritableFile_Append disk_error disk_write disk_patience [1; 2; 3; 4]) f.
Proof.
  intros f. assert (Hv : posix_valid f) by (unfold posix_valid, pos, kWritableFileBufferSize; cbn; unfold len; cbn; discriminate).
  split; [exact Hv|].
  exact (proj1 (posix_writable_file_refines disk_error disk_patience disk_write disk_call disk_call disk_call disk_call disk_stored
    disk_write_documented disk_keeps disk_keeps disk_keeps disk_keeps [1; 2; 3; 4] f Hv)).
Defined.
