(* ===== verification/LogWriter.v ===== *)
(** LevelDB's log: its format (leveldb-library/db/log_format.h) and its writer (db/log_writer.cc).

    A record is cut into fragments so that none crosses the end of a block of 32768 bytes; each
    fragment gets a header with its checksum, its length and whether it begins or ends the record. *)
From S2P Require Import Prelude Crc32c Coding Status.

Definition kZeroType : Z := 0.
Definition kFullType : Z := 1.
Definition kFirstType : Z := 2.
Definition kMiddleType : Z := 3.
Definition kLastType : Z := 4.
Definition kMaxRecordType : Z := kLastType.
Definition kBlockSize : Z := 32768.
Definition kHeaderSize : Z := 4 + 2 + 1.

Section writer.
Context {F : Type} {W : WritableFile F}.
(** Where in memory the bytes passed to [crc32c::Extend] are. *)
Context (address : list Z -> Z).

Definition InitTypeCrc : list Z := map (fun i => Value (address [i]) [i]) [0; 1; 2; 3; 4].

Record Writer := { dest : F; block_offset : Z; type_crc : list Z }.

Definition NewWriter (dest : F) : Writer := {| dest := dest; block_offset := 0; type_crc := InitTypeCrc |}.
Definition NewWriterAt (dest : F) (dest_length : Z) : Writer :=
  {| dest := dest; block_offset := dest_length mod kBlockSize; type_crc := InitTypeCrc |}.
Definition set_dest (f : F) (w : Writer) : Writer := {| dest := f; block_offset := block_offset w; type_crc := type_crc w |}.
Definition set_block_offset (n : Z) (w : Writer) : Writer := {| dest := dest w; block_offset := n; type_crc := type_crc w |}.

(** A call of a method of [dest_]. *)
Definition on_dest {A} (m : D F A) : D Writer A := fun w =>
  match m (dest w) with Some (a, f) => Some (a, set_dest f w) | None => None end.

Definition record_header (type_crc : list Z) (t : Z) (ptr : list Z) : list Z :=
  let length := len ptr in
  let crc := Extend (address ptr) (nth (Z.to_nat t) type_crc 0) ptr in
  EncodeFixed32 (Mask crc) ++ [u8 (length &. 0xff); u8 (length >> 8); u8 t].

Definition EmitPhysicalRecord (t : Z) (ptr : list Z) : D Writer Status :=
  let! w := dget in
  let! s := on_dest (Append (record_header (type_crc w) t ptr)) in
  let! s := (if ok s then let! s := on_dest (Append ptr) in if ok s then on_dest Flush else dret s else dret s) in
  let! _ := dmodify (fun w => set_block_offset (block_offset w + (kHeaderSize + len ptr)) w) in
  dret s.

(** The status of appending the trailer is not looked at. *)
Definition switch_block : D Writer unit :=
  let! w := dget in
  let leftover := kBlockSize - block_offset w in
  if leftover <? kHeaderSize then
    let! _ := (if 0 <? leftover then on_dest (Append (take (Z.to_nat leftover) [0; 0; 0; 0; 0; 0])) else dret Status_OK) in
    dmodify (set_block_offset 0)
  else dret tt.

(** The [do] loop, one fragment a round.  A fragment is empty only when the record is, or when it is
    the first and the block has room for the header alone: [length ptr + 2] rounds are enough. *)
Fixpoint add_record_loop (fuel : nat) (begin : bool) (ptr : list Z) : D Writer Status :=
  match fuel with
  | O => running
  | S fuel =>
      let! _ := switch_block in
      let! w := dget in
      let left := len ptr in
      let avail := u64 (kBlockSize - block_offset w - kHeaderSize) in
      let fragment_length := if left <? avail then left else avail in
      let final := left =? fragment_length in
      let type := if begin && final then kFullType else if begin then kFirstType
                  else if final then kLastType else kMiddleType in
      let! s := EmitPhysicalRecord type (take (Z.to_nat fragment_length) ptr) in
      let ptr := drop (Z.to_nat fragment_length) ptr in
      if ok s && (0 <? len ptr) then add_record_loop fuel false ptr else dret s
  end.

Definition AddRecord (slice : list Z) : D Writer Status := add_record_loop (length slice + 2) true slice.
End writer.
