(* ===== verification/LogReader.v ===== *)
(** The reader of LevelDB's log (leveldb-library/db/log_reader.cc and .h).

    [reports]: the calls of [reporter_->Corruption] so far, or [None] for a null [reporter_].  A
    [Slice] that points into [backing_store_] is the list of its bytes.  [read_result]: what
    [ReadPhysicalRecord] returns and the [*result] it leaves. *)
From Stdlib Require Import String.
From S2P Require Import Prelude Crc32c Coding Status LogWriter.

Definition kEof : Z := kMaxRecordType + 1.
Definition kBadRecord : Z := kMaxRecordType + 2.

(** [snprintf] of [%u]. *)
Fixpoint decimal_loop (fuel : nat) (n : Z) (digits : list Z) : list Z :=
  match fuel with
  | O => digits
  | S fuel => let digits := (48 + n mod 10) :: digits in if n / 10 =? 0 then digits else decimal_loop fuel (n / 10) digits
  end.
Definition decimal (n : Z) : list Z := decimal_loop 20 n [].

Section reader.
Context {F : Type} {R : SequentialFile F}.
Context (address : list Z -> Z).

Record Reader := {
  file : F;
  reports : option (list (Z * Status));
  checksum : bool;
  buffer : list Z;
  eof : bool;
  last_record_offset : Z;
  end_of_buffer_offset : Z;
  initial_offset : Z;
  resyncing : bool
}.

Definition NewReader (file : F) (reporter checksum : bool) (initial_offset : Z) : Reader :=
  {| file := file; reports := if reporter then Some [] else None; checksum := checksum; buffer := []; eof := false;
     last_record_offset := 0; end_of_buffer_offset := 0; initial_offset := initial_offset; resyncing := 0 <? initial_offset |}.

Definition set_file (f : F) (r : Reader) : Reader :=
  {| file := f; reports := reports r; checksum := checksum r; buffer := buffer r; eof := eof r;
     last_record_offset := last_record_offset r; end_of_buffer_offset := end_of_buffer_offset r;
     initial_offset := initial_offset r; resyncing := resyncing r |}.
Definition set_reports (l : option (list (Z * Status))) (r : Reader) : Reader :=
  {| file := file r; reports := l; checksum := checksum r; buffer := buffer r; eof := eof r;
     last_record_offset := last_record_offset r; end_of_buffer_offset := end_of_buffer_offset r;
     initial_offset := initial_offset r; resyncing := resyncing r |}.
Definition set_buffer (b : list Z) (r : Reader) : Reader :=
  {| file := file r; reports := reports r; checksum := checksum r; buffer := b; eof := eof r;
     last_record_offset := last_record_offset r; end_of_buffer_offset := end_of_buffer_offset r;
     initial_offset := initial_offset r; resyncing := resyncing r |}.
Definition set_eof (b : bool) (r : Reader) : Reader :=
  {| file := file r; reports := reports r; checksum := checksum r; buffer := buffer r; eof := b;
     last_record_offset := last_record_offset r; end_of_buffer_offset := end_of_buffer_offset r;
     initial_offset := initial_offset r; resyncing := resyncing r |}.
Definition set_last_record_offset (n : Z) (r : Reader) : Reader :=
  {| file := file r; reports := reports r; checksum := checksum r; buffer := buffer r; eof := eof r;
     last_record_offset := n; end_of_buffer_offset := end_of_buffer_offset r;
     initial_offset := initial_offset r; resyncing := resyncing r |}.
Definition set_end_of_buffer_offset (n : Z) (r : Reader) : Reader :=
  {| file := file r; reports := reports r; checksum := checksum r; buffer := buffer r; eof := eof r;
     last_record_offset := last_record_offset r; end_of_buffer_offset := n;
     initial_offset := initial_offset r; resyncing := resyncing r |}.
Definition set_resyncing (b : bool) (r : Reader) : Reader :=
  {| file := file r; reports := reports r; checksum := checksum r; buffer := buffer r; eof := eof r;
     last_record_offset := last_record_offset r; end_of_buffer_offset := end_of_buffer_offset r;
     initial_offset := initial_offset r; resyncing := b |}.

Definition LastRecordOffset (r : Reader) : Z := last_record_offset r.

Definition ReportDrop (bytes : Z) (reason : Status) (r : Reader) : Reader :=
  match reports r with
  | Some l =>
      if initial_offset r <=? u64 (end_of_buffer_offset r - len (buffer r) - bytes)
      then set_reports (Some (l ++ [(bytes, reason)])) r else r
  | None => r
  end.
Definition ReportCorruption (bytes : Z) (reason : list Z) (r : Reader) : Reader :=
  ReportDrop bytes (Status_Corruption reason []) r.

Definition SkipToInitialBlock : D Reader bool := fun r =>
  let offset_in_block := initial_offset r mod kBlockSize in
  let block_start_location := initial_offset r - offset_in_block in
  let block_start_location :=
    if kBlockSize - 6 <? offset_in_block then u64 (block_start_location + kBlockSize) else block_start_location in
  let r := set_end_of_buffer_offset block_start_location r in
  if 0 <? block_start_location then
    match Skip block_start_location (file r) with
    | None => None
    | Some (skip_status, f) =>
        let r := set_file f r in
        if negb (ok skip_status) then Some (false, ReportDrop block_start_location skip_status r) else Some (true, r)
    end
  else Some (true, r).

(** What follows once the buffer holds a header. *)
Definition parse_record (fragment : list Z) (r : Reader) : Z * list Z * Reader :=
  let header := buffer r in
  let a := nth 4 header 0 &. 0xff in
  let b := nth 5 header 0 &. 0xff in
  let type := u32 (sint 8 (nth 6 header 0)) in
  let length := a |. (b << 8) in
  if len (buffer r) <? kHeaderSize + length then
    let drop_size := len (buffer r) in
    let r := set_buffer [] r in
    if negb (eof r) then (kBadRecord, fragment, ReportCorruption drop_size (bytes_of "bad record length") r)
    else (kEof, fragment, r)
  else if (type =? kZeroType) && (length =? 0) then (kBadRecord, fragment, set_buffer [] r)
  else
    let expected_crc := Unmask (DecodeFixed32 header) in
    let actual_crc := Value (address header + 6) (take (Z.to_nat (1 + length)) (drop 6 header)) in
    if checksum r && negb (actual_crc =? expected_crc) then
      let drop_size := len (buffer r) in
      let r := set_buffer [] r in
      (kBadRecord, fragment, ReportCorruption drop_size (bytes_of "checksum mismatch") r)
    else
      let r := set_buffer (drop (Z.to_nat (kHeaderSize + length)) (buffer r)) r in
      if u64 (end_of_buffer_offset r - len (buffer r) - kHeaderSize - length) <? initial_offset r
      then (kBadRecord, [], r)
      else (type, take (Z.to_nat length) (drop (Z.to_nat kHeaderSize) header), r).

(** The loop goes round again only after a block was read, and then finds a header or the end of the
    file: two rounds are enough. *)
Fixpoint read_physical_loop (fuel : nat) (fragment : list Z) : D Reader (Z * list Z) :=
  match fuel with
  | O => running
  | S fuel => fun r =>
      if len (buffer r) <? kHeaderSize then
        if negb (eof r) then
          match Read kBlockSize [] (file r) with
          | None => None
          | Some (status, data, f) =>
              let r := set_file f (set_buffer data r) in
              let r := set_end_of_buffer_offset (u64 (end_of_buffer_offset r + len (buffer r))) r in
              if negb (ok status) then
                let r := ReportDrop kBlockSize status (set_buffer [] r) in
                Some (kEof, fragment, set_eof true r)
              else
                let r := if len (buffer r) <? kBlockSize then set_eof true r else r in
                read_physical_loop fuel fragment r
          end
        else Some (kEof, fragment, set_buffer [] r)
      else Some (parse_record fragment r)
  end.
Definition ReadPhysicalRecord (fragment : list Z) : D Reader (Z * list Z) := read_physical_loop 2 fragment.

(** The local variables of [ReadRecord]. *)
Record reading := { scratch : list Z; in_fragmented_record : bool; prospective_record_offset : Z }.

(** What a turn of the loop comes to: [return true] with the record, [return false], or the next turn. *)
Inductive turn := Return (record : option (list Z)) | Next (l : reading).

Definition abandon (l : reading) : reading :=
  {| scratch := []; in_fragmented_record := false; prospective_record_offset := prospective_record_offset l |}.

(** The [switch] on the type. *)
Definition on_physical_record (record_type : Z) (fragment : list Z) (physical_record_offset : Z) (l : reading)
  (r : Reader) : turn * Reader :=
  let partial reason r :=
    if in_fragmented_record l && negb (len (scratch l) =? 0) then ReportCorruption (len (scratch l)) reason r else r in
  if record_type =? kFullType then
    let r := partial (bytes_of "partial record without end(1)") r in
    (Return (Some fragment), set_last_record_offset physical_record_offset r)
  else if record_type =? kFirstType then
    let r := partial (bytes_of "partial record without end(2)") r in
    (Next {| scratch := fragment; in_fragmented_record := true; prospective_record_offset := physical_record_offset |}, r)
  else if record_type =? kMiddleType then
    if negb (in_fragmented_record l) then
      (Next l, ReportCorruption (len fragment) (bytes_of "missing start of fragmented record(1)") r)
    else
      (Next {| scratch := scratch l ++ fragment; in_fragmented_record := true;
               prospective_record_offset := prospective_record_offset l |}, r)
  else if record_type =? kLastType then
    if negb (in_fragmented_record l) then
      (Next l, ReportCorruption (len fragment) (bytes_of "missing start of fragmented record(2)") r)
    else (Return (Some (scratch l ++ fragment)), set_last_record_offset (prospective_record_offset l) r)
  else if record_type =? kEof then (Return None, r)
  else if record_type =? kBadRecord then
    if in_fragmented_record l then
      (Next (abandon l), ReportCorruption (len (scratch l)) (bytes_of "error in middle of record") r)
    else (Next l, r)
  else
    let bytes := u64 (len fragment + (if in_fragmented_record l then len (scratch l) else 0)) in
    (Next (abandon l), ReportCorruption bytes (bytes_of "unknown record type " ++ decimal record_type) r).

(** The local [fragment] keeps its value from one turn to the next. *)
Fixpoint read_record_loop (fuel : nat) (fragment : list Z) (l : reading) : D Reader (option (list Z)) :=
  match fuel with
  | O => running
  | S fuel =>
      let! result := ReadPhysicalRecord fragment in
      let record_type := fst result in
      let fragment := snd result in
      let! r := dget in
      let physical_record_offset := u64 (end_of_buffer_offset r - len (buffer r) - kHeaderSize - len fragment) in
      if resyncing r && (record_type =? kMiddleType) then read_record_loop fuel fragment l
      else if resyncing r && (record_type =? kLastType) then
        let! _ := dmodify (set_resyncing false) in
        read_record_loop fuel fragment l
      else
        let! _ := dmodify (set_resyncing false) in
        fun r =>
          match on_physical_record record_type fragment physical_record_offset l r with
          | (Return record, r) => Some (record, r)
          | (Next l, r) => read_record_loop fuel fragment l r
          end
  end.

(** [None]: [return false].  [fuel] bounds the number of physical records. *)
Definition ReadRecord (fuel : nat) : D Reader (option (list Z)) :=
  let! r := dget in
  let! skipped := (if last_record_offset r <? initial_offset r then SkipToInitialBlock else dret true) in
  if negb skipped then dret None
  else read_record_loop fuel [] {| scratch := []; in_fragmented_record := false; prospective_record_offset := 0 |}.
End reader.
