(* ===== verification/LogReading.v ===== *)
(** What a log looks like: its physical records laid out in blocks, and that the writer makes one. *)
From S2P Require Import Prelude Crc32c Coding Status LogWriter LogReader.

(** A physical record. *)
Definition chunk (t : Z) (p : list Z) : list Z :=
  le_bytes 4 (Mask (crc32c 0 (t :: p))) ++ [len p mod 256; len p / 256; t] ++ p.

(** [layout off fs bytes e]: from the offset [off] of a block on, [bytes] holds the physical records
    [fs], and ends at the offset [e] of a block.  What is too short for a header is filled up. *)
Inductive layout : Z -> list (Z * list Z) -> list Z -> Z -> Prop :=
  | layout_nil off : 0 <= off <= kBlockSize -> layout off [] [] off
  | layout_pad off fs b e : kBlockSize - kHeaderSize < off <= kBlockSize -> fs <> [] -> layout 0 fs b e ->
      layout off fs (replicate (Z.to_nat (kBlockSize - off)) 0 ++ b) e
  | layout_chunk off t p fs b e : 0 <= off -> off + kHeaderSize + len p <= kBlockSize -> kFullType <= t <= kLastType ->
      Forall byte p -> layout (off + kHeaderSize + len p) fs b e -> layout off ((t, p) :: fs) (chunk t p ++ b) e.

(** The fragments of a record: all but the first of one that was begun, then of a whole one. *)
Inductive continued : list Z -> list (Z * list Z) -> Prop :=
  | continued_last p : continued p [(kLastType, p)]
  | continued_middle p q fs : continued q fs -> continued (p ++ q) ((kMiddleType, p) :: fs).
Inductive fragmented : list Z -> list (Z * list Z) -> Prop :=
  | fragmented_full p : fragmented p [(kFullType, p)]
  | fragmented_first p q fs : continued q fs -> fragmented (p ++ q) ((kFirstType, p) :: fs).

(** A log of whole records. *)
Inductive log_layout : Z -> list (list Z) -> list Z -> Z -> Prop :=
  | log_nil off : 0 <= off <= kBlockSize -> log_layout off [] [] off
  | log_record off record fs b m records b' e : fragmented record fs -> layout off fs b m ->
      log_layout m records b' e -> log_layout off (record :: records) (b ++ b') e.

Create HintDb log.
#[export] Hint Constructors layout continued fragmented log_layout : log.

Lemma chunk_length t p : len (chunk t p) = kHeaderSize + len p.
Proof.
  unfold chunk. assert (H : len (le_bytes 4 (Mask (crc32c 0 (t :: p)))) = 4) by (unfold len; by rewrite le_bytes_length).
  rewrite !len_app, H, !len_cons, (@len_nil Z). unfold kHeaderSize. lia.
Qed.

Lemma layout_range off fs b e : layout off fs b e -> 0 <= off <= kBlockSize /\ 0 <= e <= kBlockSize.
Proof.
  induction 1 as [off H|off fs b e H Hne Hl IH|off t p fs b e H0 H Ht Hp Hl IH]; [done| |].
  - unfold kBlockSize, kHeaderSize in *. lia.
  - pose proof (len_nonneg p). unfold kHeaderSize in *. lia.
Qed.

Lemma layout_length off fs b e : layout off fs b e -> kHeaderSize * Z.of_nat (length fs) <= len b.
Proof.
  induction 1 as [off H|off fs b e H Hne Hl IH|off t p fs b e H0 H Ht Hp Hl IH]; [done| |].
  - rewrite len_app, len_replicate. lia.
  - rewrite len_app, chunk_length. cbn [length]. pose proof (len_nonneg p). lia.
Qed.

Lemma log_layout_range off records b e : log_layout off records b e -> 0 <= off <= kBlockSize /\ 0 <= e <= kBlockSize.
Proof. induction 1 as [|off record fs b m records b' e Hf Hl _ IH]; [done|]. apply layout_range in Hl. lia. Qed.

Lemma log_layout_app off r1 b1 m r2 b2 e : log_layout off r1 b1 m -> log_layout m r2 b2 e -> log_layout off (r1 ++ r2) (b1 ++ b2) e.
Proof. induction 1; [done|]. intros H2. cbn [app]. rewrite <- app_assoc. eauto with log. Qed.

(** The start of a block is the end of the one before. *)
Lemma layout_block fs b e : fs <> [] -> layout 0 fs b e -> layout kBlockSize fs b e.
Proof. intros Hfs H. apply (layout_pad kBlockSize) in H; [|done..]. by rewrite Z.sub_diag in H. Qed.

Lemma fragmented_nonempty record fs : fragmented record fs -> fs <> [].
Proof. by destruct 1. Qed.
#[export] Hint Resolve fragmented_nonempty : log.

Lemma log_layout_block records b e : records <> [] -> log_layout 0 records b e -> log_layout kBlockSize records b e.
Proof. intros Hr H. inversion H; subst; [done|]. econstructor; eauto using layout_block with log. Qed.

(** ** Cutting a record at the ends of blocks *)

Definition padding (off : Z) : list Z := if kBlockSize - off <? kHeaderSize then replicate (Z.to_nat (kBlockSize - off)) 0 else [].
Definition after_padding (off : Z) : Z := if kBlockSize - off <? kHeaderSize then 0 else off.

Definition fragment_type (begin final : bool) : Z :=
  if begin && final then kFullType else if begin then kFirstType else if final then kLastType else kMiddleType.

(** The fragments, their layout and the offset behind them. *)
Fixpoint cut (fuel : nat) (begin : bool) (off : Z) (ptr : list Z) : list (Z * list Z) * list Z * Z :=
  match fuel with
  | O => ([], [], off)
  | S fuel =>
      let start := after_padding off in
      let n := Z.min (len ptr) (kBlockSize - start - kHeaderSize) in
      let final := len ptr =? n in
      let t := fragment_type begin final in
      let p := take (Z.to_nat n) ptr in
      let stop := start + kHeaderSize + n in
      if final then ([(t, p)], padding off ++ chunk t p, stop)
      else let '(fs, b, e) := cut fuel false stop (drop (Z.to_nat n) ptr) in
           ((t, p) :: fs, padding off ++ chunk t p ++ b, e)
  end.

(** Enough rounds: only the first may find room for a header alone. *)
Definition enough (fuel : nat) (off : Z) (ptr : list Z) : Prop :=
  (length ptr + 2 <= fuel)%nat \/ (length ptr + 1 <= fuel)%nat /\ after_padding off <> kBlockSize - kHeaderSize.

Lemma after_padding_range off : 0 <= off <= kBlockSize -> 0 <= after_padding off <= kBlockSize - kHeaderSize.
Proof. intros H. unfold after_padding. destruct (Z.ltb_spec (kBlockSize - off) kHeaderSize); unfold kBlockSize, kHeaderSize in *; lia. Qed.

Lemma layout_padding off fs b e : 0 <= off <= kBlockSize -> fs <> [] -> layout (after_padding off) fs b e -> layout off fs (padding off ++ b) e.
Proof.
  intros Hoff Hfs Hl. unfold after_padding, padding in *. destruct (Z.ltb_spec (kBlockSize - off) kHeaderSize); [|done].
  apply layout_pad; [lia|done|done].
Qed.

Lemma enough_next fuel off ptr n : 0 <= off <= kBlockSize -> enough (S fuel) off ptr ->
  n = kBlockSize - after_padding off - kHeaderSize -> n < len ptr -> enough fuel kBlockSize (drop (Z.to_nat n) ptr).
Proof.
  intros Hoff Hf Hn Hl. pose proof (after_padding_range off Hoff). right. split; [|done]. rewrite length_drop.
  destruct Hf as [Hf|[Hf Hne]]; unfold len in Hl; lia.
Qed.

Lemma cut_layout fuel begin off ptr : 0 <= off <= kBlockSize -> Forall byte ptr -> enough fuel off ptr ->
  let '(fs, b, e) := cut fuel begin off ptr in
  layout off fs b e /\ fs <> [] /\ if begin then fragmented ptr fs else continued ptr fs.
Proof.
  revert begin off ptr. induction fuel as [|fuel IH]; intros begin off ptr Hoff Hp Hf; [destruct Hf; lia|]. cbn [cut].
  pose proof (after_padding_range off Hoff) as Hs. set (start := after_padding off) in *. pose proof (len_nonneg ptr).
  set (n := Z.min (len ptr) (kBlockSize - start - kHeaderSize)). set (p := take (Z.to_nat n) ptr).
  assert (Hlp : len p = n) by (unfold p; rewrite len_take; lia).
  destruct (Z.eqb_spec (len ptr) n) as [E|E].
  - assert (p = ptr) as Ep by (unfold p; apply take_ge; unfold len in E; lia). split; [|split; [done|]].
    + apply layout_padding; [done..|]. fold start. rewrite <- (app_nil_r (chunk _ _)).
      apply layout_chunk; [lia|lia|by destruct begin|by apply bytes_take|]. rewrite Hlp. apply layout_nil. unfold kHeaderSize in *. lia.
    + rewrite Ep. destruct begin; constructor.
  - assert (Hn : n = kBlockSize - start - kHeaderSize) by lia. replace (start + kHeaderSize + n) with kBlockSize by lia.
    specialize (IH false kBlockSize (drop (Z.to_nat n) ptr) ltac:(done) ltac:(by apply bytes_drop) ltac:(eapply enough_next; [exact Hoff|exact Hf|done|lia])).
    destruct (cut fuel false kBlockSize (drop (Z.to_nat n) ptr)) as [[fs b] e]. destruct IH as (Hl & Hne & Hc). split; [|split; [done|]].
    + apply layout_padding; [done..|]. apply layout_chunk; [lia|lia|by destruct begin|by apply bytes_take|].
      rewrite Hlp. fold start. by replace (start + kHeaderSize + n) with kBlockSize by lia.
    + rewrite <- (take_drop (Z.to_nat n) ptr). fold p. destruct begin; by constructor.
Qed.

(** ** The writer *)

Section writer.
Context {F : Type} {W : WritableFile F} {A : AppendOnly F} (address : list Z -> Z).

(** A writer in use, and one whose file took everything so far. *)
Definition usable (w : Writer) : Prop :=
  valid_file (dest w) /\ 0 <= block_offset w <= kBlockSize /\ type_crc w = InitTypeCrc address.
Definition writable (w : Writer) : Prop := usable w /\ 6 <= room (dest w).

Definition write_log : list (list Z) -> D Writer Status :=
  fix write_log records :=
    match records with
    | [] => dret Status_OK
    | record :: records => let! s := AddRecord address record in if ok s then write_log records else dret s
    end.

Lemma record_header_chunk t p : kFullType <= t <= kLastType -> Forall byte p -> len p < 2 ^ 16 ->
  record_header address (InitTypeCrc address) t p ++ p = chunk t p.
Proof.
  intros Ht Hp Hl. pose proof (len_nonneg p). unfold record_header, chunk, EncodeFixed32. rewrite <- app_assoc. f_equal.
  - assert (Ec : nth (Z.to_nat t) (InitTypeCrc address) 0 = crc32c 0 [t]).
    { assert (Hw : forall i, byte i -> Value (address [i]) [i] = crc32c 0 [i]).
      { intros i Hi. apply Extend_crc32c; [by constructor|by split]. }
      unfold kFullType, kLastType in Ht. unfold InitTypeCrc.
      assert (t = 1 \/ t = 2 \/ t = 3 \/ t = 4) as [->|[->|[->| ->]]] by lia; cbn [map nth Z.to_nat Pos.to_nat Pos.iter_op Nat.add]; apply Hw; done. }
    rewrite Ec, Extend_crc32c, crc32c_app; [done..|]. apply crc32c_word32; [|by split].
    constructor; [|constructor]. unfold byte, kFullType, kLastType in *. lia.
  - rewrite land_255, shiftr_div by lia. change (2 ^ 8) with 256. unfold kFullType, kLastType in *.
    rewrite !u8_id by (unfold byte; Z.div_mod_to_equations; lia). done.
Qed.

(** What an operation of the writer does when it is to append [b] and move to the offset [e]: it may
    fail on the way. *)
Definition emits (b : list Z) (e : Z) (m : D Writer Status) (w : Writer) : Prop :=
  exists s w', m w = Some (s, w') /\ valid_file (dest w') /\ written (dest w) `prefix_of` written (dest w') /\
    contents (dest w') `prefix_of` contents (dest w) ++ b /\
    (ok s = true -> contents (dest w') = contents (dest w) ++ b /\ written (dest w') = contents (dest w') /\
                    writable w' /\ block_offset w' = e).

Lemma on_dest_spec {X} (m : D F X) w x f : m (dest w) = Some (x, f) -> on_dest m w = Some (x, set_dest f w).
Proof. intros H. unfold on_dest. by rewrite H. Qed.

Lemma EmitPhysicalRecord_spec t p w : usable w -> kFullType <= t <= kLastType -> Forall byte p ->
  block_offset w + kHeaderSize + len p <= kBlockSize ->
  emits (chunk t p) (block_offset w + kHeaderSize + len p) (EmitPhysicalRecord address t p) w.
Proof.
  intros (Hv & Hoff & Hcrc) Ht Hp Hfit. pose proof (len_nonneg p). unfold emits, EmitPhysicalRecord, dbind, dget, dmodify, dret.
  rewrite Hcrc. rewrite <- record_header_chunk by (done || (unfold kBlockSize, kHeaderSize in *; lia)). generalize (record_header address (InitTypeCrc address) t p). intros h.
  destruct (append_spec h (dest w) Hv) as (s1 & f1 & E1 & Hv1 & Hw1 & Hc1 & Ho1 & _). rewrite (on_dest_spec _ _ _ _ E1).
  destruct (ok s1) eqn:Ok1.
  2: { eexists _, _. split; [reflexivity|]. cbn [dest set_dest set_block_offset]. split; [exact Hv1|]. split; [exact Hw1|].
       split; [|congruence]. etransitivity; [exact Hc1|]. apply prefix_app. by apply prefix_app_r. }
  specialize (Ho1 eq_refl). destruct (append_spec p f1 Hv1) as (s2 & f2 & E2 & Hv2 & Hw2 & Hc2 & Ho2 & _).
  cbv beta iota. rewrite (on_dest_spec (Append p) (set_dest f1 w) _ _ E2). rewrite Ho1, <- app_assoc in Hc2, Ho2. destruct (ok s2) eqn:Ok2.
  2: { eexists _, _. split; [reflexivity|]. cbn [dest set_dest set_block_offset]. split; [exact Hv2|]. split; [by etransitivity|].
       split; [exact Hc2|congruence]. }
  specialize (Ho2 eq_refl). destruct (flush_spec f2 Hv2) as (s3 & f3 & E3 & Hv3 & Hw3 & Hc3 & Ho3).
  cbv beta iota. rewrite (on_dest_spec Flush (set_dest f2 (set_dest f1 w)) _ _ E3). rewrite Ho2 in Hc3, Ho3.
  eexists _, _. split; [reflexivity|]. cbn [dest set_dest set_block_offset block_offset type_crc].
  split; [exact Hv3|]. split; [etransitivity; [exact Hw1|by etransitivity]|]. split; [exact Hc3|].
  intros Ok3. destruct (Ho3 Ok3) as (Hc & Hw & Hr). rewrite Hc, Hw. pose proof capacity_pos. unfold writable, usable.
  cbn [dest set_dest set_block_offset block_offset type_crc]. unfold kHeaderSize in *. repeat split; try assumption; lia.
Qed.

(** Moving to the next block when no header fits cannot fail. *)
Lemma switch_block_spec w : writable w -> exists w', switch_block w = Some (tt, w') /\ usable w' /\
  written (dest w) `prefix_of` written (dest w') /\ contents (dest w') = contents (dest w) ++ padding (block_offset w) /\ block_offset w' = after_padding (block_offset w).
Proof.
  intros ((Hv & Hoff & Hcrc) & Hroom). unfold switch_block, dbind, dget, dmodify, dret, padding, after_padding.
  destruct (Z.ltb_spec (kBlockSize - block_offset w) kHeaderSize) as [Hl|Hl].
  2: { exists w. rewrite app_nil_r. repeat split; done || lia. }
  unfold kHeaderSize in Hl. destruct (Z.ltb_spec 0 (kBlockSize - block_offset w)) as [H0|H0].
  - set (n := Z.to_nat (kBlockSize - block_offset w)).
    assert (En : take n [0; 0; 0; 0; 0; 0] = replicate n 0).
    { assert (n = 1 \/ n = 2 \/ n = 3 \/ n = 4 \/ n = 5 \/ n = 6)%nat as [->|[->|[->|[->|[->| ->]]]]] by lia; done. }
    rewrite En. destruct (append_spec (replicate n 0) (dest w) Hv) as (s & f & E & Hv' & Hw & _ & Hc & Hr).
    rewrite (on_dest_spec _ _ _ _ E). eexists. split; [reflexivity|]. cbn. repeat split; try done.
    apply Hc, Hr. rewrite len_replicate. lia.
  - eexists. split; [reflexivity|]. replace (kBlockSize - block_offset w) with 0 by lia. cbn. rewrite app_nil_r. repeat split; done.
Qed.
Lemma add_record_loop_spec fuel begin ptr w : writable w -> Forall byte ptr -> enough fuel (block_offset w) ptr ->
  let '(fs, b, e) := cut fuel begin (block_offset w) ptr in emits b e (add_record_loop address fuel begin ptr) w.
Proof.
  revert begin ptr w. induction fuel as [|fuel IH]; intros begin ptr w Hw Hp Hf; [destruct Hf; lia|]. cbn [cut add_record_loop].
  destruct (switch_block_spec w Hw) as (w1 & E1 & Hu1 & Hw1 & Hc1 & Ho1). destruct Hw as ((Hv & Hoff & Hcrc) & Hroom).
  pose proof (after_padding_range _ Hoff) as Hs. set (start := after_padding (block_offset w)) in *. pose proof (len_nonneg ptr).
  set (n := Z.min (len ptr) (kBlockSize - start - kHeaderSize)). set (p := take (Z.to_nat n) ptr).
  assert (Hlp : len p = n) by (unfold p; rewrite len_take; lia).
  unfold emits, dbind at 1. rewrite E1. unfold dbind at 1, dget. rewrite Ho1. fold start. rewrite u64_id by (unfold kBlockSize, kHeaderSize in *; lia).
  assert (En : (if len ptr <? kBlockSize - start - kHeaderSize then len ptr else kBlockSize - start - kHeaderSize) = n).
  { unfold n. destruct (Z.ltb_spec (len ptr) (kBlockSize - start - kHeaderSize)); lia. }
  rewrite En. change (if begin && (len ptr =? n) then kFullType else _) with (fragment_type begin (len ptr =? n)).
  set (t := fragment_type _ _). fold p. unfold dbind.
  destruct (EmitPhysicalRecord_spec t p w1) as (s & w2 & -> & Hv2 & Hw2 & Hc2 & Hok2);
    [done|by unfold t; destruct begin, (len ptr =? n)|by apply bytes_take|rewrite Ho1, Hlp; lia|].
  rewrite Hc1, <- app_assoc in Hc2, Hok2. rewrite Ho1, Hlp in Hok2. fold start in Hok2.
  destruct (Z.eqb_spec (len ptr) n) as [E|E].
  - rewrite len_drop, (proj2 (Z.ltb_ge _ _)), andb_false_r by lia. exists s, w2. split; [done|]. split; [done|].
    split; [by etransitivity|]. split; [done|exact Hok2].
  - assert (Hn : n = kBlockSize - start - kHeaderSize) by lia. replace (start + kHeaderSize + n) with kBlockSize in * by lia.
    rewrite len_drop, (proj2 (Z.ltb_lt _ _)), andb_true_r by lia.
    destruct (cut fuel false kBlockSize (drop (Z.to_nat n) ptr)) as [[fs b] e] eqn:Ecut. destruct (ok s) eqn:Ok.
    + destruct (Hok2 eq_refl) as (Hc & Hwc & Hw2' & Ho2).
      assert (Hen : enough fuel kBlockSize (drop (Z.to_nat n) ptr)) by (eapply enough_next; [exact Hoff|exact Hf|done|lia]).
      specialize (IH false (drop (Z.to_nat n) ptr) w2 Hw2' ltac:(by apply bytes_drop)). rewrite Ho2, Ecut in IH.
      destruct (IH Hen) as (s3 & w3 & -> & Hv3 & Hw3 & Hc3 & Hok3).
      rewrite Hc, <- !app_assoc in Hc3, Hok3. exists s3, w3. split; [done|]. split; [done|].
      split; [etransitivity; [exact Hw1|by etransitivity]|]. done.
    + exists s, w2. split; [done|]. split; [done|]. split; [by etransitivity|]. split; [|congruence].
      etransitivity; [exact Hc2|]. apply prefix_app. rewrite app_assoc. by apply prefix_app_r.
Qed.

Lemma AddRecord_spec record w : writable w -> Forall byte record ->
  exists fs b e, fragmented record fs /\ layout (block_offset w) fs b e /\ emits b e (AddRecord address record) w.
Proof.
  intros Hw Hr. pose proof Hw as ((_ & Hoff & _) & _). assert (Hf : enough (length record + 2) (block_offset w) record) by (left; lia).
  pose proof (cut_layout (length record + 2) true (block_offset w) record Hoff Hr Hf) as Hl.
  pose proof (add_record_loop_spec (length record + 2) true record w Hw Hr Hf) as He.
  destruct (cut _ true (block_offset w) record) as [[fs b] e]. exists fs, b, e. split; [apply Hl|]. split; [apply Hl|exact He].
Qed.

(** Records that were all accepted. *)
Lemma write_log_spec records w w' : writable w -> Forall (Forall byte) records -> write_log records w = Some (Status_OK, w') ->
  exists b, log_layout (block_offset w) records b (block_offset w') /\ writable w' /\ contents (dest w') = contents (dest w) ++ b /\
    (written (dest w) = contents (dest w) -> written (dest w') = contents (dest w')).
Proof.
  intros Hw Hr. revert w Hw. induction Hr as [|record records Hb Hr IH]; intros w Hw E.
  - injection E as <-. exists []. rewrite app_nil_r. split; [|done]. apply log_nil, Hw.
  - cbn in E. unfold dbind in E. destruct (AddRecord_spec record w Hw Hb) as (fs & b & e & Hf & Hl & s & w1 & E1 & _ & _ & _ & Hok).
    rewrite E1 in E. destruct (ok s) eqn:Ok; [|injection E as -> ->; discriminate].
    destruct (Hok eq_refl) as (Hc & Hwc & Hw1 & Ho). destruct (IH w1 Hw1 E) as (b' & Hl' & Hw' & Hc' & Hwr).
    exists (b ++ b'). rewrite Ho in Hl'. split; [by econstructor|]. split; [done|]. split; [by rewrite Hc', Hc, <- app_assoc|]. by intros _; apply Hwr.
Qed.
End writer.

(** Reading a log: what [ReadPhysicalRecord] and [ReadRecord] make of a log that is whole, of one
    that was cut off anywhere, and of any bytes at all. *)

Section reading.
Context {F : Type} {R : SequentialFile F} {A : FiniteFile F} (address : list Z -> Z).
Implicit Types r : Reader (F:=F).

(** ** On a log *)

(** The reader is at the offset [off] of a block, with [rest] ahead. *)
Definition at_ (r : Reader) (off : Z) (rest : list Z) : Prop :=
  initial_offset r = 0 /\ 0 <= last_record_offset r /\ resyncing r = false /\ rest = buffer r ++ ahead (file r) /\ reliable (file r) /\ 0 <= off <= kBlockSize /\
  if eof r then ahead (file r) = [] /\ len (buffer r) <= kBlockSize - off else len (buffer r) = kBlockSize - off.

(** A result that leaves the reports as they were. *)
Definition quiet {X} (m : D Reader X) (r : Reader) (x : X) (P : Reader -> Prop) : Prop :=
  exists r', m r = Some (x, r') /\ reports r' = reports r /\ P r'.

Definition ended (r : Reader) : Prop := at_ r kBlockSize [] /\ eof r = true.

Lemma chunk_header t p rest : len p < 2 ^ 16 -> byte t ->
  DecodeFixed32 (chunk t p ++ rest) = Mask (crc32c 0 (t :: p)) mod 2 ^ 32 /\
  nth 4 (chunk t p ++ rest) 0 = len p mod 256 /\ nth 5 (chunk t p ++ rest) 0 = len p / 256 /\ nth 6 (chunk t p ++ rest) 0 = t /\
  drop 6 (chunk t p ++ rest) = t :: p ++ rest.
Proof.
  intros Hp Ht. unfold chunk. set (m := Mask _). assert (Em : exists a b c d, le_bytes 4 m = [a; b; c; d]) by (cbn; eauto).
  destruct Em as (a & b & c & d & Em).
  assert (Hv : le_value (le_bytes 4 m) = m mod 2 ^ 32).
  { cbn. Z.div_mod_to_equations. lia. }
  unfold DecodeFixed32. rewrite Em in *. cbn [app take drop nth]. done.
Qed.

Lemma header_length n : 0 <= n < 2 ^ 16 -> ((n mod 256) &. 255) |. (((n / 256) &. 255) << 8) = n.
Proof.
  intros Hn. rewrite !land_255, Zmod_mod, (Z.mod_small (n / 256)) by (Z.div_mod_to_equations; lia).
  rewrite Z.lor_comm, lor_shiftl_add by (lia || (apply Z.mod_pos_bound; lia)). Z.div_mod_to_equations. lia.
Qed.

Lemma mask_range crc : 0 <= Mask crc < 2 ^ 32.
Proof. apply Z.mod_pos_bound. lia. Qed.

Lemma parse_chunk t p rest fragment r : byte t -> t <> 0 \/ p <> [] -> Forall byte p -> len p < 2 ^ 15 -> initial_offset r = 0 ->
  buffer r = chunk t p ++ rest -> parse_record address fragment r = (u32 (sint 8 t), p, set_buffer rest r).
Proof.
  intros Hbt Ht Hp Hl Hi Hb. pose proof (len_nonneg p).
  destruct (chunk_header t p rest ltac:(lia) Hbt) as (H0 & H4 & H5 & H6 & Hd).
  unfold parse_record. rewrite Hb, H0, H4, H5, H6, Hd.
  rewrite header_length by lia.
  rewrite len_app, chunk_length. pose proof (len_nonneg rest). rewrite (proj2 (Z.ltb_ge _ _)) by lia.
  assert (((u32 (sint 8 t) =? kZeroType) && (len p =? 0)) = false) as ->.
  { apply andb_false_iff. destruct Ht as [Ht|Ht]; [left|right]; apply Z.eqb_neq; [|intros E; by apply len_zero_nil in E].
    unfold byte, kZeroType, sint, u32 in *. destruct (Z.ltb_spec t (2 ^ (8 - 1))); Z.div_mod_to_equations; lia. }
  replace (Z.to_nat (1 + len p)) with (S (length p)) by (unfold len; lia). cbn [take]. rewrite take_app_length.
  assert (Hbs : Forall byte (t :: p)) by (by constructor).
  unfold Value. rewrite Extend_crc32c by (done || by split). rewrite (Z.mod_small _ _ (mask_range _)).
  rewrite unmask_mask by (apply crc32c_word32; [done|by split]). rewrite Z.eqb_refl. cbn [negb]. rewrite andb_false_r.
  assert (Ed : forall k, drop (Z.to_nat (kHeaderSize + k)) (chunk t p ++ rest) = drop (Z.to_nat k) (p ++ rest) \/ k < 0).
  { intros k. destruct (Z.ltb_spec k 0); [by right|left]. replace (Z.to_nat (kHeaderSize + k)) with (6 + S (Z.to_nat k))%nat by (unfold kHeaderSize; lia).
    rewrite <- drop_drop, Hd. done. }
  destruct (Ed (len p)) as [->|]; [|lia]. rewrite len_to_nat, drop_app_length. cbn [initial_offset set_buffer]. rewrite Hi.
  rewrite (proj2 (Z.ltb_ge _ _)) by apply u64_range.
  specialize (Ed 0) as [Ed|]; [|lia]. rewrite Z.add_0_r in Ed. rewrite Ed. change (Z.to_nat 0) with 0%nat. by rewrite drop_0, take_app_length.
Qed.

(** A whole physical record is read. *)
Lemma read_chunk_any fuel t p rest fragment r off : at_ r off (chunk t p ++ rest) -> byte t -> t <> 0 \/ p <> [] -> Forall byte p ->
  off + kHeaderSize + len p <= kBlockSize ->
  quiet (read_physical_loop address (S fuel) fragment) r (u32 (sint 8 t), p) (fun r' => at_ r' (off + kHeaderSize + len p) rest).
Proof.
  intros (Hi & Hlo & Hrs & Hrest & Hrel & Hoff & He) Hbt Ht Hp Hfit. pose proof (len_nonneg p).
  assert (Hb : exists b, buffer r = chunk t p ++ b /\ rest = b ++ ahead (file r)).
  { destruct (app_split (chunk t p) rest (buffer r) (ahead (file r))) as (b & ? & ?); [done| |by exists b].
    rewrite chunk_length. destruct (eof r); [|lia]. destruct He as [He _]. rewrite He, app_nil_r in Hrest.
    rewrite <- Hrest, len_app, chunk_length. pose proof (len_nonneg rest). lia. }
  destruct Hb as (b & Hb & Hr). exists (set_buffer b r). cbn [read_physical_loop].
  rewrite (proj2 (Z.ltb_ge _ _)) by (rewrite Hb, len_app, chunk_length; pose proof (len_nonneg b); lia).
  rewrite (parse_chunk t p b) by (done || (unfold kBlockSize, kHeaderSize in *; lia)). split; [done|]. split; [done|].
  rewrite Hb, len_app, chunk_length in He. unfold at_. cbn. split_and!; try done; try (unfold kHeaderSize in *; lia).
  destruct (eof r); [split; [tauto|]|]; lia.
Qed.

Lemma read_chunk fuel t p rest fragment r off : at_ r off (chunk t p ++ rest) -> kFullType <= t <= kLastType -> Forall byte p ->
  off + kHeaderSize + len p <= kBlockSize ->
  quiet (read_physical_loop address (S fuel) fragment) r (t, p) (fun r' => at_ r' (off + kHeaderSize + len p) rest).
Proof.
  unfold kFullType, kLastType. intros Hat Ht Hp Hfit.
  assert (E : u32 (sint 8 t) = t) by (unfold sint; destruct (Z.ltb_spec t (2 ^ (8 - 1))); [apply u32_id; lia|lia]).
  replace (t, p) with (u32 (sint 8 t), p) by (by rewrite E). apply read_chunk_any; [done|unfold byte; lia|left; lia|done|done].
Qed.

(** Where no header fits, the next block is read. *)
Lemma read_block fuel fragment r off pad rest : at_ r off (pad ++ rest) -> eof r = false -> len pad = kBlockSize - off ->
  kBlockSize - kHeaderSize < off -> exists r', at_ r' 0 rest /\ reports r' = reports r /\
  read_physical_loop address (S fuel) fragment r = read_physical_loop address fuel fragment r'.
Proof.
  intros (Hi & Hlo & Hrs & Hrest & Hrel & Hoff & He) Heof Hpad Hlt. rewrite Heof in He.
  assert (buffer r = pad /\ ahead (file r) = rest) as [Hb Ha].
  { apply app_inj_1; [unfold len in *; lia|done]. }
  cbn [read_physical_loop]. rewrite (proj2 (Z.ltb_lt _ _)) by lia. rewrite Heof. cbn [negb].
  destruct (read_spec kBlockSize [] (file r) ltac:(done)) as (s & d & f & -> & Hok & Hrl). destruct (Hrl Hrel) as [Ok Hrel'].
  destruct (Hok Ok) as [Hd Hf]. rewrite Ok. cbn [negb]. rewrite Ha in *.
  eexists. split; [|split; [|reflexivity]].
  - cbn [buffer set_end_of_buffer_offset set_file set_buffer]. assert (Ed : rest = d ++ ahead f) by (by rewrite Hd, Hf, take_drop).
    assert (Hl : len d = Z.min kBlockSize (len rest)) by (by rewrite Hd, len_take).
    destruct (Z.ltb_spec (len d) kBlockSize) as [Hs|Hs]; repeat split; try done; cbn; try lia.
    + rewrite Hf. apply drop_ge. unfold len in *. lia.
    + rewrite Heof. lia.
  - cbn [buffer set_end_of_buffer_offset set_file set_buffer]. by destruct (len d <? kBlockSize).
Qed.

(** At the end, and where a physical record was cut off, the log ends. *)
Lemma read_cut fuel fragment r off b : at_ r off b -> eof r = true ->
  (len b < kHeaderSize \/ exists t p, b `prefix_of` chunk t p /\ len b < kHeaderSize + len p /\ byte t /\ len p < 2 ^ 15) ->
  quiet (read_physical_loop address (S fuel) fragment) r (kEof, fragment) ended.
Proof.
  intros (Hi & Hlo & Hrs & Hrest & Hrel & Hoff & He) Heof Hcut. rewrite Heof in He. destruct He as [Ha Hbl]. rewrite Ha, app_nil_r in Hrest. subst b.
  assert (Hend : ended (set_buffer [] r)) by (repeat split; try done; cbn; try (by rewrite Ha); rewrite Heof; done).
  cbn [read_physical_loop]. exists (set_buffer [] r). cbn [read_physical_loop].
  destruct (Z.ltb_spec (len (buffer r)) kHeaderSize) as [Hs|Hs]; [rewrite Heof; done|].
  destruct Hcut as [|(t & p & [q Hq] & Hl & Ht & Hp)]; [lia|]. pose proof (len_nonneg p).
  assert (Hn : forall i, (i < 7)%nat -> nth i (buffer r) 0 = nth i (chunk t p ++ []) 0).
  { intros i Hlt. rewrite app_nil_r, Hq, app_nth1; [done|]. unfold len, kHeaderSize in Hs. lia. }
  destruct (chunk_header t p [] ltac:(lia) Ht) as (_ & H4 & H5 & _ & _).
  unfold parse_record. rewrite !Hn, H4, H5 by lia.
  rewrite header_length by lia. rewrite (proj2 (Z.ltb_lt _ _)) by lia. cbn [eof set_buffer]. rewrite Heof. done.
Qed.

(** *** Fragments *)

Lemma layout_chunk_inv off t p fs b e : layout off ((t, p) :: fs) b e -> off <= kBlockSize - kHeaderSize ->
  exists b', b = chunk t p ++ b' /\ 0 <= off /\ off + kHeaderSize + len p <= kBlockSize /\ kFullType <= t <= kLastType /\ Forall byte p /\
    layout (off + kHeaderSize + len p) fs b' e.
Proof. intros H Hoff. inversion H; subst; [lia|]. eexists. split_and!; done || lia. Qed.

Lemma layout_nil_inv off b e : layout off [] b e -> b = [] /\ e = off.
Proof. intros H. by inversion H. Qed.

Definition fragment_ahead (fs : list (Z * list Z)) (e : Z) (P : list Z -> list Z -> Prop) (r : Reader) : Prop :=
  exists m b rest, layout m fs b e /\ at_ r m rest /\ P b rest.

(** A fragment that is there is read. *)
Lemma read_fragment t p fs b e k fragment r off : layout off ((t, p) :: fs) b e -> at_ r off (b ++ k) ->
  quiet (ReadPhysicalRecord address fragment) r (t, p) (fragment_ahead fs e (fun b rest => rest = b ++ k)).
Proof.
  intros Hl Hat. unfold ReadPhysicalRecord.
  assert (Hchunk : forall fuel r off b, layout off ((t, p) :: fs) b e -> off <= kBlockSize - kHeaderSize -> at_ r off (b ++ k) ->
    quiet (read_physical_loop address (S fuel) fragment) r (t, p) (fragment_ahead fs e (fun b rest => rest = b ++ k))).
  { clear. intros fuel r off b Hl Hoff Hat. destruct (layout_chunk_inv _ _ _ _ _ _ Hl Hoff) as (b' & -> & H0 & Hfit & Ht & Hp & Hl').
    rewrite <- app_assoc in Hat. destruct (read_chunk fuel t p (b' ++ k) fragment r off Hat Ht Hp Hfit) as (r' & E & Hr & Hat').
    exists r'. split; [done|]. split; [done|]. by exists (off + kHeaderSize + len p), b', (b' ++ k). }
  destruct (Z.le_gt_cases off (kBlockSize - kHeaderSize)) as [Hoff|Hoff]; [by eapply Hchunk|].
  inversion Hl as [|? ? b0 ? Hr Hne Hl0|]; subst; [|unfold kHeaderSize in *; pose proof (len_nonneg p); lia].
  assert (Hpad : len (replicate (Z.to_nat (kBlockSize - off)) 0) = kBlockSize - off) by (rewrite len_replicate; lia).
  rewrite <- app_assoc in Hat. destruct (layout_chunk_inv _ _ _ _ _ _ Hl0 ltac:(done)) as (b' & Eb & _ & _).
  assert (Heof : eof r = false).
  { destruct (eof r) eqn:Heof; [|done]. destruct Hat as (_ & _ & _ & Hrest & _ & _ & He). rewrite Heof in He. destruct He as [Ha Hb].
    rewrite Ha, app_nil_r in Hrest. rewrite <- Hrest, Eb, !len_app, chunk_length, Hpad in Hb.
    pose proof (len_nonneg b'). pose proof (len_nonneg p). pose proof (len_nonneg k). unfold kHeaderSize in *. lia. }
  destruct (read_block 1 fragment r off _ _ Hat Heof Hpad ltac:(lia)) as (r' & Hat' & Hr' & E).
  destruct (Hchunk 0%nat r' 0 b0 Hl0 ltac:(done) Hat') as (r2 & E2 & Hr2 & Ha2). exists r2. rewrite E, Hr2. done.
Qed.

Lemma prefix_not_whole (l k : list Z) : l `prefix_of` k -> len k <= len l -> l = k.
Proof. intros [q ->] H. rewrite len_app in H. pose proof (len_nonneg q). rewrite (len_zero_nil q) by lia. by rewrite app_nil_r. Qed.

Lemma prefix_split (l a b : list Z) : l `prefix_of` a ++ b -> (exists k, l = a ++ k /\ k `prefix_of` b) \/ l `prefix_of` a /\ len l < len a.
Proof.
  intros [q Hq]. destruct (Z.le_gt_cases (len a) (len l)) as [H|H].
  - left. destruct (app_split a b l q) as (k & -> & ->); [done|done|]. exists k. split; [done|]. by exists q.
  - right. split; [|done]. destruct (app_split l q a b) as (k & -> & _); [done|lia|]. by exists k.
Qed.

(** A log that was cut off inside ends, or goes on with the next fragment. *)
Lemma read_fragment_cut t p fs b e rest fragment r off : layout off ((t, p) :: fs) b e -> at_ r off rest -> rest `prefix_of` b -> rest <> b ->
  quiet (ReadPhysicalRecord address fragment) r (kEof, fragment) ended \/
  quiet (ReadPhysicalRecord address fragment) r (t, p)
    (fragment_ahead fs e (fun b rest' => rest' `prefix_of` b /\ rest' <> b /\ (length rest' < length rest)%nat)).
Proof.
  intros Hl Hat Hpre Hne. unfold ReadPhysicalRecord.
  assert (Hchunk : forall fuel r off b rest, layout off ((t, p) :: fs) b e -> off <= kBlockSize - kHeaderSize -> at_ r off rest ->
    rest `prefix_of` b -> rest <> b -> forall all : list Z, (length rest <= length all)%nat ->
    quiet (read_physical_loop address (S fuel) fragment) r (kEof, fragment) ended \/
    quiet (read_physical_loop address (S fuel) fragment) r (t, p)
      (fragment_ahead fs e (fun b rest' => rest' `prefix_of` b /\ rest' <> b /\ (length rest' < length all)%nat))).
  { clear. intros fuel r off b rest Hl Hoff Hat Hpre Hne all Hall.
    destruct (layout_chunk_inv _ _ _ _ _ _ Hl Hoff) as (b' & -> & H0 & Hfit & Ht & Hp & Hl'). pose proof (len_nonneg p).
    destruct (prefix_split _ _ _ Hpre) as [(k & -> & Hk)|[Hcut Hlt]].
    - right. destruct (read_chunk fuel t p k fragment r off Hat Ht Hp Hfit) as (r' & E & Hr & Hat').
      exists r'. split; [done|]. split; [done|]. exists (off + kHeaderSize + len p), b', k. split; [done|]. split; [done|]. split; [done|].
      split; [congruence|]. rewrite length_app in Hall. pose proof (chunk_length t p). unfold len, kHeaderSize in *. lia.
    - left. rewrite chunk_length in Hlt. eapply read_cut; [exact Hat| |].
      + destruct (eof r) eqn:Heof; [done|]. destruct Hat as (_ & _ & _ & -> & _ & _ & He). rewrite Heof in He. rewrite len_app in Hlt.
        pose proof (len_nonneg (ahead (file r))). lia.
      + right. exists t, p. unfold byte, kFullType, kLastType, kBlockSize, kHeaderSize in *. split_and!; done || lia. }
  destruct (Z.le_gt_cases off (kBlockSize - kHeaderSize)) as [Hoff|Hoff]; [by apply (Hchunk _ r off b rest)|].
  inversion Hl as [|? ? b0 ? Hr _ Hl0|]; subst; [|unfold kHeaderSize in *; pose proof (len_nonneg p); lia].
  assert (Hpad : len (replicate (Z.to_nat (kBlockSize - off)) 0) = kBlockSize - off) by (rewrite len_replicate; lia).
  pose proof Hat as (_ & _ & _ & Hrest & _ & _ & He). destruct (eof r) eqn:Heof.
  - left. eapply read_cut; [exact Hat|done|]. left. destruct He as [Ha Hb]. rewrite Ha, app_nil_r in Hrest. rewrite Hrest. lia.
  - pose proof (len_nonneg (ahead (file r))). destruct (prefix_split _ _ _ Hpre) as [(k & -> & Hk)|[_ Hlt]].
    + destruct (read_block 1 fragment r off _ _ Hat Heof Hpad ltac:(lia)) as (r' & Hat' & Hr' & E).
      unfold quiet. rewrite E, <- Hr'. eapply Hchunk; [exact Hl0|done|exact Hat'|done|congruence|rewrite length_app; lia].
    + rewrite Hrest, len_app, Hpad in Hlt. lia.
Qed.

(** At its end the log ends, again and again. *)
Lemma read_end fragment r off : at_ r off [] -> quiet (ReadPhysicalRecord address fragment) r (kEof, fragment) ended.
Proof.
  intros Hat. unfold ReadPhysicalRecord. destruct (eof r) eqn:Heof; [eapply read_cut; [exact Hat|done|by left]|].
  pose proof Hat as (_ & _ & _ & Hrest & _ & Hoff & He). rewrite Heof in He. symmetry in Hrest. apply app_nil in Hrest as [Hb _].
  rewrite Hb, (@len_nil Z) in He. destruct (read_block 1 fragment r off [] [] Hat Heof) as (r' & Hat' & Hr' & E); [rewrite (@len_nil Z); lia|unfold kHeaderSize; lia|].
  unfold quiet. rewrite E, <- Hr'. eapply read_cut; [exact Hat'| |by left].
  destruct Hat' as (_ & _ & _ & Hrest & _ & _ & He'). destruct (eof r'); [done|]. symmetry in Hrest. apply app_nil in Hrest as [Hb' _].
  rewrite Hb', (@len_nil Z) in He'. discriminate.
Qed.

(** *** Records *)

Lemma at_resyncing r off rest : at_ r off rest -> at_ (set_resyncing false r) off rest.
Proof. intros (? & ? & ? & ? & ? & ? & ?). repeat split; done || lia. Qed.

Lemma at_last_record_offset n r off rest : 0 <= n -> at_ r off rest -> at_ (set_last_record_offset n r) off rest.
Proof. intros ? (? & ? & ? & ? & ? & ? & ?). repeat split; done || lia. Qed.

(** One turn of the loop of [ReadRecord], when the reader is not resynchronising. *)
Lemma loop_turn fuel fragment l r t p (P : Reader -> Prop) :
  quiet (ReadPhysicalRecord address fragment) r (t, p) P -> (forall r', P r' -> resyncing r' = false) ->
  exists r' offset, P r' /\ reports r' = reports r /\ 0 <= offset /\
    read_record_loop address (S fuel) fragment l r =
      match on_physical_record t p offset l (set_resyncing false r') with
      | (Return record, r') => Some (record, r')
      | (Next l, r') => read_record_loop address fuel p l r'
      end.
Proof.
  intros (r' & E & Hr & HP) Hrs. exists r', (u64 (end_of_buffer_offset r' - len (buffer r') - kHeaderSize - len p)).
  split; [done|]. split; [done|]. split; [apply u64_range|]. cbn [read_record_loop]. unfold dbind at 1. rewrite E. cbn [fst snd].
  unfold dbind at 1, dget. rewrite (Hrs _ HP). cbn [andb]. unfold dbind, dmodify. done.
Qed.

Lemma ahead_resyncing fs e P r : fragment_ahead fs e P r -> resyncing r = false.
Proof. by intros (m & b & rest & _ & (_ & _ & ? & _) & _). Qed.
Lemma ended_resyncing r : ended r -> resyncing r = false.
Proof. by intros [(_ & _ & ? & _) _]. Qed.
#[local] Hint Resolve ahead_resyncing ended_resyncing : log.

(** The end of the log ends the loop. *)
Lemma loop_ends fuel fragment l r : quiet (ReadPhysicalRecord address fragment) r (kEof, fragment) ended ->
  quiet (read_record_loop address (S fuel) fragment l) r None ended.
Proof.
  intros H. destruct (loop_turn fuel fragment l r kEof fragment ended H) as (r' & o & [Hat Heof] & Hr & _ & E); [eauto with log|].
  exists (set_resyncing false r'). rewrite E. split; [done|]. split; [done|]. split; [by apply at_resyncing|done].
Qed.

(** The rest of a record. *)
Lemma loop_continued q fs b e k fuel fragment l r off : continued q fs -> layout off fs b e -> at_ r off (b ++ k) ->
  in_fragmented_record l = true -> 0 <= prospective_record_offset l -> (length fs <= fuel)%nat ->
  quiet (read_record_loop address fuel fragment l) r (Some (scratch l ++ q)) (fun r' => at_ r' e k).
Proof.
  intros Hc. revert b fuel fragment l r off. induction Hc as [p|p q fs Hc IH]; intros b fuel fragment l r off Hl Hat Hin Hpr Hf;
    (destruct fuel as [|fuel]; [cbn in Hf; lia|]);
    pose proof (read_fragment _ _ _ _ _ k fragment r off Hl Hat) as H;
    (destruct (loop_turn fuel fragment l r _ p _ H) as (r' & o & (m & b' & rest & Hl' & Hat' & ->) & Hr & Ho & E); [eauto with log|]);
    unfold quiet; rewrite E; unfold on_physical_record; cbn -[set_resyncing]; rewrite Hin; cbn [negb].
  - apply layout_nil_inv in Hl' as [-> ->]. eexists. split; [reflexivity|]. split; [done|]. by apply at_last_record_offset, at_resyncing.
  - rewrite <- Hr, app_assoc. apply at_resyncing in Hat'.
    apply (IH b' fuel p {| scratch := scratch l ++ p; in_fragmented_record := true; prospective_record_offset := prospective_record_offset l |} _ m Hl' Hat');
      [done|done|cbn in Hf; lia].
Qed.

Lemma loop_continued_cut q fs b e rest fuel fragment l r off : continued q fs -> layout off fs b e -> at_ r off rest ->
  rest `prefix_of` b -> rest <> b -> in_fragmented_record l = true -> (length rest < fuel)%nat ->
  quiet (read_record_loop address fuel fragment l) r None ended.
Proof.
  intros Hc. revert b rest fuel fragment l r off. induction Hc as [p|p q fs Hc IH]; intros b rest fuel fragment l r off Hl Hat Hpre Hne Hin Hf;
    (destruct fuel as [|fuel]; [cbn in Hf; lia|]);
    (destruct (read_fragment_cut _ _ _ _ _ rest fragment r off Hl Hat Hpre Hne) as [H|H]; [by apply loop_ends|]);
    (destruct (loop_turn fuel fragment l r _ p _ H) as (r' & o & (m & b' & rest' & Hl' & Hat' & Hpre' & Hne' & Hlt) & Hr & Ho & E); [eauto with log|]).
  - apply layout_nil_inv in Hl' as [-> _]. by apply prefix_nil_inv in Hpre'.
  - unfold quiet; rewrite E; unfold on_physical_record; cbn -[set_resyncing]; rewrite Hin; cbn [negb].
    rewrite <- Hr. apply at_resyncing in Hat'.
    apply (IH b' rest' fuel p {| scratch := scratch l ++ p; in_fragmented_record := true; prospective_record_offset := prospective_record_offset l |} _ m Hl' Hat');
      [done..|lia].
Qed.

Lemma ReadRecord_loop fuel r off rest : at_ r off rest -> ReadRecord address fuel r =
  read_record_loop address fuel [] {| scratch := []; in_fragmented_record := false; prospective_record_offset := 0 |} r.
Proof.
  intros (Hi & Hlo & _). unfold ReadRecord, dbind, dget. rewrite Hi, (proj2 (Z.ltb_ge _ _)) by lia. done.
Qed.

(** A record that is there is read; one that was cut off is not, and nothing is reported. *)
Lemma read_record record fs b e k fuel r off : fragmented record fs -> layout off fs b e -> at_ r off (b ++ k) -> (length fs <= fuel)%nat ->
  quiet (ReadRecord address fuel) r (Some record) (fun r' => at_ r' e k).
Proof.
  intros Hfr Hl Hat Hf. unfold quiet. rewrite (ReadRecord_loop _ _ _ _ Hat). set (l := {| scratch := [] |}).
  destruct Hfr as [p|p q fs Hc]; (destruct fuel as [|fuel]; [cbn in Hf; lia|]);
    pose proof (read_fragment _ _ _ _ _ k [] r off Hl Hat) as H;
    (destruct (loop_turn fuel [] l r _ p _ H) as (r' & o & (m & b' & rest & Hl' & Hat' & ->) & Hr & Ho & E); [eauto with log|]);
    rewrite E; unfold on_physical_record; cbn -[set_resyncing].
  - apply layout_nil_inv in Hl' as [-> ->]. eexists. split; [reflexivity|]. split; [done|]. by apply at_last_record_offset, at_resyncing.
  - rewrite <- Hr. apply at_resyncing in Hat'.
    apply (loop_continued q fs b' e k fuel p {| scratch := p; in_fragmented_record := true; prospective_record_offset := o |} _ m Hc Hl' Hat');
      [done|done|cbn in Hf; lia].
Qed.

Lemma read_record_cut record fs b e rest fuel r off : fragmented record fs -> layout off fs b e -> at_ r off rest ->
  rest `prefix_of` b -> rest <> b -> (length rest < fuel)%nat -> quiet (ReadRecord address fuel) r None ended.
Proof.
  intros Hfr Hl Hat Hpre Hne Hf. unfold quiet. rewrite (ReadRecord_loop _ _ _ _ Hat). set (l := {| scratch := [] |}).
  destruct Hfr as [p|p q fs Hc]; (destruct fuel as [|fuel]; [cbn in Hf; lia|]);
    (destruct (read_fragment_cut _ _ _ _ _ rest [] r off Hl Hat Hpre Hne) as [H|H]; [by apply loop_ends|]);
    (destruct (loop_turn fuel [] l r _ p _ H) as (r' & o & (m & b' & rest' & Hl' & Hat' & Hpre' & Hne' & Hlt) & Hr & Ho & E); [eauto with log|]).
  - apply layout_nil_inv in Hl' as [-> _]. by apply prefix_nil_inv in Hpre'.
  - rewrite E; unfold on_physical_record; cbn -[set_resyncing]. rewrite <- Hr. apply at_resyncing in Hat'.
    apply (loop_continued_cut q fs b' e rest' fuel p {| scratch := p; in_fragmented_record := true; prospective_record_offset := o |} _ m Hc Hl' Hat');
      [done..|lia].
Qed.

Lemma read_record_end fuel r off : at_ r off [] -> (0 < fuel)%nat -> quiet (ReadRecord address fuel) r None ended.
Proof.
  intros Hat Hf. unfold quiet. rewrite (ReadRecord_loop _ _ _ _ Hat). destruct fuel as [|fuel]; [lia|]. by eapply loop_ends, read_end.
Qed.

(** ** Reading all *)

(** What a client that reads to the end of the log gets. *)
Fixpoint read_log (n fuel : nat) : D (Reader (F:=F)) (list (list Z)) :=
  match n with
  | O => running
  | S n =>
      let! x := ReadRecord address fuel in
      match x with
      | None => dret []
      | Some record => let! records := read_log n fuel in dret (record :: records)
      end
  end.

Lemma read_log_whole records b e k n fuel r off more (P : Reader -> Prop) : log_layout off records b e -> at_ r off (b ++ k) ->
  (length b <= fuel)%nat ->
  (forall r', at_ r' e k -> quiet (read_log n fuel) r' more P) ->
  quiet (read_log (length records + n) fuel) r (records ++ more) P.
Proof.
  intros Hl Hat Hf Hmore. revert r Hat Hf. induction Hl as [off Ho|off record fs b m records b' e Hfr Hl Hl' IH]; intros r Hat Hf; [by apply Hmore|].
  rewrite <- app_assoc in Hat. pose proof (layout_length _ _ _ _ Hl) as Hn. rewrite length_app in Hf.
  destruct (read_record record fs b m (b' ++ k) fuel r off Hfr Hl Hat) as (r1 & E1 & Hr1 & Hat1); [unfold len, kHeaderSize in Hn; lia|].
  destruct (IH Hmore r1 Hat1 ltac:(lia)) as (r2 & E2 & Hr2 & HP). exists r2.
  cbn [Nat.add length read_log app]. unfold dbind at 1. rewrite E1. unfold dbind. rewrite E2. split; [done|]. split; [congruence|done].
Qed.

Lemma read_log_end n fuel r : quiet (ReadRecord address fuel) r None ended -> quiet (read_log (S n) fuel) r [] ended.
Proof. intros (r' & E & Hr & He). exists r'. cbn [read_log]. unfold dbind. rewrite E. done. Qed.

(** One more record, whole or cut off, and then the end. *)
Lemma read_log_last record fs b e n fuel r off : fragmented record fs -> layout off fs b e -> at_ r off b -> (length b < fuel)%nat ->
  quiet (read_log (S (S n)) fuel) r [record] ended.
Proof.
  intros Hfr Hl Hat Hf. pose proof (layout_length _ _ _ _ Hl) as Hn. rewrite <- (app_nil_r b) in Hat.
  destruct (read_record record fs b e [] fuel r off Hfr Hl Hat) as (r1 & E1 & Hr1 & Hat1); [unfold len, kHeaderSize in Hn; lia|].
  destruct (read_record_end fuel r1 e Hat1) as (r2 & E2 & Hr2 & Hend); [lia|].
  exists r2. cbn [read_log]. unfold dbind. rewrite E1, E2. split; [done|]. split; [congruence|done].
Qed.

Lemma read_log_cut record fs b e rest n fuel r off : fragmented record fs -> layout off fs b e -> at_ r off rest ->
  rest `prefix_of` b -> rest <> b -> (length rest < fuel)%nat -> quiet (read_log (S n) fuel) r [] ended.
Proof. intros. apply read_log_end. by eapply read_record_cut. Qed.

(** A new reader. *)
Lemma at_new f reporter check : reliable f -> at_ (NewReader f reporter check 0) kBlockSize (ahead f).
Proof. intros Hf. repeat split; try done. Qed.
End reading.
