(* ===== verification/LogProps.v ===== *)
(** The properties of the log: what was written is read back, a crash loses nothing that was
    acknowledged, and the reader comes to an end on any file. *)
From Stdlib Require Import String.
From S2P Require Import Prelude Crc32c Coding Status EnvPosix LogWriter LogReader LogReading.

(** ** The reader on any file *)

Section termination.
Context {F : Type} {R : SequentialFile F} {A : FiniteFile F} (address : list Z -> Z).
Implicit Types r : Reader (F:=F).

(** The bytes that are still to be looked at. *)
Definition unread (r : Reader (F:=F)) : Z := len (buffer r) + len (ahead (file r)).

Lemma unread_nonneg r : 0 <= unread r.
Proof. unfold unread. pose proof (len_nonneg (buffer r)). pose proof (len_nonneg (ahead (file r))). lia. Qed.

Lemma ReportDrop_fields n s r : file (ReportDrop n s r) = file r /\ buffer (ReportDrop n s r) = buffer r /\ eof (ReportDrop n s r) = eof r.
Proof. unfold ReportDrop. destruct (reports r); [|done]. by destruct (initial_offset r <=? _). Qed.

Lemma unread_report n s r : unread (ReportDrop n s r) = unread r.
Proof. destruct (ReportDrop_fields n s r) as (E1 & E2 & _). unfold unread. by rewrite E1, E2. Qed.

(** What every physical record that does not end the log takes. *)
Definition consumes (r : Reader (F:=F)) (x : Z * list Z) (r' : Reader (F:=F)) : Prop :=
  fst x = kEof \/ unread r' + kHeaderSize <= unread r /\ (fst x = kBadRecord \/ unread r' + kHeaderSize + len (snd x) <= unread r).

Lemma parse_consumes fragment r : kHeaderSize <= len (buffer r) -> consumes r (fst (parse_record address fragment r)) (snd (parse_record address fragment r)).
Proof.
  intros Hb. unfold parse_record, consumes. set (n := (nth 4 (buffer r) 0 &. 255) |. ((nth 5 (buffer r) 0 &. 255) << 8)).
  assert (Hn : 0 <= n).
  { apply Z.lor_nonneg. split; [|apply Z.shiftl_nonneg]; rewrite land_255; by apply Z.mod_pos_bound. }
  clearbody n. destruct (Z.ltb_spec (len (buffer r)) (kHeaderSize + n)) as [Hl|Hl].
  - cbn [eof set_buffer]. destruct (negb (eof r)); cbn [fst snd]; [|by left]. right. unfold ReportCorruption. rewrite unread_report.
    unfold unread. cbn. rewrite (@len_nil Z). split; [lia|by left].
  - destruct (_ && _).
    + right. unfold unread. cbn. rewrite (@len_nil Z). split; [lia|by left].
    + destruct (_ && _).
      * right. cbn [fst snd]. unfold ReportCorruption. rewrite unread_report. unfold unread. cbn. rewrite (@len_nil Z). split; [lia|by left].
      * cbn [buffer set_buffer end_of_buffer_offset initial_offset]. assert (Hd : len (drop (Z.to_nat (kHeaderSize + n)) (buffer r)) = len (buffer r) - (kHeaderSize + n)).
        { rewrite len_drop. unfold kHeaderSize in *. lia. }
        destruct (_ <? _); right; cbn [fst snd]; unfold unread; cbn; rewrite Hd; (split; [lia|]); [by left|right].
        rewrite len_take. pose proof (len_nonneg (ahead (file r))). lia.
Qed.

Lemma ReadPhysicalRecord_returns fragment r : exists x r', ReadPhysicalRecord address fragment r = Some (x, r') /\ consumes r x r'.
Proof.
  unfold ReadPhysicalRecord. cbn [read_physical_loop]. destruct (Z.ltb_spec (len (buffer r)) kHeaderSize) as [Hb|Hb].
  2: { pose proof (parse_consumes fragment r Hb) as H. destruct (parse_record address fragment r) as [x r']. by exists x, r'. }
  destruct (eof r); cbn [negb]; [eexists _, _; split; [reflexivity|by left]|].
  destruct (read_spec kBlockSize [] (file r) ltac:(done)) as (s & d & f & -> & Hok & _).
  destruct (ok s) eqn:Ok; cbn [negb]; [|eexists _, _; split; [reflexivity|by left]]. destruct (Hok eq_refl) as [Hd Hf].
  cbn [buffer set_end_of_buffer_offset set_file set_buffer]. set (r1 := set_end_of_buffer_offset _ _).
  assert (Hu : len d + len (ahead f) <= unread r).
  { unfold unread. rewrite Hd, Hf, <- len_app, take_drop. pose proof (len_nonneg (buffer r)). lia. }
  set (r2 := if len d <? kBlockSize then set_eof true r1 else r1). assert (buffer r2 = d) as -> by (unfold r2; by destruct (len d <? kBlockSize)).
  assert (unread r2 = len d + len (ahead f)) as Hr2 by (unfold r2; by destruct (len d <? kBlockSize)).
  destruct (Z.ltb_spec (len d) kHeaderSize) as [Hs|Hs].
  - assert (eof r2 = true) as ->; [|eexists _, _; split; [reflexivity|by left]].
    unfold r2. rewrite (proj2 (Z.ltb_lt _ _)) by (unfold kBlockSize, kHeaderSize in *; lia). done.
  - pose proof (parse_consumes fragment r2) as H. destruct (parse_record address fragment r2) as [x r']. exists x, r'. split; [done|].
    unfold consumes in *. cbn [fst snd] in H. rewrite Hr2 in H. assert (buffer r2 = d) as Eb by (unfold r2; by destruct (len d <? kBlockSize)).
    rewrite Eb in H. destruct (H Hs) as [?|[? ?]]; [by left|right; lia].
Qed.

Lemma on_physical_record_turn t p o l r : t <> kEof ->
  match on_physical_record t p o l r with
  | (Return (Some record), r') => unread r' = unread r /\ t <> kBadRecord /\ len record <= len (scratch l) + len p
  | (Return None, _) => False
  | (Next l', r') => unread r' = unread r /\ (t = kBadRecord /\ len (scratch l') <= len (scratch l) \/ t <> kBadRecord /\ len (scratch l') <= len (scratch l) + len p)
  end.
Proof.
  intros Ht. pose proof (len_nonneg p). pose proof (len_nonneg (scratch l)).
  assert (Hp : forall reason, unread (if in_fragmented_record l && negb (len (scratch l) =? 0) then ReportCorruption (len (scratch l)) reason r else r) = unread r).
  { intros reason. destruct (_ && _); [apply unread_report|done]. }
  unfold on_physical_record. destruct (Z.eqb_spec t kFullType) as [->|]; [unfold unread in *; cbn; rewrite <- (Hp (bytes_of "partial record without end(1)")); split_and!; done || lia|].
  destruct (Z.eqb_spec t kFirstType) as [->|]; [rewrite Hp; split; [done|right; cbn [scratch]; split; [done|lia]]|].
  destruct (Z.eqb_spec t kMiddleType) as [->|].
  { destruct (in_fragmented_record l); cbn [negb]; unfold ReportCorruption; rewrite ?unread_report; (split; [done|right; split; [done|]]); cbn [scratch]; rewrite ?len_app; lia. }
  destruct (Z.eqb_spec t kLastType) as [->|].
  { destruct (in_fragmented_record l); cbn [negb]; unfold ReportCorruption; rewrite ?unread_report; [|split; [done|right; split; [done|lia]]].
    split_and!; [done..|]. rewrite len_app. lia. }
  destruct (Z.eqb_spec t kEof); [done|]. destruct (Z.eqb_spec t kBadRecord) as [->|Hb].
  - destruct (in_fragmented_record l); unfold ReportCorruption; rewrite ?unread_report; (split; [done|left; split; [done|]]); cbn [scratch abandon]; rewrite ?(@len_nil Z); lia.
  - unfold ReportCorruption. rewrite unread_report. split; [done|right; split; [done|]]. cbn [scratch abandon]. rewrite (@len_nil Z). lia.
Qed.

(** A call of [ReadRecord] that finds a record takes at least its header and its bytes. *)
Definition takes_record (bound : Z) (x : option (list Z)) (r : Reader (F:=F)) : Prop :=
  match x with Some record => unread r + kHeaderSize + len record <= bound | None => True end.

Lemma read_record_loop_returns fuel fragment l r bound : unread r < Z.of_nat fuel -> unread r + len (scratch l) <= bound ->
  exists x r', read_record_loop address fuel fragment l r = Some (x, r') /\ takes_record bound x r'.
Proof.
  revert fragment l r. induction fuel as [|fuel IH]; intros fragment l r Hf Hb; [pose proof (unread_nonneg r); lia|].
  cbn [read_record_loop]. unfold dbind at 1. destruct (ReadPhysicalRecord_returns fragment r) as ([t p] & r1 & -> & Hc).
  unfold consumes in Hc. cbn [fst snd] in *. unfold dbind at 1, dget. pose proof (len_nonneg p).
  assert (Hsame : forall b, unread (set_resyncing b r1) = unread r1) by done. set (o := u64 _).
  destruct (Z.eqb_spec t kEof) as [->|Ht].
  { rewrite !andb_false_r. unfold dbind, dmodify. eexists _, _. split; [reflexivity|done]. }
  destruct Hc as [|[Hc1 Hc2]]; [done|]. unfold kHeaderSize in *. destruct (resyncing r1 && (t =? kMiddleType)).
  { apply IH; lia. }
  destruct (resyncing r1 && (t =? kLastType)).
  { unfold dbind, dmodify. apply IH; rewrite Hsame; lia. }
  unfold dbind, dmodify. pose proof (on_physical_record_turn t p o l (set_resyncing false r1) Ht) as H1.
  destruct (on_physical_record t p o l (set_resyncing false r1)) as [[[record|]|l'] r2]; [| |].
  - destruct H1 as (Hu & Hne & Hl). exists (Some record), r2. split; [done|]. cbn. rewrite Hsame in Hu. unfold kHeaderSize.
    destruct Hc2; [done|]. lia.
  - done.
  - destruct H1 as (Hu & Hl). rewrite Hsame in Hu. apply IH; [lia|]. destruct Hl as [[-> Hl]|[Hne Hl]]; [lia|]. destruct Hc2; [done|]. lia.
Qed.

Lemma SkipToInitialBlock_returns r : exists x r', SkipToInitialBlock r = Some (x, r') /\ (x = true -> unread r' <= unread r).
Proof.
  unfold SkipToInitialBlock. cbv zeta. set (start := if kBlockSize - 6 <? _ then _ else _). destruct (Z.ltb_spec 0 start) as [H0|H0]; [|by eexists _, _].
  cbn [file set_end_of_buffer_offset]. destruct (skip_spec start (file r) ltac:(lia)) as (s & f & -> & Hok & _).
  destruct (ok s); cbn [negb]; eexists _, _; (split; [reflexivity|]); [|done]. intros _. unfold unread. cbn. rewrite Hok, len_drop by done.
  pose proof (len_nonneg (ahead (file r))). lia.
Qed.

Lemma ReadRecord_returns fuel r : unread r < Z.of_nat fuel ->
  exists x r', ReadRecord address fuel r = Some (x, r') /\ takes_record (unread r) x r'.
Proof.
  intros Hf. unfold ReadRecord. unfold dbind at 1, dget. unfold dbind at 1.
  assert (Hs : exists x r', (if last_record_offset r <? initial_offset r then SkipToInitialBlock else dret true) r = Some (x, r') /\ (x = true -> unread r' <= unread r)).
  { destruct (_ <? _); [by apply SkipToInitialBlock_returns|]. by exists true, r. }
  destruct Hs as ([] & r1 & -> & Hu); cbn [negb]; [|eexists _, _; split; [reflexivity|done]]. specialize (Hu eq_refl).
  destruct (read_record_loop_returns fuel [] {| scratch := []; in_fragmented_record := false; prospective_record_offset := 0 |} r1 (unread r))
    as (x & r' & E & H); [lia|cbn [scratch]; rewrite (@len_nil Z); lia|]. by exists x, r'.
Qed.

(** What records take in a log at least. *)
Definition log_size (records : list (list Z)) : Z := foldr (fun record n => kHeaderSize + len record + n) 0 records.

(** C26: Reading any file to its end returns: whatever the bytes, whatever errors the file has, from
    any state of the reader, as many turns as there are unread bytes are enough, both inside
    [ReadRecord] and for the client that calls it until it returns [false]; and the records that
    come out fit, with their headers, into the bytes read. *)
Theorem log_reader_terminates n fuel r : unread r < Z.of_nat n -> unread r < Z.of_nat fuel ->
  exists records r', read_log address n fuel r = Some (records, r') /\ log_size records <= unread r.
Proof.
  revert r. induction n as [|n IH]; intros r Hn Hf; [pose proof (unread_nonneg r); lia|].
  destruct (ReadRecord_returns fuel r Hf) as (x & r1 & E & Hx). cbn [read_log]. unfold dbind at 1. rewrite E. destruct x as [record|].
  - cbn in Hx. pose proof (len_nonneg record). unfold kHeaderSize in *. destruct (IH r1) as (records & r2 & E2 & Hl); [lia..|].
    unfold dbind. rewrite E2. exists (record :: records), r2. split; [done|].
    change (log_size (record :: records)) with (kHeaderSize + len record + log_size records). unfold kHeaderSize. lia.
  - exists [], r1. split; [done|apply unread_nonneg].
Qed.
End termination.

(** ** The writer and the reader *)

Section log.
Context {F : Type} {W : WritableFile F} {A : AppendOnly F} (address : list Z -> Z).
Context {G : Type} {R : SequentialFile G} {B : FiniteFile G} (address' : list Z -> Z).

(** A file that was just created. *)
Definition new_file (f : F) : Prop := valid_file f /\ contents f = [] /\ written f = [] /\ 6 <= room f.

Lemma new_writable f : new_file f -> writable address (NewWriter address f).
Proof. intros (Hv & _ & _ & Hr). repeat split; done. Qed.

(** Reading a log from its start: the first block is read first. *)
Lemma log_from_start records b m : log_layout 0 records b m -> exists m', log_layout kBlockSize records b m' /\
  forall fs b' e, fs <> [] -> layout m fs b' e -> layout m' fs b' e.
Proof.
  intros Hl. destruct records as [|record records].
  - inversion Hl; subst. exists kBlockSize. split; [by apply log_nil|]. intros fs b' e Hfs. by apply layout_block.
  - exists m. split; [by apply log_layout_block|done].
Qed.

(** C3: No crash loses a record that was acknowledged.  [AddRecord] returned OK for [records]; the
    process stops during or after a call that adds one more, which may fail.  Whatever part of what
    that call writes has reached the file, reading the file from the start gives [records], in
    order, and then either the end or the last record, which is read if the call had returned OK
    and all was written; no corruption is reported, with checksums or without. *)
Theorem log_crash_safe records record f w1 : new_file f -> Forall (Forall byte) records -> Forall byte record ->
  write_log address records (NewWriter address f) = Some (Status_OK, w1) ->
  exists s w2, AddRecord address record w1 = Some (s, w2) /\
    forall g reporter check n fuel, reliable g -> written (dest w1) `prefix_of` ahead g -> ahead g `prefix_of` written (dest w2) ->
      (length (ahead g) < fuel)%nat -> (length records + 1 < n)%nat ->
      exists found r, read_log address' n fuel (NewReader g reporter check 0) = Some (found, r) /\
        reports r = reports (NewReader g reporter check 0) /\
        (found = records \/ found = records ++ [record]) /\
        (ok s = true -> ahead g = written (dest w2) -> found = records ++ [record]).
Proof.
  intros Hnew Hrs Hr E. pose proof (new_writable f Hnew) as Hw0. destruct Hnew as (Hv & Hc0 & Hw0' & _).
  destruct (write_log_spec address records _ w1 Hw0 Hrs E) as (b & Hl & Hw1 & Hc1 & Hwr). cbn [dest NewWriter block_offset] in *.
  rewrite Hc0 in Hc1. cbn [app] in Hc1. rewrite Hc0, Hw0', Hc1 in Hwr. specialize (Hwr eq_refl).
  destruct (AddRecord_spec address record w1 Hw1 Hr) as (fs & b2 & e & Hfr & Hl2 & s & w2 & E2 & Hv2 & _ & Hc2 & Hok).
  exists s, w2. split; [done|]. intros g reporter check n fuel Hg [k Hk] Hpre Hfuel Hn. rewrite Hwr in Hk. rewrite Hc1 in Hc2, Hok.
  assert (Hk2 : k `prefix_of` b2).
  { apply (prefix_app_inv b). rewrite <- Hk. etransitivity; [exact Hpre|]. etransitivity; [by apply written_contents|done]. }
  destruct (log_from_start _ _ _ Hl) as (m' & Hl' & Hfrom). apply Hfrom in Hl2; [|by apply fragmented_nonempty in Hfr].
  pose proof (at_new g reporter check Hg) as Hat. rewrite Hk in Hat.
  rewrite Hk, length_app in Hfuel. replace n with (length records + S (S (n - length records - 2)))%nat by lia. set (j := (n - length records - 2)%nat).
  destruct (decide (k = b2)) as [->|Hne].
  - destruct (read_log_whole address' records b m' b2 (S (S j)) fuel _ _ [record] ended Hl' Hat ltac:(lia)) as (r & Er & Hrep & _).
    { intros r' Hat'. eapply read_log_last; [exact Hfr|exact Hl2|exact Hat'|lia]. }
    exists (records ++ [record]), r. split; [done|]. split; [done|]. split; [by right|done].
  - destruct (read_log_whole address' records b m' k (S (S j)) fuel _ _ [] ended Hl' Hat ltac:(lia)) as (r & Er & Hrep & _).
    { intros r' Hat'. eapply read_log_cut; [exact Hfr|exact Hl2|exact Hat'|done|done|lia]. }
    rewrite app_nil_r in Er. exists records, r. split; [done|]. split; [done|]. split; [by left|].
    intros Ok Hall. exfalso. apply Hne. destruct (Hok Ok) as (Hc & Hw & _). rewrite Hw, Hc, Hk in Hall. by apply app_inv_head in Hall.
Qed.

Lemma layout_position off fs b e : layout off fs b e -> (off + len b) mod kBlockSize = e mod kBlockSize.
Proof.
  induction 1 as [off H|off fs b e H Hne Hl IH|off t p fs b e H0 H Ht Hp Hl IH].
  - by rewrite (@len_nil Z), Z.add_0_r.
  - rewrite len_app, len_replicate, Z2Nat.id by lia. rewrite <- IH.
    replace (off + (kBlockSize - off + len b)) with (0 + len b + 1 * kBlockSize) by lia. by rewrite Z_mod_plus_full.
  - rewrite len_app, chunk_length, <- IH. f_equal. lia.
Qed.

Lemma log_layout_position off records b e : log_layout off records b e -> (off + len b) mod kBlockSize = e mod kBlockSize.
Proof.
  induction 1 as [off H|off record fs b m records b' e Hf Hl Hl' IH]; [by rewrite (@len_nil Z), Z.add_0_r|].
  apply layout_position in Hl. rewrite len_app, Z.add_assoc, <- Z.add_mod_idemp_l, Hl, Z.add_mod_idemp_l by done. exact IH.
Qed.

(** A writer that goes on with a file takes the offset from its length. *)
Lemma log_layout_resume off records b e : 0 <= off <= kBlockSize -> log_layout (off mod kBlockSize) records b e -> exists e', log_layout off records b e'.
Proof.
  intros Hoff Hl. destruct (decide (off = kBlockSize)) as [->|Hne].
  - destruct (log_from_start _ _ _ Hl) as (m & ? & _). by exists m.
  - rewrite Z.mod_small in Hl by lia. by exists e.
Qed.

(** C24: The records added to a new log, and then to the same file by a writer that was opened on it
    again, are the records the reader returns, in order, and nothing is reported. *)
Theorem log_round_trip records records' f w1 f2 w2 g reporter check n fuel :
  new_file f -> Forall (Forall byte) (records ++ records') ->
  write_log address records (NewWriter address f) = Some (Status_OK, w1) ->
  valid_file f2 -> contents f2 = contents (dest w1) -> written f2 = contents f2 -> 6 <= room f2 ->
  write_log address records' (NewWriterAt address f2 (len (contents f2))) = Some (Status_OK, w2) ->
  reliable g -> ahead g = written (dest w2) -> (length (ahead g) < fuel)%nat -> (length (records ++ records') < n)%nat ->
  exists r, read_log address' n fuel (NewReader g reporter check 0) = Some (records ++ records', r) /\
    reports r = reports (NewReader g reporter check 0).
Proof.
  intros Hnew Hrs E1 Hv2 Hc2 Hw2 Hr2 E2 Hg Ha Hfuel Hn. apply Forall_app in Hrs as [Hrs Hrs'].
  pose proof (new_writable f Hnew) as Hwr1. destruct Hnew as (Hv & Hc0 & Hw0 & _).
  destruct (write_log_spec address records _ w1 Hwr1 Hrs E1) as (b & Hl & ((_ & Ho1 & _) & _) & Hc1 & _). cbn [dest NewWriter block_offset] in *.
  rewrite Hc0 in Hc1. cbn [app] in Hc1. rewrite Hc1 in Hc2. rewrite Hc2 in Hw2, E2.
  assert (Hwr2 : writable address (NewWriterAt address f2 (len b))).
  { repeat split; try done; cbn; apply Z.mod_pos_bound || apply Z.lt_le_incl, Z.mod_pos_bound; done. }
  destruct (write_log_spec address records' _ w2 Hwr2 Hrs' E2) as (b' & Hl' & _ & Hc & Hwritten). cbn [dest NewWriterAt block_offset] in *.
  rewrite Hc2 in Hc, Hwritten. rewrite (Hwritten Hw2), Hc in Ha.
  apply log_layout_position in Hl as Hpos. rewrite Z.add_0_l in Hpos. rewrite Hpos in Hl'. apply log_layout_resume in Hl' as [e Hl']; [|done].
  pose proof (log_layout_app _ _ _ _ _ _ _ Hl Hl') as Hall. destruct (log_from_start _ _ _ Hall) as (m & Hall' & _).
  pose proof (at_new g reporter check Hg) as Hat. rewrite Ha in Hat, Hfuel. rewrite <- (app_nil_r (b ++ b')) in Hat.
  replace n with (length (records ++ records') + S (n - length (records ++ records') - 1))%nat by lia.
  destruct (read_log_whole address' _ _ m [] (S (n - length (records ++ records') - 1)) fuel _ _ [] ended Hall' Hat ltac:(lia)) as (r & Er & Hrep & _).
  { intros r' Hat'. apply read_log_end. eapply read_record_end; [exact Hat'|lia]. }
  rewrite app_nil_r in Er. by exists r.
Qed.
End log.

(** ** On POSIX files *)

Module OnDisk.
Definition address (l : list Z) : Z := 0.
#[local] Instance writable_file : WritableFile PosixWritableFile :=
  posix_writable disk_error disk_write disk_call disk_call disk_call disk_call disk_patience.
#[local] Instance append_only : AppendOnly PosixWritableFile :=
  posix_append_only disk_error disk_patience disk_write disk_call disk_call disk_call disk_call disk_stored disk_write_documented.
#[local] Instance sequential_file : SequentialFile PosixSequentialFile :=
  posix_sequential disk_error disk_read disk_lseek disk_patience.
#[local] Instance finite_file : FiniteFile PosixSequentialFile :=
  posix_finite disk_error disk_patience disk_read disk_lseek disk_ahead (fun _ => True) disk_read_documented disk_lseek_documented.

Definition create (script : list (option nat)) : PosixWritableFile :=
  NewPosixWritableFile (bytes_of "db/000003.log") 3 {| stored := []; position := 0; script := script |}.
Definition reopen (bytes : list Z) : PosixSequentialFile :=
  {| seq_fd := 4; seq_filename := bytes_of "db/000003.log"; seq_world := {| stored := bytes; position := 0; script := [] |} |}.

(** A log written to a disk whose calls of [write] are cut short and interrupted. *)
Definition written_log (records : list (list Z)) (script : list (option nat)) : Writer :=
  match write_log address records (NewWriter address (create script)) with
  | Some (_, w) => w
  | None => NewWriter address (create [])
  end.

Lemma new_create script : new_file (create script).
Proof. unfold new_file. cbn. unfold posix_valid, pos, kWritableFileBufferSize. cbn. unfold len. cbn. split_and!; try done. Qed.

Lemma some_pair_inj {A B} (a c : A) (b d : B) : Some (a, b) = Some (c, d) -> a = c /\ b = d.
Proof. intros H. by injection H. Qed.

Definition short_writes : list (option nat) := [Some 3; Some 0; Some 1]%nat.
Definition first_log : Writer := written_log [[1; 2]; [3]] short_writes.
Definition longer_log : Writer := written_log [[1; 2]; [3]; [4; 5; 6]] short_writes.

Lemma first_log_written : write_log address [[1; 2]; [3]] (NewWriter address (create short_writes)) = Some (Status_OK, first_log).
Proof. vm_compute. reflexivity. Qed.
Lemma records_bytes : Forall (Forall byte) [[1; 2]; [3]].
Proof. repeat (apply List.Forall_cons; [bytes_lit|]). apply List.Forall_nil. Qed.

(** A crash in the middle of the third record. *)
Lemma log_crash_safe_witness :
  let g := reopen (take 22 (written (dest longer_log))) in
  exists found r, read_log address 10 100 (NewReader g true true 0) = Some (found, r) /\ reports r = Some [] /\
    (found = [[1; 2]; [3]] \/ found = [[1; 2]; [3]] ++ [[4; 5; 6]]).
Proof.
  intros g. assert (Hr : Forall byte [4; 5; 6]) by bytes_lit.
  destruct (log_crash_safe address address [[1; 2]; [3]] [4; 5; 6] (create short_writes) first_log (new_create _) records_bytes Hr first_log_written)
    as (s & w2 & E & H).
  assert (E' : AddRecord address [4; 5; 6] first_log = Some (Status_OK, longer_log)) by (vm_compute; reflexivity).
  rewrite E' in E. apply some_pair_inj in E as [<- <-].
  destruct (H g true true 10%nat 100%nat) as (found & r & E & Hrep & Hf & _).
  - exact I.
  - exists (drop 17 (ahead g)). vm_compute. reflexivity.
  - exists (drop 22 (written (dest longer_log))). vm_compute. reflexivity.
  - vm_compute. lia.
  - cbn. lia.
  - exists found, r. split; [exact E|]. split; [exact Hrep|exact Hf].
Defined.

Lemma log_round_trip_witness :
  let f2 := NewPosixWritableFile (bytes_of "db/000003.log") 5 (world (dest first_log)) in
  exists r, read_log address 10 100 (NewReader (reopen (written (dest longer_log))) true true 0) = Some ([[1; 2]; [3]] ++ [[4; 5; 6]], r) /\
    reports r = Some [].
Proof.
  intros f2.
  refine (log_round_trip address address [[1; 2]; [3]] [[4; 5; 6]] (create short_writes) first_log f2
    (NewWriterAt address (NewPosixWritableFile (bytes_of "db/000003.log") 5 (world (dest longer_log))) 27) (reopen (written (dest longer_log))) true true 10 100
    (new_create _) _ first_log_written _ _ _ _ _ _ _ _ _).
  - repeat (apply List.Forall_cons; [bytes_lit|]). apply List.Forall_nil.
  - discriminate.
  - vm_compute. reflexivity.
  - vm_compute. reflexivity.
  - discriminate.
  - vm_compute. reflexivity.
  - exact I.
  - vm_compute. reflexivity.
  - vm_compute. lia.
  - cbn. lia.
Defined.

Lemma log_reader_terminates_witness :
  let r := NewReader (reopen [1; 2; 3; 4; 5; 6; 5; 9]) true false 40000 in
  unread r < Z.of_nat 9 /\ exists records r', read_log address 9 9 r = Some (records, r') /\ log_size records <= unread r.
Proof.
  intros r. assert (H : unread r < Z.of_nat 9) by (vm_compute; reflexivity).
  split; [exact H|]. exact (log_reader_terminates address 9 9 r H H).
Defined.

(** ** What is not as it should be *)

(** A record of type 5 or 6 is taken for what [ReadPhysicalRecord] returns at the end of the file or
    for a bad record, not for one of unknown type: the first ends the log, silently. *)
Example type_of_eof : exists r,
  read_log address 10 100 (NewReader (reopen (chunk 5 [] ++ chunk kFullType [7])) true true 0) = Some ([], r) /\ reports r = Some [].
Proof. eexists. split; vm_compute; reflexivity. Qed.

(** A record that begins before [initial_offset] is skipped as a bad record, which ends the
    resynchronisation: the fragments that follow are reported as corrupted, whether checksums are
    looked at or not; here they are not. *)
Definition big_record : list Z := replicate (Z.to_nat 32760) 7.
Example spurious_report :
  match read_log address 10 100 (NewReader (reopen (written (dest (written_log [[1]; big_record] [])))) true false 10) with
  | Some (found, r) => bool_decide (found = []) && bool_decide (map fst <$> reports r = Some [7])
  | None => false
  end = true.
Proof. vm_compute. reflexivity. Qed.

(** A write that failed leaves the writer at an offset the file is not at: records added later are
    acknowledged, and not found. *)
Example lost_after_error : exists s w1 w2,
  AddRecord address [1] (NewWriter address (create [Some 3; None]%nat)) = Some (s, w1) /\ ok s = false /\
  AddRecord address [2] w1 = Some (Status_OK, w2) /\
  exists r, read_log address 10 100 (NewReader (reopen (written (dest w2))) true true 0) = Some ([], r).
Proof.
  eexists _, _, _. split; [vm_compute; reflexivity|]. split; [reflexivity|]. split; [vm_compute; reflexivity|].
  eexists. vm_compute. reflexivity.
Qed.
(** A writer opened on a log whose last record was cut off, as [DBImpl::RecoverLogFile] does when it
    reuses a log: what it adds is acknowledged, and not found behind the torn record; nothing is reported. *)
Example lost_after_reuse :
  let torn := take 22 (written (dest longer_log)) in
  let f2 := NewPosixWritableFile (bytes_of "db/000003.log") 5 {| stored := torn; position := 0; script := [] |} in
  exists w2, AddRecord address [9] (NewWriterAt address f2 (len torn)) = Some (Status_OK, w2) /\
  exists r, read_log address 10 100 (NewReader (reopen (written (dest w2))) true true 0) = Some ([[1; 2]; [3]], r) /\ reports r = Some [].
Proof.
  intros torn f2. eexists. split; [vm_compute; reflexivity|]. eexists. split; vm_compute; reflexivity.
Qed.
End OnDisk.
