(* ===== verification/DbFormat.v ===== *)
(** Internal keys of LevelDB (leveldb-library/db/dbformat.h and .cc): a user key with a sequence
    number and a type behind it, their comparator over the comparator of the client, and the key
    for a lookup. *)
From S2P Require Import Prelude Comparator Coding.

(** [ValueType] *)
Definition kTypeDeletion : Z := 0.
Definition kTypeValue : Z := 1.
Definition kValueTypeForSeek : Z := kTypeValue.
Definition kMaxSequenceNumber : Z := (1 << 56) - 1.

Record ParsedInternalKey := { user_key : list Z; sequence : Z; type_ : Z }.

Definition InternalKeyEncodingLength (key : ParsedInternalKey) : Z := u64 (len (user_key key) + 8).

Definition PackSequenceAndType (seq t : Z) : Z := u64 (seq << 8) |. t.

(** What is appended to [result]. *)
Definition AppendInternalKey (result : list Z) (key : ParsedInternalKey) : list Z :=
  PutFixed64 (result ++ user_key key) (PackSequenceAndType (sequence key) (type_ key)).

(** The key must have 8 bytes or more: that is asserted, and what the definition gives for a shorter string
  models nothing.  The theorems are about keys of at least 8 bytes. *)
Definition ExtractUserKey (internal_key : list Z) : list Z := take (length internal_key - 8) internal_key.
Definition tag_of (internal_key : list Z) : Z := DecodeFixed64 (drop (length internal_key - 8) internal_key).

(** [None] for [false], when [*result] is undefined. *)
Definition ParseInternalKey (internal_key : list Z) : option ParsedInternalKey :=
  if len internal_key <? 8 then None
  else
    let num := tag_of internal_key in
    let c := num &. 0xff in
    if c <=? kTypeValue then Some {| user_key := ExtractUserKey internal_key; sequence := num >> 8; type_ := c |}
    else None.

Section internal_key_comparator.
Context (user_comparator : Comparator).

Definition InternalKeyComparator_Compare (akey bkey : list Z) : comparison :=
  match Compare (ExtractUserKey akey) (ExtractUserKey bkey) with
  | Eq =>
      let anum := tag_of akey in
      let bnum := tag_of bkey in
      if bnum <? anum then Lt else if anum <? bnum then Gt else Eq
  | r => r
  end.

Definition earliest_number : Z := PackSequenceAndType kMaxSequenceNumber kValueTypeForSeek.

Definition InternalKeyComparator_FindShortestSeparator (start limit : list Z) : list Z :=
  let user_start := ExtractUserKey start in
  let user_limit := ExtractUserKey limit in
  let tmp := Separator user_start user_limit in
  if (len tmp <? len user_start) && (match Compare user_start tmp with Lt => true | _ => false end)
  then PutFixed64 tmp earliest_number
  else start.

Definition InternalKeyComparator_FindShortSuccessor (key : list Z) : list Z :=
  let user_key := ExtractUserKey key in
  let tmp := Successor user_key in
  if (len tmp <? len user_key) && (match Compare user_key tmp with Lt => true | _ => false end)
  then PutFixed64 tmp earliest_number
  else key.

Definition InternalKeyComparator : Comparator := {|
  Compare := InternalKeyComparator_Compare;
  Separator := InternalKeyComparator_FindShortestSeparator;
  Successor := InternalKeyComparator_FindShortSuccessor
|}.
End internal_key_comparator.

(** A [FilterPolicy]: [CreateFilter] appends to [*dst]. *)
Class FilterPolicy := {
  FilterName : list Z;
  CreateFilter : list (list Z) -> list Z -> list Z;
  KeyMayMatch : list Z -> list Z -> bool
}.

(** What a policy promises for the keys in use: the filter, which does not depend on what it is
    appended to, matches every key that is like one of those it was made of ([filter_key]). *)
Class FilterPolicyLaws (P : FilterPolicy) := {
  filter_key : list Z -> list Z;
  filter_name_bytes : Forall byte FilterName;
  create_filter_spec keys : len keys < 2 ^ 31 -> exists f, Forall byte f /\ (forall dst, CreateFilter keys dst = dst ++ f) /\
    forall key, filter_key key ∈ map filter_key keys -> KeyMayMatch key f = true
}.

Definition InternalFilterPolicy (user_policy : FilterPolicy) : FilterPolicy := {|
  FilterName := FilterName;
  CreateFilter keys dst := CreateFilter (map ExtractUserKey keys) dst;
  KeyMayMatch key f := KeyMayMatch (ExtractUserKey key) f
|}.

(** The array from [start_] to [end_], and where [kstart_] is in it. *)
Record LookupKey := { start_ : list Z; kstart_ : nat }.

Definition NewLookupKey (user_key : list Z) (s : Z) : LookupKey :=
  let usize := len user_key in
  let klength := EncodeVarint32 (u32 (u64 (usize + 8))) in
  {| start_ := klength ++ user_key ++ EncodeFixed64 (PackSequenceAndType s kValueTypeForSeek);
     kstart_ := length klength |}.

(** [needed] bytes are allocated for it. *)
Definition LookupKey_needed (user_key : list Z) : Z := u64 (len user_key + 13).

Definition memtable_key (k : LookupKey) : list Z := start_ k.
Definition internal_key (k : LookupKey) : list Z := drop (kstart_ k) (start_ k).
Definition lookup_user_key (k : LookupKey) : list Z :=
  take (length (start_ k) - kstart_ k - 8) (drop (kstart_ k) (start_ k)).

(** Internal keys: they are parsed back, sort by user key and then from the newest to the oldest, and
    their comparator keeps the contract of comparators when the client's does. *)

Definition parsed_ok (p : ParsedInternalKey) : Prop :=
  Forall byte (user_key p) /\ 0 <= sequence p <= kMaxSequenceNumber /\ 0 <= type_ p <= kTypeValue.
Definition internal (user_key : list Z) (seq t : Z) : list Z :=
  AppendInternalKey [] {| user_key := user_key; sequence := seq; type_ := t |}.

Lemma len_fixed64 v : len (EncodeFixed64 v) = 8.
Proof. unfold len, EncodeFixed64. by rewrite le_bytes_length. Qed.
#[export] Hint Rewrite len_fixed64 : clen.

Lemma pack_range s t : 0 <= s <= kMaxSequenceNumber -> 0 <= t < 256 ->
  PackSequenceAndType s t = s * 256 + t /\ 0 <= PackSequenceAndType s t < 2 ^ 64.
Proof.
  unfold PackSequenceAndType. change kMaxSequenceNumber with 72057594037927935. intros Hs Ht.
  rewrite Z.shiftl_mul_pow2 by lia. change (2 ^ 8) with 256. rewrite u64_id by lia.
  replace (s * 256) with (s * 2 ^ 8) by lia. rewrite lor_mul_add by lia. lia.
Qed.

Lemma unpack_tag s t : 0 <= t < 256 -> (s * 256 + t) &. 0xff = t /\ (s * 256 + t) >> 8 = s.
Proof.
  intros Ht. rewrite land_255, shiftr_div by lia. change (2 ^ 8) with 256.
  rewrite Z.add_comm, Z_mod_plus, Z.mod_small by lia. split; [done|]. rewrite Z.div_add, Z.div_small by lia. lia.
Qed.

Section tail.
Context (u tail : list Z) (H : length tail = 8%nat).

Lemma ExtractUserKey_app : ExtractUserKey (u ++ tail) = u.
Proof. unfold ExtractUserKey. apply take_app_exact. rewrite length_app. lia. Qed.

Lemma tag_of_app : tag_of (u ++ tail) = le_value tail.
Proof.
  unfold tag_of, DecodeFixed64. rewrite drop_app_exact by (rewrite length_app; lia). by rewrite take_ge by lia.
Qed.
End tail.

Lemma internal_app u s t : internal u s t = u ++ le_bytes 8 (PackSequenceAndType s t).
Proof. done. Qed.

Lemma tag_fixed u v : 0 <= v < 2 ^ 64 -> tag_of (u ++ EncodeFixed64 v) = v.
Proof. intros Hv. rewrite tag_of_app by apply le_bytes_length. by apply le_value_bytes. Qed.

Lemma user_fixed u v : ExtractUserKey (u ++ EncodeFixed64 v) = u.
Proof. apply ExtractUserKey_app, le_bytes_length. Qed.

(** A key of at least 8 bytes is its user key and the bytes of its number. *)
Lemma internal_key_split k : 8 <= len k -> Forall byte k ->
  k = ExtractUserKey k ++ le_bytes 8 (tag_of k) /\ 0 <= tag_of k < 2 ^ 64.
Proof.
  intros Hl Hb. unfold ExtractUserKey, tag_of, DecodeFixed64. unfold len in Hl.
  assert (Hd : length (drop (length k - 8) k) = 8%nat) by (rewrite length_drop; lia).
  rewrite (take_ge (drop _ _)) by lia. rewrite <- Hd at 2. rewrite le_bytes_value by (by apply bytes_drop).
  rewrite take_drop. split; [done|]. pose proof (le_value_range _ (bytes_drop (length k - 8) k Hb)) as Hr.
  unfold len in Hr. by rewrite Hd in Hr.
Qed.

Lemma parse_internal_tag u v : 0 <= v < 2 ^ 64 ->
  ParseInternalKey (u ++ EncodeFixed64 v) =
  if v mod 256 <=? 1 then Some {| user_key := u; sequence := v / 256; type_ := v mod 256 |} else None.
Proof.
  intros Hv. unfold ParseInternalKey. rewrite tag_fixed, user_fixed, land_255, shiftr_div by lia.
  rewrite len_app, len_fixed64. pose proof (len_nonneg u). by rewrite (proj2 (Z.ltb_ge _ _)) by lia.
Qed.

(** ** The order *)

Section laws.
Context (C : Comparator) {L : ComparatorLaws C}.
Abbreviation compare_internal := (InternalKeyComparator_Compare C).

(** Keys of a user key in use. *)
Definition internal_ok (k : list Z) : Prop := exists u v, k = u ++ EncodeFixed64 v /\ key_ok u /\ 0 <= v < 2 ^ 64.
Hint Unfold internal_ok : core.

Lemma internal_compare_app u v a b : 0 <= a < 2 ^ 64 -> 0 <= b < 2 ^ 64 ->
  compare_internal (u ++ EncodeFixed64 a) (v ++ EncodeFixed64 b) =
  match Compare u v with Eq => b ?= a | c => c end.
Proof.
  intros Ha Hb. unfold InternalKeyComparator_Compare. rewrite !user_fixed, !tag_fixed by done.
  destruct (Compare u v); [|done..]. destruct (Z.ltb_spec b a); [by symmetry; apply Z.compare_lt_iff|].
  destruct (Z.ltb_spec a b); [by symmetry; apply Z.compare_gt_iff|]. symmetry. apply Z.compare_eq_iff. lia.
Qed.

Lemma internal_ok_bytes k : internal_ok k -> 8 <= len k /\ Forall byte k.
Proof.
  intros (u & v & -> & Hu & Hv). pose proof (len_nonneg u). split.
  - simp_len. lia.
  - apply Forall_app. split; [by apply key_bytes|apply le_bytes_byte].
Qed.

#[export] Instance internal_order : WeakOrder compare_internal internal_ok.
Proof.
  split.
  - intros a b (u & x & -> & Hu & Hx) (v & y & -> & Hv & Hy).
    rewrite !internal_compare_app, (cmp_antisym Compare key_ok u v) by done.
    destruct (Compare u v); [|done..]. cbn [CompOpp]. apply Z.compare_antisym.
  - intros a b c (u & x & -> & Hu & Hx) (v & y & -> & Hv & Hy) (w & z & -> & Hw & Hz). rewrite !internal_compare_app by done.
    destruct (Compare u v) eqn:E1; [|destruct (Compare v w) eqn:E2; try done|done].
    + rewrite (cmp_eq_l Compare key_ok u v w) by done. destruct (Compare v w); [|done..]. rewrite !Z.compare_lt_iff. lia.
    + by rewrite <- (cmp_eq_r Compare key_ok u v w), E1.
    + by rewrite (cmp_lt_trans Compare key_ok u v w).
  - intros a b c (u & x & -> & Hu & Hx) (v & y & -> & Hv & Hy) (w & z & -> & Hw & Hz). rewrite !internal_compare_app by done.
    destruct (Compare u v) eqn:E1; [|done..]. rewrite (cmp_eq_l Compare key_ok u v w) by done.
    by intros ->%Z.compare_eq.
Qed.

Lemma earliest_range : 0 <= earliest_number < 2 ^ 64.
Proof. by vm_compute. Qed.

(** ** Separators *)

Definition shortened (u tmp : list Z) : bool :=
  (len tmp <? len u) && (match Compare u tmp with Lt => true | _ => false end).

Lemma internal_separator_app u x limit : 0 <= x < 2 ^ 64 ->
  InternalKeyComparator_FindShortestSeparator C (u ++ EncodeFixed64 x) limit =
  let tmp := Separator u (ExtractUserKey limit) in
  if shortened u tmp then tmp ++ EncodeFixed64 earliest_number else u ++ EncodeFixed64 x.
Proof. intros Hx. unfold InternalKeyComparator_FindShortestSeparator. by rewrite user_fixed. Qed.

Lemma internal_successor_app u x : 0 <= x < 2 ^ 64 ->
  InternalKeyComparator_FindShortSuccessor C (u ++ EncodeFixed64 x) =
  if shortened u (Successor u) then Successor u ++ EncodeFixed64 earliest_number else u ++ EncodeFixed64 x.
Proof. intros Hx. unfold InternalKeyComparator_FindShortSuccessor. by rewrite user_fixed. Qed.

Lemma shortened_true u tmp : shortened u tmp = true <-> len tmp < len u /\ Compare u tmp = Lt.
Proof.
  unfold shortened. rewrite andb_true_iff, Z.ltb_lt. destruct (Compare u tmp); intuition congruence.
Qed.

Lemma shortened_after u x tmp : 0 <= x < 2 ^ 64 -> Compare u tmp = Lt ->
  compare_internal (u ++ EncodeFixed64 x) (tmp ++ EncodeFixed64 earliest_number) = Lt.
Proof. intros Hx E. rewrite internal_compare_app by (done || apply earliest_range). by rewrite E. Qed.

Lemma shortened_len u x tmp : shortened u tmp = true -> len (tmp ++ EncodeFixed64 earliest_number) < len (u ++ EncodeFixed64 x).
Proof.
  intros [Hl _]%shortened_true. simp_len. lia.
Qed.

Lemma internal_separator_spec start limit : internal_ok start -> internal_ok limit -> compare_internal start limit = Lt ->
  let k := InternalKeyComparator_FindShortestSeparator C start limit in
  internal_ok k /\ compare_internal start k <> Gt /\ compare_internal k limit = Lt /\ len k <= len start.
Proof.
  intros (u & x & -> & Hu & Hx) (v & y & -> & Hv & Hy) Hlt. rewrite internal_separator_app, user_fixed by done. cbv zeta.
  destruct (shortened u (Separator u v)) eqn:E.
  - pose proof (shortened_len u x _ E) as Hl. apply shortened_true in E as [Hs E].
    assert (Huv : Compare u v = Lt).
    { rewrite internal_compare_app in Hlt by done. destruct (Compare u v) eqn:Ec; [|done..].
      apply compare_eq in Ec as <-; [|done..]. rewrite separator_same in Hs by done. lia. }
    destruct (separator_between u v Hu Hv Huv) as (Hk & _ & Hb). split_and!; [|rewrite shortened_after; done| |lia].
    + eexists _, _. split; [done|]. split; [done|apply earliest_range].
    + rewrite internal_compare_app by (done || apply earliest_range). by rewrite Hb.
  - split_and!; [by exists u, x| |done|lia]. rewrite (cmp_refl _ internal_ok) by (by exists u, x). done.
Qed.

Lemma internal_successor_spec key : internal_ok key ->
  let k := InternalKeyComparator_FindShortSuccessor C key in
  internal_ok k /\ compare_internal key k <> Gt /\ len k <= len key.
Proof.
  intros (u & x & -> & Hu & Hx). rewrite internal_successor_app by done. cbv zeta.
  destruct (shortened u (Successor u)) eqn:E.
  - pose proof (shortened_len u x _ E) as Hl. apply shortened_true in E as [Hs E].
    destruct (successor_after u Hu) as [Hk _]. split_and!; [|rewrite shortened_after; done|lia].
    eexists _, _. split; [done|]. split; [done|apply earliest_range].
  - split_and!; [by exists u, x| |lia]. rewrite (cmp_refl _ internal_ok) by (by exists u, x). done.
Qed.

#[export] Program Instance internal_laws : ComparatorLaws (InternalKeyComparator C) := { key_ok := internal_ok }.
Next Obligation. intros k Hk. by apply internal_ok_bytes in Hk as [_ ?]. Qed.
Next Obligation.
  intros a b (u & x & -> & Hu & Hx) (v & y & -> & Hv & Hy). cbn [Compare InternalKeyComparator]. rewrite internal_compare_app by done.
  destruct (Compare u v) eqn:E; [|done..]. apply compare_eq in E as <-; [|done..]. by intros <-%Z.compare_eq.
Qed.
Next Obligation.
  intros start limit Hs Hl H. by destruct (internal_separator_spec start limit Hs Hl H) as (? & ? & ? & _).
Qed.
Next Obligation.
  intros k (u & x & -> & Hu & Hx). cbn [Separator InternalKeyComparator]. rewrite internal_separator_app, user_fixed by done. cbv zeta.
  rewrite separator_same by done. unfold shortened. by rewrite Z.ltb_irrefl.
Qed.
Next Obligation. intros k Hk. by destruct (internal_successor_spec k Hk) as (? & ? & _). Qed.

(** C37: the comparator of internal keys is a comparator as the interface promises, when the client's
    is: it orders by user key and then by decreasing sequence number and type, only equal keys
    compare equal, and a separator or a successor is a well-formed internal key in its bounds and no
    longer than the key. *)
Theorem internal_key_comparator u s t v s' t' limit :
  key_ok u -> key_ok v -> 0 <= s <= kMaxSequenceNumber -> 0 <= s' <= kMaxSequenceNumber ->
  0 <= t <= kTypeValue -> 0 <= t' <= kTypeValue -> internal_ok limit ->
  let key := internal u s t in
  compare_internal key (internal v s' t') = match Compare u v with Eq => match s' ?= s with Eq => t' ?= t | c => c end | c => c end /\
  (compare_internal key limit = Eq <-> key = limit) /\
  (compare_internal key limit = Lt ->
   let k := InternalKeyComparator_FindShortestSeparator C key limit in
   internal_ok k /\ compare_internal key k <> Gt /\ compare_internal k limit = Lt /\ len k <= len key) /\
  let k := InternalKeyComparator_FindShortSuccessor C key in
  internal_ok k /\ compare_internal key k <> Gt /\ len k <= len key.
Proof.
  intros Hu Hv Hs Hs' Ht Ht' Hl key. unfold kTypeValue in *. destruct (pack_range s t) as [E Hp]; [lia..|].
  destruct (pack_range s' t') as [E' Hp']; [lia..|]. assert (Hk : internal_ok key) by (exists u, (PackSequenceAndType s t); done).
  split; [|split; [|split]].
  - unfold key. rewrite !internal_app, internal_compare_app by done. destruct (Compare u v); [|done..]. rewrite E, E'.
    destruct (Z.compare_spec s' s) as [->|H|H]; [|rewrite Z.compare_lt_iff; lia|rewrite Z.compare_gt_iff; lia].
    by rewrite Z.add_compare_mono_l.
  - split; [by apply (compare_eq (C := InternalKeyComparator C))|]. intros <-. by apply (cmp_refl _ internal_ok).
  - by apply internal_separator_spec.
  - by apply internal_successor_spec.
Qed.
End laws.

Lemma internal_key_comparator_witness :
  Forall byte [1; 2; 3] /\ Forall byte [4] /\ Forall byte [9; 9] /\
  let key := internal [1; 2; 3] 9 1 in let limit := internal [9; 9] 5 0 in
  InternalKeyComparator_Compare BytewiseComparator key (internal [4] 7 0) = Lt /\
  InternalKeyComparator_Compare BytewiseComparator key (InternalKeyComparator_FindShortestSeparator BytewiseComparator key limit) <> Gt.
Proof.
  assert (H1 : Forall byte [1; 2; 3]) by bytes_lit. assert (H2 : Forall byte [4]) by bytes_lit. assert (H3 : Forall byte [9; 9]) by bytes_lit.
  split; [exact H1|]. split; [exact H2|]. split; [exact H3|]. intros key limit.
  assert (Hl : internal_ok BytewiseComparator limit) by (exists [9; 9], (PackSequenceAndType 5 0); split; [reflexivity|split; [exact H3|vm_compute; split; congruence]]).
  assert (B9 : 0 <= 9 <= kMaxSequenceNumber) by (vm_compute; split; congruence). assert (B7 : 0 <= 7 <= kMaxSequenceNumber) by (vm_compute; split; congruence).
  destruct (internal_key_comparator BytewiseComparator (L := bytewise_laws) [1; 2; 3] 9 1 [4] 7 0 limit H1 H2 B9 B7
    ltac:(unfold kTypeValue; lia) ltac:(unfold kTypeValue; lia) Hl) as (E & _ & Hs & _).
  split; [exact E|]. apply Hs. reflexivity.
Defined.

(** ** Parsing *)

Lemma parse_internal p : parsed_ok p -> ParseInternalKey (AppendInternalKey [] p) = Some p.
Proof.
  destruct p as [u s t]. intros (Hu & Hs & Ht). cbn [user_key sequence type_] in *. unfold kTypeValue in *. destruct (pack_range s t) as [E Hp]; [lia..|].
  change (AppendInternalKey _ _) with (u ++ EncodeFixed64 (PackSequenceAndType s t)). setoid_rewrite parse_internal_tag; [|done].
  rewrite E, Z.add_comm, Z_mod_plus, Z.mod_small, Z.div_add, Z.div_small by lia.
  by rewrite (proj2 (Z.leb_le _ _)) by lia.
Qed.

Lemma parse_internal_inv k p : Forall byte k -> ParseInternalKey k = Some p -> parsed_ok p /\ k = AppendInternalKey [] p.
Proof.
  intros Hb Hp. assert (Hl : 8 <= len k) by (unfold ParseInternalKey in Hp; destruct (Z.ltb_spec (len k) 8); [done|lia]).
  destruct (internal_key_split k Hl Hb) as [E Hv]. rewrite E in Hp. setoid_rewrite parse_internal_tag in Hp; [|done].
  pose proof (Z.mod_pos_bound (tag_of k) 256 ltac:(lia)). pose proof (Z_div_mod_eq_full (tag_of k) 256) as Hdm.
  destruct (Z.leb_spec (tag_of k mod 256) 1) as [Ht|]; [|done]. injection Hp as <-.
  assert (Hs : 0 <= tag_of k / 256 <= kMaxSequenceNumber).
  { change kMaxSequenceNumber with 72057594037927935. split; [apply Z.div_pos; lia|]. apply Z.lt_succ_r, Z.div_lt_upper_bound; lia. }
  split; [unfold parsed_ok, kTypeValue; cbn [user_key sequence type_]; split; [by apply bytes_take|lia]|].
  change (AppendInternalKey _ _) with (ExtractUserKey k ++ EncodeFixed64 (PackSequenceAndType (tag_of k / 256) (tag_of k mod 256))).
  destruct (pack_range (tag_of k / 256) (tag_of k mod 256)) as [-> _]; [lia..|].
  rewrite E at 1. do 2 f_equal. lia.
Qed.

Lemma lookup_key_parts u s : len u < 2 ^ 32 - 8 -> 0 <= s <= kMaxSequenceNumber ->
  let k := NewLookupKey u s in
  internal_key k = internal u s kValueTypeForSeek /\ lookup_user_key k = u /\
  memtable_key k = PutLengthPrefixedSlice [] (internal_key k) /\ len (start_ k) <= LookupKey_needed u.
Proof.
  intros Hl Hs k. pose proof (len_nonneg u). set (tail := EncodeFixed64 (PackSequenceAndType s kValueTypeForSeek)).
  assert (Ht : length tail = 8%nat) by apply le_bytes_length.
  assert (Ei : internal_key k = u ++ tail) by (unfold internal_key; cbn; by rewrite drop_app_length).
  assert (Eu : u32 (u64 (len u + 8)) = len u + 8) by (rewrite u64_id, u32_id; lia).
  assert (Hlt : len tail = 8) by (unfold len; by rewrite Ht). split_and!.
  - done.
  - unfold lookup_user_key. cbn [k NewLookupKey start_ kstart_]. rewrite drop_app_length, !length_app.
    change (EncodeFixed64 _) with tail. apply take_app_exact. lia.
  - rewrite Ei. unfold memtable_key, PutLengthPrefixedSlice, PutVarint32. cbn [k NewLookupKey start_ app].
    rewrite Eu, len_app, Hlt, u32_id by lia. done.
  - cbn [k NewLookupKey start_]. unfold LookupKey_needed. rewrite Eu, !len_app. change (EncodeFixed64 _) with tail.
    rewrite Hlt, u64_id by lia. pose proof (EncodeVarint32_length (len u + 8) ltac:(lia)). lia.
Qed.

(** An internal key is parsed back to what it was made of, and only such keys are parsed; and
    the key for a lookup holds the greatest internal key not after the user key at that sequence
    number, once with and once without its length, within the bytes that were allocated for it. *)
Theorem internal_key_round_trip p k s : parsed_ok p -> Forall byte k -> 0 <= s <= kMaxSequenceNumber -> len (user_key p) < 2 ^ 32 - 8 ->
  ParseInternalKey (AppendInternalKey [] p) = Some p /\
  len (AppendInternalKey [] p) = InternalKeyEncodingLength p /\
  (forall q, ParseInternalKey k = Some q <-> parsed_ok q /\ k = AppendInternalKey [] q) /\
  let lk := NewLookupKey (user_key p) s in
  ParseInternalKey (internal_key lk) = Some {| user_key := user_key p; sequence := s; type_ := kValueTypeForSeek |} /\
  lookup_user_key lk = user_key p /\
  GetLengthPrefixedSlice (memtable_key lk) = (Some (internal_key lk), []) /\
  len (start_ lk) <= LookupKey_needed (user_key p).
Proof.
  intros Hp Hk Hs Hl. pose proof (len_nonneg (user_key p)). destruct (lookup_key_parts (user_key p) s Hl Hs) as (Ei & Eu & Em & Hn).
  assert (Hi : Forall byte (internal_key (NewLookupKey (user_key p) s))).
  { rewrite Ei. apply Forall_app. split; [apply Hp|apply le_bytes_byte]. }
  split_and!; [by apply parse_internal| | |cbv zeta; split_and!; [|done| |done]].
  - unfold InternalKeyEncodingLength. rewrite u64_id by lia. unfold AppendInternalKey, PutFixed64. cbn [app].
    by rewrite len_app, len_fixed64.
  - intros q. split; [by apply parse_internal_inv|]. intros [Hq ->]. by apply parse_internal.
  - rewrite Ei. apply parse_internal. split; [apply Hp|]. split; [done|by vm_compute].
  - rewrite Em. rewrite <- (app_nil_r (PutLengthPrefixedSlice _ _)). apply get_put_slice; [|done|constructor].
    rewrite Ei, internal_app, len_app. setoid_rewrite len_fixed64. lia.
Qed.

Lemma internal_key_round_trip_witness :
  let p := {| user_key := [7; 255]; sequence := 300; type_ := 0 |} in
  parsed_ok p /\ Forall byte [1; 2] /\ 0 <= 5 <= kMaxSequenceNumber /\ ParseInternalKey (AppendInternalKey [] p) = Some p.
Proof.
  intros p. assert (Hp : parsed_ok p) by (split; [bytes_lit|split; vm_compute; split; congruence]).
  assert (Hk : Forall byte [1; 2]) by bytes_lit. assert (Hs : 0 <= 5 <= kMaxSequenceNumber) by (vm_compute; split; congruence).
  split; [exact Hp|]. split; [exact Hk|]. split; [exact Hs|].
  apply (internal_key_round_trip p [1; 2] 5 Hp Hk Hs ltac:(reflexivity)).
Defined.
