(* ===== verification/Bloom.v ===== *)
(** LevelDB's bloom filter (leveldb-library/util/bloom.cc) and its hash (util/hash.cc). *)
From Stdlib Require Import String.
From S2P Require Import Prelude Coding DbFormat.

(** ** [Hash] *)

Definition hash_m : Z := 0xc6a4a793.

(** Four bytes at a time; what is left. *)
Fixpoint hash_loop (fuel : nat) (data : list Z) (h : Z) : list Z * Z :=
  match fuel with
  | O => (data, h)
  | S fuel =>
      if 4 <=? len data then
        let w := DecodeFixed32 data in
        let h := u32 (h + w) in
        let h := u32 (h * hash_m) in
        hash_loop fuel (drop 4 data) (h ^. (h >> 16))
      else (data, h)
  end.

Definition Hash (data : list Z) (seed : Z) : Z :=
  let h := u32 (seed ^. u64 (len data * hash_m)) in
  let '(data, h) := hash_loop (length data) data h in
  let h := if len data =? 3 then u32 (h + (nth 2 data 0 << 16)) else h in
  let h := if 2 <=? len data then u32 (h + (nth 1 data 0 << 8)) else h in
  if 1 <=? len data then
    let h := u32 (h + nth 0 data 0) in
    let h := u32 (h * hash_m) in
    h ^. (h >> 24)
  else h.

(** ** The filter *)

Definition BloomHash (key : list Z) : Z := Hash key 0xbc9f1d34.

(** [k_ = bits_per_key * 0.69], cut to [1, 30]; up to 43 bits, where it is not cut, no product is so
    near to a number that rounding matters. *)
Definition bloom_k (bits_per_key : Z) : Z :=
  let k := bits_per_key * 69 / 100 in
  if k <? 1 then 1 else if 30 <? k then 30 else k.

(** Rotate right 17 bits. *)
Definition bloom_delta (h : Z) : Z := (h >> 17) |. u32 (h << 15).

Definition set_bit (array : list Z) (bitpos : Z) : list Z :=
  let i := Z.to_nat (bitpos / 8) in <[i := u8 (nth i array 0 |. (1 << (bitpos mod 8)))]> array.
Definition bit_set (array : list Z) (bitpos : Z) : bool :=
  negb (nth (Z.to_nat (bitpos / 8)) array 0 &. (1 << (bitpos mod 8)) =? 0).

(** The inner loops, [k] rounds. *)
Fixpoint set_probes (k : nat) (bits h delta : Z) (array : list Z) : list Z :=
  match k with
  | O => array
  | S k => set_probes k bits (u32 (h + delta)) delta (set_bit array (h mod bits))
  end.
Fixpoint test_probes (k : nat) (bits h delta : Z) (array : list Z) : bool :=
  match k with
  | O => true
  | S k => if negb (bit_set array (h mod bits)) then false else test_probes k bits (u32 (h + delta)) delta array
  end.

Definition add_key (k : nat) (bits : Z) (array key : list Z) : list Z :=
  let h := BloomHash key in set_probes k bits h (bloom_delta h) array.

Definition Bloom_CreateFilter (bits_per_key : Z) (keys : list (list Z)) (dst : list Z) : list Z :=
  let k := bloom_k bits_per_key in
  let bits := u64 (len keys * bits_per_key) in
  let bits := if bits <? 64 then 64 else bits in
  let bytes := u64 (bits + 7) / 8 in
  let bits := u64 (bytes * 8) in
  dst ++ foldl (add_key (Z.to_nat k) bits) (replicate (Z.to_nat bytes) 0) keys ++ [u8 k].

(** The last byte, a [char], is how many probes there are. *)
Definition Bloom_KeyMayMatch (key bloom_filter : list Z) : bool :=
  let n := len bloom_filter in
  if n <? 2 then false
  else
    let bits := u64 ((n - 1) * 8) in
    let k := u64 (sint 8 (nth (Z.to_nat (n - 1)) bloom_filter 0)) in
    if 30 <? k then true
    else let h := BloomHash key in test_probes (Z.to_nat k) bits h (bloom_delta h) bloom_filter.

#[export] Instance BloomFilterPolicy (bits_per_key : Z) : FilterPolicy :=
  { FilterName := bytes_of "leveldb.BuiltinBloomFilter2"; CreateFilter := Bloom_CreateFilter bits_per_key; KeyMayMatch := Bloom_KeyMayMatch }.

(** The bloom filter has no false negatives: every key that was put into a filter may match. *)

(** The hash on the vectors of LevelDB's own test. *)
Example hash_vectors :
  (Hash [] 0xbc9f1d34, Hash [0x62] 0xbc9f1d34, Hash [0xc3; 0x97] 0xbc9f1d34, Hash [0xe2; 0x99; 0xa5] 0xbc9f1d34, Hash [0xe1; 0x80; 0xb9; 0x32] 0xbc9f1d34) =
  (0xbc9f1d34, 0xef1345c4, 0x5b663814, 0x323c078f, 0xed21633a).
Proof. vm_compute. reflexivity. Qed.

Lemma nth_insert_eq {A} i (x d : A) l : (i < length l)%nat -> nth i (<[i := x]> l) d = x.
Proof. intros H. apply nth_lookup_Some. by apply list_lookup_insert_eq. Qed.
Lemma nth_insert_ne {A} i j (x d : A) l : i <> j -> nth j (<[i := x]> l) d = nth j l d.
Proof. intros H. rewrite !nth_lookup. by rewrite list_lookup_insert_ne. Qed.
Lemma nth_byte i l : Forall byte l -> byte (nth i l 0).
Proof. intros H. rewrite nth_lookup. destruct (l !! i) as [b|] eqn:E; [by apply (Forall_lookup_1 _ _ _ _ H E)|done]. Qed.

(** An array of bits: bytes, of which [bits] positions are in it. *)
Definition bit_array (bits : Z) (array : list Z) : Prop := 0 < bits <= 8 * len array /\ Forall byte array.

Lemma bit_index bits array p : bit_array bits array -> (Z.to_nat ((p mod bits) / 8) < length array)%nat.
Proof.
  intros [[H0 Hb] _]. pose proof (Z.mod_pos_bound p bits H0). unfold len in Hb.
  assert (p mod bits / 8 < Z.of_nat (length array)) by (apply Z.div_lt_upper_bound; lia). assert (0 <= p mod bits / 8) by (apply Z.div_pos; lia). lia.
Qed.

Lemma bit_set_testbit array p : 0 <= p -> bit_set array p = Z.testbit (nth (Z.to_nat (p / 8)) array 0) (p mod 8).
Proof.
  intros Hp. unfold bit_set. set (a := nth _ array 0). pose proof (Z.mod_pos_bound p 8 ltac:(lia)). set (i := p mod 8) in *. clearbody a i.
  rewrite Z.shiftl_1_l. destruct (Z.testbit a i) eqn:E.
  - destruct (Z.eqb_spec (a &. 2 ^ i) 0) as [E0|]; [|done]. apply (f_equal (fun z => Z.testbit z i)) in E0.
    rewrite Z.land_spec, E, Z.pow2_bits_true, Z.bits_0 in E0 by lia. done.
  - assert (a &. 2 ^ i = 0) as ->; [|done]. apply Z.bits_inj'. intros n Hn. rewrite Z.land_spec, Z.bits_0.
    destruct (Z.eq_dec n i) as [->|Hne]; [by rewrite E|]. by rewrite Z.pow2_bits_false, andb_false_r by lia.
Qed.

Lemma set_bit_array bits array p : bit_array bits array -> bit_array bits (set_bit array p).
Proof.
  intros [Hb Hby]. unfold set_bit. split; [unfold len in *; by rewrite length_insert|]. apply Forall_insert; [done|]. apply u8_byte.
Qed.

(** Setting a bit sets it and leaves the others. *)
Lemma set_bit_spec bits array p q : bit_array bits array -> 0 <= p < bits -> 0 <= q < bits ->
  bit_set (set_bit array p) q = (p =? q) || bit_set array q.
Proof.
  intros Ha Hp Hq. rewrite !bit_set_testbit by lia. unfold set_bit. pose proof (bit_index bits array p Ha) as Hi. rewrite Z.mod_small in Hi by lia.
  pose proof (Z.mod_pos_bound p 8 ltac:(lia)). pose proof (Z.mod_pos_bound q 8 ltac:(lia)).
  pose proof (Z_div_mod_eq_full p 8). pose proof (Z_div_mod_eq_full q 8). assert (0 <= p / 8) by (apply Z.div_pos; lia). assert (0 <= q / 8) by (apply Z.div_pos; lia).
  destruct (Z.eq_dec (p / 8) (q / 8)) as [E|E].
  - rewrite <- E. rewrite nth_insert_eq by done. set (a := nth _ array 0). assert (Ha8 : byte a) by (apply nth_byte; apply Ha).
    unfold u8. rewrite Z.mod_pow2_bits_low, Z.lor_spec, Z.shiftl_1_l by lia. rewrite orb_comm. f_equal.
    destruct (Z.eqb_spec p q) as [->|Hne]; [by rewrite Z.pow2_bits_true by lia|]. rewrite Z.pow2_bits_false by lia. done.
  - rewrite nth_insert_ne by lia. destruct (Z.eqb_spec p q) as [->|]; [congruence|done].
Qed.

(** ** Probes *)

Lemma u32_range x : 0 <= u32 x < 2 ^ 32.
Proof. apply Z.mod_pos_bound. done. Qed.

Lemma set_probes_array k bits h delta array : bit_array bits array -> bit_array bits (set_probes k bits h delta array).
Proof. revert h array. induction k as [|k IH]; intros h array Ha; [done|]. cbn. by apply IH, set_bit_array. Qed.

Lemma length_set_probes k bits h delta array : length (set_probes k bits h delta array) = length array.
Proof. revert h array. induction k as [|k IH]; intros h array; [done|]. cbn. rewrite IH. unfold set_bit. by rewrite length_insert. Qed.

Lemma set_probes_keeps k bits h delta array q : bit_array bits array -> 0 <= q < bits -> bit_set array q = true ->
  bit_set (set_probes k bits h delta array) q = true.
Proof.
  revert h array. induction k as [|k IH]; intros h array Ha Hq Hs; [done|]. cbn. pose proof Ha as [[H0 _] _]. pose proof (Z.mod_pos_bound h bits H0).
  apply IH; [by apply set_bit_array|done|]. by rewrite (set_bit_spec bits), Hs, orb_true_r.
Qed.

Lemma test_probes_mono k bits h delta array array' : 0 < bits -> (forall q, 0 <= q < bits -> bit_set array q = true -> bit_set array' q = true) ->
  test_probes k bits h delta array = true -> test_probes k bits h delta array' = true.
Proof.
  intros H0 Hm. revert h. induction k as [|k IH]; intros h; [done|]. cbn. pose proof (Z.mod_pos_bound h bits H0).
  destruct (bit_set array (h mod bits)) eqn:E; cbn [negb]; [|done]. rewrite (Hm (h mod bits)) by done. cbn [negb]. apply IH.
Qed.

(** The probes that were set are found. *)
Lemma set_test_probes k bits h delta array : bit_array bits array -> test_probes k bits h delta (set_probes k bits h delta array) = true.
Proof.
  revert h array. induction k as [|k IH]; intros h array Ha; [done|]. cbn. pose proof Ha as [[H0 _] _]. pose proof (Z.mod_pos_bound h bits H0) as Hh.
  pose proof (set_bit_array _ _ (h mod bits) Ha) as Ha'.
  rewrite (set_probes_keeps k bits _ _ _ (h mod bits) Ha' Hh); [cbn [negb]; by apply IH|].
  by rewrite (set_bit_spec bits), Z.eqb_refl by done.
Qed.

(** Keys that are added keep what was there. *)
Lemma add_keys_spec k bits keys array : bit_array bits array ->
  bit_array bits (foldl (add_key k bits) array keys) /\ length (foldl (add_key k bits) array keys) = length array /\
  (forall q, 0 <= q < bits -> bit_set array q = true -> bit_set (foldl (add_key k bits) array keys) q = true) /\
  forall key, key ∈ keys -> test_probes k bits (BloomHash key) (bloom_delta (BloomHash key)) (foldl (add_key k bits) array keys) = true.
Proof.
  revert array. induction keys as [|key keys IH]; intros array Ha; cbn [foldl].
  - split_and!; try done. intros key Hk. by apply elem_of_nil in Hk.
  - unfold add_key at 2 4 6 8. set (h := BloomHash key). set (d := bloom_delta h). pose proof (set_probes_array k bits h d array Ha) as Ha'.
    destruct (IH _ Ha') as (H1 & H2 & H3 & H4). split; [done|]. split; [by rewrite H2, length_set_probes|]. split.
    + intros q Hq Hs. apply H3; [done|]. by apply set_probes_keeps.
    + intros key' [->|Hin]%elem_of_cons; [|by apply H4]. eapply test_probes_mono; [apply Ha|exact H3|]. by apply set_test_probes.
Qed.

Lemma test_probes_app k bits h delta array rest : bit_array bits array ->
  test_probes k bits h delta (array ++ rest) = test_probes k bits h delta array.
Proof.
  intros Ha. revert h. induction k as [|k IH]; intros h; [done|]. cbn. rewrite IH. unfold bit_set at 1. rewrite app_nth1; [done|]. by apply (bit_index bits).
Qed.

(** The filter, whatever it is appended to. *)
Lemma bloom_filter_spec bits_per_key keys : 0 <= bits_per_key -> len keys * bits_per_key < 2 ^ 60 ->
  exists filter, Forall byte filter /\ (forall dst, Bloom_CreateFilter bits_per_key keys dst = dst ++ filter) /\
    (forall key, key ∈ keys -> Bloom_KeyMayMatch key filter = true) /\ len filter = (Z.max 64 (len keys * bits_per_key) + 7) / 8 + 1.
Proof.
  intros Hb Hn. pose proof (len_nonneg keys). unfold Bloom_CreateFilter. set (n := len keys * bits_per_key) in *. assert (0 <= n) by (unfold n; lia).
  rewrite (u64_id n) by lia. set (bits0 := if n <? 64 then 64 else n). assert (Hb0 : bits0 = Z.max 64 n) by (unfold bits0; destruct (Z.ltb_spec n 64); lia).
  rewrite (u64_id (bits0 + 7)) by lia. set (bytes := (bits0 + 7) / 8). assert (Hbytes : 8 <= bytes < 2 ^ 58) by (unfold bytes; Z.div_mod_to_equations; lia).
  rewrite (u64_id (bytes * 8)) by lia. set (k := bloom_k bits_per_key). assert (Hk : 1 <= k <= 30).
  { unfold k, bloom_k. destruct (Z.ltb_spec (bits_per_key * 69 / 100) 1), (Z.ltb_spec 30 (bits_per_key * 69 / 100)); lia. }
  set (zeros := replicate (Z.to_nat bytes) 0). assert (Hz : bit_array (bytes * 8) zeros).
  { unfold zeros. split; [rewrite len_replicate; lia|]. apply Forall_replicate. done. }
  destruct (add_keys_spec (Z.to_nat k) (bytes * 8) keys zeros Hz) as (Ha & Hlen & _ & Htest). set (array := foldl _ zeros keys) in *.
  assert (Hla : len array = bytes) by (unfold len; rewrite Hlen; unfold zeros; rewrite length_replicate; lia).
  exists (array ++ [u8 k]). split; [apply Forall_app; split; [apply Ha|constructor; [apply u8_byte|constructor]]|]. split; [done|]. split.
  - intros key Hin. unfold Bloom_KeyMayMatch. rewrite len_app, Hla, len_cons, (@len_nil Z). rewrite (proj2 (Z.ltb_ge _ _)) by lia.
    replace (bytes + (1 + 0) - 1) with bytes by lia. assert (Hat : nth (Z.to_nat bytes) (array ++ [u8 k]) 0 = k).
    { rewrite app_nth2 by (unfold len in Hla; lia). replace (Z.to_nat bytes - length array)%nat with 0%nat by (unfold len in Hla; lia). cbn. apply u8_id. unfold byte. lia. }
    rewrite Hat. assert (Hs : sint 8 k = k) by (unfold sint; rewrite (proj2 (Z.ltb_lt _ _)) by (cbn; lia); done). rewrite Hs, !u64_id, (proj2 (Z.ltb_ge _ _)) by lia.
    rewrite test_probes_app by done. by apply Htest.
  - rewrite len_app, Hla, len_cons, (@len_nil Z). unfold bytes. rewrite Hb0. lia.
Qed.

(** It is a policy as the interface promises, and so is the policy on internal keys made of another. *)
#[export] Program Instance bloom_laws bits_per_key (Hb : 0 <= bits_per_key < 2 ^ 29) : FilterPolicyLaws (BloomFilterPolicy bits_per_key) := { filter_key k := k }.
Next Obligation. intros bits _. apply bytes_of_byte. Qed.
Next Obligation.
  intros bits Hb keys Hn. pose proof (len_nonneg keys). destruct (bloom_filter_spec bits keys) as (f & H1 & H2 & H3 & _); [lia|nia|].
  exists f. split; [done|]. split; [done|]. intros key. rewrite map_id. apply H3.
Qed.

#[export] Program Instance internal_policy_laws P (L : FilterPolicyLaws P) : FilterPolicyLaws (InternalFilterPolicy P) := { filter_key k := filter_key (ExtractUserKey k) }.
Next Obligation. intros P L. exact (@filter_name_bytes P L). Qed.
Next Obligation.
  intros P L keys Hn. destruct (create_filter_spec (map ExtractUserKey keys)) as (f & H1 & H2 & H3); [by rewrite len_map|].
  exists f. split; [done|]. split; [done|]. intros key Hin. apply H3. by rewrite map_map.
Qed.

(** C36: A bloom filter answers that a key may match for every key it was made of, whatever the
    number of bits for a key, also when the reader was made with another number; it is appended to what
    the string held, and has a byte for eight bits and one for the number of probes.  The same holds
    of the filter on internal keys (of 8 bytes or more, as is asserted), for their user keys. *)
Theorem bloom_no_false_negative bits_per_key keys dst key : 0 <= bits_per_key -> len keys * bits_per_key < 2 ^ 60 -> key ∈ keys ->
  exists filter, Bloom_CreateFilter bits_per_key keys dst = dst ++ filter /\ Bloom_KeyMayMatch key filter = true /\
    len filter = (Z.max 64 (len keys * bits_per_key) + 7) / 8 + 1 /\
    forall ikeys ikey other, Forall (fun k => 8 <= len k) ikeys -> ikey ∈ ikeys -> map ExtractUserKey ikeys = keys ->
      @KeyMayMatch (InternalFilterPolicy (BloomFilterPolicy other)) ikey filter = true.
Proof.
  intros Hb Hn Hin. destruct (bloom_filter_spec bits_per_key keys Hb Hn) as (filter & _ & H1 & H2 & H3). exists filter. split; [done|]. split; [by apply H2|]. split; [done|].
  intros ikeys ikey other _ Hik <-. cbn. by apply H2, list_elem_of_fmap_2.
Qed.

Lemma bloom_no_false_negative_witness :
  let keys := [[104; 105]; [1; 2; 3; 4]; []] in
  let ikeys := map (fun u => u ++ [1; 7; 0; 0; 0; 0; 0; 0]) keys in
  exists filter, Bloom_CreateFilter 10 keys [7] = [7] ++ filter /\ Bloom_KeyMayMatch [1; 2; 3; 4] filter = true /\
    @KeyMayMatch (InternalFilterPolicy (BloomFilterPolicy 3)) [1; 2; 3; 4; 1; 7; 0; 0; 0; 0; 0; 0] filter = true.
Proof.
  intros keys ikeys. assert (Hin : [1; 2; 3; 4] ∈ keys) by (right; left).
  destruct (bloom_no_false_negative 10 keys [7] [1; 2; 3; 4] ltac:(lia) ltac:(vm_compute; reflexivity) Hin) as (filter & H1 & H2 & _ & H3).
  exists filter. split; [exact H1|]. split; [exact H2|]. apply (H3 ikeys); [|right; left|reflexivity].
  unfold ikeys, keys. cbn [map app]. repeat (apply List.Forall_cons; [vm_compute; discriminate|]). apply List.Forall_nil.
Defined.
