(* ===== verification/WriteBatch.v ===== *)
(** LevelDB's batches of updates (leveldb-library/db/write_batch.cc, write_batch_internal.h), which
    are the records of its log.

    A [WriteBatch] is its [rep_]: a sequence number in 8 bytes, a count in 4, and the updates. *)
From Stdlib Require Import String.
From S2P Require Import Prelude PbIstream Coding Status DbFormat.

Definition kHeader : Z := 12.

(** [WriteBatch::Handler]: what it does to its own state. *)
Class Handler (H : Type) := {
  handle_put : list Z -> list Z -> H -> H;
  handle_delete : list Z -> H -> H
}.

Definition Clear : list Z := replicate (Z.to_nat kHeader) 0.

(** An [int]. *)
Definition Count (rep : list Z) : Z := sint 32 (DecodeFixed32 (drop 8 rep)).
Definition SetCount (n : Z) (rep : list Z) : list Z := take 8 rep ++ EncodeFixed32 n ++ drop 12 rep.
Definition Sequence (rep : list Z) : Z := DecodeFixed64 rep.
Definition SetSequence (seq : Z) (rep : list Z) : list Z := EncodeFixed64 seq ++ drop 8 rep.
Definition Contents (rep : list Z) : list Z := rep.
Definition ByteSize (rep : list Z) : Z := len rep.
Definition SetContents (contents : list Z) : list Z := contents.

Definition Put (key value : list Z) (rep : list Z) : list Z :=
  let rep := SetCount (Count rep + 1) rep in
  let rep := rep ++ [kTypeValue] in
  let rep := PutLengthPrefixedSlice rep key in
  PutLengthPrefixedSlice rep value.

Definition Delete (key : list Z) (rep : list Z) : list Z :=
  let rep := SetCount (Count rep + 1) rep in
  let rep := rep ++ [kTypeDeletion] in
  PutLengthPrefixedSlice rep key.

Definition Batch_Append (dst src : list Z) : list Z :=
  SetCount (Count dst + Count src) dst ++ drop (Z.to_nat kHeader) src.

(** A value in an [int]. *)
Definition int32 (x : Z) : Z := sint 32 (x mod 2 ^ 32).

Section iterate.
Context {H : Type} {HH : Handler H}.

(** [while (!input.empty())]: an error, or how many updates were found, in an [int], which wraps here after
  2^31 - 1 updates; the overflow is undefined in the code. *)
Fixpoint iterate_loop (fuel : nat) (found : Z) (input : list Z) : D H (Status + Z) :=
  match fuel with
  | O => running
  | S fuel =>
      match input with
      | [] => dret (inr found)
      | tag :: input =>
          let found := int32 (found + 1) in
          if tag =? kTypeValue then
            match (let* key := GetLengthPrefixedSlice in let* value := GetLengthPrefixedSlice in ret (key, value)) input with
            | (Some (key, value), input) =>
                let! _ := dmodify (handle_put key value) in
                iterate_loop fuel found input
            | (None, _) => dret (inl (Status_Corruption (bytes_of "bad WriteBatch Put") []))
            end
          else if tag =? kTypeDeletion then
            match GetLengthPrefixedSlice input with
            | (Some key, input) =>
                let! _ := dmodify (handle_delete key) in
                iterate_loop fuel found input
            | (None, _) => dret (inl (Status_Corruption (bytes_of "bad WriteBatch Delete") []))
            end
          else dret (inl (Status_Corruption (bytes_of "unknown WriteBatch tag") []))
      end
  end.

Definition Iterate (rep : list Z) : D H Status :=
  if len rep <? kHeader then dret (Status_Corruption (bytes_of "malformed WriteBatch (too small)") [])
  else
    let input := drop (Z.to_nat kHeader) rep in
    let! r := iterate_loop (S (length input)) 0 input in
    match r with
    | inl s => dret s
    | inr found =>
        if negb (found =? Count rep) then dret (Status_Corruption (bytes_of "WriteBatch has wrong count") [])
        else dret Status_OK
    end.
End iterate.

(** [MemTable::Add(sequence, type, key, value)], for the table the updates go to. *)
Class MemTable (T : Type) := { Add : Z -> Z -> list Z -> list Z -> T -> T }.

Section insert.
Context {T : Type} {MT : MemTable T}.

Record MemTableInserter := { sequence_ : Z; mem_ : T }.
Definition MemTableInserter_Put (key value : list Z) (i : MemTableInserter) : MemTableInserter :=
  {| sequence_ := u64 (sequence_ i + 1); mem_ := Add (sequence_ i) kTypeValue key value (mem_ i) |}.
Definition MemTableInserter_Delete (key : list Z) (i : MemTableInserter) : MemTableInserter :=
  {| sequence_ := u64 (sequence_ i + 1); mem_ := Add (sequence_ i) kTypeDeletion key [] (mem_ i) |}.
#[export] Instance inserter : Handler MemTableInserter :=
  { handle_put := MemTableInserter_Put; handle_delete := MemTableInserter_Delete }.

Definition InsertInto (rep : list Z) : D T Status := fun memtable =>
  match Iterate rep {| sequence_ := Sequence rep; mem_ := memtable |} with
  | Some (s, i) => Some (s, mem_ i)
  | None => None
  end.
End insert.

(** Batches: replaying one gives the updates that were put into it, and what [Iterate] does on any
    bytes. *)

Inductive update := UPut (key value : list Z) | UDelete (key : list Z).

(** A string with its length before it, and the updates of a batch. *)
Definition slice_bytes (s b : list Z) : Prop :=
  exists code, b = code ++ s /\ varint_bytes code /\ len code <= 5 /\ len s = varint_value code mod 2 ^ 32.
Inductive updates_bytes : list update -> list Z -> Prop :=
  | updates_nil : updates_bytes [] []
  | updates_put key value us kb vb b : slice_bytes key kb -> slice_bytes value vb -> updates_bytes us b ->
      updates_bytes (UPut key value :: us) (kTypeValue :: kb ++ vb ++ b)
  | updates_delete key us kb b : slice_bytes key kb -> updates_bytes us b ->
      updates_bytes (UDelete key :: us) (kTypeDeletion :: kb ++ b).
Create HintDb batch.
#[export] Hint Constructors updates_bytes : batch.

Lemma updates_bytes_app us us' b b' : updates_bytes us b -> updates_bytes us' b' -> updates_bytes (us ++ us') (b ++ b').
Proof.
  induction 1; intros H'; [done| |]; cbn [app]; rewrite <- !app_assoc; eauto with batch.
Qed.

Lemma get_slice_spec input s rest : Forall byte input ->
  GetLengthPrefixedSlice input = (Some s, rest) <-> exists b, input = b ++ rest /\ slice_bytes s b.
Proof.
  intros Hin. unfold GetLengthPrefixedSlice, bind, get_state, put_state, ret, fail. split.
  - destruct (GetVarint32 input) as [[n|] q] eqn:E; [|done]. apply GetVarint32_spec in E as (code & -> & Hc & Hl & Hn); [|done].
    pose proof (Z.mod_pos_bound (varint_value code) (2 ^ 32) ltac:(lia)). destruct (Z.leb_spec n (len q)); [|done].
    intros [= <- <-]. exists (code ++ take (Z.to_nat n) q). rewrite <- app_assoc, take_drop. split; [done|]. exists code.
    split_and!; try done. rewrite len_take. lia.
  - intros (b & -> & code & -> & Hc & Hl & Hs). rewrite <- app_assoc in *.
    assert (E : GetVarint32 (code ++ s ++ rest) = (Some (len s), s ++ rest)) by (apply GetVarint32_spec; [done|]; by exists code).
    rewrite E, len_app. pose proof (len_nonneg rest). rewrite (proj2 (Z.leb_le _ _)) by lia.
    by rewrite len_to_nat, take_app_length, drop_app_length.
Qed.

Lemma int32_id x : 0 <= x < 2 ^ 31 -> int32 x = x.
Proof. intros Hx. unfold int32, sint. rewrite Z.mod_small by lia. rewrite (proj2 (Z.ltb_lt _ _)) by lia. done. Qed.

Lemma int32_add x y : int32 (int32 x + y) = int32 (x + y).
Proof.
  unfold int32. f_equal. unfold sint. destruct (_ <? _).
  - by rewrite Zplus_mod_idemp_l.
  - replace (x mod 2 ^ 32 - 2 ^ 32 + y) with (x mod 2 ^ 32 + y + (-1) * 2 ^ 32) by lia.
    by rewrite Z.mod_add, Zplus_mod_idemp_l by lia.
Qed.

Section iterate.
Context {H : Type} {HH : Handler H}.
Implicit Types h : H.

Definition apply_update (h : H) (u : update) : H :=
  match u with UPut key value => handle_put key value h | UDelete key => handle_delete key h end.
Definition apply_updates (us : list update) (h : H) : H := fold_left apply_update us h.

Lemma iterate_loop_updates us b : updates_bytes us b -> forall fuel found h, Forall byte b -> (length b < fuel)%nat ->
  iterate_loop fuel (int32 found) b h = Some (inr (int32 (found + len us)), apply_updates us h).
Proof.
  induction 1 as [|key value us kb vb b Hk Hv Hb IH|key us kb b Hk Hb IH]; intros [|fuel] found h Hbytes Hf; try (cbn in Hf; lia); cbn [iterate_loop].
  - rewrite (@len_nil update), Z.add_0_r. done.
  - apply Forall_cons in Hbytes as [_ Hbytes]. change (kTypeValue =? kTypeValue) with true. cbv iota. unfold bind.
    rewrite (proj2 (get_slice_spec _ key (vb ++ b) Hbytes)) by (by exists kb). apply Forall_app in Hbytes as [_ Hbytes].
    rewrite (proj2 (get_slice_spec _ value b Hbytes)) by (by exists vb). apply Forall_app in Hbytes as [_ Hbytes].
    unfold ret, dbind, dmodify. rewrite int32_add, IH by (done || (cbn [length] in Hf; rewrite !length_app in Hf; lia)).
    rewrite len_cons. do 4 f_equal. lia.
  - apply Forall_cons in Hbytes as [_ Hbytes]. change (kTypeDeletion =? kTypeValue) with false. change (kTypeDeletion =? kTypeDeletion) with true. cbv iota.
    rewrite (proj2 (get_slice_spec _ key b Hbytes)) by (by exists kb). apply Forall_app in Hbytes as [_ Hbytes].
    unfold dbind, dmodify. rewrite int32_add, IH by (done || (cbn [length] in Hf; rewrite length_app in Hf; lia)).
    rewrite len_cons. do 4 f_equal. lia.
Qed.

(** On any bytes the handler gets the updates in front of what cannot be read. *)
Lemma iterate_loop_any fuel found input h : Forall byte input -> (length input < fuel)%nat ->
  exists r us b rest, iterate_loop fuel (int32 found) input h = Some (r, apply_updates us h) /\ input = b ++ rest /\ updates_bytes us b /\
    match r with inr n => rest = [] /\ n = int32 (found + len us) | inl s => ok s = false end.
Proof.
  revert found input h. induction fuel as [|fuel IH]; intros found input h Hin Hf; [lia|]. cbn [iterate_loop].
  destruct Hin as [|tag input Ht Hin].
  { exists (inr (int32 found)), [], [], []. split; [done|]. split; [done|]. split; [constructor|]. split; [done|]. by rewrite (@len_nil update), Z.add_0_r. }
  assert (Hfail : forall s, ok s = false -> exists r us b rest, dret (inl s) h = Some (r, apply_updates us h) /\ tag :: input = b ++ rest /\
    updates_bytes us b /\ match r with inr n => rest = [] /\ n = int32 (found + len us) | inl s => ok s = false end).
  { intros s Hs. exists (inl s), [], [], (tag :: input). split; [done|]. split; [done|]. split; [constructor|done]. }
  destruct (Z.eqb_spec tag kTypeValue) as [->|_]; [|destruct (Z.eqb_spec tag kTypeDeletion) as [->|_]; [|by apply Hfail]].
  - unfold bind. destruct (GetLengthPrefixedSlice input) as [[key|] q] eqn:E1; [|by apply Hfail].
    apply get_slice_spec in E1 as (kb & -> & Hk); [|done]. apply Forall_app in Hin as [_ Hin].
    destruct (GetLengthPrefixedSlice q) as [[value|] q'] eqn:E2; [|by apply Hfail].
    apply get_slice_spec in E2 as (vb & -> & Hv); [|done]. apply Forall_app in Hin as [_ Hin]. unfold ret, dbind, dmodify. rewrite int32_add.
    destruct (IH (found + 1) q' (handle_put key value h) Hin) as (r & us & b & rest & E & -> & Hus & Hr);
      [cbn [length] in Hf; rewrite !length_app in Hf; lia|].
    exists r, (UPut key value :: us), (kTypeValue :: kb ++ vb ++ b), rest. split; [exact E|]. split; [cbn [app]; by rewrite <- !app_assoc|].
    split; [eauto with batch|]. destruct r; [done|]. rewrite len_cons. split; [tauto|]. destruct Hr as [_ ->]. f_equal. lia.
  - destruct (GetLengthPrefixedSlice input) as [[key|] q] eqn:E1; [|by apply Hfail].
    apply get_slice_spec in E1 as (kb & -> & Hk); [|done]. apply Forall_app in Hin as [_ Hin]. unfold dbind, dmodify. rewrite int32_add.
    destruct (IH (found + 1) q (handle_delete key h) Hin) as (r & us & b & rest & E & -> & Hus & Hr);
      [cbn [length] in Hf; rewrite length_app in Hf; lia|].
    exists r, (UDelete key :: us), (kTypeDeletion :: kb ++ b), rest. split; [exact E|]. split; [cbn [app]; by rewrite <- app_assoc|].
    split; [eauto with batch|]. destruct r; [done|]. rewrite len_cons. split; [tauto|]. destruct Hr as [_ ->]. f_equal. lia.
Qed.

(** [Iterate] on any bytes: it returns; it returns OK exactly on a header followed by updates, as
    many as the header counts, and the handler then has seen those, in order; when it returns an
    error the handler may have seen the updates in front of the error. *)
Theorem write_batch_iterate_exact rep h : Forall byte rep ->
  exists s us b rest, Iterate rep h = Some (s, apply_updates us h) /\ drop 12 rep = b ++ rest /\ updates_bytes us b /\
    (ok s = true <-> 12 <= len rep /\ rest = [] /\ Count rep = int32 (len us)) /\
    (forall us', 12 <= len rep -> updates_bytes us' (drop 12 rep) -> Count rep = int32 (len us') -> s = Status_OK /\ apply_updates us h = apply_updates us' h).
Proof.
  intros Hb. unfold Iterate, kHeader. destruct (Z.ltb_spec (len rep) 12) as [Hl|Hl].
  { eexists _, [], [], (drop 12 rep). split_and!; [done|done|constructor|split; [done|lia]|lia]. }
  change (Z.to_nat 12) with 12%nat. unfold dbind.
  destruct (iterate_loop_any (S (length (drop 12 rep))) 0 (drop 12 rep) h) as (r & us & b & rest & E & Eb & Hus & Hr); [by apply bytes_drop|lia|].
  change (int32 0) with 0 in *. rewrite E. assert (Hex : forall us', updates_bytes us' (drop 12 rep) -> r = inr (int32 (len us')) /\ apply_updates us h = apply_updates us' h).
  { intros us' Hus'. change 0 with (int32 0) in E. rewrite (iterate_loop_updates us' _ Hus') in E by (by apply bytes_drop || lia). by injection E. }
  destruct r as [s|found].
  - exists s, us, b, rest. split_and!; try done.
    + split; [congruence|]. intros (_ & -> & _). rewrite app_nil_r in Eb. rewrite <- Eb in Hus. by apply Hex in Hus as [? _].
    + intros us' _ Hus' _. by apply Hex in Hus' as [? _].
  - destruct Hr as [-> ->]. rewrite Z.add_0_l in *. destruct (Z.eqb_spec (int32 (len us)) (Count rep)) as [Ec|Ec]; cbn [negb].
    + exists Status_OK, us, b, []. split_and!; try done. intros us' _ Hus' _. split; [done|]. by apply Hex.
    + eexists _, us, b, []. split_and!; try done; [by split; [|intros (_ & _ & ?)]|].
      intros us' _ Hus' Hc. apply Hex in Hus' as [[= E'] _]. congruence.
Qed.
End iterate.

Lemma write_batch_iterate_exact_witness :
  let rep := Delete [9] (Put [1] [2; 3] Clear) in
  Forall byte rep /\ exists s us b rest,
    Iterate (HH := {| handle_put := fun k v l => l ++ [UPut k v]; handle_delete := fun k l => l ++ [UDelete k] |}) rep [] =
      Some (s, apply_updates (HH := {| handle_put := fun k v l => l ++ [UPut k v]; handle_delete := fun k l => l ++ [UDelete k] |}) us []) /\
    drop 12 rep = b ++ rest /\ updates_bytes us b.
Proof.
  intros rep. assert (Hb : Forall byte rep) by (vm_compute; repeat (apply List.Forall_cons; [split; congruence|]); apply List.Forall_nil).
  split; [exact Hb|]. destruct (write_batch_iterate_exact
    (HH := {| handle_put := fun k v l => l ++ [UPut k v]; handle_delete := fun k l => l ++ [UDelete k] |}) rep [] Hb)
    as (s & us & b & rest & E & Eb & Hus & _). exists s, us, b, rest. split; [exact E|]. split; [exact Eb|exact Hus].
Defined.

(** ** Batches that were built *)

Definition update_ok (u : update) : Prop :=
  match u with
  | UPut key value => Forall byte key /\ Forall byte value /\ len key < 2 ^ 32 /\ len value < 2 ^ 32
  | UDelete key => Forall byte key /\ len key < 2 ^ 32
  end.
Definition add_update (rep : list Z) (u : update) : list Z :=
  match u with UPut key value => Put key value rep | UDelete key => Delete key rep end.
Definition build (us : list update) : list Z := fold_left add_update us Clear.

(** A batch with a sequence number and updates. *)
Definition batch (rep : list Z) (seq : Z) (us : list update) : Prop :=
  exists b, rep = le_bytes 8 seq ++ le_bytes 4 (len us) ++ b /\ updates_bytes us b /\ Forall byte b.

Lemma header_take (a b c : list Z) : length a = 8%nat -> length b = 4%nat ->
  take 8 (a ++ b ++ c) = a /\ drop 8 (a ++ b ++ c) = b ++ c /\ drop 12 (a ++ b ++ c) = c.
Proof.
  intros Ha Hb. split_and!; [by apply take_app_exact|by apply drop_app_exact|]. rewrite app_assoc. apply drop_app_exact. rewrite length_app. lia.
Qed.

Lemma batch_parts rep seq us : batch rep seq us -> 0 <= seq < 2 ^ 64 -> len us < 2 ^ 31 ->
  Count rep = len us /\ Sequence rep = seq /\ 12 <= len rep /\ updates_bytes us (drop 12 rep) /\ Forall byte rep.
Proof.
  intros (b & -> & Hus & Hb) Hseq Hn. pose proof (len_nonneg us). pose proof (len_nonneg b).
  destruct (header_take (le_bytes 8 seq) (le_bytes 4 (len us)) b) as (H8 & Hd8 & Hd12); [apply le_bytes_length..|].
  unfold Count, Sequence, DecodeFixed32, DecodeFixed64. rewrite H8, Hd8, Hd12.
  rewrite take_app_exact by (by rewrite le_bytes_length). rewrite !le_value_bytes by (cbn [Z.of_nat Z.pow] in *; lia).
  split_and!; [| |unfold len; rewrite !length_app, !le_bytes_length; lia|done|].
  - unfold sint. rewrite (proj2 (Z.ltb_lt _ _)) by lia. done.
  - done.
  - repeat (apply Forall_app; split); auto with bytes.
Qed.

Lemma SetCount_batch n rep seq (us : list update) b : rep = le_bytes 8 seq ++ le_bytes 4 (len us) ++ b -> SetCount n rep = le_bytes 8 seq ++ le_bytes 4 n ++ b.
Proof.
  intros ->. destruct (header_take (le_bytes 8 seq) (le_bytes 4 (len us)) b) as (H8 & Hd8 & Hd12); [apply le_bytes_length..|].
  unfold SetCount. by rewrite H8, Hd12.
Qed.

Lemma put_slice_bytes dst s : Forall byte s -> len s < 2 ^ 32 ->
  exists b, PutLengthPrefixedSlice dst s = dst ++ b /\ slice_bytes s b /\ Forall byte b.
Proof.
  intros Hs Hl. pose proof (len_nonneg s). exists (EncodeVarint32 (len s) ++ s). unfold PutLengthPrefixedSlice, PutVarint32.
  rewrite u32_id, <- app_assoc by lia. split; [done|].
  destruct (EncodeVarint64_spec (len s)) as (Hv & Hval & _); [lia|]. rewrite <- EncodeVarint32_64 in * by lia.
  split; [|apply Forall_app; split; [by apply varint_bytes_byte|done]].
  exists (EncodeVarint32 (len s)). split_and!; try done; [by apply EncodeVarint32_length|]. by rewrite Hval, Z.mod_small by lia.
Qed.

Lemma add_update_batch rep seq us u : batch rep seq us -> 0 <= seq < 2 ^ 64 -> len us < 2 ^ 31 - 1 -> update_ok u -> batch (add_update rep u) seq (us ++ [u]).
Proof.
  intros Hbt Hseq Hn Hu. destruct (batch_parts _ _ _ Hbt Hseq ltac:(lia)) as (Hc & _). destruct Hbt as (b & Erep & Hus & Hb).
  assert (En : len (us ++ [u]) = len us + 1) by (by rewrite len_app).
  destruct u as [key value|key]; cbn [add_update update_ok] in *; [unfold Put|unfold Delete]; rewrite Hc, (SetCount_batch _ _ _ _ _ Erep), <- En.
  - destruct Hu as (Hk & Hv & Hlk & Hlv).
    destruct (put_slice_bytes ((le_bytes 8 seq ++ le_bytes 4 (len (us ++ [UPut key value])) ++ b) ++ [kTypeValue]) key Hk Hlk) as (kb & -> & Hkb & Hkbb).
    match goal with |- context [PutLengthPrefixedSlice ?d value] => destruct (put_slice_bytes d value Hv Hlv) as (vb & -> & Hvb & Hvbb) end.
    exists (b ++ kTypeValue :: kb ++ vb). split; [by rewrite <- !app_assoc|]. split.
    + apply updates_bytes_app; [done|]. rewrite <- (app_nil_r vb). eauto with batch.
    + repeat (apply Forall_app; split); try done. apply Forall_cons. split; [done|]. by apply Forall_app.
  - destruct Hu as (Hk & Hlk).
    match goal with |- context [PutLengthPrefixedSlice ?d key] => destruct (put_slice_bytes d key Hk Hlk) as (kb & -> & Hkb & Hkbb) end.
    exists (b ++ kTypeDeletion :: kb). split; [by rewrite <- !app_assoc|]. split.
    + apply updates_bytes_app; [done|]. rewrite <- (app_nil_r kb). eauto with batch.
    + apply Forall_app. split; [done|]. by apply Forall_cons.
Qed.

Lemma build_batch us : Forall update_ok us -> len us < 2 ^ 31 -> batch (build us) 0 us.
Proof.
  unfold build. intros Hus Hn. induction us as [|u us IH] using rev_ind; [exists []; split; [done|]; split; [constructor|by constructor]|].
  rewrite fold_left_app. rewrite len_app, len_cons in Hn. apply Forall_app in Hus as [Hus Hu]. apply Forall_cons in Hu as [Hu _].
  rewrite (@len_nil update) in Hn. apply add_update_batch; [apply IH; [done|lia]|lia|lia|done].
Qed.

Lemma SetSequence_batch seq rep seq' us : batch rep seq' us -> batch (SetSequence seq rep) seq us.
Proof.
  intros (b & -> & Hus). exists b. split; [|done]. unfold SetSequence.
  destruct (header_take (le_bytes 8 seq') (le_bytes 4 (len us)) b) as (_ & -> & _); [apply le_bytes_length..|]. done.
Qed.

Lemma Append_batch rep seq us rep' seq' us' : batch rep seq us -> batch rep' seq' us' -> 0 <= seq < 2 ^ 64 -> 0 <= seq' < 2 ^ 64 ->
  len us < 2 ^ 31 -> len us' < 2 ^ 31 -> batch (Batch_Append rep rep') seq (us ++ us').
Proof.
  intros H H' Hseq Hseq' Hn Hn'. destruct (batch_parts _ _ _ H Hseq Hn) as (Hc & _). destruct (batch_parts _ _ _ H' Hseq' Hn') as (Hc' & _).
  destruct H as (b & Erep & Hus & Hb), H' as (b' & Erep' & Hus' & Hb').
  unfold Batch_Append. rewrite Hc, Hc', (SetCount_batch _ _ _ _ _ Erep), Erep', <- len_app. change (Z.to_nat kHeader) with 12%nat.
  destruct (header_take (le_bytes 8 seq') (le_bytes 4 (len us')) b') as (_ & _ & ->); [apply le_bytes_length..|].
  exists (b ++ b'). rewrite <- !app_assoc. split; [done|]. split; [by apply updates_bytes_app|by apply Forall_app].
Qed.

Lemma Iterate_batch {H} {HH : Handler H} rep seq us (h : H) : batch rep seq us -> 0 <= seq < 2 ^ 64 -> len us < 2 ^ 31 ->
  Iterate rep h = Some (Status_OK, apply_updates us h).
Proof.
  intros Hbt Hseq Hn. destruct (batch_parts _ _ _ Hbt Hseq Hn) as (Hc & _ & Hl & Hus & Hb). unfold Iterate, kHeader.
  rewrite (proj2 (Z.ltb_ge _ _)) by lia. change (Z.to_nat 12) with 12%nat. unfold dbind.
  change 0 with (int32 0). rewrite (iterate_loop_updates us _ Hus) by (by apply bytes_drop || lia).
  pose proof (len_nonneg us). rewrite Z.add_0_l, int32_id, Hc, Z.eqb_refl by lia. done.
Qed.

Section replay.
Context {T : Type} {MT : MemTable T}.

(** The updates as entries of the table, with consecutive sequence numbers. *)
Fixpoint add_updates (seq : Z) (us : list update) (m : T) : T :=
  match us with
  | [] => m
  | UPut key value :: us => add_updates (seq + 1) us (Add seq kTypeValue key value m)
  | UDelete key :: us => add_updates (seq + 1) us (Add seq kTypeDeletion key [] m)
  end.

Lemma apply_updates_inserter us seq m : 0 <= seq -> seq + len us < 2 ^ 64 ->
  apply_updates us {| sequence_ := seq; mem_ := m |} = {| sequence_ := seq + len us; mem_ := add_updates seq us m |}.
Proof.
  unfold apply_updates. revert seq m. induction us as [|u us IH]; intros seq m H0 Hs; cbn [fold_left add_updates].
  - by rewrite (@len_nil update), Z.add_0_r.
  - rewrite len_cons in *. pose proof (len_nonneg us).
    destruct u; cbn [apply_update handle_put handle_delete inserter MemTableInserter_Put MemTableInserter_Delete sequence_ mem_];
      unfold MemTableInserter_Put, MemTableInserter_Delete; cbn [sequence_ mem_]; rewrite u64_id, IH by lia; f_equal; lia.
Qed.

Lemma InsertInto_batch rep seq us m : batch rep seq us -> 0 <= seq -> seq + len us < 2 ^ 64 -> len us < 2 ^ 31 ->
  InsertInto rep m = Some (Status_OK, add_updates seq us m).
Proof.
  intros Hb H0 Hs Hn. pose proof (len_nonneg us). destruct (batch_parts _ _ _ Hb) as (_ & Hseq & _); [lia..|].
  unfold InsertInto. rewrite Hseq, (Iterate_batch rep seq us) by (done || lia). by rewrite apply_updates_inserter.
Qed.

(** C33: Replaying a batch puts its updates into the table in the order in which they were put into the
    batch, those of batches appended to it included, with consecutive sequence numbers from the
    batch's own, and returns OK; the count and the sequence number of the batch are those set. *)
Theorem write_batch_replay us us' seq m : Forall update_ok (us ++ us') -> len (us ++ us') < 2 ^ 31 -> 0 <= seq -> seq + len (us ++ us') < 2 ^ 64 ->
  let rep := Batch_Append (SetSequence seq (build us)) (build us') in
  Count rep = len (us ++ us') /\ Sequence rep = seq /\ InsertInto rep m = Some (Status_OK, add_updates seq (us ++ us') m).
Proof.
  intros Hok Hn H0 Hs rep. pose proof (len_nonneg us). pose proof (len_nonneg us'). rewrite len_app in *. apply Forall_app in Hok as [Hus Hus'].
  assert (Hb : batch rep seq (us ++ us')).
  { apply Append_batch with (seq' := 0); [by apply SetSequence_batch with (seq' := 0), build_batch; [|lia]|apply build_batch; [done|lia]|lia..]. }
  destruct (batch_parts _ _ _ Hb) as (Hc & Hseq & _); [lia|rewrite len_app; lia|]. rewrite Hc, Hseq, len_app. split; [done|]. split; [done|].
  apply InsertInto_batch; rewrite ?len_app; done || lia.
Qed.
End replay.

Lemma write_batch_replay_witness :
  Forall update_ok ([UPut [1] [2; 3]; UDelete [4]] ++ [UPut [] []]) /\
  let rep := Batch_Append (SetSequence 70000 (build [UPut [1] [2; 3]; UDelete [4]])) (build [UPut [] []]) in
  InsertInto (MT := {| Add := fun s t k v l => (s, t, k, v) :: l |}) rep [] = Some (Status_OK, [(70002, 1, [], []); (70001, 0, [4], []); (70000, 1, [1], [2; 3])]).
Proof.
  assert (H : Forall update_ok ([UPut [1] [2; 3]; UDelete [4]] ++ [UPut [] []])).
  { repeat (apply List.Forall_cons; [cbn [update_ok]; repeat split; try (vm_compute; reflexivity); bytes_lit|]). apply List.Forall_nil. }
  split; [exact H|].
  exact (proj2 (proj2 (write_batch_replay (MT := {| Add := fun s t k v l => (s, t, k, v) :: l |})
    [UPut [1] [2; 3]; UDelete [4]] [UPut [] []] 70000 [] H eq_refl ltac:(discriminate) eq_refl))).
Defined.
