(* ===== verification/VersionEdit.v ===== *)
(** The edits of LevelDB's manifest (leveldb-library/db/version_edit.h and version_edit.cc): changes to
    the set of tables, as records of a log.  Decoding accepts exactly sequences of fields, and gives
    back what was encoded. *)
From Stdlib Require Import String.
From stdpp Require Import sets sorting.
From S2P Require Import Prelude PbIstream Coding Status WriteBatch.

Definition kNumLevels : Z := 7.

(** [Tag] *)
Definition kComparator : Z := 1.
Definition kLogNumber : Z := 2.
Definition kNextFileNumber : Z := 3.
Definition kLastSequence : Z := 4.
Definition kCompactPointer : Z := 5.
Definition kDeletedFile : Z := 6.
Definition kNewFile : Z := 7.
Definition kPrevLogNumber : Z := 9.

(** An [InternalKey] is its bytes; without any it is an invalid one. *)
Record FileMetaData := { refs : Z; allowed_seeks : Z; number : Z; file_size : Z; smallest : list Z; largest : list Z }.
Definition NewFileMetaData (number file_size : Z) (smallest largest : list Z) : FileMetaData :=
  {| refs := 0; allowed_seeks := 1 << 30; number := number; file_size := file_size; smallest := smallest; largest := largest |}.

(** [deleted_files_] is an ordered set of levels and numbers: the list of them in order. *)
Record VersionEdit := {
  comparator_ : list Z;
  log_number_ : Z;
  prev_log_number_ : Z;
  next_file_number_ : Z;
  last_sequence_ : Z;
  has_comparator_ : bool;
  has_log_number_ : bool;
  has_prev_log_number_ : bool;
  has_next_file_number_ : bool;
  has_last_sequence_ : bool;
  compact_pointers_ : list (Z * list Z);
  deleted_files_ : list (Z * Z);
  new_files_ : list (Z * FileMetaData)
}.

(** [compact_pointers_] stays as it is. *)
Definition Clear (e : VersionEdit) : VersionEdit :=
  {| comparator_ := []; log_number_ := 0; prev_log_number_ := 0; next_file_number_ := 0; last_sequence_ := 0;
     has_comparator_ := false; has_log_number_ := false; has_prev_log_number_ := false; has_next_file_number_ := false; has_last_sequence_ := false;
     compact_pointers_ := compact_pointers_ e; deleted_files_ := []; new_files_ := [] |}.

Definition NewVersionEdit : VersionEdit :=
  Clear {| comparator_ := []; log_number_ := 0; prev_log_number_ := 0; next_file_number_ := 0; last_sequence_ := 0;
     has_comparator_ := false; has_log_number_ := false; has_prev_log_number_ := false; has_next_file_number_ := false; has_last_sequence_ := false;
     compact_pointers_ := []; deleted_files_ := []; new_files_ := [] |}.

Definition SetComparatorName (name : list Z) (e : VersionEdit) : VersionEdit :=
  {| comparator_ := name; log_number_ := log_number_ e; prev_log_number_ := prev_log_number_ e; next_file_number_ := next_file_number_ e; last_sequence_ := last_sequence_ e;
     has_comparator_ := true; has_log_number_ := has_log_number_ e; has_prev_log_number_ := has_prev_log_number_ e; has_next_file_number_ := has_next_file_number_ e; has_last_sequence_ := has_last_sequence_ e;
     compact_pointers_ := compact_pointers_ e; deleted_files_ := deleted_files_ e; new_files_ := new_files_ e |}.
Definition SetLogNumber (num : Z) (e : VersionEdit) : VersionEdit :=
  {| comparator_ := comparator_ e; log_number_ := num; prev_log_number_ := prev_log_number_ e; next_file_number_ := next_file_number_ e; last_sequence_ := last_sequence_ e;
     has_comparator_ := has_comparator_ e; has_log_number_ := true; has_prev_log_number_ := has_prev_log_number_ e; has_next_file_number_ := has_next_file_number_ e; has_last_sequence_ := has_last_sequence_ e;
     compact_pointers_ := compact_pointers_ e; deleted_files_ := deleted_files_ e; new_files_ := new_files_ e |}.
Definition SetPrevLogNumber (num : Z) (e : VersionEdit) : VersionEdit :=
  {| comparator_ := comparator_ e; log_number_ := log_number_ e; prev_log_number_ := num; next_file_number_ := next_file_number_ e; last_sequence_ := last_sequence_ e;
     has_comparator_ := has_comparator_ e; has_log_number_ := has_log_number_ e; has_prev_log_number_ := true; has_next_file_number_ := has_next_file_number_ e; has_last_sequence_ := has_last_sequence_ e;
     compact_pointers_ := compact_pointers_ e; deleted_files_ := deleted_files_ e; new_files_ := new_files_ e |}.
Definition SetNextFile (num : Z) (e : VersionEdit) : VersionEdit :=
  {| comparator_ := comparator_ e; log_number_ := log_number_ e; prev_log_number_ := prev_log_number_ e; next_file_number_ := num; last_sequence_ := last_sequence_ e;
     has_comparator_ := has_comparator_ e; has_log_number_ := has_log_number_ e; has_prev_log_number_ := has_prev_log_number_ e; has_next_file_number_ := true; has_last_sequence_ := has_last_sequence_ e;
     compact_pointers_ := compact_pointers_ e; deleted_files_ := deleted_files_ e; new_files_ := new_files_ e |}.
Definition SetLastSequence (seq : Z) (e : VersionEdit) : VersionEdit :=
  {| comparator_ := comparator_ e; log_number_ := log_number_ e; prev_log_number_ := prev_log_number_ e; next_file_number_ := next_file_number_ e; last_sequence_ := seq;
     has_comparator_ := has_comparator_ e; has_log_number_ := has_log_number_ e; has_prev_log_number_ := has_prev_log_number_ e; has_next_file_number_ := has_next_file_number_ e; has_last_sequence_ := true;
     compact_pointers_ := compact_pointers_ e; deleted_files_ := deleted_files_ e; new_files_ := new_files_ e |}.
Definition set_lists (pointers : list (Z * list Z)) (deleted : list (Z * Z)) (new : list (Z * FileMetaData)) (e : VersionEdit) : VersionEdit :=
  {| comparator_ := comparator_ e; log_number_ := log_number_ e; prev_log_number_ := prev_log_number_ e; next_file_number_ := next_file_number_ e; last_sequence_ := last_sequence_ e;
     has_comparator_ := has_comparator_ e; has_log_number_ := has_log_number_ e; has_prev_log_number_ := has_prev_log_number_ e; has_next_file_number_ := has_next_file_number_ e; has_last_sequence_ := has_last_sequence_ e;
     compact_pointers_ := pointers; deleted_files_ := deleted; new_files_ := new |}.
Definition SetCompactPointer (level : Z) (key : list Z) (e : VersionEdit) : VersionEdit :=
  set_lists (compact_pointers_ e ++ [(level, key)]) (deleted_files_ e) (new_files_ e) e.
Definition AddFile (level file file_size : Z) (smallest largest : list Z) (e : VersionEdit) : VersionEdit :=
  set_lists (compact_pointers_ e) (deleted_files_ e) (new_files_ e ++ [(level, NewFileMetaData file file_size smallest largest)]) e.

(** Inserting into the ordered set. *)
Definition pair_compare (x y : Z * Z) : comparison := match x.1 ?= y.1 with Eq => x.2 ?= y.2 | c => c end.
Fixpoint set_insert (x : Z * Z) (l : list (Z * Z)) : list (Z * Z) :=
  match l with
  | [] => [x]
  | y :: l' => match pair_compare x y with Lt => x :: l | Eq => l | Gt => y :: set_insert x l' end
  end.
Definition DeleteFile (level file : Z) (e : VersionEdit) : VersionEdit :=
  set_lists (compact_pointers_ e) (set_insert (level, file) (deleted_files_ e)) (new_files_ e) e.

(** ** Encoding *)

Definition put_number (has : bool) (tag num : Z) (dst : list Z) : list Z := if has then PutVarint64 (PutVarint32 dst tag) num else dst.
Definition put_deleted (dst : list Z) (d : Z * Z) : list Z := PutVarint64 (PutVarint32 (PutVarint32 dst kDeletedFile) (u32 d.1)) d.2.

(** [InternalKey::Encode]; [None]: its assertion fails, since an empty key is an invalid one. *)
Definition InternalKey_Encode (rep_ : list Z) : option (list Z) := match rep_ with [] => None | _ => Some rep_ end.
Definition put_pointer (p : Z * list Z) (dst : list Z) : option (list Z) :=
  key ← InternalKey_Encode p.2;
  Some (PutLengthPrefixedSlice (PutVarint32 (PutVarint32 dst kCompactPointer) (u32 p.1)) key).
Definition put_new (n : Z * FileMetaData) (dst : list Z) : option (list Z) :=
  let f := n.2 in
  let dst := PutVarint64 (PutVarint64 (PutVarint32 (PutVarint32 dst kNewFile) (u32 n.1)) (number f)) (file_size f) in
  smallest ← InternalKey_Encode (smallest f);
  largest ← InternalKey_Encode (largest f);
  Some (PutLengthPrefixedSlice (PutLengthPrefixedSlice dst smallest) largest).
Fixpoint put_all {A} (put : A -> list Z -> option (list Z)) (l : list A) (dst : list Z) : option (list Z) :=
  match l with [] => Some dst | a :: l => put a dst ≫= put_all put l end.

Definition EncodeTo (e : VersionEdit) (dst : list Z) : option (list Z) :=
  let dst := if has_comparator_ e then PutLengthPrefixedSlice (PutVarint32 dst kComparator) (comparator_ e) else dst in
  let dst := put_number (has_log_number_ e) kLogNumber (log_number_ e) dst in
  let dst := put_number (has_prev_log_number_ e) kPrevLogNumber (prev_log_number_ e) dst in
  let dst := put_number (has_next_file_number_ e) kNextFileNumber (next_file_number_ e) dst in
  let dst := put_number (has_last_sequence_ e) kLastSequence (last_sequence_ e) dst in
  dst ← put_all put_pointer (compact_pointers_ e) dst;
  let dst := foldl put_deleted dst (deleted_files_ e) in
  put_all put_new (new_files_ e) dst.

(** ** Decoding *)

Definition GetInternalKey : M (list Z) (list Z) := let* str := GetLengthPrefixedSlice in ret str.
Definition GetLevel : M (list Z) Z := let* v := GetVarint32 in check (v <? kNumLevels) ;;; ret v.

(** A field that is read, or the message [msg]; and what is left of the input. *)
Definition field {A} (m : M (list Z) A) (set : A -> VersionEdit) (msg : string) : list Z -> (list Z + VersionEdit) * list Z := fun input =>
  match m input with (Some a, input) => (inr (set a), input) | (None, input) => (inl (bytes_of msg), input) end.

(** The cases of the [switch]. *)
Definition decode_field (tag : Z) (e : VersionEdit) : list Z -> (list Z + VersionEdit) * list Z :=
  if tag =? kComparator then field GetLengthPrefixedSlice (fun str => SetComparatorName str e) "comparator name"
  else if tag =? kLogNumber then field GetVarint64 (fun n => SetLogNumber n e) "log number"
  else if tag =? kPrevLogNumber then field GetVarint64 (fun n => SetPrevLogNumber n e) "previous log number"
  else if tag =? kNextFileNumber then field GetVarint64 (fun n => SetNextFile n e) "next file number"
  else if tag =? kLastSequence then field GetVarint64 (fun n => SetLastSequence n e) "last sequence number"
  else if tag =? kCompactPointer then
    field (let* level := GetLevel in let* key := GetInternalKey in ret (level, key)) (fun p => SetCompactPointer p.1 p.2 e) "compaction pointer"
  else if tag =? kDeletedFile then
    field (let* level := GetLevel in let* number := GetVarint64 in ret (level, number)) (fun d => DeleteFile d.1 d.2 e) "deleted file"
  else if tag =? kNewFile then
    field (let* level := GetLevel in let* number := GetVarint64 in let* file_size := GetVarint64 in
           let* smallest := GetInternalKey in let* largest := GetInternalKey in ret (level, number, file_size, smallest, largest))
      (fun '(level, number, file_size, smallest, largest) => AddFile level number file_size smallest largest e) "new-file entry"
  else fun input => (inl (bytes_of "unknown tag"), input).

(** The loop, with the message, the edit and what is left of the input. *)
Fixpoint decode_loop (fuel : nat) (e : VersionEdit) (input : list Z) : option (option (list Z) * VersionEdit * list Z) :=
  match GetVarint32 input with
  | (None, input) => Some (None, e, input)
  | (Some tag, input) =>
      match fuel with
      | O => None
      | S fuel =>
          match decode_field tag e input with
          | (inl msg, input) => Some (Some msg, e, input)
          | (inr e, input) => decode_loop fuel e input
          end
      end
  end.
Definition DecodeFrom (src : list Z) (e : VersionEdit) : option (Status * VersionEdit) :=
  ' (msg, e, input) ← decode_loop (length src) (Clear e) src;
  let msg := match msg with None => if 0 <? len input then Some (bytes_of "invalid tag") else None | Some _ => msg end in
  Some (match msg with None => Status_OK | Some msg => Status_Corruption (bytes_of "VersionEdit") msg end, e).

(** ** What is read *)

(** A reader accepts exactly the inputs that begin with bytes of which [R] holds. *)
Definition exact {A} (m : M (list Z) A) (R : A -> list Z -> Prop) : Prop :=
  forall input a rest, Forall byte input -> m input = (Some a, rest) <-> exists b, input = b ++ rest /\ R a b.

Definition varint32_bytes (v : Z) (b : list Z) : Prop := varint_bytes b /\ len b <= 5 /\ v = varint_value b mod 2 ^ 32.
Definition varint64_bytes (v : Z) (b : list Z) : Prop := varint_bytes b /\ len b <= 10 /\ v = varint_value b mod 2 ^ 64.
Definition level_bytes (l : Z) (b : list Z) : Prop := varint32_bytes l b /\ l < kNumLevels.

Lemma exact_ext {A} (m : M (list Z) A) R Q : (forall a b, R a b <-> Q a b) -> exact m R -> exact m Q.
Proof. intros H Hm input a rest Hb. rewrite (Hm input a rest Hb). split; intros (b & E & Ha); exists b; (split; [done|]); by apply H. Qed.
Lemma exact_bind {A B} (m : M (list Z) A) (k : A -> M (list Z) B) R Q : exact m R -> (forall a, exact (k a) (Q a)) ->
  exact (bind m k) (fun c b => exists a b1 b2, b = b1 ++ b2 /\ R a b1 /\ Q a c b2).
Proof.
  intros Hm Hk input c rest Hb. unfold bind. split.
  - destruct (m input) as [[a|] q] eqn:E; [|done]. apply Hm in E as (b1 & -> & H1); [|done]. apply Forall_app in Hb as [_ Hq].
    intros E. apply Hk in E as (b2 & -> & H2); [|done]. exists (b1 ++ b2). split; [by rewrite app_assoc|]. by exists a, b1, b2.
  - intros (b & -> & a & b1 & b2 & -> & H1 & H2). rewrite <- app_assoc in *.
    assert (E : m (b1 ++ b2 ++ rest) = (Some a, b2 ++ rest)) by (apply Hm; [done|by exists b1]).
    rewrite E. apply Forall_app in Hb as [_ Hq]. apply Hk; [done|]. by exists b2.
Qed.
Lemma exact_ret {A} (a : A) : exact (ret a) (fun c b => c = a /\ b = []).
Proof.
  intros input c rest _. split; [intros [= -> ->]; by exists []|]. by intros (b & -> & -> & ->).
Qed.
Lemma exact_check {A} (b : bool) (m : M (list Z) A) R : exact m R -> exact (check b ;;; m) (fun c bs => b = true /\ R c bs).
Proof.
  intros Hm input c rest Hb. destruct b; cbn.
  - unfold bind, check, ret. rewrite (Hm input c rest Hb). split; intros (bs & E & H); exists bs; naive_solver.
  - split; [done|]. by intros (bs & _ & ? & _).
Qed.
Lemma exact_varint32 : exact GetVarint32 varint32_bytes.
Proof. intros input v rest Hb. rewrite GetVarint32_spec by done. unfold varint32_bytes. naive_solver. Qed.
Lemma exact_varint64 : exact GetVarint64 varint64_bytes.
Proof. intros input v rest Hb. rewrite GetVarint64_spec by done. unfold varint64_bytes. naive_solver. Qed.
Lemma exact_slice : exact GetLengthPrefixedSlice slice_bytes.
Proof. intros input s rest Hb. by apply get_slice_spec. Qed.
Lemma exact_key : exact GetInternalKey slice_bytes.
Proof.
  eapply exact_ext; [|exact (exact_bind _ _ _ _ exact_slice exact_ret)]. intros a b. split.
  - intros (s & b1 & b2 & -> & H & -> & ->). by rewrite app_nil_r.
  - intros H. exists a, b, []. by rewrite app_nil_r.
Qed.
Lemma exact_level : exact GetLevel level_bytes.
Proof.
  eapply exact_ext; [|exact (exact_bind _ _ _ _ exact_varint32 (fun v => exact_check _ _ _ (exact_ret v)))]. intros a b. cbn. unfold level_bytes. split.
  - intros (v & b1 & b2 & -> & H & Hv%Z.ltb_lt & -> & ->). rewrite app_nil_r. by split.
  - intros [H Hl%Z.ltb_lt]. exists a, b, []. by rewrite app_nil_r.
Qed.

(** ** Fields *)

Inductive Field :=
| FComparator (name : list Z)
| FLogNumber (num : Z)
| FPrevLogNumber (num : Z)
| FNextFileNumber (num : Z)
| FLastSequence (seq : Z)
| FCompactPointer (level : Z) (key : list Z)
| FDeletedFile (level num : Z)
| FNewFile (level num size : Z) (small large : list Z).

Definition apply_field (e : VersionEdit) (f : Field) : VersionEdit :=
  match f with
  | FComparator name => SetComparatorName name e
  | FLogNumber num => SetLogNumber num e
  | FPrevLogNumber num => SetPrevLogNumber num e
  | FNextFileNumber num => SetNextFile num e
  | FLastSequence seq => SetLastSequence seq e
  | FCompactPointer level key => SetCompactPointer level key e
  | FDeletedFile level num => DeleteFile level num e
  | FNewFile level num size small large => AddFile level num size small large e
  end.
Definition field_tag (f : Field) : Z :=
  match f with
  | FComparator _ => kComparator | FLogNumber _ => kLogNumber | FPrevLogNumber _ => kPrevLogNumber | FNextFileNumber _ => kNextFileNumber
  | FLastSequence _ => kLastSequence | FCompactPointer _ _ => kCompactPointer | FDeletedFile _ _ => kDeletedFile | FNewFile _ _ _ _ _ => kNewFile
  end.
(** The bytes behind the tag. *)
Definition body_bytes (f : Field) (b : list Z) : Prop :=
  match f with
  | FComparator name => slice_bytes name b
  | FLogNumber num | FPrevLogNumber num | FNextFileNumber num | FLastSequence num => varint64_bytes num b
  | FCompactPointer level key => exists b1 b2, b = b1 ++ b2 /\ level_bytes level b1 /\ slice_bytes key b2
  | FDeletedFile level num => exists b1 b2, b = b1 ++ b2 /\ level_bytes level b1 /\ varint64_bytes num b2
  | FNewFile level num size small large => exists b1 b2 b3 b4 b5, b = b1 ++ b2 ++ b3 ++ b4 ++ b5 /\
      level_bytes level b1 /\ varint64_bytes num b2 /\ varint64_bytes size b3 /\ slice_bytes small b4 /\ slice_bytes large b5
  end.
Inductive fields_bytes : list Field -> list Z -> Prop :=
| fields_nil : fields_bytes [] []
| fields_cons f fs code body rest : varint32_bytes (field_tag f) code -> body_bytes f body -> fields_bytes fs rest -> fields_bytes (f :: fs) (code ++ body ++ rest).

Lemma field_exact {A} (m : M (list Z) A) R set msg input e' rest : exact m R -> Forall byte input ->
  field m set msg input = (inr e', rest) <-> exists a b, input = b ++ rest /\ R a b /\ e' = set a.
Proof.
  intros Hm Hb. unfold field. split.
  - destruct (m input) as [[a|] q] eqn:E; [|done]. intros [= <- <-]. apply Hm in E as (b & -> & H); [|done]. by exists a, b.
  - intros (a & b & -> & H & ->). assert (E : m (b ++ rest) = (Some a, rest)) by (apply Hm; [done|by exists b]). by rewrite E.
Qed.

Lemma exact_pointer : exact (let* level := GetLevel in let* key := GetInternalKey in ret (level, key)) (fun p => body_bytes (FCompactPointer p.1 p.2)).
Proof.
  eapply exact_ext; [|exact (exact_bind _ _ _ _ exact_level (fun l => exact_bind _ _ _ _ exact_key (fun k => exact_ret (l, k))))]. intros [l k] b. cbn. split.
  - intros (l' & b1 & ? & -> & Hl & k' & b2 & ? & -> & Hk & [= -> ->] & ->). exists b1, b2. by rewrite app_nil_r.
  - intros (b1 & b2 & -> & Hl & Hk). exists l, b1, b2. split_and!; try done. exists k, b2, []. by rewrite app_nil_r.
Qed.
Lemma exact_deleted : exact (let* level := GetLevel in let* number := GetVarint64 in ret (level, number)) (fun d => body_bytes (FDeletedFile d.1 d.2)).
Proof.
  eapply exact_ext; [|exact (exact_bind _ _ _ _ exact_level (fun l => exact_bind _ _ _ _ exact_varint64 (fun n => exact_ret (l, n))))]. intros [l n] b. cbn. split.
  - intros (l' & b1 & ? & -> & Hl & n' & b2 & ? & -> & Hn & [= -> ->] & ->). exists b1, b2. by rewrite app_nil_r.
  - intros (b1 & b2 & -> & Hl & Hn). exists l, b1, b2. split_and!; try done. exists n, b2, []. by rewrite app_nil_r.
Qed.
Lemma exact_new : exact (let* level := GetLevel in let* number := GetVarint64 in let* file_size := GetVarint64 in
    let* smallest := GetInternalKey in let* largest := GetInternalKey in ret (level, number, file_size, smallest, largest))
  (fun '(level, number, file_size, smallest, largest) => body_bytes (FNewFile level number file_size smallest largest)).
Proof.
  eapply exact_ext; [|exact (exact_bind _ _ _ _ exact_level (fun l => exact_bind _ _ _ _ exact_varint64 (fun n => exact_bind _ _ _ _ exact_varint64 (fun s =>
    exact_bind _ _ _ _ exact_key (fun sm => exact_bind _ _ _ _ exact_key (fun la => exact_ret (l, n, s, sm, la)))))))]. intros [[[[l n] s] sm] la] b. cbn. split.
  - intros (l' & b1 & ? & -> & Hl & n' & b2 & ? & -> & Hn & s' & b3 & ? & -> & Hs & sm' & b4 & ? & -> & Hsm & la' & b5 & ? & -> & Hla & [= -> -> -> -> ->] & ->).
    exists b1, b2, b3, b4, b5. by rewrite app_nil_r.
  - intros (b1 & b2 & b3 & b4 & b5 & -> & Hl & Hn & Hs & Hsm & Hla). exists l, b1, (b2 ++ b3 ++ b4 ++ b5). split_and!; try done. exists n, b2, (b3 ++ b4 ++ b5). split_and!; try done.
    exists s, b3, (b4 ++ b5). split_and!; try done. exists sm, b4, b5. split_and!; try done. exists la, b5, []. by rewrite app_nil_r.
Qed.

(** One case of the [switch]. *)
Ltac one_case mk ex :=
  match goal with Hb : Forall byte _ |- _ => rewrite (field_exact _ _ _ _ _ _ _ ex Hb) end;
  split; [intros (a & b & -> & H & ->); exists (mk a), b; split_and!; done
         |intros ([] & b & Ht & -> & H & ->); try discriminate Ht; cbn in H].
Lemma decode_field_spec tag e input e' rest : Forall byte input ->
  decode_field tag e input = (inr e', rest) <-> exists f b, field_tag f = tag /\ input = b ++ rest /\ body_bytes f b /\ e' = apply_field e f.
Proof.
  intros Hb. unfold decode_field.
  destruct (Z.eqb_spec tag kComparator) as [->|H1]; [one_case FComparator exact_slice; by exists name, b|].
  destruct (Z.eqb_spec tag kLogNumber) as [->|H2]; [one_case FLogNumber exact_varint64; by exists num, b|].
  destruct (Z.eqb_spec tag kPrevLogNumber) as [->|H3]; [one_case FPrevLogNumber exact_varint64; by exists num, b|].
  destruct (Z.eqb_spec tag kNextFileNumber) as [->|H4]; [one_case FNextFileNumber exact_varint64; by exists num, b|].
  destruct (Z.eqb_spec tag kLastSequence) as [->|H5]; [one_case FLastSequence exact_varint64; by exists seq, b|].
  destruct (Z.eqb_spec tag kCompactPointer) as [->|H6]; [one_case (fun p : Z * list Z => FCompactPointer p.1 p.2) exact_pointer; by exists (level, key), b|].
  destruct (Z.eqb_spec tag kDeletedFile) as [->|H7]; [one_case (fun d : Z * Z => FDeletedFile d.1 d.2) exact_deleted; by exists (level, num), b|].
  destruct (Z.eqb_spec tag kNewFile) as [->|H8].
  - rewrite (field_exact _ _ _ _ _ _ _ exact_new Hb). split.
    + intros ([[[[l n] s] sm] la] & b & -> & H & ->). by exists (FNewFile l n s sm la), b.
    + intros ([] & b & Ht & -> & H & ->); try discriminate Ht. by exists (level, num, size, small, large), b.
  - split; [done|]. by intros ([] & b & <- & _).
Qed.

Lemma get_tag_none input rest : GetVarint32 input = (None, rest) -> rest = input.
Proof. unfold GetVarint32. destruct (GetVarint32Ptr input) as [[]|]; congruence. Qed.
(** The loop ends, and what it has read before there is no tag are fields. *)
Lemma decode_loop_sound fuel e input : Forall byte input -> (length input <= fuel)%nat ->
  exists msg e' rest, decode_loop fuel e input = Some (msg, e', rest) /\
    (msg = None -> exists fs b, input = b ++ rest /\ fields_bytes fs b /\ e' = foldl apply_field e fs).
Proof.
  revert e input. induction fuel as [|fuel IH]; intros e input Hb Hf; cbn [decode_loop]; destruct (GetVarint32 input) as [[tag|] q] eqn:Et.
  - apply exact_varint32 in Et as (b & -> & (Hv%varint_bytes_pos & _)); [|done]. rewrite length_app in Hf. unfold len in Hv. lia.
  - apply get_tag_none in Et as ->. exists None, e, input. split; [done|]. intros _. exists [], []. split_and!; [done|constructor|done].
  - apply exact_varint32 in Et as (code & -> & Hc); [|done]. pose proof (varint_bytes_pos _ (proj1 Hc)) as Hl. rewrite length_app in Hf. unfold len in Hl.
    apply Forall_app in Hb as [_ Hq]. destruct (decode_field tag e q) as [[msg|e1] r] eqn:Ed; [by exists (Some msg), e, r|].
    apply decode_field_spec in Ed as (f & body & <- & -> & Hbody & ->); [|done]. rewrite length_app in Hf. apply Forall_app in Hq as [_ Hr].
    destruct (IH (apply_field e f) r Hr ltac:(lia)) as (msg & e' & rest & E & H). exists msg, e', rest. split; [done|]. intros Hm.
    destruct (H Hm) as (fs & b & -> & Hfs & ->). exists (f :: fs), (code ++ body ++ b). rewrite <- !app_assoc. split; [done|]. split; [by constructor|done].
  - apply get_tag_none in Et as ->. exists None, e, input. split; [done|]. intros _. exists [], []. split_and!; [done|constructor|done].
Qed.
Lemma decode_loop_complete fuel e fs input : fields_bytes fs input -> Forall byte input -> (length input <= fuel)%nat ->
  decode_loop fuel e input = Some (None, foldl apply_field e fs, []).
Proof.
  intros H. revert fuel e. induction H as [|f fs code body rest Hc Hbody _ IH]; intros fuel e Hb Hf; [by destruct fuel|].
  pose proof (varint_bytes_pos _ (proj1 Hc)) as Hl. rewrite !length_app in Hf. unfold len in Hl. destruct fuel as [|fuel]; [lia|]. cbn [decode_loop].
  assert (Et : GetVarint32 (code ++ body ++ rest) = (Some (field_tag f), body ++ rest)) by (apply exact_varint32; [done|by exists code]). rewrite Et.
  apply Forall_app in Hb as [_ Hb]. assert (Ed : decode_field (field_tag f) e (body ++ rest) = (inr (apply_field e f), rest)) by (apply decode_field_spec; [done|by exists f, body]).
  rewrite Ed. apply Forall_app in Hb as [_ Hb]. apply IH; [done|lia].
Qed.

(** C35: Decoding an edit of the manifest ends on every input; it succeeds exactly on sequences of whole
    fields with known tags, and then has applied them in their order to the edit, whose compaction
    pointers are those it had before and the new ones behind them; every other input is reported
    as corrupt. *)
Theorem version_edit_decode_exact src e : Forall byte src ->
  (exists s e', DecodeFrom src e = Some (s, e') /\ (ok s = false -> code s = kCorruption)) /\
  forall e', DecodeFrom src e = Some (Status_OK, e') <-> exists fs, fields_bytes fs src /\ e' = foldl apply_field (Clear e) fs.
Proof.
  intros Hb. destruct (decode_loop_sound (length src) (Clear e) src Hb ltac:(done)) as (msg & e1 & rest & E & H). unfold DecodeFrom. rewrite E. cbn.
  split; [|intros e'; split].
  - eexists _, _. split; [done|]. destruct msg; [done|]. by destruct (0 <? len rest).
  - destruct msg as [msg|]; [done|]. destruct (Z.ltb_spec 0 (len rest)) as [|Hl]; [done|]. intros [= <-]. destruct (H eq_refl) as (fs & b & -> & Hfs & ->).
    exists fs. split; [|done]. pose proof (len_nonneg rest). rewrite (len_zero_nil rest) by lia. by rewrite app_nil_r.
  - intros (fs & Hfs & ->). rewrite (decode_loop_complete (length src) (Clear e) fs src Hfs Hb) in E by done. injection E as <- <- <-. done.
Qed.
Lemma version_edit_decode_exact_witness : Forall byte [2; 5; 6; 3; 9; 5; 1; 1; 7] /\
  exists fs, fields_bytes fs [2; 5; 6; 3; 9; 5; 1; 1; 7] /\ SetCompactPointer 1 [7] (DeleteFile 3 9 (SetLogNumber 5 NewVersionEdit)) = foldl apply_field (Clear NewVersionEdit) fs.
Proof.
  assert (Hb : Forall byte [2; 5; 6; 3; 9; 5; 1; 1; 7]) by bytes_lit. split; [exact Hb|].
  apply (proj2 (version_edit_decode_exact _ NewVersionEdit Hb)). vm_compute. reflexivity.
Defined.

(** ** Writing and reading back *)

Definition fields_of (e : VersionEdit) : list Field :=
  (if has_comparator_ e then [FComparator (comparator_ e)] else []) ++
  (if has_log_number_ e then [FLogNumber (log_number_ e)] else []) ++
  (if has_prev_log_number_ e then [FPrevLogNumber (prev_log_number_ e)] else []) ++
  (if has_next_file_number_ e then [FNextFileNumber (next_file_number_ e)] else []) ++
  (if has_last_sequence_ e then [FLastSequence (last_sequence_ e)] else []) ++
  map (fun p => FCompactPointer p.1 p.2) (compact_pointers_ e) ++
  map (fun d => FDeletedFile d.1 d.2) (deleted_files_ e) ++
  map (fun n => FNewFile n.1 (number n.2) (file_size n.2) (smallest n.2) (largest n.2)) (new_files_ e).

Definition string_ok (s : list Z) : Prop := Forall byte s /\ len s < 2 ^ 32.
(** A key that is not an invalid one. *)
Definition key_valid (s : list Z) : Prop := s <> [] /\ string_ok s.
Definition u64_ok (n : Z) : Prop := 0 <= n < 2 ^ 64.
Definition level_ok (l : Z) : Prop := 0 <= l < kNumLevels.
Definition field_ok (f : Field) : Prop :=
  match f with
  | FComparator name => string_ok name
  | FLogNumber n | FPrevLogNumber n | FNextFileNumber n | FLastSequence n => u64_ok n
  | FCompactPointer level key => level_ok level /\ key_valid key
  | FDeletedFile level n => level_ok level /\ u64_ok n
  | FNewFile level n size small large => level_ok level /\ u64_ok n /\ u64_ok size /\ key_valid small /\ key_valid large
  end.

(** A writer appends the bytes of these fields. *)
Definition puts (g : list Z -> option (list Z)) (fs : list Field) : Prop :=
  forall dst, exists bs, g dst = Some (dst ++ bs) /\ fields_bytes fs bs /\ Forall byte bs.
#[local] Abbreviation pure g := (fun dst : list Z => Some (g dst)).

Lemma fields_bytes_app fs gs a b : fields_bytes fs a -> fields_bytes gs b -> fields_bytes (fs ++ gs) (a ++ b).
Proof. induction 1 as [|f fs code body rest Hc Hbody _ IH]; intros H; [done|]. cbn. rewrite <- !app_assoc. constructor; [done|done|]. by apply IH. Qed.
Lemma puts_nil : puts Some [].
Proof. intros dst. exists []. rewrite app_nil_r. split_and!; constructor. Qed.
Lemma puts_app g h fs gs : puts g fs -> puts h gs -> puts (fun dst => g dst ≫= h) (fs ++ gs).
Proof.
  intros Hg Hh dst. destruct (Hg dst) as (a & -> & Ha & Ba). cbn. destruct (Hh (dst ++ a)) as (b & -> & Hb & Bb).
  exists (a ++ b). split; [by rewrite app_assoc|]. split; [by apply fields_bytes_app|by apply Forall_app].
Qed.
Lemma puts_if (c : bool) g fs : (c = true -> puts (pure g) fs) -> puts (pure (fun dst => if c then g dst else dst)) (if c then fs else []).
Proof. destruct c; intros H; [by apply H|apply puts_nil]. Qed.
Lemma puts_fold {A} (put : list Z -> A -> list Z) (mk : A -> Field) l : Forall (fun a => puts (fun dst => Some (put dst a)) [mk a]) l ->
  puts (pure (fun dst => foldl put dst l)) (map mk l).
Proof. induction 1 as [|a l Ha _ IH]; [apply puts_nil|]. apply (puts_app (pure (fun dst => put dst a)) (pure (fun dst => foldl put dst l)) [mk a] (map mk l)); done. Qed.
Lemma puts_all {A} (put : A -> list Z -> option (list Z)) (mk : A -> Field) l : Forall (fun a => puts (put a) [mk a]) l -> puts (put_all put l) (map mk l).
Proof. induction 1 as [|a l Ha _ IH]; [apply puts_nil|]. apply (puts_app (put a) (put_all put l) [mk a] (map mk l)); done. Qed.

(** What the writers of coding.cc append. *)
Lemma put32 v dst : 0 <= v < 2 ^ 32 -> exists b, PutVarint32 dst v = dst ++ b /\ varint32_bytes v b /\ Forall byte b.
Proof.
  intros Hv. exists (EncodeVarint32 v). split; [done|]. pose proof (EncodeVarint32_length v ltac:(lia)) as Hl. rewrite EncodeVarint32_64 in * by done.
  destruct (EncodeVarint64_spec v ltac:(lia)) as (H & Hval & _). split; [|by apply varint_bytes_byte]. split_and!; [done|done|]. by rewrite Hval, Z.mod_small.
Qed.
Lemma put64 v dst : u64_ok v -> exists b, PutVarint64 dst v = dst ++ b /\ varint64_bytes v b /\ Forall byte b.
Proof.
  intros Hv. exists (EncodeVarint64 v). split; [done|]. destruct (EncodeVarint64_spec v Hv) as (H & Hval & _ & Hl).
  split; [|by apply varint_bytes_byte]. split_and!; [done|done|]. unfold u64_ok in Hv. by rewrite Hval, Z.mod_small.
Qed.
Lemma put_level l dst : level_ok l -> exists b, PutVarint32 dst (u32 l) = dst ++ b /\ level_bytes l b /\ Forall byte b.
Proof.
  unfold level_ok, kNumLevels. intros Hl. rewrite u32_id by lia. destruct (put32 l dst) as (b & -> & H & Hb); [lia|]. exists b. split_and!; [done| |done]. split; [done|]. unfold kNumLevels. lia.
Qed.
Lemma put_tag f dst : exists b, PutVarint32 dst (field_tag f) = dst ++ b /\ varint32_bytes (field_tag f) b /\ Forall byte b.
Proof. apply put32. by destruct f. Qed.
Lemma encode_valid s : key_valid s -> InternalKey_Encode s = Some s.
Proof. intros [Hs _]. by destruct s. Qed.
Lemma put_string s dst : string_ok s -> exists b, PutLengthPrefixedSlice dst s = dst ++ b /\ slice_bytes s b /\ Forall byte b.
Proof. intros [Hs Hl]. by apply put_slice_bytes. Qed.

(** A tag and then the body. *)
Lemma puts_field f g : (forall dst, exists b, g dst = dst ++ b /\ body_bytes f b /\ Forall byte b) -> puts (fun dst => Some (g (PutVarint32 dst (field_tag f)))) [f].
Proof.
  intros Hg dst. destruct (put_tag f dst) as (code & -> & Hc & Bc). destruct (Hg (dst ++ code)) as (b & -> & Hb & Bb). exists (code ++ b).
  split; [by rewrite app_assoc|]. split; [|by apply Forall_app]. rewrite <- (app_nil_r b). constructor; [done|done|constructor].
Qed.
Lemma puts_number (has : bool) f tag num : (has = true -> field_ok f) -> field_tag f = tag -> (forall b, body_bytes f b <-> varint64_bytes num b) -> (field_ok f -> u64_ok num) ->
  puts (pure (put_number has tag num)) (if has then [f] else []).
Proof.
  intros Hok <- Hbody Hnum. apply (puts_if has (fun dst => PutVarint64 (PutVarint32 dst (field_tag f)) num)). intros Hh. apply (puts_field f (fun dst => PutVarint64 dst num)).
  intros dst. destruct (put64 num dst) as (b & E & H & Hb); [by apply Hnum, Hok|]. exists b. split_and!; [done| |done]. by apply Hbody.
Qed.
Lemma puts_pointer p : field_ok (FCompactPointer p.1 p.2) -> puts (put_pointer p) [FCompactPointer p.1 p.2].
Proof.
  intros [Hl Hv]. unfold put_pointer. rewrite encode_valid by done. destruct Hv as [_ Hk]. apply (puts_field (FCompactPointer p.1 p.2) (fun dst => PutLengthPrefixedSlice (PutVarint32 dst (u32 p.1)) p.2)). intros dst.
  destruct (put_level p.1 dst Hl) as (b1 & -> & H1 & B1). destruct (put_string p.2 (dst ++ b1) Hk) as (b2 & -> & H2 & B2).
  exists (b1 ++ b2). split; [by rewrite app_assoc|]. split; [by exists b1, b2|by apply Forall_app].
Qed.
Lemma puts_deleted d : field_ok (FDeletedFile d.1 d.2) -> puts (fun dst => Some (put_deleted dst d)) [FDeletedFile d.1 d.2].
Proof.
  intros [Hl Hn]. apply (puts_field (FDeletedFile d.1 d.2) (fun dst => PutVarint64 (PutVarint32 dst (u32 d.1)) d.2)). intros dst.
  destruct (put_level d.1 dst Hl) as (b1 & -> & H1 & B1). destruct (put64 d.2 (dst ++ b1) Hn) as (b2 & -> & H2 & B2).
  exists (b1 ++ b2). split; [by rewrite app_assoc|]. split; [by exists b1, b2|by apply Forall_app].
Qed.
Definition new_field (n : Z * FileMetaData) : Field := FNewFile n.1 (number n.2) (file_size n.2) (smallest n.2) (largest n.2).
Lemma puts_new n : field_ok (new_field n) -> puts (put_new n) [new_field n].
Proof.
  intros (Hl & Hn & Hs & Hsm' & Hla'). unfold put_new. cbv zeta. rewrite !encode_valid by done. destruct Hsm' as [_ Hsm], Hla' as [_ Hla]. apply (puts_field (new_field n) (fun dst => PutLengthPrefixedSlice (PutLengthPrefixedSlice (PutVarint64 (PutVarint64 (PutVarint32 dst
    (u32 n.1)) (number n.2)) (file_size n.2)) (smallest n.2)) (largest n.2))). intros dst.
  destruct (put_level n.1 dst Hl) as (b1 & -> & H1 & B1). destruct (put64 _ (dst ++ b1) Hn) as (b2 & -> & H2 & B2). destruct (put64 _ ((dst ++ b1) ++ b2) Hs) as (b3 & -> & H3 & B3).
  destruct (put_string _ (((dst ++ b1) ++ b2) ++ b3) Hsm) as (b4 & -> & H4 & B4). destruct (put_string _ ((((dst ++ b1) ++ b2) ++ b3) ++ b4) Hla) as (b5 & -> & H5 & B5).
  exists (b1 ++ b2 ++ b3 ++ b4 ++ b5). split; [by rewrite <- !app_assoc|]. split; [by exists b1, b2, b3, b4, b5|]. repeat (apply Forall_app; split; [done|]). done.
Qed.

(** An edit as the setters make it. *)
Record edit_ok (e : VersionEdit) : Prop := {
  edit_fields : Forall field_ok (fields_of e);
  edit_unset : (has_comparator_ e = false -> comparator_ e = []) /\ (has_log_number_ e = false -> log_number_ e = 0) /\ (has_prev_log_number_ e = false -> prev_log_number_ e = 0) /\
    (has_next_file_number_ e = false -> next_file_number_ e = 0) /\ (has_last_sequence_ e = false -> last_sequence_ e = 0);
  edit_deleted : StronglySorted (fun x y => pair_compare x y = Lt) (deleted_files_ e);
  edit_new : Forall (fun n => n.2 = NewFileMetaData (number n.2) (file_size n.2) (smallest n.2) (largest n.2)) (new_files_ e)
}.

Lemma EncodeTo_puts e : edit_ok e -> puts (EncodeTo e) (fields_of e).
Proof.
  intros [Hf _ _ _]. unfold fields_of in *. rewrite !Forall_app in Hf. destruct Hf as (H1 & H2 & H3 & H4 & H5 & H6 & H7 & H8). rewrite !Forall_map in *.
  assert (Hone : forall (b : bool) f, Forall field_ok (if b then [f] else []) -> b = true -> field_ok f) by (intros b f H ->; by apply Forall_cons in H as [? _]).
  unfold EncodeTo. cbv zeta. rewrite app_assoc, app_assoc, app_assoc, app_assoc.
  apply (puts_app (pure (fun dst => _)) (fun dst => put_all put_pointer (compact_pointers_ e) dst ≫= (fun dst => put_all put_new (new_files_ e) (foldl put_deleted dst (deleted_files_ e))))).
  - apply (puts_app (pure (fun dst => _)) (pure (put_number (has_last_sequence_ e) kLastSequence (last_sequence_ e)))); [|apply puts_number; [by apply Hone|done|done|done]].
    apply (puts_app (pure (fun dst => _)) (pure (put_number (has_next_file_number_ e) kNextFileNumber (next_file_number_ e)))); [|apply puts_number; [by apply Hone|done|done|done]].
    apply (puts_app (pure (fun dst => _)) (pure (put_number (has_prev_log_number_ e) kPrevLogNumber (prev_log_number_ e)))); [|apply puts_number; [by apply Hone|done|done|done]].
    apply (puts_app (pure (fun dst => _)) (pure (put_number (has_log_number_ e) kLogNumber (log_number_ e)))); [|apply puts_number; [by apply Hone|done|done|done]].
    apply (puts_if _ (fun dst => PutLengthPrefixedSlice (PutVarint32 dst kComparator) (comparator_ e))). intros Hh.
    apply (puts_field (FComparator (comparator_ e)) (fun dst => PutLengthPrefixedSlice dst (comparator_ e))). intros dst. apply put_string, (Hone _ _ H1 Hh).
  - apply (puts_app (put_all put_pointer (compact_pointers_ e))); [apply puts_all; eapply Forall_impl; [exact H6|apply puts_pointer]|].
    apply (puts_app (pure (fun dst => foldl put_deleted dst (deleted_files_ e)))); [apply puts_fold; eapply Forall_impl; [exact H7|apply puts_deleted]|].
    apply puts_all; eapply Forall_impl; [exact H8|apply puts_new].
Qed.

(** An edit with an invalid key is not encoded: the assertion fails. *)
Lemma put_all_none {A} (put : A -> list Z -> option (list Z)) (bad : A -> Prop) l dst : (forall a dst, put a dst = None <-> bad a) -> put_all put l dst = None <-> Exists bad l.
Proof.
  intros Hput. revert dst. induction l as [|a l IH]; intros dst; cbn; [by rewrite Exists_nil|]. rewrite Exists_cons, <- (Hput a dst).
  destruct (put a dst) as [d|] eqn:E; cbn; [rewrite IH; naive_solver|naive_solver].
Qed.
Lemma EncodeTo_aborts e dst : EncodeTo e dst = None <->
  Exists (fun p => p.2 = []) (compact_pointers_ e) \/ Exists (fun n => smallest n.2 = [] \/ largest n.2 = []) (new_files_ e).
Proof.
  assert (Hp : forall p d, put_pointer p d = None <-> p.2 = []) by (intros [? k] d; unfold put_pointer; destruct k; cbn; done).
  assert (Hn : forall n d, put_new n d = None <-> smallest n.2 = [] \/ largest n.2 = []).
  { intros [? f] d. unfold put_new. cbn. destruct (smallest f); cbn; [naive_solver|]. destruct (largest f); cbn; naive_solver. }
  unfold EncodeTo. cbv zeta. set (d0 := put_number _ kLastSequence _ _). pose proof (put_all_none put_pointer _ (compact_pointers_ e) d0 Hp) as H1.
  destruct (put_all put_pointer (compact_pointers_ e) d0) as [d|]; cbn; [|naive_solver].
  pose proof (put_all_none put_new _ (new_files_ e) (foldl put_deleted d (deleted_files_ e)) Hn). naive_solver.
Qed.

(** Applying the fields of an edit gives it back. *)
Lemma apply_pointers e l : foldl apply_field e (map (fun p => FCompactPointer p.1 p.2) l) = set_lists (compact_pointers_ e ++ l) (deleted_files_ e) (new_files_ e) e.
Proof.
  revert e. induction l as [|[level key] l IH]; intros e; cbn [map foldl]; [rewrite app_nil_r; by destruct e|]. rewrite IH. cbn. by rewrite <- app_assoc.
Qed.
Lemma set_insert_last l x : StronglySorted (fun x y => pair_compare x y = Lt) (l ++ [x]) -> set_insert x l = l ++ [x].
Proof.
  assert (Hanti : forall x y, pair_compare x y = Lt -> pair_compare y x = Gt).
  { intros [a b] [c d]. unfold pair_compare. cbn. rewrite (Z.compare_antisym a c), (Z.compare_antisym b d). destruct (a ?= c); [by intros ->|done|done]. }
  induction l as [|y l IH]; [done|]. cbn. intros [Hs Hy]%StronglySorted_inv. rewrite Forall_app, Forall_singleton in Hy. destruct Hy as [_ Hy].
  rewrite (Hanti y x Hy). by rewrite IH.
Qed.
Lemma apply_deleted e l : StronglySorted (fun x y => pair_compare x y = Lt) (deleted_files_ e ++ l) ->
  foldl apply_field e (map (fun d => FDeletedFile d.1 d.2) l) = set_lists (compact_pointers_ e) (deleted_files_ e ++ l) (new_files_ e) e.
Proof.
  revert e. induction l as [|[level n] l IH]; intros e Hs; cbn [map foldl]; [rewrite app_nil_r; by destruct e|].
  assert (Hi : set_insert (level, n) (deleted_files_ e) = deleted_files_ e ++ [(level, n)]).
  { apply set_insert_last. rewrite cons_middle, app_assoc in Hs. by apply StronglySorted_app_1_l in Hs. }
  rewrite IH; cbn; rewrite Hi, <- app_assoc; done.
Qed.
Lemma apply_new e l : Forall (fun n => n.2 = NewFileMetaData (number n.2) (file_size n.2) (smallest n.2) (largest n.2)) l ->
  foldl apply_field e (map new_field l) = set_lists (compact_pointers_ e) (deleted_files_ e) (new_files_ e ++ l) e.
Proof.
  intros H. revert e. induction H as [|[level f] l Hf _ IH]; intros e; cbn [map foldl]; [rewrite app_nil_r; by destruct e|].
  rewrite IH. cbn in *. rewrite <- Hf, <- app_assoc. done.
Qed.
Lemma apply_fields_of e e0 : edit_ok e -> foldl apply_field (Clear e0) (fields_of e) = set_lists (compact_pointers_ e0 ++ compact_pointers_ e) (deleted_files_ e) (new_files_ e) e.
Proof.
  intros [_ (U1 & U2 & U3 & U4 & U5) Hd Hn]. unfold fields_of. rewrite !foldl_app. change (map (fun n => FNewFile _ _ _ _ _) (new_files_ e)) with (map new_field (new_files_ e)).
  set (e5 := foldl apply_field (foldl apply_field (foldl apply_field (foldl apply_field (foldl apply_field (Clear e0) _) _) _) _) _).
  assert (E5 : e5 = set_lists (compact_pointers_ e0) [] [] e).
  { subst e5. destruct e as [c l p n s hc hl hp hn hs cp df nf]. cbn in *. destruct hc, hl, hp, hn, hs; cbn; unfold SetComparatorName, SetLogNumber, SetPrevLogNumber, SetNextFile, SetLastSequence, set_lists, Clear; cbn;
      rewrite ?U1, ?U2, ?U3, ?U4, ?U5 by done; done. }
  rewrite E5, apply_pointers, apply_deleted, apply_new; [|done|done]. done.
Qed.

(** The setters make edits like that. *)
Lemma set_insert_in x l y : y ∈ set_insert x l -> y = x \/ y ∈ l.
Proof. induction l as [|z l IH]; cbn; [set_solver|]. destruct (pair_compare x z); set_solver. Qed.
Lemma set_insert_sorted x l : StronglySorted (fun x y => pair_compare x y = Lt) l -> StronglySorted (fun x y => pair_compare x y = Lt) (set_insert x l).
Proof.
  assert (Hlt : forall a b, pair_compare a b = Lt <-> a.1 < b.1 \/ a.1 = b.1 /\ a.2 < b.2).
  { intros [a1 a2] [b1 b2]. unfold pair_compare. cbn. destruct (Z.compare_spec a1 b1); [rewrite Z.compare_lt_iff|split; [lia|done]|split; [done|lia]]. lia. }
  assert (Hgt : forall a b, pair_compare a b = Gt -> pair_compare b a = Lt).
  { intros [a1 a2] [b1 b2]. unfold pair_compare. cbn. rewrite (Z.compare_antisym a1 b1), (Z.compare_antisym a2 b2). destruct (a1 ?= b1); [by intros ->|done|done]. }
  induction 1 as [|y l Hs IH Hy]; [by repeat constructor|]. cbn. destruct (pair_compare x y) eqn:E.
  - by constructor.
  - constructor; [by constructor|]. constructor; [done|]. eapply Forall_impl; [exact Hy|]. intros z Hz. rewrite Hlt in *. lia.
  - constructor; [done|]. apply Forall_forall. intros z [->|Hz]%set_insert_in; [by apply Hgt|]. by apply (proj1 (Forall_forall _ _) Hy).
Qed.
Lemma edit_ok_apply e f : edit_ok e -> field_ok f -> edit_ok (apply_field e f).
Proof.
  intros [Hf (U1 & U2 & U3 & U4 & U5) Hd Hn] Hok. unfold fields_of in Hf. rewrite !Forall_app in Hf. destruct Hf as (H1 & H2 & H3 & H4 & H5 & H6 & H7 & H8).
  split.
  - unfold fields_of. rewrite !Forall_app. destruct f; cbn; split_and!; try done; try (by constructor).
    + rewrite map_app, Forall_app. split; [done|]. by apply Forall_singleton.
    + rewrite Forall_map in *. apply Forall_forall. intros d [->|Hin]%set_insert_in; [done|]. by apply (proj1 (Forall_forall _ _) H7).
    + rewrite map_app, Forall_app. split; [done|]. by apply Forall_singleton.
  - by destruct f.
  - destruct f; try done. by apply set_insert_sorted.
  - destruct f; try done. cbn. rewrite Forall_app. split; [done|]. by apply Forall_singleton.
Qed.
Lemma edit_ok_made fs : Forall field_ok fs -> edit_ok (foldl apply_field NewVersionEdit fs).
Proof.
  intros H. assert (H0 : edit_ok NewVersionEdit) by (split; try done; constructor). revert H0. generalize NewVersionEdit.
  induction H as [|f fs Hf _ IH]; intros e He; [done|]. cbn. by apply IH, edit_ok_apply.
Qed.

(** C34: An edit that the setters made, from a new one and with numbers of 64 bits, levels that exist,
    internal keys that are not invalid (not empty, which [InternalKey::Encode] asserts) and strings shorter
    than 2^32, is encoded behind whatever is there, and decoded again: into a new edit it is the same; into
    one that was used before, the compaction pointers of that one stay in front. *)
Theorem version_edit_round_trip fs e0 dst : Forall field_ok fs ->
  let e := foldl apply_field NewVersionEdit fs in
  exists src, EncodeTo e dst = Some (dst ++ src) /\ Forall byte src /\
    DecodeFrom src NewVersionEdit = Some (Status_OK, e) /\
    DecodeFrom src e0 = Some (Status_OK, set_lists (compact_pointers_ e0 ++ compact_pointers_ e) (deleted_files_ e) (new_files_ e) e).
Proof.
  intros Hfs e. pose proof (edit_ok_made fs Hfs) as He. fold e in He. destruct (EncodeTo_puts e He dst) as (src & E & Hb & Bb). exists src. split; [done|]. split; [done|].
  assert (Hd : forall e1, DecodeFrom src e1 = Some (Status_OK, set_lists (compact_pointers_ e1 ++ compact_pointers_ e) (deleted_files_ e) (new_files_ e) e)).
  { intros e1. unfold DecodeFrom. rewrite (decode_loop_complete (length src) (Clear e1) (fields_of e) src Hb Bb ltac:(done)). cbn. by rewrite apply_fields_of. }
  split; [|apply Hd]. rewrite Hd. by destruct e.
Qed.

Module VersionEditExample.
(** A decoded edit may hold an invalid key, which cannot be encoded. *)
Example invalid_key : exists e, DecodeFrom [5; 1; 0] NewVersionEdit = Some (Status_OK, e) /\ compact_pointers_ e = [(1, [])] /\ EncodeTo e [] = None.
Proof. eexists. split; [vm_compute; reflexivity|]. split; vm_compute; reflexivity. Qed.

Definition made : list Field := [FLogNumber 300; FComparator [108]; FDeletedFile 2 9; FDeletedFile 1 11; FNewFile 0 12 4096 [1; 2] [3]; FCompactPointer 6 [5]; FLogNumber 301].
Lemma made_ok : Forall field_ok made.
Proof.
  unfold made. rewrite !Forall_cons. unfold field_ok, u64_ok, level_ok, key_valid, string_ok, kNumLevels. split_and!; try lia; try done; try (repeat constructor; lia).
Qed.
Lemma version_edit_round_trip_witness :
  let e := foldl apply_field NewVersionEdit made in
  log_number_ e = 301 /\ deleted_files_ e = [(1, 11); (2, 9)] /\
  exists src, EncodeTo e [7] = Some ([7] ++ src) /\ Forall byte src /\ DecodeFrom src NewVersionEdit = Some (Status_OK, e) /\
    DecodeFrom src e = Some (Status_OK, set_lists [(6, [5]); (6, [5])] (deleted_files_ e) (new_files_ e) e).
Proof.
  intros e. split; [reflexivity|]. split; [reflexivity|]. exact (version_edit_round_trip made e [7] made_ok).
Defined.
(** A tag that is none, a level that is none, and a field that is cut off. *)
Example corrupt : (fun src => fst <$> DecodeFrom src NewVersionEdit) <$> [[8]; [6; 7; 1]; [2]; [128]] =
  map (fun msg => Some (Status_Corruption (bytes_of "VersionEdit") (bytes_of msg))) ["unknown tag"; "deleted file"; "log number"; "invalid tag"]%string.
Proof. vm_compute. reflexivity. Qed.
End VersionEditExample.
