(* ===== verification/Arena.v ===== *)
(** LevelDB's arena (leveldb-library/util/arena.h and .cc), from which the memory table takes its
    entries and the nodes of its skip list.

    An address is a number.  [new char[n]] is a parameter, a function of the blocks that were given
    out before with their sizes; [None]: it throws, and the caller does not go on.  [blocks_] keeps the
    sizes as well. *)
From S2P Require Import Prelude.

Class Allocator := { new_array : list (Z * Z) -> Z -> option Z }.

(** [r] and [s] have no byte in common; [r] lies inside [s]. *)
Definition apart (r s : Z * Z) : Prop := fst r + snd r <= fst s \/ fst s + snd s <= fst r.
Definition inside (r s : Z * Z) : Prop := fst s <= fst r /\ fst r + snd r <= fst s + snd s.

(** What [new char[n]] promises: memory that nobody else has, aligned for any object. *)
Class AllocatorLaws (A : Allocator) := {
  new_array_spec blocks n p : new_array blocks n = Some p ->
    0 < p /\ p mod 8 = 0 /\ p + n <= 2 ^ 64 /\ Forall (apart (p, n)) blocks
}.

Record Arena := {
  alloc_ptr_ : Z;
  alloc_bytes_remaining_ : Z;
  blocks_ : list (Z * Z);
  memory_usage_ : Z
}.

(** [kBlockSize] of arena.cc. *)
Definition kArenaBlockSize : Z := 4096.
Definition NewArena : Arena := {| alloc_ptr_ := 0; alloc_bytes_remaining_ := 0; blocks_ := []; memory_usage_ := 0 |}.
Definition MemoryUsage (a : Arena) : Z := memory_usage_ a.

(** [result = alloc_ptr_ + skip; alloc_ptr_ += skip + bytes; alloc_bytes_remaining_ -= skip + bytes;] *)
Definition bump (skip bytes : Z) : D Arena Z := fun a =>
  Some (alloc_ptr_ a + skip,
        {| alloc_ptr_ := alloc_ptr_ a + (skip + bytes); alloc_bytes_remaining_ := alloc_bytes_remaining_ a - (skip + bytes);
           blocks_ := blocks_ a; memory_usage_ := memory_usage_ a |}).

Section arena.
Context {A : Allocator}.

Definition AllocateNewBlock (block_bytes : Z) : D Arena Z := fun a =>
  match new_array (blocks_ a) block_bytes with
  | None => None
  | Some result =>
      Some (result, {| alloc_ptr_ := alloc_ptr_ a; alloc_bytes_remaining_ := alloc_bytes_remaining_ a;
                       blocks_ := blocks_ a ++ [(result, block_bytes)];
                       memory_usage_ := u64 (memory_usage_ a + (block_bytes + 8)) |})
  end.

Definition AllocateFallback (bytes : Z) : D Arena Z :=
  if kArenaBlockSize / 4 <? bytes then AllocateNewBlock bytes
  else
    let! p := AllocateNewBlock kArenaBlockSize in
    let! _ := dmodify (fun a => {| alloc_ptr_ := p; alloc_bytes_remaining_ := kArenaBlockSize;
                                   blocks_ := blocks_ a; memory_usage_ := memory_usage_ a |}) in
    bump 0 bytes.

Definition Allocate (bytes : Z) : D Arena Z :=
  let! a := dget in
  if bytes <=? alloc_bytes_remaining_ a then bump 0 bytes else AllocateFallback bytes.

Definition AllocateAligned (bytes : Z) : D Arena Z :=
  let! a := dget in
  let current_mod := alloc_ptr_ a &. 7 in
  let slop := if current_mod =? 0 then 0 else 8 - current_mod in
  let needed := u64 (bytes + slop) in
  if needed <=? alloc_bytes_remaining_ a then bump slop bytes else AllocateFallback bytes.
End arena.

(** The arena gives out regions that have no byte in common, and knows what it has taken. *)

(** ** What is given out *)

Inductive request := Bytes (n : Z) | Aligned (n : Z).
Definition asked (r : request) : Z := match r with Bytes n | Aligned n => n end.

Section allocations.
Context {A : Allocator}.

Definition allocate (r : request) : D Arena Z := match r with Bytes n => Allocate n | Aligned n => AllocateAligned n end.
Fixpoint allocations (rs : list request) : D Arena (list (Z * Z)) :=
  match rs with
  | [] => dret []
  | r :: rs => let! p := allocate r in let! l := allocations rs in dret ((p, asked r) :: l)
  end.

(** The system refuses the block that the request needs: what is left of the current block is not
    enough, and with the blocks that the arena has, [new] throws for another. *)
Definition slop (a : Arena) : Z := let current_mod := alloc_ptr_ a &. 7 in if current_mod =? 0 then 0 else 8 - current_mod.
Definition needed (r : request) (a : Arena) : Z := match r with Bytes n => n | Aligned n => u64 (n + slop a) end.
Definition block_for (n : Z) : Z := if kArenaBlockSize / 4 <? n then n else kArenaBlockSize.
Definition denied (r : request) (a : Arena) : Prop := alloc_bytes_remaining_ a < needed r a /\ new_array (blocks_ a) (block_for (asked r)) = None.
(** One of the requests, when those before it were met. *)
Definition starved (rs : list request) (a : Arena) : Prop :=
  exists met r rest l a', rs = met ++ r :: rest /\ allocations met a = Some (l, a') /\ denied r a'.

(** The blocks and, for each, the pointer to it. *)
Definition footprint (blocks : list (Z * Z)) : Z := foldr (fun b n => snd b + 8 + n) 0 blocks.

(** The arena has given out [regions]. *)
Record arena_inv (a : Arena) (regions : list (Z * Z)) : Prop := {
  blocks_apart : ForallOrdPairs apart (blocks_ a);
  blocks_above : Forall (fun b => 0 < fst b /\ fst b + snd b <= 2 ^ 64) (blocks_ a);
  regions_apart : ForallOrdPairs apart ((alloc_ptr_ a, alloc_bytes_remaining_ a) :: regions);
  free_inside : (alloc_ptr_ a, alloc_bytes_remaining_ a) = (0, 0) \/
    0 <= alloc_bytes_remaining_ a /\ Exists (inside (alloc_ptr_ a, alloc_bytes_remaining_ a)) (blocks_ a);
  regions_inside : Forall (fun r => 0 < snd r /\ Exists (inside r) (blocks_ a)) regions;
  usage_exact : memory_usage_ a = u64 (footprint (blocks_ a))
}.

Lemma footprint_app b c : footprint (b ++ c) = footprint b + footprint c.
Proof. unfold footprint. rewrite foldr_app. induction b as [|x b IH]; cbn; [done|]. rewrite IH. lia. Qed.

Lemma apart_sym r s : apart r s -> apart s r.
Proof. unfold apart. tauto. Qed.

Lemma apart_inside r r' s s' : inside r r' -> inside s s' -> apart r' s' -> apart r s.
Proof. unfold apart, inside. lia. Qed.

Lemma inside_refl r : inside r r.
Proof. unfold inside. lia. Qed.

Lemma pairs_cons {X} (R : X -> X -> Prop) l x : ForallOrdPairs R (x :: l) <-> Forall (R x) l /\ ForallOrdPairs R l.
Proof. split; [by inversion 1|intros [? ?]; by constructor]. Qed.

Lemma pairs_app_one {X} (R : X -> X -> Prop) l x : (forall a b, R a b -> R b a) ->
  ForallOrdPairs R l -> Forall (R x) l -> ForallOrdPairs R (l ++ [x]).
Proof.
  intros Hsym. induction 1 as [|a l Ha Hl IH]; intros Hx; cbn [app]; [repeat constructor|].
  apply Forall_cons in Hx as [Hxa Hx]. constructor; [|by apply IH]. apply Forall_app. split; [done|]. by repeat constructor; apply Hsym.
Qed.

(** A region inside a block that is apart from all others is apart from what is inside those. *)
Lemma apart_other b blocks r s : Forall (apart b) blocks -> inside r b -> Exists (inside s) blocks -> apart r s.
Proof.
  intros Hb Hr (c & Hc & Hs)%Exists_exists. rewrite Forall_forall in Hb. by eapply apart_inside; [..|apply Hb].
Qed.

Context {L : AllocatorLaws A}.

Lemma inv_new : arena_inv NewArena [].
Proof. split; cbn; repeat constructor. Qed.

(** Taking a part of the free bytes. *)
Lemma bump_spec a regions skip n : arena_inv a regions -> 0 <= skip -> 0 < n -> skip + n <= alloc_bytes_remaining_ a ->
  exists a', bump skip n a = Some (alloc_ptr_ a + skip, a') /\ arena_inv a' ((alloc_ptr_ a + skip, n) :: regions).
Proof.
  intros [Hba Hbp Hra Hfi Hri Hu] Hs Hn Hle. eexists. split; [reflexivity|].
  apply pairs_cons in Hra as [Hf Hra].
  destruct Hfi as [[= E1 E2]|[Hrem Hfi]]; [lia|].
  assert (Hsub : forall q m, alloc_ptr_ a <= q -> q + m <= alloc_ptr_ a + alloc_bytes_remaining_ a -> Forall (apart (q, m)) regions).
  { intros q m Hq Hm. eapply Forall_impl; [exact Hf|]. intros r. apply apart_inside; [|apply inside_refl]. by split. }
  split; cbn; try done.
  - rewrite !pairs_cons, Forall_cons. split_and!; [unfold apart; cbn; lia|apply Hsub; lia|apply Hsub; lia|done].
  - right. split; [lia|]. eapply Exists_impl; [exact Hfi|]. unfold inside. cbn. lia.
  - constructor; [|done]. split; [done|]. eapply Exists_impl; [exact Hfi|]. unfold inside. cbn. lia.
Qed.

Lemma new_block_spec a regions n : arena_inv a regions -> 0 < n -> match AllocateNewBlock n a with
  | Some (p, a') => 0 < p /\ p mod 8 = 0 /\ blocks_ a' = blocks_ a ++ [(p, n)] /\ Forall (apart (p, n)) (blocks_ a) /\ arena_inv a' regions /\
      alloc_ptr_ a' = alloc_ptr_ a /\ alloc_bytes_remaining_ a' = alloc_bytes_remaining_ a
  | None => new_array (blocks_ a) n = None
  end.
Proof.
  intros [Hba Hbp Hra Hfi Hri Hu] Hn. unfold AllocateNewBlock. destruct (new_array (blocks_ a) n) as [p|] eqn:E; [|done].
  apply new_array_spec in E as (Hp & Hm & Hmax & Hap). split_and!; try done. split; cbn; try done.
  - apply pairs_app_one; [apply apart_sym|done..].
  - apply Forall_app. split; [done|]. by repeat constructor.
  - destruct Hfi as [|[? ?]]; [by left|right]. split; [done|]. apply Exists_app. by left.
  - eapply Forall_impl; [exact Hri|]. cbn. intros r [? ?]. split; [done|]. apply Exists_app. by left.
  - rewrite footprint_app, Hu. cbn. unfold u64. rewrite Zplus_mod_idemp_l. f_equal. lia.
Qed.

Lemma fresh_apart a regions p n q m : arena_inv a regions -> Forall (apart (p, n)) (blocks_ a) -> 0 < p -> 0 < n -> inside (q, m) (p, n) ->
  Forall (apart (q, m)) ((alloc_ptr_ a, alloc_bytes_remaining_ a) :: regions).
Proof.
  intros [_ _ _ Hfi Hri _] Hap Hp Hn Hin. constructor.
  - destruct Hfi as [->|[_ Hfi]]; [unfold apart, inside in *; cbn in *; lia|]. by eapply apart_other.
  - eapply Forall_impl; [exact Hri|]. intros r [_ Hr]. by eapply apart_other.
Qed.

Lemma fallback_spec a regions n : arena_inv a regions -> 0 < n -> match AllocateFallback n a with
  | Some (p, a') => 0 < p /\ p mod 8 = 0 /\ arena_inv a' ((p, n) :: regions)
  | None => new_array (blocks_ a) (block_for n) = None
  end.
Proof.
  intros Hinv Hn. unfold AllocateFallback, block_for. change (kArenaBlockSize / 4) with 1024. destruct (Z.ltb_spec 1024 n) as [Hbig|Hsmall].
  - pose proof (new_block_spec a regions n Hinv Hn) as H. destruct (AllocateNewBlock n a) as [[p a']|]; [|done].
    destruct H as (Hp & Hm & Hb & Hap & Hinv' & Eptr & Erem). split; [done|]. split; [done|].
    pose proof (fresh_apart a regions p n p n Hinv Hap Hp Hn (inside_refl _)) as Hf. rewrite <- Eptr, <- Erem in Hf.
    destruct Hinv' as [Hba Hbp Hra Hfi Hri Hu]. apply Forall_cons in Hf as [Hf1 Hf2]. apply pairs_cons in Hra as [Hra1 Hra2]. split; try done.
    + rewrite !pairs_cons, Forall_cons. split_and!; try done. by apply apart_sym.
    + constructor; [|done]. split; [done|]. rewrite Hb. apply Exists_app. right. constructor. apply inside_refl.
  - unfold dbind. pose proof (new_block_spec a regions kArenaBlockSize Hinv ltac:(done)) as H.
    destruct (AllocateNewBlock kArenaBlockSize a) as [[p a']|]; [|done].
    destruct H as (Hp & Hm & Hb & Hap & Hinv' & Eptr & Erem). unfold dmodify.
    match goal with |- context [bump 0 n ?x] => set (a2 := x) end.
    assert (Hinv2 : arena_inv a2 regions).
    { pose proof (fresh_apart a regions p kArenaBlockSize p kArenaBlockSize Hinv Hap Hp ltac:(done) (inside_refl _)) as Hf.
      destruct Hinv' as [Hba Hbp Hra Hfi Hri Hu]. apply Forall_cons in Hf as [_ Hf]. apply pairs_cons in Hra as [_ Hra].
      split; cbn; try done; [by rewrite pairs_cons|]. right. split; [done|]. rewrite Hb. apply Exists_app. right. constructor. apply inside_refl. }
    destruct (bump_spec a2 regions 0 n Hinv2) as (a3 & E & Hinv3); [lia|done|cbn; unfold kArenaBlockSize; lia|].
    rewrite E. cbn [a2 alloc_ptr_] in *. rewrite Z.add_0_r in *. done.
Qed.

Lemma inv_region_above a regions p n : arena_inv a ((p, n) :: regions) -> 0 < p.
Proof.
  intros [_ Hbp _ _ Hri _]. apply Forall_cons in Hri as [[_ ((q & m) & Hin & Hq)%Exists_exists] _].
  rewrite Forall_forall in Hbp. apply Hbp in Hin. unfold inside in Hq. cbn in *. lia.
Qed.

Lemma slop_spec p : let m := p &. 7 in let slop := if m =? 0 then 0 else 8 - m in 0 <= slop < 8 /\ (p + slop) mod 8 = 0.
Proof.
  cbv zeta. rewrite (land_ones_mod p 3 7) by lia. change (2 ^ 3) with 8.
  destruct (Z.eqb_spec (p mod 8) 0); [rewrite Z.add_0_r; lia|]. pose proof (Z.mod_pos_bound p 8 ltac:(lia)). split; [lia|].
  rewrite <- Zplus_mod_idemp_l. replace (p mod 8 + (8 - p mod 8)) with 8 by lia. done.
Qed.

(** One request: a region that is apart from all others, or the system refused its block. *)
Lemma allocate_spec r a regions : arena_inv a regions -> 0 < asked r <= 2 ^ 63 -> match allocate r a with
  | Some (p, a') => 0 < p /\ (forall n, r = Aligned n -> p mod 8 = 0) /\ arena_inv a' ((p, asked r) :: regions)
  | None => denied r a
  end.
Proof.
  intros Hinv Hn. assert (Hfall : alloc_bytes_remaining_ a < needed r a -> match AllocateFallback (asked r) a with
    | Some (p, a') => 0 < p /\ (forall n, r = Aligned n -> p mod 8 = 0) /\ arena_inv a' ((p, asked r) :: regions)
    | None => denied r a end).
  { intros Hneed. pose proof (fallback_spec a regions (asked r) Hinv ltac:(lia)) as H. destruct (AllocateFallback (asked r) a) as [[p a']|]; [|by split].
    by destruct H as (? & ? & ?). }
  destruct r as [n|n]; cbn [allocate asked needed] in *; [unfold Allocate|unfold AllocateAligned]; unfold dbind, dget.
  - destruct (Z.leb_spec n (alloc_bytes_remaining_ a)); [|by apply Hfall].
    destruct (bump_spec a regions 0 n Hinv) as (a' & -> & Hinv'); [lia..|]. split; [by eapply inv_region_above|done].
  - fold (slop a). pose proof (slop_spec (alloc_ptr_ a)) as Hs. cbv zeta in Hs. fold (slop a) in Hs. destruct Hs as [Hs Hm]. rewrite u64_id in Hfall |- * by lia.
    destruct (Z.leb_spec (n + slop a) (alloc_bytes_remaining_ a)); [|by apply Hfall].
    destruct (bump_spec a regions (slop a) n Hinv) as (a' & -> & Hinv'); [lia..|]. split; [by eapply inv_region_above|].
    split; [by intros ? _|done].
Qed.

(** And then it does not return. *)
Lemma denied_none r a : denied r a -> allocate r a = None.
Proof.
  intros [Hneed Hnew]. assert (Hf : AllocateFallback (asked r) a = None).
  { unfold block_for in Hnew. unfold AllocateFallback. destruct (kArenaBlockSize / 4 <? asked r); unfold dbind, AllocateNewBlock; by rewrite Hnew. }
  destruct r as [n|n]; cbn [allocate asked needed] in *; [unfold Allocate|unfold AllocateAligned]; unfold dbind, dget; [|fold (slop a)];
    by rewrite (proj2 (Z.leb_gt _ _)).
Qed.

Lemma allocations_spec rs a regions : arena_inv a regions -> Forall (fun r => 0 < asked r <= 2 ^ 63) rs -> match allocations rs a with
  | Some (l, a') => arena_inv a' (rev l ++ regions) /\ map snd l = map asked rs /\
      Forall2 (fun r q => 0 < fst q /\ forall n, r = Aligned n -> fst q mod 8 = 0) rs l
  | None => starved rs a
  end.
Proof.
  revert a regions. induction rs as [|r rs IH]; intros a regions Hinv Hrs; cbn [allocations]; [split; [done|]; split; [done|constructor]|].
  apply Forall_cons in Hrs as [Hr Hrs]. unfold dbind. pose proof (allocate_spec r a regions Hinv Hr) as H.
  destruct (allocate r a) as [[p a']|] eqn:E; [|by exists [], r, rs, [], a]. destruct H as (Hp & Hal & Hinv'). specialize (IH a' _ Hinv' Hrs).
  destruct (allocations rs a') as [[l a'']|].
  - destruct IH as (Hinv2 & Hl & Hf). unfold dret. cbn [rev map].
    rewrite <- app_assoc. split; [done|]. split; [cbn; by f_equal|]. by constructor.
  - destruct IH as (met & r' & rest & l & a2 & -> & El & Hd). exists (r :: met), r', rest, ((p, asked r) :: l), a2. split; [done|]. split; [|done].
    cbn [allocations]. unfold dbind. by rewrite E, El.
Qed.

Lemma pairs_app {X} (R : X -> X -> Prop) l k : ForallOrdPairs R (l ++ k) -> ForallOrdPairs R l.
Proof.
  induction l as [|x l IH]; [constructor|]. cbn [app]. rewrite !pairs_cons, Forall_app. intros [[? _] ?]. by split; [|apply IH].
Qed.

Lemma pairs_rev {X} (R : X -> X -> Prop) l : (forall a b, R a b -> R b a) -> ForallOrdPairs R l -> ForallOrdPairs R (rev l).
Proof.
  intros Hsym. induction 1 as [|x l Hx Hl IH]; cbn [rev]; [constructor|]. apply pairs_app_one; [done..|]. by apply Forall_rev.
Qed.

(** C38: whatever is asked of a new arena, in any order, every pointer it returns begins a region of
    the size asked for inside one of its blocks, no two of the regions have a byte in common,
    pointers are aligned when that was asked for, and [MemoryUsage] is what the blocks and the
    pointers to them take; it does not return only at a request whose block the system refuses. *)
Theorem arena_regions_apart rs : Forall (fun r => 0 < asked r <= 2 ^ 63) rs -> match allocations rs NewArena with
  | Some (l, a) => map snd l = map asked rs /\ ForallOrdPairs apart l /\
      Forall (fun q => Exists (inside q) (blocks_ a)) l /\
      Forall2 (fun r q => 0 < fst q /\ forall n, r = Aligned n -> fst q mod 8 = 0) rs l /\
      MemoryUsage a = u64 (footprint (blocks_ a))
  | None => starved rs NewArena
  end.
Proof.
  intros Hrs. pose proof (allocations_spec rs NewArena [] inv_new Hrs) as H. destruct (allocations rs NewArena) as [[l a]|]; [|done].
  destruct H as ([_ _ Hra _ Hri Hu] & Hl & Hf). rewrite app_nil_r in *. apply pairs_cons in Hra as [_ Hra]. split_and!; try done.
  - rewrite <- (rev_involutive l). apply pairs_rev; [apply apart_sym|done].
  - apply Forall_rev in Hri. rewrite rev_involutive in Hri. eapply Forall_impl; [exact Hri|]. by intros r [_ ?].
Qed.
End allocations.

(** ** An allocator *)

(** Blocks one behind the other, up to 2^46 bytes. *)
Definition bump_allocator : Allocator := {|
  new_array blocks n :=
    let top := foldr (fun b => Z.max (fst b + snd b)) 16 blocks in
    let p := (top + 15) / 16 * 16 in
    if (0 <=? n) && (p + n <=? 2 ^ 46) then Some p else None
|}.

#[export] Instance bump_allocator_laws : AllocatorLaws bump_allocator.
Proof.
  split. intros blocks n p. cbn [new_array bump_allocator]. set (top := foldr _ _ _).
  assert (Htop : 16 <= top /\ Forall (fun b => fst b + snd b <= top) blocks).
  { unfold top. induction blocks as [|b l [IH1 IH2]]; cbn [foldr]; [split; [done|constructor]|]. split; [lia|].
    constructor; [lia|]. eapply Forall_impl; [exact IH2|]. cbn. lia. }
  destruct (Z.leb_spec 0 n), (Z.leb_spec ((top + 15) / 16 * 16 + n) (2 ^ 46)); cbn [andb]; try done. intros [= <-].
  pose proof (Z_div_mod_eq_full (top + 15) 16). pose proof (Z.mod_pos_bound (top + 15) 16 ltac:(lia)).
  split_and!; [lia|replace ((top + 15) / 16 * 16) with ((top + 15) / 16 * 2 * 8) by lia; by apply Z_mod_mult|lia|].
  eapply Forall_impl; [apply Htop|]. intros b Hb. right. cbn in *. lia.
Qed.

Lemma arena_regions_apart_witness :
  let rs := [Bytes 10; Aligned 24; Bytes 5000; Bytes 1; Aligned 4000] in
  Forall (fun r => 0 < asked r <= 2 ^ 63) rs /\
  match allocations (A := bump_allocator) rs NewArena with
  | Some (l, a) => ForallOrdPairs apart l /\ MemoryUsage a = 4104 + 5008
  | None => False
  end.
Proof.
  intros rs. assert (H : Forall (fun r => 0 < asked r <= 2 ^ 63) rs) by (repeat constructor; vm_compute; congruence).
  split; [exact H|]. pose proof (arena_regions_apart (A := bump_allocator) rs H) as P.
  destruct (allocations rs NewArena) as [[l a]|] eqn:E; [|vm_compute in E; discriminate].
  destruct P as (_ & Hap & _). split; [exact Hap|]. vm_compute in E. injection E as <- <-. reflexivity.
Defined.
