(* ===== verification/Random.v ===== *)
(** LevelDB's pseudo-random numbers (leveldb-library/util/random.h), which choose the heights of the
    nodes of a skip list. *)
From S2P Require Import Prelude.

(** [seed_], of 32 bits. *)
Definition NewRandom (s : Z) : Z :=
  let seed := s &. 0x7fffffff in
  if (seed =? 0) || (seed =? 2147483647) then 1 else seed.

(** The number, which is the new seed as well. *)
Definition Random_Next (seed : Z) : Z :=
  let M := 2147483647 in
  let A := 16807 in
  let product := u64 (seed * A) in
  let seed := u32 (u64 ((product >> 31) + (product &. M))) in
  if M <? seed then u32 (seed - M) else seed.

(** [Next() % n] converts the [int] [n] to unsigned. *)
Definition Uniform (n seed : Z) : Z * Z := let seed := Random_Next seed in (seed mod u32 n, seed).
Definition OneIn (n seed : Z) : bool * Z := let seed := Random_Next seed in (seed mod u32 n =? 0, seed).
Definition Skewed (max_log seed : Z) : Z * Z :=
  let (base, seed) := Uniform (max_log + 1) seed in Uniform (1 << base) seed.

Definition good_seed (seed : Z) : Prop := 0 < seed < 2147483647.

Lemma NewRandom_good s : good_seed (NewRandom s).
Proof.
  unfold NewRandom, good_seed. rewrite (land_ones_mod s 31 0x7fffffff) by lia. change (2 ^ 31) with 2147483648.
  pose proof (Z.mod_pos_bound s 2147483648 ltac:(lia)).
  destruct (Z.eqb_spec (s mod 2147483648) 0), (Z.eqb_spec (s mod 2147483648) 2147483647); cbn [orb]; lia.
Qed.

(** The product taken modulo 2^31 - 1 by adding its two halves. *)
Lemma Random_Next_mod seed : good_seed seed -> Random_Next seed = seed * 16807 mod 2147483647 /\ good_seed (Random_Next seed).
Proof.
  unfold good_seed. intros Hs. set (x := seed * 16807).
  assert (E : Random_Next seed = let s := x / 2147483648 + x mod 2147483648 in if 2147483647 <? s then s - 2147483647 else s).
  { unfold Random_Next. fold x. rewrite (u64_id x) by lia. rewrite (land_ones_mod x 31 2147483647), shiftr_div by lia.
    change (2 ^ 31) with 2147483648. pose proof (Z.mod_pos_bound x 2147483648 ltac:(lia)).
    assert (0 <= x / 2147483648 < 16807) by (split; [apply Z.div_pos; lia|apply Z.div_lt_upper_bound; lia]).
    rewrite u64_id, u32_id by lia. cbv zeta. destruct (Z.ltb_spec 2147483647 (x / 2147483648 + x mod 2147483648)); [|done].
    rewrite u32_id; lia. }
  rewrite E. cbv zeta. pose proof (Z_div_mod_eq_full x 2147483648). pose proof (Z.mod_pos_bound x 2147483648 ltac:(lia)).
  assert (0 <= x / 2147483648 < 16807) by (split; [apply Z.div_pos; lia|apply Z.div_lt_upper_bound; lia]).
  assert (Hne : x mod 2147483647 <> 0).
  { intros Hd. apply Z.mod_divide in Hd; [|lia]. unfold x in Hd. rewrite Z.mul_comm in Hd. apply Z.gauss in Hd; [|done].
    apply Z.divide_pos_le in Hd; lia. }
  pose proof (Z_div_mod_eq_full x 2147483647). pose proof (Z.mod_pos_bound x 2147483647 ltac:(lia)).
  destruct (Z.ltb_spec 2147483647 (x / 2147483648 + x mod 2147483648)); split; try lia.
Qed.
