(* ===== verification/SkipList.v ===== *)
(** LevelDB's skip list (leveldb-library/db/skiplist.h): nodes with towers of links in an arena, random
    heights, search, insertion and iteration.

    A [Node*] is its address, [nullptr] is 0.  [heap] has the nodes that were made; a link of a new node
    holds no value before it is set.  Reading a link that holds none, or one that the tower does not
    have, leads nowhere: a function that returns has not done so.  Loads and stores are taken to happen one
    after the other, in the order of the program. *)
From stdpp Require Import gmap.
From S2P Require Import Prelude Arena Random.

Definition kMaxHeight : nat := 12.
Definition kBranching : Z := 4.

Record Node (K : Type) := { node_key : K; next_ : list (option Z) }.
Arguments node_key {K}.
Arguments next_ {K}.
Arguments Build_Node {K}.

(** [max_height_] counts levels; [rnd_] is a seed. *)
Record SkipList (K : Type) := {
  arena_ : Arena;
  heap : gmap Z (Node K);
  head_ : Z;
  max_height_ : nat;
  rnd_ : Z
}.
Arguments arena_ {K}.
Arguments heap {K}.
Arguments head_ {K}.
Arguments max_height_ {K}.
Arguments rnd_ {K}.
Arguments Build_SkipList {K}.

Section skiplist.
Context {A : Allocator} {K : Type} (compare_ : K -> K -> comparison) (any_key : K).

Definition set_arena (a : Arena) (s : SkipList K) : SkipList K := Build_SkipList a (heap s) (head_ s) (max_height_ s) (rnd_ s).
Definition set_heap (h : gmap Z (Node K)) (s : SkipList K) : SkipList K := Build_SkipList (arena_ s) h (head_ s) (max_height_ s) (rnd_ s).
Definition set_head (x : Z) (s : SkipList K) : SkipList K := Build_SkipList (arena_ s) (heap s) x (max_height_ s) (rnd_ s).
Definition set_max_height (n : nat) (s : SkipList K) : SkipList K := Build_SkipList (arena_ s) (heap s) (head_ s) n (rnd_ s).
Definition set_rnd (r : Z) (s : SkipList K) : SkipList K := Build_SkipList (arena_ s) (heap s) (head_ s) (max_height_ s) r.

(** The link of a node. *)
Definition link (h : gmap Z (Node K)) (x : Z) (n : nat) : option Z :=
  match h !! x with Some node => match next_ node !! n with Some (Some y) => Some y | _ => None end | None => None end.

Definition Node_Next (x : Z) (n : nat) : D (SkipList K) Z := fun s =>
  match link (heap s) x n with Some y => Some (y, s) | None => None end.
Definition SetNext (x : Z) (n : nat) (y : Z) : D (SkipList K) unit := fun s =>
  match heap s !! x with
  | Some node =>
      if decide (n < length (next_ node))%nat
      then Some (tt, set_heap (<[x := {| node_key := node_key node; next_ := <[n := Some y]> (next_ node) |}]> (heap s)) s)
      else None
  | None => None
  end.
Definition Node_key (x : Z) : D (SkipList K) K := fun s =>
  match heap s !! x with Some node => Some (node_key node, s) | None => None end.

(** [sizeof(Node)] is 16: the key is a pointer. *)
Definition NewNode (key : K) (height : nat) : D (SkipList K) Z := fun s =>
  match AllocateAligned (u64 (16 + 8 * (Z.of_nat height - 1))) (arena_ s) with
  | Some (node_memory, a) =>
      Some (node_memory,
            set_heap (<[node_memory := {| node_key := key; next_ := replicate height None |}]> (heap s)) (set_arena a s))
  | None => None
  end.

(** [while (height < kMaxHeight && (rnd_.Next() % kBranching) == 0)], with [rounds] levels left. *)
Fixpoint random_height_loop (rounds height : nat) (seed : Z) : nat * Z :=
  match rounds with
  | O => (height, seed)
  | S rounds =>
      let seed := Random_Next seed in
      if seed mod kBranching =? 0 then random_height_loop rounds (S height) seed else (height, seed)
  end.
Definition RandomHeight : D (SkipList K) nat := fun s =>
  let (height, seed) := random_height_loop (kMaxHeight - 1) 1 (rnd_ s) in Some (height, set_rnd seed s).

Definition KeyIsAfterNode (key : K) (n : Z) : D (SkipList K) bool :=
  if n =? 0 then dret false
  else let! k := Node_key n in dret (match compare_ k key with Lt => true | _ => false end).

(** One turn of the loops of [FindGreaterOrEqual], [FindLessThan] and [FindLast] at [x] and [level]: the
    link there, and whether to go on along it, which is all they differ in. *)
Definition turn (go_on : Z -> D (SkipList K) bool) (x : Z) (level : nat) : D (SkipList K) (Z * bool) :=
  let! next := Node_Next x level in
  let! b := go_on next in
  dret (next, b).

(** The node where the loop ends, the link behind it, and [prev]. *)
Fixpoint descend (fuel : nat) (go_on : Z -> D (SkipList K) bool) (prev : list (option Z)) (x : Z) (level : nat) :
    D (SkipList K) (Z * Z * list (option Z)) :=
  match fuel with
  | O => running
  | S fuel =>
      let! '(next, b) := turn go_on x level in
      if (b : bool) then descend fuel go_on prev next level
      else
        let prev := <[level := Some x]> prev in
        match level with
        | O => dret (x, next, prev)
        | S level => descend fuel go_on prev x level
        end
  end.

(** Every turn goes down a level or along the list. *)
Definition search (go_on : Z -> D (SkipList K) bool) : D (SkipList K) (Z * Z * list (option Z)) := fun s =>
  descend (size (heap s) + kMaxHeight + 1) go_on (replicate kMaxHeight None) (head_ s) (max_height_ s - 1) s.

Definition FindGreaterOrEqual (key : K) : D (SkipList K) (Z * list (option Z)) :=
  let! '(_, next, prev) := search (KeyIsAfterNode key) in dret (next, prev).
Definition FindLessThan (key : K) : D (SkipList K) Z :=
  let! '(x, _, _) :=
    search (fun next =>
      if next =? 0 then dret false
      else let! k := Node_key next in dret (negb (match compare_ k key with Lt => false | _ => true end))) in
  dret x.
Definition FindLast : D (SkipList K) Z :=
  let! '(x, _, _) := search (fun next => dret (negb (next =? 0))) in dret x.

(** [for (int i = from; ...)], [n] times. *)
Fixpoint for_levels (n from : nat) (body : nat -> D (SkipList K) unit) : D (SkipList K) unit :=
  match n with
  | O => dret tt
  | S n => let! _ := body from in for_levels n (S from) body
  end.

Definition NewSkipList (arena : Arena) : D unit (SkipList K) := fun _ =>
  match (let! head := NewNode any_key kMaxHeight in
         let! _ := dmodify (set_head head) in
         for_levels kMaxHeight 0 (fun i => SetNext head i 0))
        {| arena_ := arena; heap := ∅; head_ := 0; max_height_ := 1; rnd_ := NewRandom 0xdeadbeef |} with
  | Some (_, s) => Some (s, tt)
  | None => None
  end.

(** [for (int i = GetMaxHeight(); i < height; i++) prev[i] = head_;] *)
Definition raise_prev (max_height height : nat) (head : Z) (prev : list (option Z)) : list (option Z) :=
  foldl (fun prev i => <[i := Some head]> prev) prev (seq max_height (height - max_height)).

(** [prev[i]]; stuck when it was not filled in. *)
Definition prev_at (prev : list (option Z)) (i : nat) : D (SkipList K) Z := fun s =>
  match prev !! i with Some (Some p) => Some (p, s) | _ => None end.

Definition link_level (x : Z) (prev : list (option Z)) (i : nat) : D (SkipList K) unit :=
  let! p := prev_at prev i in
  let! next := Node_Next p i in
  let! _ := SetNext x i next in
  SetNext p i x.

Definition Insert (key : K) : D (SkipList K) unit :=
  let! '(_, prev) := FindGreaterOrEqual key in
  let! height := RandomHeight in
  let! s := dget in
  let prev := if (max_height_ s <? height)%nat then raise_prev (max_height_ s) height (head_ s) prev else prev in
  let! _ := dmodify (fun s => if (max_height_ s <? height)%nat then set_max_height height s else s) in
  let! x := NewNode key height in
  for_levels height 0 (link_level x prev).

Definition Contains (key : K) : D (SkipList K) bool :=
  let! '(x, _) := FindGreaterOrEqual key in
  if x =? 0 then dret false
  else let! k := Node_key x in dret (match compare_ key k with Eq => true | _ => false end).

(** An [Iterator] is its [node_]. *)
Definition Iterator_Valid (node : Z) : bool := negb (node =? 0).
Definition Iterator_key (node : Z) : D (SkipList K) K := Node_key node.
Definition Iterator_Next (node : Z) : D (SkipList K) Z := Node_Next node 0.
Definition Iterator_Prev (node : Z) : D (SkipList K) Z :=
  let! k := Node_key node in
  let! x := FindLessThan k in
  let! s := dget in
  dret (if x =? head_ s then 0 else x).
Definition Iterator_Seek (target : K) : D (SkipList K) Z := let! '(x, _) := FindGreaterOrEqual target in dret x.
Definition Iterator_SeekToFirst : D (SkipList K) Z := let! s := dget in Node_Next (head_ s) 0.
Definition Iterator_SeekToLast : D (SkipList K) Z :=
  let! x := FindLast in
  let! s := dget in
  dret (if x =? head_ s then 0 else x).
End skiplist.
