(* ===== verification/SkipListLemmas.v ===== *)
(** The shape of a skip list: at every level the links lead along the elements that are linked there, in
    order.  Searching and linking in such a list. *)
From stdpp Require Import gmap sorting.
From S2P Require Import Prelude Comparator Arena Random SkipList.

(** ** Paths *)

(** The end of a chain of nodes that begins behind [x]. *)
Fixpoint end_of (x : Z) (c : list Z) : Z := match c with [] => x | y :: c => end_of y c end.

Lemma end_of_app x a b : end_of x (a ++ b) = end_of (end_of x a) b.
Proof. revert x. induction a as [|y a IH]; intros x; [done|apply IH]. Qed.

Lemma end_of_in x c : end_of x c = x \/ end_of x c ∈ c.
Proof.
  revert x. induction c as [|y c IH]; intros x; [by left|]. right. cbn. destruct (IH y) as [->|H]; set_solver.
Qed.

Section heap.
Context {K : Type}.
Implicit Types (h : gmap Z (Node K)) (x y p : Z) (c : list Z) (i j n : nat).

(** From [x] the links of level [j] lead to the nodes of [c], and there to the end. *)
Fixpoint path h j x c : Prop :=
  match c with
  | [] => link h x j = Some 0
  | y :: c => link h x j = Some y /\ path h j y c
  end.

Lemma path_link h j x c : path h j x c -> link h x j = Some (hd 0 c).
Proof. destruct c; [done|]. by intros [? _]. Qed.

Lemma path_app h j x a b : path h j x (a ++ b) -> path h j (end_of x a) b.
Proof. revert x. induction a as [|y a IH]; intros x; [done|]. cbn. intros [_ H]. by apply IH. Qed.

Lemma path_ext h h' j x c : (forall z, z = x \/ z ∈ c -> link h' z j = link h z j) -> path h j x c -> path h' j x c.
Proof.
  revert x. induction c as [|y c IH]; intros x H; cbn; [intros <-; apply H; by left|].
  intros [<- Hp]. split; [apply H; by left|]. apply IH; [|done]. intros z Hz. apply H. right. apply elem_of_cons. tauto.
Qed.

(** What does not change when a link is set: which nodes there are, their keys and their towers. *)
Definition shape h x : option (K * nat) := (fun nd => (node_key nd, length (next_ nd))) <$> h !! x.

Definition put_link x n y h : gmap Z (Node K) :=
  match h !! x with
  | Some nd => <[x := {| node_key := node_key nd; next_ := <[n := Some y]> (next_ nd) |}]> h
  | None => h
  end.

Lemma SetNext_spec (s : SkipList K) x n y k m : shape (heap s) x = Some (k, m) -> (n < m)%nat ->
  SetNext x n y s = Some (tt, set_heap (put_link x n y (heap s)) s).
Proof.
  unfold shape, SetNext, put_link. destruct (heap s !! x) as [nd|]; [|done]. intros [= <- <-] Hn. cbn [option_fmap option_map].
  by rewrite decide_True.
Qed.

Lemma shape_put x n y h z : shape (put_link x n y h) z = shape h z.
Proof.
  unfold shape, put_link. destruct (h !! x) as [nd|] eqn:E; [|done].
  destruct (decide (z = x)) as [->|]; [|by rewrite lookup_insert_ne]. rewrite lookup_insert_eq, E. cbn. by rewrite length_insert.
Qed.

Lemma link_put x n y h k m z i : shape h x = Some (k, m) -> (n < m)%nat ->
  link (put_link x n y h) z i = if decide (z = x /\ i = n) then Some y else link h z i.
Proof.
  unfold shape, put_link, link. destruct (h !! x) as [nd|] eqn:E; [|done]. intros [= <- <-] Hn. case_decide as Hd.
  - destruct Hd as [-> ->]. rewrite lookup_insert_eq. cbn. by rewrite list_lookup_insert_eq.
  - destruct (decide (z = x)) as [->|]; [|by rewrite lookup_insert_ne]. rewrite lookup_insert_eq, E. cbn.
    rewrite list_lookup_insert_ne; [done|]. intros ->. by apply Hd.
Qed.

Lemma link_shape h x j y : link h x j = Some y -> exists k m, shape h x = Some (k, m) /\ (j < m)%nat.
Proof.
  unfold link, shape. destruct (h !! x) as [nd|]; [|done]. destruct (next_ nd !! j) as [o|] eqn:E; [|done].
  intros _. eexists _, _. split; [done|]. by eapply lookup_lt_Some.
Qed.

(** Putting [y], which leads to the second chain already, between the ends of two chains. *)
Lemma path_insert h j x a y b k m : path h j x (a ++ b) -> NoDup (x :: a ++ b) -> y <> x -> y ∉ a ++ b ->
  link h y j = Some (hd 0 b) -> shape h (end_of x a) = Some (k, m) -> (j < m)%nat ->
  path (put_link (end_of x a) j y h) j x (a ++ y :: b).
Proof.
  intros Hp Hnd Hy Hya Hb Se Hje. set (h' := put_link _ _ _ _).
  assert (Hl : forall z, link h' z j = if decide (z = end_of x a) then Some y else link h z j).
  { intros z. unfold h'. rewrite (link_put _ _ _ _ k m) by done.
    destruct (decide (z = end_of x a)) as [->|]; [by rewrite decide_True|by rewrite decide_False by tauto]. }
  assert (Hey : end_of x a <> y) by (destruct (end_of_in x a) as [->|?]; set_solver).
  clearbody h'. clear Se. revert x Hp Hnd Hy Hl Hey. induction a as [|z a IH]; intros x Hp Hnd Hy Hl Hey; cbn [app path end_of] in *.
  - split; [by rewrite Hl, decide_True|]. apply NoDup_cons in Hnd as [Hx Hnd].
    destruct b as [|w b]; cbn [path hd] in *; rewrite Hl, decide_False by done; [done|]. split; [done|].
    destruct Hp as [_ Hp]. eapply path_ext; [|exact Hp]. intros u Hu. rewrite Hl, decide_False; [done|set_solver].
  - destruct Hp as [Hz Hp]. apply NoDup_cons in Hnd as [Hx Hnd]. split.
    + rewrite Hl, decide_False; [done|]. intros ->. destruct (end_of_in z a) as [E|E]; [rewrite E in Hx|]; set_solver.
    + apply IH; try done; set_solver.
Qed.
End heap.

(** ** The list *)

(** An element: its node, its key, and at how many levels it is linked. *)
Record elem (K : Type) := { loc : Z; key : K; lev : nat }.
Arguments loc {K}.
Arguments key {K}.
Arguments lev {K}.
Arguments Build_elem {K}.

Definition chain {K} (j : nat) (l : list (elem K)) : list Z := map loc (filter (fun e => (j < lev e)%nat) l).
Definition first {K} (l : list (elem K)) : Z := match l with [] => 0 | e :: _ => loc e end.

Section chain.
Context {K : Type}.
Implicit Types (l : list (elem K)) (e : elem K).

Lemma chain_app j l l' : chain j (l ++ l') = chain j l ++ chain j l'.
Proof. unfold chain. by rewrite filter_app, map_app. Qed.

Lemma chain_cons j e l : chain j (e :: l) = if decide (j < lev e)%nat then loc e :: chain j l else chain j l.
Proof. unfold chain. rewrite filter_cons. by case_decide. Qed.

Lemma chain_elem j l x : x ∈ chain j l -> exists e, e ∈ l /\ loc e = x /\ (j < lev e)%nat.
Proof. unfold chain. rewrite list_elem_of_fmap. intros (e & -> & [? ?]%list_elem_of_filter). by exists e. Qed.

Lemma chain_incl j l x : x ∈ chain j l -> x ∈ map loc l.
Proof. intros (e & He & <- & _)%chain_elem. apply list_elem_of_fmap. by exists e. Qed.

Lemma chain_nodup j l : NoDup (map loc l) -> NoDup (chain j l).
Proof.
  induction l as [|e l IH]; [constructor|]. cbn [map]. intros [He Hl]%NoDup_cons. rewrite chain_cons. case_decide as Hj; [|by apply IH].
  constructor; [|by apply IH]. intros H. by apply He, (chain_incl j).
Qed.

Lemma chain_zero l : Forall (fun e => (0 < lev e)%nat) l -> chain 0 l = map loc l.
Proof. induction 1 as [|e l He Hl IH]; [done|]. rewrite chain_cons, decide_True by done. cbn [map]. by rewrite IH. Qed.

Lemma chain_none j l : Forall (fun e => (lev e <= j)%nat) l -> chain j l = [].
Proof. induction 1 as [|e l He Hl IH]; [done|]. rewrite chain_cons, decide_False by lia. done. Qed.

(** The next element that is linked at a level. *)
Lemma chain_split j l : chain j l = [] \/ exists c e l', l = c ++ e :: l' /\ chain j c = [] /\ (j < lev e)%nat.
Proof.
  induction l as [|e l IH]; [by left|]. rewrite chain_cons. case_decide as He; [right; by exists [], e, l|].
  destruct IH as [IH|(c & e' & l' & -> & Hc & He')]; [by left|right]. exists (e :: c), e', l'.
  by rewrite chain_cons, decide_False.
Qed.
End chain.

(** ** What a skip list keeps *)

Section rep.
Context {A : Allocator} {L : AllocatorLaws A} {K : Type} (cmp : K -> K -> comparison) (ok : K -> Prop).
Implicit Types (s : SkipList K) (l before after : list (elem K)) (e : elem K).

Record rep s l : Prop := {
  rep_head : exists k, shape (heap s) (head_ s) = Some (k, kMaxHeight);
  rep_null : shape (heap s) 0 = None;
  rep_shape : Forall (fun e => exists m, shape (heap s) (loc e) = Some (key e, m) /\ (lev e <= m)%nat) l;
  rep_lev : Forall (fun e => (1 <= lev e <= max_height_ s)%nat) l;
  rep_locs : NoDup (head_ s :: map loc l);
  rep_paths j : (j < kMaxHeight)%nat -> path (heap s) j (head_ s) (chain j l);
  rep_height : (1 <= max_height_ s <= kMaxHeight)%nat;
  rep_sorted : StronglySorted (fun e f => cmp (key e) (key f) = Lt) l;
  rep_ok : Forall (fun e => ok (key e)) l;
  rep_arena : exists regions, arena_inv (arena_ s) regions /\ forall x, is_Some (shape (heap s) x) -> exists n, (x, n) ∈ regions
}.

Lemma rep_in s l e : rep s l -> e ∈ l -> shape (heap s) (loc e) <> None /\ loc e <> 0 /\ loc e <> head_ s.
Proof.
  intros H He. pose proof (rep_shape _ _ H) as Hs. rewrite Forall_forall in Hs. destruct (Hs e He) as (m & E & _).
  split; [congruence|]. split; [intros Hz; rewrite Hz, (rep_null _ _ H) in E; done|].
  intros Hz. pose proof (rep_locs _ _ H) as Hn. apply NoDup_cons in Hn as [Hn _]. apply Hn. rewrite <- Hz. by apply list_elem_of_fmap_2.
Qed.

Lemma Node_key_spec s l e : rep s l -> e ∈ l -> Node_key (loc e) s = Some (key e, s).
Proof.
  intros H He. pose proof (rep_shape _ _ H) as Hs. rewrite Forall_forall in Hs. destruct (Hs e He) as (m & E & _).
  unfold shape, Node_key in *. destruct (heap s !! loc e); [|done]. by injection E as <- _.
Qed.

(** The link behind the part of the list that ends at a node. *)
Lemma rep_link s before after j : rep s (before ++ after) -> (j < kMaxHeight)%nat ->
  link (heap s) (end_of (head_ s) (chain j before)) j = Some (hd 0 (chain j after)).
Proof.
  intros H Hj. apply path_link. apply path_app. rewrite <- chain_app. by apply (rep_paths _ _ H).
Qed.

Lemma rep_size s l : rep s l -> (length l <= size (heap s))%nat.
Proof.
  intros H. rewrite <- (length_map loc). rewrite <- size_dom.
  pose proof (rep_locs _ _ H) as Hn. apply NoDup_cons in Hn as [_ Hn].
  rewrite <- (size_list_to_set (C := gset Z)) by done. apply subseteq_size. intros x. rewrite elem_of_list_to_set, elem_of_dom.
  intros (e & -> & He)%list_elem_of_fmap. destruct (rep_in s l e H He) as [Hs _]. unfold shape in Hs.
  by destruct (heap s !! loc e).
Qed.

(** ** Searching *)

(** The loop at a node and a level: [done_] lies before it, [todo] between it and the end of [before]. *)
Lemma descend_spec s before after go_on : rep s (before ++ after) ->
  (forall e, e ∈ before -> go_on (loc e) s = Some (true, s)) ->
  (forall e, e ∈ after -> go_on (loc e) s = Some (false, s)) ->
  go_on 0 s = Some (false, s) ->
  forall fuel level prev done_ todo, before = done_ ++ todo -> (level < kMaxHeight)%nat -> (length todo + level < fuel)%nat ->
  length prev = kMaxHeight -> (level < max_height_ s)%nat ->
  let x := end_of (head_ s) (chain level done_) in
  (forall j, (j <= level)%nat -> end_of (head_ s) (chain j done_) = x) ->
  exists prev', descend fuel go_on prev x level s = Some (end_of (head_ s) (map loc before), first after, prev', s) /\
    length prev' = kMaxHeight /\
    forall j, prev' !! j = if decide (j <= level)%nat then Some (Some (end_of (head_ s) (chain j before))) else prev !! j.
Proof.
  intros H Hgo Hstop Hnull. pose proof (rep_lev _ _ H) as Hlev.
  assert (Hz : forall l, l ⊆ before ++ after -> chain 0 l = map loc l).
  { intros l Hl. apply chain_zero, Forall_forall. intros e He. rewrite Forall_forall in Hlev. apply Hl, Hlev in He. lia. }
  induction fuel as [|fuel IH]; intros level prev done_ todo -> Hl Hf Hp Hm x Hx; [lia|]. cbn [descend].
  unfold dbind, turn, Node_Next. unfold dbind, dret.
  assert (Elink : link (heap s) x level = Some (hd 0 (chain level (todo ++ after)))).
  { apply (rep_link s done_); [by rewrite app_assoc|done]. }
  rewrite Elink. destruct (chain_split level todo) as [E|(c & e & todo' & -> & Hc & He)].
  - assert (Hno : go_on (hd 0 (chain level (todo ++ after))) s = Some (false, s)).
    { rewrite chain_app, E. cbn [app]. destruct (chain level after) as [|y c] eqn:Ea; [done|].
      destruct (chain_elem level after y) as (e & He & <- & _); [rewrite Ea; set_solver|]. by apply Hstop. }
    rewrite Hno. assert (Ex : end_of (head_ s) (chain level (done_ ++ todo)) = x) by (by rewrite chain_app, E, app_nil_r).
    destruct level as [|level].
    + exists (<[0%nat := Some x]> prev). rewrite !Hz in Ex by set_solver. rewrite Ex. split.
      * do 4 f_equal. rewrite Hz in E by set_solver. apply map_eq_nil in E as ->. cbn [app]. rewrite Hz by set_solver. by destruct after.
      * split; [by rewrite length_insert|]. intros j. destruct (decide (j = 0%nat)) as [->|].
        -- rewrite list_lookup_insert_eq by lia. rewrite decide_True by lia. by rewrite Hz, Ex by set_solver.
        -- rewrite list_lookup_insert_ne by done. by rewrite decide_False by lia.
    + destruct (IH level (<[S level := Some x]> prev) done_ todo) as (prev' & E' & Hlen & Hprev); [done|lia|lia|by rewrite length_insert|lia| ..].
      { intros j Hj. rewrite !(Hx _) by lia. done. }
      rewrite Hx in E' by lia. rewrite E'. exists prev'. split; [done|]. split; [done|]. intros j. rewrite Hprev.
      destruct (decide (j <= level)%nat); [by rewrite decide_True by lia|].
      destruct (decide (j = S level)) as [->|]; [|by rewrite list_lookup_insert_ne, decide_False by lia].
      rewrite list_lookup_insert_eq by lia. by rewrite decide_True, Ex by lia.
  - assert (Ehd : hd 0 (chain level ((c ++ e :: todo') ++ after)) = loc e).
    { rewrite !chain_app, chain_cons, Hc, decide_True by done. done. }
    rewrite Ehd, Hgo by set_solver.
    assert (Ey : forall j, (j <= level)%nat -> end_of (head_ s) (chain j (done_ ++ c ++ [e])) = loc e).
    { intros j Hj. rewrite !chain_app, chain_cons, decide_True, !end_of_app by lia. done. }
    destruct (IH level prev (done_ ++ c ++ [e]) todo') as (prev' & E' & Hrest); [by rewrite <- !app_assoc|done| |done|done| ..].
    { rewrite length_app in Hf. cbn [length] in Hf. lia. }
    { intros j Hj. by rewrite !Ey. }
    rewrite Ey in E' by done. rewrite E'. by exists prev'.
Qed.

(** A search that goes on at the elements of [before] and stops at those of [after]. *)
Lemma search_spec s before after go_on : rep s (before ++ after) ->
  (forall e, e ∈ before -> go_on (loc e) s = Some (true, s)) ->
  (forall e, e ∈ after -> go_on (loc e) s = Some (false, s)) ->
  go_on 0 s = Some (false, s) ->
  exists prev, search go_on s = Some (end_of (head_ s) (map loc before), first after, prev, s) /\ length prev = kMaxHeight /\
    forall j, (j < max_height_ s)%nat -> prev !! j = Some (Some (end_of (head_ s) (chain j before))).
Proof.
  intros H Hgo Hstop Hnull. pose proof (rep_height _ _ H) as Hh. pose proof (rep_size _ _ H) as Hs. rewrite length_app in Hs.
  destruct (descend_spec s before after go_on H Hgo Hstop Hnull (size (heap s) + kMaxHeight + 1) (max_height_ s - 1)
    (replicate kMaxHeight None) [] before) as (prev & E & Hlen & Hp); [done|lia|lia|by rewrite length_replicate|lia|done|].
  exists prev. split; [exact E|]. split; [done|]. intros j Hj. by rewrite Hp, decide_True by lia.
Qed.
End rep.

(** Insertion into a skip list, level by level. *)

Section insert.
Context {A : Allocator} {L : AllocatorLaws A} {K : Type} (cmp : K -> K -> comparison) (ok : K -> Prop) {W : WeakOrder cmp ok}.
Implicit Types (s : SkipList K) (l before after : list (elem K)) (e : elem K).
Abbreviation rep := (rep cmp ok).

(** ** A new node *)

(** The request for a node of this height. *)
Definition node_request (height : nat) : request := Aligned (u64 (16 + 8 * (Z.of_nat height - 1))).
(** The system refuses the block that the next node needs, with the height that will be drawn for it. *)
Definition node_denied s : Prop := denied (node_request (fst (random_height_loop (kMaxHeight - 1) 1 (rnd_ s)))) (arena_ s).

Lemma new_node_spec s l k height : rep s l -> (1 <= height <= kMaxHeight)%nat -> match NewNode k height s with
  | Some (x, s') => shape (heap s) x = None /\ shape (heap s') x = Some (k, height) /\ rep s' l /\ x <> 0 /\
      head_ s' = head_ s /\ max_height_ s' = max_height_ s
  | None => denied (node_request height) (arena_ s)
  end.
Proof.
  intros H Hh. unfold NewNode, kMaxHeight in *. set (n := u64 _). assert (Hn : 0 < n <= 2 ^ 63) by (unfold n; rewrite u64_id; lia).
  destruct (rep_arena _ _ _ _ H) as (regions & Hinv & Hdom). pose proof (allocate_spec (Aligned n) _ _ Hinv Hn) as Ha. cbn [allocate asked] in Ha.
  destruct (AllocateAligned n (arena_ s)) as [[x a]|]; [|done]. destruct Ha as (Hx & _ & Hinv').
  assert (Hnew : shape (heap s) x = None).
  { destruct (shape (heap s) x) eqn:E; [|done]. exfalso. destruct (Hdom x) as [m Hm]; [by rewrite E|].
    pose proof (regions_apart _ _ Hinv') as Hap. rewrite !pairs_cons, Forall_forall in Hap. destruct Hap as (_ & Hap & _).
    rewrite Forall_forall in Hap. apply Hap in Hm as Hm'. pose proof (regions_inside _ _ Hinv) as Hri. rewrite Forall_forall in Hri.
    apply Hri in Hm as [Hm _]. unfold apart in Hm'. cbn in *. lia. }
  set (nd := {| node_key := k; next_ := _ |}). cbn [heap set_heap set_arena head_ max_height_].
  assert (Hsh : forall z, shape (<[x := nd]> (heap s)) z = if decide (z = x) then Some (k, height) else shape (heap s) z).
  { intros z. unfold shape. destruct (decide (z = x)) as [->|]; [|by rewrite lookup_insert_ne].
    rewrite lookup_insert_eq. cbn. by rewrite length_replicate. }
  split; [done|]. split; [by rewrite Hsh, decide_True|]. split; [|split; [lia|done]].
  destruct H as [[k0 Hhead] Hnull Hshape Hlev Hlocs Hpaths Hheight Hsorted Hok _]. split; cbn; try done.
  - exists k0. rewrite Hsh, decide_False; [done|congruence].
  - rewrite Hsh, decide_False; [done|lia].
  - eapply Forall_impl; [exact Hshape|]. cbn. intros e (m & E & Hm). exists m. rewrite Hsh, decide_False; [done|congruence].
  - intros j Hj. eapply path_ext; [|by apply Hpaths]. intros z Hz. unfold link. rewrite lookup_insert_ne; [done|]. intros <-.
    destruct Hz as [->|(e & He & <- & _)%chain_elem]; [congruence|]. rewrite Forall_forall in Hshape. apply Hshape in He as (? & ? & _). congruence.
  - exists ((x, n) :: regions). split; [done|]. intros z Hz. rewrite Hsh in Hz. case_decide as Hd; [exists n; rewrite Hd; by left|].
    apply Hdom in Hz as [m ?]. exists m. by right.
Qed.

(** ** Linking *)

(** The list while the new node is linked at the first [i] levels. *)
Definition linked before after x k (i : nat) : list (elem K) :=
  match i with O => before ++ after | _ => before ++ Build_elem x k i :: after end.

Lemma chain_linked before after x k i j :
  chain j (linked before after x k i) = chain j before ++ (if decide (j < i)%nat then [x] else []) ++ chain j after.
Proof.
  destruct i as [|i]; cbn [linked]; rewrite chain_app; [by rewrite decide_False by lia|]. rewrite chain_cons. cbn [lev]. by case_decide.
Qed.

Section levels.
Context (before after : list (elem K)) (x : Z) (k : K) (height : nat) (prev : list (option Z)).
Hypothesis x_new : x ∉ map loc (before ++ after).
Hypothesis k_ok : ok k.
Hypothesis k_after : Forall (fun e => cmp (key e) k = Lt) before.
Hypothesis k_before : Forall (fun e => cmp k (key e) = Lt) after.

Lemma linked_sorted i : StronglySorted (fun e f => cmp (key e) (key f) = Lt) (before ++ after) ->
  StronglySorted (fun e f => cmp (key e) (key f) = Lt) (linked before after x k i).
Proof.
  destruct i as [|i]; [done|]. cbn [linked]. clear x_new. revert k_after. induction before as [|e b IH]; cbn [app]; intros Hb Hs.
  - by constructor.
  - apply Forall_cons in Hb as [He Hb]. apply StronglySorted_inv in Hs as [Hs Hf]. constructor; [by apply IH|].
    apply Forall_app in Hf as [Hf1 Hf2]. apply Forall_app. split; [done|]. by constructor.
Qed.

Lemma Forall_linked (P : elem K -> Prop) i : Forall P (before ++ after) -> (forall j, (1 <= j <= i)%nat -> P (Build_elem x k j)) ->
  Forall P (linked before after x k i).
Proof.
  intros H Hx. destruct i as [|i]; [done|]. cbn [linked]. apply Forall_app in H as [H1 H2]. apply Forall_app. split; [done|].
  constructor; [apply Hx; lia|done].
Qed.

Lemma Forall_unlinked (P : elem K -> Prop) i : Forall P (linked before after x k i) -> Forall P (before ++ after).
Proof. destruct i as [|i]; [done|]. cbn [linked]. rewrite !Forall_app, Forall_cons. tauto. Qed.

Lemma unlinked_sorted i : StronglySorted (fun e f => cmp (key e) (key f) = Lt) (linked before after x k i) ->
  StronglySorted (fun e f => cmp (key e) (key f) = Lt) (before ++ after).
Proof.
  destruct i as [|i]; [done|]. cbn [linked]. clear. induction before as [|e b IH]; cbn [app]; intros H; [by apply StronglySorted_inv in H as [? _]|].
  apply StronglySorted_inv in H as [Hs Hf]. constructor; [by apply IH|]. rewrite Forall_app, Forall_cons in Hf. apply Forall_app. tauto.
Qed.

Lemma x_not_linked i : x ∉ chain i (linked before after x k i).
Proof.
  rewrite chain_linked, decide_False by lia. cbn [app]. rewrite <- chain_app. intros Hin. by apply x_new, (chain_incl i).
Qed.

Lemma locs_linked i : NoDup (map loc (linked before after x k i)) -> NoDup (map loc (linked before after x k (S i))).
Proof.
  assert (E : forall j, map loc (linked before after x k (S j)) = map loc before ++ x :: map loc after) by (intros j; cbn; by rewrite map_app).
  rewrite E. destruct i as [|i']; [|by rewrite E]. cbn [linked]. rewrite map_app in *. intros H. rewrite <- Permutation_middle. by constructor.
Qed.

(** What the new node leads to is set while it is not linked at that level. *)
Lemma set_up_spec s i y : rep s (linked before after x k i) -> shape (heap s) x = Some (k, height) -> (i < height)%nat -> x <> head_ s ->
  SetNext x i y s = Some (tt, set_heap (put_link x i y (heap s)) s) /\ rep (set_heap (put_link x i y (heap s)) s) (linked before after x k i) /\
  link (put_link x i y (heap s)) x i = Some y.
Proof.
  intros H Hx Hi Hxh. split; [by apply (SetNext_spec s x i y k height)|].
  assert (Hl : forall z j, link (put_link x i y (heap s)) z j = if decide (z = x /\ j = i) then Some y else link (heap s) z j).
  { intros z j. by apply (link_put _ _ _ _ k height). }
  split; [|by rewrite Hl, decide_True].
  destruct H as [[k0 Hhead] Hnull Hshape Hlev Hlocs Hpaths Hheight Hsorted Hok Harena].
  split; cbn [heap set_heap head_ max_height_ arena_]; try done.
  - exists k0. by rewrite shape_put.
  - by rewrite shape_put.
  - eapply Forall_impl; [exact Hshape|]. cbn. intros e (m & E & Hm). exists m. by rewrite shape_put.
  - intros j Hj. eapply path_ext; [|by apply Hpaths]. intros z Hz. rewrite Hl, decide_False; [done|]. intros [-> ->].
    destruct Hz as [|Hz]; [done|]. by apply x_not_linked in Hz.
  - destruct Harena as (regions & Hinv & Hdom). exists regions. split; [done|]. intros z. rewrite shape_put. apply Hdom.
Qed.

(** Linking the node at the next level. *)
Lemma publish_spec s i : rep s (linked before after x k i) -> shape (heap s) x = Some (k, height) -> (i < height)%nat ->
  (height <= max_height_ s)%nat -> x <> head_ s -> link (heap s) x i = Some (hd 0 (chain i after)) ->
  let p := end_of (head_ s) (chain i before) in
  SetNext p i x s = Some (tt, set_heap (put_link p i x (heap s)) s) /\
  rep (set_heap (put_link p i x (heap s)) s) (linked before after x k (S i)).
Proof.
  intros H Hx Hi Hmax Hxh Hup p. pose proof (rep_height _ _ _ _ H) as Hh.
  assert (Hch : chain i (linked before after x k i) = chain i before ++ chain i after) by (by rewrite chain_linked, decide_False by lia).
  pose proof (rep_paths _ _ _ _ H i ltac:(lia)) as Hpath. rewrite Hch in Hpath.
  assert (Elink : link (heap s) p i = Some (hd 0 (chain i after))) by (by apply path_link, path_app).
  destruct (link_shape _ _ _ _ Elink) as (kp & mp & Sp & Hmp). split; [by apply (SetNext_spec s p i x kp mp)|].
  assert (Hnd : NoDup (head_ s :: chain i before ++ chain i after)).
  { pose proof (rep_locs _ _ _ _ H) as Hn. rewrite <- Hch. apply NoDup_cons in Hn as [Hn1 Hn2]. constructor; [|by apply chain_nodup].
    intros Hin. by apply Hn1, (chain_incl i). }
  assert (Hxc : x ∉ chain i before ++ chain i after) by (rewrite <- Hch; apply x_not_linked).
  destruct H as [[k0 Hhead] Hnull Hshape Hlev Hlocs Hpaths Hheight Hsorted Hok Harena].
  split; cbn [heap set_heap head_ max_height_ arena_]; try done.
  - exists k0. by rewrite shape_put.
  - by rewrite shape_put.
  - apply Forall_linked.
    + eapply Forall_impl; [by apply Forall_unlinked in Hshape|]. cbn. intros e (m & E & Hm). exists m. by rewrite shape_put.
    + intros j Hj. exists height. rewrite shape_put. split; [done|]. cbn. lia.
  - apply Forall_linked; [by apply Forall_unlinked in Hlev|]. cbn. lia.
  - apply NoDup_cons in Hlocs as [H1 H2]. constructor; [|by apply locs_linked]. intros (e & Ee & He)%list_elem_of_fmap. apply H1, list_elem_of_fmap.
    destruct i as [|i']; cbn [linked] in *; rewrite elem_of_app, ?elem_of_cons in He.
    + destruct He as [He|[->|He]]; [|cbn in Ee; congruence|]; exists e; set_solver.
    + destruct He as [He|[->|He]]; [|cbn in Ee; congruence|]; exists e; set_solver.
  - intros j Hj. rewrite chain_linked. destruct (decide (j = i)) as [->|Hji].
    + rewrite decide_True by lia. cbn [app]. by apply (path_insert (heap s) i (head_ s) (chain i before) x (chain i after) kp mp).
    + specialize (Hpaths j Hj). rewrite chain_linked in Hpaths. rewrite (decide_ext _ (j < i)%nat) by lia.
      eapply path_ext; [|exact Hpaths]. intros z _. rewrite (link_put _ _ _ _ kp mp) by done. by rewrite decide_False by tauto.
  - by apply linked_sorted, (unlinked_sorted i).
  - apply Forall_linked; [by apply Forall_unlinked in Hok|done].
  - destruct Harena as (regions & Hinv & Hdom). exists regions. split; [done|]. intros z. rewrite shape_put. apply Hdom.
Qed.

Lemma link_level_spec s i : rep s (linked before after x k i) -> shape (heap s) x = Some (k, height) -> (i < height)%nat ->
  (height <= max_height_ s)%nat -> x <> head_ s -> prev !! i = Some (Some (end_of (head_ s) (chain i before))) ->
  exists h', link_level x prev i s = Some (tt, set_heap h' s) /\ rep (set_heap h' s) (linked before after x k (S i)) /\
    forall z, shape h' z = shape (heap s) z.
Proof.
  intros H Hx Hi Hmax Hxh Hprev. pose proof (rep_height _ _ _ _ H) as Hh.
  pose proof (rep_paths _ _ _ _ H i ltac:(lia)) as Hpath. rewrite chain_linked, decide_False in Hpath by lia. cbn [app] in Hpath.
  apply path_app, path_link in Hpath. destruct (set_up_spec s i (hd 0 (chain i after)) H Hx Hi Hxh) as (E1 & H1 & Hup).
  destruct (publish_spec _ i H1) as [E2 H2]; [by cbn; rewrite shape_put|done..|].
  eexists. split; [|split; [exact H2|]].
  - unfold link_level, dbind, prev_at, Node_Next. rewrite Hprev, Hpath. cbv beta iota. rewrite E1. exact E2.
  - intros z. cbn [heap set_heap]. by rewrite !shape_put.
Qed.

(** The loop over the levels. *)
Lemma link_levels_spec n i s : rep s (linked before after x k i) -> shape (heap s) x = Some (k, height) -> (i + n = height)%nat ->
  (height <= max_height_ s)%nat -> x <> head_ s ->
  (forall j, (j < height)%nat -> prev !! j = Some (Some (end_of (head_ s) (chain j before)))) ->
  exists h', for_levels n i (link_level x prev) s = Some (tt, set_heap h' s) /\ rep (set_heap h' s) (linked before after x k height).
Proof.
  revert i s. induction n as [|n IH]; intros i s H Hx Hi Hmax Hxh Hprev; cbn [for_levels].
  - exists (heap s). assert (Es : set_heap (heap s) s = s) by (by destruct s). rewrite Es. split; [done|]. by replace height with i by lia.
  - destruct (link_level_spec s i H Hx ltac:(lia) Hmax Hxh (Hprev i ltac:(lia))) as (h' & E & H' & Hsh).
    unfold dbind. rewrite E. destruct (IH (S i) (set_heap h' s) H') as (h2 & E2 & H2); [by cbn; rewrite Hsh|lia|done..|].
    exists h2. by rewrite E2.
Qed.
End levels.
End insert.
