(* ===== verification/SkipListProps.v ===== *)
(** A skip list is a sorted list of its keys: insertion puts a key in its place whatever height its node
    gets, iterators walk it in both directions, a search finds the first key not before its target. *)
From stdpp Require Import gmap sorting.
From S2P Require Import Prelude Comparator Arena Random SkipList SkipListLemmas.

Section props.
Context {A : Allocator} {L : AllocatorLaws A} {K : Type} (cmp : K -> K -> comparison) (ok : K -> Prop) {W : WeakOrder cmp ok}.
Implicit Types (s : SkipList K) (l before after : list (elem K)) (e : elem K).
Abbreviation rep := (rep cmp ok).

(** The keys of a skip list, in order. *)
Definition contents s (keys : list K) : Prop := exists l, rep s l /\ map key l = keys.

(** Where a key goes. *)
Fixpoint ordered_insert (k : K) (keys : list K) : list K :=
  match keys with
  | [] => [k]
  | x :: keys' => match cmp x k with Lt => x :: ordered_insert k keys' | _ => k :: keys end
  end.
Definition is_before (k x : K) : bool := match cmp x k with Lt => true | _ => false end.
(** The keys from the first that is not before [k]. *)
Fixpoint from_key (k : K) (keys : list K) : list K :=
  match keys with [] => [] | x :: keys' => if is_before k x then from_key k keys' else keys end.

Lemma is_before_true k x : is_before k x = true <-> cmp x k = Lt.
Proof. unfold is_before. by destruct (cmp x k). Qed.
Lemma is_before_false k x : is_before k x = false <-> cmp x k <> Lt.
Proof. unfold is_before. destruct (cmp x k); split; congruence. Qed.

(** The part of the list before a key and the rest. *)
Lemma split_at_member k l : ok k -> Forall (fun e => ok (key e)) l -> StronglySorted (fun e f => cmp (key e) (key f) = Lt) l ->
  exists before after, l = before ++ after /\ Forall (fun e => cmp (key e) k = Lt) before /\ Forall (fun e => cmp (key e) k <> Lt) after /\
    from_key k (map key l) = map key after.
Proof.
  intros Hk. induction l as [|e l IH]; intros Hok Hs; [by exists [], []; split_and!|].
  apply Forall_cons in Hok as [He Hok]. apply StronglySorted_inv in Hs as [Hs Hf]. cbn [map from_key]. destruct (is_before k (key e)) eqn:E.
  - destruct IH as (b & a & -> & Hb & Ha & Ef); [done..|]. exists (e :: b), a. apply is_before_true in E. split; [done|]. split; [by constructor|done].
  - apply is_before_false in E. exists [], (e :: l). split; [done|]. split; [constructor|]. split; [|done]. constructor; [done|].
    rewrite Forall_forall in Hf, Hok |- *. intros f Hin Hlt. apply E. pose proof (Hf f Hin) as H. apply Hok in Hin.
    by apply (cmp_lt_trans cmp ok (key e) (key f) k).
Qed.

Lemma rep_split s l k : rep s l -> ok k -> exists before after, l = before ++ after /\
  Forall (fun e => cmp (key e) k = Lt) before /\ Forall (fun e => cmp (key e) k <> Lt) after /\ from_key k (map key l) = map key after.
Proof. intros H Hk. apply split_at_member; [done|by apply (rep_ok _ _ _ _ H)|by apply (rep_sorted _ _ _ _ H)]. Qed.

(** ** Searching *)

Section search.
Context (s : SkipList K) (before after : list (elem K)) (k : K).
Hypothesis H : rep s (before ++ after).
Hypothesis Hb : Forall (fun e => cmp (key e) k = Lt) before.
Hypothesis Ha : Forall (fun e => cmp (key e) k <> Lt) after.

Lemma key_of e : e ∈ before ++ after -> (loc e =? 0) = false /\ Node_key (loc e) s = Some (key e, s).
Proof.
  intros He. destruct (rep_in _ _ _ _ _ H He) as (_ & Hz & _). split; [by apply Z.eqb_neq|]. by apply (Node_key_spec cmp ok s (before ++ after)).
Qed.

Lemma FindGreaterOrEqual_spec : exists prev, FindGreaterOrEqual cmp k s = Some (first after, prev, s) /\ length prev = kMaxHeight /\
  forall j, (j < max_height_ s)%nat -> prev !! j = Some (Some (end_of (head_ s) (chain j before))).
Proof.
  rewrite Forall_forall in Hb, Ha.
  destruct (search_spec cmp ok s before after (KeyIsAfterNode cmp k) H) as (prev & E & Hp).
  - intros e He. destruct (key_of e) as [E1 E2]; [set_solver|]. unfold KeyIsAfterNode, dbind. by rewrite E1, E2, (Hb e He).
  - intros e He. destruct (key_of e) as [E1 E2]; [set_solver|]. unfold KeyIsAfterNode, dbind. rewrite E1, E2. specialize (Ha e He). by destruct (cmp (key e) k).
  - done.
  - exists prev. split; [|done]. unfold FindGreaterOrEqual, dbind. by rewrite E.
Qed.

Lemma FindLessThan_spec : FindLessThan cmp k s = Some (end_of (head_ s) (map loc before), s).
Proof.
  rewrite Forall_forall in Hb, Ha. unfold FindLessThan. match goal with |- context [search ?g] => destruct (search_spec cmp ok s before after g H) as (prev & E & Hp) end.
  - intros e He. destruct (key_of e) as [E1 E2]; [set_solver|]. unfold dbind. by rewrite E1, E2, (Hb e He).
  - intros e He. destruct (key_of e) as [E1 E2]; [set_solver|]. unfold dbind. rewrite E1, E2. specialize (Ha e He). by destruct (cmp (key e) k).
  - done.
  - unfold dbind at 1. by rewrite E.
Qed.
End search.

Lemma FindLast_spec s l : rep s l -> FindLast s = Some (end_of (head_ s) (map loc l), s).
Proof.
  intros H. unfold FindLast. rewrite <- (app_nil_r l) in H.
  destruct (search_spec cmp ok s l [] (fun next => dret (negb (next =? 0))) H) as (prev & E & Hp).
  - intros e He. destruct (rep_in _ _ _ _ e H) as (_ & Hz & _); [set_solver|]. unfold dret. by rewrite (proj2 (Z.eqb_neq _ _)).
  - intros e He. set_solver.
  - done.
  - unfold dbind. by rewrite E.
Qed.

(** ** Insertion *)

Lemma random_height_range rounds height seed :
  (height <= fst (random_height_loop rounds height seed) <= height + rounds)%nat.
Proof.
  revert height seed. induction rounds as [|r IH]; intros height seed; cbn [random_height_loop]; [cbn; lia|].
  cbv zeta. destruct (_ =? 0); [|cbn; lia]. specialize (IH (S height) (Random_Next seed)). lia.
Qed.

Lemma raise_prev_spec m height x prev : length prev = kMaxHeight -> (m <= height <= kMaxHeight)%nat ->
  forall j, raise_prev m height x prev !! j = if decide (m <= j < height)%nat then Some (Some x) else prev !! j.
Proof.
  unfold raise_prev. intros Hl Hm. remember (height - m)%nat as n eqn:En. revert m prev Hl Hm En.
  induction n as [|n IH]; intros m prev Hl Hm En j; cbn [seq foldl]; [by rewrite decide_False by lia|].
  rewrite IH by (by rewrite ?length_insert || lia). destruct (decide (j = m)) as [->|].
  - rewrite decide_False by lia. rewrite list_lookup_insert_eq by (unfold kMaxHeight in *; lia). by rewrite decide_True by lia.
  - rewrite list_lookup_insert_ne by done. do 2 case_decide; done || lia.
Qed.

Lemma rep_grow s l m r : rep s l -> (max_height_ s <= m <= kMaxHeight)%nat -> rep (set_max_height m (set_rnd r s)) l.
Proof.
  intros [Hh Hn Hsh Hlev Hlo Hp Hhe Hso Hok Har] Hm. split; cbn; try done; [|lia].
  eapply Forall_impl; [exact Hlev|]. cbn. lia.
Qed.

(** Above the old height the new node is the first. *)
Lemma prev_raised s before after prev height : rep s (before ++ after) -> length prev = kMaxHeight -> (height <= kMaxHeight)%nat ->
  (forall j, (j < max_height_ s)%nat -> prev !! j = Some (Some (end_of (head_ s) (chain j before)))) ->
  forall j, (j < height)%nat ->
  (if (max_height_ s <? height)%nat then raise_prev (max_height_ s) height (head_ s) prev else prev) !! j =
  Some (Some (end_of (head_ s) (chain j before))).
Proof.
  intros H Hlen Hht Hprev j Hj. destruct (Nat.ltb_spec (max_height_ s) height); [|apply Hprev; lia].
  rewrite raise_prev_spec by (done || lia). case_decide as Hd; [|apply Hprev; lia]. rewrite chain_none; [done|].
  pose proof (rep_lev _ _ _ _ H) as Hlev. apply Forall_app in Hlev as [Hlev _]. eapply Forall_impl; [exact Hlev|]. cbn. lia.
Qed.

(** The height of the next node. *)
Definition drawn_height s : nat := fst (random_height_loop (kMaxHeight - 1) 1 (rnd_ s)).
Lemma drawn_height_range s : (1 <= drawn_height s <= kMaxHeight)%nat.
Proof. pose proof (random_height_range (kMaxHeight - 1) 1 (rnd_ s)). unfold drawn_height, kMaxHeight in *. lia. Qed.

(** An insertion up to [NewNode]. *)
Lemma Insert_until s before after k : rep s (before ++ after) -> ok k ->
  Forall (fun e => cmp (key e) k = Lt) before -> Forall (fun e => cmp k (key e) = Lt) after ->
  exists prev s2, Insert cmp k s = (let! x := NewNode k (drawn_height s) in for_levels (drawn_height s) 0 (link_level x prev)) s2 /\
    rep s2 (before ++ after) /\ (drawn_height s <= max_height_ s2)%nat /\ head_ s2 = head_ s /\ arena_ s2 = arena_ s /\
    forall j, (j < drawn_height s)%nat -> prev !! j = Some (Some (end_of (head_ s) (chain j before))).
Proof.
  intros H Hk Hb Ha. pose proof (rep_height _ _ _ _ H) as Hh. pose proof (rep_ok _ _ _ _ H) as Hoks.
  assert (Ha' : Forall (fun e => cmp (key e) k <> Lt) after).
  { apply Forall_app in Hoks as [_ Hoka]. rewrite Forall_forall in Ha, Hoka |- *. intros e He E.
    rewrite (cmp_antisym cmp ok k (key e)), Ha in E by auto. done. }
  destruct (FindGreaterOrEqual_spec s before after k H Hb Ha') as (prev & E & Hlen & Hprev).
  pose proof (drawn_height_range s) as Hht. unfold drawn_height in *.
  unfold Insert. unfold dbind at 1. rewrite E. unfold dbind at 1, RandomHeight.
  destruct (random_height_loop (kMaxHeight - 1) 1 (rnd_ s)) as [height seed] eqn:Er. cbn [fst] in *.
  unfold dbind at 1, dget. cbn [max_height_ set_rnd head_].
  eexists _, (if (max_height_ s <? height)%nat then set_max_height height (set_rnd seed s) else set_rnd seed s). unfold dbind at 1, dmodify. split; [reflexivity|].
  assert (H2 : rep (if (max_height_ s <? height)%nat then set_max_height height (set_rnd seed s) else set_rnd seed s) (before ++ after)).
  { destruct (Nat.ltb_spec (max_height_ s) height).
    - apply rep_grow; [done|lia].
    - pose proof (rep_grow s _ (max_height_ s) seed H ltac:(lia)) as Hg. by destruct s. }
  split; [done|]. split; [destruct (Nat.ltb_spec (max_height_ s) height); cbn; lia|]. split; [by case_match|]. split; [by case_match|].
  apply (prev_raised s before after); done || lia.
Qed.

Lemma Insert_rep s before after k : rep s (before ++ after) -> ok k ->
  Forall (fun e => cmp (key e) k = Lt) before -> Forall (fun e => cmp k (key e) = Lt) after ->
  match Insert cmp k s with
  | Some (_, s') => exists x h, rep s' (before ++ Build_elem x k h :: after)
  | None => node_denied s
  end.
Proof.
  intros H Hk Hb Ha. destruct (Insert_until s before after k H Hk Hb Ha) as (prev & s2 & -> & H2 & Hmax & Ehead & Ear & Hp).
  pose proof (drawn_height_range s) as Hht. unfold dbind. pose proof (new_node_spec cmp ok s2 _ k _ H2 Hht) as Hn.
  destruct (NewNode k (drawn_height s) s2) as [[x s3]|]; [|unfold node_denied; by rewrite <- Ear]. destruct Hn as (Hnew & Hx & H3 & Hz & Eh3 & Em3).
  assert (Hfresh : (x ∉ map loc (before ++ after)) /\ x <> head_ s3).
  { split; [|intros ->; rewrite Eh3 in *; destruct (rep_head _ _ _ _ H2); congruence].
    intros (e & -> & He)%list_elem_of_fmap. by destruct (rep_in _ _ _ _ _ H2 He). }
  destruct (link_levels_spec cmp ok before after x k (drawn_height s) prev (proj1 Hfresh) Hk Hb Ha (drawn_height s) 0 s3) as (h' & E4 & H4);
    [done|done|lia|lia|tauto|by rewrite Eh3, Ehead|].
  rewrite E4. exists x, (drawn_height s). by destruct (drawn_height s); [lia|].
Qed.

(** A key that is not there goes between those before it and the others. *)
Lemma rep_split_new s l k : rep s l -> ok k -> Forall (fun x => cmp x k <> Eq) (map key l) -> exists before after, l = before ++ after /\
  Forall (fun e => cmp (key e) k = Lt) before /\ Forall (fun e => cmp (key e) k <> Lt) after /\ Forall (fun e => cmp k (key e) = Lt) after.
Proof.
  intros H Hk Hne. destruct (rep_split s l k H Hk) as (b & a & -> & Hb & Ha & _). exists b, a. split_and!; try done.
  pose proof (rep_ok _ _ _ _ H) as Hok. rewrite Forall_app in Hok. destruct Hok as [_ Hok].
  rewrite Forall_map, Forall_app in Hne. destruct Hne as [_ Hne]. rewrite Forall_forall in Ha, Hne, Hok |- *.
  intros e He. apply (cmp_gt cmp ok); [by apply Hok|done|]. specialize (Ha e He). specialize (Hne e He). by destruct (cmp (key e) k).
Qed.

Lemma ordered_insert_app k before after : Forall (fun e => cmp (key e) k = Lt) before -> Forall (fun e => cmp (key e) k <> Lt) after ->
  ordered_insert k (map key (before ++ after)) = map key before ++ k :: map key after.
Proof.
  intros Hb Ha. induction Hb as [|e b He Hb IH]; cbn [app map ordered_insert].
  - destruct Ha as [|e a He Ha]; cbn [map ordered_insert]; [done|]. by destruct (cmp (key e) k).
  - by rewrite He, IH.
Qed.

Lemma Insert_contents s keys k : contents s keys -> ok k -> Forall (fun x => cmp x k <> Eq) keys ->
  match Insert cmp k s with Some (_, s') => contents s' (ordered_insert k keys) | None => node_denied s end.
Proof.
  intros (l & H & <-) Hk Hne. destruct (rep_split_new s l k H Hk Hne) as (b & a & -> & Hb & Ha & Ha').
  pose proof (Insert_rep s b a k H Hk Hb Ha') as Hi. destruct (Insert cmp k s) as [[[] s']|]; [|done].
  destruct Hi as (x & h & H'). eexists. split; [exact H'|]. by rewrite ordered_insert_app, map_app.
Qed.

(** When the node is denied, the insertion does not return. *)
Lemma Insert_denied s keys k : contents s keys -> ok k -> Forall (fun x => cmp x k <> Eq) keys -> node_denied s -> Insert cmp k s = None.
Proof.
  intros (l & H & <-) Hk Hne Hd. destruct (rep_split_new s l k H Hk Hne) as (b & a & -> & Hb & _ & Ha').
  destruct (Insert_until s b a k H Hk Hb Ha') as (prev & s2 & -> & _ & _ & _ & Ear & _). unfold node_denied in Hd. rewrite <- Ear in Hd.
  apply denied_none in Hd. unfold dbind, NewNode. cbn [allocate node_request] in Hd. unfold drawn_height. by rewrite Hd.
Qed.

(** ** A new list *)

Lemma clear_head n i x k s : shape (heap s) x = Some (k, kMaxHeight) -> (i + n = kMaxHeight)%nat -> (forall j, (j < i)%nat -> link (heap s) x j = Some 0) ->
  exists h', for_levels n i (fun i => SetNext x i 0) s = Some (tt, set_heap h' s) /\ (forall z, shape h' z = shape (heap s) z) /\
    forall j, (j < kMaxHeight)%nat -> link h' x j = Some 0.
Proof.
  revert i s. induction n as [|n IH]; intros i s Hx Hi Hl; cbn [for_levels].
  - exists (heap s). split; [by destruct s|]. split; [done|]. intros j Hj. apply Hl. lia.
  - unfold dbind. rewrite (SetNext_spec s x i 0 k kMaxHeight) by (done || lia).
    destruct (IH (S i) (set_heap (put_link x i 0 (heap s)) s)) as (h' & E & Hsh & Hlink); [by cbn; rewrite shape_put|lia| |].
    + intros j Hj. cbn [heap set_heap]. rewrite (link_put _ _ _ _ k kMaxHeight) by (done || lia). case_decide; [done|]. apply Hl. lia.
    + exists h'. rewrite E. split; [done|]. split; [|done]. intros z. rewrite Hsh. cbn [heap set_heap]. by rewrite shape_put.
Qed.

Lemma NewSkipList_contents any_key arena regions : arena_inv arena regions ->
  match NewSkipList any_key arena tt with Some (s, _) => contents s [] | None => denied (node_request kMaxHeight) arena end.
Proof.
  intros Hinv. unfold NewSkipList. unfold dbind at 1, NewNode. cbn [arena_]. change (u64 _) with 104.
  pose proof (allocate_spec (Aligned 104) arena regions Hinv ltac:(cbn; lia)) as Ha. cbn [allocate asked] in Ha.
  destruct (AllocateAligned 104 arena) as [[x a]|]; [|done]. destruct Ha as (Hx & _ & Hinv').
  unfold dbind, dmodify. set (s0 := set_head x _).
  assert (Hs : shape (heap s0) x = Some (any_key, kMaxHeight)) by (unfold shape, s0; cbn; by rewrite lookup_insert_eq).
  assert (Hs' : forall z, z <> x -> shape (heap s0) z = None) by (intros z Hz; unfold shape, s0; cbn; by rewrite lookup_insert_ne).
  destruct (clear_head kMaxHeight 0 x any_key s0 Hs) as (h' & E & Hsh & Hl); [done|lia|]. rewrite E.
  exists []. split; [|done]. split; cbn; try (by constructor).
  - exists any_key. by rewrite Hsh.
  - rewrite Hsh. apply Hs'. lia.
  - repeat constructor. set_solver.
  - intros j Hj. by apply Hl.
  - unfold kMaxHeight. lia.
  - eexists. split; [exact Hinv'|]. intros z Hz. rewrite Hsh in Hz. exists 104. destruct (decide (z = x)) as [->|]; [by left|].
    rewrite Hs' in Hz by done. by destruct Hz.
Qed.

(** ** Iterators *)

Lemma first_loc l : first l = default 0 (map loc l !! 0%nat).
Proof. by destruct l. Qed.

Lemma end_of_last x c : end_of x c = default x (last c).
Proof.
  revert x. induction c as [|y c IH]; intros x; [done|]. cbn [end_of]. rewrite IH, last_cons. by destruct (last c).
Qed.

Lemma end_not_head s l : rep s l -> forall before, before `prefix_of` l ->
  (if end_of (head_ s) (map loc before) =? head_ s then 0 else end_of (head_ s) (map loc before)) = default 0 (last (map loc before)).
Proof.
  intros H before [after ->]. rewrite end_of_last. destruct (last (map loc before)) as [x|] eqn:E; cbn [default]; [|by rewrite Z.eqb_refl].
  apply last_Some_elem_of, list_elem_of_fmap in E as (e & -> & He). destruct (rep_in _ _ _ _ e H) as (_ & _ & Hh); [set_solver|].
  by rewrite (proj2 (Z.eqb_neq _ _)).
Qed.

Lemma Next_spec s before e after : rep s (before ++ e :: after) -> Iterator_Next (loc e) s = Some (first after, s).
Proof.
  intros H. unfold Iterator_Next, Node_Next. replace (before ++ e :: after) with ((before ++ [e]) ++ after) in H by (by rewrite <- app_assoc).
  pose proof (rep_lev _ _ _ _ H) as Hlev. apply Forall_app in Hlev as [Hlev Hlev2]. pose proof (rep_link cmp ok s (before ++ [e]) after 0 H) as Hl.
  rewrite (chain_zero (before ++ [e])), (chain_zero after) in Hl; [|eapply Forall_impl; [eassumption|]; cbn; lia..].
  rewrite map_app, end_of_app in Hl. cbn [map end_of] in Hl. rewrite Hl by (unfold kMaxHeight; lia). by destruct after.
Qed.

Lemma Prev_spec s before e after : rep s (before ++ e :: after) ->
  Iterator_Prev cmp (loc e) s = Some (default 0 (last (map loc before)), s).
Proof.
  intros H. unfold Iterator_Prev, dbind. rewrite (Node_key_spec cmp ok s _ e H) by set_solver.
  pose proof (rep_sorted _ _ _ _ H) as Hs. pose proof (rep_ok _ _ _ _ H) as Hok. rewrite Forall_app, Forall_cons in Hok. destruct Hok as (Hokb & Hoke & Hoka).
  rewrite (FindLessThan_spec s before (e :: after) (key e) H).
  - cbn. rewrite (end_not_head s _ H) by (by exists (e :: after)). done.
  - clear -Hs. induction before as [|f b IH]; [constructor|]. cbn [app] in Hs. apply StronglySorted_inv in Hs as [Hs Hf].
    constructor; [|by apply IH]. rewrite Forall_app, Forall_cons in Hf. tauto.
  - assert (Hs2 : StronglySorted (fun e f => cmp (key e) (key f) = Lt) (e :: after)).
    { clear -Hs. induction before as [|f b IH]; [done|]. cbn [app] in Hs. apply StronglySorted_inv in Hs as [Hs _]. by apply IH. }
    apply StronglySorted_inv in Hs2 as [_ Hf]. constructor; [by rewrite (cmp_refl cmp ok)|].
    rewrite Forall_forall in Hf, Hoka |- *. intros f Hin Hlt. pose proof (Hf f Hin) as Hef. apply Hoka in Hin.
    rewrite (cmp_antisym cmp ok (key e) (key f)), Hef in Hlt by done. done.
Qed.

Lemma Seek_spec s before after t : rep s (before ++ after) -> Forall (fun e => cmp (key e) t = Lt) before ->
  Forall (fun e => cmp (key e) t <> Lt) after -> Iterator_Seek cmp t s = Some (first after, s).
Proof.
  intros H Hb Ha. destruct (FindGreaterOrEqual_spec s before after t H Hb Ha) as (prev & E & _). unfold Iterator_Seek, dbind. by rewrite E.
Qed.

(** How an iterator moves in a list of nodes that hold some keys. *)
Record iterates s (keys : list K) (nodes : list Z) : Prop := {
  nodes_keys : Forall2 (fun x k => Iterator_Valid x = true /\ Iterator_key x s = Some (k, s)) nodes keys;
  seek_first : Iterator_SeekToFirst s = Some (default 0 (nodes !! 0%nat), s);
  seek_last : Iterator_SeekToLast s = Some (default 0 (last nodes), s);
  next_node i x : nodes !! i = Some x -> Iterator_Next x s = Some (default 0 (nodes !! S i), s);
  prev_node i x : nodes !! i = Some x -> Iterator_Prev cmp x s = Some (match i with O => 0 | S j => default 0 (nodes !! j) end, s);
  seek_node t : ok t -> Iterator_Seek cmp t s = Some (default 0 (nodes !! (length keys - length (from_key t keys))%nat), s)
}.

Lemma last_take (c : list Z) i x : c !! i = Some x -> default 0 (last (take i c)) = match i with O => 0 | S j => default 0 (c !! j) end.
Proof.
  intros E. apply lookup_lt_Some in E. destruct i as [|j]; [done|].
  rewrite last_lookup, length_take. replace (Nat.pred (S j `min` length c)) with j by lia. by rewrite lookup_take_lt by lia.
Qed.

Lemma rep_iterates s l : rep s l -> iterates s (map key l) (map loc l).
Proof.
  intros H. pose proof (rep_lev _ _ _ _ H) as Hlev.
  assert (Hsplit : forall i x, map loc l !! i = Some x -> exists e, loc e = x /\ l = take i l ++ e :: drop (S i) l).
  { intros i x Hi. rewrite list_lookup_fmap in Hi. destruct (l !! i) as [e|] eqn:E; [|done]. injection Hi as <-. exists e.
    split; [done|]. by rewrite take_drop_middle. }
  split.
  - apply Forall2_fmap_2, Forall_Forall2_diag, Forall_forall. intros e He. split; [|by apply (Node_key_spec cmp ok s l)].
    destruct (rep_in _ _ _ _ e H He) as (_ & Hz & _). unfold Iterator_Valid. by rewrite (proj2 (Z.eqb_neq _ _)).
  - unfold Iterator_SeekToFirst, dbind, dget, Node_Next. pose proof (rep_link cmp ok s [] l 0 H) as Hl. cbn [chain end_of map] in Hl.
    change (chain 0 []) with (@nil Z) in Hl. cbn [end_of] in Hl. rewrite Hl by (unfold kMaxHeight; lia).
    rewrite chain_zero by (eapply Forall_impl; [exact Hlev|]; cbn; lia). by destruct l.
  - unfold Iterator_SeekToLast, dbind. rewrite (FindLast_spec s l H). cbn. by rewrite (end_not_head s l H).
  - intros i x Hi. destruct (Hsplit i x Hi) as (e & <- & El). rewrite El in H. rewrite (Next_spec s _ _ _ H).
    by rewrite first_loc, fmap_drop, lookup_drop, Nat.add_0_r.
  - intros i x Hi. destruct (Hsplit i x Hi) as (e & <- & El). rewrite El in H. rewrite (Prev_spec s _ _ _ H).
    do 2 f_equal. rewrite fmap_take. by eapply last_take.
  - intros t Ht. destruct (rep_split s l t H Ht) as (b & a & -> & Hb & Ha & Ef). rewrite (Seek_spec s b a t H Hb Ha), Ef.
    rewrite !length_map, length_app, first_loc, map_app, lookup_app_r by (rewrite length_map; lia). do 4 f_equal. rewrite length_map. lia.
Qed.

Definition equal_to (t k : K) : bool := match cmp t k with Eq => true | _ => false end.

Lemma Contains_spec s keys t : contents s keys -> ok t -> Contains cmp t s = Some (existsb (equal_to t) keys, s).
Proof.
  intros (l & H & <-) Ht. destruct (rep_split s l t H Ht) as (b & a & -> & Hb & Ha & _).
  destruct (FindGreaterOrEqual_spec s b a t H Hb Ha) as (prev & E & _). unfold Contains. unfold dbind at 1. rewrite E.
  pose proof (rep_ok _ _ _ _ H) as Hok. pose proof (rep_sorted _ _ _ _ H) as Hs. rewrite Forall_app in Hok. destruct Hok as [Hokb Hoka].
  assert (Hno : existsb (equal_to t) (map key b) = false).
  { apply not_true_iff_false. rewrite existsb_exists. intros (k & (e & <- & He)%in_map_iff & Hk). apply list_elem_of_In in He.
    rewrite Forall_forall in Hb, Hokb. specialize (Hb e He). unfold equal_to in Hk. rewrite (cmp_antisym cmp ok (key e) t), Hb in Hk by auto. done. }
  rewrite map_app, existsb_app, Hno. cbn [orb]. destruct a as [|e a]; [done|]. cbn [first map existsb].
  destruct (rep_in _ _ _ _ e H) as (_ & Hz & _); [set_solver|]. rewrite (proj2 (Z.eqb_neq _ _)) by done.
  unfold dbind. rewrite (Node_key_spec cmp ok s _ e H) by set_solver. unfold equal_to at 1, dret. do 2 f_equal.
  apply Forall_cons in Ha as [He Ha]. apply Forall_cons in Hoka as [Hoke Hoka]. destruct (cmp t (key e)) eqn:Ec; [done| |].
  - cbn [orb]. symmetry. apply not_true_iff_false. rewrite existsb_exists. intros (k & (f & <- & Hf)%in_map_iff & Hk). apply list_elem_of_In in Hf.
    assert (Hef : cmp (key e) (key f) = Lt).
    { clear -Hs Hf. induction b as [|g b IH]; cbn [app] in Hs; apply StronglySorted_inv in Hs as [Hs Hfa]; [|by apply IH].
      rewrite Forall_forall in Hfa. by apply Hfa. }
    rewrite Forall_forall in Hoka. unfold equal_to in Hk. by rewrite (cmp_lt_trans cmp ok t (key e) (key f)) in Hk by auto.
  - exfalso. apply He. by apply (cmp_gt cmp ok).
Qed.


(** ** Whole lists *)

Fixpoint insert_all (ks : list K) : D (SkipList K) unit :=
  match ks with [] => dret tt | k :: ks => let! _ := Insert cmp k in insert_all ks end.
(** One of the insertions is denied its node, after those before it. *)
Definition insert_starved (ks : list K) s : Prop :=
  exists done_ k rest s', ks = done_ ++ k :: rest /\ insert_all done_ s = Some (tt, s') /\ node_denied s'.

Lemma ordered_insert_perm k keys : ordered_insert k keys ≡ₚ k :: keys.
Proof.
  induction keys as [|x keys IH]; [done|]. cbn. destruct (cmp x k); [done| |done]. rewrite IH. apply perm_swap.
Qed.

Lemma contents_sorted s keys : contents s keys -> StronglySorted (fun x y => cmp x y = Lt) keys /\ Forall ok keys.
Proof.
  intros (l & H & <-). split; [|by apply Forall_map, (rep_ok _ _ _ _ H)]. pose proof (rep_sorted _ _ _ _ H) as Hs. clear H.
  induction Hs as [|e l Hs IH Hf]; [constructor|]. cbn [map]. constructor; [done|]. by apply Forall_map.
Qed.

Lemma insert_all_contents ks s keys : contents s keys -> Forall ok ks -> ForallOrdPairs (fun x y => cmp x y <> Eq) ks ->
  Forall (fun k => Forall (fun x => cmp x k <> Eq) keys) ks ->
  match insert_all ks s with Some (_, s') => exists keys', contents s' keys' /\ keys' ≡ₚ ks ++ keys | None => insert_starved ks s end.
Proof.
  revert s keys. induction ks as [|k ks IH]; intros s keys Hc Hok Hne Hnew; cbn [insert_all]; [by exists keys|].
  apply Forall_cons in Hok as [Hk Hok]. apply pairs_cons in Hne as [Hnek Hne]. apply Forall_cons in Hnew as [Hnewk Hnew].
  unfold dbind. pose proof (Insert_contents s keys k Hc Hk Hnewk) as Hi. destruct (Insert cmp k s) as [[[] s']|] eqn:E; [|by exists [], k, ks, s].
  assert (Hnew' : Forall (fun k0 => Forall (fun x => cmp x k0 <> Eq) (ordered_insert k keys)) ks).
  { rewrite Forall_forall in Hnew, Hnek |- *. intros x Hx. rewrite ordered_insert_perm. constructor; auto. }
  specialize (IH s' _ Hi Hok Hne Hnew'). destruct (insert_all ks s') as [[[] s'']|].
  - destruct IH as (keys' & Hc' & Hp). exists keys'. split; [done|]. rewrite Hp, ordered_insert_perm. by rewrite <- Permutation_middle.
  - destruct IH as (done_ & k' & rest & s1 & -> & E1 & Hd). exists (k :: done_), k', rest, s1. split; [done|]. split; [|done].
    cbn [insert_all]. unfold dbind. by rewrite E.
Qed.

(** C13: keys, no two of which compare equal, inserted in any order into a new list, are its contents,
    sorted, whatever the heights of their nodes: the iterator's Next and Prev walk along them in both
    directions, its Seek stops at the first key not before the target, and Contains finds exactly
    them.  No link that was not set, and no link above a node's tower, is read.  An insertion does not
    return only when the system refuses the block for its node, with the blocks the list has then. *)
Theorem skiplist_sorted any_key ks t : Forall ok ks -> ForallOrdPairs (fun x y => cmp x y <> Eq) ks -> ok t ->
  match NewSkipList any_key NewArena tt with
  | None => denied (node_request kMaxHeight) NewArena
  | Some (s, _) =>
      match insert_all ks s with
      | None => insert_starved ks s
      | Some (_, s') => exists keys nodes, keys ≡ₚ ks /\ StronglySorted (fun x y => cmp x y = Lt) keys /\
          iterates s' keys nodes /\ Contains cmp t s' = Some (existsb (equal_to t) ks, s')
      end
  end.
Proof.
  intros Hok Hne Ht. pose proof (NewSkipList_contents any_key NewArena [] inv_new) as Hn.
  destruct (NewSkipList any_key NewArena tt) as [[s []]|]; [|done].
  pose proof (insert_all_contents ks s [] Hn Hok Hne ltac:(by apply Forall_true)) as Hi.
  destruct (insert_all ks s) as [[[] s']|]; [|done]. destruct Hi as (keys & Hc & Hp). rewrite app_nil_r in Hp.
  pose proof (Contains_spec s' keys t Hc Ht) as Hcont. destruct (contents_sorted _ _ Hc) as [Hs _]. destruct Hc as (l & H & <-).
  exists (map key l), (map loc l). split_and!; [done|done|by apply rep_iterates|]. rewrite Hcont. do 2 f_equal.
  apply eq_true_iff_eq. rewrite !existsb_exists. by setoid_rewrite <- list_elem_of_In; setoid_rewrite Hp.
Qed.
End props.

Lemma skiplist_sorted_witness :
  let ks := [5; 3; 9; 1; 7; 2; 8; 4; 6; 10; 30; 20] in
  Forall (fun _ : Z => True) ks /\ ForallOrdPairs (fun x y => (x ?= y) <> Eq) ks /\
  match NewSkipList (A := bump_allocator) 0 NewArena tt with
  | None => False
  | Some (s, _) =>
      match insert_all (A := bump_allocator) Z.compare ks s with
      | None => False
      | Some (_, s') => exists keys nodes, keys ≡ₚ ks /\ iterates Z.compare (fun _ => True) s' keys nodes
      end
  end.
Proof.
  intros ks. assert (H1 : Forall (fun _ : Z => True) ks) by (repeat constructor).
  assert (H2 : ForallOrdPairs (fun x y => (x ?= y) <> Eq) ks) by (repeat constructor; discriminate).
  split; [exact H1|]. split; [exact H2|].
  pose proof (skiplist_sorted (A := bump_allocator) Z.compare (fun _ => True) 0 ks 7 H1 H2 I) as P.
  destruct (NewSkipList 0 NewArena tt) as [[s []]|] eqn:E; [|vm_compute in E; discriminate].
  destruct (insert_all (A := bump_allocator) Z.compare ks s) as [[[] s']|] eqn:E2.
  - destruct P as (keys & nodes & Hp & _ & Hi & _). exists keys, nodes. exact (conj Hp Hi).
  - vm_compute in E. injection E as <-. vm_compute in E2. discriminate.
Defined.
