(* ===== verification/SkipListConcurrent.v ===== *)
(** Readers of a skip list while a writer inserts (the comments of leveldb-library/db/skiplist.h on
    concurrency): writes need a lock, reads do not.

    The writer is [Insert] cut at its stores; the reader is the loop of [FindGreaterOrEqual] cut at its
    loads.  Their turns are interleaved in any order.  Acquire loads and release stores are taken to be
    in one order; the relaxed ones are the writer's own and [max_height_], of which an old value is a
    value the reader could have read earlier. *)
From stdpp Require Import gmap sorting.
From S2P Require Import Prelude Comparator Arena Random SkipList SkipListLemmas SkipListProps.

Section concurrent.
Context {A : Allocator} {K : Type} (cmp : K -> K -> comparison).

(** Where the writer is: before an insertion, before [max_height_.store], before [NewNode], before and
    between the two stores of a level. *)
Inductive writer :=
  | Idle
  | Raising (key : K) (prev : list (option Z)) (height : nat)
  | Making (key : K) (prev : list (option Z)) (height : nat)
  | Linking (x : Z) (prev : list (option Z)) (height i : nat)
  | Publishing (x : Z) (prev : list (option Z)) (height i : nat).

Definition wstep (key : K) (w : writer) : D (SkipList K) writer :=
  match w with
  | Idle =>
      let! '(_, prev) := FindGreaterOrEqual cmp key in
      let! height := RandomHeight in
      let! s := dget in
      dret (Raising key (if (max_height_ s <? height)%nat then raise_prev (max_height_ s) height (head_ s) prev else prev) height)
  | Raising key prev height =>
      let! _ := dmodify (fun s => if (max_height_ s <? height)%nat then set_max_height height s else s) in
      dret (Making key prev height)
  | Making key prev height => let! x := NewNode key height in dret (Linking x prev height 0)
  | Linking x prev height i =>
      if (i <? height)%nat then
        let! p := prev_at prev i in
        let! next := Node_Next p i in
        let! _ := SetNext x i next in
        dret (Publishing x prev height i)
      else dret Idle
  | Publishing x prev height i =>
      let! p := prev_at prev i in
      let! _ := SetNext p i x in
      dret (Linking x prev height (S i))
  end.

(** Where the reader is: before it loads [max_height_], at a node and a level, or at the end. *)
Inductive reader := Start | At (x : Z) (level : nat) | Done (next : Z).

Definition rstep (target : K) (r : reader) : D (SkipList K) reader :=
  match r with
  | Start => let! s := dget in dret (At (head_ s) (max_height_ s - 1))
  | At x level =>
      let! '(next, b) := turn (KeyIsAfterNode cmp target) x level in
      dret (if (b : bool) then At next level else match level with O => Done next | S level => At x level end)
  | Done next => dret r
  end.

(** [n] turns of the reader with turns of the writer between them.  An insertion is of a key in use that
    is not in the list. *)
Inductive run (ok : K -> Prop) (target : K) : nat -> SkipList K * writer * reader -> SkipList K * writer * reader -> Prop :=
  | run_refl c : run ok target 0 c c
  | run_writer n c s w r key w' s' : run ok target n c (s, w, r) ->
      (w = Idle -> ok key /\ option_map fst (Contains cmp key s) = Some false) ->
      wstep key w s = Some (w', s') -> run ok target n c (s', w', r)
  | run_reader n c s w r r' s' : run ok target n c (s, w, r) ->
      rstep target r s = Some (r', s') -> run ok target (S n) c (s', w, r').

(** Turns of the writer alone. *)
Inductive wsteps : SkipList K * writer -> SkipList K * writer -> Prop :=
  | wsteps_refl c : wsteps c c
  | wsteps_step s w key w' s' c : wstep key w s = Some (w', s') -> wsteps (s', w') c -> wsteps (s, w) c.

(** ** The turns of the writer make up [Insert] *)

Lemma linking_wsteps (k : K) x prev height n i s s' : (i + n = height)%nat -> for_levels n i (link_level x prev) s = Some (tt, s') ->
  wsteps (s, Linking x prev height i) (s', Idle).
Proof.
  revert i s. induction n as [|n IH]; intros i s Hi; cbn [for_levels].
  - intros [= <-]. eapply (wsteps_step _ _ k); [|apply wsteps_refl]. cbn [wstep]. by rewrite (proj2 (Nat.ltb_ge _ _)) by lia.
  - unfold dbind. destruct (link_level x prev i s) as [[[] s1]|] eqn:E; [|done]. intros Hrest.
    unfold link_level, dbind in E. destruct (prev_at prev i s) as [[p sp]|] eqn:Ep; [|done].
    destruct (Node_Next p i sp) as [[y sy]|] eqn:Ey; [|done]. destruct (SetNext x i y sy) as [[[] sx]|] eqn:Ex; [|done].
    assert (Eps : forall s : SkipList K, prev_at prev i s = Some (p, s)).
    { intros s2. unfold prev_at in *. destruct (prev !! i) as [[]|]; [|done..]. by injection Ep as <- _. }
    rewrite Eps in Ep. injection Ep as <-.
    eapply (wsteps_step _ _ k (Publishing x prev height i)).
    { cbn [wstep]. rewrite (proj2 (Nat.ltb_lt _ _)) by lia. unfold dbind. by rewrite Eps, Ey, Ex. }
    eapply (wsteps_step _ _ k (Linking x prev height (S i))); [|by apply IH; [lia|]].
    cbn [wstep]. unfold dbind. by rewrite Eps, E.
Qed.

Lemma insert_wsteps k s s' : Insert cmp k s = Some (tt, s') -> wsteps (s, Idle) (s', Idle).
Proof.
  unfold Insert. unfold dbind at 1. destruct (FindGreaterOrEqual cmp k s) as [[[x prev] s1]|] eqn:E1; [|done].
  unfold dbind at 1. destruct (RandomHeight s1) as [[height s2]|] eqn:E2; [|done]. unfold dbind at 1, dget. unfold dbind at 1, dmodify.
  set (prev' := if (max_height_ s2 <? height)%nat then _ else _). set (s3 := if (max_height_ s2 <? height)%nat then set_max_height _ _ else _).
  unfold dbind. destruct (NewNode k height s3) as [[y s4]|] eqn:E4; [|done]. intros Hl.
  eapply (wsteps_step _ _ k (Raising k prev' height)). { cbn [wstep]. unfold dbind. rewrite E1. rewrite E2. reflexivity. }
  eapply (wsteps_step _ _ k (Making k prev' height)). { reflexivity. }
  eapply (wsteps_step _ _ k (Linking y prev' height 0)). { cbn [wstep]. unfold dbind. fold s3. by rewrite E4. }
  by eapply linking_wsteps.
Qed.

(** ** What holds between the turns *)

Context {L : AllocatorLaws A} (ok : K -> Prop) {W : WeakOrder cmp ok}.
Implicit Types (s : SkipList K) (l before after : list (elem K)) (e : elem K).
Abbreviation rep := (rep cmp ok).

Definition around k before after : Prop :=
  ok k /\ Forall (fun e => cmp (key e) k = Lt) before /\ Forall (fun e => cmp k (key e) = Lt) after.
Definition prevs s before (prev : list (option Z)) (height : nat) : Prop :=
  forall j, (j < height)%nat -> prev !! j = Some (Some (end_of (head_ s) (chain j before))).
Definition placed s before after x k (height : nat) : Prop :=
  (x ∉ map loc (before ++ after)) /\ shape (heap s) x = Some (k, height) /\ (height <= max_height_ s)%nat /\ x <> head_ s.

Definition writer_inv s l (w : writer) : Prop :=
  match w with
  | Idle => True
  | Raising k prev height => exists before after, l = before ++ after /\ around k before after /\ (1 <= height <= kMaxHeight)%nat /\ prevs s before prev height
  | Making k prev height => exists before after, l = before ++ after /\ around k before after /\ (1 <= height <= max_height_ s)%nat /\ prevs s before prev height
  | Linking x prev height i => exists before after k, l = linked before after x k i /\ around k before after /\ prevs s before prev height /\
      placed s before after x k height /\ (i <= height)%nat
  | Publishing x prev height i => exists before after k, l = linked before after x k i /\ around k before after /\ prevs s before prev height /\
      placed s before after x k height /\ (i < height)%nat /\ link (heap s) x i = Some (hd 0 (chain i after))
  end.

(** Elements stay, keep their order, and are linked at more and more levels. *)
Definition grows l l' : Prop := forall i e, l !! i = Some e ->
  exists i' e', (i <= i')%nat /\ l' !! i' = Some e' /\ loc e' = loc e /\ key e' = key e /\ (lev e <= lev e')%nat.

Lemma grows_refl l : grows l l.
Proof. intros i e Hi. by exists i, e. Qed.

Lemma grows_linked before after x k i : grows (linked before after x k i) (linked before after x k (S i)).
Proof.
  intros j e. destruct i as [|i]; cbn [linked]; rewrite lookup_app; intros Hj; destruct (before !! j) eqn:E.
  - injection Hj as <-. exists j, e0. rewrite lookup_app, E. done.
  - exists (S j), e. split; [lia|]. rewrite lookup_app_r by (apply lookup_ge_None in E; lia). apply lookup_ge_None in E.
    replace (S j - length before)%nat with (S (j - length before)) by lia. done.
  - injection Hj as <-. exists j, e0. rewrite lookup_app, E. done.
  - apply lookup_ge_None in E. destruct (j - length before)%nat as [|n] eqn:En; cbn in Hj.
    + injection Hj as <-. exists j, (Build_elem x k (S (S i))). split; [done|]. rewrite lookup_app_r, En by done. cbn. split_and!; done || lia.
    + exists j, e. split; [done|]. rewrite lookup_app_r, En by done. done.
Qed.

(** One turn of the writer: it keeps all this, or the system refuses the block for the node. *)
Lemma wstep_inv key s l w : rep s l -> writer_inv s l w ->
  (w = Idle -> ok key /\ option_map fst (Contains cmp key s) = Some false) ->
  match wstep key w s with
  | Some (w', s') => exists l', rep s' l' /\ writer_inv s' l' w' /\ grows l l' /\ head_ s' = head_ s
  | None => exists k prev height, w = Making k prev height /\ denied (node_request height) (arena_ s)
  end.
Proof.
  intros H Hw Hidle. pose proof (rep_height _ _ _ _ H) as Hh. destruct w as [|k prev height|k prev height|x prev height i|x prev height i]; cbn [wstep writer_inv] in *.
  - destruct (Hidle eq_refl) as [Hk Hc]. destruct (rep_split cmp ok s l key H Hk) as (b & a & -> & Hb & Ha & _).
    destruct (FindGreaterOrEqual_spec cmp ok s b a key H Hb Ha) as (prev & E & Hlen & Hprev). unfold dbind at 1. rewrite E.
    unfold dbind at 1, RandomHeight. destruct (random_height_loop (kMaxHeight - 1) 1 (rnd_ s)) as [height seed] eqn:Er.
    pose proof (random_height_range (kMaxHeight - 1) 1 (rnd_ s)) as Hr. rewrite Er in Hr. cbn [fst] in Hr.
    unfold dbind, dget, dret. exists (b ++ a). split_and!; [|exists b, a; split_and!; try done|apply grows_refl|done].
    + pose proof (rep_grow cmp ok s _ (max_height_ s) seed H ltac:(lia)) as Hg. by destruct s.
    + pose proof (Contains_spec cmp ok s _ key (ex_intro _ _ (conj H eq_refl)) Hk) as Hc'. rewrite Hc' in Hc.
      injection Hc as Hno. pose proof (rep_ok _ _ _ _ H) as Hok. apply Forall_app in Hok as [_ Hok].
      split_and!; [done|done|]. rewrite Forall_forall in Ha, Hok |- *. intros e He. specialize (Ha e He). apply Hok in He as Hoke.
      destruct (cmp key (SkipListLemmas.key e)) eqn:Ec; [|done|by apply (cmp_gt cmp ok) in Ec].
      assert (Hy : existsb (equal_to cmp key) (map SkipListLemmas.key (b ++ a)) = true); [|congruence].
      apply existsb_exists. exists (SkipListLemmas.key e). split; [|by unfold equal_to; rewrite Ec]. apply in_map, list_elem_of_In. apply elem_of_app. by right.
    + unfold kMaxHeight in *. lia.
    + unfold kMaxHeight in *. lia.
    + intros j Hj. cbn [max_height_ set_rnd head_]. apply (prev_raised cmp ok s b a); unfold kMaxHeight in *; done || lia.
  - destruct Hw as (b & a & -> & Har & Hht & Hp). unfold dbind, dmodify, dret. exists (b ++ a).
    assert (E : rep (if (max_height_ s <? height)%nat then set_max_height height s else s) (b ++ a)).
    { destruct (Nat.ltb_spec (max_height_ s) height); [|done]. pose proof (rep_grow cmp ok s _ height (rnd_ s) H ltac:(lia)) as Hg. by destruct s. }
    split_and!; [done| |apply grows_refl|by case_match]. exists b, a. split_and!; try done; [lia|case_match eqn:Em; cbn; [lia|apply Nat.ltb_ge in Em; lia]|].
    intros j Hj. rewrite (Hp j Hj). by case_match.
  - destruct Hw as (b & a & -> & Har & Hht & Hp). unfold dbind. pose proof (new_node_spec cmp ok s _ k height H ltac:(lia)) as Hn.
    destruct (NewNode k height s) as [[x s']|]; [|by exists k, prev, height]. destruct Hn as (Hnew & Hx & H3 & Hz & Eh & Em). unfold dret. exists (b ++ a).
    split_and!; [done| |apply grows_refl|done]. exists b, a, k. split_and!; try done; [intros j Hj; rewrite Eh; by apply Hp| |lia].
    split_and!; [|done|lia|].
    + intros (e & -> & He)%list_elem_of_fmap. by destruct (rep_in _ _ _ _ _ H He).
    + intros ->. rewrite Eh in *. destruct (rep_head _ _ _ _ H). congruence.
  - destruct Hw as (b & a & k & -> & Har & Hp & (Hx & Hs & Hmax & Hhd) & Hi). destruct (Nat.ltb_spec i height).
    + pose proof (rep_paths _ _ _ _ H i ltac:(lia)) as Hpath. rewrite chain_linked, decide_False in Hpath by lia. cbn [app] in Hpath.
      apply path_app, path_link in Hpath. unfold dbind, prev_at, Node_Next. rewrite (Hp i) by done. rewrite Hpath.
      destruct (set_up_spec cmp ok b a x k height Hx s i (hd 0 (chain i a)) H Hs ltac:(lia) Hhd) as (E & H' & Hup). rewrite E. unfold dret.
      eexists. split_and!; [exact H'| |apply grows_refl|done]. exists b, a, k. split_and!; try done. split_and!; try done.
      cbn [heap set_heap]. by rewrite shape_put.
    + unfold dret. eexists. split_and!; [exact H|done|apply grows_refl|done].
  - destruct Hw as (b & a & k & -> & Har & Hp & (Hx & Hs & Hmax & Hhd) & Hi & Hup). destruct Har as (Hk & Hb & Ha).
    unfold dbind, prev_at. rewrite (Hp i) by done.
    destruct (publish_spec cmp ok b a x k height Hx Hk Hb Ha s i H Hs Hi Hmax Hhd Hup) as [E H']. rewrite E. unfold dret.
    eexists. split_and!; [exact H'| |apply grows_linked|done]. exists b, a, k. split_and!; try done. split_and!; try done.
    cbn [heap set_heap]. by rewrite shape_put.
Qed.

(** ** The reader *)

(** The reader after [n] turns: at the head, or at an element before the target and linked at its level.
    A turn takes it down a level or past an element. *)
Definition reader_inv target s l (n : nat) (r : reader) : Prop :=
  match r with
  | Start => n = 0%nat
  | At x level => (level < kMaxHeight)%nat /\
      ((x = head_ s /\ (n + level <= kMaxHeight)%nat) \/
       exists i e, l !! i = Some e /\ loc e = x /\ (level < lev e)%nat /\ cmp (key e) target = Lt /\ (n + level <= kMaxHeight + S i)%nat)
  | Done _ => True
  end.

Lemma reader_inv_grows target s s' l l' n r : head_ s' = head_ s -> grows l l' -> reader_inv target s l n r -> reader_inv target s' l' n r.
Proof.
  intros Eh Hg. destruct r as [|x level|y]; cbn [reader_inv]; [done| |done]. rewrite Eh. intros [Hl [H|(i & e & Hi & <- & Hlev & Hlt & Hn)]]; [by split; [|left]|].
  split; [done|right]. destruct (Hg i e Hi) as (i' & e' & Hii & Hi' & E1 & E2 & Hlev'). exists i', e'. rewrite E2. split_and!; done || lia.
Qed.

(** The part of the list that the reader has passed. *)
Lemma reader_split target s l n x level : rep s l -> ok target -> reader_inv target s l n (At x level) ->
  exists done_ todo, l = done_ ++ todo /\ Forall (fun e => cmp (key e) target = Lt) done_ /\
    x = end_of (head_ s) (chain level done_) /\ (n + level <= kMaxHeight + length done_)%nat.
Proof.
  intros H Ht [Hl [[-> Hn]|(i & e & Hi & <- & Hlev & Hlt & Hn)]].
  - exists [], l. split_and!; [done|by apply Forall_nil|done|cbn [length]; lia].
  - exists (take (S i) l), (drop (S i) l). rewrite take_drop, (take_S_r _ _ e) by done. split_and!; [done| | |].
    + pose proof (rep_sorted _ _ _ _ H) as Hs. pose proof (rep_ok _ _ _ _ H) as Hok. rewrite <- (take_drop_middle l i e Hi) in Hs, Hok.
      apply Forall_app in Hok as [Hok1 Hok2]. apply Forall_cons in Hok2 as [Hoke _]. apply Forall_app. split; [|by repeat constructor].
      revert Hs Hok1. generalize (take i l). intros b. induction b as [|f b IH]; [constructor|]. cbn [app]. intros Hs Hok1.
      apply StronglySorted_inv in Hs as [Hs Hf]. apply Forall_cons in Hok1 as [Hokf Hok1]. constructor; [|by apply IH].
      apply Forall_app in Hf as [_ Hf]. apply Forall_cons in Hf as [Hfe _]. by apply (cmp_lt_trans cmp ok (key f) (key e) target).
    + rewrite chain_app, end_of_app, chain_cons, decide_True by done. done.
    + rewrite length_app, length_take_le by (apply lookup_lt_Some in Hi; lia). cbn [length]. lia.
Qed.

Lemma reader_down target s l n x level : reader_inv target s l n (At x (S level)) -> reader_inv target s l (S n) (At x level).
Proof.
  cbn. intros [Hl [[? ?]|(i & e & ? & ? & ? & ? & ?)]]; split; [lia|left|lia|right]; [split; [done|lia]|exists i, e; split_and!; done || lia].
Qed.

(** Nothing before the target is left behind the reader at its level. *)
Lemma reader_stops target s b todo level : rep s (b ++ todo) -> ok target -> (level < kMaxHeight)%nat -> Forall (fun e => cmp (key e) target = Lt) b ->
  KeyIsAfterNode cmp target (hd 0 (chain level todo)) s = Some (false, s) ->
  level = 0%nat -> Iterator_Seek cmp target s = Some (hd 0 (chain level todo), s).
Proof.
  intros H Ht Hl Hb Hno ->. pose proof (rep_lev _ _ _ _ H) as Hlev. apply Forall_app in Hlev as [_ Hlev].
  rewrite chain_zero in * by (eapply Forall_impl; [exact Hlev|]; cbn; lia). rewrite (Seek_spec cmp ok s b todo target H Hb); [by destruct todo|].
  destruct todo as [|e todo]; [constructor|]. cbn [map hd] in Hno. destruct (key_of cmp ok s b (e :: todo) H e) as [E1 E2]; [set_solver|].
  unfold KeyIsAfterNode, dbind, dret in Hno. rewrite E1, E2 in Hno.
  assert (He : cmp (key e) target <> Lt) by (by destruct (cmp (key e) target)). constructor; [done|].
  pose proof (rep_sorted _ _ _ _ H) as Hs. pose proof (rep_ok _ _ _ _ H) as Hok. apply Forall_app in Hok as [_ Hok].
  apply Forall_cons in Hok as [Hoke Hok].
  assert (Hf : Forall (fun f => cmp (key e) (key f) = Lt) todo).
  { clear -Hs. induction b as [|f b IH]; cbn [app] in Hs; apply StronglySorted_inv in Hs as [Hs Hf]; [done|by apply IH]. }
  rewrite Forall_forall in Hf, Hok |- *. intros f Hin Hlt. apply He. pose proof (Hf f Hin) as Hef. apply Hok in Hin.
  by apply (cmp_lt_trans cmp ok (key e) (key f) target).
Qed.

(** One turn of the reader: it takes one, and when it ends it has what a search at this moment finds. *)
Lemma rstep_inv target s l n r : rep s l -> ok target -> reader_inv target s l n r -> (forall x, r <> Done x) ->
  exists r', rstep target r s = Some (r', s) /\ reader_inv target s l (S n) r' /\
    forall x, r' = Done x -> Iterator_Seek cmp target s = Some (x, s).
Proof.
  intros H Ht Hr Hnd. pose proof (rep_height _ _ _ _ H) as Hh. destruct r as [|x level|y]; [| |by destruct (Hnd y)].
  { cbn in *. eexists. split; [done|]. split; [|done]. split; [lia|left]. split; [done|]. subst n. lia. }
  destruct (reader_split target s l n x level H Ht Hr) as (b & todo & -> & Hb & Ex & Hn). pose proof (proj1 Hr) as Hl.
  cbn [rstep]. unfold dbind at 1, turn. unfold dbind at 1, Node_Next. rewrite Ex, (rep_link cmp ok s b todo level H), <- Ex by done.
  assert (Hstop : KeyIsAfterNode cmp target (hd 0 (chain level todo)) s = Some (false, s) ->
    exists r', dbind (KeyIsAfterNode cmp target (hd 0 (chain level todo))) (fun go => dret (hd 0 (chain level todo), go)) s = Some (hd 0 (chain level todo), false, s) /\
      dret (match level with O => Done (hd 0 (chain level todo)) | S level => At x level end) s = Some (r', s) /\
      reader_inv target s (b ++ todo) (S n) r' /\ forall y, r' = Done y -> Iterator_Seek cmp target s = Some (y, s)).
  { intros E. eexists. split; [unfold dbind; by rewrite E|]. split; [done|]. pose proof (reader_stops target s b todo level H Ht Hl Hb E) as Hst.
    destruct level as [|level]; [|split; [by apply reader_down|done]]. split; [done|]. intros y [= <-]. by apply Hst. }
  destruct (KeyIsAfterNode cmp target (hd 0 (chain level todo)) s) as [[[] s']|] eqn:E.
  - destruct (chain_split level todo) as [Ec|(c & e & todo' & -> & Hc & He)]; [by rewrite Ec in E|].
    assert (Ey : hd 0 (chain level (c ++ e :: todo')) = loc e) by (by rewrite chain_app, chain_cons, Hc, decide_True).
    rewrite Ey in *. destruct (key_of cmp ok s b (c ++ e :: todo') H e) as [E1 E2]; [set_solver|].
    assert (Hlt : cmp (key e) target = Lt /\ s' = s).
    { unfold KeyIsAfterNode, dbind, dret in E. rewrite E1, E2 in E. destruct (cmp (key e) target); by simplify_eq. }
    destruct Hlt as [Hlt ->]. unfold dbind. rewrite E. eexists. split; [done|]. split; [|done]. split; [done|right].
    exists (length b + length c)%nat, e. split_and!; [|done|done|done|lia]. rewrite app_assoc. apply list_lookup_middle. by rewrite length_app.
  - assert (Es : s' = s).
    { unfold KeyIsAfterNode, dbind, dret, Node_key in E. repeat case_match; by simplify_eq. }
    subst s'. destruct Hstop as (r' & E1 & E2 & Hr' & Hd); [done|]. unfold dbind at 1 in E1. unfold dbind at 1. rewrite E1.
    exists r'. split; [|done]. exact E2.
  - exfalso. destruct (chain level todo) as [|y c] eqn:Ec; [done|]. cbn [hd] in E.
    destruct (chain_elem level todo y) as (e & He & <- & _); [rewrite Ec; set_solver|].
    destruct (key_of cmp ok s b todo H e) as [E1 E2]; [set_solver|]. unfold KeyIsAfterNode, dbind, dret in E. by rewrite E1, E2 in E.
Qed.

(** ** Every interleaving *)

Lemma run_inv target n s0 c : contents cmp ok s0 [] -> ok target -> run ok target n (s0, Idle, Start) c ->
  let '(s, w, r) := c in exists l, rep s l /\ writer_inv s l w /\ reader_inv target s l n r.
Proof.
  intros (l0 & H0 & E0) Ht. remember (s0, Idle, Start) as c0 eqn:Ec. induction 1 as [c|n c s w r key w' s' Hrun IH Hidle Hw|n c s w r r' s' Hrun IH Hr].
  - rewrite Ec. exists l0. done.
  - destruct (IH Ec) as (l & H & Hwi & Hri). pose proof (wstep_inv key s l w H Hwi Hidle) as P. rewrite Hw in P.
    destruct P as (l' & H' & Hw' & Hg & Eh). exists l'. split; [done|]. split; [done|]. by apply (reader_inv_grows target s s' l l').
  - destruct (IH Ec) as (l & H & Hwi & Hri). assert (Hnd : (exists x, r = Done x) \/ forall x, r <> Done x) by (destruct r; [by right|by right|left; by eexists]).
    destruct Hnd as [[x ->]|Hnd]; [injection Hr as <- <-; by exists l|].
    destruct (rstep_inv target s l n r H Ht Hri Hnd) as (r2 & E & Hr2 & _). rewrite E in Hr. injection Hr as <- <-. by exists l.
Qed.

(** C16: while one thread inserts keys, a reader that takes no lock: at every moment, between any
    two stores of the writer, the nodes are a sorted list; the reader can always take its next turn, reading
    only links that were set; and when it ends it returns what the search would return if the list
    stood still at that moment.  The writer's turns are those of [Insert]. *)
Theorem skiplist_read_unlocked any_key target n s w r : ok target ->
  (forall s0, NewSkipList any_key NewArena tt = Some (s0, tt) -> run ok target n (s0, Idle, Start) (s, w, r) ->
    (exists keys nodes, StronglySorted (fun x y => cmp x y = Lt) keys /\ iterates cmp ok s keys nodes) /\
    ((forall x, r <> Done x) -> exists r', rstep target r s = Some (r', s) /\
       forall x, r' = Done x -> Iterator_Seek cmp target s = Some (x, s))) /\
  (forall key s', Insert cmp key s = Some (tt, s') -> wsteps (s, Idle) (s', Idle)).
Proof.
  intros Ht. split; [|intros key s'; apply insert_wsteps]. intros s0 Hnew Hrun.
  pose proof (NewSkipList_contents cmp ok any_key NewArena [] inv_new) as Hc. rewrite Hnew in Hc.
  destruct (run_inv target n s0 _ Hc Ht Hrun) as (l & H & _ & Hr). split.
  - exists (map key l), (map loc l). split; [|by apply rep_iterates]. apply (contents_sorted cmp ok s). by exists l.
  - intros Hnd. destruct (rstep_inv target s l n r H Ht Hr Hnd) as (r' & E & _ & Hd). by exists r'.
Qed.

(** C28: the reader does not wait for the writer: however their turns are interleaved, after as many of
    its own turns as there are nodes and levels it has ended. *)
Theorem skiplist_read_ends any_key target n s0 s w r : ok target ->
  NewSkipList any_key NewArena tt = Some (s0, tt) -> run ok target n (s0, Idle, Start) (s, w, r) ->
  (kMaxHeight + size (heap s) < n)%nat -> exists x, r = Done x.
Proof.
  intros Ht Hnew Hrun Hn. pose proof (NewSkipList_contents cmp ok any_key NewArena [] inv_new) as Hc. rewrite Hnew in Hc.
  destruct (run_inv target n s0 _ Hc Ht Hrun) as (l & H & _ & Hr). pose proof (rep_size _ _ _ _ H) as Hs.
  destruct r as [|x level|x]; [cbn in Hr; lia| |by exists x]. exfalso.
  destruct Hr as [Hl [[_ Hn']|(i & e & Hi & _ & _ & _ & Hn')]]; [lia|]. apply lookup_lt_Some in Hi. lia.
Qed.
End concurrent.

(** ** Schedules *)

(** Turns as a schedule says: of the writer, which inserts the key when it is idle, or of the reader. *)
Section schedule.
Context {A : Allocator} {K : Type} (cmp : K -> K -> comparison).

Fixpoint exec (target : K) (schedule : list (option K)) (c : SkipList K * writer * reader) : option (SkipList K * writer * reader) :=
  match schedule, c with
  | [], _ => Some c
  | Some key :: schedule, (s, w, r) =>
      let allowed := match w with Idle => match Contains cmp key s with Some (b, _) => negb b | None => false end | _ => true end in
      if allowed then match wstep cmp key w s with Some (w', s') => exec target schedule (s', w', r) | None => None end else None
  | None :: schedule, (s, w, r) =>
      match rstep cmp target r s with Some (r', s') => exec target schedule (s', w, r') | None => None end
  end.

Definition reader_turns (schedule : list (option K)) : nat := length (filter (fun t => t = None) schedule).

Lemma exec_run target schedule n c0 c c' : run cmp (fun _ => True) target n c0 c -> exec target schedule c = Some c' ->
  run cmp (fun _ => True) target (reader_turns schedule + n) c0 c'.
Proof.
  unfold reader_turns. revert n c. induction schedule as [|[key|] schedule IH]; intros n [[s w] r] Hrun; cbn [exec].
  - by intros [= <-].
  - destruct (match w with Idle => _ | _ => _ end) eqn:Ea; [|done]. destruct (wstep cmp key w s) as [[w' s']|] eqn:Ew; [|done].
    rewrite filter_cons_False by done. apply IH. eapply run_writer; [done| |done]. intros ->.
    split; [done|]. by destruct (Contains cmp key s) as [[[] ?]|].
  - destruct (rstep cmp target r s) as [[r' s']|] eqn:Er; [|done]. rewrite filter_cons_True by done. cbn [length].
    rewrite Nat.add_succ_comm. apply IH. by eapply run_reader.
Qed.
End schedule.

(** A list with 5, the reader of 4 on its way, and an insertion of 3 between its two stores. *)
Lemma skiplist_read_unlocked_witness :
  match NewSkipList (A := bump_allocator) 0 NewArena tt with
  | Some (s0, _) =>
      match exec (A := bump_allocator) Z.compare 4 (replicate 8 (Some 5) ++ [None] ++ replicate 5 (Some 3) ++ [None]) (s0, Idle, Start) with
      | Some (s, w, r) => exists keys nodes, StronglySorted (fun x y => (x ?= y) = Lt) keys /\ iterates Z.compare (fun _ => True) s keys nodes
      | None => False
      end
  | None => False
  end.
Proof.
  set (sched := replicate 8 (Some 5) ++ [None] ++ replicate 5 (Some 3) ++ [None]).
  destruct (NewSkipList 0 NewArena tt) as [[s0 []]|] eqn:E0; [|vm_compute in E0; discriminate].
  destruct (exec Z.compare 4 sched (s0, Idle, Start)) as [[[s w] r]|] eqn:E1; [|vm_compute in E0; injection E0 as <-; vm_compute in E1; discriminate].
  exact (proj1 (proj1 (skiplist_read_unlocked (A := bump_allocator) Z.compare (fun _ => True) 0 4 (reader_turns sched + 0) s w r I)
    s0 E0 (exec_run Z.compare 4 sched 0 _ _ _ (run_refl _ _ _ _) E1))).
Defined.

(** The same reader, given twenty turns in between. *)
Lemma skiplist_read_ends_witness :
  match NewSkipList (A := bump_allocator) 0 NewArena tt with
  | Some (s0, _) =>
      match exec (A := bump_allocator) Z.compare 4 (replicate 8 (Some 5) ++ [None] ++ replicate 5 (Some 3) ++ replicate 20 None) (s0, Idle, Start) with
      | Some (s, w, r) => exists x, r = Done x
      | None => False
      end
  | None => False
  end.
Proof.
  set (sched := replicate 8 (Some 5) ++ [None] ++ replicate 5 (Some 3) ++ replicate 20 None).
  destruct (NewSkipList 0 NewArena tt) as [[s0 []]|] eqn:E0; [|vm_compute in E0; discriminate].
  destruct (exec Z.compare 4 sched (s0, Idle, Start)) as [[[s w] r]|] eqn:E1; [|vm_compute in E0; injection E0 as <-; vm_compute in E1; discriminate].
  apply (skiplist_read_ends (A := bump_allocator) Z.compare (fun _ => True) 0 4 (reader_turns sched + 0) s0 s w r I E0
    (exec_run Z.compare 4 sched 0 _ _ _ (run_refl _ _ _ _) E1)).
  assert (Hn : (reader_turns sched + 0 = 21)%nat) by reflexivity. rewrite Hn.
  vm_compute in E0. injection E0 as <-. vm_compute in E1. injection E1 as <- _ _. vm_compute. repeat constructor.
Defined.
