(* ===== verification/MemTable.v ===== *)
(** The memory table (leveldb-library/db/memtable.h and .cc): a skip list of entries, each an internal
    key and a value with their lengths before them.

    An entry, a [const char*] into the arena, is the list of its bytes.  What reads behind the end of
    an entry, or from a null pointer, is [None]. *)
From stdpp Require Import gmap.
From Stdlib Require Import String.
From S2P Require Import Prelude Coding Comparator Status DbFormat Arena SkipList WriteBatch.

(** [GetLengthPrefixedSlice(data)], which assumes that its data is not corrupted: the slice and what
    lies behind it. *)
Definition MemTable_GetLengthPrefixedSlice (data : list Z) : option (list Z * list Z) :=
  match GetVarint32Ptr (take 5 data) with
  | Some (n, p) =>
      let p := drop (length (take 5 data) - length p) data in
      if len p <? n then None else Some (take (Z.to_nat n) p, drop (Z.to_nat n) p)
  | None => None
  end.
Definition slice_at (data : list Z) : list Z :=
  match MemTable_GetLengthPrefixedSlice data with Some (s, _) => s | None => [] end.

Definition EncodeKey (target : list Z) : list Z := PutVarint32 [] (u32 (len target)) ++ target.

Section memtable.
Context {A : Allocator} (user_comparator : Comparator).

Definition KeyComparator (aptr bptr : list Z) : comparison :=
  InternalKeyComparator_Compare user_comparator (slice_at aptr) (slice_at bptr).

(** [arena_] is the one of the list. *)
Record MemTable := { refs_ : Z; table_ : SkipList (list Z) }.

(** On the list of a table. *)
Definition on_table {R} (m : D (SkipList (list Z)) R) : D MemTable R := fun t =>
  match m (table_ t) with Some (r, table) => Some (r, {| refs_ := refs_ t; table_ := table |}) | None => None end.

(** The head's key is the null pointer. *)
Definition NewMemTable : option MemTable :=
  match NewSkipList [] NewArena tt with Some (table, _) => Some {| refs_ := 0; table_ := table |} | None => None end.
Definition Ref (t : MemTable) : MemTable := {| refs_ := refs_ t + 1; table_ := table_ t |}.
(** [None] when the table is deleted. *)
Definition Unref (t : MemTable) : option MemTable :=
  let refs := refs_ t - 1 in if refs <=? 0 then None else Some {| refs_ := refs; table_ := table_ t |}.
Definition ApproximateMemoryUsage (t : MemTable) : Z := MemoryUsage (arena_ (table_ t)).

(** [arena_.Allocate]. *)
Definition allocate_in (bytes : Z) : D (SkipList (list Z)) Z := fun s =>
  match Allocate bytes (arena_ s) with Some (p, a) => Some (p, set_arena a s) | None => None end.

Definition entry_bytes (s type_ : Z) (key value : list Z) : list Z :=
  EncodeVarint32 (u32 (u64 (len key + 8))) ++ key ++ EncodeFixed64 (u64 (s << 8) |. type_) ++
  EncodeVarint32 (u32 (len value)) ++ value.
Definition encoded_len (key value : list Z) : Z :=
  let internal_key_size := u64 (len key + 8) in
  u64 (VarintLength internal_key_size + internal_key_size + VarintLength (len value) + len value).

Definition MemTable_Add (s type_ : Z) (key value : list Z) : D MemTable unit :=
  on_table
    (let! _ := allocate_in (encoded_len key value) in
     Insert KeyComparator (entry_bytes s type_ key value)).

(** [true] with the value or with the status, or [false]. *)
Definition MemTable_Get (key : LookupKey) : D MemTable (option (Status + list Z)) :=
  on_table
    (let memkey := memtable_key key in
     let! iter := Iterator_Seek KeyComparator memkey in
     if Iterator_Valid iter then
       let! entry := Iterator_key iter in
       match MemTable_GetLengthPrefixedSlice entry with
       | None => running
       | Some (ikey, rest) =>
           match Compare (ExtractUserKey ikey) (lookup_user_key key) with
           | Eq =>
               let tag := tag_of ikey in
               let type_ := tag &. 0xff in
               if type_ =? kTypeValue then
                 match MemTable_GetLengthPrefixedSlice rest with
                 | None => running
                 | Some (v, _) => dret (Some (inr v))
                 end
               else if type_ =? kTypeDeletion then dret (Some (inl (Status_NotFound [] [])))
               else dret None
           | _ => dret None
           end
       end
     else dret None).

(** [MemTableIterator], by the node it is at. *)
Definition MemTableIterator_Seek (k : list Z) : D MemTable Z := on_table (Iterator_Seek KeyComparator (EncodeKey k)).
Definition MemTableIterator_SeekToFirst : D MemTable Z := on_table Iterator_SeekToFirst.
Definition MemTableIterator_SeekToLast : D MemTable Z := on_table Iterator_SeekToLast.
Definition MemTableIterator_Next (node : Z) : D MemTable Z := on_table (Iterator_Next node).
Definition MemTableIterator_Prev (node : Z) : D MemTable Z := on_table (Iterator_Prev KeyComparator node).
Definition MemTableIterator_key (node : Z) : D MemTable (list Z) :=
  on_table (let! entry := Iterator_key node in
            match MemTable_GetLengthPrefixedSlice entry with Some (k, _) => dret k | None => running end).
Definition MemTableIterator_value (node : Z) : D MemTable (list Z) :=
  on_table (let! entry := Iterator_key node in
            match MemTable_GetLengthPrefixedSlice entry with
            | Some (_, rest) => match MemTable_GetLengthPrefixedSlice rest with Some (v, _) => dret v | None => running end
            | None => running
            end).

(** The table that batches are inserted into; [None] once it could not be, for want of memory. *)
#[export] Instance memtable : WriteBatch.MemTable (option MemTable) := {
  Add s type_ key value t :=
    match t with
    | Some t => match MemTable_Add s type_ key value t with Some (_, t) => Some t | None => None end
    | None => None
    end
}.
End memtable.
