(* ===== verification/MemTableProps.v ===== *)
(** The memory table: a lookup at a sequence number finds the newest update of the key that is not
    newer, whatever the order of the updates; the iterator gives all of them in the order of internal
    keys. *)
From stdpp Require Import gmap sorting.
From S2P Require Import Prelude Coding Comparator Status DbFormat Arena SkipList SkipListLemmas SkipListProps WriteBatch MemTable.

(** ** Entries *)

Record entry := { e_key : list Z; e_seq : Z; e_type : Z; e_value : list Z }.
Definition encode (e : entry) : list Z := entry_bytes (e_seq e) (e_type e) (e_key e) (e_value e).

Lemma read_slice s rest : len s < 2 ^ 32 -> Forall byte s -> Forall byte rest ->
  MemTable_GetLengthPrefixedSlice (PutLengthPrefixedSlice [] s ++ rest) = Some (s, rest).
Proof.
  intros Hl Hs Hr. pose proof (len_nonneg s). unfold PutLengthPrefixedSlice, PutVarint32. cbn [app]. rewrite u32_id, <- app_assoc by lia.
  pose proof (EncodeVarint32_length (len s) ltac:(lia)) as Hc. set (code := EncodeVarint32 (len s)) in *.
  assert (Hc' : (length code <= 5)%nat) by (unfold len in Hc; lia).
  unfold MemTable_GetLengthPrefixedSlice. rewrite take_app_ge by done. set (r := take _ (s ++ rest)).
  assert (E : GetVarint32 (code ++ r) = (Some (len s), r)) by (apply get_put_varint32; [lia|apply bytes_take, Forall_app; done]).
  unfold GetVarint32 in E. destruct (GetVarint32Ptr (code ++ r)) as [[n q]|]; [|done]. injection E as -> ->.
  rewrite length_app, Nat.add_sub, drop_app_length, len_app. pose proof (len_nonneg rest).
  rewrite (proj2 (Z.ltb_ge _ _)) by lia. by rewrite len_to_nat, take_app_length, drop_app_length.
Qed.

Lemma slice_at_put s rest : len s < 2 ^ 32 -> Forall byte s -> Forall byte rest -> slice_at (PutLengthPrefixedSlice [] s ++ rest) = s.
Proof. intros. unfold slice_at. by rewrite read_slice. Qed.

(** ** Lists of entries *)

Section table.
Context (C : Comparator) {CL : ComparatorLaws C}.
Implicit Types (e : entry) (es h : list entry) (u : list Z) (s : Z).

Definition entry_ok e : Prop :=
  key_ok (e_key e) /\ len (e_key e) < 2 ^ 32 - 8 /\ 0 <= e_seq e <= kMaxSequenceNumber /\ 0 <= e_type e <= kTypeValue /\
  Forall byte (e_value e) /\ len (e_value e) < 2 ^ 32.
Definition ikey e : list Z := internal (e_key e) (e_seq e) (e_type e).

Lemma len_internal k s t : len (internal k s t) = len k + 8.
Proof. rewrite internal_app, len_app. by setoid_rewrite len_fixed64. Qed.

Lemma internal_bytes k s t : Forall byte k -> Forall byte (internal k s t).
Proof. intros Hk. rewrite internal_app. apply Forall_app. split; [done|apply le_bytes_byte]. Qed.

Lemma put_slice_byte (s : list Z) : Forall byte s -> len s < 2 ^ 32 -> Forall byte (PutLengthPrefixedSlice [] s).
Proof.
  intros Hs Hl. pose proof (len_nonneg s). unfold PutLengthPrefixedSlice, PutVarint32. cbn [app]. apply Forall_app. split; [|done].
  rewrite u32_id, EncodeVarint32_64 by lia. apply varint_bytes_byte. by destruct (EncodeVarint64_spec (len s) ltac:(lia)).
Qed.

Lemma encode_parts e : entry_ok e ->
  encode e = PutLengthPrefixedSlice [] (ikey e) ++ PutLengthPrefixedSlice [] (e_value e) ++ [] /\
  len (ikey e) < 2 ^ 32 /\ Forall byte (ikey e) /\ Forall byte (PutLengthPrefixedSlice [] (e_value e) ++ []).
Proof.
  intros (Hk & Hl & _ & _ & Hv & Hlv). pose proof (len_nonneg (e_key e)). rewrite app_nil_r. unfold ikey. split_and!.
  - unfold encode, entry_bytes, PutLengthPrefixedSlice, PutVarint32. cbn [app]. rewrite len_internal, u64_id, internal_app by lia.
    by rewrite <- !app_assoc.
  - rewrite len_internal. lia.
  - by apply internal_bytes, key_bytes.
  - by apply put_slice_byte.
Qed.

Lemma slice_encode e : entry_ok e -> slice_at (encode e) = ikey e.
Proof. intros He. destruct (encode_parts e He) as (-> & ? & ? & ?). by apply slice_at_put. Qed.

Definition entry_key_ok (b : list Z) : Prop := internal_ok C (slice_at b).

#[export] Instance key_comparator_order : WeakOrder (KeyComparator C) entry_key_ok.
Proof. apply (order_map slice_at (InternalKeyComparator_Compare C) (internal_ok C)), _. Qed.

Lemma ikey_ok u s t : key_ok u -> 0 <= s <= kMaxSequenceNumber -> 0 <= t <= kTypeValue -> internal_ok C (internal u s t).
Proof. intros Hu Hs Ht. unfold kTypeValue in *. exists u, (PackSequenceAndType s t). split; [done|]. split; [done|]. apply pack_range; lia. Qed.

Lemma entry_key_encode e : entry_ok e -> entry_key_ok (encode e).
Proof. intros He. unfold entry_key_ok. rewrite slice_encode by done. destruct He as (? & _ & ? & ? & _). by apply ikey_ok. Qed.

Lemma compare_internal_keys u s t v s' t' : 0 <= s <= kMaxSequenceNumber -> 0 <= t <= 1 -> 0 <= s' <= kMaxSequenceNumber -> 0 <= t' <= 1 ->
  InternalKeyComparator_Compare C (internal u s t) (internal v s' t') =
  match Compare u v with Eq => s' * 256 + t' ?= s * 256 + t | c => c end.
Proof.
  intros Hs Ht Hs' Ht'. destruct (pack_range s t) as [E ?]; [lia..|]. destruct (pack_range s' t') as [E' ?]; [lia..|].
  rewrite !internal_app. setoid_rewrite internal_compare_app; [|done..]. by rewrite E, E'.
Qed.

(** ** Lookups *)

(** Updates of a key that a snapshot sees, and the newest of them. *)
Definition seen u s e : bool := bool_decide (e_key e = u) && (e_seq e <=? s).
Fixpoint newest u s (h : list entry) : option entry :=
  match h with
  | [] => None
  | e :: h =>
      match newest u s h with
      | None => if seen u s e then Some e else None
      | Some b => if seen u s e && (e_seq b <? e_seq e) then Some e else Some b
      end
  end.

Lemma seen_iff u s e : seen u s e = true <-> e_key e = u /\ e_seq e <= s.
Proof. unfold seen. by rewrite andb_true_iff, bool_decide_eq_true, Z.leb_le. Qed.

Lemma newest_spec u s h : match newest u s h with
  | Some b => b ∈ h /\ seen u s b = true /\ forall e, e ∈ h -> seen u s e = true -> e_seq e <= e_seq b
  | None => forall e, e ∈ h -> seen u s e = false
  end.
Proof.
  induction h as [|e h IH]; cbn [newest]; [intros e He; set_solver|]. destruct (newest u s h) as [b|].
  - destruct IH as (Hb & Hs & Hmax). destruct (seen u s e) eqn:Ee; cbn [andb]; [destruct (Z.ltb_spec (e_seq b) (e_seq e))|].
    + split; [set_solver|]. split; [done|]. intros f [->|Hf]%elem_of_cons Hsf; [lia|]. specialize (Hmax f Hf Hsf). lia.
    + split; [set_solver|]. split; [done|]. intros f [->|Hf]%elem_of_cons Hsf; [lia|auto].
    + split; [set_solver|]. split; [done|]. intros f [->|Hf]%elem_of_cons Hsf; [congruence|auto].
  - destruct (seen u s e) eqn:Ee.
    + split; [set_solver|]. split; [done|]. intros f [->|Hf]%elem_of_cons Hsf; [lia|]. by rewrite IH in Hsf.
    + intros f [->|Hf]%elem_of_cons; auto.
Qed.

(** Updates of different keys, or at different sequence numbers. *)
Definition distinct h : Prop := NoDup (map (fun e => (e_key e, e_seq e)) h).

Lemma distinct_eq h e f : distinct h -> e ∈ h -> f ∈ h -> e_key e = e_key f -> e_seq e = e_seq f -> e = f.
Proof.
  unfold distinct. intros Hd (i & Hi)%list_elem_of_lookup (j & Hj)%list_elem_of_lookup Ek Es.
  assert (i = j) as ->; [|congruence]. eapply NoDup_lookup; [exact Hd|by rewrite list_lookup_fmap, Hi|]. rewrite list_lookup_fmap, Hj. cbn. by rewrite Ek, Es.
Qed.

Lemma newest_unique u s h e : distinct h -> e ∈ h -> seen u s e = true -> (forall f, f ∈ h -> seen u s f = true -> e_seq f <= e_seq e) ->
  newest u s h = Some e.
Proof.
  intros Hd He Hs Hmax. pose proof (newest_spec u s h) as H. destruct (newest u s h) as [b|]; [|by rewrite H in Hs].
  destruct H as (Hb & Hsb & Hmaxb). f_equal. apply (distinct_eq h); try done.
  - apply seen_iff in Hs as [-> _]. by apply seen_iff in Hsb as [-> _].
  - specialize (Hmax b Hb Hsb). specialize (Hmaxb e He Hs). lia.
Qed.

Lemma newest_none u s h : (forall e, e ∈ h -> seen u s e = false) -> newest u s h = None.
Proof.
  intros H. pose proof (newest_spec u s h) as P. destruct (newest u s h) as [b|]; [|done]. destruct P as (Hb & Hs & _). by rewrite H in Hs.
Qed.

(** How an entry compares with the key of a lookup. *)
Lemma lookup_bytes u s : key_ok u -> len u < 2 ^ 32 - 8 -> 0 <= s <= kMaxSequenceNumber ->
  slice_at (memtable_key (NewLookupKey u s)) = internal u s 1 /\ lookup_user_key (NewLookupKey u s) = u /\
  entry_key_ok (memtable_key (NewLookupKey u s)).
Proof.
  intros Hu Hl Hs. destruct (lookup_key_parts u s Hl Hs) as (Ei & Eu & Em & _).
  assert (Esl : slice_at (memtable_key (NewLookupKey u s)) = internal u s 1).
  { rewrite Em, Ei, <- (app_nil_r (PutLengthPrefixedSlice _ _)). apply slice_at_put; [rewrite len_internal; lia|by apply internal_bytes, key_bytes|constructor]. }
  split; [done|]. split; [done|]. unfold entry_key_ok. rewrite Esl. by apply ikey_ok.
Qed.

Section lookup.
Context (u : list Z) (s : Z) (Hu : key_ok u) (Hl : len u < 2 ^ 32 - 8) (Hs : 0 <= s <= kMaxSequenceNumber).
Let target := memtable_key (NewLookupKey u s).

Lemma compare_target e : entry_ok e -> KeyComparator C (encode e) target <> Lt <->
  Compare (e_key e) u = Gt \/ seen u s e = true.
Proof.
  intros He. destruct (lookup_bytes u s Hu Hl Hs) as (Et & _ & _). unfold KeyComparator, target. rewrite Et, slice_encode by done.
  destruct He as (Hk & _ & Hse & Hty & _). unfold kTypeValue in *. unfold ikey. rewrite compare_internal_keys by lia. rewrite seen_iff.
  destruct (Compare (e_key e) u) eqn:E.
  - apply compare_eq in E; [|done..]. rewrite Z.compare_lt_iff. split; [intros; right; split; [done|lia]|intros [?|[_ ?]]; [done|lia]].
  - split; [done|]. intros [?|[<- _]]; [done|]. by rewrite (cmp_refl Compare key_ok) in E.
  - split; [by left|done].
Qed.

(** A sorted list cut where the lookup lands: the first entry from there on is the newest, if it is of
    the key. *)
Lemma newest_from before after : Forall entry_ok (before ++ after) -> distinct (before ++ after) ->
  StronglySorted (fun x y => KeyComparator C x y = Lt) (map encode (before ++ after)) ->
  Forall (fun e => KeyComparator C (encode e) target = Lt) before ->
  Forall (fun e => KeyComparator C (encode e) target <> Lt) after ->
  newest u s (before ++ after) = match after with e :: _ => if decide (e_key e = u) then Some e else None | [] => None end.
Proof.
  intros Hok Hd Hsorted Hb Ha. rewrite Forall_forall in Hok, Hb, Ha.
  assert (Hseen : forall e, e ∈ before ++ after -> seen u s e = true -> e ∈ after).
  { intros e [He|He]%elem_of_app Hse; [|done]. exfalso. refine (proj2 (compare_target e _) (or_intror Hse) (Hb e He)). apply Hok. set_solver. }
  destruct after as [|e0 after]; [apply newest_none; intros e He; apply not_true_iff_false; intros Hse; specialize (Hseen e He Hse); set_solver|].
  assert (He0 : e0 ∈ before ++ e0 :: after) by set_solver.
  assert (Hrest : forall e, e ∈ after -> KeyComparator C (encode e0) (encode e) = Lt).
  { clear -Hsorted. rewrite map_app in Hsorted. induction before as [|f b IH]; cbn [app map] in Hsorted; apply StronglySorted_inv in Hsorted as [Hs Hf]; [|by apply IH].
    rewrite Forall_map, Forall_forall in Hf. done. }
  assert (Hcmp : forall e, e ∈ after -> match Compare (e_key e0) (e_key e) with Eq => e_seq e * 256 + e_type e < e_seq e0 * 256 + e_type e0 | c => c = Lt end).
  { intros e He. specialize (Hrest e He). assert (He' : e ∈ before ++ e0 :: after) by set_solver.
    unfold KeyComparator in Hrest. rewrite !slice_encode in Hrest by auto. unfold ikey in Hrest.
    destruct (Hok e0 He0) as (_ & _ & ? & ? & _), (Hok e He') as (_ & _ & ? & ? & _). unfold kTypeValue in *.
    rewrite compare_internal_keys in Hrest by lia. destruct (Compare (e_key e0) (e_key e)); [by apply Z.compare_lt_iff in Hrest|done|done]. }
  pose proof (proj1 (compare_target e0 (Hok e0 He0)) (Ha e0 ltac:(set_solver))) as H0. case_decide as Hk.
  - apply newest_unique; [done|done| |].
    + destruct H0 as [H0|H0]; [|done]. rewrite Hk, (cmp_refl Compare key_ok) in H0 by done. done.
    + intros f Hf Hsf. specialize (Hseen f Hf Hsf). apply elem_of_cons in Hseen as [->|Hfa]; [lia|]. specialize (Hcmp f Hfa).
      apply seen_iff in Hsf as [Hfu _]. rewrite Hk, Hfu, (cmp_refl Compare key_ok) in Hcmp by done.
      destruct (Hok e0 He0) as (_ & _ & ? & ? & _), (Hok f Hf) as (_ & _ & ? & ? & _). unfold kTypeValue in *. lia.
  - apply newest_none. intros e He. apply not_true_iff_false. intros Hse. specialize (Hseen e He Hse).
    apply seen_iff in Hse as [Heu Hse]. apply elem_of_cons in Hseen as [->|Hea]; [done|]. specialize (Hcmp e Hea).
    assert (H0' : Compare (e_key e0) u = Gt) by (destruct H0 as [|[? _]%seen_iff]; done). by rewrite Heu, H0' in Hcmp.
Qed.
End lookup.

(** ** The table *)

Context {A : Allocator} {L : AllocatorLaws A}.
Abbreviation table_contents := (contents (KeyComparator C) entry_key_ok).

(** The updates of a table, in the order of its list. *)
Definition holds (t : MemTable) es : Prop := table_contents (table_ t) (map encode es) /\ Forall entry_ok es /\ distinct es.

Lemma allocate_in_contents n (s : SkipList (list Z)) keys : table_contents s keys -> 0 < n <= 2 ^ 63 ->
  match allocate_in n s with Some (_, s') => table_contents s' keys | None => denied (Bytes n) (arena_ s) end.
Proof.
  intros (l & H & E) Hn. unfold allocate_in. destruct (rep_arena _ _ _ _ H) as (regions & Hinv & Hdom).
  pose proof (allocate_spec (Bytes n) _ _ Hinv Hn) as Ha. cbn [allocate asked] in Ha.
  destruct (Allocate n (arena_ s)) as [[p a]|]; [|done]. destruct Ha as (_ & _ & Hinv'). exists l. split; [|done].
  destruct H as [Hh Hnl Hsh Hlev Hlo Hp Hhe Hso Hok _]. split; cbn; try done. exists ((p, n) :: regions). split; [done|].
  intros x Hx. destruct (Hdom x Hx) as [m ?]. exists m. by right.
Qed.

Lemma VarintLength_range v : 1 <= VarintLength v <= 11.
Proof.
  unfold VarintLength. assert (H : forall fuel v n, n <= varint_length_loop fuel v n <= n + Z.of_nat fuel).
  { induction fuel as [|f IH]; intros w n; cbn [varint_length_loop]; [lia|]. case_match; [|lia]. specialize (IH (w >> 7) (n + 1)). lia. }
  specialize (H 10%nat v 1). lia.
Qed.

(** The bytes of an entry fill exactly what was asked for. *)
Lemma encoded_len_exact e : entry_ok e -> encoded_len (e_key e) (e_value e) = len (encode e) /\ 0 < len (encode e) <= 2 ^ 63.
Proof.
  intros (_ & Hl & _ & _ & _ & Hv). pose proof (len_nonneg (e_key e)). pose proof (len_nonneg (e_value e)).
  assert (H32 : forall x, 0 <= x < 2 ^ 32 -> len (EncodeVarint32 x) = VarintLength x).
  { intros x Hx. rewrite EncodeVarint32_64 by done. apply EncodeVarint64_spec. lia. }
  pose proof (VarintLength_range (len (e_key e) + 8)). pose proof (VarintLength_range (len (e_value e))).
  unfold encoded_len, encode, entry_bytes. cbv zeta. rewrite (u64_id (len (e_key e) + 8)), !u32_id by lia.
  rewrite !len_app, !H32 by lia. setoid_rewrite len_fixed64. rewrite u64_id by lia. lia.
Qed.

Lemma encode_sorted t es : holds t es -> StronglySorted (fun x y => KeyComparator C x y = Lt) (map encode es).
Proof. intros (Hc & _). by apply contents_sorted in Hc as [? _]. Qed.

Lemma compare_entries_eq e f : entry_ok e -> entry_ok f -> KeyComparator C (encode e) (encode f) = Eq -> e_key e = e_key f /\ e_seq e = e_seq f.
Proof.
  intros He Hf. unfold KeyComparator. rewrite !slice_encode by done. unfold ikey.
  destruct He as (Hk & _ & ? & ? & _), Hf as (Hk' & _ & ? & ? & _). unfold kTypeValue in *. rewrite compare_internal_keys by lia.
  destruct (Compare (e_key e) (e_key f)) eqn:E; [|done..]. intros Hz%Z.compare_eq. apply compare_eq in E; [|done..]. split; [done|lia].
Qed.

(** The system refuses a block for the bytes of an entry, or then one for its node. *)
Definition entry_denied e (t : MemTable) : Prop :=
  let n := encoded_len (e_key e) (e_value e) in
  denied (Bytes n) (arena_ (table_ t)) \/ exists p sl, allocate_in n (table_ t) = Some (p, sl) /\ node_denied sl.

Lemma new_key es e : Forall entry_ok es -> entry_ok e -> distinct (e :: es) -> Forall (fun x => KeyComparator C x (encode e) <> Eq) (map encode es).
Proof.
  intros Hok He Hd. rewrite Forall_map, Forall_forall in *. intros f Hf Heq. apply compare_entries_eq in Heq as [Ek Es]; [|by apply Hok|done].
  apply NoDup_cons in Hd as [Hnew _]. apply Hnew, list_elem_of_fmap. exists f. by rewrite Ek, Es.
Qed.

Lemma Add_holds t es e : holds t es -> entry_ok e -> distinct (e :: es) ->
  match MemTable_Add C (e_seq e) (e_type e) (e_key e) (e_value e) t with
  | Some (_, t') => exists es', holds t' es' /\ es' ≡ₚ e :: es
  | None => entry_denied e t
  end.
Proof.
  intros (Hc & Hok & Hd) He Hd'. unfold MemTable_Add, on_table, entry_denied. cbv zeta. destruct (encoded_len_exact e He) as [En Hn]. rewrite En.
  pose proof (allocate_in_contents (len (encode e)) (table_ t) _ Hc Hn) as Ha. unfold dbind.
  destruct (allocate_in (len (encode e)) (table_ t)) as [[p s]|]; [|by left]. pose proof (new_key es e Hok He Hd') as Hne.
  pose proof (Insert_contents (KeyComparator C) entry_key_ok s (map encode es) (encode e) Ha (entry_key_encode e He) Hne) as Hi.
  change (entry_bytes (e_seq e) (e_type e) (e_key e) (e_value e)) with (encode e).
  destruct (Insert (KeyComparator C) (encode e) s) as [[[] s']|]; [|right; by exists p, s].
  assert (Hes : exists es', map encode es' = ordered_insert (KeyComparator C) (encode e) (map encode es) /\ es' ≡ₚ e :: es).
  { clear. induction es as [|f es IH]; cbn [map ordered_insert]; [by exists [e]|]. destruct IH as (es' & E & Hp).
    destruct (KeyComparator C (encode f) (encode e)); [by exists (e :: f :: es)| |by exists (e :: f :: es)].
    exists (f :: es'). split; [cbn; by rewrite E|]. rewrite Hp. apply perm_swap. }
  destruct Hes as (es' & E & Hp). exists es'. split; [|done]. rewrite <- E in Hi. split; [done|]. unfold distinct. rewrite Hp. split; [by constructor|done].
Qed.

(** Then the entry is not added. *)
Lemma Add_denied t es e : holds t es -> entry_ok e -> distinct (e :: es) -> entry_denied e t ->
  MemTable_Add C (e_seq e) (e_type e) (e_key e) (e_value e) t = None.
Proof.
  intros (Hc & Hok & Hd) He Hd'. unfold MemTable_Add, on_table, entry_denied. cbv zeta. destruct (encoded_len_exact e He) as [En Hn]. rewrite En. unfold dbind.
  intros [Hn0|(p & s & E & Hn0)].
  - apply denied_none in Hn0. cbn [allocate] in Hn0. unfold allocate_in. by rewrite Hn0.
  - rewrite E. pose proof (allocate_in_contents (len (encode e)) (table_ t) _ Hc Hn) as Ha. rewrite E in Ha.
    change (entry_bytes (e_seq e) (e_type e) (e_key e) (e_value e)) with (encode e).
    by rewrite (Insert_denied (KeyComparator C) entry_key_ok s (map encode es) (encode e) Ha (entry_key_encode e He) (new_key es e Hok He Hd') Hn0).
Qed.

(** ** Get *)

Lemma holds_split t es k : holds t es -> entry_key_ok k -> exists before after, es = before ++ after /\
  Forall (fun e => KeyComparator C (encode e) k = Lt) before /\ Forall (fun e => KeyComparator C (encode e) k <> Lt) after /\
  exists node, Iterator_Seek (KeyComparator C) k (table_ t) = Some (node, table_ t) /\
    match after with [] => Iterator_Valid node = false | e :: _ => Iterator_Valid node = true /\ Iterator_key node (table_ t) = Some (encode e, table_ t) end.
Proof.
  intros ((l & H & E) & _) Hk. destruct (rep_split _ _ _ l k H Hk) as (b & a & -> & Hb & Ha & _).
  rewrite map_app in E. symmetry in E. apply map_eq_app in E as (before & after & -> & Eb & Ea). exists before, after.
  assert (Hb' : Forall (fun x => KeyComparator C x k = Lt) (map encode before)) by (rewrite Eb; by apply Forall_map).
  assert (Ha' : Forall (fun x => KeyComparator C x k <> Lt) (map encode after)) by (rewrite Ea; by apply Forall_map).
  apply Forall_map in Hb'; apply (Forall_map encode) in Ha'. split; [done|]. split; [done|]. split; [exact Ha'|].
  exists (first a). split; [by apply (Seek_spec _ _ _ b a)|]. destruct a as [|x a], after as [|e after]; try done. cbn [first].
  injection Ea as -> _. destruct (rep_in _ _ _ _ x H) as (_ & Hz & _); [set_solver|]. split; [unfold Iterator_Valid; by rewrite (proj2 (Z.eqb_neq _ _))|].
  apply (Node_key_spec _ _ _ _ _ H). set_solver.
Qed.

Lemma tag_internal e : entry_ok e -> tag_of (ikey e) &. 0xff = e_type e /\ ExtractUserKey (ikey e) = e_key e.
Proof.
  intros (_ & _ & Hs & Ht & _). unfold kTypeValue in *. destruct (pack_range (e_seq e) (e_type e)) as [E Hp]; [lia..|].
  unfold ikey. rewrite internal_app. setoid_rewrite tag_fixed; [|done]. setoid_rewrite user_fixed. rewrite E.
  split; [|done]. apply unpack_tag. lia.
Qed.

(** What a lookup is to return. *)
Definition answer (o : option entry) : option (Status + list Z) :=
  match o with
  | None => None
  | Some e => Some (if e_type e =? kTypeValue then inr (e_value e) else inl (Status_NotFound [] []))
  end.

Lemma Get_holds t es u s : holds t es -> key_ok u -> len u < 2 ^ 32 - 8 -> 0 <= s <= kMaxSequenceNumber ->
  MemTable_Get C (NewLookupKey u s) t = Some (answer (newest u s es), t).
Proof.
  intros Ht Hu Hl Hs. destruct (lookup_bytes u s Hu Hl Hs) as (_ & Eu & Hk).
  destruct (holds_split t es _ Ht Hk) as (b & a & -> & Hb & Ha & node & Eseek & Hnode).
  pose proof (encode_sorted _ _ Ht) as Hsorted. destruct Ht as (_ & Hok & Hd).
  rewrite (newest_from u s Hu Hl Hs b a Hok Hd Hsorted Hb Ha).
  assert (Et : {| refs_ := refs_ t; table_ := table_ t |} = t) by (by destruct t).
  unfold MemTable_Get, on_table, dbind. rewrite Eseek. destruct a as [|e a]; [rewrite Hnode; unfold dret; by rewrite Et|].
  destruct Hnode as [-> Ekey]. rewrite Ekey, Eu. apply Forall_app in Hok as [_ Hok]. apply Forall_cons in Hok as [He _].
  destruct (encode_parts e He) as (Een & Hle & Hbe & Hbv). rewrite Een, read_slice by done. destruct (tag_internal e He) as [Etag ->].
  rewrite Etag. destruct He as (Hke & _ & _ & Hty & Hv & Hlv). destruct (Compare (e_key e) u) eqn:Ec.
  - apply compare_eq in Ec; [|done..]. rewrite decide_True by done. cbn [answer]. unfold kTypeValue, kTypeDeletion in *.
    destruct (Z.eqb_spec (e_type e) 1) as [|Hne].
    + rewrite read_slice by (done || constructor). unfold dret. by rewrite Et.
    + rewrite (proj2 (Z.eqb_eq _ _)) by lia. unfold dret. by rewrite Et.
  - rewrite decide_False; [unfold dret; by rewrite Et|]. intros <-. by rewrite (cmp_refl Compare key_ok) in Ec.
  - rewrite decide_False; [unfold dret; by rewrite Et|]. intros <-. by rewrite (cmp_refl Compare key_ok) in Ec.
Qed.

Lemma newest_perm u s h h' : distinct h -> h ≡ₚ h' -> newest u s h = newest u s h'.
Proof.
  intros Hd Hp. pose proof (newest_spec u s h') as H. destruct (newest u s h') as [e|].
  - destruct H as (He & Hs & Hmax). apply newest_unique; [done|by rewrite Hp|done|]. intros f Hf. apply Hmax. by rewrite <- Hp.
  - apply newest_none. intros e He. apply H. by rewrite <- Hp.
Qed.

(** ** Every history *)

Definition add_entry (t : option MemTable) e : option MemTable :=
  Add (MemTable := memtable C) (e_seq e) (e_type e) (e_key e) (e_value e) t.
Definition add_entries h (t : option MemTable) : option MemTable := foldl add_entry t h.

(** The system refuses a block that a new table needs for the updates: for the head of its list, or for
    one of them after those before it. *)
Definition table_starved h : Prop := denied (node_request kMaxHeight) NewArena \/
  exists before e after t, h = before ++ e :: after /\ add_entries before NewMemTable = Some t /\ entry_denied e t.

Lemma NewMemTable_holds : match NewMemTable with Some t => holds t [] | None => denied (node_request kMaxHeight) NewArena end.
Proof.
  unfold NewMemTable. pose proof (NewSkipList_contents (KeyComparator C) entry_key_ok [] NewArena [] inv_new) as H.
  destruct (NewSkipList [] NewArena tt) as [[s []]|]; [|done]. split; [done|]. split; constructor.
Qed.

Lemma add_entries_none h : add_entries h None = None.
Proof. by induction h. Qed.

Lemma distinct_cons e h es : distinct ((e :: h) ++ es) -> distinct (e :: es) /\ forall es', es' ≡ₚ e :: es -> distinct (h ++ es').
Proof.
  unfold distinct. cbn [app map]. intros Hd. split; [|intros es' Hp; by rewrite Hp, <- Permutation_middle].
  apply NoDup_cons in Hd as [Hn Hd]. rewrite map_app in *. apply NoDup_app in Hd as (_ & _ & Hd). rewrite elem_of_app in Hn. constructor; [tauto|done].
Qed.

Lemma add_entries_holds h t es : holds t es -> Forall entry_ok h -> distinct (h ++ es) ->
  match add_entries h (Some t) with
  | Some t' => exists es', holds t' es' /\ es' ≡ₚ h ++ es
  | None => exists before e after t', h = before ++ e :: after /\ add_entries before (Some t) = Some t' /\ entry_denied e t'
  end.
Proof.
  revert t es. induction h as [|e h IH]; intros t es Ht Hok Hd; [by exists es|]. apply Forall_cons in Hok as [He Hok].
  destruct (distinct_cons e h es Hd) as [Hd1 Hd2]. pose proof (Add_holds t es e Ht He Hd1) as Ha. unfold add_entries. cbn [foldl add_entry Add memtable].
  destruct (MemTable_Add C (e_seq e) (e_type e) (e_key e) (e_value e) t) as [[[] t']|] eqn:E.
  - destruct Ha as (es' & Ht' & Hp). specialize (IH t' es' Ht' Hok (Hd2 es' Hp)). unfold add_entries in IH. destruct (foldl add_entry (Some t') h).
    + destruct IH as (es2 & ? & Hp2). exists es2. split; [done|]. rewrite Hp2, Hp. by rewrite <- Permutation_middle.
    + destruct IH as (before & e' & after & t2 & -> & E2 & Hden). exists (e :: before), e', after, t2. split; [done|]. split; [|done].
      cbn [foldl add_entry Add memtable]. by rewrite E.
  - pose proof (add_entries_none h) as En. unfold add_entries in En. rewrite En. by exists [], e, h, t.
Qed.

Lemma new_table_holds h : Forall entry_ok h -> distinct h ->
  match add_entries h NewMemTable with Some t => exists es, holds t es /\ es ≡ₚ h | None => table_starved h end.
Proof.
  intros Hok Hd. unfold table_starved. pose proof NewMemTable_holds as H0. destruct NewMemTable as [t0|]; [|rewrite add_entries_none; by left].
  pose proof (add_entries_holds h t0 [] H0 Hok) as H. rewrite app_nil_r in H. specialize (H Hd). destruct (add_entries h (Some t0)); [done|by right].
Qed.

(** A table that is starved is never there. *)
Lemma table_starved_none h : Forall entry_ok h -> distinct h -> table_starved h -> add_entries h NewMemTable = None.
Proof.
  intros Hok Hd [H0|(before & e & after & t & -> & E & Hden)].
  - apply denied_none in H0. cbn [allocate node_request] in H0. enough (NewMemTable = None) as -> by apply add_entries_none.
    unfold NewMemTable, NewSkipList. unfold dbind at 1, NewNode. cbn [arena_]. by rewrite H0.
  - apply Forall_app in Hok as [Hokb Hok]. apply Forall_cons in Hok as [He _]. assert (Hdb : distinct before /\ distinct (e :: before)).
    { unfold distinct in *. rewrite Permutation_app_comm in Hd. cbn [app map] in *. rewrite map_app in Hd. apply NoDup_cons in Hd as [Hn Hd].
      apply NoDup_app in Hd as (_ & _ & Hd). rewrite elem_of_app in Hn. split; [done|]. constructor; [tauto|done]. }
    pose proof (new_table_holds before Hokb (proj1 Hdb)) as H. rewrite E in H. destruct H as (es & Ht & Hp). unfold add_entries in *. rewrite foldl_app, E.
    cbn [foldl add_entry Add memtable]. rewrite (Add_denied t es e Ht He); [apply (add_entries_none after)| |done].
    unfold distinct. cbn [map]. rewrite Hp. apply Hdb.
Qed.

(** C11: after any history of updates, each of another key or at another sequence number, a lookup in
    the memory table returns the value of the newest update of its key that its snapshot sees, or
    NotFound when that is a deletion, or that the table knows nothing of the key; the table stays as
    it is.  An update is not added only when the system refuses the block for its bytes or its node, with
    the blocks that the table has after those before it. *)
Theorem memtable_get_newest h u s : Forall entry_ok h -> distinct h -> key_ok u -> len u < 2 ^ 32 - 8 -> 0 <= s <= kMaxSequenceNumber ->
  match add_entries h NewMemTable with
  | Some t => MemTable_Get C (NewLookupKey u s) t = Some (answer (newest u s h), t)
  | None => table_starved h
  end.
Proof.
  intros Hok Hd Hu Hl Hs. pose proof (new_table_holds h Hok Hd) as H. destruct (add_entries h NewMemTable) as [t|]; [|done].
  destruct H as (es & Ht & Hp). rewrite (Get_holds t es u s Ht Hu Hl Hs). by rewrite (newest_perm u s h es) by done.
Qed.
End table.

Lemma memtable_get_newest_witness :
  let e key seq type_ value := {| e_key := key; e_seq := seq; e_type := type_; e_value := value |} in
  let h := [e [2] 5 1 [20; 21]; e [1] 3 1 [10]; e [1; 7] 4 1 [17]; e [1] 7 0 []; e [2] 2 1 [22]; e [1] 9 1 [11]] in
  Forall (entry_ok BytewiseComparator) h /\ distinct h /\
  match add_entries (A := bump_allocator) BytewiseComparator h (NewMemTable (A := bump_allocator)) with
  | Some t => MemTable_Get BytewiseComparator (NewLookupKey [1] 8) t = Some (Some (inl (Status_NotFound [] [])), t)
  | None => False
  end.
Proof.
  intros e h. assert (H1 : Forall (entry_ok BytewiseComparator) h).
  { repeat (apply List.Forall_cons; [split; [bytes_lit|split; [reflexivity|split; [vm_compute; split; congruence|split; [vm_compute; split; congruence|split; [bytes_lit|reflexivity]]]]]|]). apply List.Forall_nil. }
  assert (H2 : distinct h) by (apply (bool_decide_unpack _); reflexivity).
  split; [exact H1|]. split; [exact H2|]. assert (Hu : Forall byte [1]) by bytes_lit.
  pose proof (memtable_get_newest (A := bump_allocator) BytewiseComparator h [1] 8 H1 H2 Hu ltac:(reflexivity) ltac:(vm_compute; split; congruence)) as P.
  destruct (add_entries (A := bump_allocator) BytewiseComparator h (NewMemTable (A := bump_allocator))) as [t|] eqn:E; [exact P|vm_compute in E; discriminate].
Defined.
