(* ===== verification/DbWrite.v ===== *)
(** How LevelDB takes writes (leveldb-library/db/db_impl.cc: [Write], [BuildBatchGroup],
    [MakeRoomForWrite], [Get]): threads queue up, and the one at the front writes for a group of them.

    The state is what the mutex protects, and where the front writer is: a step is what one thread
    does between taking the mutex and giving it up, or what it does without it while it alone may
    use the log and the memory table.  Of the versions there is [last_sequence] and how many files
    level 0 has; [flushed_]: the memory tables that the background thread has written to files. *)
From S2P Require Import Prelude Coding Status DbFormat WriteBatch LogWriter.

(** A memory table to the database: [new MemTable], [ApproximateMemoryUsage], [Get]. *)
Class Table (T : Type) := {
  table_add :: MemTable T;
  new_table : T;
  table_usage : T -> Z;
  table_get : LookupKey -> T -> option (option (Status + list Z))
}.

Definition kL0_SlowdownWritesTrigger : Z := 8.
Definition kL0_StopWritesTrigger : Z := 12.

Section write.
Context {F : Type} {W : WritableFile F} (address : list Z -> Z) {T : Type} {TT : Table T}.
Context (write_buffer_size : Z).
(** The files that [NewWritableFile] makes. *)
Context (fresh : F -> Prop).

(** [DBImpl::Writer] of a thread; [done] and [status] are in [acks]. *)
Record QueuedWriter := { thread : nat; batch_of : option (list Z); sync : bool }.

(** The batch of a group, whether it is [tmp_batch_], the sequence number of its last update, and how
    many writers the group has, up to [last_writer]. *)
Record Group := { updates : list Z; own : bool; new_sequence : Z; members : nat }.

(** Where the front writer is: not yet awake, in the loop of [MakeRoomForWrite], before the calls of
    [AddRecord], [Sync] and [InsertInto], or about to take the mutex again; without a group it
    returns alone. *)
Inductive phase :=
  | Asleep
  | MakingRoom (allow_delay force : bool)
  | Logging (g : Group)
  | Syncing (g : Group)
  | Applying (g : Group)
  | Returning (status : Status) (sync_error : bool) (g : option Group).

Record DB := {
  writers_ : list QueuedWriter;
  front : phase;
  acks : list (QueuedWriter * Status);
  tmp_batch_ : list Z;
  log_ : Writer (F := F);
  old_logs : list (Writer (F := F));
  mem_ : T;
  imm_ : option T;
  flushed_ : list T;
  last_sequence : Z;
  level0_files : Z;
  bg_error_ : Status
}.

Definition set_writers (q : list QueuedWriter) (p : phase) (a : list (QueuedWriter * Status)) (db : DB) : DB :=
  {| writers_ := q; front := p; acks := a; tmp_batch_ := tmp_batch_ db; log_ := log_ db; old_logs := old_logs db; mem_ := mem_ db;
     imm_ := imm_ db; flushed_ := flushed_ db; last_sequence := last_sequence db; level0_files := level0_files db; bg_error_ := bg_error_ db |}.
Definition set_front (p : phase) (db : DB) : DB := set_writers (writers_ db) p (acks db) db.
Definition set_tmp_batch (b : list Z) (db : DB) : DB :=
  {| writers_ := writers_ db; front := front db; acks := acks db; tmp_batch_ := b; log_ := log_ db; old_logs := old_logs db; mem_ := mem_ db;
     imm_ := imm_ db; flushed_ := flushed_ db; last_sequence := last_sequence db; level0_files := level0_files db; bg_error_ := bg_error_ db |}.
Definition set_logs (l : Writer) (old : list Writer) (db : DB) : DB :=
  {| writers_ := writers_ db; front := front db; acks := acks db; tmp_batch_ := tmp_batch_ db; log_ := l; old_logs := old; mem_ := mem_ db;
     imm_ := imm_ db; flushed_ := flushed_ db; last_sequence := last_sequence db; level0_files := level0_files db; bg_error_ := bg_error_ db |}.
Definition set_tables (m : T) (i : option T) (db : DB) : DB :=
  {| writers_ := writers_ db; front := front db; acks := acks db; tmp_batch_ := tmp_batch_ db; log_ := log_ db; old_logs := old_logs db; mem_ := m;
     imm_ := i; flushed_ := flushed_ db; last_sequence := last_sequence db; level0_files := level0_files db; bg_error_ := bg_error_ db |}.
Definition set_last_sequence (n : Z) (db : DB) : DB :=
  {| writers_ := writers_ db; front := front db; acks := acks db; tmp_batch_ := tmp_batch_ db; log_ := log_ db; old_logs := old_logs db; mem_ := mem_ db;
     imm_ := imm_ db; flushed_ := flushed_ db; last_sequence := n; level0_files := level0_files db; bg_error_ := bg_error_ db |}.
Definition set_background (old : list Writer) (i : option T) (fl : list T) (n : Z) (s : Status) (db : DB) : DB :=
  {| writers_ := writers_ db; front := front db; acks := acks db; tmp_batch_ := tmp_batch_ db; log_ := log_ db; old_logs := old; mem_ := mem_ db;
     imm_ := i; flushed_ := fl; last_sequence := last_sequence db; level0_files := n; bg_error_ := s |}.

Definition RecordBackgroundError (s : Status) (db : DB) : DB :=
  if ok (bg_error_ db) then set_background (old_logs db) (imm_ db) (flushed_ db) (level0_files db) s db else db.

(** ** [BuildBatchGroup] *)

(** The loop: [own] when [result] is [tmp_batch_] and no longer [first->batch].  It returns the
    batch, whether it is [tmp_batch_], and how many writers after the first are in the group. *)
Fixpoint group_loop (first_sync : bool) (max_size size : Z) (tmp result : list Z) (own : bool) (rest : list QueuedWriter) : list Z * bool * nat :=
  match rest with
  | [] => (result, own, 0%nat)
  | w :: rest =>
      if sync w && negb first_sync then (result, own, 0%nat)
      else
        match batch_of w with
        | Some b =>
            let size := u64 (size + ByteSize b) in
            if max_size <? size then (result, own, 0%nat)
            else
              let result := if own then result else Batch_Append tmp result in
              let '(r, o, n) := group_loop first_sync max_size size tmp (Batch_Append result b) true rest in (r, o, S n)
        | None => let '(r, o, n) := group_loop first_sync max_size size tmp result own rest in (r, o, S n)
        end
  end.

Definition BuildBatchGroup (tmp : list Z) (first : QueuedWriter) (batch : list Z) (rest : list QueuedWriter) : list Z * bool * nat :=
  let size := ByteSize batch in
  let max_size := if size <=? 128 << 10 then u64 (size + (128 << 10)) else 1 << 20 in
  let '(result, own, n) := group_loop (sync first) max_size size tmp batch false rest in
  (result, own, S n).

(** ** [Write] *)

(** [writers_.push_back(&w)]. *)
Definition enqueue (w : QueuedWriter) (db : DB) : DB := set_writers (writers_ db ++ [w]) (front db) (acks db) db.

(** The front writer wakes up. *)
Definition lead (db : DB) : option DB :=
  match front db, writers_ db with
  | Asleep, w :: _ =>
      let force := match batch_of w with None => true | Some _ => false end in
      Some (set_front (MakingRoom (negb force) force) db)
  | _, _ => None
  end.

(** After [MakeRoomForWrite] returned OK: up to [mutex_.Unlock()]. *)
Definition start_group (db : DB) : option DB :=
  match writers_ db with
  | w :: rest =>
      match batch_of w with
      | None => Some (set_front (Returning Status_OK false None) db)
      | Some batch =>
          let '(updates, own, n) := BuildBatchGroup (tmp_batch_ db) w batch rest in
          let updates := SetSequence (u64 (last_sequence db + 1)) updates in
          let g := {| updates := updates; own := own; new_sequence := u64 (last_sequence db + Count updates); members := n |} in
          Some (set_front (Logging g) (if own then set_tmp_batch updates db else db))
      end
  | [] => None
  end.

(** One round of the loop of [MakeRoomForWrite]; [new_log]: what [NewWritableFile] gives, should it be
    called. *)
Definition room_turn (new_log : Status + F) (db : DB) : option DB :=
  match front db with
  | MakingRoom allow_delay force =>
      if negb (ok (bg_error_ db)) then Some (set_front (Returning (bg_error_ db) false None) db)
      else if allow_delay && (kL0_SlowdownWritesTrigger <=? level0_files db) then Some (set_front (MakingRoom false force) db)
      else if negb force && (table_usage (mem_ db) <=? write_buffer_size) then start_group db
      else
        match imm_ db with
        | Some _ => Some db
        | None =>
            if kL0_StopWritesTrigger <=? level0_files db then Some db
            else
              match new_log with
              | inl s => Some (set_front (Returning s false None) db)
              | inr lfile =>
                  Some (set_front (MakingRoom allow_delay false)
                          (set_tables new_table (Some (mem_ db)) (set_logs (NewWriter address lfile) (old_logs db ++ [log_ db]) db)))
              end
        end
  | _ => None
  end.

(** [log_->AddRecord]. *)
Definition log_turn (db : DB) : option DB :=
  match front db with
  | Logging g =>
      match AddRecord address (Contents (updates g)) (log_ db) with
      | Some (s, l) =>
          let options_sync := match writers_ db with w :: _ => sync w | [] => false end in
          Some (set_front (if ok s then if options_sync then Syncing g else Applying g else Returning s false (Some g))
                          (set_logs l (old_logs db) db))
      | None => None
      end
  | _ => None
  end.

(** [logfile_->Sync]: [logfile_] is the file of [log_]. *)
Definition sync_turn (db : DB) : option DB :=
  match front db with
  | Syncing g =>
      match on_dest Sync (log_ db) with
      | Some (s, l) => Some (set_front (if ok s then Applying g else Returning s true (Some g)) (set_logs l (old_logs db) db))
      | None => None
      end
  | _ => None
  end.

Definition apply_turn (db : DB) : option DB :=
  match front db with
  | Applying g =>
      match InsertInto (updates g) (mem_ db) with
      | Some (s, m) => Some (set_front (Returning s false (Some g)) (set_tables m (imm_ db) db))
      | None => None
      end
  | _ => None
  end.

(** The end of [Write]: the writers of the group leave the queue with the status. *)
Definition return_turn (db : DB) : option DB :=
  match front db with
  | Returning status sync_error g =>
      let db := if sync_error then RecordBackgroundError status db else db in
      let db := match g with
                | Some g => set_last_sequence (new_sequence g) (if own g then set_tmp_batch Clear db else db)
                | None => db
                end in
      let n := match g with Some g => members g | None => 1%nat end in
      Some (set_writers (drop n (writers_ db)) Asleep (acks db ++ map (fun w => (w, status)) (take n (writers_ db))) db)
  | _ => None
  end.

(** ** [Get] *)

(** All tables in the order in which they were made: a [MemTable*] is a place in it. *)
Definition made_before (db : DB) : list T := flushed_ db ++ match imm_ db with Some imm => [imm] | None => [] end.
Definition all_tables (db : DB) : list T := made_before db ++ [mem_ db].

(** What [Get] takes down while it has the mutex: the sequence number, [mem] and [imm].  [snapshot]: the
    sequence number of [options.snapshot]. *)
Record Pinned := { at_sequence : Z; pinned_mem : nat; pinned_imm : option nat }.
Definition pin (snapshot : option Z) (db : DB) : Pinned :=
  {| at_sequence := match snapshot with Some s => s | None => last_sequence db end;
     pinned_mem := length (made_before db);
     pinned_imm := match imm_ db with Some _ => Some (length (flushed_ db)) | None => None end |}.

(** [mem->Get], without the mutex, of a table as it is by then. *)
Definition look_in (lkey : LookupKey) (i : nat) (db : DB) : option (option (Status + list Z)) :=
  match all_tables db !! i with Some t => table_get lkey t | None => None end.

(** The database when the mutex is taken, when it looks into [mem], and when it looks into [imm];
    [current]: [current->Get]. *)
Definition Get (snapshot : option Z) (key : list Z) (current : LookupKey -> Status + list Z) (db db_mem db_imm : DB) : option (Status + list Z) :=
  let p := pin snapshot db in
  let lkey := NewLookupKey key (at_sequence p) in
  match look_in lkey (pinned_mem p) db_mem with
  | None => None
  | Some (Some r) => Some r
  | Some None =>
      match pinned_imm p with
      | Some imm =>
          match look_in lkey imm db_imm with
          | None => None
          | Some (Some r) => Some r
          | Some None => Some (current lkey)
          end
      | None => Some (current lkey)
      end
  end.

(** ** Steps *)

Inductive step : DB -> DB -> Prop :=
  | step_enqueue w db : step db (enqueue w db)
  | step_lead db db' : lead db = Some db' -> step db db'
  | step_room new_log db db' : match new_log with inl s => ok s = false | inr f => fresh f end ->
      room_turn new_log db = Some db' -> step db db'
  | step_log db db' : log_turn db = Some db' -> step db db'
  | step_sync db db' : sync_turn db = Some db' -> step db db'
  | step_apply db db' : apply_turn db = Some db' -> step db db'
  | step_return db db' : return_turn db = Some db' -> step db db'
  (** The background thread writes the full memory table to a file and then forgets its log, adds and
      removes files of level 0, or fails. *)
  | step_background old i fl n s db :
      (i = imm_ db /\ fl = flushed_ db \/ exists imm, imm_ db = Some imm /\ i = None /\ fl = flushed_ db ++ [imm]) ->
      (old = old_logs db \/ i = None /\ old `suffix_of` old_logs db) ->
      (ok (bg_error_ db) = false -> s = bg_error_ db) -> step db (set_background old i fl n s db).
End write.
