(* ===== verification/DbWriteProps.v ===== *)
(** Groups of writers: the batch of a group has the updates of its writers, in the order of the queue. *)
From stdpp Require Import sorting relations.
From S2P Require Import Prelude PbIstream Coding Status LogWriter DbFormat WriteBatch DbWrite.

(** The updates of a batch, as a handler that collects them sees them. *)
Definition collect : Handler (list update) :=
  {| handle_put key value l := l ++ [UPut key value]; handle_delete key l := l ++ [UDelete key] |}.
Definition decode (rep : list Z) : list update := match Iterate (HH := collect) rep [] with Some (_, us) => us | None => [] end.

Lemma apply_collect us l : apply_updates (HH := collect) us l = l ++ us.
Proof.
  revert l. unfold apply_updates. induction us as [|u us IH]; intros l; cbn [fold_left]; [by rewrite app_nil_r|].
  rewrite IH. destruct u; cbn; by rewrite <- app_assoc.
Qed.

Lemma decode_batch rep seq us : batch rep seq us -> 0 <= seq < 2 ^ 64 -> len us < 2 ^ 31 -> decode rep = us.
Proof. intros Hb Hs Hn. unfold decode. by rewrite (Iterate_batch rep seq us), apply_collect. Qed.

Lemma updates_bytes_count us b : updates_bytes us b -> 2 * len us <= len b.
Proof.
  assert (Hs : forall s b, slice_bytes s b -> 1 <= len b).
  { intros s b' (code & -> & Hc & _). rewrite len_app. pose proof (len_nonneg s). destruct Hc as (p & c & -> & _).
    rewrite len_app, len_cons, len_nil. pose proof (len_nonneg p). lia. }
  induction 1 as [|key value us kb vb b Hk Hv Hb IH|key us kb b Hk Hb IH]; [done| |].
  - apply Hs in Hk, Hv. rewrite !len_cons, !len_app. lia.
  - apply Hs in Hk. rewrite !len_cons, !len_app. lia.
Qed.

Lemma batch_count rep seq us : batch rep seq us -> 12 + 2 * len us <= len rep.
Proof.
  intros (b & -> & Hus & _). apply updates_bytes_count in Hus. rewrite !len_app. unfold len at 2 3. rewrite !le_bytes_length. lia.
Qed.

Lemma Clear_batch : batch Clear 0 [].
Proof. exists []. split; [done|]. split; constructor. Qed.

(** What a writer brings: a well-formed batch of less than 2 GB, or none. *)
Definition updates_of (w : QueuedWriter) : list update := match batch_of w with Some b => decode b | None => [] end.
Definition client_ok (w : QueuedWriter) : Prop :=
  match batch_of w with Some b => exists seq, batch b seq (updates_of w) /\ 0 <= seq < 2 ^ 64 /\ len b < 2 ^ 31 | None => True end.
Definition all_updates (ws : list QueuedWriter) : list update := concat (map updates_of ws).

Lemma all_updates_app a b : all_updates (a ++ b) = all_updates a ++ all_updates b.
Proof. unfold all_updates. by rewrite map_app, concat_app. Qed.

Lemma all_updates_take n ws : len (all_updates (take n ws)) <= len (all_updates ws).
Proof. rewrite <- (take_drop n ws) at 2. rewrite all_updates_app, len_app. pose proof (len_nonneg (all_updates (drop n ws))). lia. Qed.

Lemma group_loop_spec first_sync max_size rest : 0 <= max_size < 2 ^ 31 -> Forall client_ok rest ->
  forall size result own seq us, batch result seq us -> 0 <= seq < 2 ^ 64 -> 2 * len us <= size < 2 ^ 31 ->
  let '(r, o, n) := group_loop first_sync max_size size Clear result own rest in
  (n <= length rest)%nat /\ (exists seq', 0 <= seq' < 2 ^ 64 /\ batch r seq' (us ++ all_updates (take n rest))) /\
  2 * len (us ++ all_updates (take n rest)) <= Z.max size max_size /\
  (first_sync = false -> Forall (fun w => sync w = false) (take n rest)).
Proof.
  intros Hmax. induction 1 as [|w rest Hw Hrest IH]; intros size result own seq us Hb Hseq Hsize; cbn [group_loop].
  { unfold all_updates. cbn [take map concat]. rewrite app_nil_r. split_and!; [lia|by exists seq|lia|constructor]. }
  assert (Hstop : (0 <= length (w :: rest))%nat /\ (exists seq', 0 <= seq' < 2 ^ 64 /\ batch result seq' (us ++ all_updates (take 0 (w :: rest)))) /\
    2 * len (us ++ all_updates (take 0 (w :: rest))) <= Z.max size max_size /\ (first_sync = false -> Forall (fun w => sync w = false) (take 0 (w :: rest)))).
  { unfold all_updates. cbn [take map concat]. rewrite app_nil_r. split_and!; [lia|by exists seq|lia|constructor]. }
  destruct (sync w && negb first_sync) eqn:Es; [done|].
  assert (Hws : first_sync = false -> sync w = false) by (intros ->; by destruct (sync w)).
  unfold client_ok, updates_of in Hw. destruct (batch_of w) as [b|] eqn:Eb.
  - destruct Hw as (seqb & Hbb & Hseqb & Hlb). pose proof (batch_count _ _ _ Hbb) as Hcb. pose proof (len_nonneg us). pose proof (len_nonneg (decode b)).
    unfold ByteSize. rewrite u64_id by lia. destruct (Z.ltb_spec max_size (size + len b)) as [|Hle]; [done|].
    set (result' := if own then result else Batch_Append Clear result).
    assert (Hr' : exists seq', 0 <= seq' < 2 ^ 64 /\ batch result' seq' us).
    { destruct own; [by exists seq|]. exists 0. split; [done|]. apply (Append_batch Clear 0 [] result seq us); (done || apply Clear_batch || lia). }
    destruct Hr' as (seq' & Hseq' & Hr').
    specialize (IH (size + len b) (Batch_Append result' b) true seq' (us ++ decode b)).
    destruct (group_loop first_sync max_size (size + len b) Clear (Batch_Append result' b) true rest) as [[r o] n].
    destruct IH as (Hn & (seq2 & Hs2 & H2) & Hlen & Hsync); [apply (Append_batch result' seq' us b seqb); done || lia|done|rewrite len_app; lia|].
    assert (E : us ++ all_updates (take (S n) (w :: rest)) = (us ++ decode b) ++ all_updates (take n rest)).
    { unfold all_updates. cbn [take map concat]. unfold updates_of at 1. by rewrite Eb, <- app_assoc. }
    rewrite E. split_and!; [cbn; lia|by exists seq2|lia|]. intros Hf. cbn [take]. constructor; auto.
  - specialize (IH size result own seq us Hb Hseq Hsize). destruct (group_loop first_sync max_size size Clear result own rest) as [[r o] n].
    destruct IH as (Hn & (seq2 & Hs2 & H2) & Hlen & Hsync).
    assert (E : all_updates (take (S n) (w :: rest)) = all_updates (take n rest)).
    { unfold all_updates. cbn [take map concat]. unfold updates_of at 1. by rewrite Eb. }
    rewrite E. split_and!; [cbn; lia|by exists seq2|lia|]. intros Hf. cbn [take]. constructor; auto.
Qed.

(** The batch of a group: its first writer and some of those behind it. *)
Lemma BuildBatchGroup_spec w b rest : batch_of w = Some b -> Forall client_ok (w :: rest) ->
  let '(r, o, n) := BuildBatchGroup Clear w b rest in
  (1 <= n <= length (w :: rest))%nat /\
  (exists seq, 0 <= seq < 2 ^ 64 /\ batch r seq (all_updates (take n (w :: rest)))) /\
  len (all_updates (take n (w :: rest))) < 2 ^ 30 /\
  (sync w = false -> Forall (fun w => sync w = false) (take n (w :: rest))).
Proof.
  intros Eb [Hw Hrest]%Forall_cons. unfold BuildBatchGroup. unfold client_ok, updates_of in Hw. rewrite Eb in Hw.
  destruct Hw as (seq & Hb & Hseq & Hl). pose proof (batch_count _ _ _ Hb) as Hc. pose proof (len_nonneg (decode b)).
  set (max_size := if ByteSize b <=? 128 << 10 then u64 (ByteSize b + (128 << 10)) else 1 << 20). unfold ByteSize in *.
  assert (Hmax : 0 <= max_size < 2 ^ 31).
  { unfold max_size. change (128 << 10) with 131072. change (1 << 20) with 1048576. destruct (Z.leb_spec (len b) 131072); [rewrite u64_id|]; lia. }
  pose proof (group_loop_spec (sync w) max_size rest Hmax Hrest (len b) b false seq (decode b) Hb Hseq ltac:(lia)) as Hg.
  destruct (group_loop (sync w) max_size (len b) Clear b false rest) as [[r o] n]. destruct Hg as (Hn & (seq' & Hs' & Hb') & Hlen & Hsync).
  assert (E : all_updates (take (S n) (w :: rest)) = decode b ++ all_updates (take n rest)).
  { unfold all_updates. cbn [take map concat]. unfold updates_of at 1. by rewrite Eb. }
  rewrite E. split_and!; [lia|cbn; lia|by exists seq'|lia|]. intros Hf. cbn [take]. constructor; auto.
Qed.

(** Writing: whatever the threads, the files and the background thread do, writers are answered in
    the order in which they queued up, and the memory tables hold exactly the updates of those that
    were told OK, in that order, which become visible a group at a time. *)

(** ** Numbered updates *)

Definition add_numbered {T} {MT : MemTable T} (n : Z * update) (m : T) : T :=
  match n.2 with UPut key value => Add n.1 kTypeValue key value m | UDelete key => Add n.1 kTypeDeletion key [] m end.
Definition add_all {T} {MT : MemTable T} (ns : list (Z * update)) (m : T) : T := foldl (fun m n => add_numbered n m) m ns.
Fixpoint number (seq : Z) (us : list update) : list (Z * update) :=
  match us with [] => [] | u :: us => (seq, u) :: number (seq + 1) us end.

(** Sequence numbers that increase, after [a] and up to [b]. *)
Inductive ascending : Z -> list (Z * update) -> Z -> Prop :=
  | ascending_nil a b : a <= b -> ascending a [] b
  | ascending_cons a s u ns b : a < s -> ascending s ns b -> ascending a ((s, u) :: ns) b.

Lemma number_updates seq us : map snd (number seq us) = us.
Proof. revert seq. induction us as [|u us IH]; intros seq; cbn; [done|]. by rewrite IH. Qed.

Lemma ascending_number seq us : ascending seq (number (seq + 1) us) (seq + len us).
Proof.
  revert seq. induction us as [|u us IH]; intros seq; cbn [number].
  - constructor. rewrite (@len_nil update). lia.
  - constructor; [lia|]. specialize (IH (seq + 1)). rewrite len_cons. by replace (seq + (1 + len us)) with (seq + 1 + len us) by lia.
Qed.

Lemma ascending_le a ns b : ascending a ns b -> a <= b.
Proof. induction 1; lia. Qed.

Lemma ascending_app a ns b ms c : ascending a ns b -> ascending b ms c -> ascending a (ns ++ ms) c.
Proof.
  induction 1 as [a b H|a s u ns b H Hn IH]; intros Hm; cbn [app]; [|constructor; auto].
  inversion Hm; subst; constructor; done || lia.
Qed.

Lemma ascending_weaken a ns b c : ascending a ns b -> b <= c -> ascending a ns c.
Proof. induction 1; intros; constructor; auto; lia. Qed.

Lemma ascending_range a ns b n : ascending a ns b -> n ∈ ns -> a < n.1 <= b.
Proof.
  induction 1 as [|a s u ns b H Hn IH]; intros Hin; [by apply elem_of_nil in Hin|]. pose proof (ascending_le _ _ _ Hn).
  apply elem_of_cons in Hin as [->|Hin]; cbn; [lia|]. specialize (IH Hin). lia.
Qed.

Lemma ascending_split a ns ms c : ascending a (ns ++ ms) c -> exists b, ascending a ns b /\ ascending b ms c.
Proof.
  revert a. induction ns as [|[s u] ns IH]; intros a H; cbn [app] in H.
  - exists a. split; [constructor; lia|done].
  - inversion H; subst. destruct (IH s) as (b & ? & ?); [done|]. exists b. split; [by constructor|done].
Qed.

Section write.
Context {F : Type} {W : WritableFile F} (address : list Z -> Z) {T : Type} {TT : Table T}.
Context (write_buffer_size : Z) (fresh : F -> Prop).
Implicit Types (db : DB (F := F) (T := T)) (w : QueuedWriter) (g : Group).

#[local] Existing Instance table_add.
Abbreviation step := (step address write_buffer_size fresh).

Lemma add_updates_number seq us m : add_updates seq us m = add_all (number seq us) m.
Proof. revert seq m. induction us as [|[key value|key] us IH]; intros seq m; cbn; [done|by rewrite IH..]. Qed.

Lemma add_all_app ns ms m : add_all (ns ++ ms) m = add_all ms (add_all ns m).
Proof. unfold add_all. by rewrite foldl_app. Qed.

(** ** The queue *)

(** Everyone who ever queued up, in that order. *)
Definition submitted db : list QueuedWriter := map fst (acks db) ++ writers_ db.

(** What the end of [Write] changes. *)
Definition leaving db : nat := match front db with Returning _ _ (Some g) => members g | _ => 1%nat end.
Lemma return_turn_spec db db' : return_turn db = Some db' -> exists status sync_error (g : option Group),
  front db = Returning status sync_error g /\ front db' = Asleep /\
  writers_ db' = drop (leaving db) (writers_ db) /\
  acks db' = acks db ++ map (fun w => (w, status)) (take (leaving db) (writers_ db)) /\
  mem_ db' = mem_ db /\ imm_ db' = imm_ db /\ flushed_ db' = flushed_ db /\ log_ db' = log_ db /\ old_logs db' = old_logs db /\
  last_sequence db' = (match g with Some g => new_sequence g | None => last_sequence db end) /\
  tmp_batch_ db' = (match g with Some g => if own g then Clear else tmp_batch_ db | None => tmp_batch_ db end) /\
  bg_error_ db' = (if sync_error && ok (bg_error_ db) then status else bg_error_ db).
Proof.
  unfold return_turn, leaving. intros H. destruct (front db) as [| | | | |s e g]; try done. exists s, e, g. injection H as <-.
  unfold RecordBackgroundError. destruct e, (ok (bg_error_ db)), g as [[? [] ? ?]|]; cbn; split_and!; done.
Qed.

Lemma step_submitted db db' : step db db' -> submitted db' = submitted db \/ exists w, submitted db' = submitted db ++ [w].
Proof.
  intros [w db0|db0 db1 H|new_log db0 db1 _ H|db0 db1 H|db0 db1 H|db0 db1 H|db0 db1 H|old i fl n s db0 _ _ _]; [right|left..].
  - exists w. unfold submitted. cbn. by rewrite app_assoc.
  - unfold lead in H. repeat case_match; try done; by injection H as <-.
  - unfold room_turn, start_group in H. repeat case_match; try done; by injection H as <-.
  - unfold log_turn in H. repeat case_match; try done; by injection H as <-.
  - unfold sync_turn in H. repeat case_match; try done; by injection H as <-.
  - unfold apply_turn in H. repeat case_match; try done; by injection H as <-.
  - destruct (return_turn_spec _ _ H) as (s & e & g & _ & _ & Ew & Ea & _). unfold submitted.
    rewrite Ew, Ea, map_app, map_map. cbn. by rewrite map_id, <- app_assoc, take_drop.
  - done.
Qed.

Lemma steps_submitted db db' : rtc step db db' -> submitted db `prefix_of` submitted db'.
Proof.
  induction 1 as [|db1 db2 db3 H _ IH]; [done|]. etransitivity; [|exact IH]. destruct (step_submitted _ _ H) as [->|[w ->]]; [done|by eexists].
Qed.

(** ** The tables *)

(** Who was told OK, and how many updates there were in all. *)
Definition answered db : list QueuedWriter := map fst (filter (fun a => ok a.2 = true) (acks db)).
Definition taken db : Z := len (all_updates (map fst (acks db))).

(** A group in flight has the updates of its writers, numbered from the last sequence number on. *)
Definition group_updates db g : list update := all_updates (take (members g) (writers_ db)).
Definition in_group db g : Prop :=
  (1 <= members g <= length (writers_ db))%nat /\ batch (updates g) (last_sequence db + 1) (group_updates db g) /\
  new_sequence g = last_sequence db + len (group_updates db g) /\ len (group_updates db g) < 2 ^ 30 /\
  (own g = false -> tmp_batch_ db = Clear).

(** What the group in flight has put into the table. *)
Definition in_flight db (now : list (Z * update)) : Prop :=
  match front db with
  | Asleep | MakingRoom _ _ => now = [] /\ tmp_batch_ db = Clear
  | Logging g | Syncing g | Applying g => now = [] /\ in_group db g
  | Returning s _ (Some g) => in_group db g /\ now = if ok s then number (last_sequence db + 1) (group_updates db g) else []
  | Returning s _ None => now = [] /\ tmp_batch_ db = Clear /\ (ok s = true -> exists w q, writers_ db = w :: q /\ batch_of w = None)
  end.

Definition table_of (ns : list (Z * update)) : T := add_all ns new_table.
Definition tables db (fls : list (list (Z * update))) (immu memu : list (Z * update)) : Prop :=
  flushed_ db = map table_of fls /\ mem_ db = table_of memu /\
  match imm_ db with Some imm => imm = table_of immu | None => immu = [] end.

Definition good n0 db : Prop := exists fls immu memu now,
  tables db fls immu (memu ++ now) /\ map snd (concat fls ++ immu ++ memu) = all_updates (answered db) /\
  ascending n0 (concat fls ++ immu ++ memu) (last_sequence db) /\ last_sequence db <= n0 + taken db /\ in_flight db now.

(** ** Tables over time *)

(** What every table got, in the order in which they were made. *)
Definition ledger db (fls : list (list (Z * update))) (immu memu : list (Z * update)) : list (list (Z * update)) :=
  fls ++ (match imm_ db with Some _ => [immu] | None => [] end) ++ [memu].
(** Tables keep what they got and their places, and get only updates after [q]. *)
Definition kept (q : Z) (ls ls' : list (list (Z * update))) : Prop :=
  forall i l, ls !! i = Some l -> exists more, ls' !! i = Some (l ++ more) /\ Forall (fun n => q < n.1) more.

Lemma kept_refl q ls : kept q ls ls.
Proof. intros i l Hi. exists []. by rewrite app_nil_r. Qed.
Lemma kept_app q ls ls' ls2 : kept q ls ls' -> kept q ls (ls' ++ ls2).
Proof. intros H i l Hi. destruct (H i l Hi) as (more & E & Hm). exists more. split; [|done]. by apply lookup_app_l_Some. Qed.
Lemma kept_extend q ls ls' l' more : kept q ls (ls' ++ [l']) -> Forall (fun n => q < n.1) more -> kept q ls (ls' ++ [l' ++ more]).
Proof.
  intros H Hmore i l Hi. destruct (H i l Hi) as (m & E & Hm). destruct (decide (i < length ls')%nat) as [Hlt|Hge].
  - exists m. by rewrite lookup_app_l in * by done.
  - rewrite lookup_app_r in E by lia. apply list_lookup_singleton_Some in E as [E ->]. exists (m ++ more). split; [|by apply Forall_app].
    rewrite lookup_app_r by lia. rewrite E. cbn. by rewrite app_assoc.
Qed.
Lemma all_tables_ledger db fls immu memu : tables db fls immu memu -> all_tables db = map table_of (ledger db fls immu memu).
Proof.
  intros (Efl & Em & Hi). unfold all_tables, made_before, ledger. rewrite !map_app, Efl, Em, <- app_assoc. do 2 f_equal.
  destruct (imm_ db); [by rewrite Hi|done].
Qed.

(** Good, with what there was when the last sequence number was [q0] still there. *)
Definition good_since q0 ls0 n0 db : Prop := exists fls immu memu now,
  tables db fls immu (memu ++ now) /\ map snd (concat fls ++ immu ++ memu) = all_updates (answered db) /\
  ascending n0 (concat fls ++ immu ++ memu) (last_sequence db) /\ last_sequence db <= n0 + taken db /\ in_flight db now /\
  q0 <= last_sequence db /\ kept q0 ls0 (ledger db fls immu (memu ++ now)).
Lemma since_good q0 ls0 n0 db : good_since q0 ls0 n0 db -> good n0 db.
Proof. intros (fls & immu & memu & now & ? & ? & ? & ? & ? & _). by exists fls, immu, memu, now. Qed.
Lemma good_since_now n0 db : good n0 db -> good_since n0 [] n0 db.
Proof.
  intros (fls & immu & memu & now & ? & ? & Hasc & ? & ?). exists fls, immu, memu, now. split_and!; try done. by eapply ascending_le.
Qed.

(** What the threads submit. *)
Definition clients_ok n0 db : Prop :=
  0 <= n0 /\ Forall client_ok (submitted db) /\ n0 + len (all_updates (submitted db)) < 2 ^ 56.

Lemma clients_room n0 db : clients_ok n0 db -> Forall client_ok (writers_ db) /\ 0 <= taken db /\
  n0 + taken db + len (all_updates (writers_ db)) < 2 ^ 56.
Proof.
  intros (H0 & Hok & Hn). unfold submitted, taken in *. rewrite all_updates_app, len_app in Hn. apply Forall_app in Hok as [_ Hok].
  split; [done|]. split; [apply len_nonneg|lia].
Qed.

Lemma clients_before n0 db db' : step db db' -> clients_ok n0 db' -> clients_ok n0 db.
Proof.
  intros Hs (H0 & Hok & Hn). destruct (step_submitted _ _ Hs) as [E|[w E]]; rewrite E in *; [done|].
  apply Forall_app in Hok as [Hok _]. rewrite all_updates_app, len_app in Hn. pose proof (len_nonneg (all_updates [w])). split_and!; done || lia.
Qed.

Section since.
Context (q0 : Z) (ls0 : list (list (Z * update))).
Abbreviation good := (good_since q0 ls0).

(** Where only [front], the logs or the background change. *)
Lemma good_front n0 db db' : good n0 db -> writers_ db' = writers_ db -> acks db' = acks db -> mem_ db' = mem_ db -> imm_ db' = imm_ db -> flushed_ db' = flushed_ db ->
  last_sequence db' = last_sequence db -> (forall now, in_flight db now -> in_flight db' now) -> good n0 db'.
Proof.
  intros (fls & immu & memu & now & Ht & Ea & Hasc & Hl & Hp & Hq & Hk) Ew Eacks Em Ei Efl El Hf.
  exists fls, immu, memu, now. unfold tables, answered, taken, ledger in *. rewrite Eacks, Em, Ei, El, Efl. split_and!; auto; apply Ht.
Qed.

Lemma enqueue_good n0 w db : good n0 db -> good n0 (enqueue w db).
Proof.
  intros (fls & immu & memu & now & Ht & Ea & Hasc & Hl & Hp & Hq & Hk). exists fls, immu, memu, now. split_and!; try done.
  assert (Hg : forall g, in_group db g -> group_updates (enqueue w db) g = group_updates db g).
  { intros g [Hm _]. unfold group_updates. cbn. rewrite take_app_le by lia. done. }
  assert (Hin : forall g, in_group db g -> in_group (enqueue w db) g).
  { intros g Hg'. pose proof (Hg g Hg') as Eg. unfold in_group in *. rewrite Eg. cbn. rewrite length_app. cbn. split_and!; try tauto; lia. }
  unfold in_flight in *. cbn [front enqueue set_writers]. destruct (front db) as [| |g|g|g|s e [g|]]; try (split; [tauto|apply Hin; tauto]); try tauto.
  - destruct Hp as [Hp Hn]. split; [by apply Hin|]. by rewrite Hg.
  - destruct Hp as (Hn & Htmp & Hs). split_and!; try done. intros Hok. destruct (Hs Hok) as (w0 & q & Eq & Hb). exists w0, (q ++ [w]). cbn. by rewrite Eq.
Qed.

Lemma start_group_good n0 db db' a f : clients_ok n0 db -> front db = MakingRoom a f -> good n0 db -> start_group db = Some db' -> good n0 db'.
Proof.
  intros Hc Ef Hg H. destruct (clients_room n0 db Hc) as (Hok & Ht0 & Hn). unfold start_group in H.
  destruct (writers_ db) as [|w rest] eqn:Ew; [done|]. pose proof Hg as (? & ? & ? & now & _ & _ & Hasc & Hl & Hp & _ & _).
  unfold in_flight in Hp. rewrite Ef in Hp. destruct Hp as [_ Htmp]. apply ascending_le in Hasc. destruct Hc as [Hn0 _].
  destruct (batch_of w) as [b|] eqn:Eb.
  - rewrite Htmp in H. pose proof (BuildBatchGroup_spec w b rest Eb Hok) as HB. destruct (BuildBatchGroup Clear w b rest) as [[r o] n].
    destruct HB as (Hm & (seq & Hseq & Hb) & Hlen & _). set (us := all_updates (take n (w :: rest))) in *. pose proof (len_nonneg us).
    rewrite (u64_id (last_sequence db + 1)) in H by (pose proof (len_nonneg (all_updates (w :: rest))); lia). apply (SetSequence_batch (last_sequence db + 1)) in Hb.
    destruct (batch_parts _ _ _ Hb) as (Hcount & _); [pose proof (len_nonneg (all_updates (w :: rest))); lia|lia|].
    injection H as <-. rewrite Hcount. assert (Hu : u64 (last_sequence db + len us) = last_sequence db + len us).
    { apply u64_id. pose proof (len_nonneg (all_updates (w :: rest))). lia. }
    rewrite Hu. set (rep := SetSequence (last_sequence db + 1) r) in *. clearbody rep. eapply good_front; [exact Hg|by destruct o..|]. intros now'. unfold in_flight. rewrite Ef.
    destruct o; cbn -[len all_updates]; intros [-> _]; (split; [done|]); unfold in_group, group_updates; cbn -[len all_updates take length]; rewrite Ew; fold us; split_and!; done || lia.
  - injection H as <-. eapply good_front; [exact Hg|done..|]. intros now'. unfold in_flight. rewrite Ef. cbn. intros [-> _]. split_and!; [done|done|].
    intros _. by exists w, rest.
Qed.

Lemma room_turn_good n0 new_log db db' : match new_log with inl s => ok s = false | inr f => fresh f end ->
  clients_ok n0 db -> good n0 db -> room_turn address write_buffer_size new_log db = Some db' -> good n0 db'.
Proof.
  intros Hnew Hc Hg H. unfold room_turn in H. destruct (front db) as [|a f| | | |] eqn:Ef; try done.
  assert (Hfail : forall s, ok s = false -> good n0 (set_front (Returning s false None) db)).
  { intros s Hs. eapply good_front; [exact Hg|done..|]. intros now. unfold in_flight. rewrite Ef. cbn. intros [-> ?]. split_and!; [done|done|congruence]. }
  destruct (ok (bg_error_ db)) eqn:Eb; cbn [negb] in H; [|injection H as <-; by apply Hfail].
  destruct (a && _). { injection H as <-. eapply good_front; [exact Hg|done..|]. intros now. unfold in_flight. by rewrite Ef. }
  destruct (negb f && _); [by eapply start_group_good|].
  destruct (imm_ db) as [imm|] eqn:Ei; [by injection H as <-|]. destruct (kL0_StopWritesTrigger <=? level0_files db); [by injection H as <-|].
  destruct new_log as [s|lfile]; injection H as <-; [by apply Hfail|].
  destruct Hg as (fls & immu & memu & now & (Efl & Em & Hi) & Ea & Hasc & Hl & Hp & Hq & Hk). rewrite Ei in Hi. subst immu.
  unfold in_flight in Hp. rewrite Ef in Hp. destruct Hp as [-> Hp]. rewrite app_nil_r in Em, Hk. exists fls, memu, [], []. rewrite !app_nil_r. split_and!; try done.
  unfold ledger in *. rewrite Ei in Hk. cbn in *. apply (kept_app _ _ _ [[]]) in Hk. by rewrite <- app_assoc in Hk.
Qed.

Lemma apply_turn_good n0 db db' : clients_ok n0 db -> good n0 db -> apply_turn db = Some db' -> good n0 db'.
Proof.
  intros Hc (fls & immu & memu & now & (Efl & Em & Hi) & Ea & Hasc & Hl & Hp & Hq & Hk) H. unfold apply_turn in H. unfold in_flight in Hp.
  destruct (front db) as [| | | |g|] eqn:Ef; try done. destruct Hp as [-> Hg]. pose proof Hg as (Hm & Hb & Hs & Hlen & Htmp).
  destruct (clients_room n0 db Hc) as (_ & Ht0 & Hn). destruct Hc as [Hn0 _]. pose proof (ascending_le _ _ _ Hasc). pose proof (len_nonneg (all_updates (writers_ db))).
  setoid_rewrite (InsertInto_batch _ _ _ (mem_ db) Hb) in H; [|lia..]. injection H as <-.
  exists fls, immu, memu, (number (last_sequence db + 1) (group_updates db g)).
  unfold tables. cbn. split_and!; try done; [rewrite add_updates_number, Em, app_nil_r; unfold table_of; by rewrite add_all_app|].
  unfold ledger in *. cbn. rewrite app_nil_r, app_assoc in Hk. rewrite app_assoc. apply kept_extend; [done|]. apply Forall_forall. intros x Hx.
  pose proof (ascending_range _ _ _ _ (ascending_number _ _) Hx). lia.
Qed.

(** Those who leave were told the status. *)
Lemma return_answered s e (g : option Group) db db' : front db = Returning s e g -> return_turn db = Some db' ->
  answered db' = answered db ++ if ok s then take (leaving db) (writers_ db) else [].
Proof.
  intros Ef H. destruct (return_turn_spec _ _ H) as (s' & e' & g' & Ef' & _ & _ & Eacks & _). rewrite Ef in Ef'. injection Ef' as <- _ _.
  unfold answered. rewrite Eacks, filter_app, map_app. f_equal. generalize (take (leaving db) (writers_ db)). clear. intros ws.
  destruct (ok s) eqn:Es; induction ws as [|w ws IH]; try done; cbn [map].
  - rewrite filter_cons_True by done. cbn [map fst]. by rewrite IH.
  - rewrite filter_cons_False by (cbn; congruence). exact IH.
Qed.

Lemma return_turn_good n0 db db' : good n0 db -> return_turn db = Some db' -> good n0 db'.
Proof.
  intros (fls & immu & memu & now & (Efl & Em & Hi) & Ea & Hasc & Hl & Hp & Hq & Hk) H.
  destruct (return_turn_spec _ _ H) as (s & e & g & Ef & Ef' & Ew & Eacks & Em' & Ei' & Efl' & _ & _ & El & Et & _).
  unfold leaving in *. rewrite Ef in *. set (ws := take _ (writers_ db)) in *.
  pose proof (return_answered _ _ _ _ _ Ef H) as Ea'. unfold leaving in Ea'. rewrite Ef in Ea'. fold ws in Ea'.
  assert (Et' : taken db' = taken db + len (all_updates ws)).
  { unfold taken. rewrite Eacks, map_app, map_map. cbn. by rewrite map_id, all_updates_app, len_app. }
  unfold in_flight in Hp. rewrite Ef in Hp. exists fls, immu, (memu ++ now), [].
  assert (Hnow : map snd now = all_updates (if ok s then ws else []) /\ ascending (last_sequence db) now (last_sequence db') /\
    last_sequence db' <= last_sequence db + len (all_updates ws) /\ tmp_batch_ db' = Clear).
  { pose proof (len_nonneg (all_updates ws)). destruct g as [g|]; rewrite El, Et.
    - destruct Hp as [(Hm & Hb & Hs & Hlen & Htmp) ->]. change (group_updates db g) with (all_updates ws) in *. rewrite Hs.
      assert (Hct : (if own g then Clear else tmp_batch_ db) = Clear) by (destruct (own g); auto). destruct (ok s).
      + split_and!; [apply number_updates|apply ascending_number|lia|done].
      + split_and!; [done|constructor; lia|lia|done].
    - destruct Hp as (-> & Htmp & Hs). split_and!; [|constructor; lia|lia|done]. destruct (ok s); [|done].
      destruct (Hs eq_refl) as (w & q & Eq & Hb). unfold ws. rewrite Eq. cbn [take]. unfold all_updates. cbn. unfold updates_of. by rewrite Hb. }
  destruct Hnow as (Hn1 & Hn2 & Hn3 & Hn4). unfold tables. rewrite Em', Ei', Efl', app_nil_r, (app_assoc immu), (app_assoc (concat fls)), map_app, Ea, Hn1, Ea', all_updates_app, Et'.
  unfold in_flight, ledger in *. rewrite Ef', Ei'. apply ascending_le in Hn2 as Hle.
  split_and!; try done; [by eapply ascending_app|lia|lia].
Qed.

Lemma step_good_since n0 db db' : step db db' -> clients_ok n0 db -> good n0 db -> good n0 db'.
Proof.
  intros [w db0|db0 db1 H|new_log db0 db1 Hnew H|db0 db1 H|db0 db1 H|db0 db1 H|db0 db1 H|old i fl n s db0 Hi _ _] Hc Hg.
  - by apply enqueue_good.
  - unfold lead in H. destruct (front db0) eqn:Ef; try done. destruct (writers_ db0) eqn:E; [done|]. injection H as <-.
    eapply good_front; [exact Hg|done..|]. intros now. unfold in_flight. by rewrite Ef.
  - by eapply room_turn_good.
  - unfold log_turn in H. destruct (front db0) as [| |g| | |] eqn:Ef; try done. destruct (AddRecord _ _ _) as [[s l]|]; [|done]. injection H as <-.
    eapply good_front; [exact Hg|done..|]. intros now. unfold in_flight. rewrite Ef. cbn. intros [-> ?].
    destruct (ok s) eqn:Es; [destruct (match writers_ db0 with w :: _ => sync w | [] => false end); done|]. cbn. by rewrite Es.
  - unfold sync_turn in H. destruct (front db0) as [| | |g| |] eqn:Ef; try done. destruct (on_dest _ _) as [[s l]|]; [|done]. injection H as <-.
    eapply good_front; [exact Hg|done..|]. intros now. unfold in_flight. rewrite Ef. cbn. intros [-> ?]. destruct (ok s) eqn:Es; [done|]. cbn. by rewrite Es.
  - by eapply apply_turn_good.
  - by eapply return_turn_good.
  - destruct Hg as (fls & immu & memu & now & (Efl & Em & Him) & Ea & Hasc & Hl & Hp & Hq & Hk).
    destruct Hi as [[-> ->]|(imm & Ei0 & -> & ->)]; [exists fls, immu, memu, now; by split_and!|].
    unfold ledger in Hk. rewrite Ei0 in Hk.
    exists (fls ++ [immu]), [], memu, now. rewrite concat_app, <- app_assoc. cbn [concat]. rewrite app_nil_r. split_and!; try done; [|unfold ledger; cbn; by rewrite <- app_assoc].
    unfold tables. cbn. rewrite Efl, map_app, Ei0 in *. by subst imm.
Qed.
End since.

Lemma step_good n0 db db' : step db db' -> clients_ok n0 db -> good n0 db -> good n0 db'.
Proof. intros Hs Hc Hg. eapply since_good, (step_good_since n0 []), good_since_now; done. Qed.
Lemma clients_before_all n0 db db' : rtc step db db' -> clients_ok n0 db' -> clients_ok n0 db.
Proof. induction 1 as [|db1 db2 db3 Hs _ IH]; [done|]. intros Hc. by eapply clients_before, IH. Qed.
Lemma steps_good_since q0 ls0 n0 db db' : good_since q0 ls0 n0 db -> rtc step db db' -> clients_ok n0 db' -> good_since q0 ls0 n0 db'.
Proof.
  intros Hg Hr. induction Hr as [|db1 db2 db3 Hs Hr IH]; [done|]. intros Hc. apply IH; [|done].
  apply (step_good_since q0 ls0 n0 db1); [done| |done]. eapply clients_before; [done|]. by eapply clients_before_all.
Qed.
(** ** From the start *)

(** A database that was just opened: a new log, an empty table, nobody in the queue. *)
Definition opened n0 db : Prop :=
  writers_ db = [] /\ front db = Asleep /\ acks db = [] /\ tmp_batch_ db = Clear /\ mem_ db = new_table /\ imm_ db = None /\ flushed_ db = [] /\
  last_sequence db = n0 /\ ok (bg_error_ db) = true /\ exists f, fresh f /\ log_ db = NewWriter address f.

Lemma opened_good n0 db : opened n0 db -> good n0 db.
Proof.
  intros (Ew & Ef & Ea & Et & Em & Ei & Efl & El & _). exists [], [], [], []. unfold tables, answered, taken, in_flight. rewrite Ew, Ef, Ea, Em, Ei, El, Efl.
  split_and!; try done; [apply ascending_nil; lia|change (len (all_updates (map fst []))) with 0; lia].
Qed.

Lemma steps_good n0 db0 db : opened n0 db0 -> rtc step db0 db -> clients_ok n0 db -> good n0 db.
Proof.
  intros Ho. revert db. apply (rtc_ind_r (fun db => clients_ok n0 db -> good n0 db)); [intros _; by apply opened_good|].
  intros db1 db2 _ Hs IH Hc. pose proof (clients_before _ _ _ Hs Hc) as Hc1. exact (step_good _ _ _ Hs Hc1 (IH Hc1)).
Qed.

Lemma in_flight_new db now : in_flight db now -> ascending (last_sequence db) now (last_sequence db + len now) /\
  (now <> [] -> exists s e g, front db = Returning s e (Some g) /\ ok s = true /\ map snd now = all_updates (take (members g) (writers_ db))).
Proof.
  assert (H0 : now = [] -> ascending (last_sequence db) now (last_sequence db + len now)).
  { intros ->. apply ascending_nil. rewrite (@len_nil (Z * update)). lia. }
  unfold in_flight. intros H. destruct (front db) as [| |g|g|g|s e [g|]] eqn:Ef; try (by destruct H as [-> _]; split; [apply H0|]).
  destruct H as [_ E]. destruct (ok s) eqn:Es; [|by rewrite E in *; split; [apply H0|]]. split.
  - assert (El : len now = len (group_updates db g)) by (by rewrite <- (number_updates (last_sequence db + 1) (group_updates db g)), <- E, len_map).
    rewrite El, E. apply ascending_number.
  - intros _. exists s, e, g. split_and!; [done..|]. by rewrite E, number_updates.
Qed.

(** Every update in the tables was submitted. *)
Lemma all_updates_Forall (P : update -> Prop) ws : Forall P (all_updates ws) <-> Forall (fun w => Forall P (updates_of w)) ws.
Proof. unfold all_updates. by rewrite Forall_concat, Forall_map. Qed.

Lemma good_Forall (P : update -> Prop) db fls immu memu now : Forall P (all_updates (submitted db)) ->
  map snd (concat fls ++ immu ++ memu) = all_updates (answered db) -> in_flight db now -> Forall P (map snd immu) /\ Forall P (map snd (memu ++ now)).
Proof.
  rewrite all_updates_Forall. unfold submitted. rewrite Forall_app, Forall_map. intros [Ha Hw] E Hp.
  assert (H : Forall P (map snd (concat fls ++ immu ++ memu))).
  { rewrite E, all_updates_Forall. unfold answered. rewrite Forall_map. apply Forall_forall. intros a Hin. apply list_elem_of_filter in Hin as [_ Hin].
    by apply (proj1 (Forall_forall _ _) Ha). }
  rewrite !map_app, !Forall_app in *. destruct H as (_ & Hi & Hm). split; [done|]. split; [done|].
  apply in_flight_new in Hp as [_ Hp]. destruct (decide (now = [])) as [->|Hne]; [constructor|]. destruct (Hp Hne) as (s & e & g & _ & _ & ->).
  rewrite all_updates_Forall. by apply Forall_take.
Qed.

(** C2: Whatever the order in which threads call [Write], whatever fails, and whenever the background
    thread works: writers are answered in the order in which they queued up, and the memory tables,
    with what was written to level 0 before, hold exactly the updates of the writers that were told
    OK, in that order and with increasing sequence numbers up to the last sequence number.  Only
    the updates of a group that is about to be told OK are there as well, behind the last sequence
    number, where no lookup sees them. *)
Theorem db_writes_serial n0 db0 db : opened n0 db0 -> rtc step db0 db -> clients_ok n0 db ->
  (forall db1, rtc step db0 db1 -> rtc step db1 db -> submitted db1 `prefix_of` submitted db) /\
  exists fls immu memu now, tables db fls immu (memu ++ now) /\
    map snd (concat fls ++ immu ++ memu) = all_updates (answered db) /\ ascending n0 (concat fls ++ immu ++ memu) (last_sequence db) /\
    ascending (last_sequence db) now (last_sequence db + len now) /\
    (now <> [] -> exists s e g, front db = Returning s e (Some g) /\ ok s = true /\ map snd now = all_updates (take (members g) (writers_ db))).
Proof.
  intros Ho Hr Hc. split; [intros db1 _ H1; by apply steps_submitted|].
  destruct (steps_good n0 db0 db Ho Hr Hc) as (fls & immu & memu & now & Ht & Ea & Hasc & _ & Hp).
  exists fls, immu, memu, now. destruct (in_flight_new db now Hp). by split_and!.
Qed.
End write.
