(* ===== verification/DbGet.v ===== *)
(** Lookups in a database whose tables are those of memtable.cc: [Get] answers with the newest of the
    updates that were acknowledged, or leaves the question to the files. *)
From stdpp Require Import gmap sorting relations.
From S2P Require Import Prelude Coding Comparator Status DbFormat Arena SkipList SkipListLemmas WriteBatch LogWriter LogProps MemTable MemTableProps DbWrite DbWriteProps.

Section get.
Context {A : Allocator} {L : AllocatorLaws A} (C : Comparator) {CL : ComparatorLaws C}.
Implicit Types (ns : list (Z * update)) (u : list Z) (s : Z).

#[export] Instance memtables : Table (option MemTable) := {
  table_add := memtable C;
  new_table := NewMemTable;
  table_usage t := match t with Some t => ApproximateMemoryUsage t | None => 0 end;
  table_get lkey t := match t with Some t => option_map fst (MemTable_Get C lkey t) | None => None end
}.

(** The entry that an update becomes. *)
Definition entry_of (n : Z * update) : entry :=
  match n.2 with
  | UPut key value => {| e_key := key; e_seq := n.1; e_type := kTypeValue; e_value := value |}
  | UDelete key => {| e_key := key; e_seq := n.1; e_type := kTypeDeletion; e_value := [] |}
  end.
Definition storable (x : update) : Prop :=
  match x with
  | UPut key value => key_ok key /\ len key < 2 ^ 32 - 8 /\ Forall byte value /\ len value < 2 ^ 32
  | UDelete key => key_ok key /\ len key < 2 ^ 32 - 8
  end.

Lemma entry_of_seq n : e_seq (entry_of n) = n.1.
Proof. by destruct n as [? []]. Qed.

Lemma entry_of_ok n : 0 <= n.1 <= kMaxSequenceNumber -> storable n.2 -> entry_ok C (entry_of n).
Proof. destruct n as [s [key value|key]]; cbn; unfold entry_ok, kTypeValue, kTypeDeletion; cbn; intros ? ?; split_and!; try tauto; try lia; try done. Qed.

Lemma add_all_entries ns t : add_all (MT := memtable C) ns t = add_entries C (map entry_of ns) t.
Proof. revert t. induction ns as [|[s [key value|key]] ns IH]; intros t; [done| |]; unfold add_all, add_entries in *; cbn [foldl map]; rewrite IH; done. Qed.

Lemma ascending_distinct a ns b : ascending a ns b -> distinct (map entry_of ns).
Proof.
  unfold distinct. induction 1 as [|a s x ns b H Hn IH]; cbn [map]; constructor; [|done]. intros Hin. rewrite map_map in Hin.
  apply list_elem_of_fmap in Hin as (n & E & Hin). apply (ascending_range _ _ _ _ Hn) in Hin. rewrite entry_of_seq in E. cbn in E. rewrite entry_of_seq in E. injection E as _ E. lia.
Qed.

(** Updates that a snapshot does not see make no difference to it. *)
Lemma newest_unseen u s (h h' : list entry) : (forall e, e ∈ h' -> seen u s e = false) -> newest u s (h ++ h') = newest u s h.
Proof. intros H'. induction h as [|e h IH]; cbn [app newest]; [by apply newest_none|by rewrite IH]. Qed.

Lemma newest_app u s a h h' b c : ascending a h b -> ascending b h' c ->
  newest u s (map entry_of (h ++ h')) = match newest u s (map entry_of h') with Some e => Some e | None => newest u s (map entry_of h) end.
Proof.
  intros Ha Hb. rewrite map_app. pose proof (newest_spec u s (map entry_of h')) as H'. destruct (newest u s (map entry_of h')) as [e|].
  - destruct H' as (He & Hs & Hmax). apply newest_unique.
    + rewrite <- map_app. eapply ascending_distinct, ascending_app; done.
    + apply elem_of_app. by right.
    + done.
    + intros f [Hf|Hf]%elem_of_app Hsf; [|auto]. apply list_elem_of_fmap in Hf as (n & -> & Hn), He as (m & -> & Hm).
      apply (ascending_range _ _ _ _ Ha) in Hn. apply (ascending_range _ _ _ _ Hb) in Hm. rewrite !entry_of_seq. lia.
  - by apply newest_unseen.
Qed.

(** The entries of numbered updates, and what a table holds that got them. *)
Lemma numbered_entries a ns b : 0 <= a -> ascending a ns b -> b <= kMaxSequenceNumber -> Forall storable (map snd ns) ->
  Forall (entry_ok C) (map entry_of ns) /\ distinct (map entry_of ns).
Proof.
  intros H0 Hns Hb Hst. split; [|by eapply ascending_distinct]. rewrite Forall_map in *. apply Forall_forall. intros n Hin.
  apply (ascending_range _ _ _ _ Hns) in Hin as Hr. apply entry_of_ok; [lia|]. by apply (proj1 (Forall_forall _ _) Hst).
Qed.
Lemma numbered_table a ns b : 0 <= a -> ascending a ns b -> b <= kMaxSequenceNumber -> Forall storable (map snd ns) ->
  match add_all (MT := table_add) ns new_table with Some t => exists es, holds C t es /\ es ≡ₚ map entry_of ns | None => table_starved C (map entry_of ns) end.
Proof.
  intros H0 Hns Hb Hst. change (add_all ns new_table) with (add_all (MT := memtable C) ns NewMemTable). rewrite add_all_entries.
  destruct (numbered_entries a ns b) as [Hok Hd]; [done..|]. by apply (new_table_holds C).
Qed.

(** What a table answers that got numbered updates. *)
Lemma get_in a ns b u s : 0 <= a -> ascending a ns b -> b <= kMaxSequenceNumber -> Forall storable (map snd ns) -> key_ok u -> len u < 2 ^ 32 - 8 ->
  0 <= s <= kMaxSequenceNumber ->
  table_starved C (map entry_of ns) \/ table_get (NewLookupKey u s) (add_all (MT := table_add) ns new_table) = Some (answer (newest u s (map entry_of ns))).
Proof.
  intros H0 Hns Hb Hst Hu Hl Hs. pose proof (numbered_table a ns b H0 Hns Hb Hst) as H. destruct (add_all ns new_table) as [t|]; [|by left].
  right. destruct H as (es & Ht & Hp). cbn. rewrite (Get_holds C t es u s Ht Hu Hl Hs). cbn. rewrite (newest_perm u s (map entry_of ns) es); [done| |done].
  by eapply ascending_distinct.
Qed.

Context {F : Type} {W : WritableFile F} (address : list Z -> Z) (write_buffer_size : Z) (fresh : F -> Prop).
Abbreviation step := (step address write_buffer_size fresh).
Implicit Types (db : DB (F := F) (T := option MemTable)).

(** ** Tables that others write to *)

Lemma concat_ledger db fls immu memu now : tables db fls immu (memu ++ now) -> concat (ledger db fls immu (memu ++ now)) = (concat fls ++ immu ++ memu) ++ now.
Proof.
  intros (_ & _ & Hi). unfold ledger. rewrite !concat_app. destruct (imm_ db); [|subst immu]; cbn; by rewrite !app_nil_r, <- ?app_assoc.
Qed.

(** Numbers and updates of one of the tables. *)
Lemma ledger_table n0 db fls immu memu now i ns : clients_ok n0 db -> Forall storable (all_updates (submitted db)) -> tables db fls immu (memu ++ now) ->
  map snd (concat fls ++ immu ++ memu) = all_updates (answered db) -> ascending n0 (concat fls ++ immu ++ memu) (last_sequence db) ->
  last_sequence db <= n0 + taken db -> in_flight db now -> ledger db fls immu (memu ++ now) !! i = Some ns ->
  exists a b, 0 <= a /\ ascending a ns b /\ b <= kMaxSequenceNumber /\ Forall storable (map snd ns).
Proof.
  intros Hc Hst Ht Ea Hasc Hlast Hp Hi. destruct (clients_room n0 db Hc) as (_ & Ht0 & Hn). destruct Hc as [Hn0 _].
  destruct (in_flight_new db now Hp) as [Hnow Hgroup]. pose proof (ascending_app _ _ _ _ _ Hasc Hnow) as Hall. rewrite <- (concat_ledger db) in Hall by done.
  assert (Hmax : last_sequence db + len now <= kMaxSequenceNumber).
  { assert (len now <= len (all_updates (writers_ db))); [|change kMaxSequenceNumber with (2 ^ 56 - 1); lia].
    destruct (decide (now = [])) as [->|Hne]; [apply len_nonneg|]. destruct (Hgroup Hne) as (st & e & g & _ & _ & E).
    rewrite <- (len_map snd now), E. apply all_updates_take. }
  assert (Hsto : Forall storable (map snd (concat (ledger db fls immu (memu ++ now))))).
  { rewrite concat_ledger, map_app, Forall_app by done. destruct (good_Forall _ _ _ _ _ _ Hst Ea Hp) as [_ Hsm]. rewrite map_app, Forall_app in Hsm.
    split; [|apply Hsm]. rewrite Ea. rewrite all_updates_Forall in *. unfold submitted, answered in *. apply Forall_app in Hst as [Hst _]. rewrite Forall_map in *.
    apply Forall_forall. intros x Hx. apply list_elem_of_filter in Hx as [_ Hx]. by apply (proj1 (Forall_forall _ _) Hst). }
  rewrite <- (take_drop_middle _ _ _ Hi) in Hall, Hsto. rewrite concat_app in Hall, Hsto. cbn [concat] in Hall, Hsto.
  apply ascending_split in Hall as (a & Ha & Hall). apply ascending_split in Hall as (b & Hns & Hb). rewrite !map_app, !Forall_app in Hsto.
  exists a, b. apply ascending_le in Ha, Hb. split_and!; try tauto; lia.
Qed.

(** A table that was made and is not there: the system refused a block for what it got. *)
Definition lost db (i : nat) : Prop := exists ns, all_tables db !! i = Some (table_of ns) /\
  Forall (entry_ok C) (map entry_of ns) /\ distinct (map entry_of ns) /\ table_starved C (map entry_of ns).
Lemma lost_none db i : lost db i -> all_tables db !! i = Some None.
Proof.
  intros (ns & -> & Hok & Hd & Hst). f_equal. change (table_of ns) with (add_all (MT := memtable C) ns NewMemTable). rewrite add_all_entries.
  by apply (table_starved_none C).
Qed.

(** Looking into a table later: what it got in between makes no difference. *)
Lemma look_later n0 db db' fls immu memu now i ns u s : clients_ok n0 db' -> Forall storable (all_updates (submitted db')) -> rtc step db db' ->
  tables db fls immu (memu ++ now) -> map snd (concat fls ++ immu ++ memu) = all_updates (answered db) -> ascending n0 (concat fls ++ immu ++ memu) (last_sequence db) ->
  last_sequence db <= n0 + taken db -> in_flight db now -> ledger db fls immu (memu ++ now) !! i = Some ns ->
  key_ok u -> len u < 2 ^ 32 - 8 -> 0 <= s <= last_sequence db ->
  lost db' i \/ look_in (NewLookupKey u s) i db' = Some (answer (newest u s (map entry_of ns))).
Proof.
  intros Hc Hst Hr Ht Ea Hasc Hlast Hp Hi Hu Hl Hs.
  assert (Hg : good_since (last_sequence db) (ledger db fls immu (memu ++ now)) n0 db).
  { exists fls, immu, memu, now. split_and!; try done. apply kept_refl. }
  apply (steps_good_since address write_buffer_size fresh _ _ _ _ db') in Hg; [|done|done].
  destruct Hg as (fls' & immu' & memu' & now' & Ht' & Ea' & Hasc' & Hl' & Hp' & Hq & Hk). destruct (Hk i ns Hi) as (more & Ei & Hmore).
  destruct (ledger_table n0 db' fls' immu' memu' now' i _ Hc Hst Ht' Ea' Hasc' Hl' Hp' Ei) as (a & b & H0 & Hns & Hb & Hsto).
  assert (Et : all_tables db' !! i = Some (table_of (ns ++ more))) by (by rewrite (all_tables_ledger db' fls' immu' _ Ht'), list_lookup_fmap, Ei).
  destruct (get_in a (ns ++ more) b u s H0 Hns Hb Hsto Hu Hl) as [Hstv|Hget]; [|left|right].
  - destruct (clients_room n0 db' Hc) as (_ & _ & Hn). pose proof (len_nonneg (all_updates (writers_ db'))). change kMaxSequenceNumber with (2 ^ 56 - 1). lia.
  - destruct (numbered_entries a _ b H0 Hns Hb Hsto). by exists (ns ++ more).
  - unfold look_in. rewrite Et. unfold table_of. rewrite Hget, map_app, newest_unseen; [done|]. intros f Hf. apply list_elem_of_fmap in Hf as (n & -> & Hin).
    rewrite Forall_forall in Hmore. specialize (Hmore n Hin). apply not_true_is_false. rewrite seen_iff, entry_of_seq. lia.
Qed.

(** C4: A lookup while threads write, at the last sequence number or at that of a snapshot, answers with
    the newest update of the key that was acknowledged when it took down its tables: its value, or
    NotFound when it is a deletion.  It looks into the tables without the mutex, at later moments, and
    nothing that was written in between is seen, nor anything of a group that was being written.  It
    goes to the files only when none of the updates in memory, which are all the acknowledged ones but
    those that the background thread had written to files, is one of the key.  It is otherwise only when
    a table it looks into was lost, because the system refused a block for what the table got. *)
Theorem db_get_newest n0 db0 db db_mem db_imm u snapshot : opened address fresh n0 db0 ->
  rtc step db0 db -> rtc step db db_mem -> rtc step db_mem db_imm -> clients_ok n0 db_imm -> Forall storable (all_updates (submitted db_imm)) ->
  key_ok u -> len u < 2 ^ 32 - 8 ->
  let p := pin snapshot db in let s := at_sequence p in
  0 <= s <= last_sequence db ->
  exists fls immu memu, flushed_ db = map table_of fls /\
    map snd (concat fls ++ immu ++ memu) = all_updates (answered db) /\ ascending n0 (concat fls ++ immu ++ memu) (last_sequence db) /\
    (lost db_mem (pinned_mem p) \/ (exists i, pinned_imm p = Some i /\ lost db_imm i) \/
     forall current, Get snapshot u current db db_mem db_imm =
       Some (match answer (newest u s (map entry_of (immu ++ memu))) with Some r => r | None => current (NewLookupKey u s) end)).
Proof.
  intros Ho Hr Hr1 Hr2 Hc Hst Hu Hl p s Hs. pose proof (clients_before_all _ _ _ _ _ _ Hr2 Hc) as Hc1. pose proof (clients_before_all _ _ _ _ _ _ Hr1 Hc1) as Hc0.
  assert (Hst1 : Forall storable (all_updates (submitted db_mem))).
  { rewrite all_updates_Forall in *. destruct (steps_submitted _ _ _ _ _ Hr2) as [q E]. rewrite E in Hst. by apply Forall_app in Hst as [? _]. }
  destruct (steps_good address write_buffer_size fresh n0 db0 db Ho Hr Hc0) as (fls & immu & memu & now & Ht & Ea & Hasc & Hlast & Hp).
  pose proof Ht as (Efl & Em & Ei). exists fls, immu, memu. split; [done|]. split; [done|]. split; [done|].
  destruct (look_later n0 db db_mem fls immu memu now (pinned_mem p) (memu ++ now) u s) as [|Hgm]; try done; [|by left|].
  { unfold p, pin, ledger, made_before. cbn. rewrite (app_assoc fls). apply list_lookup_middle. rewrite !length_app, Efl, length_map. by destruct (imm_ db). }
  pose proof Hasc as Hall. rewrite app_assoc in Hall. apply ascending_split in Hall as (b & Hb & Hmem). apply ascending_split in Hb as (a & _ & Himm).
  destruct (in_flight_new db now Hp) as [Hnow _]. rewrite map_app, newest_unseen in Hgm.
  2: { intros f Hf. apply list_elem_of_fmap in Hf as (n & -> & Hin). apply (ascending_range _ _ _ _ Hnow) in Hin.
       apply not_true_is_false. rewrite seen_iff, entry_of_seq. lia. }
  right. rewrite (newest_app u s _ _ _ _ _ Himm Hmem). unfold Get. fold p s. rewrite Hgm.
  destruct (pinned_imm p) as [i|] eqn:Epi.
  - assert (Hled : ledger db fls immu (memu ++ now) !! i = Some immu).
    { unfold p, pin in Epi. cbn in Epi. unfold ledger. destruct (imm_ db); [|done]. injection Epi as <-. apply list_lookup_middle. by rewrite Efl, length_map. }
    destruct (look_later n0 db db_imm fls immu memu now i immu u s) as [|Hgi]; try done; [by etrans|left; by exists i|].
    right. intros current. rewrite Hgi. destruct (newest u s (map entry_of memu)) as [e|]; [done|]. by destruct (newest u s (map entry_of immu)).
  - right. intros current. unfold p, pin in Epi. cbn in Epi. destruct (imm_ db); [done|]. subst immu. by destruct (newest u s (map entry_of memu)).
Qed.
End get.
