(* ===== verification/DbLog.v ===== *)
(** The log and the tables: as long as nothing has failed, the logs on disk hold what the tables hold
    and what is about to be in them, and so lose nothing when the process stops. *)
From stdpp Require Import sorting relations.
From S2P Require Import Prelude Coding Status DbFormat WriteBatch LogWriter LogReader LogReading LogProps DbWrite DbWriteProps.

Lemma number_app seq us vs : number seq (us ++ vs) = number seq us ++ number (seq + len us) vs.
Proof.
  revert seq. induction us as [|u us IH]; intros seq; cbn [app number]; [by rewrite (@len_nil update), Z.add_0_r|].
  rewrite IH, len_cons. do 3 f_equal. lia.
Qed.

(** Records that are batches, and the updates they number. *)
Inductive batches : list (list Z) -> list (Z * update) -> Prop :=
  | batches_nil : batches [] []
  | batches_cons rec seq us recs ns : batch rec seq us -> 0 <= seq -> seq + len us <= 2 ^ 56 -> len us < 2 ^ 30 ->
      batches recs ns -> batches (rec :: recs) (number seq us ++ ns).

Lemma batches_app recs ns recs' ns' : batches recs ns -> batches recs' ns' -> batches (recs ++ recs') (ns ++ ns').
Proof. induction 1; intros H'; [done|]. cbn [app]. rewrite <- app_assoc. constructor; auto. Qed.

Lemma batches_one rec seq us : batch rec seq us -> 0 <= seq -> seq + len us <= 2 ^ 56 -> len us < 2 ^ 30 -> batches [rec] (number seq us).
Proof. intros. rewrite <- (app_nil_r (number seq us)). constructor; try done. constructor. Qed.

(** What is left of a log when the process stops while a batch is being added to it. *)
Definition cut_log (bytes : list Z) (ns ms : list (Z * update)) : Prop := exists recs b m k, log_layout 0 recs b m /\ batches recs ns /\ bytes = b ++ k /\
  (k = [] \/ exists rec fs b' e, fragmented rec fs /\ layout m fs b' e /\ batches [rec] ms /\ k `prefix_of` b').

Section log.
Context {F : Type} {W : WritableFile F} {AO : AppendOnly F} {DU : Durable F} (address : list Z -> Z).

Definition log_holds (l : Writer (F := F)) (ns : list (Z * update)) : Prop := exists recs b,
  log_layout 0 recs b (block_offset l) /\ writable address l /\ contents (dest l) = b /\ written (dest l) = b /\ batches recs ns.

Lemma new_log_holds f : new_file f -> log_holds (NewWriter address f) [].
Proof.
  intros Hf. pose proof (new_writable address f Hf) as Hw. destruct Hf as (_ & Hc & Hwr & _). exists [], []. cbn [dest NewWriter block_offset].
  split_and!; try done; constructor. unfold kBlockSize. lia.
Qed.

Lemma log_holds_cut l ns ms bytes : log_holds l ns -> bytes = written (dest l) -> cut_log bytes ns ms.
Proof. intros (recs & b & Hl & _ & _ & Hw & Hb) ->. exists recs, b, (block_offset l), []. rewrite app_nil_r, Hw. split; [done|]. split; [done|]. split; [done|]. by left. Qed.

Lemma add_batch_spec l ns rec seq us : log_holds l ns -> batch rec seq us -> 0 <= seq -> seq + len us <= 2 ^ 56 -> len us < 2 ^ 30 ->
  exists s l', AddRecord address rec l = Some (s, l') /\ (ok s = true -> log_holds l' (ns ++ number seq us)) /\
    forall bytes, written (dest l) `prefix_of` bytes -> bytes `prefix_of` written (dest l') -> cut_log bytes ns (number seq us).
Proof.
  intros (recs & b & Hl & Hw & Hc & Hwr & Hb) Hrec H0 Hs Hn. pose proof (len_nonneg us). destruct (batch_parts _ _ _ Hrec) as (_ & _ & _ & _ & Hbytes); [lia..|].
  pose proof (batches_one _ _ _ Hrec H0 Hs Hn) as Hone.
  destruct (AddRecord_spec address rec l Hw Hbytes) as (fs & b' & e & Hfr & Hl' & s & l' & E & Hv & _ & Hc' & Hok).
  exists s, l'. split; [done|]. rewrite Hc in *. split.
  - intros Ok. destruct (Hok Ok) as (Hc2 & Hw2 & Hwl & Ho). exists (recs ++ [rec]), (b ++ b'). rewrite Ho, Hw2, Hc2. split_and!; [|done|done|done|by apply batches_app].
    eapply log_layout_app; [exact Hl|]. rewrite <- (app_nil_r b'). econstructor; [done..|]. apply log_nil. apply layout_range in Hl'. lia.
  - intros bytes [k ->] Hpre. rewrite Hwr in *. exists recs, b, (block_offset l), k. split_and!; try done. right. exists rec, fs, b', e. split_and!; try done.
    apply (prefix_app_inv b). etransitivity; [exact Hpre|]. etransitivity; [by apply written_contents|done].
Qed.

Lemma sync_log_spec l ns : log_holds l ns -> exists s l', on_dest Sync l = Some (s, l') /\ written (dest l') = written (dest l) /\ (ok s = true -> log_holds l' ns).
Proof.
  intros (recs & b & Hl & ((Hv & Hoff & Hcrc) & Hroom) & Hc & Hwr & Hb). destruct (sync_spec (dest l) Hv) as (s & f & E & Hv' & Hw' & Hc' & Hok).
  exists s, (set_dest f l). split; [by apply on_dest_spec|]. cbn [dest set_dest]. rewrite Hc, Hwr in *. assert (Ew : written f = b).
  { apply (anti_symm prefix); [|done]. etransitivity; [by apply written_contents|done]. }
  split; [done|]. intros Ok. destruct (Hok Ok) as (Hc2 & _ & Hr). pose proof (capacity_pos (F := F)).
  exists recs, b. cbn [dest set_dest block_offset]. split_and!; try done. repeat split; try done; cbn [dest set_dest block_offset]; lia.
Qed.
End log.

Section durable.
Context {F : Type} {W : WritableFile F} {AO : AppendOnly F} {DU : Durable F} (address : list Z -> Z) {T : Type} {TT : Table T}.
Context (write_buffer_size : Z) (fresh : F -> Prop) (Hfresh : forall f, fresh f -> new_file f).
Implicit Types db : DB (F := F) (T := T).

#[local] Existing Instance table_add.
Abbreviation step := (step address write_buffer_size fresh).

(** Nothing has failed, nor is about to. *)
Definition healthy db : Prop := Forall (fun a => ok a.2 = true) (acks db) /\ ok (bg_error_ db) = true /\
  match front db with Returning s _ _ => ok s = true | _ => True end.

(** What is in the log but not yet acknowledged. *)
Definition in_log db : list update :=
  match front db with Syncing g | Applying g | Returning _ _ (Some g) => group_updates db g | _ => [] end.

(** What is in the log but not yet in the table. *)
Definition applying db : list (Z * update) :=
  match front db with Syncing g | Applying g => number (last_sequence db + 1) (group_updates db g) | _ => [] end.

Definition durable n0 db : Prop := last_sequence db = n0 + len (all_updates (answered db)) /\ exists fls immu memu,
  flushed_ db = map table_of fls /\ mem_ db = table_of memu /\
  concat fls ++ immu ++ memu ++ applying db = number (n0 + 1) (all_updates (answered db) ++ in_log db) /\
  log_holds address (log_ db) (memu ++ applying db) /\
  match imm_ db with
  | Some imm => imm = table_of immu /\ exists old l, old_logs db = old ++ [l] /\ log_holds address l immu
  | None => immu = []
  end.

Lemma opened_durable n0 db : opened address fresh n0 db -> durable n0 db.
Proof.
  intros (Ew & Ef & Ea & _ & Em & Ei & Efl & El & _ & f & Hf & Elog). unfold durable, answered, in_log, applying. rewrite Ef, Ea, Ei, El, Em, Efl, Elog.
  split; [change (len (all_updates _)) with 0; lia|]. exists [], [], []. split_and!; [done..|by apply new_log_holds, Hfresh|done].
Qed.

(** Where neither the logs nor what is in them changes. *)
Lemma durable_front n0 db db' : durable n0 db -> mem_ db' = mem_ db -> answered db' = answered db -> log_ db' = log_ db -> old_logs db' = old_logs db ->
  imm_ db' = imm_ db -> flushed_ db' = flushed_ db -> last_sequence db' = last_sequence db -> in_log db' = in_log db -> applying db' = applying db -> durable n0 db'.
Proof. unfold durable. by intros H -> -> -> -> -> -> -> -> ->. Qed.

Lemma enqueue_in_log w db now : in_flight db now -> in_log (enqueue w db) = in_log db /\ applying (enqueue w db) = applying db.
Proof.
  assert (H : forall g, in_group db g -> group_updates (enqueue w db) g = group_updates db g).
  { intros g [Hm _]. unfold group_updates. cbn. by rewrite take_app_le by lia. }
  unfold in_flight, in_log, applying. cbn [front enqueue set_writers last_sequence]. destruct (front db) as [| |g|g|g|s e [g|]]; intros Hp; try done.
  - rewrite H by tauto. done.
  - rewrite H by tauto. done.
  - rewrite H by tauto. done.
Qed.

Lemma log_turn_durable n0 db db' : clients_ok n0 db -> good n0 db -> durable n0 db -> log_turn address db = Some db' -> healthy db' -> durable n0 db'.
Proof.
  intros Hc (? & ? & ? & now & _ & _ & Hasc & Hlast & Hp) [El (fls & immu & memu & Efl & Em & E & Hlog & Himm)] H (_ & _ & Hh). unfold log_turn in H.
  unfold in_flight in Hp. unfold in_log in E. destruct (front db) as [| |g| | |] eqn:Ef; try done. destruct Hp as (_ & Hm & Hb & _ & Hlen & _).
  destruct (clients_room n0 db Hc) as (_ & Ht0 & Hn). destruct Hc as [Hn0 _]. apply ascending_le in Hasc. pose proof (all_updates_take (members g) (writers_ db)) as Htake.
  fold (group_updates db g) in Htake.
  destruct (add_batch_spec address _ _ _ _ _ Hlog Hb) as (s & l & Eadd & Hok & _); [lia..|]. unfold Contents in H. rewrite Eadd in H. injection H as <-.
  destruct (ok s) eqn:Es; [|cbn in Hh; congruence]. specialize (Hok eq_refl).
  set (b := match writers_ db with w :: _ => sync w | [] => false end). split; [destruct b; exact El|].
  assert (Ein : forall p, p = Syncing g \/ p = Applying g -> in_log (set_front p (set_logs l (old_logs db) db)) = group_updates db g /\
    applying (set_front p (set_logs l (old_logs db) db)) = number (last_sequence db + 1) (group_updates db g)) by (by intros p [-> | ->]).
  destruct (Ein (if b then Syncing g else Applying g)) as [-> ->]; [destruct b; auto|]. unfold applying in E, Hok. rewrite Ef, app_nil_r in E, Hok.
  exists fls, immu, memu. split; [exact Efl|]. split; [exact Em|]. split; [|by destruct b].
  rewrite app_nil_r in E. rewrite !app_assoc, <- (app_assoc (concat fls)), E. change (answered (set_front _ _)) with (answered db). rewrite number_app. do 2 f_equal. lia.
Qed.
Lemma room_turn_durable n0 new_log db db' : match new_log with inl s => ok s = false | inr f => fresh f end ->
  durable n0 db -> healthy db -> room_turn address write_buffer_size new_log db = Some db' -> healthy db' -> durable n0 db'.
Proof.
  intros Hnew Hd (_ & Hbg & _) H (_ & _ & Hh). unfold room_turn in H. destruct (front db) as [|a f| | | |] eqn:Ef; try done.
  assert (Hil : in_log db = [] /\ applying db = []) by (unfold in_log, applying; by rewrite Ef). destruct Hil as [Hil Hap]. rewrite Hbg in H. cbn [negb] in H.
  destruct (a && _). { injection H as <-. eapply durable_front; [exact Hd|done..]. }
  destruct (negb f && _).
  { unfold start_group in H. destruct (writers_ db) as [|w rest]; [done|]. destruct (batch_of w) as [b|]; [|injection H as <-; by eapply durable_front].
    destruct (BuildBatchGroup (tmp_batch_ db) w b rest) as [[r o] n]. injection H as <-. eapply durable_front; [exact Hd|by destruct o..]. }
  destruct (imm_ db) as [imm|] eqn:Ei; [by injection H as <-|]. destruct (kL0_StopWritesTrigger <=? level0_files db); [by injection H as <-|].
  destruct new_log as [s|lfile]; injection H as <-; [cbn in Hh; congruence|].
  destruct Hd as [El (fls & immu & memu & Efl & Em & E & Hlog & Himm)]. rewrite Ei in Himm. subst immu. rewrite Hil in E. rewrite Hap, !app_nil_r in *. split; [done|].
  exists fls, memu, []. change (applying (set_front _ _)) with (@nil (Z * update)). rewrite !app_nil_r.
  split_and!; [done..|by apply new_log_holds, Hfresh|]. split; [done|]. by exists (old_logs db), (log_ db).
Qed.

Lemma return_turn_durable n0 db db' : good n0 db -> durable n0 db -> healthy db -> return_turn db = Some db' -> durable n0 db'.
Proof.
  intros (? & ? & ? & now & _ & _ & _ & _ & Hp) [El (fls & immu & memu & Efl & Em & E & Hlog & Himm)] (_ & _ & Hh) H.
  destruct (return_turn_spec _ _ H) as (s & e & g & Ef & Ef' & _ & _ & Em' & Ei & Efl' & Elog & Eold & El' & _).
  pose proof (return_answered _ _ _ _ _ Ef H) as Ea. rewrite Ef in Hh. rewrite Hh in Ea. unfold leaving in Ea. unfold in_log, applying in E, Hlog. unfold in_flight in Hp. rewrite Ef in *.
  assert (Hin' : in_log db' = [] /\ applying db' = []) by (unfold in_log, applying; by rewrite Ef'). destruct Hin' as [Hin' Hap'].
  assert (Hg : all_updates (answered db') = all_updates (answered db) ++ match g with Some g => group_updates db g | None => [] end /\
    last_sequence db' = last_sequence db + len (match g with Some g => group_updates db g | None => [] end)).
  { rewrite Ea, all_updates_app, El'. destruct g as [g|].
    - destruct Hp as [(_ & _ & Hs & _) _]. done.
    - destruct Hp as (_ & _ & Hs). destruct (Hs Hh) as (w & q & Eq & Hb). rewrite Eq. cbn [take]. unfold all_updates at 2. cbn. unfold updates_of. rewrite Hb.
      split; [done|]. rewrite (@len_nil update). lia. }
  destruct Hg as [Hg Hl]. split; [rewrite Hg, len_app, Hl; lia|]. exists fls, immu, memu. rewrite !app_nil_r in E. rewrite app_nil_r in Hlog. rewrite Hin', Hap', !app_nil_r, Hg, Elog, Ei, Eold, Efl', Em'. by split_and!.
Qed.

Lemma apply_turn_durable n0 db db' : clients_ok n0 db -> good n0 db -> durable n0 db -> apply_turn db = Some db' -> durable n0 db'.
Proof.
  intros Hc (? & ? & ? & now & _ & _ & Hasc & Hlast & Hp) [El (fls & immu & memu & Efl & Em & E & Hlog & Himm)] H. unfold apply_turn in H. unfold in_flight in Hp.
  unfold in_log, applying in E, Hlog. destruct (front db) as [| | | |g|] eqn:Ef; try done. destruct Hp as (_ & Hm & Hb & _ & Hlen & _).
  destruct (clients_room n0 db Hc) as (_ & Ht0 & Hn). destruct Hc as [Hn0 _]. apply ascending_le in Hasc. pose proof (all_updates_take (members g) (writers_ db)) as Htake.
  fold (group_updates db g) in Htake.
  setoid_rewrite (InsertInto_batch _ _ _ (mem_ db) Hb) in H; [|lia..]. injection H as <-. split; [exact El|].
  exists fls, immu, (memu ++ number (last_sequence db + 1) (group_updates db g)). change (applying (set_front _ _)) with (@nil (Z * update)). rewrite app_nil_r.
  split_and!; try done. cbn. rewrite add_updates_number, Em. unfold table_of. by rewrite add_all_app.
Qed.

Lemma step_durable n0 db db' : step db db' -> clients_ok n0 db -> good n0 db -> healthy db -> healthy db' -> durable n0 db -> durable n0 db'.
Proof.
  intros [w db0|db0 db1 H|new_log db0 db1 Hnew H|db0 db1 H|db0 db1 H|db0 db1 H|db0 db1 H|old i fl n s db0 Hi Hold _] Hc Hg Hh Hh' Hd.
  - destruct Hg as (? & ? & ? & now & _ & _ & _ & _ & Hp). destruct (enqueue_in_log w _ _ Hp). by eapply durable_front.
  - unfold lead in H. destruct (front db0) eqn:Ef; try done. destruct (writers_ db0) eqn:E; [done|]. injection H as <-.
    eapply durable_front; [exact Hd|done..| |]; unfold in_log, applying; by rewrite Ef.
  - by eapply room_turn_durable.
  - by eapply log_turn_durable.
  - unfold sync_turn in H. destruct (front db0) as [| | |g| |] eqn:Ef; try done. destruct Hd as [El (fls & immu & memu & Efl & Em & E & Hlog & Himm)].
    destruct (sync_log_spec address _ _ Hlog) as (s & l & Es & _ & Hok). rewrite Es in H. injection H as <-. unfold in_log, applying in E, Hok. rewrite Ef in E, Hok.
    destruct (ok s) eqn:Eok; [|destruct Hh' as (_ & _ & Hh'); cbn in Hh'; congruence]. split; [done|]. exists fls, immu, memu. split_and!; [done..|by apply Hok|done].
  - by eapply apply_turn_durable.
  - by eapply return_turn_durable.
  - destruct Hd as [El (fls & immu & memu & Efl & Em & E & Hlog & Himm)]. split; [done|]. destruct Hi as [[-> ->]|(imm & Ei & -> & ->)].
    + exists fls, immu, memu. split_and!; [done..|]. cbn. destruct (imm_ db0) eqn:Ei; [|done]. by destruct Hold as [->|[? _]].
    + rewrite Ei in Himm. destruct Himm as [-> _]. exists (fls ++ [immu]), [], memu. rewrite concat_app, <- app_assoc. cbn [concat]. rewrite app_nil_r.
      split_and!; [|done..]. cbn. by rewrite map_app, Efl.
Qed.

(** A run in which nothing fails. *)
Definition runs : relation (DB (F := F) (T := T)) := rtc (fun a b => step a b /\ healthy b).

Lemma runs_steps db db' : runs db db' -> rtc step db db'.
Proof. apply rtc_subrel. by intros ? ? [? _]. Qed.

Lemma runs_durable n0 db0 db : opened address fresh n0 db0 -> runs db0 db -> clients_ok n0 db -> good n0 db /\ healthy db /\ durable n0 db.
Proof.
  intros Ho. revert db. apply (rtc_ind_r (fun db => clients_ok n0 db -> good n0 db /\ healthy db /\ durable n0 db)).
  - intros _. split; [by eapply opened_good|]. split; [|by apply opened_durable]. destruct Ho as (_ & Ef & Ea & _ & _ & _ & _ & _ & Hb & _).
    unfold healthy. rewrite Ef, Ea. by split_and!.
  - intros db1 db2 _ [Hs Hh] IH Hc. pose proof (clients_before _ _ _ _ _ _ Hs Hc) as Hc1. destruct (IH Hc1) as (Hg & Hh1 & Hd).
    split; [exact (step_good _ _ _ _ _ _ Hs Hc1 Hg)|]. split; [done|]. exact (step_durable _ _ _ Hs Hc1 Hg Hh1 Hh Hd).
Qed.

(** ** When the process stops *)

(** What the log may be found to be: as it is, or with a part of the record that is being added. *)
Definition log_left db (bytes : list Z) : Prop := bytes = written (dest (log_ db)) \/
  exists db', log_turn address db = Some db' /\ written (dest (log_ db)) `prefix_of` bytes /\ bytes `prefix_of` written (dest (log_ db')).

(** The updates of the group that is in the log in part. *)
Definition logging db : list (Z * update) :=
  match front db with Logging g => number (last_sequence db + 1) (group_updates db g) | _ => [] end.

Lemma log_left_cut n0 db memu bytes : clients_ok n0 db -> good n0 db -> log_holds address (log_ db) memu -> log_left db bytes -> cut_log bytes memu (logging db).
Proof.
  intros Hc (? & ? & ? & now & _ & _ & Hasc & Hlast & Hp) Hlog [->|(db' & H & Hpre & Hpre')]; [by eapply log_holds_cut|].
  unfold log_turn in H. unfold in_flight in Hp. unfold logging. destruct (front db) as [| |g| | |] eqn:Ef; try done. destruct Hp as (_ & Hm & Hb & _ & Hlen & _).
  destruct (clients_room n0 db Hc) as (_ & Ht0 & Hn). destruct Hc as [Hn0 _]. apply ascending_le in Hasc. pose proof (all_updates_take (members g) (writers_ db)) as Htake.
  fold (group_updates db g) in Htake.
  destruct (add_batch_spec address _ _ _ _ _ Hlog Hb) as (s & l & Eadd & _ & Hcut); [lia..|]. unfold Contents in H. rewrite Eadd in H. injection H as <-.
  by apply Hcut.
Qed.
End durable.
