(* ===== verification/DbRecover.v ===== *)
(** Recovery of the logs (leveldb-library/db/db_impl.cc: [RecoverLogFile], [MaybeIgnoreError] and the
    loop of [Recover] over the logs).

    What becomes of a full table is an interface, [WriteLevel0Table].  What the environment returns
    for the names of files is an argument. *)
From Stdlib Require Import String.
From S2P Require Import Prelude Coding Status WriteBatch LogWriter LogReader DbWrite.

(** [L]: the files of level 0 and the edit of the version. *)
Class Level0 (T L : Type) := { WriteLevel0Table : T -> D L Status }.

Section recover.
Context {G : Type} {R : SequentialFile G} {F : Type} {W : WritableFile F} (address : list Z -> Z).
Context {T : Type} {TT : Table T} {L : Type} {LT : Level0 T L}.
Context (paranoid_checks reuse_logs : bool) (write_buffer_size : Z).

Definition MaybeIgnoreError (s : Status) : Status := if ok s || paranoid_checks then s else Status_OK.

(** The variables of [RecoverLogFile], and what it changes of the database. *)
Record Recovery := {
  reader : Reader (F := G);
  status : Status;
  mem : option T;
  compactions : Z;
  save_manifest : bool;
  edit : L;
  max_sequence : Z
}.

Definition set_reader (r : Reader) (st : Recovery) : Recovery :=
  {| reader := r; status := status st; mem := mem st; compactions := compactions st; save_manifest := save_manifest st; edit := edit st; max_sequence := max_sequence st |}.
Definition set_status (s : Status) (st : Recovery) : Recovery :=
  {| reader := reader st; status := s; mem := mem st; compactions := compactions st; save_manifest := save_manifest st; edit := edit st; max_sequence := max_sequence st |}.
Definition set_mem (m : option T) (st : Recovery) : Recovery :=
  {| reader := reader st; status := status st; mem := m; compactions := compactions st; save_manifest := save_manifest st; edit := edit st; max_sequence := max_sequence st |}.
Definition set_compactions (n : Z) (st : Recovery) : Recovery :=
  {| reader := reader st; status := status st; mem := mem st; compactions := n; save_manifest := save_manifest st; edit := edit st; max_sequence := max_sequence st |}.
Definition set_save_manifest (b : bool) (st : Recovery) : Recovery :=
  {| reader := reader st; status := status st; mem := mem st; compactions := compactions st; save_manifest := b; edit := edit st; max_sequence := max_sequence st |}.
Definition set_edit (l : L) (st : Recovery) : Recovery :=
  {| reader := reader st; status := status st; mem := mem st; compactions := compactions st; save_manifest := save_manifest st; edit := l; max_sequence := max_sequence st |}.
Definition set_max_sequence (n : Z) (st : Recovery) : Recovery :=
  {| reader := reader st; status := status st; mem := mem st; compactions := compactions st; save_manifest := save_manifest st; edit := edit st; max_sequence := n |}.

(** [LogReporter::Corruption]. *)
Definition Corruption (s : Status) (st : Recovery) : Recovery :=
  if paranoid_checks && ok (status st) then set_status s st else st.

(** A call of [ReadRecord], which calls [Corruption] for what it reports. *)
Definition read_record (fuel : nat) : D Recovery (option (list Z)) := fun st =>
  match ReadRecord address fuel (reader st) with
  | Some (x, r) =>
      let reported l := match l with Some l => l | None => [] end in
      let new := drop (length (reported (reports (reader st)))) (reported (reports r)) in
      Some (x, foldl (fun st '(_, s) => Corruption s st) (set_reader r st) new)
  | None => None
  end.

Definition write_level0 (m : T) : D Recovery Status := fun st =>
  match WriteLevel0Table m (edit st) with Some (s, l) => Some (s, set_edit l st) | None => None end.

(** [InsertInto(&batch, mem)], with [mem] made when there is none. *)
Definition insert_record (record : list Z) : D Recovery T := fun st =>
  let m := match mem st with Some m => m | None => new_table end in
  match InsertInto (MT := table_add) (SetContents record) m with
  | Some (s, m) => Some (m, set_status s (set_mem (Some m) st))
  | None => None
  end.

(** What follows [SetContents]: whether to go on. *)
Definition apply_record (record : list Z) : D Recovery bool :=
  let! m := insert_record record in
  let! _ := dmodify (fun st => set_status (MaybeIgnoreError (status st)) st) in
  let! st := dget in
  if negb (ok (status st)) then dret false
  else
    let last_seq := u64 (Sequence (SetContents record) + Count (SetContents record) - 1) in
    let! _ := dmodify (fun st => if max_sequence st <? last_seq then set_max_sequence last_seq st else st) in
    if write_buffer_size <? table_usage m then
      let! _ := dmodify (fun st => set_save_manifest true (set_compactions (compactions st + 1) st)) in
      let! s := write_level0 m in
      let! _ := dmodify (fun st => set_mem None (set_status s st)) in
      dret (ok s)
    else dret true.

(** The [while] loop, [n] rounds at most. *)
Fixpoint recover_loop (n fuel : nat) : D Recovery unit :=
  match n with
  | O => running
  | S n =>
      let! x := read_record fuel in
      let! st := dget in
      match x with
      | Some record =>
          if negb (ok (status st)) then dret tt
          else if len record <? 12 then
            let! _ := dmodify (Corruption (Status_Corruption (bytes_of "log record too small") [])) in
            recover_loop n fuel
          else
            let! go_on := apply_record record in
            if (go_on : bool) then recover_loop n fuel else dret tt
      | None => dret tt
      end
  end.

(** Reusing the last log: the log and the table to go on with.  [appendable]: what [NewAppendableFile]
    and [GetFileSize] give, when both succeed. *)
Definition reuse (last_log : bool) (appendable : option (F * Z)) : D Recovery (option (Writer (F := F) * T)) :=
  let! st := dget in
  if ok (status st) && reuse_logs && last_log && (compactions st =? 0) then
    match appendable with
    | Some (lfile, lfile_size) =>
        let m := match mem st with Some m => m | None => new_table end in
        let! _ := dmodify (set_mem None) in
        dret (Some (NewWriterAt address lfile lfile_size, m))
    | None => dret None
    end
  else dret None.

(** A table that was not reused is written. *)
Definition write_rest : D Recovery unit :=
  let! st := dget in
  match mem st with
  | Some m =>
      if ok (status st) then
        let! _ := dmodify (set_save_manifest true) in
        let! s := write_level0 m in
        dmodify (fun st => set_mem None (set_status s st))
      else dmodify (set_mem None)
  | None => dret tt
  end.

(** What a call of [RecoverLogFile] is given and changes. *)
Record Recovered := { saved : bool; files : L; sequence_so_far : Z; reused : option (Writer (F := F) * T) }.

Definition RecoverLogFile (n fuel : nat) (log : Status + G) (last_log : bool) (appendable : option (F * Z)) : D Recovered Status := fun d =>
  match log with
  | inl s => Some (MaybeIgnoreError s, d)
  | inr file =>
      match (let! _ := recover_loop n fuel in let! l := reuse last_log appendable in let! _ := write_rest in dret l)
              {| reader := NewReader file true true 0; status := Status_OK; mem := None; compactions := 0; save_manifest := saved d;
                 edit := files d; max_sequence := sequence_so_far d |} with
      | Some (l, st) =>
          Some (status st, {| saved := save_manifest st; files := edit st; sequence_so_far := max_sequence st;
                              reused := match l with Some l => Some l | None => reused d end |})
      | None => None
      end
  end.

(** The loop of [Recover] over the logs, in the order of their numbers. *)
Fixpoint recover_logs (n fuel : nat) (logs : list (Status + G)) (appendable : option (F * Z)) : D Recovered Status :=
  match logs with
  | [] => dret Status_OK
  | log :: rest =>
      let! s := RecoverLogFile n fuel log (match rest with [] => true | _ => false end) appendable in
      if negb (ok s) then dret s else recover_logs n fuel rest appendable
  end.
End recover.
