(* ===== verification/DbRecoverProps.v ===== *)
(** Recovery: it comes to an end on whatever the files hold, and after a crash it finds all updates
    that were acknowledged, in order, and the group that was being written whole or not at all. *)
From Stdlib Require Import String.
From stdpp Require Import sorting relations.
From stdpp Require Import gmap relations.
From S2P Require Import Prelude Comparator Coding Status EnvPosix LogWriter LogReader LogReading LogProps DbFormat WriteBatch DbWrite DbWriteProps DbLog DbRecover.

(** ** Any bytes *)





Section recover.
Context {G : Type} {R : SequentialFile G} {B : FiniteFile G} {F : Type} {W : WritableFile F} (address : list Z -> Z).
Context {T : Type} {TT : Table T} {L : Type} {LT : Level0 T L}.
Context (paranoid_checks reuse_logs : bool) (write_buffer_size : Z).
Implicit Types st : Recovery (G := G) (T := T) (L := L).

Abbreviation recover_loop := (recover_loop address paranoid_checks write_buffer_size).
Abbreviation RecoverLogFile := (RecoverLogFile (F := F) address paranoid_checks reuse_logs write_buffer_size).

Definition level0_reliable : Prop := forall m l, exists l', WriteLevel0Table (T := T) (L := L) m l = Some (Status_OK, l').

(** What every turn keeps: without paranoid checks, on a disk that takes all tables, nothing is an
    error; and sequence numbers only go up. *)
Definition lenient : Prop := paranoid_checks = false /\ level0_reliable.
Definition keeps st st' : Prop := max_sequence st <= max_sequence st' /\ (lenient -> ok (status st) = true -> ok (status st') = true).

#[local] Instance keeps_preorder : PreOrder keeps.
Proof. split; [by intros st|]. intros a b c [H1 H2] [H3 H4]. split; [lia|auto]. Qed.







End recover.

(** ** After a crash *)

(** A disk that takes every table; [stored]: those it has, in order. *)
Class Level0Writes (T L : Type) {LT : Level0 T L} := {
  stored : L -> list T;
  level0_spec m l : exists l', WriteLevel0Table m l = Some (Status_OK, l') /\ stored l' = stored l ++ [m]
}.

Lemma log_layout_count off recs b e : log_layout off recs b e -> (length recs <= length b)%nat.
Proof.
  induction 1 as [|off record fs b m records b' e Hf Hl _ IH]; [cbn; lia|]. apply layout_length in Hl. apply fragmented_nonempty in Hf.
  rewrite length_app. cbn [length]. destruct fs; [done|]. cbn [length] in Hl. unfold len, kHeaderSize in Hl. lia.
Qed.

Section crash.
Context {G : Type} {R : SequentialFile G} {B : FiniteFile G} {F : Type} {W : WritableFile F} {AO : AppendOnly F} {DU : Durable F} (address : list Z -> Z).
Context {T : Type} {TT : Table T} {L : Type} {LT : Level0 T L} {LW : Level0Writes T L}.
Context (paranoid_checks reuse_logs : bool) (write_buffer_size : Z).
Implicit Types st : Recovery (G := G) (T := T) (L := L).

#[local] Existing Instance table_add.
Abbreviation recover_loop := (recover_loop address paranoid_checks write_buffer_size).

(** The tables written so far, and the one that is being filled. *)
Definition recovering (base : list T) (lo : Z) (nss : list (list (Z * update))) (cur : list (Z * update)) st : Prop :=
  status st = Status_OK /\ stored (edit st) = base ++ map table_of nss /\
  match mem st with Some m => m = table_of cur | None => cur = [] end /\ Forall (fun n => n.1 <= max_sequence st) (concat nss ++ cur) /\ lo <= max_sequence st.

Lemma recovering_reader base lo nss cur r st : recovering base lo nss cur st -> recovering base lo nss cur (set_reader r st).
Proof. done. Qed.

Lemma read_record_quiet fuel st x P : quiet (ReadRecord address fuel) (reader st) x P ->
  exists r, read_record address paranoid_checks fuel st = Some (x, set_reader r st) /\ P r.
Proof.
  intros (r & E & Hr & HP). exists r. unfold read_record. rewrite E, Hr. split; [|done]. by rewrite drop_ge by done.
Qed.

Lemma apply_batch rec seq us base lo nss cur st : batch rec seq us -> 0 <= seq -> seq + len us <= 2 ^ 56 -> len us < 2 ^ 30 -> recovering base lo nss cur st ->
  exists nss' cur' st', apply_record paranoid_checks write_buffer_size rec st = Some (true, st') /\ reader st' = reader st /\
    recovering base lo nss' cur' st' /\ concat nss' ++ cur' = (concat nss ++ cur) ++ number seq us.
Proof.
  intros Hb H0 Hs Hn (Est & Esto & Em & Hmax & Hlo). pose proof (len_nonneg us). destruct (batch_parts _ _ _ Hb) as (Hc & Hseq & _); [lia..|].
  unfold apply_record, insert_record, dbind at 1, SetContents. set (m0 := match mem st with Some m => m | None => new_table end).
  assert (E0 : m0 = table_of cur) by (unfold m0; destruct (mem st); [done|by subst cur]).
  rewrite (InsertInto_batch rec seq us m0 Hb) by lia. unfold dbind, dmodify, dget, dret. cbn [status set_status set_mem MaybeIgnoreError ok Status_OK orb negb].
  rewrite Hseq, Hc. set (last := u64 (seq + len us - 1)).
  set (m := add_updates seq us m0). assert (Em' : m = table_of (cur ++ number seq us)) by (unfold m, table_of; by rewrite add_updates_number, E0, add_all_app).
  match goal with |- context [if max_sequence ?x <? last then _ else ?y] => set (st1 := if max_sequence x <? last then set_max_sequence last y else y) end.
  assert (H1 : status st1 = Status_OK /\ stored (edit st1) = stored (edit st) /\ mem st1 = Some m /\ reader st1 = reader st /\
    max_sequence st <= max_sequence st1 /\ (us <> [] -> seq + len us - 1 <= max_sequence st1)).
  { assert (Hl : us <> [] -> last = seq + len us - 1).
    { intros Hne. apply u64_id. assert (len us <> 0) by (by intros ?%len_zero_nil). lia. }
    unfold st1. cbn [max_sequence set_status set_mem]. destruct (Z.ltb_spec (max_sequence st) last); cbn; split_and!; try done; try lia; intros Hne; rewrite <- Hl by done; lia. }
  destruct H1 as (Hst & Hsto & Hmem & Hr & Hge & Hlast).
  assert (Hall : Forall (fun n => n.1 <= max_sequence st1) ((concat nss ++ cur) ++ number seq us)).
  { apply Forall_app. split; [eapply Forall_impl; [exact Hmax|]; cbn; lia|]. apply Forall_forall. intros n Hin.
    destruct (decide (us = [])) as [->|Hne]; [by apply elem_of_nil in Hin|]. specialize (Hlast Hne).
    replace seq with (seq - 1 + 1) in Hin by lia. apply (ascending_range _ _ _ _ (ascending_number _ _)) in Hin. lia. }
  destruct (write_buffer_size <? table_usage m).
  - unfold write_level0. cbn [edit set_save_manifest set_compactions]. destruct (level0_spec m (edit st1)) as (l & -> & El).
    exists (nss ++ [cur ++ number seq us]), [], (set_mem None (set_status Status_OK (set_edit l (set_save_manifest true (set_compactions (compactions st1 + 1) st1))))).
    rewrite concat_app. cbn [concat]. rewrite !app_nil_r, app_assoc. split; [done|]. split; [exact Hr|]. split; [|done].
    unfold recovering. cbn. rewrite El, Hsto, Esto, map_app, <- app_assoc. cbn [map]. rewrite concat_app. cbn [concat]. rewrite !app_nil_r, <- Em'. split_and!; try done; try lia; by rewrite ?app_assoc.
  - exists nss, (cur ++ number seq us), st1. rewrite app_assoc. split; [done|]. split; [done|]. split; [|done]. unfold recovering. rewrite Hmem, Hsto, app_assoc. split_and!; done || lia.
Qed.

(** One more record that is a batch. *)
Lemma batch_turn n fuel rec seq us base lo nss cur st P : quiet (ReadRecord address fuel) (reader st) (Some rec) P ->
  batch rec seq us -> 0 <= seq -> seq + len us <= 2 ^ 56 -> len us < 2 ^ 30 -> recovering base lo nss cur st ->
  exists nss' cur' st', recover_loop (S n) fuel st = recover_loop n fuel st' /\ P (reader st') /\ recovering base lo nss' cur' st' /\
    concat nss' ++ cur' = (concat nss ++ cur) ++ number seq us.
Proof.
  intros Hq Hb H0 Hs Hn Hrec. destruct (read_record_quiet fuel st _ P Hq) as (r & E & HP).
  destruct (apply_batch rec seq us base lo nss cur (set_reader r st) Hb H0 Hs Hn Hrec) as (nss' & cur' & st' & Ea & Er & Hrec' & Ec).
  pose proof (batch_count _ _ _ Hb). pose proof (len_nonneg us).
  exists nss', cur', st'. split; [|by rewrite Er]. cbn [DbRecover.recover_loop]. unfold dbind at 1. rewrite E. unfold dbind at 1, dget.
  destruct Hrec as (Est & _). cbn [status set_reader]. rewrite Est. cbn [ok Status_OK negb]. rewrite (proj2 (Z.ltb_ge _ _)) by lia.
  unfold dbind. by rewrite Ea.
Qed.

Lemma end_turn n fuel st : quiet (ReadRecord address fuel) (reader st) None ended -> exists r, recover_loop (S n) fuel st = Some (tt, set_reader r st).
Proof.
  intros Hq. destruct (read_record_quiet fuel st _ _ Hq) as (r & E & _). exists r. cbn [DbRecover.recover_loop]. unfold dbind. by rewrite E.
Qed.

Lemma recover_batches off recs b e : log_layout off recs b e -> forall ns, batches recs ns -> forall k n fuel base lo nss cur st,
  at_ (reader st) off (b ++ k) -> (length b <= fuel)%nat -> recovering base lo nss cur st ->
  exists nss' cur' st', recover_loop (length recs + n) fuel st = recover_loop n fuel st' /\ at_ (reader st') e k /\
    recovering base lo nss' cur' st' /\ concat nss' ++ cur' = (concat nss ++ cur) ++ ns.
Proof.
  induction 1 as [off Ho|off record fs b m records b' e Hfr Hl Hl' IH]; intros ns Hb k n fuel base lo nss cur st Hat Hf Hrec.
  - inversion Hb; subst. exists nss, cur, st. by rewrite app_nil_r.
  - inversion Hb as [|? seq us ? ns' Hbt H0 Hs Hn Hbs]; subst. rewrite <- app_assoc in Hat. pose proof (layout_length _ _ _ _ Hl) as Hlen. rewrite length_app in Hf.
    pose proof (LogReading.read_record address record fs b m (b' ++ k) fuel (reader st) off Hfr Hl Hat ltac:(unfold len, kHeaderSize in Hlen; lia)) as Hq.
    destruct (batch_turn (length records + n) fuel record seq us base lo nss cur st _ Hq Hbt H0 Hs Hn Hrec) as (nss1 & cur1 & st1 & E1 & Hat1 & Hrec1 & Ec1).
    destruct (IH ns' Hbs k n fuel base lo nss1 cur1 st1 Hat1 ltac:(lia) Hrec1) as (nss2 & cur2 & st2 & E2 & Hat2 & Hrec2 & Ec2).
    exists nss2, cur2, st2. cbn [length Nat.add]. rewrite E1, E2, Ec2, Ec1, <- !app_assoc. done.
Qed.

Lemma recover_cut n fuel base lo st g ns ms : reader st = NewReader g true true 0 -> reliable g -> cut_log (ahead g) ns ms ->
  (length (ahead g) + 1 < n)%nat -> (length (ahead g) < fuel)%nat -> recovering base lo [] [] st ->
  exists nss cur st', recover_loop n fuel st = Some (tt, st') /\ recovering base lo nss cur st' /\ (concat nss ++ cur = ns \/ concat nss ++ cur = ns ++ ms).
Proof.
  intros Er Hg (recs & b & m & k & Hl & Hb & Ea & Hk) Hn Hf Hrec. rewrite Ea in Hn, Hf. rewrite length_app in Hn, Hf. pose proof (log_layout_count _ _ _ _ Hl) as Hcount.
  destruct (log_from_start _ _ _ Hl) as (m' & Hl' & Hfrom). pose proof (at_new g true true Hg) as Hat. rewrite Ea, <- Er in Hat.
  replace n with (length recs + S (S (n - length recs - 2)))%nat by lia. set (j := (n - length recs - 2)%nat).
  destruct (recover_batches _ _ _ _ Hl' ns Hb k (S (S j)) fuel base lo [] [] st Hat ltac:(lia) Hrec) as (nss1 & cur1 & st1 & E1 & Hat1 & Hrec1 & Ec1). cbn [concat app] in Ec1.
  assert (Hend : forall i nss cur st, recovering base lo nss cur st -> quiet (ReadRecord address fuel) (reader st) None ended ->
    exists st', recover_loop (S i) fuel st = Some (tt, st') /\ recovering base lo nss cur st').
  { intros i nss cur st0 H0 Hq. destruct (end_turn i fuel st0 Hq) as (r & E). by exists (set_reader r st0). }
  rewrite E1. destruct Hk as [->|(rec & fs & b' & e & Hfr & Hlay & Hbt & Hpre)].
  - destruct (Hend (S j) nss1 cur1 st1 Hrec1) as (st2 & E2 & Hrec2); [by eapply read_record_end; [exact Hat1|lia]|].
    exists nss1, cur1, st2. split; [done|]. split; [done|by left].
  - apply Hfrom in Hlay; [|by apply fragmented_nonempty in Hfr]. destruct (decide (k = b')) as [->|Hne].
    + inversion Hbt as [|? seq us ? ns' Hbt1 H0 Hs Hus Hnil]; subst. inversion Hnil; subst. rewrite app_nil_r. pose proof (layout_length _ _ _ _ Hlay) as Hlen.
      rewrite <- (app_nil_r b') in Hat1.
      pose proof (LogReading.read_record address rec fs b' e [] fuel (reader st1) m' Hfr Hlay Hat1 ltac:(unfold len, kHeaderSize in Hlen; lia)) as Hq.
      destruct (batch_turn (S j) fuel rec seq us base lo nss1 cur1 st1 _ Hq Hbt1 H0 Hs Hus Hrec1) as (nss2 & cur2 & st2 & E2 & Hat2 & Hrec2 & Ec2).
      destruct (Hend j nss2 cur2 st2 Hrec2) as (st3 & E3 & Hrec3); [by eapply read_record_end; [exact Hat2|lia]|].
      exists nss2, cur2, st3. rewrite E2. split; [done|]. split; [done|]. right. by rewrite Ec2.
    + destruct (Hend (S j) nss1 cur1 st1 Hrec1) as (st2 & E2 & Hrec2); [eapply read_record_cut; [exact Hfr|exact Hlay|exact Hat1|done|done|lia]|].
      exists nss1, cur1, st2. split; [done|]. split; [done|by left].
Qed.

Lemma finish_crash last_log (appendable : option (F * Z)) base lo nss cur st : recovering base lo nss cur st ->
  exists l st' nss', (let! l := reuse address reuse_logs last_log appendable in let! _ := write_rest in dret l) st = Some (l, st') /\
    status st' = Status_OK /\ max_sequence st' = max_sequence st /\ concat nss' = concat nss ++ cur /\
    stored (edit st') ++ match l with Some (_, m) => [m] | None => [] end = base ++ map table_of nss' /\ (last_log = false -> l = None).
Proof.
  intros (Est & Esto & Em & _).
  assert (Hw : exists st' nss', (let! _ := write_rest in dret None) st = Some (@None (Writer (F := F) * T), st') /\
    status st' = Status_OK /\ max_sequence st' = max_sequence st /\ concat nss' = concat nss ++ cur /\ stored (edit st') = base ++ map table_of nss').
  { unfold write_rest, dbind, dget, dmodify, dret. destruct (mem st) as [m|].
    - rewrite Est. cbn [ok Status_OK]. unfold write_level0. cbn [edit set_save_manifest]. destruct (level0_spec m (edit st)) as (l & -> & El).
      exists (set_mem None (set_status Status_OK (set_edit l (set_save_manifest true st)))), (nss ++ [cur]). rewrite concat_app. cbn. rewrite app_nil_r, El, Esto, map_app, Em, <- app_assoc. done.
    - exists st, nss. rewrite Em, app_nil_r. done. }
  unfold reuse. unfold dbind at 1. unfold dbind at 1, dget. rewrite Est. cbn [ok Status_OK andb].
  destruct (reuse_logs && last_log && (compactions st =? 0)) eqn:Er; [destruct appendable as [[f n]|]|].
  - exists (Some (NewWriterAt address f n, match mem st with Some m => m | None => new_table end)), (set_mem None st), (nss ++ [cur]).
    split; [done|]. split; [done|]. split; [done|]. change (edit (set_mem None st)) with (edit st). rewrite concat_app, map_app, Esto, <- app_assoc. cbn [concat map]. rewrite app_nil_r. split; [done|]. split.
    + do 3 f_equal. destruct (mem st); [done|by subst cur].
    + intros ->. by rewrite andb_false_r in Er.
  - destruct Hw as (st' & nss' & E & H1 & H2 & H3 & H4). exists None, st', nss'. rewrite app_nil_r. by split_and!.
  - destruct Hw as (st' & nss' & E & H1 & H2 & H3 & H4). exists None, st', nss'. rewrite app_nil_r. by split_and!.
Qed.

(** The tables after recovery: those on disk, and the one that goes on with the log. *)
Definition tables_after (d : Recovered (F := F) (T := T) (L := L)) : list T :=
  stored (files d) ++ match reused d with Some (_, m) => [m] | None => [] end.

Lemma recover_file n fuel g last_log (appendable : option (F * Z)) d ns ms : reliable g -> cut_log (ahead g) ns ms ->
  (length (ahead g) + 1 < n)%nat -> (length (ahead g) < fuel)%nat -> reused d = None ->
  exists d' nss, RecoverLogFile address paranoid_checks reuse_logs write_buffer_size n fuel (inr g) last_log appendable d = Some (Status_OK, d') /\
    tables_after d' = stored (files d) ++ map table_of nss /\ (concat nss = ns \/ concat nss = ns ++ ms) /\
    Forall (fun n => n.1 <= sequence_so_far d') (concat nss) /\ sequence_so_far d <= sequence_so_far d' /\ (last_log = false -> reused d' = None).
Proof.
  intros Hg Hcut Hn Hf Hd. unfold RecoverLogFile. unfold dbind at 1. match goal with |- context [DbRecover.recover_loop _ _ _ _ _ ?x] => set (st0 := x) end.
  assert (H0 : recovering (stored (files d)) (sequence_so_far d) [] [] st0) by (unfold recovering; cbn; rewrite app_nil_r; split_and!; done || lia).
  destruct (recover_cut n fuel (stored (files d)) (sequence_so_far d) st0 g ns ms eq_refl Hg Hcut Hn Hf H0) as (nss & cur & st1 & -> & H1 & Hc).
  destruct (finish_crash last_log appendable _ _ _ _ _ H1) as (l & st2 & nss' & -> & Est & Emax & Ec & Etab & Hl). destruct H1 as (_ & _ & _ & Hmax & Hlo).
  eexists _, nss'. split; [by rewrite Est|]. unfold tables_after. cbn. rewrite Emax, Ec. split; [by destruct l; [|rewrite Hd]|]. split_and!; try done.
  intros H. by rewrite (Hl H), Hd.
Qed.

(** ** A run, a crash, and recovery *)

Context (fresh : F -> Prop) (Hfresh : forall f, fresh f -> new_file f).
Implicit Types db : DB (F := F) (T := T).

(** The logs that are found: that of the full table, when there is one, and the one in use. *)
Definition logs_left db (logs : list G) : Prop :=
  match imm_ db with
  | None => exists g, logs = [g] /\ log_left address db (ahead g)
  | Some _ => exists old l g1 g, old_logs db = old ++ [l] /\ logs = [g1; g] /\ ahead g1 = written (dest l) /\ log_left address db (ahead g)
  end.

(** The updates of the group that is being written. *)
Definition in_progress db : list update :=
  match front db with Logging g | Syncing g | Applying g | Returning _ _ (Some g) => group_updates db g | _ => [] end.

Lemma progress_cases n0 db flushed ns : last_sequence db = n0 + len (all_updates (answered db)) ->
  flushed ++ ns = number (n0 + 1) (all_updates (answered db) ++ in_log db) -> forall all, (all = ns \/ all = ns ++ logging db) ->
  exists us, flushed ++ all = number (n0 + 1) us /\ (us = all_updates (answered db) \/ us = all_updates (answered db) ++ in_progress db).
Proof.
  intros El E all Hall. assert (H0 : exists us, flushed ++ ns = number (n0 + 1) us /\ (us = all_updates (answered db) \/ us = all_updates (answered db) ++ in_progress db)).
  { eexists. split; [exact E|]. unfold in_log, in_progress. destruct (front db) as [| |g|g|g|s e [g|]]; rewrite ?app_nil_r; auto. }
  destruct Hall as [->| ->]; [done|]. unfold in_log, logging, in_progress in *. destruct (front db) as [| |g|g|g|s e [g|]]; rewrite ?app_nil_r in *; try done.
  exists (all_updates (answered db) ++ group_updates db g). split; [|by right]. rewrite number_app, app_assoc, E. do 2 f_equal. lia.
Qed.

(** C1: The process stops at any moment of a run in which nothing has failed, also in the middle of
    adding a record to the log.  Recovering the logs it leaves, with whatever buffer size,
    paranoid or not, reusing the log or not, returns OK; and the tables that were written before,
    those that recovery writes and the one it goes on with hold, in order and with the numbers they
    had, exactly the updates that were acknowledged and then those of the group that was being
    written, all or none of them; later writes get greater numbers. *)
Theorem crash_recovery n0 db0 db buffer_size logs n fuel (appendable : option (F * Z)) d base :
  opened address fresh n0 db0 -> runs address buffer_size fresh db0 db -> clients_ok n0 db ->
  logs_left db logs -> Forall (fun g => reliable g /\ (length (ahead g) + 1 < n)%nat /\ (length (ahead g) < fuel)%nat) logs ->
  stored (files d) = base ++ flushed_ db -> reused d = None ->
  exists d' fls nss us, recover_logs address paranoid_checks reuse_logs write_buffer_size n fuel (map inr logs) appendable d = Some (Status_OK, d') /\
    flushed_ db = map table_of fls /\ tables_after d' = base ++ map table_of (fls ++ nss) /\ concat (fls ++ nss) = number (n0 + 1) us /\
    (us = all_updates (answered db) \/ us = all_updates (answered db) ++ in_progress db) /\
    Forall (fun n => n.1 <= sequence_so_far d') (concat nss).
Proof.
  intros Ho Hr Hc Hlogs Hg Hbase Hd. destruct (runs_durable address buffer_size fresh Hfresh n0 db0 db Ho Hr Hc) as (Hgood & _ & El & fls & immu & memu & Efl & Em & E & Hlog & Himm).
  unfold logs_left in Hlogs. destruct (imm_ db) as [imm|].
  - destruct Hlogs as (old & l & g1 & g & Eold & -> & Eg1 & Hleft). destruct Himm as (_ & old' & l' & Eold' & Hl).
    rewrite Eold in Eold'. apply app_inj_tail in Eold' as [_ <-]. apply Forall_cons in Hg as [(Hg1 & Hn1 & Hf1) Hg]. apply Forall_cons in Hg as [(Hg2 & Hn2 & Hf2) _].
    pose proof (log_holds_cut address l immu [] (ahead g1) Hl Eg1) as Hcut1. pose proof (log_left_cut address n0 db _ _ Hc Hgood Hlog Hleft) as Hcut2.
    destruct (recover_file n fuel g1 false appendable d immu [] Hg1 Hcut1 Hn1 Hf1 Hd) as (d1 & nss1 & E1 & Et1 & Ec1 & Hm1 & Hs1 & Hd1). specialize (Hd1 eq_refl).
    assert (Ec1' : concat nss1 = immu) by (rewrite app_nil_r in Ec1; tauto).
    destruct (recover_file n fuel g true appendable d1 _ _ Hg2 Hcut2 Hn2 Hf2 Hd1) as (d2 & nss2 & E2 & Et2 & Ec2 & Hm2 & Hs2 & _).
    rewrite app_assoc in E. destruct (progress_cases n0 db _ _ El E (concat nss2) Ec2) as (us & Eus & Hus).
    exists d2, fls, (nss1 ++ nss2), us. split_and!; [|done| | |done|].
    + cbn [map recover_logs]. unfold dbind. rewrite E1. cbn [ok Status_OK negb]. unfold dbind. by rewrite E2.
    + assert (stored (files d1) = tables_after d1) as Ef1 by (unfold tables_after; by rewrite Hd1, app_nil_r).
      by rewrite Et2, Ef1, Et1, Hbase, Efl, !map_app, <- !app_assoc.
    + by rewrite !concat_app, Ec1', app_assoc.
    + rewrite concat_app. apply Forall_app. split; [|done]. eapply Forall_impl; [exact Hm1|]. cbn. lia.
  - destruct Hlogs as (g & -> & Hleft). subst immu. apply Forall_cons in Hg as [(Hg2 & Hn2 & Hf2) _].
    pose proof (log_left_cut address n0 db _ _ Hc Hgood Hlog Hleft) as Hcut2.
    destruct (recover_file n fuel g true appendable d _ _ Hg2 Hcut2 Hn2 Hf2 Hd) as (d2 & nss2 & E2 & Et2 & Ec2 & Hm2 & _ & _).
    destruct (progress_cases n0 db _ _ El E (concat nss2) Ec2) as (us & Eus & Hus).
    exists d2, fls, nss2, us. split_and!; [|done| | |done|done].
    + cbn [map recover_logs]. unfold dbind. by rewrite E2.
    + by rewrite Et2, Hbase, Efl, map_app, <- app_assoc.
    + by rewrite concat_app.
Qed.
End crash.

(** A database on a disk: runs, for the witnesses of the theorems on writing, reading and recovery. *)
From S2P Require Import Arena SkipList SkipListLemmas MemTable MemTableProps DbGet.

Module DbOnDisk.
#[local] Existing Instance OnDisk.writable_file.
#[local] Existing Instance OnDisk.append_only.
#[local] Existing Instance OnDisk.sequential_file.
#[local] Existing Instance OnDisk.finite_file.
#[local] Instance durable_file : Durable PosixWritableFile :=
  posix_durable disk_error disk_patience disk_write disk_call disk_call disk_call disk_call disk_stored disk_write_documented disk_keeps disk_keeps disk_keeps disk_keeps.
#[local] Instance tables : Table (option MemTable) := memtables (A := bump_allocator) BytewiseComparator.
Definition T : Type := option MemTable.
Definition address : list Z -> Z := OnDisk.address.

(** A new file is one on an empty disk whose first [write] is cut short. *)
Definition fresh (f : PosixWritableFile (World := disk)) : Prop := f = OnDisk.create [Some 3%nat].
Lemma fresh_new f : fresh f -> new_file f.
Proof. intros ->. apply OnDisk.new_create. Qed.

Definition start : DB (F := PosixWritableFile (World := disk)) (T := T) :=
  {| writers_ := []; front := Asleep; acks := []; tmp_batch_ := Clear; log_ := NewWriter address (OnDisk.create [Some 3%nat]); old_logs := [];
     mem_ := new_table; imm_ := None; flushed_ := []; last_sequence := 7; level0_files := 0; bg_error_ := Status_OK |}.

Lemma start_opened : opened address fresh 7 start.
Proof. unfold opened. split_and!; try done. by exists (OnDisk.create [Some 3%nat]). Qed.

(** Two threads write; the second write is taken into the group of the first.  A third follows. *)
Definition first : QueuedWriter := {| thread := 1; batch_of := Some (Put [1] [10] (Put [2] [20] Clear)); sync := true |}.
Definition second : QueuedWriter := {| thread := 2; batch_of := Some (Delete [2] Clear); sync := false |}.
Definition third : QueuedWriter := {| thread := 3; batch_of := Some (Put [1] [11] Clear); sync := false |}.

Definition turn (m : DB (F := PosixWritableFile (World := disk)) (T := T) -> option DB) (db : DB) : DB := match m db with Some db' => db' | None => db end.
Definition room := room_turn (F := PosixWritableFile (World := disk)) (T := T) address 65536 (inl (Status_IOError [] [])).
Definition written_group : DB := turn return_turn (turn apply_turn (turn sync_turn (turn (log_turn address) (turn room (turn lead (enqueue second (enqueue first start))))))).
Definition logging_third : DB := turn room (turn lead (enqueue third written_group)).

Definition healthyb (db : DB (F := PosixWritableFile (World := disk)) (T := T)) : bool :=
  forallb (fun a => ok a.2) (acks db) && ok (bg_error_ db) && match front db with Returning s _ _ => ok s | _ => true end.
Lemma healthyb_spec db : healthyb db = true -> healthy db.
Proof.
  unfold healthyb. intros [[H1 H2]%andb_true_iff H3]%andb_true_iff. split; [|split; [done|by destruct (front db)]].
  apply Forall_forall. intros a Ha. rewrite forallb_forall in H1. by apply H1, list_elem_of_In.
Qed.

Abbreviation runs := (runs address 65536 fresh).
Lemma run_step db m c : step address 65536 fresh db (turn m db) -> healthyb (turn m db) = true -> runs (turn m db) c -> runs db c.
Proof. intros Hs Hh Hr. eapply rtc_l; [|exact Hr]. split; [done|by apply healthyb_spec]. Qed.
Lemma run_enqueue db w c : healthyb db = true -> runs (enqueue w db) c -> runs db c.
Proof. intros Hh Hr. eapply rtc_l; [|exact Hr]. split; [apply step_enqueue|]. by apply healthyb_spec. Qed.

Lemma runs_third : runs start logging_third.
Proof.
  unfold logging_third, written_group.
  apply (run_enqueue _ first); [vm_compute; reflexivity|]. apply (run_enqueue _ second); [vm_compute; reflexivity|].
  apply (run_step _ lead); [apply step_lead; vm_compute; reflexivity|vm_compute; reflexivity|].
  apply (run_step _ room); [apply (step_room _ _ _ (inl (Status_IOError [] []))); [done|vm_compute; reflexivity]|vm_compute; reflexivity|].
  apply (run_step _ (log_turn address)); [apply step_log; vm_compute; reflexivity|vm_compute; reflexivity|].
  apply (run_step _ sync_turn); [apply step_sync; vm_compute; reflexivity|vm_compute; reflexivity|].
  apply (run_step _ apply_turn); [apply step_apply; vm_compute; reflexivity|vm_compute; reflexivity|].
  apply (run_step _ return_turn); [apply step_return; vm_compute; reflexivity|vm_compute; reflexivity|].
  apply (run_enqueue _ third); [vm_compute; reflexivity|].
  apply (run_step _ lead); [apply step_lead; vm_compute; reflexivity|vm_compute; reflexivity|].
  apply (run_step _ room); [apply (step_room _ _ _ (inl (Status_IOError [] []))); [done|vm_compute; reflexivity]|vm_compute; reflexivity|].
  apply rtc_refl.
Qed.

Lemma client_built w us : batch_of w = Some (build us) -> Forall update_ok us -> len us < 2 ^ 31 -> len (build us) < 2 ^ 31 -> client_ok w /\ updates_of w = us.
Proof.
  intros Eb Hus Hn Hl. pose proof (build_batch us Hus Hn) as Hb. assert (E : updates_of w = us) by (unfold updates_of; rewrite Eb; by apply (decode_batch _ 0)).
  split; [|done]. unfold client_ok. rewrite Eb, E. by exists 0.
Qed.

Ltac client us := apply (client_built _ us); [reflexivity|repeat (apply List.Forall_cons; [cbn [update_ok]; repeat split; try (vm_compute; reflexivity); bytes_lit|]); apply List.Forall_nil|reflexivity|vm_compute; reflexivity].
Lemma clients_third : clients_ok 7 logging_third.
Proof.
  split; [lia|]. assert (E : submitted logging_third = [first; second; third]) by (vm_compute; reflexivity). rewrite E. split.
  - apply List.Forall_cons; [client [UPut [2] [20]; UPut [1] [10]]|]. apply List.Forall_cons; [client [UDelete [2]]|].
    apply List.Forall_cons; [client [UPut [1] [11]]|]. apply List.Forall_nil.
  - vm_compute. reflexivity.
Qed.

(** The third write is not yet acknowledged, the others are. *)
Lemma db_writes_serial_witness :
  clients_ok 7 logging_third /\ exists fls immu memu now, DbWriteProps.tables logging_third fls immu (memu ++ now) /\
    map snd (concat fls ++ immu ++ memu) = [UPut [2] [20]; UPut [1] [10]; UDelete [2]] /\ ascending 7 (concat fls ++ immu ++ memu) 10.
Proof.
  split; [exact clients_third|].
  destruct (db_writes_serial address 65536 fresh 7 start logging_third start_opened (runs_steps _ _ _ _ _ runs_third) clients_third)
    as (_ & fls & immu & memu & now & Ht & Ea & Hasc & _). exists fls, immu, memu, now. split; [exact Ht|]. split; [|exact Hasc].
  rewrite Ea. vm_compute. reflexivity.
Defined.

(** The third write goes on while a lookup looks into its tables. *)
Definition logged_third : DB := turn (log_turn address) logging_third.
Definition applied_third : DB := turn apply_turn logged_third.
Lemma steps_third : rtc (step address 65536 fresh) logging_third logged_third /\ rtc (step address 65536 fresh) logged_third applied_third.
Proof.
  split; apply rtc_once; [unfold logged_third; apply (step_log _ _ _ _ (turn (log_turn address) logging_third))|unfold applied_third; apply step_apply]; vm_compute; reflexivity.
Qed.
Lemma submitted_applied : submitted applied_third = submitted logging_third.
Proof. vm_compute. reflexivity. Qed.
Lemma clients_applied : clients_ok 7 applied_third.
Proof. destruct clients_third as (? & ? & ?). split; [lia|]. rewrite submitted_applied. by split. Qed.
Lemma storable_applied : Forall (storable BytewiseComparator) (all_updates (submitted applied_third)).
Proof.
  assert (E : all_updates (submitted applied_third) = [UPut [2] [20]; UPut [1] [10]; UDelete [2]; UPut [1] [11]]) by (vm_compute; reflexivity). rewrite E.
  repeat (apply List.Forall_cons; [cbn [storable]; repeat split; try (vm_compute; reflexivity); bytes_lit|]). apply List.Forall_nil.
Qed.

Lemma db_get_newest_witness : Forall byte [1] /\
  exists fls immu memu, flushed_ logging_third = map table_of fls /\
    map snd (concat fls ++ immu ++ memu) = [UPut [2] [20]; UPut [1] [10]; UDelete [2]] /\
    forall current, Get None [1] current logging_third logged_third applied_third =
      Some (match answer (newest [1] 10 (map entry_of (immu ++ memu))) with Some r => r | None => current (NewLookupKey [1] 10) end).
Proof.
  assert (Hu : Forall byte [1]) by bytes_lit. split; [exact Hu|].
  destruct (db_get_newest (A := bump_allocator) BytewiseComparator address 65536 fresh 7 start logging_third logged_third applied_third [1] None start_opened
    (runs_steps _ _ _ _ _ runs_third) (proj1 steps_third) (proj2 steps_third) clients_applied storable_applied Hu ltac:(reflexivity) ltac:(vm_compute; split; discriminate))
    as (fls & immu & memu & Ef & Ea & _ & [Hl|[(i & Hi & _)|Hget]]).
  - apply lost_none in Hl. vm_compute in Hl. discriminate.
  - vm_compute in Hi. discriminate.
  - exists fls, immu, memu. split; [exact Ef|]. split; [rewrite Ea; vm_compute; reflexivity|exact Hget].
Defined.
Example read_while_writing : Get None [1] (fun _ => inl (Status_NotFound [] [])) logging_third logged_third applied_third = Some (inr [10]) /\
  Get None [1] (fun _ => inl (Status_NotFound [] [])) applied_third applied_third applied_third = Some (inr [10]).
Proof. split; vm_compute; reflexivity. Qed.

(** Files of level 0, in memory. *)
#[local] Instance level0 : Level0 T (list T) := {| WriteLevel0Table m := fun l => Some (Status_OK, l ++ [m]) |}.
#[local] Instance level0_writes : Level0Writes T (list T).
Proof. refine {| stored := fun l => l |}. intros m l. by exists (l ++ [m]). Defined.

Definition closed : Recovered (F := PosixWritableFile (World := disk)) (T := T) (L := list T) :=
  {| saved := false; files := []; sequence_so_far := 7; reused := None |}.


(** A crash in the middle of the third record: it is not found. *)
Definition bytes_at_crash : list Z := take 60 (written (dest (log_ (turn (log_turn address) logging_third)))).
Lemma crash_recovery_witness :
  let logs := [OnDisk.reopen bytes_at_crash] in
  logs_left address logging_third logs /\ exists d' fls nss us,
    recover_logs (F := PosixWritableFile (World := disk)) address true false 65536 100 100 (map inr logs) None closed = Some (Status_OK, d') /\
    tables_after d' = map table_of (fls ++ nss) /\ concat (fls ++ nss) = number 8 us /\
    (us = [UPut [2] [20]; UPut [1] [10]; UDelete [2]] \/ us = [UPut [2] [20]; UPut [1] [10]; UDelete [2]] ++ [UPut [1] [11]]).
Proof.
  intros logs. assert (Hl : logs_left address logging_third logs).
  { unfold logs_left. assert (imm_ logging_third = None) as -> by (vm_compute; reflexivity). exists (OnDisk.reopen bytes_at_crash). split; [done|]. right.
    exists (turn (log_turn address) logging_third). split; [vm_compute; reflexivity|]. split.
    - exists (drop (length (written (dest (log_ logging_third)))) bytes_at_crash). vm_compute. reflexivity.
    - exists (drop 60 (written (dest (log_ (turn (log_turn address) logging_third))))). vm_compute. reflexivity. }
  split; [exact Hl|].
  destruct (crash_recovery address true false 65536 fresh fresh_new 7 start logging_third 65536 logs 100 100 None closed [] start_opened runs_third clients_third Hl)
    as (d' & fls & nss & us & E & _ & Et & Ec & Hus & _).
  - apply List.Forall_cons; [|apply List.Forall_nil]. split; [exact I|]. split; apply Nat.ltb_lt; vm_compute; reflexivity.
  - vm_compute. reflexivity.
  - reflexivity.
  - exists d', fls, nss, us. split; [exact E|]. split; [exact Et|]. split; [exact Ec|]. destruct Hus as [-> | ->]; [left|right]; vm_compute; reflexivity.
Defined.

(** A writer without a batch asks for the memory table to be written to a file.  Queued behind a
    write it is taken into that write's group, and is told OK without anything having been done. *)
Definition forcing : QueuedWriter := {| thread := 4; batch_of := None; sync := false |}.
Definition after_forcing : DB := turn return_turn (turn apply_turn (turn (log_turn address) (turn room (turn lead (enqueue forcing (enqueue third written_group)))))).
Example forced_compaction_skipped :
  map (fun a => (thread a.1, ok a.2)) (acks after_forcing) = [(1%nat, true); (2%nat, true); (3%nat, true); (4%nat, true)] /\
  writers_ after_forcing = [] /\ imm_ after_forcing = None /\ flushed_ after_forcing = [].
Proof. vm_compute. split_and!; reflexivity. Qed.
End DbOnDisk.
