(* ===== verification/EnvRandom.v ===== *)
(** Files that are read at random (leveldb-library/include/leveldb/env.h, util/env_posix.cc): the
    interface, what its clients rely on, and the two implementations on POSIX. *)
From Stdlib Require Import String.
From S2P Require Import Prelude Status EnvPosix.

(** [ReadAt offset n]: the status, [*result], and whether that is in [scratch].  [None]: memory is read
    that does not belong to the file. *)
Class RandomAccessFile (F : Type) := { ReadAt : Z -> Z -> D F (Status * list Z * bool) }.

(** While the world is as [inv] says, reads inside of the file succeed. *)
Class Serves (F : Type) {R : RandomAccessFile F} (file : list Z) (inv : F -> Prop) : Prop := {
  read_at_spec offset n f : inv f -> 0 <= offset -> 0 <= n -> offset + n <= len file ->
    exists b f', ReadAt offset n f = Some (Status_OK, take (Z.to_nat n) (drop (Z.to_nat offset) file), b, f') /\ inv f'
}.

(** ** [Limiter]: a number of resources *)

Definition Acquire (acquires_allowed : Z) : bool * Z :=
  let old_acquires_allowed := acquires_allowed in
  let acquires_allowed := acquires_allowed - 1 in
  if 0 <? old_acquires_allowed then (true, acquires_allowed) else (false, acquires_allowed + 1).
Definition Release (acquires_allowed : Z) : Z := acquires_allowed + 1.

Definition EINVAL : Z := 22.

Section posix.
Context {World : Type}.
Context (strerror : Z -> list Z).
(** [open(path, O_RDONLY)], [pread(fd, _, n, offset)] with the bytes read, [close], the size [stat]
    gives, and [mmap], with what the file holds. *)
Context (sys_open_read : list Z -> World -> Z * Z * World).
Context (sys_pread : Z -> Z -> Z -> World -> Z * list Z * Z * World).
Context (sys_close : Z -> World -> Z * Z * World).
Context (sys_stat : list Z -> World -> Z * Z * Z * World).
Context (sys_mmap : Z -> Z -> World -> option (list Z) * Z * World).

(** ** [PosixRandomAccessFile] *)

Record PosixRandomAccessFile := { has_permanent_fd_ : bool; ra_fd_ : Z; ra_filename_ : list Z; ra_world : World }.
Definition set_ra_world (w : World) (f : PosixRandomAccessFile) : PosixRandomAccessFile :=
  {| has_permanent_fd_ := has_permanent_fd_ f; ra_fd_ := ra_fd_ f; ra_filename_ := ra_filename_ f; ra_world := w |}.

(** The file, and what the limiter still allows. *)
Definition NewPosixRandomAccessFile (filename : list Z) (fd fd_limiter : Z) (w : World) : PosixRandomAccessFile * Z :=
  let '(permanent, fd_limiter) := Acquire fd_limiter in
  let w := if permanent then w else let '(_, _, w) := sys_close fd w in w in
  ({| has_permanent_fd_ := permanent; ra_fd_ := if permanent then fd else -1; ra_filename_ := filename; ra_world := w |}, fd_limiter).

Definition PosixRandomAccessFile_Read (offset n : Z) : D PosixRandomAccessFile (Status * list Z * bool) := fun f =>
  let w := ra_world f in
  let '(fd, errno, w) := if has_permanent_fd_ f then (ra_fd_ f, 0, w) else sys_open_read (ra_filename_ f) w in
  if negb (has_permanent_fd_ f) && (fd <? 0) then Some (PosixError strerror (ra_filename_ f) errno, [], true, set_ra_world w f)
  else
    let '(read_size, data, errno, w) := sys_pread fd n offset w in
    let result := if read_size <? 0 then [] else take (Z.to_nat read_size) data in
    let status := if read_size <? 0 then PosixError strerror (ra_filename_ f) errno else Status_OK in
    let w := if negb (has_permanent_fd_ f) then let '(_, _, w) := sys_close fd w in w else w in
    Some (status, result, true, set_ra_world w f).

#[export] Instance posix_random_access : RandomAccessFile PosixRandomAccessFile := { ReadAt := PosixRandomAccessFile_Read }.

(** ** [PosixMmapReadableFile] *)

(** [mmap_base_]: the bytes of the region, which are [length_] many. *)
Record PosixMmapReadableFile := { mmap_base_ : list Z; mm_filename_ : list Z }.
Definition length_ (f : PosixMmapReadableFile) : Z := len (mmap_base_ f).

Definition PosixMmapReadableFile_Read (offset n : Z) : D PosixMmapReadableFile (Status * list Z * bool) := fun f =>
  if length_ f <? u64 (offset + n) then Some (PosixError strerror (mm_filename_ f) EINVAL, [], false, f)
  else
    match bytes_at (mmap_base_ f) offset n with
    | None => None
    | Some result => Some (Status_OK, result, false, f)
    end.

#[export] Instance posix_mmap : RandomAccessFile PosixMmapReadableFile := { ReadAt := PosixMmapReadableFile_Read }.

(** What is mapped is served, where the file's length and a number of bytes to read do not overflow. *)
#[export] Instance mmap_serves (file : list Z) : Serves (R := posix_mmap) PosixMmapReadableFile file (fun f => mmap_base_ f = file /\ len file < 2 ^ 63).
Proof.
  split. intros offset n f [E Hl] Ho Hn Hs. cbn [ReadAt posix_mmap]. unfold PosixMmapReadableFile_Read, length_. rewrite E.
  rewrite u64_id, (proj2 (Z.ltb_ge _ _)), bytes_at_spec by lia. by exists false, f.
Qed.

(** ** [PosixEnv::NewRandomAccessFile] *)

Record limits := { mmap_limiter_ : Z; fd_limiter_ : Z }.

Definition GetFileSize (filename : list Z) (w : World) : Status * Z * World :=
  let '(r, size, errno, w) := sys_stat filename w in
  if negb (r =? 0) then (PosixError strerror filename errno, 0, w) else (Status_OK, size, w).

Definition NewRandomAccessFile (filename : list Z) (l : limits) (w : World) :
    Status * option (PosixRandomAccessFile + PosixMmapReadableFile) * limits * World :=
  let '(fd, errno, w) := sys_open_read filename w in
  if fd <? 0 then (PosixError strerror filename errno, None, l, w)
  else
    let '(acquired, mmap_limiter) := Acquire (mmap_limiter_ l) in
    if negb acquired then
      let '(f, fd_limiter) := NewPosixRandomAccessFile filename fd (fd_limiter_ l) w in
      (Status_OK, Some (inl f), {| mmap_limiter_ := mmap_limiter; fd_limiter_ := fd_limiter |}, ra_world f)
    else
      let '(status, file_size, w) := GetFileSize filename w in
      let '(status, result, w) :=
        if ok status then
          let '(mmap_base, errno, w) := sys_mmap fd file_size w in
          match mmap_base with
          | Some base => (status, Some (inr {| mmap_base_ := base; mm_filename_ := filename |}), w)
          | None => (PosixError strerror filename errno, None, w)
          end
        else (status, None, w) in
      let '(_, _, w) := sys_close fd w in
      let mmap_limiter := if negb (ok status) then Release mmap_limiter else mmap_limiter in
      (status, result, {| mmap_limiter_ := mmap_limiter; fd_limiter_ := fd_limiter_ l |}, w).
End posix.
