(* ===== verification/Iterator.v ===== *)
(** Iterators of LevelDB (leveldb-library/include/leveldb/iterator.h, table/iterator.cc,
    table/iterator_wrapper.h): the interface, what it promises, the iterator over nothing and the
    wrapper that caches.

    An iterator works in a world [W]: files, caches.  [None]: it reads outside of the memory it was
    given, or does not return. *)
From S2P Require Import Prelude Comparator Status.

Class Iterator (W I : Type) := {
  Valid : I -> bool;
  iter_key : I -> list Z;
  iter_value : I -> option (list Z);
  iter_status : I -> Status;
  SeekToFirst : I -> D W I;
  SeekToLast : I -> D W I;
  Seek : list Z -> I -> D W I;
  Next : I -> D W I;
  Prev : I -> D W I
}.
Arguments Valid {W I _}.
Arguments iter_key {W I _}.
Arguments iter_value {W I _}.
Arguments iter_status {W I _}.

(** ** What it promises *)

(** How many keys are before the target: the position of the first that is not. *)
Fixpoint lower_bound {C : Comparator} (target : list Z) (entries : list (list Z * list Z)) : nat :=
  match entries with
  | [] => 0
  | (k, _) :: entries => match Compare k target with Lt => S (lower_bound target entries) | _ => 0 end
  end.

(** Keys increase, and keys and values are bytes. *)
Record sorted_entries {C : Comparator} {CL : ComparatorLaws C} (entries : list (list Z * list Z)) : Prop := {
  entry_ok k v : (k, v) ∈ entries -> key_ok k /\ Forall byte v;
  entry_lt i j k v k' v' : entries !! i = Some (k, v) -> entries !! j = Some (k', v') -> (i < j)%nat -> Compare k k' = Lt
}.

Lemma sorted_entries_app {C : Comparator} {CL : ComparatorLaws C} es es' : sorted_entries (es ++ es') -> sorted_entries es /\ sorted_entries es'.
Proof.
  intros [Hok Hlt]. split; split.
  - intros k v Hin. apply Hok, elem_of_app. by left.
  - intros i j k v k' v' Hi Hj. by apply (Hlt i j k v k' v'); apply lookup_app_l_Some.
  - intros k v Hin. apply Hok, elem_of_app. by right.
  - intros i j k v k' v' Hi Hj Hij. apply (Hlt (length es + i)%nat (length es + j)%nat k v k' v'); [..|lia]; rewrite lookup_app_r by lia; by rewrite Nat.add_comm, Nat.add_sub.
Qed.

(** Every entry of the first part is before every entry of the second. *)
Lemma sorted_entries_lt {C : Comparator} {CL : ComparatorLaws C} es es' e e' : sorted_entries (es ++ es') -> e ∈ es -> e' ∈ es' -> Compare e.1 e'.1 = Lt.
Proof.
  intros [_ Hlt] [i Hi]%list_elem_of_lookup [j Hj]%list_elem_of_lookup. pose proof (lookup_lt_Some _ _ _ Hi). destruct e as [k v], e' as [k' v'].
  apply (Hlt i (length es + j)%nat k v k' v'); [by apply lookup_app_l_Some| |lia]. rewrite lookup_app_r by lia. by rewrite Nat.add_comm, Nat.add_sub.
Qed.

(** The iterators that [pos it i] holds of are at entry [i] of [entries], or at none when [i] is their
    number, and the operations move them, while the world is as [inv] says. *)
Class Walks {C : Comparator} {CL : ComparatorLaws C} {W I : Type} {IT : Iterator W I}
    (inv : W -> Prop) (entries : list (list Z * list Z)) (pos : I -> nat -> Prop) : Prop := {
  walk_valid it i : pos it i -> (i <= length entries)%nat /\ Valid it = bool_decide (i < length entries)%nat;
  walk_entry it i k v : pos it i -> entries !! i = Some (k, v) -> iter_key it = k /\ iter_value it = Some v;
  walk_status it i : pos it i -> ok (iter_status it) = true;
  walk_first it i w : pos it i -> inv w -> exists it' w', SeekToFirst it w = Some (it', w') /\ inv w' /\ pos it' 0%nat;
  walk_last it i w : pos it i -> inv w -> exists it' w', SeekToLast it w = Some (it', w') /\ inv w' /\ pos it' (pred (length entries));
  walk_seek target it i w : pos it i -> inv w -> key_ok target ->
    exists it' w', Seek target it w = Some (it', w') /\ inv w' /\ pos it' (lower_bound target entries);
  walk_next it i w : pos it i -> inv w -> (i < length entries)%nat -> exists it' w', Next it w = Some (it', w') /\ inv w' /\ pos it' (S i);
  walk_prev it i w : pos it i -> inv w -> (i < length entries)%nat -> exists it' w', Prev it w = Some (it', w') /\ inv w' /\
    pos it' (match i with O => length entries | S i => i end)
}.

(** The iterators of this type that are at a position, whatever is known of them. *)
Definition at_any {C : Comparator} {CL : ComparatorLaws C} {W I : Type} {IT : Iterator W I} (inv : W -> Prop) (entries : list (list Z * list Z)) (it : I) (i : nat) : Prop :=
  exists pos, Walks inv entries pos /\ pos it i.

#[export] Instance walks_any {C : Comparator} {CL : ComparatorLaws C} {W I : Type} {IT : Iterator W I} (inv : W -> Prop) entries : Walks inv entries (at_any inv entries).
Proof.
  split.
  - intros it i (pos & Hw & Hp). by apply (walk_valid (inv := inv) (pos := pos)).
  - intros it i k v (pos & Hw & Hp). by apply (walk_entry (inv := inv) (pos := pos)).
  - intros it i (pos & Hw & Hp). by apply (walk_status (inv := inv) (pos := pos) it i).
  - intros it i w (pos & Hw & Hp) Hi. destruct (walk_first (pos := pos) it i w Hp Hi) as (it' & w' & E & ? & ?). exists it', w'. split; [done|]. split; [done|]. by exists pos.
  - intros it i w (pos & Hw & Hp) Hi. destruct (walk_last (pos := pos) it i w Hp Hi) as (it' & w' & E & ? & ?). exists it', w'. split; [done|]. split; [done|]. by exists pos.
  - intros target it i w (pos & Hw & Hp) Hi Ht. destruct (walk_seek (pos := pos) target it i w Hp Hi Ht) as (it' & w' & E & ? & ?). exists it', w'. split; [done|]. split; [done|]. by exists pos.
  - intros it i w (pos & Hw & Hp) Hi Hl. destruct (walk_next (pos := pos) it i w Hp Hi Hl) as (it' & w' & E & ? & ?). exists it', w'. split; [done|]. split; [done|]. by exists pos.
  - intros it i w (pos & Hw & Hp) Hi Hl. destruct (walk_prev (pos := pos) it i w Hp Hi Hl) as (it' & w' & E & ? & ?). exists it', w'. split; [done|]. split; [done|]. by exists pos.
Qed.

(** ** The iterator over nothing *)

(** [EmptyIterator], with its status; [Next] and [Prev] may not be called. *)
#[export] Instance EmptyIterator (W : Type) : Iterator W Status := {
  Valid _ := false;
  iter_key _ := [];
  iter_value _ := None;
  iter_status s := s;
  SeekToFirst s := dret s;
  SeekToLast s := dret s;
  Seek _ s := dret s;
  Next _ := running;
  Prev _ := running
}.
Definition NewEmptyIterator : Status := Status_OK.
Definition NewErrorIterator (status : Status) : Status := status.

(** ** The wrapper *)

Section wrapper.
Context {W I : Type} {IT : Iterator W I}.

(** [iter_]: [None] is the null pointer. *)
Record IteratorWrapper := { iter_ : option I; valid_ : bool; wrapped_key_ : list Z }.

Definition Update (it : I) (w : IteratorWrapper) : IteratorWrapper :=
  {| iter_ := Some it; valid_ := Valid it; wrapped_key_ := if Valid it then iter_key it else wrapped_key_ w |}.
Definition Wrapper_Set (it : option I) (w : IteratorWrapper) : IteratorWrapper :=
  match it with
  | None => {| iter_ := None; valid_ := false; wrapped_key_ := wrapped_key_ w |}
  | Some it => Update it w
  end.
Definition NewWrapper (it : option I) : IteratorWrapper := Wrapper_Set it {| iter_ := None; valid_ := false; wrapped_key_ := [] |}.

Definition Wrapper_Valid (w : IteratorWrapper) : bool := valid_ w.
Definition Wrapper_key (w : IteratorWrapper) : list Z := wrapped_key_ w.
Definition Wrapper_value (w : IteratorWrapper) : option (list Z) := match iter_ w with Some it => iter_value it | None => None end.
(** Of a wrapper that is not null. *)
Definition Wrapper_status (w : IteratorWrapper) : Status := match iter_ w with Some it => iter_status it | None => Status_OK end.

(** An operation of the iterator, which may not be null, and then [Update]. *)
Definition wrapped (op : I -> D W I) (w : IteratorWrapper) : D W IteratorWrapper :=
  match iter_ w with
  | None => running
  | Some it => let! it := op it in dret (Update it w)
  end.
Definition Wrapper_SeekToFirst : IteratorWrapper -> D W IteratorWrapper := wrapped SeekToFirst.
Definition Wrapper_SeekToLast : IteratorWrapper -> D W IteratorWrapper := wrapped SeekToLast.
Definition Wrapper_Seek (k : list Z) : IteratorWrapper -> D W IteratorWrapper := wrapped (Seek k).
Definition Wrapper_Next : IteratorWrapper -> D W IteratorWrapper := wrapped Next.
Definition Wrapper_Prev : IteratorWrapper -> D W IteratorWrapper := wrapped Prev.
End wrapper.
Arguments IteratorWrapper I : clear implicits.

(** ** The bound of a seek *)

Section lower_bound.
Context {C : Comparator} (target : list Z).
Implicit Types es : list (list Z * list Z).

Lemma lower_bound_le es : (lower_bound target es <= length es)%nat.
Proof. induction es as [|[k v] es IH]; [done|]. cbn. destruct (Compare k target); lia. Qed.

Lemma lower_bound_before es i k v : es !! i = Some (k, v) -> (i < lower_bound target es)%nat -> Compare k target = Lt.
Proof.
  revert i. induction es as [|[k' v'] es IH]; intros i Hi Hlt; [done|]. cbn in Hlt. destruct (Compare k' target) eqn:E; try lia.
  destruct i as [|i]; [cbn in Hi; by simplify_eq|]. apply (IH i Hi). lia.
Qed.

Lemma lower_bound_at es k v : es !! lower_bound target es = Some (k, v) -> Compare k target <> Lt.
Proof.
  induction es as [|[k' v'] es IH]; [done|]. cbn. destruct (Compare k' target) eqn:E; cbn; [intros [= -> ->]; by rewrite E|done|intros [= -> ->]; by rewrite E].
Qed.

Lemma lower_bound_app_before es es' : Forall (fun e => Compare e.1 target = Lt) es -> lower_bound target (es ++ es') = (length es + lower_bound target es')%nat.
Proof. induction 1 as [|[k v] es Hk Hes IH]; [done|]. cbn in *. by rewrite Hk, IH. Qed.

Lemma lower_bound_app_after es es' : Forall (fun e => Compare e.1 target <> Lt) es' -> lower_bound target (es ++ es') = lower_bound target es.
Proof.
  intros H. induction es as [|[k v] es IH]; cbn; [|by rewrite IH]. destruct H as [|[k v] es' Hk]; [done|]. cbn in *. by destruct (Compare k target).
Qed.

Lemma lower_bound_unique es p : (p <= length es)%nat -> (forall q k v, (q < p)%nat -> es !! q = Some (k, v) -> Compare k target = Lt) ->
  (forall k v, es !! p = Some (k, v) -> Compare k target <> Lt) -> lower_bound target es = p.
Proof.
  revert p. induction es as [|[k v] es IH]; intros p Hp Hb Ha; [cbn in *; lia|]. destruct p as [|p]; cbn.
  - specialize (Ha k v eq_refl). by destruct (Compare k target).
  - rewrite (Hb 0%nat k v) by (try done; lia). f_equal. apply IH; [cbn in Hp; lia| |].
    + intros q k' v' Hq. apply (Hb (S q)). lia.
    + intros k' v'. apply (Ha k' v').
Qed.
End lower_bound.
