(* ===== verification/Block.v ===== *)
(** Blocks of LevelDB's tables (leveldb-library/table/block_builder.h and .cc, table/block.h and .cc):
    sorted entries, each without what its key shares with the key before, and at their end the
    offsets of the entries whose keys are whole.

    A position in a block is an offset.  Reading outside of the block is [None]. *)
From Stdlib Require Import String.
From S2P Require Import Prelude Coding Comparator Status Iterator.

(** ** The builder *)

Record BlockBuilder := { buffer_ : list Z; restarts_ : list Z; counter_ : Z; finished_ : bool; last_key_ : list Z }.

Definition NewBlockBuilder : BlockBuilder := {| buffer_ := []; restarts_ := [0]; counter_ := 0; finished_ := false; last_key_ := [] |}.
Definition Reset (b : BlockBuilder) : BlockBuilder := {| buffer_ := []; restarts_ := [0]; counter_ := 0; finished_ := false; last_key_ := [] |}.
Definition empty (b : BlockBuilder) : bool := len (buffer_ b) =? 0.

Definition CurrentSizeEstimate (b : BlockBuilder) : Z := len (buffer_ b) + len (restarts_ b) * 4 + 4.

(** The block, and the builder as it is left. *)
Definition Finish (b : BlockBuilder) : list Z * BlockBuilder :=
  let buffer := foldl PutFixed32 (buffer_ b) (restarts_ b) in
  let buffer := PutFixed32 buffer (u32 (len (restarts_ b))) in
  (buffer, {| buffer_ := buffer; restarts_ := restarts_ b; counter_ := counter_ b; finished_ := true; last_key_ := last_key_ b |}).

Definition shared_with (last_key_piece key : list Z) : nat :=
  let min_length := Nat.min (length last_key_piece) (length key) in common_prefix min_length last_key_piece key.

(** [block_restart_interval] is an option. *)
Definition Add (block_restart_interval : Z) (key value : list Z) (b : BlockBuilder) : BlockBuilder :=
  let '(shared, restarts, counter) :=
    if counter_ b <? block_restart_interval then (shared_with (last_key_ b) key, restarts_ b, counter_ b)
    else (0%nat, restarts_ b ++ [u32 (len (buffer_ b))], 0) in
  let non_shared := len key - Z.of_nat shared in
  let buffer := PutVarint32 (buffer_ b) (u32 (Z.of_nat shared)) in
  let buffer := PutVarint32 buffer (u32 non_shared) in
  let buffer := PutVarint32 buffer (u32 (len value)) in
  {| buffer_ := buffer ++ drop shared key ++ value; restarts_ := restarts; counter_ := counter + 1; finished_ := finished_ b;
     last_key_ := take shared (last_key_ b) ++ drop shared key |}.

(** ** The block *)

(** [data_] is the whole contents; [size_] 0 marks an error. *)
Record Block := { block_data : list Z; size_ : Z; restart_offset_ : Z }.

(** [DecodeFixed32(data_ + size_ - sizeof(uint32_t))], of at least four bytes. *)
Definition NumRestarts (data : list Z) : Z := DecodeFixed32 (drop (length data - 4) data).

Definition NewBlock (contents : list Z) : Block :=
  let size := len contents in
  if size <? 4 then {| block_data := contents; size_ := 0; restart_offset_ := 0 |}
  else
    let max_restarts_allowed := (size - 4) / 4 in
    if max_restarts_allowed <? NumRestarts contents then {| block_data := contents; size_ := 0; restart_offset_ := 0 |}
    else {| block_data := contents; size_ := size; restart_offset_ := u32 (size - u64 (u32 (1 + NumRestarts contents) * 4)) |}.

Record Entry := { shared : Z; non_shared : Z; value_length : Z }.

(** On what lies between [p] and [limit]; the lengths, and what lies behind them. *)
Definition DecodeEntry (l : list Z) : option (Entry * list Z) :=
  let checked (e : Entry) (rest : list Z) :=
    if u32 (len rest) <? u32 (non_shared e + value_length e) then None else Some (e, rest) in
  match l with
  | s :: n :: v :: rest =>
      if (s |. n) |. v <? 128 then checked {| shared := s; non_shared := n; value_length := v |} rest
      else
        match GetVarint32Ptr l with
        | None => None
        | Some (s, p) =>
            match GetVarint32Ptr p with
            | None => None
            | Some (n, p) =>
                match GetVarint32Ptr p with
                | None => None
                | Some (v, p) => checked {| shared := s; non_shared := n; value_length := v |} p
                end
            end
        end
  | _ => None
  end.

(** ** The iterator *)

(** [value_] is where it lies in [data_] with its size; [None] when it is the empty slice. *)
Record Iter := {
  data_ : list Z;
  it_restarts_ : Z;
  num_restarts_ : Z;
  current_ : Z;
  restart_index_ : Z;
  key_ : list Z;
  value_ : option (Z * Z);
  status_ : Status
}.
Definition set_current (c : Z) (it : Iter) : Iter := {| data_ := data_ it; it_restarts_ := it_restarts_ it; num_restarts_ := num_restarts_ it;
  current_ := c; restart_index_ := restart_index_ it; key_ := key_ it; value_ := value_ it; status_ := status_ it |}.
Definition set_restart_index (i : Z) (it : Iter) : Iter := {| data_ := data_ it; it_restarts_ := it_restarts_ it; num_restarts_ := num_restarts_ it;
  current_ := current_ it; restart_index_ := i; key_ := key_ it; value_ := value_ it; status_ := status_ it |}.
Definition set_key (k : list Z) (it : Iter) : Iter := {| data_ := data_ it; it_restarts_ := it_restarts_ it; num_restarts_ := num_restarts_ it;
  current_ := current_ it; restart_index_ := restart_index_ it; key_ := k; value_ := value_ it; status_ := status_ it |}.
Definition set_value (v : option (Z * Z)) (it : Iter) : Iter := {| data_ := data_ it; it_restarts_ := it_restarts_ it; num_restarts_ := num_restarts_ it;
  current_ := current_ it; restart_index_ := restart_index_ it; key_ := key_ it; value_ := v; status_ := status_ it |}.
Definition set_status (s : Status) (it : Iter) : Iter := {| data_ := data_ it; it_restarts_ := it_restarts_ it; num_restarts_ := num_restarts_ it;
  current_ := current_ it; restart_index_ := restart_index_ it; key_ := key_ it; value_ := value_ it; status_ := s |}.

Definition NewIter (data : list Z) (restarts num_restarts : Z) : Iter :=
  {| data_ := data; it_restarts_ := restarts; num_restarts_ := num_restarts; current_ := restarts; restart_index_ := num_restarts;
     key_ := []; value_ := None; status_ := Status_OK |}.

Definition Iter_Valid (it : Iter) : bool := current_ it <? it_restarts_ it.
Definition Iter_value (it : Iter) : option (list Z) :=
  match value_ it with None => Some [] | Some (offset, size) => bytes_at (data_ it) offset size end.

Section iter.
Context {C : Comparator}.

Definition NextEntryOffset : D Iter Z :=
  let! it := dget in
  match value_ it with Some (offset, size) => dret (u32 (offset + size)) | None => running end.

Definition GetRestartPoint (index : Z) : D Iter Z :=
  let! it := dget in
  let! b := dfrom (bytes_at (data_ it) (it_restarts_ it + u32 index * 4) 4) in
  dret (DecodeFixed32 b).

Definition SeekToRestartPoint (index : Z) : D Iter unit :=
  let! _ := dmodify (set_key []) in
  let! _ := dmodify (set_restart_index index) in
  let! offset := GetRestartPoint index in
  dmodify (set_value (Some (offset, 0))).

Definition CorruptionError : D Iter unit :=
  dmodify (fun it => set_value None (set_key [] (set_status (Status_Corruption (bytes_of "bad entry in block") [])
    (set_restart_index (num_restarts_ it) (set_current (it_restarts_ it) it))))).

(** The last loop of [ParseNextKey]. *)
Fixpoint pass_restarts (fuel : nat) : D Iter unit :=
  let! it := dget in
  if u32 (restart_index_ it + 1) <? num_restarts_ it then
    match fuel with
    | O => running
    | S fuel =>
        let! point := GetRestartPoint (restart_index_ it + 1) in
        if point <? current_ it then
          let! _ := dmodify (set_restart_index (u32 (restart_index_ it + 1))) in
          pass_restarts fuel
        else dret tt
    end
  else dret tt.

(** What lies between an offset and the restarts. *)
Definition entry_at (it : Iter) (p : Z) : list Z := drop (Z.to_nat p) (take (Z.to_nat (it_restarts_ it)) (data_ it)).

Definition ParseNextKey : D Iter bool :=
  let! next := NextEntryOffset in
  let! _ := dmodify (set_current next) in
  let! it := dget in
  let p := current_ it in
  if it_restarts_ it <=? p then
    let! _ := dmodify (set_current (it_restarts_ it)) in
    let! _ := dmodify (set_restart_index (num_restarts_ it)) in
    dret false
  else
    match DecodeEntry (entry_at it p) with
    | None => let! _ := CorruptionError in dret false
    | Some (e, rest) =>
        if len (key_ it) <? shared e then let! _ := CorruptionError in dret false
        else
          let p := it_restarts_ it - len rest in
          let! delta := dfrom (bytes_at (data_ it) p (non_shared e)) in
          let! _ := dmodify (set_key (take (Z.to_nat (shared e)) (key_ it) ++ delta)) in
          let! _ := dmodify (set_value (Some (p + non_shared e, value_length e))) in
          let! _ := pass_restarts (Z.to_nat (num_restarts_ it)) in
          dret true
    end.

(** [while (ParseNextKey() && NextEntryOffset() < bound)]: no more entries than bytes. *)
Fixpoint skip_until (fuel : nat) (bound : Z) : D Iter unit :=
  match fuel with
  | O => running
  | S fuel =>
      let! more := ParseNextKey in
      if more then
        let! next := NextEntryOffset in
        if next <? bound then skip_until fuel bound else dret tt
      else dret tt
  end.
Definition entries_fuel (it : Iter) : nat := S (length (data_ it)).

Definition Iter_Next : D Iter unit := let! _ := ParseNextKey in dret tt.

(** The first loop of [Prev]: whether there is an entry before. *)
Fixpoint back_up (fuel : nat) (original : Z) : D Iter bool :=
  let! it := dget in
  let! point := GetRestartPoint (restart_index_ it) in
  if original <=? point then
    if restart_index_ it =? 0 then
      let! _ := dmodify (set_current (it_restarts_ it)) in
      let! _ := dmodify (set_restart_index (num_restarts_ it)) in
      dret false
    else
      match fuel with
      | O => running
      | S fuel => let! _ := dmodify (set_restart_index (u32 (restart_index_ it - 1))) in back_up fuel original
      end
  else dret true.

Definition Iter_Prev : D Iter unit :=
  let! it := dget in
  let original := current_ it in
  let! found := back_up (Z.to_nat (restart_index_ it)) original in
  if found then
    let! it := dget in
    let! _ := SeekToRestartPoint (restart_index_ it) in
    skip_until (entries_fuel it) original
  else dret tt.

(** The binary search; [None] when it has found an error. *)
Fixpoint bisect (fuel : nat) (target : list Z) (left_ right_ : Z) : D Iter (option Z) :=
  if left_ <? right_ then
    match fuel with
    | O => running
    | S fuel =>
        let mid := u32 (u32 (left_ + right_) + 1) / 2 in
        let! region_offset := GetRestartPoint mid in
        let! it := dget in
        match DecodeEntry (entry_at it region_offset) with
        | None => let! _ := CorruptionError in dret None
        | Some (e, rest) =>
            if negb (shared e =? 0) then let! _ := CorruptionError in dret None
            else
              let! mid_key := dfrom (bytes_at (data_ it) (it_restarts_ it - len rest) (non_shared e)) in
              match Compare mid_key target with
              | Lt => bisect fuel target mid right_
              | _ => bisect fuel target left_ (u32 (mid - 1))
              end
        end
    end
  else dret (Some left_).

Fixpoint scan (fuel : nat) (target : list Z) : D Iter unit :=
  match fuel with
  | O => running
  | S fuel =>
      let! more := ParseNextKey in
      if more then
        let! it := dget in
        match Compare (key_ it) target with Lt => scan fuel target | _ => dret tt end
      else dret tt
  end.

Definition Iter_Seek (target : list Z) : D Iter unit :=
  let! it := dget in
  let! found := bisect (Z.to_nat (num_restarts_ it)) target 0 (u32 (num_restarts_ it - 1)) in
  match found with
  | None => dret tt
  | Some point =>
      let! _ := SeekToRestartPoint point in
      scan (entries_fuel it) target
  end.

Definition Iter_SeekToFirst : D Iter unit :=
  let! _ := SeekToRestartPoint 0 in
  let! _ := ParseNextKey in
  dret tt.

Definition Iter_SeekToLast : D Iter unit :=
  let! it := dget in
  let! _ := SeekToRestartPoint (u32 (num_restarts_ it - 1)) in
  skip_until (entries_fuel it) (it_restarts_ it).

(** ** As an iterator *)

Definition in_world {W} (m : D Iter unit) (it : Iter) : D W Iter := fun w => match m it with Some (_, it) => Some (it, w) | None => None end.

#[export] Instance BlockIter (W : Type) : Iterator W Iter := {
  Valid := Iter_Valid;
  iter_key := key_;
  iter_value := Iter_value;
  iter_status := status_;
  SeekToFirst := in_world Iter_SeekToFirst;
  SeekToLast := in_world Iter_SeekToLast;
  Seek target := in_world (Iter_Seek target);
  Next := in_world Iter_Next;
  Prev := in_world Iter_Prev
}.
End iter.

(** The iterator over nothing, or one over the block. *)
Definition NewIterator (b : Block) : Status + Iter :=
  if size_ b <? 4 then inl (NewErrorIterator (Status_Corruption (bytes_of "bad block contents") []))
  else
    let num_restarts := NumRestarts (block_data b) in
    if num_restarts =? 0 then inl NewEmptyIterator else inr (NewIter (block_data b) (restart_offset_ b) num_restarts).
