(* ===== verification/BlockProps.v ===== *)
(** What a block looks like, and reading one. *)
From Stdlib Require Import String.
From stdpp Require Import list.
From S2P Require Import Prelude PbIstream Comparator Coding Status Iterator Block.

(** An entry, and how many bytes its key shares with the key before. *)
Record placed := { pl_key : list Z; pl_value : list Z; pl_shared : nat }.

Definition entry_code (p : placed) : list Z :=
  EncodeVarint32 (Z.of_nat (pl_shared p)) ++ EncodeVarint32 (len (pl_key p) - Z.of_nat (pl_shared p)) ++ EncodeVarint32 (len (pl_value p)) ++
  drop (pl_shared p) (pl_key p) ++ pl_value p.
Definition codes (pl : list placed) : list Z := concat (map entry_code pl).
Definition offset (pl : list placed) (i : nat) : Z := len (codes (take i pl)).
Definition placed_entry (p : placed) : list Z * list Z := (pl_key p, pl_value p).

Definition shares (prev : list Z) (p : placed) : Prop :=
  (pl_shared p <= length prev)%nat /\ (pl_shared p <= length (pl_key p))%nat /\ take (pl_shared p) prev = take (pl_shared p) (pl_key p).

(** Every key shares with the one before what it says. *)
Fixpoint chained (prev : list Z) (pl : list placed) : Prop :=
  match pl with [] => True | p :: pl => shares prev p /\ chained (pl_key p) pl end.

(** The places [rs] of the restart points: keys that are whole, the first among them. *)
Record restarts_of (pl : list placed) (rs : list nat) : Prop := {
  restarts_first : exists rest, rs = 0%nat :: rest;
  restarts_sorted i k r r' : rs !! i = Some r -> rs !! k = Some r' -> (i < k)%nat -> (r < r')%nat;
  restarts_whole : Forall (fun r => ((r < length pl)%nat \/ r = 0%nat /\ pl = []) /\ forall p, pl !! r = Some p -> pl_shared p = 0%nat) rs
}.

Definition block_bytes (pl : list placed) (rs : list nat) : list Z :=
  codes pl ++ fixed_array (map (offset pl) rs) ++ EncodeFixed32 (len rs).

(** ** Offsets *)

Lemma codes_app pl pl' : codes (pl ++ pl') = codes pl ++ codes pl'.
Proof. unfold codes. by rewrite map_app, concat_app. Qed.

Lemma codes_split pl i : codes pl = codes (take i pl) ++ codes (drop i pl).
Proof. by rewrite <- codes_app, take_drop. Qed.

Lemma offset_0 pl : offset pl 0 = 0.
Proof. unfold offset. by rewrite take_0. Qed.

Lemma offset_all pl : offset pl (length pl) = len (codes pl).
Proof. unfold offset. by rewrite take_ge. Qed.

Lemma offset_S pl i p : pl !! i = Some p -> offset pl (S i) = offset pl i + len (entry_code p).
Proof.
  intros Hp. unfold offset. rewrite (take_S_r _ _ _ Hp), codes_app, len_app. unfold codes at 2. cbn. by rewrite app_nil_r.
Qed.

Lemma EncodeVarint32_pos v : 1 <= len (EncodeVarint32 v).
Proof. unfold EncodeVarint32. repeat (destruct (v <? _); [by rewrite ?len_cons, (@len_nil Z); lia|]). rewrite !len_cons, (@len_nil Z). lia. Qed.

Lemma entry_code_pos p : 3 <= len (entry_code p).
Proof.
  unfold entry_code. rewrite !len_app. pose proof (EncodeVarint32_pos (Z.of_nat (pl_shared p))). pose proof (EncodeVarint32_pos (len (pl_key p) - Z.of_nat (pl_shared p))).
  pose proof (EncodeVarint32_pos (len (pl_value p))). pose proof (len_nonneg (drop (pl_shared p) (pl_key p))). pose proof (len_nonneg (pl_value p)). lia.
Qed.

Lemma offset_mono pl i j : (i <= j)%nat -> offset pl i <= offset pl j.
Proof.
  intros H. unfold offset. replace (take i pl) with (take i (take j pl)) by (rewrite take_take; f_equal; lia).
  rewrite (codes_split (take j pl) i), len_app. pose proof (len_nonneg (codes (drop i (take j pl)))). lia.
Qed.

Lemma offset_lt pl i j : (i < j)%nat -> (j <= length pl)%nat -> offset pl i + 3 <= offset pl j.
Proof.
  intros H Hj. destruct (lookup_lt_is_Some_2 pl i ltac:(lia)) as [p Hp]. pose proof (offset_S pl i p Hp). pose proof (entry_code_pos p).
  pose proof (offset_mono pl (S i) j ltac:(lia)). lia.
Qed.

Lemma offset_nonneg pl i : 0 <= offset pl i.
Proof. apply len_nonneg. Qed.

Lemma offset_le_all pl i : (i <= length pl)%nat -> offset pl i <= len (codes pl).
Proof. intros H. rewrite <- offset_all. by apply offset_mono. Qed.

Lemma drop_codes pl i : (i <= length pl)%nat -> drop (Z.to_nat (offset pl i)) (codes pl) = codes (drop i pl).
Proof. intros H. rewrite (codes_split pl i). unfold offset. by rewrite len_to_nat, drop_app_length. Qed.

Lemma codes_cons i pl p : pl !! i = Some p -> codes (drop i pl) = entry_code p ++ codes (drop (S i) pl).
Proof. intros Hp. by rewrite (drop_S _ _ _ Hp). Qed.

Lemma chained_lookup prev pl i p : chained prev pl -> pl !! i = Some p ->
  shares (match i with O => prev | S i => default [] (pl_key <$> pl !! i) end) p.
Proof.
  revert prev i. induction pl as [|q pl IH]; intros prev i Hc Hi; [done|]. destruct Hc as [Hq Hc]. destruct i as [|i]; [by injection Hi as <-|].
  specialize (IH _ i Hc Hi). by destruct i.
Qed.

(** A key is not longer than the entries up to its own. *)
Lemma chained_length prev pl i p : chained prev pl -> pl !! i = Some p -> len (pl_key p) <= len prev + offset pl (S i).
Proof.
  revert prev i. induction pl as [|q pl IH]; intros prev i Hc Hi; [done|]. destruct Hc as [(H1 & H2 & _) Hc].
  assert (Hq : len (pl_key q) <= len prev + len (entry_code q)).
  { unfold entry_code. rewrite !len_app, len_drop. pose proof (len_nonneg (EncodeVarint32 (Z.of_nat (pl_shared q)))).
    pose proof (len_nonneg (EncodeVarint32 (len (pl_key q) - Z.of_nat (pl_shared q)))). pose proof (len_nonneg (EncodeVarint32 (len (pl_value q)))).
    pose proof (len_nonneg (pl_value q)). unfold len in *. lia. }
  assert (Ho : forall n, offset (q :: pl) (S n) = len (entry_code q) + offset pl n) by (intros n; unfold offset; cbn [take]; unfold codes; cbn [map concat]; by rewrite len_app).
  rewrite Ho. destruct i as [|i]; [injection Hi as <-; rewrite offset_0; lia|]. specialize (IH _ i Hc Hi). lia.
Qed.

(** ** Bytes of the block *)

Section bytes.
Context (pl : list placed) (rs : list nat).
Let data := block_bytes pl rs.
Context (Hsize : len data < 2 ^ 32).
Context (Hbytes : Forall (fun p => Forall byte (pl_key p) /\ Forall byte (pl_value p)) pl).

Lemma len_data : len data = len (codes pl) + 4 * len rs + 4.
Proof.
  unfold data, block_bytes. rewrite !len_app, len_fixed_array, len_map. unfold len at 3. rewrite EncodeFixed32_length. lia.
Qed.

Lemma offset_32 i : 0 <= offset pl i < 2 ^ 32.
Proof.
  split; [apply offset_nonneg|]. pose proof len_data. pose proof (len_nonneg rs).
  assert (offset pl i <= len (codes pl)); [|lia]. destruct (Nat.le_gt_cases i (length pl)); [by apply offset_le_all|].
  unfold offset. rewrite take_ge by lia. lia.
Qed.

Lemma len_rs_32 : 0 <= len rs < 2 ^ 30 - 1.
Proof. pose proof len_data. pose proof (len_nonneg rs). pose proof (len_nonneg (codes pl)). lia. Qed.

Lemma restart_bytes i r : rs !! i = Some r -> bytes_at data (len (codes pl) + Z.of_nat i * 4) 4 = Some (EncodeFixed32 (offset pl r)).
Proof. intros Hi. apply fixed_array_at. by rewrite list_lookup_fmap, Hi. Qed.

Lemma NumRestarts_block : NumRestarts data = len rs.
Proof.
  unfold NumRestarts, data, block_bytes. rewrite app_assoc, (length_app _ (EncodeFixed32 _)), EncodeFixed32_length, Nat.add_sub, drop_app_length.
  apply DecodeFixed32_encode. pose proof len_rs_32. lia.
Qed.

Lemma codes_byte l : Forall (fun p => Forall byte (pl_key p) /\ Forall byte (pl_value p) /\ (pl_shared p <= length (pl_key p))%nat) l -> Forall byte (codes l).
Proof.
  induction 1 as [|p l (Hk & Hv & Hs) Hl IH]; [constructor|]. unfold codes. cbn [map concat]. apply Forall_app. split; [|exact IH].
  unfold entry_code. pose proof (len_nonneg (pl_value p)). repeat (apply Forall_app; split); [apply EncodeVarint32_byte..| |done]. by apply Forall_drop.
Qed.
End bytes.

(** ** Decoding an entry *)

(** The fast path is the slow one. *)
Definition DecodeEntry_slow (l : list Z) : option (Entry * list Z) :=
  match GetVarint32Ptr l with
  | None => None
  | Some (s, p) =>
      match GetVarint32Ptr p with
      | None => None
      | Some (n, p) =>
          match GetVarint32Ptr p with
          | None => None
          | Some (v, p) =>
              if u32 (len p) <? u32 (n + v) then None else Some ({| shared := s; non_shared := n; value_length := v |}, p)
          end
      end
  end.

Lemma small_byte b : byte b -> b < 128 -> b &. 128 = 0.
Proof.
  intros Hb H. assert (Hf := byte_forall (fun b => (128 <=? b) || (b &. 128 =? 0)) ltac:(vm_compute; reflexivity) b Hb).
  apply orb_true_iff in Hf as [Hf%Z.leb_le|Hf%Z.eqb_eq]; [lia|done].
Qed.

Lemma lor_small a b : byte a -> byte b -> a |. b < 128 -> a < 128 /\ b < 128.
Proof.
  intros Ha Hb H. assert (Hf := byte_forall2 (fun a b => (128 <=? a |. b) || ((a <? 128) && (b <? 128))) ltac:(vm_compute; reflexivity) a b Ha Hb).
  apply orb_true_iff in Hf as [Hf%Z.leb_le|Hf]; [lia|]. by apply andb_true_iff in Hf as [?%Z.ltb_lt ?%Z.ltb_lt].
Qed.

Lemma lor_byte a b : byte a -> byte b -> byte (a |. b).
Proof.
  intros Ha Hb. assert (Hf := byte_forall2 (fun a b => (0 <=? a |. b) && (a |. b <? 256)) ltac:(vm_compute; reflexivity) a b Ha Hb).
  unfold byte. by apply andb_true_iff in Hf as [?%Z.leb_le ?%Z.ltb_lt].
Qed.

Lemma DecodeEntry_path l : Forall byte l -> (3 <= length l)%nat -> DecodeEntry l = DecodeEntry_slow l.
Proof.
  intros Hb Hl. destruct l as [|s [|n [|v l]]]; cbn [length] in Hl; try lia. apply Forall_cons in Hb as [Hs Hb]. apply Forall_cons in Hb as [Hn Hb]. apply Forall_cons in Hb as [Hv Hb].
  unfold DecodeEntry. destruct (Z.ltb_spec ((s |. n) |. v) 128) as [Hsm|]; [|reflexivity].
  apply lor_small in Hsm as [Hsn Hv']; [|by apply lor_byte|done]. apply lor_small in Hsn as [Hs' Hn']; [|done..].
  unfold DecodeEntry_slow, GetVarint32Ptr. rewrite (small_byte s) by done. cbn [Z.eqb]. rewrite (small_byte n) by done. cbn [Z.eqb].
  rewrite (small_byte v) by done. reflexivity.
Qed.

Lemma GetVarint32Ptr_put v rest : 0 <= v < 2 ^ 32 -> Forall byte rest -> GetVarint32Ptr (EncodeVarint32 v ++ rest) = Some (v, rest).
Proof.
  intros Hv Hr. pose proof (get_put_varint32 v rest Hv Hr) as H. unfold GetVarint32 in H. by destruct (GetVarint32Ptr _) as [[]|]; simplify_eq.
Qed.

(** An entry is decoded to its lengths, whatever follows. *)
Lemma DecodeEntry_code p rest : Forall byte (pl_key p) -> Forall byte (pl_value p) -> Forall byte rest -> (pl_shared p <= length (pl_key p))%nat ->
  len (pl_key p) < 2 ^ 32 -> len (entry_code p) + len rest < 2 ^ 32 ->
  DecodeEntry (entry_code p ++ rest) =
    Some ({| shared := Z.of_nat (pl_shared p); non_shared := len (pl_key p) - Z.of_nat (pl_shared p); value_length := len (pl_value p) |},
          drop (pl_shared p) (pl_key p) ++ pl_value p ++ rest).
Proof.
  intros Hk Hv Hr Hs Hkl Hlen. pose proof (len_nonneg (pl_key p)). pose proof (codes_byte [p] ltac:(by repeat constructor)) as Hc. unfold codes in Hc. cbn in Hc. rewrite app_nil_r in Hc.
  pose proof (entry_code_pos p) as Hp. rewrite DecodeEntry_path; [|by apply Forall_app|unfold len in Hp; rewrite length_app; lia].
  unfold entry_code in *. rewrite !len_app in Hlen. repeat (apply Forall_app in Hc as [? Hc]).
  pose proof (EncodeVarint32_pos (Z.of_nat (pl_shared p))). pose proof (EncodeVarint32_pos (len (pl_key p) - Z.of_nat (pl_shared p))).
  pose proof (EncodeVarint32_pos (len (pl_value p))). pose proof (len_nonneg (pl_value p)). pose proof (len_nonneg rest).
  assert (Hd : len (drop (pl_shared p) (pl_key p)) = len (pl_key p) - Z.of_nat (pl_shared p)) by (rewrite len_drop; unfold len; lia).
  pose proof (len_nonneg (drop (pl_shared p) (pl_key p))).
  unfold DecodeEntry_slow. rewrite <- !app_assoc, !GetVarint32Ptr_put by (first [unfold len in *; lia | by repeat apply Forall_app_2]).
  rewrite (proj2 (Z.ltb_ge _ _)); [done|]. rewrite !len_app, Hd, !u32_id by lia. lia.
Qed.

(** The iterator of a block on a block as the builder makes them. *)

Section reading.
Context {C : Comparator} {CL : ComparatorLaws C}.
Context (pl : list placed) (rs : list nat).
Context (Hsize : len (block_bytes pl rs) < 2 ^ 32).
Context (Hbytes : Forall (fun p => Forall byte (pl_key p) /\ Forall byte (pl_value p)) pl).
Context (Hchain : chained [] pl) (Hrs : restarts_of pl rs).

(** An iterator of this block, without error. *)
Record on_block (it : Iter) : Prop := {
  on_data : data_ it = block_bytes pl rs;
  on_restarts : it_restarts_ it = len (codes pl);
  on_num : num_restarts_ it = len rs;
  on_status : status_ it = Status_OK
}.

(** The restart index is one of an entry that is not behind [j]. *)
Definition restart_before (it : Iter) (j : nat) : Prop :=
  exists i r, restart_index_ it = Z.of_nat i /\ rs !! i = Some r /\ (r <= j)%nat.

(** The next entry to parse is [j]. *)
Record ready (it : Iter) (j : nat) : Prop := {
  ready_block : on_block it;
  ready_le : (j <= length pl)%nat;
  ready_value : exists o s, value_ it = Some (o, s) /\ o + s = offset pl j;
  ready_restart : restart_before it j;
  ready_key : forall p, pl !! j = Some p -> (pl_shared p <= length (key_ it))%nat /\ take (pl_shared p) (key_ it) = take (pl_shared p) (pl_key p)
}.

(** At entry [j]. *)
Record at_entry (it : Iter) (j : nat) (p : placed) : Prop := {
  at_block : on_block it;
  at_lookup : pl !! j = Some p;
  at_current : current_ it = offset pl j;
  at_key : key_ it = pl_key p;
  at_value : value_ it = Some (offset pl (S j) - len (pl_value p), len (pl_value p));
  at_restart : restart_before it j
}.

Definition at_end (it : Iter) : Prop := on_block it /\ current_ it = len (codes pl).

Lemma key_small j p : pl !! j = Some p -> len (pl_key p) < 2 ^ 32.
Proof.
  intros Hp. pose proof (chained_length _ _ _ _ Hchain Hp) as H. rewrite (@len_nil Z) in H. pose proof (lookup_lt_Some _ _ _ Hp).
  pose proof (offset_le_all pl (S j) ltac:(lia)). pose proof (len_data pl rs). pose proof (len_nonneg rs). lia.
Qed.

Lemma placed_ok j p : pl !! j = Some p -> Forall byte (pl_key p) /\ Forall byte (pl_value p) /\ (pl_shared p <= length (pl_key p))%nat.
Proof.
  intros Hp. destruct (Forall_lookup_1 _ _ _ _ Hbytes Hp) as [? ?]. split; [done|]. split; [done|]. by apply (chained_lookup _ _ _ _ Hchain) in Hp as (_ & ? & _).
Qed.

Lemma codes_bytes_drop j : Forall byte (codes (drop j pl)).
Proof. apply codes_byte, Forall_forall. intros p [i Hi]%list_elem_of_lookup. rewrite lookup_drop in Hi. by apply (placed_ok _ _ Hi). Qed.

Lemma next_ready it j p : at_entry it j p -> ready it (S j).
Proof.
  intros [Hb Hl Hc Hk Hv (i & r & Hi & Hr & Hle)]. pose proof (lookup_lt_Some _ _ _ Hl). split; [done|lia| | |].
  - eexists _, _. split; [done|]. lia.
  - exists i, r. split_and!; [done|done|lia].
  - intros q Hq. apply (chained_lookup _ _ _ _ Hchain) in Hq. cbn in Hq. rewrite Hl in Hq. cbn in Hq. destruct Hq as (? & _ & ?). by rewrite Hk.
Qed.

(** ** The helpers *)

Lemma GetRestartPoint_spec it i r : on_block it -> rs !! i = Some r -> GetRestartPoint (Z.of_nat i) it = Some (offset pl r, it).
Proof.
  intros [Hd Hre _ _] Hi. unfold GetRestartPoint, dbind, dget, dfrom. pose proof (lookup_lt_Some _ _ _ Hi) as Hlt. pose proof (len_rs_32 pl rs Hsize) as Hn. unfold len in Hn.
  rewrite u32_id by lia. rewrite Hd, Hre, (restart_bytes pl rs i r Hi). unfold dret.
  by rewrite DecodeFixed32_encode by apply (offset_32 pl rs Hsize).
Qed.

Lemma SeekToRestartPoint_spec it i r : on_block it -> rs !! i = Some r -> exists it', SeekToRestartPoint (Z.of_nat i) it = Some (tt, it') /\ ready it' r.
Proof.
  intros Hb Hi. unfold SeekToRestartPoint, dbind, dmodify. assert (Hb' : on_block (set_restart_index (Z.of_nat i) (set_key [] it))) by (by destruct Hb).
  rewrite (GetRestartPoint_spec _ i r Hb' Hi). eexists. split; [done|].
  destruct (Forall_lookup_1 _ _ _ _ (restarts_whole _ _ Hrs) Hi) as [Hle Hw]. split; [by destruct Hb|lia| | |].
  - cbn. eexists _, _. split; [done|]. lia.
  - exists i, r. by split_and!.
  - intros p Hp. rewrite (Hw p Hp). rewrite !take_0. split; [lia|done].
Qed.

Lemma entry_at_spec it j : on_block it -> (j <= length pl)%nat -> entry_at it (offset pl j) = codes (drop j pl).
Proof.
  intros [Hd Hre _ _] Hj. unfold entry_at. rewrite Hd, Hre. unfold block_bytes. rewrite len_to_nat, take_app_length. by apply drop_codes.
Qed.

(** Bytes of the entries are where they are. *)
Lemma bytes_at_codes a b c : codes pl = a ++ b ++ c -> bytes_at (block_bytes pl rs) (len a) (len b) = Some b.
Proof. intros E. unfold block_bytes. rewrite E, <- !app_assoc. apply bytes_at_middle. Qed.

Lemma pass_restarts_spec fuel it j : on_block it -> current_ it = offset pl j -> restart_before it j -> (j < length pl)%nat ->
  Z.of_nat (length rs) <= restart_index_ it + Z.of_nat fuel ->
  exists i, pass_restarts fuel it = Some (tt, set_restart_index i it) /\ restart_before (set_restart_index i it) j.
Proof.
  revert it. induction fuel as [|fuel IH]; intros it Hb Hc (i & r & Hi & Hr & Hle) Hj Hf; pose proof (lookup_lt_Some _ _ _ Hr) as Hlt; [lia|].
  pose proof (len_rs_32 pl rs Hsize) as Hn. unfold len in Hn.
  assert (Hsame : set_restart_index (Z.of_nat i) it = it) by (destruct it; cbn in *; by subst).
  cbn [pass_restarts]. unfold dbind at 1, dget. rewrite Hi, (on_num _ Hb), u32_id by lia. unfold len.
  destruct (Z.ltb_spec (Z.of_nat i + 1) (Z.of_nat (length rs))) as [Hmore|]; [|exists (Z.of_nat i); rewrite Hsame; split; [done|]; by exists i, r].
  destruct (lookup_lt_is_Some_2 rs (S i) ltac:(lia)) as [r' Hr']. unfold dbind at 1. replace (Z.of_nat i + 1) with (Z.of_nat (S i)) by lia.
  rewrite (GetRestartPoint_spec it (S i) r' Hb Hr'), Hc.
  destruct (Z.ltb_spec (offset pl r') (offset pl j)) as [Hlt'|]; [|exists (Z.of_nat i); rewrite Hsame; split; [done|]; by exists i, r].
  unfold dbind, dmodify. assert (Hle' : (r' <= j)%nat).
  { destruct (Nat.le_gt_cases r' j) as [|Hgt]; [done|]. pose proof (offset_mono pl j r' ltac:(lia)). lia. }
  destruct (IH (set_restart_index (Z.of_nat (S i)) it)) as (k & Hk & Hkr); [by destruct Hb|done|by exists (S i), r'|done|cbn; lia|].
  exists k. split; [|exact Hkr]. exact Hk.
Qed.

Lemma NextEntryOffset_spec it j : ready it j -> NextEntryOffset it = Some (offset pl j, it).
Proof.
  intros [_ _ (o & s & E & Eo) _ _]. unfold NextEntryOffset, dbind, dget. rewrite E. unfold dret. rewrite Eo, u32_id by apply (offset_32 pl rs Hsize). done.
Qed.

(** The entry at [j] is decoded, and its bytes are where they are looked for. *)
Lemma decode_at it j p : on_block it -> pl !! j = Some p -> exists rest,
  DecodeEntry (entry_at it (offset pl j)) =
    Some ({| shared := Z.of_nat (pl_shared p); non_shared := len (pl_key p) - Z.of_nat (pl_shared p); value_length := len (pl_value p) |}, rest) /\
  let at_ := len (codes pl) - len rest in
  bytes_at (data_ it) at_ (len (pl_key p) - Z.of_nat (pl_shared p)) = Some (drop (pl_shared p) (pl_key p)) /\
  at_ + (len (pl_key p) - Z.of_nat (pl_shared p)) = offset pl (S j) - len (pl_value p).
Proof.
  intros Hb Hp. pose proof (lookup_lt_Some _ _ _ Hp) as Hlt. destruct (placed_ok _ _ Hp) as (Hkb & Hvb & Hs).
  rewrite (entry_at_spec it j Hb ltac:(lia)), (codes_cons j pl p Hp).
  pose proof (codes_split pl j) as Esp. rewrite (codes_cons j pl p Hp) in Esp. pose proof (len_data pl rs) as Hld.
  assert (Hlen : len (codes (take j pl)) + len (entry_code p) + len (codes (drop (S j) pl)) = len (codes pl)) by (rewrite Esp, !len_app; lia).
  pose proof (len_nonneg (codes (take j pl))). pose proof (len_nonneg rs). pose proof (codes_bytes_drop (S j)) as Hrb. set (rest := codes (drop (S j) pl)) in *.
  rewrite DecodeEntry_code by (done || (by apply (key_small j)) || lia). set (delta := drop (pl_shared p) (pl_key p)).
  exists (delta ++ pl_value p ++ rest). split; [done|]. cbn zeta.
  set (head := EncodeVarint32 (Z.of_nat (pl_shared p)) ++ EncodeVarint32 (len (pl_key p) - Z.of_nat (pl_shared p)) ++ EncodeVarint32 (len (pl_value p))).
  assert (Ec : codes pl = (codes (take j pl) ++ head) ++ delta ++ (pl_value p ++ rest)) by (rewrite Esp; unfold entry_code, head, delta; by rewrite <- !app_assoc).
  assert (Ep : len (codes pl) - len (delta ++ pl_value p ++ rest) = len (codes (take j pl) ++ head)) by (rewrite Ec, !len_app; lia).
  assert (Ed : len delta = len (pl_key p) - Z.of_nat (pl_shared p)) by (unfold delta; rewrite len_drop; unfold len; lia).
  rewrite (on_data _ Hb), Ep, <- Ed. split; [by apply bytes_at_codes with (c := pl_value p ++ rest)|].
  rewrite (offset_S pl j p Hp). unfold offset, entry_code, head. fold delta. rewrite !len_app. lia.
Qed.

Lemma ParseNextKey_entry it j p : ready it j -> pl !! j = Some p -> exists it', ParseNextKey it = Some (true, it') /\ at_entry it' j p.
Proof.
  intros Hr Hp. pose proof Hr as [Hb Hj _ Hri Hk]. pose proof (lookup_lt_Some _ _ _ Hp) as Hlt.
  unfold ParseNextKey. unfold dbind at 1. rewrite (NextEntryOffset_spec it j Hr). unfold dbind at 1, dmodify at 1. unfold dbind at 1, dget.
  set (it1 := set_current (offset pl j) it). assert (Hb1 : on_block it1) by (by destruct Hb).
  change (current_ it1) with (offset pl j). pose proof (offset_lt pl j (S j) ltac:(lia) ltac:(lia)). pose proof (offset_le_all pl (S j) ltac:(lia)) as Hle.
  rewrite (on_restarts _ Hb1), (proj2 (Z.leb_gt _ _)) by lia. destruct (decode_at it1 j p Hb1 Hp) as (rest & -> & Hd & Ho). cbn [shared non_shared value_length].
  change (key_ it1) with (key_ it). destruct (Hk p Hp) as [Hsk Htake]. rewrite (proj2 (Z.ltb_ge _ _)) by (unfold len; lia).
  cbn zeta in Hd, Ho. unfold dbind at 1, dfrom. rewrite Hd. unfold dbind, dmodify. rewrite Nat2Z.id, Htake, take_drop, Ho.
  set (it2 := set_value _ _). assert (Hb2 : on_block it2) by (by destruct Hb).
  destruct (pass_restarts_spec (Z.to_nat (num_restarts_ it1)) it2 j Hb2) as (i & -> & Hri2); [done|exact Hri|done| |].
  { rewrite (on_num _ Hb1). destruct Hri as (i & r & Hi & _). change (restart_index_ it2) with (restart_index_ it). rewrite Hi, len_to_nat. lia. }
  eexists. split; [done|]. split; [by destruct Hb2|done|done|done|done|exact Hri2].
Qed.

Lemma ParseNextKey_end it : ready it (length pl) -> exists it', ParseNextKey it = Some (false, it') /\ at_end it'.
Proof.
  intros Hr. pose proof Hr as [Hb _ _ _ _]. unfold ParseNextKey. unfold dbind at 1. rewrite (NextEntryOffset_spec it _ Hr), offset_all. unfold dbind, dmodify, dget.
  cbn [it_restarts_ current_ set_current]. rewrite (on_restarts _ Hb), (proj2 (Z.leb_le _ _)) by lia. eexists. split; [done|]. split; [by destruct Hb|]. cbn. done.
Qed.

(** ** The operations *)

(** At entry [j], or behind the last. *)
Definition block_pos (it : Iter) (j : nat) : Prop := (j = length pl /\ at_end it) \/ exists p, at_entry it j p.

Lemma block_pos_block it j : block_pos it j -> on_block it.
Proof. intros [[_ [H _]]|[p H]]; [done|by apply at_block in H]. Qed.

Lemma at_entry_pos it j : block_pos it j -> (j < length pl)%nat -> exists p, at_entry it j p.
Proof. intros [[-> _]|H] Hj; [lia|done]. Qed.

Lemma ParseNextKey_spec it j : ready it j ->
  exists it', ParseNextKey it = Some (bool_decide (j < length pl)%nat, it') /\ block_pos it' j.
Proof.
  intros Hr. pose proof (ready_le _ _ Hr) as Hj. case_bool_decide as Hlt.
  - destruct (lookup_lt_is_Some_2 pl j Hlt) as [p Hp]. destruct (ParseNextKey_entry it j p Hr Hp) as (it' & E & Ha). exists it'. split; [done|]. right. by exists p.
  - assert (j = length pl) as -> by lia. destruct (ParseNextKey_end it Hr) as (it' & E & Ha). exists it'. split; [done|]. by left.
Qed.

(** Skipping to the entry in front of [m]. *)
Lemma skip_until_spec fuel it j m : ready it j -> (j < m \/ m = 0)%nat -> (m <= length pl)%nat -> (length pl = 0 -> m = 0)%nat -> (m = 0 -> length pl = 0)%nat ->
  (m <= j + fuel)%nat -> (0 < fuel)%nat -> exists it', skip_until fuel (offset pl m) it = Some (tt, it') /\ block_pos it' (pred m).
Proof.
  revert it j. induction fuel as [|fuel IH]; intros it j Hr Hjm Hm H0 H0' Hf Hpos; [lia|]. cbn [skip_until]. unfold dbind at 1.
  destruct (ParseNextKey_spec it j Hr) as (it' & E & Hp). rewrite E. case_bool_decide as Hlt.
  - destruct (at_entry_pos _ _ Hp Hlt) as [p Ha]. pose proof (next_ready _ _ _ Ha) as Hr'. unfold dbind. rewrite (NextEntryOffset_spec _ _ Hr').
    destruct (Nat.eq_dec (S j) m) as [<-|Hne]; [rewrite Z.ltb_irrefl; by exists it'|]. pose proof (offset_lt pl (S j) m ltac:(lia) Hm).
    rewrite (proj2 (Z.ltb_lt _ _)) by lia. apply (IH it' (S j) Hr'); lia.
  - pose proof (ready_le _ _ Hr). assert (m = 0 /\ j = 0)%nat as [-> ->] by lia. by exists it'.
Qed.

Lemma entries_fuel_enough it : on_block it -> (length pl < entries_fuel it)%nat.
Proof.
  intros Hb. unfold entries_fuel. rewrite (on_data _ Hb). unfold block_bytes. rewrite length_app.
  assert (H : (length pl <= length (codes pl))%nat); [|lia]. clear. induction pl as [|p l IH]; [done|]. unfold codes in *. cbn [map concat length].
  rewrite length_app. pose proof (entry_code_pos p). unfold len in *. lia.
Qed.

Lemma restart_0 : rs !! 0%nat = Some 0%nat.
Proof. by destruct (restarts_first _ _ Hrs) as [rest ->]. Qed.

Lemma SeekToFirst_spec it : on_block it -> exists it', Iter_SeekToFirst it = Some (tt, it') /\ block_pos it' 0.
Proof.
  intros Hb. destruct (SeekToRestartPoint_spec it 0 0 Hb restart_0) as (it1 & E1 & Hr1). destruct (ParseNextKey_spec it1 0 Hr1) as (it2 & E2 & Hp).
  exists it2. split; [|done]. unfold Iter_SeekToFirst, dbind. change 0 with (Z.of_nat 0). by rewrite E1, E2.
Qed.

Lemma last_restart : exists r, rs !! pred (length rs) = Some r /\ (0 < length rs)%nat /\ ((r < length pl)%nat \/ r = 0%nat /\ pl = []).
Proof.
  destruct (restarts_first _ _ Hrs) as [rest E]. assert (0 < length rs)%nat by (rewrite E; cbn; lia).
  destruct (lookup_lt_is_Some_2 rs (pred (length rs)) ltac:(lia)) as [r Hr]. exists r. split; [done|]. split; [done|].
  apply (Forall_lookup_1 _ _ _ _ (restarts_whole _ _ Hrs) Hr).
Qed.

Lemma last_index : u32 (len rs - 1) = Z.of_nat (pred (length rs)).
Proof. destruct last_restart as (_ & _ & H & _). pose proof (len_rs_32 pl rs Hsize). unfold len in *. rewrite u32_id by lia. lia. Qed.

Lemma SeekToLast_spec it : on_block it -> exists it', Iter_SeekToLast it = Some (tt, it') /\ block_pos it' (pred (length pl)).
Proof.
  intros Hb. destruct last_restart as (r & Hr & _ & Hrl). unfold Iter_SeekToLast, dbind, dget. rewrite (on_num _ Hb), last_index.
  destruct (SeekToRestartPoint_spec it _ r Hb Hr) as (it1 & -> & Hr1). rewrite (on_restarts _ Hb), <- offset_all. pose proof (entries_fuel_enough it Hb).
  assert (H0 : (r < length pl \/ r = 0 /\ length pl = 0)%nat) by (destruct Hrl as [?|[-> E]]; [by left|right; by rewrite E]).
  apply (skip_until_spec _ it1 r (length pl) Hr1); lia.
Qed.

Lemma Iter_Next_spec it j : block_pos it j -> (j < length pl)%nat -> exists it', Iter_Next it = Some (tt, it') /\ block_pos it' (S j).
Proof.
  intros Hp Hj. destruct (at_entry_pos _ _ Hp Hj) as [p Ha]. apply next_ready in Ha. destruct (ParseNextKey_spec it (S j) Ha) as (it' & E & Hp').
  exists it'. split; [|done]. unfold Iter_Next, dbind. by rewrite E.
Qed.

(** ** Backwards *)

Lemma back_up_spec fuel it i r j : on_block it -> restart_index_ it = Z.of_nat i -> rs !! i = Some r -> (r <= j)%nat -> (j < length pl)%nat -> (i <= fuel)%nat ->
  (j = 0%nat /\ exists it', back_up fuel (offset pl j) it = Some (false, it') /\ at_end it') \/
  exists i' r', (r' < j)%nat /\ rs !! i' = Some r' /\ back_up fuel (offset pl j) it = Some (true, set_restart_index (Z.of_nat i') it).
Proof.
  revert it i r. induction fuel as [|fuel IH]; intros it i r Hb Hi Hr Hle Hj Hf.
  all: assert (Hsame : set_restart_index (Z.of_nat i) it = it) by (destruct it; cbn in *; by subst).
  all: match goal with |- context [back_up ?n _ _] => destruct (back_up n (offset pl j) it) as [res|] eqn:E end.
  all: cbn [back_up] in E; unfold dbind at 1, dget in E; rewrite Hi in E; unfold dbind at 1 in E; rewrite (GetRestartPoint_spec it i r Hb Hr) in E.
  all: destruct (Z.leb_spec (offset pl j) (offset pl r)) as [Hge|Hlt].
  all: try (right; exists i, r; rewrite Hsame, <- E; split_and!; [destruct (Nat.eq_dec r j) as [->|]; lia|done|done]).
  all: assert (r = j) as -> by (destruct (Nat.eq_dec r j) as [|Hne]; [done|pose proof (offset_lt pl r j ltac:(lia) ltac:(lia)); lia]).
  all: destruct (Z.eqb_spec (Z.of_nat i) 0) as [H0|H0]; try lia.
  all: try (assert (i = 0%nat) as -> by lia; rewrite restart_0 in Hr; injection Hr as <-; left; split; [done|]; rewrite <- E; eexists;
    split; [reflexivity|]; split; [by destruct Hb|apply (on_restarts _ Hb)]).
  all: right; pose proof (lookup_lt_Some _ _ _ Hr) as Hlt; pose proof (len_rs_32 pl rs Hsize) as Hn; unfold len in Hn.
  all: unfold dbind at 1, dmodify at 1 in E; rewrite u32_id in E by lia; destruct (lookup_lt_is_Some_2 rs (pred i) ltac:(lia)) as [q Hq].
  all: pose proof (restarts_sorted _ _ Hrs _ _ _ _ Hq Hr ltac:(lia)) as Hqj.
  all: destruct (IH (set_restart_index (Z.of_nat i - 1) it) (pred i) q) as [[-> _]|(i' & r' & H1 & H2 & H3)];
    [by destruct Hb|cbn; lia|done|lia|done|lia|lia|exists i', r'; rewrite <- E; split; [done|]; split; [done|exact H3]].
Qed.

Lemma Iter_Prev_spec it j : block_pos it j -> (j < length pl)%nat -> exists it', Iter_Prev it = Some (tt, it') /\
  block_pos it' (match j with O => length pl | S j => j end).
Proof.
  intros Hp Hj. destruct (at_entry_pos _ _ Hp Hj) as [p [Hb _ Hc _ _ (i & r & Hi & Hr & Hle)]]. unfold Iter_Prev. unfold dbind at 1, dget. rewrite Hc, Hi, Nat2Z.id.
  unfold dbind at 1. destruct (back_up_spec i it i r j Hb Hi Hr Hle Hj ltac:(lia)) as [(-> & it' & -> & He)|(i' & r' & Hlt & Hr' & ->)].
  - exists it'. split; [done|]. by left.
  - set (it1 := set_restart_index _ it). assert (Hb1 : on_block it1) by (by destruct Hb). unfold dbind, dget. change (restart_index_ it1) with (Z.of_nat i').
    destruct (SeekToRestartPoint_spec it1 i' r' Hb1 Hr') as (it2 & -> & Hr2). destruct j as [|j]; [lia|]. pose proof (entries_fuel_enough it1 Hb1).
    apply (skip_until_spec _ it2 r' (S j) Hr2); lia.
Qed.

(** ** Seeking *)

Context (Hok : Forall (fun p => key_ok (pl_key p)) pl).
Context (Hsorted : forall i j p q, pl !! i = Some p -> pl !! j = Some q -> (i < j)%nat -> Compare (pl_key p) (pl_key q) = Lt).
Let entries := map placed_entry pl.

(** Everything in front of [j] is before the target. *)
Definition all_before (target : list Z) (j : nat) : Prop := forall i p, pl !! i = Some p -> (i < j)%nat -> Compare (pl_key p) target = Lt.

Lemma ok_at i p : pl !! i = Some p -> key_ok (pl_key p).
Proof. apply (Forall_lookup_1 _ _ _ _ Hok). Qed.

Lemma before_restart target j p : key_ok target -> pl !! j = Some p -> Compare (pl_key p) target = Lt -> all_before target j.
Proof.
  intros Ht Hp H i q Hq Hij. apply (cmp_lt_trans Compare key_ok _ (pl_key p)); [by apply (ok_at i)|by apply (ok_at j)|done|by apply (Hsorted i j)|done].
Qed.

Lemma bisect_spec fuel it target lo hi r : on_block it -> key_ok target -> rs !! lo = Some r -> all_before target r -> (lo <= hi)%nat -> (hi < length rs)%nat -> (hi - lo <= fuel)%nat ->
  exists i r', bisect fuel target (Z.of_nat lo) (Z.of_nat hi) it = Some (Some (Z.of_nat i), it) /\ rs !! i = Some r' /\ all_before target r'.
Proof.
  intros Hb Ht. revert lo hi r. induction fuel as [|fuel IH]; intros lo hi r Hlo Hbef Hle Hhi Hf; cbn [bisect];
    (destruct (Z.ltb_spec (Z.of_nat lo) (Z.of_nat hi)) as [Hlt|]; [|by exists lo, r]); [lia|].
  pose proof (len_rs_32 pl rs Hsize) as Hn. unfold len in Hn. set (mid := ((lo + hi + 1) / 2)%nat).
  assert (Hmid : (lo < mid <= hi)%nat) by (unfold mid; pose proof (Nat.div_mod_eq (lo + hi + 1) 2); pose proof (Nat.mod_upper_bound (lo + hi + 1) 2); lia).
  assert (Em : u32 (u32 (Z.of_nat lo + Z.of_nat hi) + 1) / 2 = Z.of_nat mid).
  { rewrite !u32_id by (rewrite ?u32_id; lia). unfold mid. rewrite Nat2Z.inj_div. f_equal. lia. }
  rewrite Em. destruct (lookup_lt_is_Some_2 rs mid ltac:(lia)) as [m Hm]. unfold dbind at 1. rewrite (GetRestartPoint_spec it mid m Hb Hm).
  unfold dbind at 1, dget. destruct (Forall_lookup_1 _ _ _ _ (restarts_whole _ _ Hrs) Hm) as [Hml Hw].
  pose proof (restarts_sorted _ _ Hrs _ _ _ _ Hlo Hm ltac:(lia)). destruct (lookup_lt_is_Some_2 pl m ltac:(lia)) as [p Hp].
  destruct (decode_at it m p Hb Hp) as (rest & -> & Hd & _). cbn zeta in Hd. cbn [shared non_shared]. rewrite (Hw p Hp), drop_0 in *. change (Z.of_nat 0) with 0 in *. rewrite Z.eqb_refl. cbn [negb].
  unfold dbind at 1, dfrom. rewrite (on_restarts _ Hb), Hd.
  destruct (Compare (pl_key p) target) eqn:E; [|apply (IH mid hi m Hm); [by apply (before_restart _ _ p)|lia|lia|lia]|].
  all: rewrite u32_id by lia; replace (Z.of_nat mid - 1) with (Z.of_nat (pred mid)) by lia; apply (IH lo (pred mid) r Hlo Hbef); lia.
Qed.

Lemma lower_bound_placed target j : (j <= length pl)%nat -> all_before target j -> (forall p, pl !! j = Some p -> Compare (pl_key p) target <> Lt) ->
  lower_bound target entries = j.
Proof.
  intros Hj Hbef Hat. apply Iterator.lower_bound_unique.
  - unfold entries. by rewrite length_map.
  - unfold entries. intros q k v Hq Hl. rewrite list_lookup_fmap in Hl. destruct (pl !! q) as [p|] eqn:E; [|done]. injection Hl as <- <-. by apply (Hbef q p).
  - unfold entries. intros k v Hl. rewrite list_lookup_fmap in Hl. destruct (pl !! j) as [p|] eqn:E; [|done]. injection Hl as <- <-. by apply Hat.
Qed.

Lemma scan_spec fuel it target j : key_ok target -> ready it j -> all_before target j -> (length pl < j + fuel)%nat ->
  exists it', scan fuel target it = Some (tt, it') /\ block_pos it' (lower_bound target entries).
Proof.
  intros Ht. revert it j. induction fuel as [|fuel IH]; intros it j Hr Hbef Hf; pose proof (ready_le _ _ Hr) as Hj; [lia|].
  cbn [scan]. unfold dbind at 1. destruct (ParseNextKey_spec it j Hr) as (it' & E & Hp). rewrite E. case_bool_decide as Hlt.
  - destruct (at_entry_pos _ _ Hp Hlt) as [p Ha]. unfold dbind, dget. rewrite (at_key _ _ _ Ha). pose proof (at_lookup _ _ _ Ha) as Hpj.
    destruct (Compare (pl_key p) target) eqn:Ec; [|apply (IH it' (S j)); [by apply (next_ready _ _ p)| |lia]|].
    2: { intros i q Hq Hi. destruct (Nat.eq_dec i j) as [->|]; [by rewrite Hpj in Hq; injection Hq as <-|apply (Hbef i q Hq); lia]. }
    all: rewrite (lower_bound_placed target j Hj Hbef); [by exists it'|intros q Hq; rewrite Hpj in Hq; injection Hq as <-; congruence].
  - exists it'. split; [done|]. rewrite (lower_bound_placed target j Hj Hbef); [done|]. intros p Hpp. apply lookup_lt_Some in Hpp. lia.
Qed.

Lemma Iter_Seek_spec it target : on_block it -> key_ok target -> exists it', Iter_Seek target it = Some (tt, it') /\ block_pos it' (lower_bound target entries).
Proof.
  intros Hb Ht. unfold Iter_Seek. unfold dbind at 1, dget. rewrite (on_num _ Hb), last_index, len_to_nat. unfold dbind at 1.
  destruct last_restart as (_ & _ & Hpos & _). change 0 with (Z.of_nat 0).
  destruct (bisect_spec (length rs) it target 0 (pred (length rs)) 0 Hb Ht restart_0) as (i & r & -> & Hr & Hbef); [intros i p Hp Hi; lia|lia..|].
  unfold dbind. destruct (SeekToRestartPoint_spec it i r Hb Hr) as (it1 & -> & Hr1). pose proof (entries_fuel_enough it Hb). apply (scan_spec _ it1 target r Ht Hr1 Hbef). lia.
Qed.

(** The iterator walks along the entries. *)
#[export] Instance block_walks (W : Type) (inv : W -> Prop) : Walks (IT := BlockIter W) inv entries block_pos.
Proof.
  assert (Hlen : length entries = length pl) by (unfold entries; by rewrite length_map).
  assert (Hcur : forall it j, block_pos it j -> (j <= length pl)%nat /\ Iter_Valid it = bool_decide (j < length pl)%nat).
  { intros it j [[-> [Hb Hc]]|[p [Hb Hp Hc _ _ _]]]; unfold Iter_Valid; rewrite Hc, (on_restarts _ Hb).
    - rewrite Z.ltb_irrefl, bool_decide_false by lia. split; [lia|done].
    - pose proof (lookup_lt_Some _ _ _ Hp). pose proof (offset_lt pl j (S j) ltac:(lia) ltac:(lia)). pose proof (offset_le_all pl (S j) ltac:(lia)).
      rewrite (proj2 (Z.ltb_lt _ _)), bool_decide_true by lia. split; [lia|done]. }
  split; rewrite ?Hlen; [intros it|intros it|intros it|intros it|intros it|intros target it|intros it|intros it]; cbn [Valid iter_key iter_value iter_status SeekToFirst SeekToLast Seek Next Prev BlockIter]; unfold in_world.
  - apply Hcur.
  - intros i k v Hp He. unfold entries in He. rewrite list_lookup_fmap in He. destruct (pl !! i) as [p|] eqn:E; [|done]. injection He as <- <-.
    pose proof (lookup_lt_Some _ _ _ E). destruct (at_entry_pos _ _ Hp ltac:(lia)) as [q [Hb Hq _ Hk Hv _]]. assert (q = p) as -> by congruence. split; [done|].
    unfold Iter_value. rewrite Hv, (on_data _ Hb). pose proof (codes_split pl i) as Esp. rewrite (codes_cons i pl p E) in Esp. unfold entry_code in Esp.
    rewrite (offset_S _ _ _ E). unfold offset, entry_code. rewrite !len_app.
    match goal with |- bytes_at _ ?o _ = _ => replace o with (len (codes (take i pl) ++ EncodeVarint32 (Z.of_nat (pl_shared p)) ++ EncodeVarint32 (len (pl_key p) - Z.of_nat (pl_shared p)) ++
      EncodeVarint32 (len (pl_value p)) ++ drop (pl_shared p) (pl_key p))) by (rewrite !len_app; lia) end.
    apply (bytes_at_codes _ _ (codes (drop (S i) pl))). rewrite Esp. by rewrite <- !app_assoc.
  - intros i Hp. apply block_pos_block in Hp. by rewrite (on_status _ Hp).
  - intros i w Hp Hi. destruct (SeekToFirst_spec it (block_pos_block _ _ Hp)) as (it' & -> & H). by exists it', w.
  - intros i w Hp Hi. destruct (SeekToLast_spec it (block_pos_block _ _ Hp)) as (it' & -> & H). by exists it', w.
  - intros i w Hp Hi Ht. destruct (Iter_Seek_spec it target (block_pos_block _ _ Hp) Ht) as (it' & -> & H). by exists it', w.
  - intros i w Hp Hi Hj. destruct (Iter_Next_spec it i Hp Hj) as (it' & -> & H). by exists it', w.
  - intros i w Hp Hi Hj. destruct (Iter_Prev_spec it i Hp Hj) as (it' & -> & H). by exists it', w.
Qed.
End reading.

(** Blocks there and back: an iterator of a block that was built walks along what was added. *)

Definition add_all (block_restart_interval : Z) (entries : list (list Z * list Z)) (b : BlockBuilder) : BlockBuilder :=
  foldl (fun b '(key, value) => Add block_restart_interval key value b) b entries.

Definition last_of (pl : list placed) : list Z := default [] (pl_key <$> last pl).

(** A builder that has been given what [pl] is. *)
Record built (pl : list placed) (rs : list nat) (b : BlockBuilder) : Prop := {
  built_buffer : buffer_ b = codes pl;
  built_restarts : restarts_ b = map (offset pl) rs;
  built_last : last_key_ b = last_of pl;
  built_counter : 0 <= counter_ b /\ (pl = [] -> counter_ b = 0);
  built_chain : chained [] pl;
  built_points : restarts_of pl rs
}.

Lemma built_new : built [] [0%nat] NewBlockBuilder.
Proof.
  split; try done. split; [by exists []| |].
  - intros [|[|i]] [|[|k]] r r'; cbn; intros; simplify_eq; lia.
  - constructor; [|constructor]. split; [by right|done].
Qed.

Lemma chained_snoc prev pl p : chained prev pl -> shares (match last pl with Some q => pl_key q | None => prev end) p -> chained prev (pl ++ [p]).
Proof.
  revert prev. induction pl as [|q pl IH]; intros prev Hc Hs; [by split|]. destruct Hc as [Hq Hc]. split; [done|]. apply IH; [done|]. rewrite last_cons in Hs. by destruct (last pl).
Qed.

Lemma common_prefix_spec n s t : (n <= length s)%nat -> (n <= length t)%nat ->
  (common_prefix n s t <= n)%nat /\ take (common_prefix n s t) s = take (common_prefix n s t) t.
Proof.
  revert s t. induction n as [|n IH]; intros [|x s] [|y t] Hs Ht; cbn [length] in *; try lia; cbn [common_prefix]; try (split; [lia|done]).
  destruct (Z.eqb_spec x y) as [->|]; [|split; [lia|done]]. destruct (IH s t) as [H1 H2]; [lia|lia|]. split; [lia|]. cbn [take]. by f_equal.
Qed.

Lemma shared_with_spec last key : (shared_with last key <= length last)%nat /\ (shared_with last key <= length key)%nat /\
  take (shared_with last key) last = take (shared_with last key) key.
Proof. unfold shared_with. destruct (common_prefix_spec (Nat.min (length last) (length key)) last key) as [H1 H2]; [lia|lia|]. split_and!; [lia|lia|done]. Qed.

Lemma offset_snoc pl p r : (r <= length pl)%nat -> offset (pl ++ [p]) r = offset pl r.
Proof. intros H. unfold offset. by rewrite take_app_le. Qed.

Lemma last_of_length pl : chained [] pl -> len (last_of pl) <= len (codes pl).
Proof.
  intros Hc. unfold last_of. destruct (last pl) as [p|] eqn:E; cbn; [|rewrite (@len_nil Z); apply len_nonneg].
  rewrite last_lookup in E. pose proof (chained_length _ _ _ _ Hc E) as H. rewrite (@len_nil Z) in H. pose proof (lookup_lt_Some _ _ _ E).
  pose proof (offset_le_all pl (S (pred (length pl))) ltac:(lia)). lia.
Qed.

(** Adding an entry. *)
Lemma Add_built interval pl rs b key value : 1 <= interval -> built pl rs b -> len (buffer_ (Add interval key value b)) < 2 ^ 32 ->
  exists p rs', placed_entry p = (key, value) /\ built (pl ++ [p]) rs' (Add interval key value b).
Proof.
  intros Hint [Hbuf Hres Hlast [Hcnt Hcnt0] Hchain Hpoints] Hsize. unfold Add in *.
  set (restart := counter_ b <? interval) in *. set (s := if restart then shared_with (last_key_ b) key else 0%nat).
  assert (Hs : shares (last_of pl) {| pl_key := key; pl_value := value; pl_shared := s |}).
  { rewrite <- Hlast. unfold shares, s. cbn. destruct restart; [apply shared_with_spec|]. split_and!; [lia|lia|done]. }
  exists {| pl_key := key; pl_value := value; pl_shared := s |}, (if restart then rs else rs ++ [length pl]). split; [done|].
  set (p := {| pl_key := key; pl_value := value; pl_shared := s |}) in *. pose proof (last_of_length pl Hchain) as Hll. pose proof Hs as (H1 & H2 & H3). cbn in H1, H2, H3.
  assert (Hnil : (if restart then (shared_with (last_key_ b) key, restarts_ b, counter_ b) else (0%nat, restarts_ b ++ [u32 (len (buffer_ b))], 0)) =
    (s, (if restart then restarts_ b else restarts_ b ++ [u32 (len (buffer_ b))]), if restart then counter_ b else 0)) by (unfold s; by destruct restart).
  rewrite Hnil in *. clear Hnil. cbn [buffer_] in Hsize. unfold PutVarint32 in *. rewrite !len_app, len_drop in Hsize.
  pose proof (len_nonneg (EncodeVarint32 (u32 (Z.of_nat s)))). pose proof (len_nonneg (EncodeVarint32 (u32 (len key - Z.of_nat s)))).
  pose proof (len_nonneg (EncodeVarint32 (u32 (len value)))). pose proof (len_nonneg value). pose proof (len_nonneg (buffer_ b)).
  assert (Hss : 0 <= Z.of_nat s < 2 ^ 32 /\ 0 <= len key - Z.of_nat s < 2 ^ 32 /\ len value < 2 ^ 32) by (rewrite Hbuf in *; unfold len in *; lia).
  assert (E : buffer_ b ++ EncodeVarint32 (Z.of_nat s) ++ EncodeVarint32 (len key - Z.of_nat s) ++ EncodeVarint32 (len value) ++ drop s key ++ value = codes (pl ++ [p])).
  { rewrite codes_app, Hbuf. unfold codes at 3. cbn [map concat]. rewrite app_nil_r. reflexivity. }
  split; cbn [buffer_ restarts_ last_key_ counter_].
  - rewrite !u32_id by lia. rewrite <- E. by rewrite <- !app_assoc.
  - rewrite Hres. assert (Em : map (offset pl) rs = map (offset (pl ++ [p])) rs).
    { apply map_ext_in. intros r Hr. destruct (proj1 (List.Forall_forall _ _) (restarts_whole _ _ Hpoints) r Hr) as [Hle _]. symmetry. apply offset_snoc. lia. }
    destruct restart; [done|]. rewrite map_app, Em. f_equal. cbn. rewrite offset_snoc, offset_all, Hbuf, u32_id; [done| |lia]. rewrite <- Hbuf. lia.
  - rewrite Hlast, H3, take_drop. unfold last_of. by rewrite last_snoc.
  - split; [destruct restart; lia|]. by destruct pl.
  - apply chained_snoc; [done|]. unfold last_of in Hs. by destruct (last pl).
  - destruct Hpoints as [Hf Hso Hw]. assert (Hw' : Forall (fun r => ((r < length (pl ++ [p]))%nat \/ r = 0%nat /\ pl ++ [p] = []) /\ forall q, (pl ++ [p]) !! r = Some q -> pl_shared q = 0%nat) rs).
    { eapply Forall_impl; [exact Hw|]. intros r [Hr Hq]. rewrite length_app. cbn [length]. destruct Hr as [Hr|[-> ->]].
      - split; [lia|]. intros q. rewrite lookup_app_l by done. apply Hq.
      - split; [cbn; lia|]. intros q [= <-]. cbn. cbn in Hll. change (last_of []) with (@nil Z) in H1. cbn in H1. lia. }
    destruct restart eqn:Er; [split; [done..|exact Hw']|]. assert (Hne : pl <> []) by (intros ->; unfold restart in Er; rewrite Hcnt0 in Er by done; apply Z.ltb_ge in Er; lia).
    split.
    + destruct Hf as [rest ->]. by eexists.
    + intros i k r r' Hi Hk Hlt. pose proof (lookup_lt_Some _ _ _ Hk) as Hkl. rewrite length_app in Hkl. cbn in Hkl.
      rewrite lookup_app_l in Hi by lia. destruct (Nat.eq_dec k (length rs)) as [->|].
      * rewrite list_lookup_middle in Hk by done. injection Hk as <-. destruct (Forall_lookup_1 _ _ _ _ Hw Hi) as [[|[_ ?]] _]; done.
      * rewrite lookup_app_l in Hk by lia. by apply (Hso i k).
    + apply Forall_app. split; [exact Hw'|]. constructor; [|constructor]. rewrite length_app. cbn [length]. split; [lia|].
      intros q Hq. rewrite list_lookup_middle in Hq by done. injection Hq as <-. done.
Qed.

Lemma Add_buffer interval key value b : buffer_ b `prefix_of` buffer_ (Add interval key value b).
Proof. unfold Add. destruct (counter_ b <? interval); cbn; unfold PutVarint32; rewrite <- !app_assoc; by eexists. Qed.

Lemma add_all_buffer interval entries b : buffer_ b `prefix_of` buffer_ (add_all interval entries b).
Proof.
  revert b. induction entries as [|[k v] es IH]; intros b; [done|]. cbn. etransitivity; [apply Add_buffer|apply IH].
Qed.

Lemma prefix_len (s t : list Z) : s `prefix_of` t -> len s <= len t.
Proof. intros H. apply prefix_length in H. unfold len. lia. Qed.

Lemma add_all_built interval entries pl rs b : 1 <= interval -> built pl rs b -> len (buffer_ (add_all interval entries b)) < 2 ^ 32 ->
  exists pl' rs', map placed_entry pl' = entries /\ built (pl ++ pl') rs' (add_all interval entries b).
Proof.
  intros Hi. revert pl rs b. induction entries as [|[k v] es IH]; intros pl rs b Hb Hs; [exists [], rs; split; [done|by rewrite app_nil_r]|]. cbn [add_all foldl] in *.
  pose proof (prefix_len _ _ (add_all_buffer interval es (Add interval k v b))) as Hle. unfold add_all in Hle. destruct (Add_built interval pl rs b k v Hi Hb) as (p & rs1 & Hp & Hb1); [lia|].
  destruct (IH _ _ _ Hb1 Hs) as (pl' & rs' & Hm & Hb'). exists (p :: pl'), rs'. split; [cbn; by rewrite Hp, Hm|]. by rewrite <- app_assoc in Hb'.
Qed.

(** The block and its size. *)
Lemma Finish_built pl rs b : built pl rs b -> len rs < 2 ^ 32 -> fst (Finish b) = block_bytes pl rs /\ len (fst (Finish b)) = CurrentSizeEstimate b.
Proof.
  intros [Hbuf Hres _ _ _ _] Hn. unfold Finish, CurrentSizeEstimate. cbn [fst]. rewrite put_fixed_array, Hbuf, Hres. pose proof (len_nonneg rs).
  rewrite len_map, u32_id by lia. unfold PutFixed32, block_bytes. rewrite app_assoc. split; [done|]. rewrite <- app_assoc. etransitivity; [apply (len_data pl rs)|lia].
Qed.

Lemma NewIterator_built pl rs : len (block_bytes pl rs) < 2 ^ 32 -> restarts_of pl rs ->
  NewIterator (NewBlock (block_bytes pl rs)) = inr (NewIter (block_bytes pl rs) (len (codes pl)) (len rs)).
Proof.
  intros Hs Hrs. pose proof (len_data pl rs) as Hl. pose proof (len_rs_32 pl rs Hs) as Hn. pose proof (len_nonneg (codes pl)).
  assert (0 < len rs) by (destruct (restarts_first _ _ Hrs) as [rest ->]; rewrite len_cons; pose proof (len_nonneg rest); lia).
  unfold NewBlock. rewrite (NumRestarts_block pl rs Hs). rewrite (proj2 (Z.ltb_ge _ _)) by lia. rewrite (proj2 (Z.ltb_ge _ _)) by (apply Z.div_le_lower_bound; lia).
  unfold NewIterator. cbn [size_ block_data restart_offset_]. rewrite (NumRestarts_block pl rs Hs). rewrite (proj2 (Z.ltb_ge _ _)) by lia.
  rewrite (proj2 (Z.eqb_neq _ _)) by lia. do 2 f_equal. rewrite (u32_id (1 + _)), u64_id, u32_id by lia. lia.
Qed.

Section built.
Context {C : Comparator} {CL : ComparatorLaws C}.

(** A block that holds these entries, as a builder makes it. *)
Definition block_of (entries : list (list Z * list Z)) (contents : list Z) : Prop :=
  exists pl rs, map placed_entry pl = entries /\ chained [] pl /\ restarts_of pl rs /\ contents = block_bytes pl rs /\ len contents < 2 ^ 32.

Lemma add_all_block interval entries : 1 <= interval -> CurrentSizeEstimate (add_all interval entries NewBlockBuilder) < 2 ^ 32 ->
  block_of entries (fst (Finish (add_all interval entries NewBlockBuilder))) /\
  len (fst (Finish (add_all interval entries NewBlockBuilder))) = CurrentSizeEstimate (add_all interval entries NewBlockBuilder).
Proof.
  intros Hi Hs. set (b := add_all _ _ _) in *. assert (Hlt : len (buffer_ b) < 2 ^ 32) by (unfold CurrentSizeEstimate in Hs; pose proof (len_nonneg (restarts_ b)); lia).
  destruct (add_all_built interval entries [] [0%nat] NewBlockBuilder Hi built_new Hlt) as (pl & rs & Hm & Hb). cbn [app] in Hb. fold b in Hb.
  assert (Hrs : len rs < 2 ^ 32) by (unfold CurrentSizeEstimate in Hs; rewrite (built_restarts _ _ _ Hb), len_map in Hs; pose proof (len_nonneg (buffer_ b)); lia).
  destruct (Finish_built pl rs b Hb Hrs) as [E El]. split; [|done]. exists pl, rs. split; [done|]. split; [by apply (built_chain _ _ _ Hb)|]. split; [by apply (built_points _ _ _ Hb)|]. split; [done|lia].
Qed.

(** Its iterator walks along them. *)
Lemma block_of_walks entries contents : sorted_entries entries -> block_of entries contents ->
  exists it (pos : Iter -> nat -> Prop), NewIterator (NewBlock contents) = inr it /\ pos it (length entries) /\
    forall W (inv : W -> Prop), Walks (IT := BlockIter W) inv entries pos.
Proof.
  intros [Hok Hlt] (pl & rs & <- & Hch & Hrs & -> & Hs). exists (NewIter (block_bytes pl rs) (len (codes pl)) (len rs)), (block_pos pl rs).
  split; [by apply NewIterator_built|]. split; [left; by rewrite length_map|]. intros W inv.
  assert (Hin : forall i p, pl !! i = Some p -> map placed_entry pl !! i = Some (pl_key p, pl_value p)) by (intros i p Hp; rewrite list_lookup_fmap, Hp; done).
  assert (Hall : Forall (fun p => key_ok (pl_key p) /\ Forall byte (pl_value p)) pl).
  { apply Forall_lookup_2. intros i p Hp. by apply Hok, (list_elem_of_lookup_2 _ i), Hin. }
  apply block_walks; [done| |done|done| |].
  - eapply Forall_impl; [exact Hall|]. intros p [Hk Hv]. split; [by apply key_bytes|done].
  - eapply Forall_impl; [exact Hall|]. by intros p [Hk _].
  - intros i j p q Hp Hq Hij. by apply (Hlt i j _ _ _ _ (Hin _ _ Hp) (Hin _ _ Hq)).
Qed.
End built.

(** C15: A block that a builder makes of increasing keys, whatever the restart interval, is as long as
    the builder estimated, and its iterator walks along just these entries: from any position it
    goes to the first, the last, the next, the one before, and by the binary search over the restart
    points to the first entry that is not before a target, and reads nothing outside of the block. *)
Theorem block_round_trip {C : Comparator} {CL : ComparatorLaws C} interval entries :
  let b := add_all interval entries NewBlockBuilder in
  1 <= interval -> sorted_entries entries -> CurrentSizeEstimate b < 2 ^ 32 ->
  len (fst (Finish b)) = CurrentSizeEstimate b /\
  exists it (pos : Iter -> nat -> Prop), NewIterator (NewBlock (fst (Finish b))) = inr it /\ pos it (length entries) /\
    forall W (inv : W -> Prop), Walks (IT := BlockIter W) inv entries pos.
Proof.
  intros b Hi Hso Hs. destruct (add_all_block interval entries Hi Hs) as [Hb Hl]. split; [done|]. by apply block_of_walks.
Qed.

Module BlockExample.
Definition entries : list (list Z * list Z) := [([1; 1], [9]); ([1; 2], []); ([1; 2; 0], [8; 8]); ([7], [7])].

Lemma entries_sorted : sorted_entries entries.
Proof.
  split.
  - intros k v H. assert (Hall : Forall (fun e => Forall byte e.1 /\ Forall byte e.2) entries) by (apply (bool_decide_unpack _); vm_compute; exact I).
    apply (proj1 (List.Forall_forall _ _) Hall (k, v)), list_elem_of_In, H.
  - intros i j k v k' v' Hi Hj Hlt. pose proof (lookup_lt_Some _ _ _ Hj) as Hjl. unfold entries in *.
    destruct j as [|[|[|[|j]]]]; [lia| | | |cbn in Hjl; lia]; destruct i as [|[|[|i]]]; try lia; cbn in Hi, Hj; simplify_eq; vm_compute; reflexivity.
Qed.

Lemma block_round_trip_witness :
  let b := add_all 2 entries NewBlockBuilder in
  CurrentSizeEstimate b = 35 /\ len (fst (Finish b)) = 35 /\
  exists it pos, NewIterator (NewBlock (fst (Finish b))) = inr it /\ pos it 4%nat /\ Walks (W := unit) (IT := BlockIter unit) (fun _ => True) entries pos.
Proof.
  assert (E : CurrentSizeEstimate (add_all 2 entries NewBlockBuilder) = 35) by (vm_compute; reflexivity).
  destruct (block_round_trip 2 entries ltac:(lia) entries_sorted ltac:(rewrite E; lia)) as (Hl & it & pos & H1 & H2 & H3).
  split; [exact E|]. split; [rewrite Hl; exact E|]. exists it, pos. split; [exact H1|]. split; [exact H2|apply H3].
Defined.
End BlockExample.
