(* ===== verification/FilterBlock.v ===== *)
(** The block of a table's filters (leveldb-library/table/filter_block.h and .cc): a filter for every
    2 KB of the file's offsets, over the keys of the blocks that start there. *)
From stdpp Require Import list.
From S2P Require Import Prelude Coding DbFormat.

Definition kFilterBaseLg : Z := 11.
Definition kFilterBase : Z := 1 << kFilterBaseLg.

Section builder.
Context {P : FilterPolicy}.

(** [keys_] is flattened; [tmp_keys_] is only used by one function. *)
Record FilterBlockBuilder := { keys_ : list Z; start_ : list Z; result_ : list Z; filter_offsets_ : list Z }.
Definition NewFilterBlockBuilder : FilterBlockBuilder := {| keys_ := []; start_ := []; result_ := []; filter_offsets_ := [] |}.

(** [tmp_keys_[i]]: from one start to the next. *)
Fixpoint cut_keys (keys : list Z) (start : list Z) : list (list Z) :=
  match start with
  | s :: ((s' :: _) as start) => take (Z.to_nat (s' - s)) (drop (Z.to_nat s) keys) :: cut_keys keys start
  | _ => []
  end.

Definition GenerateFilter (b : FilterBlockBuilder) : FilterBlockBuilder :=
  let num_keys := len (start_ b) in
  let filter_offsets := filter_offsets_ b ++ [u32 (len (result_ b))] in
  if num_keys =? 0 then {| keys_ := keys_ b; start_ := start_ b; result_ := result_ b; filter_offsets_ := filter_offsets |}
  else
    let start := start_ b ++ [len (keys_ b)] in
    let tmp_keys := cut_keys (keys_ b) start in
    {| keys_ := []; start_ := []; result_ := CreateFilter tmp_keys (result_ b); filter_offsets_ := filter_offsets |}.

(** [while (filter_index > filter_offsets_.size())]: every turn adds an offset. *)
Fixpoint generate_until (fuel : nat) (filter_index : Z) (b : FilterBlockBuilder) : FilterBlockBuilder :=
  if len (filter_offsets_ b) <? filter_index then
    match fuel with
    | O => b
    | S fuel => generate_until fuel filter_index (GenerateFilter b)
    end
  else b.
Definition StartBlock (block_offset : Z) (b : FilterBlockBuilder) : FilterBlockBuilder :=
  let filter_index := block_offset / kFilterBase in
  generate_until (Z.to_nat filter_index) filter_index b.

Definition AddKey (key : list Z) (b : FilterBlockBuilder) : FilterBlockBuilder :=
  {| keys_ := keys_ b ++ key; start_ := start_ b ++ [len (keys_ b)]; result_ := result_ b; filter_offsets_ := filter_offsets_ b |}.

(** The block, and the builder as it is left. *)
Definition FilterBlock_Finish (b : FilterBlockBuilder) : list Z * FilterBlockBuilder :=
  let b := if negb (len (start_ b) =? 0) then GenerateFilter b else b in
  let array_offset := u32 (len (result_ b)) in
  let result := foldl PutFixed32 (result_ b) (filter_offsets_ b) in
  let result := PutFixed32 result array_offset ++ [kFilterBaseLg] in
  (result, {| keys_ := keys_ b; start_ := start_ b; result_ := result; filter_offsets_ := filter_offsets_ b |}).

(** ** The reader *)

(** [offset_] is an offset into [data_]. *)
Record FilterBlockReader := { data_ : list Z; offset_ : Z; num_ : Z; base_lg_ : Z }.

Definition NewFilterBlockReader (contents : list Z) : FilterBlockReader :=
  let n := len contents in
  if n <? 5 then {| data_ := []; offset_ := 0; num_ := 0; base_lg_ := 0 |}
  else
    let base_lg := u64 (sint 8 (nth (Z.to_nat (n - 1)) contents 0)) in
    let last_word := DecodeFixed32 (drop (Z.to_nat (n - 5)) contents) in
    if n - 5 <? last_word then {| data_ := []; offset_ := 0; num_ := 0; base_lg_ := base_lg |}
    else {| data_ := contents; offset_ := last_word; num_ := (n - 5 - last_word) / 4; base_lg_ := base_lg |}.

(** [None]: the shift is undefined, or memory is read that is not the block's. *)
Definition FilterKeyMayMatch (block_offset : Z) (key : list Z) (r : FilterBlockReader) : option bool :=
  if 64 <=? base_lg_ r then None
  else
    let index := block_offset >> base_lg_ r in
    if index <? num_ r then
      match bytes_at (data_ r) (offset_ r + index * 4) 4, bytes_at (data_ r) (offset_ r + index * 4 + 4) 4 with
      | Some s, Some l =>
          let start := DecodeFixed32 s in
          let limit := DecodeFixed32 l in
          if (start <=? limit) && (limit <=? offset_ r) then
            match bytes_at (data_ r) start (limit - start) with
            | Some filter => Some (KeyMayMatch key filter)
            | None => None
            end
          else if start =? limit then Some false
          else Some true
      | _, _ => None
      end
    else Some true.
End builder.

(** The filter block there and back: no key that was added is missed. *)

Lemma kFilterBase_value : kFilterBase = 2048.
Proof. reflexivity. Qed.

(** ** Flattened keys *)

Fixpoint starts (base : Z) (keys : list (list Z)) : list Z :=
  match keys with [] => [] | k :: keys => base :: starts (base + len k) keys end.

Lemma starts_app base keys k : starts base (keys ++ [k]) = starts base keys ++ [base + len (concat keys)].
Proof. revert base. induction keys as [|q keys IH]; intros base; cbn; [by rewrite (@len_nil Z), Z.add_0_r|]. rewrite IH, len_app. do 3 f_equal. lia. Qed.

Lemma len_starts base keys : len (starts base keys) = len keys.
Proof. revert base. induction keys as [|q keys IH]; intros base; [done|]. cbn. by rewrite !len_cons, IH. Qed.

Lemma cut_keys_spec before keys : cut_keys (before ++ concat keys) (starts (len before) keys ++ [len before + len (concat keys)]) = keys.
Proof.
  revert before. induction keys as [|k keys IH]; intros before; [done|]. specialize (IH (before ++ k)). rewrite len_app, <- app_assoc in IH. cbn [starts concat app].
  assert (Hk : take (Z.to_nat (len before + len k - len before)) (drop (Z.to_nat (len before)) (before ++ k ++ concat keys)) = k).
  { rewrite len_to_nat, drop_app_length. replace (len before + len k - len before) with (len k) by lia. by rewrite len_to_nat, take_app_length. }
  rewrite len_app, Z.add_assoc. destruct keys as [|k' keys].
  - cbn in *. rewrite (@len_nil Z), Z.add_0_r. by rewrite Hk.
  - cbn [starts app] in *. cbn [cut_keys]. rewrite Hk. f_equal. exact IH.
Qed.

(** ** The builder *)

Section filters.
Context {P : FilterPolicy} {L : FilterPolicyLaws P}.

(** The filter of some keys; none for no key. *)
Definition made (keys : list (list Z)) : list Z := match keys with [] => [] | _ => CreateFilter keys [] end.
Definition all_made (fs : list (list (list Z))) : list Z := concat (map made fs).

(** A builder that has made the filters of [fs] and collects [pend]. *)
Record filtering (fs : list (list (list Z))) (pend : list (list Z)) (b : FilterBlockBuilder) : Prop := {
  filtering_result : result_ b = all_made fs;
  filtering_offsets : filter_offsets_ b = map (fun i => u32 (len (all_made (take i fs)))) (seq 0 (length fs));
  filtering_keys : keys_ b = concat pend;
  filtering_start : start_ b = starts 0 pend
}.

Lemma filtering_new : filtering [] [] NewFilterBlockBuilder.
Proof. done. Qed.

Lemma AddKey_filtering fs pend key b : filtering fs pend b -> filtering fs (pend ++ [key]) (AddKey key b).
Proof.
  intros [H1 H2 H3 H4]. split; cbn; try done.
  - rewrite H3, concat_app. cbn. by rewrite app_nil_r.
  - by rewrite H4, H3, starts_app.
Qed.

Lemma create_made keys dst : keys <> [] -> len keys < 2 ^ 31 -> CreateFilter keys dst = dst ++ made keys.
Proof. intros Hne Hn. destruct (create_filter_spec keys Hn) as (f & _ & Hf & _). unfold made. destruct keys; [done|]. by rewrite !Hf. Qed.

Lemma offsets_snoc fs pend : map (fun i => u32 (len (all_made (take i (fs ++ [pend]))))) (seq 0 (length (fs ++ [pend]))) =
  map (fun i => u32 (len (all_made (take i fs)))) (seq 0 (length fs)) ++ [u32 (len (all_made fs))].
Proof.
  rewrite length_app, Nat.add_comm. cbn [length Nat.add]. rewrite seq_S, map_app. cbn [map Nat.add]. f_equal.
  - apply map_ext_in. intros i Hi%in_seq. by rewrite take_app_le by lia.
  - by rewrite take_app_length.
Qed.

Lemma GenerateFilter_filtering fs pend b : filtering fs pend b -> len pend < 2 ^ 31 -> filtering (fs ++ [pend]) [] (GenerateFilter b).
Proof.
  intros [H1 H2 H3 H4] Hn. unfold GenerateFilter. rewrite H4, len_starts, H1, H2.
  assert (Ha : all_made (fs ++ [pend]) = all_made fs ++ made pend) by (unfold all_made; rewrite map_app, concat_app; cbn; by rewrite app_nil_r).
  destruct (Z.eqb_spec (len pend) 0) as [E|E].
  - apply len_zero_nil in E as ->. split; cbn [result_ filter_offsets_ keys_ start_]; [by rewrite Ha, app_nil_r|by rewrite offsets_snoc|done|done].
  - split; cbn [result_ filter_offsets_ keys_ start_]; [|by rewrite offsets_snoc|done|done].
    rewrite H3. pose proof (cut_keys_spec [] pend) as Hc. cbn [app] in Hc. rewrite (@len_nil Z), Z.add_0_l in Hc. rewrite Hc, Ha. apply create_made; [|done].
    intros ->. by rewrite (@len_nil (list Z)) in E.
Qed.

Lemma generate_until_filtering fuel fs pend b n : filtering fs pend b -> len pend < 2 ^ 31 -> (n <= length fs + fuel)%nat ->
  generate_until fuel (Z.of_nat n) b = b /\ (n <= length fs)%nat \/
  filtering (fs ++ pend :: replicate (n - length fs - 1) []) [] (generate_until fuel (Z.of_nat n) b) /\ (length fs < n)%nat.
Proof.
  revert fs pend b. induction fuel as [|fuel IH]; intros fs pend b Hb Hn Hf; cbn [generate_until]; rewrite (filtering_offsets _ _ _ Hb), len_map;
    (assert (E : len (seq 0 (length fs)) = Z.of_nat (length fs)) by (unfold len; by rewrite length_seq)); rewrite E; clear E.
  - rewrite (proj2 (Z.ltb_ge _ _)) by lia. left. split; [done|lia].
  - destruct (Z.ltb_spec (Z.of_nat (length fs)) (Z.of_nat n)) as [Hlt|Hge]; [|left; split; [done|lia]]. right.
    pose proof (GenerateFilter_filtering fs pend b Hb Hn) as Hg. destruct (IH _ _ _ Hg) as [[E Hle]|[Hd Hlt']]; [rewrite (@len_nil (list Z)); lia|rewrite length_app; cbn; lia| |].
    + rewrite length_app in Hle. cbn in Hle. rewrite E. replace (n - length fs - 1)%nat with 0%nat by lia. by split; [|lia].
    + rewrite length_app in Hd, Hlt'. cbn in Hd, Hlt'. split; [|lia]. rewrite <- app_assoc in Hd. cbn in Hd.
      replace (n - length fs - 1)%nat with (S (n - (length fs + 1) - 1)) by lia. exact Hd.
Qed.

(** Where the keys of the block at an offset are: in its filter, or among those for it. *)
Definition covered (fs : list (list (list Z))) (block_offset : Z) (key : list Z) : Prop :=
  exists keys, fs !! Z.to_nat (block_offset / kFilterBase) = Some keys /\ key ∈ keys.

Lemma covered_app fs fs' o key : covered fs o key -> covered (fs ++ fs') o key.
Proof. intros (keys & Hk & Hin). exists keys. split; [|done]. by apply lookup_app_l_Some. Qed.

(** In front of the block at [cur], with the keys [added] and the offsets of their blocks. *)
Definition filter_state (cur : Z) (added : list (Z * list Z)) (b : FilterBlockBuilder) : Prop := exists fs pend,
  filtering fs pend b /\ Z.of_nat (length fs) = cur / kFilterBase /\ (forall o k, (o, k) ∈ added -> covered (fs ++ [pend]) o k) /\
  Forall (fun keys => len keys <= len added) (fs ++ [pend]).

Lemma filter_state_new : filter_state 0 [] (StartBlock 0 NewFilterBlockBuilder).
Proof.
  exists [], []. split; [apply filtering_new|]. split; [done|]. split; [intros o k H; by apply elem_of_nil in H|]. constructor; [done|constructor].
Qed.

Lemma filter_state_start cur o added b : filter_state cur added b -> 0 <= cur <= o -> len added < 2 ^ 31 -> filter_state o added (StartBlock o b).
Proof.
  intros (fs & pend & Hb & Hl & Hc & Hs) Ho Hn. unfold StartBlock. rewrite kFilterBase_value in *. assert (cur / 2048 <= o / 2048) by (apply Z.div_le_mono; lia).
  assert (0 <= cur / 2048) by (apply Z.div_pos; lia). set (n := Z.to_nat (o / 2048)). replace (o / 2048) with (Z.of_nat n) by lia. apply Forall_app in Hs as [Hfs Hp].
  pose proof (Forall_inv Hp) as Hpend. cbn in Hpend. pose proof (len_nonneg added). destruct (generate_until_filtering n fs pend b n Hb ltac:(lia) ltac:(lia)) as [[-> Hle]|[Hg Hlt]].
  - exists fs, pend. rewrite kFilterBase_value. split; [done|]. split; [lia|]. split; [done|]. by apply Forall_app.
  - eexists _, []. split; [exact Hg|]. split; [rewrite kFilterBase_value, length_app; cbn [length]; rewrite length_replicate; lia|]. split.
    + intros q k Hin. specialize (Hc q k Hin). replace ((fs ++ pend :: replicate (n - length fs - 1) []) ++ [[]]) with ((fs ++ [pend]) ++ replicate (n - length fs - 1) [] ++ [[]]) by (by rewrite <- !app_assoc).
      by apply covered_app.
    + rewrite !Forall_app. split; [split; [done|]|constructor; [done|constructor]]. constructor; [done|]. by apply Forall_replicate.
Qed.

Lemma filter_state_add cur added key b : filter_state cur added b -> 0 <= cur -> filter_state cur (added ++ [(cur, key)]) (AddKey key b).
Proof.
  intros (fs & pend & Hb & Hl & Hc & Hs) Hcur. exists fs, (pend ++ [key]). split; [by apply AddKey_filtering|]. split; [done|].
  assert (El : len (added ++ [(cur, key)]) = len added + 1) by (rewrite len_app, len_cons, (@len_nil (Z * list Z)); lia). rewrite El. split.
  - intros o k [Hin|Hin%list_elem_of_singleton]%elem_of_app.
    + destruct (Hc o k Hin) as (keys & Hk & Hink). apply lookup_snoc_Some in Hk as [[Hlt Hk]|[Ei <-]].
      * exists keys. by rewrite lookup_app_l.
      * exists (pend ++ [key]). rewrite list_lookup_middle by done. split; [done|]. apply elem_of_app. by left.
    + injection Hin as -> ->. exists (pend ++ [key]). rewrite <- Hl, Nat2Z.id, list_lookup_middle by done. split; [done|]. apply elem_of_app. right. by left.
  - apply Forall_app in Hs as [Hfs Hp]. apply Forall_inv in Hp. apply Forall_app. split.
    + eapply Forall_impl; [exact Hfs|]. cbn. lia.
    + constructor; [|constructor]. rewrite len_app, len_cons, (@len_nil (list Z)). cbn in Hp. lia.
Qed.

(** ** The block *)

Definition filter_offsets (fs : list (list (list Z))) : list Z := map (fun i => len (all_made (take i fs))) (seq 0 (S (length fs))).
Definition filter_block (fs : list (list (list Z))) : list Z := all_made fs ++ fixed_array (filter_offsets fs) ++ [kFilterBaseLg].

Lemma filter_offsets_at fs i : (i <= length fs)%nat -> filter_offsets fs !! i = Some (len (all_made (take i fs))).
Proof. intros H. unfold filter_offsets. rewrite list_lookup_fmap, lookup_seq_lt by lia. done. Qed.

Lemma all_made_split fs i : all_made fs = all_made (take i fs) ++ all_made (drop i fs).
Proof. unfold all_made. by rewrite <- concat_app, <- map_app, take_drop. Qed.

Lemma len_filter_block fs : len (filter_block fs) = len (all_made fs) + 4 * Z.of_nat (length fs) + 5.
Proof. unfold filter_block, filter_offsets. rewrite !len_app, len_fixed_array, len_map, len_cons, (@len_nil Z). unfold len at 2. rewrite length_seq. lia. Qed.

Lemma all_made_le fs i : 0 <= len (all_made (take i fs)) <= len (all_made fs).
Proof. rewrite (all_made_split fs i), len_app. pose proof (len_nonneg (all_made (take i fs))). pose proof (len_nonneg (all_made (drop i fs))). lia. Qed.

Lemma made_bytes keys : len keys < 2 ^ 31 -> Forall byte (made keys).
Proof. intros Hn. destruct keys as [|k keys]; [constructor|]. destruct (create_filter_spec _ Hn) as (f & Hf & E & _). cbn [made]. by rewrite E. Qed.

Lemma filter_block_bytes fs : Forall (fun keys => len keys < 2 ^ 31) fs -> Forall byte (filter_block fs).
Proof.
  intros Hs. unfold filter_block. rewrite !Forall_app. split; [|split; [|by repeat constructor]].
  - unfold all_made. induction Hs as [|keys fs Hk Hs IH]; [constructor|]. cbn. apply Forall_app. split; [by apply made_bytes|done].
  - apply fixed_array_byte.
Qed.

Lemma Finish_filtering fs pend b : filtering fs pend b -> len pend < 2 ^ 31 -> let all := fs ++ match pend with [] => [] | _ => [pend] end in
  len (fst (FilterBlock_Finish b)) < 2 ^ 32 -> fst (FilterBlock_Finish b) = filter_block all /\ len (filter_block all) < 2 ^ 32.
Proof.
  intros Hb Hn all Hs. set (b' := if negb (len (start_ b) =? 0) then GenerateFilter b else b).
  assert (Hb' : filtering all [] b').
  { unfold b', all. rewrite (filtering_start _ _ _ Hb), len_starts. destruct pend as [|k pend]; [by rewrite app_nil_r|].
    rewrite len_cons. pose proof (len_nonneg pend). rewrite (proj2 (Z.eqb_neq _ _)) by lia. cbn [negb]. by apply GenerateFilter_filtering. }
  assert (E : fst (FilterBlock_Finish b) = all_made all ++ fixed_array (map (fun i => u32 (len (all_made (take i all)))) (seq 0 (length all)) ++ [u32 (len (all_made all))]) ++ [kFilterBaseLg]).
  { unfold FilterBlock_Finish. fold b'. cbn [fst]. rewrite put_fixed_array, (filtering_result _ _ _ Hb'), (filtering_offsets _ _ _ Hb'). unfold PutFixed32, fixed_array.
    rewrite map_app, concat_app. cbn [map concat]. by rewrite app_nil_r, <- !app_assoc. }
  rewrite E in *. rewrite !len_app, len_fixed_array in Hs.
  assert (Hal : len (all_made all) < 2 ^ 32).
  { match type of Hs with _ + (4 * len ?x + len ?y) < _ => pose proof (len_nonneg x); pose proof (len_nonneg y); lia end. }
  assert (Eo : map (fun i => u32 (len (all_made (take i all)))) (seq 0 (length all)) ++ [u32 (len (all_made all))] = filter_offsets all).
  { unfold filter_offsets. rewrite seq_S, map_app. cbn [map Nat.add]. rewrite take_ge by done. pose proof (len_nonneg (all_made all)). f_equal; [|by rewrite u32_id by lia].
    apply map_ext. intros i. pose proof (all_made_le all i). by rewrite u32_id by lia. }
  rewrite Eo in *. split; [done|]. unfold filter_block. rewrite !len_app, len_fixed_array. lia.
Qed.

(** ** The reader *)

Lemma reader_of_block fs : len (filter_block fs) < 2 ^ 32 -> NewFilterBlockReader (filter_block fs) =
  {| data_ := filter_block fs; offset_ := len (all_made fs); num_ := Z.of_nat (length fs); base_lg_ := kFilterBaseLg |}.
Proof.
  intros Hs. pose proof (len_filter_block fs) as Hl. pose proof (len_nonneg (all_made fs)). unfold NewFilterBlockReader. rewrite (proj2 (Z.ltb_ge _ _)) by lia.
  assert (Hlast : nth (Z.to_nat (len (filter_block fs) - 1)) (filter_block fs) 0 = kFilterBaseLg).
  { unfold filter_block. rewrite app_assoc, len_app, len_cons, (@len_nil Z). rewrite app_nth2 by (unfold len; lia). by replace (_ - _)%nat with 0%nat by (unfold len; lia). }
  rewrite Hlast. change (u64 (sint 8 kFilterBaseLg)) with kFilterBaseLg.
  assert (Hword : DecodeFixed32 (drop (Z.to_nat (len (filter_block fs) - 5)) (filter_block fs)) = len (all_made fs)).
  { pose proof (fixed_array_at (all_made fs) (filter_offsets fs) [kFilterBaseLg] (length fs) _ (filter_offsets_at fs (length fs) ltac:(lia))) as Hw. rewrite take_ge in Hw by done.
    fold (filter_block fs) in Hw. rewrite bytes_at_spec in Hw by lia. injection Hw as Hw. change (Z.to_nat 4) with 4%nat in Hw.
    replace (Z.to_nat (len (filter_block fs) - 5)) with (Z.to_nat (len (all_made fs) + Z.of_nat (length fs) * 4)) by lia.
    pose proof (DecodeFixed32_encode (len (all_made fs)) ltac:(lia)) as D. unfold DecodeFixed32 in *. rewrite take_ge in D by (by rewrite EncodeFixed32_length). by rewrite Hw. }
  rewrite Hword, (proj2 (Z.ltb_ge _ _)) by lia. f_equal. rewrite Hl. replace (_ + _ + 5 - 5 - _) with (Z.of_nat (length fs) * 4) by lia. by apply Z.div_mul.
Qed.

(** What the reader answers, for any offset. *)
Lemma FilterKeyMayMatch_spec fs o key : len (filter_block fs) < 2 ^ 32 -> 0 <= o ->
  FilterKeyMayMatch o key (NewFilterBlockReader (filter_block fs)) =
    Some (match fs !! Z.to_nat (o / kFilterBase) with Some keys => KeyMayMatch key (made keys) | None => true end).
Proof.
  intros Hs Ho. rewrite (reader_of_block fs Hs). unfold FilterKeyMayMatch. cbn [base_lg_ num_ data_ offset_]. change (64 <=? kFilterBaseLg) with false. cbv iota.
  rewrite shiftr_div by done. change (2 ^ kFilterBaseLg) with 2048. rewrite kFilterBase_value. assert (0 <= o / 2048) by (apply Z.div_pos; lia).
  set (i := Z.to_nat (o / 2048)). replace (o / 2048) with (Z.of_nat i) by lia. destruct (Z.ltb_spec (Z.of_nat i) (Z.of_nat (length fs))) as [Hlt|Hge]; [|by rewrite lookup_ge_None_2 by lia].
  destruct (lookup_lt_is_Some_2 fs i ltac:(lia)) as [keys Hk]. rewrite Hk. unfold filter_block at 1.
  rewrite (fixed_array_at _ _ _ i _ (filter_offsets_at fs i ltac:(lia))).
  replace (len (all_made fs) + Z.of_nat i * 4 + 4) with (len (all_made fs) + Z.of_nat (S i) * 4) by lia. unfold filter_block at 1.
  rewrite (fixed_array_at _ _ _ (S i) _ (filter_offsets_at fs (S i) ltac:(lia))). pose proof (len_filter_block fs) as Hl. pose proof (all_made_le fs i). pose proof (all_made_le fs (S i)).
  rewrite !DecodeFixed32_encode by lia.
  assert (Es : all_made (take (S i) fs) = all_made (take i fs) ++ made keys) by (unfold all_made; rewrite (take_S_r _ _ _ Hk), map_app, concat_app; cbn; by rewrite app_nil_r).
  rewrite Es, len_app. pose proof (len_nonneg (made keys)). rewrite !(proj2 (Z.leb_le _ _)) by (rewrite ?Es, ?len_app in *; lia). cbn [andb].
  replace (len (all_made (take i fs)) + len (made keys) - len (all_made (take i fs))) with (len (made keys)) by lia.
  assert (E : filter_block fs = all_made (take i fs) ++ made keys ++ (all_made (drop (S i) fs) ++ fixed_array (filter_offsets fs) ++ [kFilterBaseLg])).
  { unfold filter_block. rewrite (all_made_split fs (S i)), Es. by rewrite <- !app_assoc. }
  by rewrite E, bytes_at_middle.
Qed.

(** The contents of a filter block over some keys: bytes, a reader of it returns, and no key is missed. *)
Definition filters_of (like : list Z -> list Z) (added : list (Z * list Z)) (contents : list Z) : Prop := Forall byte contents /\
  forall o key, 0 <= o -> exists r, FilterKeyMayMatch o key (NewFilterBlockReader contents) = Some r /\
    (forall k, (o, k) ∈ added -> like k = like key -> r = true).

Lemma Finish_filter_state cur added b : filter_state cur added b -> len added < 2 ^ 31 -> len (fst (FilterBlock_Finish b)) < 2 ^ 32 -> filters_of filter_key added (fst (FilterBlock_Finish b)).
Proof.
  intros (fs & pend & Hb & Hl & Hc & Hs) Hn Hlen. apply Forall_app in Hs as [Hfs Hp]. apply Forall_inv in Hp. cbn in Hp.
  destruct (Finish_filtering fs pend b Hb ltac:(lia) Hlen) as [-> Hlen']. set (all := fs ++ match pend with [] => [] | _ => [pend] end) in *.
  assert (Hall : Forall (fun keys => len keys < 2 ^ 31) all).
  { unfold all. apply Forall_app. split; [eapply Forall_impl; [exact Hfs|cbn; lia]|]. destruct pend; repeat constructor. lia. }
  split; [by apply filter_block_bytes|]. intros o key Ho. rewrite (FilterKeyMayMatch_spec all o key Hlen' Ho). eexists. split; [done|]. intros k Hin Hkey.
  destruct (Hc o k Hin) as (keys & Hk & Hink).
  assert (Hk' : all !! Z.to_nat (o / kFilterBase) = Some keys).
  { unfold all. apply lookup_snoc_Some in Hk as [[Hlt Hk]|[Ei <-]]; [by rewrite lookup_app_l|]. destruct pend as [|q pend]; [by apply elem_of_nil in Hink|]. rewrite Ei. by apply list_lookup_middle. }
  rewrite Hk'. pose proof (Forall_lookup_1 _ _ _ _ Hall Hk') as Hks. cbn in Hks. destruct (create_filter_spec keys Hks) as (f & _ & E & Hm).
  assert (made keys = f) as ->; [|apply Hm; rewrite <- Hkey; by apply list_elem_of_fmap_2]. unfold made. destruct keys; [by apply elem_of_nil in Hink|]. apply E.
Qed.
End filters.
