(* ===== verification/TwoLevel.v ===== *)
(** The iterator over blocks that an index leads to (leveldb-library/table/two_level_iterator.cc). *)
From stdpp Require Import list.
From S2P Require Import Prelude Comparator Status Iterator.

Section two_level.
Context {W I1 I2 : Type} {IT1 : Iterator W I1} {IT2 : Iterator W I2}.
(** [block_function_] with its argument and options: the iterator of a block. *)
Context (block_function : list Z -> D W I2).
(** How many blocks a call may pass. *)
Context (patience : nat).

(** [status_] is the first error of a data iterator that was given up. *)
Record TwoLevelIterator := {
  tl_status_ : Status;
  index_iter_ : IteratorWrapper I1;
  data_iter_ : IteratorWrapper I2;
  data_block_handle_ : list Z
}.
Definition set_tl_status (s : Status) (it : TwoLevelIterator) : TwoLevelIterator :=
  {| tl_status_ := s; index_iter_ := index_iter_ it; data_iter_ := data_iter_ it; data_block_handle_ := data_block_handle_ it |}.
Definition set_index_iter (i : IteratorWrapper I1) (it : TwoLevelIterator) : TwoLevelIterator :=
  {| tl_status_ := tl_status_ it; index_iter_ := i; data_iter_ := data_iter_ it; data_block_handle_ := data_block_handle_ it |}.
Definition set_data_iter (d : IteratorWrapper I2) (it : TwoLevelIterator) : TwoLevelIterator :=
  {| tl_status_ := tl_status_ it; index_iter_ := index_iter_ it; data_iter_ := d; data_block_handle_ := data_block_handle_ it |}.
Definition set_handle (h : list Z) (it : TwoLevelIterator) : TwoLevelIterator :=
  {| tl_status_ := tl_status_ it; index_iter_ := index_iter_ it; data_iter_ := data_iter_ it; data_block_handle_ := h |}.

Definition NewTwoLevelIterator (index_iter : I1) : TwoLevelIterator :=
  {| tl_status_ := Status_OK; index_iter_ := NewWrapper (Some index_iter); data_iter_ := NewWrapper None; data_block_handle_ := [] |}.

Definition has_data (it : TwoLevelIterator) : bool := match iter_ (data_iter_ it) with Some _ => true | None => false end.

Definition TwoLevel_status (it : TwoLevelIterator) : Status :=
  if negb (ok (Wrapper_status (index_iter_ it))) then Wrapper_status (index_iter_ it)
  else if has_data it && negb (ok (Wrapper_status (data_iter_ it))) then Wrapper_status (data_iter_ it)
  else tl_status_ it.

Definition SaveError (s : Status) (it : TwoLevelIterator) : TwoLevelIterator :=
  if ok (tl_status_ it) && negb (ok s) then set_tl_status s it else it.

Definition SetDataIterator (data_iter : option I2) (it : TwoLevelIterator) : TwoLevelIterator :=
  let it := if has_data it then SaveError (Wrapper_status (data_iter_ it)) it else it in
  set_data_iter (Wrapper_Set data_iter (data_iter_ it)) it.

Definition InitDataBlock (it : TwoLevelIterator) : D W TwoLevelIterator :=
  if negb (Wrapper_Valid (index_iter_ it)) then dret (SetDataIterator None it)
  else
    let! handle := dfrom (Wrapper_value (index_iter_ it)) in
    if has_data it && (match Slice_compare handle (data_block_handle_ it) with Eq => true | _ => false end) then dret it
    else
      let! iter := block_function handle in
      dret (SetDataIterator (Some iter) (set_handle handle it)).

(** An operation on the data iterator, when there is one. *)
Definition on_data (op : IteratorWrapper I2 -> D W (IteratorWrapper I2)) (it : TwoLevelIterator) : D W TwoLevelIterator :=
  if has_data it then let! d := op (data_iter_ it) in dret (set_data_iter d it) else dret it.
Definition on_index (op : IteratorWrapper I1 -> D W (IteratorWrapper I1)) (it : TwoLevelIterator) : D W TwoLevelIterator :=
  let! i := op (index_iter_ it) in dret (set_index_iter i it).

Fixpoint SkipEmptyDataBlocksForward (fuel : nat) (it : TwoLevelIterator) : D W TwoLevelIterator :=
  if negb (has_data it) || negb (Wrapper_Valid (data_iter_ it)) then
    if negb (Wrapper_Valid (index_iter_ it)) then dret (SetDataIterator None it)
    else
      match fuel with
      | O => running
      | S fuel =>
          let! it := on_index Wrapper_Next it in
          let! it := InitDataBlock it in
          let! it := on_data Wrapper_SeekToFirst it in
          SkipEmptyDataBlocksForward fuel it
      end
  else dret it.

Fixpoint SkipEmptyDataBlocksBackward (fuel : nat) (it : TwoLevelIterator) : D W TwoLevelIterator :=
  if negb (has_data it) || negb (Wrapper_Valid (data_iter_ it)) then
    if negb (Wrapper_Valid (index_iter_ it)) then dret (SetDataIterator None it)
    else
      match fuel with
      | O => running
      | S fuel =>
          let! it := on_index Wrapper_Prev it in
          let! it := InitDataBlock it in
          let! it := on_data Wrapper_SeekToLast it in
          SkipEmptyDataBlocksBackward fuel it
      end
  else dret it.

Definition TwoLevel_Seek (target : list Z) (it : TwoLevelIterator) : D W TwoLevelIterator :=
  let! it := on_index (Wrapper_Seek target) it in
  let! it := InitDataBlock it in
  let! it := on_data (Wrapper_Seek target) it in
  SkipEmptyDataBlocksForward patience it.

Definition TwoLevel_SeekToFirst (it : TwoLevelIterator) : D W TwoLevelIterator :=
  let! it := on_index Wrapper_SeekToFirst it in
  let! it := InitDataBlock it in
  let! it := on_data Wrapper_SeekToFirst it in
  SkipEmptyDataBlocksForward patience it.

Definition TwoLevel_SeekToLast (it : TwoLevelIterator) : D W TwoLevelIterator :=
  let! it := on_index Wrapper_SeekToLast it in
  let! it := InitDataBlock it in
  let! it := on_data Wrapper_SeekToLast it in
  SkipEmptyDataBlocksBackward patience it.

(** [Next] and [Prev] may be called only when there is data. *)
Definition TwoLevel_Next (it : TwoLevelIterator) : D W TwoLevelIterator :=
  let! d := Wrapper_Next (data_iter_ it) in
  SkipEmptyDataBlocksForward patience (set_data_iter d it).
Definition TwoLevel_Prev (it : TwoLevelIterator) : D W TwoLevelIterator :=
  let! d := Wrapper_Prev (data_iter_ it) in
  SkipEmptyDataBlocksBackward patience (set_data_iter d it).

#[export] Instance TwoLevelIter : Iterator W TwoLevelIterator := {
  Valid it := Wrapper_Valid (data_iter_ it);
  iter_key it := Wrapper_key (data_iter_ it);
  iter_value it := Wrapper_value (data_iter_ it);
  iter_status := TwoLevel_status;
  SeekToFirst := TwoLevel_SeekToFirst;
  SeekToLast := TwoLevel_SeekToLast;
  Seek := TwoLevel_Seek;
  Next := TwoLevel_Next;
  Prev := TwoLevel_Prev
}.
End two_level.
Arguments TwoLevelIterator I1 I2 : clear implicits.

(** The two-level iterator walks along the entries of the blocks, one block after the other. *)

(** ** The wrapper *)

Section wrapper.
Context {C : Comparator} {CL : ComparatorLaws C} {W I : Type} {IT : Iterator W I}.

(** A wrapper of an iterator at a position, up to date. *)
Definition wrapper_at (pos : I -> nat -> Prop) (w : IteratorWrapper I) (i : nat) : Prop :=
  exists it, iter_ w = Some it /\ pos it i /\ valid_ w = Valid it /\ (Valid it = true -> wrapped_key_ w = iter_key it).

Lemma Update_at (pos : I -> nat -> Prop) w it i : pos it i -> wrapper_at pos (Update it w) i.
Proof. intros H. exists it. split_and!; try done. cbn. by intros ->. Qed.

Lemma wrapped_spec (pos : I -> nat -> Prop) (inv : W -> Prop) op w i j s : wrapper_at pos w i ->
  (forall it, pos it i -> exists it' s', op it s = Some (it', s') /\ inv s' /\ pos it' j) ->
  exists w' s', wrapped op w s = Some (w', s') /\ inv s' /\ wrapper_at pos w' j.
Proof.
  intros (it & Hi & Hp & _) Hop. destruct (Hop it Hp) as (it' & s' & E & Hs & Hp'). exists (Update it' w), s'.
  unfold wrapped, dbind. rewrite Hi, E. split; [done|]. split; [done|by apply Update_at].
Qed.

Context (inv : W -> Prop) (entries : list (list Z * list Z)) (pos : I -> nat -> Prop) {WK : Walks inv entries pos}.

Lemma wrapper_valid w i : wrapper_at pos w i -> (i <= length entries)%nat /\ Wrapper_Valid w = bool_decide (i < length entries)%nat.
Proof. intros (it & _ & Hp & Hv & _). unfold Wrapper_Valid. rewrite Hv. by apply (walk_valid (inv := inv)). Qed.

Lemma wrapper_entry w i k v : wrapper_at pos w i -> entries !! i = Some (k, v) -> Wrapper_key w = k /\ Wrapper_value w = Some v.
Proof.
  intros (it & Hi & Hp & Hv & Hk) He. unfold Wrapper_key, Wrapper_value. rewrite Hi. destruct (walk_entry (inv := inv) it i k v Hp He) as [E1 E2].
  destruct (walk_valid (inv := inv) it i Hp) as [_ Hval]. rewrite Hk; [done|]. rewrite Hval. apply bool_decide_true. by apply lookup_lt_Some in He.
Qed.

Lemma wrapper_ok w i : wrapper_at pos w i -> ok (Wrapper_status w) = true.
Proof. intros (it & Hi & Hp & _). unfold Wrapper_status. rewrite Hi. by apply (walk_status (inv := inv) it i). Qed.
End wrapper.

(** ** Two levels *)

Section two_level.
Context {C : Comparator} {CL : ComparatorLaws C} {W I1 I2 : Type} {IT1 : Iterator W I1} {IT2 : Iterator W I2}.
Context (inv : W -> Prop) (idx : list (list Z * list Z)) (pos1 : I1 -> nat -> Prop) {WK1 : Walks inv idx pos1}.
(** What the blocks of the index hold, and where their iterators are. *)
Context (block : list Z -> list (list Z * list Z)) (pos2 : list Z -> I2 -> nat -> Prop).
Context (block_function : list Z -> D W I2) (patience : nat).

Class Blocks : Prop := {
  block_walk h : h ∈ idx.*2 -> Walks inv (block h) (pos2 h);
  block_open h w : h ∈ idx.*2 -> inv w -> exists it w' j, block_function h w = Some (it, w') /\ inv w' /\ pos2 h it j;
  block_count : (length idx < patience)%nat
}.
Context {HB : Blocks}.

Definition blocks (i : list (list Z * list Z)) : list (list Z * list Z) := concat (map (fun e => block e.2) i).
Definition start (i : nat) : nat := length (blocks (take i idx)).
Let entries := blocks idx.
Let T := TwoLevelIterator I1 I2.

Lemma start_0 : start 0 = 0%nat.
Proof. done. Qed.
Lemma start_S i k h : idx !! i = Some (k, h) -> start (S i) = (start i + length (block h))%nat.
Proof. intros H. unfold start, blocks. rewrite (take_S_r _ _ _ H), map_app, concat_app, length_app. cbn. by rewrite app_nil_r. Qed.
Lemma start_all : start (length idx) = length entries.
Proof. unfold start, entries. by rewrite take_ge. Qed.
Lemma start_le i : (start i <= length entries)%nat.
Proof. unfold start, entries, blocks. rewrite <- (take_drop i idx) at 2. rewrite map_app, concat_app, length_app. lia. Qed.

Lemma blocks_split i k h : idx !! i = Some (k, h) -> blocks idx = blocks (take i idx) ++ block h ++ blocks (drop (S i) idx).
Proof.
  intros H. transitivity (blocks (take i idx ++ (k, h) :: drop (S i) idx)); [by rewrite (take_drop_middle _ _ _ H)|].
  unfold blocks. by rewrite map_app, concat_app.
Qed.

Lemma entry_in_block i j k h e : idx !! i = Some (k, h) -> block h !! j = Some e -> entries !! (start i + j)%nat = Some e.
Proof.
  intros Hi Hj. unfold entries, start. rewrite (blocks_split i k h Hi), lookup_app_r by lia.
  replace (_ + j - _)%nat with j by lia. by rewrite lookup_app_l by (by apply lookup_lt_Some in Hj).
Qed.

(** The index iterator is at [i]; the data iterator, if there is one, is of the block its handle names. *)
Record tracks (it : T) (i : nat) : Prop := {
  tracks_index : wrapper_at pos1 (index_iter_ it) i;
  tracks_data : has_data it = false \/ exists h j, h ∈ idx.*2 /\ data_block_handle_ it = h /\ wrapper_at (pos2 h) (data_iter_ it) j;
  tracks_status : tl_status_ it = Status_OK
}.

(** The data iterator is at entry [j] of block [i]. *)
Record in_block (it : T) (i j : nat) : Prop := {
  in_index : wrapper_at pos1 (index_iter_ it) i;
  in_data : exists k h, idx !! i = Some (k, h) /\ data_block_handle_ it = h /\ wrapper_at (pos2 h) (data_iter_ it) j;
  in_status : tl_status_ it = Status_OK
}.

(** Behind the last block. *)
Record past_end (it : T) : Prop := {
  end_index : wrapper_at pos1 (index_iter_ it) (length idx);
  end_data : iter_ (data_iter_ it) = None /\ valid_ (data_iter_ it) = false;
  end_status : tl_status_ it = Status_OK
}.

Definition two_pos (it : T) (p : nat) : Prop :=
  (p = length entries /\ past_end it) \/
  exists i j k h, idx !! i = Some (k, h) /\ (j < length (block h))%nat /\ in_block it i j /\ p = (start i + j)%nat.

Lemma handle_in i k h : idx !! i = Some (k, h) -> h ∈ idx.*2.
Proof. intros H. apply list_elem_of_lookup. exists i. by rewrite list_lookup_fmap, H. Qed.

Lemma has_data_at pos (it : T) j : wrapper_at pos (data_iter_ it) j -> has_data it = true.
Proof. intros (i & E & _). unfold has_data. by rewrite E. Qed.

Lemma in_block_tracks it i j : in_block it i j -> tracks it i.
Proof. intros [H1 (k & h & Hi & Hh & Hd) H3]. split; [done| |done]. right. exists h, j. split_and!; try done. by apply (handle_in i k). Qed.

Lemma past_end_tracks it : past_end it -> tracks it (length idx).
Proof. intros [H1 [H2 _] H3]. split; [done| |done]. left. unfold has_data. by rewrite H2. Qed.

Lemma two_pos_tracks it p : two_pos it p -> exists i, tracks it i.
Proof. intros [[_ H%past_end_tracks]|(i & j & k & h & _ & _ & H%in_block_tracks & _)]; by eexists. Qed.

Lemma SetDataIterator_status d it i : tracks it i -> tl_status_ (SetDataIterator d it) = Status_OK.
Proof.
  intros [_ Hd Hs]. unfold SetDataIterator. destruct Hd as [->|(h & j & Hh & _ & Hw)]; [by destruct d|].
  rewrite (has_data_at _ _ _ Hw). pose proof (block_walk h Hh). unfold SaveError. rewrite (wrapper_ok inv _ _ _ _ Hw), andb_false_r. by destruct d.
Qed.

Lemma SetDataIterator_index d (it : T) : index_iter_ (SetDataIterator d it) = index_iter_ it.
Proof. unfold SetDataIterator. unfold SaveError. destruct (has_data it), (ok (tl_status_ it)), (ok (Wrapper_status (data_iter_ it))); by destruct d. Qed.

Lemma SetDataIterator_handle d (it : T) : data_block_handle_ (SetDataIterator d it) = data_block_handle_ it.
Proof. unfold SetDataIterator. unfold SaveError. destruct (has_data it), (ok (tl_status_ it)), (ok (Wrapper_status (data_iter_ it))); by destruct d. Qed.

Lemma SetDataIterator_data d (it : T) : data_iter_ (SetDataIterator d it) = Wrapper_Set d (data_iter_ it).
Proof. unfold SetDataIterator, SaveError. destruct (has_data it), (ok (tl_status_ it)), (ok (Wrapper_status (data_iter_ it))); by destruct d. Qed.

Lemma InitDataBlock_spec it i k h w : tracks it i -> inv w -> idx !! i = Some (k, h) ->
  exists it' w' j, InitDataBlock block_function it w = Some (it', w') /\ inv w' /\ in_block it' i j.
Proof.
  intros Ht Hw Hi. pose proof Ht as [Hx Hd Hs]. pose proof (handle_in _ _ _ Hi) as Hin. unfold InitDataBlock.
  destruct (wrapper_valid inv idx pos1 _ _ Hx) as [_ ->]. rewrite bool_decide_true by (by apply lookup_lt_Some in Hi). cbn [negb].
  destruct (wrapper_entry inv idx pos1 _ _ _ _ Hx Hi) as [_ Hv]. unfold dbind at 1, dfrom. rewrite Hv.
  assert (Hnew : exists it' w' j, (let! iter := block_function h in dret (SetDataIterator (Some iter) (set_handle h it))) w = Some (it', w') /\ inv w' /\ in_block it' i j).
  { destruct (block_open h w Hin Hw) as (d & w' & j & E & Hw' & Hp). unfold dbind. rewrite E. eexists _, w', j. split; [done|]. split; [done|]. split.
    - by rewrite SetDataIterator_index.
    - exists k, h. split; [done|]. rewrite SetDataIterator_handle, SetDataIterator_data. split; [done|]. by apply Update_at.
    - assert (H : tl_status_ (SetDataIterator (Some d) it) = Status_OK) by (by apply (SetDataIterator_status _ _ i)).
      unfold SetDataIterator, SaveError, set_handle, has_data in *. cbn in *. by destruct (iter_ (data_iter_ it)), (ok (tl_status_ it)), (ok (Wrapper_status (data_iter_ it))). }
  destruct Hd as [->|(h' & j & Hh' & Eh & Hd)]; [done|]. rewrite (has_data_at _ _ _ Hd), Eh. cbn [andb].
  destruct (Slice_compare h h') eqn:Ec; [|done|done]. rewrite Slice_compare_lex in Ec. apply lex_compare_eq in Ec as <-.
  exists it, w, j. split; [done|]. split; [done|]. split; [done| |done]. by exists k, h.
Qed.

Lemma SetDataIterator_end it : tracks it (length idx) -> past_end (SetDataIterator None it).
Proof.
  intros Ht. split; [rewrite SetDataIterator_index; apply Ht| |by apply (SetDataIterator_status _ _ _ Ht)].
  by rewrite SetDataIterator_data.
Qed.

Lemma InitDataBlock_end it w : tracks it (length idx) -> exists it', InitDataBlock block_function it w = Some (it', w) /\ past_end it'.
Proof.
  intros Ht. pose proof Ht as [Hx _ _]. unfold InitDataBlock. destruct (wrapper_valid inv idx pos1 _ _ Hx) as [_ ->]. rewrite bool_decide_false by lia.
  exists (SetDataIterator None it). split; [done|]. by apply SetDataIterator_end.
Qed.

(** Moving one of the two iterators. *)
Lemma on_index_spec op it i i' w : tracks it i -> (forall x, pos1 x i -> exists x' w', op x w = Some (x', w') /\ inv w' /\ pos1 x' i') ->
  exists it' w', on_index (wrapped op) it w = Some (it', w') /\ inv w' /\ tracks it' i'.
Proof.
  intros [Hx Hd Hs] Hop. destruct (wrapped_spec pos1 inv op _ i i' w Hx Hop) as (x' & w' & E & Hw & Hx'). unfold on_index, dbind. rewrite E.
  exists (set_index_iter x' it), w'. split; [done|]. split; [done|]. by split.
Qed.

Lemma on_data_spec op it i j j' k h w : in_block it i j -> idx !! i = Some (k, h) ->
  (forall x, pos2 h x j -> exists x' w', op x w = Some (x', w') /\ inv w' /\ pos2 h x' j') ->
  exists d w', wrapped op (data_iter_ it) w = Some (d, w') /\ inv w' /\ in_block (set_data_iter d it) i j' /\
    on_data (wrapped op) it w = Some (set_data_iter d it, w').
Proof.
  intros [Hx (k' & h' & Hi' & Hh & Hd) Hs] Hi Hop. rewrite Hi in Hi'. injection Hi' as <- <-. unfold on_data. rewrite (has_data_at _ _ _ Hd).
  destruct (wrapped_spec (pos2 h) inv op _ j j' w Hd Hop) as (d & w' & E & Hw & Hd'). exists d, w'. unfold dbind. rewrite E. split; [done|]. split; [done|]. split; [|done].
  split; [done| |done]. by exists k, h.
Qed.

Lemma data_valid it i j k h : in_block it i j -> idx !! i = Some (k, h) ->
  (j <= length (block h))%nat /\ negb (has_data it) || negb (Wrapper_Valid (data_iter_ it)) = negb (bool_decide (j < length (block h))%nat).
Proof.
  intros [_ (k' & h' & Hi' & _ & Hd) _] Hi. rewrite Hi in Hi'. injection Hi' as <- <-. pose proof (block_walk h (handle_in _ _ _ Hi)) as Hwk.
  rewrite (has_data_at _ _ _ Hd). destruct (wrapper_valid inv _ _ _ _ Hd) as [? ->]. done.
Qed.

(** The index iterator moves, the block it leads to is opened, and its iterator moves: what [SeekToFirst],
    [SeekToLast], [Seek] and the skipping loops have in common. *)
Lemma move_spec op1 op2 (dest : list Z -> nat) it i0 i w : tracks it i0 -> (i <= length idx)%nat ->
  (forall x, pos1 x i0 -> exists x' w', op1 x w = Some (x', w') /\ inv w' /\ pos1 x' i) ->
  (forall h x j w, h ∈ idx.*2 -> pos2 h x j -> inv w -> exists x' w', op2 x w = Some (x', w') /\ inv w' /\ pos2 h x' (dest h)) ->
  exists it' w', inv w' /\
    (forall K, (let! it := on_index (wrapped op1) it in let! it := InitDataBlock block_function it in let! it := on_data (wrapped op2) it in K it) w = (K it' w' : option (T * W))) /\
    ((i = length idx /\ past_end it') \/ exists k h, idx !! i = Some (k, h) /\ in_block it' i (dest h)).
Proof.
  intros Ht Hi H1 H2. destruct (on_index_spec op1 it i0 i w Ht H1) as (it1 & w1 & E1 & Hw1 & Ht1). destruct (decide (i < length idx)%nat) as [Hlt|Hge].
  - destruct (lookup_lt_is_Some_2 idx i Hlt) as [[k h] Hk]. destruct (InitDataBlock_spec it1 i k h w1 Ht1 Hw1 Hk) as (it2 & w2 & j & E2 & Hw2 & Hb).
    pose proof (handle_in _ _ _ Hk) as Hin. destruct (on_data_spec op2 it2 i j (dest h) k h w2 Hb Hk) as (d & w3 & _ & Hw3 & Hb3 & E3); [intros x Hx; by apply (H2 h x j)|].
    exists (set_data_iter d it2), w3. split; [done|]. split; [intros K; unfold dbind; by rewrite E1, E2, E3|]. right. by exists k, h.
  - assert (i = length idx) as -> by lia. destruct (InitDataBlock_end it1 w1 Ht1) as (it2 & E2 & He). exists it2, w1. split; [done|]. split; [|by left].
    intros K. unfold dbind, on_data, has_data. rewrite E1, E2. by destruct (end_data _ He) as [-> _].
Qed.

Lemma first_in_block h x j w : h ∈ idx.*2 -> pos2 h x j -> inv w -> exists x' w', SeekToFirst x w = Some (x', w') /\ inv w' /\ pos2 h x' 0%nat.
Proof. intros Hh Hx Hw. pose proof (block_walk h Hh) as Hwk. by apply (walk_first x j w Hx Hw). Qed.
Lemma last_in_block h x j w : h ∈ idx.*2 -> pos2 h x j -> inv w -> exists x' w', SeekToLast x w = Some (x', w') /\ inv w' /\ pos2 h x' (pred (length (block h))).
Proof. intros Hh Hx Hw. pose proof (block_walk h Hh) as Hwk. by apply (walk_last x j w Hx Hw). Qed.

(** ** Skipping to an entry *)

Lemma two_pos_in it i j k h : in_block it i j -> idx !! i = Some (k, h) -> (j < length (block h))%nat -> two_pos it (start i + j).
Proof. intros Hb Hi Hj. right. by exists i, j, k, h. Qed.

Lemma skip_end it : past_end it -> exists it', two_pos it' (length entries) /\ forall fuel w,
  SkipEmptyDataBlocksForward block_function fuel it w = Some (it', w) /\ SkipEmptyDataBlocksBackward block_function fuel it w = Some (it', w).
Proof.
  intros He. pose proof He as [Hx [Hd _] _]. exists (SetDataIterator None it). split; [left; split; [done|]; by apply SetDataIterator_end, past_end_tracks|].
  assert (Hh : has_data it = false) by (unfold has_data; by rewrite Hd). destruct (wrapper_valid inv idx pos1 _ _ Hx) as [_ Hv]. rewrite bool_decide_false in Hv by lia.
  intros [|fuel] w; cbn [SkipEmptyDataBlocksForward SkipEmptyDataBlocksBackward]; by rewrite Hh, Hv.
Qed.

(** The position that entry [j] of block [i] is, or would be. *)
Definition reaches (m : D W T) (w : W) (p : nat) : Prop := exists it' w', m w = Some (it', w') /\ inv w' /\ two_pos it' p.

Lemma skip_forward_spec fuel it i j k h w : in_block it i j -> inv w -> idx !! i = Some (k, h) -> (length idx <= i + fuel)%nat ->
  reaches (SkipEmptyDataBlocksForward block_function fuel it) w (start i + j).
Proof.
  revert it i j k h w. induction fuel as [|fuel IH]; intros it i j k h w Hb Hw Hi Hf; pose proof (lookup_lt_Some _ _ _ Hi) as Hlt; [lia|].
  destruct (data_valid _ _ _ _ _ Hb Hi) as [Hj Hv]. unfold reaches. cbn [SkipEmptyDataBlocksForward]. rewrite Hv. case_bool_decide as Hjl; cbn [negb].
  { exists it, w. split; [done|]. split; [done|]. by apply (two_pos_in it i j k h). }
  assert (j = length (block h)) as -> by lia. rewrite <- (start_S i k h Hi). destruct (wrapper_valid inv idx pos1 _ _ (in_index _ _ _ Hb)) as [_ ->].
  rewrite bool_decide_true by done. cbn [negb]. unfold Wrapper_Next, Wrapper_SeekToFirst.
  destruct (move_spec Next SeekToFirst (fun _ => 0%nat) it i (S i) w (in_block_tracks _ _ _ Hb) ltac:(lia)) as (it1 & w1 & Hw1 & E & Hpos);
    [intros x Hx; by apply (walk_next x i w Hx Hw Hlt)|exact first_in_block|]. rewrite E. destruct Hpos as [[Ei He]|(k' & h' & Hi' & Hb')].
  - destruct (skip_end it1 He) as (it2 & Hp & E2). exists it2, w1. rewrite Ei, start_all. split; [apply E2|done].
  - rewrite <- (Nat.add_0_r (start (S i))). by apply (IH it1 (S i) 0%nat k' h'); [..|lia].
Qed.

(** What lies before a position, or nothing. *)
Definition before (p : nat) : nat := match p with O => length entries | S p => p end.

Lemma before_start i k h : idx !! i = Some (k, h) -> (0 < length (block h))%nat -> before (start (S i)) = (start i + pred (length (block h)))%nat.
Proof. intros Hi Hl. rewrite (start_S i k h Hi). unfold before. destruct (start i + length (block h))%nat eqn:E; lia. Qed.

Lemma skip_backward_spec fuel it i j k h w : in_block it i j -> inv w -> idx !! i = Some (k, h) -> (i < fuel)%nat ->
  reaches (SkipEmptyDataBlocksBackward block_function fuel it) w (if bool_decide (j < length (block h))%nat then start i + j else before (start i)).
Proof.
  revert it i j k h w. induction fuel as [|fuel IH]; intros it i j k h w Hb Hw Hi Hf; pose proof (lookup_lt_Some _ _ _ Hi) as Hlt; [lia|].
  destruct (data_valid _ _ _ _ _ Hb Hi) as [Hj Hv]. unfold reaches. cbn [SkipEmptyDataBlocksBackward]. rewrite Hv. case_bool_decide as Hjl; cbn [negb].
  { exists it, w. split; [done|]. split; [done|]. by apply (two_pos_in it i j k h). }
  destruct (wrapper_valid inv idx pos1 _ _ (in_index _ _ _ Hb)) as [_ ->]. rewrite bool_decide_true by done. cbn [negb]. unfold Wrapper_Prev, Wrapper_SeekToLast.
  destruct (move_spec Prev SeekToLast (fun h => pred (length (block h))) it i (match i with O => length idx | S i => i end) w (in_block_tracks _ _ _ Hb)) as (it1 & w1 & Hw1 & E & Hpos);
    [destruct i; lia|intros x Hx; by apply (walk_prev x i w Hx Hw Hlt)|exact last_in_block|]. rewrite E. destruct Hpos as [[Ei He]|(k' & h' & Hi' & Hb')].
  - destruct i as [|i]; [|lia]. destruct (skip_end it1 He) as (it2 & Hp & E2). exists it2, w1. split; [apply E2|done].
  - destruct i as [|i]; [apply lookup_lt_Some in Hi'; lia|]. destruct (IH it1 i _ k' h' w1 Hb' Hw1 Hi') as (it4 & w4 & E4 & Hw4 & Hp); [lia|].
    exists it4, w4. split; [done|]. split; [done|]. case_bool_decide as Hl.
    + by rewrite (before_start i k' h' Hi') by lia.
    + assert (length (block h') = 0%nat) as E0 by lia. by rewrite (start_S i k' h' Hi'), E0, Nat.add_0_r.
Qed.

(** ** The operations *)

Lemma two_first it p w : two_pos it p -> inv w -> reaches (TwoLevel_SeekToFirst block_function patience it) w 0.
Proof.
  intros [i Ht]%two_pos_tracks Hw. unfold TwoLevel_SeekToFirst, Wrapper_SeekToFirst, reaches. pose proof block_count as Hpat.
  destruct (move_spec SeekToFirst SeekToFirst (fun _ => 0%nat) it i 0 w Ht ltac:(lia)) as (it1 & w1 & Hw1 & E & Hpos);
    [intros x Hx; by apply (walk_first x i w Hx Hw)|exact first_in_block|]. rewrite E. destruct Hpos as [[Ei He]|(k' & h' & Hi' & Hb')].
  - destruct (skip_end it1 He) as (it2 & Hp & E2). exists it2, w1. rewrite <- start_all, <- Ei, start_0 in Hp. split; [apply E2|done].
  - apply (skip_forward_spec patience it1 0 0 k' h' w1 Hb' Hw1 Hi'). lia.
Qed.

Lemma two_last it p w : two_pos it p -> inv w -> reaches (TwoLevel_SeekToLast block_function patience it) w (pred (length entries)).
Proof.
  intros [i Ht]%two_pos_tracks Hw. unfold TwoLevel_SeekToLast, Wrapper_SeekToLast, reaches. pose proof block_count as Hpat.
  destruct (move_spec SeekToLast SeekToLast (fun h => pred (length (block h))) it i (pred (length idx)) w Ht ltac:(lia)) as (it1 & w1 & Hw1 & E & Hpos);
    [intros x Hx; by apply (walk_last x i w Hx Hw)|exact last_in_block|]. rewrite E. destruct Hpos as [[Ei He]|(k' & h' & Hi' & Hb')].
  - destruct (skip_end it1 He) as (it2 & Hp & E2). exists it2, w1. assert (E0 : length entries = 0%nat) by (rewrite <- start_all; by replace (length idx) with 0%nat by lia).
    rewrite E0 in Hp. rewrite E0. split; [apply E2|done].
  - pose proof (lookup_lt_Some _ _ _ Hi') as Hlt. destruct (skip_backward_spec patience it1 _ _ k' h' w1 Hb' Hw1 Hi') as (it2 & w2 & E2 & Hw2 & Hp); [lia|].
    exists it2, w2. split; [done|]. split; [done|]. pose proof (start_S _ _ _ Hi') as Es. replace (S (pred (length idx))) with (length idx) in Es by lia. rewrite start_all in Es.
    case_bool_decide as Hl; [by replace (pred (length entries)) with (start (pred (length idx)) + pred (length (block h')))%nat by lia|].
    unfold before in Hp. replace (start (pred (length idx))) with (length entries) in Hp by lia. by destruct (length entries).
Qed.

Lemma two_next it p w : two_pos it p -> inv w -> (p < length entries)%nat -> reaches (TwoLevel_Next block_function patience it) w (S p).
Proof.
  intros [[-> _]|(i & j & k & h & Hi & Hj & Hb & ->)] Hw Hp; [lia|]. unfold TwoLevel_Next, Wrapper_Next, reaches. pose proof (block_walk h (handle_in _ _ _ Hi)) as Hwk.
  destruct (on_data_spec Next it i j (S j) k h w Hb Hi) as (d & w1 & E & Hw1 & Hb1 & _); [intros x Hx; by apply (walk_next x j w Hx Hw Hj)|].
  unfold dbind. rewrite E, plus_n_Sm. pose proof block_count. apply (skip_forward_spec patience _ i (S j) k h w1 Hb1 Hw1 Hi). lia.
Qed.

Lemma two_prev it p w : two_pos it p -> inv w -> (p < length entries)%nat -> reaches (TwoLevel_Prev block_function patience it) w (before p).
Proof.
  intros [[-> _]|(i & j & k & h & Hi & Hj & Hb & ->)] Hw Hp; [lia|]. unfold TwoLevel_Prev, Wrapper_Prev. pose proof (block_walk h (handle_in _ _ _ Hi)) as Hwk.
  destruct (on_data_spec Prev it i j (match j with O => length (block h) | S j => j end) k h w Hb Hi) as (d & w1 & E & Hw1 & Hb1 & _); [intros x Hx; by apply (walk_prev x j w Hx Hw Hj)|].
  pose proof block_count. pose proof (lookup_lt_Some _ _ _ Hi). destruct (skip_backward_spec patience _ i _ k h w1 Hb1 Hw1 Hi) as (it2 & w2 & E2 & Hw2 & Hp2); [lia|].
  exists it2, w2. unfold dbind. rewrite E. split; [done|]. split; [done|]. destruct j as [|j].
  - rewrite bool_decide_false in Hp2 by lia. by rewrite Nat.add_0_r.
  - rewrite bool_decide_true in Hp2 by lia. by rewrite <- plus_n_Sm.
Qed.

(** ** Seeking *)

(** The key of a block is not before the block's own keys, and before those of the blocks behind. *)
Class Separates : Prop := {
  index_ok i k h : idx !! i = Some (k, h) -> key_ok k;
  index_above i k h e : idx !! i = Some (k, h) -> e ∈ block h -> key_ok e.1 /\ Compare e.1 k <> Gt;
  index_below i k h i' k' h' e : idx !! i = Some (k, h) -> idx !! i' = Some (k', h') -> (i < i')%nat -> e ∈ block h' -> Compare k e.1 = Lt
}.
Context {HS : Separates}.

Lemma in_blocks l e : e ∈ blocks l -> exists k h, (k, h) ∈ l /\ e ∈ block h.
Proof.
  unfold blocks. intros H%list_elem_of_In%in_concat. destruct H as (b & Hb & He). apply in_map_iff in Hb as ([k h] & <- & Hin).
  exists k, h. by split; apply list_elem_of_In.
Qed.

Lemma lower_bound_blocks target : key_ok target ->
  lower_bound target entries = match idx !! lower_bound target idx with Some (k, h) => (start (lower_bound target idx) + lower_bound target (block h))%nat | None => length entries end.
Proof.
  intros Ht. set (m := lower_bound target idx).
  assert (Hbef : Forall (fun e => Compare e.1 target = Lt) (blocks (take m idx))).
  { apply List.Forall_forall. intros e He. apply list_elem_of_In, in_blocks in He as (k & h & [i Hi]%list_elem_of_lookup & He).
    apply lookup_take_Some in Hi as [Hi Hlt]. destruct (index_above i k h e Hi He) as [Hok Hle]. pose proof (index_ok _ _ _ Hi).
    pose proof (lower_bound_before target idx i k h Hi Hlt) as Hk. by apply (cmp_le_lt_trans Compare key_ok _ k). }
  destruct (idx !! m) as [[k h]|] eqn:Hm.
  - unfold entries. rewrite (blocks_split m k h Hm), (lower_bound_app_before _ _ _ Hbef), lower_bound_app_after; [done|].
    pose proof (lower_bound_at target idx k h Hm) as Hk. pose proof (index_ok _ _ _ Hm).
    apply List.Forall_forall. intros e He E. apply list_elem_of_In, in_blocks in He as (k' & h' & [i' Hi']%list_elem_of_lookup & He). rewrite lookup_drop in Hi'.
    pose proof (index_below _ _ _ _ _ _ _ Hm Hi' ltac:(lia) He) as Hlt. destruct (index_above _ _ _ _ Hi' He) as [Hok _].
    apply Hk. by apply (cmp_lt_trans Compare key_ok _ e.1).
  - apply lookup_ge_None in Hm. rewrite take_ge in Hbef by done. unfold entries. rewrite <- (app_nil_r (blocks idx)) at 1. rewrite (lower_bound_app_before _ _ _ Hbef). cbn. lia.
Qed.

Lemma two_seek target it p w : two_pos it p -> inv w -> key_ok target -> reaches (TwoLevel_Seek block_function patience target it) w (lower_bound target entries).
Proof.
  intros [i Hi]%two_pos_tracks Hw Ht. unfold TwoLevel_Seek, Wrapper_Seek, reaches. pose proof block_count as Hpat. rewrite (lower_bound_blocks target Ht).
  destruct (move_spec (Seek target) (Seek target) (fun h => lower_bound target (block h)) it i (lower_bound target idx) w Hi (lower_bound_le target idx)) as (it1 & w1 & Hw1 & E & Hpos).
  { intros x Hx. by apply (walk_seek target x i w Hx Hw). }
  { intros h x j w' Hh Hx Hw'. pose proof (block_walk h Hh) as Hwk. by apply (walk_seek target x j w' Hx Hw'). }
  rewrite E. destruct Hpos as [[Ei He]|(k' & h' & Hi' & Hb')].
  - destruct (skip_end it1 He) as (it2 & Hp & E2). exists it2, w1. rewrite Ei, lookup_ge_None_2 by done. split; [apply E2|done].
  - rewrite Hi'. apply (skip_forward_spec patience it1 _ _ k' h' w1 Hb' Hw1 Hi'). pose proof (lookup_lt_Some _ _ _ Hi'). lia.
Qed.

(** The iterator over both levels walks along all entries. *)
#[export] Instance two_level_walks : Walks (IT := TwoLevelIter block_function patience) inv entries two_pos.
Proof.
  split; [intros it p|intros it p k v|intros it p|intros it p w|intros it p w|intros target it p w|intros it p w|intros it p w];
    cbn [Valid iter_key iter_value iter_status SeekToFirst SeekToLast Seek Next Prev TwoLevelIter].
  - intros [[-> [_ [Hd Hv] _]]|(i & j & k & h & Hi & Hj & Hb & ->)].
    + split; [lia|]. unfold Wrapper_Valid. by rewrite Hv, bool_decide_false by lia.
    + destruct (lookup_lt_is_Some_2 (block h) j Hj) as [e He]. pose proof (lookup_lt_Some _ _ _ (entry_in_block _ _ _ _ _ Hi He)) as Hlt.
      destruct (data_valid _ _ _ _ _ Hb Hi) as [_ Hv]. rewrite bool_decide_true in Hv by done. apply orb_false_iff in Hv as [_ Hv%negb_false_iff].
      split; [lia|]. by rewrite Hv, bool_decide_true.
  - intros [[-> _]|(i & j & k' & h & Hi & Hj & Hb & ->)] He; [by apply lookup_lt_Some in He; lia|].
    destruct (lookup_lt_is_Some_2 (block h) j Hj) as [e Hej]. rewrite (entry_in_block _ _ _ _ _ Hi Hej) in He. injection He as ->.
    destruct Hb as [_ (k2 & h2 & Hi2 & _ & Hd) _]. rewrite Hi in Hi2. injection Hi2 as <- <-. pose proof (block_walk h (handle_in _ _ _ Hi)) as Hwk.
    by apply (wrapper_entry inv (block h) (pos2 h) (data_iter_ it) j).
  - intros Hp. apply two_pos_tracks in Hp as [i [Hx Hd Hs]]. unfold TwoLevel_status. rewrite (wrapper_ok inv idx pos1 _ _ Hx). cbn [negb].
    destruct Hd as [->|(h & j & Hh & _ & Hd)]; [by rewrite Hs|]. pose proof (block_walk h Hh) as Hwk. rewrite (wrapper_ok inv (block h) (pos2 h) _ _ Hd), andb_false_r. by rewrite Hs.
  - apply two_first.
  - apply two_last.
  - intros Hp Hw Ht. by apply (two_seek target it p).
  - apply two_next.
  - intros Hp Hw Hlt. destruct (two_prev it p w Hp Hw Hlt) as (it' & w' & H). exists it', w'. by destruct p.
Qed.

Lemma new_two_pos x : pos1 x (length idx) -> two_pos (NewTwoLevelIterator x) (length entries).
Proof. intros Hx. left. split; [done|]. split; [by apply Update_at|done|done]. Qed.
End two_level.
