(* ===== verification/TableFormat.v ===== *)
(** The pieces of a table file (leveldb-library/table/format.h and .cc): handles of blocks, the footer,
    and reading a block with its trailer. *)
From Stdlib Require Import String.
From stdpp Require Import list.
From S2P Require Import Prelude Crc32c Coding Status EnvRandom.

(** ** [BlockHandle] *)

Definition kMaxEncodedLength : Z := 10 + 10.
Record BlockHandle := { handle_offset : Z; handle_size : Z }.
Definition NewBlockHandle : BlockHandle := {| handle_offset := 2 ^ 64 - 1; handle_size := 2 ^ 64 - 1 |}.

Definition BlockHandle_EncodeTo (h : BlockHandle) (dst : list Z) : list Z :=
  PutVarint64 (PutVarint64 dst (handle_offset h)) (handle_size h).

(** The status, the handle and what is left of the input. *)
Definition BlockHandle_DecodeFrom (h : BlockHandle) (input : list Z) : Status * BlockHandle * list Z :=
  let bad := Status_Corruption (bytes_of "bad block handle") [] in
  match GetVarint64 input with
  | (None, input) => (bad, h, input)
  | (Some o, input) =>
      let h := {| handle_offset := o; handle_size := handle_size h |} in
      match GetVarint64 input with
      | (None, input) => (bad, h, input)
      | (Some n, input) => (Status_OK, {| handle_offset := o; handle_size := n |}, input)
      end
  end.

(** ** [Footer] *)

Definition kEncodedLength : Z := 2 * kMaxEncodedLength + 8.
Definition kTableMagicNumber : Z := 0xdb4775248b80fb57.
Definition kBlockTrailerSize : Z := 5.

Record Footer := { metaindex_handle : BlockHandle; index_handle : BlockHandle }.

(** [dst->resize(n)] *)
Definition resize (n : Z) (dst : list Z) : list Z := take (Z.to_nat n) dst ++ replicate (Z.to_nat n - length dst) 0.

Definition Footer_EncodeTo (f : Footer) (dst : list Z) : list Z :=
  let dst := BlockHandle_EncodeTo (metaindex_handle f) dst in
  let dst := BlockHandle_EncodeTo (index_handle f) dst in
  let dst := resize (2 * kMaxEncodedLength) dst in
  let dst := PutFixed32 dst (u32 (kTableMagicNumber &. 0xffffffff)) in
  PutFixed32 dst (u32 (kTableMagicNumber >> 32)).

(** The status, the footer and what is left of the input.  [None]: the input is shorter than a footer,
    and what lies behind it is read. *)
Definition Footer_DecodeFrom (input : list Z) : option (Status * Footer * list Z) :=
  match bytes_at input (kEncodedLength - 8) 4, bytes_at input (kEncodedLength - 4) 4 with
  | Some lo, Some hi =>
      let magic := (DecodeFixed32 hi << 32) |. DecodeFixed32 lo in
      if negb (magic =? kTableMagicNumber) then
        Some (Status_Corruption (bytes_of "not an sstable (bad magic number)") [], {| metaindex_handle := NewBlockHandle; index_handle := NewBlockHandle |}, input)
      else
        let '(result, meta, rest) := BlockHandle_DecodeFrom NewBlockHandle input in
        let '(result, index, rest) := if ok result then BlockHandle_DecodeFrom NewBlockHandle rest else (result, NewBlockHandle, rest) in
        Some (result, {| metaindex_handle := meta; index_handle := index |}, if ok result then drop (Z.to_nat kEncodedLength) input else rest)
  | _, _ => None
  end.

(** ** [ReadBlock] *)

Definition kNoCompression : Z := 0.
Definition kSnappyCompression : Z := 1.

(** The build has no Snappy (port_stdcxx.h). *)
Definition Snappy_Compress (input : list Z) : option (list Z) := None.
Definition Snappy_GetUncompressedLength (input : list Z) : option Z := None.
Definition Snappy_Uncompress (input : list Z) : option (list Z) := None.

Record ReadOptions := { verify_checksums : bool; fill_cache : bool }.
Definition NewReadOptions : ReadOptions := {| verify_checksums := false; fill_cache := true |}.

Record BlockContents := { data : list Z; cachable : bool; heap_allocated : bool }.

Section read.
Context {F : Type} {R : RandomAccessFile F}.
(** Where the bytes lie in memory, on which the order of the work for their checksum depends. *)
Context (address : list Z -> Z).

(** The memory for a block is there; [None]: what was not read is read. *)
Definition ReadBlock (options : ReadOptions) (handle : BlockHandle) : D F (Status * BlockContents) :=
  let nothing := {| data := []; cachable := false; heap_allocated := false |} in
  let n := handle_size handle in
  let! '(s, contents, in_buf) := ReadAt (handle_offset handle) (u64 (n + kBlockTrailerSize)) in
  if negb (ok s) then dret (s, nothing)
  else if negb (len contents =? u64 (n + kBlockTrailerSize)) then dret (Status_Corruption (bytes_of "truncated block read") [], nothing)
  else
    let! valid :=
      if verify_checksums options then
        let! stored := dfrom (bytes_at contents (n + 1) 4) in
        let! covered := dfrom (bytes_at contents 0 (n + 1)) in
        dret (Value (address contents) covered =? Unmask (DecodeFixed32 stored))
      else dret true in
    if negb valid then dret (Status_Corruption (bytes_of "block checksum mismatch") [], nothing)
    else
      let! block := dfrom (bytes_at contents 0 n) in
      let! type_ := dfrom (bytes_at contents n 1) in
      if nth 0 type_ 0 =? kNoCompression then
        dret (Status_OK, if in_buf then {| data := block; cachable := true; heap_allocated := true |}
                         else {| data := block; cachable := false; heap_allocated := false |})
      else if nth 0 type_ 0 =? kSnappyCompression then
        let corrupted := (Status_Corruption (bytes_of "corrupted compressed block contents") [], nothing) in
        match Snappy_GetUncompressedLength block with
        | None => dret corrupted
        | Some ulength =>
            match Snappy_Uncompress block with
            | None => dret corrupted
            | Some ubuf => dret (Status_OK, {| data := ubuf; cachable := true; heap_allocated := true |})
            end
        end
      else dret (Status_Corruption (bytes_of "bad block type") [], nothing).
End read.

(** What is written behind a block. *)
Definition block_trailer (address : list Z -> Z) (block_contents : list Z) (type_ : Z) : list Z :=
  let crc := Value (address block_contents) block_contents in
  let crc := Extend (address [type_]) crc [type_] in
  [type_] ++ EncodeFixed32 (Mask crc).

(** Handles, footers and blocks with their trailers, there and back. *)

(** ** Handles *)

Definition handle_ok (h : BlockHandle) : Prop := 0 <= handle_offset h < 2 ^ 64 /\ 0 <= handle_size h < 2 ^ 64.

Lemma EncodeTo_app h dst : BlockHandle_EncodeTo h dst = dst ++ BlockHandle_EncodeTo h [].
Proof. unfold BlockHandle_EncodeTo, PutVarint64. cbn [app]. by rewrite app_assoc. Qed.

Lemma EncodeVarint64_byte v : 0 <= v < 2 ^ 64 -> Forall byte (EncodeVarint64 v).
Proof. intros Hv. apply varint_bytes_byte. by apply EncodeVarint64_spec. Qed.

Lemma EncodeTo_bytes h : handle_ok h -> Forall byte (BlockHandle_EncodeTo h []).
Proof. intros [H1 H2]. unfold BlockHandle_EncodeTo, PutVarint64. cbn [app]. apply Forall_app. split; by apply EncodeVarint64_byte. Qed.

Lemma EncodeTo_len h : handle_ok h -> len (BlockHandle_EncodeTo h []) <= kMaxEncodedLength.
Proof.
  intros [H1 H2]. unfold BlockHandle_EncodeTo, PutVarint64. cbn [app]. rewrite len_app.
  destruct (EncodeVarint64_spec _ H1) as (_ & _ & _ & ?), (EncodeVarint64_spec _ H2) as (_ & _ & _ & ?). unfold kMaxEncodedLength. lia.
Qed.

Lemma DecodeFrom_EncodeTo h0 h rest : handle_ok h -> Forall byte rest -> BlockHandle_DecodeFrom h0 (BlockHandle_EncodeTo h [] ++ rest) = (Status_OK, h, rest).
Proof.
  intros [H1 H2] Hr. unfold BlockHandle_DecodeFrom, BlockHandle_EncodeTo, PutVarint64. cbn [app]. rewrite <- app_assoc.
  rewrite get_put_varint64; [|done|apply Forall_app; split; [by apply EncodeVarint64_byte|done]]. rewrite get_put_varint64 by done. by destruct h.
Qed.

(** ** The footer *)

Definition footer_ok (f : Footer) : Prop := handle_ok (metaindex_handle f) /\ handle_ok (index_handle f).

Lemma Footer_layout f : footer_ok f -> exists padding, Forall byte padding /\
  Footer_EncodeTo f [] = (BlockHandle_EncodeTo (metaindex_handle f) [] ++ BlockHandle_EncodeTo (index_handle f) [] ++ padding) ++ EncodeFixed32 0x8b80fb57 ++ EncodeFixed32 0xdb477524 /\
  len (BlockHandle_EncodeTo (metaindex_handle f) [] ++ BlockHandle_EncodeTo (index_handle f) [] ++ padding) = 40.
Proof.
  intros [Hm Hi]. pose proof (EncodeTo_len _ Hm). pose proof (EncodeTo_len _ Hi). unfold Footer_EncodeTo.
  rewrite (EncodeTo_app (index_handle f)). set (m := BlockHandle_EncodeTo (metaindex_handle f) []) in *. set (i := BlockHandle_EncodeTo (index_handle f) []) in *.
  unfold kMaxEncodedLength in *. exists (replicate (40 - length (m ++ i)) 0). split; [by apply Forall_replicate|]. unfold len in *.
  assert (Hl : (length (m ++ i) <= 40)%nat) by (rewrite length_app; lia).
  split; [|rewrite app_assoc, length_app, length_replicate; lia]. unfold resize, PutFixed32. change (Z.to_nat (2 * (10 + 10))) with 40%nat.
  rewrite take_ge by done. rewrite <- !app_assoc. reflexivity.
Qed.

Lemma Footer_EncodeTo_len f : footer_ok f -> len (Footer_EncodeTo f []) = kEncodedLength.
Proof. intros Hf. destruct (Footer_layout f Hf) as (p & _ & -> & Hl). rewrite len_app, Hl. reflexivity. Qed.

Lemma Footer_round_trip f : footer_ok f -> Footer_DecodeFrom (Footer_EncodeTo f []) = Some (Status_OK, f, []).
Proof.
  intros Hf. pose proof (Footer_EncodeTo_len f Hf) as Hlen. destruct (Footer_layout f Hf) as (p & Hp & E & Hl). unfold Footer_DecodeFrom.
  set (body := _ ++ _ ++ p) in *.
  assert (E1 : bytes_at (Footer_EncodeTo f []) (kEncodedLength - 8) 4 = Some (EncodeFixed32 0x8b80fb57)).
  { rewrite E. change (kEncodedLength - 8) with 40. rewrite <- Hl. apply (bytes_at_middle body (EncodeFixed32 0x8b80fb57)). }
  assert (E2 : bytes_at (Footer_EncodeTo f []) (kEncodedLength - 4) 4 = Some (EncodeFixed32 0xdb477524)).
  { rewrite E. change (kEncodedLength - 4) with (40 + 4). rewrite <- Hl, app_assoc, <- (app_nil_r (EncodeFixed32 0xdb477524)).
    replace (len body + 4) with (len (body ++ EncodeFixed32 0x8b80fb57)) by (rewrite len_app; reflexivity). apply (bytes_at_middle _ (EncodeFixed32 0xdb477524)). }
  rewrite E1, E2. destruct Hf as [Hm Hi]. pose proof (EncodeTo_bytes _ Hi) as Hib.
  assert (Hd : drop (Z.to_nat kEncodedLength) (Footer_EncodeTo f []) = []) by (apply drop_ge; unfold len in Hlen; lia). rewrite Hd.
  rewrite E. unfold body. rewrite <- !app_assoc. rewrite DecodeFrom_EncodeTo; [|done|rewrite !Forall_app; split_and!; try done; apply le_bytes_byte].
  cbn [ok]. rewrite DecodeFrom_EncodeTo; [|done|rewrite !Forall_app; split_and!; try done; apply le_bytes_byte]. cbn [ok].
  change (negb (_ =? kTableMagicNumber)) with false. by destruct f.
Qed.

(** ** Blocks in a file *)

Section blocks.
Context (address : list Z -> Z).

Lemma trailer_crc contents t : Forall byte contents -> byte t ->
  block_trailer address contents t = [t] ++ EncodeFixed32 (Mask (crc32c 0 (contents ++ [t]))).
Proof.
  intros Hc Ht. unfold block_trailer, Value. assert (Hw : word32 0) by (split; reflexivity || discriminate).
  rewrite (Extend_crc32c _ 0 contents Hc Hw), Extend_crc32c; [by rewrite crc32c_app|by apply Forall_singleton|by apply crc32c_word32].
Qed.

Lemma len_trailer contents t : len (block_trailer address contents t) = kBlockTrailerSize.
Proof. unfold block_trailer. rewrite len_app. unfold len at 2. by rewrite EncodeFixed32_length. Qed.

(** A block with its trailer, not compressed, where its handle says. *)
Definition laid (file : list Z) (h : BlockHandle) (contents : list Z) : Prop := Forall byte contents /\ exists a c,
  file = a ++ (contents ++ block_trailer address contents kNoCompression) ++ c /\ h = {| handle_offset := len a; handle_size := len contents |}.

Lemma laid_app file h contents more : laid file h contents -> laid (file ++ more) h contents.
Proof. intros (Hb & a & c & -> & ->). split; [done|]. exists a, (c ++ more). split; [by rewrite <- !app_assoc|done]. Qed.

Lemma laid_ok file h contents : laid file h contents -> len file < 2 ^ 63 -> handle_ok h /\ len contents <= len file /\ handle_offset h <= len file.
Proof.
  intros (_ & a & c & -> & ->) Hl. rewrite !len_app in *. pose proof (len_nonneg a). pose proof (len_nonneg contents). pose proof (len_nonneg c).
  pose proof (len_nonneg (block_trailer address contents kNoCompression)). unfold handle_ok. cbn [handle_offset handle_size]. lia.
Qed.

Lemma mask_32 crc : 0 <= Mask crc < 2 ^ 32.
Proof. apply Z.mod_pos_bound. lia. Qed.

(** Such a block is read back, its checksum verified or not. *)
Lemma ReadBlock_laid {F} {R : RandomAccessFile F} file (inv : F -> Prop) {SV : Serves F file inv} opt h contents f :
  laid file h contents -> len file < 2 ^ 63 -> inv f ->
  exists b f', ReadBlock address opt h f = Some (Status_OK, b, f') /\ data b = contents /\ inv f'.
Proof.
  intros (Hb & a & c & E & ->) Hl Hf. set (t := block_trailer address contents kNoCompression) in *. pose proof (len_nonneg a). pose proof (len_nonneg contents). pose proof (len_nonneg c).
  assert (Ht : len t = 5) by apply len_trailer. assert (Hfl : len file = len a + (len contents + 5) + len c) by (rewrite E, !len_app, Ht; lia).
  unfold ReadBlock. cbn [handle_offset handle_size]. unfold kBlockTrailerSize. rewrite u64_id by lia.
  destruct (read_at_spec (file := file) (inv := inv) (len a) (len contents + 5) f Hf) as (in_buf & f' & Hr & Hf'); [lia..|].
  assert (Ed : take (Z.to_nat (len contents + 5)) (drop (Z.to_nat (len a)) file) = contents ++ t).
  { rewrite E, len_to_nat, drop_app_length. rewrite <- Ht, <- len_app, len_to_nat. by rewrite take_app_length. }
  unfold dbind at 1. rewrite Hr, Ed. change (negb (ok Status_OK)) with false. cbv iota. rewrite len_app, Ht, Z.eqb_refl. cbn [negb].
  assert (Et : t = [kNoCompression] ++ EncodeFixed32 (Mask (crc32c 0 (contents ++ [kNoCompression])))) by (by apply trailer_crc).
  assert (E0 : bytes_at (contents ++ t) 0 (len contents) = Some contents) by (apply (bytes_at_middle [] contents t)).
  assert (E1 : bytes_at (contents ++ t) (len contents) 1 = Some [kNoCompression]) by (rewrite Et; apply (bytes_at_middle contents [kNoCompression])).
  assert (Hv : forall s, (if verify_checksums opt then
        let! stored := dfrom (bytes_at (contents ++ t) (len contents + 1) 4) in
        let! covered := dfrom (bytes_at (contents ++ t) 0 (len contents + 1)) in
        dret (Value (address (contents ++ t)) covered =? Unmask (DecodeFixed32 stored))
      else dret true) s = Some (true, s) :> option (bool * F)).
  { intros s. destruct (verify_checksums opt); [|done].
    assert (E2 : bytes_at (contents ++ t) (len contents + 1) 4 = Some (EncodeFixed32 (Mask (crc32c 0 (contents ++ [kNoCompression]))))).
    { rewrite Et, app_assoc. replace (len contents + 1) with (len (contents ++ [kNoCompression])) by (rewrite len_app; reflexivity).
      rewrite <- (app_nil_r (EncodeFixed32 _)) at 1. apply (bytes_at_middle (contents ++ [kNoCompression])  (EncodeFixed32 _)). }
    assert (E3 : bytes_at (contents ++ t) 0 (len contents + 1) = Some (contents ++ [kNoCompression])).
    { rewrite Et, app_assoc. replace (len contents + 1) with (len (contents ++ [kNoCompression])) by (rewrite len_app; reflexivity). apply (bytes_at_middle [] (contents ++ [kNoCompression])). }
    unfold dbind, dfrom. rewrite E2, E3. unfold dret. do 2 f_equal. assert (Hw : word32 0) by (split; reflexivity || discriminate).
    assert (Hcb : Forall byte (contents ++ [kNoCompression])) by (apply Forall_app; split; [done|by apply Forall_singleton]).
    rewrite DecodeFixed32_encode by apply mask_32. rewrite unmask_mask by (by apply crc32c_word32). unfold Value. rewrite Extend_crc32c by done. by rewrite Z.eqb_refl. }
  unfold dbind at 1. rewrite Hv. cbn [negb]. unfold dbind, dfrom. rewrite E0, E1. cbn [nth]. change (kNoCompression =? kNoCompression) with true. cbv iota.
  destruct in_buf; eexists _, f'; (split; [done|]); by split.
Qed.
End blocks.
