(* ===== verification/TableBuilder.v ===== *)
(** Building a table (leveldb-library/table/table_builder.cc). *)
From Stdlib Require Import String.
From S2P Require Import Prelude Coding Crc32c Comparator Status DbFormat EnvRandom Iterator Block FilterBlock TableFormat.

(** [struct Options], as far as tables use it; the comparator is a parameter. *)
Record Options := {
  block_size : Z;
  block_restart_interval : Z;
  paranoid_checks : bool;
  compression : Z;
  filter_policy : option FilterPolicy
}.

Section builder.
Context {C : Comparator} {F : Type} {WF : WritableFile F}.
Context (address : list Z -> Z) (options : Options).

(** [compressed_output] is empty between calls. *)
Record Rep := {
  table_file : F;
  offset : Z;
  table_status : Status;
  data_block : BlockBuilder;
  index_block : BlockBuilder;
  last_key : list Z;
  num_entries : Z;
  closed : bool;
  filter_block : option FilterBlockBuilder;
  pending_index_entry : bool;
  pending_handle : BlockHandle
}.
Definition set_file (f : F) (r : Rep) : Rep := {| table_file := f; offset := offset r; table_status := table_status r; data_block := data_block r; index_block := index_block r;
  last_key := last_key r; num_entries := num_entries r; closed := closed r; filter_block := filter_block r; pending_index_entry := pending_index_entry r; pending_handle := pending_handle r |}.
Definition set_offset (o : Z) (r : Rep) : Rep := {| table_file := table_file r; offset := o; table_status := table_status r; data_block := data_block r; index_block := index_block r;
  last_key := last_key r; num_entries := num_entries r; closed := closed r; filter_block := filter_block r; pending_index_entry := pending_index_entry r; pending_handle := pending_handle r |}.
Definition set_table_status (s : Status) (r : Rep) : Rep := {| table_file := table_file r; offset := offset r; table_status := s; data_block := data_block r; index_block := index_block r;
  last_key := last_key r; num_entries := num_entries r; closed := closed r; filter_block := filter_block r; pending_index_entry := pending_index_entry r; pending_handle := pending_handle r |}.
Definition set_data_block (b : BlockBuilder) (r : Rep) : Rep := {| table_file := table_file r; offset := offset r; table_status := table_status r; data_block := b; index_block := index_block r;
  last_key := last_key r; num_entries := num_entries r; closed := closed r; filter_block := filter_block r; pending_index_entry := pending_index_entry r; pending_handle := pending_handle r |}.
Definition set_index_block (b : BlockBuilder) (r : Rep) : Rep := {| table_file := table_file r; offset := offset r; table_status := table_status r; data_block := data_block r; index_block := b;
  last_key := last_key r; num_entries := num_entries r; closed := closed r; filter_block := filter_block r; pending_index_entry := pending_index_entry r; pending_handle := pending_handle r |}.
Definition set_last_key (k : list Z) (r : Rep) : Rep := {| table_file := table_file r; offset := offset r; table_status := table_status r; data_block := data_block r; index_block := index_block r;
  last_key := k; num_entries := num_entries r; closed := closed r; filter_block := filter_block r; pending_index_entry := pending_index_entry r; pending_handle := pending_handle r |}.
Definition set_num_entries (n : Z) (r : Rep) : Rep := {| table_file := table_file r; offset := offset r; table_status := table_status r; data_block := data_block r; index_block := index_block r;
  last_key := last_key r; num_entries := n; closed := closed r; filter_block := filter_block r; pending_index_entry := pending_index_entry r; pending_handle := pending_handle r |}.
Definition set_closed (r : Rep) : Rep := {| table_file := table_file r; offset := offset r; table_status := table_status r; data_block := data_block r; index_block := index_block r;
  last_key := last_key r; num_entries := num_entries r; closed := true; filter_block := filter_block r; pending_index_entry := pending_index_entry r; pending_handle := pending_handle r |}.
Definition set_filter_block (f : option FilterBlockBuilder) (r : Rep) : Rep := {| table_file := table_file r; offset := offset r; table_status := table_status r; data_block := data_block r; index_block := index_block r;
  last_key := last_key r; num_entries := num_entries r; closed := closed r; filter_block := f; pending_index_entry := pending_index_entry r; pending_handle := pending_handle r |}.
Definition set_pending (p : bool) (r : Rep) : Rep := {| table_file := table_file r; offset := offset r; table_status := table_status r; data_block := data_block r; index_block := index_block r;
  last_key := last_key r; num_entries := num_entries r; closed := closed r; filter_block := filter_block r; pending_index_entry := p; pending_handle := pending_handle r |}.
Definition set_pending_handle (h : BlockHandle) (r : Rep) : Rep := {| table_file := table_file r; offset := offset r; table_status := table_status r; data_block := data_block r; index_block := index_block r;
  last_key := last_key r; num_entries := num_entries r; closed := closed r; filter_block := filter_block r; pending_index_entry := pending_index_entry r; pending_handle := h |}.

Definition NewTableBuilder (file : F) : Rep :=
  {| table_file := file; offset := 0; table_status := Status_OK; data_block := NewBlockBuilder; index_block := NewBlockBuilder; last_key := [];
     num_entries := 0; closed := false;
     filter_block := match filter_policy options with None => None | Some P => Some (StartBlock (P := P) 0 NewFilterBlockBuilder) end;
     pending_index_entry := false; pending_handle := NewBlockHandle |}.

Definition table_ok (r : Rep) : bool := ok (table_status r).

(** [r->status = r->file->Append(d)] and the like. *)
Definition on_file (op : D F Status) : D Rep Status :=
  let! r := dget in
  match op (table_file r) with
  | None => running
  | Some (s, f) => let! _ := dmodify (fun r => set_table_status s (set_file f r)) in dret s
  end.

(** The handle of the block. *)
Definition WriteRawBlock (block_contents : list Z) (type_ : Z) : D Rep BlockHandle :=
  let! r := dget in
  let handle := {| handle_offset := offset r; handle_size := len block_contents |} in
  let! s := on_file (Append block_contents) in
  if ok s then
    let! s := on_file (Append (block_trailer address block_contents type_)) in
    if ok s then
      let! _ := dmodify (fun r => set_offset (u64 (offset r + (len block_contents + kBlockTrailerSize))) r) in
      dret handle
    else dret handle
  else dret handle.

(** The block to write and its type; the caller resets its builder. *)
Definition compressed (raw : list Z) : list Z * Z :=
  if compression options =? kSnappyCompression then
    match Snappy_Compress raw with
    | Some output => if len output <? len raw - len raw / 8 then (output, kSnappyCompression) else (raw, kNoCompression)
    | None => (raw, kNoCompression)
    end
  else (raw, compression options).
Definition WriteBlock (block : BlockBuilder) : D Rep BlockHandle :=
  let '(raw, _) := Finish block in
  let '(block_contents, type_) := compressed raw in
  WriteRawBlock block_contents type_.

Definition with_policy (f : forall P : FilterPolicy, FilterBlockBuilder -> FilterBlockBuilder) (r : Rep) : Rep :=
  match filter_policy options, filter_block r with
  | Some P, Some b => set_filter_block (Some (f P b)) r
  | _, _ => r
  end.

Definition TableBuilder_Flush : D Rep unit :=
  let! r := dget in
  if negb (table_ok r) then dret tt
  else if empty (data_block r) then dret tt
  else
    let! handle := WriteBlock (data_block r) in
    let! _ := dmodify (set_pending_handle handle) in
    let! _ := dmodify (fun r => set_data_block (Reset (data_block r)) r) in
    let! r := dget in
    let! _ := if table_ok r then
                let! _ := dmodify (set_pending true) in
                let! _ := on_file Flush in dret tt
              else dret tt in
    dmodify (fun r => with_policy (fun P => StartBlock (P := P) (offset r)) r).

(** The index entry of the block before, with a key the caller has chosen. *)
Definition add_index_entry (key : list Z) (r : Rep) : Rep :=
  let handle_encoding := BlockHandle_EncodeTo (pending_handle r) [] in
  set_pending false (set_index_block (Add 1 key handle_encoding (index_block r)) (set_last_key key r)).

Definition TableBuilder_Add (key value : list Z) : D Rep unit :=
  let! r := dget in
  if negb (table_ok r) then dret tt
  else
    let! _ := dmodify (fun r => if pending_index_entry r then add_index_entry (Separator (last_key r) key) r else r) in
    let! _ := dmodify (with_policy (fun _ => AddKey key)) in
    let! _ := dmodify (fun r => set_num_entries (num_entries r + 1) (set_last_key key r)) in
    let! _ := dmodify (fun r => set_data_block (Add (block_restart_interval options) key value (data_block r)) r) in
    let! r := dget in
    let estimated_block_size := CurrentSizeEstimate (data_block r) in
    if block_size options <=? estimated_block_size then TableBuilder_Flush else dret tt.

(** [ok()] at the start of each part of [Finish]. *)
Definition when_ok {A} (a : A) (m : D Rep A) : D Rep A := let! r := dget in if table_ok r then m else dret a.

Definition TableBuilder_Finish : D Rep Status :=
  let! _ := TableBuilder_Flush in
  let! _ := dmodify set_closed in
  let! filter_block_handle := when_ok NewBlockHandle (
    let! r := dget in
    match filter_policy options, filter_block r with
    | Some _, Some b =>
        let '(contents, b) := FilterBlock_Finish b in
        let! _ := dmodify (set_filter_block (Some b)) in
        WriteRawBlock contents kNoCompression
    | _, _ => dret NewBlockHandle
    end) in
  let! metaindex_block_handle := when_ok NewBlockHandle (
    let! r := dget in
    let meta_index_block :=
      match filter_policy options, filter_block r with
      | Some P, Some _ =>
          let key := bytes_of "filter." ++ FilterName (FilterPolicy := P) in
          Add (block_restart_interval options) key (BlockHandle_EncodeTo filter_block_handle []) NewBlockBuilder
      | _, _ => NewBlockBuilder
      end in
    WriteBlock meta_index_block) in
  let! index_block_handle := when_ok NewBlockHandle (
    let! _ := dmodify (fun r => if pending_index_entry r then add_index_entry (Successor (last_key r)) r else r) in
    let! r := dget in
    let! handle := WriteBlock (index_block r) in
    let! _ := dmodify (fun r => set_index_block (Reset (index_block r)) r) in
    dret handle) in
  let! _ := when_ok tt (
    let footer := {| metaindex_handle := metaindex_block_handle; index_handle := index_block_handle |} in
    let footer_encoding := Footer_EncodeTo footer [] in
    let! s := on_file (Append footer_encoding) in
    if ok s then dmodify (fun r => set_offset (u64 (offset r + len footer_encoding)) r) else dret tt) in
  let! r := dget in
  dret (table_status r).

Definition Abandon : D Rep unit := dmodify set_closed.
Definition NumEntries (r : Rep) : Z := num_entries r.
Definition FileSize (r : Rep) : Z := offset r.
End builder.
Arguments Rep F : clear implicits.
