(* ===== verification/Table.v ===== *)
(** Reading a table (leveldb-library/table/table.cc). *)
From Stdlib Require Import String.
From S2P Require Import Prelude Coding Comparator Status DbFormat EnvRandom Iterator Block FilterBlock TableFormat TableBuilder TwoLevel.

(** A cache of blocks: what it finds under a key, and inserting a block with its charge.  The references
    that iterators hold until they are deleted are its own business. *)
Class BlockCache (K : Type) := {
  cache_Lookup : list Z -> D K (option Block);
  cache_Insert : list Z -> Block -> Z -> D K unit
}.

(** What its clients rely on: it finds only blocks that were inserted under the key. *)
Class BlockCacheLaws (K : Type) {B : BlockCache K} := {
  cached : (list Z -> Block -> Prop) -> K -> Prop;
  cache_lookup_spec (P : list Z -> Block -> Prop) key k : cached P k -> exists b k', cache_Lookup key k = Some (b, k') /\ cached P k' /\
    forall block, b = Some block -> P key block;
  cache_insert_spec (P : list Z -> Block -> Prop) key block charge k : cached P k -> P key block -> exists k', cache_Insert key block charge k = Some (tt, k') /\ cached P k';
  cached_mono (P Q : list Z -> Block -> Prop) k : (forall key block, P key block -> Q key block) -> cached P k -> cached Q k
}.

Section table.
Context {C : Comparator} {F K : Type} {R : RandomAccessFile F} {B : BlockCache K}.
Context (address : list Z -> Z) (options : Options).

(** The world: the file, and the block cache when there is one. *)
Record Files := { random_file : F; block_cache : option K }.
Definition set_random_file (f : F) (w : Files) : Files := {| random_file := f; block_cache := block_cache w |}.
Definition set_block_cache (k : K) (w : Files) : Files := {| random_file := random_file w; block_cache := Some k |}.

(** [Table::Rep]; the filter is a reader of the block of filters. *)
Record Table := { cache_id : Z; table_filter : option FilterBlockReader; table_metaindex_handle : BlockHandle; table_index_block : Block }.

Definition from_file {A} (m : D F A) : D Files A := fun w =>
  match m (random_file w) with Some (a, f) => Some (a, set_random_file f w) | None => None end.
Definition on_cache {A} (m : D K A) (none : A) : D Files A := fun w =>
  match block_cache w with
  | None => Some (none, w)
  | Some k => match m k with Some (a, k) => Some (a, set_block_cache k w) | None => None end
  end.

Definition paranoid : ReadOptions := if paranoid_checks options then {| verify_checksums := true; fill_cache := true |} else NewReadOptions.
Definition read_block (opt : ReadOptions) (h : BlockHandle) : D Files (Status * BlockContents) := from_file (ReadBlock address opt h).

Definition ReadFilter (filter_handle_value : list Z) : D Files (option FilterBlockReader) :=
  let '(s, filter_handle, _) := BlockHandle_DecodeFrom NewBlockHandle filter_handle_value in
  if negb (ok s) then dret None
  else
    let! '(s, block) := read_block paranoid filter_handle in
    if negb (ok s) then dret None else dret (Some (NewFilterBlockReader (data block))).

(** With the iterator of the meta index, over the bytewise comparator. *)
Definition ReadMeta (footer : Footer) : D Files (option FilterBlockReader) :=
  match filter_policy options with
  | None => dret None
  | Some P =>
      let! '(s, contents) := read_block paranoid (metaindex_handle footer) in
      if negb (ok s) then dret None
      else
        let key := bytes_of "filter." ++ FilterName (FilterPolicy := P) in
        match NewIterator (NewBlock (data contents)) with
        | inl _ => dret None
        | inr iter =>
            let! iter := Seek (Iterator := BlockIter (C := BytewiseComparator) Files) key iter in
            if Iter_Valid iter && bool_decide (key_ iter = key) then
              let! value := dfrom (Iter_value iter) in
              ReadFilter value
            else dret None
        end
  end.

(** [NewId] of the cache. *)
Definition Open (new_id : Z) (size : Z) : D Files (Status * option Table) :=
  if size <? kEncodedLength then dret (Status_Corruption (bytes_of "file is too short to be an sstable") [], None)
  else
    let! '(s, footer_input, _) := from_file (ReadAt (size - kEncodedLength) kEncodedLength) in
    if negb (ok s) then dret (s, None)
    else
      let! '(s, footer, _) := dfrom (Footer_DecodeFrom footer_input) in
      if negb (ok s) then dret (s, None)
      else
        let! '(s, index_block_contents) := read_block paranoid (index_handle footer) in
        if ok s then
          let! filter := ReadMeta footer in
          dret (s, Some {| cache_id := new_id; table_filter := filter; table_metaindex_handle := metaindex_handle footer; table_index_block := NewBlock (data index_block_contents) |})
        else dret (s, None).

Definition cache_key (t : Table) (h : BlockHandle) : list Z := EncodeFixed64 (cache_id t) ++ EncodeFixed64 (handle_offset h).

(** An iterator over the block at an index value, or an error. *)
Definition BlockReader (t : Table) (opt : ReadOptions) (index_value : list Z) : D Files (Status + Iter) :=
  let '(s, handle, _) := BlockHandle_DecodeFrom NewBlockHandle index_value in
  if negb (ok s) then dret (inl (NewErrorIterator s))
  else
    let! cached := on_cache (cache_Lookup (cache_key t handle)) None in
    match cached with
    | Some block => dret (NewIterator block)
    | None =>
        let! '(s, contents) := read_block opt handle in
        if ok s then
          let block := NewBlock (data contents) in
          let! _ := if cachable contents && fill_cache opt then on_cache (cache_Insert (cache_key t handle) block (size_ block)) tt else dret tt in
          dret (NewIterator block)
        else dret (inl (NewErrorIterator s))
    end.

(** An iterator of either kind. *)
Definition either {A} (f : Status -> A) (g : Iter -> A) (i : Status + Iter) : A := match i with inl s => f s | inr it => g it end.
Definition both {W} (f : Status -> D W Status) (g : Iter -> D W Iter) (i : Status + Iter) : D W (Status + Iter) :=
  match i with inl s => let! s := f s in dret (inl s) | inr it => let! it := g it in dret (inr it) end.
#[export] Instance EitherIter (W : Type) : Iterator W (Status + Iter) := {
  Valid := either (Valid (W := W)) (Valid (W := W));
  iter_key := either (iter_key (W := W)) (iter_key (W := W));
  iter_value := either (iter_value (W := W)) (iter_value (W := W));
  iter_status := either (iter_status (W := W)) (iter_status (W := W));
  SeekToFirst := both SeekToFirst SeekToFirst;
  SeekToLast := both SeekToLast SeekToLast;
  Seek target := both (Seek target) (Seek target);
  Next := both Next Next;
  Prev := both Prev Prev
}.

(** No more blocks than the index block has bytes. *)
Definition index_patience (t : Table) : nat := S (length (block_data (table_index_block t))).
Definition TableIterator (t : Table) (opt : ReadOptions) : Iterator Files (TwoLevelIterator (Status + Iter) (Status + Iter)) :=
  TwoLevelIter (BlockReader t opt) (index_patience t).
Definition Table_NewIterator (t : Table) : TwoLevelIterator (Status + Iter) (Status + Iter) := NewTwoLevelIterator (W := Files) (NewIterator (table_index_block t)).

(** The status and the entry [handle_result] is called with. *)
Definition InternalGet (t : Table) (opt : ReadOptions) (k : list Z) : D Files (Status * option (list Z * list Z)) :=
  let! iiter := Seek k (NewIterator (table_index_block t)) in
  let! '(s, result) :=
    if Valid (W := Files) iiter then
      let! handle_value := dfrom (iter_value (W := Files) iiter) in
      let '(decoded, handle, _) := BlockHandle_DecodeFrom NewBlockHandle handle_value in
      let! may_match :=
        match filter_policy options, table_filter t with
        | Some P, Some filter => if ok decoded then dfrom (FilterKeyMayMatch (P := P) (handle_offset handle) k filter) else dret true
        | _, _ => dret true
        end in
      if negb may_match then dret (Status_OK, None)
      else
        let! block_iter := BlockReader t opt handle_value in
        let! block_iter := Seek k block_iter in
        if Valid (W := Files) block_iter then
          let! value := dfrom (iter_value (W := Files) block_iter) in
          dret (iter_status (W := Files) block_iter, Some (iter_key (W := Files) block_iter, value))
        else dret (iter_status (W := Files) block_iter, None)
    else dret (Status_OK, None) in
  dret (if ok s then iter_status (W := Files) iiter else s, result).

Definition ApproximateOffsetOf (t : Table) (key : list Z) : D Files Z :=
  let! index_iter := Seek key (NewIterator (table_index_block t)) in
  if Valid (W := Files) index_iter then
    let! input := dfrom (iter_value (W := Files) index_iter) in
    let '(s, handle, _) := BlockHandle_DecodeFrom NewBlockHandle input in
    if ok s then dret (handle_offset handle) else dret (handle_offset (table_metaindex_handle t))
  else dret (handle_offset (table_metaindex_handle t)).
End table.
Arguments Files F K : clear implicits.
