(* ===== verification/TableBuilding.v ===== *)
(** What a table looks like: blocks, an index whose keys lie between them, filters, and a footer. *)
From Stdlib Require Import String.
From stdpp Require Import list.
From S2P Require Import Prelude Comparator Coding Status DbFormat EnvRandom Iterator Block BlockProps FilterBlock TableFormat TableBuilder.

#[local] Abbreviation entries := (list (list Z * list Z)).

Section layout.
Context {C : Comparator} {CL : ComparatorLaws C}.
Context (address : list Z -> Z) (options : Options).
(** Which keys are alike for the filters. *)
Context (like : list Z -> list Z).

(** A block that was written: its key in the index, its handle, and what it holds. *)
Definition written : Type := list Z * (BlockHandle * entries).
Definition entries_of (done : list written) : entries := concat (map (fun w => w.2.2) done).
Definition index_of (done : list written) : entries := map (fun w => (w.1, BlockHandle_EncodeTo w.2.1 [])) done.
Definition added_of (done : list written) : list (Z * list Z) := concat (map (fun w => map (fun e => (handle_offset w.2.1, e.1)) w.2.2) done).

(** The key [sep] is not before the keys of a block, and before those behind; a key between the block
    and [sep] is not alike any behind. *)
Definition splits (sep : list Z) (block later : entries) : Prop := key_ok sep /\ Forall (fun e => Compare e.1 sep <> Gt) block /\
  (later = [] \/ exists limit, key_ok limit /\ Compare sep limit = Lt /\ Forall (fun e => Compare limit e.1 <> Gt) later /\
    forall k e, key_ok k -> key_ok e -> Forall (fun x => Compare x.1 k = Lt) block -> Compare k sep <> Gt -> Compare limit e <> Gt -> like k <> like e).

(** So are the keys of the index. *)
Fixpoint separated (done : list written) (rest : entries) : Prop :=
  match done with
  | [] => True
  | w :: done => splits w.1 w.2.2 (entries_of done ++ rest) /\ separated done rest
  end.

(** The file holds a block with these entries at the handle. *)
Definition holds (file : list Z) (h : BlockHandle) (block : entries) : Prop :=
  block <> [] /\ exists contents, laid address file h contents /\ block_of block contents.

Record is_table (file : list Z) (es : entries) (done : list written) (footer : Footer) : Prop := {
  table_entries : es = entries_of done;
  table_separated : separated done [];
  table_blocks : Forall (fun w => holds file w.2.1 w.2.2) done;
  table_offsets : NoDup (map (fun w => handle_offset w.2.1) done);
  table_index : exists contents, laid address file (index_handle footer) contents /\ block_of (index_of done) contents;
  table_meta : exists contents, laid address file (metaindex_handle footer) contents /\
    match filter_policy options with
    | None => block_of [] contents
    | Some P => exists fh fc, block_of [(bytes_of "filter." ++ FilterName (FilterPolicy := P), BlockHandle_EncodeTo fh [])] contents /\
        laid address file fh fc /\ filters_of (P := P) like (added_of done) fc
    end;
  table_footer : exists body, file = body ++ Footer_EncodeTo footer []
}.

(** ** Lemmas *)

Lemma entries_of_snoc done w : entries_of (done ++ [w]) = entries_of done ++ w.2.2.
Proof. unfold entries_of. rewrite map_app, concat_app. cbn. by rewrite app_nil_r. Qed.

Lemma len_added_of done : len (added_of done) = len (entries_of done).
Proof. unfold added_of, entries_of. induction done as [|w done IH]; [done|]. cbn [map concat]. by rewrite !len_app, len_map, IH. Qed.

Lemma added_of_snoc done w : added_of (done ++ [w]) = added_of done ++ map (fun e => (handle_offset w.2.1, e.1)) w.2.2.
Proof. unfold added_of. rewrite map_app, concat_app. cbn. by rewrite app_nil_r. Qed.

Lemma separated_snoc done w rest : separated (done ++ [w]) rest <-> separated done (w.2.2 ++ rest) /\ splits w.1 w.2.2 rest.
Proof.
  induction done as [|d done IH]; cbn [app separated]; [cbn; tauto|]. rewrite IH, entries_of_snoc, <- app_assoc. tauto.
Qed.

Lemma splits_extend sep block later e : later <> [] -> Forall (fun x => key_ok x.1) later -> key_ok e.1 -> Forall (fun x => Compare x.1 e.1 = Lt) later ->
  splits sep block later -> splits sep block (later ++ [e]).
Proof.
  intros Hne Hok He Hlt (H1 & H2 & [->|(limit & Hl & Hs & Hall & Hlike)]); [done|]. split; [done|]. split; [done|]. right. exists limit. split; [done|]. split; [done|]. split; [|done].
  apply Forall_app. split; [done|]. apply Forall_singleton. destruct later as [|x later]; [done|].
  apply Forall_cons in Hok as [Hx _]. apply Forall_cons in Hlt as [Hxe _]. apply Forall_cons in Hall as [Hlx _].
  by rewrite (cmp_le_lt_trans Compare key_ok limit x.1 e.1).
Qed.

Lemma separated_extend done rest e : rest <> [] -> Forall (fun x => key_ok x.1) (entries_of done ++ rest) -> key_ok e.1 ->
  Forall (fun x => Compare x.1 e.1 = Lt) (entries_of done ++ rest) -> separated done rest -> separated done (rest ++ [e]).
Proof.
  intros Hne. induction done as [|w done IH]; [done|]. unfold entries_of. cbn [map concat]. fold (entries_of done). rewrite <- app_assoc, !(Forall_app _ w.2.2).
  intros [_ Hok] He [_ Hlt] [Hs Hsep]. split; [|by apply IH]. rewrite app_assoc. apply splits_extend; try done. by intros [_ ?]%app_eq_nil.
Qed.

Lemma holds_app file h block more : holds file h block -> holds (file ++ more) h block.
Proof. intros [Hne (c & Hl & Hb)]. split; [done|]. exists c. split; [by apply laid_app|done]. Qed.

(** Separated keys increase. *)
Lemma splits_next sep block later e : splits sep block later -> e ∈ later -> key_ok e.1 -> Compare sep e.1 = Lt.
Proof.
  intros (H1 & _ & [->|(limit & Hl & Hs & Hall & _)]) Hin He; [by apply elem_of_nil in Hin|].
  apply (cmp_lt_le_trans Compare key_ok sep limit e.1); try done. by apply (proj1 (List.Forall_forall _ _) Hall e), list_elem_of_In.
Qed.

Lemma separated_lookup done rest i w : separated done rest -> done !! i = Some w -> splits w.1 w.2.2 (entries_of (drop (S i) done) ++ rest).
Proof.
  revert i. induction done as [|d done IH]; intros i Hs Hi; [done|]. destruct Hs as [Hs Hd]. destruct i as [|i]; [by injection Hi as <-|by apply IH].
Qed.
End layout.

(** A table builder writes a table of the entries it is given. *)


(** ** Blocks *)

Lemma len_Finish b : len (fst (Finish b)) = CurrentSizeEstimate b.
Proof.
  unfold Finish, CurrentSizeEstimate, PutFixed32. cbn [fst]. rewrite put_fixed_array, !len_app, len_fixed_array. unfold len at 3. rewrite EncodeFixed32_length. lia.
Qed.

Lemma Add_longer interval key value b : len (buffer_ b) < len (buffer_ (Add interval key value b)).
Proof.
  unfold Add, PutVarint32. destruct (if counter_ b <? interval then _ else _) as [[s rs] c]. cbn [buffer_]. rewrite !len_app.
  pose proof (EncodeVarint32_pos (u32 (Z.of_nat s))). pose proof (len_nonneg (EncodeVarint32 (u32 (len key - Z.of_nat s)))).
  pose proof (len_nonneg (EncodeVarint32 (u32 (len value)))). pose proof (len_nonneg (drop s key)). pose proof (len_nonneg value). lia.
Qed.

Lemma add_all_snoc interval es k v b : add_all interval (es ++ [(k, v)]) b = Add interval k v (add_all interval es b).
Proof. unfold add_all. by rewrite foldl_app. Qed.

Lemma add_all_empty interval es : empty (add_all interval es NewBlockBuilder) = bool_decide (es = []).
Proof.
  induction es as [|[k v] es _] using rev_ind; [done|]. rewrite add_all_snoc. unfold empty. pose proof (Add_longer interval k v (add_all interval es NewBlockBuilder)).
  pose proof (len_nonneg (buffer_ (add_all interval es NewBlockBuilder))). rewrite (proj2 (Z.eqb_neq _ _)) by lia. symmetry. apply bool_decide_false. by destruct es.
Qed.

Lemma block_bytes_byte pl rs : Forall (fun e => Forall byte e.1 /\ Forall byte e.2) (map placed_entry pl) -> chained [] pl -> Forall byte (block_bytes pl rs).
Proof.
  intros Hb Hc. unfold block_bytes. rewrite !Forall_app. split; [|split; [apply fixed_array_byte|apply le_bytes_byte]].
  apply codes_byte, Forall_lookup_2. intros i p Hp. assert (He : map placed_entry pl !! i = Some (placed_entry p)) by (by rewrite list_lookup_fmap, Hp).
  destruct (Forall_lookup_1 _ _ _ _ Hb He) as [? ?]. split; [done|]. split; [done|]. by apply (chained_lookup _ _ _ _ Hc) in Hp as (_ & ? & _).
Qed.

Lemma ok_OK s : ok s = true -> s = Status_OK.
Proof. by destruct s. Qed.

#[local] Opaque block_trailer.

Section building.
Context {C : Comparator} {CL : ComparatorLaws C} {F : Type} {WF : WritableFile F} {AO : AppendOnly F}.
Context (address : list Z -> Z) (options : Options) (like : list Z -> list Z).
Context (Hinterval : 1 <= block_restart_interval options).
Context (Hcompression : compression options = kNoCompression \/ compression options = kSnappyCompression).
Context (Hpolicy : forall P, filter_policy options = Some P -> exists L : FilterPolicyLaws P, filter_key (FilterPolicyLaws := L) = like).
(** A separator does not come between keys that are alike. *)
Context (Hlike : forall start limit k e, key_ok start -> key_ok limit -> key_ok k -> key_ok e -> Compare start limit = Lt -> Compare start k = Lt ->
  Compare k (Separator start limit) <> Gt -> Compare limit e <> Gt -> like k <> like e).

Definition file_of (r : Rep F) : list Z := contents (table_file r).

Lemma entries_bytes es : sorted_entries es -> Forall (fun e => Forall byte e.1 /\ Forall byte e.2) es.
Proof.
  intros [Hok _]. apply List.Forall_forall. intros [k v] Hin. destruct (Hok k v) as [Hk Hv]; [by apply list_elem_of_In|]. split; [by apply key_bytes|done].
Qed.

Lemma block_of_byte es c : block_of es c -> Forall (fun e => Forall byte e.1 /\ Forall byte e.2) es -> Forall byte c.
Proof. intros (pl & rs & <- & Hc & _ & -> & _) Hb. by apply block_bytes_byte. Qed.

Lemma compressed_raw raw : compressed options raw = (raw, kNoCompression).
Proof. unfold compressed. destruct Hcompression as [-> | ->]; done. Qed.

(** ** Writing *)

(** [r'] is [r] with [d] written, or has failed. *)
Definition wrote (r : Rep F) (d : list Z) (r' : Rep F) : Prop := valid_file (table_file r') /\
  (table_ok r' = false \/
   r' = set_offset (u64 (offset r + len d)) (set_table_status Status_OK (set_file (table_file r') r)) /\ file_of r' = file_of r ++ d).

Lemma on_file_append d r : valid_file (table_file r) -> exists s f, on_file (Append d) r = Some (s, set_table_status s (set_file f r)) /\ valid_file f /\
  (ok s = true -> contents f = file_of r ++ d).
Proof.
  intros Hv. destruct (append_spec d (table_file r) Hv) as (s & f & E & Hv' & _ & _ & Hok & _). exists s, f.
  unfold on_file, dbind, dget. rewrite E. by split_and!.
Qed.

Lemma WriteRawBlock_spec d t r : valid_file (table_file r) -> exists r', WriteRawBlock address d t r = Some ({| handle_offset := offset r; handle_size := len d |}, r') /\
  wrote r (d ++ block_trailer address d t) r'.
Proof.
  intros Hv. unfold WriteRawBlock. unfold dbind at 1, dget. unfold dbind at 1. destruct (on_file_append d r Hv) as (s & f1 & -> & Hv1 & Ok1).
  destruct (ok s) eqn:Es; [|by eexists; split; [reflexivity|]; split; [|left]].
  unfold dbind at 1. destruct (on_file_append (block_trailer address d t) (set_table_status s (set_file f1 r)) Hv1) as (s2 & f2 & -> & Hv2 & Ok2).
  destruct (ok s2) eqn:Es2; [|by eexists; split; [reflexivity|]; split; [|left]].
  eexists. split; [reflexivity|]. split; [exact Hv2|]. right. apply ok_OK in Es2. subst s2. rewrite len_app, len_trailer. split; [done|].
  transitivity (contents f2); [done|]. rewrite Ok2 by done. rewrite app_assoc, <- Ok1 by done. done.
Qed.

Lemma WriteBlock_spec b r : valid_file (table_file r) -> exists r',
  WriteBlock address options b r = Some ({| handle_offset := offset r; handle_size := CurrentSizeEstimate b |}, r') /\
  wrote r (fst (Finish b) ++ block_trailer address (fst (Finish b)) kNoCompression) r'.
Proof.
  intros Hv. unfold WriteBlock. destruct (Finish b) as [raw b'] eqn:E. rewrite compressed_raw. pose proof (len_Finish b) as Hl. rewrite E in Hl. cbn [fst] in *.
  rewrite <- Hl. by apply WriteRawBlock_spec.
Qed.

(** A block that has been written is where its handle says. *)
Lemma written_laid file d : Forall byte d -> laid address (file ++ d ++ block_trailer address d kNoCompression) {| handle_offset := len file; handle_size := len d |} d.
Proof. intros Hd. split; [done|]. exists file, []. by rewrite app_nil_r. Qed.

(** ** The state of the builder *)

Definition pend_entries (pend : option (BlockHandle * entries)) : entries := match pend with Some (_, b) => b | None => [] end.
Definition keys_at (o : Z) (es : entries) : list (Z * list Z) := map (fun e => (o, e.1)) es.
Definition pend_added (pend : option (BlockHandle * entries)) : list (Z * list Z) := match pend with Some (h, b) => keys_at (handle_offset h) b | None => [] end.
Definition pend_offsets (pend : option (BlockHandle * entries)) : list Z := match pend with Some (h, _) => [handle_offset h] | None => [] end.

(** [done]: blocks that are in the index; [pend]: the last block, whose index key is not chosen yet;
    [cur]: the entries of the block being built. *)
Record building (r : Rep F) (done : list written) (pend : option (BlockHandle * entries)) (cur : entries) : Prop := {
  b_valid : valid_file (table_file r);
  b_status : table_status r = Status_OK;
  b_offset : offset r = len (file_of r);
  b_data : data_block r = add_all (block_restart_interval options) cur NewBlockBuilder;
  b_index : index_block r = add_all 1 (index_of done) NewBlockBuilder;
  b_pending : match pend with None => pending_index_entry r = false | Some (h, _) => pending_index_entry r = true /\ pending_handle r = h end;
  b_rest : match pend with None => cur = [] -> done = [] | Some _ => cur = [] end;
  b_blocks : Forall (fun w => holds address (file_of r) w.2.1 w.2.2) done /\ match pend with None => True | Some (h, b) => holds address (file_of r) h b end;
  b_offsets : NoDup (map (fun w => handle_offset w.2.1) done ++ pend_offsets pend) /\
    Forall (fun o => o < offset r) (map (fun w => handle_offset w.2.1) done ++ pend_offsets pend);
  b_separated : separated like done (pend_entries pend ++ cur);
  b_last : match last (entries_of done ++ pend_entries pend ++ cur) with Some e => last_key r = e.1 | None => True end;
  b_filter : match filter_policy options with
    | None => filter_block r = None
    | Some P => exists b, filter_block r = Some b /\ filter_state (P := P) (offset r) (added_of done ++ pend_added pend ++ keys_at (offset r) cur) b
    end
}.

Definition builds (r : Rep F) (es : entries) : Prop := valid_file (table_file r) /\
  (table_ok r = false \/ (len (file_of r) < 2 ^ 32 -> exists done pend cur, building r done pend cur /\ es = entries_of done ++ pend_entries pend ++ cur)).

Lemma builds_new f : valid_file f -> contents f = [] -> builds (NewTableBuilder options f) [].
Proof.
  intros Hv He. split; [done|]. right. intros _. exists [], None, []. split; [|done]. split; try done.
  - unfold file_of. cbn. by rewrite He.
  - cbn. by split; constructor.
  - cbn. destruct (filter_policy options) as [P|]; [|done]. eexists. split; [done|]. apply filter_state_new.
Qed.

(** ** Flushing a block *)

Lemma on_file_flush r : valid_file (table_file r) -> exists s f, on_file Flush r = Some (s, set_table_status s (set_file f r)) /\ valid_file f /\
  (ok s = true -> contents f = file_of r).
Proof.
  intros Hv. destruct (flush_spec (table_file r) Hv) as (s & f & E & Hv' & _ & _ & Hok). exists s, f. unfold on_file, dbind, dget. rewrite E. split; [done|]. split; [done|]. intros H. by apply Hok.
Qed.

Lemma with_policy_eq f (r : Rep F) : with_policy options f r =
  set_filter_block (match filter_policy options, filter_block r with Some P, Some b => Some (f P b) | _, _ => filter_block r end) r.
Proof. unfold with_policy. destruct r as [? ? ? ? ? ? ? ? fb ? ?]; cbn. by destruct (filter_policy options), fb. Qed.

Lemma laid_offset file h c : laid address file h c -> 0 <= handle_offset h.
Proof. intros (_ & a & ? & _ & ->). apply len_nonneg. Qed.

Lemma add_all_written cur file : sorted_entries cur -> cur <> [] -> let raw := fst (Finish (add_all (block_restart_interval options) cur NewBlockBuilder)) in
  len (file ++ raw ++ block_trailer address raw kNoCompression) < 2 ^ 32 ->
  holds address (file ++ raw ++ block_trailer address raw kNoCompression) {| handle_offset := len file; handle_size := CurrentSizeEstimate (add_all (block_restart_interval options) cur NewBlockBuilder) |} cur.
Proof.
  intros Hs Hne raw Hl. pose proof (len_Finish (add_all (block_restart_interval options) cur NewBlockBuilder)) as E. fold raw in E. rewrite !len_app in Hl.
  pose proof (len_nonneg file). pose proof (len_nonneg (block_trailer address raw kNoCompression)).
  destruct (add_all_block (block_restart_interval options) cur Hinterval) as [Hb _]; [lia|]. fold raw in Hb. split; [done|]. exists raw. split; [|done]. rewrite <- E.
  apply written_laid, (block_of_byte cur); [done|by apply entries_bytes].
Qed.

(** The state when the block has been written and its filter keys handed over. *)
Lemma building_flushed r x done cur h : building r done None cur -> cur <> [] -> len (entries_of done ++ cur) < 2 ^ 31 ->
  valid_file (table_file x) -> table_status x = Status_OK -> offset x = len (file_of x) -> data_block x = NewBlockBuilder -> index_block x = index_block r ->
  last_key x = last_key r -> filter_block x = filter_block r -> pending_index_entry x = true -> pending_handle x = h -> handle_offset h = offset r ->
  offset r < offset x -> Forall (fun w => holds address (file_of x) w.2.1 w.2.2) done -> holds address (file_of x) h cur ->
  building (with_policy options (fun P => StartBlock (P := P) (offset x)) x) done (Some (h, cur)) [].
Proof.
  intros [Hbv Hbs Hbo Hbd Hbi Hbp Hbr Hbb Hbof Hbsep Hbl Hbf] Hne Hcount Hv Hs Ho Hd Hi Hl Hf Hp Hh Hho Hlt Hblocks Hheld. rewrite with_policy_eq.
  cbn [pend_entries pend_added pend_offsets] in *. rewrite !app_nil_r in *.
  split; cbn [table_file table_status offset data_block index_block last_key pending_index_entry pending_handle filter_block set_filter_block pend_entries pend_added pend_offsets]; try done.
  - by rewrite Hi.
  - rewrite Hho. split.
    + apply NoDup_app. split; [apply Hbof|]. split; [|apply NoDup_singleton]. intros o Hin Ho'. apply list_elem_of_singleton in Ho' as ->.
      pose proof (proj1 (List.Forall_forall _ _) (proj2 Hbof) _ (proj1 (list_elem_of_In _ _) Hin)). cbn in *. lia.
    + apply Forall_app. split; [|by apply Forall_singleton]. eapply Forall_impl; [exact (proj2 Hbof)|]. cbn. lia.
  - by rewrite app_nil_r.
  - rewrite app_nil_r, Hl. exact Hbl.
  - rewrite Hf. destruct (filter_policy options) as [P|] eqn:EP; [|by rewrite Hbf]. destruct Hbf as (b & Eb & Hst). rewrite Eb. eexists. split; [done|].
    destruct (Hpolicy P eq_refl) as [L _]. cbn [app] in Hst. rewrite Hho. unfold keys_at at 2. cbn [map]. rewrite app_nil_r. apply (filter_state_start (offset r)); [done| |].
    + rewrite Hbo. pose proof (len_nonneg (file_of r)). lia.
    + unfold keys_at. rewrite len_app, len_added_of, len_map, <- len_app. done.
Qed.

Lemma Builder_Flush_spec r done cur : building r done None cur -> cur <> [] -> sorted_entries (entries_of done ++ cur) -> len (entries_of done ++ cur) < 2 ^ 31 ->
  exists r', TableBuilder_Flush address options r = Some (tt, r') /\ valid_file (table_file r') /\
    (table_ok r' = false \/ (len (file_of r') < 2 ^ 32 -> exists h, building r' done (Some (h, cur)) [])).
Proof.
  intros Hb Hne Hso Hcount. unfold TableBuilder_Flush. unfold dbind at 1, dget. unfold table_ok at 1. rewrite (b_status _ _ _ _ Hb), (b_data _ _ _ _ Hb), add_all_empty, bool_decide_false by done.
  change (negb (ok Status_OK)) with false. cbv iota. set (blk := add_all _ cur NewBlockBuilder).
  unfold dbind at 1. destruct (WriteBlock_spec blk r (b_valid _ _ _ _ Hb)) as (r1 & -> & Hv1 & Hw). set (h := {| handle_offset := offset r; handle_size := CurrentSizeEstimate blk |}).
  unfold dbind at 1, dmodify at 1. unfold dbind at 1, dmodify at 1. unfold dbind at 1, dget. set (r2 := set_data_block (Reset _) (set_pending_handle h r1)).
  change (table_ok r2) with (table_ok r1). destruct Hw as [Hf|[E1 Hfile]].
  { rewrite Hf. unfold dbind, dret, dmodify. eexists. split; [reflexivity|]. rewrite with_policy_eq. split; [done|]. by left. }
  assert (Hok1 : table_ok r1 = true) by (by rewrite E1). rewrite Hok1. unfold dbind at 1. unfold dbind at 1, dmodify at 1. unfold dbind at 1.
  destruct (on_file_flush (set_pending true r2) Hv1) as (s & f3 & -> & Hv3 & Ok3). unfold dret, dmodify. set (r3 := set_table_status s (set_file f3 (set_pending true r2))).
  eexists. split; [reflexivity|]. split; [by rewrite with_policy_eq|].
  destruct (ok s) eqn:Es; [|left; by rewrite with_policy_eq]. right. apply ok_OK in Es. subst s. intros Hsmall. exists h. rewrite with_policy_eq in Hsmall. change (file_of _) with (contents f3) in Hsmall.
  set (raw := fst (Finish blk)) in *. rewrite Ok3 in Hsmall by done. change (file_of (set_pending true r2)) with (file_of r1) in *. rewrite Hfile in *.
  destruct (sorted_entries_app _ _ Hso) as [_ Hcur]. pose proof (b_offset _ _ _ _ Hb) as Hbo. pose proof (b_blocks _ _ _ _ Hb) as Hbb.
  pose proof (add_all_written cur (file_of r) Hcur Hne Hsmall) as Hh. fold blk in Hh. rewrite <- Hbo in Hh. fold h raw in Hh. set (file := file_of r ++ raw ++ _) in *.
  assert (Hlf : len file = offset r + len (raw ++ block_trailer address raw kNoCompression)) by (unfold file; rewrite Hbo; apply len_app).
  pose proof (len_nonneg (raw ++ block_trailer address raw kNoCompression)). assert (Hpos : 0 <= offset r) by (rewrite Hbo; apply len_nonneg).
  assert (0 < len (raw ++ block_trailer address raw kNoCompression)) by (rewrite len_app, len_trailer; pose proof (len_nonneg raw); unfold kBlockTrailerSize; lia).
  assert (Hoff : offset r3 = len file) by (change (offset r3) with (offset r1); rewrite E1; cbn [offset set_offset]; rewrite u64_id by lia; lia).
  assert (Hf3 : file_of r3 = file) by (change (file_of r3) with (contents f3); by rewrite Ok3).
  apply (building_flushed r); rewrite ?Hf3; try done; try (rewrite E1; done); try lia.
  - change (index_block r3) with (index_block r1). by rewrite E1.
  - change (last_key r3) with (last_key r1). by rewrite E1.
  - change (filter_block r3) with (filter_block r1). by rewrite E1.
  - eapply Forall_impl; [exact (proj1 Hbb)|]. intros w Hw. by apply holds_app.
Qed.

Lemma Flush_total r : valid_file (table_file r) -> exists r', TableBuilder_Flush address options r = Some (tt, r') /\ valid_file (table_file r') /\
  (table_ok r' = false \/ len (file_of r) <= len (file_of r')).
Proof.
  intros Hv. unfold TableBuilder_Flush. unfold dbind at 1, dget. destruct (table_ok r) eqn:Hok; cbn [negb]; [|by exists r; split; [|split; [|left]]].
  destruct (empty (data_block r)); [by exists r; split; [|split; [|right]]|]. unfold dbind at 1. destruct (WriteBlock_spec (data_block r) r Hv) as (r1 & -> & Hv1 & Hw).
  unfold dbind at 1, dmodify at 1. unfold dbind at 1, dmodify at 1. unfold dbind at 1, dget. set (r2 := set_data_block _ _). change (table_ok r2) with (table_ok r1).
  destruct Hw as [Hf|[E1 Hfile]].
  - rewrite Hf. eexists. split; [reflexivity|]. rewrite with_policy_eq. split; [done|by left].
  - assert (Hok1 : table_ok r1 = true) by (by rewrite E1). rewrite Hok1. unfold dbind at 1. unfold dbind at 1, dmodify at 1. unfold dbind at 1.
    destruct (on_file_flush (set_pending true r2) Hv1) as (s & f3 & -> & Hv3 & Ok3). eexists. split; [reflexivity|]. rewrite with_policy_eq. split; [done|].
    destruct (ok s) eqn:Es; [right|by left]. change (file_of _) with (contents f3) at 2. rewrite Ok3 by done. change (file_of (set_pending true r2)) with (file_of r1).
    rewrite Hfile, len_app. set (d := _ ++ _). pose proof (len_nonneg d). lia.
Qed.

(** ** Adding an entry *)

(** What [Add] does before it may flush. *)
Definition added (key value : list Z) (r : Rep F) : Rep F :=
  let r := if pending_index_entry r then add_index_entry (Separator (last_key r) key) r else r in
  let r := with_policy options (fun _ => AddKey key) r in
  let r := set_num_entries (num_entries r + 1) (set_last_key key r) in
  set_data_block (Add (block_restart_interval options) key value (data_block r)) r.

Lemma Add_added key value r : table_ok r = true -> TableBuilder_Add address options key value r =
  if block_size options <=? CurrentSizeEstimate (data_block (added key value r)) then TableBuilder_Flush address options (added key value r) else Some (tt, added key value r).
Proof. intros Hok. unfold TableBuilder_Add, dbind, dget, dmodify. rewrite Hok. cbn [negb]. fold (added key value r). by destruct (block_size options <=? _). Qed.

Lemma added_file key value r : table_file (added key value r) = table_file r /\ table_status (added key value r) = table_status r.
Proof. unfold added. rewrite with_policy_eq. by destruct (pending_index_entry r). Qed.

Lemma keys_at_snoc o es e : keys_at o (es ++ [e]) = keys_at o es ++ [(o, e.1)].
Proof. unfold keys_at. by rewrite map_app. Qed.

Lemma separator_splits start limit v b : key_ok start -> key_ok limit -> Compare start limit = Lt -> Forall (fun e => key_ok e.1 /\ Compare e.1 start <> Gt) b -> (exists e, e ∈ b /\ e.1 = start) ->
  splits like (Separator start limit) b [(limit, v)].
Proof.
  intros Hs Hl Hlt Hb (e0 & Hin0 & E0). destruct (separator_between start limit Hs Hl Hlt) as (H1 & H2 & H3). split; [done|]. split.
  - eapply Forall_impl; [exact Hb|]. intros e [He Hes]. cbn. destruct (Compare e.1 start) eqn:Ec; [|by rewrite (cmp_lt_le_trans Compare key_ok e.1 start)|done].
    by rewrite (cmp_eq_l Compare key_ok e.1 start).
  - right. exists limit. split; [done|]. split; [done|]. split; [apply Forall_singleton; cbn; by rewrite (cmp_refl Compare key_ok)|].
    intros k e Hk He Hbk Hks Hle. apply (Hlike start limit); try done. rewrite <- E0. by apply (proj1 (List.Forall_forall _ _) Hbk e0), list_elem_of_In.
Qed.

(** The keys of entries in order: all before a later one, none behind the last. *)
Lemma sorted_before es k v : sorted_entries (es ++ [(k, v)]) -> key_ok k /\ Forall (fun e => key_ok e.1) es /\ Forall (fun e => Compare e.1 k = Lt) es.
Proof.
  intros H. pose proof H as [Hok _]. split; [by destruct (Hok k v) as [? _]; [apply elem_of_app; right; left|]|].
  split; apply List.Forall_forall; intros e He%list_elem_of_In.
  - destruct e as [k' v']. destruct (Hok k' v') as [? _]; [apply elem_of_app; by left|done].
  - by apply (sorted_entries_lt es [(k, v)] e (k, v) H He); left.
Qed.

Lemma building_added r done pend cur key value : building r done pend cur -> sorted_entries ((entries_of done ++ pend_entries pend ++ cur) ++ [(key, value)]) ->
  exists done', entries_of done' ++ cur = entries_of done ++ pend_entries pend ++ cur /\ building (added key value r) done' None (cur ++ [(key, value)]).
Proof.
  intros [Hbv Hbs Hbo Hbd Hbi Hbp Hbr Hbb Hbof Hbsep Hbl Hbf] Hso. destruct (sorted_before _ _ _ Hso) as (Hk & Hoks & Hlts).
  assert (Ho : 0 <= offset r) by (rewrite Hbo; apply len_nonneg).
  assert (Hfilter : forall fb, match filter_policy options with None => filter_block r = None | Some P => exists b, filter_block r = Some b /\ filter_state (P := P) (offset r) fb b end ->
    match filter_policy options with
    | None => match filter_policy options, filter_block r with Some P, Some b => Some (AddKey key b) | _, _ => filter_block r end = None
    | Some P => exists b, match filter_policy options, filter_block r with Some P, Some b => Some (AddKey key b) | _, _ => filter_block r end = Some b /\
        filter_state (P := P) (offset r) (fb ++ [(offset r, key)]) b end).
  { intros fb H. destruct (filter_policy options) as [P|]; [|by rewrite H]. destruct H as (b & -> & Hst). eexists. split; [done|]. by apply filter_state_add. }
  destruct pend as [[h b]|]; cbn [pend_entries pend_added pend_offsets] in *.
  - destruct Hbp as [Hpe Hph]. subst cur. rewrite !app_nil_r in *. destruct Hbb as [Hdone Hheld].
    destruct (last b) as [e0|] eqn:El; [|apply last_None in El; by destruct Hheld as [[] _]]. apply last_Some in El as [b' ->].
    rewrite app_assoc, last_snoc in Hbl.
    set (sep := Separator e0.1 key). exists (done ++ [(sep, (h, b' ++ [e0]))]). rewrite entries_of_snoc, app_nil_r. split; [done|]. unfold added. rewrite with_policy_eq, Hpe, Hbl. fold sep.
    pose proof (sorted_entries_app _ _ Hso) as [Hso1 _]. pose proof (sorted_entries_app _ _ Hso1) as [_ Hsob]. destruct e0 as [k0 v0].
    destruct (sorted_before _ _ _ Hsob) as (Hk0 & Hok0 & Hlt0).
    split; cbn [table_file table_status offset data_block index_block last_key pending_index_entry pending_handle filter_block set_filter_block set_data_block set_last_key set_num_entries set_index_block set_pending
      add_index_entry pend_entries pend_added pend_offsets app]; try done.
    + by rewrite Hbd.
    + unfold index_of. rewrite map_app. cbn [map fst snd]. by rewrite add_all_snoc, Hbi, Hph.
    + split; [|done]. apply Forall_app. split; [done|]. by apply Forall_singleton.
    + rewrite map_app, app_nil_r. exact Hbof.
    + apply separated_snoc. cbn [fst snd]. split.
      * apply separated_extend; [by destruct b'|done|done|done|exact Hbsep].
      * apply (separator_splits k0 key value); try done.
        -- apply Forall_app in Hlts as [_ H]. apply Forall_app in H as [_ H]. exact (Forall_inv H).
        -- apply Forall_app. split; [|apply Forall_singleton; cbn; split; [done|by rewrite (cmp_refl Compare key_ok)]].
           apply Forall_and. split; [done|]. eapply Forall_impl; [exact Hlt0|]. cbn. by intros e ->.
        -- exists (k0, v0). split; [apply elem_of_app; right; by left|done].
    + by rewrite last_snoc.
    + rewrite added_of_snoc. cbn [fst snd]. unfold keys_at at 1. cbn [map fst]. apply Hfilter. exact Hbf.
  - exists done. split; [done|]. cbn [app] in *. unfold added. rewrite with_policy_eq, Hbp.
    split; cbn [table_file table_status offset data_block index_block last_key pending_index_entry pending_handle filter_block set_filter_block set_data_block set_last_key set_num_entries pend_entries pend_added pend_offsets app]; try done.
    + by rewrite Hbd, add_all_snoc.
    + by destruct cur.
    + destruct (decide (cur = [])) as [Hc|Hc]; [by rewrite Hbr|]. by apply separated_extend.
    + by rewrite app_assoc, last_snoc.
    + rewrite keys_at_snoc, app_assoc. apply Hfilter. exact Hbf.
Qed.

Lemma Add_spec r es key value : builds r es -> sorted_entries (es ++ [(key, value)]) -> len (es ++ [(key, value)]) < 2 ^ 31 ->
  exists r', TableBuilder_Add address options key value r = Some (tt, r') /\ builds r' (es ++ [(key, value)]).
Proof.
  intros [Hv [Hf|Hb]] Hso Hcount.
  { exists r. split; [|split; [done|by left]]. unfold TableBuilder_Add, dbind, dget. by rewrite Hf. }
  destruct (table_ok r) eqn:Hok; [|exists r; split; [unfold TableBuilder_Add, dbind, dget; by rewrite Hok|split; [done|by left]]].
  destruct (added_file key value r) as [Efile Estat]. assert (Hv1 : valid_file (table_file (added key value r))) by (by rewrite Efile).
  assert (Hfe : file_of (added key value r) = file_of r) by (unfold file_of; by rewrite Efile).
  assert (Hmid : len (file_of r) < 2 ^ 32 -> exists done cur, es = entries_of done ++ cur /\ building (added key value r) done None (cur ++ [(key, value)])).
  { intros Hs. destruct (Hb Hs) as (done & pend & cur & Hbld & ->). destruct (building_added r done pend cur key value Hbld Hso) as (done' & E & Hbld').
    exists done', cur. by split. }
  rewrite (Add_added key value r Hok). destruct (block_size options <=? _).
  - destruct (Flush_total (added key value r) Hv1) as (r' & E & Hv' & Hgrow). exists r'. split; [done|]. split; [done|].
    destruct Hgrow as [?|Hle]; [by left|]. destruct (table_ok r') eqn:Hok'; [right|by left]. intros Hs. destruct Hmid as (done & cur & -> & Hbld); [rewrite Hfe in Hle; lia|].
    rewrite <- app_assoc in *. destruct (Builder_Flush_spec _ _ _ Hbld) as (r2 & E2 & _ & H2); [by destruct cur|done|done|].
    rewrite E in E2. injection E2 as <-. destruct H2 as [H2|H2]; [congruence|]. destruct (H2 Hs) as [h Hh]. exists done, (Some (h, cur ++ [(key, value)])), [].
    split; [done|]. cbn. by rewrite app_nil_r.
  - eexists. split; [reflexivity|]. split; [done|]. right. intros Hs. rewrite Hfe in Hs. destruct (Hmid Hs) as (done & cur & -> & Hbld).
    exists done, None, (cur ++ [(key, value)]). split; [done|]. by rewrite <- app_assoc.
Qed.

(** ** Finishing *)

Lemma Flush_builds r es : builds r es -> sorted_entries es -> len es < 2 ^ 31 -> exists r', TableBuilder_Flush address options r = Some (tt, r') /\ valid_file (table_file r') /\
  (table_ok r' = false \/ (len (file_of r') < 2 ^ 32 -> exists done pend, building r' done pend [] /\ es = entries_of done ++ pend_entries pend)).
Proof.
  intros [Hv Hb] Hso Hcount. destruct (Flush_total r Hv) as (r' & E & Hv' & Hgrow). exists r'. split; [done|]. split; [done|]. destruct Hgrow as [?|Hle]; [by left|].
  destruct Hb as [Hf|Hb]; [unfold TableBuilder_Flush, dbind, dget in E; rewrite Hf in E; injection E as <-; by left|].
  destruct (table_ok r') eqn:Hok'; [right|by left]. intros Hs. destruct Hb as (done & pend & cur & Hbld & ->); [lia|].
  destruct (decide (cur = [])) as [->|Hne].
  - exists done, pend. rewrite app_nil_r. split; [|done]. unfold TableBuilder_Flush, dbind, dget in E.
    rewrite (b_data _ _ _ _ Hbld), add_all_empty, bool_decide_true in E by done. destruct (negb (table_ok r)); by injection E as <-.
  - pose proof (b_rest _ _ _ _ Hbld) as Hrest. destruct pend as [[h b]|]; [done|]. cbn [pend_entries app] in *.
    destruct (Builder_Flush_spec _ _ _ Hbld Hne Hso Hcount) as (r2 & E2 & _ & H2). rewrite E in E2. injection E2 as <-. destruct H2 as [H2|H2]; [congruence|].
    destruct (H2 Hs) as [h Hh]. by exists done, (Some (h, cur)).
Qed.

(** The last index entry. *)
Definition last_entry (r : Rep F) : Rep F := if pending_index_entry r then add_index_entry (Successor (last_key r)) r else r.

Lemma last_entry_file r : table_file (last_entry r) = table_file r /\ table_status (last_entry r) = table_status r /\ offset (last_entry r) = offset r.
Proof. unfold last_entry. by destruct (pending_index_entry r). Qed.

Lemma building_last r done pend : building r done pend [] -> sorted_entries (entries_of done ++ pend_entries pend) -> exists done',
  entries_of done' = entries_of done ++ pend_entries pend /\ separated like done' [] /\ Forall (fun w => holds address (file_of r) w.2.1 w.2.2) done' /\
  NoDup (map (fun w => handle_offset w.2.1) done') /\ added_of done' = added_of done ++ pend_added pend /\
  forall x, pending_index_entry x = pending_index_entry r -> pending_handle x = pending_handle r -> last_key x = last_key r -> index_block x = index_block r ->
    index_block (last_entry x) = add_all 1 (index_of done') NewBlockBuilder.
Proof.
  intros [Hbv Hbs Hbo Hbd Hbi Hbp Hbr Hbb Hbof Hbsep Hbl Hbf] Hso. destruct pend as [[h b]|]; cbn [pend_entries pend_added pend_offsets] in *; rewrite ?app_nil_r in *.
  - destruct Hbp as [Hpe Hph], Hbb as [Hdone Hheld]. destruct (last b) as [e0|] eqn:El; [|apply last_None in El; by destruct Hheld as [[] _]].
    apply last_Some in El as [b' ->]. rewrite app_assoc, last_snoc in Hbl. destruct e0 as [k0 v0]. cbn [fst] in Hbl.
    pose proof (sorted_entries_app _ _ Hso) as [_ Hsob]. destruct (sorted_before _ _ _ Hsob) as (Hk0 & Hok0 & Hlt0). destruct (successor_after k0 Hk0) as [Hsk Hsa].
    exists (done ++ [(Successor k0, (h, b' ++ [(k0, v0)]))]). rewrite entries_of_snoc, added_of_snoc, map_app. split; [done|]. split; [|split; [|split; [exact (proj1 Hbof)|split; [done|]]]].
    + apply separated_snoc. cbn [fst snd]. rewrite app_nil_r. split; [done|]. split; [done|]. split; [|by left]. apply Forall_app. split; [|by apply Forall_singleton].
      apply List.Forall_forall. intros e He. pose proof (proj1 (List.Forall_forall _ _) Hlt0 e He) as He'. pose proof (proj1 (List.Forall_forall _ _) Hok0 e He) as Hoke. cbn in *.
      by rewrite (cmp_lt_le_trans Compare key_ok e.1 k0).
    + apply Forall_app. split; [done|]. by apply Forall_singleton.
    + intros x E1 E2 E3 E4. unfold last_entry. rewrite E1, Hpe. unfold add_index_entry. cbn [index_block set_pending set_index_block set_last_key pending_handle].
      rewrite E2, Hph, E3, Hbl, E4, Hbi. unfold index_of. rewrite map_app. cbn [map fst snd]. by rewrite add_all_snoc.
  - exists done. split; [done|]. split; [done|]. split; [apply Hbb|]. split; [apply Hbof|]. split; [done|]. intros x E1 _ _ E4. unfold last_entry. by rewrite E1, Hbp, E4.
Qed.

Lemma when_ok_true {A} (a : A) m (r : Rep F) : table_ok r = true -> when_ok a m r = m r.
Proof. intros H. unfold when_ok, dbind, dget. by rewrite H. Qed.
Lemma when_ok_false {A} (a : A) m (r : Rep F) : table_ok r = false -> when_ok a m r = Some (a, r).
Proof. intros H. unfold when_ok, dbind, dget. by rewrite H. Qed.

(** After a successful write of a small file. *)
Lemma wrote_ok r d r' : wrote r d r' -> table_ok r' = true -> file_of r' = file_of r ++ d /\ (offset r = len (file_of r) -> len (file_of r') < 2 ^ 32 -> offset r' = len (file_of r')) /\
  r' = set_offset (offset r') (set_table_status Status_OK (set_file (table_file r') r)).
Proof.
  intros [_ [H|[E Ef]]] Hok; [congruence|]. split; [done|]. split.
  - intros Ho Hs. rewrite Ef, len_app in *. rewrite E. cbn [offset set_offset]. pose proof (len_nonneg (file_of r)). pose proof (len_nonneg d). rewrite u64_id; lia.
  - rewrite E at 1. f_equal. by rewrite E.
Qed.

Definition blk_bytes (raw : list Z) : list Z := raw ++ block_trailer address raw kNoCompression.

(** What is put into the meta index. *)
Definition meta_entries (has_filter : bool) (fh : BlockHandle) : entries :=
  match filter_policy options with
  | Some P => if has_filter then [(bytes_of "filter." ++ FilterName (FilterPolicy := P), BlockHandle_EncodeTo fh [])] else []
  | None => []
  end.
Definition has_filter (r : Rep F) : bool := match filter_block r with Some _ => true | None => false end.
Definition meta_block (r : Rep F) (fh : BlockHandle) : BlockBuilder := add_all (block_restart_interval options) (meta_entries (has_filter r) fh) NewBlockBuilder.

Definition filter_part (r1 r2 : Rep F) (fh : BlockHandle) : Prop :=
  match filter_policy options, filter_block r1 with
  | Some _, Some b => wrote (set_filter_block (Some (snd (FilterBlock_Finish b))) r1) (blk_bytes (fst (FilterBlock_Finish b))) r2 /\
      fh = {| handle_offset := offset r1; handle_size := len (fst (FilterBlock_Finish b)) |}
  | _, _ => r2 = r1
  end.

Definition footer_part (r2 r3 : Rep F) (fh : BlockHandle) : Footer :=
  {| metaindex_handle := {| handle_offset := offset r2; handle_size := CurrentSizeEstimate (meta_block r2 fh) |};
     index_handle := {| handle_offset := offset r3; handle_size := CurrentSizeEstimate (index_block (last_entry r3)) |} |}.

(** The writes of a run of [Finish] that succeeds. *)
Record finish_run (r1 r2 r3 r4 r5 : Rep F) (fh : BlockHandle) : Prop := {
  run_ok : table_ok r1 = true /\ table_ok r2 = true /\ table_ok r3 = true /\ table_ok r4 = true;
  run_filter : filter_part r1 r2 fh;
  run_meta : wrote r2 (blk_bytes (fst (Finish (meta_block r2 fh)))) r3;
  run_index : exists x, wrote (last_entry r3) (blk_bytes (fst (Finish (index_block (last_entry r3))))) x /\ r4 = set_index_block (Reset (index_block x)) x;
  run_footer : file_of r5 = file_of r4 ++ Footer_EncodeTo (footer_part r2 r3 fh) [] /\
    offset r5 = u64 (offset r4 + len (Footer_EncodeTo (footer_part r2 r3 fh) []))
}.

(** A part of [Finish]: skipped after an error. *)
Lemma stage {A} (Q : A -> Rep F -> Prop) (a : A) m r : valid_file (table_file r) ->
  (table_ok r = true -> exists x r', m r = Some (x, r') /\ valid_file (table_file r') /\ Q x r') ->
  exists x r', when_ok a m r = Some (x, r') /\ valid_file (table_file r') /\ (table_ok r' = true -> table_ok r = true /\ Q x r').
Proof.
  intros Hv Hm. destruct (table_ok r) eqn:Hok.
  - rewrite (when_ok_true _ _ _ Hok). destruct (Hm eq_refl) as (x & r' & E & Hv' & HQ). by exists x, r'.
  - rewrite (when_ok_false _ _ _ Hok). exists a, r. split; [done|]. split; [done|]. congruence.
Qed.

Lemma last_step r4 footer : valid_file (table_file r4) -> exists s r5,
  (let! _ := when_ok tt (let! s := on_file (Append footer) in if ok s then dmodify (fun r => set_offset (u64 (offset r + len footer)) r) else dret tt) in
   let! r := dget in dret (table_status r)) r4 = Some (s, r5) /\ valid_file (table_file r5) /\
  (ok s = true -> table_ok r4 = true /\ file_of r5 = file_of r4 ++ footer /\ offset r5 = u64 (offset r4 + len footer)).
Proof.
  intros Hv. unfold dbind at 1. destruct (table_ok r4) eqn:Hok.
  - rewrite when_ok_true by done. unfold dbind at 1. destruct (on_file_append footer r4 Hv) as (s & f & -> & Hvf & Hf).
    destruct (ok s) eqn:Es; unfold dmodify, dbind, dget, dret; eexists _, _; (split; [reflexivity|]); (split; [done|]).
    + intros _. split; [done|]. split; [transitivity (contents f); [done|by apply Hf]|done].
    + cbn. by rewrite Es.
  - rewrite when_ok_false by done. unfold dbind, dget, dret. exists (table_status r4), r4. split; [done|]. split; [done|]. unfold table_ok in Hok. congruence.
Qed.

Lemma Finish_steps r r0 : TableBuilder_Flush address options r = Some (tt, r0) -> valid_file (table_file r0) -> exists s r5,
  TableBuilder_Finish address options r = Some (s, r5) /\ valid_file (table_file r5) /\
  (ok s = true -> exists r2 r3 r4 fh, finish_run (set_closed r0) r2 r3 r4 r5 fh).
Proof.
  intros EF Hv0. unfold TableBuilder_Finish. unfold dbind at 1. rewrite EF. unfold dbind at 1, dmodify at 1. set (r1 := set_closed r0). assert (Hv1 : valid_file (table_file r1)) by done.
  unfold dbind at 1. match goal with |- context [when_ok NewBlockHandle ?m r1] => destruct (stage (fun fh r2 => filter_part r1 r2 fh) NewBlockHandle m r1 Hv1) as (fh & r2 & -> & Hv2 & H2) end.
  { intros _. unfold dbind at 1, dget, filter_part. destruct (filter_policy options) as [P|]; [|by eexists _, r1]. destruct (filter_block r1) as [b|]; [|by eexists _, r1].
    destruct (FilterBlock_Finish b) as [fc b']. cbn [fst snd]. unfold dbind at 1, dmodify at 1.
    destruct (WriteRawBlock_spec fc kNoCompression (set_filter_block (Some b') r1) Hv1) as (r2 & -> & Hw). eexists _, r2. split; [reflexivity|]. split; [apply Hw|]. split; [exact Hw|done]. }
  unfold dbind at 1. match goal with |- context [when_ok NewBlockHandle ?m r2] =>
    destruct (stage (fun mh r3 => mh = {| handle_offset := offset r2; handle_size := CurrentSizeEstimate (meta_block r2 fh) |} /\ wrote r2 (blk_bytes (fst (Finish (meta_block r2 fh)))) r3)
      NewBlockHandle m r2 Hv2) as (mh & r3 & -> & Hv3 & H3) end.
  { intros _. unfold dbind at 1, dget. match goal with |- context [WriteBlock _ _ ?b r2] => replace b with (meta_block r2 fh) end.
    - destruct (WriteBlock_spec (meta_block r2 fh) r2 Hv2) as (r3 & -> & Hw). eexists _, r3. split; [reflexivity|]. split; [apply Hw|]. by split.
    - unfold meta_block, meta_entries, has_filter. by destruct (filter_policy options), (filter_block r2). }
  unfold dbind at 1. match goal with |- context [when_ok NewBlockHandle ?m r3] =>
    destruct (stage (fun ih r4 => ih = {| handle_offset := offset r3; handle_size := CurrentSizeEstimate (index_block (last_entry r3)) |} /\
      exists x, wrote (last_entry r3) (blk_bytes (fst (Finish (index_block (last_entry r3))))) x /\ r4 = set_index_block (Reset (index_block x)) x)
      NewBlockHandle m r3 Hv3) as (ih & r4 & -> & Hv4 & H4) end.
  { intros _. unfold dbind at 1, dmodify at 1. fold (last_entry r3). destruct (last_entry_file r3) as (Ef & Es & Eo). unfold dbind at 1, dget. unfold dbind at 1.
    destruct (WriteBlock_spec (index_block (last_entry r3)) (last_entry r3)) as (x & -> & Hw); [by rewrite Ef|]. unfold dbind, dmodify, dret. eexists _, _. split; [reflexivity|].
    split; [apply Hw|]. split; [by rewrite Eo|]. by exists x. }
  destruct (last_step r4 (Footer_EncodeTo {| metaindex_handle := mh; index_handle := ih |} []) Hv4) as (s & r5 & E5 & Hv5 & H5). exists s, r5. split; [exact E5|]. split; [done|].
  intros Hs. destruct (H5 Hs) as (Hok4 & Ef5 & Eo5). destruct (H4 Hok4) as (Hok3 & -> & Hi). destruct (H3 Hok3) as (Hok2 & -> & Hm). destruct (H2 Hok2) as (Hok1 & Hf).
  exists r2, r3, r4, fh. by split.
Qed.

(** What [Finish] leaves alone until the index block is written. *)
Definition same_index (r r' : Rep F) : Prop := pending_index_entry r' = pending_index_entry r /\ pending_handle r' = pending_handle r /\
  last_key r' = last_key r /\ index_block r' = index_block r.

Lemma wrote_same r d r' : wrote r d r' -> table_ok r' = true -> same_index r r' /\ filter_block r' = filter_block r.
Proof. intros Hw Hok. destruct (wrote_ok r d r' Hw Hok) as (_ & _ & ->). done. Qed.

(** A block of entries that are bytes, written at the end of a small file. *)
Lemma block_written interval es file : 1 <= interval -> Forall (fun e => Forall byte e.1 /\ Forall byte e.2) es -> let b := add_all interval es NewBlockBuilder in
  len (file ++ blk_bytes (fst (Finish b))) < 2 ^ 32 ->
  laid address (file ++ blk_bytes (fst (Finish b))) {| handle_offset := len file; handle_size := CurrentSizeEstimate b |} (fst (Finish b)) /\ block_of es (fst (Finish b)).
Proof.
  intros Hi Hb b Hs. unfold blk_bytes in *. rewrite !len_app in Hs. pose proof (len_Finish b) as El. pose proof (len_nonneg file). pose proof (len_nonneg (block_trailer address (fst (Finish b)) kNoCompression)).
  destruct (add_all_block interval es Hi) as [Hbo _]; [fold b; lia|]. fold b in Hbo. split; [|done]. rewrite <- El. apply written_laid. by apply (block_of_byte es).
Qed.

Lemma index_bytes file done : separated like done [] -> Forall (fun w => holds address file w.2.1 w.2.2) done -> len file < 2 ^ 63 -> Forall (fun e => Forall byte e.1 /\ Forall byte e.2) (index_of done).
Proof.
  intros Hsep Hh Hs. apply List.Forall_forall. intros e (w & <- & Hw)%in_map_iff. apply list_elem_of_In, list_elem_of_lookup in Hw as [i Hi]. cbn [fst snd].
  destruct (separated_lookup like done [] i w Hsep Hi) as [Hk _]. destruct (Forall_lookup_1 _ _ _ _ Hh Hi) as [_ (c & Hl & _)].
  split; [by apply key_bytes|]. apply EncodeTo_bytes. by apply (laid_ok address file _ c).
Qed.

Lemma filter_part_spec r0 done pend r2 fh : building r0 done pend [] -> filter_part (set_closed r0) r2 fh -> table_ok r2 = true -> len (file_of r2) < 2 ^ 32 ->
  len (added_of done ++ pend_added pend) < 2 ^ 31 ->
  same_index r0 r2 /\ offset r2 = len (file_of r2) /\ has_filter r2 = (match filter_policy options with Some _ => true | None => false end) /\ exists d, file_of r2 = file_of r0 ++ d /\
  match filter_policy options with
  | None => True
  | Some P => exists fc, laid address (file_of r2) fh fc /\ filters_of (P := P) like (added_of done ++ pend_added pend) fc
  end.
Proof.
  intros Hb Hf Hok Hs Hcount. unfold filter_part in Hf. pose proof (b_filter _ _ _ _ Hb) as Hfb. pose proof (b_offset _ _ _ _ Hb) as Ho. change (filter_block (set_closed r0)) with (filter_block r0) in *.
  destruct (filter_policy options) as [P|].
  - destruct Hfb as (b & Eb & Hst). rewrite Eb in Hf. destruct Hf as [Hw ->]. destruct (Hpolicy P eq_refl) as [L HL]. unfold keys_at in Hst. cbn [map] in Hst. rewrite app_nil_r in Hst.
    destruct (wrote_ok _ _ _ Hw Hok) as (Ef & Eo & _). destruct (wrote_same _ _ _ Hw Hok) as [Hsame Hfl]. change (file_of (set_filter_block _ _)) with (file_of r0) in *.
    split; [exact Hsame|]. split; [by apply Eo|]. split; [unfold has_filter; by rewrite Hfl|]. exists (blk_bytes (fst (FilterBlock_Finish b))). split; [done|].
    exists (fst (FilterBlock_Finish b)). assert (Hfs : len (fst (FilterBlock_Finish b)) < 2 ^ 32).
    { rewrite Ef in Hs. unfold blk_bytes in Hs. rewrite !len_app in Hs. pose proof (len_nonneg (file_of r0)). pose proof (len_nonneg (block_trailer address (fst (FilterBlock_Finish b)) kNoCompression)). lia. }
    pose proof (Finish_filter_state _ _ _ Hst Hcount Hfs) as Hfo. rewrite HL in Hfo. split; [|done]. rewrite Ef. change (offset (set_closed r0)) with (offset r0). rewrite Ho. apply written_laid, Hfo.
  - subst r2. split; [done|]. split; [done|]. split; [unfold has_filter; cbn; by rewrite Hfb|]. exists []. split; [by rewrite app_nil_r|done].
Qed.

Lemma assemble r0 done pend es r2 r3 r4 r5 fh : building r0 done pend [] -> es = entries_of done ++ pend_entries pend -> sorted_entries es -> len es < 2 ^ 31 ->
  finish_run (set_closed r0) r2 r3 r4 r5 fh -> len (file_of r5) < 2 ^ 32 ->
  offset r5 = len (file_of r5) /\ exists done' footer, is_table address options like (file_of r5) es done' footer /\ footer_ok footer.
Proof.
  intros Hb -> Hso Hcount [(_ & Hok2 & Hok3 & Hok4) Hfl Hme (x & Hix & E4) [Ef5 Eo5]] Hs.
  destruct (building_last r0 done pend Hb Hso) as (done' & Hes & Hsep & Hholds & Hnd & Hadd & Hindex).
  assert (Hokx : table_ok x = true) by (by rewrite E4 in Hok4).
  destruct (wrote_ok _ _ _ Hix Hokx) as (Efx & Eox & _). destruct (wrote_ok _ _ _ Hme Hok3) as (Ef3 & Eo3 & _). destruct (last_entry_file r3) as (El1 & _ & El3).
  assert (Efl : file_of (last_entry r3) = file_of r3) by (unfold file_of; by rewrite El1). rewrite Efl in *.
  assert (Ef4 : file_of r4 = file_of x) by (by rewrite E4). set (fo := footer_part r2 r3 fh) in *. rewrite Ef4 in Ef5.
  assert (Hsx : len (file_of x) < 2 ^ 32) by (rewrite Ef5, len_app in Hs; pose proof (len_nonneg (Footer_EncodeTo fo [])); lia).
  assert (Hs3 : len (file_of r3) < 2 ^ 32) by (rewrite Efx, len_app in Hsx; match type of Hsx with _ + len ?d < _ => pose proof (len_nonneg d) end; lia).
  assert (Hs2 : len (file_of r2) < 2 ^ 32) by (rewrite Ef3, len_app in Hs3; match type of Hs3 with _ + len ?d < _ => pose proof (len_nonneg d) end; lia).
  assert (Hcount' : len (added_of done ++ pend_added pend) < 2 ^ 31) by (rewrite <- Hadd, len_added_of, Hes; done).
  destruct (filter_part_spec r0 done pend r2 fh Hb Hfl Hok2 Hs2 Hcount') as (Hsame2 & Ho2 & Hhf & d2 & Ef2 & Hfilter).
  destruct (wrote_same _ _ _ Hme Hok3) as [Hsame3 _]. destruct Hsame2 as (S1 & S2 & S3 & S4), Hsame3 as (S5 & S6 & S7 & S8).
  rewrite (Hindex r3) in Efx by congruence. specialize (Eo3 Ho2 Hs3). rewrite El3 in Eox. specialize (Eox Eo3 Hsx).
  assert (Hmeta : Forall (fun e => Forall byte e.1 /\ Forall byte e.2) (meta_entries (has_filter r2) fh)).
  { unfold meta_entries. rewrite Hhf. destruct (filter_policy options) as [P|] eqn:EP; [|constructor]. destruct (Hpolicy P eq_refl) as [L _]. apply Forall_singleton. cbn [fst snd].
    split; [apply Forall_app; split; [apply bytes_of_byte|apply filter_name_bytes]|]. destruct Hfilter as (fc & Hlaid & _). apply EncodeTo_bytes. apply (laid_ok address _ _ _ Hlaid). lia. }
  destruct (block_written _ _ (file_of r2) Hinterval Hmeta) as [Hml Hmb]; [fold (meta_block r2 fh); by rewrite <- Ef3|]. fold (meta_block r2 fh) in Hml, Hmb. rewrite <- Ef3, <- Ho2 in Hml.
  destruct (block_written 1 (index_of done') (file_of r3) ltac:(lia)) as [Hil Hib]; [|by rewrite <- Efx|].
  { apply (index_bytes (file_of r0)); [done|done|]. rewrite Ef2, len_app in Hs2. pose proof (len_nonneg d2). lia. }
  rewrite <- Efx, <- Eo3 in Hil. rewrite <- (Hindex r3) in Hil, Hib by congruence.
  assert (Hfook : footer_ok fo).
  { split; [apply (laid_ok address _ _ _ Hml); lia|apply (laid_ok address _ _ _ Hil); lia]. }
  split; [rewrite Eo5, Ef5, len_app, E4; cbn [offset set_index_block]; rewrite Eox; rewrite Ef5, len_app in Hs; pose proof (len_nonneg (file_of x)); pose proof (len_nonneg (Footer_EncodeTo fo [])); by rewrite u64_id by lia|].
  exists done', fo. split; [|done]. rewrite Ef5. split; try done.
  - eapply Forall_impl; [exact Hholds|]. intros w Hw. apply holds_app. rewrite Efx, Ef3, Ef2. by do 3 apply holds_app.
  - eexists. split; [apply laid_app; exact Hil|exact Hib].
  - eexists. split; [apply laid_app; rewrite Efx; apply laid_app; exact Hml|]. unfold meta_entries in Hmb. rewrite Hhf in Hmb. destruct (filter_policy options) as [P|]; [|done].
    destruct Hfilter as (fc & Hlaid & Hfo). exists fh, fc. split; [done|]. split; [|by rewrite Hadd]. apply laid_app. rewrite Efx, Ef3. by do 2 apply laid_app.
  - by eexists.
Qed.

Lemma run_grows r0 r2 r3 r4 r5 fh : finish_run (set_closed r0) r2 r3 r4 r5 fh -> len (file_of r0) <= len (file_of r5).
Proof.
  intros [(_ & Hok2 & Hok3 & Hok4) Hfl Hme (x & Hix & E4) [Ef5 _]]. assert (Hokx : table_ok x = true) by (by rewrite E4 in Hok4).
  destruct (wrote_ok _ _ _ Hix Hokx) as (Efx & _). destruct (wrote_ok _ _ _ Hme Hok3) as (Ef3 & _). destruct (last_entry_file r3) as (El1 & _).
  assert (Efl : file_of (last_entry r3) = file_of r3) by (unfold file_of; by rewrite El1). assert (Ef4 : file_of r4 = file_of x) by (by rewrite E4).
  assert (H2 : len (file_of r0) <= len (file_of r2)).
  { unfold filter_part in Hfl. destruct (filter_policy options), (filter_block (set_closed r0)); try (by subst r2). destruct Hfl as [Hw _].
    destruct (wrote_ok _ _ _ Hw Hok2) as (Ef2 & _). rewrite Ef2, len_app. match goal with |- _ <= _ + len ?d => pose proof (len_nonneg d) end. change (file_of (set_filter_block _ _)) with (file_of r0). lia. }
  rewrite Ef5, Ef4, Efx, Efl, Ef3, !len_app. repeat match goal with |- context [_ + len ?d] => pose proof (len_nonneg d); generalize dependent (len d); intros end. lia.
Qed.

(** ** The whole run *)

Fixpoint add_entries (es : entries) : D (Rep F) unit :=
  match es with
  | [] => dret tt
  | (key, value) :: es => let! _ := TableBuilder_Add address options key value in add_entries es
  end.
Definition build_table (es : entries) : D (Rep F) Status := let! _ := add_entries es in TableBuilder_Finish address options.

Lemma add_entries_spec r es es' : builds r es -> sorted_entries (es ++ es') -> len (es ++ es') < 2 ^ 31 -> exists r', add_entries es' r = Some (tt, r') /\ builds r' (es ++ es').
Proof.
  revert r es. induction es' as [|[k v] es' IH]; intros r es Hb Hso Hc; [exists r; by rewrite app_nil_r|]. cbn [add_entries]. unfold dbind at 1.
  replace (es ++ (k, v) :: es') with ((es ++ [(k, v)]) ++ es') in * by (by rewrite <- app_assoc). pose proof (sorted_entries_app _ _ Hso) as [Hso1 _].
  destruct (Add_spec r es k v Hb Hso1) as (r1 & -> & Hb1); [rewrite len_app in Hc; pose proof (len_nonneg es'); lia|]. by apply IH.
Qed.

Lemma build_table_spec es f : valid_file f -> contents f = [] -> sorted_entries es -> len es < 2 ^ 31 -> exists s r, build_table es (NewTableBuilder options f) = Some (s, r) /\ valid_file (table_file r) /\
  (ok s = true -> len (file_of r) < 2 ^ 32 -> FileSize r = len (file_of r) /\ exists done footer, is_table address options like (file_of r) es done footer /\ footer_ok footer).
Proof.
  intros Hv He Hso Hc. unfold build_table. unfold dbind. destruct (add_entries_spec _ [] es (builds_new f Hv He) Hso Hc) as (r & -> & Hb). cbn [app] in Hb.
  destruct (Flush_builds r es Hb Hso Hc) as (r0 & EF & Hv0 & H0). destruct (Finish_steps r r0 EF Hv0) as (s & r5 & E5 & Hv5 & H5). exists s, r5. split; [done|]. split; [done|].
  intros Hs Hsmall. destruct (H5 Hs) as (r2 & r3 & r4 & fh & Hrun). destruct (run_ok _ _ _ _ _ _ Hrun) as [Hok1 _]. destruct H0 as [H0|H0]; [change (table_ok (set_closed r0)) with (table_ok r0) in Hok1; congruence|].
  destruct H0 as (done & pend & Hbld & Ees); [pose proof (run_grows _ _ _ _ _ _ Hrun); lia|].
  destruct (assemble r0 done pend es r2 r3 r4 r5 fh Hbld Ees Hso Hc Hrun Hsmall) as [Ho Ht]. by split.
Qed.
End building.
