(* ===== verification/TableProps.v ===== *)
(** Opening a table, walking along it and searching it: what was put in is found again. *)
From Stdlib Require Import String.
From stdpp Require Import list.
From S2P Require Import Prelude Comparator Crc32c Coding Status EnvPosix DbFormat Bloom EnvRandom Iterator Block BlockProps FilterBlock TwoLevel TableFormat TableBuilder Table TableBuilding.

#[local] Abbreviation entries := (list (list Z * list Z)).

(** After a status that is fine. *)
Ltac status_ok := change (ok Status_OK) with true; cbv beta iota delta [negb].

Lemma EncodeFixed64_inj a b : 0 <= a < 2 ^ 64 -> 0 <= b < 2 ^ 64 -> EncodeFixed64 a = EncodeFixed64 b -> a = b.
Proof.
  intros Ha Hb E. rewrite <- (le_value_bytes 8 a), <- (le_value_bytes 8 b) by done. unfold EncodeFixed64 in E. by rewrite E.
Qed.

Lemma block_of_length es c : block_of es c -> (length es <= length c)%nat.
Proof.
  intros (pl & rs & <- & _ & _ & -> & _). unfold block_bytes. rewrite length_app, length_map. enough (length pl <= length (codes pl))%nat by lia. clear.
  induction pl as [|p pl IH]; [done|]. change (codes (p :: pl)) with (entry_code p ++ codes pl). rewrite length_app. pose proof (entry_code_pos p). unfold len in *. cbn. lia.
Qed.

(** An iterator that is one over a block. *)
Definition right_pos (pos : Iter -> nat -> Prop) (i : Status + Iter) (n : nat) : Prop := exists it, i = inr it /\ pos it n.

Lemma both_spec {W} (g : Iter -> D W Iter) it w (Q : W -> Prop) pos n :
  (exists it' w', g it w = Some (it', w') /\ Q w' /\ pos it' n) -> exists i' w', (let! it := g it in dret (inr it)) w = Some (i' : Status + Iter, w') /\ Q w' /\ right_pos pos i' n.
Proof. intros (it' & w' & E & ? & ?). exists (inr it'), w'. unfold dbind. rewrite E. split_and!; [done|done|by exists it']. Qed.

Lemma either_walks {C : Comparator} {CL : ComparatorLaws C} {W} (inv : W -> Prop) es pos :
  Walks (IT := BlockIter W) inv es pos -> Walks (IT := EitherIter W) inv es (right_pos pos).
Proof.
  intros [H1 H2 H3 H4 H5 H6 H7 H8]. split; [intros i n|intros i n k v|intros i n|intros i n w|intros i n w|intros target i n w|intros i n w|intros i n w]; intros (it & -> & Hp); cbn.
  - by apply H1.
  - by apply H2.
  - by apply (H3 it n).
  - intros Hi. by apply both_spec, (H4 it n).
  - intros Hi. by apply both_spec, (H5 it n).
  - intros Hi Ht. by apply both_spec, (H6 target it n).
  - intros Hi Hl. by apply both_spec, (H7 it n).
  - intros Hi Hl. by apply both_spec, (H8 it n).
Qed.

(** The iterator of a block is at its end. *)
Lemma NewIterator_at {C : Comparator} {CL : ComparatorLaws C} {W} (inv : W -> Prop) es c : sorted_entries es -> block_of es c ->
  at_any (IT := EitherIter W) inv es (NewIterator (NewBlock c)) (length es).
Proof.
  intros Hs Hb. destruct (block_of_walks es c Hs Hb) as (it & pos & -> & Hp & HW). exists (right_pos pos). split; [apply either_walks, HW|by exists it].
Qed.

Section reading.
Context {C : Comparator} {CL : ComparatorLaws C} {F K : Type} {R : RandomAccessFile F} {B : BlockCache K} {BL : BlockCacheLaws K}.
Context (address : list Z -> Z) (options : Options) (like : list Z -> list Z).
Context (file : list Z) (invF : F -> Prop) {SV : Serves F file invF}.
Context (es : entries) (done : list written) (footer : Footer) (T : is_table address options like file es done footer).
Context (Hfooter : footer_ok footer) (Hsmall : len file < 2 ^ 32) (Hsorted : sorted_entries es).

#[local] Abbreviation index := (index_of done).

Lemma file_63 : len file < 2 ^ 63.
Proof. lia. Qed.

(** ** The blocks of the table *)

Lemma written_in w : w ∈ done -> holds address file w.2.1 w.2.2.
Proof. intros Hw. apply (proj1 (List.Forall_forall _ _) (table_blocks _ _ _ _ _ _ _ T)), list_elem_of_In, Hw. Qed.

Lemma written_handle w : w ∈ done -> handle_ok w.2.1.
Proof. intros Hw. destruct (written_in w Hw) as [_ (c & Hl & _)]. apply (laid_ok address file _ c Hl file_63). Qed.

Lemma written_sorted w : w ∈ done -> sorted_entries w.2.2.
Proof.
  intros [i Hi]%list_elem_of_lookup. rewrite (table_entries _ _ _ _ _ _ _ T), <- (take_drop_middle _ _ _ Hi) in Hsorted. unfold entries_of in Hsorted.
  rewrite map_app, concat_app in Hsorted. cbn in Hsorted. by apply sorted_entries_app in Hsorted as [_ [H _]%sorted_entries_app].
Qed.

Lemma written_unique w w' : w ∈ done -> w' ∈ done -> handle_offset w.2.1 = handle_offset w'.2.1 -> w = w'.
Proof.
  intros [i Hi]%list_elem_of_lookup [j Hj]%list_elem_of_lookup E. pose proof (table_offsets _ _ _ _ _ _ _ T) as Hnd.
  assert (i = j) as ->; [|congruence]. apply (NoDup_lookup _ i j (handle_offset w.2.1) Hnd); [by rewrite list_lookup_fmap, Hi|by rewrite list_lookup_fmap, Hj, E].
Qed.

Definition encoded (w : written) : list Z := BlockHandle_EncodeTo w.2.1 [].

Lemma decode_written w : w ∈ done -> BlockHandle_DecodeFrom NewBlockHandle (encoded w) = (Status_OK, w.2.1, []).
Proof. intros Hw. unfold encoded. rewrite <- (app_nil_r (BlockHandle_EncodeTo _ _)). by apply DecodeFrom_EncodeTo; [apply written_handle|constructor]. Qed.

(** The entries of the block that a value of the index leads to. *)
Definition block_at (h : list Z) : entries := match list_find (fun w => encoded w = h) done with Some (_, w) => w.2.2 | None => [] end.

Lemma block_at_written w : w ∈ done -> block_at (encoded w) = w.2.2.
Proof.
  intros Hw. unfold block_at. destruct (list_find _ done) as [[i w']|] eqn:E.
  - apply list_find_Some in E as (Hi & E & _). assert (Hw' : w' ∈ done) by (by apply list_elem_of_lookup_2 in Hi).
    f_equal. f_equal. apply written_unique; [done..|]. pose proof (decode_written w Hw) as H1. rewrite <- E, (decode_written w' Hw') in H1. by injection H1 as ->.
  - apply list_find_None in E. exfalso. by apply (proj1 (List.Forall_forall _ _) E w); [apply list_elem_of_In|].
Qed.

Lemma blocks_index : blocks block_at index = es.
Proof.
  rewrite (table_entries _ _ _ _ _ _ _ T). unfold blocks, entries_of, index_of. rewrite map_map. f_equal. apply map_ext_in. intros w Hw.
  apply block_at_written, list_elem_of_In, Hw.
Qed.

Lemma index_lookup i k h : index !! i = Some (k, h) -> exists w, done !! i = Some w /\ k = w.1 /\ h = encoded w.
Proof. intros (w & E & Hw)%list_lookup_fmap_Some. injection E as -> ->. by exists w. Qed.

Lemma index_handle_in h : h ∈ index.*2 -> exists w, w ∈ done /\ h = encoded w.
Proof. intros (e & -> & (w & -> & Hw)%list_elem_of_fmap)%list_elem_of_fmap. by exists w. Qed.

Lemma index_length : length index = length done.
Proof. apply length_map. Qed.

Lemma splits_at i w : done !! i = Some w -> splits like w.1 w.2.2 (entries_of (drop (S i) done)).
Proof. intros Hi. pose proof (separated_lookup like done [] i w (table_separated _ _ _ _ _ _ _ T) Hi) as H. by rewrite app_nil_r in H. Qed.

Lemma in_later i j w e : done !! j = Some w -> (i < j)%nat -> e ∈ w.2.2 -> e ∈ entries_of (drop (S i) done).
Proof.
  intros Hj Hij He. unfold entries_of. apply list_elem_of_In, in_concat. exists w.2.2. split; [|by apply list_elem_of_In]. apply in_map_iff. exists w. split; [done|].
  apply list_elem_of_In, list_elem_of_lookup. exists (j - S i)%nat. rewrite lookup_drop. by replace (S i + (j - S i))%nat with j by lia.
Qed.

Lemma written_key_ok w e : w ∈ done -> e ∈ w.2.2 -> key_ok e.1.
Proof. intros Hw He. destruct e as [k v]. by destruct (entry_ok _ (written_sorted w Hw) k v He). Qed.

#[local] Instance separates : Separates index block_at.
Proof.
  split.
  - intros i k h (w & Hi & -> & _)%index_lookup. by destruct (splits_at i w Hi).
  - intros i k h e (w & Hi & -> & ->)%index_lookup He. pose proof (list_elem_of_lookup_2 _ _ _ Hi) as Hw. rewrite (block_at_written w Hw) in He.
    split; [by apply (written_key_ok w)|]. destruct (splits_at i w Hi) as (_ & Hall & _). by apply (proj1 (List.Forall_forall _ _) Hall e), list_elem_of_In.
  - intros i k h j k' h' e (w & Hi & -> & ->)%index_lookup (w' & Hj & -> & ->)%index_lookup Hij He. pose proof (list_elem_of_lookup_2 _ _ _ Hj) as Hw'. rewrite (block_at_written w' Hw') in He.
    apply (splits_next like _ w.2.2 (entries_of (drop (S i) done))); [by apply splits_at|by apply (in_later i j w')|by apply (written_key_ok w')].
Qed.

Lemma index_sorted : sorted_entries index.
Proof.
  split.
  - intros k v (w & [= -> ->] & Hw)%list_elem_of_fmap. split; [|by apply EncodeTo_bytes, written_handle].
    apply list_elem_of_lookup in Hw as [i Hi]. by destruct (splits_at i w Hi).
  - intros i j k v k' v' Hi Hj Hij. pose proof (index_lookup j k' v' Hj) as (w & Hw%list_elem_of_lookup_2 & _ & Ev). destruct (written_in w Hw) as [Hne _].
    destruct w.2.2 as [|e b] eqn:Eb; [done|]. assert (He : e ∈ block_at v') by (rewrite Ev, (block_at_written w Hw), Eb; apply list_elem_of_here).
    pose proof (index_below _ _ i k v j k' v' e Hi Hj Hij He) as H1. destruct (index_above _ _ j k' v' e Hj He) as [Hok H2].
    pose proof (index_ok _ _ i k v Hi). pose proof (index_ok _ _ j k' v' Hj). by apply (cmp_lt_le_trans Compare key_ok k e.1).
Qed.

(** ** Opening *)

Section table.
Context (id : Z).

(** A block that is cached under a key of the table's. *)
Definition good (key : list Z) (block : Block) : Prop := forall w, w ∈ done -> key = EncodeFixed64 id ++ EncodeFixed64 (handle_offset w.2.1) ->
  exists c, block = NewBlock c /\ block_of w.2.2 c.

Definition inv (w : Files F K) : Prop := invF (random_file w) /\ match block_cache w with None => True | Some k => cached good k end.

Lemma from_file_spec {A} (m : D F A) (Q : A -> Prop) w : inv w ->
  (forall f, invF f -> exists a f', m f = Some (a, f') /\ Q a /\ invF f') -> exists a w', from_file m w = Some (a, w') /\ Q a /\ inv w'.
Proof.
  intros [Hf Hc] Hm. destruct (Hm _ Hf) as (a & f' & E & HQ & Hf'). exists a, (set_random_file f' w). unfold from_file. rewrite E. by split_and!.
Qed.

Lemma read_block_spec opt h c w : laid address file h c -> inv w -> exists b w', read_block address opt h w = Some ((Status_OK, b), w') /\ data b = c /\ inv w'.
Proof.
  intros Hl Hw. destruct (from_file_spec (ReadBlock address opt h) (fun sb => sb.1 = Status_OK /\ data sb.2 = c) w Hw) as ([s b] & w' & E & [Es Eb] & Hw').
  - intros f Hf. destruct (ReadBlock_laid address file invF opt h c f Hl file_63 Hf) as (b & f' & E & Eb & Hf'). by exists (Status_OK, b), f'.
  - cbn in Es, Eb. subst s. by exists b, w'.
Qed.

(** The reader of the filters that a table has. *)
Definition filter_found (filter : option FilterBlockReader) : Prop :=
  match filter_policy options with
  | None => filter = None
  | Some P => exists fc, filter = Some (NewFilterBlockReader fc) /\ filters_of (P := P) like (added_of done) fc
  end.

Lemma ReadFilter_spec fh fc w : laid address file fh fc -> inv w -> exists w', ReadFilter address options (BlockHandle_EncodeTo fh []) w = Some (Some (NewFilterBlockReader fc), w') /\ inv w'.
Proof.
  intros Hl Hw. destruct (laid_ok address file fh fc Hl file_63) as [Hh _]. unfold ReadFilter. rewrite <- (app_nil_r (BlockHandle_EncodeTo fh [])), DecodeFrom_EncodeTo by done.
  destruct (read_block_spec (paranoid options) fh fc w Hl Hw) as (b & w' & E & Eb & Hw'). exists w'. status_ok. unfold dbind. rewrite E. cbn. by rewrite Eb.
Qed.

Lemma single_sorted key value : Forall byte key -> Forall byte value -> sorted_entries (C := BytewiseComparator) [(key, value)].
Proof.
  intros Hk Hv. split; [intros k v [= -> ->]%list_elem_of_singleton; done|]. intros i j k v k' v' Hi Hj Hij. apply lookup_lt_Some in Hj. cbn in Hj. lia.
Qed.

Lemma ReadMeta_spec w : (forall P, filter_policy options = Some P -> Forall byte (FilterName (FilterPolicy := P))) -> inv w ->
  exists filter w', ReadMeta address options footer w = Some (filter, w') /\ filter_found filter /\ inv w'.
Proof.
  intros Hname Hw. unfold ReadMeta, filter_found. destruct (table_meta _ _ _ _ _ _ _ T) as (mc & Hl & Hm). destruct (filter_policy options) as [P|]; [|by exists None, w].
  destruct Hm as (fh & fc & Hb & Hfl & Hfo). set (key := bytes_of "filter." ++ FilterName (FilterPolicy := P)) in *.
  assert (Hkey : Forall byte key) by (apply Forall_app; split; [apply bytes_of_byte|by apply Hname]).
  assert (Hval : Forall byte (BlockHandle_EncodeTo fh [])) by (apply EncodeTo_bytes, (laid_ok address file fh fc Hfl file_63)).
  destruct (read_block_spec (paranoid options) _ mc w Hl Hw) as (b & w1 & E1 & Eb & Hw1). unfold dbind at 1. rewrite E1. status_ok. rewrite Eb.
  destruct (block_of_walks (C := BytewiseComparator) _ mc (single_sorted _ _ Hkey Hval) Hb) as (it & pos & -> & Hp & HW). destruct (HW (Files F K) inv) as [Hvd Hent _ _ _ Hseek _ _].
  destruct (Hseek key it _ w1 Hp Hw1 Hkey) as (it' & w2 & E2 & Hw2 & Hp2). unfold dbind at 1. rewrite E2.
  assert (El : lower_bound (C := BytewiseComparator) key [(key, BlockHandle_EncodeTo fh [])] = 0%nat).
  { cbn [lower_bound]. change Compare with Slice_compare. by rewrite (cmp_refl Slice_compare (Forall byte) key Hkey). }
  rewrite El in Hp2. destruct (Hvd it' 0%nat Hp2) as [_ Hv]. cbn in Hv.
  destruct (Hent it' 0%nat _ _ Hp2 eq_refl) as [Ek Ev]. cbn in Ek, Ev.
  change (Iter_Valid it' = true) in Hv. rewrite Hv, Ek, bool_decide_true by done. cbn [andb]. unfold dbind, dfrom. rewrite Ev.
  destruct (ReadFilter_spec fh fc w2 Hfl Hw2) as (w3 & E3 & Hw3). exists (Some (NewFilterBlockReader fc)), w3. split; [exact E3|]. split; [by exists fc|done].
Qed.

(** What an open table has. *)
Record opened (t : Table) : Prop := {
  opened_id : cache_id t = id;
  opened_index : exists c, table_index_block t = NewBlock c /\ block_of index c;
  opened_filter : filter_found (table_filter t);
  opened_meta : table_metaindex_handle t = metaindex_handle footer
}.

Lemma Open_spec w : (forall P, filter_policy options = Some P -> Forall byte (FilterName (FilterPolicy := P))) -> inv w ->
  exists t w', Open address options id (len file) w = Some ((Status_OK, Some t), w') /\ opened t /\ inv w'.
Proof.
  intros Hname Hw. destruct (table_footer _ _ _ _ _ _ _ T) as [body Ebody]. pose proof (Footer_EncodeTo_len footer Hfooter) as Hfl.
  assert (Elen : len file = len body + kEncodedLength) by (rewrite Ebody, len_app; lia). pose proof (len_nonneg body). unfold Open.
  rewrite (proj2 (Z.ltb_ge _ _)) by lia. replace (len file - kEncodedLength) with (len body) by lia.
  destruct (from_file_spec (ReadAt (len body) kEncodedLength) (fun r => r.1 = (Status_OK, Footer_EncodeTo footer [])) w Hw) as ([[s input] in_buf] & w1 & E1 & [= -> ->] & Hw1).
  { intros f Hf. destruct (read_at_spec (file := file) (inv := invF) (len body) kEncodedLength f Hf) as (in_buf & f' & E & Hf'); [done|done|lia|].
    eexists _, f'. split; [exact E|]. split; [|done]. cbn. f_equal. rewrite Ebody, len_to_nat, drop_app_length, <- Hfl, len_to_nat. by rewrite take_ge. }
  unfold dbind at 1. rewrite E1. status_ok. unfold dbind at 1, dfrom. rewrite Footer_round_trip by done. status_ok.
  destruct (table_index _ _ _ _ _ _ _ T) as (ic & Hil & Hib). destruct (read_block_spec (paranoid options) _ ic w1 Hil Hw1) as (b & w2 & E2 & Eb & Hw2).
  unfold dbind at 1. rewrite E2. status_ok. destruct (ReadMeta_spec w2 Hname Hw2) as (filter & w3 & E3 & Hf & Hw3). unfold dbind at 1. rewrite E3.
  eexists _, w3. split; [reflexivity|]. split; [|done]. rewrite Eb. split; try done. by exists ic.
Qed.

(** ** Reading *)

Context (t : Table) (Ht : opened t) (opt : ReadOptions).

Lemma on_cache_none {A} (m : D K A) none w : block_cache w = None -> on_cache m none w = Some (none, w) :> option (A * Files F K).
Proof. unfold on_cache. by intros ->. Qed.

Lemma Lookup_spec key w : inv w -> exists b w', on_cache (cache_Lookup key) None w = Some (b, w') /\ inv w' /\ forall block, b = Some block -> good key block.
Proof.
  intros [Hf Hc]. unfold on_cache. destruct (block_cache w) as [k|] eqn:Ek; [|by exists None, w; unfold inv; rewrite Ek].
  destruct (cache_lookup_spec good key k Hc) as (b & k' & -> & Hk' & Hb). by exists b, (set_block_cache k' w).
Qed.

Lemma Insert_spec key block charge w : inv w -> good key block -> exists w', on_cache (cache_Insert key block charge) tt w = Some (tt, w') /\ inv w'.
Proof.
  intros [Hf Hc] Hg. unfold on_cache. destruct (block_cache w) as [k|] eqn:Ek; [|by exists w; unfold inv; rewrite Ek].
  destruct (cache_insert_spec good key block charge k Hc Hg) as (k' & -> & Hk'). by exists (set_block_cache k' w).
Qed.

Lemma NewIterator_written w c : w ∈ done -> block_of w.2.2 c -> at_any (IT := EitherIter (Files F K)) inv (block_at (encoded w)) (NewIterator (NewBlock c)) (length w.2.2).
Proof. intros Hw Hb. rewrite (block_at_written w Hw). by apply NewIterator_at; [apply written_sorted|]. Qed.

Lemma BlockReader_spec w x : w ∈ done -> inv x ->
  exists it x', BlockReader address t opt (encoded w) x = Some (it, x') /\ inv x' /\ at_any (IT := EitherIter (Files F K)) inv (block_at (encoded w)) it (length w.2.2).
Proof.
  intros Hw Hx. unfold BlockReader. rewrite (decode_written w Hw). status_ok. set (key := cache_key t w.2.1).
  assert (Ekey : key = EncodeFixed64 id ++ EncodeFixed64 (handle_offset w.2.1)) by (unfold key, cache_key; by rewrite (opened_id t Ht)).
  destruct (Lookup_spec key x Hx) as (b & x1 & E1 & Hx1 & Hb). unfold dbind at 1. rewrite E1. destruct b as [block|].
  { destruct (Hb block eq_refl w Hw Ekey) as (c & -> & Hc). eexists _, x1. split; [reflexivity|]. split; [done|]. by apply NewIterator_written. }
  destruct (written_in w Hw) as [_ (c & Hl & Hc)]. destruct (read_block_spec opt _ c x1 Hl Hx1) as (contents & x2 & E2 & Ec & Hx2). unfold dbind at 1. rewrite E2. status_ok. rewrite Ec.
  unfold dbind. destruct (cachable contents && fill_cache opt); [|by eexists _, x2; split; [reflexivity|]; split; [|apply NewIterator_written]].
  destruct (Insert_spec key (NewBlock c) (size_ (NewBlock c)) x2 Hx2) as (x3 & -> & Hx3).
  { intros w' Hw' E'. assert (w' = w) as ->; [|by exists c]. apply written_unique; [done..|]. rewrite Ekey in E'. apply app_inj_1 in E' as [_ E']; [|done].
    pose proof (written_handle w Hw) as [? _]. pose proof (written_handle w' Hw') as [? _]. by apply EncodeFixed64_inj. }
  eexists _, x3. split; [reflexivity|]. split; [done|]. by apply NewIterator_written.
Qed.

#[local] Instance table_blocks_read : Blocks (IT2 := EitherIter (Files F K)) inv index block_at (fun h => at_any (IT := EitherIter (Files F K)) inv (block_at h)) (BlockReader address t opt) (index_patience t).
Proof.
  split.
  - intros h _. apply walks_any.
  - intros h x (w & Hw & ->)%index_handle_in Hx. destruct (BlockReader_spec w x Hw Hx) as (it & x' & ? & ? & ?). by exists it, x', (length w.2.2).
  - destruct (opened_index t Ht) as (c & Ec & Hb). unfold index_patience. rewrite Ec. pose proof (block_of_length _ _ Hb) as H. assert (E : block_data (NewBlock c) = c) by (unfold NewBlock; by repeat case_match). rewrite E. lia.
Qed.

(** The iterator of the table is at the end of the entries, and walks along them. *)
Lemma table_walks : at_any (IT := TableIterator address t opt) inv es (Table_NewIterator (F := F) (K := K) t) (length es).
Proof.
  rewrite <- blocks_index. destruct (opened_index t Ht) as (c & Ec & Hb).
  exists (two_pos (IT1 := EitherIter (Files F K)) (IT2 := EitherIter (Files F K)) index (at_any (IT := EitherIter (Files F K)) inv index) block_at (fun h => at_any (IT := EitherIter (Files F K)) inv (block_at h))).
  split; [apply two_level_walks; exact _|]. unfold Table_NewIterator. rewrite Ec. apply (new_two_pos (IT1 := EitherIter (Files F K)) (IT2 := EitherIter (Files F K))). by apply NewIterator_at; [apply index_sorted|].
Qed.
(** ** Looking up *)

(** A key between two keys that are alike is like them. *)
Context (Hconvex : forall a b c, key_ok a -> key_ok b -> key_ok c -> Compare a b <> Gt -> Compare b c <> Gt -> like a = like c -> like a = like b).

(** The first entry that is not before the target, or no entry there that is like it. *)
Definition found (k : list Z) (r : option (list Z * list Z)) : Prop :=
  match r with
  | Some e => es !! lower_bound k es = Some e
  | None => forall e, e ∈ es -> Compare k e.1 <> Gt -> like k <> like e.1
  end.

Lemma before_target k l i e : key_ok k -> key_ok e.1 -> l !! i = Some e -> (i < lower_bound k l)%nat -> Compare k e.1 = Gt.
Proof. destruct e as [k' v]. cbn. intros Hk He Hi Hlt. apply (cmp_gt Compare key_ok); [done..|]. by apply (lower_bound_before k l i k' v). Qed.

Lemma at_target k l e : key_ok k -> key_ok e.1 -> l !! lower_bound k l = Some e -> Compare k e.1 <> Gt.
Proof. destruct e as [k' v]. cbn. intros Hk He Hl%lower_bound_at E. apply (cmp_gt Compare key_ok) in E; done. Qed.

Lemma all_before_target k l : lower_bound k l = length l -> Forall (fun x => Compare x.1 k = Lt) l.
Proof. intros E. apply Forall_lookup_2. intros i [k' v] Hi. apply (lower_bound_before k l i k' v Hi). rewrite E. by apply lookup_lt_Some in Hi. Qed.

(** Where the target's block is, entries that are not before the target are in it or later. *)
Lemma after_target k m w e : key_ok k -> done !! m = Some w -> lower_bound k index = m -> e ∈ es -> Compare k e.1 <> Gt -> e ∈ w.2.2 \/ e ∈ entries_of (drop (S m) done).
Proof.
  intros Hk Hm El He Hc. rewrite (table_entries _ _ _ _ _ _ _ T), <- (take_drop_middle _ _ _ Hm) in He. unfold entries_of in He. rewrite map_app, concat_app, elem_of_app in He. cbn [map concat] in He.
  rewrite elem_of_app in He. destruct He as [He|He]; [|exact He]. exfalso. apply Hc. apply list_elem_of_In, in_concat in He as (b & (w' & <- & Hw')%in_map_iff & He%list_elem_of_In).
  apply list_elem_of_In, list_elem_of_lookup in Hw' as [i Hi]. apply lookup_take_Some in Hi as [Hi Hlt]. pose proof (list_elem_of_lookup_2 _ _ _ Hi) as Hw'.
  destruct (splits_at i w' Hi) as (Hok & Hall & _). pose proof (proj1 (List.Forall_forall _ _) Hall e (proj1 (list_elem_of_In _ _) He)) as Hle. pose proof (written_key_ok w' e Hw' He) as Hke.
  assert (Hi' : index !! i = Some (w'.1, encoded w')) by (apply list_lookup_fmap_Some; by exists w').
  apply (cmp_gt Compare key_ok); [done..|]. cbn in Hle. apply (cmp_le_lt_trans Compare key_ok _ w'.1); try done. apply (lower_bound_before k index i _ _ Hi'). lia.
Qed.

(** No entry of a later block is like a target behind the block's entries. *)
Lemma later_unlike k m w e : key_ok k -> done !! m = Some w -> lower_bound k index = m -> lower_bound k w.2.2 = length w.2.2 -> e ∈ entries_of (drop (S m) done) -> like k <> like e.1.
Proof.
  intros Hk Hm El Eb He. destruct (splits_at m w Hm) as (Hok & _ & [E|(limit & Hl & Hs & Hall & Hun)]); [rewrite E in He; by apply elem_of_nil in He|].
  apply Hun; [done| |by apply all_before_target| |].
  - apply list_elem_of_In, in_concat in He as (b & (w' & <- & Hw')%in_map_iff & He%list_elem_of_In). apply (written_key_ok w'); [|done].
    rewrite <- (take_drop (S m) done). apply elem_of_app. right. by apply list_elem_of_In.
  - assert (Hm' : index !! lower_bound k index = Some (w.1, encoded w)) by (rewrite El; apply list_lookup_fmap_Some; by exists w). by apply (at_target k index (w.1, encoded w)).
  - by apply (proj1 (List.Forall_forall _ _) Hall e), list_elem_of_In.
Qed.

Lemma found_past k : key_ok k -> lower_bound k index = length index -> found k None.
Proof.
  intros Hk El e He Hc. exfalso. apply Hc. pose proof (lower_bound_blocks index block_at k Hk) as E. rewrite El, lookup_ge_None_2, blocks_index in E by done.
  apply list_elem_of_lookup in He as [i Hi]. apply (before_target k es i); [done| |done|rewrite E; by apply lookup_lt_Some in Hi].
  destruct e as [k' v]. by destruct (entry_ok _ Hsorted k' v (list_elem_of_lookup_2 _ _ _ Hi)).
Qed.

Lemma found_in_block k m w e : key_ok k -> done !! m = Some w -> lower_bound k index = m -> w.2.2 !! lower_bound k w.2.2 = Some e -> found k (Some e).
Proof.
  intros Hk Hm El He. assert (Hm' : index !! m = Some (w.1, encoded w)) by (apply list_lookup_fmap_Some; by exists w). pose proof (list_elem_of_lookup_2 _ _ _ Hm) as Hw.
  pose proof (lower_bound_blocks index block_at k Hk) as E. rewrite El, Hm', blocks_index, (block_at_written w Hw) in E. unfold found. rewrite E, <- blocks_index at 1.
  apply (entry_in_block index block_at m _ w.1 (encoded w)); [done|]. by rewrite (block_at_written w Hw).
Qed.

Lemma found_nothing k m w : key_ok k -> done !! m = Some w -> lower_bound k index = m -> lower_bound k w.2.2 = length w.2.2 -> found k None.
Proof.
  intros Hk Hm El Eb e He Hc. destruct (after_target k m w e Hk Hm El He Hc) as [Hin|Hin]; [|by apply (later_unlike k m w)].
  exfalso. apply Hc. pose proof (list_elem_of_lookup_2 _ _ _ Hm) as Hw. apply list_elem_of_lookup in Hin as [i Hi].
  apply (before_target k w.2.2 i); [done|by apply (written_key_ok w), (list_elem_of_lookup_2 _ i)|done|rewrite Eb; by apply lookup_lt_Some in Hi].
Qed.

(** A block whose keys are all unlike the target need not be searched. *)
Lemma found_filtered k m w : key_ok k -> done !! m = Some w -> lower_bound k index = m -> (forall e, e ∈ w.2.2 -> like e.1 <> like k) -> found k None.
Proof.
  intros Hk Hm El Hun e He Hc Hlike. destruct (after_target k m w e Hk Hm El He Hc) as [Hin|Hin]; [by apply (Hun e)|]. pose proof (list_elem_of_lookup_2 _ _ _ Hm) as Hw.
  destruct (decide (lower_bound k w.2.2 = length w.2.2)) as [Eb|Hne]; [by apply (later_unlike k m w e)|]. pose proof (lower_bound_le k w.2.2).
  destruct (lookup_lt_is_Some_2 w.2.2 (lower_bound k w.2.2) ltac:(lia)) as [x Hx]. pose proof (list_elem_of_lookup_2 _ _ _ Hx) as Hxin. pose proof (written_key_ok w x Hw Hxin) as Hxk.
  apply (Hun x Hxin). symmetry. assert (Hek : key_ok e.1) by (destruct e as [k' v]; by destruct (entry_ok _ Hsorted k' v He)).
  apply (Hconvex k x.1 e.1); try done; [by apply (at_target k w.2.2)|].
  assert (Hxe : Compare x.1 e.1 = Lt); [|by rewrite Hxe]. destruct (splits_at m w Hm) as (Hok & Hall & _). pose proof (proj1 (List.Forall_forall _ _) Hall x (proj1 (list_elem_of_In _ _) Hxin)) as Hle.
  apply (cmp_le_lt_trans Compare key_ok _ w.1); try done. by apply (splits_next like w.1 w.2.2 (entries_of (drop (S m) done))); [apply splits_at| |].
Qed.
Lemma index_seek k w : key_ok k -> inv w -> exists it w', Seek (Iterator := EitherIter (Files F K)) k (NewIterator (table_index_block t)) w = Some (it, w') /\ inv w' /\
  at_any (IT := EitherIter (Files F K)) inv index it (lower_bound k index).
Proof.
  intros Hk Hw. destruct (opened_index t Ht) as (c & -> & Hb). pose proof (NewIterator_at (W := Files F K) inv index c index_sorted Hb) as Hp.
  by apply (walk_seek (IT := EitherIter (Files F K)) k _ _ w Hp Hw).
Qed.

(** Searching one block. *)
Lemma block_get k w x : key_ok k -> w ∈ done -> inv x -> exists s r x',
  (let! block_iter := BlockReader address t opt (encoded w) in
   let! block_iter := Seek (Iterator := EitherIter (Files F K)) k block_iter in
   if Valid (Iterator := EitherIter (Files F K)) block_iter then
     let! value := dfrom (iter_value (Iterator := EitherIter (Files F K)) block_iter) in
     dret (iter_status (Iterator := EitherIter (Files F K)) block_iter, Some (iter_key (Iterator := EitherIter (Files F K)) block_iter, value))
   else dret (iter_status (Iterator := EitherIter (Files F K)) block_iter, None)) x = Some ((s, r), x') /\ ok s = true /\ inv x' /\ r = w.2.2 !! lower_bound k w.2.2.
Proof.
  intros Hk Hw Hx. unfold dbind at 1. destruct (BlockReader_spec w x Hw Hx) as (it & x1 & -> & Hx1 & Hp). unfold dbind at 1.
  destruct (walk_seek (IT := EitherIter (Files F K)) k it _ x1 Hp Hx1 Hk) as (it2 & x2 & -> & Hx2 & Hp2). rewrite (block_at_written w Hw) in Hp2. set (j := lower_bound k w.2.2) in *.
  destruct (walk_valid (IT := EitherIter (Files F K)) (inv := inv) it2 j Hp2) as [Hj ->]. pose proof (walk_status (IT := EitherIter (Files F K)) (inv := inv) it2 j Hp2) as Hs.
  case_bool_decide as Hl.
  - destruct (lookup_lt_is_Some_2 w.2.2 j Hl) as [[k' v] He]. destruct (walk_entry (IT := EitherIter (Files F K)) (inv := inv) it2 j k' v Hp2 He) as [-> ->].
    unfold dbind, dfrom, dret. eexists _, _, x2. split; [reflexivity|]. split; [exact Hs|]. by rewrite He.
  - unfold dret. eexists _, _, x2. split; [reflexivity|]. split; [exact Hs|]. split; [done|]. symmetry. apply lookup_ge_None. lia.
Qed.

(** The filter of a block: when it says no, the block has no such key. *)
Lemma filter_match k w : w ∈ done -> exists may_match,
  (forall x, (match filter_policy options, table_filter t with
   | Some P, Some filter => dfrom (FilterKeyMayMatch (P := P) (handle_offset w.2.1) k filter)
   | _, _ => dret true
   end) x = Some (may_match, x) :> option (bool * Files F K)) /\ (may_match = false -> forall e, e ∈ w.2.2 -> like e.1 <> like k).
Proof.
  intros Hw. pose proof (opened_filter t Ht) as Hf. unfold filter_found in Hf. destruct (filter_policy options) as [P|]; [|by exists true].
  destruct Hf as (fc & -> & _ & Hfo). destruct (Hfo (handle_offset w.2.1) k) as (r & -> & Hr); [apply (written_handle w Hw)|]. exists r. split; [done|].
  intros -> e He E. discriminate (Hr e.1); [|done]. unfold added_of. apply list_elem_of_In, in_concat.
  eexists. split; [apply in_map_iff; exists w; split; [reflexivity|by apply list_elem_of_In]|]. apply in_map_iff. exists e. split; [done|by apply list_elem_of_In].
Qed.

Lemma InternalGet_spec k w : key_ok k -> inv w -> exists s r w', InternalGet address options t opt k w = Some ((s, r), w') /\ ok s = true /\ inv w' /\ found k r.
Proof.
  intros Hk Hw. unfold InternalGet. unfold dbind at 1. destruct (index_seek k w Hk Hw) as (it & w1 & -> & Hw1 & Hp). set (m := lower_bound k index) in *.
  destruct (walk_valid (IT := EitherIter (Files F K)) (inv := inv) it m Hp) as [Hm ->]. pose proof (walk_status (IT := EitherIter (Files F K)) (inv := inv) it m Hp) as Hs.
  assert (Hend : forall s r w', ok s = true -> inv w' -> found k r -> exists s2 r2 w2,
    dret (if ok s then iter_status (W := Files F K) it else s, r) w' = Some ((s2, r2), w2) /\ ok s2 = true /\ inv w2 /\ found k r2).
  { intros s r w' E ? ?. rewrite E. unfold dret. by eexists _, _, _. }
  case_bool_decide as Hl; [|unfold dbind; apply (Hend Status_OK); [done..|apply found_past; [done|]; fold m; lia]].
  destruct (lookup_lt_is_Some_2 done m ltac:(by rewrite <- index_length)) as [x Hx]. pose proof (list_elem_of_lookup_2 _ _ _ Hx) as Hin.
  assert (Hx' : index !! m = Some (x.1, encoded x)) by (apply list_lookup_fmap_Some; by exists x).
  destruct (walk_entry (IT := EitherIter (Files F K)) (inv := inv) it m _ _ Hp Hx') as [_ ->]. unfold dbind at 1. unfold dbind at 1, dfrom at 1. rewrite (decode_written x Hin). status_ok.
  destruct (filter_match k x Hin) as (may_match & Hmm & Hno). unfold dbind at 1. rewrite Hmm. destruct may_match.
  - cbv iota. destruct (block_get k x w1 Hk Hin Hw1) as (s & r & w2 & -> & Es & Hw2 & ->). apply Hend; [done..|].
    destruct (x.2.2 !! lower_bound k x.2.2) as [e|] eqn:He; [by apply (found_in_block k m x)|]. apply lookup_ge_None in He. apply (found_nothing k m x); [done..|].
    pose proof (lower_bound_le k x.2.2). lia.
  - cbv iota. apply (Hend Status_OK); [done..|]. apply (found_filtered k m x); [done..|]. by apply Hno.
Qed.
End table.
End reading.

(** ** Keys that are alike *)

(** What the filters may confuse, the separators and the order must not take apart: no separator comes
    between keys that are alike, and a key between two keys that are alike is like them. *)
Class Alike {C : Comparator} {CL : ComparatorLaws C} (like : list Z -> list Z) : Prop := {
  alike_separated start limit k e : key_ok start -> key_ok limit -> key_ok k -> key_ok e -> Compare start limit = Lt -> Compare start k = Lt ->
    Compare k (Separator start limit) <> Gt -> Compare limit e <> Gt -> like k <> like e;
  alike_between a b c : key_ok a -> key_ok b -> key_ok c -> Compare a b <> Gt -> Compare b c <> Gt -> like a = like c -> like a = like b
}.

(** No key is up to the separator of two keys and from the second on. *)
Lemma separator_apart {C : Comparator} {CL : ComparatorLaws C} start limit k : key_ok start -> key_ok limit -> key_ok k -> Compare start limit = Lt ->
  Compare k (Separator start limit) <> Gt -> Compare limit k <> Gt -> False.
Proof.
  intros Hs Hl Hk Hlt Hks Hle. destruct (separator_between start limit Hs Hl Hlt) as (Hsep & _ & Hb).
  assert (H : Compare k limit = Lt) by (by apply (cmp_le_lt_trans Compare key_ok k (Separator start limit))). by apply Hle, (cmp_gt Compare key_ok).
Qed.

(** Only the key itself. *)
#[export] Instance alike_same {C : Comparator} {CL : ComparatorLaws C} : Alike (fun k => k).
Proof.
  split.
  - intros start limit k e Hs Hl Hk _ Hlt _ Hks Hle <-. by apply (separator_apart start limit k).
  - intros a b c Ha Hb _ Hab Hbc <-. apply compare_eq; [done..|]. destruct (Compare a b) eqn:E; [done| |done]. apply (cmp_gt Compare key_ok) in E; done.
Qed.

(** Internal keys of the same user key. *)
#[export] Instance alike_user (C : Comparator) {CL : ComparatorLaws C} : Alike (CL := internal_laws C) ExtractUserKey.
Proof.
  assert (Hle : forall u x v y, 0 <= x < 2 ^ 64 -> 0 <= y < 2 ^ 64 -> InternalKeyComparator_Compare C (u ++ EncodeFixed64 x) (v ++ EncodeFixed64 y) <> Gt -> Compare u v <> Gt).
  { intros u x v y Hx Hy. rewrite internal_compare_app by done. by destruct (Compare u v). }
  split.
  - intros start limit k e (us & s & -> & Hus & Hs) (ul & l & -> & Hul & Hl) (uk & x & -> & Huk & Hx) (ue & y & -> & Hue & Hy). cbn [Compare Separator InternalKeyComparator].
    intros Hlt Hsk Hks Hlim. rewrite internal_separator_app, !user_fixed in * by done. cbv zeta in Hks. intros <-. destruct (shortened C us (Separator us ul)) eqn:Es.
    + apply shortened_true in Es as [Hlen Es]. apply Hle in Hks; [|done|apply earliest_range]. apply Hle in Hlim; [|done..].
      assert (Hul' : Compare us ul = Lt). { rewrite internal_compare_app in Hlt by done. destruct (Compare us ul) eqn:Ec; [|done..]. apply compare_eq in Ec as <-; [|done..]. rewrite separator_same in Hlen by done. lia. }
      by apply (separator_apart us ul uk).
    + apply Hks. by apply (cmp_gt _ (internal_ok C)); [eexists _, _..|].
  - intros a b c (u & x & -> & Hu & Hx) (v & y & -> & Hv & Hy) (w & z & -> & Hw & Hz). cbn [Compare InternalKeyComparator]. rewrite !user_fixed. intros Hab%Hle Hbc%Hle Huw; [|done..].
    by apply (alike_between (C := C) (like := fun k => k) u v w).
Qed.

(** ** Checksums do not depend on where the bytes lie *)

Section address.
Context {C : Comparator} {CL : ComparatorLaws C} (address address' : list Z -> Z).

Lemma laid_address file h c : laid address file h c -> laid address' file h c.
Proof.
  intros (Hc & a & b & -> & ->). split; [done|]. exists a, b. split; [|done]. assert (Ht : byte kNoCompression) by (split; done).
  by rewrite !trailer_crc.
Qed.

Lemma is_table_address options like file es written footer : is_table address options like file es written footer -> is_table address' options like file es written footer.
Proof.
  intros [H1 H2 H3 H4 (ic & Hi & Hib) (mc & Hm & Hmb) H7]. split; try done.
  - eapply Forall_impl; [exact H3|]. intros w [Hne (c & Hl & Hb)]. split; [done|]. exists c. split; [by apply laid_address|done].
  - exists ic. split; [by apply laid_address|done].
  - exists mc. split; [by apply laid_address|]. destruct (filter_policy options) as [P|]; [|done]. destruct Hmb as (fh & fc & Hb & Hl & Hf). exists fh, fc. split; [done|]. split; [by apply laid_address|done].
Qed.
End address.

(** ** Build, open, read *)

Section table.
Context {C : Comparator} {CL : ComparatorLaws C} {F : Type} {WF : WritableFile F} {AO : AppendOnly F}.
Context {G : Type} {RG : RandomAccessFile G} {K : Type} {B : BlockCache K} {BL : BlockCacheLaws K}.
(** Where the builder's and the reader's bytes lie in memory. *)
Context (address address' : list Z -> Z) (options : Options) (like : list Z -> list Z) {AL : Alike like}.

(** Options that a table can be built with; the filters must treat all keys alike in the same way. *)
Record buildable : Prop := {
  buildable_interval : 1 <= block_restart_interval options;
  buildable_compression : compression options = kNoCompression \/ compression options = kSnappyCompression;
  buildable_policy P : filter_policy options = Some P -> exists L : FilterPolicyLaws P, filter_key (FilterPolicyLaws := L) = like
}.

(** No block is cached under the id. *)
Definition unused (id : Z) (w : Files G K) : Prop := match block_cache w with
  | None => True
  | Some k => cached (fun key _ => forall o, key <> EncodeFixed64 id ++ o) k
  end.

Lemma policy_name P : buildable -> filter_policy options = Some P -> Forall byte (FilterName (FilterPolicy := P)).
Proof. intros Hb E. destruct (buildable_policy Hb P E) as [L _]. apply filter_name_bytes. Qed.

(** The table that was opened, with what is behind it. *)
Definition opened_table (es : list (list Z * list Z)) (file : list Z) (invG : G -> Prop) (id : Z) (t : Table) (w : Files G K) : Prop :=
  exists done footer, is_table address' options like file es done footer /\ footer_ok footer /\ opened options like done footer id t /\ inv invG done id w.

Lemma found_added es k v e : sorted_entries es -> (k, v) ∈ es -> found like es k e -> e = Some (k, v).
Proof.
  intros Hso Hin. destruct (entry_ok _ Hso k v Hin) as [Hk _]. destruct e as [[k' v']|]; cbn [found].
  - intros He. pose proof (lower_bound_at k es k' v' He) as Hge. apply list_elem_of_lookup in Hin as [i Hi]. destruct (decide (i < lower_bound k es)%nat) as [Hlt|Hnlt].
    { pose proof (lower_bound_before k es i k v Hi Hlt) as H. by rewrite (cmp_refl Compare key_ok) in H. }
    destruct (decide (lower_bound k es = i)) as [E|Hne]; [rewrite E in He; congruence|]. exfalso. apply Hge. by apply (entry_lt _ Hso (lower_bound k es) i k' v' k v); [..|lia].
  - intros H. exfalso. apply (H (k, v) Hin); [|done]. cbn. by rewrite (cmp_refl Compare key_ok).
Qed.

Lemma open_built es footer done file invG id w {SV : Serves G file invG} : buildable -> is_table address options like file es done footer -> footer_ok footer -> len file < 2 ^ 32 -> sorted_entries es ->
  invG (random_file w) -> unused id w -> exists t w', Open address' options id (len file) w = Some ((Status_OK, Some t), w') /\ opened_table es file invG id t w'.
Proof.
  intros Hb T%(is_table_address address address') Hf Hs Hso Hw Hu. assert (Hi : inv invG done id w).
  { split; [done|]. unfold unused in Hu. destruct (block_cache w) as [k|]; [|done]. eapply cached_mono; [|exact Hu]. intros key block Hkey x _ E. by apply Hkey in E. }
  destruct (Open_spec address' options like file invG es done footer T Hf Hs id w ltac:(intros P; by apply policy_name) Hi) as (t & w' & E & Ht & Hi').
  exists t, w'. split; [done|]. by exists done, footer.
Qed.

Lemma built es f : buildable -> valid_file f -> contents f = [] -> sorted_entries es -> len es < 2 ^ 31 ->
  exists s r, build_table address options es (NewTableBuilder options f) = Some (s, r) /\
    (ok s = true -> len (contents (table_file r)) < 2 ^ 32 -> FileSize r = len (contents (table_file r)) /\
     forall invG (SV : Serves G (contents (table_file r)) invG) id w, invG (random_file w) -> unused id w ->
     exists t w', Open address' options id (FileSize r) w = Some ((Status_OK, Some t), w') /\ opened_table es (contents (table_file r)) invG id t w').
Proof.
  intros Hb Hv He Hso Hc.
  destruct (build_table_spec address options like (buildable_interval Hb) (buildable_compression Hb) (buildable_policy Hb) alike_separated es f Hv He Hso Hc) as (s & r & E & _ & H).
  exists s, r. split; [done|]. intros Hs Hsmall. destruct (H Hs Hsmall) as (EL & done & footer & T & Hf). split; [done|]. intros invG SV id w Hw Hu. rewrite EL.
  by apply (open_built es footer done _ invG id w).
Qed.

(** C6: A table that a builder writes of increasing keys, when its file says that all went well, can be
    opened, with or without a block cache and filters, and read through any file that holds what
    was written: no operation fails or reads outside of its memory, and the iterator over blocks of
    blocks walks along just the entries that were added: to the first, the last, the next and the
    one before, and by seeking to the first that is not before a target. *)
Theorem table_round_trip es f : buildable -> valid_file f -> contents f = [] -> sorted_entries es -> len es < 2 ^ 31 ->
  exists s r, build_table address options es (NewTableBuilder options f) = Some (s, r) /\
    (ok s = true -> len (contents (table_file r)) < 2 ^ 32 -> FileSize r = len (contents (table_file r)) /\
     forall invG (SV : Serves G (contents (table_file r)) invG) id w, invG (random_file w) -> unused id w ->
     exists t w' (good : Files G K -> Prop), Open address' options id (FileSize r) w = Some ((Status_OK, Some t), w') /\ good w' /\
       forall opt, at_any (IT := TableIterator address' t opt) good es (Table_NewIterator (F := G) (K := K) t) (length es)).
Proof.
  intros Hb Hv He Hso Hc. destruct (built es f Hb Hv He Hso Hc) as (s & r & E & H). exists s, r. split; [done|]. intros Hs Hsmall. destruct (H Hs Hsmall) as [EL Hopen].
  split; [done|]. intros invG SV id w Hw Hu. destruct (Hopen invG SV id w Hw Hu) as (t & w' & E2 & done & footer & T & _ & Ht & Hi). exists t, w', (inv invG done id).
  split; [done|]. split; [done|]. intros opt. by apply (table_walks address' options like _ invG es done footer T Hsmall Hso id t Ht opt).
Qed.

(** C7: Looking up a key in such a table returns, without an error, the first entry that is not before
    it, or nothing; and nothing, which a filter may have said or the end of a block, only when no
    entry from there on is like the key: has it, or, in a table of internal keys, has its user key.
    A key that was added is found. *)
Theorem table_lookup es f : buildable -> valid_file f -> contents f = [] -> sorted_entries es -> len es < 2 ^ 31 ->
  exists s r, build_table address options es (NewTableBuilder options f) = Some (s, r) /\
    (ok s = true -> len (contents (table_file r)) < 2 ^ 32 ->
     forall invG (SV : Serves G (contents (table_file r)) invG) id w, invG (random_file w) -> unused id w ->
     exists t w' (good : Files G K -> Prop), Open address' options id (FileSize r) w = Some ((Status_OK, Some t), w') /\ good w' /\
       forall opt k w, key_ok k -> good w -> exists s e w', InternalGet address' options t opt k w = Some ((s, e), w') /\ ok s = true /\ good w' /\
         match e with
         | Some e => es !! lower_bound k es = Some e
         | None => forall e, e ∈ es -> Compare k e.1 <> Gt -> like k <> like e.1
         end /\ (forall v, (k, v) ∈ es -> e = Some (k, v))).
Proof.
  intros Hb Hv He Hso Hc. destruct (built es f Hb Hv He Hso Hc) as (s & r & E & H). exists s, r. split; [done|]. intros Hs Hsmall. destruct (H Hs Hsmall) as [_ Hopen].
  intros invG SV id w Hw Hu. destruct (Hopen invG SV id w Hw Hu) as (t & w' & E2 & done & footer & T & _ & Ht & Hi). exists t, w', (inv invG done id).
  split; [done|]. split; [done|]. intros opt k w2 Hk Hw2.
  destruct (InternalGet_spec address' options like _ invG es done footer T Hsmall Hso id t Ht opt alike_between k w2 Hk Hw2) as (s2 & e & w3 & E3 & Hs2 & Hw3 & Hfound).
  exists s2, e, w3. split; [done|]. split; [done|]. split; [done|]. split; [exact Hfound|]. intros v Hin. by apply (found_added es).
Qed.
End table.

(** ** A table on a disk, read through a mapped file *)

Module TableExample.
#[local] Instance writable_file : WritableFile PosixWritableFile :=
  posix_writable disk_error disk_write disk_call disk_call disk_call disk_call disk_patience.
#[local] Instance append_only : AppendOnly PosixWritableFile :=
  posix_append_only disk_error disk_patience disk_write disk_call disk_call disk_call disk_call disk_stored disk_write_documented.
#[local] Instance mapped_file : RandomAccessFile PosixMmapReadableFile := posix_mmap disk_error.

(** Without a block cache. *)
#[local] Instance no_cache : BlockCache Empty_set := { cache_Lookup _ := running; cache_Insert _ _ _ := running }.
#[local] Program Instance no_cache_laws : BlockCacheLaws Empty_set := { cached _ _ := True }.
Solve Obligations with (intros; done || by destruct k).

(** The writes are cut short and interrupted; blocks of 20 bytes, filters with 10 bits per key. *)
Definition file : PosixWritableFile :=
  NewPosixWritableFile (bytes_of "db/000005.ldb") 3 {| stored := []; position := 0; script := [Some 3; Some 0; Some 1]%nat |}.
Definition options : Options :=
  {| block_size := 20; block_restart_interval := 2; paranoid_checks := true; compression := kSnappyCompression; filter_policy := Some (BloomFilterPolicy 10) |}.
Definition entries : list (list Z * list Z) :=
  [([1; 1], [9]); ([1; 2], []); ([1; 2; 0], [8; 8]); ([7], [7]); ([7; 255; 255], [1; 2; 3; 4; 5; 6; 7; 8]); ([8], [2])].
Definition address (l : list Z) : Z := 0.
Definition address' (l : list Z) : Z := 1.

Definition builder : Rep PosixWritableFile := NewTableBuilder options file.
Definition result : option (Status * Rep PosixWritableFile) := build_table address options entries builder.
Definition the_file : list Z := match result with Some (_, r) => contents (table_file r) | None => [] end.
Definition mapped : Files PosixMmapReadableFile Empty_set :=
  {| random_file := {| mmap_base_ := the_file; mm_filename_ := [] |}; block_cache := None |}.

Lemma sorted : sorted_entries entries.
Proof.
  split.
  - intros k v H. assert (Hall : Forall (fun e => Forall byte e.1 /\ Forall byte e.2) entries) by (apply (bool_decide_unpack _); vm_compute; exact I).
    apply (proj1 (List.Forall_forall _ _) Hall (k, v)), list_elem_of_In, H.
  - assert (Hall : Forall (fun i => Forall (fun j => (i < j)%nat -> match entries !! i, entries !! j with Some (k, _), Some (k', _) => Slice_compare k k' = Lt | _, _ => True end) (seq 0 6)) (seq 0 6)).
    { repeat constructor; vm_compute; try done; lia. }
    intros i j k v k' v' Hi Hj Hlt. pose proof (lookup_lt_Some _ _ _ Hi) as Hil. pose proof (lookup_lt_Some _ _ _ Hj) as Hjl. change (length entries) with 6%nat in *.
    assert (Hin : forall n, (n < 6)%nat -> In n (seq 0 6)) by (intros n Hn; apply in_seq; lia).
    pose proof (proj1 (List.Forall_forall _ _) (proj1 (List.Forall_forall _ _) Hall i (Hin i Hil)) j (Hin j Hjl) Hlt) as H. by rewrite Hi, Hj in H.
Qed.

Lemma can_build : buildable options (fun k => k).
Proof.
  split; [cbn; lia|by right|]. intros P [= <-]. assert (H : 0 <= 10 < 2 ^ 29) by lia. by exists (bloom_laws 10 H).
Qed.

Lemma new_valid : valid_file file.
Proof. cbn. unfold posix_valid, pos, kWritableFileBufferSize. cbn. unfold len. cbn. lia. Qed.

Lemma some_pair {A B} (a c : A) (b d : B) : Some (a, b) = Some (c, d) -> a = c /\ b = d.
Proof. intros H. by injection H. Qed.

Lemma table_round_trip_witness : exists t w' (good : Files PosixMmapReadableFile Empty_set -> Prop),
  Open address' options 5 (len the_file) mapped = Some ((Status_OK, Some t), w') /\ good w' /\
  at_any (IT := TableIterator address' t NewReadOptions) good entries (Table_NewIterator (F := PosixMmapReadableFile) (K := Empty_set) t) 6.
Proof.
  destruct (table_round_trip (G := PosixMmapReadableFile) (K := Empty_set) address address' options (fun k => k) entries file can_build new_valid eq_refl sorted ltac:(vm_compute; reflexivity)) as (s & r & E & H).
  assert (Er : result = Some (s, r)) by exact E. assert (Ef : the_file = contents (table_file r)) by (unfold the_file; rewrite Er; reflexivity).
  assert (Es : exists r, result = Some (Status_OK, r)) by (eexists; vm_compute; reflexivity). destruct Es as [r2 Es]. rewrite Er in Es. apply some_pair in Es as [-> _].
  assert (El : len the_file < 2 ^ 32) by (vm_compute; reflexivity). rewrite Ef in El. destruct (H eq_refl El) as [EL H2].
  destruct (H2 _ (mmap_serves disk_error (contents (table_file r))) 5 mapped) as (t & w' & good & E1 & Hg & Hw); [split; [exact Ef|lia]|exact I|].
  exists t, w', good. rewrite EL, <- Ef in E1. split; [exact E1|]. split; [exact Hg|apply Hw].
Defined.

Lemma table_lookup_witness : exists t w' s e w2, Open address' options 5 (len the_file) mapped = Some ((Status_OK, Some t), w') /\
  InternalGet address' options t NewReadOptions [7; 255; 255] w' = Some ((s, e), w2) /\ ok s = true /\ e = Some ([7; 255; 255], [1; 2; 3; 4; 5; 6; 7; 8]).
Proof.
  destruct (table_lookup (G := PosixMmapReadableFile) (K := Empty_set) address address' options (fun k => k) entries file can_build new_valid eq_refl sorted ltac:(vm_compute; reflexivity)) as (s & r & E & H).
  assert (Er : result = Some (s, r)) by exact E. assert (Ef : the_file = contents (table_file r)) by (unfold the_file; rewrite Er; reflexivity).
  assert (Es : exists r, result = Some (Status_OK, r) /\ FileSize r = len the_file) by (eexists; split; vm_compute; reflexivity). destruct Es as (r2 & Es & EL). rewrite Er in Es. apply some_pair in Es as [-> ->].
  assert (El : len the_file < 2 ^ 32) by (vm_compute; reflexivity). rewrite Ef in El.
  destruct (H eq_refl El _ (mmap_serves disk_error (contents (table_file r2))) 5 mapped) as (t & w' & good & E1 & Hg & Hget); [split; [exact Ef|lia]|exact I|].
  assert (Hk : Forall byte [7; 255; 255]) by bytes_lit.
  destruct (Hget NewReadOptions [7; 255; 255] w' Hk Hg) as (s2 & e & w2 & E2 & Hs & _ & _ & He). exists t, w', s2, e, w2. rewrite EL in E1.
  split; [exact E1|]. split; [exact E2|]. split; [exact Hs|]. apply He. apply list_elem_of_lookup. exists 4%nat. reflexivity.
Defined.
End TableExample.
