(* ===== verification/Merger.v ===== *)
(** The iterator that merges others (leveldb-library/table/merger.cc), and that it walks along the
    entries of all of them in order. *)
From stdpp Require Import list sorting.
From S2P Require Import Prelude Comparator Status Iterator TwoLevel Block BlockProps.

Inductive Direction := kForward | kReverse.
#[export] Instance Direction_dec : EqDecision Direction.
Proof. solve_decision. Defined.

Section merger.
Context {C : Comparator} {W I : Type} {IT : Iterator W I}.

(** [current_] points to a child: its number; [None] is the null pointer. *)
Record MergingIterator := { children_ : list (IteratorWrapper I); current_ : option nat; direction_ : Direction }.
Implicit Types it : MergingIterator.
Definition set_children (c : list (IteratorWrapper I)) it : MergingIterator := {| children_ := c; current_ := current_ it; direction_ := direction_ it |}.
Definition set_current (c : option nat) it : MergingIterator := {| children_ := children_ it; current_ := c; direction_ := direction_ it |}.
Definition set_direction (d : Direction) it : MergingIterator := {| children_ := children_ it; current_ := current_ it; direction_ := d |}.

Definition NewMerging (children : list I) : MergingIterator :=
  {| children_ := map (fun c => NewWrapper (Some c)) children; current_ := None; direction_ := kForward |}.

Definition current it : option (IteratorWrapper I) := j ← current_ it; children_ it !! j.
Definition Merging_Valid it : bool := match current_ it with Some _ => true | None => false end.
Definition Merging_key it : list Z := match current it with Some c => Wrapper_key c | None => [] end.
Definition Merging_value it : option (list Z) := c ← current it; Wrapper_value c.
Fixpoint status_of (children : list (IteratorWrapper I)) (status : Status) : Status :=
  match children with
  | [] => status
  | c :: children => let status := Wrapper_status c in if negb (ok status) then status else status_of children status
  end.
Definition Merging_status it : Status := status_of (children_ it) Status_OK.

(** A loop over the children, with their numbers. *)
Fixpoint each (op : nat -> IteratorWrapper I -> D W (IteratorWrapper I)) (i : nat) (children : list (IteratorWrapper I)) : D W (list (IteratorWrapper I)) :=
  match children with
  | [] => dret []
  | c :: children => let! c := op i c in let! children := each op (S i) children in dret (c :: children)
  end.
Definition on_children (op : nat -> IteratorWrapper I -> D W (IteratorWrapper I)) it : D W MergingIterator :=
  let! c := each op 0 (children_ it) in dret (set_children c it).

(** The loops of [FindSmallest], from the first child, and [FindLargest], from the last. *)
Fixpoint smallest_of (i : nat) (children : list (IteratorWrapper I)) (smallest : option (nat * IteratorWrapper I)) : option (nat * IteratorWrapper I) :=
  match children with
  | [] => smallest
  | child :: children =>
      smallest_of (S i) children
        (if Wrapper_Valid child then
           match smallest with
           | None => Some (i, child)
           | Some s => match Compare (Wrapper_key child) (Wrapper_key s.2) with Lt => Some (i, child) | _ => smallest end
           end
         else smallest)
  end.
Fixpoint largest_of (i : nat) (children : list (IteratorWrapper I)) : option (nat * IteratorWrapper I) :=
  match children with
  | [] => None
  | child :: children =>
      let largest := largest_of (S i) children in
      if Wrapper_Valid child then
        match largest with
        | None => Some (i, child)
        | Some l => match Compare (Wrapper_key child) (Wrapper_key l.2) with Gt => Some (i, child) | _ => largest end
        end
      else largest
  end.
Definition FindSmallest it : MergingIterator := set_current (fst <$> smallest_of 0 (children_ it) None) it.
Definition FindLargest it : MergingIterator := set_current (fst <$> largest_of 0 (children_ it)) it.

Definition Merging_SeekToFirst it : D W MergingIterator :=
  let! it := on_children (fun _ => Wrapper_SeekToFirst) it in
  dret (set_direction kForward (FindSmallest it)).
Definition Merging_SeekToLast it : D W MergingIterator :=
  let! it := on_children (fun _ => Wrapper_SeekToLast) it in
  dret (set_direction kReverse (FindLargest it)).
Definition Merging_Seek (target : list Z) it : D W MergingIterator :=
  let! it := on_children (fun _ => Wrapper_Seek target) it in
  dret (set_direction kForward (FindSmallest it)).

(** All children but the current one; the current one only. *)
Definition on_others (op : IteratorWrapper I -> D W (IteratorWrapper I)) it : D W MergingIterator :=
  on_children (fun i child => if bool_decide (Some i = current_ it) then dret child else op child) it.
Definition on_current (op : IteratorWrapper I -> D W (IteratorWrapper I)) it : D W MergingIterator :=
  on_children (fun i child => if bool_decide (Some i = current_ it) then op child else dret child) it.

Definition after_key (key : list Z) (child : IteratorWrapper I) : D W (IteratorWrapper I) :=
  let! child := Wrapper_Seek key child in
  if Wrapper_Valid child && (match Compare key (Wrapper_key child) with Eq => true | _ => false end) then Wrapper_Next child
  else dret child.
Definition before_key (key : list Z) (child : IteratorWrapper I) : D W (IteratorWrapper I) :=
  let! child := Wrapper_Seek key child in
  if Wrapper_Valid child then Wrapper_Prev child else Wrapper_SeekToLast child.

(** [Next] and [Prev] may be called only when it is valid. *)
Definition Merging_Next it : D W MergingIterator :=
  if negb (Merging_Valid it) then running
  else
    let! it :=
      (if bool_decide (direction_ it <> kForward) then
         let! it := on_others (after_key (Merging_key it)) it in dret (set_direction kForward it)
       else dret it) in
    let! it := on_current Wrapper_Next it in
    dret (FindSmallest it).
Definition Merging_Prev it : D W MergingIterator :=
  if negb (Merging_Valid it) then running
  else
    let! it :=
      (if bool_decide (direction_ it <> kReverse) then
         let! it := on_others (before_key (Merging_key it)) it in dret (set_direction kReverse it)
       else dret it) in
    let! it := on_current Wrapper_Prev it in
    dret (FindLargest it).

#[export] Instance MergingIter : Iterator W MergingIterator := {
  Valid := Merging_Valid;
  iter_key := Merging_key;
  iter_value := Merging_value;
  iter_status := Merging_status;
  SeekToFirst := Merging_SeekToFirst;
  SeekToLast := Merging_SeekToLast;
  Seek := Merging_Seek;
  Next := Merging_Next;
  Prev := Merging_Prev
}.
End merger.
Arguments MergingIterator I : clear implicits.

(** What [NewMergingIterator] returns: nothing for no children, the only child, or a merging iterator. *)
Inductive Merged (I : Type) : Type :=
| NoChildren (empty : Status)
| OnlyChild (child : I)
| ManyChildren (merging : MergingIterator I).
Arguments NoChildren {I} empty.
Arguments OnlyChild {I} child.
Arguments ManyChildren {I} merging.

Section merged.
Context {C : Comparator} {W I : Type} {IT : Iterator W I}.

Definition NewMergingIterator (children : list I) : Merged I :=
  match children with
  | [] => NoChildren NewEmptyIterator
  | [child] => OnlyChild child
  | _ => ManyChildren (NewMerging children)
  end.

(** A call through the virtual table. *)
Definition dispatch (op : forall J, Iterator W J -> J -> D W J) (it : Merged I) : D W (Merged I) :=
  match it with
  | NoChildren e => let! e := op _ (EmptyIterator W) e in dret (NoChildren e)
  | OnlyChild c => let! c := op _ IT c in dret (OnlyChild c)
  | ManyChildren m => let! m := op _ MergingIter m in dret (ManyChildren m)
  end.
Definition observe {A} (f : forall J, Iterator W J -> J -> A) (it : Merged I) : A :=
  match it with NoChildren e => f _ (EmptyIterator W) e | OnlyChild c => f _ IT c | ManyChildren m => f _ MergingIter m end.

#[export] Instance MergedIter : Iterator W (Merged I) := {
  Valid := observe (fun J (IJ : Iterator W J) => Valid);
  iter_key := observe (fun J (IJ : Iterator W J) => iter_key);
  iter_value := observe (fun J (IJ : Iterator W J) => iter_value);
  iter_status := observe (fun J (IJ : Iterator W J) => iter_status);
  SeekToFirst := dispatch (fun J (IJ : Iterator W J) => SeekToFirst);
  SeekToLast := dispatch (fun J (IJ : Iterator W J) => SeekToLast);
  Seek target := dispatch (fun J (IJ : Iterator W J) => Seek target);
  Next := dispatch (fun J (IJ : Iterator W J) => Next);
  Prev := dispatch (fun J (IJ : Iterator W J) => Prev)
}.
End merged.

(** ** Positions *)

Section positions.
Context {C : Comparator} {CL : ComparatorLaws C}.
Implicit Types es : list (list Z * list Z).

Lemma sorted_entry_ok es i k v : sorted_entries es -> es !! i = Some (k, v) -> key_ok k.
Proof. intros [Hok _] H. apply (Hok k v). by apply list_elem_of_lookup_2 in H. Qed.

(** A sorted list finds an entry of its own where it is. *)
Lemma lower_bound_self es p k v : sorted_entries es -> es !! p = Some (k, v) -> lower_bound k es = p.
Proof.
  intros Hs Hp. apply lower_bound_unique.
  - apply lookup_lt_Some in Hp. lia.
  - intros q k' v' Hq Hq'. by apply (entry_lt es Hs q p k' v' k v).
  - intros k' v' E. rewrite Hp in E. injection E as <- <-. rewrite (cmp_refl Compare key_ok); [done|]. by apply (sorted_entry_ok es p k v).
Qed.
Lemma lower_bound_iff es t p k v : sorted_entries es -> key_ok t -> es !! p = Some (k, v) -> Compare k t = Lt <-> (p < lower_bound t es)%nat.
Proof.
  intros Hs Ht Hp. split; [|by apply lower_bound_before with v]. intros H. destruct (decide (p < lower_bound t es)%nat) as [|Hge]; [done|exfalso].
  pose proof (lookup_lt_Some _ _ _ Hp). destruct (lookup_lt_is_Some_2 es (lower_bound t es)) as [[k' v'] Hl]; [lia|].
  pose proof (lower_bound_at t es k' v' Hl) as Hn. destruct (decide (p = lower_bound t es)) as [->|]; [congruence|].
  apply Hn. apply (cmp_lt_trans Compare key_ok k' k t); [by apply (sorted_entry_ok es (lower_bound t es) k' v')|by apply (sorted_entry_ok es p k v)|done| |done].
  apply (entry_lt es Hs (lower_bound t es) p k' v' k v); [done|done|lia].
Qed.
Lemma lower_bound_ext es t t' : (forall k v, (k, v) ∈ es -> Compare k t = Lt <-> Compare k t' = Lt) -> lower_bound t es = lower_bound t' es.
Proof.
  induction es as [|[k v] es IH]; intros H; [done|]. cbn. pose proof (H k v ltac:(by apply list_elem_of_here)) as Hk.
  rewrite IH by (intros k' v' Hin; apply (H k' v'); by apply list_elem_of_further).
  destruct (Compare k t), (Compare k t'); first [done|by discriminate (proj1 Hk eq_refl)|by discriminate (proj2 Hk eq_refl)].
Qed.
Lemma sorted_entries_key_inj es i j k v v' : sorted_entries es -> es !! i = Some (k, v) -> es !! j = Some (k, v') -> i = j.
Proof.
  intros Hs Hi Hj. pose proof (sorted_entry_ok es i k v Hs Hi) as Hk. destruct (Nat.lt_trichotomy i j) as [H|[H|H]]; [|done|].
  - pose proof (entry_lt es Hs i j k v k v' Hi Hj H) as E. by rewrite (cmp_refl Compare key_ok) in E.
  - pose proof (entry_lt es Hs j i k v' k v Hj Hi H) as E. by rewrite (cmp_refl Compare key_ok) in E.
Qed.
(** The same as lists sorted one entry at a time. *)
Lemma sorted_entries_strongly es : sorted_entries es <->
  Forall (fun e => key_ok e.1 /\ Forall byte e.2) es /\ StronglySorted (fun e e' : list Z * list Z => Compare e.1 e'.1 = Lt) es.
Proof.
  induction es as [|[k v] es IH].
  - split; [intros _; repeat constructor|]. intros _. split; [by intros k v ?%not_elem_of_nil|intros i j ? ? ? ?; by rewrite lookup_nil].
  - rewrite StronglySorted_cons, Forall_cons. split.
    + intros [Hok Hlt]. destruct IH as [IH _]. destruct IH as [H1 H2].
      { split; [intros k' v' Hin; apply (Hok k' v'); by apply list_elem_of_further|]. intros i j k1 v1 k2 v2 Hi Hj Hij. apply (Hlt (S i) (S j) k1 v1 k2 v2); [done|done|lia]. }
      destruct (Hok k v (list_elem_of_here _ _)) as [Hk Hv]. split_and!; [done|done|done| |done].
      apply Forall_lookup. intros j [k' v'] Hj. apply (Hlt 0%nat (S j) k v k' v'); [done|done|lia].
    + intros [[Hkv Hok] [Hk Hs]]. destruct (proj2 IH (conj Hok Hs)) as [Hok' Hlt]. split.
      * intros k' v' [[= -> ->]|Hin]%elem_of_cons; [done|by apply Hok'].
      * intros [|i] [|j] k1 v1 k2 v2 Hi Hj Hij; try lia; cbn in Hi, Hj; [|apply (Hlt i j k1 v1 k2 v2); [done|done|lia]].
        injection Hi as <- <-. rewrite Forall_lookup in Hk. apply (Hk j (k2, v2) Hj).
Qed.
End positions.

(** ** The merged sequence *)

Section merged_sequence.
Context {C : Comparator} {CL : ComparatorLaws C} {W I : Type} {IT : Iterator W I} (inv : W -> Prop).
(** The entries of the children, and all of them in order: no key is there twice. *)
Context (lists : list (list (list Z * list Z))) (merged : list (list Z * list Z)).
Class Merges : Prop := {
  merge_sorted : sorted_entries merged;
  merge_all : merged ≡ₚ concat lists;
  merge_lists : Forall sorted_entries lists
}.
Context {HM : Merges}.
Implicit Types (j : nat) (es : list (list Z * list Z)) (cs : list (IteratorWrapper I)).

(** The children, each at its place. *)
Definition kids (f : nat -> list (list Z * list Z) -> nat) cs : Prop :=
  length cs = length lists /\ forall j es c, lists !! j = Some es -> cs !! j = Some c -> wrapper_at (at_any inv es) c (f j es).

Lemma list_sorted j es : lists !! j = Some es -> sorted_entries es.
Proof. intros H. pose proof merge_lists as Hl. rewrite Forall_lookup in Hl. by apply (Hl j). Qed.
Lemma in_merged j es p e : lists !! j = Some es -> es !! p = Some e -> exists i, merged !! i = Some e.
Proof.
  intros Hj Hp. apply list_elem_of_lookup. rewrite merge_all. apply list_elem_of_In, in_concat. exists es.
  split; apply list_elem_of_In; by apply list_elem_of_lookup_2 in Hj, Hp.
Qed.
Lemma from_merged i e : merged !! i = Some e -> exists j es p, lists !! j = Some es /\ es !! p = Some e.
Proof.
  intros Hi. assert (H : e ∈ concat lists) by (rewrite <- merge_all; by apply list_elem_of_lookup_2 in Hi).
  apply list_elem_of_In, in_concat in H as (es & Hes & He). apply list_elem_of_In, list_elem_of_lookup in Hes as [j Hj], He as [p Hp].
  by exists j, es, p.
Qed.
Lemma merged_nodup : NoDup merged.
Proof.
  apply NoDup_alt. intros i j [k v] Hi Hj. by apply (sorted_entries_key_inj merged i j k v v merge_sorted).
Qed.
(** An entry belongs to one child. *)
Lemma one_child j j' es es' p p' e : lists !! j = Some es -> lists !! j' = Some es' -> es !! p = Some e -> es' !! p' = Some e -> j = j'.
Proof.
  intros Hj Hj' Hp Hp'. pose proof merged_nodup as Hn. rewrite merge_all in Hn. destruct (decide (j = j')) as [|Hne]; [done|exfalso].
  assert (Hw : forall a b esa esb, (a < b)%nat -> lists !! a = Some esa -> lists !! b = Some esb -> e ∈ esa -> e ∈ esb -> False).
  { intros a b esa esb Hlt Ha Hb He1 He2. rewrite <- (take_drop_middle lists a esa Ha) in Hn. rewrite concat_app in Hn.
    apply NoDup_app in Hn as (_ & _ & Hn). cbn in Hn. apply NoDup_app in Hn as (_ & Hn & _). apply (Hn e He1).
    apply list_elem_of_In, in_concat. exists esb. split; apply list_elem_of_In; [|done]. apply list_elem_of_lookup. exists (b - S a)%nat.
    rewrite lookup_drop. by replace (S a + (b - S a))%nat with b by lia. }
  apply list_elem_of_lookup_2 in Hp, Hp'. destruct (Nat.lt_total j j') as [H|[H|H]]; [by apply (Hw j j' es es')|done|by apply (Hw j' j es' es)].
Qed.

(** Where entry [i] of the merged sequence is, or would be, in a child: what is before it there. *)
Definition place (i : nat) es : nat := match merged !! i with Some (k, _) => lower_bound k es | None => length es end.
(** One step back: [length] stands for no entry. *)
Definition back (p n : nat) : nat := match p with O => n | S p => p end.

Lemma merged_key_ok i k v : merged !! i = Some (k, v) -> key_ok k.
Proof. apply sorted_entry_ok, merge_sorted. Qed.

Lemma place_le i es : (place i es <= length es)%nat.
Proof. unfold place. destruct (merged !! i) as [[k v]|]; [apply lower_bound_le|done]. Qed.

(** An entry of a child comes before the place of [i] when it is before [i] in the whole. *)
Lemma place_iff i j es p q e : lists !! j = Some es -> es !! p = Some e -> merged !! q = Some e -> (p < place i es)%nat <-> (q < i)%nat.
Proof.
  intros Hj Hp Hq. destruct e as [k v]. unfold place. destruct (merged !! i) as [[k' v']|] eqn:Ei.
  - rewrite <- (lower_bound_iff es k' p k v) by first [done|by apply (list_sorted j)|by apply (merged_key_ok i k' v')].
    split; intros H; [|by apply (entry_lt merged merge_sorted q i k v k' v')].
    destruct (Nat.lt_trichotomy q i) as [|[->|Hlt]]; [done|exfalso|exfalso].
    + rewrite Hq in Ei. injection Ei as <- <-. rewrite (cmp_refl Compare key_ok) in H; [done|by apply (merged_key_ok i k v)].
    + pose proof (entry_lt merged merge_sorted i q k' v' k v Ei Hq Hlt) as H'.
      rewrite (cmp_antisym Compare key_ok k k'), H in H'; [done|by apply (merged_key_ok q k v)|by apply (merged_key_ok i k' v')].
  - apply lookup_ge_None in Ei. apply lookup_lt_Some in Hp, Hq. lia.
Qed.
Lemma place_unique i j es p : lists !! j = Some es -> (p <= length es)%nat ->
  (forall q r e, es !! q = Some e -> merged !! r = Some e -> (q < p)%nat <-> (r < i)%nat) -> place i es = p.
Proof.
  intros Hj Hp H. destruct (Nat.lt_trichotomy (place i es) p) as [Hlt|[?|Hlt]]; [|done|].
  - destruct (lookup_lt_is_Some_2 es (place i es)) as [e He]; [lia|]. destruct (in_merged j es _ e Hj He) as [r Hr].
    pose proof (place_iff i j es _ r e Hj He Hr). pose proof (H _ r e He Hr). lia.
  - pose proof (place_le i es). destruct (lookup_lt_is_Some_2 es p) as [e He]; [lia|]. destruct (in_merged j es _ e Hj He) as [r Hr].
    pose proof (place_iff i j es _ r e Hj He Hr). pose proof (H _ r e He Hr). lia.
Qed.

Lemma place_0 j es : lists !! j = Some es -> place 0 es = 0%nat.
Proof. intros Hj. apply (place_unique 0 j es); [done|lia|]. lia. Qed.
Lemma place_end j es i : lists !! j = Some es -> (length merged <= i)%nat -> place i es = length es.
Proof. intros Hj Hi. unfold place. by rewrite (lookup_ge_None_2 merged i) by done. Qed.
(** The child that has entry [i] has it at its place; the place of the next entry is one further there,
    and the same elsewhere. *)
Lemma place_at i j es p e : lists !! j = Some es -> es !! p = Some e -> merged !! i = Some e -> place i es = p.
Proof. intros Hj Hp Hi. unfold place. rewrite Hi. destruct e as [k v]. by apply (lower_bound_self es p k v), Hp; apply (list_sorted j). Qed.
Lemma place_S_at i j es p e : lists !! j = Some es -> es !! p = Some e -> merged !! i = Some e -> place (S i) es = S p.
Proof.
  intros Hj Hp Hi. pose proof (place_at i j es p e Hj Hp Hi) as Ep. apply (place_unique (S i) j es); [done|by apply lookup_lt_Some in Hp|].
  intros q r x Hq Hr. pose proof (place_iff i j es q r x Hj Hq Hr) as H. rewrite Ep in H.
  assert (q = p <-> r = i); [|lia]. split; intros ->.
  - rewrite Hp in Hq. injection Hq as <-. by apply (NoDup_lookup merged r i e merged_nodup).
  - rewrite Hi in Hr. injection Hr as <-. destruct e as [k v]. by apply (sorted_entries_key_inj es q p k v v (list_sorted j es Hj)).
Qed.
Lemma place_S_other i j es j' es' p e : lists !! j = Some es -> es !! p = Some e -> merged !! i = Some e ->
  lists !! j' = Some es' -> j' <> j -> place (S i) es' = place i es'.
Proof.
  intros Hj Hp Hi Hj' Hne. apply (place_unique (S i) j' es'); [done|apply place_le|]. intros q r x Hq Hr.
  rewrite (place_iff i j' es' q r x Hj' Hq Hr). assert (r <> i); [|lia]. intros ->. rewrite Hi in Hr. injection Hr as <-.
  apply Hne. symmetry. by apply (one_child j j' es es' p q e).
Qed.
Lemma place_seek t j es : lists !! j = Some es -> key_ok t -> place (lower_bound t merged) es = lower_bound t es.
Proof.
  intros Hj Ht. apply (place_unique _ j es); [done|apply lower_bound_le|]. intros q r [k v] Hq Hr.
  rewrite <- (lower_bound_iff es t q k v) by first [done|by apply (list_sorted j)].
  by rewrite <- (lower_bound_iff merged t r k v) by first [done|apply merge_sorted].
Qed.

(** ** The loops over the children *)

Lemma each_spec f g op cs w : kids f cs -> inv w ->
  (forall j es c w, lists !! j = Some es -> wrapper_at (at_any inv es) c (f j es) -> inv w ->
    exists c' w', op j c w = Some (c', w') /\ inv w' /\ wrapper_at (at_any inv es) c' (g j es)) ->
  exists cs' w', each op 0 cs w = Some (cs', w') /\ inv w' /\ kids g cs'.
Proof.
  intros [Hlen Hk] Hw Hop.
  assert (H : forall cs i w, inv w -> (i + length cs = length lists)%nat ->
    (forall j es c, lists !! (i + j)%nat = Some es -> cs !! j = Some c -> wrapper_at (at_any inv es) c (f (i + j)%nat es)) ->
    exists cs' w', each op i cs w = Some (cs', w') /\ inv w' /\ length cs' = length cs /\
      forall j es c, lists !! (i + j)%nat = Some es -> cs' !! j = Some c -> wrapper_at (at_any inv es) c (g (i + j)%nat es)).
  { clear Hlen Hk Hw cs w. intros cs. induction cs as [|c cs IH]; intros i w Hw Hlen Hk; [exists [], w; split_and!; try done; intros j ? ?; by rewrite lookup_nil|].
    cbn in Hlen. destruct (lookup_lt_is_Some_2 lists i) as [es Hes]; [lia|].
    destruct (Hop i es c w) as (c' & w1 & E1 & Hw1 & Hc'); [done| |done|].
    { specialize (Hk 0%nat es c). rewrite Nat.add_0_r in Hk. by apply Hk. }
    destruct (IH (S i) w1) as (cs' & w2 & E2 & Hw2 & Hl2 & H2); [done|lia| |].
    { intros j es' c0 H1 H2. specialize (Hk (S j) es' c0). rewrite Nat.add_succ_r in Hk. by apply Hk. }
    exists (c' :: cs'), w2. cbn [each]. unfold dbind, dret. rewrite E1, E2. split_and!; [done|done|cbn; by f_equal|].
    intros [|j] es' c0 Hj Hc; [rewrite Nat.add_0_r in *; cbn in Hc; by simplify_eq|]. rewrite Nat.add_succ_r in *. by apply H2. }
  destruct (H cs 0%nat w Hw) as (cs' & w' & E & Hw' & Hl & Hg); [lia|done|]. exists cs', w'. split_and!; [done|done|]. split; [lia|done].
Qed.

Definition key_at_ok (c : IteratorWrapper I) : Prop := Wrapper_Valid c = true -> key_ok (Wrapper_key c).

Lemma smallest_of_spec cs i s : Forall key_at_ok cs -> (forall x, s = Some x -> key_ok (Wrapper_key x.2)) ->
  match smallest_of i cs s with
  | None => s = None /\ Forall (fun c => Wrapper_Valid c = false) cs
  | Some (j, c) => (s = Some (j, c) \/ (exists n, j = (i + n)%nat /\ cs !! n = Some c /\ Wrapper_Valid c = true)) /\
      (forall x, s = Some x -> Compare (Wrapper_key x.2) (Wrapper_key c) <> Lt) /\
      Forall (fun x => Wrapper_Valid x = true -> Compare (Wrapper_key x) (Wrapper_key c) <> Lt) cs
  end.
Proof.
  intros Hok. revert i s. induction Hok as [|c cs Hc Hok IH]; intros i s Hs; cbn [smallest_of].
  - destruct s as [[j c]|]; [|done]. split; [by left|]. split; [|done]. intros x [= <-]. rewrite (cmp_refl Compare key_ok); [done|by apply (Hs (j, c))].
  - set (s' := if Wrapper_Valid c then _ else s).
    assert (Hs' : forall x, s' = Some x -> key_ok (Wrapper_key x.2)).
    { subst s'. intros x. destruct (Wrapper_Valid c) eqn:Ev; [|by apply Hs]. destruct s as [y|]; [|intros [= <-]; by apply Hc].
      destruct (Compare _ _); intros [= <-]; [by apply Hs|by apply Hc|by apply Hs]. }
    specialize (IH (S i) s' Hs'). destruct (smallest_of (S i) cs s') as [[j x]|].
    + destruct IH as (H1 & H2 & H3). assert (Hx : key_ok (Wrapper_key x)).
      { destruct H1 as [H1|(n & _ & H1 & H4)]; [by apply (Hs' (j, x))|]. rewrite Forall_lookup in Hok. by apply (Hok n). }
      assert (Hor : (s' = s) \/ (Wrapper_Valid c = true /\ s' = Some (i, c) /\ forall y, s = Some y -> Compare (Wrapper_key c) (Wrapper_key y.2) = Lt)).
      { subst s'. destruct (Wrapper_Valid c); [|by left]. destruct s as [y|]; [|by right]. destruct (Compare _ _) eqn:E; [by left|right|by left].
        split_and!; [done|done|]. by intros ? [= <-]. }
      assert (Hsx : forall y, s = Some y -> Compare (Wrapper_key y.2) (Wrapper_key x) <> Lt).
      { intros y Hy. destruct Hor as [E|(Hv & E & Hlt)]; [apply H2; by rewrite E|]. intros Hyx. apply (H2 _ E). cbn.
        apply (cmp_lt_trans Compare key_ok _ (Wrapper_key y.2)); try done; [by apply Hc|by apply Hs|by apply Hlt]. }
      split_and!; [|done|].
      * destruct H1 as [H1|(n & -> & H1 & H4)]; [|right; exists (S n); split_and!; [lia|done|done]].
        destruct Hor as [E|(Hv & E & _)]; [left; by rewrite <- E|]. rewrite E in H1. injection H1 as <- <-. right. exists 0%nat. split_and!; [lia|done|done].
      * constructor; [|done]. intros Hv. destruct Hor as [E|(_ & E & _)]; [|by apply (H2 _ E)].
        subst s'. rewrite Hv in E. destruct s as [y|]; [|done]. intros Hcx. destruct (Compare (Wrapper_key c) (Wrapper_key y.2)) eqn:Ecy.
        -- apply (Hsx y eq_refl). rewrite <- (cmp_eq_l Compare key_ok (Wrapper_key c)); [done|by apply Hc|by apply Hs|done|done].
        -- injection E as E. rewrite <- E in Ecy. cbn in Ecy. rewrite (cmp_refl Compare key_ok) in Ecy; [done|by apply Hc].
        -- apply (Hsx y eq_refl). apply (cmp_lt_trans Compare key_ok _ (Wrapper_key c)); try done; [by apply Hs|by apply Hc|].
           apply (cmp_gt Compare key_ok); [by apply Hc|by apply Hs|done].
    + destruct IH as [H1 H2]. subst s'. destruct (Wrapper_Valid c) eqn:Ev; [destruct s as [y|]; [by destruct (Compare _ _)|done]|].
      split; [done|]. by constructor.
Qed.

Lemma largest_of_spec cs i : Forall key_at_ok cs ->
  match largest_of i cs with
  | None => Forall (fun c => Wrapper_Valid c = false) cs
  | Some (j, c) => (exists n, j = (i + n)%nat /\ cs !! n = Some c /\ Wrapper_Valid c = true) /\
      Forall (fun x => Wrapper_Valid x = true -> Compare (Wrapper_key x) (Wrapper_key c) <> Gt) cs
  end.
Proof.
  intros Hok. revert i. induction Hok as [|c cs Hc Hok IH]; intros i; cbn [largest_of]; [constructor|]. specialize (IH (S i)).
  destruct (largest_of (S i) cs) as [[j x]|].
  - destruct IH as [(n & -> & Hn & Hv) H]. assert (Hx : key_ok (Wrapper_key x)) by (rewrite Forall_lookup in Hok; by apply (Hok n)).
    assert (Hold : exists m, (S i + n)%nat = (i + m)%nat /\ (c :: cs) !! m = Some x /\ Wrapper_Valid x = true) by (exists (S n); split_and!; [lia|done|done]).
    destruct (Wrapper_Valid c) eqn:Ev; [|split; [done|by constructor; [congruence|]]]. cbn [snd].
    destruct (Compare (Wrapper_key c) (Wrapper_key x)) eqn:E; [by split; [|constructor; [congruence|]]..|].
    split; [exists 0%nat; split_and!; [lia|done|done]|]. constructor; [intros _; rewrite (cmp_refl Compare key_ok); [done|by apply Hc]|].
    eapply Forall_impl; [apply (proj2 (Forall_and _ _) (conj Hok H))|]. intros y [Hy1 Hy2] Hyv Hyc.
    apply (Hy2 Hyv). apply (cmp_gt Compare key_ok); [by apply Hy1|done|]. apply (cmp_lt_trans Compare key_ok _ (Wrapper_key c)); [done|by apply Hc|by apply Hy1| |].
    + apply (cmp_gt Compare key_ok); [by apply Hc|done|done].
    + apply (cmp_gt Compare key_ok); [by apply Hy1|by apply Hc|done].
  - destruct (Wrapper_Valid c) eqn:Ev; [|by constructor]. split; [exists 0%nat; split_and!; [lia|done|done]|].
    constructor; [intros _; rewrite (cmp_refl Compare key_ok); [done|by apply Hc]|]. eapply Forall_impl; [apply IH|]. cbn. congruence.
Qed.

(** What the children show when they are at their places. *)
Lemma kid_valid f cs j es c : kids f cs -> lists !! j = Some es -> cs !! j = Some c ->
  Wrapper_Valid c = bool_decide (f j es < length es)%nat /\ (f j es <= length es)%nat.
Proof. intros [_ H] Hj Hc. destruct (wrapper_valid inv es (at_any inv es) c (f j es)) as [? ?]; [by apply H|done]. Qed.
Lemma kid_entry f cs j es c k v : kids f cs -> lists !! j = Some es -> cs !! j = Some c -> es !! f j es = Some (k, v) ->
  Wrapper_key c = k /\ Wrapper_value c = Some v.
Proof. intros [_ H] Hj Hc He. apply (wrapper_entry inv es (at_any inv es) c (f j es)); [by apply H|done]. Qed.
Lemma kid_list f cs j c : kids f cs -> cs !! j = Some c -> exists es, lists !! j = Some es.
Proof. intros [Hl _] Hc. apply lookup_lt_is_Some_2. rewrite <- Hl. by apply lookup_lt_Some in Hc. Qed.
Lemma kid_at f cs j es : kids f cs -> lists !! j = Some es -> exists c, cs !! j = Some c.
Proof. intros [Hl _] Hj. apply lookup_lt_is_Some_2. rewrite Hl. by apply lookup_lt_Some in Hj. Qed.

Lemma kids_key_ok f cs : kids f cs -> Forall key_at_ok cs.
Proof.
  intros Hk. apply Forall_lookup. intros j c Hc Hv. destruct (kid_list f cs j c Hk Hc) as [es Hj].
  destruct (kid_valid f cs j es c Hk Hj Hc) as [E _]. rewrite Hv in E. symmetry in E. apply bool_decide_eq_true in E.
  destruct (lookup_lt_is_Some_2 es _ E) as [[k v] He]. destruct (kid_entry f cs j es c k v Hk Hj Hc He) as [-> _].
  by apply (sorted_entry_ok es (f j es) k v (list_sorted j es Hj)).
Qed.
Lemma kids_ext f g cs : (forall j es, lists !! j = Some es -> f j es = g j es) -> kids f cs -> kids g cs.
Proof. intros H [Hl Hk]. split; [done|]. intros j es c Hj Hc. rewrite <- (H j es Hj). by apply Hk. Qed.

(** Child [j] has entry [i]. *)
Definition holder (i j : nat) : Prop := exists es p e, lists !! j = Some es /\ es !! p = Some e /\ merged !! i = Some e.

Lemma holder_exists i : (i < length merged)%nat -> exists j, holder i j.
Proof. intros H. destruct (lookup_lt_is_Some_2 merged i H) as [e Hi]. destruct (from_merged i e Hi) as (j & es & p & H1 & H2). by exists j, es, p, e. Qed.
Lemma holder_unique i j j' : holder i j -> holder i j' -> j = j'.
Proof. intros (es & p & e & H1 & H2 & H3) (es' & p' & e' & H1' & H2' & H3'). rewrite H3 in H3'. injection H3' as <-. by apply (one_child j j' es es' p p' e). Qed.
Lemma holder_place i j es : holder i j -> lists !! j = Some es -> exists e, merged !! i = Some e /\ es !! place i es = Some e.
Proof. intros (es' & p & e & H1 & H2 & H3) Hj. rewrite Hj in H1. injection H1 as <-. exists e. by rewrite (place_at i j es p e). Qed.

(** An entry of a child and its key, as the whole sees them. *)
Lemma same_key i j es p q k v v' : lists !! j = Some es -> es !! p = Some (k, v) -> merged !! i = Some (k, v') -> merged !! q = Some (k, v) -> q = i.
Proof. intros Hj Hp Hi Hq. by apply (sorted_entries_key_inj merged q i k v v' merge_sorted). Qed.

Lemma FindSmallest_spec i cs : kids (fun _ => place i) cs -> (i <= length merged)%nat ->
  match fst <$> smallest_of 0 cs None with Some j => holder i j | None => i = length merged end.
Proof.
  intros Hk Hi. pose proof (smallest_of_spec cs 0%nat None (kids_key_ok _ _ Hk) ltac:(done)) as H.
  destruct (smallest_of 0 cs None) as [[j c]|]; cbn.
  - destruct H as ([[=]|(n & -> & Hc & Hv)] & _ & Hmin). cbn [Nat.add] in *. destruct (kid_list _ _ _ _ Hk Hc) as [es Hj].
    destruct (kid_valid _ _ _ _ _ Hk Hj Hc) as [E _]. rewrite Hv in E. symmetry in E. apply bool_decide_eq_true in E.
    destruct (lookup_lt_is_Some_2 es _ E) as [[k v] He]. destruct (kid_entry _ _ _ _ _ k v Hk Hj Hc He) as [Ek _].
    destruct (in_merged n es _ _ Hj He) as [q Hq]. destruct (decide (i = length merged)) as [->|Hne].
    { exfalso. rewrite (place_end n es (length merged) Hj) in E by lia. lia. }
    destruct (holder_exists i) as [j' (es' & p' & [k' v'] & Hj' & Hp' & Hi')]; [lia|]. destruct (kid_at _ _ j' es' Hk Hj') as [c' Hc'].
    pose proof (place_at i j' es' p' _ Hj' Hp' Hi') as Ep. rewrite <- Ep in Hp'. destruct (kid_entry _ _ _ _ _ k' v' Hk Hj' Hc' Hp') as [Ek' _].
    destruct (kid_valid _ _ _ _ _ Hk Hj' Hc') as [Hv' _]. rewrite bool_decide_true in Hv' by (by apply lookup_lt_Some in Hp').
    rewrite Forall_lookup in Hmin. pose proof (Hmin j' c' Hc' Hv') as Hle. rewrite Ek, Ek' in Hle.
    pose proof (place_iff i n es _ q _ Hj He Hq) as Hpi. assert (Hqi : (i <= q)%nat) by lia.
    destruct (decide (q = i)) as [->|Hlt]; [by exists es, (place i es), (k, v)|]. exfalso. apply Hle.
    apply (entry_lt merged merge_sorted i q k' v' k v); [done|done|lia].
  - destruct H as [_ H]. rewrite Forall_lookup in H. destruct (decide (i = length merged)) as [|Hne]; [done|exfalso].
    destruct (holder_exists i) as [j (es & p & e & Hj & Hp & He)]; [lia|]. destruct (kid_at _ _ j es Hk Hj) as [c Hc].
    destruct (kid_valid _ _ _ _ _ Hk Hj Hc) as [Hv _]. rewrite (H j c Hc), (place_at i j es p e) in Hv by done.
    symmetry in Hv. apply bool_decide_eq_false in Hv. apply lookup_lt_Some in Hp. lia.
Qed.

Definition before (i : nat) (es : list (list Z * list Z)) : nat := back (place i es) (length es).

Lemma before_lookup i j es q e : lists !! j = Some es -> es !! before i es = Some e -> merged !! q = Some e ->
  (q < i)%nat /\ forall q' p' e', es !! p' = Some e' -> merged !! q' = Some e' -> (q' < i)%nat -> (q' <= q)%nat.
Proof.
  intros Hj He Hq. unfold before, back in He. destruct (place i es) as [|p] eqn:Ep; [apply lookup_lt_Some in He; lia|].
  assert (H : forall p' q' e', es !! p' = Some e' -> merged !! q' = Some e' -> (p' < S p)%nat <-> (q' < i)%nat).
  { intros p' q' e' H1 H2. rewrite <- Ep. by apply (place_iff i j es p' q' e'). }
  split; [apply (H p q e He Hq); lia|]. intros q' p' e' H1 H2 H3. apply (H p' q' e' H1 H2) in H3.
  destruct (decide (p' = p)) as [->|Hne]; [rewrite He in H1; injection H1 as <-; by rewrite (NoDup_lookup merged q' q e merged_nodup)|].
  destruct e as [k v], e' as [k' v']. destruct (decide (q' <= q)%nat) as [|Hgt]; [done|exfalso].
  pose proof (entry_lt es (list_sorted j es Hj) p' p k' v' k v H1 He ltac:(lia)) as E1.
  pose proof (entry_lt merged merge_sorted q q' k v k' v' Hq H2 ltac:(lia)) as E2.
  rewrite (cmp_antisym Compare key_ok k' k), E1 in E2; [done|by apply (merged_key_ok q' k' v')|by apply (merged_key_ok q k v)].
Qed.

Lemma FindLargest_spec i cs : kids (fun _ => before i) cs -> (i <= length merged)%nat ->
  match fst <$> largest_of 0 cs with Some j => exists i', i = S i' /\ holder i' j | None => i = 0%nat end.
Proof.
  intros Hk Hi. pose proof (largest_of_spec cs 0%nat (kids_key_ok _ _ Hk)) as H.
  assert (Hprev : forall i', i = S i' -> exists j es c p k v, lists !! j = Some es /\ cs !! j = Some c /\ es !! p = Some (k, v) /\
    merged !! i' = Some (k, v) /\ before i es = p /\ Wrapper_Valid c = true /\ Wrapper_key c = k).
  { intros i' ->. destruct (holder_exists i') as [j (es & p & [k v] & Hj & Hp & He)]; [lia|]. destruct (kid_at _ _ j es Hk Hj) as [c Hc].
    assert (Eb : before (S i') es = p) by (unfold before; by rewrite (place_S_at i' j es p _ Hj Hp He)).
    destruct (kid_valid _ _ _ _ _ Hk Hj Hc) as [Hv _]. rewrite Eb, bool_decide_true in Hv by (by apply lookup_lt_Some in Hp).
    destruct (kid_entry _ _ _ _ _ k v Hk Hj Hc) as [Ek _]; [by rewrite Eb|]. by exists j, es, c, p, k, v. }
  destruct (largest_of 0 cs) as [[j c]|]; cbn.
  - destruct H as [(n & -> & Hc & Hv) Hmax]. cbn [Nat.add] in *. destruct (kid_list _ _ _ _ Hk Hc) as [es Hj].
    destruct (kid_valid _ _ _ _ _ Hk Hj Hc) as [E _]. rewrite Hv in E. symmetry in E. apply bool_decide_eq_true in E.
    destruct (lookup_lt_is_Some_2 es _ E) as [[k v] He]. destruct (kid_entry _ _ _ _ _ k v Hk Hj Hc He) as [Ek _].
    destruct (in_merged n es _ _ Hj He) as [q Hq]. destruct (before_lookup i n es q _ Hj He Hq) as [Hqi _].
    destruct i as [|i']; [lia|]. exists i'. split; [done|]. destruct (Hprev i' eq_refl) as (j' & es' & c' & p' & k' & v' & Hj' & Hc' & Hp' & Hi' & Eb & Hv' & Ek').
    rewrite Forall_lookup in Hmax. pose proof (Hmax j' c' Hc' Hv') as Hle. rewrite Ek, Ek' in Hle.
    destruct (decide (q = i')) as [->|Hne]; [by exists es, (before (S i') es), (k, v)|]. exfalso. apply Hle.
    apply (cmp_gt Compare key_ok); [by apply (merged_key_ok i' k' v')|by apply (merged_key_ok q k v)|].
    apply (entry_lt merged merge_sorted q i' k v k' v'); [done|done|lia].
  - destruct i as [|i']; [done|exfalso]. destruct (Hprev i' eq_refl) as (j & es & c & p & k & v & Hj & Hc & _ & _ & _ & Hv & _).
    rewrite Forall_lookup in H. rewrite (H j c Hc) in Hv. done.
Qed.

(** ** The iterator *)

(** The places of the children when the iterator is at entry [i], which child [j] has. *)
Definition places (d : Direction) (i j : nat) : nat -> list (list Z * list Z) -> nat :=
  match d with
  | kForward => fun _ => place i
  | kReverse => fun j' => if decide (j' = j) then place i else before i
  end.
Definition merging_pos (it : MergingIterator I) (i : nat) : Prop :=
  (i = length merged /\ current_ it = None /\ exists f, kids f (children_ it)) \/
  (exists j, current_ it = Some j /\ holder i j /\ kids (places (direction_ it) i j) (children_ it)).

Lemma merging_pos_kids it i : merging_pos it i -> exists f, kids f (children_ it).
Proof. intros [(_ & _ & H)|(j & _ & _ & H)]; [done|by eexists]. Qed.
Lemma holder_lt i j : holder i j -> (i < length merged)%nat.
Proof. intros (es & p & e & _ & _ & H). by apply lookup_lt_Some in H. Qed.
Lemma places_current d i j es : places d i j j es = place i es.
Proof. destruct d; cbn; [done|]. by rewrite decide_True. Qed.

(** The current child shows the entry. *)
Lemma current_entry it i j k v : current_ it = Some j -> holder i j -> kids (places (direction_ it) i j) (children_ it) ->
  merged !! i = Some (k, v) -> Merging_key it = k /\ Merging_value it = Some v.
Proof.
  intros Hc Hh Hk Hi. pose proof Hh as (es & p & e & Hj & Hp & He). rewrite He in Hi. injection Hi as ->.
  destruct (kid_at _ _ j es Hk Hj) as [c Hcs]. unfold Merging_key, Merging_value, current. rewrite Hc. cbn. rewrite Hcs. cbn.
  apply (kid_entry _ _ j es c k v Hk Hj Hcs). by rewrite places_current, (place_at i j es p _ Hj Hp He).
Qed.

(** Having looked for the smallest, or the largest, it is there. *)
Lemma FindSmallest_pos it i : kids (fun _ => place i) (children_ it) -> (i <= length merged)%nat ->
  merging_pos (set_direction kForward (FindSmallest it)) i.
Proof.
  intros Hk Hi. pose proof (FindSmallest_spec i _ Hk Hi) as H. unfold FindSmallest, merging_pos. cbn.
  destruct (fst <$> smallest_of 0 (children_ it) None) as [j|]; [right; by exists j|left]. split_and!; [done|done|by eexists].
Qed.
Lemma FindLargest_pos it i : kids (fun _ => before i) (children_ it) -> (i <= length merged)%nat ->
  merging_pos (set_direction kReverse (FindLargest it)) (match i with O => length merged | S i' => i' end).
Proof.
  intros Hk Hi. pose proof (FindLargest_spec i _ Hk Hi) as H. unfold FindLargest, merging_pos. cbn.
  destruct (fst <$> largest_of 0 (children_ it)) as [j|]; [right|left; subst i; split_and!; [done|done|by eexists]].
  destruct H as (i' & -> & Hh). exists j. split_and!; [done|done|]. eapply kids_ext; [|apply Hk]. intros j' es' Hj'. cbn.
  destruct Hh as (es & p & e & Hj & Hp & He). destruct (decide (j' = j)) as [->|Hne].
  - rewrite Hj in Hj'. injection Hj' as <-. unfold before. rewrite (place_S_at i' j es p e Hj Hp He). cbn. by rewrite (place_at i' j es p e).
  - unfold before. by rewrite (place_S_other i' j es j' es' p e).
Qed.

Lemma on_children_spec f g op it w : kids f (children_ it) -> inv w ->
  (forall j es c w, lists !! j = Some es -> wrapper_at (at_any inv es) c (f j es) -> inv w ->
    exists c' w', op j c w = Some (c', w') /\ inv w' /\ wrapper_at (at_any inv es) c' (g j es)) ->
  exists cs w', on_children op it w = Some (set_children cs it, w') /\ inv w' /\ kids g cs.
Proof.
  intros Hk Hw Hop. destruct (each_spec f g op _ w Hk Hw Hop) as (cs & w' & E & Hw' & Hk'). exists cs, w'.
  unfold on_children, dbind. by rewrite E.
Qed.

(** Operations of a child. *)
Lemma child_seek es c p t w : wrapper_at (at_any inv es) c p -> inv w -> key_ok t ->
  exists c' w', Wrapper_Seek t c w = Some (c', w') /\ inv w' /\ wrapper_at (at_any inv es) c' (lower_bound t es).
Proof. intros Hc Hw Ht. eapply wrapped_spec; [done|]. intros x Hx. by apply (walk_seek t x p w). Qed.
Lemma child_first es c p w : wrapper_at (at_any inv es) c p -> inv w ->
  exists c' w', Wrapper_SeekToFirst c w = Some (c', w') /\ inv w' /\ wrapper_at (at_any inv es) c' 0%nat.
Proof. intros Hc Hw. eapply wrapped_spec; [done|]. intros x Hx. by apply (walk_first x p w). Qed.
Lemma child_last es c p w : wrapper_at (at_any inv es) c p -> inv w ->
  exists c' w', Wrapper_SeekToLast c w = Some (c', w') /\ inv w' /\ wrapper_at (at_any inv es) c' (pred (length es)).
Proof. intros Hc Hw. eapply wrapped_spec; [done|]. intros x Hx. by apply (walk_last x p w). Qed.
Lemma child_next es c p w : wrapper_at (at_any inv es) c p -> inv w -> (p < length es)%nat ->
  exists c' w', Wrapper_Next c w = Some (c', w') /\ inv w' /\ wrapper_at (at_any inv es) c' (S p).
Proof. intros Hc Hw Hp. eapply wrapped_spec; [done|]. intros x Hx. by apply (walk_next x p w). Qed.
Lemma child_prev es c p w : wrapper_at (at_any inv es) c p -> inv w -> (p < length es)%nat ->
  exists c' w', Wrapper_Prev c w = Some (c', w') /\ inv w' /\ wrapper_at (at_any inv es) c' (back p (length es)).
Proof. intros Hc Hw Hp. eapply wrapped_spec; [done|]. intros x Hx. by apply (walk_prev x p w). Qed.

(** The other children are put behind the key, or before it. *)
Lemma after_key_spec es c p k v w i j j' : wrapper_at (at_any inv es) c p -> inv w -> merged !! i = Some (k, v) -> holder i j ->
  lists !! j' = Some es -> j' <> j ->
  exists c' w', after_key k c w = Some (c', w') /\ inv w' /\ wrapper_at (at_any inv es) c' (place i es).
Proof.
  intros Hc Hw Hi Hh Hj' Hne. pose proof (merged_key_ok i k v Hi) as Hk. destruct (child_seek es c p k w Hc Hw Hk) as (c1 & w1 & E & Hw1 & Hc1).
  unfold place. rewrite Hi. exists c1, w1. unfold after_key, dbind. rewrite E. split; [|done].
  destruct (wrapper_valid inv es (at_any inv es) c1 _ Hc1) as [_ ->]. destruct (bool_decide_reflect (lower_bound k es < length es)%nat) as [Hlt|]; [|done].
  destruct (lookup_lt_is_Some_2 es _ Hlt) as [[k' v'] He]. destruct (wrapper_entry inv es (at_any inv es) c1 _ k' v' Hc1 He) as [-> _]. cbn [andb].
  destruct (Compare k k') eqn:Ec; [exfalso|done|done].
  apply compare_eq in Ec; [subst k'|done|by apply (sorted_entry_ok es (lower_bound k es) k' v' (list_sorted j' es Hj'))].
  destruct (in_merged j' es _ _ Hj' He) as [q Hq]. assert (q = i) as -> by by apply (sorted_entries_key_inj merged q i k v' v merge_sorted).
  apply Hne. apply (holder_unique i); [|done]. by exists es, (lower_bound k es), (k, v').
Qed.
Lemma before_key_spec es c p k v w i : wrapper_at (at_any inv es) c p -> inv w -> merged !! i = Some (k, v) ->
  exists c' w', before_key k c w = Some (c', w') /\ inv w' /\ wrapper_at (at_any inv es) c' (before i es).
Proof.
  intros Hc Hw Hi. pose proof (merged_key_ok i k v Hi) as Hk. destruct (child_seek es c p k w Hc Hw Hk) as (c1 & w1 & E & Hw1 & Hc1).
  unfold before, place. rewrite Hi. unfold before_key, dbind. rewrite E. pose proof (lower_bound_le k es) as Hle.
  destruct (wrapper_valid inv es (at_any inv es) c1 _ Hc1) as [_ ->]. destruct (bool_decide_reflect (lower_bound k es < length es)%nat) as [Hlt|Hge].
  - by apply child_prev.
  - destruct (child_last es c1 _ w1 Hc1 Hw1) as (c2 & w2 & E2 & Hw2 & Hc2). exists c2, w2. split; [done|]. split; [done|].
    assert (back (lower_bound k es) (length es) = pred (length es)) as ->; [|done]. assert (lower_bound k es = length es) as -> by lia. by destruct (length es).
Qed.

(** The current child alone moves. *)
Lemma on_current_spec f g op it j w : kids f (children_ it) -> current_ it = Some j -> inv w ->
  (forall j' es, lists !! j' = Some es -> j' <> j -> f j' es = g j' es) ->
  (forall es c w, lists !! j = Some es -> wrapper_at (at_any inv es) c (f j es) -> inv w ->
    exists c' w', op c w = Some (c', w') /\ inv w' /\ wrapper_at (at_any inv es) c' (g j es)) ->
  exists cs w', on_current op it w = Some (set_children cs it, w') /\ inv w' /\ kids g cs.
Proof.
  intros Hk Hc Hw Hfg Hop. apply (on_children_spec f g); [done|done|]. intros j' es c w0 Hj' Hcw Hw0. rewrite Hc.
  destruct (bool_decide_reflect (Some j' = Some j)) as [[= ->]|Hne]; [by apply Hop|].
  exists c, w0. split; [done|]. split; [done|]. rewrite <- Hfg; [done|done|congruence].
Qed.

(** Turning around: the children are where the new direction wants them. *)
Lemma on_others_spec f g op it j w : kids f (children_ it) -> current_ it = Some j -> inv w ->
  (forall es, lists !! j = Some es -> f j es = g j es) ->
  (forall j' es c w, lists !! j' = Some es -> j' <> j -> wrapper_at (at_any inv es) c (f j' es) -> inv w ->
    exists c' w', op c w = Some (c', w') /\ inv w' /\ wrapper_at (at_any inv es) c' (g j' es)) ->
  exists cs w', on_others op it w = Some (set_children cs it, w') /\ inv w' /\ kids g cs.
Proof.
  intros Hk Hc Hw Hfg Hop. apply (on_children_spec f g); [done|done|]. intros j' es c w0 Hj' Hcw Hw0. rewrite Hc.
  destruct (bool_decide_reflect (Some j' = Some j)) as [[= ->]|Hne].
  - exists c, w0. split; [done|]. split; [done|]. by rewrite <- Hfg.
  - apply Hop with (w := w0); try done. congruence.
Qed.

Lemma turn_forward it i j w : current_ it = Some j -> holder i j -> kids (places (direction_ it) i j) (children_ it) -> inv w ->
  exists it' w', (if bool_decide (direction_ it <> kForward) then
      let! it := on_others (after_key (Merging_key it)) it in dret (set_direction kForward it) else dret it) w = Some (it', w') /\
    inv w' /\ current_ it' = Some j /\ direction_ it' = kForward /\ kids (places kForward i j) (children_ it').
Proof.
  intros Hc Hh Hk Hw. destruct (bool_decide_reflect (direction_ it <> kForward)) as [Hd|Hd].
  - assert (Ed : direction_ it = kReverse) by (destruct (direction_ it); congruence). pose proof Hh as (es & p & [k v] & _ & _ & Hi).
    destruct (current_entry it i j k v Hc Hh Hk Hi) as [-> _].
    destruct (on_others_spec (places (direction_ it) i j) (places kForward i j) (after_key k) it j w) as (cs & w' & E & Hw' & Hk'); try done.
    + intros es' _. by rewrite !places_current.
    + intros j' es' c w0 Hj' Hne Hcw Hw0. by apply (after_key_spec es' c _ k v w0 i j j' Hcw).
    + unfold dbind. rewrite E. by eexists _, w'.
  - exists it, w. assert (Ed : direction_ it = kForward) by (destruct (direction_ it); [done|destruct Hd; done]). by rewrite Ed in Hk.
Qed.
Lemma turn_back it i j w : current_ it = Some j -> holder i j -> kids (places (direction_ it) i j) (children_ it) -> inv w ->
  exists it' w', (if bool_decide (direction_ it <> kReverse) then
      let! it := on_others (before_key (Merging_key it)) it in dret (set_direction kReverse it) else dret it) w = Some (it', w') /\
    inv w' /\ current_ it' = Some j /\ direction_ it' = kReverse /\ kids (places kReverse i j) (children_ it').
Proof.
  intros Hc Hh Hk Hw. destruct (bool_decide_reflect (direction_ it <> kReverse)) as [Hd|Hd].
  - assert (Ed : direction_ it = kForward) by (destruct (direction_ it); congruence). pose proof Hh as (es & p & [k v] & _ & _ & Hi).
    destruct (current_entry it i j k v Hc Hh Hk Hi) as [-> _].
    destruct (on_others_spec (places (direction_ it) i j) (places kReverse i j) (before_key k) it j w) as (cs & w' & E & Hw' & Hk'); try done.
    + intros es' _. by rewrite !places_current.
    + intros j' es' c w0 Hj' Hne Hcw Hw0. cbn. rewrite decide_False by done. by apply (before_key_spec es' c _ k v w0 i Hcw).
    + unfold dbind. rewrite E. by eexists _, w'.
  - exists it, w. assert (Ed : direction_ it = kReverse) by (destruct (direction_ it); [destruct Hd; done|done]). by rewrite Ed in Hk.
Qed.

Lemma set_direction_same d (it : MergingIterator I) : direction_ it = d -> set_direction d it = it.
Proof. destruct it. cbn. by intros ->. Qed.

Lemma Merging_Next_spec it i w : merging_pos it i -> inv w -> (i < length merged)%nat ->
  exists it' w', Merging_Next it w = Some (it', w') /\ inv w' /\ merging_pos it' (S i).
Proof.
  intros [(-> & _)|(j & Hc & Hh & Hk)] Hw Hi; [lia|]. unfold Merging_Next, Merging_Valid. rewrite Hc. cbn [negb].
  destruct (turn_forward it i j w Hc Hh Hk Hw) as (it1 & w1 & E1 & Hw1 & Hc1 & Hd1 & Hk1). unfold dbind at 1. rewrite E1.
  pose proof Hh as (es & p & e & Hj & Hp & He).
  destruct (on_current_spec (places kForward i j) (fun _ => place (S i)) Wrapper_Next it1 j w1) as (cs & w2 & E2 & Hw2 & Hk2); try done.
  - intros j' es' Hj' Hne. cbn. by rewrite (place_S_other i j es j' es' p e).
  - intros es' c w0 Hj' Hcw Hw0. rewrite Hj in Hj'. injection Hj' as <-. cbn [places] in Hcw. rewrite (place_S_at i j es p e) by done.
    rewrite (place_at i j es p e) in Hcw by done. apply child_next; [done|done|by apply lookup_lt_Some in Hp].
  - unfold dbind. rewrite E2. eexists _, w2. split; [done|]. split; [done|].
    rewrite <- (set_direction_same kForward (FindSmallest _)) by done. apply FindSmallest_pos; [done|lia].
Qed.
Lemma Merging_Prev_spec it i w : merging_pos it i -> inv w -> (i < length merged)%nat ->
  exists it' w', Merging_Prev it w = Some (it', w') /\ inv w' /\ merging_pos it' (match i with O => length merged | S i => i end).
Proof.
  intros [(-> & _)|(j & Hc & Hh & Hk)] Hw Hi; [lia|]. unfold Merging_Prev, Merging_Valid. rewrite Hc. cbn [negb].
  destruct (turn_back it i j w Hc Hh Hk Hw) as (it1 & w1 & E1 & Hw1 & Hc1 & Hd1 & Hk1). unfold dbind at 1. rewrite E1.
  pose proof Hh as (es & p & e & Hj & Hp & He).
  destruct (on_current_spec (places kReverse i j) (fun _ => before i) Wrapper_Prev it1 j w1) as (cs & w2 & E2 & Hw2 & Hk2); try done.
  - intros j' es' Hj' Hne. cbn. by rewrite decide_False.
  - intros es' c w0 Hj' Hcw Hw0. rewrite Hj in Hj'. injection Hj' as <-. rewrite places_current in Hcw. unfold before.
    rewrite (place_at i j es p e) in * by done. apply child_prev; [done|done|by apply lookup_lt_Some in Hp].
  - unfold dbind. rewrite E2. eexists _, w2. split; [done|]. split; [done|].
    rewrite <- (set_direction_same kReverse (FindLargest _)) by done. apply FindLargest_pos; [done|lia].
Qed.

Lemma status_of_ok f cs s : kids f cs -> ok s = true -> ok (status_of cs s) = true.
Proof.
  intros Hk. assert (H : Forall (fun c => ok (Wrapper_status c) = true) cs).
  { apply Forall_lookup. intros j c Hc. destruct (kid_list f cs j c Hk Hc) as [es Hj]. apply (wrapper_ok inv es (at_any inv es) c (f j es)). by apply Hk. }
  clear Hk. revert s. induction H as [|c cs Hc _ IH]; intros s Hs; [done|]. cbn. rewrite Hc. cbn [negb]. by apply IH.
Qed.

#[export] Instance merging_walks : Walks inv merged merging_pos.
Proof.
  split.
  - intros it i [(-> & Hc & _)|(j & Hc & Hh & _)]; cbn; unfold Merging_Valid; rewrite Hc.
    + split; [done|]. by rewrite bool_decide_false by lia.
    + pose proof (holder_lt i j Hh). split; [lia|]. by rewrite bool_decide_true.
  - intros it i k v [(-> & _ & _)|(j & Hc & Hh & Hk)] Hi; [apply lookup_lt_Some in Hi; lia|]. by apply (current_entry it i j k v).
  - intros it i Hp. destruct (merging_pos_kids it i Hp) as [f Hk]. by apply (status_of_ok f).
  - intros it i w Hp Hw. destruct (merging_pos_kids it i Hp) as [f Hk]. cbn. unfold Merging_SeekToFirst.
    destruct (on_children_spec f (fun _ => place 0) (fun _ => Wrapper_SeekToFirst) it w Hk Hw) as (cs & w' & E & Hw' & Hk').
    { intros j es c w0 Hj Hc Hw0. rewrite (place_0 j es Hj). by apply (child_first es c (f j es)). }
    unfold dbind. rewrite E. eexists _, w'. split; [done|]. split; [done|]. apply FindSmallest_pos; [done|lia].
  - intros it i w Hp Hw. destruct (merging_pos_kids it i Hp) as [f Hk]. cbn. unfold Merging_SeekToLast.
    destruct (on_children_spec f (fun _ => before (length merged)) (fun _ => Wrapper_SeekToLast) it w Hk Hw) as (cs & w' & E & Hw' & Hk').
    { intros j es c w0 Hj Hc Hw0. unfold before. rewrite (place_end j es) by done. assert (back (length es) (length es) = pred (length es)) as -> by by destruct (length es).
      by apply (child_last es c (f j es)). }
    unfold dbind. rewrite E. eexists _, w'. split; [done|]. split; [done|].
    assert (Hpred : pred (length merged) = match length merged with O => length merged | S i' => i' end) by by destruct (length merged). rewrite Hpred.
    apply FindLargest_pos; [done|lia].
  - intros target it i w Hp Hw Ht. destruct (merging_pos_kids it i Hp) as [f Hk]. cbn. unfold Merging_Seek.
    destruct (on_children_spec f (fun _ => place (lower_bound target merged)) (fun _ => Wrapper_Seek target) it w Hk Hw) as (cs & w' & E & Hw' & Hk').
    { intros j es c w0 Hj Hc Hw0. rewrite (place_seek target j es) by done. by apply (child_seek es c (f j es)). }
    unfold dbind. rewrite E. eexists _, w'. split; [done|]. split; [done|]. apply FindSmallest_pos; [done|apply lower_bound_le].
  - intros it i w Hp Hw Hi. by apply Merging_Next_spec.
  - intros it i w Hp Hw Hi. by apply Merging_Prev_spec.
Qed.

(** ** What [NewMergingIterator] returns *)

Lemma NewMerging_pos (children : list I) : Forall2 (fun es c => exists p, at_any inv es c p) lists children ->
  merging_pos (NewMerging children) (length merged).
Proof.
  intros H. left. split; [done|]. split; [done|].
  assert (Hex : exists ps : list nat, length ps = length lists /\ forall j es c p, lists !! j = Some es -> children !! j = Some c -> ps !! j = Some p -> at_any inv es c p).
  { clear HM. induction H as [|es c l cs [p Hp] _ (ps & Hl & Hps)]; [by exists []|]. exists (p :: ps). split; [cbn; by f_equal|].
    intros [|j] es' c' p'; cbn; [by intros [= <-] [= <-] [= <-]|apply Hps]. }
  destruct Hex as (ps & Hl & Hps). exists (fun j _ => default 0%nat (ps !! j)). split; [cbn; rewrite length_map; symmetry; by apply (Forall2_length _ _ _ H)|].
  intros j es c Hj Hc. cbn in Hc. rewrite list_lookup_fmap in Hc. destruct (children !! j) as [c0|] eqn:Ec; [|done]. injection Hc as <-.
  destruct (lookup_lt_is_Some_2 ps j) as [p Hp]; [rewrite Hl; by apply lookup_lt_Some in Hj|]. rewrite Hp. by apply Update_at, (Hps j).
Qed.

(** One list is the merged sequence itself. *)
Lemma merged_only es : lists = [es] -> merged = es.
Proof.
  intros El. pose proof merge_all as Hp. rewrite El in Hp. cbn in Hp. rewrite app_nil_r in Hp.
  apply (StronglySorted_unique_strong (fun e e' : list Z * list Z => Compare e.1 e'.1 = Lt)); [|apply sorted_entries_strongly, merge_sorted|apply sorted_entries_strongly, (list_sorted 0); by rewrite El|done].
  intros [k v] [k' v'] H1 H2 H H'. exfalso. pose proof (entry_ok merged merge_sorted k v H1) as [Hk _]. rewrite <- Hp in H2.
  pose proof (entry_ok merged merge_sorted k' v' H2) as [Hk' _]. cbn in *. pose proof (cmp_antisym Compare key_ok k k' Hk Hk') as E. rewrite H, H' in E. discriminate E.
Qed.

Definition merged_pos (it : Merged I) (i : nat) : Prop :=
  match it with
  | NoChildren e => merged = [] /\ ok e = true /\ i = 0%nat
  | OnlyChild c => at_any inv merged c i
  | ManyChildren m => merging_pos m i
  end.

(** An operation through the virtual table does what the child's, or the merging iterator's, does. *)
Lemma dispatch_spec (op : forall J, Iterator W J -> J -> D W J) it i j w : merged_pos it i ->
  (forall e, it = NoChildren e -> merged = [] -> op _ (EmptyIterator W) e w = Some (e, w) /\ inv w /\ j = 0%nat) ->
  (forall J (IJ : Iterator W J) (pos : J -> nat -> Prop) x, Walks inv merged pos -> pos x i -> exists x' w', op J IJ x w = Some (x', w') /\ inv w' /\ pos x' j) ->
  exists it' w', dispatch op it w = Some (it', w') /\ inv w' /\ merged_pos it' j.
Proof.
  intros Hp Hno Hop. destruct it as [e|c|m]; cbn in Hp.
  - destruct Hp as (Hm & He & ->). destruct (Hno e eq_refl Hm) as (E & Hw & ->). exists (NoChildren e), w. cbn. unfold dbind. by rewrite E.
  - destruct (Hop I IT (at_any inv merged) c (walks_any inv merged) Hp) as (c' & w' & E & Hw & Hp'). exists (OnlyChild c'), w'. cbn. unfold dbind. by rewrite E.
  - destruct (Hop _ MergingIter merging_pos m merging_walks Hp) as (m' & w' & E & Hw & Hp'). exists (ManyChildren m'), w'. cbn. unfold dbind. by rewrite E.
Qed.

#[export] Instance merged_walks : Walks inv merged merged_pos.
Proof.
  split.
  - intros [e|c|m] i Hp; cbn in Hp; [|by apply (walk_valid (inv := inv) (pos := at_any inv merged) c i Hp)|by apply (walk_valid (inv := inv) (pos := merging_pos) m i Hp)].
    destruct Hp as (Em & _ & ->). rewrite Em. done.
  - intros [e|c|m] i k v Hp Hi; cbn in Hp; [|by apply (walk_entry (inv := inv) (pos := at_any inv merged) c i k v)|by apply (walk_entry (inv := inv) (pos := merging_pos) m i k v)].
    destruct Hp as (Em & _ & ->). by rewrite Em in Hi.
  - intros [e|c|m] i Hp; cbn in Hp; [|by apply (walk_status (inv := inv) (pos := at_any inv merged) c i)|by apply (walk_status (inv := inv) (pos := merging_pos) m i)].
    by destruct Hp as (_ & ? & _).
  - intros it i w Hp Hw. apply (dispatch_spec _ it i); [done|by intros e _ ->|]. intros J IJ pos x HJ Hx. by apply (walk_first x i w).
  - intros it i w Hp Hw. apply (dispatch_spec _ it i); [done|by intros e _ ->|]. intros J IJ pos x HJ Hx. by apply (walk_last x i w).
  - intros target it i w Hp Hw Ht. apply (dispatch_spec _ it i); [done|by intros e _ ->|]. intros J IJ pos x HJ Hx. by apply (walk_seek target x i w).
  - intros it i w Hp Hw Hi. apply (dispatch_spec _ it i); [done|intros e _ E; by rewrite E in Hi; cbn in Hi; lia|]. intros J IJ pos x HJ Hx. by apply (walk_next x i w).
  - intros it i w Hp Hw Hi. apply (dispatch_spec _ it i); [done|intros e _ E; by rewrite E in Hi; cbn in Hi; lia|]. intros J IJ pos x HJ Hx. by apply (walk_prev x i w).
Qed.
End merged_sequence.

(** C8: The merging iterator, whatever the number of its children, walks along the entries of all of
    them in order: when each child walks along its own and no key is there twice, from any position
    it goes to the first, the last, the next, the one before, also after it has gone the other way,
    and to the first entry that is not before a target. *)
Theorem merging_iterator {C : Comparator} {CL : ComparatorLaws C} {W I : Type} {IT : Iterator W I} (inv : W -> Prop) lists merged (children : list I) :
  Merges lists merged -> Forall2 (fun es c => exists p, at_any inv es c p) lists children ->
  exists i, at_any (IT := MergedIter) inv merged (NewMergingIterator children) i.
Proof.
  intros HM H. destruct children as [|c [|c' children]].
  - exists 0%nat, (merged_pos inv lists merged). split; [apply merged_walks; exact _|]. apply Forall2_nil_inv_r in H. subst lists.
    split; [|done]. apply Permutation_nil_r. destruct HM as [_ Hall _]. exact Hall.
  - apply Forall2_cons_inv_r in H as (es & l & [p Hp] & H & El). apply Forall2_nil_inv_r in H. subst l lists.
    pose proof (merged_only [es] merged es eq_refl) as E. exists p, (merged_pos inv [es] merged). split; [apply merged_walks; exact _|]. cbn. by rewrite E.
  - exists (length merged), (merged_pos inv lists merged). split; [apply merged_walks; exact _|]. by apply NewMerging_pos.
Qed.

Module MergingExample.
Abbreviation C := BytewiseComparator.
(** Two blocks, with keys of the one between those of the other. *)
Definition left_entries : list (list Z * list Z) := [([1; 1], [9]); ([1; 2], []); ([7], [7])].
Definition right_entries : list (list Z * list Z) := [([1; 1; 0], [4]); ([8], [5])].
Definition all_entries : list (list Z * list Z) := [([1; 1], [9]); ([1; 1; 0], [4]); ([1; 2], []); ([7], [7]); ([8], [5])].

Lemma both_sorted : sorted_entries left_entries /\ sorted_entries right_entries /\ sorted_entries all_entries.
Proof. split_and!; apply sorted_entries_strongly; (split; [apply (bool_decide_unpack _); vm_compute; exact I|repeat constructor]). Qed.
#[export] Instance all_merged : Merges [left_entries; right_entries] all_entries.
Proof.
  destruct both_sorted as (Hl & Hr & Ha). split; [done| |by rewrite Forall_cons, Forall_singleton]. cbn. unfold all_entries, left_entries, right_entries.
  apply (bool_decide_unpack _). vm_compute. exact I.
Qed.

(** The iterators over the blocks that a builder makes of them, in a world of no files. *)
Definition block_iter (es : list (list Z * list Z)) : Iter := match NewIterator (NewBlock (fst (Finish (add_all 2 es NewBlockBuilder)))) with inr it => it | inl _ => NewIter [] 0 0 end.
#[export] Instance Blocks : Iterator unit Iter := BlockIter unit.
Definition both : Merged Iter := NewMergingIterator [block_iter left_entries; block_iter right_entries].

Inductive move := First | Last | To (target : list Z) | Forth | Back.
Definition make (m : move) : Merged Iter -> D unit (Merged Iter) :=
  match m with First => SeekToFirst | Last => SeekToLast | To t => Seek t | Forth => Next | Back => Prev end.
(** The keys on the way; [[]] when it is not valid. *)
Fixpoint tour (moves : list move) (it : Merged Iter) : option (list (list Z)) :=
  match moves with
  | [] => Some []
  | m :: moves => ' (it, _) ← make m it tt; keys ← tour moves it; Some ((if Valid it then iter_key it else []) :: keys)
  end.

Example forward_and_back : tour [First; Forth; Forth; Back; Back; Back; Last; Back; Back; Forth; Forth; Forth; To [1; 2]; Back; Forth] both =
  Some [[1; 1]; [1; 1; 0]; [1; 2]; [1; 1; 0]; [1; 1]; []; [8]; [7]; [1; 2]; [7]; [8]; []; [1; 2]; [1; 1; 0]; [1; 2]].
Proof. vm_compute. reflexivity. Qed.

Lemma block_iter_at es : sorted_entries es -> CurrentSizeEstimate (add_all 2 es NewBlockBuilder) < 2 ^ 32 ->
  exists p, at_any (IT := Blocks) (fun _ => True) es (block_iter es) p.
Proof.
  intros Hs Hlt. destruct (add_all_block 2 es ltac:(lia) Hlt) as [Hb _]. destruct (block_of_walks es _ Hs Hb) as (it & pos & E & Hp & HW).
  exists (length es), pos. split; [apply HW|]. unfold block_iter. by rewrite E.
Qed.
Lemma merging_iterator_witness : exists i, at_any (IT := MergedIter) (fun _ : unit => True) all_entries both i.
Proof.
  destruct both_sorted as (Hl & Hr & _). apply (merging_iterator (fun _ => True) [left_entries; right_entries] all_entries); [exact all_merged|].
  constructor; [|constructor; [|constructor]]; (apply block_iter_at; [done|vm_compute; reflexivity]).
Defined.
End MergingExample.
