(* ===== verification/DbIter.v ===== *)
(** The iterator of the database (leveldb-library/db/db_iter.cc): what the client sees of the internal
    entries, at a sequence number. *)
From stdpp Require Import list.
From Stdlib Require Import String.
From S2P Require Import Prelude Comparator Coding Status Random DbFormat Iterator TwoLevel Merger.

Definition kReadBytesPeriod : Z := 1048576.

Section db_iter.
Context (user_comparator_ : Comparator) {W I : Type} {IT : Iterator W I}.
(** [db_->RecordReadSample], which may start a compaction; the sequence number of the snapshot; how
    many internal entries a call may pass. *)
Context (RecordReadSample : list Z -> D W unit) (sequence_ : Z) (patience : nat).

(** [DBIter] has an enumeration of directions of its own, with the same names. *)
Record DBIter := {
  internal_iter_ : I;
  db_status_ : Status;
  saved_key_ : list Z;
  saved_value_ : list Z;
  db_direction_ : Direction;
  db_valid_ : bool;
  rnd_ : Z;
  bytes_until_read_sampling_ : Z
}.
Implicit Types it : DBIter.
Definition set_internal (i : I) it : DBIter :=
  {| internal_iter_ := i; db_status_ := db_status_ it; saved_key_ := saved_key_ it; saved_value_ := saved_value_ it;
     db_direction_ := db_direction_ it; db_valid_ := db_valid_ it; rnd_ := rnd_ it; bytes_until_read_sampling_ := bytes_until_read_sampling_ it |}.
Definition set_db_status (s : Status) it : DBIter :=
  {| internal_iter_ := internal_iter_ it; db_status_ := s; saved_key_ := saved_key_ it; saved_value_ := saved_value_ it;
     db_direction_ := db_direction_ it; db_valid_ := db_valid_ it; rnd_ := rnd_ it; bytes_until_read_sampling_ := bytes_until_read_sampling_ it |}.
Definition set_saved (k v : list Z) it : DBIter :=
  {| internal_iter_ := internal_iter_ it; db_status_ := db_status_ it; saved_key_ := k; saved_value_ := v;
     db_direction_ := db_direction_ it; db_valid_ := db_valid_ it; rnd_ := rnd_ it; bytes_until_read_sampling_ := bytes_until_read_sampling_ it |}.
Definition set_db_direction (d : Direction) it : DBIter :=
  {| internal_iter_ := internal_iter_ it; db_status_ := db_status_ it; saved_key_ := saved_key_ it; saved_value_ := saved_value_ it;
     db_direction_ := d; db_valid_ := db_valid_ it; rnd_ := rnd_ it; bytes_until_read_sampling_ := bytes_until_read_sampling_ it |}.
Definition set_db_valid (b : bool) it : DBIter :=
  {| internal_iter_ := internal_iter_ it; db_status_ := db_status_ it; saved_key_ := saved_key_ it; saved_value_ := saved_value_ it;
     db_direction_ := db_direction_ it; db_valid_ := b; rnd_ := rnd_ it; bytes_until_read_sampling_ := bytes_until_read_sampling_ it |}.
Definition set_sampling (rnd bytes : Z) it : DBIter :=
  {| internal_iter_ := internal_iter_ it; db_status_ := db_status_ it; saved_key_ := saved_key_ it; saved_value_ := saved_value_ it;
     db_direction_ := db_direction_ it; db_valid_ := db_valid_ it; rnd_ := rnd; bytes_until_read_sampling_ := bytes |}.

Definition SaveKey (k : list Z) it : DBIter := set_saved k (saved_value_ it) it.
Definition ClearSavedKey it : DBIter := set_saved [] (saved_value_ it) it.
(** Whether its memory is given back as well is not modelled. *)
Definition ClearSavedValue it : DBIter := set_saved (saved_key_ it) [] it.

Definition RandomCompactionPeriod (rnd : Z) : Z * Z := Uniform (2 * kReadBytesPeriod) rnd.
Definition NewDBIterator (iter : I) (seed : Z) : DBIter :=
  let rnd := NewRandom seed in
  let (period, rnd) := RandomCompactionPeriod rnd in
  {| internal_iter_ := iter; db_status_ := Status_OK; saved_key_ := []; saved_value_ := []; db_direction_ := kForward;
     db_valid_ := false; rnd_ := rnd; bytes_until_read_sampling_ := period |}.

(** An operation of the internal iterator. *)
Definition on_internal (op : I -> D W I) it : D W DBIter := let! i := op (internal_iter_ it) in dret (set_internal i it).
Definition internal_valid it : bool := Valid (internal_iter_ it).
Definition internal_user_key it : list Z := ExtractUserKey (iter_key (internal_iter_ it)).

(** The loop of [ParseKey]; no two periods in a row are zero. *)
Definition sampling_fuel (bytes_read : Z) : nat := (2 * Z.to_nat bytes_read + 2)%nat.
Fixpoint sample (fuel : nat) (k : list Z) (bytes_read : Z) it : D W DBIter :=
  if bytes_until_read_sampling_ it <? bytes_read then
    match fuel with
    | O => running
    | S fuel =>
        let (period, rnd) := RandomCompactionPeriod (rnd_ it) in
        let! _ := RecordReadSample k in
        sample fuel k bytes_read (set_sampling rnd (u64 (bytes_until_read_sampling_ it + period)) it)
    end
  else dret it.
Definition ParseKey it : D W (option ParsedInternalKey * DBIter) :=
  let k := iter_key (internal_iter_ it) in
  let! value := dfrom (iter_value (internal_iter_ it)) in
  let bytes_read := u64 (len k + len value) in
  let! it := sample (sampling_fuel bytes_read) k bytes_read it in
  let it := set_sampling (rnd_ it) (u64 (bytes_until_read_sampling_ it - bytes_read)) it in
  match ParseInternalKey k with
  | None => dret (None, set_db_status (Status_Corruption (bytes_of "corrupted internal key in DBIter") []) it)
  | Some ikey => dret (Some ikey, it)
  end.

Definition visible (ikey : option ParsedInternalKey) : option ParsedInternalKey :=
  match ikey with Some p => if sequence p <=? sequence_ then Some p else None | None => None end.

(** [skip] is always [saved_key_]. *)
Fixpoint FindNextUserEntry (fuel : nat) (skipping : bool) it : D W DBIter :=
  match fuel with
  | O => running
  | S fuel =>
      let next skipping it :=
        let! it := on_internal Next it in
        if internal_valid it then FindNextUserEntry fuel skipping it
        else dret (set_db_valid false (ClearSavedKey it)) in
      let! ' (ikey, it) := ParseKey it in
      match visible ikey with
      | Some p =>
          if type_ p =? kTypeDeletion then next true (SaveKey (user_key p) it)
          else if skipping && (match Compare (user_key p) (saved_key_ it) with Gt => false | _ => true end) then next skipping it
          else dret (ClearSavedKey (set_db_valid true it))
      | None => next skipping it
      end
  end.

(** The loop of [FindPrevUserEntry], with the type of the last visible entry it has passed. *)
Fixpoint prev_entries (fuel : nat) (value_type : Z) it : D W (Z * DBIter) :=
  match fuel with
  | O => running
  | S fuel =>
      let prev value_type it :=
        let! it := on_internal Prev it in
        if internal_valid it then prev_entries fuel value_type it else dret (value_type, it) in
      let! ' (ikey, it) := ParseKey it in
      match visible ikey with
      | Some p =>
          if negb (value_type =? kTypeDeletion) && (match Compare (user_key p) (saved_key_ it) with Lt => true | _ => false end)
          then dret (value_type, it)
          else
            let value_type := type_ p in
            if value_type =? kTypeDeletion then prev value_type (ClearSavedValue (ClearSavedKey it))
            else
              let! raw_value := dfrom (iter_value (internal_iter_ it)) in
              prev value_type (set_saved (internal_user_key it) raw_value it)
      | None => prev value_type it
      end
  end.
Definition FindPrevUserEntry it : D W DBIter :=
  let! ' (value_type, it) := (if internal_valid it then prev_entries patience kTypeDeletion it else dret (kTypeDeletion, it)) in
  if value_type =? kTypeDeletion then dret (set_db_direction kForward (ClearSavedValue (ClearSavedKey (set_db_valid false it))))
  else dret (set_db_valid true it).

(** [Next] and [Prev] may be called only when it is valid. *)
Definition DBIter_Next it : D W DBIter :=
  match db_direction_ it with
  | kReverse =>
      let it := set_db_direction kForward it in
      let! it := (if negb (internal_valid it) then on_internal SeekToFirst it else on_internal Next it) in
      if negb (internal_valid it) then dret (ClearSavedKey (set_db_valid false it)) else FindNextUserEntry patience true it
  | kForward => FindNextUserEntry patience true (SaveKey (internal_user_key it) it)
  end.

(** Back to the entries before those of the saved key; [false] when there are none. *)
Fixpoint before_saved (fuel : nat) it : D W (bool * DBIter) :=
  match fuel with
  | O => running
  | S fuel =>
      let! it := on_internal Prev it in
      if negb (internal_valid it) then dret (false, it)
      else match Compare (internal_user_key it) (saved_key_ it) with Lt => dret (true, it) | _ => before_saved fuel it end
  end.
Definition DBIter_Prev it : D W DBIter :=
  match db_direction_ it with
  | kForward =>
      let! ' (found, it) := before_saved patience (SaveKey (internal_user_key it) it) in
      if found then FindPrevUserEntry (set_db_direction kReverse it)
      else dret (ClearSavedValue (ClearSavedKey (set_db_valid false it)))
  | kReverse => FindPrevUserEntry it
  end.

Definition DBIter_Seek (target : list Z) it : D W DBIter :=
  let it := SaveKey (AppendInternalKey [] {| user_key := target; sequence := sequence_; type_ := kValueTypeForSeek |})
    (ClearSavedKey (ClearSavedValue (set_db_direction kForward it))) in
  let! it := on_internal (Seek (saved_key_ it)) it in
  if internal_valid it then FindNextUserEntry patience false it else dret (set_db_valid false it).
Definition DBIter_SeekToFirst it : D W DBIter :=
  let it := ClearSavedValue (set_db_direction kForward it) in
  let! it := on_internal SeekToFirst it in
  if internal_valid it then FindNextUserEntry patience false it else dret (set_db_valid false it).
Definition DBIter_SeekToLast it : D W DBIter :=
  let it := ClearSavedValue (set_db_direction kReverse it) in
  let! it := on_internal SeekToLast it in
  FindPrevUserEntry it.

Definition DBIter_key it : list Z := match db_direction_ it with kForward => internal_user_key it | kReverse => saved_key_ it end.
Definition DBIter_value it : option (list Z) :=
  match db_direction_ it with kForward => iter_value (internal_iter_ it) | kReverse => Some (saved_value_ it) end.
Definition DBIter_status it : Status := if ok (db_status_ it) then iter_status (internal_iter_ it) else db_status_ it.

#[export] Instance DBIterator : Iterator W DBIter := {
  Valid := db_valid_;
  iter_key := DBIter_key;
  iter_value := DBIter_value;
  iter_status := DBIter_status;
  SeekToFirst := DBIter_SeekToFirst;
  SeekToLast := DBIter_SeekToLast;
  Seek := DBIter_Seek;
  Next := DBIter_Next;
  Prev := DBIter_Prev
}.
End db_iter.
Arguments DBIter I : clear implicits.
