(* ===== verification/DbIterProps.v ===== *)
(** The iterator of the database walks along what a client may see at a sequence number: the keys whose
    newest update by then is a value, each once, in the order of the client's comparator. *)
From stdpp Require Import list sorting.
From S2P Require Import Prelude Comparator Coding Status Random DbFormat Iterator Block BlockProps TwoLevel Merger MemTableProps DbIter.

(** ** What a client sees *)

Section view.
Context (s : Z).
Implicit Types (e : entry) (es before : list entry) (u : list Z).

Definition live e : bool := e_seq e <=? s.
(** An entry shows behind others: a value in time, and no update of its key in time before it. *)
Definition shows before e : bool :=
  live e && (e_type e =? kTypeValue) && forallb (fun e' => negb (live e' && bool_decide (e_key e' = e_key e))) before.
Fixpoint view_from before es : list (list Z * list Z) :=
  match es with
  | [] => []
  | e :: es => (if shows before e then [(e_key e, e_value e)] else []) ++ view_from (before ++ [e]) es
  end.
Definition user_view es : list (list Z * list Z) := view_from [] es.

Lemma view_from_app before es es' : view_from before (es ++ es') = view_from before es ++ view_from (before ++ es) es'.
Proof.
  revert before. induction es as [|e es IH]; intros before; cbn; [by rewrite app_nil_r|]. by rewrite IH, <- !app_assoc.
Qed.

Lemma shows_iff before e : shows before e = true <->
  live e = true /\ e_type e = kTypeValue /\ forall e', e' ∈ before -> live e' = true -> e_key e' <> e_key e.
Proof.
  unfold shows. rewrite !andb_true_iff, Z.eqb_eq, forallb_forall. split.
  - intros [[Hl Ht] H]. split_and!; [done|done|]. intros e' Hin Hl' Hk. specialize (H e' (proj1 (list_elem_of_In _ _) Hin)).
    rewrite Hl', bool_decide_true in H by done. done.
  - intros (Hl & Ht & H). split; [done|]. intros e' Hin. apply list_elem_of_In in Hin. destruct (live e') eqn:El; [|done].
    rewrite bool_decide_false; [done|]. by apply H.
Qed.

(** How many entries show among the first [b]. *)
Context (es : list entry).
Abbreviation n := (length es).
Definition rank (b : nat) : nat := length (user_view (take b es)).
Definition shows_at (p : nat) e : Prop := es !! p = Some e /\ shows (take p es) e = true.

Lemma rank_all b : (n <= b)%nat -> rank b = length (user_view es).
Proof. intros H. unfold rank. by rewrite take_ge. Qed.
Lemma rank_0 : rank 0 = 0%nat.
Proof. done. Qed.
Lemma view_S b e : es !! b = Some e -> user_view (take (S b) es) = user_view (take b es) ++ (if shows (take b es) e then [(e_key e, e_value e)] else []).
Proof. intros H. rewrite (take_S_r es b e H). unfold user_view. rewrite view_from_app. cbn. by rewrite app_nil_r. Qed.
Lemma rank_S b e : es !! b = Some e -> rank (S b) = (rank b + if shows (take b es) e then 1 else 0)%nat.
Proof. intros H. unfold rank. rewrite (view_S b e H), length_app. by destruct (shows _ e). Qed.
Lemma rank_mono b c : (b <= c)%nat -> (rank b <= rank c)%nat.
Proof.
  induction 1 as [|c _ IH]; [done|]. destruct (es !! c) as [e|] eqn:E; [rewrite (rank_S c e E); lia|].
  apply lookup_ge_None in E. by rewrite (rank_all (S c)), <- (rank_all c) by lia.
Qed.
Lemma rank_le b : (rank b <= length (user_view es))%nat.
Proof. destruct (decide (b <= n)%nat); [rewrite <- (rank_all n) by done; by apply rank_mono|by rewrite rank_all by lia]. Qed.
Lemma rank_shows p e : shows_at p e -> rank (S p) = S (rank p).
Proof. intros [Hp Hs]. rewrite (rank_S p e Hp), Hs. lia. Qed.
Lemma rank_hidden b e : es !! b = Some e -> shows (take b es) e = false -> rank (S b) = rank b.
Proof. intros Hb Hs. rewrite (rank_S b e Hb), Hs. lia. Qed.

Lemma view_at p e : shows_at p e -> user_view es !! rank p = Some (e_key e, e_value e).
Proof.
  intros [Hp Hs]. rewrite <- (take_drop_middle es p e Hp) at 1. unfold user_view at 1. rewrite view_from_app. cbn. rewrite Hs.
  rewrite lookup_app_r by done. unfold rank, user_view. by rewrite Nat.sub_diag.
Qed.
Lemma view_inv i k v : user_view es !! i = Some (k, v) -> exists p e, shows_at p e /\ rank p = i /\ k = e_key e /\ v = e_value e.
Proof.
  assert (H : forall b, (b <= n)%nat -> (i < rank b)%nat -> exists p e, shows_at p e /\ rank p = i).
  { induction b as [|b IH]; [rewrite rank_0; lia|]. intros Hb Hi. destruct (lookup_lt_is_Some_2 es b) as [e He]; [lia|].
    destruct (decide (i < rank b)%nat) as [Hlt|]; [apply IH; [lia|done]|]. destruct (shows (take b es) e) eqn:Es.
    - exists b, e. split; [done|]. rewrite (rank_shows b e) in Hi by done. lia.
    - rewrite (rank_hidden b e) in Hi by done. lia. }
  intros Hi. destruct (H n) as (p & e & Hp & Hr); [done|rewrite rank_all by done; by apply lookup_lt_Some in Hi|].
  exists p, e. split; [done|]. split; [done|]. pose proof (view_at p e Hp) as Hv. rewrite Hr, Hi in Hv. by injection Hv.
Qed.
Lemma rank_lt p q e : shows_at p e -> (p < q)%nat <-> (rank p < rank q)%nat.
Proof.
  intros Hp. split; intros H.
  - pose proof (rank_mono (S p) q H) as Hm. rewrite (rank_shows p e Hp) in Hm. lia.
  - destruct (decide (p < q)%nat) as [|Hge]; [done|]. pose proof (rank_mono q p ltac:(lia)). lia.
Qed.
End view.

(** ** In order *)

(** The internal entries: every update with its internal key, in their order. *)
Definition internal_entries (es : list entry) : list (list Z * list Z) := map (fun e => (ikey e, e_value e)) es.
Record versions_ok (U : Comparator) {UL : ComparatorLaws U} (es : list entry) : Prop := {
  version_ok : Forall (MemTableProps.entry_ok U) es;
  version_sorted : StronglySorted (fun e e' => InternalKeyComparator_Compare U (ikey e) (ikey e') = Lt) es
}.

Section order.
Context (U : Comparator) {UL : ComparatorLaws U} (s : Z) (es : list entry) (V : versions_ok U es).
Implicit Types (e : entry) (u : list Z) (p q : nat).

Lemma version_at p e : es !! p = Some e -> MemTableProps.entry_ok U e.
Proof. intros H. destruct V as [Hok _]. rewrite Forall_lookup in Hok. by apply (Hok p). Qed.
Lemma version_key p e : es !! p = Some e -> key_ok (e_key e).
Proof. intros H. by destruct (version_at p e H) as (? & _). Qed.
Lemma version_ikey p e : es !! p = Some e -> internal_ok U (ikey e).
Proof. intros H. destruct (version_at p e H) as (? & _ & ? & ? & _). by apply ikey_ok. Qed.
Lemma entries_at p e : es !! p = Some e -> internal_entries es !! p = Some (ikey e, e_value e).
Proof. intros H. unfold internal_entries. by rewrite list_lookup_fmap, H. Qed.
Lemma entries_length : length (internal_entries es) = length es.
Proof. apply length_map. Qed.

Lemma version_entries_sorted : sorted_entries (C := InternalKeyComparator U) (internal_entries es).
Proof.
  destruct V as [Hok Hs]. apply sorted_entries_strongly. split.
  - unfold internal_entries. apply Forall_map. apply Forall_lookup. intros p e Hp. cbn. split; [by apply (version_ikey p)|]. by destruct (version_at p e Hp) as (_ & _ & _ & _ & ? & _).
  - unfold internal_entries. clear Hok V. induction Hs as [|e l Hs IH Hall]; [constructor|]. cbn. constructor; [done|by apply Forall_map].
Qed.

(** Of two updates the one before has the smaller key, or the key is the same and it is not older. *)
Lemma version_order p q e e' : es !! p = Some e -> es !! q = Some e' -> (p < q)%nat ->
  Compare (e_key e) (e_key e') = Lt \/ e_key e = e_key e' /\ e_seq e' * 256 + e_type e' < e_seq e * 256 + e_type e /\ e_seq e' <= e_seq e.
Proof.
  intros Hp Hq Hpq. pose proof (entry_lt _ version_entries_sorted p q _ _ _ _ (entries_at p e Hp) (entries_at q e' Hq) Hpq) as H.
  change (InternalKeyComparator_Compare U (ikey e) (ikey e') = Lt) in H.
  destruct (version_at p e Hp) as (Hk & _ & ? & ? & _), (version_at q e' Hq) as (Hk' & _ & ? & ? & _). unfold kTypeValue in *. unfold ikey in H.
  rewrite compare_internal_keys in H by lia. destruct (Compare (e_key e) (e_key e')) eqn:E; [right|by left|done].
  apply compare_eq in E; [|done..]. rewrite Z.compare_lt_iff in H. split; [done|]. lia.
Qed.
Lemma version_le p q e e' : es !! p = Some e -> es !! q = Some e' -> (p <= q)%nat -> Compare (e_key e) (e_key e') <> Gt.
Proof.
  intros Hp Hq Hpq. destruct (decide (p = q)) as [->|Hne].
  - rewrite Hp in Hq. injection Hq as <-. rewrite (cmp_refl Compare key_ok); [done|by apply (version_key q)].
  - destruct (version_order p q e e' Hp Hq ltac:(lia)) as [H|[-> _]]; [congruence|]. rewrite (cmp_refl Compare key_ok); [done|by apply (version_key q)].
Qed.

Lemma shows_at_iff p e : shows_at s es p e <->
  es !! p = Some e /\ live s e = true /\ e_type e = kTypeValue /\ forall q e', (q < p)%nat -> es !! q = Some e' -> live s e' = true -> e_key e' <> e_key e.
Proof.
  unfold shows_at. rewrite shows_iff. split.
  - intros (Hp & Hl & Ht & H). split_and!; try done. intros q e' Hq He'. apply H. apply list_elem_of_lookup. exists q. by rewrite lookup_take_lt by done.
  - intros (Hp & Hl & Ht & H). split_and!; try done. intros e' Hin. apply list_elem_of_lookup in Hin as [q Hq]. apply lookup_take_Some in Hq as [Hq Hlt]. by apply (H q).
Qed.
(** Two entries that show have different keys. *)
Lemma shows_lt p q e e' : shows_at s es p e -> shows_at s es q e' -> (p < q)%nat -> Compare (e_key e) (e_key e') = Lt.
Proof.
  intros (Hp & Hl & _)%shows_at_iff (Hq & _ & _ & H')%shows_at_iff Hpq. destruct (version_order p q e e' Hp Hq Hpq) as [|[Hk _]]; [done|]. by destruct (H' p e Hpq Hp Hl).
Qed.

Lemma view_sorted : sorted_entries (user_view s es).
Proof.
  split.
  - intros k v [i Hi]%list_elem_of_lookup. apply view_inv in Hi as (p & e & [Hp _] & _ & -> & ->). destruct (version_at p e Hp) as (? & _ & _ & _ & ? & _). done.
  - intros i j k v k' v' Hi Hj Hij. apply view_inv in Hi as (p & e & Hp & <- & -> & ->). apply view_inv in Hj as (q & e' & Hq & <- & -> & ->).
    apply (shows_lt p q); [done|done|]. by apply (rank_lt s es p q e).
Qed.

(** What shows is what a lookup answers. *)
Lemma view_newest u v : distinct es -> (u, v) ∈ user_view s es <-> exists e, newest u s es = Some e /\ e_type e = kTypeValue /\ e_value e = v.
Proof.
  intros Hd. split.
  - intros [i Hi]%list_elem_of_lookup. apply view_inv in Hi as (p & e & Hp & _ & -> & ->). exists e. apply shows_at_iff in Hp as (Hp & Hl & Ht & H).
    split; [|done]. apply newest_unique; [done|by apply list_elem_of_lookup_2 in Hp|apply seen_iff; split; [done|by apply Z.leb_le]|].
    intros f [q Hq]%list_elem_of_lookup [Hk Hs]%seen_iff. destruct (Nat.lt_trichotomy q p) as [Hlt|[->|Hgt]].
    + destruct (H q f Hlt Hq); [by apply Z.leb_le|done].
    + rewrite Hp in Hq. injection Hq as <-. lia.
    + destruct (version_order p q e f Hp Hq Hgt) as [E|(_ & _ & ?)]; [|done]. rewrite Hk, (cmp_refl Compare key_ok) in E; [done|by apply (version_key p)].
  - intros (e & Hn & Ht & <-). pose proof (newest_spec u s es) as H. rewrite Hn in H. destruct H as ([p Hp]%list_elem_of_lookup & [<- Hs]%seen_iff & Hmax).
    apply list_elem_of_lookup. exists (rank s es p). apply view_at, shows_at_iff. split_and!; [done|by apply Z.leb_le|done|].
    intros q f Hq Hf Hl Hk. destruct (version_order q p f e Hf Hp Hq) as [E|(_ & Htag & Hle)].
    + rewrite Hk, (cmp_refl Compare key_ok) in E; [done|by apply (version_key p)].
    + assert (e_seq f <= e_seq e) by (apply Hmax; [by apply list_elem_of_lookup_2 in Hf|apply seen_iff; split; [done|by apply Z.leb_le]]).
      assert (f = e) as ->; [|lia]. apply (distinct_eq es); [done|by apply list_elem_of_lookup_2 in Hf|by apply list_elem_of_lookup_2 in Hp|done|lia].
Qed.

(** Where the internal iterator is sent for a target. *)
Lemma seek_compare u p e : es !! p = Some e -> key_ok u -> 0 <= s <= kMaxSequenceNumber ->
  InternalKeyComparator_Compare U (ikey e) (internal u s kValueTypeForSeek) = Lt <-> Compare (e_key e) u = Lt \/ e_key e = u /\ live s e = false.
Proof.
  intros Hp Hu Hs. destruct (version_at p e Hp) as (Hk & _ & ? & ? & _). unfold kValueTypeForSeek, kTypeValue in *. unfold ikey, live.
  rewrite compare_internal_keys by lia. rewrite Z.leb_gt. destruct (Compare (e_key e) u) eqn:E.
  - apply compare_eq in E; [|done..]. rewrite Z.compare_lt_iff. split; [intros; right; split; [done|lia]|intros [?|[_ ?]]; [done|lia]].
  - split; [by left|done].
  - split; [done|]. intros [?|[<- _]]; [done|]. by rewrite (cmp_refl Compare key_ok) in E.
Qed.
Definition seek_place u : nat := lower_bound (C := InternalKeyComparator U) (internal u s kValueTypeForSeek) (internal_entries es).
Lemma seek_place_lt u p e : key_ok u -> 0 <= s <= kMaxSequenceNumber -> es !! p = Some e ->
  (p < seek_place u)%nat <-> Compare (e_key e) u = Lt \/ e_key e = u /\ live s e = false.
Proof.
  intros Hu Hs Hp. rewrite <- (seek_compare u p e Hp Hu Hs). unfold seek_place. symmetry.
  apply (lower_bound_iff (C := InternalKeyComparator U) (internal_entries es) _ p (ikey e) (e_value e)); [apply version_entries_sorted| |by apply entries_at].
  by apply ikey_ok.
Qed.
Lemma seek_rank u : key_ok u -> 0 <= s <= kMaxSequenceNumber -> lower_bound u (user_view s es) = rank s es (seek_place u).
Proof.
  intros Hu Hs. apply lower_bound_unique; [apply rank_le| |].
  - intros i k v Hi Hv. apply view_inv in Hv as (p & e & Hp & Hr & Hk & _). subst i k. apply (rank_lt s es p _ e Hp) in Hi.
    pose proof Hp as [Hat Hsh]. destruct (proj1 (seek_place_lt u p e Hu Hs Hat) Hi) as [?|[_ Hl]]; [done|]. apply shows_iff in Hsh as (Hl' & _). congruence.
  - intros k v Hv H. destruct (view_inv s es _ k v Hv) as (p & e & Hp & Hr & Hk & _). subst k. pose proof Hp as [Hat _].
    assert (Hlt : (p < seek_place u)%nat) by (apply (seek_place_lt u p e Hu Hs Hat); by left). apply (rank_lt s es p _ e Hp) in Hlt. lia.
Qed.
End order.

(** ** Sampling *)

(** Two numbers in a row that are zero modulo the period: the generator has none. *)
Lemma no_two_idle r : good_seed r -> r mod 2097152 = 0 -> Random_Next r mod 2097152 <> 0.
Proof.
  unfold good_seed. intros Hr Hz. apply Z.mod_divide in Hz as [m ->]; [|done].
  assert (H : forallb (fun k => negb (Random_Next (Z.of_nat k * 2097152) mod 2097152 =? 0)) (seq 1 1023) = true) by (vm_compute; reflexivity).
  rewrite forallb_forall in H. assert (Hin : In (Z.to_nat m) (seq 1 1023)) by (apply in_seq; lia).
  specialize (H _ Hin). rewrite Z2Nat.id in H by lia. by apply negb_true_iff, Z.eqb_neq in H.
Qed.

Section iterator.
Context (U : Comparator) {UL : ComparatorLaws U} {W I : Type} {IT : Iterator W I} (inv : W -> Prop).
Context (RecordReadSample : list Z -> D W unit).
Context (Hsample : forall k w, inv w -> exists w', RecordReadSample k w = Some (tt, w') /\ inv w').
Context (s : Z) (patience : nat) (es : list entry).
Context (Hs : 0 <= s <= kMaxSequenceNumber) (V : versions_ok U es) (Hpatience : (length es < patience)%nat).
Abbreviation n := (length es).
Abbreviation view := (user_view s es).
Abbreviation at_internal := (at_any (C := InternalKeyComparator U) inv (internal_entries es)).
Implicit Types (it : DBIter I) (w : W) (e : entry).

Definition sampling it : Prop := good_seed (rnd_ it) /\ 0 <= bytes_until_read_sampling_ it < 2 ^ 64.

Lemma sample_spec fuel k bytes it w : sampling it -> inv w -> 0 <= bytes < 2 ^ 63 ->
  2 * (bytes - bytes_until_read_sampling_ it) + (if rnd_ it mod 2097152 =? 0 then 0 else 1) < Z.of_nat fuel ->
  exists r b w', sample RecordReadSample fuel k bytes it w = Some (set_sampling r b it, w') /\ inv w' /\ good_seed r /\ bytes <= b < 2 ^ 64.
Proof.
  intros [Hr Hu] Hw Hb. revert it w Hr Hu Hw. induction fuel as [|fuel IH]; intros it w Hr Hu Hw Hm; cbn [sample].
  - destruct (Z.ltb_spec (bytes_until_read_sampling_ it) bytes); [destruct (_ =? 0); lia|].
    exists (rnd_ it), (bytes_until_read_sampling_ it), w. split_and!; [by destruct it|done|done|lia|lia].
  - destruct (Z.ltb_spec (bytes_until_read_sampling_ it) bytes) as [Hlt|]; [|exists (rnd_ it), (bytes_until_read_sampling_ it), w; split_and!; [by destruct it|done|done|lia|lia]].
    unfold RandomCompactionPeriod, Uniform. change (u32 (2 * kReadBytesPeriod)) with 2097152. destruct (Random_Next_mod (rnd_ it) Hr) as [_ Hr'].
    pose proof (Z.mod_pos_bound (Random_Next (rnd_ it)) 2097152 ltac:(lia)) as Hp. destruct (Hsample k w Hw) as (w1 & E & Hw1).
    unfold dbind at 1. rewrite E, u64_id by lia.
    destruct (IH (set_sampling (Random_Next (rnd_ it)) (bytes_until_read_sampling_ it + Random_Next (rnd_ it) mod 2097152) it) w1) as (r & b & w' & E' & H'); [done|cbn; lia|done| |].
    + cbn. pose proof (no_two_idle (rnd_ it) Hr) as Hz. destruct (Z.eqb_spec (rnd_ it mod 2097152) 0), (Z.eqb_spec (Random_Next (rnd_ it) mod 2097152) 0); lia.
    + exists r, b, w'. by rewrite E'.
Qed.

(** The internal iterator is at [b], no error so far. *)
Record ready it (b : nat) : Prop := {
  ready_at : at_internal (internal_iter_ it) b;
  ready_status : ok (db_status_ it) = true;
  ready_sampling : sampling it
}.
Definition parsed e : ParsedInternalKey := {| user_key := e_key e; sequence := e_seq e; type_ := e_type e |}.

Lemma ready_valid it b : ready it b -> (b <= n)%nat /\ internal_valid it = bool_decide (b < n)%nat.
Proof.
  intros [Ha _ _]. destruct (walk_valid (C := InternalKeyComparator U) (inv := inv) (entries := internal_entries es) _ _ Ha) as [Hb Hv]. rewrite entries_length in Hb, Hv. done.
Qed.
Lemma ready_entry it b e : ready it b -> es !! b = Some e ->
  iter_key (internal_iter_ it) = ikey e /\ iter_value (internal_iter_ it) = Some (e_value e) /\ internal_user_key it = e_key e.
Proof.
  intros [Ha _ _] He. destruct (walk_entry (C := InternalKeyComparator U) (inv := inv) _ _ _ _ Ha (entries_at es b e He)) as [Hk Hv].
  split; [done|]. split; [done|]. unfold internal_user_key. rewrite Hk. apply user_fixed.
Qed.
(** An operation of the internal iterator takes it elsewhere, and changes nothing else. *)
Lemma ready_moves (op : I -> D W I) it b b' w : ready it b ->
  (forall x, internal_iter_ it = x -> at_internal x b -> exists x' w', op x w = Some (x', w') /\ inv w' /\ at_internal x' b') ->
  exists x w', on_internal op it w = Some (set_internal x it, w') /\ inv w' /\ ready (set_internal x it) b'.
Proof.
  intros [Ha Hst Hsa] Hop. destruct (Hop _ eq_refl Ha) as (x & w' & E & Hw & Hx). exists x, w'. unfold on_internal, dbind. rewrite E. split; [done|]. by split; [|split].
Qed.
Lemma ready_next it b w : ready it b -> inv w -> (b < n)%nat ->
  exists x w', on_internal Next it w = Some (set_internal x it, w') /\ inv w' /\ ready (set_internal x it) (S b).
Proof.
  intros Hr Hw Hb. apply (ready_moves _ it b); [done|]. intros x _ Hx. apply (walk_next (C := InternalKeyComparator U) x b w); [done|done|by rewrite entries_length].
Qed.
(** Before the entries from [c] on: at the one before, or at none. *)
Definition cut (c : nat) : nat := match c with O => n | S c => c end.
Lemma ready_prev it b w : ready it b -> inv w -> (b < n)%nat ->
  exists x w', on_internal Prev it w = Some (set_internal x it, w') /\ inv w' /\ ready (set_internal x it) (cut b).
Proof.
  intros Hr Hw Hb. apply (ready_moves _ it b); [done|]. intros x _ Hx.
  destruct (walk_prev (C := InternalKeyComparator U) x b w Hx Hw) as (x' & w' & E & Hw' & Hx'); [by rewrite entries_length|]. rewrite entries_length in Hx'. by exists x', w'.
Qed.
Lemma ready_first it b w : ready it b -> inv w ->
  exists x w', on_internal SeekToFirst it w = Some (set_internal x it, w') /\ inv w' /\ ready (set_internal x it) 0.
Proof. intros Hr Hw. apply (ready_moves _ it b); [done|]. intros x _ Hx. by apply (walk_first (C := InternalKeyComparator U) x b w). Qed.
Lemma ready_last it b w : ready it b -> inv w ->
  exists x w', on_internal SeekToLast it w = Some (set_internal x it, w') /\ inv w' /\ ready (set_internal x it) (cut n).
Proof.
  intros Hr Hw. apply (ready_moves _ it b); [done|]. intros x _ Hx. destruct (walk_last (C := InternalKeyComparator U) x b w Hx Hw) as (x' & w' & E & Hw' & Hx').
  exists x', w'. split; [done|]. split; [done|]. rewrite entries_length in Hx'.
  assert (cut n = pred n) as -> by (unfold cut; by destruct n). done.
Qed.
Lemma ready_seek u it b w : ready it b -> inv w -> key_ok u ->
  exists x w', on_internal (Seek (internal u s kValueTypeForSeek)) it w = Some (set_internal x it, w') /\ inv w' /\ ready (set_internal x it) (seek_place U s es u).
Proof.
  intros Hr Hw Hu. apply (ready_moves _ it b); [done|]. intros x _ Hx. apply (walk_seek (C := InternalKeyComparator U) _ x b w Hx Hw).
  by apply ikey_ok.
Qed.

(** [ParseKey] returns the entry's key, and only counts bytes. *)
Lemma ParseKey_spec it b e w : ready it b -> es !! b = Some e -> inv w ->
  exists r c w', ParseKey RecordReadSample it w = Some ((Some (parsed e), set_sampling r c it), w') /\ inv w' /\ ready (set_sampling r c it) b.
Proof.
  intros Hr He Hw. destruct (ready_entry it b e Hr He) as (Hk & Hv & _). destruct (version_at U es V b e He) as (Hok & Hlk & Hseq & Hty & Hbv & Hlv).
  unfold ParseKey, dfrom. rewrite Hk, Hv. unfold dbind at 1. cbv beta iota. set (bytes := u64 _).
  assert (Hb : 0 <= bytes < 2 ^ 63).
  { unfold bytes, ikey. rewrite len_internal. pose proof (len_nonneg (e_key e)). pose proof (len_nonneg (e_value e)). rewrite u64_id; lia. }
  pose proof (ready_sampling _ _ Hr) as Hsa. destruct (sample_spec (sampling_fuel bytes) (ikey e) bytes it w Hsa Hw Hb) as (r & c & w' & E & Hw' & Hgr & Hc).
  { destruct Hsa as [_ Hu]. unfold sampling_fuel. destruct (_ =? 0); lia. }
  unfold dbind. rewrite E. cbv beta iota zeta.
  assert (Hp : ParseInternalKey (ikey e) = Some (parsed e)) by (apply (parse_internal (parsed e)); split; [exact (key_bytes _ Hok)|done]). rewrite Hp.
  exists r, (c - bytes), w'. cbn. rewrite u64_id by lia. split; [done|]. split; [done|]. destruct Hr as [H1 H2 _]. split; [done|done|]. split; [done|]. cbn. lia.
Qed.

(** ** Where the iterator is *)

Definition at_end it (i : nat) : Prop := db_valid_ it = false /\ i = length view.
(** Forward, the internal iterator is at the entry. *)
Definition at_forward it (b i : nat) : Prop := db_valid_ it = true /\ db_direction_ it = kForward /\ exists e, shows_at s es b e /\ rank s es b = i.
(** Backward, it is before the entry, which is saved, and those right before it are not live. *)
Definition unseen (c p : nat) : Prop := forall q e, (c <= q < p)%nat -> es !! q = Some e -> live s e = false.
Definition at_reverse it (b i : nat) : Prop := db_valid_ it = true /\ db_direction_ it = kReverse /\
  exists c p e, b = cut c /\ (c <= p)%nat /\ shows_at s es p e /\ rank s es p = i /\ saved_key_ it = e_key e /\ saved_value_ it = e_value e /\ unseen c p.
Definition db_pos it (i : nat) : Prop := exists b, ready it b /\ (at_end it i \/ at_forward it b i \/ at_reverse it b i).

Lemma rank_none b c : (b <= c)%nat -> (forall p e, (b <= p < c)%nat -> ~ shows_at s es p e) -> rank s es c = rank s es b.
Proof.
  intros Hbc. induction Hbc as [|c Hbc IH]; intros H; [done|]. rewrite <- IH by (intros p e Hp; apply H; lia).
  destruct (es !! c) as [e|] eqn:E.
  - apply (rank_hidden s es c e E). apply not_true_iff_false. intros Hsh. apply (H c e); [lia|done].
  - apply lookup_ge_None in E. rewrite !rank_all by lia. done.
Qed.

Definition visible_e e : option ParsedInternalKey := if live s e then Some (parsed e) else None.
Lemma visible_parsed e : visible s (Some (parsed e)) = visible_e e.
Proof. done. Qed.
Lemma type_cases b e : es !! b = Some e -> e_type e = kTypeDeletion \/ e_type e = kTypeValue.
Proof. intros H. destruct (version_at U es V b e H) as (_ & _ & _ & Ht & _). unfold kTypeDeletion, kTypeValue in *. lia. Qed.

(** ** Forward *)

(** The entries hidden by the key to skip: those of it and of smaller keys. *)
Definition hides (skipping : bool) (skip k : list Z) : Prop := skipping = true /\ Compare k skip <> Gt.
(** At [b], for the first entry that shows from [t] on: before it there is nothing that ends the
    search, from there on what shows is not hidden, and what an entry before hides is. *)
Record searching (t b : nat) (skipping : bool) (skip : list Z) : Prop := {
  search_skip : skipping = true -> key_ok skip;
  search_before q e : (b <= q < t)%nat -> es !! q = Some e -> live s e = true -> e_type e = kTypeValue /\ hides skipping skip (e_key e);
  search_shows p e : (max b t <= p)%nat -> shows_at s es p e -> ~ hides skipping skip (e_key e);
  search_hidden q p e e' : (q < max b t)%nat -> (max b t <= p)%nat -> es !! q = Some e -> live s e = true -> es !! p = Some e' ->
    e_key e' = e_key e -> hides skipping skip (e_key e')
}.

Lemma hides_iff skipping skip k :
  skipping && (match Compare k skip with Gt => false | _ => true end) = true <-> hides skipping skip k.
Proof. unfold hides. rewrite andb_true_iff. by destruct (Compare k skip); split; intros [? ?]. Qed.

(** One entry further, when this one is not live, or hidden. *)
Lemma search_step t b skipping skip e : searching t b skipping skip -> es !! b = Some e ->
  (live s e = true -> hides skipping skip (e_key e)) -> searching t (S b) skipping skip.
Proof.
  intros [Hk Hbef Hsh Hhid] He Hl. split.
  - done.
  - intros q e' Hq. apply Hbef. lia.
  - intros p e' Hp. apply Hsh. lia.
  - intros q p e1 e2 Hq Hp He1 Hl1 He2 Heq. destruct (decide (q < max b t)%nat) as [Hlt|Hge]; [apply (Hhid q p e1 e2); [done|lia|done..]|].
    assert (q = b) as -> by lia. rewrite He in He1. injection He1 as <-. rewrite Heq. by apply Hl.
Qed.
(** One entry further, when this one is a deletion: now its key is skipped. *)
Lemma search_deletion t b skipping skip e : searching t b skipping skip -> es !! b = Some e ->
  live s e = true -> e_type e = kTypeDeletion -> searching t (S b) true (e_key e).
Proof.
  intros [Hk Hbef Hsh Hhid] He Hl Ht. assert (Hbt : (t <= b)%nat).
  { destruct (decide (t <= b)%nat) as [|Hlt]; [done|]. destruct (Hbef b e ltac:(lia) He Hl) as [Ht' _]. rewrite Ht in Ht'. discriminate Ht'. }
  pose proof (version_key U es V b e He) as Hok. split.
  - done.
  - intros q e' Hq. lia.
  - intros p e' Hp Hs' [_ Hle]. pose proof Hs' as (Hp' & _ & _ & Hfst)%(shows_at_iff s es). apply Hle, (cmp_gt Compare key_ok); [by apply (version_key U es V p)|done|].
    destruct (version_order U es V b p e e' He Hp' ltac:(lia)) as [|[Heq _]]; [done|]. by destruct (Hfst b e ltac:(lia) He Hl).
  - intros q p e1 e2 Hq Hp He1 Hl1 He2 Heq. split; [done|]. rewrite Heq. apply (version_le U es V q b e1 e He1 He). lia.
Qed.
(** It stops at what shows. *)
Lemma search_found t b skipping skip e : searching t b skipping skip -> es !! b = Some e -> live s e = true -> e_type e = kTypeValue ->
  ~ hides skipping skip (e_key e) -> (t <= b)%nat /\ shows_at s es b e.
Proof.
  intros [Hk Hbef Hsh Hhid] He Hl Ht Hn. assert (Hbt : (t <= b)%nat).
  { destruct (decide (t <= b)%nat) as [|Hlt]; [done|]. by destruct (Hbef b e ltac:(lia) He Hl) as [_ ?]. }
  split; [done|]. apply shows_at_iff. split_and!; try done. intros q e' Hq He' Hl' Heq. apply Hn. apply (Hhid q b e' e); [lia|lia|done..].
Qed.
(** Nothing shows at an entry that is passed. *)
Lemma search_rank t b skipping skip e : searching t b skipping skip -> es !! b = Some e ->
  (live s e = true -> e_type e = kTypeValue -> hides skipping skip (e_key e)) -> rank s es (max (S b) t) = rank s es (max b t).
Proof.
  intros H He Hl. destruct (decide (b < t)%nat) as [|Hge]; [by rewrite !Nat.max_r by lia|]. rewrite !Nat.max_l by lia.
  apply (rank_hidden s es b e He), not_true_iff_false. intros Hsh. pose proof Hsh as (Hlv & Ht & _)%shows_iff.
  apply (search_shows _ _ _ _ H b e); [lia|done|]. by apply Hl.
Qed.

Lemma FindNext_spec fuel t i b skipping it w : ready it b -> inv w -> (b < n)%nat -> (n - b <= fuel)%nat -> (t <= n)%nat -> db_direction_ it = kForward ->
  searching t b skipping (saved_key_ it) -> rank s es (max b t) = i ->
  exists it' w', FindNextUserEntry U RecordReadSample s fuel skipping it w = Some (it', w') /\ inv w' /\ db_pos it' i.
Proof.
  revert b skipping it w. induction fuel as [|fuel IH]; intros b skipping it w Hr Hw Hb Hf Ht Hd Hsr Hi; [lia|].
  destruct (lookup_lt_is_Some_2 es b Hb) as [e He]. cbn [FindNextUserEntry].
  destruct (ParseKey_spec it b e w Hr He Hw) as (r & c & w1 & E1 & Hw1 & Hr1). unfold dbind at 1. rewrite E1. cbv beta iota zeta.
  set (it1 := set_sampling r c it) in *. rewrite visible_parsed. unfold visible_e.
  (* the next entry *)
  assert (Hnext : forall sk it2, ready it2 b -> db_direction_ it2 = kForward -> searching t (S b) sk (saved_key_ it2) -> rank s es (max (S b) t) = i ->
    exists it' w', (let! it0 := on_internal Next it2 in if internal_valid it0 then FindNextUserEntry U RecordReadSample s fuel sk it0 else dret (set_db_valid false (ClearSavedKey it0))) w1 =
      Some (it', w') /\ inv w' /\ db_pos it' i).
  { intros sk it2 Hr2 Hd2 Hsr2 Hi2. destruct (ready_next it2 b w1 Hr2 Hw1 Hb) as (x & w2 & E2 & Hw2 & Hr3). unfold dbind. rewrite E2.
    destruct (ready_valid _ _ Hr3) as [_ ->]. destruct (bool_decide_reflect (S b < n)%nat) as [Hlt|Hge].
    - by apply (IH (S b) sk); try done; lia.
    - eexists _, w2. split; [done|]. split; [done|]. exists (S b). split; [destruct Hr3; done|]. left. split; [done|].
      rewrite <- Hi2. apply rank_all. lia. }
  destruct (live s e) eqn:Hl.
  - cbn [parsed type_ user_key]. destruct (type_cases b e He) as [Hty|Hty]; rewrite Hty; cbn [Z.eqb kTypeDeletion kTypeValue].
    + apply (Hnext true (SaveKey (e_key e) it1)); [destruct Hr1; done|done|by apply (search_deletion t b skipping (saved_key_ it))|].
      rewrite (search_rank t b skipping (saved_key_ it) e Hsr He); [done|]. intros _ Hv. rewrite Hty in Hv. discriminate Hv.
    + change (saved_key_ it1) with (saved_key_ it). destruct (skipping && _) eqn:Eh.
      * apply hides_iff in Eh. apply (Hnext skipping it1); [done|done|by apply (search_step t b skipping _ e)|]. by rewrite (search_rank t b skipping (saved_key_ it) e Hsr He).
      * apply not_true_iff_false in Eh. rewrite hides_iff in Eh. destruct (search_found t b skipping _ e Hsr He Hl Hty Eh) as [Hbt Hsh].
        eexists _, w1. split; [done|]. split; [done|]. exists b. split; [destruct Hr1; done|]. right. left. split; [done|]. split; [done|]. exists e. split; [done|].
        by rewrite Nat.max_l in Hi.
  - apply (Hnext skipping it1); [done|done|by apply (search_step t b skipping _ e); [done|done|congruence]|].
    rewrite (search_rank t b skipping (saved_key_ it) e Hsr He); [done|congruence].
Qed.

(** From a place before which nothing hides, and behind an entry that shows. *)
Lemma find_from b it w i : ready it b -> inv w -> db_direction_ it = kForward ->
  (forall q p e e', (q < b)%nat -> (b <= p)%nat -> es !! q = Some e -> live s e = true -> es !! p = Some e' -> e_key e' <> e_key e) ->
  rank s es b = i ->
  exists it' w', (if internal_valid it then FindNextUserEntry U RecordReadSample s patience false it else dret (set_db_valid false it)) w = Some (it', w') /\ inv w' /\ db_pos it' i.
Proof.
  intros Hr Hw Hd Hb Hi. destruct (ready_valid it b Hr) as [Hle ->]. destruct (bool_decide_reflect (b < n)%nat) as [Hlt|Hge].
  - apply (FindNext_spec patience 0 i b); try done; [lia|lia| |by rewrite Nat.max_0_r]. split; [done|intros q e Hq; lia|by intros p e _ _ [? _]|].
    rewrite Nat.max_0_r. intros q p e e' Hq Hp He Hl He' Heq. by destruct (Hb q p e e').
  - eexists _, w. split; [done|]. split; [done|]. exists b. split; [destruct Hr; done|]. left. split; [done|]. rewrite <- Hi. apply rank_all. lia.
Qed.
Lemma find_after c p e it w : ready it c -> inv w -> db_direction_ it = kForward -> shows_at s es p e -> (c <= p)%nat -> unseen c p -> saved_key_ it = e_key e ->
  exists it' w', FindNextUserEntry U RecordReadSample s patience true it w = Some (it', w') /\ inv w' /\ db_pos it' (S (rank s es p)).
Proof.
  intros Hr Hw Hd Hsh Hcp Hun Hk. pose proof Hsh as (Hp & Hl & Ht & _)%(shows_at_iff s es). pose proof (lookup_lt_Some _ _ _ Hp) as Hlt.
  pose proof (version_key U es V p e Hp) as Hok. apply (FindNext_spec patience (S p) _ c); try done; [lia|lia| |].
  - rewrite Hk. split; [done| | |].
    + intros q e' Hq He' Hl'. destruct (decide (q = p)) as [->|Hne]; [|by rewrite (Hun q e') in Hl' by first [lia|done]].
      rewrite Hp in He'. injection He' as <-. split; [done|]. split; [done|]. by rewrite (cmp_refl Compare key_ok).
    + intros p' e' Hp' Hsh' [_ Hle]. pose proof (shows_lt U s es V p p' e e' Hsh Hsh' ltac:(lia)) as Hlt'. destruct Hsh' as [Hp'' _].
      apply Hle, (cmp_gt Compare key_ok); [by apply (version_key U es V p')|done|done].
    + intros q p' e1 e2 Hq Hp' He1 _ _ ->. split; [done|]. apply (version_le U es V q p); [done|done|lia].
  - rewrite Nat.max_r by lia. by apply rank_shows with (e := e).
Qed.

Lemma db_pos_ready it i : db_pos it i -> exists b, ready it b.
Proof. intros (b & H & _). by exists b. Qed.

Lemma db_first it b w : ready it b -> inv w -> exists it' w', DBIter_SeekToFirst U RecordReadSample s patience it w = Some (it', w') /\ inv w' /\ db_pos it' 0%nat.
Proof.
  intros Hr Hw. unfold DBIter_SeekToFirst. destruct (ready_first (ClearSavedValue (set_db_direction kForward it)) b w) as (x & w1 & E & Hw1 & Hr1); [destruct Hr; done|done|].
  unfold dbind. rewrite E. apply (find_from 0); try done. lia.
Qed.
Lemma db_seek u it b w : ready it b -> inv w -> key_ok u ->
  exists it' w', DBIter_Seek U RecordReadSample s patience u it w = Some (it', w') /\ inv w' /\ db_pos it' (lower_bound u view).
Proof.
  intros Hr Hw Hu. unfold DBIter_Seek. change (AppendInternalKey [] _) with (internal u s kValueTypeForSeek). cbv zeta.
  set (it0 := SaveKey _ _). destruct (ready_seek u it0 b w) as (x & w1 & E & Hw1 & Hr1); [destruct Hr; done|done|done|].
  unfold dbind. change (saved_key_ it0) with (internal u s kValueTypeForSeek). rewrite E. rewrite (seek_rank U s es V u Hu Hs).
  apply (find_from (seek_place U s es u)); try done.
  intros q p e e' Hq Hp He Hl He' Heq. apply (seek_place_lt U s es V u q e Hu Hs He) in Hq as [Hq|[_ Hq]]; [|congruence].
  assert (Hnp : ~ (p < seek_place U s es u)%nat) by lia. apply Hnp, (seek_place_lt U s es V u p e' Hu Hs He'). left. by rewrite Heq.
Qed.

Lemma db_next it i w : db_pos it i -> inv w -> (i < length view)%nat -> exists it' w', DBIter_Next U RecordReadSample s patience it w = Some (it', w') /\ inv w' /\ db_pos it' (S i).
Proof.
  intros (b & Hr & [[_ ->]|[(_ & Hd & e & Hsh & <-)|(_ & Hd & c & p & e & -> & Hcp & Hsh & <- & Hk & _ & Hun)]]) Hw Hi; [lia| |]; unfold DBIter_Next; rewrite Hd.
  - pose proof Hsh as [He _]. destruct (ready_entry it b e Hr He) as (_ & _ & ->).
    apply (find_after b b e); try done; [destruct Hr; done|]. intros q e' Hq. lia.
  - cbv zeta. set (it0 := set_db_direction kForward it). assert (Hr0 : ready it0 (cut c)) by (destruct Hr; done).
    pose proof Hsh as [He _]. pose proof (lookup_lt_Some _ _ _ He) as Hlt.
    assert (H : exists x w1, (if negb (internal_valid it0) then on_internal SeekToFirst it0 else on_internal Next it0) w = Some (set_internal x it0, w1) /\ inv w1 /\ ready (set_internal x it0) c).
    { destruct (ready_valid it0 _ Hr0) as [_ ->]. destruct c as [|c]; cbn [cut] in *.
      - rewrite bool_decide_false by lia. by apply (ready_first it0 n).
      - rewrite bool_decide_true by lia. apply (ready_next it0 c); [done|done|lia]. }
    destruct H as (x & w1 & E & Hw1 & Hr1). unfold dbind. rewrite E. destruct (ready_valid _ _ Hr1) as [_ ->]. rewrite bool_decide_true by lia. cbn [negb].
    by apply (find_after c p e).
Qed.

(** ** Backward *)

(** Going back from [c0], the entries from [c] on have been passed: none shows, or the first that does
    is saved, and those before it are not live. *)
Definition passed (c0 c : nat) (value_type : Z) it : Prop :=
  (value_type = kTypeDeletion /\ forall p e, (c <= p < c0)%nat -> ~ shows_at s es p e) \/
  (value_type = kTypeValue /\ exists p e, (c <= p < c0)%nat /\ es !! p = Some e /\ live s e = true /\ e_type e = kTypeValue /\
    saved_key_ it = e_key e /\ saved_value_ it = e_value e /\ unseen c p /\ forall p' e', (p < p' < c0)%nat -> ~ shows_at s es p' e').

(** The entry before is not live. *)
Lemma passed_unseen c0 c t it it' e : passed c0 (S c) t it -> es !! c = Some e -> live s e = false ->
  saved_key_ it' = saved_key_ it -> saved_value_ it' = saved_value_ it -> passed c0 c t it'.
Proof.
  intros H He Hl Hk Hv. assert (Hn : forall q e', (c <= q)%nat -> ~ (S c <= q)%nat -> es !! q = Some e' -> live s e' = false).
  { intros q e' H1 H2. assert (q = c) as -> by lia. rewrite He. by intros [= <-]. }
  destruct H as [[-> H]|(-> & p & e' & Hp & He' & Hl' & Ht' & Hk' & Hv' & Hun & H)]; [left|right]; (split; [done|]).
  - intros p e' Hp Hsh. destruct (decide (S c <= p)%nat) as [Hle|Hle]; [apply (H p e'); [lia|done]|].
    pose proof Hsh as (Hp' & Hl' & _)%(shows_at_iff s es). rewrite (Hn p e') in Hl'; [done|lia|done|done].
  - exists p, e'. rewrite Hk, Hv. split_and!; try done; try lia. intros q e1 Hq Hq'. destruct (decide (S c <= q)%nat) as [Hle|Hle]; [apply (Hun q); [lia|done]|].
    apply (Hn q); [lia|done|done].
Qed.
(** It is live, and not of a smaller key than the one that is saved: it is the one to save. *)
Lemma passed_live c0 c t it e : passed c0 (S c) t it -> (c < c0)%nat -> es !! c = Some e -> live s e = true ->
  (t <> kTypeDeletion -> Compare (e_key e) (saved_key_ it) <> Lt) -> forall p' e', (c < p' < c0)%nat -> ~ shows_at s es p' e'.
Proof.
  intros H Hc He Hl Hcmp p' e' Hp' Hsh. destruct H as [[-> H]|(-> & p & e1 & Hp & He1 & Hl1 & Ht1 & Hk & Hv & Hun & H)].
  - apply (H p' e'); [lia|done].
  - destruct (decide (p < p')%nat) as [Hlt|Hge]; [apply (H p' e'); [lia|done]|]. pose proof Hsh as (Hp'' & Hl' & _ & Hfst)%(shows_at_iff s es).
    destruct (decide (p' = p)) as [->|Hne]; [|rewrite (Hun p' e') in Hl'; [done|lia|done]].
    rewrite He1 in Hp''. injection Hp'' as <-. destruct (version_order U es V c p e e1 He He1 ltac:(lia)) as [Hlt|[Heq _]].
    + rewrite <- Hk in Hlt. by apply Hcmp.
    + by destruct (Hfst c e ltac:(lia) He Hl).
Qed.

Lemma prev_entries_spec fuel c0 c t it w : ready it (cut (S c)) -> inv w -> (c < c0)%nat -> (c0 <= n)%nat -> (c < fuel)%nat -> passed c0 (S c) t it ->
  exists t' it' w' c', prev_entries U RecordReadSample s fuel t it w = Some ((t', it'), w') /\ inv w' /\ ready it' (cut c') /\ passed c0 c' t' it' /\
    db_direction_ it' = db_direction_ it /\
    (c' = 0%nat \/ exists c1 e, c' = S c1 /\ t' = kTypeValue /\ es !! c1 = Some e /\ live s e = true /\ Compare (e_key e) (saved_key_ it') = Lt).
Proof.
  revert c t it w. induction fuel as [|fuel IH]; intros c t it w Hr Hw Hc Hc0 Hf Hps; [lia|]. cbn [cut] in Hr.
  destruct (lookup_lt_is_Some_2 es c) as [e He]; [lia|]. cbn [prev_entries].
  destruct (ParseKey_spec it c e w Hr He Hw) as (r & b & w1 & E1 & Hw1 & Hr1). unfold dbind at 1. rewrite E1. cbv beta iota zeta.
  set (it1 := set_sampling r b it) in *. rewrite visible_parsed. unfold visible_e.
  assert (Hprev : forall t2 it2, ready it2 c -> db_direction_ it2 = db_direction_ it -> passed c0 c t2 it2 ->
    exists t' it' w' c', (let! it0 := on_internal Prev it2 in if internal_valid it0 then prev_entries U RecordReadSample s fuel t2 it0 else dret (t2, it0)) w1 = Some ((t', it'), w') /\
      inv w' /\ ready it' (cut c') /\ passed c0 c' t' it' /\ db_direction_ it' = db_direction_ it /\
      (c' = 0%nat \/ exists c1 e, c' = S c1 /\ t' = kTypeValue /\ es !! c1 = Some e /\ live s e = true /\ Compare (e_key e) (saved_key_ it') = Lt)).
  { intros t2 it2 Hr2 Hd2 Hps2. destruct (ready_prev it2 c w1 Hr2 Hw1) as (x & w2 & E2 & Hw2 & Hr3); [lia|]. unfold dbind. rewrite E2.
    destruct (ready_valid _ _ Hr3) as [_ ->]. destruct c as [|c]; cbn [cut].
    - rewrite bool_decide_false by lia. exists t2, (set_internal x it2), w2, 0%nat. split_and!; [done|done|done|done|done|by left].
    - rewrite bool_decide_true by lia. destruct (IH c t2 (set_internal x it2) w2) as (t' & it' & w' & c' & H1 & H2 & H3 & H4 & H5 & H6); try done; [lia..|].
      exists t', it', w', c'. split_and!; try done. by rewrite H5. }
  destruct (live s e) eqn:Hl.
  - destruct (negb (t =? kTypeDeletion) && _) eqn:Estop.
    + apply andb_true_iff in Estop as [Ht Hlt]. apply negb_true_iff, Z.eqb_neq in Ht. exists t, it1, w1, (S c). split; [done|]. split; [done|]. split; [done|].
      split; [destruct Hps as [[? _]|Hps]; [done|by right]|]. split; [done|]. right. exists c, e. split; [done|]. destruct Hps as [[? _]|[-> _]]; [done|]. split; [done|].
      split; [done|]. split; [done|]. cbn in Hlt. change (saved_key_ it1) with (saved_key_ it) in *. by destruct (Compare (e_key e) (saved_key_ it)).
    + assert (Hnone : forall p' e', (c < p' < c0)%nat -> ~ shows_at s es p' e').
      { apply (passed_live c0 c t it e); try done. intros Ht Hlt. apply andb_false_iff in Estop as [Estop|Estop].
        - apply negb_false_iff, Z.eqb_eq in Estop. done.
        - cbn in Estop. change (saved_key_ it1) with (saved_key_ it) in Estop. by rewrite Hlt in Estop. }
      cbn [parsed type_]. destruct (type_cases c e He) as [Hty|Hty]; rewrite Hty; cbn [Z.eqb kTypeDeletion kTypeValue].
      * apply Hprev; [destruct Hr1; done|done|]. left. split; [done|]. intros p' e' Hp' Hsh. destruct (decide (p' = c)) as [->|Hne]; [|apply (Hnone p' e'); [lia|done]].
        pose proof Hsh as (Hp'' & _ & Ht' & _)%(shows_at_iff s es). rewrite He in Hp''. injection Hp'' as <-. rewrite Hty in Ht'. discriminate Ht'.
      * destruct (ready_entry it1 c e Hr1 He) as (_ & -> & ->). unfold dfrom at 1. unfold dbind at 1. apply Hprev; [destruct Hr1; done|done|].
        right. split; [done|]. exists c, e. split_and!; try done; try lia. intros q e' Hq. lia.
  - apply Hprev; [done|done|]. by apply (passed_unseen c0 c t it it1 e).
Qed.

Lemma FindPrev_spec c0 it w : ready it (cut c0) -> inv w -> (c0 <= n)%nat -> db_direction_ it = kReverse ->
  exists it' w', FindPrevUserEntry U RecordReadSample s patience it w = Some (it', w') /\ inv w' /\ db_pos it' (match rank s es c0 with O => length view | S i => i end).
Proof.
  intros Hr Hw Hc0 Hd. unfold FindPrevUserEntry. destruct (ready_valid it _ Hr) as [_ ->].
  assert (H : exists t it' w' c', (if bool_decide (cut c0 < n)%nat then prev_entries U RecordReadSample s patience kTypeDeletion it else dret (kTypeDeletion, it)) w = Some ((t, it'), w') /\
    inv w' /\ ready it' (cut c') /\ passed c0 c' t it' /\ db_direction_ it' = kReverse /\
    (c' = 0%nat \/ exists c1 e, c' = S c1 /\ t = kTypeValue /\ es !! c1 = Some e /\ live s e = true /\ Compare (e_key e) (saved_key_ it') = Lt)).
  { assert (Hp0 : passed c0 c0 kTypeDeletion it) by (left; split; [done|]; lia). destruct c0 as [|c]; cbn [cut] in *.
    - rewrite bool_decide_false by lia. exists kTypeDeletion, it, w, 0%nat. split_and!; [done|done|done|done|done|by left].
    - rewrite bool_decide_true by lia. destruct (prev_entries_spec patience (S c) c kTypeDeletion it w) as (t' & it' & w' & c' & H1 & H2 & H3 & H4 & H5 & H6); try done; [lia..|].
      exists t', it', w', c'. split_and!; try done. by rewrite H5. }
  destruct H as (t & it' & w' & c' & E & Hw' & Hr' & Hps & Hd' & Hend). unfold dbind. rewrite E. cbv beta iota.
  destruct Hps as [[-> Hnone]|(-> & p & e & Hp & He & Hl & Ht & Hk & Hv & Hun & Hnone)]; cbn [Z.eqb kTypeDeletion kTypeValue].
  - destruct Hend as [->|(? & ? & _ & H & _)]; [|discriminate H]. rewrite (rank_none 0 c0) by first [lia|done]. rewrite rank_0.
    eexists _, w'. split; [done|]. split; [done|]. exists (cut 0). split; [destruct Hr'; done|]. by left.
  - assert (Hsh : shows_at s es p e).
    { apply shows_at_iff. split_and!; try done. intros q e' Hq He' Hl' Heq. destruct (decide (c' <= q)%nat) as [Hle|Hlt]; [by rewrite (Hun q e') in Hl' by first [lia|done]|].
      destruct Hend as [->|(c1 & e1 & -> & _ & He1 & _ & Hlt1)]; [lia|]. pose proof (version_le U es V q c1 e' e1 He' He1 ltac:(lia)) as Hle1.
      pose proof (version_key U es V p e He) as Hok. rewrite Hk in Hlt1.
      pose proof (cmp_le_lt_trans Compare key_ok (e_key e') (e_key e1) (e_key e) (version_key U es V q e' He') (version_key U es V c1 e1 He1) Hok Hle1 Hlt1) as Hbad.
      by rewrite Heq, (cmp_refl Compare key_ok) in Hbad. }
    rewrite (rank_none (S p) c0) by first [lia|intros p' e' Hp'; apply Hnone; lia]. rewrite (rank_shows s es p e Hsh).
    eexists _, w'. split; [done|]. split; [done|]. exists (cut c'). split; [destruct Hr'; done|]. right. right. split; [done|]. split; [done|].
    exists c', p, e. split_and!; try done; try lia.
Qed.

(** Back over the entries of the saved key: none of them shows but the one it came from. *)
Lemma before_saved_spec fuel it b p e w : ready it b -> inv w -> (b < fuel)%nat -> (b <= p)%nat -> es !! p = Some e -> saved_key_ it = e_key e ->
  (forall q e', (b <= q <= p)%nat -> es !! q = Some e' -> e_key e' = e_key e) ->
  exists x w' c, before_saved U fuel it w = Some ((negb (bool_decide (c = 0%nat)), set_internal x it), w') /\ inv w' /\ ready (set_internal x it) (cut c) /\ (c <= b)%nat /\
    forall q e', (c <= q <= p)%nat -> es !! q = Some e' -> e_key e' = e_key e.
Proof.
  revert it b w. induction fuel as [|fuel IH]; intros it b w Hr Hw Hf Hbp Hp Hk Hsame; [lia|]. cbn [before_saved]. pose proof (lookup_lt_Some _ _ _ Hp) as Hlt.
  destruct (ready_prev it b w Hr Hw) as (x & w1 & E & Hw1 & Hr1); [lia|]. unfold dbind at 1. rewrite E. destruct (ready_valid _ _ Hr1) as [_ ->]. destruct b as [|b]; cbn [cut] in *.
  - rewrite bool_decide_false by lia. exists x, w1, 0%nat. by split_and!.
  - rewrite bool_decide_true by lia. cbn [negb]. destruct (lookup_lt_is_Some_2 es b) as [e1 He1]; [lia|].
    destruct (ready_entry _ b e1 Hr1 He1) as (_ & _ & ->). change (saved_key_ (set_internal x it)) with (saved_key_ it). rewrite Hk.
    assert (Hcase : Compare (e_key e1) (e_key e) = Lt \/ (e_key e1 = e_key e /\ Compare (e_key e1) (e_key e) <> Lt)).
    { destruct (version_order U es V b p e1 e He1 Hp ltac:(lia)) as [|[Heq _]]; [by left|right]. split; [done|]. rewrite Heq, (cmp_refl Compare key_ok); [done|by apply (version_key U es V p)]. }
    destruct Hcase as [->|[Heq Hne]]; [exists x, w1, (S b); by split_and!|].
    destruct (IH (set_internal x it) b w1) as (x' & w' & c & H1 & H2 & H3 & H4 & H5); try done; [lia|lia| |].
    + intros q e' Hq He'. destruct (decide (q = b)) as [->|]; [rewrite He1 in He'; by injection He' as <-|apply (Hsame q); [lia|done]].
    + exists x', w', c. split_and!; try done; [|lia]. destruct (Compare (e_key e1) (e_key e)); done.
Qed.

Lemma db_prev it i w : db_pos it i -> inv w -> (i < length view)%nat ->
  exists it' w', DBIter_Prev U RecordReadSample s patience it w = Some (it', w') /\ inv w' /\ db_pos it' (match i with O => length view | S i => i end).
Proof.
  intros (b & Hr & [[_ ->]|[(_ & Hd & e & Hsh & <-)|(_ & Hd & c & p & e & -> & Hcp & Hsh & <- & Hk & _ & Hun)]]) Hw Hi; [lia| |]; unfold DBIter_Prev; rewrite Hd.
  - pose proof Hsh as (He & Hl & _ & Hfst)%(shows_at_iff s es). pose proof (lookup_lt_Some _ _ _ He) as Hlt. destruct (ready_entry it b e Hr He) as (_ & _ & ->).
    destruct (before_saved_spec patience (SaveKey (e_key e) it) b b e w) as (x & w1 & c & E & Hw1 & Hr1 & Hc & Hsame); try done; [destruct Hr; done|lia| |].
    { intros q e' Hq He'. assert (q = b) as -> by lia. rewrite He in He'. by injection He' as <-. }
    assert (Hrank : rank s es b = rank s es c).
    { apply rank_none; [done|]. intros q e' Hq (He' & Hl' & _)%(shows_at_iff s es). apply (Hfst q e'); [lia|done|done|]. apply (Hsame q e'); [lia|done]. }
    unfold dbind. rewrite E. cbv beta iota. rewrite Hrank. destruct c as [|c].
    + rewrite bool_decide_true by done. cbn [negb]. rewrite rank_0. eexists _, w1. split; [done|]. split; [done|]. exists (cut 0). split; [destruct Hr1; done|]. by left.
    + rewrite bool_decide_false by done. cbn [negb]. apply FindPrev_spec; [destruct Hr1; done|done|lia|done].
  - pose proof Hsh as [He _]. pose proof (lookup_lt_Some _ _ _ He) as Hlt. assert (Hrank : rank s es p = rank s es c).
    { apply rank_none; [done|]. intros q e' Hq (He' & Hl' & _)%(shows_at_iff s es). by rewrite (Hun q e') in Hl'. }
    rewrite Hrank. apply FindPrev_spec; [done|done|lia|done].
Qed.

Lemma db_last it b w : ready it b -> inv w -> exists it' w', DBIter_SeekToLast U RecordReadSample s patience it w = Some (it', w') /\ inv w' /\ db_pos it' (pred (length view)).
Proof.
  intros Hr Hw. unfold DBIter_SeekToLast. destruct (ready_last (ClearSavedValue (set_db_direction kReverse it)) b w) as (x & w1 & E & Hw1 & Hr1); [destruct Hr; done|done|].
  unfold dbind. rewrite E. destruct (FindPrev_spec n _ w1 Hr1 Hw1) as (it' & w' & E' & Hw' & Hp); [done|done|]. exists it', w'. split; [done|]. split; [done|].
  rewrite (rank_all s es n) in Hp by done. by destruct (length view).
Qed.

(** The iterator walks along the view. *)
#[export] Instance db_walks : Walks (IT := DBIterator U RecordReadSample s patience) inv view db_pos.
Proof.
  split.
  - intros it i (b & Hr & [[Hv ->]|[(Hv & _ & e & Hsh & <-)|(Hv & _ & c & p & e & _ & _ & Hsh & <- & _)]]); cbn; rewrite Hv; (split; [first [done|apply rank_le]|]).
    + by rewrite bool_decide_false by lia.
    + rewrite bool_decide_true; [done|]. pose proof (view_at s es b e Hsh) as H. by apply lookup_lt_Some in H.
    + rewrite bool_decide_true; [done|]. pose proof (view_at s es p e Hsh) as H. by apply lookup_lt_Some in H.
  - intros it i k v (b & Hr & [[_ ->]|[(_ & Hd & e & Hsh & <-)|(_ & Hd & c & p & e & _ & _ & Hsh & <- & Hk & Hv & _)]]) H; cbn.
    + apply lookup_lt_Some in H. lia.
    + rewrite (view_at s es b e Hsh) in H. injection H as <- <-. pose proof Hsh as [He _]. destruct (ready_entry it b e Hr He) as (_ & H1 & H2).
      unfold DBIter_key, DBIter_value. rewrite Hd. done.
    + rewrite (view_at s es p e Hsh) in H. injection H as <- <-. unfold DBIter_key, DBIter_value. rewrite Hd, Hk, Hv. done.
  - intros it i (b & [Ha Hst _] & _). cbn. unfold DBIter_status. rewrite Hst. by apply (walk_status (C := InternalKeyComparator U) (inv := inv) (pos := at_internal) _ b).
  - intros it i w (b & Hr & _) Hw. by apply (db_first it b).
  - intros it i w (b & Hr & _) Hw. by apply (db_last it b).
  - intros target it i w (b & Hr & _) Hw Ht. by apply (db_seek target it b).
  - apply db_next.
  - apply db_prev.
Qed.

Lemma NewDBIterator_pos x b seed : at_internal x b -> db_pos (NewDBIterator x seed) (length view).
Proof.
  intros Hx. unfold NewDBIterator, RandomCompactionPeriod, Uniform. change (u32 (2 * kReadBytesPeriod)) with 2097152. exists b. split; [|by left].
  destruct (Random_Next_mod (NewRandom seed) (NewRandom_good seed)) as [_ Hg]. split; [done|done|]. split; [done|]. cbn.
  pose proof (Z.mod_pos_bound (Random_Next (NewRandom seed)) 2097152 ltac:(lia)). lia.
Qed.
End iterator.

(** C5: The iterator of the database shows what a client may see: over an iterator that walks along the
    internal entries, it walks along the keys whose newest update at its sequence number is a value
    (what a lookup of the key answers), each once with that value, in the order of the client's
    comparator, forward and backward, and when it turns around; none of its loops passes more
    entries than there are, and sampling, which may start a compaction at any of them, does not
    disturb it. *)
Theorem database_iterator (U : Comparator) {UL : ComparatorLaws U} {W I : Type} {IT : Iterator W I} (inv : W -> Prop) RecordReadSample s patience es x b seed :
  (forall k w, inv w -> exists w', RecordReadSample k w = Some (tt, w') /\ inv w') ->
  0 <= s <= kMaxSequenceNumber -> versions_ok U es -> distinct es -> (length es < patience)%nat ->
  at_any (C := InternalKeyComparator U) inv (internal_entries es) x b ->
  let view := user_view s es in
  at_any (IT := DBIterator U RecordReadSample s patience) inv view (NewDBIterator x seed) (length view) /\
  sorted_entries view /\
  forall u v, (u, v) ∈ view <-> exists e, newest u s es = Some e /\ e_type e = kTypeValue /\ e_value e = v.
Proof.
  intros Hrs Hs V Hd Hp Hx view. split; [|split; [by apply view_sorted|intros u v; by apply (view_newest U)]].
  exists (db_pos U inv s es). split; [by apply db_walks|by eapply NewDBIterator_pos].
Qed.

Module DbIterExample.
Abbreviation U := BytewiseComparator.
Abbreviation C := (InternalKeyComparator BytewiseComparator).
(** Six updates of three keys, the newer in one table and the older in another. *)
Definition update key seq type value : entry := {| e_key := key; e_seq := seq; e_type := type; e_value := value |}.
Definition newer : list entry := [update [1] 5 1 [10]; update [2] 4 0 []; update [3] 6 1 [40]].
Definition older : list entry := [update [1] 2 1 [20]; update [2] 1 1 [30]; update [3] 3 1 [50]].
Definition updates : list entry := [update [1] 5 1 [10]; update [1] 2 1 [20]; update [2] 4 0 []; update [2] 1 1 [30]; update [3] 6 1 [40]; update [3] 3 1 [50]].

Lemma versions_checked l : Forall (fun e => Forall byte (e_key e) /\ len (e_key e) < 2 ^ 32 - 8 /\ 0 <= e_seq e <= kMaxSequenceNumber /\
    0 <= e_type e <= kTypeValue /\ Forall byte (e_value e) /\ len (e_value e) < 2 ^ 32) l ->
  StronglySorted (fun e e' => InternalKeyComparator_Compare U (ikey e) (ikey e') = Lt) l -> versions_ok U l.
Proof. intros Hok Hs. by split. Qed.
Lemma updates_ok : versions_ok U newer /\ versions_ok U older /\ versions_ok U updates.
Proof. split_and!; (apply versions_checked; [apply (bool_decide_unpack _); vm_compute; exact I|repeat constructor]). Qed.
Lemma updates_distinct : distinct updates.
Proof. apply (bool_decide_unpack _). vm_compute. exact I. Qed.

#[export] Instance updates_merged : Merges (C := C) [internal_entries newer; internal_entries older] (internal_entries updates).
Proof.
  destruct updates_ok as (Hn & Ho & Hu). split; [by apply version_entries_sorted| |].
  - apply (bool_decide_unpack _). vm_compute. exact I.
  - apply Forall_cons. split; [by apply version_entries_sorted|]. apply Forall_singleton. by apply version_entries_sorted.
Qed.

(** The database iterator over the merging iterator over the iterators of two blocks, at sequence
    number 5, and in a world that only counts the samples. *)
#[export] Instance Blocks : Iterator nat Iter := BlockIter (C := C) nat.
Definition table (es : list entry) : Iter :=
  match NewIterator (NewBlock (fst (Finish (add_all 2 (internal_entries es) NewBlockBuilder)))) with inr it => it | inl _ => NewIter [] 0 0 end.
Definition RecordReadSample (k : list Z) : D nat unit := fun samples => Some (tt, S samples).
#[export] Instance Db : Iterator nat (DBIter (Merged Iter)) := DBIterator (IT := MergedIter (C := C)) U RecordReadSample 5 7.
Definition db : DBIter (Merged Iter) := NewDBIterator (NewMergingIterator [table newer; table older]) 301.

Inductive move := First | Last | To (target : list Z) | Forth | Back.
Definition make (m : move) : DBIter (Merged Iter) -> D nat (DBIter (Merged Iter)) :=
  match m with First => SeekToFirst | Last => SeekToLast | To t => Seek t | Forth => Next | Back => Prev end.
(** The entries on the way; [None] where there is none. *)
Fixpoint tour (moves : list move) (it : DBIter (Merged Iter)) : option (list (option (list Z * option (list Z)))) :=
  match moves with
  | [] => Some []
  | m :: moves => ' (it, _) ← make m it 0%nat; rest ← tour moves it; Some ((if Valid it then Some (iter_key it, iter_value it) else None) :: rest)
  end.

Example visible_now : user_view 5 updates = [([1], [10]); ([3], [50])] /\ user_view 2 updates = [([1], [20]); ([2], [30])].
Proof. split; vm_compute; reflexivity. Qed.
Example there_and_back : tour [First; Forth; Back; Forth; Forth; Last; Back; Back; To [2]; Back; Forth] db =
  Some [Some ([1], Some [10]); Some ([3], Some [50]); Some ([1], Some [10]); Some ([3], Some [50]); None;
        Some ([3], Some [50]); Some ([1], Some [10]); None; Some ([3], Some [50]); Some ([1], Some [10]); Some ([3], Some [50])].
Proof. vm_compute. reflexivity. Qed.

Lemma table_at es : versions_ok U es -> CurrentSizeEstimate (add_all 2 (internal_entries es) NewBlockBuilder) < 2 ^ 32 ->
  exists p, at_any (C := C) (IT := Blocks) (fun _ => True) (internal_entries es) (table es) p.
Proof.
  intros V Hlt. pose proof (version_entries_sorted U es V) as Hs. destruct (add_all_block 2 (internal_entries es) ltac:(lia) Hlt) as [Hb _].
  destruct (block_of_walks (C := C) (internal_entries es) _ Hs Hb) as (it & pos & E & Hp & HW).
  exists (length (internal_entries es)), pos. split; [apply HW|]. unfold table. by rewrite E.
Qed.
Lemma merged_at : exists p, at_any (C := C) (IT := MergedIter (C := C)) (fun _ : nat => True) (internal_entries updates) (NewMergingIterator [table newer; table older]) p.
Proof.
  destruct updates_ok as (Hn & Ho & _). pose proof updates_merged as HM. eexists _, (merged_pos (C := C) (fun _ => True) _ _). split; [apply merged_walks; exact _|].
  apply NewMerging_pos. constructor; [|constructor; [|constructor]]; (apply table_at; [done|vm_compute; reflexivity]).
Qed.
Lemma database_iterator_witness : exists p, at_any (C := C) (IT := MergedIter (C := C)) (fun _ : nat => True) (internal_entries updates) (NewMergingIterator [table newer; table older]) p /\
  at_any (IT := Db) (fun _ => True) (user_view 5 updates) db 2.
Proof.
  destruct merged_at as [p Hp]. exists p. split; [exact Hp|]. destruct updates_ok as (_ & _ & Hu).
  refine (proj1 (database_iterator U (fun _ => True) RecordReadSample 5 7 updates _ p 301 _ _ Hu updates_distinct _ Hp)).
  - intros k w _. exists (S w). split; [reflexivity|exact I].
  - vm_compute. split; congruence.
  - cbn. lia.
Defined.
End DbIterExample.
