(* ===== verification/SortedTree.v ===== *)
(** Firestore's immutable sorted map as a tree: the left-leaning red-black nodes (llrb_node.h), the
    iterator with its stack (llrb_node_iterator.h) and the map over them (tree_sorted_map.h). *)
From stdpp Require Import list.
From S2P Require Import Prelude.

(** sorted_container.h *)
Definition size_type_mod : Z := 2 ^ 32.
Definition npos : Z := 2 ^ 32 - 1.

Inductive Color : Type := Black | Red.
#[export] Instance Color_dec : EqDecision Color.
Proof. solve_decision. Defined.

Module Tree.
(** A node is a shared pointer to a [Rep]; [EmptyRep] is the one shared empty node.  Size fields have 31
    bits, the colour the last one.  A mutator is only called on a node that [Clone] or a constructor has
    just made, of which nobody else has the pointer: it is a function from the node to the node. *)
Inductive LlrbNode (K V : Type) : Type :=
| EmptyRep
| Rep (color_ : Color) (size_ : Z) (left_ : LlrbNode K V) (entry_ : K * V) (right_ : LlrbNode K V).
Arguments EmptyRep {K V}.
Arguments Rep {K V} color_ size_ left_ entry_ right_.

Definition u31 (x : Z) : Z := x mod 2 ^ 31.

Section node.
Context {K V : Type} `{!Inhabited K, !Inhabited V}.
Abbreviation LlrbNode := (LlrbNode K V).
Implicit Types n : LlrbNode.

(** What [EmptyRep] holds: a default entry, size 0, itself on both sides. *)
Definition size n : Z := match n with EmptyRep => 0 | Rep _ s _ _ _ => s end.
Definition color n : Color := match n with EmptyRep => Black | Rep c _ _ _ _ => c end.
Definition left n : LlrbNode := match n with EmptyRep => EmptyRep | Rep _ _ l _ _ => l end.
Definition right n : LlrbNode := match n with EmptyRep => EmptyRep | Rep _ _ _ _ r => r end.
Definition entry n : K * V := match n with EmptyRep => inhabitant | Rep _ _ _ e _ => e end.
Definition key n : K := (entry n).1.
Definition value n : V := (entry n).2.
Definition empty n : bool := size n =? 0.
Definition red n : bool := match color n with Red => true | Black => false end.

Fixpoint min n : LlrbNode :=
  match n with EmptyRep => EmptyRep | Rep _ _ l _ _ => if negb (empty l) then min l else n end.
Fixpoint max n : LlrbNode :=
  match n with EmptyRep => EmptyRep | Rep _ _ _ _ r => if negb (empty r) then max r else n end.

(** [Rep]'s constructor that adds up the sizes. *)
Definition new_rep (e : K * V) (c : Color) (l r : LlrbNode) : LlrbNode := Rep c (u31 (u32 (size l + 1 + size r))) l e r.
Definition Clone n : LlrbNode := Rep (color n) (size n) (left n) (entry n) (right n).
Definition set_size (s : Z) n : LlrbNode := Rep (color n) (u31 s) (left n) (entry n) (right n).
Definition set_entry (e : K * V) n : LlrbNode := Rep (color n) (size n) (left n) e (right n).
Definition set_value (v : V) n : LlrbNode := Rep (color n) (size n) (left n) (key n, v) (right n).
Definition set_color (c : Color) n : LlrbNode := Rep c (size n) (left n) (entry n) (right n).
Definition set_left (l : LlrbNode) n : LlrbNode := Rep (color n) (size n) l (entry n) (right n).
Definition set_right (r : LlrbNode) n : LlrbNode := Rep (color n) (size n) (left n) (entry n) r.
Definition OppositeColor n : Color := match color n with Red => Black | Black => Red end.

Definition RotateLeft n : LlrbNode :=
  let new_left := new_rep (entry n) Red (left n) (left (right n)) in
  let n1 := set_entry (entry (right n)) n in
  let n2 := set_left new_left n1 in
  set_right (right (right n2)) n2.
Definition RotateRight n : LlrbNode :=
  let new_right := new_rep (entry n) Red (right (left n)) (right n) in
  let n1 := set_entry (entry (left n)) n in
  let n2 := set_left (left (left n1)) n1 in
  set_right new_right n2.
Definition FlipColor n : LlrbNode :=
  let new_left := set_color (OppositeColor (left n)) (Clone (left n)) in
  let new_right := set_color (OppositeColor (right n)) (Clone (right n)) in
  set_right new_right (set_left new_left (set_color (OppositeColor n) n)).

Definition FixUp n : LlrbNode :=
  let n1 := set_size (u32 (size (left n) + 1 + size (right n))) n in
  let n2 := if red (right n1) && negb (red (left n1)) then RotateLeft n1 else n1 in
  let n3 := if red (left n2) && red (left (left n2)) then RotateRight n2 else n2 in
  if red (left n3) && red (right n3) then FlipColor n3 else n3.
Definition FixRootColor n : LlrbNode := if red n then set_color Black n else n.

Definition MoveRedLeft n : LlrbNode :=
  let n1 := FlipColor n in
  if red (left (right n1)) then FlipColor (RotateLeft (set_right (RotateRight (Clone (right n1))) n1)) else n1.
Definition MoveRedRight n : LlrbNode :=
  let n1 := FlipColor n in
  if red (left (left n1)) then FlipColor (RotateRight n1) else n1.

(** The recursion goes through nodes it has just rotated: [fuel] bounds it, [None] is out of fuel. *)
Fixpoint RemoveMin (fuel : nat) n : option LlrbNode :=
  match fuel with
  | O => None
  | S fuel =>
      if empty (left n) then Some EmptyRep
      else
        let n1 := if negb (red (left n)) && negb (red (left (left n))) then MoveRedLeft n else n in
        new_left ← RemoveMin fuel (Clone (left n1));
        Some (FixUp (set_left new_left n1))
  end.

Context (cmp : K -> K -> comparison).

Fixpoint InnerInsert (k : K) (v : V) n : LlrbNode :=
  match n with
  | EmptyRep => new_rep (k, v) Red EmptyRep EmptyRep
  | Rep _ _ l _ r =>
      if empty n then new_rep (k, v) Red EmptyRep EmptyRep
      else
        let result := Clone n in
        match cmp (key n) k with
        | Gt => FixUp (set_left (InnerInsert k v l) result)
        | Lt => FixUp (set_right (InnerInsert k v r) result)
        | Eq => set_value v result
        end
  end.
Definition insert (k : K) (v : V) n : LlrbNode := FixRootColor (InnerInsert k v n).

Fixpoint InnerErase (fuel : nat) (k : K) n : option LlrbNode :=
  match fuel with
  | O => None
  | S fuel =>
      if empty n then Some EmptyRep
      else
        let n := Clone n in
        match cmp k (key n) with
        | Lt =>
            let n1 := if negb (empty (left n)) && negb (red (left n)) && negb (red (left (left n))) then MoveRedLeft n else n in
            new_left ← InnerErase fuel k (left n1);
            Some (FixUp (set_left new_left n1))
        | _ =>
            let n1 := if red (left n) then RotateRight n else n in
            let n2 := if negb (empty (right n1)) && negb (red (right n1)) && negb (red (left (right n1))) then MoveRedRight n1 else n1 in
            match cmp k (key n2) with
            | Eq =>
                if empty (right n2) then Some EmptyRep
                else
                  let smallest := min (right n2) in
                  new_right ← RemoveMin fuel (Clone (right n2));
                  Some (FixUp (set_right new_right (set_entry (entry smallest) n2)))
            | _ =>
                new_right ← InnerErase fuel k (right n2);
                Some (FixUp (set_right new_right n2))
            end
        end
  end.

(** The entries of a tree, in order. *)
Fixpoint elements n : list (K * V) :=
  match n with EmptyRep => [] | Rep _ _ l e r => elements l ++ e :: elements r end.

(** Every step goes to a smaller tree. *)
Definition erase_fuel n : nat := S (length (elements n)).
Definition erase (k : K) n : option LlrbNode := FixRootColor <$> InnerErase (erase_fuel n) k n.

(** ** The iterator: the nodes still to come, the next one on top *)

Fixpoint AccumulateLeft n (stack : list LlrbNode) : list LlrbNode :=
  match n with EmptyRep => stack | Rep _ _ l _ _ => if negb (empty n) then AccumulateLeft l (n :: stack) else stack end.
Definition Begin (root : LlrbNode) : list LlrbNode := AccumulateLeft root [].
Definition End : list LlrbNode := [].
Fixpoint lower_bound_from n (k : K) (stack : list LlrbNode) : list LlrbNode :=
  match n with
  | EmptyRep => stack
  | Rep _ _ l _ r =>
      if negb (empty n) then
        match cmp k (key n) with
        | Eq => n :: stack
        | Lt => lower_bound_from l k (n :: stack)
        | Gt => lower_bound_from r k stack
        end
      else stack
  end.
Definition LowerBound (root : LlrbNode) (k : K) : list LlrbNode := lower_bound_from root k [].
Definition is_end (it : list LlrbNode) : bool := match it with [] => true | _ => false end.
(** [None]: the assertion that the iterator is not at its end fails. *)
Definition get (it : list LlrbNode) : option (K * V) := entry <$> head it.
Definition next (it : list LlrbNode) : option (list LlrbNode) :=
  match it with [] => None | n :: stack => Some (AccumulateLeft (right n) stack) end.
Definition same_position `{!EqDecision K} (a b : list LlrbNode) : bool :=
  match get a, get b with
  | None, None => true
  | Some x, Some y => bool_decide (x.1 = y.1)
  | _, _ => false
  end.

(** ** TreeSortedMap: its root; the comparator is [cmp] *)

Definition Create (entries : list (K * V)) : LlrbNode := foldl (fun node element => insert element.1 element.2 node) EmptyRep entries.
Fixpoint contains (k : K) n : bool :=
  match n with
  | EmptyRep => false
  | Rep _ _ l _ r =>
      if negb (empty n) then match cmp k (key n) with Eq => true | Lt => contains k l | Gt => contains k r end else false
  end.
Definition find (k : K) (root : LlrbNode) : list LlrbNode :=
  let found := LowerBound root k in
  match found with
  | n :: _ => match cmp k (key n) with Eq => found | _ => End end
  | [] => End
  end.
Fixpoint find_index_from (k : K) (pruned_nodes : Z) n : Z :=
  match n with
  | EmptyRep => npos
  | Rep _ _ l _ r =>
      if negb (empty n) then
        match cmp k (key n) with
        | Eq => u32 (pruned_nodes + size l)
        | Lt => find_index_from k pruned_nodes l
        | Gt => find_index_from k (u32 (pruned_nodes + (size l + 1))) r
        end
      else npos
  end.
Definition find_index (k : K) (root : LlrbNode) : Z := find_index_from k 0 root.
Definition max_iterator (root : LlrbNode) : list LlrbNode := if empty root then End else [max root].
End node.
End Tree.
