(* ===== verification/SortedTreeProps.v ===== *)
(** The tree is a sorted list of its entries and a left-leaning red-black tree: erasure, like insertion,
    changes the list as it should and keeps the tree balanced; sizes, searches and iterators agree with
    the list. *)
From stdpp Require Import gmap sorting.
From S2P Require Import Prelude Comparator SortedTree.
Import Tree.

Create HintDb llrb.

(** ** Sorted lists of entries *)

Section entries.
Context {K V : Type} (cmp : K -> K -> comparison).
Implicit Types (l r : list (K * V)) (e : K * V).

Definition before (a b : K * V) : Prop := cmp a.1 b.1 = Lt.
Definition sorted l : Prop := StronglySorted before l.

(** Insertion: an entry whose key compares equal gets the new value and keeps its key. *)
Fixpoint ins (k : K) (v : V) l : list (K * V) :=
  match l with
  | [] => [(k, v)]
  | e :: l' => match cmp e.1 k with Lt => e :: ins k v l' | Eq => (e.1, v) :: l' | Gt => (k, v) :: l end
  end.
Fixpoint del (k : K) l : list (K * V) :=
  match l with [] => [] | e :: l' => match cmp k e.1 with Eq => del k l' | _ => e :: del k l' end end.
Fixpoint assoc (k : K) l : option V :=
  match l with [] => None | e :: l' => match cmp k e.1 with Eq => Some e.2 | _ => assoc k l' end end.
(** The entries whose key is not before [k]. *)
Fixpoint from (k : K) l : list (K * V) :=
  match l with [] => [] | e :: l' => match cmp e.1 k with Lt => from k l' | _ => l end end.
Fixpoint position (k : K) l : option Z :=
  match l with [] => None | e :: l' => match cmp k e.1 with Eq => Some 0 | _ => Z.succ <$> position k l' end end.

(** The entries put in one after the other. *)
Definition ins_all (es : list (K * V)) : list (K * V) := foldl (fun acc e => ins e.1 e.2 acc) [] es.

Context {W : WeakOrder cmp (fun _ => True)}.

Lemma anti a b : cmp b a = CompOpp (cmp a b).
Proof. by apply (cmp_antisym cmp (fun _ => True)). Qed.
Lemma lt_trans a b c : cmp a b = Lt -> cmp b c = Lt -> cmp a c = Lt.
Proof. by apply (cmp_lt_trans cmp (fun _ => True)). Qed.
Lemma gt_lt a b : cmp a b = Gt <-> cmp b a = Lt.
Proof. rewrite (anti a b). by destruct (cmp a b). Qed.
Lemma eq_sym a b : cmp a b = Eq <-> cmp b a = Eq.
Proof. rewrite (anti a b). by destruct (cmp a b). Qed.
Lemma eq_l a b c : cmp a b = Eq -> cmp a c = cmp b c.
Proof. by apply (cmp_eq_l cmp (fun _ => True)). Qed.
Lemma eq_r a b c : cmp b c = Eq -> cmp a b = cmp a c.
Proof. by apply (cmp_eq_r cmp (fun _ => True)). Qed.
Lemma le_lt a b c : cmp a b <> Gt -> cmp b c = Lt -> cmp a c = Lt.
Proof. by apply (cmp_le_lt_trans cmp (fun _ => True)). Qed.
Lemma lt_le a b c : cmp a b = Lt -> cmp b c <> Gt -> cmp a c = Lt.
Proof. by apply (cmp_lt_le_trans cmp (fun _ => True)). Qed.
Lemma same_refl a : cmp a a = Eq.
Proof. by apply (cmp_refl cmp (fun _ => True)). Qed.

(** All of [l] comes before the key [k]; all of [r] after it. *)
Definition below l (k : K) : Prop := Forall (fun e => cmp e.1 k = Lt) l.
Definition above (k : K) r : Prop := Forall (fun e => cmp k e.1 = Lt) r.

Lemma below_le l k k' : below l k -> cmp k k' <> Gt -> below l k'.
Proof. intros H Hk. eapply Forall_impl; [apply H|]. intros e He. by apply lt_le with k. Qed.
Lemma above_le k k' r : cmp k k' <> Gt -> above k' r -> above k r.
Proof. intros Hk H. eapply Forall_impl; [apply H|]. intros e He. by apply le_lt with k'. Qed.

Lemma sorted_app l e r : sorted (l ++ e :: r) <-> sorted l /\ sorted r /\ below l e.1 /\ above e.1 r.
Proof.
  unfold sorted, below, above. induction l as [|x l IH]; cbn [app].
  - split; [intros [? ?]%StronglySorted_inv; repeat split; [constructor|done|constructor|done]|].
    intros (_ & ? & _ & ?). by constructor.
  - split.
    + intros [(H1 & H2 & H3 & H4)%IH H5]%StronglySorted_inv. apply Forall_app in H5 as [H5 [H6 H7]%Forall_cons].
      repeat split; [by constructor|done|by constructor|done].
    + intros ([H1 H2]%StronglySorted_inv & H3 & [H4 H5]%Forall_cons & H6). constructor; [by apply IH|].
      apply Forall_app; split; [done|constructor; [done|]]. eapply Forall_impl; [apply H6|]. intros y Hy. by apply lt_trans with e.1.
Qed.

Lemma ins_left k v l e r : cmp e.1 k = Gt -> ins k v (l ++ e :: r) = ins k v l ++ e :: r.
Proof. intros H. induction l as [|x l IH]; cbn; [by rewrite H|]. rewrite IH. by destruct (cmp x.1 k). Qed.
Lemma ins_below k v l r : below l k -> ins k v (l ++ r) = l ++ ins k v r.
Proof. induction 1 as [|x l Hx _ IH]; cbn; [done|]. by rewrite Hx, IH. Qed.

Lemma from_below k l r : below l k -> from k (l ++ r) = from k r.
Proof. induction 1 as [|x l Hx _ IH]; cbn; [done|]. by rewrite Hx. Qed.
Lemma from_left k l e r : cmp k e.1 = Lt -> from k (l ++ e :: r) = from k l ++ e :: r.
Proof.
  intros H%gt_lt. induction l as [|x l IH]; cbn; [by rewrite H|]. rewrite IH. by destruct (cmp x.1 k).
Qed.

Lemma del_app k l r : del k (l ++ r) = del k l ++ del k r.
Proof. induction l as [|x l IH]; cbn; [done|]. rewrite IH. by destruct (cmp k x.1). Qed.
Lemma del_above k r : above k r -> del k r = r.
Proof. induction 1 as [|x r Hx _ IH]; cbn; [done|]. by rewrite Hx, IH. Qed.
Lemma del_below k l : below l k -> del k l = l.
Proof. induction 1 as [|x r Hx%gt_lt _ IH]; cbn; [done|]. by rewrite Hx, IH. Qed.
Lemma del_length k l : (length (del k l) <= length l)%nat.
Proof. induction l as [|x l IH]; cbn; [lia|]. destruct (cmp k x.1); cbn; lia. Qed.
Lemma ins_length k v l : (length (ins k v l) <= S (length l))%nat.
Proof. induction l as [|x l IH]; cbn; [lia|]. destruct (cmp x.1 k); cbn; lia. Qed.

Lemma ins_all_len es : len (ins_all es) <= len es.
Proof.
  unfold ins_all. induction es as [|e es IH] using rev_ind; [done|]. rewrite foldl_snoc, len_app, len_cons.
  pose proof (ins_length e.1 e.2 (foldl (fun acc e => ins e.1 e.2 acc) [] es)). unfold len in *. cbn. lia.
Qed.

Lemma assoc_below k l r : below l k -> assoc k (l ++ r) = assoc k r.
Proof. induction 1 as [|x l Hx%gt_lt _ IH]; cbn; [done|]. by rewrite Hx. Qed.
Lemma assoc_above k r : above k r -> assoc k r = None.
Proof. induction 1 as [|x r Hx _ IH]; cbn; [done|]. by rewrite Hx. Qed.
Lemma assoc_left k l r : above k r -> assoc k (l ++ r) = assoc k l.
Proof. intros H. induction l as [|x l IH]; cbn; [by apply assoc_above|]. by destruct (cmp k x.1). Qed.
Lemma position_below k l r : below l k -> position k (l ++ r) = (fun i => len l + i) <$> position k r.
Proof.
  induction 1 as [|x l Hx%gt_lt _ IH]; cbn [app position]; [by destruct (position k r)|].
  rewrite Hx, IH. destruct (position k r); cbn; [|done]. f_equal. rewrite len_cons. lia.
Qed.
Lemma position_above k r : above k r -> position k r = None.
Proof. induction 1 as [|x r Hx _ IH]; cbn; [done|]. by rewrite Hx, IH. Qed.
Lemma position_left k l r : above k r -> position k (l ++ r) = position k l.
Proof. intros H. induction l as [|x l IH]; cbn; [by apply position_above|]. rewrite IH. by destruct (cmp k x.1). Qed.

Lemma Forall_ins (P : K -> Prop) k v l : P k -> Forall (fun e => P e.1) l -> Forall (fun e => P e.1) (ins k v l).
Proof.
  intros Hk. induction 1 as [|x l Hx Hl IH]; cbn; [by repeat constructor|]. destruct (cmp x.1 k); repeat constructor; done.
Qed.
Lemma Forall_del (P : K * V -> Prop) k l : Forall P l -> Forall P (del k l).
Proof. induction 1 as [|x l Hx Hl IH]; cbn; [by constructor|]. destruct (cmp k x.1); [done|by constructor..]. Qed.

Lemma sorted_ins k v l : sorted l -> sorted (ins k v l).
Proof.
  induction 1 as [|x l Hl IH Hx]; cbn; [by repeat constructor|]. destruct (cmp x.1 k) eqn:E.
  - by constructor.
  - constructor; [done|]. by apply (Forall_ins (fun k' => cmp x.1 k' = Lt)).
  - apply gt_lt in E. constructor; [by constructor|]. constructor; [done|].
    eapply Forall_impl; [apply Hx|]. intros y Hy. by apply lt_trans with x.1.
Qed.
Lemma sorted_del k l : sorted l -> sorted (del k l).
Proof.
  induction 1 as [|x l Hl IH Hx]; cbn; [constructor|]. destruct (cmp k x.1); [done|constructor; [done|by apply Forall_del]..].
Qed.
Lemma sorted_from k l : sorted l -> sorted (from k l).
Proof. induction 1 as [|x l Hl IH Hx]; cbn; [constructor|]. destruct (cmp x.1 k); [by constructor|done|by constructor]. Qed.

(** What the operations do to a lookup. *)
Lemma assoc_ins k v k' l : sorted l -> assoc k' (ins k v l) = match cmp k' k with Eq => Some v | _ => assoc k' l end.
Proof.
  induction 1 as [|x l Hl IH Hx]; cbn; [by destruct (cmp k' k)|]. destruct (cmp x.1 k) eqn:E; cbn.
  - by rewrite (eq_r k' _ _ E); destruct (cmp k' k).
  - rewrite IH. destruct (cmp k' k) eqn:E'; [|done..]. assert (cmp k' x.1 = Gt) as ->; [|done].
    apply gt_lt. by rewrite (eq_r x.1 _ _ E').
  - by destruct (cmp k' k).
Qed.
Lemma assoc_del k k' l : assoc k' (del k l) = match cmp k' k with Eq => None | _ => assoc k' l end.
Proof.
  induction l as [|x l IH]; cbn; [by destruct (cmp k' k)|]. destruct (cmp k x.1) eqn:E; cbn.
  - rewrite IH, (eq_r k' _ _ E). by destruct (cmp k' x.1).
  - rewrite IH. destruct (cmp k' x.1) eqn:E'; [|done..]. rewrite (eq_l _ _ k E'), anti, E. done.
  - rewrite IH. destruct (cmp k' x.1) eqn:E'; [|done..]. rewrite (eq_l _ _ k E'), anti, E. done.
Qed.
Lemma assoc_from k l : sorted l -> assoc k (from k l) = assoc k l.
Proof.
  induction 1 as [|x l Hl IH Hx]; cbn; [done|]. destruct (cmp x.1 k) eqn:E; [done| |done]. apply gt_lt in E. by rewrite E.
Qed.
Lemma from_elem k l e : sorted l -> e ∈ from k l <-> e ∈ l /\ cmp e.1 k <> Lt.
Proof.
  induction 1 as [|x l Hl IH Hx]; cbn; [rewrite elem_of_nil; tauto|]. destruct (cmp x.1 k) eqn:E.
  2: { rewrite IH, elem_of_cons. split; [tauto|]. intros [[->|?] ?]; [congruence|done]. }
  all: split; [intros He; split; [done|]|by intros []].
  all: apply elem_of_cons in He as [->|He]; [congruence|]; rewrite Forall_forall in Hx; specialize (Hx e He).
  all: rewrite anti, (le_lt k x.1 e.1); [done|rewrite anti, E; done|done].
Qed.
End entries.

(** ** Sizes and entries *)

Section tree.
Context {K V : Type} `{!Inhabited K, !Inhabited V}.
Abbreviation LlrbNode := (LlrbNode K V).
Implicit Types n t l r : LlrbNode.

(** Every size field holds the number of entries below it, which fits. *)
Fixpoint sized t : Prop :=
  match t with EmptyRep => True | Rep _ s l _ r => s = len (elements t) /\ s < 2 ^ 31 /\ sized l /\ sized r end.
(** The same of both sides, the node's own field aside. *)
Definition kids_sized t : Prop := sized (left t) /\ sized (right t) /\ len (elements t) < 2 ^ 31.

Lemma len_Rep c s l e r : len (elements (Rep c s l e r)) = len (elements l) + 1 + len (elements r).
Proof. cbn [elements]. rewrite len_app, len_cons. lia. Qed.

Lemma sized_size t : sized t -> size t = len (elements t).
Proof. destruct t; [done|]. by intros []. Qed.
Lemma sized_empty t : sized t -> empty t = true <-> t = EmptyRep.
Proof.
  intros H. unfold empty. rewrite sized_size, Z.eqb_eq by done. split; [|by intros ->].
  destruct t as [|c s l e r]; [done|]. rewrite len_Rep. pose proof (len_nonneg (elements l)). pose proof (len_nonneg (elements r)). lia.
Qed.
Lemma sized_not_empty c s l e r : sized (Rep c s l e r) -> empty (Rep c s l e r) = false.
Proof. intros H. apply not_true_is_false. by rewrite (sized_empty _ H). Qed.
Lemma sized_kids t : sized t -> kids_sized t.
Proof. destruct t; [done|]. intros (? & ? & ? & ?). unfold kids_sized. repeat split; [done|done|]. lia. Qed.

Lemma sized_sum l r : sized l -> sized r -> len (elements l) + 1 + len (elements r) < 2 ^ 31 ->
  u31 (u32 (size l + 1 + size r)) = len (elements l) + 1 + len (elements r).
Proof.
  intros Hl Hr H. rewrite !sized_size by done. pose proof (len_nonneg (elements l)). pose proof (len_nonneg (elements r)).
  rewrite u32_id by lia. unfold u31. rewrite Z.mod_small; lia.
Qed.
Lemma sized_new_rep e c l r : sized l -> sized r -> len (elements l) + 1 + len (elements r) < 2 ^ 31 -> sized (new_rep e c l r).
Proof. intros Hl Hr H. unfold new_rep. cbn [sized]. rewrite sized_sum, len_Rep by done. done. Qed.
Lemma sized_set_color c c' s l e r : sized (Rep c s l e r) <-> sized (Rep c' s l e r).
Proof. done. Qed.

Lemma red_Rep t : red t = true -> exists s l e r, t = Rep Red s l e r.
Proof. destruct t as [|[] ? ? ? ?]; [done|done|]. intros _. by do 4 eexists. Qed.

(** *** The rotations keep the entries and the sizes *)

Lemma elements_RotateLeft c s l e r : r <> EmptyRep -> elements (RotateLeft (Rep c s l e r)) = elements (Rep c s l e r).
Proof. destruct r; [done|]. intros _. cbn. by rewrite <- app_assoc. Qed.
Lemma elements_RotateRight c s l e r : l <> EmptyRep -> elements (RotateRight (Rep c s l e r)) = elements (Rep c s l e r).
Proof. destruct l; [done|]. intros _. cbn. by rewrite <- app_assoc. Qed.
Lemma elements_FlipColor c s l e r : l <> EmptyRep -> r <> EmptyRep -> elements (FlipColor (Rep c s l e r)) = elements (Rep c s l e r).
Proof. by destruct l, r. Qed.

Lemma sized_RotateLeft c s l e r : r <> EmptyRep -> sized (Rep c s l e r) -> sized (RotateLeft (Rep c s l e r)).
Proof.
  destruct r as [|c' s' rl re rr]; [done|]. intros Hr H. pose proof (elements_RotateLeft c s l e _ Hr) as E.
  destruct H as (Hs & Hb & Hl & _ & _ & Hrl & Hrr). rewrite !len_Rep in Hs. pose proof (len_nonneg (elements rr)).
  change (s = len (elements (RotateLeft (Rep c s l e (Rep c' s' rl re rr)))) /\ s < 2 ^ 31 /\ sized (new_rep e Red l rl) /\ sized rr).
  rewrite E, !len_Rep. split_and!; [done|done| |done]. apply sized_new_rep; [done|done|lia].
Qed.
Lemma sized_RotateRight c s l e r : l <> EmptyRep -> sized (Rep c s l e r) -> sized (RotateRight (Rep c s l e r)).
Proof.
  destruct l as [|c' s' ll le lr]; [done|]. intros Hl H. pose proof (elements_RotateRight c s _ e r Hl) as E.
  destruct H as (Hs & Hb & (_ & _ & Hll & Hlr) & Hr). rewrite !len_Rep in Hs. pose proof (len_nonneg (elements ll)).
  change (s = len (elements (RotateRight (Rep c s (Rep c' s' ll le lr) e r))) /\ s < 2 ^ 31 /\ sized ll /\ sized (new_rep e Red lr r)).
  rewrite E, !len_Rep. split_and!; [done|done|done|]. apply sized_new_rep; [done|done|lia].
Qed.
Lemma sized_FlipColor c s l e r : l <> EmptyRep -> r <> EmptyRep -> sized (Rep c s l e r) -> sized (FlipColor (Rep c s l e r)).
Proof. by destruct l, r. Qed.

(** What a step that rebuilds a node keeps. *)
Definition keeps t t' : Prop := elements t' = elements t /\ t' <> EmptyRep /\ sized t'.

Lemma keeps_RotateLeft t : sized t -> right t <> EmptyRep -> keeps t (RotateLeft t).
Proof. destruct t; [done|]. intros. split_and!; [by apply elements_RotateLeft|done|by apply sized_RotateLeft]. Qed.
Lemma keeps_RotateRight t : sized t -> left t <> EmptyRep -> keeps t (RotateRight t).
Proof. destruct t; [done|]. intros. split_and!; [by apply elements_RotateRight|done|by apply sized_RotateRight]. Qed.
Lemma keeps_FlipColor t : sized t -> left t <> EmptyRep -> right t <> EmptyRep -> keeps t (FlipColor t).
Proof. destruct t; [done|]. intros. split_and!; [by apply elements_FlipColor|done|by apply sized_FlipColor]. Qed.
Lemma keeps_refl t : sized t -> t <> EmptyRep -> keeps t t.
Proof. done. Qed.
Lemma keeps_trans t1 t2 t3 : keeps t1 t2 -> keeps t2 t3 -> keeps t1 t3.
Proof. intros (H1 & _ & _) (H2 & H3 & H4). split_and!; [by rewrite H2|done|done]. Qed.
Lemma keeps_if (b : bool) t (f : LlrbNode -> LlrbNode) : sized t -> t <> EmptyRep -> (b = true -> keeps t (f t)) -> keeps t (if b then f t else t).
Proof. destruct b; [by auto|done]. Qed.
Lemma red_not_empty t : red t = true -> t <> EmptyRep.
Proof. by intros H ->. Qed.

Lemma FixUp_keeps t : t <> EmptyRep -> kids_sized t -> keeps t (FixUp t).
Proof.
  destruct t as [|c s l e r]; [done|]. intros _ (Hl & Hr & Hs). cbn [left right] in Hl, Hr. rewrite len_Rep in Hs.
  unfold FixUp. cbv zeta. set (n1 := set_size _ _).
  assert (K1 : keeps (Rep c s l e r) n1).
  { split_and!; [done|done|]. change n1 with (Rep c (u31 (u32 (size l + 1 + size r))) l e r).
    cbn [sized]. rewrite sized_sum, len_Rep by done. done. }
  set (n2 := if red (right n1) && negb (red (left n1)) then RotateLeft n1 else n1).
  assert (K2 : keeps (Rep c s l e r) n2).
  { apply keeps_trans with n1; [done|]. destruct K1 as (_ & ? & ?). apply keeps_if; [done|done|].
    intros [Hc _]%andb_true_iff. apply keeps_RotateLeft; [done|by apply red_not_empty]. }
  set (n3 := if red (left n2) && red (left (left n2)) then RotateRight n2 else n2).
  assert (K3 : keeps (Rep c s l e r) n3).
  { apply keeps_trans with n2; [done|]. destruct K2 as (_ & ? & ?). apply keeps_if; [done|done|].
    intros [Hc _]%andb_true_iff. apply keeps_RotateRight; [done|by apply red_not_empty]. }
  apply keeps_trans with n3; [done|]. destruct K3 as (_ & ? & ?). apply keeps_if; [done|done|].
  intros [H1 H2]%andb_true_iff. apply keeps_FlipColor; [done|by apply red_not_empty..].
Qed.

Lemma keeps_FixRootColor t : sized t -> elements (FixRootColor t) = elements t /\ sized (FixRootColor t).
Proof. unfold FixRootColor. destruct t as [|[] s l e r]; cbn; done. Qed.

(** A node with a new side. *)
Lemma kids_set_left t l : sized l -> sized (right t) -> len (elements l) + 1 + len (elements (right t)) < 2 ^ 31 ->
  kids_sized (set_left l t).
Proof. intros. split_and!; [done|done|]. unfold set_left. by rewrite len_Rep. Qed.
Lemma kids_set_right t r : sized (left t) -> sized r -> len (elements (left t)) + 1 + len (elements r) < 2 ^ 31 ->
  kids_sized (set_right r t).
Proof. intros. split_and!; [done|done|]. unfold set_right. by rewrite len_Rep. Qed.

(** ** Balance *)

(** A left-leaning red-black tree of a given black height with a root of a given colour: both children
    of a red node are black, a right child is black, and all paths pass as many black nodes. *)
Inductive legal : nat -> Color -> LlrbNode -> Prop :=
| legal_empty : legal 0 Black EmptyRep
| legal_red h s l e r : legal h Black l -> legal h Black r -> legal h Red (Rep Red s l e r)
| legal_black h c s l e r : legal h c l -> legal h Black r -> legal (S h) Black (Rep Black s l e r).
#[local] Hint Constructors legal : llrb.

Lemma legal_color h c t : legal h c t -> color t = c.
Proof. by destruct 1. Qed.
Lemma legal_blacken h t : legal h Red t -> legal (S h) Black (set_color Black t).
Proof. inversion 1; simplify_eq/=; eauto with llrb. Qed.

(** A red node whose left child is red too: only the root may be one, until [FixRootColor]. *)
Inductive leaning (h : nat) : LlrbNode -> Prop :=
| leaning_red s l e r : legal h Red l -> legal h Black r -> leaning h (Rep Red s l e r).
#[local] Hint Constructors leaning : llrb.

(** What insertion below a node of a colour leaves. *)
Definition grown (h : nat) (c : Color) t : Prop :=
  match c with Black => exists c', legal h c' t | Red => legal h Red t \/ leaning h t end.

Ltac unfold_node :=
  cbv beta iota zeta delta [FixUp FixRootColor MoveRedLeft MoveRedRight FlipColor RotateLeft RotateRight Clone new_rep set_size set_entry set_value
    set_color set_left set_right OppositeColor left right color entry size red negb andb].
Ltac open_node H := inversion H; clear H; simplify_eq.
Ltac balance :=
  repeat match goal with
    | H : legal _ Red _ |- _ => open_node H
    | H : leaning _ _ |- _ => open_node H
  end;
  unfold_node;
  repeat match goal with
    | H : legal _ Black ?t |- context [match ?t with EmptyRep => Black | Rep c _ _ _ _ => c end] =>
        let E := fresh in pose proof (legal_color _ _ _ H) as E; unfold color in E; rewrite E; clear E; unfold_node
    end;
  eauto 8 with llrb.

Lemma FixUp_grown_left h c s l e r : grown h c l -> legal h Black r -> exists c', legal (S h) c' (FixUp (Rep Black s l e r)).
Proof. destruct c; [intros [[] Hl] Hr|intros [Hl|Hl] Hr]; balance. Qed.
Lemma FixUp_red_left h c s l e r : legal h c l -> legal h Black r -> grown h Red (FixUp (Rep Red s l e r)).
Proof. destruct c; intros Hl Hr; cbn [grown]; balance. Qed.
Lemma FixUp_right h c c' s l e r : legal h c l -> legal h c' r -> exists c'', legal (S h) c'' (FixUp (Rep Black s l e r)).
Proof. destruct c, c'; intros Hl Hr; balance. Qed.
Lemma FixUp_red_right h c s l e r : legal h Black l -> legal h c r -> grown h Red (FixUp (Rep Red s l e r)).
Proof. destruct c; intros Hl Hr; cbn [grown]; balance. Qed.

Context (cmp : K -> K -> comparison) {W : WeakOrder cmp (fun _ => True)}.
Abbreviation sorted t := (sorted cmp (elements t)).

(** *** Insertion *)

Lemma InnerInsert_spec k v t : sized t -> sorted t -> len (elements t) + 1 < 2 ^ 31 ->
  let t' := InnerInsert cmp k v t in elements t' = ins cmp k v (elements t) /\ t' <> EmptyRep /\ sized t'.
Proof.
  intros Hs Ho Hb. induction t as [|c s l IHl e r IHr]; [done|]. cbn [InnerInsert].
  rewrite sized_not_empty by done. cbv zeta. destruct Hs as (Hs & _ & Hl & Hr).
  rewrite len_Rep in Hb. pose proof (len_nonneg (elements l)). pose proof (len_nonneg (elements r)).
  apply (sorted_app cmp) in Ho as (Hol & Hor & Hbe & Hab). unfold key. cbn [entry]. destruct (cmp e.1 k) eqn:E.
  - cbn. split; [|split; [done|]].
    + rewrite ins_below by (apply (below_le cmp _ e.1); [done|by rewrite E]). cbn. by rewrite E.
    + rewrite Hs, len_Rep, len_app, len_cons. split_and!; [lia|lia|done|done].
  - destruct IHr as (Er & _ & Hr'); [done|done|lia|]. pose proof (ins_length cmp k v (elements r)).
    destruct (FixUp_keeps (set_right (InnerInsert cmp k v r) (Clone (Rep c s l e r)))) as (-> & ? & ?); [done| |].
    + apply kids_set_right; [done|done|]. cbn [left Clone]. rewrite Er. unfold len in *. lia.
    + split; [|done]. cbn. rewrite Er, ins_below by (apply (below_le cmp _ e.1); [done|by rewrite E]). cbn. by rewrite E.
  - destruct IHl as (El & _ & Hl'); [done|done|lia|]. pose proof (ins_length cmp k v (elements l)).
    destruct (FixUp_keeps (set_left (InnerInsert cmp k v l) (Clone (Rep c s l e r)))) as (-> & ? & ?); [done| |].
    + apply kids_set_left; [done|done|]. cbn [right Clone]. rewrite El. unfold len in *. lia.
    + split; [|done]. cbn. by rewrite El, ins_left.
Qed.

Lemma InnerInsert_grown k v t h c : sized t -> legal h c t -> grown h c (InnerInsert cmp k v t).
Proof.
  intros Hs H. revert Hs. induction H as [|h s l e r Hl IHl Hr IHr|h c s l e r Hl IHl Hr IHr]; intros Hs; cbn [InnerInsert].
  - exists Red. unfold new_rep. eauto with llrb.
  - rewrite sized_not_empty by done. cbv zeta. destruct Hs as (_ & _ & Hsl & Hsr). destruct (cmp _ k).
    + left. cbn. eauto with llrb.
    + destruct (IHr Hsr) as [c' H']. by apply FixUp_red_right with c'.
    + destruct (IHl Hsl) as [c' H']. by apply FixUp_red_left with c'.
  - rewrite sized_not_empty by done. cbv zeta. destruct Hs as (_ & _ & Hsl & Hsr). destruct (cmp _ k).
    + exists Black. cbn. eauto with llrb.
    + destruct (IHr Hsr) as [c' H']. by apply FixUp_right with c c'.
    + apply FixUp_grown_left with c; [by apply IHl|done].
Qed.

(** A tree of the map: sorted, a black root, balanced, sizes right. *)
Record wf t : Prop := {
  wf_sorted : sorted t;
  wf_sized : sized t;
  wf_legal : exists h, legal h Black t
}.

Lemma legal_FixRootColor h c t : legal h c t -> exists h', legal h' Black (FixRootColor t).
Proof. destruct 1; unfold_node; eauto with llrb. Qed.
Lemma leaning_FixRootColor h t : leaning h t -> exists h', legal h' Black (FixRootColor t).
Proof. exists (S h). balance. Qed.

Lemma insert_spec k v t : wf t -> len (elements t) + 1 < 2 ^ 31 ->
  elements (insert cmp k v t) = ins cmp k v (elements t) /\ wf (insert cmp k v t).
Proof.
  intros [Ho Hs [h Hh]] Hb. destruct (InnerInsert_spec k v t) as (E & _ & Hs'); [done..|].
  destruct (keeps_FixRootColor (InnerInsert cmp k v t)) as [E2 H2]; [done|]. unfold insert. split; [by rewrite E2|].
  split; [|done|].
  - rewrite E2, E. by apply sorted_ins.
  - destruct (InnerInsert_grown k v t h Black) as [c Hc]; [done|done|]. by apply legal_FixRootColor with h c.
Qed.

(** *** Erasure: the shapes *)

(** A subtree from which an entry can be taken: its root or its left child is red. *)
Definition target (h : nat) (c : Color) t : Prop := legal h c t /\ (c = Black -> red (left t) = true).
(** What is left of it. *)
Definition outcome (h : nat) (c : Color) t : Prop := match c with Red => exists c', legal h c' t | Black => legal h Black t end.
(** A black node with a red right child, to which [MoveRedRight] may lead. *)
Inductive slanted (h : nat) : LlrbNode -> Prop :=
| slanted_black s l e r : legal h Black l -> legal h Red r -> slanted h (Rep Black s l e r).
#[local] Hint Constructors slanted : llrb.
(** What is left of a node with two black children: only the root may be one that is black itself. *)
Definition rest (h : nat) (c : Color) t : Prop :=
  match c with Red => exists c', legal h c' t | Black => legal (S h) Black t \/ (exists h', h = S h' /\ leaning h' t) \/ (h = 0%nat /\ t = EmptyRep) end.

Lemma black_inv h t : legal (S h) Black t -> exists c s l e r, t = Rep Black s l e r /\ legal h c l /\ legal h Black r.
Proof. inversion 1; simplify_eq. by do 5 eexists. Qed.
Lemma red_inv h t : legal h Red t -> exists s l e r, t = Rep Red s l e r /\ legal h Black l /\ legal h Black r.
Proof. inversion 1; simplify_eq. by do 4 eexists. Qed.
Lemma red_legal h c t : legal h c t -> red t = match c with Red => true | Black => false end.
Proof. intros H. unfold red. by rewrite (legal_color _ _ _ H). Qed.
Lemma red_legal_true h c t : legal h c t -> red t = true -> c = Red.
Proof. intros H. rewrite (red_legal _ _ _ H). by destruct c. Qed.
Lemma red_legal_false h c t : legal h c t -> red t = false -> c = Black.
Proof. intros H. rewrite (red_legal _ _ _ H). by destruct c. Qed.

Lemma FixUp_outcome_left h s l e r : outcome h Red l -> legal h Black r -> legal (S h) Black (FixUp (Rep Black s l e r)).
Proof. intros [[] Hl] Hr; balance. Qed.
Lemma FixUp_outcome_right h s l e r : legal h Black l -> outcome h Red r -> legal (S h) Black (FixUp (Rep Black s l e r)).
Proof. intros Hl [[] Hr]; balance. Qed.
Lemma FixUp_black_left h c s l e r : legal h Black l -> legal h Black r -> rest h c (FixUp (Rep c s l e r)).
Proof. destruct c; intros Hl Hr; cbn [rest]; [left|exists Red]; balance. Qed.


Lemma MoveRedLeft_shape h c s l e r : legal (S h) Black l -> red (left l) = false -> legal (S h) Black r ->
  exists h1 c1, target h1 c1 (left (MoveRedLeft (Rep c s l e r))) /\
    forall l', outcome h1 c1 l' -> rest (S h) c (FixUp (set_left l' (MoveRedLeft (Rep c s l e r)))).
Proof.
  intros (cl & sl & ll & le & lr & -> & Hll & Hlr)%black_inv Hred (cr & sr & rl & re & rr & -> & Hrl & Hrr)%black_inv.
  rewrite (red_legal_false _ _ _ Hll Hred) in Hll. destruct cr.
  - exists h, Red. split; [split; [balance|done]|]. intros l' [[] Hl']; destruct c; cbn [rest]; balance.
  - exists (S h), Black. split; [split; [balance|intros _; balance]|]. intros l' Hl'; destruct c; cbn [rest outcome] in *; balance.
Qed.

Lemma MoveRedRight_shape h c s l e r : legal (S h) Black l -> legal (S h) Black r -> red (left r) = false ->
  let n1 := MoveRedRight (Rep c s l e r) in
  ((entry n1 = e /\ exists h1, target h1 Red (right n1) /\
      forall e' r', outcome h1 Red r' -> rest (S h) c (FixUp (set_right r' (set_entry e' n1)))) \/
   (entry n1 = entry l /\ entry (right n1) = e /\ slanted h (right n1) /\ forall r', outcome (S h) Black r' -> rest (S h) c (FixUp (set_right r' n1)))).
Proof.
  intros (cl & sl & ll & le & lr & -> & Hll & Hlr)%black_inv (cr & sr & rl & re & rr & -> & Hrl & Hrr)%black_inv Hred.
  rewrite (red_legal_false _ _ _ Hrl Hred) in Hrl. destruct cl; cbv zeta.
  - left. split; [balance|]. exists h. split; [split; [balance|done]|]. intros e' r' [[] Hr']; destruct c; cbn [rest]; balance.
  - right. split_and!; [balance|balance|balance|]. intros r' Hr'; destruct c; cbn [rest outcome] in *; balance.
Qed.

End tree.
#[export] Hint Constructors legal leaning slanted : llrb.

Section tree.
Context {K V : Type} `{!Inhabited K, !Inhabited V}.
Abbreviation LlrbNode := (LlrbNode K V).
Implicit Types n t l r : LlrbNode.
Context (cmp : K -> K -> comparison) {W : WeakOrder cmp (fun _ => True)}.
Abbreviation sorted t := (sorted cmp (elements t)).

(** *** Erasure: the entries *)

Lemma keeps_set_left t l : sized t -> t <> EmptyRep -> keeps (left t) l -> keeps t (set_left l t).
Proof.
  destruct t as [|c s l0 e r]; [done|]. intros (Hs & Hb & _ & Hr) _ (El & _ & Hl). cbn [left] in El.
  assert (E : elements (set_left l (Rep c s l0 e r)) = elements (Rep c s l0 e r)) by (cbn; by rewrite El).
  split_and!; [done|done|]. change (s = len (elements (set_left l (Rep c s l0 e r))) /\ s < 2 ^ 31 /\ sized l /\ sized r). by rewrite E.
Qed.
Lemma keeps_set_right t r : sized t -> t <> EmptyRep -> keeps (right t) r -> keeps t (set_right r t).
Proof.
  destruct t as [|c s l e r0]; [done|]. intros (Hs & Hb & Hl & _) _ (Er & _ & Hr). cbn [right] in Er.
  assert (E : elements (set_right r (Rep c s l e r0)) = elements (Rep c s l e r0)) by (cbn; by rewrite Er).
  split_and!; [done|done|]. change (s = len (elements (set_right r (Rep c s l e r0))) /\ s < 2 ^ 31 /\ sized l /\ sized r). by rewrite E.
Qed.
Lemma Clone_Rep t : t <> EmptyRep -> Clone t = t.
Proof. by destruct t. Qed.

Lemma MoveRedLeft_keeps t : sized t -> left t <> EmptyRep -> right t <> EmptyRep ->
  keeps t (MoveRedLeft t) /\ elements (left t) `prefix_of` elements (left (MoveRedLeft t)).
Proof.
  intros Hs Hl Hr. destruct (keeps_FlipColor t) as (E & Hn & Hs'); [done..|]. unfold MoveRedLeft. cbv zeta.
  destruct (red (left (right (FlipColor t)))) eqn:Ered.
  2: { split; [done|]. destruct t; [done|]. by destruct t1. }
  apply red_not_empty in Ered. rewrite Clone_Rep by (intros H; by rewrite H in Ered).
  assert (Hsr : sized (right (FlipColor t))) by (destruct (FlipColor t); [done|apply Hs']).
  pose proof (keeps_RotateRight _ Hsr Ered) as K1. pose proof (keeps_set_right _ _ Hs' Hn K1) as K2.
  set (n2 := set_right _ _) in *. assert (K3 : keeps n2 (RotateLeft n2)) by (destruct K2 as (_ & _ & ?), K1 as (_ & ? & _); by apply keeps_RotateLeft).
  assert (K4 : keeps (RotateLeft n2) (FlipColor (RotateLeft n2))) by (destruct K3 as (_ & _ & ?); by apply keeps_FlipColor).
  split; [by eapply keeps_trans, keeps_trans, keeps_trans|]. subst n2. destruct t as [|c s l e r]; [done|]. destruct l; [done|].
  cbn. by eexists.
Qed.

Lemma MoveRedRight_keeps t : sized t -> left t <> EmptyRep -> right t <> EmptyRep -> keeps t (MoveRedRight t) /\
  ((entry (MoveRedRight t) = entry t /\ elements (left (MoveRedRight t)) = elements (left t)) \/
   elements (left (MoveRedRight t)) ++ [entry (MoveRedRight t)] `prefix_of` elements (left t)).
Proof.
  intros Hs Hl Hr. destruct (keeps_FlipColor t) as (E & Hn & Hs'); [done..|]. unfold MoveRedRight. cbv zeta.
  destruct (red (left (left (FlipColor t)))) eqn:Ered.
  2: { split; [done|left]. destruct t; [done|]. by destruct t1. }
  apply red_not_empty in Ered.
  assert (K3 : keeps (FlipColor t) (RotateRight (FlipColor t))) by (apply keeps_RotateRight; [done|intros H; by rewrite H in Ered]).
  assert (K4 : keeps (RotateRight (FlipColor t)) (FlipColor (RotateRight (FlipColor t)))) by (destruct K3 as (_ & _ & ?); by apply keeps_FlipColor).
  split; [by eapply keeps_trans, keeps_trans|right]. destruct t as [|c s l e r]; [done|]. destruct l as [|cl sl ll le lr]; [done|].
  destruct ll; [done|]. cbn. exists (elements lr). by rewrite <- !app_assoc.
Qed.
Lemma RotateRight_prefix t : left t <> EmptyRep -> elements (left (RotateRight t)) ++ [entry (RotateRight t)] `prefix_of` elements (left t).
Proof. destruct t as [|c s l e r]; [done|]. destruct l as [|cl sl ll le lr]; [done|]. intros _. exists (elements lr). cbn. by rewrite <- app_assoc. Qed.
Lemma elements_node t : t <> EmptyRep -> elements t = elements (left t) ++ entry t :: elements (right t).
Proof. by destruct t. Qed.

(** A rebuilt node with a new side. *)
Lemma FixUp_set_left n l : sized n -> n <> EmptyRep -> sized l -> len (elements l) <= len (elements (left n)) ->
  elements (FixUp (set_left l n)) = elements l ++ entry n :: elements (right n) /\ sized (FixUp (set_left l n)).
Proof.
  intros Hs Hn Hl Hlen. destruct (sized_kids n Hs) as (_ & Hr & Hb). rewrite elements_node, len_app, len_cons in Hb by done.
  destruct (FixUp_keeps (set_left l n)) as (E & _ & H); [done|apply kids_set_left; [done|done|lia]|]. by rewrite E.
Qed.
Lemma FixUp_set_right n e r : sized n -> n <> EmptyRep -> sized r -> len (elements r) <= len (elements (right n)) ->
  elements (FixUp (set_right r (set_entry e n))) = elements (left n) ++ e :: elements r /\ sized (FixUp (set_right r (set_entry e n))).
Proof.
  intros Hs Hn Hr Hlen. destruct (sized_kids n Hs) as (Hl & _ & Hb). rewrite elements_node, len_app, len_cons in Hb by done.
  destruct (FixUp_keeps (set_right r (set_entry e n))) as (E & _ & H); [done|apply kids_set_right; [done|done|cbn [set_entry left]; lia]|].
  by rewrite E.
Qed.

(** A step to the left: the node is rebuilt, its left part may take in more and can be erased from;
    whatever is left of it, the node put together again is as [Res] says. *)
Record step_left t n (Res : LlrbNode -> Prop) : Prop := {
  left_keeps : keeps t n;
  left_prefix : elements (left t) `prefix_of` elements (left n);
  left_shape : exists h c, target h c (left n) /\ forall l, outcome h c l -> Res (FixUp (set_left l n))
}.
Definition move_left t : LlrbNode := if negb (red (left t)) && negb (red (left (left t))) then MoveRedLeft t else t.

Lemma move_left_black h c s l e r : legal h Black l -> legal h Black r -> l <> EmptyRep -> sized (Rep c s l e r) ->
  step_left (Rep c s l e r) (move_left (Rep c s l e r)) (rest h c).
Proof.
  intros Hl Hr Hn Hs. unfold move_left. cbn [left]. rewrite (red_legal _ _ _ Hl). cbn [negb andb].
  destruct h as [|h]; [by inversion Hl; simplify_eq|]. destruct (red (left l)) eqn:Ell; cbn [negb].
  - split; [done|done|]. exists (S h), Black. split; [done|]. intros l' Hl'. by apply FixUp_black_left.
  - assert (r <> EmptyRep) by (intros ->; inversion Hr). destruct (MoveRedLeft_keeps (Rep c s l e r)) as [HK HP]; [done..|].
    split; [done|done|]. by apply MoveRedLeft_shape.
Qed.
Lemma move_left_target h c t : target h c t -> left t <> EmptyRep -> sized t -> step_left t (move_left t) (outcome h c).
Proof.
  intros [Ht Hc] Hn Hs. destruct Ht as [|h s l e r Hl Hr|h c s l e r Hl Hr]; [done|by apply (move_left_black h Red)|].
  specialize (Hc eq_refl). cbn [left] in Hc. unfold move_left. cbn [left]. rewrite Hc. cbn [negb andb].
  rewrite (red_legal_true _ _ _ Hl Hc) in Hl. split; [done|done|]. exists h, Red. split; [done|]. intros l' Hl'. by apply FixUp_outcome_left.
Qed.
Lemma elements_nil t : elements t = [] <-> t = EmptyRep.
Proof. split; [|by intros ->]. destruct t as [|c s l e r]; [done|]. cbn. by destruct (elements l). Qed.
Lemma prefix_not_empty t n : left t <> EmptyRep -> elements (left t) `prefix_of` elements (left n) -> left n <> EmptyRep.
Proof. intros H1 [m H2]. rewrite <- !elements_nil in *. intros E. rewrite E in H2. by destruct (elements (left t)). Qed.

(** ** The smallest entry *)

Lemma min_spec t : sized t -> t <> EmptyRep -> head (elements t) = Some (entry (min t)).
Proof.
  induction t as [|c s l IH e r _]; [done|]. intros (_ & _ & Hl & _) _. cbn [min]. destruct (empty l) eqn:El; cbn [negb].
  - apply sized_empty in El as ->; [|done]. done.
  - assert (Hn : l <> EmptyRep) by (intros ->; done). specialize (IH Hl Hn). cbn. by destruct (elements l).
Qed.
Lemma head_tail {A} (l : list A) x : head l = Some x -> l = x :: tail l.
Proof. destruct l; [done|]. cbn. congruence. Qed.
Lemma tail_app {A} (l k : list A) : l <> [] -> tail (l ++ k) = tail l ++ k.
Proof. by destruct l. Qed.
Lemma tail_len {A} (l : list A) : len (tail l) <= len l.
Proof. destruct l; cbn [tail]; [done|]. rewrite len_cons. lia. Qed.

Lemma target_leaf h c t : target h c t -> left t = EmptyRep -> t <> EmptyRep -> h = 0%nat /\ c = Red /\ right t = EmptyRep.
Proof.
  intros [Ht Hc] El Hn. destruct Ht as [|h s l e r Hl Hr|h c s l e r Hl Hr]; [done| |by rewrite El in Hc; specialize (Hc eq_refl)].
  cbn [left] in El. subst l. inversion Hl; simplify_eq. by inversion Hr; simplify_eq.
Qed.

Lemma RemoveMin_spec fuel t h c : target h c t -> sized t -> t <> EmptyRep -> (length (elements t) < fuel)%nat ->
  exists t', RemoveMin fuel t = Some t' /\ elements t' = tail (elements t) /\ sized t' /\ outcome h c t'.
Proof.
  revert t h c. induction fuel as [|fuel IH]; [lia|]. intros t h c Ht Hs Hn Hf. cbn [RemoveMin].
  destruct (sized_kids t Hs) as (Hl & Hr & Hlen). destruct (empty (left t)) eqn:El.
  { apply sized_empty in El; [|done]. destruct (target_leaf _ _ _ Ht El Hn) as (-> & -> & Er).
    exists EmptyRep. rewrite (elements_node t), El, Er by done. cbn. eauto with llrb. }
  assert (Hln : left t <> EmptyRep) by (intros E; by rewrite E in El). fold (move_left t). cbv zeta.
  destruct (move_left_target h c t Ht Hln Hs) as [(E & Hnn & Hsn) HP (h1 & c1 & Hshape & Hres)]. set (n := move_left t) in *.
  assert (Hnl := prefix_not_empty _ _ Hln HP). rewrite Clone_Rep by done. destruct (sized_kids n Hsn) as (Hsl & _ & _).
  assert (Hlt : (length (elements (left n)) < fuel)%nat) by (rewrite <- E, (elements_node n), length_app in Hf by done; cbn in Hf; lia).
  destruct (IH _ _ _ Hshape Hsl Hnl Hlt) as (l & -> & Eml & Hml & Hout). cbn.
  destruct (FixUp_set_left n l) as [E2 H2]; [done|done|done|rewrite Eml; apply tail_len|].
  eexists. split; [done|]. split_and!; [|done|by apply Hres]. rewrite E2, Eml, <- E, (elements_node n), tail_app; [done|by rewrite elements_nil|done].
Qed.

(** ** Erasure *)

(** After a step to the left, a key before the node's is in the left part if anywhere. *)
Lemma prefix_above k t n : elements n = elements t -> n <> EmptyRep -> t <> EmptyRep -> sorted t -> cmp k (key t) = Lt ->
  elements (left t) `prefix_of` elements (left n) -> above cmp k (entry n :: elements (right n)).
Proof.
  unfold key. intros E Hn Ht Ho Hk [m Hm]. rewrite (elements_node n), Hm, <- app_assoc, (elements_node t) in E by done.
  apply app_inv_head in E. rewrite (elements_node t) in Ho by done. apply (sorted_app cmp) in Ho as (_ & _ & _ & Hab).
  assert (Hab' : above cmp k (entry t :: elements (right t))).
  { constructor; [done|]. apply (above_le cmp k (entry t).1); [by rewrite Hk|done]. }
  rewrite <- E in Hab'. by apply Forall_app in Hab' as [_ ?].
Qed.

(** After a step to the right the node has its entry, or an earlier one with less before it. *)
Definition placed t n : Prop :=
  (entry n = entry t /\ elements (left n) = elements (left t)) \/ elements (left n) ++ [entry n] `prefix_of` elements (left t).

Lemma left_below k t : t <> EmptyRep -> sorted t -> cmp k (key t) <> Lt -> below cmp (elements (left t)) k.
Proof.
  unfold key. intros Ht Ho Hk. rewrite (elements_node t) in Ho by done. apply (sorted_app cmp) in Ho as (_ & _ & Hbe & _).
  apply (below_le cmp _ (entry t).1); [done|]. by rewrite (gt_lt cmp).
Qed.
Lemma placed_below k t n : t <> EmptyRep -> sorted t -> cmp k (key t) <> Lt -> placed t n ->
  below cmp (elements (left n)) k /\ cmp k (key n) <> Lt.
Proof.
  intros Ht Ho Hk Hp. pose proof (left_below k t Ht Ho Hk) as Hbe. unfold key in *. destruct Hp as [[He Hl]|[m Hm]].
  - by rewrite Hl, He.
  - rewrite Hm in Hbe. apply Forall_app in Hbe as [[? Hn%Forall_cons]%Forall_app _]. destruct Hn as [Hn _].
    apply (gt_lt cmp) in Hn. by rewrite Hn.
Qed.

(** A step to the right, likewise; the entry of the node is still the one it had, or an earlier one. *)
Record step_right t n (Res : LlrbNode -> Prop) : Prop := {
  right_keeps : keeps t n;
  right_placed : placed t n;
  right_shape :
    (exists h c, target h c (right n) /\ forall e r, outcome h c r -> Res (FixUp (set_right r (set_entry e n)))) \/
    (exists h, slanted h (right n) /\ entry (right n) = entry t /\ entry n ∈ elements (left t) /\
       forall r, outcome (S h) Black r -> Res (FixUp (set_right r n)))
}.
Definition move_right t : LlrbNode :=
  let n1 := if red (left t) then RotateRight t else t in
  if negb (empty (right n1)) && negb (red (right n1)) && negb (red (left (right n1))) then MoveRedRight n1 else n1.

Lemma entry_elem t : t <> EmptyRep -> entry t ∈ elements t.
Proof. intros H. rewrite (elements_node t) by done. rewrite elem_of_app, elem_of_cons. auto. Qed.
Lemma target_not_empty h c t : target h c t -> t <> EmptyRep.
Proof. intros [H Hc] ->. inversion H; subst. by specialize (Hc eq_refl). Qed.

Lemma move_right_black h c s l e r : legal h Black l -> legal h Black r -> r <> EmptyRep -> sized (Rep c s l e r) ->
  step_right (Rep c s l e r) (move_right (Rep c s l e r)) (rest h c).
Proof.
  intros Hl Hr Hn Hs. unfold move_right. cbn [left]. rewrite (red_legal _ _ _ Hl). cbv zeta. cbn [right].
  rewrite (red_legal _ _ _ Hr). cbn [negb]. rewrite andb_true_r.
  assert (empty r = false) as ->. { apply not_true_is_false. rewrite sized_empty; [done|]. by destruct Hs as (_ & _ & _ & ?). }
  destruct h as [|h]; [by inversion Hr; simplify_eq|]. destruct (red (left r)) eqn:Err; cbn [negb andb].
  - split; [done|by left|]. left. exists (S h), Black. split; [done|]. intros e' r' Hr'. by apply FixUp_black_left.
  - assert (Hln : l <> EmptyRep) by (intros ->; inversion Hl). destruct (MoveRedRight_keeps (Rep c s l e r)) as [HK HP]; [done..|].
    split; [done|done|]. destruct (MoveRedRight_shape h c s l e r) as [(_ & h1 & H1)|(E1 & E2 & H1 & H2)]; [done..|left|right].
    + by exists h1, Red.
    + exists h. split_and!; [done|done| |done]. rewrite E1. by apply entry_elem.
Qed.

Lemma move_right_red_left h c s l e r : legal h Red l -> legal h Black r -> sized (Rep c s l e r) ->
  c = Black -> step_right (Rep c s l e r) (move_right (Rep c s l e r)) (outcome (S h) c).
Proof.
  intros Hl Hr Hs ->. unfold move_right. cbn [left]. rewrite (red_legal _ _ _ Hl). cbv zeta.
  assert (Hln : l <> EmptyRep) by (intros ->; inversion Hl).
  pose proof (keeps_RotateRight (Rep Black s l e r) Hs Hln) as HK. pose proof (RotateRight_prefix (Rep Black s l e r) Hln) as HP.
  apply red_inv in Hl as (s' & ll & le & lr & -> & Hll & Hlr).
  assert (red (right (RotateRight (Rep Black s (Rep Red s' ll le lr) e r))) = true) as -> by done.
  cbn [negb]. rewrite andb_false_r. cbn [andb]. split; [done|by right|]. left. exists h, Red. split; [split; [|done]|].
  - cbn. constructor; done.
  - intros e' r' Hr'. by apply FixUp_outcome_right.
Qed.

(** What erasing a key from a tree gives. *)
Definition erases k t (Res : LlrbNode -> Prop) (o : option LlrbNode) : Prop :=
  exists t', o = Some t' /\ elements t' = del cmp k (elements t) /\ sized t' /\ Res t'.
(** The trees [InnerErase] is called on below the root. *)
Definition erasable k h c t : Prop := target h c t \/ (exists h', h = S h' /\ c = Black /\ slanted h' t /\ cmp k (key t) <> Lt).
Definition erase_correct fuel : Prop := forall k t h c, erasable k h c t -> sized t -> sorted t -> (length (elements t) < fuel)%nat ->
  erases k t (outcome h c) (InnerErase cmp fuel k t).

Lemma sorted_sides t : t <> EmptyRep -> sorted t -> sorted (left t) /\ sorted (right t).
Proof. intros Ht. rewrite (elements_node t) by done. by intros (? & ? & _)%(sorted_app cmp). Qed.
Lemma node_length t fuel : t <> EmptyRep -> (length (elements t) < S fuel)%nat ->
  (length (elements (left t)) < fuel)%nat /\ (length (elements (right t)) < fuel)%nat.
Proof. intros Ht. rewrite (elements_node t), length_app by done. cbn. lia. Qed.
Lemma InnerErase_empty fuel k : (0 < fuel)%nat -> InnerErase cmp fuel k (@EmptyRep K V) = Some EmptyRep.
Proof. by destruct fuel; [lia|]. Qed.
Lemma del_len k (l : list (K * V)) : len (del cmp k l) <= len l.
Proof. pose proof (del_length cmp k l). unfold len. lia. Qed.

Lemma InnerErase_left fuel k t Res : erase_correct fuel -> sized t -> sorted t -> t <> EmptyRep ->
  (length (elements t) < S fuel)%nat -> cmp k (key t) = Lt ->
  (left t = EmptyRep -> Res (FixUp t)) -> (left t <> EmptyRep -> step_left t (move_left t) Res) ->
  erases k t Res (InnerErase cmp (S fuel) k t).
Proof.
  intros IH Hs Ho Hn Hf Hk Hleaf Hstep. cbn [InnerErase]. destruct (empty t) eqn:Et; [by apply sized_empty in Et|].
  rewrite Clone_Rep by done. cbv zeta. rewrite Hk. destruct (sized_kids t Hs) as (Hl & Hr & _). destruct (node_length t fuel Hn Hf) as [Hf1 _].
  destruct (empty (left t)) eqn:El; cbn [negb andb].
  - apply sized_empty in El; [|done]. rewrite El, InnerErase_empty by lia. cbn.
    assert (E0 : set_left EmptyRep t = t) by (rewrite <- El; by destruct t). rewrite E0.
    destruct (FixUp_keeps t) as (E & _ & H); [done|by apply sized_kids|]. exists (FixUp t). split_and!; [done| |done|by apply Hleaf].
    rewrite E. symmetry. apply (del_above cmp). rewrite elements_node, El by done.
    by apply (prefix_above k t t).
  - assert (Hln : left t <> EmptyRep) by (intros E; by rewrite E in El). fold (move_left t).
    destruct (Hstep Hln) as [(E & Hnn & Hsn) HP (h & c & Hshape & Hres)]. set (n := move_left t) in *.
    destruct (sized_kids n Hsn) as (Hsl & _ & _). assert (Hon : sorted n) by by rewrite E.
    assert (Hfn : (length (elements (left n)) < fuel)%nat) by (apply node_length; [done|by rewrite E]).
    destruct (IH k (left n) h c) as (l & -> & El' & Hsl' & Hout); [by left|done|by apply sorted_sides|done|]. cbn.
    destruct (FixUp_set_left n l) as [E2 H2]; [done|done|done|rewrite El'; apply del_len|]. eexists. split; [done|].
    split_and!; [|done|by apply Hres]. rewrite E2, El', <- E, (elements_node n), del_app by done. f_equal. symmetry.
    apply (del_above cmp). by apply prefix_above with t.
Qed.

Lemma right_above k n : n <> EmptyRep -> sorted n -> cmp k (key n) <> Gt -> above cmp k (elements (right n)).
Proof.
  unfold key. intros Hn Ho Hk. rewrite (elements_node n) in Ho by done. apply (sorted_app cmp) in Ho as (_ & _ & _ & Hab).
  by apply (above_le cmp k (entry n).1).
Qed.
Lemma set_entry_same n : n <> EmptyRep -> set_entry (entry n) n = n.
Proof. by destruct n. Qed.

(** The end of an erasure in a node: its entry goes, or something in its right part does. *)
Definition erase_here (fuel : nat) n : option LlrbNode :=
  if empty (right n) then Some EmptyRep
  else new_right ← RemoveMin fuel (Clone (right n)); Some (FixUp (set_right new_right (set_entry (entry (min (right n))) n))).

Lemma erase_here_spec fuel k t n h c Res : keeps t n -> sorted t -> below cmp (elements (left n)) k -> cmp k (key n) = Eq ->
  (length (elements t) < S fuel)%nat -> target h c (right n) ->
  (forall e r, outcome h c r -> Res (FixUp (set_right r (set_entry e n)))) -> erases k t Res (erase_here fuel n).
Proof.
  intros (E & Hnn & Hsn) Ho Hb Hk Hf Ht Hres. pose proof (target_not_empty _ _ _ Ht) as Hrn. destruct (sized_kids n Hsn) as (_ & Hsr & _).
  unfold erase_here. destruct (empty (right n)) eqn:Er; [by apply sized_empty in Er|]. rewrite Clone_Rep by done.
  destruct (node_length n fuel) as [_ Hfr]; [done|by rewrite E|].
  destruct (RemoveMin_spec fuel _ _ _ Ht Hsr Hrn Hfr) as (r & -> & Em & Hsr' & Hout). cbn.
  pose proof (head_tail _ _ (min_spec _ Hsr Hrn)) as Eh. rewrite <- Em in Eh.
  destruct (FixUp_set_right n (entry (min (right n))) r) as [E2 H2]; [done|done|done|rewrite Em; apply tail_len|].
  eexists. split; [done|]. split_and!; [|done|by apply Hres]. rewrite E2, <- Eh, <- E, (elements_node n), del_app, (del_below cmp k (elements (left n))) by done.
  f_equal. cbn [del]. unfold key in Hk. rewrite Hk. symmetry. apply (del_above cmp). apply right_above; [done|by rewrite E|].
  unfold key. by rewrite Hk.
Qed.

(** The recursion into the right part. *)
Lemma erase_right_spec fuel k t n h c Res : erase_correct fuel -> keeps t n -> sorted t -> below cmp (elements (left n)) k ->
  cmp k (key n) = Gt -> (length (elements t) < S fuel)%nat -> erasable k h c (right n) ->
  (forall r, outcome h c r -> Res (FixUp (set_right r n))) ->
  erases k t Res (new_right ← InnerErase cmp fuel k (right n); Some (FixUp (set_right new_right n))).
Proof.
  intros IH (E & Hnn & Hsn) Ho Hb Hk Hf Ht Hres. destruct (sized_kids n Hsn) as (_ & Hsr & _).
  destruct (node_length n fuel) as [_ Hfr]; [done|by rewrite E|]. assert (Hon : sorted n) by by rewrite E.
  destruct (IH k (right n) h c) as (r & -> & Er & Hsr' & Hout); [done|done|by apply sorted_sides|done|]. cbn.
  destruct (FixUp_set_right n (entry n) r) as [E2 H2]; [done|done|done|rewrite Er; apply del_len|].
  rewrite set_entry_same in E2, H2 by done. eexists. split; [done|]. split_and!; [|done|by apply Hres].
  rewrite E2, Er, <- E, (elements_node n), del_app, (del_below cmp k (elements (left n))) by done. f_equal. cbn [del]. unfold key in Hk. by rewrite Hk.
Qed.

Lemma InnerErase_right_leaf fuel k t Res : (0 < fuel)%nat -> sized t -> t <> EmptyRep -> cmp k (key t) <> Lt ->
  left t = EmptyRep -> right t = EmptyRep -> Res EmptyRep -> Res (FixUp t) -> erases k t Res (InnerErase cmp (S fuel) k t).
Proof.
  intros Hf Hs Hn Hk El Er H1 H2. destruct t as [|c s l e r]; [done|]. cbn [left right] in El, Er. subst l r.
  cbn [InnerErase]. rewrite sized_not_empty by done. cbv zeta. unfold key in *. cbn [entry] in *.
  cbn [Clone left right red color entry empty size Z.eqb negb andb]. destruct (cmp k e.1) eqn:E; [|done|].
  - exists EmptyRep. split_and!; [done| |done|done]. cbn. by rewrite E.
  - rewrite InnerErase_empty by done. destruct (FixUp_keeps _ Hn (sized_kids _ Hs)) as (E2 & _ & ?).
    exists (FixUp (Rep c s EmptyRep e EmptyRep)). split_and!; [done| |done|done]. rewrite E2. cbn. by rewrite E.
Qed.

Lemma InnerErase_right fuel k t Res : erase_correct fuel -> sized t -> sorted t -> t <> EmptyRep ->
  (length (elements t) < S fuel)%nat -> cmp k (key t) <> Lt -> step_right t (move_right t) Res ->
  erases k t Res (InnerErase cmp (S fuel) k t).
Proof.
  intros IH Hs Ho Hn Hf Hk [HK Hp Hshape]. cbn [InnerErase]. destruct (empty t) eqn:Et; [by apply sized_empty in Et|].
  rewrite Clone_Rep by done. cbv zeta. fold (move_right t). set (n := move_right t) in *. fold (erase_here fuel n).
  destruct (placed_below k t n Hn Ho Hk Hp) as [Hb Hkn].
  assert (erases k t Res match cmp k (key n) with Eq => erase_here fuel n
    | _ => new_right ← InnerErase cmp fuel k (right n); Some (FixUp (set_right new_right n)) end).
  2: by destruct (cmp k (key t)).
  destruct (cmp k (key n)) eqn:E; [|done|]; destruct Hshape as [(h & c & Ht & Hres)|(h & Hsl & Ek & Hin & Hres)].
  - by apply erase_here_spec with h c.
  - pose proof (left_below k t Hn Ho Hk) as Hbl. unfold below in Hbl. rewrite Forall_forall in Hbl. apply Hbl in Hin.
    apply (eq_sym cmp) in E. unfold key in E. congruence.
  - apply erase_right_spec with h c; try done; [by left|]. intros r Hr. destruct HK as (_ & ? & _).
    rewrite <- (set_entry_same n) by done. by apply Hres.
  - apply erase_right_spec with (S h) Black; try done. right. exists h. unfold key. by rewrite Ek.
Qed.

Lemma legal_0 t : legal 0 Black t -> t = EmptyRep.
Proof. by inversion 1. Qed.
Lemma legal_leaf h t : legal h Black t -> t = EmptyRep -> h = 0%nat.
Proof. by intros H ->; inversion H. Qed.
Lemma empty_dec t : {t = EmptyRep} + {t <> EmptyRep}.
Proof. destruct t; [by left|by right]. Qed.

(** A node with two black children. *)
Lemma InnerErase_black_kids fuel k h c s l e r : erase_correct fuel -> legal h Black l -> legal h Black r ->
  sized (Rep c s l e r) -> sorted (Rep c s l e r) -> (length (elements (Rep c s l e r)) < S fuel)%nat ->
  erases k (Rep c s l e r) (rest h c) (InnerErase cmp (S fuel) k (Rep c s l e r)).
Proof.
  intros IH Hl Hr Hs Ho Hf. assert (Hfix : rest h c (FixUp (Rep c s l e r))) by by apply FixUp_black_left.
  destruct (decide (cmp k e.1 = Lt)) as [Hk|Hk].
  - apply InnerErase_left; try done. intros Hn. by apply move_left_black.
  - destruct (empty_dec r) as [->|Hn].
    + pose proof (legal_leaf _ _ Hr eq_refl) as ->. apply legal_0 in Hl as ->.
      apply InnerErase_right_leaf; try done; [cbn in Hf; lia|]. destruct c; cbn; [by right; right|by exists Black; constructor].
    + apply InnerErase_right; try done. by apply move_right_black.
Qed.

Lemma InnerErase_spec fuel : erase_correct fuel.
Proof.
  induction fuel as [|fuel IH]; [intros ? ? ? ? ? ? ?; lia|].
  intros k t h c [[Ht Hc]|(h' & -> & -> & Ht & Hk)] Hs Ho Hf.
  - destruct Ht as [|h s l e r Hl Hr|h c s l e r Hl Hr]; [by specialize (Hc eq_refl)|by apply (InnerErase_black_kids fuel k h Red)|].
    specialize (Hc eq_refl). cbn [left] in Hc. assert (Hln : l <> EmptyRep) by by apply red_not_empty.
    destruct (decide (cmp k e.1 = Lt)) as [Hk|Hk].
    + apply InnerErase_left; try done. intros Hn. apply move_left_target; try done. split; [by econstructor|done].
    + apply InnerErase_right; try done. rewrite (red_legal_true _ _ _ Hl Hc) in Hl. by apply move_right_red_left.
  - destruct Ht as [s l e r Hl Hr]. apply InnerErase_right; try done.
    unfold move_right. cbn [left]. rewrite (red_legal _ _ _ Hl). cbv zeta. cbn [right]. rewrite (red_legal _ _ _ Hr).
    cbn [negb]. rewrite andb_false_r. cbn [andb]. split; [done|by left|]. left. exists h', Red. split; [done|].
    intros e' r' Hr'. by apply FixUp_outcome_right.
Qed.

Lemma rest_FixRootColor h t : rest h Black t -> exists h', legal h' Black (FixRootColor t).
Proof.
  intros [H|[(h' & _ & H)|[_ ->]]]; [by eapply legal_FixRootColor|by eapply leaning_FixRootColor|]. exists 0%nat. constructor.
Qed.

Lemma erase_spec k t : wf cmp t -> exists t', erase cmp k t = Some t' /\ elements t' = del cmp k (elements t) /\ wf cmp t'.
Proof.
  intros [Ho Hs [h Hh]]. unfold erase, erase_fuel.
  assert (He : erases k t (fun t' => exists h', legal h' Black (FixRootColor t')) (InnerErase cmp (S (length (elements t))) k t)).
  { inversion Hh as [|?|h' c s l e r Hl Hr]; subst; [exists EmptyRep; split_and!; try done; by exists 0%nat|].
    destruct c.
    - destruct (InnerErase_black_kids (length (elements (Rep Black s l e r))) k h' Black s l e r) as (t' & E & ? & ? & ?);
        [apply InnerErase_spec|done..|lia|]. exists t'. split_and!; [done..|by eapply rest_FixRootColor].
    - destruct (InnerErase_spec (S (length (elements (Rep Black s l e r)))) k (Rep Black s l e r) (S h') Black) as (t' & E & ? & ? & Hout);
        [left; split; [done|intros _; by apply (red_legal _ _ _ Hl)]|done|done|lia|]. exists t'. split_and!; [done..|by eapply legal_FixRootColor]. }
  destruct He as (t' & -> & E & Hs' & Hh'). exists (FixRootColor t'). destruct (keeps_FixRootColor t' Hs') as [E2 H2].
  split; [done|]. split; [by rewrite E2|]. split; [rewrite E2, E; by apply sorted_del|done|done].
Qed.

Lemma wf_empty : wf cmp (@EmptyRep K V).
Proof. split; [constructor|done|]. exists 0%nat. constructor. Qed.

(** *** Height *)

Fixpoint height t : nat := match t with EmptyRep => 0 | Rep _ _ l _ r => S (Nat.max (height l) (height r)) end.

Lemma legal_height h c t : legal h c t -> (height t <= 2 * h + match c with Red => 1 | Black => 0 end)%nat.
Proof. induction 1 as [|h s l e r _ IHl _ IHr|h c s l e r _ IHl _ IHr]; cbn [height]; [lia|lia|]. destruct c; lia. Qed.
Lemma legal_size h c t : legal h c t -> (2 ^ h <= S (length (elements t)))%nat.
Proof.
  induction 1 as [|h s l e r _ IHl _ IHr|h c s l e r _ IHl _ IHr]; cbn [elements]; [cbn; lia| |]; rewrite length_app; cbn [length]; [lia|].
  rewrite Nat.pow_succ_r'. lia.
Qed.
Lemma wf_height t : wf cmp t -> Z.of_nat (height t) <= 2 * Z.log2 (len (elements t) + 1).
Proof.
  intros [_ _ [h Hh]]. pose proof (legal_height _ _ _ Hh) as Hh2. cbv iota in Hh2. pose proof (legal_size _ _ _ Hh) as Hz.
  assert (Z.of_nat h <= Z.log2 (len (elements t) + 1)); [|lia]. apply Z.log2_le_pow2; [unfold len; lia|].
  apply Nat2Z.inj_le in Hz. rewrite Nat2Z.inj_pow in Hz. unfold len. lia.
Qed.

(** ** Searches *)

Lemma Create_spec (es : list (K * V)) : len es < 2 ^ 31 -> elements (Create cmp es) = ins_all cmp es /\ wf cmp (Create cmp es).
Proof.
  unfold Create, ins_all. intros H. induction es as [|e es IH] using rev_ind; [split; [done|apply wf_empty]|].
  rewrite len_app, len_cons in H. change (len (@nil (K * V))) with 0 in H. destruct IH as [E Hw]; [lia|].
  rewrite !foldl_snoc, <- E. apply insert_spec; [done|done|]. rewrite E. pose proof (ins_all_len cmp es). unfold ins_all in *. lia.
Qed.

Ltac search_node Hs := rewrite (sized_not_empty _ _ _ _ _ Hs); cbn [negb]; destruct Hs as (Hsz & Hb & Hsl & Hsr).

Lemma sorted_node c s l e r k : sorted (Rep c s l e r) -> sorted l /\ sorted r /\
  (cmp k e.1 <> Lt -> below cmp (elements l) k) /\ (cmp k e.1 <> Gt -> above cmp k (elements r)).
Proof.
  intros (Hl & Hr & Hbe & Hab)%(sorted_app cmp). split_and!; [done|done| |].
  - intros Hk. apply (below_le cmp _ e.1); [done|]. by rewrite (gt_lt cmp).
  - intros Hk. by apply (above_le cmp k e.1).
Qed.

Lemma contains_spec k t : sized t -> sorted t -> contains cmp k t = match assoc cmp k (elements t) with Some _ => true | None => false end.
Proof.
  induction t as [|c s l IHl e r IHr]; [done|]. intros Hs Ho. cbn [contains]. search_node Hs.
  destruct (sorted_node _ _ _ _ _ k Ho) as (Hol & Hor & Hbe & Hab). unfold key. cbn [entry elements].
  destruct (cmp k e.1) eqn:E.
  - rewrite (assoc_below cmp) by (by apply Hbe). cbn. by rewrite E.
  - rewrite (assoc_left cmp); [by apply IHl|]. constructor; [done|by apply Hab].
  - rewrite (assoc_below cmp) by (by apply Hbe). cbn. rewrite E. by apply IHr.
Qed.

Lemma find_index_from_spec k p t : sized t -> sorted t -> 0 <= p -> p + len (elements t) < 2 ^ 32 - 1 ->
  find_index_from cmp k p t = match position cmp k (elements t) with Some i => p + i | None => npos end.
Proof.
  revert p. induction t as [|c s l IHl e r IHr]; [done|]. intros p Hs Ho Hp Hlt. cbn [find_index_from]. search_node Hs.
  destruct (sorted_node _ _ _ _ _ k Ho) as (Hol & Hor & Hbe & Hab). unfold key. cbn [entry elements].
  rewrite len_Rep in Hlt. pose proof (len_nonneg (elements l)). pose proof (len_nonneg (elements r)). rewrite (sized_size l) by done.
  destruct (cmp k e.1) eqn:E.
  - rewrite (position_below cmp) by (by apply Hbe). cbn. rewrite E. cbn. rewrite u32_id by lia. lia.
  - rewrite (position_left cmp); [apply IHl; try done; lia|]. constructor; [done|by apply Hab].
  - rewrite (position_below cmp) by (by apply Hbe). cbn. rewrite E, u32_id by lia. rewrite IHr by (try done; lia).
    destruct (position cmp k (elements r)); cbn; lia.
Qed.

(** ** Iterators *)

(** The entries an iterator has still to visit. *)
Definition remaining (it : list LlrbNode) : list (K * V) := it ≫= fun n => entry n :: elements (right n).
Definition stack_ok (it : list LlrbNode) : Prop := Forall (fun n => n <> EmptyRep /\ sized n) it.

Lemma AccumulateLeft_spec t it : sized t -> stack_ok it ->
  remaining (AccumulateLeft t it) = elements t ++ remaining it /\ stack_ok (AccumulateLeft t it).
Proof.
  revert it. induction t as [|c s l IHl e r _]; intros it Hs Hit; [done|]. cbn [AccumulateLeft].
  rewrite (sized_not_empty _ _ _ _ _ Hs). cbn [negb]. assert (Hs' := Hs). destruct Hs as (_ & _ & Hl & _).
  destruct (IHl (Rep c s l e r :: it)) as [-> H]; [done|by constructor|]. split; [|done]. cbn. by rewrite <- app_assoc.
Qed.
Lemma Begin_spec t : sized t -> remaining (Begin t) = elements t /\ stack_ok (Begin t).
Proof. intros Hs. destruct (AccumulateLeft_spec t [] Hs) as [E H]; [constructor|]. unfold Begin. rewrite E. by rewrite app_nil_r. Qed.

Lemma get_spec it : get it = head (remaining it).
Proof. by destruct it. Qed.
Lemma remaining_nil it : remaining it = [] <-> it = [].
Proof. split; [by destruct it|by intros ->]. Qed.
Lemma next_spec it : stack_ok it -> it <> [] -> exists it', next it = Some it' /\ remaining it' = tail (remaining it) /\ stack_ok it'.
Proof.
  intros H Hn. destruct it as [|n it]; [done|]. apply Forall_cons in H as [[Hne Hs] H]. cbn [next].
  destruct (AccumulateLeft_spec (right n) it) as [E H']; [by destruct (sized_kids n Hs) as (_ & ? & _)|done|].
  eexists. split; [done|]. by rewrite E.
Qed.

Lemma lower_bound_from_spec k t it : sized t -> sorted t -> stack_ok it -> above cmp k (remaining it) ->
  remaining (lower_bound_from cmp t k it) = from cmp k (elements t) ++ remaining it /\ stack_ok (lower_bound_from cmp t k it).
Proof.
  revert it. induction t as [|c s l IHl e r IHr]; intros it Hs Ho Hit Ha; [done|]. cbn [lower_bound_from].
  assert (Hs' := Hs). search_node Hs. destruct (sorted_node _ _ _ _ _ k Ho) as (Hol & Hor & Hbe & Hab). unfold key. cbn [entry elements].
  destruct (cmp k e.1) eqn:E.
  - split; [|by constructor]. rewrite (from_below cmp) by (by apply Hbe). apply (eq_sym cmp) in E. cbn. by rewrite E.
  - destruct (IHl (Rep c s l e r :: it)) as [-> H]; [done|done|by constructor| |].
    { apply Forall_app. split; [constructor; [done|by apply Hab]|done]. }
    split; [|done]. rewrite (from_left cmp) by done. cbn. by rewrite <- app_assoc.
  - destruct (IHr it) as [-> H]; [done..|]. split; [|done]. rewrite (from_below cmp) by (by apply Hbe). apply (gt_lt cmp) in E. cbn. by rewrite E.
Qed.
Lemma LowerBound_spec k t : sized t -> sorted t -> remaining (LowerBound cmp t k) = from cmp k (elements t) /\ stack_ok (LowerBound cmp t k).
Proof.
  intros Hs Ho. destruct (lower_bound_from_spec k t []) as [E H]; [done|done|constructor|constructor|].
  unfold LowerBound. rewrite E. by rewrite app_nil_r.
Qed.

(** A lookup looks at the first entry not before the key. *)
Lemma assoc_head_from k (l : list (K * V)) : StronglySorted (before cmp) l ->
  assoc cmp k l = match from cmp k l with e :: _ => match cmp k e.1 with Eq => Some e.2 | _ => None end | [] => None end.
Proof.
  induction 1 as [|x l Hl IH Hx]; cbn; [done|]. destruct (cmp x.1 k) eqn:E.
  - apply (eq_sym cmp) in E. by rewrite E.
  - apply (gt_lt cmp) in E. by rewrite E.
  - apply (gt_lt cmp) in E. rewrite E. apply (assoc_above cmp). eapply Forall_impl; [apply Hx|]. intros y Hy. by apply (lt_trans cmp) with x.1.
Qed.
Lemma find_spec k t : sized t -> sorted t ->
  remaining (find cmp k t) = (if assoc cmp k (elements t) is Some _ then from cmp k (elements t) else []) /\ stack_ok (find cmp k t).
Proof.
  intros Hs Ho. destruct (LowerBound_spec k t Hs Ho) as [E H]. rewrite (assoc_head_from k _ Ho), <- E. unfold find.
  destruct (LowerBound cmp t k) as [|n it]; [done|]. cbn. unfold key. destruct (cmp k (entry n).1); [done|split; [done|constructor]..].
Qed.

Lemma max_spec t : sized t -> t <> EmptyRep -> max t <> EmptyRep /\ sized (max t) /\ right (max t) = EmptyRep /\
  last (elements t) = Some (entry (max t)).
Proof.
  induction t as [|c s l _ e r IH]; [done|]. intros Hs _. assert (Hs' := Hs). destruct Hs as (_ & _ & _ & Hr). cbn [max].
  destruct (empty r) eqn:Er; cbn [negb].
  - apply sized_empty in Er as ->; [|done]. split_and!; [done..|]. cbn. by rewrite last_snoc.
  - assert (Hn : r <> EmptyRep) by (intros ->; done). destruct (IH Hr Hn) as (H1 & H2 & H3 & H4). split_and!; [done..|].
    cbn. rewrite last_app, last_cons, H4. done.
Qed.
Lemma max_iterator_spec t : sized t -> remaining (max_iterator t) = option_list (last (elements t)) /\ stack_ok (max_iterator t).
Proof.
  intros Hs. unfold max_iterator. destruct (empty t) eqn:E; [apply sized_empty in E as ->; [split; [done|constructor]|done]|].
  assert (Hn : t <> EmptyRep) by (intros ->; done). destruct (max_spec t Hs Hn) as (H1 & H2 & H3 & ->).
  split; [cbn; by rewrite H3|by repeat constructor].
Qed.
End tree.
