(* ===== verification/SortedMap.v ===== *)
(** Firestore's immutable sorted map: a sorted array of up to 25 entries (array_sorted_map.h) or a tree
    (SortedTree), switching between the two (sorted_map.h), its iterators (sorted_map_iterator.h), the
    views of its keys (keys_view.h) and the sets made of it (sorted_set.h). *)
From stdpp Require Import list sorting.
From S2P Require Import Prelude SortedTree.

(** sorted_container.h *)
Definition kFixedSize : Z := 25.

(** What an immutable sorted map [M] with iterators [It] offers; [None] is a failed assertion. *)
Class MapOps (K V M It : Type) := {
  m_size : M -> Z;
  m_empty : M -> bool;
  m_insert : K -> V -> M -> option M;
  m_erase : K -> M -> option M;
  m_contains : K -> M -> bool;
  m_find : K -> M -> It;
  m_find_index : K -> M -> Z;
  m_lower_bound : K -> M -> It;
  m_min : M -> It;
  m_max : M -> It;
  m_begin : M -> It;
  m_end : M -> It;
  it_get : It -> option (K * V);
  it_next : It -> option It;
  it_eq : It -> It -> bool
}.

Section array.
Context {K V : Type} `{!EqDecision V} (cmp : K -> K -> comparison).
(** A [FixedArray] is the list of its entries. *)
Abbreviation ArraySortedMap := (list (K * V)).
Implicit Types (arr : ArraySortedMap) (k : K) (v : V).

Definition FixedArray_append arr (src : list (K * V)) : option ArraySortedMap :=
  if len arr + len src <=? kFixedSize then Some (arr ++ src) else None.

(** The C++ library's [std::find_if], [std::lower_bound] and [std::sort]: the first place where a
    predicate holds, the first where one no longer does, and a sorted permutation. *)
Fixpoint find_if (p : K * V -> bool) arr : nat :=
  match arr with [] => 0 | kv :: arr' => if p kv then 0 else S (find_if p arr') end.
Definition std_lower_bound (less : K * V -> bool) arr : nat := find_if (fun el => negb (less el)) arr.
Definition not_descending (lhs rhs : K * V) : Prop := cmp lhs.1 rhs.1 <> Gt.
#[export] Instance not_descending_dec : RelDecision not_descending.
Proof. intros a b. unfold not_descending. apply _. Defined.
Definition std_sort (entries : list (K * V)) : list (K * V) := merge_sort not_descending entries.

Definition Same (c : comparison) : bool := match c with Eq => true | _ => false end.
Definition Ascending (c : comparison) : bool := match c with Lt => true | _ => false end.

(** Positions in the array; [length arr] is the end. *)
Definition Array_find k arr : nat := find_if (fun kv => Same (cmp k kv.1)) arr.
Definition Array_lower_bound k arr : nat := std_lower_bound (fun el => Ascending (cmp el.1 k)) arr.
Definition Array_size arr : Z := len arr.
Definition Array_empty arr : bool := Array_size arr =? 0.

Definition Array_insert k v arr : option ArraySortedMap :=
  let pos := Array_lower_bound k arr in
  let replacing_entry := match arr !! pos with Some e => Same (cmp k e.1) | None => false end in
  let unchanged := match arr !! pos with Some e => replacing_entry && bool_decide (v = e.2) | None => false end in
  if unchanged then Some arr
  else
    copy ← FixedArray_append [] (take pos arr);
    copy ← FixedArray_append copy [(k, v)];
    FixedArray_append copy (if replacing_entry then drop (S pos) arr else drop pos arr).
Definition Array_erase k arr : option ArraySortedMap :=
  let pos := Array_find k arr in
  if (pos =? length arr)%nat then Some arr
  else if Array_size arr <=? 1 then Some []
  else
    copy ← FixedArray_append [] (take pos arr);
    FixedArray_append copy (drop (S pos) arr).
Definition Array_contains k arr : bool := negb (Array_find k arr =? length arr)%nat.
Definition Array_find_index k arr : Z :=
  let found := Array_find k arr in if (found =? length arr)%nat then npos else Z.of_nat found.
Definition SortedArray (entries : list (K * V)) : option ArraySortedMap := FixedArray_append [] (std_sort entries).
Definition Array_max arr : nat := if Array_empty arr then length arr else (length arr - 1)%nat.

(** An iterator points into an array. *)
#[export] Instance Array_ops : MapOps K V ArraySortedMap (ArraySortedMap * nat) := {
  m_size := Array_size;
  m_empty := Array_empty;
  m_insert := Array_insert;
  m_erase := Array_erase;
  m_contains := Array_contains;
  m_find k a := (a, Array_find k a);
  m_find_index := Array_find_index;
  m_lower_bound k a := (a, Array_lower_bound k a);
  m_min a := (a, O);
  m_max a := (a, Array_max a);
  m_begin a := (a, O);
  m_end a := (a, length a);
  it_get it := it.1 !! it.2;
  it_next it := Some (it.1, S it.2);
  it_eq a b := (a.2 =? b.2)%nat
}.
End array.

Section tree.
Context {K V : Type} `{!Inhabited K, !Inhabited V, !EqDecision K} (cmp : K -> K -> comparison).

#[export] Instance Tree_ops : MapOps K V (Tree.LlrbNode K V) (list (Tree.LlrbNode K V)) := {
  m_size := Tree.size;
  m_empty := Tree.empty;
  m_insert k v t := Some (Tree.insert cmp k v t);
  m_erase := Tree.erase cmp;
  m_contains := Tree.contains cmp;
  m_find := Tree.find cmp;
  m_find_index := Tree.find_index cmp;
  m_lower_bound k t := Tree.LowerBound cmp t k;
  m_min := Tree.Begin;
  m_max := Tree.max_iterator;
  m_begin := Tree.Begin;
  m_end _ := Tree.End;
  it_get := Tree.get;
  it_next := Tree.next;
  it_eq := Tree.same_position
}.
End tree.

(** ** SortedMap: one or the other *)

Inductive SortedMap (K V : Type) : Type :=
| Array (array_ : list (K * V))
| Tree (tree_ : Tree.LlrbNode K V).
Arguments Array {K V} array_.
Arguments Tree {K V} tree_.

Inductive SortedMapIterator (K V : Type) : Type :=
| ArrayIter (array_iter_ : list (K * V) * nat)
| TreeIter (tree_iter_ : list (Tree.LlrbNode K V)).
Arguments ArrayIter {K V} array_iter_.
Arguments TreeIter {K V} tree_iter_.

Section sorted_map.
Context {K V : Type} `{!Inhabited K, !Inhabited V, !EqDecision K, !EqDecision V} (cmp : K -> K -> comparison).
Abbreviation SortedMap := (SortedMap K V).
Abbreviation SortedMapIterator := (SortedMapIterator K V).
Abbreviation A := (Array_ops (K := K) (V := V) cmp).
Abbreviation T := (Tree_ops (K := K) (V := V) cmp).
Implicit Types (m : SortedMap) (k : K) (v : V).

(** The empty map. *)
Definition SortedMap_new : SortedMap := Array [].
(** The map of an initializer list; with more than 25 entries the constructor leaves the tag that
    says what it has built unset: [None]. *)
Definition SortedMap_of_list (entries : list (K * V)) : option SortedMap :=
  if len entries <=? kFixedSize then Array <$> SortedArray cmp entries else None.

Definition SortedMap_size m : Z := match m with Array a => m_size (MapOps := A) a | Tree t => m_size (MapOps := T) t end.
Definition SortedMap_empty m : bool := match m with Array a => m_empty (MapOps := A) a | Tree t => m_empty (MapOps := T) t end.
Definition SortedMap_insert k v m : option SortedMap :=
  match m with
  | Array a =>
      if kFixedSize <=? Array_size a then
        let tree := Tree.Create cmp a in Tree <$> m_insert (MapOps := T) k v tree
      else Array <$> m_insert (MapOps := A) k v a
  | Tree t => Tree <$> m_insert (MapOps := T) k v t
  end.
Definition SortedMap_erase k m : option SortedMap :=
  match m with
  | Array a => Array <$> m_erase (MapOps := A) k a
  | Tree t =>
      result ← m_erase (MapOps := T) k t;
      if m_empty (MapOps := T) result then Some SortedMap_new else Some (Tree result)
  end.
Definition SortedMap_contains k m : bool := match m with Array a => m_contains (MapOps := A) k a | Tree t => m_contains (MapOps := T) k t end.
Definition SortedMap_find k m : SortedMapIterator :=
  match m with Array a => ArrayIter (m_find (MapOps := A) k a) | Tree t => TreeIter (m_find (MapOps := T) k t) end.
Definition SortedMap_find_index k m : Z := match m with Array a => m_find_index (MapOps := A) k a | Tree t => m_find_index (MapOps := T) k t end.
Definition SortedMap_lower_bound k m : SortedMapIterator :=
  match m with Array a => ArrayIter (m_lower_bound (MapOps := A) k a) | Tree t => TreeIter (m_lower_bound (MapOps := T) k t) end.
Definition SortedMap_min m : SortedMapIterator :=
  match m with Array a => ArrayIter (m_min (MapOps := A) a) | Tree t => TreeIter (m_min (MapOps := T) t) end.
Definition SortedMap_max m : SortedMapIterator :=
  match m with Array a => ArrayIter (m_max (MapOps := A) a) | Tree t => TreeIter (m_max (MapOps := T) t) end.
Definition SortedMap_begin m : SortedMapIterator :=
  match m with Array a => ArrayIter (m_begin (MapOps := A) a) | Tree t => TreeIter (m_begin (MapOps := T) t) end.
Definition SortedMap_end m : SortedMapIterator :=
  match m with Array a => ArrayIter (m_end (MapOps := A) a) | Tree t => TreeIter (m_end (MapOps := T) t) end.

Definition iterator_get (it : SortedMapIterator) : option (K * V) :=
  match it with ArrayIter i => it_get (MapOps := A) i | TreeIter i => it_get (MapOps := T) i end.
Definition iterator_next (it : SortedMapIterator) : option SortedMapIterator :=
  match it with ArrayIter i => ArrayIter <$> it_next (MapOps := A) i | TreeIter i => TreeIter <$> it_next (MapOps := T) i end.
Definition iterator_eq (a b : SortedMapIterator) : bool :=
  match a, b with
  | ArrayIter i, ArrayIter j => it_eq (MapOps := A) i j
  | TreeIter i, TreeIter j => it_eq (MapOps := T) i j
  | _, _ => false
  end.

#[export] Instance SortedMap_ops : MapOps K V SortedMap SortedMapIterator := {
  m_size := SortedMap_size; m_empty := SortedMap_empty; m_insert := SortedMap_insert; m_erase := SortedMap_erase; m_contains := SortedMap_contains; m_find := SortedMap_find;
  m_find_index := SortedMap_find_index; m_lower_bound := SortedMap_lower_bound; m_min := SortedMap_min; m_max := SortedMap_max; m_begin := SortedMap_begin; m_end := SortedMap_end;
  it_get := iterator_get; it_next := iterator_next; it_eq := iterator_eq
}.

Definition SortedMap_get k m : option V :=
  let found := SortedMap_find k m in
  if negb (iterator_eq found (SortedMap_end m)) then snd <$> iterator_get found else None.
End sorted_map.

(** A sequence of changes. *)
Inductive MapOp (K V : Type) : Type :=
| Insert (k : K) (v : V)
| Erase (k : K).
Arguments Insert {K V} k v.
Arguments Erase {K V} k.

Section run.
Context {K V M It : Type} {ops : MapOps K V M It}.
Definition change (op : MapOp K V) (m : M) : option M :=
  match op with Insert k v => m_insert k v m | Erase k => m_erase k m end.
Fixpoint run (changes : list (MapOp K V)) (m : M) : option M :=
  match changes with [] => Some m | op :: changes' => m' ← change op m; run changes' m' end.
End run.

(** ** Views of a map's keys, for any of the maps *)

Section views.
Context {K V M It : Type} {ops : MapOps K V M It} (cmp : K -> K -> comparison).

(** A loop over the entries from one iterator to another; [None] for a step past the end. *)
Fixpoint walk (fuel : nat) (range : It * It) : option (list (K * V)) :=
  match fuel with
  | O => None
  | S fuel =>
      if it_eq range.1 range.2 then Some []
      else
        e ← it_get range.1;
        it ← it_next range.1;
        l ← walk fuel (it, range.2);
        Some (e :: l)
  end.
Definition walk_fuel (m : M) : nat := S (Z.to_nat (m_size m)).

Definition KeysView (m : M) : It * It := (m_begin m, m_end m).
Definition KeysViewFrom (m : M) (key : K) : It * It := (m_lower_bound key m, m_end m).
Definition KeysViewIn (m : M) (start_key end_key : K) : It * It :=
  let empty_range := negb (Ascending (cmp start_key end_key)) in
  if empty_range then (m_end m, m_end m) else (m_lower_bound start_key m, m_lower_bound end_key m).
(** The keys a loop over a view sees. *)
Definition view_keys (m : M) (range : It * It) : option (list K) := map fst <$> walk (walk_fuel m) range.
End views.

(** ** SortedSet: the keys of a map to nothing *)

Section set.
Context {K M It : Type} `{!EqDecision K} {ops : MapOps K unit M It} (new : M).
Implicit Types s : M.

Definition SortedSet_insert (key : K) s : option M := m_insert key tt s.
Fixpoint SortedSet_insert_all (keys : list K) s : option M :=
  match keys with [] => Some s | key :: keys' => s' ← SortedSet_insert key s; SortedSet_insert_all keys' s' end.
Definition SortedSet_of_list (entries : list K) : option M := SortedSet_insert_all entries new.
Definition SortedSet_union_with s (other : M) : option M :=
  let swap := m_size s <? m_size other in
  let result := if swap then other else s in
  let others := if swap then s else other in
  keys ← view_keys others (KeysView others);
  SortedSet_insert_all keys result.
Definition SortedSet_erase (key : K) s : option M := m_erase key s.
Definition SortedSet_contains (key : K) s : bool := m_contains key s.
Definition SortedSet_values_from s (key : K) : It * It := KeysViewFrom s key.
Definition SortedSet_values_in (cmp : K -> K -> comparison) s (start_key end_key : K) : It * It := KeysViewIn cmp s start_key end_key.
Definition SortedSet_FromKeysOf {V M' It' : Type} {ops' : MapOps K V M' It'} (m : M') : option M :=
  keys ← view_keys m (KeysView m);
  SortedSet_insert_all keys new.

(** [std::equal], and the comparison of sets. *)
Fixpoint std_equal (fuel : nat) (first1 last1 first2 : It) : option bool :=
  match fuel with
  | O => None
  | S fuel =>
      if it_eq first1 last1 then Some true
      else
        e1 ← it_get first1;
        e2 ← it_get first2;
        if bool_decide (e1.1 = e2.1) then
          i1 ← it_next first1;
          i2 ← it_next first2;
          std_equal fuel i1 last1 i2
        else Some false
  end.
Definition SortedSet_equal (lhs rhs : M) : option bool :=
  if negb (m_size lhs =? m_size rhs) then Some false
  else std_equal (walk_fuel lhs) (m_begin lhs) (m_end lhs) (m_begin rhs).
End set.
