(* ===== verification/SortedMapProps.v ===== *)
(** What an immutable sorted map promises, as an interface; the array, the tree and the map made of the
    two keep the promise, and the views of keys and the sets rely on nothing else. *)
From stdpp Require Import gmap sorting.
From S2P Require Import Prelude Comparator SortedTree SortedTreeProps SortedMap.

(** A map holds a sorted list of entries; an iterator into it has a final part of them to visit. *)
Class MapLaws {K V M It : Type} (cmp : K -> K -> comparison) (ops : MapOps K V M It) := {
  map_ok : M -> Prop;
  entries : M -> list (K * V);
  (** how many entries it takes *)
  map_limit : Z;
  it_ok : M -> It -> Prop;
  it_rest : It -> list (K * V);
  entries_sorted m : map_ok m -> sorted cmp (entries m);
  size_law m : map_ok m -> m_size m = len (entries m);
  size_bound m : map_ok m -> len (entries m) < 2 ^ 31;
  empty_law m : map_ok m -> m_empty m = true <-> entries m = [];
  insert_law k v m : map_ok m -> len (entries m) < map_limit ->
    exists m', m_insert k v m = Some m' /\ map_ok m' /\ entries m' = ins cmp k v (entries m);
  erase_law k m : map_ok m -> exists m', m_erase k m = Some m' /\ map_ok m' /\ entries m' = del cmp k (entries m);
  contains_law k m : map_ok m -> m_contains k m = match assoc cmp k (entries m) with Some _ => true | None => false end;
  find_index_law k m : map_ok m -> m_find_index k m = match position cmp k (entries m) with Some i => i | None => npos end;
  find_law k m : map_ok m -> it_ok m (m_find k m) /\
    it_rest (m_find k m) = if assoc cmp k (entries m) is Some _ then from cmp k (entries m) else [];
  lower_bound_law k m : map_ok m -> it_ok m (m_lower_bound k m) /\ it_rest (m_lower_bound k m) = from cmp k (entries m);
  begin_law m : map_ok m -> it_ok m (m_begin m) /\ it_rest (m_begin m) = entries m;
  min_law m : map_ok m -> it_ok m (m_min m) /\ it_rest (m_min m) = entries m;
  max_law m : map_ok m -> it_ok m (m_max m) /\ it_rest (m_max m) = option_list (last (entries m));
  end_law m : map_ok m -> it_ok m (m_end m) /\ it_rest (m_end m) = [];
  rest_suffix m it : map_ok m -> it_ok m it -> it_rest it `suffix_of` entries m;
  get_law m it : map_ok m -> it_ok m it -> it_get it = head (it_rest it);
  next_law m it : map_ok m -> it_ok m it -> it_rest it <> [] ->
    exists it', it_next it = Some it' /\ it_ok m it' /\ it_rest it' = tail (it_rest it);
  eq_law m a b : map_ok m -> it_ok m a -> it_ok m b -> it_eq a b = true <-> it_rest a = it_rest b
}.

(** ** Lists *)

Section lists.
Context {K V : Type} (cmp : K -> K -> comparison) {W : WeakOrder cmp (fun _ => True)}.
Implicit Types l : list (K * V).

Lemma from_suffix k l : from cmp k l `suffix_of` l.
Proof.
  induction l as [|e l [m IH]]; [done|]. cbn. destruct (cmp e.1 k); [done| |done]. exists (e :: m). cbn. by rewrite <- IH.
Qed.
Lemma option_last_suffix l : option_list (last l) `suffix_of` l.
Proof. destruct l as [|e l _] using rev_ind; [done|]. rewrite last_snoc. by exists l. Qed.
Lemma sorted_suffix l r : r `suffix_of` l -> sorted cmp l -> sorted cmp r.
Proof.
  intros [m ->]. induction m as [|e m IH]; [done|]. cbn. intros [H _]%StronglySorted_inv. by apply IH.
Qed.

(** In a sorted list two final parts that begin with the same key are the same. *)
Lemma suffix_same_head l a b : sorted cmp l -> a `suffix_of` l -> b `suffix_of` l ->
  match head a, head b with None, None => True | Some x, Some y => x.1 = y.1 | _, _ => False end -> a = b.
Proof.
  intros Ho Ha Hb. destruct a as [|x a], b as [|y b]; try done. cbn. intros E. destruct Ha as [m1 E1], Hb as [m2 E2]. subst l.
  assert (Hsplit : (exists n, m1 = m2 ++ n) \/ (exists n, m2 = m1 ++ n)).
  { revert m2 E2 Ho. induction m1 as [|z m1 IH]; intros m2 E2 Ho; [right; by exists m2|]. destruct m2 as [|z' m2]; [left; by exists (z :: m1)|].
    cbn in E2. simplify_eq. cbn in Ho. apply StronglySorted_inv in Ho as [Ho _]. destruct (IH m2) as [[n ->]|[n ->]]; [done|done|left|right]; by exists n. }
  assert (Hno : forall (n p q : list (K * V)) u w, u.1 = w.1 -> sorted cmp (n ++ u :: p) -> n ++ u :: p = w :: q -> n = []).
  { intros n p q u w Euw Hs Eq. destruct n as [|z n]; [done|]. cbn in Eq. simplify_eq. cbn in Hs. apply StronglySorted_inv in Hs as [_ Hs].
    apply Forall_app in Hs as [_ Hs%Forall_cons]. destruct Hs as [Hs _]. unfold before in Hs. rewrite Euw, (same_refl cmp) in Hs. done. }
  destruct Hsplit as [[n ->]|[n ->]].
  - rewrite <- app_assoc in E2. apply app_inv_head in E2. assert (n = []) as ->; [|by simplify_eq/=].
    eapply (Hno n a b x y); [done| |done]. apply sorted_suffix with ((m2 ++ n) ++ x :: a); [|done]. exists m2. by rewrite app_assoc.
  - rewrite <- app_assoc in E2. apply app_inv_head in E2. assert (n = []) as ->; [|by simplify_eq/=].
    eapply (Hno n b a y x); [done| |done]. rewrite <- E2. apply sorted_suffix with (m1 ++ x :: a); [|done]. by exists m1.
Qed.

Lemma sorted_keys l : sorted cmp l -> StronglySorted (fun a b => cmp a b = Lt) (map fst l).
Proof. induction 1 as [|x l _ IH Hx]; cbn; constructor; [done|]. by apply Forall_map. Qed.
Lemma sorted_filter (P : K * V -> Prop) `{!forall e, Decision (P e)} l : sorted cmp l -> sorted cmp (base.filter P l).
Proof.
  induction 1 as [|x l _ IH Hx]; [constructor|]. rewrite filter_cons. destruct (decide (P x)); [|done]. constructor; [done|].
  rewrite Forall_forall in *. intros y [_ Hy]%list_elem_of_filter. by apply Hx.
Qed.

Lemma assoc_elem k v l : (forall a b, cmp a b = Eq -> a = b) -> sorted cmp l -> assoc cmp k l = Some v <-> (k, v) ∈ l.
Proof.
  intros Heq. induction 1 as [|x l Hl IH Hx]; cbn; [by rewrite elem_of_nil|]. rewrite elem_of_cons, <- IH. destruct (cmp k x.1) eqn:E.
  - apply Heq in E as ->. split; [intros [= <-]; left; by destruct x|]. intros [<-|H]; [done|].
    apply IH in H. rewrite Forall_forall in Hx. apply Hx in H. unfold before in H. cbn in H. by rewrite (same_refl cmp) in H.
  - split; [tauto|]. intros [<-|H]; [by rewrite (same_refl cmp) in E|done].
  - split; [tauto|]. intros [<-|H]; [by rewrite (same_refl cmp) in E|done].
Qed.
End lists.

(** ** The array *)

Section array.
Context {K V : Type} `{!EqDecision V} (cmp : K -> K -> comparison) {W : WeakOrder cmp (fun _ => True)}.
Hypothesis same_eq : forall a b, cmp a b = Eq -> a = b.
Implicit Types (l arr : list (K * V)).

Lemma find_if_split (p : K * V -> bool) l :
  exists n r, l = n ++ r /\ find_if p l = length n /\ Forall (fun e => p e = false) n /\ match r with [] => True | e :: _ => p e = true end.
Proof.
  induction l as [|e l (n & r & -> & IH & Hn & Hr)]; [by exists [], []|]. cbn [find_if]. destruct (p e) eqn:E.
  - by exists [], (e :: n ++ r).
  - exists (e :: n), r. rewrite IH. split_and!; [done|done|by constructor|done].
Qed.

(** The array as what comes before a place and what comes after it. *)
Lemma lower_bound_split k l : sorted cmp l ->
  exists n, l = n ++ from cmp k l /\ Array_lower_bound cmp k l = length n /\ below cmp n k.
Proof.
  intros Ho. unfold Array_lower_bound, std_lower_bound.
  destruct (find_if_split (fun el => negb (Ascending (cmp el.1 k))) l) as (n & r & E & -> & Hn & Hr).
  assert (Hb : below cmp n k).
  { eapply Forall_impl; [apply Hn|]. intros x Hx. cbn in Hx. by destruct (cmp x.1 k). }
  exists n. split_and!; [|done|done]. rewrite E at 1. f_equal. rewrite E, (from_below cmp) by done.
  destruct r as [|e r]; [done|]. cbn. by destruct (cmp e.1 k).
Qed.
Lemma find_split k l : sorted cmp l ->
  exists n r, l = n ++ r /\ Array_find cmp k l = length n /\ Forall (fun e => cmp k e.1 <> Eq) n /\
    match r with [] => assoc cmp k l = None | e :: r' => cmp k e.1 = Eq /\ below cmp n k /\ above cmp k r' end.
Proof.
  intros Ho. destruct (find_if_split (fun kv => Same (cmp k kv.1)) l) as (n & r & E & Hf & Hn & Hr).
  assert (Hne : Forall (fun e => cmp k e.1 <> Eq) n).
  { eapply Forall_impl; [apply Hn|]. intros x Hx Hk. cbn in Hx. by rewrite Hk in Hx. }
  exists n, r. split_and!; [done|done|done|]. destruct r as [|e r].
  - rewrite E, app_nil_r. clear -Hne. induction Hne as [|x n Hx _ IH]; [done|]. cbn. by destruct (cmp k x.1).
  - assert (Hk : cmp k e.1 = Eq) by by destruct (cmp k e.1). split; [done|]. rewrite E in Ho.
    apply (sorted_app cmp) in Ho as (_ & _ & Hb & Ha). split.
    + apply (below_le cmp _ e.1); [done|]. apply (eq_sym cmp) in Hk. by rewrite Hk.
    + apply (above_le cmp k e.1); [by rewrite Hk|done].
Qed.

Lemma append_some arr src : len arr + len src <= kFixedSize -> FixedArray_append arr src = Some (arr ++ src).
Proof. intros H. unfold FixedArray_append. by rewrite (proj2 (Z.leb_le _ _)). Qed.

Lemma drop_S_app l e r : drop (S (length l)) (l ++ e :: r) = r.
Proof. by rewrite cons_middle, app_assoc, drop_app_length' by (rewrite length_app; cbn; lia). Qed.

Lemma array_insert_spec k v arr : sorted cmp arr -> len arr < kFixedSize ->
  Array_insert cmp k v arr = Some (ins cmp k v arr).
Proof.
  intros Ho Hlen. destruct (lower_bound_split k arr Ho) as (n & E & Hpos & Hb). unfold Array_insert. cbv zeta. rewrite Hpos.
  pose proof (sorted_from cmp k arr Ho) as Hof. remember (from cmp k arr) as r eqn:Er. rewrite E in *.
  rewrite (from_below cmp) in Er by done. rewrite (ins_below cmp) by done. rewrite take_app_length, drop_app_length.
  rewrite len_app in Hlen. pose proof (len_nonneg n). pose proof (len_nonneg r).
  rewrite (append_some [] n) by (rewrite len_nil; lia). cbn [app]. cbn [mbind option_bind].
  rewrite (append_some n [(k, v)]) by (rewrite len_cons, len_nil; lia). cbn [mbind option_bind].
  rewrite lookup_app_r, Nat.sub_diag by lia. destruct r as [|e r]; cbn [lookup list_lookup].
  - rewrite append_some by (rewrite len_app, len_cons, len_nil; lia). by rewrite app_nil_r.
  - cbn [from] in Er. rewrite len_cons in Hlen. destruct (cmp e.1 k) eqn:Ek.
    + apply (eq_sym cmp) in Ek as Ek'. rewrite Ek'. cbn [Same andb]. apply same_eq in Ek as <-. cbn [ins].
      rewrite (same_refl cmp), drop_S_app. destruct (bool_decide_reflect (v = e.2)) as [->|Hv]; [by destruct e|].
      rewrite append_some by (rewrite len_app, len_cons, len_nil; lia). by rewrite <- app_assoc.
    + exfalso. assert (Hx : e :: r `suffix_of` from cmp k r) by (by rewrite <- Er). pose proof (from_suffix cmp k r) as Hs.
      apply suffix_length in Hx, Hs. cbn in Hx. lia.
    + assert (cmp k e.1 = Lt) as -> by by rewrite <- (gt_lt cmp). cbn [Same andb ins]. rewrite Ek.
      rewrite append_some by (rewrite len_app, !len_cons, len_nil; lia). by rewrite <- app_assoc.
Qed.

Lemma array_erase_spec k arr : sorted cmp arr -> len arr <= kFixedSize -> Array_erase cmp k arr = Some (del cmp k arr).
Proof.
  intros Ho Hlen. destruct (find_split k arr Ho) as (n & r & -> & Hf & Hn & Hr). unfold Array_erase. cbv zeta. rewrite Hf.
  rewrite (del_app cmp). assert (Hdn : del cmp k n = n). { clear -Hn. induction Hn as [|x n Hx _ IH]; [done|]. cbn. rewrite IH. by destruct (cmp k x.1). }
  rewrite Hdn, length_app. destruct r as [|e r]; cbn [length].
  - rewrite (proj2 (Nat.eqb_eq _ _)) by lia. done.
  - destruct Hr as (Hk & _ & Ha). rewrite (proj2 (Nat.eqb_neq _ _)) by lia. cbn [del]. rewrite Hk, (del_above cmp) by done.
    unfold Array_size. rewrite len_app, len_cons in *. pose proof (len_nonneg n). pose proof (len_nonneg r).
    destruct (Z.leb_spec (len n + (1 + len r)) 1).
    + assert (n = []) as -> by (apply len_zero_nil; lia). assert (r = []) as -> by (apply len_zero_nil; lia). done.
    + rewrite take_app_length, drop_S_app, (append_some [] n) by (rewrite len_nil; lia). cbn. apply append_some. lia.
Qed.

Lemma array_find_spec k arr : sorted cmp arr -> drop (Array_find cmp k arr) arr = (if assoc cmp k arr is Some _ then from cmp k arr else []) /\
  (Array_find cmp k arr <= length arr)%nat /\
  ((Array_find cmp k arr =? length arr)%nat = match assoc cmp k arr with Some _ => false | None => true end) /\
  (forall i, position cmp k arr = Some i -> Z.of_nat (Array_find cmp k arr) = i) /\ (position cmp k arr = None <-> assoc cmp k arr = None).
Proof.
  intros Ho. destruct (find_split k arr Ho) as (n & r & -> & -> & Hn & Hr). rewrite drop_app_length. split_and!.
  - destruct r as [|e r]; [by rewrite Hr|]. destruct Hr as (Hk & Hb & _). rewrite (assoc_below cmp), (from_below cmp) by done.
    cbn. rewrite Hk. apply (eq_sym cmp) in Hk. by rewrite Hk.
  - rewrite length_app. lia.
  - rewrite length_app. destruct r as [|e r]; cbn [length]; [rewrite Hr; apply Nat.eqb_eq; lia|].
    destruct Hr as (Hk & Hb & _). rewrite (assoc_below cmp) by done. cbn. rewrite Hk. apply Nat.eqb_neq. lia.
  - intros i Hi. destruct r as [|e r].
    + exfalso. rewrite app_nil_r in *. clear -Hn Hi. revert i Hi. induction Hn as [|x n Hx _ IH]; [done|]. cbn. intros i.
      destruct (cmp k x.1); [done| |]; destruct (position cmp k n); try done; by destruct (IH _ eq_refl).
    + destruct Hr as (Hk & Hb & _). rewrite (position_below cmp) in Hi by done. cbn in Hi. rewrite Hk in Hi. cbn in Hi. injection Hi as <-. unfold len. lia.
  - clear. generalize (n ++ r). intros l. induction l as [|x l IH]; [done|]. cbn. destruct (cmp k x.1); [done| |]; rewrite fmap_None; done.
Qed.

Lemma drop_suffix {A} n (l : list A) : drop n l `suffix_of` l.
Proof. exists (take n l). by rewrite take_drop. Qed.

#[export] Program Instance array_laws : MapLaws cmp (Array_ops (V := V) cmp) := {
  map_ok arr := sorted cmp arr /\ len arr <= kFixedSize;
  entries arr := arr;
  map_limit := kFixedSize;
  it_ok arr it := it.1 = arr /\ (it.2 <= length arr)%nat;
  it_rest it := drop it.2 it.1
}.
Next Obligation. by intros m []. Qed.
Next Obligation. done. Qed.
Next Obligation. intros m [_ ?]. unfold kFixedSize in *. lia. Qed.
Next Obligation. intros m _. cbn. unfold Array_empty, Array_size. rewrite Z.eqb_eq. split; [apply len_zero_nil|by intros ->]. Qed.
Next Obligation.
  intros k v m [Ho _] Hlen. exists (ins cmp k v m). cbn. rewrite array_insert_spec by done. split_and!; [done|by apply sorted_ins| |done].
  pose proof (ins_length cmp k v m). unfold len in *. lia.
Qed.
Next Obligation.
  intros k m [Ho Hlen]. exists (del cmp k m). cbn. rewrite array_erase_spec by done. split_and!; [done|by apply sorted_del| |done].
  pose proof (del_length cmp k m). unfold len in *. lia.
Qed.
Next Obligation.
  intros k m [Ho _]. destruct (array_find_spec k m Ho) as (_ & _ & H & _). cbn. unfold Array_contains. rewrite H. by destruct (assoc cmp k m).
Qed.
Next Obligation.
  intros k m [Ho _]. destruct (array_find_spec k m Ho) as (_ & _ & H & Hi & Hn). cbn. unfold Array_find_index. cbv zeta. rewrite H.
  destruct (position cmp k m) as [i|] eqn:E; [|by rewrite (proj1 Hn)]. rewrite (Hi i) by done.
  destruct (assoc cmp k m); [done|]. by discriminate (proj2 Hn eq_refl).
Qed.
Next Obligation. intros k m [Ho _]. by destruct (array_find_spec k m Ho) as (H1 & H2 & _). Qed.
Next Obligation.
  intros k m [Ho _]. destruct (lower_bound_split k m Ho) as (n & E & Hp & _). cbn. rewrite Hp. split.
  - split; [done|]. rewrite E, length_app. lia.
  - rewrite E at 1. by rewrite drop_app_length.
Qed.
Next Obligation. intros m _. cbn. split; [split; [done|lia]|done]. Qed.
Next Obligation. intros m _. cbn. split; [split; [done|lia]|done]. Qed.
Next Obligation.
  intros m _. cbn. unfold Array_max, Array_empty, Array_size. destruct m as [|e m _] using rev_ind; [done|].
  rewrite (proj2 (Z.eqb_neq _ _)) by (rewrite len_app, len_cons; pose proof (len_nonneg m); pose proof (len_nonneg (@nil (K * V))); lia).
  rewrite last_snoc, length_app. cbn [length]. split; [split; [done|lia]|]. by rewrite drop_app_length' by lia.
Qed.
Next Obligation. intros m _. cbn. split; [done|by apply drop_all]. Qed.
Next Obligation. intros m it _ [<- _]. apply drop_suffix. Qed.
Next Obligation. intros m [a i] _ _. cbn. rewrite head_lookup, lookup_drop. f_equal. lia. Qed.
Next Obligation.
  intros m [a i] _ [E Hi] Hn. cbn in *. subst a. assert (i < length m)%nat.
  { destruct (decide (i < length m)%nat); [done|]. rewrite drop_ge in Hn by lia. done. }
  eexists. split; [done|]. cbn. split; [split; [done|lia]|]. destruct (drop i m) as [|x r] eqn:E; [done|].
  cbn. apply (f_equal (drop 1)) in E. rewrite drop_drop in E. by rewrite Nat.add_1_r in E.
Qed.
Next Obligation.
  intros m [a i] [b j] _ [E1 Hi] [E2 Hj]. cbn in *. subst a b. rewrite Nat.eqb_eq. split; [by intros ->|]. intros E.
  apply (f_equal length) in E. rewrite !length_drop in E. lia.
Qed.
End array.

(** ** The tree *)

Section tree.
Context {K V : Type} `{!Inhabited K, !Inhabited V, !EqDecision K} (cmp : K -> K -> comparison) {W : WeakOrder cmp (fun _ => True)}.
Import Tree.

Lemma from_find_suffix k (l : list (K * V)) : (if assoc cmp k l is Some _ then from cmp k l else []) `suffix_of` l.
Proof. destruct (assoc cmp k l); [apply from_suffix|apply suffix_nil]. Qed.

Lemma iterator_into (t : LlrbNode K V) it l : remaining it = l /\ stack_ok it -> l `suffix_of` elements t ->
  (stack_ok it /\ remaining it `suffix_of` elements t) /\ remaining it = l.
Proof. by intros [<- ?]. Qed.

#[export] Program Instance tree_laws : MapLaws cmp (Tree_ops (K := K) (V := V) cmp) := {
  map_ok t := wf cmp t;
  entries t := elements t;
  map_limit := 2 ^ 31 - 1;
  it_ok t it := stack_ok it /\ remaining it `suffix_of` elements t;
  it_rest it := remaining it
}.
Next Obligation. by intros m []. Qed.
Next Obligation. intros m [_ Hs _]. by apply sized_size. Qed.
Next Obligation. intros m [_ Hs _]. by apply sized_kids in Hs as (_ & _ & ?). Qed.
Next Obligation. intros m [_ Hs _]. cbn. rewrite sized_empty by done. symmetry. apply elements_nil. Qed.
Next Obligation. intros k v m Hw Hlen. destruct (insert_spec cmp k v m Hw) as [E H]; [lia|]. by exists (insert cmp k v m). Qed.
Next Obligation. intros k m Hw. destruct (erase_spec cmp k m Hw) as (t' & E & ? & ?). by exists t'. Qed.
Next Obligation. intros k m [Ho Hs _]. by apply contains_spec. Qed.
Next Obligation.
  intros k m [Ho Hs _]. destruct (sized_kids m Hs) as (_ & _ & Hb). cbn. unfold find_index. rewrite find_index_from_spec by (try done; lia).
  by destruct (position cmp k (elements m)).
Qed.
Next Obligation. intros k m [Ho Hs _]. apply iterator_into; [by apply find_spec|apply from_find_suffix]. Qed.
Next Obligation. intros k m [Ho Hs _]. apply iterator_into; [by apply LowerBound_spec|apply from_suffix]. Qed.
Next Obligation. intros m [_ Hs _]. apply iterator_into; [by apply Begin_spec|done]. Qed.
Next Obligation. intros m [_ Hs _]. apply iterator_into; [by apply Begin_spec|done]. Qed.
Next Obligation. intros m [_ Hs _]. apply iterator_into; [by apply max_iterator_spec|apply option_last_suffix]. Qed.
Next Obligation. intros m _. split; [split; [constructor|apply suffix_nil]|done]. Qed.
Next Obligation. by intros m it _ [_ ?]. Qed.
Next Obligation. intros m it _ _. apply get_spec. Qed.
Next Obligation.
  intros m it _ [Hit Hsuf] Hn. destruct (next_spec it Hit) as (it' & E & E2 & H); [by rewrite <- remaining_nil|].
  exists it'. split_and!; [done|done| |done]. rewrite E2. destruct (remaining it) as [|e r] eqn:Er; [done|].
  cbn. etrans; [|apply Hsuf]. by exists [e].
Qed.
Next Obligation.
  intros m a b [Ho _ _] [_ Ha] [_ Hb]. cbn. unfold same_position. rewrite !get_spec. split.
  - intros H. apply (suffix_same_head cmp (elements m)); [done..|]. destruct (head (remaining a)), (head (remaining b)); try done.
    by apply bool_decide_eq_true in H.
  - intros ->. destruct (head (remaining b)); [by apply bool_decide_eq_true|done].
Qed.
End tree.

(** ** The map that is one or the other *)

Section sorted_map.
Context {K V : Type} `{!Inhabited K, !Inhabited V, !EqDecision K, !EqDecision V}.
Context (cmp : K -> K -> comparison) {W : WeakOrder cmp (fun _ => True)} (same_eq : forall a b, cmp a b = Eq -> a = b).
Abbreviation AL := (array_laws cmp same_eq (V := V)).
Abbreviation TL := (tree_laws cmp (V := V)).

Lemma ins_all_sorted (es : list (K * V)) : sorted cmp es -> ins_all cmp es = es.
Proof.
  unfold ins_all. induction es as [|e es IH] using rev_ind; [done|]. intros (H1 & _ & H2 & _)%(sorted_app cmp).
  rewrite foldl_snoc, (IH H1), <- (app_nil_r es), (ins_below cmp) by done. rewrite app_nil_r. by destruct e.
Qed.
Lemma ins_not_nil k v (l : list (K * V)) : ins cmp k v l <> [].
Proof. destruct l; cbn; [done|]. by destruct (cmp _ k). Qed.

Definition sorted_map_ok (m : SortedMap K V) : Prop :=
  match m with Array a => map_ok (MapLaws := AL) a | Tree t => map_ok (MapLaws := TL) t /\ Tree.elements t <> [] end.
Definition sorted_map_entries (m : SortedMap K V) : list (K * V) :=
  match m with Array a => a | Tree t => Tree.elements t end.
Definition iterator_ok (m : SortedMap K V) (it : SortedMapIterator K V) : Prop :=
  match m, it with
  | Array a, ArrayIter i => it_ok (MapLaws := AL) a i
  | Tree t, TreeIter i => it_ok (MapLaws := TL) t i
  | _, _ => False
  end.
Definition iterator_rest (it : SortedMapIterator K V) : list (K * V) :=
  match it with ArrayIter i => it_rest (MapLaws := AL) i | TreeIter i => it_rest (MapLaws := TL) i end.

(** The whole map keeps what each of the two does; only insertion into a full array and the erasure of
    a tree's last entry go from one to the other. *)
Lemma sorted_map_insert k v m : sorted_map_ok m -> len (sorted_map_entries m) < 2 ^ 31 - 1 ->
  exists m', SortedMap_insert cmp k v m = Some m' /\ sorted_map_ok m' /\ sorted_map_entries m' = ins cmp k v (sorted_map_entries m).
Proof.
  destruct m as [a|t]; cbn [sorted_map_ok sorted_map_entries]; intros Hok Hlen; cbn [SortedMap_insert].
  - unfold Array_size. destruct (Z.leb_spec kFixedSize (len a)) as [Hf|Hf].
    + destruct Hok as [Ho _]. destruct (Create_spec cmp a) as [E Hw]; [lia|]. rewrite ins_all_sorted in E by done.
      destruct (insert_law (MapLaws := TL) k v (Tree.Create cmp a) Hw) as (t & E2 & Ht & E3); [cbn; rewrite E; lia|].
      exists (Tree t). rewrite E2. cbn in E3. rewrite E in E3. cbn. rewrite E3. split_and!; [done| |apply ins_not_nil|done]. apply Ht.
    + destruct (insert_law (MapLaws := AL) k v a Hok Hf) as (a' & E & H & E2). exists (Array a'). by rewrite E.
  - destruct Hok as [Hok _]. destruct (insert_law (MapLaws := TL) k v t Hok Hlen) as (t' & E & H & E2). exists (Tree t'). rewrite E.
    split_and!; [done| |done]. cbn in *. rewrite E2. split; [done|apply ins_not_nil].
Qed.
Lemma sorted_map_erase k m : sorted_map_ok m ->
  exists m', SortedMap_erase cmp k m = Some m' /\ sorted_map_ok m' /\ sorted_map_entries m' = del cmp k (sorted_map_entries m).
Proof.
  destruct m as [a|t]; cbn [sorted_map_ok sorted_map_entries]; intros Hok; cbn [SortedMap_erase].
  - destruct (erase_law (MapLaws := AL) k a Hok) as (a' & E & H & E2). exists (Array a'). by rewrite E.
  - destruct Hok as [Hok _]. destruct (erase_law (MapLaws := TL) k t Hok) as (t' & E & H & E2). rewrite E. cbn [mbind option_bind].
    destruct (m_empty (MapOps := Tree_ops cmp) t') eqn:Ee.
    + exists (SortedMap_new). apply (empty_law (MapLaws := TL) _ H) in Ee. cbn in E2, Ee. rewrite <- E2, Ee. split_and!; [done| |done].
      split; [constructor|done].
    + exists (Tree t'). split_and!; [done| |done]. split; [done|]. intros En. apply (empty_law (MapLaws := TL) _ H) in En. congruence.
Qed.

(** The map of an initializer list without two keys that compare the same. *)
#[local] Instance not_descending_total : Total (not_descending (V := V) cmp).
Proof.
  intros a b. unfold not_descending. destruct (cmp a.1 b.1) eqn:E; [by left|by left|right]. apply (gt_lt cmp) in E. by rewrite E.
Qed.
#[local] Instance not_descending_trans : Transitive (not_descending (V := V) cmp).
Proof.
  unfold not_descending. intros a b c H1 H2. destruct (cmp a.1 b.1) eqn:E; [by rewrite (eq_l cmp _ _ c.1 E)| |done].
  by rewrite (lt_le cmp a.1 b.1 c.1).
Qed.
Lemma SortedMap_of_list_spec (es : list (K * V)) : NoDup (map fst es) -> len es <= kFixedSize ->
  exists m, SortedMap_of_list cmp es = Some m /\ sorted_map_ok m /\ sorted_map_entries m ≡ₚ es.
Proof.
  intros Hd Hlen. unfold SortedMap_of_list. rewrite (proj2 (Z.leb_le _ _)) by done. unfold SortedArray, std_sort.
  pose proof (merge_sort_Permutation (not_descending cmp) es) as Hp. pose proof (StronglySorted_merge_sort (not_descending cmp) es) as Hs.
  assert (Hl : len (merge_sort (not_descending cmp) es) = len es) by (unfold len; by rewrite Hp).
  rewrite append_some by (rewrite len_nil; lia). exists (Array (merge_sort (not_descending cmp) es)). split_and!; [done| |done].
  split; [|cbn; lia]. assert (Hd' : NoDup (map fst (merge_sort (not_descending cmp) es))) by by rewrite Hp.
  revert Hs Hd'. cbn [sorted_map_entries]. generalize (merge_sort (not_descending cmp) es). clear -W same_eq. intros l.
  induction 1 as [|x l _ IH Hx]; intros Hd; [constructor|]. apply NoDup_cons in Hd as [Hn Hd]. constructor; [by apply IH|].
  rewrite Forall_forall in *. intros y Hy. specialize (Hx y Hy). unfold not_descending in Hx. unfold before.
  destruct (cmp x.1 y.1) eqn:E; [|done|done]. apply same_eq in E. destruct Hn. apply list_elem_of_fmap. by exists y.
Qed.

#[export] Program Instance sorted_map_laws : MapLaws cmp (SortedMap_ops (V := V) cmp) := {
  map_ok := sorted_map_ok;
  entries := sorted_map_entries;
  map_limit := 2 ^ 31 - 1;
  it_ok := iterator_ok;
  it_rest := iterator_rest
}.
Next Obligation. intros [a|t] H; [apply (entries_sorted (MapLaws := AL) _ H)|apply (entries_sorted (MapLaws := TL) _ (proj1 H))]. Qed.
Next Obligation. intros [a|t] H; [apply (size_law (MapLaws := AL) _ H)|apply (size_law (MapLaws := TL) _ (proj1 H))]. Qed.
Next Obligation. intros [a|t] H; [apply (size_bound (MapLaws := AL) _ H)|apply (size_bound (MapLaws := TL) _ (proj1 H))]. Qed.
Next Obligation. intros [a|t] H; [apply (empty_law (MapLaws := AL) _ H)|apply (empty_law (MapLaws := TL) _ (proj1 H))]. Qed.
Next Obligation. intros k v m H Hlen. by apply sorted_map_insert. Qed.
Next Obligation. intros k m H. by apply sorted_map_erase. Qed.
Next Obligation. intros k [a|t] H; [apply (contains_law (MapLaws := AL) k _ H)|apply (contains_law (MapLaws := TL) k _ (proj1 H))]. Qed.
Next Obligation. intros k [a|t] H; [apply (find_index_law (MapLaws := AL) k _ H)|apply (find_index_law (MapLaws := TL) k _ (proj1 H))]. Qed.
Next Obligation. intros k [a|t] H; [apply (find_law (MapLaws := AL) k _ H)|apply (find_law (MapLaws := TL) k _ (proj1 H))]. Qed.
Next Obligation. intros k [a|t] H; [apply (lower_bound_law (MapLaws := AL) k _ H)|apply (lower_bound_law (MapLaws := TL) k _ (proj1 H))]. Qed.
Next Obligation. intros [a|t] H; [apply (begin_law (MapLaws := AL) _ H)|apply (begin_law (MapLaws := TL) _ (proj1 H))]. Qed.
Next Obligation. intros [a|t] H; [apply (min_law (MapLaws := AL) _ H)|apply (min_law (MapLaws := TL) _ (proj1 H))]. Qed.
Next Obligation. intros [a|t] H; [apply (max_law (MapLaws := AL) _ H)|apply (max_law (MapLaws := TL) _ (proj1 H))]. Qed.
Next Obligation. intros [a|t] H; [apply (end_law (MapLaws := AL) _ H)|apply (end_law (MapLaws := TL) _ (proj1 H))]. Qed.
Next Obligation.
  intros [a|t] [i|i] H Hi; try done; [apply (rest_suffix (MapLaws := AL) _ _ H Hi)|apply (rest_suffix (MapLaws := TL) _ _ (proj1 H) Hi)].
Qed.
Next Obligation.
  intros [a|t] [i|i] H Hi; try done; [apply (get_law (MapLaws := AL) _ _ H Hi)|apply (get_law (MapLaws := TL) _ _ (proj1 H) Hi)].
Qed.
Next Obligation.
  intros [a|t] [i|i] H Hi Hn; try done.
  - destruct (next_law (MapLaws := AL) _ _ H Hi Hn) as (j & E & Hj & Er). exists (ArrayIter j). split; [|done]. injection E as <-. done.
  - destruct (next_law (MapLaws := TL) _ _ (proj1 H) Hi Hn) as (j & E & Hj & Er). exists (TreeIter j). split; [|done]. cbn in *. by rewrite E.
Qed.
Next Obligation.
  intros [a|t] [i|i] [j|j] H Hi Hj; try done; [apply (eq_law (MapLaws := AL) _ _ _ H Hi Hj)|apply (eq_law (MapLaws := TL) _ _ _ (proj1 H) Hi Hj)].
Qed.
End sorted_map.

(** ** What follows from the interface *)

Section interface.
Context {K V M It : Type} (cmp : K -> K -> comparison) {W : WeakOrder cmp (fun _ => True)}.
Context {ops : MapOps K V M It} {L : MapLaws cmp ops}.
Implicit Types m : M.

(** The same changes to a list of entries. *)
Definition change_list (l : list (K * V)) (op : MapOp K V) : list (K * V) :=
  match op with Insert k v => ins cmp k v l | Erase k => del cmp k l end.

Lemma change_list_len l op : len (change_list l op) <= len l + 1.
Proof. destruct op as [k v|k]; cbn; [pose proof (ins_length cmp k v l)|pose proof (del_length cmp k l)]; unfold len; lia. Qed.

Lemma change_lists_len changes l : len (foldl change_list l changes) <= len l + len changes.
Proof.
  revert l. induction changes as [|op changes IH]; intros l; cbn [foldl]; [rewrite len_nil; lia|]. rewrite len_cons.
  pose proof (IH (change_list l op)). pose proof (change_list_len l op). lia.
Qed.

Lemma run_spec changes m : map_ok m -> len (entries m) + len changes <= map_limit ->
  exists m', run changes m = Some m' /\ map_ok m' /\ entries m' = foldl change_list (entries m) changes.
Proof.
  revert m. induction changes as [|op changes IH]; intros m Hm Hlen; [by exists m|]. rewrite len_cons in Hlen. pose proof (len_nonneg changes).
  assert (Hc : exists m', change op m = Some m' /\ map_ok m' /\ entries m' = change_list (entries m) op).
  { destruct op as [k v|k]; cbn [change change_list]; [apply insert_law; [done|lia]|by apply erase_law]. }
  destruct Hc as (m1 & E & Hm1 & E1). cbn [run]. rewrite E. cbn [mbind option_bind foldl]. rewrite <- E1. apply IH; [done|].
  rewrite E1. pose proof (change_list_len (entries m) op). lia.
Qed.

(** A loop from one place to a later one sees what lies between. *)
Lemma walk_spec m fuel a b l : map_ok m -> it_ok m a -> it_ok m b -> it_rest a = l ++ it_rest b -> (length l < fuel)%nat ->
  walk fuel (a, b) = Some l.
Proof.
  revert a l. induction fuel as [|fuel IH]; [lia|]. intros a l Hm Ha Hb E Hf. cbn [walk fst snd].
  destruct l as [|e l].
  - by rewrite (proj2 (eq_law m a b Hm Ha Hb)).
  - destruct (it_eq a b) eqn:Eq.
    { apply (eq_law m a b Hm Ha Hb) in Eq. rewrite Eq in E. apply (f_equal length) in E. cbn in E. rewrite length_app in E. lia. }
    rewrite (get_law m a Hm Ha), E. destruct (next_law m a Hm Ha) as (a' & -> & Ha' & E'); [by rewrite E|]. cbn [app head mbind option_bind].
    rewrite (IH a' l); [done|done|done|done|by rewrite E', E|]. cbn in Hf. lia.
Qed.
Lemma walk_view m a b l : map_ok m -> it_ok m a -> it_ok m b -> it_rest a = l ++ it_rest b -> walk (walk_fuel m) (a, b) = Some l.
Proof.
  intros Hm Ha Hb E. apply walk_spec with m; try done. unfold walk_fuel. rewrite (size_law m Hm), len_to_nat.
  destruct (rest_suffix m a Hm Ha) as [p Ep]. rewrite Ep, E, !length_app. lia.
Qed.

Lemma KeysView_spec m : map_ok m -> walk (walk_fuel m) (KeysView m) = Some (entries m).
Proof.
  intros Hm. destruct (begin_law m Hm) as [Hb Eb], (end_law m Hm) as [He Ee]. unfold KeysView.
  apply walk_view; try done. by rewrite Eb, Ee, app_nil_r.
Qed.
Lemma KeysViewFrom_spec m k : map_ok m -> walk (walk_fuel m) (KeysViewFrom m k) = Some (from cmp k (entries m)).
Proof.
  intros Hm. destruct (lower_bound_law k m Hm) as [Hb Eb], (end_law m Hm) as [He Ee]. unfold KeysViewFrom.
  apply walk_view; try done. by rewrite Eb, Ee, app_nil_r.
Qed.

(** The entries whose key is at least [a] and less than [b]. *)
Definition window (a b : K) (l : list (K * V)) : list (K * V) :=
  base.filter (fun e => cmp e.1 a <> Lt /\ cmp e.1 b = Lt) l.

Lemma window_nil a b l : cmp a b <> Lt -> window a b l = [].
Proof.
  intros Hab. unfold window. induction l as [|e l IH]; [done|]. rewrite filter_cons_False; [done|].
  intros [H1 H2]. apply Hab. apply (le_lt cmp a e.1 b); [|done]. by rewrite (gt_lt cmp).
Qed.
Lemma window_above a b l : sorted cmp l -> Forall (fun e => cmp e.1 b <> Lt) l -> window a b l = [].
Proof. intros _. induction 1 as [|e l He _ IH]; [done|]. unfold window. rewrite filter_cons_False; [done|]. tauto. Qed.
Lemma window_from a b l : sorted cmp l -> cmp a b = Lt -> from cmp a l = window a b l ++ from cmp b l.
Proof.
  intros Ho Hab. induction Ho as [|e l Hl IH He]; [done|]. cbn [from]. destruct (decide (cmp e.1 a = Lt)) as [Ea|Ea].
  - rewrite Ea, (lt_trans cmp e.1 a b) by done. unfold window. rewrite filter_cons_False by tauto. done.
  - assert (Ela : from cmp a l = l).
    { destruct l as [|e' l]; [done|]. cbn. apply Forall_cons in He as [He _].
      assert (cmp e'.1 a = Gt) as ->; [|done]. apply (gt_lt cmp). apply (le_lt cmp a e.1 e'.1); [by rewrite (gt_lt cmp)|done]. }
    destruct (decide (cmp e.1 b = Lt)) as [Eb|Eb].
    + unfold window. rewrite filter_cons_True, Eb by done. fold (window a b l). cbn [app]. rewrite <- IH, Ela. by destruct (cmp e.1 a).
    + rewrite (window_above a b (e :: l)); [|by constructor|].
      * cbn [app]. destruct (cmp e.1 a), (cmp e.1 b); done.
      * constructor; [done|]. eapply Forall_impl; [apply He|]. intros x Hx Hxb. apply Eb. by apply (lt_trans cmp) with x.1.
Qed.
Lemma KeysViewIn_spec m a b : map_ok m -> walk (walk_fuel m) (KeysViewIn cmp m a b) = Some (window a b (entries m)).
Proof.
  intros Hm. unfold KeysViewIn. cbv zeta. destruct (end_law m Hm) as [He Ee]. destruct (cmp a b) eqn:Eab; cbn [Ascending negb].
  - rewrite window_nil by congruence. by apply walk_view.
  - destruct (lower_bound_law a m Hm) as [Ha Era], (lower_bound_law b m Hm) as [Hb Erb]. apply walk_view; try done.
    rewrite Era, Erb. apply window_from; [by apply entries_sorted|done].
  - rewrite window_nil by congruence. by apply walk_view.
Qed.
End interface.

(** ** Sets *)

Section sets.
Context {K M It : Type} `{!EqDecision K} (cmp : K -> K -> comparison) {W : WeakOrder cmp (fun _ => True)}.
Hypothesis same_eq : forall a b, cmp a b = Eq -> a = b.
Context {ops : MapOps K unit M It} {L : MapLaws cmp ops}.
Implicit Types s t : M.

Lemma sorted_ext (l1 l2 : list (K * unit)) : sorted cmp l1 -> sorted cmp l2 -> (forall k, assoc cmp k l1 = assoc cmp k l2) -> l1 = l2.
Proof.
  assert (Hirr : forall l : list (K * unit), sorted cmp l -> NoDup l).
  { induction 1 as [|x l _ IH Hx]; constructor; [|done]. intros Hin. rewrite Forall_forall in Hx. apply Hx in Hin.
    unfold before in Hin. by rewrite (same_refl cmp) in Hin. }
  intros H1 H2 E. apply (StronglySorted_unique_strong (before cmp)); [|done|done|].
  - unfold before. intros x y _ _ Hxy Hyx. rewrite (anti cmp), Hxy in Hyx. done.
  - apply NoDup_Permutation; [by apply Hirr..|]. intros [k v]. rewrite <- !(assoc_elem cmp) by done. by rewrite E.
Qed.

Lemma insert_all_run keys s : SortedSet_insert_all keys s = run (map (fun k => Insert k tt) keys) s.
Proof. revert s. induction keys as [|k keys IH]; intros s; [done|]. cbn. unfold SortedSet_insert. destruct (m_insert k tt s); [apply IH|done]. Qed.

Lemma assoc_insert_all keys k (l : list (K * unit)) : sorted cmp l ->
  assoc cmp k (foldl (change_list cmp) l (map (fun k => Insert k tt) keys)) = if decide (k ∈ keys) then Some tt else assoc cmp k l.
Proof.
  revert l. induction keys as [|k' keys IH]; intros l Ho; cbn [map foldl change_list]; [by rewrite decide_False by apply not_elem_of_nil|].
  rewrite IH by by apply sorted_ins. rewrite (assoc_ins cmp) by done. destruct (decide (k ∈ keys)) as [Hk|Hk].
  - by rewrite decide_True by (rewrite elem_of_cons; auto).
  - destruct (decide (k = k')) as [->|Hn].
    + rewrite decide_True by (rewrite elem_of_cons; auto). by rewrite (same_refl cmp).
    + rewrite decide_False by (rewrite elem_of_cons; tauto). destruct (cmp k k') eqn:E; [by apply same_eq in E|done|done].
Qed.

(** Membership, as the abstract set. *)
Definition member k s : bool := match assoc cmp k (entries s) with Some _ => true | None => false end.

Lemma insert_all_spec keys s : map_ok s -> len (entries s) + len keys <= map_limit ->
  exists s', SortedSet_insert_all keys s = Some s' /\ map_ok s' /\ len (entries s') <= len (entries s) + len keys /\
    forall k, assoc cmp k (entries s') = if decide (k ∈ keys) then Some tt else assoc cmp k (entries s).
Proof.
  intros Hs Hlen. rewrite insert_all_run. destruct (run_spec cmp (map (fun k => Insert k tt) keys) s Hs) as (s' & -> & Hs' & E).
  { by rewrite len_map. }
  exists s'. split_and!; [done|done| |].
  - rewrite E. etrans; [apply change_lists_len|]. by rewrite len_map.
  - intros k. rewrite E. apply assoc_insert_all. by apply entries_sorted.
Qed.

Lemma view_all_keys s : map_ok s -> view_keys s (KeysView s) = Some (map fst (entries s)).
Proof. intros Hs. unfold view_keys. by rewrite (KeysView_spec cmp). Qed.

Lemma assoc_keys k s : map_ok s -> assoc cmp k (entries s) = if decide (k ∈ map fst (entries s)) then Some tt else None.
Proof.
  intros Hs. pose proof (entries_sorted s Hs) as Ho. destruct (decide _) as [Hin|Hn].
  - apply list_elem_of_fmap in Hin as ([k' []] & -> & Hin). by apply assoc_elem.
  - destruct (assoc cmp k (entries s)) as [[]|] eqn:E; [|done]. apply (assoc_elem cmp) in E; [|done|done]. destruct Hn. apply list_elem_of_fmap. by exists (k, tt).
Qed.

Lemma union_with_spec s t : map_ok s -> map_ok t -> len (entries s) + len (entries t) <= map_limit ->
  exists u, SortedSet_union_with s t = Some u /\ map_ok u /\
    forall k, assoc cmp k (entries u) = if assoc cmp k (entries s) is Some _ then Some tt else assoc cmp k (entries t).
Proof.
  intros Hs Ht Hlen. unfold SortedSet_union_with. cbv zeta. destruct (m_size s <? m_size t); rewrite view_all_keys by done; cbn [mbind option_bind].
  - destruct (insert_all_spec (map fst (entries s)) t) as (u & -> & Hu & _ & E); [done|rewrite len_map; lia|]. exists u. split_and!; [done|done|].
    intros k. rewrite E, (assoc_keys k s) by done. by destruct (decide _).
  - destruct (insert_all_spec (map fst (entries t)) s) as (u & -> & Hu & _ & E); [done|rewrite len_map; lia|]. exists u. split_and!; [done|done|].
    intros k. rewrite E, (assoc_keys k t) by done. destruct (assoc cmp k (entries s)) as [[]|]; [|done]. by destruct (decide _).
Qed.

Lemma std_equal_spec s t fuel a b : map_ok s -> map_ok t -> it_ok s a -> it_ok t b -> length (it_rest a) = length (it_rest b) ->
  (length (it_rest a) < fuel)%nat ->
  std_equal fuel a (m_end s) b = Some (bool_decide (map fst (it_rest a) = map fst (it_rest b))).
Proof.
  intros Hs Ht. revert a b. induction fuel as [|fuel IH]; [lia|]. intros a b Ha Hb Hlen Hf. cbn [std_equal].
  destruct (end_law s Hs) as [He Ee]. destruct (it_rest a) as [|x ra] eqn:Era, (it_rest b) as [|y rb] eqn:Erb; try done.
  - rewrite (proj2 (eq_law s a (m_end s) Hs Ha He)) by congruence. done.
  - destruct (it_eq a (m_end s)) eqn:Eq; [apply (eq_law s a (m_end s) Hs Ha He) in Eq; congruence|].
    rewrite (get_law s a Hs Ha), (get_law t b Ht Hb), Era, Erb. cbn [head mbind option_bind].
    destruct (next_law s a Hs Ha) as (a' & -> & Ha' & Ea'); [by rewrite Era|]. destruct (next_law t b Ht Hb) as (b' & -> & Hb' & Eb'); [by rewrite Erb|].
    cbn [mbind option_bind]. rewrite Era in Ea'. rewrite Erb in Eb'. cbn [tail] in Ea', Eb'. cbn in Hlen, Hf.
    destruct (bool_decide_reflect (x.1 = y.1)) as [Exy|Exy].
    + rewrite (IH a' b') by (rewrite ?Ea', ?Eb'; try done; lia). rewrite Ea', Eb'. f_equal. apply bool_decide_ext. cbn. rewrite Exy. split; congruence.
    + f_equal. symmetry. apply bool_decide_eq_false. cbn. congruence.
Qed.
Lemma equal_spec s t : map_ok s -> map_ok t -> SortedSet_equal s t = Some (bool_decide (map fst (entries s) = map fst (entries t))).
Proof.
  intros Hs Ht. unfold SortedSet_equal. rewrite !size_law by done. destruct (begin_law s Hs) as [Ha Ea], (begin_law t Ht) as [Hb Eb].
  destruct (Z.eqb_spec (len (entries s)) (len (entries t))) as [E|E]; cbn [negb].
  - rewrite (std_equal_spec s t) by (try done; rewrite ?Ea, ?Eb; unfold walk_fuel, len in *; rewrite ?(size_law s Hs); unfold len; lia). by rewrite Ea, Eb.
  - f_equal. symmetry. apply bool_decide_eq_false. intros Em. apply (f_equal len) in Em. by rewrite !len_map in Em.
Qed.
End sets.

(** ** The claims *)

Section claims.
Context {K V : Type} `{!Inhabited K, !Inhabited V, !EqDecision K, !EqDecision V}.
Context (cmp : K -> K -> comparison) {W : WeakOrder cmp (fun _ => True)}.
Implicit Types changes : list (MapOp K V).

(** The abstract map: a function from keys to values. *)
Definition model_change (f : K -> option V) (op : MapOp K V) : K -> option V :=
  match op with
  | Insert k v => fun k' => if decide (k' = k) then Some v else f k'
  | Erase k => fun k' => if decide (k' = k) then None else f k'
  end.
Definition model changes : K -> option V := foldl model_change (fun _ => None) changes.

Lemma change_list_model l f op : (forall a b, cmp a b = Eq -> a = b) -> sorted cmp l -> (forall k, assoc cmp k l = f k) ->
  sorted cmp (change_list cmp l op) /\ forall k, assoc cmp k (change_list cmp l op) = model_change f op k.
Proof.
  intros Heq Ho Hf. destruct op as [k v|k]; cbn [change_list model_change].
  - split; [by apply sorted_ins|]. intros k'. rewrite (assoc_ins cmp) by done. rewrite Hf. destruct (decide (k' = k)) as [->|Hk].
    + by rewrite (same_refl cmp).
    + destruct (cmp k' k) eqn:E; [by apply Heq in E|done|done].
  - split; [by apply sorted_del|]. intros k'. rewrite (assoc_del cmp), Hf. destruct (decide (k' = k)) as [->|Hk].
    + by rewrite (same_refl cmp).
    + destruct (cmp k' k) eqn:E; [by apply Heq in E|done|done].
Qed.
Lemma change_lists_model changes : (forall a b, cmp a b = Eq -> a = b) ->
  sorted cmp (foldl (change_list cmp) [] changes) /\ forall k, assoc cmp k (foldl (change_list cmp) [] changes) = model changes k.
Proof.
  intros Heq. unfold model. induction changes as [|op changes IH] using rev_ind; [split; [constructor|done]|].
  rewrite !foldl_snoc. destruct IH as [Ho Hf]. by apply change_list_model.
Qed.

Lemma Sorted_get_spec (same_eq : forall a b, cmp a b = Eq -> a = b) k (m : SortedMap K V) : map_ok (MapLaws := sorted_map_laws cmp same_eq) m ->
  SortedMap_get cmp k m = assoc cmp k (sorted_map_entries m).
Proof.
  intros Hm. destruct (find_law (MapLaws := sorted_map_laws cmp same_eq) k m Hm) as [Hf Ef].
  destruct (end_law (MapLaws := sorted_map_laws cmp same_eq) m Hm) as [He Ee].
  pose proof (eq_law (MapLaws := sorted_map_laws cmp same_eq) m _ _ Hm Hf He) as Heq.
  pose proof (get_law (MapLaws := sorted_map_laws cmp same_eq) m _ Hm Hf) as Hg.
  pose proof (entries_sorted (MapLaws := sorted_map_laws cmp same_eq) m Hm) as Ho.
  unfold SortedMap_get. cbv zeta. cbn [m_find m_end it_eq it_get SortedMap_ops entries sorted_map_laws] in *. rewrite Hg, Ef in *. rewrite Ee in Heq.
  rewrite (assoc_head_from cmp) by done. rewrite (assoc_head_from cmp) in Heq by done.
  destruct (iterator_eq cmp _ _); cbn [negb].
  - destruct (from cmp k _) as [|e r]; [done|]. destruct (cmp k e.1); [|done|done]. by discriminate (proj1 Heq eq_refl).
  - destruct (from cmp k _) as [|e r]; [done|]. by destruct (cmp k e.1).
Qed.

(** C9: A sequence of fewer than 2^31 insertions and erasures, of keys there or not, from the empty
    SortedMap is carried out in full, whether it stays an array, becomes a tree or goes back; in the end
    the map is what a function changed in the same way is: get and contains give what was last put at a
    key, the loop over the map sees exactly the entries, each once and in the order of the comparator,
    the size is their number; an array has at most 25 entries, a tree of n entries at most
    2 log2 (n + 1) levels. *)
Theorem sorted_map_model (same_eq : forall a b, cmp a b = Eq -> a = b) changes : len changes < 2 ^ 31 ->
  exists m es, run (ops := SortedMap_ops cmp) changes SortedMap_new = Some m /\
    walk (ops := SortedMap_ops cmp) (walk_fuel (ops := SortedMap_ops cmp) m) (KeysView (ops := SortedMap_ops cmp) m) = Some es /\
    StronglySorted (before cmp) es /\ (forall k v, (k, v) ∈ es <-> model changes k = Some v) /\
    (forall k, SortedMap_get cmp k m = model changes k) /\
    (forall k, SortedMap_contains cmp k m = bool_decide (is_Some (model changes k))) /\
    SortedMap_size cmp m = len es /\
    match m with
    | Array a => len a <= kFixedSize
    | Tree t => Z.of_nat (height t) <= 2 * Z.log2 (len es + 1)
    end.
Proof.
  intros Hlen. set (L := sorted_map_laws cmp same_eq (V := V)).
  assert (H0 : map_ok (MapLaws := L) SortedMap_new) by (split; [constructor|done]).
  destruct (run_spec cmp (L := L) changes SortedMap_new H0) as (m & E & Hm & Em).
  { change (0 + len changes <= 2 ^ 31 - 1). lia. }
  destruct (change_lists_model changes same_eq) as [Ho Hf]. exists m, (entries (MapLaws := L) m). change (entries SortedMap_new) with (@nil (K * V)) in Em.
  rewrite <- Em in Ho, Hf. split_and!; [done|by apply KeysView_spec|done| | | |by apply (size_law (MapLaws := L))|].
  - intros k v. rewrite <- Hf. symmetry. by apply assoc_elem.
  - intros k. rewrite (Sorted_get_spec same_eq) by done. apply Hf.
  - intros k. rewrite <- Hf. etrans; [apply (contains_law (MapLaws := L) k m Hm)|]. by destruct (assoc cmp k _).
  - destruct m as [a|t]; [apply Hm|]. apply (wf_height cmp), Hm.
Qed.

(** C10: The tree alone, under any ordering of the keys (keys that compare equal may be different):
    every sequence of fewer than 2^31 insertions and erasures is carried out within the recursion's
    bound, gives the list of entries changed in the same way, and leaves a left-leaning red-black tree
    with a black root and right sizes, at most 2 log2 (n + 1) levels deep. *)
Theorem tree_stays_balanced changes : len changes < 2 ^ 31 ->
  exists t, run (ops := Tree_ops cmp) changes Tree.EmptyRep = Some t /\
    Tree.elements t = foldl (change_list cmp) [] changes /\ StronglySorted (before cmp) (Tree.elements t) /\
    Tree.size t = len (Tree.elements t) /\ (exists h, legal h Black t) /\
    Z.of_nat (height t) <= 2 * Z.log2 (Tree.size t + 1).
Proof.
  intros Hlen. destruct (run_spec cmp (L := tree_laws cmp (V := V)) changes Tree.EmptyRep (wf_empty cmp)) as (t & E & Hw & Et).
  { change (0 + len changes <= 2 ^ 31 - 1). lia. }
  pose proof (wf_height cmp t Hw). cbn in Hw. destruct Hw as [Ho Hs Hh]. exists t. rewrite (sized_size t Hs). by split_and!.
Qed.

(** C31: The view of the keys from a start to an end key of such a map, walked from its begin to its
    end, is a loop that stops and sees exactly the map's keys not before the start and before the end,
    in order; none at all when the end is not after the start. *)
Theorem keys_in_window (same_eq : forall a b, cmp a b = Eq -> a = b) changes m start_key end_key :
  len changes < 2 ^ 31 -> run (ops := SortedMap_ops cmp) changes SortedMap_new = Some m ->
  exists ks, view_keys (ops := SortedMap_ops cmp) m (KeysViewIn (ops := SortedMap_ops cmp) cmp m start_key end_key) = Some ks /\
    StronglySorted (fun a b => cmp a b = Lt) ks /\
    forall k, k ∈ ks <-> is_Some (model changes k) /\ cmp k start_key <> Lt /\ cmp k end_key = Lt.
Proof.
  intros Hlen Hrun. set (L := sorted_map_laws cmp same_eq (V := V)).
  assert (H0 : map_ok (MapLaws := L) SortedMap_new) by (split; [constructor|done]).
  destruct (run_spec cmp (L := L) changes SortedMap_new H0) as (m' & E & Hm & Em).
  { change (0 + len changes <= 2 ^ 31 - 1). lia. }
  rewrite Hrun in E. injection E as <-. destruct (change_lists_model changes same_eq) as [Ho Hf].
  change (entries SortedMap_new) with (@nil (K * V)) in Em. rewrite <- Em in Ho, Hf.
  exists (map fst (window cmp start_key end_key (entries (MapLaws := L) m))). split_and!.
  - unfold view_keys. rewrite (KeysViewIn_spec cmp (L := L)) by done. done.
  - apply sorted_keys. by apply sorted_filter.
  - intros k. setoid_rewrite list_elem_of_fmap. setoid_rewrite list_elem_of_filter. unfold is_Some. rewrite <- Hf. split.
    + intros ([k' v] & -> & [H1 H2] & Hin). split; [|done]. exists v. by apply assoc_elem.
    + intros [[v Hv] H]. exists (k, v). split; [done|]. split; [done|]. by apply assoc_elem in Hv.
Qed.

(** C32: Two sets made from lists of keys have a union, whichever of the two is walked and put into the
    other; it contains a key exactly when one of the lists does, and the comparison of sets says that
    the unions in the two orders, perhaps built in different ways, are equal. *)
Theorem sorted_set_union (same_eq : forall a b, cmp a b = Eq -> a = b) (xs ys : list K) : len xs + len ys < 2 ^ 31 ->
  let set_of := SortedSet_of_list (ops := SortedMap_ops (V := unit) cmp) SortedMap_new in
  exists s t u u', set_of xs = Some s /\ set_of ys = Some t /\
    SortedSet_union_with (ops := SortedMap_ops cmp) s t = Some u /\ SortedSet_union_with (ops := SortedMap_ops cmp) t s = Some u' /\
    (forall k, SortedSet_contains (ops := SortedMap_ops cmp) k u = bool_decide (k ∈ xs \/ k ∈ ys)) /\
    SortedSet_equal (ops := SortedMap_ops cmp) u u' = Some true.
Proof.
  intros Hlen. cbv zeta. set (L := sorted_map_laws cmp same_eq (V := unit)). unfold SortedSet_of_list.
  pose proof (len_nonneg xs) as Hx. pose proof (len_nonneg ys) as Hy.
  assert (H0 : map_ok (MapLaws := L) SortedMap_new) by (split; [constructor|done]).
  assert (Hnew : forall keys : list K, len keys < 2 ^ 31 -> len (entries (MapLaws := L) SortedMap_new) + len keys <= map_limit (MapLaws := L)).
  { intros keys Hk. change (0 + len keys <= 2 ^ 31 - 1). lia. }
  destruct (insert_all_spec cmp same_eq (L := L) xs SortedMap_new H0) as (s & Es & Hs & Ns & As); [apply Hnew; lia|].
  destruct (insert_all_spec cmp same_eq (L := L) ys SortedMap_new H0) as (t & Et & Ht & Nt & At); [apply Hnew; lia|].
  change (len (entries SortedMap_new)) with 0 in Ns, Nt. change (entries SortedMap_new) with (@nil (K * unit)) in As, At. cbn [assoc] in As, At.
  destruct (union_with_spec cmp same_eq (L := L) s t) as (u & Eu & Hu & Au); [done|done|change (map_limit) with (2 ^ 31 - 1); lia|].
  destruct (union_with_spec cmp same_eq (L := L) t s) as (u' & Eu' & Hu' & Au'); [done|done|change (map_limit) with (2 ^ 31 - 1); lia|].
  exists s, t, u, u'. split_and!; [done|done|done|done| |].
  - intros k. etrans; [apply (contains_law (MapLaws := L) k u Hu)|]. rewrite Au, As, At.
    destruct (decide (k ∈ xs)), (decide (k ∈ ys)); symmetry; first [apply bool_decide_eq_true|apply bool_decide_eq_false]; tauto.
  - rewrite (equal_spec cmp (L := L)) by done. f_equal. apply bool_decide_eq_true. f_equal.
    apply (sorted_ext cmp same_eq); [by apply entries_sorted..|]. intros k. rewrite Au, Au', As, At.
    by destruct (decide (k ∈ xs)), (decide (k ∈ ys)).
Qed.
End claims.

(** ** Examples *)

Module SortedMapExample.
Lemma Z_same_eq (a b : Z) : (a ?= b) = Eq -> a = b.
Proof. apply Z.compare_eq. Qed.

(** Forty entries, out of order, one of them put in again; then half of them are erased, and a key
    that is not there. *)
Definition changes : list (MapOp Z Z) :=
  map (fun i => Insert ((i * 7) `mod` 41) i) (seqZ 1 40) ++ [Insert 5 500] ++ map (fun i => Erase (2 * i)) (seqZ 1 20) ++ [Erase 99].
(** All of them are erased again. *)
Definition emptied : list (MapOp Z Z) := changes ++ map Erase (seqZ 0 42).

Lemma sorted_map_model_witness : exists m es, run (ops := SortedMap_ops Z.compare) changes SortedMap_new = Some m /\
  walk (ops := SortedMap_ops Z.compare) (walk_fuel (ops := SortedMap_ops Z.compare) m) (KeysView (ops := SortedMap_ops Z.compare) m) = Some es /\
  SortedMap_get Z.compare 5 m = Some 500 /\ SortedMap_get Z.compare 7 m = Some 1 /\ SortedMap_get Z.compare 8 m = None /\ SortedMap_size Z.compare m = len es.
Proof.
  destruct (sorted_map_model Z.compare Z_same_eq changes) as (m & es & H1 & H2 & _ & _ & H3 & _ & H4 & _); [vm_compute; reflexivity|].
  exists m, es. rewrite !H3, H4. split; [exact H1|]. split; [exact H2|]. vm_compute. auto.
Defined.

(** Back to an array when nothing is left, and the tree in between. *)
Example changes_shapes :
  (exists t, run (ops := SortedMap_ops Z.compare) changes SortedMap_new = Some (Tree t)) /\
  run (ops := SortedMap_ops Z.compare) emptied SortedMap_new = Some (Array []).
Proof. split; [eexists|]; vm_compute; reflexivity. Qed.

(** An initializer list with a key twice: an array keeps both entries, a tree would keep the last. *)
Example array_keeps_duplicates :
  SortedMap_of_list Z.compare [(1, 1); (1, 2)] = Some (Array [(1, 1); (1, 2)]) /\ Tree.elements (Tree.Create Z.compare [(1, 1); (1, 2)]) = [(1, 2)].
Proof. split; vm_compute; reflexivity. Qed.

Lemma tree_stays_balanced_witness : exists t, run (ops := Tree_ops Z.compare) changes Tree.EmptyRep = Some t /\
  Tree.size t = 20 /\ Z.of_nat (height t) <= 8.
Proof.
  destruct (tree_stays_balanced Z.compare changes) as (t & H & He & _ & Hs & _ & Hh); [vm_compute; reflexivity|].
  assert (E : Tree.size t = 20) by (rewrite Hs, He; vm_compute; reflexivity). rewrite E in Hh. exists t. split; [exact H|]. split; [exact E|exact Hh].
Defined.

Definition keys_6_20 : option (list Z) :=
  m ← run (ops := SortedMap_ops Z.compare) changes SortedMap_new;
  view_keys (ops := SortedMap_ops Z.compare) m (KeysViewIn (ops := SortedMap_ops Z.compare) Z.compare m 6 20).
Example keys_6_20_value : keys_6_20 = Some [7; 9; 11; 13; 15; 17; 19].
Proof. vm_compute. reflexivity. Qed.

Lemma keys_in_window_witness : exists m ks, run (ops := SortedMap_ops Z.compare) changes SortedMap_new = Some m /\
  view_keys (ops := SortedMap_ops Z.compare) m (KeysViewIn (ops := SortedMap_ops Z.compare) Z.compare m 6 20) = Some ks /\ 7 ∈ ks.
Proof.
  assert (Hm : exists m, run (ops := SortedMap_ops Z.compare) changes SortedMap_new = Some m) by (eexists; vm_compute; reflexivity).
  destruct Hm as [m Hm]. destruct (keys_in_window Z.compare Z_same_eq changes m 6 20) as (ks & E & _ & H); [vm_compute; reflexivity|exact Hm|].
  exists m, ks. split; [exact Hm|]. split; [exact E|]. apply H. split; [exists 1; vm_compute; reflexivity|]. split; [discriminate|reflexivity].
Defined.

Lemma sorted_set_union_witness : exists s t u,
  SortedSet_of_list (ops := SortedMap_ops Z.compare) SortedMap_new (seqZ 0 30) = Some s /\
  SortedSet_of_list (ops := SortedMap_ops Z.compare) SortedMap_new [40; 3; 35] = Some t /\
  SortedSet_union_with (ops := SortedMap_ops Z.compare) s t = Some u /\
  SortedSet_contains (ops := SortedMap_ops Z.compare) 35 u = true.
Proof.
  destruct (sorted_set_union Z.compare Z_same_eq (seqZ 0 30) [40; 3; 35]) as (s & t & u & _ & H1 & H2 & H3 & _ & H4 & _); [vm_compute; reflexivity|].
  exists s, t, u. split; [exact H1|]. split; [exact H2|]. split; [exact H3|]. rewrite H4. vm_compute. reflexivity.
Defined.
End SortedMapExample.
